(* ===== verification/_CoqProject ===== *)
-Q . S2P
Prelude.v
Queue.v
Utils.v
Sds.v
SdsText.v
Event.v
Socket.v
Config.v
Worker.v
WorkerFacts.v
SimpleServer.v
WorkerProps.v
Dispatcher.v
Crc32c.v
Hash.v
Zmalloc.v
Slice.v
Status.v
Stat.v
KeyLock.v
UrlSnprintf.v
UrlFacts.v
IntrusiveList.v
File.v
Log.v
Gsdm.v
Proxy.v
Lock.v
Pack.v
Helpers.v
SysInfo.v
EvHeap.v
EvLoop.v
EvTimer.v
EvIo.v
EvRun.v
EvClock.v
EvEvent.v
EvProps.v
HttpParser.v
HttpFacts.v
HttpRun.v
HttpSplit.v
HttpMessage.v
HttpOrder.v
HttpUrl.v
HttpLib.v
HttpPool.v
HttpOps.v
HttpEvents.v
HttpDeliver.v
HttpClientProps.v
HttpInterface.v
HttpParseUrl.v
NewLexer.v
NewLexerFacts.v
NewConfig.v
NewConfigFacts.v
NewConfigParse.v
NewConfigTree.v
NewConfigProps.v
