(* ===== verification/Prelude.v ===== *)
(** * spigeon: a verification of the server framework

    ** The program

    spigeon is a C++ framework for multi-threaded network servers.  A
    GenericServer (src/server/server.cpp) owns a GenericDispatcher
    (dispatcher.cpp), which accepts connections through a NetworkManager
    (network_manager.cpp, socket.cpp and its subclasses) and hands each socket
    round robin to one of several GenericWorker threads (worker.cpp): it puts the
    socket into the worker's lock-free queue (util/queue.h) and writes a message
    to the worker's pipe.  A worker runs an EventLoop (event.cpp, on libev), makes
    a Connection object per socket (connection.cpp, tcp_connection.cpp,
    udp_connection.cpp), reads into a dynamic string (util/sds.cpp), calls the
    application's handler when the bytes it expects are there, queues the replies
    and sends them when the socket is writable.  The example applications are an
    echo server with framed requests, a UDP server and an HTTP proxy over
    src/client/http_client.cpp; src/gsdm is a second kind of worker that exchanges
    commands with others through queues and datagrams.  Around this are the
    utilities of src/util: configuration files, allocator, strings and numbers,
    checksums and hashes, slices, status objects, statistics, locks, logging,
    files, formatted output, packs and intrusive lists.

    ** The files

    - Prelude: outcomes (a result or a trap: failed assertion, access out of
      bounds, use after free, abort, undefined behaviour, exhausted loop bound),
      integers of fixed width as Z with explicit wrapping, byte blocks with
      checked accesses, C strings, the allocator interface, tactics.
    - Queue: util/queue.h.  Module Seq has the operations on a heap of nodes,
      Module Conc the same operations cut at their memory accesses and
      interleaved; class Fifo is what the workers rely on.
    - Utils: util/utils.cpp.  Sds, SdsText: util/sds.cpp.
    - Event: server/event.cpp with the watcher primitives of libev it calls.
    - Socket: server/socket.cpp, tcp_socket.cpp, udp_socket.cpp,
      ipv4_address.cpp, network_manager.cpp.  Class Kernel stands for the system
      calls, KernelLaws for their documented bounds.
    - Config: util/config_file.cpp and the options of server.cpp.
    - Worker, WorkerFacts, WorkerProps: server/worker.cpp and the connection
      classes; the worker's state with every handler, the simulation of its
      traffic, and theorems on the transition system.
    - SimpleServer: the echo server demo on top of Worker, with util/nshead.h.
    - Dispatcher: server/dispatcher.cpp, server.cpp, thread.cpp.
    - Crc32c, Hash, Zmalloc, Slice, Status, Stat, KeyLock: the files of src/util
      with these names (zmalloc.cpp in the build without malloc_size).
    - UrlSnprintf, UrlFacts: util/url_snprintf.cpp and its theorems.  Doubles are
      binary64 by the IEEE 754 specification of the Standard Library.
    - IntrusiveList: util/list.h.  File: util/file.cpp over a file system given
      by class FileSystem.  Log: util/log.cpp and log.h.
    - Gsdm: gsdm/new_worker.cpp.  Proxy: client/http_client.cpp and the
      http-proxy demo.  Lock: util/lock.h.  Pack: util/pack.cpp.  Helpers:
      util/string.cpp, util/profiler.h and the handler of the UDP demo.
      SysInfo: getRandomHexChars, d2string and zmalloc_get_rss.
    - EvHeap, EvLoop, EvRun, EvClock: the loop of libev (deps/libev-4.11/ev.c)
      that event.cpp is built on: the heap of timers, descriptors and their
      watchers, the queues of pending watchers, ev_run, suspend and resume.
      EvTimer and EvIo hold their invariants, EvEvent runs the operations of
      event.cpp on this loop, EvProps has the theorems.
    - HttpParser: http_parser_execute (deps/evhttpclient/http_parser.c), one
      definition per case of its switch; HttpFacts, HttpRun, HttpSplit,
      HttpMessage and HttpOrder its invariants, the independence of the splitting
      of the input, and the order of its callbacks.  HttpParseUrl:
      http_parser_parse_url.
    - HttpUrl: url.h.  HttpLib: evhttpclient.cpp over the parser, with class
      World for sockets, clock, name resolution and the application.  HttpPool,
      HttpOps, HttpEvents, HttpDeliver: its heap invariant and what each
      operation and event does; HttpClientProps: the theorems.  HttpInterface:
      the library meets the interface that Proxy assumes of it.
    - NewLexer, NewConfig: the configuration library (deps/new-config): the rules
      of its lexer, and the tree of nodes in a heap.  NewLexerFacts,
      NewConfigFacts, NewConfigParse: the invariants of lexer, tree and parser;
      NewConfigTree: what a printed tree is parsed into; NewConfigProps: the
      theorems, and the loader of util/config_file.cpp on this library.

    The state of a class is a Record, a method a function from the state to an
    outcome of the result and the new state, a loop a Fixpoint with fuel or on
    the data.  Objects reached through pointers live in finite maps by address,
    so that sharing, deletion and stale pointers are visible.  Code outside the
    repository (the kernel, the C library's formatting, the packing library, the
    file system) is a class parameter with the laws it documents; each such class
    has an instance the witnesses run on.

    ** The theorems

    - The server as a whole: in every state reachable by connections, reads,
      writes, timers and notifications, with any splitting of the traffic, no
      handler traps, the bytes sent and queued are the requests received, one
      connection does not affect another, buffers stay bounded, idle connections
      are closed and complete requests are answered and flushed (SimpleServer,
      WorkerProps).
    - Between threads: the lock-free queue refines a FIFO queue and is memory
      safe under every interleaving of one producer and one consumer (Queue);
      sockets are handed over in order, also when a worker runs between the
      steps of a dispatch, and evenly (Dispatcher); commands between workers
      whose queues were set up first are delivered in order and none is held
      back unless its datagram was lost (Gsdm); key locks (for keys below 2^31
      bytes), read-write locks and condition variables exclude as they should
      (KeyLock, Lock); the log files hold the lines in the order logged (Log).
    - The event loop: the heap, the descriptor lists and the pending queues stay
      consistent under every operation, also from inside callbacks; one round
      calls exactly what was ready; timers fire in the order they are due; the
      kernel is told the events that watchers want; and event.cpp on this loop is
      the interface Event that the workers are proved against (EvProps).
    - The HTTP client: the parser returns on every input and makes its callbacks
      in the order of the protocol (HttpOrder), splitting a url stays within it
      (HttpParseUrl); a printed url is parsed to its parts, unless it has no port
      and a colon behind the host (HttpUrl); the client, given a callback with
      each request, handles every event but a full read block and a timer after
      a malformed response; each request is called back once or still served; a
      response with a Content-Length is delivered however its bytes are split,
      and a failed connection is replaced or reported (HttpClientProps); the
      library is an instance of the interface the proxy relies on
      (HttpInterface).
    - Refinements: sds strings are byte strings (Sds), the allocator is a heap
      with an accurate statistic (Zmalloc), a Status is a value (Status), the
      intrusive lists are sequences (IntrusiveList).
    - Equivalences: the table-driven checksum is the bit-at-a-time CRC-32C, and
      detects bursts (Crc32c); the hash is MurmurHash2 (Hash); compare is the
      lexicographic order (Slice); the three statistics queries agree (Stat);
      the long conversion of url_snprintf prints decimal numbers (UrlFacts).
    - Configuration files: no file makes the library fail or leak, what is looked
      up is what was written (values not being empty), and loading the text of a
      file sets the options that its items name (NewConfigProps, Config).
    - Round trips: quoting and parsing of arguments (SdsText), number parsing and
      printing (Utils), percent encoding (UrlFacts), paths (File).
    - Bounds and errors: formatted output and log lines stay in their buffers
      (UrlFacts, Log), configuration entries set exactly their slot (Config),
      directories are created or an error is returned (File), the proxy settles
      each request once (with no reply when the backend request failed) and its
      replies are well formed (Proxy), scratch buffers are freed once (Pack).
    - Defects the modelling showed are theorems too where they can be stated so:
      udp_write_never_ends, proxy_pipelining_crashes, log_close_loses_line,
      log_names_collide, add_blank_overruns, create_dir_doubled_slash,
      url_pads_both_sides, url_overruns_full_buffer, url_reads_past_format,
      stat_after_destroy, parse_conf_unbalanced, tryrdlock_kills,
      string_append_replaces, udp_demo_reads_past_literal, pack_sub_leaks,
      rss_name_with_blank, parse_url_foreign_digits, config_reopened_group,
      config_reread_dangles, octal_escape_wrong.

    ** Bounds and fuel

    Fuel never decides a result: the theorems that an operation returns give an
    amount that suffices.  The write loops of a worker get one round per queued
    byte and two more; the CRC loops get size + 4 rounds (every round consumes a
    byte, and at most three more are needed to align); the hash gets a round per
    byte and two more; the digit loops of formatted output a round per character
    of their buffer; the scaling loops of doubles 400 and 20 rounds, more than
    the decimal exponents of binary64 need; list traversals a round per node;
    create_dir a round per path component; the queue's reclaim loop a round per
    node of the heap; sifting in the timer heap a round per level; timers_reify
    a round per timer; a pending queue a round per entry and one more (callbacks
    withdraw entries and add none); a byte of an HTTP message is executed at
    most four times (a rank of the states decreases), and the byte loop gets a
    round per byte and one more; the lexer of configuration files consumes a
    character per rule, the parser one per token, and freeing a tree takes a
    round per node.  Configuration files are assumed shorter than 2^31 bytes, so
    that line numbers do not overflow.  Buffer limits of the server are assumed below
    2^30 - 2^20, so that the int fields of an sds header do not overflow; past
    it they do, which is a finding.

    ** Where the models read the code with goodwill

    Connection::read and write end without a return statement; the models take
    the value of the socket call, which is what the callers need and a compiler
    leaves in the return register.  The int addition in sdsrange wraps (it can
    overflow only for the range 0 to INT_MAX, where the sum is not used).  The
    text of snprintf is taken to be shorter than INT_MAX and formatting not to
    fail.  The consumer of the lock-free queue reads a node's link and value in
    one step: the producer has written both before the node is reachable and
    does not write them again.  The allocator's counter is updated by one thread
    at a time; that it is not in the program is a finding.  The line buffers of
    the configuration library and the ownership of its error text are not in its
    model, nor is its fclose.

    ** Not modelled

    libev's periodic, signal, child, stat, idle, prepare, check, fork and async
    watchers, its realtime clock and the kernel side of its back ends; jemalloc,
    protobuf and the other vendored libraries; destructors that only release
    memory; main programs and unit tests; printf formatting of the C library (its
    text enters as a string); the fragmentation ratio of the allocator (a float
    division); list_entry (address arithmetic on the enclosing structure); weak
    memory: the queue and the locks are proved for sequentially consistent
    accesses, as the comments of the code assume for x86-64; process_query_buffer
    of the proxy, written against an older interface. *)

From stdpp Require Export base list gmap strings.
From Stdlib Require Export ZArith Lia ZifyBool.
From Stdlib Require Ascii String.

#[export] Set Default Goal Selector "!".

Declare Scope spigeon_scope.
Delimit Scope spigeon_scope with spg.
Open Scope Z_scope.

(** ** Outcomes

    Every operation of the program that can assert, index out of range,
    dereference a null or freed pointer, or loop, returns an [outcome]. *)

Inductive trap : Set :=
| AssertFailed      (** [assert]/[ASSERT] of a false condition *)
| OutOfBounds       (** access outside an allocated block or vector *)
| NullDeref         (** access through a null pointer *)
| UseAfterFree      (** access to a deleted object *)
| DivByZero         (** integer division or remainder by zero *)
| Aborted           (** [abort()] *)
| Undefined         (** an operation C++ leaves undefined *)
| OutOfFuel.        (** the bound on a loop was reached *)

Inductive outcome (A : Type) : Type :=
| Ok (a : A)
| Trap (t : trap).
Arguments Ok {A} a.
Arguments Trap {A} t.

#[export] Instance outcome_ret : MRet outcome := fun A a => Ok a.
#[export] Instance outcome_bind : MBind outcome := fun A B f m =>
  match m with Ok a => f a | Trap t => Trap t end.
#[export] Instance outcome_fmap : FMap outcome := fun A B f m =>
  match m with Ok a => Ok (f a) | Trap t => Trap t end.

#[export] Instance trap_eq_dec : EqDecision trap.
Proof. solve_decision. Defined.
#[export] Instance outcome_eq_dec `{EqDecision A} : EqDecision (outcome A).
Proof. solve_decision. Defined.

(** [guard_trap b t k] is the code's test of a memory-safety condition. *)
Definition guard_trap {A} (b : bool) (t : trap) (k : outcome A) : outcome A :=
  if b then k else Trap t.

Lemma bind_Ok_inv {A B} (m : outcome A) (f : A -> outcome B) (b : B) :
  m ≫= f = Ok b -> exists a, m = Ok a /\ f a = Ok b.
Proof. destruct m; simpl; [eauto | discriminate]. Qed.

Lemma guard_trap_true {A} (b : bool) t (k : outcome A) :
  b = true -> guard_trap b t k = k.
Proof. by intros ->. Qed.

(** ** Fixed-width integers

    A w-bit unsigned integer is a [Z] in [0, 2^w); a signed one a [Z] in
    [-2^(w-1), 2^(w-1)).  The wrap functions are the conversions of C++. *)

Definition uwrap (w z : Z) : Z := z mod 2 ^ w.
Definition swrap (w z : Z) : Z := (z + 2 ^ (w - 1)) mod 2 ^ w - 2 ^ (w - 1).

Abbreviation u8 := (uwrap 8).
Abbreviation u16 := (uwrap 16).
Abbreviation u32 := (uwrap 32).
Abbreviation u64 := (uwrap 64).
Abbreviation s32 := (swrap 32).
Abbreviation s64 := (swrap 64).

Definition INT_MAX : Z := 2 ^ 31 - 1.
Definition INT_MIN : Z := - 2 ^ 31.
Definition UINT_MAX : Z := 2 ^ 32 - 1.
Definition LLONG_MAX : Z := 2 ^ 63 - 1.
Definition LLONG_MIN : Z := - 2 ^ 63.
Definition ULLONG_MAX : Z := 2 ^ 64 - 1.
Definition SIZE_MAX : Z := 2 ^ 64 - 1.

Lemma uwrap_range w z : 0 <= w -> 0 <= uwrap w z < 2 ^ w.
Proof. intros. apply Z.mod_pos_bound. lia. Qed.

Lemma uwrap_small w z : 0 <= z < 2 ^ w -> uwrap w z = z.
Proof. apply Z.mod_small. Qed.

Lemma uwrap_idem w z : 0 <= w -> uwrap w (uwrap w z) = uwrap w z.
Proof. intros. apply uwrap_small, uwrap_range. done. Qed.

Lemma swrap_small w z : 0 < w -> - 2 ^ (w - 1) <= z < 2 ^ (w - 1) -> swrap w z = z.
Proof.
  intros Hw Hz. unfold swrap. rewrite Z.mod_small; [lia|].
  replace (2 ^ w) with (2 * 2 ^ (w - 1)); [lia|].
  rewrite <-Z.pow_succ_r by lia. f_equal. lia.
Qed.

Lemma swrap_range w z : 0 < w -> - 2 ^ (w - 1) <= swrap w z < 2 ^ (w - 1).
Proof.
  intros Hw. unfold swrap.
  pose proof (Z.mod_pos_bound (z + 2 ^ (w - 1)) (2 ^ w) ltac:(lia)) as Hb.
  replace (2 ^ w) with (2 * 2 ^ (w - 1)) in *; [lia|].
  rewrite <-Z.pow_succ_r by lia. f_equal. lia.
Qed.

(** The common instances, in the form [lia] can use. *)
Lemma u64_small z : 0 <= z < 2 ^ 64 -> u64 z = z.
Proof. apply uwrap_small. Qed.
Lemma u32_small z : 0 <= z < 2 ^ 32 -> u32 z = z.
Proof. apply uwrap_small. Qed.
Lemma s32_small z : - 2 ^ 31 <= z < 2 ^ 31 -> s32 z = z.
Proof. intros. by apply swrap_small. Qed.
Lemma s64_small z : - 2 ^ 63 <= z < 2 ^ 63 -> s64 z = z.
Proof. intros. by apply swrap_small. Qed.

(** Negative [int] converted to [size_t]. *)
Lemma u64_neg z : - 2 ^ 64 <= z < 0 -> u64 z = z + 2 ^ 64.
Proof.
  intros Hz. unfold uwrap. symmetry. apply Z.mod_unique with (-1); lia.
Qed.

(** ** Bytes, characters and C strings

    A byte is a [Z] in [0, 256).  A block of memory is a list of bytes; a C
    string is read from a block up to its first zero byte. *)

Abbreviation bytes := (list Z).

Definition is_byte (b : Z) : Prop := 0 <= b < 256.
Definition is_bytes (l : bytes) : Prop := Forall is_byte l.

#[export] Instance is_byte_dec b : Decision (is_byte b).
Proof. unfold is_byte. apply _. Defined.
#[export] Instance is_bytes_dec l : Decision (is_bytes l).
Proof. unfold is_bytes. apply _. Defined.

(** A string literal as the bytes before its terminator. *)
Fixpoint str (s : String.string) : bytes :=
  match s with
  | String.EmptyString => []
  | String.String c s => Z.of_N (Ascii.N_of_ascii c) :: str s
  end.

(** The code of a character literal. *)
Definition chr (c : Ascii.ascii) : Z := Z.of_N (Ascii.N_of_ascii c).

(** ctype.h in the "C" locale. *)
Definition isdigit (c : Z) : bool := (48 <=? c) && (c <=? 57).
Definition isspace (c : Z) : bool := (c =? 32) || ((9 <=? c) && (c <=? 13)).
Definition isprint (c : Z) : bool := (32 <=? c) && (c <=? 126).
Definition isupper (c : Z) : bool := (65 <=? c) && (c <=? 90).
Definition islower (c : Z) : bool := (97 <=? c) && (c <=? 122).
Definition tolower (c : Z) : Z := if isupper c then c + 32 else c.
Definition toupper (c : Z) : Z := if islower c then c - 32 else c.

(** [strlen]: the index of the first zero byte; running off the block traps. *)
Fixpoint strlen (m : bytes) : outcome nat :=
  match m with
  | [] => Trap OutOfBounds
  | c :: m => if c =? 0 then Ok O else n ← strlen m; Ok (S n)
  end.

(** [cstr m] is the C string held by the block [m]. *)
Fixpoint cstr (m : bytes) : bytes :=
  match m with
  | [] => []
  | c :: m => if c =? 0 then [] else c :: cstr m
  end.

(** [strcasecmp(a,b) == 0] on C strings. *)
Fixpoint strcaseeq (a b : bytes) : bool :=
  match a, b with
  | [], [] => true
  | x :: a, y :: b => (tolower x =? tolower y) && strcaseeq a b
  | _, _ => false
  end.

(** [memcmp] on two blocks of the same length: the sign of the first
    difference. *)
Fixpoint memcmp (a b : bytes) : Z :=
  match a, b with
  | x :: a, y :: b => if x <? y then -1 else if y <? x then 1 else memcmp a b
  | _, _ => 0
  end.

(** Checked block accesses. *)
Definition load (m : bytes) (i : Z) : outcome Z :=
  if i <? 0 then Trap OutOfBounds else
  match m !! Z.to_nat i with Some b => Ok b | None => Trap OutOfBounds end.

Definition store (m : bytes) (i : Z) (b : Z) : outcome bytes :=
  if (0 <=? i) && (i <? Z.of_nat (length m))
  then Ok (<[Z.to_nat i := b]> m) else Trap OutOfBounds.

(** [memcpy(m + i, src, |src|)]. *)
Definition memcpy (m : bytes) (i : Z) (src : bytes) : outcome bytes :=
  if (0 <=? i) && (i + Z.of_nat (length src) <=? Z.of_nat (length m))
  then Ok (take (Z.to_nat i) m ++ src ++ drop (Z.to_nat i + length src) m)
  else Trap OutOfBounds.

(** The [n] bytes read from [m + i]. *)
Definition read_block (m : bytes) (i n : Z) : outcome bytes :=
  if (0 <=? i) && (0 <=? n) && (i + n <=? Z.of_nat (length m))
  then Ok (take (Z.to_nat n) (drop (Z.to_nat i) m)) else Trap OutOfBounds.

(** ** Little-endian integers (x86-64) *)

Fixpoint le_val (l : bytes) : Z :=
  match l with [] => 0 | b :: l => b + 256 * le_val l end.

Fixpoint le_bytes (n : nat) (z : Z) : bytes :=
  match n with O => [] | S n => z mod 256 :: le_bytes n (z / 256) end.

(** ** Tactics *)

(** Reduce the boolean tests of a goal whose outcome [lia] decides. *)
Ltac decide_tests :=
  repeat match goal with
  | |- context [?a <=? ?b] =>
      first [ replace (a <=? b) with true by lia | replace (a <=? b) with false by lia ]
  | |- context [?a <? ?b] =>
      first [ replace (a <? b) with true by lia | replace (a <? b) with false by lia ]
  | |- context [?a =? ?b] =>
      first [ replace (a =? b) with true by lia | replace (a =? b) with false by lia ]
  end; cbn [andb orb negb].

(** Invert a successful bind. *)
Ltac inv_bind H :=
  let a := fresh "a" in let E := fresh "E" in
  apply bind_Ok_inv in H; destruct H as (a & E & H).

(** Evaluate a decidable proposition about concrete data. *)
Ltac decide_vm := apply (bool_decide_unpack _); vm_compute; exact I.

(** ** Shared lemmas *)

Lemma memcpy_app (a b c src : bytes) (i : Z) :
  i = Z.of_nat (length a) -> length b = length src ->
  memcpy (a ++ b ++ c) i src = Ok (a ++ src ++ c).
Proof.
  intros -> Hb. unfold memcpy. rewrite !length_app. decide_tests.
  rewrite Nat2Z.id, take_app_length, <-Hb.
  by rewrite (app_assoc a b c), <-length_app, drop_app_length.
Qed.

Lemma store_app (a c : bytes) (x b i : Z) :
  i = Z.of_nat (length a) -> store (a ++ x :: c) i b = Ok (a ++ b :: c).
Proof.
  intros ->. unfold store. rewrite length_app. simpl length. decide_tests.
  by rewrite Nat2Z.id, insert_app_r_alt, Nat.sub_diag by lia.
Qed.

Lemma load_app (a c : bytes) (x i : Z) :
  i = Z.of_nat (length a) -> load (a ++ x :: c) i = Ok x.
Proof.
  intros ->. unfold load. decide_tests.
  by rewrite Nat2Z.id, list_lookup_middle.
Qed.

Lemma read_block_app (a b c : bytes) (i n : Z) :
  i = Z.of_nat (length a) -> n = Z.of_nat (length b) ->
  read_block (a ++ b ++ c) i n = Ok b.
Proof.
  intros -> ->. unfold read_block. rewrite !length_app. decide_tests.
  by rewrite !Nat2Z.id, drop_app_length, take_app_length.
Qed.

Lemma memcpy_0 (b c src : bytes) :
  length b = length src -> memcpy (b ++ c) 0 src = Ok (src ++ c).
Proof. apply (memcpy_app [] b c src 0 eq_refl). Qed.

Lemma memcpy_front (m src : bytes) :
  (length src <= length m)%nat -> memcpy m 0 src = Ok (src ++ drop (length src) m).
Proof. intros. unfold memcpy. decide_tests. done. Qed.

Lemma read_block_0 (b c : bytes) (n : Z) :
  n = Z.of_nat (length b) -> read_block (b ++ c) 0 n = Ok b.
Proof. apply (read_block_app [] b c 0 n eq_refl). Qed.

Lemma store_length m i b m' : store m i b = Ok m' -> length m' = length m.
Proof. unfold store. case_match; [|done]. intros [= <-]. apply length_insert. Qed.

Lemma memcpy_length m i src m' : memcpy m i src = Ok m' -> length m' = length m.
Proof.
  unfold memcpy. case_match; [|done]. intros [= <-].
  rewrite !length_app, length_take, length_drop. lia.
Qed.

Definition no_nul (s : bytes) : Prop := Forall (fun c => c <> 0) s.

Lemma cstr_app (s rest : bytes) : no_nul s -> cstr (s ++ 0 :: rest) = s.
Proof.
  induction 1 as [|c s Hc _ IH]; simpl; [done|].
  by rewrite (proj2 (Z.eqb_neq c 0)), IH.
Qed.

Lemma strlen_app (s rest : bytes) : no_nul s -> strlen (s ++ 0 :: rest) = Ok (length s).
Proof.
  induction 1 as [|c s Hc _ IH]; simpl; [done|].
  by rewrite (proj2 (Z.eqb_neq c 0)), IH.
Qed.

Lemma cstr_no_nul (m : bytes) : no_nul (cstr m).
Proof.
  induction m as [|c m IH]; simpl; [constructor|].
  destruct (Z.eqb_spec c 0); [constructor|by constructor].
Qed.

Lemma strlen_cstr (m : bytes) n : strlen m = Ok n -> n = length (cstr m).
Proof.
  revert n. induction m as [|c m IH]; intros n; simpl; [done|].
  destruct (c =? 0); [by intros [= <-]|].
  destruct (strlen m); simpl; [|done]. intros [= <-]. simpl. f_equal. auto.
Qed.

Lemma memcmp_refl (a : bytes) : memcmp a a = 0.
Proof. induction a; simpl; rewrite ?Z.ltb_irrefl; done. Qed.

Lemma memcmp_0 (a b : bytes) : length a = length b -> memcmp a b = 0 -> a = b.
Proof.
  revert b. induction a as [|x a IH]; intros [|y b]; simpl; try done.
  intros [= Hl]. destruct (Z.ltb_spec x y); [done|].
  destruct (Z.ltb_spec y x); [done|]. intros H1.
  f_equal; [lia|]. by apply IH.
Qed.

Lemma memcmp_antisym (a b : bytes) : memcmp a b = - memcmp b a.
Proof.
  revert b. induction a as [|x a IH]; intros [|y b]; simpl; try done.
  destruct (Z.ltb_spec x y), (Z.ltb_spec y x); try done; lia.
Qed.

Lemma memcmp_sign (a b : bytes) : memcmp a b = -1 \/ memcmp a b = 0 \/ memcmp a b = 1.
Proof.
  revert b. induction a as [|x a IH]; intros [|y b]; simpl; auto.
  destruct (x <? y), (y <? x); auto.
Qed.

Lemma strcaseeq_refl (a : bytes) : strcaseeq a a = true.
Proof. induction a; simpl; [done|]. by rewrite Z.eqb_refl. Qed.

Lemma le_bytes_length n z : length (le_bytes n z) = n.
Proof. revert z. induction n; simpl; auto. Qed.

Lemma le_bytes_is_bytes n z : is_bytes (le_bytes n z).
Proof.
  revert z. induction n; intros z; simpl; constructor; [|apply IHn].
  unfold is_byte. apply Z.mod_pos_bound. lia.
Qed.

Lemma le_val_bytes n z : le_val (le_bytes n z) = z mod 2 ^ (8 * Z.of_nat n).
Proof.
  revert z. induction n as [|n IH]; intros z.
  - simpl. by rewrite Z.mod_1_r.
  - cbn [le_bytes le_val]. rewrite IH.
    replace (8 * Z.of_nat (S n)) with (8 + 8 * Z.of_nat n) by lia.
    rewrite Z.pow_add_r by lia. change (2 ^ 8) with 256.
    rewrite Z.rem_mul_r by lia. lia.
Qed.

Lemma le_val_range (l : bytes) : is_bytes l -> 0 <= le_val l < 2 ^ (8 * Z.of_nat (length l)).
Proof.
  induction 1 as [|b l Hb _ IH]; simpl; [lia|]. unfold is_byte in Hb.
  replace (8 * Z.of_nat (S (length l))) with (8 + 8 * Z.of_nat (length l)) by lia.
  rewrite Z.pow_add_r by lia. change (2 ^ 8) with 256. lia.
Qed.

Lemma le_bytes_val (l : bytes) : is_bytes l -> le_bytes (length l) (le_val l) = l.
Proof.
  induction 1 as [|b l Hb Hl IH]; simpl; [done|]. unfold is_byte in Hb.
  rewrite (Z.mul_comm 256), Z.mod_add, Z.mod_small by lia. f_equal.
  rewrite Z.div_add, Z.div_small by lia. simpl. done.
Qed.

Lemma le_val_inj (a b : bytes) :
  is_bytes a -> is_bytes b -> length a = length b -> le_val a = le_val b -> a = b.
Proof.
  intros Ha Hb Hl Hv. rewrite <-(le_bytes_val a), <-(le_bytes_val b) by done.
  congruence.
Qed.

(** ** Hints and tactics *)

Create HintDb spg.
Create Rewrite HintDb spg.
#[export] Hint Resolve le_bytes_length le_bytes_is_bytes cstr_no_nul : spg.
#[export] Hint Rewrite @length_app @length_take @length_drop @length_cons @length_replicate
  le_bytes_length : spg.

(** Normalise list lengths everywhere and finish with [lia]. *)
Ltac list_lia := autorewrite with spg in *; simpl in *; lia.


(** ** Allocation

    What the clients of zmalloc.cpp rely on: [zmalloc]/[zcalloc]/[zrealloc]
    give a block of the requested size or null.  [alloc_ok n] says that a
    request of [n] bytes succeeds; [junk] is what fresh memory contains. *)

Class Allocator := {
  alloc_ok : Z -> bool;
  junk : nat -> Z }.

Definition fresh_bytes `{Allocator} (n : nat) : bytes := junk <$> seq 0 n.

Definition zmalloc_block `{Allocator} (n : Z) : option bytes :=
  if alloc_ok n then Some (fresh_bytes (Z.to_nat n)) else None.

Definition zcalloc_block `{Allocator} (n : Z) : option bytes :=
  if alloc_ok n then Some (replicate (Z.to_nat n) 0) else None.

(** [zrealloc] keeps the common prefix. *)
Definition zrealloc_block `{Allocator} (old : bytes) (n : Z) : option bytes :=
  if alloc_ok n
  then Some (take (Z.to_nat n) old ++ fresh_bytes (Z.to_nat n - length old))
  else None.

Lemma fresh_bytes_length `{Allocator} n : length (fresh_bytes n) = n.
Proof. unfold fresh_bytes. by rewrite length_fmap, length_seq. Qed.

#[export] Hint Rewrite @fresh_bytes_length : spg.

(** The allocator that never fails, for running the definitions. *)
Definition total_alloc : Allocator := {| alloc_ok := fun _ => true; junk := fun _ => 170 |}.

(** An operation that may return null, followed by one that needs the result:
    the early return of the code. *)
Definition or_null {A B} (k : A -> outcome (option B)) (m : outcome (option A)) :
    outcome (option B) :=
  match m with
  | Ok (Some a) => k a
  | Ok None => Ok None
  | Trap t => Trap t
  end.

Notation "x ⇐ m ; k" := (or_null (fun x => k) m)
  (at level 20, m at level 100, k at level 200, right associativity,
   format "x  ⇐  m ;  '/' k") : spigeon_scope.
Open Scope spigeon_scope.
