(* ===== verification/Queue.v ===== *)
(** * LockFreeQueue (src/util/queue.h)

    The single-producer single-consumer queue: a chain of nodes with a
    sentinel, of which the producer owns [first] and the consumer owns
    [divider].  [Module Seq] holds the operations as whole functions on an
    explicit heap; [Module Conc] splits them at their accesses to shared memory
    and interleaves one producer with one consumer. *)

From S2P Require Import Prelude.

Abbreviation loc := nat.

(** [struct Node]: a value and the address of the next node, null at the end. *)
Record Node (T : Type) := mkNode { value : T; next : option loc }.
Arguments mkNode {T} value next.
Arguments value {T} n.
Arguments next {T} n.

Abbreviation heap T := (gmap nat (Node T)).

(** Dereferencing a pointer: null and deleted nodes trap. *)
Definition deref {T} (h : heap T) (p : option loc) : outcome (Node T) :=
  match p with
  | None => Trap NullDeref
  | Some l => match h !! l with Some n => Ok n | None => Trap UseAfterFree end
  end.

(** [p->next = v]. *)
Definition set_next {T} (h : heap T) (p : option loc) (v : option loc) : outcome (heap T) :=
  match p with
  | None => Trap NullDeref
  | Some l =>
      match h !! l with
      | Some n => Ok (<[l := mkNode (value n) v]> h)
      | None => Trap UseAfterFree
      end
  end.

(** [delete p]; deleting null does nothing, deleting twice traps. *)
Definition delete_node {T} (h : heap T) (p : option loc) : outcome (heap T) :=
  match p with
  | None => Ok h
  | Some l => match h !! l with Some _ => Ok (delete l h) | None => Trap UseAfterFree end
  end.

(** The three pointers of the class. *)
Record LockFreeQueue := mkQueue {
  first : option loc;
  divider : option loc;
  last : option loc }.

Module Seq.
Section Seq.
Context {T : Type}.
(** The allocator behind [new]. *)
Variable alloc : heap T -> loc.

(** The constructor: one sentinel holding [T()]. *)
Definition new_queue (dflt : T) (h : heap T) : heap T * LockFreeQueue :=
  let n := alloc h in
  (<[n := mkNode dflt None]> h, mkQueue (Some n) (Some n) (Some n)).

(** [while (first != divider) { temp = first; first = first->next; delete temp; }] *)
Fixpoint reclaim (fuel : nat) (h : heap T) (q : LockFreeQueue) : outcome (heap T * LockFreeQueue) :=
  match fuel with
  | O => Trap OutOfFuel
  | S fuel =>
      if decide (first q = divider q) then Ok (h, q) else
      let temp := first q in
      n ← deref h temp;
      h ← delete_node h temp;
      reclaim fuel h (mkQueue (next n) (divider q) (last q))
  end.

Definition produce (fuel : nat) (t : T) (h : heap T) (q : LockFreeQueue) :
    outcome (heap T * LockFreeQueue) :=
  let n := alloc h in
  let h := <[n := mkNode t None]> h in
  h ← set_next h (last q) (Some n);
  l ← deref h (last q);
  reclaim fuel h (mkQueue (first q) (divider q) (next l)).

(** [None] is the return value false, [Some v] true with [*result = v]. *)
Definition consume (h : heap T) (q : LockFreeQueue) : outcome (option T * LockFreeQueue) :=
  if decide (divider q = last q) then Ok (None, q) else
  d ← deref h (divider q);
  n ← deref h (next d);
  Ok (Some (value n), mkQueue (first q) (next d) (last q)).

(** The destructor frees the chain from [first] to its end. *)
Fixpoint destroy (fuel : nat) (h : heap T) (p : option loc) : outcome (heap T) :=
  match fuel with
  | O => Trap OutOfFuel
  | S fuel =>
      match p with
      | None => Ok h
      | Some _ =>
          n ← deref h p;
          h ← delete_node h p;
          destroy fuel h (next n)
      end
  end.

End Seq.
End Seq.

Module Conc.

(** Where the producer is inside [produce], and the consumer inside [consume]. *)
Inductive ppc := PIdle | PLink (n : loc) | PAdvance | PCheck | PTake | PDelete (temp : option loc).
Inductive cpc (T : Type) := CIdle | CRead | CMove (result : T).
Arguments CIdle {T}.
Arguments CRead {T}.
Arguments CMove {T} result.

(** What an operation does to the queue as its callers see it. *)
Inductive event (T : Type) := Enq (v : T) | Deq (v : T) | DeqEmpty | Tau.
Arguments Enq {T} v.
Arguments Deq {T} v.
Arguments DeqEmpty {T}.
Arguments Tau {T}.

Record state (T : Type) := mkState {
  mem : heap T;
  q : LockFreeQueue;
  ppc_of : ppc;
  cpc_of : cpc T }.
Arguments mkState {T} mem q ppc_of cpc_of.
Arguments mem {T} s.
Arguments q {T} s.
Arguments ppc_of {T} s.
Arguments cpc_of {T} s.

Section Conc.
Context {T : Type}.
Implicit Types (s : state T) (h : heap T).

(** One shared-memory access of [produce(t)]; [n] is the node [new] returns. *)
Definition produce_step (t : T) (n : loc) s : outcome (event T * state T) :=
  let h := mem s in let p := q s in
  match ppc_of s with
  | PIdle => Ok (Tau, mkState (<[n := mkNode t None]> h) p (PLink n) (cpc_of s))
  | PLink m =>
      h ← set_next h (last p) (Some m);
      Ok (Tau, mkState h p PAdvance (cpc_of s))
  | PAdvance =>
      l ← deref h (last p);
      nw ← deref h (next l);
      Ok (Enq (value nw), mkState h (mkQueue (first p) (divider p) (next l)) PCheck (cpc_of s))
  | PCheck =>
      Ok (Tau, mkState h p (if decide (first p = divider p) then PIdle else PTake) (cpc_of s))
  | PTake =>
      f ← deref h (first p);
      Ok (Tau, mkState h (mkQueue (next f) (divider p) (last p)) (PDelete (first p)) (cpc_of s))
  | PDelete temp =>
      h ← delete_node h temp;
      Ok (Tau, mkState h p PCheck (cpc_of s))
  end.

(** One shared-memory access of [consume(result)]. *)
Definition consume_step s : outcome (event T * state T) :=
  let h := mem s in let p := q s in
  match cpc_of s with
  | CIdle =>
      if decide (divider p = last p)
      then Ok (DeqEmpty, mkState h p (ppc_of s) CIdle)
      else Ok (Tau, mkState h p (ppc_of s) CRead)
  | CRead =>
      d ← deref h (divider p);
      n ← deref h (next d);
      Ok (Tau, mkState h p (ppc_of s) (CMove (value n)))
  | CMove v =>
      d ← deref h (divider p);
      Ok (Deq v, mkState h (mkQueue (first p) (next d) (last p)) (ppc_of s) CIdle)
  end.

(** Any interleaving of the two threads; [new] returns an unused address. *)
Inductive step s : outcome (event T * state T) -> Prop :=
| step_produce t n : mem s !! n = None -> step s (produce_step t n s)
| step_consume : step s (consume_step s).

(** The constructor, then two idle threads. *)
Definition init (dflt : T) (n : loc) : state T :=
  mkState {[n := mkNode dflt None]} (mkQueue (Some n) (Some n) (Some n)) PIdle CIdle.

Inductive run : state T -> list (event T) -> state T -> Prop :=
| run_nil s : run s [] s
| run_step s tr s' e s'' : run s tr s' -> step s' (Ok (e, s'')) -> run s (tr ++ [e]) s''.

(** The abstract queue and what it allows. *)
Definition fifo_step (l : list T) (e : event T) (l' : list T) : Prop :=
  match e with
  | Enq v => l' = l ++ [v]
  | Deq v => l = v :: l'
  | DeqEmpty => l = [] /\ l' = []
  | Tau => l' = l
  end.

Inductive fifo_run : list T -> list (event T) -> list T -> Prop :=
| fifo_nil l : fifo_run l [] l
| fifo_snoc l tr l' e l'' : fifo_run l tr l' -> fifo_step l' e l'' -> fifo_run l (tr ++ [e]) l''.

(** The values a trace enqueues and dequeues, in order. *)
Definition enqs (tr : list (event T)) : list T :=
  omap (fun e => match e with Enq v => Some v | _ => None end) tr.
Definition deqs (tr : list (event T)) : list T :=
  omap (fun e => match e with Deq v => Some v | _ => None end) tr.

(** A schedule runs the producer ([Some (t, n)]: the value of the call and the
    address [new] returns) or the consumer ([None]) for one access at a time. *)
Fixpoint exec (sched : list (option (T * loc))) s : outcome (list (event T) * state T) :=
  match sched with
  | [] => Ok ([], s)
  | c :: sched =>
      es ← match c with
           | Some (t, n) =>
               if decide (mem s !! n = None) then produce_step t n s else Trap OutOfBounds
           | None => consume_step s
           end;
      r ← exec sched (snd es);
      Ok (fst es :: fst r, snd r)
  end.

(** ** The invariant

    [ns] is the chain of live nodes from [first]; [divider] is its [i]th node
    and [last] its [j]th. *)

Definition chain_ok h (ns : list loc) : Prop :=
  NoDup ns /\
  forall k l, ns !! k = Some l -> exists v, h !! l = Some (mkNode v (ns !! S k)).

(** The [k]th node of the chain holds [v]. *)
Definition node_at h (ns : list loc) (k : nat) (v : T) : Prop :=
  exists x nx, ns !! k = Some x /\ h !! x = Some (mkNode v nx).

(** The values between [divider] (excluded) and [last] (included). *)
Definition contents h (ns : list loc) (i j : nat) (l : list T) : Prop :=
  length l = (j - i)%nat /\
  forall k v, l !! k = Some v -> node_at h ns (S (i + k)) v.

(** Nodes outside the chain that a thread still holds. *)
Definition pending (pc : ppc) (l : loc) : Prop :=
  match pc with
  | PLink m => l = m
  | PDelete temp => temp = Some l
  | _ => False
  end.

Definition producer_ok h (ns : list loc) (i j : nat) (pc : ppc) : Prop :=
  match pc with
  | PIdle | PCheck => length ns = S j
  | PLink m => length ns = S j /\ (m ∉ ns) /\ exists t, h !! m = Some (mkNode t None)
  | PAdvance => length ns = S (S j)
  | PTake => length ns = S j /\ (0 < i)%nat
  | PDelete temp => length ns = S j /\ exists l, temp = Some l /\ (l ∉ ns) /\ is_Some (h !! l)
  end.

Definition consumer_ok h (ns : list loc) (i j : nat) (pc : cpc T) : Prop :=
  match pc with
  | CIdle => True
  | CRead => (i < j)%nat
  | CMove v => (i < j)%nat /\ node_at h ns (S i) v
  end.

Record inv s (ns : list loc) (i j : nat) : Prop := mkInv {
  inv_chain : chain_ok (mem s) ns;
  inv_first : first (q s) = ns !! O;
  inv_divider : divider (q s) = ns !! i;
  inv_last : last (q s) = ns !! j;
  inv_order : (i <= j < length ns)%nat;
  inv_prod : producer_ok (mem s) ns i j (ppc_of s);
  inv_cons : consumer_ok (mem s) ns i j (cpc_of s);
  inv_dom : forall l, is_Some (mem s !! l) -> l ∈ ns \/ pending (ppc_of s) l }.

(** [s] implements the abstract queue [l]. *)
Definition refines s (l : list T) : Prop :=
  exists ns i j, inv s ns i j /\ contents (mem s) ns i j l.

End Conc.
End Conc.

(** ** Facts about chains *)

Section Chains.
Context {T : Type}.
Implicit Types (h : heap T) (ns : list loc).
Import Conc.

Lemma chain_lookup h ns k l :
  chain_ok h ns -> ns !! k = Some l -> exists v, h !! l = Some (mkNode v (ns !! S k)).
Proof. intros [_ H]. apply H. Qed.

Lemma chain_deref h ns k :
  chain_ok h ns -> (k < length ns)%nat ->
  exists v, deref h (ns !! k) = Ok (mkNode v (ns !! S k)) /\ node_at h ns k v.
Proof.
  intros Hc Hk. destruct (lookup_lt_is_Some_2 ns k Hk) as [l Hl].
  destruct (chain_lookup _ _ _ _ Hc Hl) as [v Hv].
  exists v. rewrite Hl. simpl. rewrite Hv. split; [done|]. by exists l, (ns !! S k).
Qed.

Lemma node_at_det h ns k v v' : node_at h ns k v -> node_at h ns k v' -> v = v'.
Proof. intros (x & nx & ? & ?) (y & ny & ? & ?). simplify_eq. congruence. Qed.

Lemma chain_same_index h ns i j :
  chain_ok h ns -> (i < length ns)%nat -> ns !! i = ns !! j -> i = j.
Proof.
  intros [Hnd _] Hi He. destruct (lookup_lt_is_Some_2 ns i Hi) as [l Hl].
  eapply NoDup_lookup; [done..|]. by rewrite <-He.
Qed.

(** Writing outside the chain changes nothing in it. *)
Lemma chain_ok_frame h h' ns :
  (forall l, l ∈ ns -> h' !! l = h !! l) -> chain_ok h ns -> chain_ok h' ns.
Proof.
  intros Hf [Hnd Hc]. split; [done|]. intros k l Hl.
  rewrite Hf by (by eapply list_elem_of_lookup_2). by apply Hc.
Qed.

Lemma node_at_frame h h' ns k v :
  (forall l, l ∈ ns -> h' !! l = h !! l) -> node_at h ns k v -> node_at h' ns k v.
Proof.
  intros Hf (x & nx & Hx & Hn). exists x, nx. split; [done|].
  rewrite Hf; [done|]. by eapply list_elem_of_lookup_2.
Qed.

Lemma contents_frame h h' ns i j l :
  (forall x, x ∈ ns -> h' !! x = h !! x) -> contents h ns i j l -> contents h' ns i j l.
Proof.
  intros Hf [Hl Hv]. split; [done|]. intros k v Hk.
  eapply node_at_frame; [done|]. by apply Hv.
Qed.

Lemma consumer_ok_frame h h' ns i j pc :
  (forall x, x ∈ ns -> h' !! x = h !! x) ->
  consumer_ok h ns i j pc -> consumer_ok h' ns i j pc.
Proof.
  intros Hf. destruct pc; simpl; try done.
  intros [? ?]. split; [done|]. by eapply node_at_frame.
Qed.

(** Linking [m] behind the last node. *)
Lemma chain_snoc h ns l m v t :
  chain_ok h ns -> ns !! pred (length ns) = Some l ->
  h !! l = Some (mkNode v None) -> m ∉ ns -> h !! m = Some (mkNode t None) ->
  chain_ok (<[l := mkNode v (Some m)]> h) (ns ++ [m]).
Proof.
  intros [Hnd Hc] Hl Hlv Hm Hmt.
  assert (Hlm : l <> m) by (intros ->; apply Hm; by eapply list_elem_of_lookup_2).
  assert (Hlt := lookup_lt_Some _ _ _ Hl).
  split.
  { apply NoDup_app. split_and!; [done| |apply NoDup_singleton].
    intros x Hx ->%list_elem_of_singleton. done. }
  intros k x Hk. destruct (decide (k < length ns)%nat) as [Hkn|Hkn].
  - rewrite lookup_app_l in Hk by done.
    destruct (decide (x = l)) as [->|Hx].
    + assert (k = pred (length ns)) as -> by (eapply NoDup_lookup; done).
      exists v. rewrite lookup_insert_eq. do 2 f_equal.
      rewrite lookup_app_r by lia.
      by replace (S (pred (length ns)) - length ns)%nat with O by lia.
    + rewrite lookup_insert_ne by done. destruct (Hc _ _ Hk) as [w Hw].
      exists w. rewrite Hw. do 2 f_equal.
      rewrite lookup_app_l; [done|].
      destruct (decide (k = pred (length ns))) as [->|]; [congruence|lia].
  - rewrite lookup_app_r in Hk by lia.
    apply list_lookup_singleton_Some in Hk as [Hk0 <-].
    exists t. rewrite lookup_insert_ne by done. rewrite Hmt. do 2 f_equal.
    symmetry. apply lookup_ge_None. rewrite length_app. simpl. lia.
Qed.

(** Dropping the first node. *)
Lemma chain_tail h f ns : chain_ok h (f :: ns) -> chain_ok h ns /\ f ∉ ns.
Proof.
  intros [Hnd Hc]. apply NoDup_cons in Hnd as [Hf Hnd]. split; [split|]; [done| |done].
  intros k l Hl. by apply (Hc (S k)).
Qed.

Lemma node_at_weaken h h' ns ns' k v :
  (forall l n, h !! l = Some n -> exists nx, h' !! l = Some (mkNode (value n) nx)) ->
  ns !! k = ns' !! k -> node_at h ns k v -> node_at h' ns' k v.
Proof.
  intros Hh Hns (x & nx & Hx & Hn). destruct (Hh _ _ Hn) as [nx' Hn'].
  exists x, nx'. by rewrite <-Hns.
Qed.

End Chains.

(** ** Every step of either thread preserves the invariant and is a step of the
    abstract queue *)

Section Preservation.
Context {T : Type}.
Import Conc.
Implicit Types (s : state T) (ns : list loc) (l : list T).

(** What has to be shown of one step. *)
Definition simulates (o : outcome (event T * state T)) l : Prop :=
  exists e s' l', o = Ok (e, s') /\ fifo_step l e l' /\ refines s' l'.

Lemma step_alloc t n s ns i j l :
  inv s ns i j -> contents (mem s) ns i j l -> ppc_of s = PIdle -> mem s !! n = None ->
  simulates (produce_step t n s) l.
Proof.
  intros [Hc Hf Hd Hl Ho Hp Hcs Hdm] Hct Hpc Hn. unfold produce_step. rewrite Hpc in *.
  assert (Hns : n ∉ ns).
  { intros [k Hk]%list_elem_of_lookup. destruct (chain_lookup _ _ _ _ Hc Hk). congruence. }
  assert (Hfr : forall x, x ∈ ns -> <[n := mkNode t None]> (mem s) !! x = mem s !! x).
  { intros x Hx. apply lookup_insert_ne. by intros ->. }
  do 3 eexists. split; [done|]. split; [done|]. exists ns, i, j. split; simpl.
  - split; simpl; try done.
    + by eapply chain_ok_frame.
    + split_and!; [done..|]. exists t. apply lookup_insert_eq.
    + by eapply consumer_ok_frame.
    + intros x [y Hx]. destruct (decide (x = n)) as [->|Hxn]; [by right|].
      rewrite lookup_insert_ne in Hx by done.
      destruct (Hdm x) as [?|[]]; [eauto|by left].
  - by eapply contents_frame.
Qed.

Lemma step_link t n m s ns i j l :
  inv s ns i j -> contents (mem s) ns i j l -> ppc_of s = PLink m ->
  simulates (produce_step t n s) l.
Proof.
  intros [Hc Hf Hd Hl Ho Hp Hcs Hdm] [Hlen Hct] Hpc. unfold produce_step. rewrite Hpc in *.
  destruct Hp as (Hj & Hm & t0 & Hmt).
  destruct (lookup_lt_is_Some_2 ns j ltac:(lia)) as [x Hx].
  destruct (chain_lookup _ _ _ _ Hc Hx) as [v Hv].
  rewrite (lookup_ge_None_2 ns (S j)) in Hv by lia.
  rewrite Hl, Hx. simpl. rewrite Hv. simpl.
  set (h' := <[x := mkNode v (Some m)]> (mem s)).
  assert (Hh : forall y nd, mem s !! y = Some nd -> exists nx, h' !! y = Some (mkNode (value nd) nx)).
  { intros y nd Hy. unfold h'. destruct (decide (x = y)) as [<-|].
    - rewrite lookup_insert_eq. rewrite Hv in Hy. simplify_eq. eauto.
    - rewrite lookup_insert_ne by done. exists (next nd). by destruct nd. }
  assert (Happ : forall k, (k <= j)%nat -> ns !! k = (ns ++ [m]) !! k).
  { intros. rewrite lookup_app_l; [done|lia]. }
  do 3 eexists. split; [done|]. split; [done|]. exists (ns ++ [m]), i, j. split; simpl.
  - split; simpl.
    + eapply chain_snoc; try done. by rewrite Hj.
    + rewrite Hf. apply Happ. lia.
    + rewrite Hd. apply Happ. lia.
    + rewrite Hl. by apply Happ.
    + rewrite length_app. simpl. lia.
    + rewrite length_app. simpl. lia.
    + destruct (cpc_of s); simpl in *; try done. destruct Hcs as [? Hn]. split; [done|].
      eapply node_at_weaken; [done| |done]. apply Happ. lia.
    + intros y [z Hy]. left. apply elem_of_app.
      destruct (decide (x = y)) as [->|Hxy]; [left; by eapply list_elem_of_lookup_2|].
      unfold h' in Hy. rewrite lookup_insert_ne in Hy by done.
      destruct (Hdm y) as [?| ->]; [eauto|by left|right; by apply list_elem_of_singleton].
  - split; [done|]. intros k w Hk. eapply node_at_weaken; [done| |by apply Hct].
    apply Happ. apply lookup_lt_Some in Hk. lia.
Qed.

Lemma step_advance t n s ns i j l :
  inv s ns i j -> contents (mem s) ns i j l -> ppc_of s = PAdvance ->
  simulates (produce_step t n s) l.
Proof.
  intros [Hc Hf Hd Hl Ho Hp Hcs Hdm] [Hlen Hct] Hpc. unfold produce_step. rewrite Hpc in *.
  simpl in Hp.
  destruct (chain_deref _ _ j Hc ltac:(lia)) as (v & Hv & _).
  destruct (chain_deref _ _ (S j) Hc ltac:(lia)) as (w & Hw & Hwn).
  rewrite Hl, Hv. simpl. rewrite Hw. simpl.
  do 3 eexists. split; [done|]. split; [done|]. exists ns, i, (S j). split.
  - split; simpl; try done; try lia.
    destruct (cpc_of s); simpl in *; try done; [lia|].
    destruct Hcs. split; [lia|done].
  - split; [rewrite length_app; simpl; lia|]. intros k u Hk.
    apply lookup_app_Some in Hk as [Hk|[Hk1 Hk2]]; [by apply Hct|].
    apply list_lookup_singleton_Some in Hk2 as [Hk2 <-].
    by replace (S (i + k)) with (S j) by lia.
Qed.

Lemma step_check t n s ns i j l :
  inv s ns i j -> contents (mem s) ns i j l -> ppc_of s = PCheck ->
  simulates (produce_step t n s) l.
Proof.
  intros [Hc Hf Hd Hl Ho Hp Hcs Hdm] Hct Hpc. unfold produce_step. rewrite Hpc in *.
  do 3 eexists. split; [done|]. split; [done|]. exists ns, i, j. split; [|done].
  split; simpl; try done; case_decide as He; simpl; try done.
  split; [done|]. destruct i; [|lia]. congruence.
Qed.

Lemma step_take t n s ns i j l :
  inv s ns i j -> contents (mem s) ns i j l -> ppc_of s = PTake ->
  simulates (produce_step t n s) l.
Proof.
  intros [Hc Hf Hd Hl Ho Hp Hcs Hdm] [Hlen Hct] Hpc. unfold produce_step. rewrite Hpc in *.
  destruct Hp as [Hj Hi].
  destruct (chain_deref _ _ O Hc ltac:(lia)) as (v & Hv & _).
  rewrite Hf, Hv. simpl.
  destruct ns as [|f ns]; [simpl in *; lia|]. destruct i as [|i]; [lia|].
  destruct j as [|j]; [lia|]. simpl in *.
  destruct (chain_tail _ _ _ Hc) as [Hc' Hfn].
  destruct (chain_lookup _ _ O f Hc eq_refl) as [vf Hvf].
  do 3 eexists. split; [done|]. split; [done|]. exists ns, i, j. split; [split|]; simpl; try done.
  - lia.
  - split; [lia|]. eauto.
  - destruct (cpc_of s); simpl in *; try done; [lia|]. destruct Hcs. split; [lia|done].
  - intros x Hx. destruct (Hdm x Hx) as [Hx'|[]].
    apply elem_of_cons in Hx' as [->|]; auto.
Qed.

Lemma step_delete t n temp s ns i j l :
  inv s ns i j -> contents (mem s) ns i j l -> ppc_of s = PDelete temp ->
  simulates (produce_step t n s) l.
Proof.
  intros [Hc Hf Hd Hl Ho Hp Hcs Hdm] Hct Hpc. unfold produce_step. rewrite Hpc in *.
  destruct Hp as (Hj & x & -> & Hx & [y Hy]). simpl. rewrite Hy. simpl.
  assert (Hfr : forall z, z ∈ ns -> delete x (mem s) !! z = mem s !! z).
  { intros z Hz. apply lookup_delete_ne. by intros ->. }
  do 3 eexists. split; [done|]. split; [done|]. exists ns, i, j.
  split; [split|]; simpl; try done.
  - by eapply chain_ok_frame.
  - by eapply consumer_ok_frame.
  - intros z [u Hz]. apply lookup_delete_Some in Hz as [Hxz Hz].
    destruct (Hdm z) as [?|Hpend]; [eauto|by left|]. simpl in Hpend. congruence.
  - by eapply contents_frame.
Qed.

Lemma step_consumer s ns i j l :
  inv s ns i j -> contents (mem s) ns i j l -> simulates (consume_step s) l.
Proof.
  intros [Hc Hf Hd Hl Ho Hp Hcs Hdm] [Hlen Hct]. unfold consume_step.
  destruct (cpc_of s) as [| |v] eqn:Hpc; simpl in *.
  - case_decide as He; do 3 eexists; (split; [done|]).
    + assert (i = j) as -> by (eapply chain_same_index; [done|lia|congruence]).
      rewrite Nat.sub_diag in Hlen. apply nil_length_inv in Hlen as ->.
      split; [done|]. exists ns, j, j. split; [by split|]. split; [simpl; lia|done].
    + split; [done|]. exists ns, i, j. split; [|done]. split; try done.
      simpl. destruct (decide (i = j)) as [->|]; [congruence|lia].
  - destruct (chain_deref _ _ i Hc ltac:(lia)) as (v & Hv & _).
    destruct (chain_deref _ _ (S i) Hc ltac:(lia)) as (w & Hw & Hwn).
    rewrite Hd, Hv. simpl. rewrite Hw. simpl.
    do 3 eexists. split; [done|]. split; [done|]. exists ns, i, j. split; [|done]. by split.
  - destruct Hcs as [Hij Hvn].
    destruct (chain_deref _ _ i Hc ltac:(lia)) as (w & Hw & _).
    rewrite Hd, Hw. simpl.
    destruct l as [|v' l]; [simpl in Hlen; lia|].
    assert (v' = v) as ->.
    { eapply node_at_det; [|done]. specialize (Hct O v' eq_refl). by rewrite Nat.add_0_r in Hct. }
    do 3 eexists. split; [done|]. split; [done|]. exists ns, (S i), j. split; [split|]; simpl; try done.
    + lia.
    + destruct (ppc_of s); simpl in *; try done. split; [apply Hp|lia].
    + split; [simpl in Hlen; lia|]. intros k u Hk. specialize (Hct (S k) u Hk).
      by rewrite Nat.add_succ_r in Hct.
Qed.

Lemma step_simulates s o l : refines s l -> step s o -> simulates o l.
Proof.
  intros (ns & i & j & Hi & Hct). destruct 1 as [t n Hn|]; [|by eapply step_consumer].
  destruct (ppc_of s) eqn:Hpc.
  - by eapply step_alloc.
  - by eapply step_link.
  - by eapply step_advance.
  - by eapply step_check.
  - by eapply step_take.
  - by eapply step_delete.
Qed.

Lemma init_refines (dflt : T) n : refines (init dflt n) [].
Proof.
  exists [n], O, O. split.
  - split; simpl; try done; try lia.
    + split; [apply NoDup_singleton|]. intros [|[]] x; simpl; [|done..].
      intros [= <-]. exists dflt. by rewrite lookup_singleton_eq.
    + intros x [y Hx]. apply lookup_singleton_Some in Hx as [-> _]. left.
      by apply list_elem_of_singleton.
  - split; [done|]. intros k v Hk. done.
Qed.

Lemma run_simulates (dflt : T) n tr s :
  run (init dflt n) tr s -> exists l, fifo_run [] tr l /\ refines s l.
Proof.
  remember (init dflt n) as s0 eqn:Hs0. induction 1 as [|s tr s' e s'' _ IH Hst]; subst.
  - exists []. split; [constructor|apply init_refines].
  - destruct (IH eq_refl) as (l & Hr & Hl).
    destruct (step_simulates _ _ _ Hl Hst) as (e' & s3 & l' & [= <- <-] & Hf & Hl').
    exists l'. split; [by econstructor|done].
Qed.

End Preservation.

(** ** The operations run to completion by one thread *)

Section Sequential.
Context {T : Type} (alloc : heap T -> loc).
Hypothesis alloc_fresh : forall h : heap T, h !! alloc h = None.
Import Conc.

(** The queue at rest: no call in progress, holding [l]. *)
Definition queue_repr (h : heap T) (q : LockFreeQueue) (l : list T) : Prop :=
  refines (mkState h q PIdle CIdle) l.

(** The loop of [produce] as steps of the producer. *)
Lemma reclaim_spec fuel (h : heap T) q ns i j l :
  inv (mkState h q PCheck CIdle) ns i j -> contents h ns i j l -> (i < fuel)%nat ->
  exists h' q', Seq.reclaim fuel h q = Ok (h', q') /\ queue_repr h' q' l /\ first q' = divider q'.
Proof.
  revert h q ns i j. induction fuel as [|fuel IH]; intros h q ns i j Hi Hct Hfu; [lia|].
  destruct Hi as [Hc Hf Hd Hl Ho Hp Hcs Hdm]. simpl in *.
  case_decide as He.
  - exists h, q. split; [done|]. split; [|done]. exists ns, i, j. split; [|done]. by split.
  - destruct ns as [|f ns]; [simpl in *; lia|]. destruct i as [|i]; [congruence|].
    destruct j as [|j]; [lia|]. simpl in *.
    destruct (chain_tail _ _ _ Hc) as [Hc' Hfn].
    destruct (chain_lookup _ _ O f Hc eq_refl) as [vf Hvf].
    rewrite Hf. simpl. rewrite Hvf. simpl.
    assert (Hfr : forall z, z ∈ ns -> delete f h !! z = h !! z).
    { intros z Hz. apply lookup_delete_ne. by intros ->. }
    apply (IH _ _ ns i j); [split; simpl; try done|eapply contents_frame; [done|]|lia].
    + by eapply chain_ok_frame.
    + lia.
    + lia.
    + intros z [u Hz]. apply lookup_delete_Some in Hz as [Hz1 Hz2].
      destruct (Hdm z) as [Hz3|[]]; [eauto|]. left.
      apply elem_of_cons in Hz3 as [->|]; done.
    + destruct Hct as [Hlen Hct]. split; [lia|]. intros k v Hk. by apply (Hct k v).
Qed.

Lemma chain_size (h : heap T) ns : chain_ok h ns -> (length ns <= size h)%nat.
Proof.
  intros [Hnd Hc]. rewrite <-(size_list_to_set (C := gset nat) ns Hnd), <-size_dom.
  apply subseteq_size. intros x [k Hk]%elem_of_list_to_set%list_elem_of_lookup.
  apply elem_of_dom. destruct (Hc _ _ Hk). eauto.
Qed.

Lemma produce_repr fuel t (h : heap T) q l :
  queue_repr h q l -> (S (size h) < fuel)%nat ->
  exists h' q', Seq.produce alloc fuel t h q = Ok (h', q') /\
    queue_repr h' q' (l ++ [t]) /\ first q' = divider q'.
Proof.
  intros (ns & i & j & Hi & Hct) Hfu. unfold Seq.produce.
  destruct (step_alloc t (alloc h) _ _ _ _ _ Hi Hct eq_refl (alloc_fresh h))
    as (e1 & s1 & l1 & H1 & Hl1 & (ns1 & i1 & j1 & Hi1 & Hc1)).
  injection H1 as <- <-. simpl in Hl1. subst l1.
  pose proof (inv_prod _ _ _ _ Hi1) as (Hj1 & Hm1 & _). simpl in *.
  destruct (step_link t O _ _ _ _ _ _ Hi1 Hc1 eq_refl)
    as (e2 & s2 & l2 & H2 & Hl2 & (ns2 & i2 & j2 & Hi2 & Hc2)).
  unfold produce_step in H2. simpl in H2.
  destruct (set_next _ (last q) _) as [h2|] eqn:Hset; [|done]. simpl in *.
  injection H2 as <- <-. simpl in Hl2. subst l2.
  destruct (step_advance t O _ _ _ _ _ Hi2 Hc2 eq_refl)
    as (e3 & s3 & l3 & H3 & Hl3 & (ns3 & i3 & j3 & Hi3 & Hc3)).
  unfold produce_step in H3. simpl in H3.
  destruct (deref h2 (last q)) as [nl|] eqn:Hd1; [|done]. simpl in *.
  destruct (deref h2 (next nl)) as [nw|] eqn:Hd2; [|done]. simpl in *.
  injection H3 as <- <-. simpl in Hl3. subst l3.
  assert (Hnw : value nw = t).
  { assert (Hlast : last q <> Some (alloc h)).
    { intros Hx. apply Hm1. pose proof (inv_last _ _ _ _ Hi1) as Hy. simpl in Hy.
      rewrite Hx in Hy. by eapply list_elem_of_lookup_2. }
    unfold set_next in Hset. destruct (last q) as [x|] eqn:Hx; [|done].
    case_match; [|done]. injection Hset as <-. simpl in Hd1.
    rewrite lookup_insert_eq in Hd1. injection Hd1 as <-. simpl in Hd2.
    rewrite lookup_insert_ne in Hd2 by congruence.
    rewrite lookup_insert_eq in Hd2. by injection Hd2 as <-. }
  rewrite Hnw in *.
  pose proof (inv_order _ _ _ _ Hi3) as Ho3.
  pose proof (chain_size _ _ (inv_chain _ _ _ _ Hi3)) as Hsz. simpl in *.
  assert (Hsz2 : (size h2 <= S (size h))%nat).
  { unfold set_next in Hset. destruct (last q); [|done]. case_match; [|done].
    injection Hset as <-. rewrite map_size_insert_Some by eauto.
    rewrite map_size_insert_None by done. done. }
  apply (reclaim_spec _ _ _ ns3 i3 j3); [done..|lia].
Qed.

Lemma consume_repr (h : heap T) q l :
  queue_repr h q l ->
  exists q', Seq.consume h q = Ok (head l, q') /\ queue_repr h q' (tail l).
Proof.
  intros (ns & i & j & Hi & Hct). unfold Seq.consume.
  destruct (step_consumer _ _ _ _ _ Hi Hct) as (e1 & s1 & l1 & H1 & Hl1 & (ns1 & i1 & j1 & Hi1 & Hc1)).
  unfold consume_step in H1. simpl in *.
  case_decide as He; injection H1 as <- <-; simpl in *.
  { destruct Hl1 as [-> ->]. exists q. split; [done|]. by exists ns, i, j. }
  subst l1. destruct (step_consumer _ _ _ _ _ Hi1 Hc1) as (e2 & s2 & l2 & H2 & Hl2 & (ns2 & i2 & j2 & Hi2 & Hc2)).
  unfold consume_step in H2. simpl in *.
  destruct (deref h (divider q)) as [d|] eqn:Hd1; [|done]. simpl in *.
  destruct (deref h (next d)) as [n|] eqn:Hd2; [|done]. simpl in *.
  injection H2 as <- <-. simpl in *. subst l2.
  destruct (step_consumer _ _ _ _ _ Hi2 Hc2) as (e3 & s3 & l3 & H3 & Hl3 & H4).
  unfold consume_step in H3. simpl in *. rewrite Hd1 in H3. simpl in H3.
  injection H3 as <- <-. simpl in *. subst l. eauto.
Qed.

(** Freeing the chain empties a heap that holds only the queue. *)
Lemma destroy_chain fuel (h : heap T) ns :
  chain_ok h ns -> (forall x, is_Some (h !! x) -> x ∈ ns) -> (length ns < fuel)%nat ->
  Seq.destroy fuel h (ns !! O) = Ok ∅.
Proof.
  revert h ns. induction fuel as [|fuel IH]; intros h ns Hc Hdm Hfu; [lia|].
  destruct ns as [|f ns]; simpl.
  - f_equal. apply map_empty. intros x. destruct (h !! x) eqn:E; [|done].
    assert (x ∈ ([] : list nat)) by (apply Hdm; eauto). by apply not_elem_of_nil in H.
  - destruct (chain_lookup _ _ O f Hc eq_refl) as [vf Hvf]. rewrite Hvf. simpl.
    destruct (chain_tail _ _ _ Hc) as [Hc' Hfn].
    apply IH; [|intros x [u Hx]|simpl in Hfu; lia].
    + eapply chain_ok_frame; [|done]. intros z Hz. apply lookup_delete_ne. by intros ->.
    + apply lookup_delete_Some in Hx as [Hx1 Hx2].
      destruct (proj1 (elem_of_cons _ _ _) (Hdm x ltac:(eauto))) as [->|]; done.
Qed.

End Sequential.

(** ** Main theorems *)

Section Theorems.
Import Conc.

Lemma fifo_run_app {T} (tr : list (event T)) l l' :
  fifo_run l tr l' -> l ++ enqs tr = deqs tr ++ l'.
Proof.
  induction 1 as [|l tr l' e l'' _ IH Hs]; [by rewrite app_nil_r|].
  unfold enqs, deqs in *. rewrite !omap_app, app_assoc, IH.
  destruct e; simpl in *; subst; rewrite ?app_nil_r, <-?app_assoc; try done.
  by destruct Hs as [-> ->].
Qed.

Lemma run_cons {T} (s : state T) e s1 tr s2 :
  step s (Ok (e, s1)) -> run s1 tr s2 -> run s (e :: tr) s2.
Proof.
  intros Hs. induction 1 as [s1|s1 tr s' e' s'' _ IH Hst].
  - apply (run_step s [] s e s1); [constructor|done].
  - change (e :: tr ++ [e']) with ((e :: tr) ++ [e']). econstructor; [by apply IH|done].
Qed.

Lemma exec_run {T} sched (s : state T) tr s' : exec sched s = Ok (tr, s') -> run s tr s'.
Proof.
  revert s tr. induction sched as [|c sched IH]; intros s tr; simpl.
  - intros [= <- <-]. constructor.
  - intros H. inv_bind H. destruct a as [e s1]. inv_bind H. destruct a as [tr1 s2].
    simpl in *. injection H as <- <-. eapply run_cons; [|by apply IH].
    destruct c as [[t n]|]; [case_decide; [|done]|]; rewrite <-E; by constructor.
Qed.

(** C3: Under every interleaving of one producer and one consumer, at the
    granularity of their accesses to shared memory, the queue behaves as a FIFO:
    the trace of completed operations is a trace of the abstract queue (an
    unsuccessful [consume] happens only when it is empty), and the values
    consumed are, in order, a prefix of the values produced, the rest being
    what the queue still holds. *)
Theorem spsc_refines_fifo {T} (dflt : T) n tr s :
  run (init dflt n) tr s ->
  exists l, fifo_run [] tr l /\ enqs tr = deqs tr ++ l /\ refines s l.
Proof.
  intros Hr. destruct (run_simulates _ _ _ _ Hr) as (l & Hf & Hl).
  exists l. split_and!; [done| |done]. by apply (fifo_run_app _ [] l).
Qed.

(** Two values produced while the consumer, interleaved, takes the first. *)
Definition demo_sched : list (option (Z * loc)) :=
  [Some (7, 1%nat); None; Some (7, 9%nat); Some (7, 9%nat); None; Some (7, 9%nat); None; None;
   Some (8, 2%nat); None; Some (8, 9%nat); Some (8, 9%nat); Some (8, 9%nat); Some (8, 9%nat);
   Some (8, 9%nat); Some (8, 9%nat)].

Definition demo_end : list (event Z) * state Z :=
  match exec demo_sched (init 0 O) with Ok r => r | Trap _ => ([], init 0 O) end.

Lemma spsc_refines_fifo_witness :
  exists l, fifo_run [] (fst demo_end) l /\ enqs (fst demo_end) = deqs (fst demo_end) ++ l
            /\ refines (snd demo_end) l.
Proof.
  apply (spsc_refines_fifo 0 O). apply (exec_run demo_sched). vm_compute. reflexivity.
Defined.

Example demo_trace : enqs (fst demo_end) = [7; 8] /\ deqs (fst demo_end) = [7].
Proof. by vm_compute. Qed.

(** C36: No interleaving of one producer and one consumer makes either thread
    dereference null, touch or delete a node already deleted: every access
    that the code makes from a reachable state succeeds. *)
Theorem spsc_memory_safe {T} (dflt : T) n tr s o :
  run (init dflt n) tr s -> step s o -> exists e s', o = Ok (e, s').
Proof.
  intros Hr Hs. destruct (run_simulates _ _ _ _ Hr) as (l & _ & Hl).
  destruct (step_simulates _ _ _ Hl Hs) as (e & s' & _ & -> & _). eauto.
Qed.

Lemma spsc_memory_safe_witness :
  exists e s', consume_step (snd demo_end) = Ok (e, s').
Proof.
  apply (spsc_memory_safe 0 O (fst demo_end) (snd demo_end)).
  - apply (exec_run demo_sched). vm_compute. reflexivity.
  - constructor.
Defined.

(** [produce] called on a queue at rest that holds [l] returns, appends its
    argument, and frees every node the consumer has passed ([first] is
    [divider] again); its loop needs at most one iteration per node. *)
Theorem produce_appends {T} (alloc : heap T -> loc) fuel t (h : heap T) q l :
  (forall h : heap T, h !! alloc h = None) ->
  queue_repr h q l -> (S (size h) < fuel)%nat ->
  exists h' q', Seq.produce alloc fuel t h q = Ok (h', q') /\
    queue_repr h' q' (l ++ [t]) /\ first q' = divider q'.
Proof. intros Ha. by apply produce_repr. Qed.

(** An allocator: the least address above every address in use. *)
Definition bump_alloc {T} (h : heap T) : loc :=
  S (map_fold (fun k _ m => Nat.max k m) O h).

Lemma bump_alloc_above {T} (h : heap T) k x :
  h !! k = Some x -> (k < bump_alloc h)%nat.
Proof.
  unfold bump_alloc. revert k x.
  apply (map_fold_weak_ind (fun (r : nat) (m : heap T) => forall k x, m !! k = Some x -> (k < S r)%nat)).
  - intros k x. by rewrite lookup_empty.
  - intros i x m r Hi IH k y. destruct (decide (i = k)) as [->|].
    + rewrite lookup_insert_eq. intros _. lia.
    + rewrite lookup_insert_ne by done. intros Hk. apply IH in Hk. lia.
Qed.

Lemma bump_alloc_fresh {T} (h : heap T) : h !! bump_alloc h = None.
Proof.
  destruct (h !! bump_alloc h) eqn:E; [|done]. apply bump_alloc_above in E. lia.
Qed.

Lemma new_queue_repr {T} (alloc : heap T -> loc) dflt :
  queue_repr (fst (Seq.new_queue alloc dflt ∅)) (snd (Seq.new_queue alloc dflt ∅)) [].
Proof. apply (init_refines dflt (alloc ∅)). Qed.

Lemma produce_appends_witness :
  let hq := Seq.new_queue bump_alloc 0 ∅ in
  exists h' q', Seq.produce bump_alloc 10 42 (fst hq) (snd hq) = Ok (h', q') /\
    queue_repr h' q' ([] ++ [42]) /\ first q' = divider q'.
Proof.
  apply (produce_appends bump_alloc 10 42 _ _ []).
  - apply bump_alloc_fresh.
  - apply new_queue_repr.
  - vm_compute. lia.
Defined.

(** [consume] on a queue at rest that holds [l] returns false exactly when [l]
    is empty, and otherwise yields its head and leaves its tail. *)
Theorem consume_pops {T} (h : heap T) q l :
  queue_repr h q l ->
  exists q', Seq.consume h q = Ok (head l, q') /\ queue_repr h q' (tail l).
Proof. apply consume_repr. Qed.

Lemma consume_pops_witness :
  let hq := Seq.new_queue bump_alloc 0 ∅ in
  exists q', Seq.consume (fst hq) (snd hq) = Ok (head ([] : list Z), q') /\
    queue_repr (fst hq) q' (tail []).
Proof. apply (consume_pops _ _ []). apply new_queue_repr. Defined.

(** The destructor terminates and frees every node exactly once: run on the
    queue at rest it leaves an empty heap. *)
Theorem destructor_frees_all {T} (h : heap T) q l fuel :
  queue_repr h q l -> (size h < fuel)%nat -> Seq.destroy fuel h (first q) = Ok ∅.
Proof.
  intros (ns & i & j & [Hc Hf _ _ _ _ _ Hdm] & _) Hfu. simpl in *. rewrite Hf.
  apply destroy_chain; [done| |pose proof (chain_size _ _ Hc); lia].
  intros x Hx. by destruct (Hdm x Hx) as [?|[]].
Qed.

Lemma destructor_frees_all_witness :
  let hq := Seq.new_queue bump_alloc 0 ∅ in
  Seq.destroy 5 (fst hq) (first (snd hq)) = Ok ∅.
Proof.
  apply (destructor_frees_all _ _ []); [apply new_queue_repr|vm_compute; lia].
Defined.

End Theorems.

(** ** Interface

    What the server relies on when it passes connections between threads: a
    queue whose contents are a list, extended at the end by [produce] and
    shortened at the front by [consume]. *)
Class Fifo (Q T : Type) := {
  fifo_repr : Q -> list T -> Prop;
  fifo_produce : T -> Q -> outcome Q;
  fifo_consume : Q -> outcome (option T * Q);
  fifo_produce_ok : forall q l t, fifo_repr q l ->
    exists q', fifo_produce t q = Ok q' /\ fifo_repr q' (l ++ [t]);
  fifo_consume_ok : forall q l, fifo_repr q l ->
    exists q', fifo_consume q = Ok (head l, q') /\ fifo_repr q' (tail l) }.

(** The lock-free queue is one, with the nodes it allocates. *)
#[export] Program Instance lfq_fifo {T} : Fifo (heap T * LockFreeQueue) T := {|
  fifo_repr hq l := queue_repr (fst hq) (snd hq) l;
  fifo_produce t hq := Seq.produce bump_alloc (S (S (size (fst hq)))) t (fst hq) (snd hq);
  fifo_consume hq := r ← Seq.consume (fst hq) (snd hq); Ok (fst r, (fst hq, snd r)) |}.
Next Obligation.
  intros T [h q] l t Hr. destruct (produce_repr bump_alloc bump_alloc_fresh (S (S (size h))) t h q l)
    as (h' & q' & E & Hr' & _); [done|lia|].
  exists (h', q'). done.
Qed.
Next Obligation.
  intros T [h q] l Hr. destruct (consume_repr h q l Hr) as (q' & E & Hr').
  simpl in *. rewrite E. by exists (h, q').
Qed.
