(* ===== verification/Utils.v ===== *)
(** * Number parsing and printing (src/util/utils.cpp)

    [long] and [long long] are 64 bits wide and [int] 32; arithmetic the code
    does in a type is wrapped to that type. *)

From S2P Require Import Prelude.

(** ** Decimal text *)

(** The value of a digit string, most significant digit first. *)
Definition dec_val (ds : bytes) : Z := fold_left (fun a c => a * 10 + (c - 48)) ds 0.

(** [do { *p-- = '0'+(v%10); v /= 10; } while(v);] into the free part of a
    buffer: [room] bytes are left in front of [acc], the text written so far. *)
Fixpoint put_digits (room : nat) (v : Z) (acc : bytes) : outcome (nat * bytes) :=
  match room with
  | O => Trap OutOfBounds
  | S room =>
      let acc := 48 + v mod 10 :: acc in
      let v := v / 10 in
      if v =? 0 then Ok (room, acc) else put_digits room v acc
  end.

(** The text that [ll2string] and [sdsfromlonglong] build at the end of their
    local [char buf[32]]. *)
Definition ll_text (value : Z) : outcome bytes :=
  let v := if value <? 0 then u64 (- value) else u64 value in
  r ← put_digits 32 v [];
  let '(room, text) := r in
  if value <? 0 then
    match room with O => Trap OutOfBounds | S _ => Ok (45 :: text) end
  else Ok text.

(** [ll2string(s, len, value)]: the bytes written to [s], and the return value. *)
Definition ll2string (s : bytes) (len value : Z) : outcome (bytes * Z) :=
  if len =? 0 then Ok (s, 0) else
  text ← ll_text value;
  let l := Z.of_nat (length text) in
  let l := if l + 1 >? len then len - 1 else l in
  s ← memcpy s 0 (take (Z.to_nat l) text);
  s ← store s l 0;
  Ok (s, s32 l).

(** The digit loop of [string2ll]: what is left of the input and the value, or
    null when the value overflows. *)
Fixpoint digits_loop (p : bytes) (v : Z) : option (bytes * Z) :=
  match p with
  | c :: p' =>
      if isdigit c then
        if v >? ULLONG_MAX / 10 then None else
        let v := v * 10 in
        if v >? ULLONG_MAX - (c - 48) then None else
        digits_loop p' (v + (c - 48))
      else Some (p, v)
  | [] => Some ([], v)
  end.

(** [string2ll(s, slen, &value)] on the [slen] bytes [s]; [None] is a return
    value of 0. *)
Definition string2ll (s : bytes) : option Z :=
  match s with
  | [] => None
  | c0 :: s' =>
      if (match s' with [] => true | _ => false end) && (c0 =? 48) then Some 0 else
      let '(negative, p) := if c0 =? 45 then (true, s') else (false, s) in
      match p with
      | [] => None
      | c :: p =>
          if (49 <=? c) && (c <=? 57) then
            match digits_loop p (c - 48) with
            | None => None
            | Some (_ :: _, _) => None
            | Some ([], v) =>
                if negative then
                  if v >? - (LLONG_MIN + 1) + 1 then None else Some (s64 (u64 (- v)))
                else
                  if v >? LLONG_MAX then None else Some v
            end
          else None
      end
  end.

(** [long] is as wide as [long long], so the range test never fails. *)
Definition string2l (s : bytes) : option Z :=
  match string2ll s with
  | None => None
  | Some llval =>
      if (llval <? LLONG_MIN) || (llval >? LLONG_MAX) then None else Some llval
  end.

(** ** strtoll in base 10: blanks, a sign, digits; saturating *)

Fixpoint skip_spaces (s : bytes) : bytes :=
  match s with
  | c :: s' => if isspace c then skip_spaces s' else s
  | [] => []
  end.

Fixpoint span_digits (s : bytes) : bytes * bytes :=
  match s with
  | c :: s' =>
      if isdigit c then let '(d, r) := span_digits s' in (c :: d, r) else ([], s)
  | [] => ([], [])
  end.

Definition clamp (lo hi z : Z) : Z := Z.max lo (Z.min hi z).

Definition strtoll (s : bytes) : Z :=
  match skip_spaces s with
  | c :: r =>
      if c =? 45 then clamp LLONG_MIN LLONG_MAX (- dec_val (fst (span_digits r)))
      else if c =? 43 then clamp LLONG_MIN LLONG_MAX (dec_val (fst (span_digits r)))
      else clamp LLONG_MIN LLONG_MAX (dec_val (fst (span_digits (c :: r))))
  | [] => 0
  end.

(** [atoi]: [(int) strtol(s, NULL, 10)]. *)
Definition atoi (s : bytes) : Z := s32 (strtoll s).

(** ** Durations and sizes *)

(** [sizeof(buf)] in both functions. *)
Definition NUM_BUF : Z := 128.

(** The multiplier of a time suffix, an [int] product widened to [long]. *)
Definition time_unit (u : bytes) : Z * bool :=
  if (match u with [] => true | _ => false end) || strcaseeq u (str "us") then (1, false)
  else if strcaseeq u (str "ms") then (1000, false)
  else if strcaseeq u (str "s") then (s32 (1000 * 1000), false)
  else if strcaseeq u (str "m") then (s32 (s32 (60 * 1000) * 1000), false)
  else if strcaseeq u (str "h") then (s32 (s32 (s32 (60 * 60) * 1000) * 1000), false)
  else (1, true).

(** [timetoll(p, &err)] on the C string [p]: the value and the error flag. *)
Definition timetoll (p : bytes) : Z * bool :=
  let '(ds, u) := span_digits p in
  let '(mul, err) := time_unit u in
  if Z.of_nat (length ds) >=? NUM_BUF then (LLONG_MAX, true)
  else (s64 (strtoll ds * mul), err).

Definition mem_unit (u : bytes) : Z * bool :=
  if (match u with [] => true | _ => false end) || strcaseeq u (str "b") then (1, false)
  else if strcaseeq u (str "k") then (1000, false)
  else if strcaseeq u (str "kb") then (1024, false)
  else if strcaseeq u (str "m") then (s32 (1000 * 1000), false)
  else if strcaseeq u (str "mb") then (s32 (1024 * 1024), false)
  else if strcaseeq u (str "g") then (1000 * 1000 * 1000, false)
  else if strcaseeq u (str "gb") then (1024 * 1024 * 1024, false)
  else (1, true).

Definition memtoll (p : bytes) : Z * bool :=
  let '(sign, q) := match p with
                    | c :: p' => if c =? 45 then ([45], p') else ([], p)
                    | [] => ([], [])
                    end in
  let '(ds, u) := span_digits q in
  let '(mul, err) := mem_unit u in
  let text := sign ++ ds in
  if Z.of_nat (length text) >=? NUM_BUF then (LLONG_MAX, true)
  else (s64 (strtoll text * mul), err).

(** ** Time of day *)

Definition ustime (tv_sec tv_usec : Z) : Z := s64 (s64 (tv_sec * 1000000) + tv_usec).
Definition mstime (tv_sec tv_usec : Z) : Z := Z.quot (ustime tv_sec tv_usec) 1000.

(** ** Facts about decimal text *)

(** Digits without a leading zero, except for zero itself. *)
Definition canonical (ds : bytes) : Prop :=
  Forall (fun c => isdigit c = true) ds /\ ds <> [] /\ (ds = [48] \/ head ds <> Some 48).

Lemma dec_val_snoc ds c : dec_val (ds ++ [c]) = dec_val ds * 10 + (c - 48).
Proof. unfold dec_val. by rewrite fold_left_app. Qed.

Lemma isdigit_spec c : isdigit c = true <-> 48 <= c <= 57.
Proof. unfold isdigit. lia. Qed.

Lemma dec_val_nonneg ds : Forall (fun c => isdigit c = true) ds -> 0 <= dec_val ds.
Proof.
  induction ds as [|c ds IH] using rev_ind; [done|].
  rewrite Forall_app, Forall_singleton, isdigit_spec, dec_val_snoc. intros [? ?].
  specialize (IH ltac:(done)). lia.
Qed.

Lemma dec_val_lead ds a :
  fold_left (fun a c => a * 10 + (c - 48)) ds a = a * 10 ^ Z.of_nat (length ds) + dec_val ds.
Proof.
  induction ds as [|c ds IH] using rev_ind; [unfold dec_val; simpl; lia|].
  rewrite fold_left_app, dec_val_snoc, length_app, Nat2Z.inj_add, Z.pow_add_r by lia.
  simpl. rewrite IH. lia.
Qed.

Lemma dec_val_cons c ds : dec_val (c :: ds) = (c - 48) * 10 ^ Z.of_nat (length ds) + dec_val ds.
Proof. unfold dec_val at 1. simpl. by rewrite dec_val_lead. Qed.

(** A canonical text of a positive number has a positive prefix value. *)
Lemma dec_val_pos c ds :
  Forall (fun c => isdigit c = true) (c :: ds) -> c <> 48 -> 0 < dec_val (c :: ds).
Proof.
  rewrite Forall_cons, isdigit_spec. intros [Hc Hds] Hne. rewrite dec_val_cons.
  pose proof (dec_val_nonneg ds Hds). nia.
Qed.

(** Printing the value of a canonical text gives the text back. *)
Lemma put_digits_canonical ds room acc :
  canonical ds -> (length ds <= room)%nat ->
  put_digits room (dec_val ds) acc = Ok ((room - length ds)%nat, ds ++ acc).
Proof.
  revert room acc. induction ds as [|c ds IH] using rev_ind; intros room acc (Hd & Hne & Hl) Hr; [done|].
  rewrite length_app in *. simpl in Hr. destruct room as [|room]; [lia|].
  rewrite Forall_app, Forall_singleton, isdigit_spec in Hd. destruct Hd as [Hd Hc].
  simpl. rewrite dec_val_snoc.
  assert ((dec_val ds * 10 + (c - 48)) mod 10 = c - 48) as ->.
  { rewrite Z.add_comm, Z.mod_add by lia. apply Z.mod_small. lia. }
  assert ((dec_val ds * 10 + (c - 48)) / 10 = dec_val ds) as ->.
  { rewrite Z.add_comm, Z.div_add, Z.div_small; lia. }
  replace (48 + (c - 48)) with c by lia.
  destruct ds as [|c0 ds].
  - simpl. do 2 f_equal. lia.
  - assert (Hc0 : c0 <> 48) by (destruct Hl; [by destruct ds|by simpl in *; congruence]).
    pose proof (dec_val_pos c0 ds Hd Hc0).
    replace (dec_val (c0 :: ds) =? 0) with false by lia.
    rewrite IH; [|split_and!; try done; right; simpl; congruence|simpl in *; lia].
    rewrite <-app_assoc. do 2 f_equal. simpl. lia.
Qed.

(** Printing terminates, in at most [k] digits for a number below [10^k]. *)
Lemma put_digits_spec k room v acc :
  0 <= v < 10 ^ Z.of_nat k -> (0 < k <= room)%nat ->
  exists ds, put_digits room v acc = Ok ((room - length ds)%nat, ds ++ acc) /\
    canonical ds /\ dec_val ds = v /\ (length ds <= k)%nat.
Proof.
  revert room v acc. induction k as [|k IH]; intros room v acc Hv Hk; [lia|].
  destruct room as [|room]; [lia|]. simpl.
  pose proof (Z.mod_pos_bound v 10 ltac:(lia)) as Hm.
  pose proof (Z.div_mod v 10 ltac:(lia)) as Hdm.
  destruct (Z.eqb_spec (v / 10) 0) as [Hz|Hz].
  - exists [48 + v mod 10]. split_and!; [do 2 f_equal; simpl; lia| |unfold dec_val; simpl; lia|simpl; lia].
    split_and!; [apply Forall_singleton, isdigit_spec; lia|done|].
    destruct (decide (v mod 10 = 0)) as [->|]; [by left|right; simpl; intros [= ?]; lia].
  - assert (Hv' : 0 <= v / 10 < 10 ^ Z.of_nat k).
    { rewrite Nat2Z.inj_succ, Z.pow_succ_r in Hv by lia.
      split; [apply Z.div_pos; lia|apply Z.div_lt_upper_bound; lia]. }
    destruct k as [|k]; [simpl in Hv'; lia|].
    destruct (IH room (v / 10) (48 + v mod 10 :: acc) Hv' ltac:(lia)) as (ds & -> & (Hd & Hne & Hl) & Hval & Hlen).
    exists (ds ++ [48 + v mod 10]). rewrite length_app, <-app_assoc, dec_val_snoc. simpl.
    split_and!; [do 2 f_equal; lia| |lia|lia]. split_and!.
    + rewrite Forall_app, Forall_singleton, isdigit_spec. split; [done|lia].
    + by destruct ds.
    + right. destruct Hl as [->|Hl]; [by vm_compute in Hval|]. by destruct ds.
Qed.

(** The text of a 64-bit value: an optional sign and a canonical digit string. *)
Definition dec_text (v : Z) (t : bytes) : Prop :=
  (0 <= v /\ canonical t /\ dec_val t = v) \/
  (v < 0 /\ exists ds, t = 45 :: ds /\ canonical ds /\ dec_val ds = - v).

Lemma ll_text_spec v :
  LLONG_MIN <= v <= LLONG_MAX -> exists t, ll_text v = Ok t /\ dec_text v t /\ (length t <= 20)%nat.
Proof.
  unfold LLONG_MIN, LLONG_MAX. intros Hv. unfold ll_text.
  destruct (Z.ltb_spec v 0) as [Hn|Hn].
  - rewrite u64_small by lia.
    destruct (put_digits_spec 19 32 (- v) []) as (ds & -> & Hc & Hval & Hlen); [lia|lia|].
    simpl. rewrite app_nil_r. destruct (32 - length ds)%nat eqn:E; [lia|].
    eexists. split; [done|]. split; [|simpl; lia]. right. eauto.
  - rewrite u64_small by lia.
    destruct (put_digits_spec 19 32 v []) as (ds & -> & Hc & Hval & Hlen); [lia|lia|].
    simpl. rewrite app_nil_r. eexists. split; [done|]. split; [by left|lia].
Qed.

(** The text determines the value and conversely. *)
Lemma ll_text_complete v t :
  LLONG_MIN <= v <= LLONG_MAX -> dec_text v t -> ll_text v = Ok t.
Proof.
  unfold LLONG_MIN, LLONG_MAX. intros Hv Ht. unfold ll_text.
  assert (Hlen : forall ds, canonical ds -> 0 <= dec_val ds <= 2 ^ 63 -> (length ds <= 19)%nat).
  { intros ds Hc Hval.
    destruct (put_digits_spec 19 (length ds + 19) (dec_val ds) []) as (ds' & Hp & _ & _ & Hl); [lia|lia|].
    rewrite put_digits_canonical in Hp by (done || lia).
    injection Hp as _ Hp. apply app_inv_tail in Hp. congruence. }
  destruct Ht as [(Hn & Hc & Hval)|(Hn & ds & -> & Hc & Hval)].
  - replace (v <? 0) with false by lia. rewrite u64_small by lia. rewrite <-Hval.
    specialize (Hlen t Hc ltac:(lia)). rewrite put_digits_canonical by (done || lia). simpl.
    by rewrite app_nil_r.
  - replace (v <? 0) with true by lia. rewrite u64_small by lia. rewrite <-Hval.
    specialize (Hlen ds Hc ltac:(lia)). rewrite put_digits_canonical by (done || lia). simpl.
    rewrite app_nil_r. by destruct (32 - length ds)%nat eqn:E; [lia|].
Qed.

(** ** The parser *)

(** The digit loop computes the value and refuses exactly the overflows. *)
Lemma digits_loop_digits ds v :
  Forall (fun c => isdigit c = true) ds -> 0 <= v <= ULLONG_MAX ->
  digits_loop ds v =
    let r := fold_left (fun a c => a * 10 + (c - 48)) ds v in
    if r <=? ULLONG_MAX then Some ([], r) else None.
Proof.
  revert v. induction ds as [|c ds IH]; intros v Hd Hv; simpl.
  - by replace (v <=? ULLONG_MAX) with true by lia.
  - apply Forall_cons in Hd as [Hc Hd]. rewrite Hc. apply isdigit_spec in Hc.
    rewrite dec_val_lead. pose proof (dec_val_nonneg ds Hd).
    assert (1 <= 10 ^ Z.of_nat (length ds)) by (pose proof (Z.pow_pos_nonneg 10 (Z.of_nat (length ds))); lia).
    assert (Hover : ULLONG_MAX < v * 10 + (c - 48) ->
      ULLONG_MAX < (v * 10 + (c - 48)) * 10 ^ Z.of_nat (length ds) + dec_val ds) by nia.
    assert (Hdiv : v > ULLONG_MAX / 10 <-> v * 10 > ULLONG_MAX).
    { pose proof (Z.div_mod ULLONG_MAX 10 ltac:(lia)).
      pose proof (Z.mod_pos_bound ULLONG_MAX 10 ltac:(lia)). lia. }
    destruct (Z.gtb_spec v (ULLONG_MAX / 10)).
    { by replace (_ <=? ULLONG_MAX) with false by lia. }
    destruct (Z.gtb_spec (v * 10) (ULLONG_MAX - (c - 48))).
    { by replace (_ <=? ULLONG_MAX) with false by lia. }
    rewrite IH by (done || lia). by rewrite dec_val_lead.
Qed.

(** Consuming the whole input means it was all digits. *)
Lemma digits_loop_all p v r : digits_loop p v = Some ([], r) -> Forall (fun c => isdigit c = true) p.
Proof.
  revert v. induction p as [|c p IH]; intros v; simpl; [constructor|].
  destruct (isdigit c) eqn:E; [|done]. repeat case_match; try done. eauto.
Qed.

Lemma canonical_nonzero ds :
  canonical ds -> ds <> [48] -> exists c r, ds = c :: r /\ 49 <= c <= 57 /\
    Forall (fun c => isdigit c = true) r.
Proof.
  intros (Hd & Hne & Hl) Hz. destruct ds as [|c r]; [done|].
  apply Forall_cons in Hd as [Hc Hr]. apply isdigit_spec in Hc.
  exists c, r. split_and!; try done; [|lia]. destruct Hl as [|Hl]; [done|].
  simpl in Hl. assert (c <> 48) by congruence. lia.
Qed.

(** The parser on a first digit 1-9 followed by digits. *)
Lemma digits_loop_value c r :
  49 <= c <= 57 -> Forall (fun c => isdigit c = true) r ->
  digits_loop r (c - 48) =
    if dec_val (c :: r) <=? ULLONG_MAX then Some ([], dec_val (c :: r)) else None.
Proof.
  intros Hc Hr. rewrite digits_loop_digits by (done || unfold ULLONG_MAX; lia).
  by rewrite dec_val_lead, dec_val_cons.
Qed.

Lemma s64_neg v : 0 <= v <= 2 ^ 63 -> s64 (u64 (- v)) = - v.
Proof.
  intros Hv. destruct (decide (v = 0)) as [->|]; [done|].
  rewrite u64_neg by lia. unfold swrap. change (2 ^ (64 - 1)) with (2 ^ 63).
  replace (- v + 2 ^ 64 + 2 ^ 63) with ((2 ^ 63 - v) + 1 * 2 ^ 64) by lia.
  rewrite Z.mod_add by lia. rewrite Z.mod_small by lia. lia.
Qed.

Lemma string2ll_complete v t :
  LLONG_MIN <= v <= LLONG_MAX -> dec_text v t -> string2ll t = Some v.
Proof.
  unfold LLONG_MIN, LLONG_MAX. intros Hv Ht.
  destruct Ht as [(Hn & Hc & Hval)|(Hn & ds & -> & Hc & Hval)].
  - destruct (decide (t = [48])) as [->|Hz]; [by change (dec_val [48]) with 0 in Hval; subst|].
    destruct (canonical_nonzero _ Hc Hz) as (c & r & -> & Hc0 & Hr).
    unfold string2ll. replace (c =? 48) with false by lia. rewrite andb_false_r.
    replace (c =? 45) with false by lia. decide_tests.
    rewrite digits_loop_value by done. rewrite Hval. unfold ULLONG_MAX, LLONG_MAX.
    decide_tests. by replace (v >? 2 ^ 63 - 1) with false by lia.
  - assert (Hz : ds <> [48]) by (intros ->; change (dec_val [48]) with 0 in Hval; lia).
    destruct (canonical_nonzero _ Hc Hz) as (c & r & -> & Hc0 & Hr).
    unfold string2ll. change (45 =? 48) with false. rewrite andb_false_r.
    change (45 =? 45) with true. cbv iota. decide_tests.
    rewrite digits_loop_value by done. rewrite Hval. unfold ULLONG_MAX, LLONG_MIN.
    decide_tests. replace (- v >? _) with false by lia.
    rewrite s64_neg by lia. f_equal. lia.
Qed.

Lemma string2ll_sound t v :
  string2ll t = Some v -> LLONG_MIN <= v <= LLONG_MAX /\ dec_text v t.
Proof.
  unfold string2ll. destruct t as [|c0 t]; [done|].
  destruct (_ && (c0 =? 48)) eqn:E0.
  { intros [= <-]. split; [by vm_compute|]. destruct t; [|done].
    assert (c0 = 48) as -> by (simpl in E0; lia).
    left. split_and!; [done| |done]. split_and!; [by repeat constructor|done|by left]. }
  assert (Hcan : forall c r, 49 <= c <= 57 -> Forall (fun c => isdigit c = true) r -> canonical (c :: r)).
  { intros c r Hc Hr. split_and!; [constructor; [by apply isdigit_spec; lia|done]|done|].
    right. simpl. intros [= ?]. lia. }
  destruct (Z.eqb_spec c0 45) as [->|Hm]; cbv iota beta.
  - destruct t as [|c r]; [done|]. destruct ((49 <=? c) && (c <=? 57)) eqn:Ec; [|done].
    destruct (digits_loop r (c - 48)) as [[[|] w]|] eqn:El; try done.
    assert (Hr := digits_loop_all _ _ _ El).
    rewrite digits_loop_value in El by (done || lia). case_match eqn:Ev; [|done].
    injection El as <-. destruct (Z.gtb_spec (dec_val (c :: r)) (- (LLONG_MIN + 1) + 1)) as [|Hle]; [done|].
    unfold LLONG_MIN, LLONG_MAX in *. intros [= <-].
    pose proof (dec_val_pos c r (proj1 (Hcan c r ltac:(lia) Hr)) ltac:(lia)).
    rewrite s64_neg by lia. split; [lia|]. right. split; [lia|].
    exists (c :: r). split_and!; [done| |lia]. apply Hcan; [lia|done].
  - destruct ((49 <=? c0) && (c0 <=? 57)) eqn:Ec; [|done].
    destruct (digits_loop t (c0 - 48)) as [[[|] w]|] eqn:El; try done.
    assert (Hr := digits_loop_all _ _ _ El).
    rewrite digits_loop_value in El by (done || lia). case_match eqn:Ev; [|done].
    injection El as <-. destruct (Z.gtb_spec (dec_val (c0 :: t)) LLONG_MAX) as [|Hle]; [done|].
    unfold LLONG_MIN, LLONG_MAX in *. intros [= <-].
    pose proof (dec_val_pos c0 t (proj1 (Hcan c0 t ltac:(lia) Hr)) ltac:(lia)).
    split; [lia|]. left. split_and!; [lia| |done]. apply Hcan; [lia|done].
Qed.

(** ** Suffix parsing *)

Lemma span_digits_app ds u :
  Forall (fun c => isdigit c = true) ds -> (forall c, head u = Some c -> isdigit c = false) ->
  span_digits (ds ++ u) = (ds, u).
Proof.
  intros Hd Hu. induction Hd as [|c ds Hc _ IH]; simpl.
  - destruct u as [|c u]; simpl; [done|]. by rewrite (Hu c eq_refl).
  - by rewrite Hc, IH.
Qed.

Lemma strtoll_digits ds :
  Forall (fun c => isdigit c = true) ds -> dec_val ds <= LLONG_MAX -> strtoll ds = dec_val ds.
Proof.
  intros Hd Hle. pose proof (dec_val_nonneg ds Hd) as Hnn. unfold strtoll.
  destruct ds as [|c ds]; [done|]. cbn [skip_spaces].
  assert (Hc := Hd). apply Forall_cons in Hc as [Hc _]. apply isdigit_spec in Hc.
  replace (isspace c) with false by (unfold isspace; lia).
  replace (c =? 45) with false by lia. replace (c =? 43) with false by lia.
  pose proof (span_digits_app (c :: ds) [] Hd ltac:(done)) as Hsp. rewrite app_nil_r in Hsp.
  rewrite Hsp. simpl fst.
  unfold clamp, LLONG_MIN, LLONG_MAX in *. lia.
Qed.

(** ** Main theorems *)

(** C28: The integer parser and the integer printer are inverse to each other: a
    byte string is accepted by [string2ll] with value [v] exactly when [v] fits a
    [long long] and the string is the text that [ll2string] and
    [sdsfromlonglong] produce for [v]; every other string (leading zeros, a lone
    sign, "-0", trailing bytes, values out of range) is rejected. *)
Theorem string2ll_iff_ll_text t v :
  string2ll t = Some v <-> LLONG_MIN <= v <= LLONG_MAX /\ ll_text v = Ok t.
Proof.
  split.
  - intros Hs. destruct (string2ll_sound _ _ Hs) as [Hv Ht].
    split; [done|]. by apply ll_text_complete.
  - intros [Hv Ht]. destruct (ll_text_spec v Hv) as (t' & Ht' & Hd & _).
    rewrite Ht in Ht'. injection Ht' as <-. by apply string2ll_complete.
Qed.

(** [ll2string] never writes outside its buffer and always terminates it: with
    [0 < len <= |s|] it stores the first [len - 1] bytes of the number's text
    (all of it when [len] is at least 21) and a zero, and returns the number of
    text bytes stored. *)
Theorem ll2string_bounded s len v :
  0 < len <= Z.of_nat (length s) -> LLONG_MIN <= v <= LLONG_MAX ->
  exists t, ll_text v = Ok t /\ (length t <= 20)%nat /\
    let l := Nat.min (length t) (Z.to_nat (len - 1)) in
    ll2string s len v = Ok (take l t ++ 0 :: drop (S l) s, Z.of_nat l).
Proof.
  intros Hlen Hv. destruct (ll_text_spec v Hv) as (t & Ht & _ & Hl).
  exists t. split; [done|]. split; [done|]. intros l. unfold ll2string.
  replace (len =? 0) with false by lia. rewrite Ht. cbn [mbind outcome_bind].
  assert ((if Z.of_nat (length t) + 1 >? len then len - 1 else Z.of_nat (length t)) = Z.of_nat l) as ->.
  { unfold l. destruct (Z.gtb_spec (Z.of_nat (length t) + 1) len); lia. }
  rewrite Nat2Z.id. rewrite memcpy_front by (rewrite length_take; unfold l; lia). simpl.
  assert (Hlt : length (take l t) = l) by (rewrite length_take; unfold l; lia).
  rewrite Hlt. destruct (lookup_lt_is_Some_2 s l ltac:(unfold l; lia)) as [x Hx].
  rewrite (drop_S _ _ _ Hx), store_app by lia. simpl.
  rewrite s32_small by (unfold l; lia). done.
Qed.

Lemma ll2string_bounded_witness :
  exists t, ll_text (-1234) = Ok t /\ (length t <= 20)%nat /\
    let l := Nat.min (length t) (Z.to_nat (4 - 1)) in
    ll2string [9; 9; 9; 9; 9] 4 (-1234) = Ok (take l t ++ 0 :: drop (S l) [9; 9; 9; 9; 9], Z.of_nat l).
Proof. apply (ll2string_bounded [9; 9; 9; 9; 9] 4 (-1234)); by vm_compute. Defined.

(** The documented suffixes of a duration, in microseconds. *)
Definition time_suffixes : list (bytes * Z) :=
  [([], 1); (str "us", 1); (str "ms", 1000); (str "s", 1000000); (str "m", 60000000)].

(** [timetoll] computes number times unit, without error, for every digit
    string of fewer than 128 digits and every unit up to minutes whose product
    fits a [long long]. *)
Theorem timetoll_units ds u mul :
  Forall (fun c => isdigit c = true) ds -> (length ds < 128)%nat ->
  (u, mul) ∈ time_suffixes -> dec_val ds * mul <= LLONG_MAX ->
  timetoll (ds ++ u) = (dec_val ds * mul, false).
Proof.
  intros Hd Hl Hu Hm. unfold timetoll. pose proof (dec_val_nonneg ds Hd).
  assert (Hmul : time_unit u = (mul, false) /\ 1 <= mul /\
    forall c, head u = Some c -> isdigit c = false).
  { unfold time_suffixes in Hu. repeat (apply elem_of_cons in Hu as [[= -> ->]|Hu];
      [split_and!; [by vm_compute|lia|by intros c [= <-]]|]). by apply not_elem_of_nil in Hu. }
  destruct Hmul as (Hmu & Hpos & Hhd).
  rewrite span_digits_app by done. rewrite Hmu. unfold NUM_BUF.
  replace (_ >=? 128) with false by lia.
  rewrite strtoll_digits by (done || nia). rewrite s64_small; [done|].
  unfold LLONG_MAX in Hm. nia.
Qed.

Lemma timetoll_units_witness : timetoll (str "30" ++ str "s") = (dec_val (str "30") * 1000000, false).
Proof.
  apply (timetoll_units (str "30") (str "s") 1000000).
  - repeat constructor.
  - vm_compute. lia.
  - apply list_elem_of_In. vm_compute. tauto.
  - by vm_compute.
Defined.

(** The hour suffix does not work: its multiplier [60 * 60 * 1000 * 1000] is
    computed in [int], where it wraps to -694967296, so every positive number of
    hours (up to 10^9) is read, without an error flag, as a negative duration. *)
Theorem timetoll_hours_negative ds :
  Forall (fun c => isdigit c = true) ds -> (length ds < 128)%nat ->
  0 < dec_val ds <= 1000000000 ->
  timetoll (ds ++ str "h") = (- 694967296 * dec_val ds, false) /\
  fst (timetoll (ds ++ str "h")) < 0.
Proof.
  intros Hd Hl Hv. assert (timetoll (ds ++ str "h") = (- 694967296 * dec_val ds, false)) as ->; [|cbn [fst]; split; [done|lia]].
  unfold timetoll. rewrite span_digits_app by (done || by intros c [= <-]).
  change (time_unit (str "h")) with (-694967296, false). unfold NUM_BUF.
  replace (_ >=? 128) with false by lia.
  rewrite strtoll_digits by (done || (unfold LLONG_MAX; lia)). rewrite s64_small by lia. f_equal. lia.
Qed.

Lemma timetoll_hours_negative_witness :
  timetoll (str "1" ++ str "h") = (- 694967296 * dec_val (str "1"), false) /\
  fst (timetoll (str "1" ++ str "h")) < 0.
Proof.
  apply (timetoll_hours_negative (str "1")); [repeat constructor|vm_compute; lia|by vm_compute].
Defined.

(** The suffixes of a memory size; "gb" and not "Gi" is 1024^3. *)
Definition mem_suffixes : list (bytes * Z) :=
  [([], 1); (str "b", 1); (str "k", 1000); (str "kb", 1024); (str "m", 1000000);
   (str "mb", 1048576); (str "g", 1000000000); (str "gb", 1073741824)].

(** [memtoll] computes number times unit, without error, for every digit
    string of fewer than 128 digits and every unit whose product fits a
    [long long]. *)
Theorem memtoll_units ds u mul :
  Forall (fun c => isdigit c = true) ds -> ds <> [] -> (length ds < 128)%nat ->
  (u, mul) ∈ mem_suffixes -> dec_val ds * mul <= LLONG_MAX ->
  memtoll (ds ++ u) = (dec_val ds * mul, false).
Proof.
  intros Hd Hne Hl Hu Hm. unfold memtoll. pose proof (dec_val_nonneg ds Hd).
  assert (Hmul : mem_unit u = (mul, false) /\ 1 <= mul /\
    forall c, head u = Some c -> isdigit c = false).
  { unfold mem_suffixes in Hu. repeat (apply elem_of_cons in Hu as [[= -> ->]|Hu];
      [split_and!; [by vm_compute|lia|by intros c [= <-]]|]). by apply not_elem_of_nil in Hu. }
  destruct Hmul as (Hmu & Hpos & Hhd).
  destruct ds as [|c ds]; [done|]. simpl app.
  assert (Hc := Hd). apply Forall_cons in Hc as [Hc _]. apply isdigit_spec in Hc.
  replace (c =? 45) with false by lia. cbv iota beta.
  change (c :: ds ++ u) with ((c :: ds) ++ u).
  rewrite span_digits_app by done. rewrite Hmu. unfold NUM_BUF. simpl app.
  replace (_ >=? 128) with false by lia.
  rewrite strtoll_digits by (done || nia). rewrite s64_small; [done|].
  unfold LLONG_MAX in Hm. nia.
Qed.

Lemma memtoll_units_witness : memtoll (str "10" ++ str "mb") = (dec_val (str "10") * 1048576, false).
Proof.
  apply (memtoll_units (str "10") (str "mb") 1048576).
  - repeat constructor.
  - done.
  - vm_compute. lia.
  - apply list_elem_of_In. vm_compute. tauto.
  - by vm_compute.
Defined.

(** The example in the comment above [memtoll] is rejected. *)
Example memtoll_Gi_rejected : memtoll (str "1Gi") = (1, true).
Proof. by vm_compute. Qed.
