(* ===== verification/Sds.v ===== *)
(** * Dynamic strings (src/util/sds.h, src/util/sds.cpp)

    An sds is the header [struct sdshdr] and the flexible array behind it.
    [len] and [free] are C [int]s and are kept wrapped to 32 bits; lengths that
    the code computes in [size_t] are wrapped to 64.  Every access to the array
    goes through the checked primitives of the prelude. *)

From S2P Require Import Prelude.

Definition SDS_MAX_PREALLOC : Z := 1024 * 1024.
Definition sizeof_sdshdr : Z := 8.

Record sds := mkSds { sh_len : Z; sh_free : Z; sh_buf : bytes }.

Section Sds.
Context `{Allocator}.

(** The array part of a block of [total] bytes that starts with the header. *)
Definition buf_of (blk : bytes) : bytes := drop (Z.to_nat sizeof_sdshdr) blk.

Definition sdslen (s : sds) : Z := u64 (sh_len s).
Definition sdsavail (s : sds) : Z := u64 (sh_free s).

Definition sdsnewlen (init : option bytes) (initlen : Z) : outcome (option sds) :=
  let total := u64 (sizeof_sdshdr + initlen + 1) in
  let blk := match init with
             | Some _ => zmalloc_block total
             | None => zcalloc_block total
             end in
  match blk with
  | None => Ok None
  | Some blk =>
      let buf := buf_of blk in
      buf ← match init with
            | Some src =>
                if initlen =? 0 then Ok buf
                else (src ← read_block src 0 initlen; memcpy buf 0 src)
            | None => Ok buf
            end;
      buf ← store buf initlen 0;
      Ok (Some (mkSds (s32 initlen) 0 buf))
  end.

Definition sdsempty : outcome (option sds) := sdsnewlen (Some [0]) 0.

Definition sdsnew (init : option bytes) : outcome (option sds) :=
  match init with
  | None => sdsnewlen None 0
  | Some m => n ← strlen m; sdsnewlen (Some m) (Z.of_nat n)
  end.

Definition sdsdup (s : sds) : outcome (option sds) :=
  sdsnewlen (Some (sh_buf s)) (sdslen s).

Definition sdsupdatelen (s : sds) : outcome sds :=
  n ← strlen (sh_buf s);
  let reallen := s32 (Z.of_nat n) in
  Ok (mkSds reallen (s32 (sh_free s + (sh_len s - reallen))) (sh_buf s)).

Definition sdsclear (s : sds) : outcome sds :=
  buf ← store (sh_buf s) 0 0;
  Ok (mkSds 0 (s32 (sh_free s + sh_len s)) buf).

(** The header survives [zrealloc], so only the array is reallocated here. *)
Definition sdsMakeRoomFor (s : sds) (addlen : Z) : outcome (option sds) :=
  let free := sdsavail s in
  if free >=? addlen then Ok (Some s) else
  let len := sdslen s in
  let newlen := u64 (len + addlen) in
  let newlen := if newlen <? SDS_MAX_PREALLOC
                then u64 (newlen * 2) else u64 (newlen + SDS_MAX_PREALLOC) in
  let total := u64 (sizeof_sdshdr + newlen + 1) in
  match zrealloc_block (replicate (Z.to_nat sizeof_sdshdr) 0 ++ sh_buf s) total with
  | None => Ok None
  | Some blk => Ok (Some (mkSds (sh_len s) (s32 (newlen - len)) (buf_of blk)))
  end.

Definition sdsRemoveFreeSpace (s : sds) : outcome sds :=
  let total := u64 (sizeof_sdshdr + sh_len s + 1) in
  match zrealloc_block (replicate (Z.to_nat sizeof_sdshdr) 0 ++ sh_buf s) total with
  | None => Trap NullDeref
  | Some blk => Ok (mkSds (sh_len s) 0 (buf_of blk))
  end.

Definition sdsAllocSize (s : sds) : Z :=
  u64 (sizeof_sdshdr + sh_len s + sh_free s + 1).

Definition sdsIncrLen (s : sds) (incr : Z) : outcome sds :=
  guard_trap (sh_free s >=? incr) AssertFailed (
  let len := s32 (sh_len s + incr) in
  let free := s32 (sh_free s - incr) in
  guard_trap (free >=? 0) AssertFailed (
  buf ← store (sh_buf s) len 0;
  Ok (mkSds len free buf))).

Definition sdsgrowzero (s : sds) (len : Z) : outcome (option sds) :=
  let curlen := sdslen s in
  if len <=? curlen then Ok (Some s) else
  s ⇐ sdsMakeRoomFor s (u64 (len - curlen));
  buf ← memcpy (sh_buf s) curlen (replicate (Z.to_nat (len - curlen + 1)) 0);
  let totlen := u64 (sh_len s + sh_free s) in
  let newlen := s32 len in
  Ok (Some (mkSds newlen (s32 (totlen - newlen)) buf)).

Definition sdscatlen (s : sds) (t : bytes) (len : Z) : outcome (option sds) :=
  let curlen := sdslen s in
  s ⇐ sdsMakeRoomFor s len;
  src ← read_block t 0 len;
  buf ← memcpy (sh_buf s) curlen src;
  buf ← store buf (curlen + len) 0;
  Ok (Some (mkSds (s32 (curlen + len)) (s32 (sh_free s - len)) buf)).

Definition sdscat (s : sds) (t : bytes) : outcome (option sds) :=
  n ← strlen t; sdscatlen s t (Z.of_nat n).

Definition sdscatsds (s t : sds) : outcome (option sds) :=
  sdscatlen s (sh_buf t) (sdslen t).

Definition sdscpylen (s : sds) (t : bytes) (len : Z) : outcome (option sds) :=
  let totlen := u64 (sh_free s + sh_len s) in
  s ⇐ (if totlen <? len then sdsMakeRoomFor s (u64 (len - sh_len s)) else Ok (Some s));
  let totlen := u64 (sh_free s + sh_len s) in
  src ← read_block t 0 len;
  buf ← memcpy (sh_buf s) 0 src;
  buf ← store buf len 0;
  Ok (Some (mkSds (s32 len) (s32 (totlen - len)) buf)).

Definition sdscpy (s : sds) (t : bytes) : outcome (option sds) :=
  n ← strlen t; sdscpylen s t (Z.of_nat n).

(** [vsnprintf(buf, n, fmt, ap)] when the arguments format to [out]. *)
Definition vsnprintf (buf : bytes) (n : Z) (out : bytes) : outcome bytes :=
  memcpy buf 0 (take (Z.to_nat (n - 1)) out ++ [0]).

(** The retry loop; the buffer of the successful attempt is returned. *)
Fixpoint catvprintf_loop (fuel : nat) (buflen : Z) (out : bytes) : outcome (option bytes) :=
  match fuel with
  | O => Trap OutOfFuel
  | S fuel =>
      match zmalloc_block buflen with
      | None => Ok None
      | Some buf =>
          buf ← store buf (buflen - 2) 0;
          buf ← vsnprintf buf buflen out;
          c ← load buf (buflen - 2);
          if negb (c =? 0) then catvprintf_loop fuel (u64 (buflen * 2)) out
          else Ok (Some buf)
      end
  end.

Definition sdscatvprintf (fuel : nat) (s : sds) (out : bytes) : outcome (option sds) :=
  buf ⇐ catvprintf_loop fuel 16 out; sdscat s buf.

Definition sdscatprintf := sdscatvprintf.

(** [strchr(cset, c) != NULL]; the terminator of [cset] also matches. *)
Definition strchr_found (cset : bytes) (c : Z) : bool :=
  (c =? 0) || existsb (Z.eqb c) cset.

Fixpoint trim_sp (fuel : nat) (buf : bytes) (cset : bytes) (sp last : Z) : outcome Z :=
  match fuel with
  | O => Trap OutOfFuel
  | S fuel =>
      if sp <=? last
      then (c ← load buf sp;
            if strchr_found cset c then trim_sp fuel buf cset (sp + 1) last else Ok sp)
      else Ok sp
  end.

Fixpoint trim_ep (fuel : nat) (buf : bytes) (cset : bytes) (ep start : Z) : outcome Z :=
  match fuel with
  | O => Trap OutOfFuel
  | S fuel =>
      if ep >? start
      then (c ← load buf ep;
            if strchr_found cset c then trim_ep fuel buf cset (ep - 1) start else Ok ep)
      else Ok ep
  end.

Definition sdstrim (s : sds) (cset : bytes) : outcome sds :=
  let fuel := S (length (sh_buf s)) in
  let last := sdslen s - 1 in
  sp ← trim_sp fuel (sh_buf s) cset 0 last;
  ep ← trim_ep fuel (sh_buf s) cset last 0;
  let len := if sp >? ep then 0 else ep - sp + 1 in
  buf ← (if sp =? 0 then Ok (sh_buf s)
         else (src ← read_block (sh_buf s) sp len; memcpy (sh_buf s) 0 src));
  buf ← store buf len 0;
  Ok (mkSds (s32 len) (s32 (sh_free s + (sh_len s - len))) buf).

(** [(end-start)+1] overflows only from 0 to INT_MAX, where it wraps here; the
    sum is then not used, because [end] is cut to the length. *)
Definition sdsrange (s : sds) (start end_ : Z) : outcome sds :=
  let len := sdslen s in
  if len =? 0 then Ok s else
  let start := if start <? 0 then Z.max 0 (s32 (len + start)) else start in
  let end_ := if end_ <? 0 then Z.max 0 (s32 (len + end_)) else end_ in
  let newlen := if start >? end_ then 0 else u64 (s32 (end_ - start + 1)) in
  let '(start, newlen) :=
    if negb (newlen =? 0) then
      if start >=? s32 len then (start, 0)
      else if end_ >=? s32 len then
        let end_ := s32 (len - 1) in
        (start, if start >? end_ then 0 else u64 (s32 (end_ - start + 1)))
      else (start, newlen)
    else (0, newlen) in
  buf ← (if negb (start =? 0) && negb (newlen =? 0)
         then (src ← read_block (sh_buf s) start newlen; memcpy (sh_buf s) 0 src)
         else Ok (sh_buf s));
  buf ← store buf newlen 0;
  Ok (mkSds (s32 newlen) (s32 (sh_free s + (sh_len s - newlen))) buf).

(** [for (j = 0; j < n; j++) s[j] = f(s[j]);] *)
Fixpoint map_first (f : Z -> outcome Z) (n : nat) (buf : bytes) : outcome bytes :=
  match n, buf with
  | O, _ => Ok buf
  | S _, [] => Trap OutOfBounds
  | S n, c :: buf => c ← f c; buf ← map_first f n buf; Ok (c :: buf)
  end.

Definition sdstolower (s : sds) : outcome sds :=
  buf ← map_first (fun c => Ok (tolower c)) (Z.to_nat (s32 (sdslen s))) (sh_buf s);
  Ok (mkSds (sh_len s) (sh_free s) buf).

Definition sdstoupper (s : sds) : outcome sds :=
  buf ← map_first (fun c => Ok (toupper c)) (Z.to_nat (s32 (sdslen s))) (sh_buf s);
  Ok (mkSds (sh_len s) (sh_free s) buf).

Definition sdscmp (s1 s2 : sds) : outcome Z :=
  let l1 := sdslen s1 in let l2 := sdslen s2 in
  let minlen := if l1 <? l2 then l1 else l2 in
  a ← read_block (sh_buf s1) 0 minlen;
  b ← read_block (sh_buf s2) 0 minlen;
  let cmp := memcmp a b in
  if cmp =? 0 then Ok (s32 (l1 - l2)) else Ok cmp.

(** [for (i = 0; i < setlen; i++) if (c == from[i]) { c = to[i]; break; }] *)
Fixpoint map_char (setlen : nat) (from to : bytes) (c : Z) : outcome Z :=
  match setlen with
  | O => Ok c
  | S n =>
      x ← load from 0;
      if c =? x then load to 0 else map_char n (tail from) (tail to) c
  end.

Definition sdsmapchars (s : sds) (from to : bytes) (setlen : Z) : outcome sds :=
  buf ← map_first (map_char (Z.to_nat setlen) from to) (Z.to_nat (sdslen s)) (sh_buf s);
  Ok (mkSds (sh_len s) (sh_free s) buf).

End Sds.

(** ** Representation

    [sds_repr s c f]: [s] holds the bytes [c], is terminated, and has [f] spare
    bytes behind the terminator; the capacity fits an [int]. *)

Record sds_repr (s : sds) (c : bytes) (f : nat) : Prop := mkRepr {
  repr_len : sh_len s = Z.of_nat (length c);
  repr_free : sh_free s = Z.of_nat f;
  repr_buf : exists rest, sh_buf s = c ++ 0 :: rest /\ length rest = f;
  repr_int : Z.of_nat (length c + f) <= INT_MAX }.

(** A string of [n] more bytes than [c] is one the library can build: the
    preallocation does not push [free] past [INT_MAX]. *)
Definition fits (c : bytes) (n : Z) : Prop :=
  Z.of_nat (length c) + n + SDS_MAX_PREALLOC <= INT_MAX.

Section SdsFacts.
Context `{Allocator}.
Hypothesis alloc_total : forall n, alloc_ok n = true.
Implicit Types (s : sds) (c t : bytes) (f : nat).

Ltac int_lia := unfold fits, INT_MAX, SDS_MAX_PREALLOC, sizeof_sdshdr in *; list_lia.

Lemma sdslen_repr s c f : sds_repr s c f -> sdslen s = Z.of_nat (length c).
Proof. unfold sdslen. intros [-> _ _ ?]. apply u64_small. int_lia. Qed.

Lemma sdsavail_repr s c f : sds_repr s c f -> sdsavail s = Z.of_nat f.
Proof. unfold sdsavail. intros [_ -> _ ?]. apply u64_small. int_lia. Qed.

Lemma buf_of_hdr (b : bytes) : buf_of (replicate (Z.to_nat sizeof_sdshdr) 0 ++ b) = b.
Proof. reflexivity. Qed.

Lemma sdsnewlen_repr m c rest :
  m = c ++ rest -> fits c 0 ->
  exists s, sdsnewlen (Some m) (Z.of_nat (length c)) = Ok (Some s) /\ sds_repr s c 0.
Proof.
  intros -> Hf. unfold sdsnewlen, zmalloc_block. rewrite alloc_total.
  set (total := u64 _).
  assert (Ht : total = 9 + Z.of_nat (length c)).
  { unfold total. rewrite u64_small; int_lia. }
  rewrite Ht. clearbody total. clear Ht.
  set (buf := buf_of _).
  assert (Hb : length buf = S (length c)).
  { unfold buf, buf_of. rewrite length_drop, fresh_bytes_length. int_lia. }
  assert (Hw : (if Z.of_nat (length c) =? 0 then Ok buf
     else src ← read_block (c ++ rest) 0 (Z.of_nat (length c)); memcpy buf 0 src)
     = Ok (c ++ drop (length c) buf)).
  { destruct c as [|x c]; [done|]. decide_tests.
    rewrite read_block_0 by done. cbn [mbind outcome_bind].
    by rewrite memcpy_front by list_lia. }
  rewrite Hw. simpl.
  assert (Hd : exists z, drop (length c) buf = [z]).
  { destruct (drop (length c) buf) as [|z [|]] eqn:E; [| by exists z |].
    all: apply (f_equal length) in E; rewrite length_drop in E; simpl in E; lia. }
  destruct Hd as [z Hz]. rewrite Hz, store_app by done. simpl.
  eexists. split; [done|]. split; simpl; try done.
  - apply s32_small. int_lia.
  - by exists [].
  - int_lia.
Qed.

Lemma sdsnewlen_null_repr n :
  Z.of_nat n + SDS_MAX_PREALLOC <= INT_MAX ->
  exists s, sdsnewlen None (Z.of_nat n) = Ok (Some s) /\ sds_repr s (replicate n 0) 0.
Proof.
  intros Hf. unfold sdsnewlen, zcalloc_block. rewrite alloc_total.
  rewrite u64_small by int_lia. simpl.
  assert (buf_of (replicate (Z.to_nat (sizeof_sdshdr + Z.of_nat n + 1)) 0)
          = replicate n 0 ++ [0]) as ->.
  { unfold buf_of. rewrite drop_replicate. change [0] with (replicate 1 0).
    rewrite <-replicate_add. f_equal. int_lia. }
  rewrite store_app by (by rewrite length_replicate). simpl.
  eexists. split; [done|].
  split; simpl; rewrite ?length_replicate; try done; [apply s32_small| |]; try int_lia.
  by exists [].
Qed.

Lemma sdsempty_repr : exists s, sdsempty = Ok (Some s) /\ sds_repr s [] 0.
Proof. apply (sdsnewlen_repr [0] [] [0]); [done|]. by vm_compute. Qed.

Lemma sdsdup_repr s c f :
  sds_repr s c f -> fits c 0 -> exists s', sdsdup s = Ok (Some s') /\ sds_repr s' c 0.
Proof.
  intros Hr Hf. unfold sdsdup. rewrite (sdslen_repr _ _ _ Hr).
  destruct Hr as [_ _ (rest & -> & _) _]. by apply (sdsnewlen_repr _ c (0 :: rest)).
Qed.

(** Room for [addlen] more bytes: the contents stay, only the spare space grows. *)
Lemma sdsMakeRoomFor_repr s c f n :
  sds_repr s c f -> fits c (Z.of_nat n) ->
  exists s' f', sdsMakeRoomFor s (Z.of_nat n) = Ok (Some s') /\ sds_repr s' c f' /\ (n <= f')%nat.
Proof.
  intros Hr Hf. unfold sdsMakeRoomFor.
  rewrite (sdslen_repr _ _ _ Hr), (sdsavail_repr _ _ _ Hr).
  destruct (Z.geb_spec (Z.of_nat f) (Z.of_nat n)) as [Hle|Hlt]; [exists s, f; split_and!; auto; lia|].
  destruct Hr as [Hl Hfr (rest & Hb & Hrest) Hi1].
  rewrite (u64_small (Z.of_nat (length c) + Z.of_nat n)) by int_lia.
  set (need := Z.of_nat (length c) + Z.of_nat n).
  set (newlen := if need <? SDS_MAX_PREALLOC then u64 (need * 2) else u64 (need + SDS_MAX_PREALLOC)).
  assert (Hnl : need <= newlen <= INT_MAX).
  { unfold newlen, need in *.
    destruct (Z.ltb_spec (Z.of_nat (length c) + Z.of_nat n) SDS_MAX_PREALLOC); rewrite u64_small; int_lia. }
  clearbody newlen.
  rewrite (u64_small (sizeof_sdshdr + newlen + 1)) by (unfold need in *; int_lia).
  unfold zrealloc_block. rewrite alloc_total. rewrite Hb.
  set (k := (Z.to_nat (newlen - Z.of_nat (length c)) - f)%nat).
  assert (Hbuf : buf_of (take (Z.to_nat (sizeof_sdshdr + newlen + 1))
            (replicate (Z.to_nat sizeof_sdshdr) 0 ++ c ++ 0 :: rest) ++
          fresh_bytes (Z.to_nat (sizeof_sdshdr + newlen + 1) -
            length (replicate (Z.to_nat sizeof_sdshdr) 0 ++ c ++ 0 :: rest)))
          = c ++ 0 :: (rest ++ fresh_bytes k)).
  { unfold need in *. rewrite take_ge by int_lia. rewrite <-app_assoc, buf_of_hdr.
    rewrite <-app_assoc. simpl. do 4 f_equal. unfold k. int_lia. }
  rewrite Hbuf. unfold need in *.
  eexists _, (f + k)%nat. split; [done|]. split; [|unfold k; int_lia].
  split; simpl; try done.
  - rewrite s32_small; unfold k; int_lia.
  - exists (rest ++ fresh_bytes k). split; [done|]. list_lia.
  - unfold k; int_lia.
Qed.

Lemma sdscatlen_repr s c f t rest :
  sds_repr s c f -> fits c (Z.of_nat (length t)) ->
  exists s' f', sdscatlen s (t ++ rest) (Z.of_nat (length t)) = Ok (Some s') /\ sds_repr s' (c ++ t) f'.
Proof.
  intros Hr Hf. unfold sdscatlen. rewrite (sdslen_repr _ _ _ Hr).
  destruct (sdsMakeRoomFor_repr _ _ _ _ Hr Hf) as (s' & f' & -> & Hr' & Hn). simpl.
  rewrite read_block_0 by done. simpl.
  destruct Hr' as [Hl Hfr (r & -> & Hr') Hi1].
  assert (exists r1 x r2, 0 :: r = r1 ++ x :: r2 /\ length r1 = length t) as (r1 & x & r2 & Hsp & Hr1).
  { destruct (lookup_lt_is_Some_2 (0 :: r) (length t) ltac:(simpl; lia)) as [x Hx].
    exists (take (length t) (0 :: r)), x, (drop (S (length t)) (0 :: r)).
    split; [by rewrite take_drop_middle|]. list_lia. }
  rewrite Hsp, (memcpy_app c r1) by done. simpl.
  rewrite app_assoc, store_app by list_lia. simpl.
  assert (Hr2 : length r2 = (f' - length t)%nat).
  { apply (f_equal length) in Hsp. list_lia. }
  eexists _, (length r2). split; [done|]. split; simpl.
  - rewrite s32_small; int_lia.
  - rewrite Hfr, s32_small; int_lia.
  - by exists r2.
  - int_lia.
Qed.

Lemma sdscat_repr s c f t rest :
  sds_repr s c f -> no_nul t -> fits c (Z.of_nat (length t)) ->
  exists s' f', sdscat s (t ++ 0 :: rest) = Ok (Some s') /\ sds_repr s' (c ++ t) f'.
Proof.
  intros Hr Hn Hf. unfold sdscat. rewrite strlen_app by done. simpl. by eapply sdscatlen_repr.
Qed.

(** Bytes stored by the caller in the spare room, then accounted for. *)
Lemma sdsIncrLen_repr s c f t :
  sds_repr s c f -> (length t <= f)%nat ->
  exists m s', memcpy (sh_buf s) (Z.of_nat (length c)) t = Ok m /\
    sdsIncrLen (mkSds (sh_len s) (sh_free s) m) (Z.of_nat (length t)) = Ok s' /\
    sds_repr s' (c ++ t) (f - length t).
Proof.
  intros [Hl Hfr (rest & Hb & Hrest) Hi1] Hle.
  assert (Hm : memcpy (sh_buf s) (Z.of_nat (length c)) t = Ok (c ++ t ++ drop (length t) (0 :: rest))).
  { rewrite Hb. rewrite <-(take_drop (length t) (0 :: rest)) at 1.
    apply memcpy_app; [done|]. rewrite length_take. simpl. lia. }
  destruct (drop (length t) (0 :: rest)) as [|x r] eqn:E;
    apply (f_equal length) in E; rewrite length_drop in E; simpl in E; [lia|].
  eexists _, (mkSds (Z.of_nat (length c + length t)) (Z.of_nat (f - length t)) ((c ++ t) ++ 0 :: r)).
  split; [done|]. split.
  - unfold sdsIncrLen, guard_trap. cbn [sh_len sh_free sh_buf]. rewrite Hl, Hfr.
    rewrite !s32_small by int_lia.
    replace (Z.of_nat f >=? _) with true by lia. replace (_ >=? 0) with true by lia.
    rewrite (app_assoc c t (x :: r)), store_app by list_lia. cbn [mbind outcome_bind].
    do 2 f_equal; lia.
  - split; simpl; try int_lia. exists r. split; [done|lia].
Qed.

(** Moving the [n] bytes at [p] to the front and terminating them there: the
    common end of [sdstrim] and [sdsrange]. *)
Lemma move_front s c f p n :
  sds_repr s c f -> (p + n <= length c)%nat ->
  (src ← read_block (sh_buf s) (Z.of_nat p) (Z.of_nat n); memcpy (sh_buf s) 0 src)
  = Ok (take n (drop p c) ++ drop n (sh_buf s)).
Proof.
  intros [_ _ (rest & -> & _) _] Hle.
  assert (Hsp : c ++ 0 :: rest = take p c ++ take n (drop p c) ++ drop n (drop p c) ++ 0 :: rest).
  { by rewrite (app_assoc (take n _)), take_drop, app_assoc, take_drop. }
  rewrite Hsp at 1. rewrite read_block_app by list_lia. simpl.
  rewrite memcpy_front by list_lia. do 3 f_equal. list_lia.
Qed.

Lemma terminate_repr s c f p n :
  sds_repr s c f -> (p + n <= length c)%nat ->
  exists buf,
    store (take n (drop p c) ++ drop n (sh_buf s)) (Z.of_nat n) 0 = Ok buf /\
    sds_repr (mkSds (s32 (Z.of_nat n)) (s32 (sh_free s + (sh_len s - Z.of_nat n))) buf)
             (take n (drop p c)) (f + (length c - n)).
Proof.
  intros [Hl Hfr (rest & Hb & Hrest) Hi] Hle.
  assert (Hlb : (n < length (sh_buf s))%nat) by (rewrite Hb; list_lia).
  destruct (lookup_lt_is_Some_2 _ _ Hlb) as [x Hx].
  rewrite (drop_S _ _ _ Hx), store_app by list_lia.
  eexists. split; [done|].
  split; simpl; rewrite ?Hl, ?Hfr, ?s32_small by int_lia; try int_lia.
  eexists. split; [done|]. rewrite Hb. list_lia.
Qed.

(** *** sdsclear, sdsupdatelen, sdsRemoveFreeSpace, sdscpylen, sdsgrowzero *)

Lemma sdsclear_repr s c f :
  sds_repr s c f -> exists s', sdsclear s = Ok s' /\ sds_repr s' [] (f + length c).
Proof.
  intros [Hl Hfr (rest & Hb & Hrest) Hi]. unfold sdsclear.
  destruct (sh_buf s) as [|x b] eqn:E; [by destruct c|].
  rewrite (store_app [] b x) by done. simpl.
  eexists. split; [done|]. split; simpl; rewrite ?Hl, ?Hfr, ?s32_small by int_lia; try int_lia.
  exists b. split; [done|]. apply (f_equal length) in Hb. list_lia.
Qed.

Lemma sdsupdatelen_repr s c f :
  sds_repr s c f ->
  exists s', sdsupdatelen s = Ok s' /\ sds_repr s' (cstr (sh_buf s)) (length c + f - length (cstr (sh_buf s))).
Proof.
  intros [Hl Hfr (rest & Hb & Hrest) Hi]. unfold sdsupdatelen.
  assert (Hsplit : forall m : bytes, exists n r, strlen (m ++ 0 :: rest) = Ok n /\
            n = length (cstr (m ++ 0 :: rest)) /\ m ++ 0 :: rest = cstr (m ++ 0 :: rest) ++ 0 :: r).
  { induction m as [|x m IH]; simpl; [by exists O, rest|].
    destruct (Z.eqb_spec x 0) as [->|Hx]; [by eexists O, _|].
    destruct IH as (n & r & -> & -> & Hr). simpl. exists (S (length (cstr (m ++ 0 :: rest)))), r.
    split_and!; [done..|]. by f_equal. }
  destruct (Hsplit c) as (n & r & Hn & -> & Hr). rewrite Hb, Hn. simpl.
  assert (Hlen := f_equal length Hr).
  rewrite (s32_small (Z.of_nat (length (cstr _)))) by int_lia.
  eexists. split; [done|]. split; simpl; rewrite ?Hl, ?Hfr, ?s32_small by int_lia; try int_lia.
  exists r. split; [done|]. list_lia.
Qed.

Lemma sdsRemoveFreeSpace_repr s c f :
  sds_repr s c f -> exists s', sdsRemoveFreeSpace s = Ok s' /\ sds_repr s' c 0.
Proof.
  intros [Hl Hfr (rest & Hb & Hrest) Hi]. unfold sdsRemoveFreeSpace, zrealloc_block.
  rewrite alloc_total, Hl, Hb, u64_small by int_lia.
  eexists. split; [done|]. split; simpl; try int_lia.
  exists []. split; [|done]. unfold buf_of.
  rewrite drop_app_le by int_lia.
  replace (Z.to_nat (sizeof_sdshdr + Z.of_nat (length c) + 1) - _)%nat with O by int_lia.
  rewrite app_nil_r, skipn_firstn_comm.
  replace (Z.to_nat (sizeof_sdshdr + Z.of_nat (length c) + 1))
    with (Z.to_nat sizeof_sdshdr + (length c + 1))%nat by int_lia.
  rewrite (Nat.add_comm (Z.to_nat sizeof_sdshdr)), Nat.add_sub.
  change (take (length c + 1) (c ++ 0 :: rest) = c ++ [0]). by rewrite take_app_add.
Qed.

Lemma sdscpylen_repr s c f t rest :
  sds_repr s c f -> fits t 0 ->
  exists s' f', sdscpylen s (t ++ rest) (Z.of_nat (length t)) = Ok (Some s') /\ sds_repr s' t f'.
Proof.
  intros Hr Hft. unfold sdscpylen.
  assert (exists s1 f1, (if u64 (sh_free s + sh_len s) <? Z.of_nat (length t)
             then sdsMakeRoomFor s (u64 (Z.of_nat (length t) - sh_len s)) else Ok (Some s))
          = Ok (Some s1) /\ sds_repr s1 c f1 /\ (length t <= length c + f1)%nat)
    as (s1 & f1 & -> & Hr1 & Hle).
  { destruct Hr as [Hl Hfr Hb Hi] eqn:E. clear E. rewrite Hl, Hfr, !u64_small by int_lia.
    destruct (Z.ltb_spec (Z.of_nat f + Z.of_nat (length c)) (Z.of_nat (length t))).
    - rewrite u64_small by int_lia.
      replace (Z.of_nat (length t) - Z.of_nat (length c)) with (Z.of_nat (length t - length c)) by lia.
      destruct (sdsMakeRoomFor_repr s c f (length t - length c)) as (s1 & f1 & -> & Hr1 & ?);
        [done|int_lia|]. exists s1, f1. split_and!; [done..|lia].
    - exists s, f. split_and!; [done..|lia]. }
  simpl. rewrite read_block_0 by done. simpl.
  destruct Hr1 as [Hl Hfr (r & Hb & Hrest) Hi].
  rewrite memcpy_front by (rewrite Hb; list_lia). simpl.
  assert (Hlb : (length t < length (sh_buf s1))%nat) by (rewrite Hb; list_lia).
  destruct (lookup_lt_is_Some_2 _ _ Hlb) as [x Hx].
  rewrite (drop_S _ _ _ Hx), store_app by done. simpl.
  eexists _, (length c + f1 - length t)%nat. split; [done|].
  split; simpl; rewrite ?Hl, ?Hfr, ?(u64_small (_ + _)), ?s32_small by int_lia; try int_lia.
  eexists. split; [done|]. rewrite Hb. list_lia.
Qed.

Lemma sdsgrowzero_repr s c f n :
  sds_repr s c f -> Z.of_nat n + SDS_MAX_PREALLOC <= INT_MAX ->
  exists s' f', sdsgrowzero s (Z.of_nat n) = Ok (Some s') /\
    sds_repr s' (c ++ replicate (n - length c) 0) f'.
Proof.
  intros Hr Hn. unfold sdsgrowzero. rewrite (sdslen_repr _ _ _ Hr).
  destruct (Z.leb_spec (Z.of_nat n) (Z.of_nat (length c))).
  { exists s, f. split; [done|]. replace (n - length c)%nat with O by lia. by rewrite app_nil_r. }
  rewrite u64_small by int_lia.
  replace (Z.of_nat n - Z.of_nat (length c)) with (Z.of_nat (n - length c)) by lia.
  destruct (sdsMakeRoomFor_repr s c f (n - length c)) as (s1 & f1 & -> & Hr1 & Hle);
    [done|int_lia|]. simpl. set (k := (n - length c)%nat) in *.
  destruct Hr1 as [Hl Hfr (r & Hb & Hrest) Hi].
  replace (Z.to_nat (Z.of_nat k + 1)) with (k + 1)%nat by lia.
  rewrite Hb, <-(take_drop (k + 1) (0 :: r)).
  rewrite memcpy_app by list_lia. simpl.
  rewrite (s32_small (Z.of_nat n)) by int_lia.
  eexists _, (f1 - k)%nat. split; [done|].
  split; simpl; rewrite ?Hl, ?Hfr, ?(u64_small (_ + _)), ?s32_small by int_lia; try int_lia.
  exists (drop (k + 1) (0 :: r)).
  rewrite replicate_add, <-!app_assoc. split; [done|]. list_lia.
Qed.

(** *** sdstrim *)

(** The length of the longest prefix whose bytes all satisfy [p]. *)
Fixpoint lead (p : Z -> bool) (l : bytes) : nat :=
  match l with
  | [] => O
  | x :: l => if p x then S (lead p l) else O
  end.

Lemma lead_le p l : (lead p l <= length l)%nat.
Proof. induction l; simpl; [done|]. destruct (p a); lia. Qed.

Lemma lead_prefix p l : Forall (fun x => p x = true) (take (lead p l) l).
Proof. induction l as [|y l IH]; simpl; [constructor|]. destruct (p y) eqn:E; by constructor. Qed.

Lemma lead_stop p l y : l !! lead p l = Some y -> p y = false.
Proof.
  induction l as [|x l IH]; simpl; [done|]. destruct (p x) eqn:E; simpl; [done|].
  by intros [= <-].
Qed.

Lemma trim_sp_lead cset buf pre seg post fuel :
  buf = pre ++ seg ++ post -> (length seg < fuel)%nat ->
  trim_sp fuel buf cset (Z.of_nat (length pre)) (Z.of_nat (length pre + length seg) - 1)
  = Ok (Z.of_nat (length pre + lead (strchr_found cset) seg)).
Proof.
  revert pre seg. induction fuel as [|fuel IH]; intros pre seg Hb Hf; [lia|]. simpl.
  destruct seg as [|c seg]; simpl.
  - decide_tests. do 2 f_equal. lia.
  - decide_tests. subst buf. simpl. rewrite load_app by done. simpl.
    destruct (strchr_found cset c); [|do 2 f_equal; lia].
    specialize (IH (pre ++ [c]) seg). rewrite length_app in IH. simpl in IH.
    replace (Z.of_nat (length pre) + 1) with (Z.of_nat (length pre + 1)) by lia.
    replace (length pre + S (length seg))%nat with (length pre + 1 + length seg)%nat by lia.
    rewrite IH; [do 2 f_equal; lia| by rewrite <-app_assoc |simpl in Hf; lia].
Qed.

Lemma trim_ep_lead cset buf pre post fuel :
  buf = pre ++ post -> (length pre < fuel)%nat -> pre <> [] ->
  trim_ep fuel buf cset (Z.of_nat (length pre) - 1) 0
  = Ok (Z.max 0 (Z.of_nat (length pre) - 1 - Z.of_nat (lead (strchr_found cset) (reverse pre)))).
Proof.
  revert pre post. induction fuel as [|fuel IH]; intros pre post Hb Hf Hne; [lia|].
  destruct pre as [|c pre _] using rev_ind; [done|]. clear Hne.
  rewrite reverse_snoc. rewrite length_app in *. simpl in *.
  replace (Z.of_nat (length pre + 1) - 1) with (Z.of_nat (length pre)) by lia.
  destruct (Z.gtb_spec (Z.of_nat (length pre)) 0) as [Hp|Hp].
  - assert (load buf (Z.of_nat (length pre)) = Ok c) as ->.
    { rewrite Hb, <-app_assoc. by apply load_app. }
    simpl. destruct (strchr_found cset c); [|f_equal; lia].
    rewrite (IH pre (c :: post)); [f_equal; lia| by rewrite Hb, <-app_assoc |lia|by destruct pre].
  - f_equal. destruct (strchr_found cset c); lia.
Qed.

(** [t] is [c] without its leading and trailing bytes that satisfy [p]. *)
Definition trimmed (p : Z -> bool) (c t : bytes) : Prop :=
  exists l r, c = l ++ t ++ r /\
    Forall (fun x => p x = true) l /\ Forall (fun x => p x = true) r /\
    (forall x, head t = Some x -> p x = false) /\
    (forall x, list.last t = Some x -> p x = false).

Lemma lead_rev_split p c :
  (lead p c < length c)%nat -> (lead p c + lead p (reverse c) < length c)%nat.
Proof.
  intros Hlt. destruct (lookup_lt_is_Some_2 _ _ Hlt) as [x Hx].
  assert (Hpx := lead_stop _ _ _ Hx).
  destruct (decide (lead p c + lead p (reverse c) < length c)%nat) as [|Hge]; [done|exfalso].
  pose proof (lead_prefix p (reverse c)) as Hall. rewrite Forall_lookup in Hall.
  specialize (Hall (length c - 1 - lead p c)%nat x). rewrite Hpx in Hall.
  pose proof (lead_le p (reverse c)) as Hle. rewrite length_reverse in Hle.
  assert (false = true); [|done]. apply Hall.
  rewrite lookup_take_lt by lia. rewrite reverse_lookup by lia.
  by replace (length c - S (length c - 1 - lead p c))%nat with (lead p c) by lia.
Qed.

Lemma lead_trimmed p c :
  let a := lead p c in let b := lead p (reverse c) in
  let n := if decide (a < length c)%nat then (length c - a - b)%nat else O in
  (a + n <= length c)%nat /\ trimmed p c (take n (drop a c)).
Proof.
  intros a b n. pose proof (lead_le p c) as Hle. fold a in Hle.
  pose proof (lead_prefix p c) as Hpre. fold a in Hpre.
  unfold n. case_decide as Ha.
  - pose proof (lead_rev_split p c Ha) as Hab. fold a b in Hab. split; [lia|].
    exists (take a c), (drop (length c - b) c). split_and!; [|done| | |].
    + rewrite <-(take_drop a c) at 1. f_equal.
      rewrite <-(take_drop (length c - a - b) (drop a c)) at 1. f_equal.
      rewrite drop_drop. f_equal. lia.
    + pose proof (lead_prefix p (reverse c)) as Hr. fold b in Hr.
      rewrite take_reverse in Hr by lia. by rewrite Forall_reverse in Hr.
    + intros x Hx. apply (lead_stop p c). fold a.
      rewrite head_lookup, lookup_take_lt, lookup_drop, Nat.add_0_r in Hx by lia. done.
    + intros x Hx. apply (lead_stop p (reverse c)). fold b.
      rewrite last_lookup, lookup_take_lt, lookup_drop in Hx by list_lia.
      rewrite reverse_lookup by lia. rewrite <-Hx. f_equal. list_lia.
  - split; [lia|]. exists c, []. rewrite take_0. simpl. rewrite app_nil_r.
    split_and!; try done.
    by rewrite take_ge in Hpre by lia.
Qed.

Lemma sdstrim_repr s c f cset :
  sds_repr s c f ->
  exists s' t, sdstrim s cset = Ok s' /\ trimmed (strchr_found cset) c t /\
    sds_repr s' t (f + (length c - length t)).
Proof.
  intros Hr. unfold sdstrim. rewrite (sdslen_repr _ _ _ Hr).
  set (p := strchr_found cset). destruct (lead_trimmed p c) as [Hn Ht].
  set (a := lead p c) in *. set (b := lead p (reverse c)) in *.
  set (n := if decide _ then _ else _) in *.
  destruct (repr_buf _ _ _ Hr) as (rest & Hb & Hrest).
  assert (Hlen : (length c < length (sh_buf s))%nat) by (rewrite Hb; list_lia).
  rewrite (trim_sp_lead cset (sh_buf s) [] c (0 :: rest)) by (done || lia).
  cbn [mbind outcome_bind].
  change (Z.of_nat (length (A := Z) [] + lead (strchr_found cset) c)) with (Z.of_nat a).
  assert (Hep : exists ep, trim_ep (S (length (sh_buf s))) (sh_buf s) cset (Z.of_nat (length c) - 1) 0 = Ok ep /\
            (if Z.of_nat a >? ep then 0 else ep - Z.of_nat a + 1) = Z.of_nat n).
  { destruct (decide (c = [])) as [->|Hc]; [by exists (-1)|].
    eexists. split; [apply (trim_ep_lead cset _ c (0 :: rest)); (done || lia)|]. fold p b.
    assert (length c <> O) by (by destruct c).
    unfold n. case_decide as Hd; destruct (Z.gtb_spec (Z.of_nat a)
      (Z.max 0 (Z.of_nat (length c) - 1 - Z.of_nat b))); try lia.
    all: pose proof (lead_rev_split p c Hd) as Hx; fold a b in Hx; lia. }
  destruct Hep as (ep & -> & Hlen'). simpl. rewrite Hlen'.
  assert (Hmv : (if Z.of_nat a =? 0 then Ok (sh_buf s)
      else src ← read_block (sh_buf s) (Z.of_nat a) (Z.of_nat n); memcpy (sh_buf s) 0 src)
      = Ok (take n (drop a c) ++ drop n (sh_buf s))).
  { destruct (Z.eqb_spec (Z.of_nat a) 0) as [Ha|Ha]; [|by eapply move_front].
    replace a with O by lia. rewrite drop_0, Hb. f_equal.
    rewrite drop_app_le, app_assoc, take_drop by lia. done. }
  rewrite Hmv. simpl.
  destruct (terminate_repr _ _ _ a n Hr Hn) as (buf & -> & Hr'). simpl.
  eexists _, _. split; [done|]. split; [done|].
  by replace (length (take n (drop a c))) with n by list_lia.
Qed.

(** *** sdsrange *)

Definition range_index (n i : Z) : Z := if i <? 0 then Z.max 0 (n + i) else i.

(** The inclusive slice with negative indices counted from the end. *)
Definition range_slice (c : bytes) (i j : Z) : bytes :=
  let n := Z.of_nat (length c) in
  let start := range_index n i in let stop := Z.min (range_index n j) (n - 1) in
  take (Z.to_nat (stop - start + 1)) (drop (Z.to_nat start) c).

Lemma range_finish s c f p k :
  sds_repr s c f -> (p + k <= length c \/ k = 0)%nat ->
  exists s',
    (buf ← (if negb (Z.of_nat p =? 0) && negb (Z.of_nat k =? 0)
            then (src ← read_block (sh_buf s) (Z.of_nat p) (Z.of_nat k); memcpy (sh_buf s) 0 src)
            else Ok (sh_buf s));
     buf ← store buf (Z.of_nat k) 0;
     Ok (mkSds (s32 (Z.of_nat k)) (s32 (sh_free s + (sh_len s - Z.of_nat k))) buf)) = Ok s' /\
    sds_repr s' (take k (drop p c)) (f + (length c - k)).
Proof.
  intros Hr Hpk. destruct (repr_buf _ _ _ Hr) as (rest & Hb & _).
  destruct (decide (k = O)) as [->|Hk].
  - rewrite andb_false_r. cbn [mbind outcome_bind].
    destruct (terminate_repr _ _ _ O O Hr ltac:(lia)) as (buf & Hst & Hr').
    change (store (take 0 (drop 0 c) ++ drop 0 (sh_buf s))) with (store (sh_buf s)) in Hst.
    rewrite Hst. eexists. split; [done|]. by rewrite take_0 in *.
  - assert (Hmv : (if negb (Z.of_nat p =? 0) && negb (Z.of_nat k =? 0)
            then (src ← read_block (sh_buf s) (Z.of_nat p) (Z.of_nat k); memcpy (sh_buf s) 0 src)
            else Ok (sh_buf s)) = Ok (take k (drop p c) ++ drop k (sh_buf s))).
    { destruct (decide (p = O)) as [->|Hp].
      - rewrite drop_0, Hb, drop_app_le, app_assoc, take_drop by lia. done.
      - decide_tests. eapply move_front; [done|lia]. }
    rewrite Hmv. cbn [mbind outcome_bind].
    destruct (terminate_repr _ _ _ p k Hr ltac:(lia)) as (buf & -> & Hr').
    eexists. split; [done|]. done.
Qed.

Lemma sdsrange_repr s c f i j :
  sds_repr s c f -> INT_MIN <= i <= INT_MAX -> INT_MIN <= j <= INT_MAX ->
  exists s', sdsrange s i j = Ok s' /\
    sds_repr s' (range_slice c i j) (f + (length c - length (range_slice c i j))).
Proof.
  intros Hr Hi Hj. unfold sdsrange. rewrite (sdslen_repr _ _ _ Hr).
  pose proof (repr_int _ _ _ Hr) as Hint. unfold INT_MIN in *.
  destruct (Z.eqb_spec (Z.of_nat (length c)) 0) as [H0|H0].
  { exists s. split; [done|]. destruct c; [|simpl in H0; lia].
    unfold range_slice. rewrite drop_nil, take_nil. simpl. by rewrite Nat.add_0_r. }
  set (n := Z.of_nat (length c)) in *.
  assert (Hidx : forall x, - 2 ^ 31 <= x <= INT_MAX ->
    (if x <? 0 then Z.max 0 (s32 (n + x)) else x) = range_index n x).
  { intros x Hx. unfold range_index. destruct (Z.ltb_spec x 0); [|done].
    rewrite s32_small; [done|int_lia]. }
  rewrite !Hidx by done. unfold range_slice. fold n.
  set (st := range_index n i). set (en := range_index n j).
  assert (Hst : 0 <= st <= INT_MAX) by (unfold st, range_index; destruct (Z.ltb_spec i 0); int_lia).
  assert (Hen : 0 <= en <= INT_MAX) by (unfold en, range_index; destruct (Z.ltb_spec j 0); int_lia).
  clearbody st en. rewrite (s32_small n), (s32_small (n - 1)) by int_lia.
  set (k := Z.to_nat (Z.min en (n - 1) - st + 1)).
  set (start' := if decide (st <= en) then Z.to_nat st else O).
  match goal with |- context [let '(_, _) := ?e in _] =>
    assert (He : e = (Z.of_nat start', Z.of_nat k)) end.
  { unfold start', k. case_decide as Hse.
    - replace (st >? en) with false by lia.
      assert (Hnz : u64 (s32 (en - st + 1)) <> 0).
      { destruct (Z.eq_dec (en - st + 1) (2 ^ 31)) as [->|]; [by vm_compute|].
        rewrite s32_small, u64_small; int_lia. }
      replace (u64 (s32 (en - st + 1)) =? 0) with false by lia. cbn [negb].
      destruct (Z.geb_spec st n); [f_equal; lia|].
      destruct (Z.geb_spec en n); f_equal; try lia.
      + replace (st >? n - 1) with false by lia. rewrite s32_small, u64_small; int_lia.
      + rewrite s32_small, u64_small; int_lia.
    - replace (st >? en) with true by lia. simpl. f_equal. lia. }
  rewrite He. destruct (range_finish s c f start' k Hr) as (s' & -> & Hr').
  { unfold start', k. case_decide; lia. }
  exists s'. split; [done|].
  assert (Hsl : take k (drop start' c) = take k (drop (Z.to_nat st) c)).
  { unfold start', k. case_decide; [done|].
    replace (Z.to_nat (Z.min en (n - 1) - st + 1)) with O by lia. done. }
  rewrite <-Hsl. replace (length (take k (drop start' c))) with k; [done|].
  unfold start', k. rewrite length_take, length_drop. case_decide; lia.
Qed.

(** *** sdscatvprintf: the buffer doubles until the output fits *)

Lemma vsnprintf_fits (buf out : bytes) n :
  Z.of_nat (length out) + 1 <= n -> Z.of_nat (length buf) = n ->
  vsnprintf buf n out = Ok (out ++ 0 :: drop (S (length out)) buf).
Proof.
  intros Hn Hb. unfold vsnprintf. rewrite take_ge by lia.
  rewrite memcpy_front by list_lia.
  by rewrite <-app_assoc, length_app, Nat.add_1_r.
Qed.

Lemma catvprintf_loop_spec fuel b out :
  no_nul out -> Z.of_nat (length out) <= INT_MAX -> 16 <= b < 2 ^ 33 ->
  Z.of_nat (length out) + 2 <= b * 2 ^ (Z.of_nat fuel - 1) -> (0 < fuel)%nat ->
  exists rest, catvprintf_loop fuel b out = Ok (Some (out ++ 0 :: rest)).
Proof.
  intros Hnn Hi. revert b. induction fuel as [|fuel IH]; intros b Hb Hfu Hf; [lia|].
  simpl. unfold zmalloc_block. rewrite alloc_total.
  set (buf := fresh_bytes (Z.to_nat b)).
  assert (Hlb : length buf = Z.to_nat b) by apply fresh_bytes_length. clearbody buf.
  destruct (store buf (b - 2) 0) as [buf1|] eqn:Hst.
  2: { unfold store in Hst. rewrite Hlb in Hst. revert Hst. decide_tests. done. }
  assert (Hl1 : length buf1 = Z.to_nat b) by (by rewrite (store_length _ _ _ _ Hst)).
  assert (Hx : buf1 !! Z.to_nat (b - 2) = Some 0).
  { unfold store in Hst. case_match; [|done]. injection Hst as <-.
    apply list_lookup_insert_eq. lia. }
  cbn [mbind outcome_bind].
  destruct (decide (Z.of_nat (length out) + 2 <= b)) as [Hle|Hgt].
  - rewrite vsnprintf_fits by lia. cbn [mbind outcome_bind].
    assert (load (out ++ 0 :: drop (S (length out)) buf1) (b - 2) = Ok 0) as ->.
    { unfold load. decide_tests.
      destruct (decide (Z.to_nat (b - 2) = length out)) as [->|]; [by rewrite list_lookup_middle|].
      rewrite lookup_app_r, lookup_cons_ne_0, lookup_drop by lia.
      replace (S (length out) + pred (Z.to_nat (b - 2) - length out))%nat
        with (Z.to_nat (b - 2)) by lia. by rewrite Hx. }
    simpl. eauto.
  - unfold vsnprintf. rewrite memcpy_front by list_lia. cbn [mbind outcome_bind].
    destruct (lookup_lt_is_Some_2 out (Z.to_nat (b - 2))) as [c Hc]; [lia|].
    assert (load ((take (Z.to_nat (b - 1)) out ++ [0]) ++
       drop (length (take (Z.to_nat (b - 1)) out ++ [0])) buf1) (b - 2) = Ok c) as ->.
    { unfold load. decide_tests. rewrite <-app_assoc, lookup_app_l by list_lia.
      rewrite lookup_take_lt by lia. by rewrite Hc. }
    cbn [mbind outcome_bind]. assert (c <> 0) by (exact (Forall_lookup_1 _ _ _ _ Hnn Hc)).
    replace (c =? 0) with false by lia. cbn [negb].
    destruct fuel as [|fuel]; [simpl in Hfu; lia|].
    rewrite u64_small by (unfold INT_MAX in *; lia).
    apply IH; [unfold INT_MAX in *; lia| |lia].
    replace (Z.of_nat (S (S fuel)) - 1) with (Z.succ (Z.of_nat (S fuel) - 1)) in Hfu by lia.
    rewrite Z.pow_succ_r in Hfu by lia. lia.
Qed.

Lemma sdscatvprintf_repr s c f out :
  sds_repr s c f -> no_nul out -> fits c (Z.of_nat (length out)) ->
  exists s' f', sdscatvprintf 29 s out = Ok (Some s') /\ sds_repr s' (c ++ out) f'.
Proof.
  intros Hr Hn Hf. unfold sdscatvprintf.
  destruct (catvprintf_loop_spec 29 16 out) as [rest ->]; try done; [int_lia..|].
  simpl. by eapply sdscat_repr.
Qed.

(** *** In-place byte maps and comparison *)

Lemma map_first_spec (g : Z -> Z) (h : Z -> outcome Z) l r :
  Forall (fun x => h x = Ok (g x)) l ->
  map_first h (length l) (l ++ r) = Ok ((g <$> l) ++ r).
Proof. induction 1 as [|x l Hx _ IH]; simpl; [by destruct r|]. by rewrite Hx, IH. Qed.

Lemma map_first_repr (g : Z -> Z) (h : Z -> outcome Z) s c f :
  sds_repr s c f -> Forall (fun x => h x = Ok (g x)) c ->
  exists buf, map_first h (length c) (sh_buf s) = Ok buf /\
    sds_repr (mkSds (sh_len s) (sh_free s) buf) (g <$> c) f.
Proof.
  intros [Hl Hfr (rest & Hb & Hrest) Hi] Hg. rewrite Hb, (map_first_spec g) by done.
  eexists. split; [done|]. split; simpl; rewrite ?length_fmap; eauto.
Qed.

Lemma sdstolower_repr s c f :
  sds_repr s c f -> exists s', sdstolower s = Ok s' /\ sds_repr s' (tolower <$> c) f.
Proof.
  intros Hr. unfold sdstolower. rewrite (sdslen_repr _ _ _ Hr).
  pose proof (repr_int _ _ _ Hr). rewrite s32_small, Nat2Z.id by int_lia.
  destruct (map_first_repr tolower (fun x => Ok (tolower x)) _ _ _ Hr) as (buf & -> & Hr');
    [by apply Forall_true|]. simpl. eauto.
Qed.

Lemma sdstoupper_repr s c f :
  sds_repr s c f -> exists s', sdstoupper s = Ok s' /\ sds_repr s' (toupper <$> c) f.
Proof.
  intros Hr. unfold sdstoupper. rewrite (sdslen_repr _ _ _ Hr).
  pose proof (repr_int _ _ _ Hr). rewrite s32_small, Nat2Z.id by int_lia.
  destruct (map_first_repr toupper (fun x => Ok (toupper x)) _ _ _ Hr) as (buf & -> & Hr');
    [by apply Forall_true|]. simpl. eauto.
Qed.

(** The character [c] becomes: the image of its first occurrence in [from]. *)
Definition subst_char (from to : bytes) (x : Z) : Z :=
  match list_find (fun y => x = y) from with
  | Some (i, _) => default x (to !! i)
  | None => x
  end.

Lemma map_char_spec from to r1 r2 x :
  length from = length to ->
  map_char (length from) (from ++ r1) (to ++ r2) x = Ok (subst_char from to x).
Proof.
  unfold subst_char. revert to.
  induction from as [|y from IH]; intros [|z to] Hl; simplify_eq/=; [done|].
  destruct (Z.eqb_spec x y) as [->|Hne].
  - by rewrite decide_True.
  - rewrite decide_False by done. rewrite IH by done.
    destruct (list_find _ from) as [[i w]|]; done.
Qed.

Lemma sdsmapchars_repr s c f from to r1 r2 :
  sds_repr s c f -> length from = length to ->
  exists s', sdsmapchars s (from ++ r1) (to ++ r2) (Z.of_nat (length from)) = Ok s' /\
    sds_repr s' (subst_char from to <$> c) f.
Proof.
  intros Hr Hl. unfold sdsmapchars. rewrite (sdslen_repr _ _ _ Hr), !Nat2Z.id.
  destruct (map_first_repr (subst_char from to)
    (map_char (length from) (from ++ r1) (to ++ r2)) _ _ _ Hr) as (buf & -> & Hr').
  - apply Forall_true. intros x. by apply map_char_spec.
  - simpl. eauto.
Qed.

(** [sdscmp] on contents. *)
Definition cmp_bytes (a b : bytes) : Z :=
  let m := Nat.min (length a) (length b) in
  let r := memcmp (take m a) (take m b) in
  if r =? 0 then Z.of_nat (length a) - Z.of_nat (length b) else r.

Lemma read_prefix s c f n :
  sds_repr s c f -> (n <= length c)%nat -> read_block (sh_buf s) 0 (Z.of_nat n) = Ok (take n c).
Proof.
  intros [_ _ (rest & -> & _) _] Hn. rewrite <-(take_drop n c) at 1. rewrite <-app_assoc.
  apply read_block_0. list_lia.
Qed.

Lemma sdscmp_repr s1 s2 c1 c2 f1 f2 :
  sds_repr s1 c1 f1 -> sds_repr s2 c2 f2 -> sdscmp s1 s2 = Ok (cmp_bytes c1 c2).
Proof.
  intros H1 H2. unfold sdscmp, cmp_bytes.
  rewrite (sdslen_repr _ _ _ H1), (sdslen_repr _ _ _ H2).
  pose proof (repr_int _ _ _ H1). pose proof (repr_int _ _ _ H2).
  set (m := Nat.min (length c1) (length c2)).
  replace (if _ <? _ then _ else _) with (Z.of_nat m)
    by (unfold m; destruct (Z.ltb_spec (Z.of_nat (length c1)) (Z.of_nat (length c2))); lia).
  rewrite (read_prefix _ _ _ m H1), (read_prefix _ _ _ m H2) by (unfold m; lia).
  simpl. case_match; [|done]. by rewrite s32_small by int_lia.
Qed.

End SdsFacts.

(** ** Properties *)

(** The operations that modify a string, with their arguments. *)
Inductive sds_op :=
| OpCat (t : bytes)              (** [sdscatlen] *)
| OpPrintf (out : bytes)         (** [sdscatprintf] of arguments that format to [out] *)
| OpCpy (t : bytes)              (** [sdscpylen] *)
| OpGrow (n : nat)               (** [sdsgrowzero] *)
| OpRoom (n : nat)               (** [sdsMakeRoomFor] *)
| OpShrink                       (** [sdsRemoveFreeSpace] *)
| OpClear                        (** [sdsclear] *)
| OpTrim (cset : bytes)          (** [sdstrim] *)
| OpRange (i j : Z)              (** [sdsrange] *)
| OpLower | OpUpper              (** [sdstolower], [sdstoupper] *)
| OpMap (from to : bytes).       (** [sdsmapchars] *)

Definition always {A} (m : outcome A) : outcome (option A) := a ← m; Ok (Some a).

Definition run_op `{Allocator} (o : sds_op) (s : sds) : outcome (option sds) :=
  match o with
  | OpCat t => sdscatlen s t (Z.of_nat (length t))
  | OpPrintf out => sdscatprintf 29 s out
  | OpCpy t => sdscpylen s t (Z.of_nat (length t))
  | OpGrow n => sdsgrowzero s (Z.of_nat n)
  | OpRoom n => sdsMakeRoomFor s (Z.of_nat n)
  | OpShrink => always (sdsRemoveFreeSpace s)
  | OpClear => always (sdsclear s)
  | OpTrim cset => always (sdstrim s cset)
  | OpRange i j => always (sdsrange s i j)
  | OpLower => always (sdstolower s)
  | OpUpper => always (sdstoupper s)
  | OpMap from to => always (sdsmapchars s from to (Z.of_nat (length from)))
  end.

(** What an operation does to the bytes of the string. *)
Definition op_spec (o : sds_op) (c c' : bytes) : Prop :=
  match o with
  | OpCat t | OpPrintf t => c' = c ++ t
  | OpCpy t => c' = t
  | OpGrow n => c' = c ++ replicate (n - length c) 0
  | OpRoom _ | OpShrink => c' = c
  | OpClear => c' = []
  | OpTrim cset => trimmed (strchr_found cset) c c'
  | OpRange i j => c' = range_slice c i j
  | OpLower => c' = tolower <$> c
  | OpUpper => c' = toupper <$> c
  | OpMap from to => c' = subst_char from to <$> c
  end.

(** The arguments an operation accepts: sizes the header's [int]s can hold. *)
Definition op_ok (o : sds_op) (c : bytes) : Prop :=
  match o with
  | OpCat t => fits c (Z.of_nat (length t))
  | OpPrintf t => no_nul t /\ fits c (Z.of_nat (length t))
  | OpCpy t => fits t 0
  | OpGrow n => Z.of_nat n + SDS_MAX_PREALLOC <= INT_MAX
  | OpRoom n => fits c (Z.of_nat n)
  | OpRange i j => INT_MIN <= i <= INT_MAX /\ INT_MIN <= j <= INT_MAX
  | OpMap from to => length from = length to
  | _ => True
  end.

(** A program: the operations run in order, stopping at a null result. *)
Fixpoint run_ops `{Allocator} (os : list sds_op) (s : sds) : outcome (option sds) :=
  match os with
  | [] => Ok (Some s)
  | o :: os => s ⇐ run_op o s; run_ops os s
  end.

Inductive ops_spec : list sds_op -> bytes -> bytes -> Prop :=
| ops_nil c : ops_spec [] c c
| ops_cons o os c c1 c2 : op_spec o c c1 -> ops_spec os c1 c2 -> ops_spec (o :: os) c c2.

(** Every operation along every behaviour the specification allows is within
    bounds. *)
Fixpoint ops_ok (os : list sds_op) (c : bytes) : Prop :=
  match os with
  | [] => True
  | o :: os => op_ok o c /\ forall c', op_spec o c c' -> ops_ok os c'
  end.

Section SdsRefinement.
Context `{Allocator}.
Hypothesis alloc_total : forall n, alloc_ok n = true.

Lemma always_repr (m : outcome sds) c' f' :
  (exists s', m = Ok s' /\ sds_repr s' c' f') ->
  exists s' f', always m = Ok (Some s') /\ sds_repr s' c' f'.
Proof. intros (s' & -> & Hs). simpl. eauto. Qed.

Lemma run_op_spec o s c f :
  sds_repr s c f -> op_ok o c ->
  exists s' c' f', run_op o s = Ok (Some s') /\ op_spec o c c' /\ sds_repr s' c' f'.
Proof.
  intros Hs Ho.
  assert (Hex : forall c', (exists s' f', run_op o s = Ok (Some s') /\ sds_repr s' c' f') ->
    op_spec o c c' ->
    exists s' c' f', run_op o s = Ok (Some s') /\ op_spec o c c' /\ sds_repr s' c' f').
  { intros c' (s' & f' & E & Hs') Hc. exists s', c', f'. auto. }
  destruct o as [t|out|t|n|n| | |cset|i j| | |from to]; simpl in Ho.
  - pose proof (sdscatlen_repr alloc_total s c f t [] Hs Ho) as Hx. rewrite app_nil_r in Hx.
    by eapply Hex.
  - destruct Ho. eapply Hex; [|done]. by eapply (sdscatvprintf_repr alloc_total).
  - pose proof (sdscpylen_repr alloc_total s c f t [] Hs Ho) as Hx. rewrite app_nil_r in Hx.
    by eapply Hex.
  - eapply Hex; [|done]. by eapply (sdsgrowzero_repr alloc_total).
  - destruct (sdsMakeRoomFor_repr alloc_total s c f n Hs Ho) as (s' & f' & ? & ? & _).
    exists s', c, f'. done.
  - eapply Hex; [|done]. by eapply always_repr, (sdsRemoveFreeSpace_repr alloc_total).
  - eapply Hex; [|done]. by eapply always_repr, sdsclear_repr.
  - destruct (sdstrim_repr s c f cset Hs) as (s' & t & E & Ht & Hs').
    eapply Hex; [|done]. eapply always_repr. eauto.
  - eapply Hex; [|done]. destruct Ho. by eapply always_repr, sdsrange_repr.
  - eapply Hex; [|done]. by eapply always_repr, sdstolower_repr.
  - eapply Hex; [|done]. by eapply always_repr, sdstoupper_repr.
  - pose proof (sdsmapchars_repr s c f from to [] [] Hs Ho) as Hx. rewrite !app_nil_r in Hx.
    eapply Hex; [|done]. by eapply always_repr.
Qed.

End SdsRefinement.

(** C21: The string library refines operations on byte sequences: from a
    well-formed string, every sequence of modifying operations with sizes in
    range runs without trapping, keeps the header, the terminator and the
    capacity consistent, and computes the bytes the specification gives. *)
Theorem sds_refines_bytes (A : Allocator) os s c f :
  (forall n, alloc_ok n = true) -> sds_repr s c f -> ops_ok os c ->
  exists s' c' f', run_ops os s = Ok (Some s') /\ ops_spec os c c' /\ sds_repr s' c' f'.
Proof.
  intros Ha. revert s c f. induction os as [|o os IH]; intros s c f Hs Hok.
  - exists s, c, f. split_and!; [done|constructor|done].
  - destruct Hok as [Ho Hos]. destruct (run_op_spec Ha o s c f Hs Ho) as (s1 & c1 & f1 & E & Hc & Hs1).
    destruct (IH s1 c1 f1 Hs1 (Hos _ Hc)) as (s2 & c2 & f2 & E2 & Hc2 & Hs2).
    exists s2, c2, f2. split_and!; [|by econstructor|done].
    cbn [run_ops]. by rewrite E.
Qed.

Lemma sds_refines_bytes_witness :
  let A := total_alloc in let os := [OpCat [97; 98; 99]; OpRange 1 (-1); OpUpper] in
  exists s' c' f', run_ops os (mkSds 0 0 [0]) = Ok (Some s') /\ ops_spec os [] c' /\ sds_repr s' c' f'.
Proof.
  intros A os. apply (sds_refines_bytes A os (mkSds 0 0 [0]) [] 0); [done| |].
  - by constructor; [| |exists []|].
  - simpl. split_and!; [done|]. intros c' ->. split_and!; [done..|].
    intros c'' ->. by split.
Defined.

(** [sdsMakeRoomFor] provides the room: after a successful call the content
    is unchanged and at least [addlen] bytes are free; with sizes in range it
    succeeds whenever the allocator does. *)
Theorem sdsMakeRoomFor_room (A : Allocator) s c f n :
  (forall n, alloc_ok n = true) -> sds_repr s c f -> fits c (Z.of_nat n) ->
  exists s' f', sdsMakeRoomFor s (Z.of_nat n) = Ok (Some s') /\ sds_repr s' c f' /\
    Z.of_nat n <= sdsavail s'.
Proof.
  intros Ha Hs Hf. destruct (sdsMakeRoomFor_repr Ha s c f n Hs Hf) as (s' & f' & E & Hs' & Hn).
  exists s', f'. split_and!; [done..|]. rewrite (sdsavail_repr _ _ _ Hs'). lia.
Qed.

Lemma sdsMakeRoomFor_room_witness :
  let A := total_alloc in
  exists s' f', sdsMakeRoomFor (mkSds 1 0 [65; 0]) 100 = Ok (Some s') /\ sds_repr s' [65] f' /\
    100 <= sdsavail s'.
Proof.
  intros A. apply (sdsMakeRoomFor_room A (mkSds 1 0 [65; 0]) [65] 0 100); [done| |by vm_compute].
  by constructor; [| |exists []|].
Defined.

(** The header's [int] fields bound the strings: a request that takes
    [free] past [INT_MAX] is granted with a negative [free], which [sdsavail]
    then reports as an enormous amount of room. *)
Theorem sdsMakeRoomFor_overflow (A : Allocator) s c f n :
  (forall n, alloc_ok n = true) -> sds_repr s c f -> Z.of_nat f < n ->
  INT_MAX < n + SDS_MAX_PREALLOC < UINT_MAX ->
  exists s', sdsMakeRoomFor s n = Ok (Some s') /\
    sh_free s' = n + SDS_MAX_PREALLOC - 2 ^ 32 /\ sh_free s' < 0 /\ 2 ^ 63 <= sdsavail s'.
Proof.
  intros Ha Hs Hf Hn. unfold sdsMakeRoomFor, zrealloc_block. rewrite Ha.
  rewrite (sdsavail_repr _ _ _ Hs), (sdslen_repr _ _ _ Hs).
  pose proof (repr_int _ _ _ Hs) as Hi.
  unfold INT_MAX, UINT_MAX, SDS_MAX_PREALLOC in *.
  replace (_ >=? n) with false by lia.
  rewrite (u64_small (Z.of_nat (length c) + n)) by lia. decide_tests.
  rewrite (u64_small (_ + _ + 1024 * 1024)) by lia.
  eexists. split; [done|]. cbn [sh_free sdsavail].
  assert (Hw : s32 (Z.of_nat (length c) + n + 1024 * 1024 - Z.of_nat (length c))
    = n + 1024 * 1024 - 2 ^ 32).
  { unfold swrap. change (32 - 1) with 31.
    replace (_ + 2 ^ 31) with (n + 1024 * 1024 - 2 ^ 31 + 1 * 2 ^ 32) by lia.
    rewrite Z.mod_add, Z.mod_small by lia. lia. }
  unfold sdsavail. cbn [sh_free]. rewrite Hw. split_and!; [done|lia|]. rewrite u64_neg by lia. lia.
Qed.

Lemma sdsMakeRoomFor_overflow_witness :
  let A := total_alloc in
  exists s', sdsMakeRoomFor (mkSds 0 0 [0]) 2146435072 = Ok (Some s') /\
    sh_free s' = 2146435072 + SDS_MAX_PREALLOC - 2 ^ 32 /\ sh_free s' < 0 /\ 2 ^ 63 <= sdsavail s'.
Proof.
  intros A. apply (sdsMakeRoomFor_overflow A (mkSds 0 0 [0]) [] 0 2146435072); [done| |done|done].
  by constructor; [| |exists []|].
Defined.
