(* ===== verification/SdsText.v ===== *)
(** * Text functions on dynamic strings (src/util/sds.cpp)

    Splitting on a separator, printing numbers, quoting ([sdscatrepr]) and the
    command-line splitter ([sdssplitargs]).  A C string argument is the memory
    block that holds it; a pointer into it is the rest of the block, and reading
    past the block traps. *)

From S2P Require Import Prelude Utils Sds.

Section SdsText.
Context `{Allocator}.

(** ** sdssplitlen *)

(** The test at position [j]. *)
Definition sep_at (s sep : bytes) (seplen j : Z) : outcome bool :=
  c ← load s j;
  c0 ← load sep 0;
  if (seplen =? 1) && (c =? c0) then Ok true else
  a ← read_block s j seplen;
  b ← read_block sep 0 seplen;
  Ok (memcmp a b =? 0).

(** [sdsnewlen(s+start, n)] where [s + start] points into the block [s]. *)
Definition new_token (s : bytes) (start n : Z) : outcome (option sds) :=
  sdsnewlen (Some (drop (Z.to_nat start) s)) n.

(** The loop over [j]; [slots] is the capacity of the token array. *)
Fixpoint split_loop (fuel : nat) (s sep : bytes) (len seplen : Z)
    (slots j start : Z) (tokens : list sds) : outcome (option (list sds)) :=
  match fuel with
  | O => Trap OutOfFuel
  | S fuel =>
      let elements := Z.of_nat (length tokens) in
      if j <? len - (seplen - 1) then
        let grow := slots <? elements + 2 in
        let slots := if grow then slots * 2 else slots in
        if grow && negb (alloc_ok (8 * slots)) then Ok None else
        hit ← sep_at s sep seplen j;
        if hit : bool then
          tok ⇐ new_token s start (j - start);
          split_loop fuel s sep len seplen slots (j + seplen) (j + seplen) (tokens ++ [tok])
        else split_loop fuel s sep len seplen slots (j + 1) start tokens
      else
        tok ⇐ new_token s start (len - start);
        Ok (Some (tokens ++ [tok]))
  end.

(** The tokens returned ([*count] is their number), or null. *)
Definition sdssplitlen (s : bytes) (len : Z) (sep : bytes) (seplen : Z) :
    outcome (option (list sds)) :=
  if (seplen <? 1) || (len <? 0) then Ok None else
  if negb (alloc_ok (8 * 5)) then Ok None else
  if len =? 0 then Ok (Some []) else
  split_loop (S (Z.to_nat len)) s sep len seplen 5 0 0 [].

(** ** sdsfromlonglong *)

Definition sdsfromlonglong (value : Z) : outcome (option sds) :=
  text ← ll_text value; sdsnewlen (Some text) (Z.of_nat (length text)).

(** ** sdscatrepr *)

(** The digits of [%02x]. *)
Definition hex_char (n : Z) : Z := if n <? 10 then 48 + n else 87 + n.

(** [sdscatlen(s, ..)] on a pointer that may be null. *)
Definition catlen_ptr (s : option sds) (t : bytes) : outcome (option sds) :=
  match s with
  | None => Trap NullDeref
  | Some s => sdscatlen s t (Z.of_nat (length t))
  end.

(** [sdscatprintf(s, ..)] when the arguments format to [out]. *)
Definition catprintf_ptr (s : option sds) (out : bytes) : outcome (option sds) :=
  match s with
  | None => Trap NullDeref
  | Some s => sdscatprintf 29 s out
  end.

(** One character of the loop. *)
Definition catrepr_char (s : option sds) (c : Z) : outcome (option sds) :=
  if (c =? 92) || (c =? 34) then catprintf_ptr s [92; c]
  else if c =? 10 then catlen_ptr s (str "\n")
  else if c =? 13 then catlen_ptr s (str "\r")
  else if c =? 9 then catlen_ptr s (str "\t")
  else if c =? 7 then catlen_ptr s (str "\a")
  else if c =? 8 then catlen_ptr s (str "\b")
  else if isprint c then catprintf_ptr s [c]
  else catprintf_ptr s [92; 120; hex_char (c / 16); hex_char (c mod 16)].

Fixpoint catrepr_loop (s : option sds) (p : bytes) : outcome (option sds) :=
  match p with
  | [] => Ok s
  | c :: p => s ← catrepr_char s c; catrepr_loop s p
  end.

Definition sdscatrepr (s : sds) (p : bytes) (len : Z) : outcome (option sds) :=
  p ← read_block p 0 len;
  s ← catlen_ptr (Some s) [34];
  s ← catrepr_loop s p;
  catlen_ptr s [34].

(** ** sdssplitargs *)

Definition is_hex_digit (c : Z) : bool :=
  ((48 <=? c) && (c <=? 57)) || ((97 <=? c) && (c <=? 102)) || ((65 <=? c) && (c <=? 70)).

Definition hex_digit_to_int (c : Z) : Z :=
  if (48 <=? c) && (c <=? 57) then c - 48
  else if (97 <=? c) && (c <=? 102) then c - 87
  else if (65 <=? c) && (c <=? 70) then c - 55
  else 0.

(** [*p] for a pointer into the line. *)
Definition peek (p : bytes) : outcome Z :=
  match p with [] => Trap OutOfBounds | c :: _ => Ok c end.

(** The test for an escape of the form backslash-x-digit-digit. *)
Definition hex_escape (p : bytes) : outcome (option Z) :=
  c0 ← peek p;
  if negb (c0 =? 92) then Ok None else
  c1 ← peek (drop 1 p);
  if negb (c1 =? 120) then Ok None else
  c2 ← peek (drop 2 p);
  if negb (is_hex_digit c2) then Ok None else
  c3 ← peek (drop 3 p);
  if negb (is_hex_digit c3) then Ok None else
  Ok (Some (u8 (hex_digit_to_int c2 * 16 + hex_digit_to_int c3))).

Definition unescape (c : Z) : Z :=
  if c =? 110 then 10 else if c =? 114 then 13 else if c =? 116 then 9
  else if c =? 98 then 8 else if c =? 97 then 7 else c.

(** The result of one turn of the [while(!done)] loop, before [if ( *p) p++]. *)
Inductive turn :=
| Again (p : bytes) (inq insq : bool) (current : option sds)
| Done (p : bytes) (current : option sds)
| Err.

(** A closing quote must be followed by a blank or the end of the line. *)
Definition closing (p : bytes) (current : option sds) : outcome turn :=
  c1 ← peek (drop 1 p);
  if negb (c1 =? 0) && negb (isspace c1) then Ok Err else Ok (Done p current).

Definition token_turn (p : bytes) (inq insq : bool) (current : option sds) : outcome turn :=
  c ← peek p;
  if inq then
    h ← hex_escape p;
    match h with
    | Some b => current ← catlen_ptr current [b]; Ok (Again (drop 3 p) true insq current)
    | None =>
        c1 ← (if c =? 92 then peek (drop 1 p) else Ok 0);
        if (c =? 92) && negb (c1 =? 0) then
          current ← catlen_ptr current [unescape c1]; Ok (Again (drop 1 p) true insq current)
        else if c =? 34 then closing p current
        else if c =? 0 then Ok Err
        else current ← catlen_ptr current [c]; Ok (Again p true insq current)
    end
  else if insq then
    c1 ← (if c =? 92 then peek (drop 1 p) else Ok 0);
    if (c =? 92) && (c1 =? 39) then
      current ← catlen_ptr current [39]; Ok (Again (drop 1 p) inq true current)
    else if c =? 39 then closing p current
    else if c =? 0 then Ok Err
    else current ← catlen_ptr current [c]; Ok (Again p inq true current)
  else if (c =? 32) || (c =? 10) || (c =? 13) || (c =? 9) || (c =? 0) then Ok (Done p current)
  else if c =? 34 then Ok (Again p true insq current)
  else if c =? 39 then Ok (Again p inq true current)
  else current ← catlen_ptr current [c]; Ok (Again p inq insq current).

(** [if ( *p) p++]. *)
Definition advance (p : bytes) : outcome bytes :=
  c ← peek p; Ok (if c =? 0 then p else drop 1 p).

(** The token loop: the rest of the line and the token, or null for [goto err]. *)
Fixpoint token_loop (fuel : nat) (p : bytes) (inq insq : bool) (current : option sds) :
    outcome (option (bytes * option sds)) :=
  match fuel with
  | O => Trap OutOfFuel
  | S fuel =>
      t ← token_turn p inq insq current;
      match t with
      | Err => Ok None
      | Done p current => p ← advance p; Ok (Some (p, current))
      | Again p inq insq current => p ← advance p; token_loop fuel p inq insq current
      end
  end.

(** [while( *p && isspace( *p)) p++]. *)
Fixpoint skip_blanks (p : bytes) : outcome bytes :=
  match p with
  | [] => Trap OutOfBounds
  | c :: p' => if negb (c =? 0) && isspace c then skip_blanks p' else Ok p
  end.

(** The vector (null when no token was stored) and [*argc], which the error
    path leaves at -1. *)
Fixpoint args_loop (fuel : nat) (p : bytes) (vector : list (option sds)) :
    outcome (option (list (option sds)) * Z) :=
  match fuel with
  | O => Trap OutOfFuel
  | S fuel =>
      p ← skip_blanks p;
      c ← peek p;
      if c =? 0 then
        Ok (match vector with [] => None | _ => Some vector end, Z.of_nat (length vector))
      else
        current ← sdsempty;
        r ← token_loop (S (length p)) p false false current;
        match r with
        | None => Ok (None, -1)
        | Some (p, current) =>
            if alloc_ok (8 * (Z.of_nat (length vector) + 1))
            then args_loop fuel p (vector ++ [current]) else Trap NullDeref
        end
  end.

Definition sdssplitargs (line : bytes) : outcome (option (list (option sds)) * Z) :=
  args_loop (S (length line)) line [].

End SdsText.

(** ** Quoting as a function on bytes *)

Definition repr_char (c : Z) : bytes :=
  if (c =? 92) || (c =? 34) then [92; c]
  else if c =? 10 then [92; 110]
  else if c =? 13 then [92; 114]
  else if c =? 9 then [92; 116]
  else if c =? 7 then [92; 97]
  else if c =? 8 then [92; 98]
  else if isprint c then [c]
  else [92; 120; hex_char (c / 16); hex_char (c mod 16)].

Definition quoted (b : bytes) : bytes := 34 :: mjoin (repr_char <$> b) ++ [34].

Section SdsTextFacts.
Context `{Allocator}.
Hypothesis alloc_total : forall n, alloc_ok n = true.

Lemma hex_char_spec n :
  0 <= n < 16 ->
  hex_char n <> 0 /\ is_hex_digit (hex_char n) = true /\ hex_digit_to_int (hex_char n) = n.
Proof.
  intros Hn. unfold hex_char, is_hex_digit, hex_digit_to_int.
  destruct (Z.ltb_spec n 10); decide_tests; split_and!; (done || lia).
Qed.

Lemma byte_digits c : is_byte c -> 0 <= c / 16 < 16 /\ 0 <= c mod 16 < 16.
Proof.
  unfold is_byte. intros. split; [|apply Z.mod_pos_bound; lia].
  split; [apply Z.div_pos; lia|apply Z.div_lt_upper_bound; lia].
Qed.

Lemma repr_char_length c : (length (repr_char c) <= 4)%nat.
Proof. unfold repr_char. repeat case_match; simpl; lia. Qed.

Lemma quoted_length b : (length (quoted b) <= 4 * length b + 2)%nat.
Proof.
  unfold quoted. simpl. rewrite length_app. simpl.
  assert (length (mjoin (repr_char <$> b)) <= 4 * length b)%nat; [|lia].
  induction b as [|c b IH]; csimpl; [lia|]. rewrite length_app.
  pose proof (repr_char_length c). lia.
Qed.

Lemma fits_le c n m : fits c n -> m <= n -> fits c m.
Proof. unfold fits. lia. Qed.

Lemma fits_app c t n : fits (c ++ t) n <-> fits c (Z.of_nat (length t) + n).
Proof. unfold fits. rewrite length_app. lia. Qed.

Lemma catlen_ptr_repr s c f t :
  sds_repr s c f -> fits c (Z.of_nat (length t)) ->
  exists s' f', catlen_ptr (Some s) t = Ok (Some s') /\ sds_repr s' (c ++ t) f'.
Proof.
  intros Hr Hf. simpl. pose proof (sdscatlen_repr alloc_total s c f t [] Hr Hf) as Hx.
  by rewrite app_nil_r in Hx.
Qed.

Lemma catrepr_char_repr s c f x :
  sds_repr s c f -> is_byte x -> fits c 4 ->
  exists s' f', catrepr_char (Some s) x = Ok (Some s') /\ sds_repr s' (c ++ repr_char x) f'.
Proof.
  intros Hr Hx Hf. unfold catrepr_char, repr_char.
  assert (Hp : forall out, no_nul out -> (length out <= 4)%nat ->
    exists s' f', catprintf_ptr (Some s) out = Ok (Some s') /\ sds_repr s' (c ++ out) f').
  { intros out Hn Hl. apply (sdscatvprintf_repr alloc_total _ _ f); [done..|].
    eapply fits_le; [done|lia]. }
  assert (Hc : forall t, (length t <= 4)%nat ->
    exists s' f', catlen_ptr (Some s) t = Ok (Some s') /\ sds_repr s' (c ++ t) f').
  { intros t Hl. eapply catlen_ptr_repr; [done|]. eapply fits_le; [done|lia]. }
  destruct (byte_digits x Hx) as [Hd1 Hd2].
  destruct (hex_char_spec _ Hd1) as (? & _ & _). destruct (hex_char_spec _ Hd2) as (? & _ & _).
  repeat (case_match; [first [apply Hc; simpl; lia | apply Hp; [|simpl; lia];
    repeat (apply Forall_cons; split; [try done|]); [|by constructor]]|]).
  - lia.
  - unfold isprint in *. lia.
  - apply Hp; [|simpl; lia]. by repeat (apply Forall_cons; split).
Qed.

Lemma catrepr_loop_repr s c f b :
  sds_repr s c f -> is_bytes b -> fits c (4 * Z.of_nat (length b)) ->
  exists s' f', catrepr_loop (Some s) b = Ok (Some s') /\
    sds_repr s' (c ++ mjoin (repr_char <$> b)) f'.
Proof.
  intros Hr Hb. revert s c f Hr. induction Hb as [|x b Hx _ IH]; intros s c f Hr Hf.
  - exists s, f. csimpl. by rewrite app_nil_r.
  - simpl in Hf. destruct (catrepr_char_repr _ _ _ x Hr Hx) as (s1 & f1 & E & Hr1).
    { eapply fits_le; [done|lia]. }
    cbn [catrepr_loop]. rewrite E. cbn [mbind outcome_bind].
    destruct (IH s1 _ f1 Hr1) as (s2 & f2 & -> & Hr2).
    { apply fits_app. pose proof (repr_char_length x). eapply fits_le; [done|lia]. }
    exists s2, f2. csimpl. by rewrite app_assoc.
Qed.

(** [sdscatrepr] appends the quoted form. *)
Lemma sdscatrepr_repr s c f b rest :
  sds_repr s c f -> is_bytes b -> fits c (4 * Z.of_nat (length b) + 2) ->
  exists s' f', sdscatrepr s (b ++ rest) (Z.of_nat (length b)) = Ok (Some s') /\
    sds_repr s' (c ++ quoted b) f'.
Proof.
  intros Hr Hb Hf. unfold sdscatrepr. rewrite read_block_0 by done. cbn [mbind outcome_bind].
  destruct (catlen_ptr_repr _ _ _ [34] Hr) as (s1 & f1 & -> & Hr1).
  { eapply fits_le; [done|simpl; lia]. }
  cbn [mbind outcome_bind].
  destruct (catrepr_loop_repr _ _ _ b Hr1 Hb) as (s2 & f2 & -> & Hr2).
  { apply fits_app. eapply fits_le; [done|simpl; lia]. }
  cbn [mbind outcome_bind].
  destruct (catlen_ptr_repr _ _ _ [34] Hr2) as (s3 & f3 & -> & Hr3).
  { rewrite <-app_assoc. apply fits_app. eapply fits_le; [done|].
    pose proof (quoted_length b) as Hq. unfold quoted in Hq. simpl in *.
    rewrite !length_app in *. simpl in *. lia. }
  exists s3, f3. split; [done|]. unfold quoted. by rewrite <-!app_assoc in Hr3.
Qed.

(** ** Reading a quoted string back *)

(** One character of quoted text is one turn of the token loop. *)
Lemma token_loop_char fuel x r s c f :
  is_byte x -> r <> [] -> sds_repr s c f -> fits c 1 ->
  exists s' f', token_loop (S fuel) (repr_char x ++ r) true false (Some s)
    = token_loop fuel r true false (Some s') /\ sds_repr s' (c ++ [x]) f'.
Proof.
  intros Hx Hr Hs Hf.
  assert (Hcat : forall y, exists s' f', catlen_ptr (Some s) [y] = Ok (Some s') /\ sds_repr s' (c ++ [y]) f').
  { intros y. by apply (catlen_ptr_repr _ _ f). }
  destruct (Hcat x) as (s' & f' & Hs' & Hr'). exists s', f'. split; [|done].
  assert (Hesc : forall y, y <> 0 -> y <> 120 -> unescape y = x ->
    token_loop (S fuel) (92 :: y :: r) true false (Some s) = token_loop fuel r true false (Some s')).
  { intros y Hy Hx' Hu. cbn [token_loop]. unfold token_turn, hex_escape, advance.
    cbn [app peek mbind outcome_bind drop]. decide_tests. cbn [mbind outcome_bind].
    rewrite Hu, Hs'. do 2 (decide_tests; cbn [mbind outcome_bind peek drop]). done. }
  unfold repr_char.
  destruct (Z.eqb_spec x 92) as [->|H92]; [by apply Hesc|].
  destruct (Z.eqb_spec x 34) as [->|H34]; [by apply Hesc|]. cbn [orb].
  destruct (Z.eqb_spec x 10) as [->|H10]; [by apply Hesc|].
  destruct (Z.eqb_spec x 13) as [->|H13]; [by apply Hesc|].
  destruct (Z.eqb_spec x 9) as [->|H9]; [by apply Hesc|].
  destruct (Z.eqb_spec x 7) as [->|H7]; [by apply Hesc|].
  destruct (Z.eqb_spec x 8) as [->|H8]; [by apply Hesc|].
  cbn [token_loop].
  destruct (isprint x) eqn:Hp.
  - unfold isprint in Hp. unfold token_turn, hex_escape, advance.
    cbn [app peek mbind outcome_bind drop]. decide_tests. cbn [mbind outcome_bind].
    decide_tests. rewrite Hs'. cbn [mbind outcome_bind peek]. decide_tests.
    done.
  - destruct (byte_digits x Hx) as [Hd1 Hd2].
    destruct (hex_char_spec _ Hd1) as (Hn1 & Hh1 & Hv1).
    destruct (hex_char_spec _ Hd2) as (Hn2 & Hh2 & Hv2).
    unfold token_turn, hex_escape, advance.
    cbn [app peek mbind outcome_bind drop]. change (92 =? 92) with true. change (120 =? 120) with true.
    cbn [negb]. rewrite Hh1. cbn [negb]. rewrite Hh2. cbn [negb mbind outcome_bind].
    rewrite Hv1, Hv2. assert (u8 (x / 16 * 16 + x mod 16) = x) as ->.
    { unfold is_byte in Hx. pose proof (Z.div_mod x 16 ltac:(lia)).
      unfold uwrap. rewrite Z.mod_small; lia. }
    rewrite Hs'. cbn [mbind outcome_bind peek]. decide_tests. done.
Qed.

Lemma token_loop_body fuel b r s c f :
  is_bytes b -> r <> [] -> sds_repr s c f -> fits c (Z.of_nat (length b)) ->
  exists s' f', token_loop (length b + fuel) (mjoin (repr_char <$> b) ++ r) true false (Some s)
    = token_loop fuel r true false (Some s') /\ sds_repr s' (c ++ b) f'.
Proof.
  intros Hb Hr. revert s c f. induction Hb as [|x b Hx _ IH]; intros s c f Hs Hf.
  - exists s, f. by rewrite app_nil_r.
  - change (mjoin (repr_char <$> x :: b)) with (repr_char x ++ mjoin (repr_char <$> b)).
    rewrite <-app_assoc. change (length (x :: b) + fuel)%nat with (S (length b + fuel)).
    destruct (token_loop_char (length b + fuel) x (mjoin (repr_char <$> b) ++ r) s c f)
      as (s1 & f1 & -> & Hs1); [done| |done|eapply fits_le; [done|simpl; lia]|].
    { intros E. apply app_eq_nil in E as [_ ->]. done. }
    destruct (IH s1 _ f1 Hs1) as (s2 & f2 & -> & Hs2).
    { apply fits_app. eapply fits_le; [done|simpl; lia]. }
    exists s2, f2. by rewrite <-app_assoc in Hs2.
Qed.

Lemma repr_body_length b : (length b <= length (mjoin (repr_char <$> b)))%nat.
Proof.
  induction b as [|x b IH]; csimpl; [lia|]. rewrite length_app.
  assert (1 <= length (repr_char x))%nat; [|lia].
  unfold repr_char. repeat case_match; simpl; lia.
Qed.

(** A quoted word followed by a blank or the end of the line is one token. *)
Lemma token_loop_quoted fuel b t r s :
  negb (t =? 0) && negb (isspace t) = false -> is_bytes b -> fits [] (Z.of_nat (length b)) -> (length b + 2 <= fuel)%nat -> sds_repr s [] 0 ->
  exists s' f', token_loop fuel (quoted b ++ t :: r) false false (Some s)
    = Ok (Some (t :: r, Some s')) /\ sds_repr s' b f'.
Proof.
  intros Ht Hb Hf Hfuel Hs. unfold quoted.
  replace fuel with (S (length b + S (fuel - length b - 2))) by lia.
  cbn [token_loop]. unfold token_turn at 1, advance at 1.
  cbn -[token_loop Nat.add mjoin fmap app]. rewrite <-app_comm_cons.
  cbn -[token_loop Nat.add mjoin fmap app]. rewrite drop_0, <-app_assoc.
  destruct (token_loop_body (S (fuel - length b - 2)) b ([34] ++ t :: r) s [] 0)
    as (s' & f' & -> & Hs'); [done..|]. exists s', f'. split; [|done].
  cbn [token_loop]. unfold token_turn, hex_escape, closing, advance.
  cbn [app peek mbind outcome_bind drop].
  change (34 =? 92) with false. cbn [negb andb mbind outcome_bind peek].
  change (34 =? 34) with true. rewrite Ht. cbn [mbind outcome_bind peek]. done.
Qed.

(** The line made of the quoted words, each followed by a blank. *)
Definition command_line (args : list bytes) : bytes :=
  mjoin ((fun b => quoted b ++ [32]) <$> args).

Lemma skip_blanks_quoted b r : skip_blanks (quoted b ++ r) = Ok (quoted b ++ r).
Proof. done. Qed.

Lemma command_line_cons b args r :
  command_line (b :: args) ++ r = quoted b ++ 32 :: command_line args ++ r.
Proof. unfold command_line. csimpl. by rewrite <-!app_assoc. Qed.

Lemma args_loop_skip fuel r vector :
  args_loop (S fuel) (32 :: r) vector = args_loop (S fuel) r vector.
Proof. done. Qed.

Lemma args_loop_words fuel args vector words rest :
  Forall is_bytes args -> Forall (fun b => fits [] (Z.of_nat (length b))) args ->
  (length args < fuel)%nat ->
  Forall2 (fun v b => exists s f, v = Some s /\ sds_repr s b f) vector words ->
  exists vector',
    args_loop fuel (command_line args ++ 0 :: rest) vector
      = Ok (match vector' with [] => None | _ => Some vector' end, Z.of_nat (length vector')) /\
    Forall2 (fun v b => exists s f, v = Some s /\ sds_repr s b f) vector' (words ++ args).
Proof.
  intros Hb. revert fuel vector words.
  induction Hb as [|b args Hb _ IH]; intros fuel vector words Hf Hfuel Hv.
  - destruct fuel; [simpl in *; lia|]. exists vector. by rewrite app_nil_r.
  - apply Forall_cons in Hf as [Hf Hfs]. destruct fuel as [|fuel]; [simpl in *; lia|].
    cbn [args_loop]. rewrite command_line_cons, skip_blanks_quoted. cbn [mbind outcome_bind].
    change (peek (quoted b ++ ?r)) with (Ok 34). cbn [mbind outcome_bind].
    change (34 =? 0) with false. cbn [mbind outcome_bind].
    destruct (sdsempty_repr alloc_total) as (s0 & -> & Hs0). cbn [mbind outcome_bind].
    destruct (token_loop_quoted (S (length (quoted b ++ 32 :: command_line args ++ 0 :: rest)))
      b 32 (command_line args ++ 0 :: rest) s0) as (s1 & f1 & -> & Hs1); [done..| |done|].
    { pose proof (repr_body_length b). unfold quoted. simpl. rewrite !length_app. simpl. lia. }
    cbn [mbind outcome_bind]. rewrite alloc_total. destruct fuel as [|fuel]; [simpl in *; lia|].
    rewrite args_loop_skip.
    destruct (IH (S fuel) (vector ++ [Some s1]) (words ++ [b])) as (v' & -> & Hv');
      [done|simpl in *; lia| |].
    { apply Forall2_app; [done|]. constructor; [by eauto|constructor]. }
    exists v'. split; [done|]. by rewrite <-app_assoc in Hv'.
Qed.

Lemma command_line_length args : (length args <= length (command_line args))%nat.
Proof.
  induction args as [|b args IH]; [simpl; lia|].
  pose proof (command_line_cons b args []) as E. rewrite !app_nil_r in E. rewrite E.
  unfold quoted. simpl. rewrite !length_app. simpl. lia.
Qed.

(** A string quoted onto an empty string and parsed is the single argument. *)
Lemma sdssplitargs_one b rest :
  is_bytes b -> fits [] (Z.of_nat (length b)) ->
  exists t f, sdssplitargs (quoted b ++ 0 :: rest) = Ok (Some [Some t], 1) /\ sds_repr t b f.
Proof.
  intros Hb Hf. unfold sdssplitargs. cbn [args_loop]. rewrite skip_blanks_quoted.
  cbn [mbind outcome_bind]. change (peek (quoted b ++ ?r)) with (Ok 34).
  cbn [mbind outcome_bind]. change (34 =? 0) with false. cbn [mbind outcome_bind].
  destruct (sdsempty_repr alloc_total) as (s0 & -> & Hs0). cbn [mbind outcome_bind].
  destruct (token_loop_quoted (S (length (quoted b ++ 0 :: rest))) b 0 rest s0)
    as (t & f & -> & Ht); [done..| |done|].
  { pose proof (repr_body_length b). unfold quoted. simpl. rewrite !length_app. simpl. lia. }
  exists t, f. split; [|done]. cbn [mbind outcome_bind]. rewrite alloc_total.
  destruct (length (quoted b ++ 0 :: rest)) eqn:E; [unfold quoted in E; simpl in E; lia|]. done.
Qed.

(** ** Splitting on a separator *)

Fixpoint join (sep : bytes) (ts : list bytes) : bytes :=
  match ts with
  | [] => []
  | [t] => t
  | t :: ts => t ++ sep ++ join sep ts
  end.

Lemma join_snoc sep words t : join sep (words ++ [t]) = mjoin ((.++ sep) <$> words) ++ t.
Proof.
  induction words as [|w words IH]; [done|]. csimpl. rewrite <-!app_assoc, <-IH.
  by destruct words.
Qed.

(** [sep] occurs in [b] at position [p]. *)
Definition occurs_at (sep b : bytes) (p : nat) : Prop :=
  take (length sep) (drop p b) = sep.
#[export] Instance occurs_at_dec sep b p : Decision (occurs_at sep b p).
Proof. unfold occurs_at. apply _. Defined.

Definition sep_free (sep t : bytes) : Prop := forall p, ~ occurs_at sep t p.

Lemma occurs_in_slice sep b n start p :
  occurs_at sep (take n (drop start b)) p -> sep <> [] -> occurs_at sep b (start + p) /\ (p + length sep <= n)%nat.
Proof.
  unfold occurs_at. intros E Hne.
  assert (Hpos : (0 < length sep)%nat) by (destruct sep; [done|simpl; lia]).
  assert (Hn : (p + length sep <= n)%nat).
  { apply (f_equal length) in E. rewrite length_take, length_drop, length_take in E. lia. }
  split; [|done]. rewrite <-E at 2.
  by rewrite <-drop_drop, skipn_firstn_comm, take_take, Nat.min_l by lia.
Qed.

Lemma sep_at_spec b r sep r' j :
  sep <> [] -> (j + length sep <= length b)%nat ->
  sep_at (b ++ r) (sep ++ r') (Z.of_nat (length sep)) (Z.of_nat j)
    = Ok (bool_decide (occurs_at sep b j)).
Proof.
  intros Hne Hj. unfold sep_at. rewrite read_block_0 by done.
  assert (Hd : drop j b = take (length sep) (drop j b) ++ drop (length sep) (drop j b))
    by by rewrite take_drop.
  remember (take (length sep) (drop j b)) as w eqn:Ew.
  assert (Hw : length w = length sep) by (subst w; rewrite length_take, length_drop; lia).
  assert (Hb : b ++ r = take j b ++ w ++ (drop (length sep) (drop j b) ++ r)).
  { rewrite (app_assoc w), <-Hd, app_assoc, take_drop. done. }
  assert (Hjl : Z.of_nat j = Z.of_nat (length (take j b))) by (rewrite length_take; lia).
  rewrite Hb, (read_block_app _ w) by lia.
  rewrite (bool_decide_ext (occurs_at sep b j) (w = sep)) by (unfold occurs_at; by rewrite <-Ew).
  clear Ew Hd Hb.
  destruct w as [|x w]; [by destruct sep|].
  cbn [app]. rewrite load_app by done. destruct sep as [|y sep]; [done|].
  cbn [app mbind outcome_bind]. change (load (y :: sep ++ r') 0) with (Ok y).
  cbn [mbind outcome_bind]. destruct ((Z.of_nat (length (y :: sep)) =? 1) && (x =? y)) eqn:E1.
  - f_equal. symmetry. apply bool_decide_eq_true. destruct sep; [|cbn [length] in E1; lia].
    destruct w; [|done]. f_equal. lia.
  - f_equal. apply Bool.eq_true_iff_eq. rewrite bool_decide_eq_true. split.
    + intros E. apply memcmp_0; [done|lia].
    + intros ->. by rewrite memcmp_refl.
Qed.

Lemma new_token_repr b r start n :
  (start + n <= length b)%nat -> fits b 0 ->
  exists s, new_token (b ++ r) (Z.of_nat start) (Z.of_nat n) = Ok (Some s) /\
    sds_repr s (take n (drop start b)) 0.
Proof.
  intros Hn Hf. unfold new_token. rewrite Nat2Z.id, drop_app_le by lia.
  assert (Hl : length (take n (drop start b)) = n) by (rewrite length_take, length_drop; lia).
  replace (Z.of_nat n) with (Z.of_nat (length (take n (drop start b)))) by lia.
  apply (sdsnewlen_repr alloc_total _ _ (drop n (drop start b) ++ r)).
  - by rewrite app_assoc, take_drop.
  - unfold fits in *. lia.
Qed.

(** The loop from position [j] with [start <= j]: no separator begins in
    between, and what lies before [start] is the words already cut. *)
Lemma split_loop_spec b r sep r' fuel slots j start words tokens :
  sep <> [] -> fits b 0 -> (length b < j + fuel)%nat -> (start <= j <= length b)%nat ->
  mjoin ((.++ sep) <$> words) = take start b ->
  Forall (sep_free sep) words -> (forall p, (start <= p < j)%nat -> ~ occurs_at sep b p) ->
  Forall2 (fun s w => exists f, sds_repr s w f) tokens words ->
  exists tokens' words',
    split_loop fuel (b ++ r) (sep ++ r') (Z.of_nat (length b)) (Z.of_nat (length sep)) slots
      (Z.of_nat j) (Z.of_nat start) tokens = Ok (Some tokens') /\
    Forall2 (fun s w => exists f, sds_repr s w f) tokens' words' /\
    join sep words' = b /\ Forall (sep_free sep) words'.
Proof.
  intros Hne Hfit. revert slots j start words tokens. induction fuel as [|fuel IH];
    intros slots j start words tokens Hfuel Hj Hw Hfree Hno Ht; [lia|].
  assert (Hpos : (0 < length sep)%nat) by (destruct sep; [done|simpl; lia]).
  assert (Hcut : forall n, (start + n <= length b)%nat ->
    (forall p, (start <= p)%nat -> (p + length sep <= start + n)%nat -> ~ occurs_at sep b p) ->
    sep_free sep (take n (drop start b))).
  { intros n Hn Hp p Ho. apply occurs_in_slice in Ho as [Ho Hl]; [|done].
    apply (Hp (start + p)%nat); [lia..|done]. }
  cbn [split_loop]. destruct (Z.ltb_spec (Z.of_nat j) (Z.of_nat (length b) - (Z.of_nat (length sep) - 1))) as [Hlt|Hge].
  - rewrite alloc_total, andb_false_r, sep_at_spec by (done || lia). cbn [mbind outcome_bind].
    destruct (bool_decide_reflect (occurs_at sep b j)) as [Ho|Ho].
    + replace (Z.of_nat j - Z.of_nat start) with (Z.of_nat (j - start)) by lia.
      destruct (new_token_repr b r start (j - start)) as (tok & -> & Htok); [lia|done|].
      cbn [or_null]. replace (Z.of_nat j + Z.of_nat (length sep)) with (Z.of_nat (j + length sep)) by lia.
      apply (IH _ _ _ (words ++ [take (j - start) (drop start b)])); [lia|lia| | | |].
      * rewrite fmap_app. etrans; [apply join_app|]. rewrite Hw. csimpl. rewrite app_nil_r.
        unfold occurs_at in Ho. rewrite app_assoc, take_take_drop, <-Ho.
        replace (start + (j - start))%nat with j by lia.
        by rewrite take_take_drop, Ho.
      * apply Forall_app. split; [done|]. constructor; [|constructor].
        apply Hcut; [lia|]. intros p Hp1 Hp2. apply Hno. lia.
      * intros p Hp. lia.
      * apply Forall2_app; [done|]. constructor; [eauto|constructor].
    + replace (Z.of_nat j + 1) with (Z.of_nat (S j)) by lia.
      apply (IH _ _ _ words); [lia|lia|done|done| |done].
      intros p Hp. destruct (decide (p = j)) as [->|]; [done|]. apply Hno. lia.
  - replace (Z.of_nat (length b) - Z.of_nat start) with (Z.of_nat (length b - start)) by lia.
    destruct (new_token_repr b r start (length b - start)) as (tok & -> & Htok); [lia|done|].
    cbn [or_null]. eexists _, (words ++ [_]). split; [done|]. split; [|split].
    + apply Forall2_app; [done|]. constructor; [eauto|constructor].
    + rewrite join_snoc, Hw, (take_ge (drop start b)) by (rewrite length_drop; lia). apply take_drop.
    + apply Forall_app. split; [done|]. constructor; [|constructor].
      apply Hcut; [lia|]. intros p Hp1 Hp2. apply Hno. lia.
Qed.

Lemma token_loop_quote fuel r current :
  token_loop (S fuel) (34 :: r) false false current = token_loop fuel r true false current.
Proof. done. Qed.

(** Text of an unterminated quotation: the loop reaches the end of the line. *)
Lemma token_loop_open fuel b r s c f :
  Forall (fun x => x <> 0 /\ x <> 34 /\ x <> 92) b -> sds_repr s c f ->
  fits c (Z.of_nat (length b)) -> (length b < fuel)%nat ->
  token_loop fuel (b ++ 0 :: r) true false (Some s) = Ok None.
Proof.
  intros Hb. revert fuel s c f. induction Hb as [|x b (Hx & Hx1 & Hx2) _ IH];
    intros fuel s c f Hs Hf Hfuel; (destruct fuel as [|fuel]; [simpl in *; lia|]); [done|].
  cbn [app token_loop]. unfold token_turn, hex_escape, advance.
  cbn [peek mbind outcome_bind]. do 2 (decide_tests; cbn [mbind outcome_bind]).
  destruct (catlen_ptr_repr _ _ _ [x] Hs) as (s1 & f1 & -> & Hs1).
  { eapply fits_le; [done|simpl; lia]. }
  cbn [mbind outcome_bind peek]. decide_tests. cbn [mbind outcome_bind drop].
  eapply IH; [done| |simpl in *; lia]. apply fits_app. eapply fits_le; [done|simpl; lia].
Qed.

Lemma sdssplitargs_open b rest :
  Forall (fun x => x <> 0 /\ x <> 34 /\ x <> 92) b -> fits [] (Z.of_nat (length b)) ->
  sdssplitargs (34 :: b ++ 0 :: rest) = Ok (None, -1).
Proof.
  intros Hb Hf. unfold sdssplitargs. cbn [args_loop]. cbn -[token_loop sdsempty args_loop].
  destruct (sdsempty_repr alloc_total) as (s & -> & Hs). cbn [mbind outcome_bind].
  rewrite token_loop_quote.
  by rewrite (token_loop_open _ b rest s [] 0) by (done || (rewrite length_app; simpl; lia)).
Qed.

End SdsTextFacts.

(** ** Properties *)

(** C27: Quoting and parsing are inverse: a byte string appended to an empty
    string by [sdscatrepr] is read back by [sdssplitargs] as one argument with
    the same bytes, whatever bytes it holds (quotes, backslashes, NULs and
    non-printable characters included). *)
Theorem sdssplitargs_inverts_sdscatrepr (A : Allocator) b :
  (forall n, alloc_ok n = true) -> is_bytes b -> fits [] (4 * Z.of_nat (length b) + 2) ->
  exists s s' t f,
    sdsempty = Ok (Some s) /\ sdscatrepr s b (Z.of_nat (length b)) = Ok (Some s') /\
    sdssplitargs (sh_buf s') = Ok (Some [Some t], 1) /\ sds_repr t b f.
Proof.
  intros Ha Hb Hf. destruct (sdsempty_repr Ha) as (s & Es & Hs).
  destruct (sdscatrepr_repr Ha s [] 0 b [] Hs Hb Hf) as (s' & f' & Es' & [_ _ (rest & Hbuf & _) _]).
  rewrite app_nil_r in Es'. simpl in Hbuf.
  destruct (sdssplitargs_one Ha b rest Hb) as (t & f & Et & Ht).
  { eapply fits_le; [done|lia]. }
  exists s, s', t, f. by rewrite Hbuf.
Qed.

Lemma sdssplitargs_inverts_sdscatrepr_witness :
  let A := total_alloc in
  exists s s' t f,
    sdsempty = Ok (Some s) /\ sdscatrepr s [0; 34; 92; 255; 65] 5 = Ok (Some s') /\
    sdssplitargs (sh_buf s') = Ok (Some [Some t], 1) /\ sds_repr t [0; 34; 92; 255; 65] f.
Proof.
  intros A. apply (sdssplitargs_inverts_sdscatrepr A [0; 34; 92; 255; 65]);
    [done|decide_vm|by vm_compute].
Defined.

(** [sdssplitargs] on a line of quoted words, each followed by a blank,
    returns exactly the words, in order, and their number. *)
Theorem sdssplitargs_words (A : Allocator) args rest :
  (forall n, alloc_ok n = true) -> args <> [] -> Forall is_bytes args ->
  Forall (fun b => fits [] (Z.of_nat (length b))) args ->
  exists argv,
    sdssplitargs (command_line args ++ 0 :: rest) = Ok (Some argv, Z.of_nat (length args)) /\
    Forall2 (fun v b => exists s f, v = Some s /\ sds_repr s b f) argv args.
Proof.
  intros Ha Hne Hb Hf. unfold sdssplitargs.
  destruct (args_loop_words Ha (S (length (command_line args ++ 0 :: rest))) args [] [] rest)
    as (argv & -> & Hv); [done|done| |constructor|].
  { rewrite length_app. pose proof (command_line_length args). lia. }
  exists argv. simpl in Hv. rewrite (Forall2_length _ _ _ Hv).
  split; [|done]. by inversion Hv; subst.
Qed.

Lemma sdssplitargs_words_witness :
  let A := total_alloc in
  exists argv,
    sdssplitargs (command_line [str "set"; str "a b"; []] ++ [0]) = Ok (Some argv, 3) /\
    Forall2 (fun v b => exists s f, v = Some s /\ sds_repr s b f) argv [str "set"; str "a b"; []].
Proof.
  intros A. apply (sdssplitargs_words A [str "set"; str "a b"; []] []); [done|done|decide_vm|].
  by repeat (constructor; [by vm_compute|]).
Defined.

(** An unterminated double quotation is an error: [sdssplitargs] returns
    null and leaves -1, not 0, in [*argc]. *)
Theorem sdssplitargs_unbalanced (A : Allocator) b rest :
  (forall n, alloc_ok n = true) -> Forall (fun x => x <> 0 /\ x <> 34 /\ x <> 92) b ->
  fits [] (Z.of_nat (length b)) ->
  sdssplitargs (34 :: b ++ 0 :: rest) = Ok (None, -1).
Proof. intros Ha. by apply sdssplitargs_open. Qed.

Lemma sdssplitargs_unbalanced_witness :
  let A := total_alloc in sdssplitargs [34; 0] = Ok (None, -1).
Proof. intros A. apply (sdssplitargs_unbalanced A [] []); [done|constructor|by vm_compute]. Defined.

(** [sdssplitlen] cuts the string at the leftmost separators: joining the
    tokens with the separator gives the string back and no token contains the
    separator. *)
Theorem sdssplitlen_join (A : Allocator) b r sep r' :
  (forall n, alloc_ok n = true) -> b <> [] -> sep <> [] -> fits b 0 ->
  exists tokens words,
    sdssplitlen (b ++ r) (Z.of_nat (length b)) (sep ++ r') (Z.of_nat (length sep))
      = Ok (Some tokens) /\
    Forall2 (fun s w => exists f, sds_repr s w f) tokens words /\
    join sep words = b /\ Forall (sep_free sep) words.
Proof.
  intros Ha Hb Hs Hf. unfold sdssplitlen.
  assert (Hls : (0 < length sep)%nat) by (destruct sep; [done|simpl; lia]).
  assert (Hlb : (0 < length b)%nat) by (destruct b; [done|simpl; lia]).
  decide_tests. rewrite Ha. cbn [negb]. rewrite Nat2Z.id.
  apply (split_loop_spec Ha b r sep r' (S (length b)) 5 0 0 [] []);
    [done|done|lia|lia|done|constructor|lia|constructor].
Qed.

Lemma sdssplitlen_join_witness :
  let A := total_alloc in
  exists tokens words,
    sdssplitlen (str "foo_-_bar") 9 (str "_-_") 3 = Ok (Some tokens) /\
    Forall2 (fun s w => exists f, sds_repr s w f) tokens words /\
    join (str "_-_") words = str "foo_-_bar" /\ Forall (sep_free (str "_-_")) words.
Proof. intros A. apply (sdssplitlen_join A (str "foo_-_bar") [] (str "_-_") []); by vm_compute. Defined.

(** [sdsfromlonglong] builds the string whose text [string2ll] reads back
    as the number, for every 64-bit value. *)
Theorem sdsfromlonglong_string2ll (A : Allocator) v :
  (forall n, alloc_ok n = true) -> LLONG_MIN <= v <= LLONG_MAX ->
  exists s t, sdsfromlonglong v = Ok (Some s) /\ sds_repr s t 0 /\ string2ll t = Some v.
Proof.
  intros Ha Hv. destruct (ll_text_spec v Hv) as (t & Et & Hd & Hl).
  unfold sdsfromlonglong. rewrite Et. cbn [mbind outcome_bind].
  destruct (sdsnewlen_repr Ha t t []) as (s & Es & Hs).
  { by rewrite app_nil_r. }
  { unfold fits, SDS_MAX_PREALLOC, INT_MAX. lia. }
  exists s, t. split_and!; [done|done|]. by apply string2ll_complete.
Qed.

Lemma sdsfromlonglong_string2ll_witness :
  let A := total_alloc in
  exists s t, sdsfromlonglong LLONG_MIN = Ok (Some s) /\ sds_repr s t 0 /\ string2ll t = Some LLONG_MIN.
Proof. intros A. apply (sdsfromlonglong_string2ll A LLONG_MIN); [done|by vm_compute]. Defined.
