(* ===== verification/Event.v ===== *)
(** * The event loop (src/server/event.cpp, event.h)

    An [EventLoop] owns io and timer watchers.  The loop below it is libev; the
    watcher primitives the code calls (ev_io_set, ev_io_start, ev_io_stop,
    ev_timer_again, ev_timer_stop) are translated from deps/libev-4.11/ev.c, of
    which the model keeps, per watcher, whether it is active, its descriptor and
    its event mask.  Watchers live in a table indexed by address, so that the
    use of a deleted watcher traps.  EvEvent runs the same operations on the whole
    loop, and EvProps shows that it behaves as this one. *)

From S2P Require Import Prelude.

Definition READ : Z := 1.
Definition WRITE : Z := 2.
Definition EV_NONE : Z := 0.
Definition EV_READ : Z := 1.
Definition EV_WRITE : Z := 2.
Definition EV__IOFDSET : Z := 128.

(** [mask & bit ? a : 0]. *)
Definition pick (mask bit a : Z) : Z := if negb (Z.land mask bit =? 0) then a else 0.

Definition TRANS_TO_EV_MASK (mask : Z) : Z :=
  Z.lor (pick mask READ EV_READ) (pick mask WRITE EV_WRITE).
Definition TRANS_FROM_EV_MASK (ev_mask : Z) : Z :=
  Z.lor (pick ev_mask EV_READ READ) (pick ev_mask EV_WRITE WRITE).

(** [struct ev_io] and [struct ev_timer]. *)
Record ev_io := mkIo { io_active : bool; io_fd : Z; io_events : Z }.
Record ev_timer := mkTimer { t_active : bool; t_after : Z; t_repeat : Z }.

(** Callbacks are named: the code installs these. *)
Inductive callback := RecvNotify | ConnIo | TimeoutCb | CronCb | AcceptNewConn | RecvUnixNotify.

(** [IOWatcher] and [TimerWatcher]; [data] is the address passed on creation. *)
Record IOWatcher := mkIOW { iow_io : ev_io; iow_cb : callback; iow_data : nat }.
Record TimerWatcher := mkTW { tw_timer : ev_timer; tw_cb : callback; tw_data : nat; need_repeat : bool }.

(** The loop: its watchers, the next free address, the cached time in
    microseconds, whether [ev_break] was called, and the bytes a fresh watcher
    is allocated over (the constructor leaves [io.events] as it finds it). *)
Record EventLoop := mkLoop {
  el_ios : gmap nat IOWatcher;
  el_timers : gmap nat TimerWatcher;
  el_next : nat;
  el_now : Z;
  el_stopped : bool;
  el_fresh_events : Z }.

Definition set_ios (el : EventLoop) (m : gmap nat IOWatcher) : EventLoop :=
  mkLoop m (el_timers el) (el_next el) (el_now el) (el_stopped el) (el_fresh_events el).
Definition set_timers (el : EventLoop) (m : gmap nat TimerWatcher) : EventLoop :=
  mkLoop (el_ios el) m (el_next el) (el_now el) (el_stopped el) (el_fresh_events el).

(** A watcher that exists, or a trap. *)
Definition the {A} (o : option A) : outcome A :=
  match o with Some a => Ok a | None => Trap UseAfterFree end.

(** ** libev primitives *)

Definition ev_io_set (io : ev_io) (fd events : Z) : ev_io :=
  mkIo (io_active io) fd (Z.lor events EV__IOFDSET).

Definition ev_io_start (io : ev_io) : outcome ev_io :=
  if io_active io then Ok io else
  guard_trap (0 <=? io_fd io) AssertFailed (
  guard_trap (Z.land (io_events io) (Z.lnot (Z.lor EV__IOFDSET (Z.lor EV_READ EV_WRITE))) =? 0)
    AssertFailed (
  Ok (mkIo true (io_fd io) (Z.land (io_events io) (Z.lnot EV__IOFDSET))))).

Definition ev_io_stop (io : ev_io) : outcome ev_io :=
  if negb (io_active io) then Ok io else
  guard_trap (0 <=? io_fd io) AssertFailed (Ok (mkIo false (io_fd io) (io_events io))).

Definition ev_timer_stop (t : ev_timer) : ev_timer := mkTimer false (t_after t) (t_repeat t).

Definition ev_timer_again (t : ev_timer) : ev_timer :=
  if t_active t then
    if negb (t_repeat t =? 0) then t else ev_timer_stop t
  else if negb (t_repeat t =? 0) then mkTimer true (t_repeat t) (t_repeat t) else t.

(** ** EventLoop *)

Definition new_loop (now fresh_events : Z) : EventLoop :=
  mkLoop ∅ ∅ 0 now false fresh_events.

Definition stop (el : EventLoop) : EventLoop :=
  mkLoop (el_ios el) (el_timers el) (el_next el) (el_now el) true (el_fresh_events el).

Definition now (el : EventLoop) : Z := el_now el.

Definition create_io_event (el : EventLoop) (cb : callback) (data : nat) : nat * EventLoop :=
  let w := el_next el in
  let watcher := mkIOW (mkIo false 0 (el_fresh_events el)) cb data in
  (w, mkLoop (<[w := watcher]> (el_ios el)) (el_timers el) (S w) (el_now el) (el_stopped el)
        (el_fresh_events el)).

Definition put_io (el : EventLoop) (w : nat) (x : IOWatcher) (io : ev_io) : EventLoop :=
  set_ios el (<[w := mkIOW io (iow_cb x) (iow_data x)]> (el_ios el)).

Definition start_io_event (el : EventLoop) (w : nat) (fd mask : Z) : outcome EventLoop :=
  x ← the (el_ios el !! w);
  let io := iow_io x in
  if io_active io then
    let active_events := TRANS_FROM_EV_MASK (io_events io) in
    let events := Z.lor active_events mask in
    if active_events =? events then Ok el else
    let events := TRANS_TO_EV_MASK events in
    io ← ev_io_stop io;
    io ← ev_io_start (ev_io_set io fd events);
    Ok (put_io el w x io)
  else
    io ← ev_io_start (ev_io_set io fd (TRANS_TO_EV_MASK mask));
    Ok (put_io el w x io).

Definition stop_io_event (el : EventLoop) (w : nat) (fd mask : Z) : outcome EventLoop :=
  x ← the (el_ios el !! w);
  let io := iow_io x in
  let active_events := TRANS_FROM_EV_MASK (io_events io) in
  let events := Z.land active_events (Z.lnot mask) in
  if active_events =? events then Ok el else
  let events := TRANS_TO_EV_MASK events in
  io ← ev_io_stop io;
  if negb (events =? EV_NONE) then
    io ← ev_io_start (ev_io_set io fd events);
    Ok (put_io el w x io)
  else Ok (put_io el w x io).

Definition delete_io_event (el : EventLoop) (w : nat) : outcome EventLoop :=
  x ← the (el_ios el !! w);
  _ ← ev_io_stop (iow_io x);
  Ok (set_ios el (delete w (el_ios el))).

(** The io callback receives the descriptor and the translated events. *)
Definition generic_io_cb (el : EventLoop) (w : nat) (revents : Z) :
    outcome (callback * Z * Z * nat) :=
  x ← the (el_ios el !! w);
  Ok (iow_cb x, io_fd (iow_io x), TRANS_FROM_EV_MASK revents, iow_data x).

Definition create_timer (el : EventLoop) (cb : callback) (data : nat) (repeat : bool) :
    nat * EventLoop :=
  let w := el_next el in
  let watcher := mkTW (mkTimer false 0 0) cb data repeat in
  (w, mkLoop (el_ios el) (<[w := watcher]> (el_timers el)) (S w) (el_now el) (el_stopped el)
        (el_fresh_events el)).

Definition put_timer (el : EventLoop) (w : nat) (x : TimerWatcher) (t : ev_timer) : EventLoop :=
  set_timers el (<[w := mkTW t (tw_cb x) (tw_data x) (need_repeat x)]> (el_timers el)).

(** Times are kept in microseconds. *)
Definition start_timer (el : EventLoop) (w : nat) (usec : Z) : outcome EventLoop :=
  x ← the (el_timers el !! w);
  let t := tw_timer x in
  if negb (need_repeat x)
  then Ok (put_timer el w x (mkTimer true usec 0))
  else Ok (put_timer el w x (ev_timer_again (mkTimer (t_active t) (t_after t) usec))).

Definition stop_timer (el : EventLoop) (w : nat) : outcome EventLoop :=
  x ← the (el_timers el !! w);
  Ok (put_timer el w x (ev_timer_stop (tw_timer x))).

Definition delete_timer (el : EventLoop) (w : nat) : outcome EventLoop :=
  el ← stop_timer el w;
  Ok (set_timers el (delete w (el_timers el))).

(** ** Facts *)

(** What the loop watches for [w]: the descriptor and the READ/WRITE bits, when
    the watcher is active. *)
Definition interest (el : EventLoop) (w : nat) : option (Z * Z) :=
  match el_ios el !! w with
  | Some x => if io_active (iow_io x)
              then Some (io_fd (iow_io x), TRANS_FROM_EV_MASK (io_events (iow_io x))) else None
  | None => None
  end.

(** The masks the code uses: READ, WRITE or both. *)
Definition is_mask (m : Z) : Prop := 0 <= m < 4.

(** Well-formedness: addresses are below the next one; an active watcher has a
    descriptor and a mask of READ and WRITE. *)
Record loop_ok (el : EventLoop) : Prop := mkLoopOk {
  ok_ios : forall w x, el_ios el !! w = Some x -> (w < el_next el)%nat;
  ok_timers : forall w x, el_timers el !! w = Some x -> (w < el_next el)%nat;
  ok_io : forall w x, el_ios el !! w = Some x -> io_active (iow_io x) = true ->
    0 <= io_fd (iow_io x) /\ is_mask (io_events (iow_io x)) }.

Lemma mask_cases m : is_mask m -> m = 0 \/ m = 1 \/ m = 2 \/ m = 3.
Proof. unfold is_mask. lia. Qed.

Lemma trans_to_mask m : is_mask m -> TRANS_TO_EV_MASK m = m.
Proof. intros [->|[->|[->| ->]]]%mask_cases; done. Qed.

Lemma trans_from_mask m : is_mask m -> TRANS_FROM_EV_MASK m = m.
Proof. intros [->|[->|[->| ->]]]%mask_cases; done. Qed.

Lemma pick_cases mask bit a : pick mask bit a = 0 \/ pick mask bit a = a.
Proof. unfold pick. case_match; auto. Qed.

Lemma trans_to_is_mask m : is_mask (TRANS_TO_EV_MASK m).
Proof.
  unfold TRANS_TO_EV_MASK, is_mask, EV_READ, EV_WRITE.
  destruct (pick_cases m READ 1) as [-> | ->], (pick_cases m WRITE 2) as [-> | ->]; by vm_compute.
Qed.

Lemma trans_from_is_mask m : is_mask (TRANS_FROM_EV_MASK m).
Proof. apply (trans_to_is_mask m). Qed.

Lemma lor_mask a b : is_mask a -> is_mask b -> is_mask (Z.lor a b).
Proof.
  intros [->|[->|[->| ->]]]%mask_cases [->|[->|[->| ->]]]%mask_cases; by vm_compute.
Qed.

Lemma land_lnot_mask a b : is_mask a -> is_mask b -> is_mask (Z.land a (Z.lnot b)).
Proof.
  intros [->|[->|[->| ->]]]%mask_cases [->|[->|[->| ->]]]%mask_cases; by vm_compute.
Qed.

Lemma start_inactive fd0 ev0 fd m :
  0 <= fd -> is_mask m -> ev_io_start (ev_io_set (mkIo false fd0 ev0) fd m) = Ok (mkIo true fd m).
Proof.
  intros Hfd Hm. unfold ev_io_start, ev_io_set, guard_trap. cbn [io_active io_fd io_events].
  replace (0 <=? fd) with true by lia.
  destruct (mask_cases m Hm) as [->|[->|[->| ->]]]; done.
Qed.

(** ** Interface

    What the clients of the loop rely on: effect of each io operation on the
    watched set, and that other watchers are untouched. *)

Definition same_but (w : nat) (el el' : EventLoop) : Prop :=
  (forall w', w' <> w -> el_ios el' !! w' = el_ios el !! w') /\
  el_timers el' = el_timers el /\ el_next el' = el_next el /\
  el_now el' = el_now el /\ el_stopped el' = el_stopped el.

Lemma put_io_same_but el w x io : same_but w el (put_io el w x io).
Proof.
  split_and!; try done. intros w' Hw. unfold put_io, set_ios. cbn [el_ios].
  by rewrite lookup_insert_ne.
Qed.

Lemma put_io_ok el w x fd m :
  loop_ok el -> el_ios el !! w = Some x -> 0 <= fd -> is_mask m ->
  forall b, loop_ok (put_io el w x (mkIo b fd m)).
Proof.
  intros [H1 H2 H3] Hx Hfd Hm b. constructor; cbn; [|done|].
  - intros w' x' [[-> _]|[_ Hw']]%lookup_insert_Some; eauto.
  - intros w' x' [[-> <-]|[_ Hw']]%lookup_insert_Some; [done|eauto].
Qed.

Lemma start_io_event_ok el w x fd mask :
  loop_ok el -> el_ios el !! w = Some x -> 0 <= fd -> is_mask mask ->
  (io_active (iow_io x) = true -> io_fd (iow_io x) = fd) ->
  exists el', start_io_event el w fd mask = Ok el' /\ loop_ok el' /\ same_but w el el' /\
    interest el' w = Some (fd, Z.lor (default 0 (snd <$> interest el w)) mask) /\
    exists io, el_ios el' !! w = Some (mkIOW io (iow_cb x) (iow_data x)) /\ io_active io = true /\
      io_fd io = fd.
Proof.
  intros Hok Hx Hfd Hm Hact. destruct x as [[act fd0 ev0] cb data]. simpl in Hact.
  unfold start_io_event, interest. rewrite Hx. cbn [the mbind outcome_bind iow_io io_active io_events].
  destruct act.
  - destruct (ok_io _ Hok _ _ Hx) as [_ He]; [done|]. simpl in He. specialize (Hact eq_refl) as ->.
    rewrite (trans_from_mask ev0) by done. cbn [fmap option_fmap option_map snd default].
    destruct (Z.eqb_spec ev0 (Z.lor ev0 mask)) as [E|E].
    + exists el. split_and!; [done..| |].
      * rewrite Hx. simpl. by rewrite <-E, trans_from_mask.
      * eexists. eauto.
    + cbn [ev_io_stop negb io_active guard_trap io_fd]. replace (0 <=? fd) with true by lia.
      cbn [guard_trap mbind outcome_bind]. pose proof (lor_mask ev0 mask He Hm).
      rewrite trans_to_mask by done. rewrite start_inactive by done. cbn [mbind outcome_bind].
      eexists. split_and!; [done|by eapply put_io_ok|apply put_io_same_but| |];
        cbn [put_io set_ios el_ios]; rewrite lookup_insert_eq; cbn; [by rewrite trans_from_mask|eauto].
  - rewrite trans_to_mask, start_inactive by done. cbn [mbind outcome_bind].
    eexists. split_and!; [done|by eapply put_io_ok|apply put_io_same_but| |];
      cbn [put_io set_ios el_ios]; rewrite lookup_insert_eq; cbn; [by rewrite trans_from_mask|eauto].
Qed.

(** Removing events: what is left of the mask, or nothing. *)
Definition without (i : option (Z * Z)) (mask : Z) : option (Z * Z) :=
  match i with
  | Some (fd, m) => let m' := Z.land m (Z.lnot mask) in
                    if m =? m' then i else if m' =? 0 then None else Some (fd, m')
  | None => None
  end.

Lemma stop_io_event_ok el w x mask :
  loop_ok el -> el_ios el !! w = Some x -> io_active (iow_io x) = true -> is_mask mask ->
  exists el', stop_io_event el w (io_fd (iow_io x)) mask = Ok el' /\ loop_ok el' /\ same_but w el el' /\
    interest el' w = without (interest el w) mask /\
    exists io, el_ios el' !! w = Some (mkIOW io (iow_cb x) (iow_data x)) /\ io_fd io = io_fd (iow_io x).
Proof.
  intros Hok Hx Hact Hm. destruct (ok_io _ Hok _ _ Hx Hact) as [Hfd He].
  destruct x as [[act fd ev0] cb data]. simpl in *. subst act.
  unfold stop_io_event, interest. rewrite Hx. cbn [the mbind outcome_bind iow_io io_active io_events io_fd].
  rewrite (trans_from_mask ev0) by done. pose proof (land_lnot_mask ev0 mask He Hm) as Hl.
  unfold without. destruct (Z.eqb_spec ev0 (Z.land ev0 (Z.lnot mask))) as [E|E].
  - exists el. split_and!; [done..| |].
    + rewrite Hx. simpl. by rewrite trans_from_mask.
    + eexists. eauto.
  - cbn [ev_io_stop negb io_active guard_trap io_fd]. replace (0 <=? fd) with true by lia.
    cbn [guard_trap mbind outcome_bind]. rewrite trans_to_mask by done. unfold EV_NONE.
    destruct (Z.eqb_spec (Z.land ev0 (Z.lnot mask)) 0) as [E0|E0]; cbn [negb].
    + eexists. split_and!; [done|by eapply put_io_ok|apply put_io_same_but| |];
        cbn [put_io set_ios el_ios]; rewrite lookup_insert_eq; cbn; eauto.
    + rewrite start_inactive by done. cbn [mbind outcome_bind].
      eexists. split_and!; [done|by eapply put_io_ok|apply put_io_same_but| |];
        cbn [put_io set_ios el_ios]; rewrite lookup_insert_eq; cbn; [by rewrite trans_from_mask|eauto].
Qed.

Lemma delete_io_event_ok el w x :
  loop_ok el -> el_ios el !! w = Some x ->
  exists el', delete_io_event el w = Ok el' /\ loop_ok el' /\ same_but w el el' /\
    el_ios el' !! w = None.
Proof.
  intros Hok Hx. unfold delete_io_event. rewrite Hx. cbn [the mbind outcome_bind].
  assert (exists io, ev_io_stop (iow_io x) = Ok io) as (io & ->).
  { unfold ev_io_stop. destruct (io_active (iow_io x)) eqn:Ha; cbn [negb]; [|eauto].
    destruct (ok_io _ Hok _ _ Hx Ha). replace (0 <=? _) with true by lia. simpl. eauto. }
  cbn [mbind outcome_bind]. eexists. split_and!; [done| | |].
  - destruct Hok as [H1 H2 H3]. constructor; cbn; [|done|];
      intros w' x' [_ Hw']%lookup_delete_Some; eauto.
  - split_and!; try done. intros w' Hw. cbn. by rewrite lookup_delete_ne.
  - cbn. apply lookup_delete_eq.
Qed.

Lemma create_io_event_ok el cb data :
  loop_ok el ->
  let '(w, el') := create_io_event el cb data in
  loop_ok el' /\ w = el_next el /\ el_next el' = S w /\
  el_ios el' = <[w := mkIOW (mkIo false 0 (el_fresh_events el)) cb data]> (el_ios el) /\
  el_timers el' = el_timers el /\ el_now el' = el_now el /\ el_stopped el' = el_stopped el.
Proof.
  intros [H1 H2 H3]. unfold create_io_event. split_and!; try done. constructor; cbn.
  - intros w x [[<- _]|[_ Hw]]%lookup_insert_Some; [lia|]. apply H1 in Hw. lia.
  - intros w x Hw%H2. lia.
  - intros w x [[<- <-]|[_ Hw]]%lookup_insert_Some; [done|eauto].
Qed.

(** Timer operations leave the io watchers alone. *)
Definition same_ios (el el' : EventLoop) : Prop :=
  el_ios el' = el_ios el /\ el_next el' = el_next el /\
  el_now el' = el_now el /\ el_stopped el' = el_stopped el.

Lemma create_timer_ok el cb data repeat :
  loop_ok el ->
  let '(w, el') := create_timer el cb data repeat in
  loop_ok el' /\ w = el_next el /\ el_next el' = S w /\ el_ios el' = el_ios el /\
  el_timers el' = <[w := mkTW (mkTimer false 0 0) cb data repeat]> (el_timers el) /\
  el_now el' = el_now el /\ el_stopped el' = el_stopped el.
Proof.
  intros [H1 H2 H3]. unfold create_timer. split_and!; try done. constructor; cbn.
  - intros w x Hw%H1. lia.
  - intros w x [[<- _]|[_ Hw]]%lookup_insert_Some; [lia|]. apply H2 in Hw. lia.
  - done.
Qed.

Lemma put_timer_ok el w x t :
  loop_ok el -> el_timers el !! w = Some x -> loop_ok (put_timer el w x t).
Proof.
  intros [H1 H2 H3] Hx. constructor; cbn; [done| |done].
  intros w' x' [[-> _]|[_ Hw']]%lookup_insert_Some; eauto.
Qed.

Lemma start_timer_ok el w x usec :
  loop_ok el -> el_timers el !! w = Some x ->
  exists el' t, start_timer el w usec = Ok el' /\ loop_ok el' /\ same_ios el el' /\
    el_timers el' = <[w := mkTW t (tw_cb x) (tw_data x) (need_repeat x)]> (el_timers el) /\
    (usec <> 0 -> t_active t = true).
Proof.
  intros Hok Hx. unfold start_timer. rewrite Hx. cbn [the mbind outcome_bind].
  destruct (need_repeat x) eqn:Hr; cbn [negb].
  - eexists _, _. split_and!; [done|by apply put_timer_ok|done|by cbn; rewrite Hr|].
    intros Hu. unfold ev_timer_again. cbn. replace (usec =? 0) with false by lia.
    by destruct (t_active (tw_timer x)).
  - eexists _, _. split_and!; [done|by apply put_timer_ok|done|by cbn; rewrite Hr|done].
Qed.

Lemma delete_timer_ok el w x :
  loop_ok el -> el_timers el !! w = Some x ->
  exists el', delete_timer el w = Ok el' /\ loop_ok el' /\ same_ios el el' /\
    el_timers el' = delete w (el_timers el).
Proof.
  intros Hok Hx. unfold delete_timer, stop_timer. rewrite Hx. cbn [the mbind outcome_bind].
  eexists. split_and!; [done| |done|].
  - destruct Hok as [H1 H2 H3]. constructor; cbn; [done| |done].
    intros w' x' [_ [[-> _]|[_ Hw']]%lookup_insert_Some]%lookup_delete_Some; eauto.
  - cbn. by rewrite delete_insert_eq.
Qed.

(** ** Properties *)

(** Starting events on a watcher makes the loop watch the descriptor for
    the events it already watched together with the new ones; the other
    watchers and the timers are untouched. *)
Theorem start_io_event_adds el w x fd mask :
  loop_ok el -> el_ios el !! w = Some x -> 0 <= fd -> is_mask mask ->
  (io_active (iow_io x) = true -> io_fd (iow_io x) = fd) ->
  exists el', start_io_event el w fd mask = Ok el' /\ loop_ok el' /\
    interest el' w = Some (fd, Z.lor (default 0 (snd <$> interest el w)) mask) /\
    forall w', w' <> w -> interest el' w' = interest el w'.
Proof.
  intros Hok Hx Hfd Hm Hact.
  destruct (start_io_event_ok el w x fd mask Hok Hx Hfd Hm Hact)
    as (el' & E & Hok' & (Hs & _) & Hi & _).
  exists el'. split_and!; [done..|]. intros w' Hw. unfold interest. by rewrite Hs.
Qed.

(** A loop with one watcher reading descriptor 5. *)
Definition demo_loop : EventLoop :=
  mkLoop {[ 0%nat := mkIOW (mkIo true 5 1) ConnIo 0 ]} ∅ 1 0 false 0.

Lemma demo_loop_ok : loop_ok demo_loop.
Proof.
  constructor; cbn.
  - intros w x [<- _]%lookup_singleton_Some. lia.
  - intros w x Hw. by rewrite lookup_empty in Hw.
  - intros w x [<- <-]%lookup_singleton_Some _. done.
Qed.

Lemma start_io_event_adds_witness :
  exists el', start_io_event demo_loop 0 5 WRITE = Ok el' /\ loop_ok el' /\
    interest el' 0 = Some (5, Z.lor (default 0 (snd <$> interest demo_loop 0)) WRITE) /\
    forall w', w' <> 0%nat -> interest el' w' = interest demo_loop w'.
Proof.
  apply (start_io_event_adds demo_loop 0 (mkIOW (mkIo true 5 1) ConnIo 0) 5 WRITE);
    [apply demo_loop_ok|done|done|done|done].
Defined.

(** Stopping events on an active watcher removes exactly those events from
    what the loop watches, and stops the watcher when none is left. *)
Theorem stop_io_event_removes el w x mask :
  loop_ok el -> el_ios el !! w = Some x -> io_active (iow_io x) = true -> is_mask mask ->
  exists el', stop_io_event el w (io_fd (iow_io x)) mask = Ok el' /\ loop_ok el' /\
    interest el' w = without (interest el w) mask /\
    forall w', w' <> w -> interest el' w' = interest el w'.
Proof.
  intros Hok Hx Ha Hm.
  destruct (stop_io_event_ok el w x mask Hok Hx Ha Hm) as (el' & E & Hok' & (Hs & _) & Hi & _).
  exists el'. split_and!; [done..|]. intros w' Hw. unfold interest. by rewrite Hs.
Qed.

Lemma stop_io_event_removes_witness :
  exists el', stop_io_event demo_loop 0 5 READ = Ok el' /\ loop_ok el' /\
    interest el' 0 = without (interest demo_loop 0) READ /\
    forall w', w' <> 0%nat -> interest el' w' = interest demo_loop w'.
Proof.
  apply (stop_io_event_removes demo_loop 0 (mkIOW (mkIo true 5 1) ConnIo 0) READ);
    [apply demo_loop_ok|done|done|done].
Defined.

(** [stop_io_event] does not look at whether the watcher is active: on a
    watcher stopped earlier, stopping part of the mask it had starts it again
    on the rest. *)
Theorem stop_io_event_restarts el w fd m cb data mask :
  loop_ok el -> el_ios el !! w = Some (mkIOW (mkIo false fd m) cb data) -> 0 <= fd ->
  is_mask m -> is_mask mask -> m <> Z.land m (Z.lnot mask) -> Z.land m (Z.lnot mask) <> 0 ->
  interest el w = None /\
  exists el', stop_io_event el w fd mask = Ok el' /\
    interest el' w = Some (fd, Z.land m (Z.lnot mask)).
Proof.
  intros Hok Hx Hfd Hm Hk H1 H2. unfold interest, stop_io_event. rewrite Hx.
  cbn [the mbind outcome_bind iow_io io_active io_events].
  split; [done|]. pose proof (land_lnot_mask m mask Hm Hk).
  rewrite (trans_from_mask m), trans_to_mask by done.
  replace (m =? _) with false by lia. cbn [ev_io_stop negb io_active mbind outcome_bind].
  unfold EV_NONE. replace (Z.land _ _ =? 0) with false by lia. cbn [negb].
  rewrite start_inactive by done. cbn [mbind outcome_bind]. eexists. split; [done|].
  cbn [put_io set_ios el_ios]. rewrite lookup_insert_eq. cbn. by rewrite trans_from_mask.
Qed.

Definition stopped_loop : EventLoop :=
  mkLoop {[ 0%nat := mkIOW (mkIo false 5 3) ConnIo 0 ]} ∅ 1 0 false 0.

Lemma stop_io_event_restarts_witness :
  interest stopped_loop 0 = None /\
  exists el', stop_io_event stopped_loop 0 5 WRITE = Ok el' /\ interest el' 0 = Some (5, 1).
Proof.
  apply (stop_io_event_restarts stopped_loop 0 5 3 ConnIo 0 WRITE); try done.
  constructor; cbn.
  - intros w x [<- _]%lookup_singleton_Some. lia.
  - intros w x Hw. by rewrite lookup_empty in Hw.
  - intros w x [<- <-]%lookup_singleton_Some. done.
Defined.
