(* ===== verification/Socket.v ===== *)
(** * Sockets (src/server/socket.cpp, tcp_socket.cpp, udp_socket.cpp,
      ipv4_address.cpp) and the socket table (src/server/network_manager.cpp)

    The operating system is a parameter: [Kernel] lists the system calls the
    code makes, each returning a value or an errno and the next system state.
    [KernelLaws] states the documented behaviour the theorems use. *)

From S2P Require Import Prelude.

(** ** System calls *)

Inductive sysret (A : Type) := SysOk (a : A) | SysErr (errno : Z).
Arguments SysOk {A} a.
Arguments SysErr {A} errno.

Definition EINTR : Z := 4.
Definition EAGAIN : Z := 11.
Definition AF_INET : Z := 2.
Definition SOCK_STREAM : Z := 1.
Definition SOCK_DGRAM : Z := 2.
Definition SOCK_NONBLOCK : Z := 2048.
Definition O_NONBLOCK : Z := 2048.
Definition SOL_SOCKET : Z := 1.
Definition SO_REUSEADDR : Z := 2.
Definition IPPROTO_TCP : Z := 6.
Definition TCP_NODELAY : Z := 1.

(** [struct sockaddr_in]. *)
Record sockaddr_in := mkAddr { sin_family : Z; sin_port : Z; s_addr : Z }.

Class Kernel (K : Type) := {
  sys_socket : K -> Z -> Z -> sysret Z * K;
  sys_bind : K -> Z -> sockaddr_in -> sysret unit * K;
  sys_listen : K -> Z -> Z -> sysret unit * K;
  sys_accept : K -> Z -> sysret (Z * sockaddr_in) * K;
  sys_recvfrom : K -> Z -> Z -> sysret (bytes * sockaddr_in) * K;
  sys_connect : K -> Z -> sockaddr_in -> sysret unit * K;
  sys_setsockopt : K -> Z -> Z -> Z -> Z -> sysret unit * K;
  sys_getfl : K -> Z -> sysret Z * K;
  sys_setfl : K -> Z -> Z -> sysret unit * K;
  sys_read : K -> Z -> Z -> sysret bytes * K;
  sys_write : K -> Z -> bytes -> sysret Z * K;
  sys_close : K -> Z -> K;
  sys_pipe : K -> sysret (Z * Z) * K;
  (** what an uninitialised [int] of the stack holds *)
  stack_junk : Z }.

(** read(2) returns at most [len] bytes, write(2) takes at most what it is
    given, and a new descriptor is not negative. *)
Class KernelLaws (K : Type) `{Kernel K} : Prop := {
  read_at_most : forall k fd len d k', sys_read k fd len = (SysOk d, k') ->
    Z.of_nat (length d) <= len /\ is_bytes d;
  write_at_most : forall k fd d n k', sys_write k fd d = (SysOk n, k') ->
    0 <= n <= Z.of_nat (length d);
  socket_nonneg : forall k family type fd k', sys_socket k family type = (SysOk fd, k') -> 0 <= fd;
  accept_nonneg : forall k l fd sa k', sys_accept k l = (SysOk (fd, sa), k') -> 0 <= fd }.

(** ** Ipv4Address *)

(** The address conversions of <arpa/inet.h>. *)
Class Inet := { inet_addr : bytes -> Z; inet_ntoa : Z -> bytes }.

Definition htons (p : Z) : Z := Z.lor (Z.shiftl (Z.land p 255) 8) (Z.land (Z.shiftr p 8) 255).
Definition ntohs := htons.

Record Ipv4Address := mkIpv4 { ip_text : bytes; ip_port : Z; ip_addr : sockaddr_in }.

Definition Ipv4Address_default : Ipv4Address :=
  mkIpv4 (str "0.0.0.0") 0 (mkAddr 0 0 0).

Definition Ipv4Address_new `{Inet} (ip : bytes) (port : Z) : Ipv4Address :=
  mkIpv4 ip port (mkAddr AF_INET (htons port) (inet_addr ip)).

Definition family (a : Ipv4Address) : Z := sin_family (ip_addr a).
Definition ip `{Inet} (a : Ipv4Address) : bytes := inet_ntoa (s_addr (ip_addr a)).
Definition port (a : Ipv4Address) : Z := ntohs (sin_port (ip_addr a)).

(** ** Socket *)

Definition SOCKET_OK : Z := 0.
Definition SOCKET_ERR : Z := -1.
Definition SOCKET_PEER_CLOSED : Z := -2.
Definition ZF_INVALID_SOCKET : Z := -1.

Inductive Option_ := OPT_RCVBUF | OPT_SNDBUF | OPT_NODELAY | OPT_REUSEADDR.

(** The subclasses of [Socket]. *)
Inductive socket_kind := TCPSocket | UDPSocket.
Record Socket := mkSocket { s_kind : socket_kind; s_fd : Z; local_addr : Ipv4Address }.

#[export] Instance socket_kind_eq_dec : EqDecision socket_kind.
Proof. solve_decision. Defined.

Section Socket.
Context {K : Type} `{Kernel K}.

(** The return value and the two out parameters, which two of the options
    leave as they are. *)
Definition translate_option (opt : Option_) (slevel sopt : Z) : Z * Z * Z :=
  match opt with
  | OPT_REUSEADDR => (SOCKET_OK, SOL_SOCKET, SO_REUSEADDR)
  | OPT_NODELAY => (SOCKET_OK, IPPROTO_TCP, TCP_NODELAY)
  | OPT_RCVBUF => (SOCKET_OK, slevel, sopt)
  | OPT_SNDBUF => (SOCKET_OK, slevel, sopt)
  end.

(** [set_option(fd, opt, value)]; the method without [fd] passes its own. *)
Definition set_option (k : K) (fd : Z) (opt : Option_) (value : Z) : Z * K :=
  let '(r, slevel, sopt) := translate_option opt stack_junk stack_junk in
  if r =? -1 then (SOCKET_ERR, k) else
  match sys_setsockopt k fd slevel sopt value with
  | (SysErr _, k) => (SOCKET_ERR, k)
  | (SysOk _, k) => (SOCKET_OK, k)
  end.

Definition set_noblock (k : K) (s : Socket) : Z * K :=
  match sys_getfl k (s_fd s) with
  | (SysErr _, k) => (SOCKET_ERR, k)
  | (SysOk flags, k) =>
      match sys_setfl k (s_fd s) (Z.lor flags O_NONBLOCK) with
      | (SysErr _, k) => (SOCKET_ERR, k)
      | (SysOk _, k) => (SOCKET_OK, k)
      end
  end.

Definition create_bind2 (k : K) (s : Socket) (family type : Z) : Z * K :=
  match sys_socket k family (Z.lor type SOCK_NONBLOCK) with
  | (SysErr _, k) => (SOCKET_ERR, k)
  | (SysOk fd, k) =>
      let '(_, k) := set_option k fd OPT_REUSEADDR 1 in
      match sys_bind k fd (ip_addr (local_addr s)) with
      | (SysErr _, k) => (SOCKET_ERR, sys_close k fd)
      | (SysOk _, k) => (fd, k)
      end
  end.

(** [create_bind] also stores the descriptor in the object. *)
Definition create_bind (k : K) (s : Socket) (family type : Z) : Z * Socket * K :=
  match sys_socket k family (Z.lor type SOCK_NONBLOCK) with
  | (SysErr _, k) => (SOCKET_ERR, mkSocket (s_kind s) (-1) (local_addr s), k)
  | (SysOk fd, k) =>
      let s := mkSocket (s_kind s) fd (local_addr s) in
      let '(_, k) := set_option k fd OPT_REUSEADDR 1 in
      match sys_bind k fd (ip_addr (local_addr s)) with
      | (SysErr _, k) => (SOCKET_ERR, s, sys_close k fd)
      | (SysOk _, k) => (SOCKET_OK, s, k)
      end
  end.

Definition write (k : K) (s : Socket) (buf : bytes) : Z * K :=
  match sys_write k (s_fd s) buf with
  | (SysErr e, k) => (if e =? EAGAIN then 0 else SOCKET_ERR, k)
  | (SysOk w, k) => (s32 w, k)
  end.

(** The return value and the bytes stored at [buf]. *)
Definition read (k : K) (s : Socket) (len : Z) : Z * bytes * K :=
  match sys_read k (s_fd s) len with
  | (SysErr e, k) => (if e =? EAGAIN then 0 else SOCKET_ERR, [], k)
  | (SysOk [], k) => (SOCKET_PEER_CLOSED, [], k)
  | (SysOk d, k) => (s32 (Z.of_nat (length d)), d, k)
  end.

(** [TCPSocket::listen] ignores its argument; the base class refuses. *)
Definition listen (k : K) (s : Socket) (backlog : Z) : Z * K :=
  match s_kind s with
  | TCPSocket =>
      match sys_listen k (s_fd s) 4095 with
      | (SysErr _, k) => (SOCKET_ERR, sys_close k (s_fd s))
      | (SysOk _, k) => (SOCKET_OK, k)
      end
  | UDPSocket => (SOCKET_ERR, k)
  end.

(** The retry loop of [TCPSocket::accept]. *)
Fixpoint tcp_accept (fuel : nat) (k : K) (s : Socket) (sa : Ipv4Address) :
    outcome (Z * Ipv4Address * K) :=
  match fuel with
  | O => Trap OutOfFuel
  | S fuel =>
      match sys_accept k (s_fd s) with
      | (SysErr e, k) => if e =? EINTR then tcp_accept fuel k s sa else Ok (SOCKET_ERR, sa, k)
      | (SysOk (a_s, addr), k) => Ok (a_s, mkIpv4 (ip_text sa) (ip_port sa) addr, k)
      end
  end.

(** [UDPSocket::connect]; the other classes refuse. *)
Definition udp_connect (k : K) (fd : Z) (sa : Ipv4Address) : Z * K :=
  match sys_connect k fd (ip_addr sa) with
  | (SysErr _, k) => (SOCKET_ERR, k)
  | (SysOk _, k) => (SOCKET_OK, k)
  end.

(** [get_local_address] and [get_remote_address]: what getsockname or
    getpeername answers becomes an address object; other families leave [sa]. *)
Definition get_address `{Inet} (answer : sysret sockaddr_in) (sa : Ipv4Address) : bool * Ipv4Address :=
  match answer with
  | SysErr _ => (false, sa)
  | SysOk addr =>
      (true, if sin_family addr =? AF_INET
             then Ipv4Address_new (inet_ntoa (s_addr addr)) (htons (sin_port addr)) else sa)
  end.

(** [UDPSocket::accept]: the datagram is received into a local buffer, and a
    new socket bound to the server's address is connected to its sender. *)
Definition udp_accept (k : K) (s : Socket) (sa : Ipv4Address) : Z * Ipv4Address * K :=
  let '(r, k) := sys_recvfrom k (s_fd s) 1024 in
  let sa := match r with
            | SysOk (_, addr) => mkIpv4 (ip_text sa) (ip_port sa) addr
            | SysErr _ => sa
            end in
  let '(fd, k) := create_bind2 k s AF_INET SOCK_DGRAM in
  let '(_, k) := udp_connect k fd sa in
  (fd, sa, k).

Definition accept (fuel : nat) (k : K) (s : Socket) (sa : Ipv4Address) :
    outcome (Z * Ipv4Address * K) :=
  match s_kind s with
  | TCPSocket => tcp_accept fuel k s sa
  | UDPSocket => Ok (udp_accept k s sa)
  end.

End Socket.

(** ** NetworkManager

    The vector of sockets by descriptor; the objects themselves live in
    [nm_heap], so that a pointer that outlives its object is visible. *)

Abbreviation sptr := nat.

Record NetworkManager := mkNM {
  nm_sockets : list (option sptr);
  nm_listen_fd : Z;
  nm_heap : gmap nat Socket;
  nm_next : sptr }.

Definition G_SERVER_TCP : Z := 0.
Definition G_SERVER_UDP : Z := 1.

Definition new_network_manager : NetworkManager := mkNM [] (-1) ∅ 0.

Definition new_socket (nm : NetworkManager) (s : Socket) : sptr * NetworkManager :=
  (nm_next nm, mkNM (nm_sockets nm) (nm_listen_fd nm) (<[nm_next nm := s]> (nm_heap nm)) (S (nm_next nm))).

(** [v.resize(n, NULL)] and [v[i] = p] on a vector of pointers. *)
Definition resize {A} (v : list (option A)) (n : Z) : list (option A) :=
  take (Z.to_nat n) v ++ replicate (Z.to_nat n - length v) None.

Definition set_slot {A} (v : list (option A)) (i : Z) (p : option A) : outcome (list (option A)) :=
  if (0 <=? i) && (i <? Z.of_nat (length v)) then Ok (<[Z.to_nat i := p]> v) else Trap OutOfBounds.

Definition get_slot {A} (v : list (option A)) (i : Z) : outcome (option A) :=
  if i <? 0 then Trap OutOfBounds else
  match v !! Z.to_nat i with Some p => Ok p | None => Trap OutOfBounds end.

(** [if (fd >= v.size()) v.resize(fd*2, NULL); v[fd] = p;] where [fd] is an
    [int] compared as a [size_t]. *)
Definition put_at_fd {A} (v : list (option A)) (fd : Z) (p : A) : outcome (list (option A)) :=
  let v := if Z.of_nat (length v) <=? u64 fd then resize v (u64 (s32 (fd * 2))) else v in
  set_slot v fd (Some p).

Section NetworkManager.
Context {K : Type} `{Kernel K} `{Inet}.

Definition register (nm : NetworkManager) (fd : Z) (p : sptr) : outcome NetworkManager :=
  v ← put_at_fd (nm_sockets nm) fd p;
  Ok (mkNM v (nm_listen_fd nm) (nm_heap nm) (nm_next nm)).

(** A null pointer is [None]; an unknown server type leaves [s] null and
    dereferences it. *)
Definition create_server (k : K) (nm : NetworkManager) (type : Z) (ip : bytes) (port : Z) :
    outcome (option sptr * NetworkManager * K) :=
  let srv_addr := Ipv4Address_new ip port in
  if type =? G_SERVER_TCP then
    let '(r, s, k) := create_bind k (mkSocket TCPSocket 0 srv_addr) AF_INET SOCK_STREAM in
    if r =? SOCKET_ERR then Ok (None, nm, k) else
    let '(_, k) := listen k s 1024 in
    let '(p, nm) := new_socket nm s in
    nm ← register nm (s_fd s) p;
    Ok (Some p, mkNM (nm_sockets nm) (s_fd s) (nm_heap nm) (nm_next nm), k)
  else if type =? G_SERVER_UDP then
    let '(r, s, k) := create_bind k (mkSocket UDPSocket 0 srv_addr) AF_INET SOCK_DGRAM in
    if r =? SOCKET_ERR then Ok (None, nm, k) else
    let '(p, nm) := new_socket nm s in
    nm ← register nm (s_fd s) p;
    Ok (Some p, mkNM (nm_sockets nm) (s_fd s) (nm_heap nm) (nm_next nm), k)
  else Trap NullDeref.

Definition wrap_socket (k : K) (nm : NetworkManager) (listen_s : Socket) (fd : Z) :
    outcome (sptr * NetworkManager * K) :=
  let opt := match s_kind listen_s with TCPSocket => OPT_NODELAY | UDPSocket => OPT_REUSEADDR end in
  let s := mkSocket (s_kind listen_s) fd Ipv4Address_default in
  let '(_, k) := set_option k fd opt 1 in
  let '(_, k) := set_noblock k s in
  let '(p, nm) := new_socket nm s in
  nm ← register nm fd p;
  Ok (p, nm, k).

Definition generic_accept (fuel : nat) (k : K) (nm : NetworkManager) (listen_fd : Z) (sa : Ipv4Address) :
    outcome (option sptr * NetworkManager * K) :=
  p ← get_slot (nm_sockets nm) listen_fd;
  match p with
  | None => Trap NullDeref
  | Some p =>
      match nm_heap nm !! p with
      | None => Trap UseAfterFree
      | Some s =>
          r ← accept fuel k s sa;
          let '(fd, _, k) := r in
          if fd =? ZF_INVALID_SOCKET then Ok (None, nm, k) else
          w ← wrap_socket k nm s fd;
          let '(p, nm, k) := w in Ok (Some p, nm, k)
      end
  end.

(** The destructor deletes the listening socket and closes it. *)
Definition destroy_network_manager (k : K) (nm : NetworkManager) : outcome (NetworkManager * K) :=
  if nm_listen_fd nm =? ZF_INVALID_SOCKET then Ok (mkNM [] (nm_listen_fd nm) (nm_heap nm) (nm_next nm), k) else
  p ← get_slot (nm_sockets nm) (nm_listen_fd nm);
  h ← match p with
      | None => Ok (nm_heap nm)
      | Some p => match nm_heap nm !! p with
                  | Some _ => Ok (delete p (nm_heap nm)) | None => Trap UseAfterFree end
      end;
  Ok (mkNM [] (nm_listen_fd nm) h (nm_next nm), sys_close k (nm_listen_fd nm)).

End NetworkManager.

(** ** Facts *)

Lemma htons_involutive p : 0 <= p < 65536 -> htons (htons p) = p.
Proof.
  intros Hp. unfold htons. apply Z.bits_inj'. intros i Hi.
  rewrite !Z.lor_spec, !Z.land_spec, !Z.shiftl_spec, !Z.shiftr_spec by lia.
  rewrite !Z.land_spec, !Z.lor_spec, !Z.land_spec.
  change 255 with (Z.ones 8).
  destruct (decide (i < 8)).
  - rewrite (Z.ones_spec_low 8 i), (Z.shiftl_spec_low), (Z.shiftl_spec _ _ (i + 8)) by lia.
    rewrite (Z.land_spec p), (Z.testbit_neg_r _ (i - 8)) by lia.
    replace (i + 8 - 8) with i by lia.
    rewrite (Z.ones_spec_low 8 i), (Z.ones_spec_high 8 (i + 8)) by lia.
    by rewrite !andb_false_r, !andb_true_r, !orb_false_r.
  - destruct (decide (i < 16)).
    + rewrite Z.shiftl_spec, Z.land_spec, Z.shiftr_spec by lia.
      rewrite !Z.shiftl_spec, !Z.land_spec, Z.shiftr_spec by lia.
      replace (i - 8 + 8) with i by lia.
      rewrite (Z.ones_spec_low 8 (i - 8)), (Z.ones_spec_high 8 i) by lia.
      rewrite (Z.testbit_neg_r _ (i - 8 - 8)) by lia. simpl.
      by rewrite !andb_false_r, !andb_true_r, !orb_false_r.
    + rewrite (Z.ones_spec_high 8 i), (Z.ones_spec_high 8 (i - 8)) by lia.
      rewrite (Z.bits_above_log2 p i); [by rewrite !andb_false_r|lia|].
      destruct (decide (p = 0)) as [->|]; [simpl; lia|].
      apply Z.log2_lt_pow2; [lia|]. apply Z.lt_le_trans with (2 ^ 16); [simpl; lia|].
      apply Z.pow_le_mono_r; lia.
Qed.

(** The address object a socket reports is the system's, when inet_addr inverts
    inet_ntoa. *)
Lemma get_address_ok `{Inet} addr sa :
  sin_family addr = AF_INET -> 0 <= sin_port addr < 65536 -> inet_addr (inet_ntoa (s_addr addr)) = s_addr addr ->
  exists a, get_address (SysOk addr) sa = (true, a) /\ ip_addr a = addr /\ ip a = inet_ntoa (s_addr addr) /\
    port a = ip_port a.
Proof.
  intros Hf Hp Hi. unfold get_address. rewrite Hf. cbn. eexists. split; [done|].
  unfold ip, port, ntohs. cbn. rewrite htons_involutive, Hi by done.
  split; [|by rewrite ?Hi]. destruct addr. cbn in *. by subst.
Qed.

(** The pointer stored for a descriptor: null when beyond the vector. *)
Definition slot {A} (v : list (option A)) (i : Z) : option A :=
  if i <? 0 then None else mjoin (v !! Z.to_nat i).

Lemma resize_slot {A} (v : list (option A)) n i :
  Z.of_nat (length v) <= n -> slot (resize v n) i = slot v i.
Proof.
  intros Hn. unfold slot, resize. destruct (Z.ltb_spec i 0); [done|].
  rewrite take_ge by lia. destruct (decide (Z.to_nat i < length v)%nat).
  - by rewrite lookup_app_l.
  - rewrite lookup_app_r by lia. rewrite (lookup_ge_None_2 v) by lia.
    destruct (replicate _ _ !! _) eqn:E; [|done].
    apply lookup_replicate in E as [-> _]. done.
Qed.

Lemma resize_length {A} (v : list (option A)) n : length (resize v n) = Z.to_nat n.
Proof. unfold resize. rewrite length_app, length_take, length_replicate. lia. Qed.

(** Growing to twice the descriptor makes room for it unless it is 0. *)
Lemma put_at_fd_ok {A} (v : list (option A)) fd p :
  0 <= fd < 2 ^ 30 -> (fd = 0 -> v <> []) ->
  exists v', put_at_fd v fd p = Ok v' /\ slot v' fd = Some p /\
    (forall i, i <> fd -> slot v' i = slot v i) /\ fd < Z.of_nat (length v') /\
    (length v <= length v')%nat.
Proof.
  intros Hfd H0. unfold put_at_fd, set_slot. rewrite u64_small by lia.
  rewrite s32_small, u64_small by lia.
  set (w := if _ <=? _ then _ else v).
  assert (Hw : fd < Z.of_nat (length w) /\ (length v <= length w)%nat /\ forall i, slot w i = slot v i).
  { unfold w. destruct (Z.leb_spec (Z.of_nat (length v)) fd).
    - rewrite resize_length. assert (fd <> 0) by (intros ->; destruct v; [by apply H0|simpl in *; lia]).
      split_and!; [lia|lia|]. intros i. apply resize_slot. lia.
    - split_and!; [lia|lia|done]. }
  destruct Hw as (Hl & Hl' & Hs). decide_tests. eexists. split_and!; [done| | |by rewrite length_insert|by rewrite length_insert].
  - unfold slot. decide_tests. rewrite list_lookup_insert_eq by lia. done.
  - intros i Hi. rewrite <-Hs. unfold slot. destruct (Z.ltb_spec i 0); [done|].
    rewrite list_lookup_insert_ne by lia. done.
Qed.

Lemma get_slot_Some {A} (v : list (option A)) i p :
  slot v i = Some p -> get_slot v i = Ok (Some p).
Proof.
  unfold slot, get_slot. destruct (i <? 0); [done|]. destruct (v !! Z.to_nat i) as [[q|]|]; simpl; congruence.
Qed.

Lemma set_slot_ok {A} (v : list (option A)) i (p : option A) :
  0 <= i < Z.of_nat (length v) ->
  exists v', set_slot v i p = Ok v' /\ slot v' i = p /\ (forall j, j <> i -> slot v' j = slot v j) /\
    length v' = length v.
Proof.
  intros Hi. unfold set_slot. decide_tests. eexists. split_and!; [done| | |by rewrite length_insert].
  - unfold slot. decide_tests. by rewrite list_lookup_insert_eq by lia.
  - intros j Hj. unfold slot. destruct (Z.ltb_spec j 0); [done|].
    by rewrite list_lookup_insert_ne by lia.
Qed.

Lemma slot_Some_range {A} (v : list (option A)) i p :
  slot v i = Some p -> 0 <= i < Z.of_nat (length v).
Proof.
  unfold slot. destruct (Z.ltb_spec i 0); [done|]. intros Hs.
  destruct (decide (Z.to_nat i < length v)%nat); [lia|]. by rewrite lookup_ge_None_2 in Hs by lia.
Qed.

Section SocketFacts.
Context {K : Type} `{KernelLaws K} `{Inet}.

(** What a read of at most [len] bytes can report. *)
Lemma read_cases k s len :
  0 <= len <= INT_MAX ->
  exists k', (exists d, read k s len = (Z.of_nat (length d), d, k') /\ is_bytes d /\
                Z.of_nat (length d) <= len) \/
             read k s len = (SOCKET_ERR, [], k') \/ read k s len = (SOCKET_PEER_CLOSED, [], k').
Proof.
  intros Hl. unfold read. destruct (sys_read k (s_fd s) len) as [[d|e] k'] eqn:E.
  - apply read_at_most in E as [Hd Hb]. exists k'. destruct d as [|x d]; [auto|].
    left. exists (x :: d). unfold INT_MAX in Hl. by rewrite s32_small by lia.
  - exists k'. destruct (e =? EAGAIN); [|auto]. left. exists []. split_and!; [done|by apply Forall_nil|simpl; lia].
Qed.

Lemma write_cases k s d :
  Z.of_nat (length d) <= INT_MAX ->
  exists w k', write k s d = (w, k') /\ (w = SOCKET_ERR \/ 0 <= w <= Z.of_nat (length d)).
Proof.
  intros Hl. unfold write. destruct (sys_write k (s_fd s) d) as [[n|e] k'] eqn:E.
  - apply write_at_most in E. exists n, k'. unfold INT_MAX in Hl. rewrite s32_small by lia. auto.
  - eexists _, k'. split; [done|]. destruct (e =? EAGAIN); [right; lia|auto].
Qed.

Lemma register_ok nm fd p :
  0 <= fd < 2 ^ 30 -> (fd = 0 -> nm_sockets nm <> []) ->
  exists nm', register nm fd p = Ok nm' /\ slot (nm_sockets nm') fd = Some p /\
    (forall i, i <> fd -> slot (nm_sockets nm') i = slot (nm_sockets nm) i) /\
    nm_heap nm' = nm_heap nm /\ nm_listen_fd nm' = nm_listen_fd nm /\
    fd < Z.of_nat (length (nm_sockets nm')) /\
    (length (nm_sockets nm) <= length (nm_sockets nm'))%nat.
Proof.
  intros Hfd Hz. unfold register. destruct (put_at_fd_ok _ fd p Hfd Hz) as (v & -> & ? & ? & ? & ?).
  cbn [mbind outcome_bind]. eexists. split_and!; [done|..]; done.
Qed.

Lemma wrap_socket_ok k nm ls fd :
  0 <= fd < 2 ^ 30 -> (fd = 0 -> nm_sockets nm <> []) ->
  exists nm' k', wrap_socket k nm ls fd = Ok (nm_next nm, nm', k') /\
    slot (nm_sockets nm') fd = Some (nm_next nm) /\
    nm_heap nm' = <[nm_next nm := mkSocket (s_kind ls) fd Ipv4Address_default]> (nm_heap nm) /\
    (forall i, i <> fd -> slot (nm_sockets nm') i = slot (nm_sockets nm) i) /\
    nm_listen_fd nm' = nm_listen_fd nm.
Proof.
  intros Hfd Hz. unfold wrap_socket. destruct (set_option k fd _ 1) as [r1 k1].
  destruct (set_noblock k1 _) as [r2 k2]. unfold new_socket.
  match goal with |- context [register ?nm0 fd ?p] =>
    destruct (register_ok nm0 fd p Hfd Hz) as (nm' & -> & ? & ? & ? & ? & _) end.
  cbn [mbind outcome_bind]. exists nm', k2. split_and!; done.
Qed.

End SocketFacts.

(** ** A concrete system, for running the definitions

    Per descriptor, the bytes that have arrived and those sent; sockets and
    accepted connections get the next descriptor. *)
Record sim := mkSim {
  sim_in : gmap Z bytes;        (** arrived, not yet read *)
  sim_out : gmap Z bytes;       (** written *)
  sim_read : gmap Z bytes;      (** read so far *)
  sim_next : Z }.

Definition sim_fd (k : sim) : Z * sim :=
  (sim_next k, mkSim (sim_in k) (sim_out k) (sim_read k) (sim_next k + 1)).

Definition at_fd (m : gmap Z bytes) (fd : Z) : bytes := default [] (m !! fd).

#[export] Instance sim_kernel : Kernel sim := {|
  sys_socket k _ _ := let '(fd, k) := sim_fd k in (SysOk (Z.abs fd), k);
  sys_bind k _ _ := (SysOk (), k);
  sys_listen k _ _ := (SysOk (), k);
  sys_accept k _ := let '(fd, k) := sim_fd k in (SysOk (Z.abs fd, mkAddr AF_INET 0 0), k);
  sys_recvfrom k _ _ := (SysErr EAGAIN, k);
  sys_connect k _ _ := (SysOk (), k);
  sys_setsockopt k _ _ _ _ := (SysOk (), k);
  sys_getfl k _ := (SysOk 0, k);
  sys_setfl k _ _ := (SysOk (), k);
  sys_read k fd len :=
    let d := filter is_byte (at_fd (sim_in k) fd) in
    if (len <? 0) || bool_decide (d = []) then (SysErr EAGAIN, k) else
    let got := take (Z.to_nat len) d in
    (SysOk got, mkSim (<[fd := drop (Z.to_nat len) d]> (sim_in k)) (sim_out k)
                  (<[fd := at_fd (sim_read k) fd ++ got]> (sim_read k)) (sim_next k));
  sys_write k fd d :=
    (SysOk (Z.of_nat (length d)),
     mkSim (sim_in k) (<[fd := at_fd (sim_out k) fd ++ d]> (sim_out k)) (sim_read k) (sim_next k));
  sys_close k fd := mkSim (delete fd (sim_in k)) (delete fd (sim_out k)) (delete fd (sim_read k)) (sim_next k);
  sys_pipe k := (SysOk (3, 4), k);
  stack_junk := 77 |}.

#[export] Instance sim_laws : KernelLaws sim.
Proof.
  split; cbn.
  - intros k fd len d k'. destruct (Z.ltb_spec len 0); cbn [orb]; [done|].
    case_bool_decide; [done|]. intros [= <- _]. split; [rewrite length_take; lia|].
    apply Forall_take, Forall_forall. intros y Hy. by apply list_elem_of_filter in Hy as [? _].
  - intros k fd d n k' [= <- _]. lia.
  - intros k f t fd k' [= <- _]. lia.
  - intros k l fd sa k' [= <- _ _]. lia.
Qed.

Definition sim0 : sim := mkSim ∅ ∅ ∅ 5.

(** ** Properties *)

(** The port of an address is kept in network order and read back: for
    every 16-bit port [port (Ipv4Address ip p) = p]. *)
Theorem address_port_round_trip (I : Inet) ip_ p :
  0 <= p < 65536 ->
  port (Ipv4Address_new ip_ p) = p /\ family (Ipv4Address_new ip_ p) = AF_INET.
Proof. intros Hp. split; [|done]. by apply htons_involutive. Qed.

Definition demo_inet : Inet := {| inet_addr := fun _ => 16777343; inet_ntoa := fun _ => str "127.0.0.1" |}.

Lemma address_port_round_trip_witness :
  let I := demo_inet in
  port (Ipv4Address_new (str "127.0.0.1") 8080) = 8080 /\
  family (Ipv4Address_new (str "127.0.0.1") 8080) = AF_INET.
Proof. intros I. apply (address_port_round_trip I (str "127.0.0.1") 8080). lia. Defined.

(** Accepting a connection: when the listening socket is in the table and
    the system hands out a descriptor, the new socket object has the listener's
    kind and that descriptor, is stored in the table at the descriptor, and no
    other entry of the table changes. *)
Theorem generic_accept_registers {K : Type} `{KernelLaws K} (I : Inet) fuel (k : K) nm lfd p ls sa fd addr k1 :
  slot (nm_sockets nm) lfd = Some p -> nm_heap nm !! p = Some ls -> s_kind ls = TCPSocket ->
  sys_accept k (s_fd ls) = (SysOk (fd, addr), k1) -> fd < 2 ^ 30 ->
  exists nm' k', generic_accept (S fuel) k nm lfd sa = Ok (Some (nm_next nm), nm', k') /\
    slot (nm_sockets nm') fd = Some (nm_next nm) /\
    nm_heap nm' !! nm_next nm = Some (mkSocket TCPSocket fd Ipv4Address_default) /\
    forall i, i <> fd -> slot (nm_sockets nm') i = slot (nm_sockets nm) i.
Proof.
  intros Hs Hh Hk Ha Hfd. unfold generic_accept. rewrite (get_slot_Some _ _ _ Hs).
  cbn [mbind outcome_bind]. rewrite Hh. unfold accept. rewrite Hk. cbn [tcp_accept].
  rewrite Ha. cbn [mbind outcome_bind]. pose proof (accept_nonneg _ _ _ _ _ Ha) as H0'.
  unfold ZF_INVALID_SOCKET. replace (fd =? -1) with false by lia.
  destruct (wrap_socket_ok k1 nm ls fd) as (nm' & k2 & -> & H1' & H2' & H3' & _); [lia| |].
  { intros _ E. rewrite E in Hs. unfold slot in Hs. by case_match. }
  cbn [mbind outcome_bind]. exists nm', k2. split_and!; [done|done| |done].
  by rewrite H2', lookup_insert_eq, Hk.
Qed.

Lemma generic_accept_registers_witness :
  let I := demo_inet in
  let nm := mkNM [None; None; None; Some 0%nat] 3 {[ 0%nat := mkSocket TCPSocket 3 Ipv4Address_default ]} 1 in
  exists nm' k', generic_accept 1 sim0 nm 3 Ipv4Address_default = Ok (Some 1%nat, nm', k') /\
    slot (nm_sockets nm') 5 = Some 1%nat /\
    nm_heap nm' !! 1%nat = Some (mkSocket TCPSocket 5 Ipv4Address_default) /\
    forall i, i <> 5 -> slot (nm_sockets nm') i = slot (nm_sockets nm) i.
Proof.
  intros I nm. apply (generic_accept_registers I 0 sim0 nm 3 0%nat
    (mkSocket TCPSocket 3 Ipv4Address_default) Ipv4Address_default 5 (mkAddr AF_INET 0 0) (mkSim ∅ ∅ ∅ 6));
    done.
Defined.

(** The table grows to twice the descriptor, which makes no room for
    descriptor 0: storing it in an empty table is out of bounds, while every
    other descriptor below 2^30 is stored. *)
Theorem register_descriptor_zero nm p fd :
  nm_sockets nm = [] -> 0 <= fd < 2 ^ 30 ->
  (register nm fd p = Trap OutOfBounds <-> fd = 0).
Proof.
  intros Hn Hfd. split.
  - intros E. destruct (decide (fd = 0)); [done|].
    unfold register in E. destruct (put_at_fd_ok (nm_sockets nm) fd p Hfd) as (v & Ev & _); [lia|].
    by rewrite Ev in E.
  - intros ->. unfold register, put_at_fd, set_slot. by rewrite Hn.
Qed.

Lemma register_descriptor_zero_witness :
  register new_network_manager 0 0 = Trap OutOfBounds <-> 0 = 0.
Proof. apply (register_descriptor_zero new_network_manager 0 0); done. Defined.
