(* ===== verification/Config.v ===== *)
(** * Configuration (src/util/config_file.cpp, src/server/server.cpp)

    A configuration structure is a block of memory; a command names a slot of
    it by its offset and the handler that parses the slot's value.  The parser
    of the file itself is a library (deps/new-config): a file is here the list
    of its nodes, each with the key and value the library returns.  NewConfig
    models that library, and NewConfigProps the loader on top of it. *)

From S2P Require Import Prelude Utils Sds SdsText.

Definition CONFIG_OK : Z := 0.
Definition CONFIG_ERROR : Z := 1.

(** The structure and the strings its pointers refer to; a string pointer is
    the number of the string, counted from one. *)
Record conf := mkConf { conf_mem : bytes; conf_strings : list bytes }.

(** The handlers a command can name. *)
Inductive handler := conf_set_flag | conf_set_usec | conf_set_str | conf_set_num | conf_set_mem.
Record command_t := mkCmd { cmd_name : bytes; cmd_handler : option handler; cmd_offset : Z }.

Definition null_command : command_t := mkCmd [] None 0.
Definition is_null_command (c : command_t) : bool :=
  match cmd_name c with [] => true | _ => false end.

(** [argv[i]] of an array that may be null; an entry is a string or null. *)
Definition arg (argv : option (list (option sds))) (i : Z) : outcome bytes :=
  match argv with
  | None => Trap NullDeref
  | Some v =>
      if i <? 0 then Trap OutOfBounds else
      match v !! Z.to_nat i with
      | None => Trap OutOfBounds
      | Some None => Trap NullDeref
      | Some (Some s) => Ok (cstr (sh_buf s))
      end
  end.

(** A typed store at [conf + offset]. *)
Definition put_slot (c : conf) (offset : Z) (size : nat) (v : Z) : outcome conf :=
  m ← memcpy (conf_mem c) offset (le_bytes size v);
  Ok (mkConf m (conf_strings c)).

Definition get_slot (c : conf) (offset : Z) (size : nat) : outcome Z :=
  b ← read_block (conf_mem c) offset (Z.of_nat size); Ok (le_val b).

Definition conf_set_flag_slot (argc : Z) (argv : option (list (option sds))) (offset : Z) (c : conf) :
    outcome (Z * conf) :=
  if argc <? 1 then Ok (CONFIG_ERROR, c) else
  a ← arg argv 0;
  if strcaseeq a (str "yes") then (c ← put_slot c offset 1 1; Ok (CONFIG_OK, c))
  else if strcaseeq a (str "no") then (c ← put_slot c offset 1 0; Ok (CONFIG_OK, c))
  else Ok (CONFIG_ERROR, c).

Definition conf_set_usec_slot (argc : Z) (argv : option (list (option sds))) (offset : Z) (c : conf) :
    outcome (Z * conf) :=
  if argc <? 1 then Ok (CONFIG_ERROR, c) else
  a ← arg argv 0;
  c ← put_slot c offset 8 (fst (timetoll a)); Ok (CONFIG_OK, c).

(** [zstrdup] of the argument. *)
Definition conf_set_str_slot (argc : Z) (argv : option (list (option sds))) (offset : Z) (c : conf) :
    outcome (Z * conf) :=
  if argc <? 1 then Ok (CONFIG_ERROR, c) else
  a ← arg argv 0;
  let strings := conf_strings c ++ [a] in
  c ← put_slot c offset 8 (Z.of_nat (length strings));
  Ok (CONFIG_OK, mkConf (conf_mem c) strings).

Definition conf_set_num_slot (argc : Z) (argv : option (list (option sds))) (offset : Z) (c : conf) :
    outcome (Z * conf) :=
  if argc <? 1 then Ok (CONFIG_ERROR, c) else
  a ← arg argv 0;
  c ← put_slot c offset 4 (atoi a); Ok (CONFIG_OK, c).

Definition conf_set_mem_slot (argc : Z) (argv : option (list (option sds))) (offset : Z) (c : conf) :
    outcome (Z * conf) :=
  if argc <? 1 then Ok (CONFIG_ERROR, c) else
  a ← arg argv 0;
  c ← put_slot c offset 8 (fst (memtoll a)); Ok (CONFIG_OK, c).

(** The call through the function pointer; the null handler crashes. *)
Definition call_handler (h : option handler) (argc : Z) (argv : option (list (option sds)))
    (offset : Z) (c : conf) : outcome (Z * conf) :=
  match h with
  | None => Trap NullDeref
  | Some conf_set_flag => conf_set_flag_slot argc argv offset c
  | Some conf_set_usec => conf_set_usec_slot argc argv offset c
  | Some conf_set_str => conf_set_str_slot argc argv offset c
  | Some conf_set_num => conf_set_num_slot argc argv offset c
  | Some conf_set_mem => conf_set_mem_slot argc argv offset c
  end.

(** The scan stops at the null command; a table without one is overrun. *)
Fixpoint find_command (cmd_table : list command_t) (name : bytes) : outcome (option command_t) :=
  match cmd_table with
  | [] => Trap OutOfBounds
  | cp :: rest =>
      if is_null_command cp then Ok None
      else if strcaseeq name (cmd_name cp) then Ok (Some cp)
      else find_command rest name
  end.

(** [while(argc--) sdsfree(argv[argc]);] — the strings released, in order. *)
Fixpoint free_args (fuel : nat) (argc : Z) (argv : option (list (option sds))) :
    outcome (list (option sds)) :=
  match fuel with
  | O => Trap OutOfFuel
  | S fuel =>
      if argc =? 0 then Ok [] else
      let argc := argc - 1 in
      match argv with
      | None => Trap NullDeref
      | Some v =>
          if argc <? 0 then Trap OutOfBounds else
          match v !! Z.to_nat argc with
          | None => Trap OutOfBounds
          | Some s => rest ← free_args fuel argc argv; Ok (s :: rest)
          end
      end
  end.

(** A node of the file: its key and value (C strings with their terminator),
    either of which may be missing. *)
Record config_node := mkNode { node_key : option bytes; node_value : option bytes }.

Section Parse.
Context `{Allocator}.

(** The return value, the structure and the argument strings freed. *)
Definition parse_conf (node : config_node) (cmd_table : list command_t) (c : conf) :
    outcome (Z * conf * list (option sds)) :=
  match node_key node, node_value node with
  | Some cmd_name, Some cmd_args =>
      r ← sdssplitargs cmd_args;
      let '(argv, argc) := r in
      cmd ← find_command cmd_table (cstr cmd_name);
      h ← match cmd with
          | Some cmd => call_handler (cmd_handler cmd) argc argv (cmd_offset cmd) c
          | None => Ok (CONFIG_OK, c)
          end;
      let '(code, c) := h in
      if negb (code =? CONFIG_OK) then Ok (CONFIG_ERROR, c, []) else
      freed ← free_args (S (Z.to_nat argc)) argc argv;
      Ok (CONFIG_OK, c, freed)
  | _, _ => Ok (CONFIG_ERROR, c, [])
  end.

(** The loop over the nodes after the first. *)
Fixpoint load_nodes (nodes : list config_node) (cmd_table : list command_t) (c : conf) :
    outcome (Z * conf) :=
  match nodes with
  | [] => Ok (CONFIG_OK, c)
  | node :: nodes =>
      r ← parse_conf node cmd_table c;
      let '(code, c, _) := r in
      if negb (code =? CONFIG_OK) then Ok (CONFIG_ERROR, c) else load_nodes nodes cmd_table c
  end.

(** What the parsing library makes of the file: unreadable, without a root, or
    a list of nodes. *)
Inductive config_file := Unreadable | NoRoot | Nodes (nodes : list config_node).

Definition load_conf_file (file : config_file) (cmd_table : list command_t) (c : conf) :
    outcome (Z * conf) :=
  match file with
  | Unreadable => Ok (CONFIG_ERROR, c)
  | NoRoot => Ok (CONFIG_ERROR, c)
  | Nodes [] => Ok (CONFIG_ERROR, c)
  | Nodes nodes => load_nodes nodes cmd_table c
  end.

End Parse.

(** ** GenericServerOptions

    The layout of the class: offset and size of each member. *)

Definition o_ip : Z * nat := (0, 8%nat).
Definition o_port : Z * nat := (8, 2%nat).
Definition o_worker_num : Z * nat := (12, 4%nat).
Definition o_server_type : Z * nat := (16, 4%nat).
Definition o_bind_cpu : Z * nat := (20, 1%nat).
Definition o_connection_timeout : Z * nat := (24, 8%nat).
Definition o_tick : Z * nat := (32, 8%nat).
Definition o_max_io_buffer_size : Z * nat := (40, 8%nat).
Definition o_max_reply_list_size : Z * nat := (48, 4%nat).
Definition o_worker_factory_func : Z * nat := (56, 8%nat).
Definition o_ssl_open : Z * nat := (64, 4%nat).
Definition sizeof_options : nat := 72.

(** The members as values. *)
Record GenericServerOptions := mkOptions {
  opt_ip : Z; opt_port : Z; opt_worker_num : Z; opt_server_type : Z; opt_bind_cpu : Z;
  opt_connection_timeout : Z; opt_tick : Z; opt_max_io_buffer_size : Z;
  opt_max_reply_list_size : Z; opt_worker_factory_func : Z; opt_ssl_open : Z }.

Definition server_cmd_table : list command_t :=
  [ mkCmd (str "ip") (Some conf_set_str) 0;
    mkCmd (str "port") (Some conf_set_num) 8;
    mkCmd (str "worker_num") (Some conf_set_num) 12;
    mkCmd (str "bind_cpu") (Some conf_set_flag) 20;
    mkCmd (str "server_type") (Some conf_set_num) 16;
    mkCmd (str "connection_timeout") (Some conf_set_usec) 24;
    mkCmd (str "tick") (Some conf_set_usec) 32;
    mkCmd (str "max_io_buffer_size") (Some conf_set_mem) 40;
    mkCmd (str "max_reply_list_size") (Some conf_set_num) 48;
    null_command ].

(** The constructor's values. *)
Definition default_options : GenericServerOptions :=
  mkOptions 0 0 8 0 1 (60 * 1000 * 1000) 1000 (10 * 1024 * 1024) 1024 0 0.

(** The object's bytes, padding left at zero. *)
Definition options_mem (o : GenericServerOptions) : bytes :=
  le_bytes 8 (opt_ip o) ++ le_bytes 2 (opt_port o) ++ [0; 0] ++ le_bytes 4 (opt_worker_num o) ++
  le_bytes 4 (opt_server_type o) ++ le_bytes 1 (opt_bind_cpu o) ++ [0; 0; 0] ++
  le_bytes 8 (opt_connection_timeout o) ++ le_bytes 8 (opt_tick o) ++
  le_bytes 8 (opt_max_io_buffer_size o) ++ le_bytes 4 (opt_max_reply_list_size o) ++ [0; 0; 0; 0] ++
  le_bytes 8 (opt_worker_factory_func o) ++ le_bytes 4 (opt_ssl_open o) ++ [0; 0; 0; 0].

Definition get_field (c : conf) (f : Z * nat) : outcome Z := get_slot c (fst f) (snd f).

Definition read_options (c : conf) : outcome GenericServerOptions :=
  a1 ← get_field c o_ip; a2 ← get_field c o_port; a3 ← get_field c o_worker_num;
  a4 ← get_field c o_server_type; a5 ← get_field c o_bind_cpu;
  a6 ← get_field c o_connection_timeout; a7 ← get_field c o_tick;
  a8 ← get_field c o_max_io_buffer_size; a9 ← get_field c o_max_reply_list_size;
  a10 ← get_field c o_worker_factory_func; a11 ← get_field c o_ssl_open;
  Ok (mkOptions a1 a2 a3 a4 a5 a6 a7 a8 a9 a10 a11).

Definition SERVER_OK : Z := 0.
Definition SERVER_ERROR : Z := -1.

(** [GenericServer::init_conf()], [init_conf(o)] and [load_conf]. *)
Definition init_conf : conf := mkConf (options_mem default_options) [].

Definition init_conf_options (o : conf) : outcome conf :=
  ip ← get_field o o_ip;
  if ip =? 0 then
    let strings := conf_strings o ++ [str "0.0.0.0"] in
    o ← put_slot o 0 8 (Z.of_nat (length strings));
    Ok (mkConf (conf_mem o) strings)
  else Ok o.

Definition load_conf `{Allocator} (file : config_file) (c : conf) : outcome (Z * conf) :=
  r ← load_conf_file file server_cmd_table c;
  let '(code, c) := r in
  if negb (code =? CONFIG_OK) then Ok (SERVER_ERROR, c) else Ok (SERVER_OK, c).

(** ** Facts *)

Lemma get_put_same c off size v c' :
  put_slot c off size v = Ok c' -> get_slot c' off size = Ok (v mod 2 ^ (8 * Z.of_nat size)).
Proof.
  unfold put_slot, get_slot, memcpy, read_block. intros Hp. inv_bind Hp. injection Hp as <-.
  cbn [conf_mem]. case_match; [|done]. injection E as <-.
  rewrite le_bytes_length in *. rewrite !length_app, length_take, length_drop, le_bytes_length.
  decide_tests. cbn [mbind outcome_bind]. rewrite Nat2Z.id.
  rewrite drop_app_length' by (rewrite length_take; lia).
  rewrite take_app_length' by (by rewrite le_bytes_length). by rewrite le_val_bytes.
Qed.

Lemma get_put_other c off size v c' off' size' :
  put_slot c off size v = Ok c' ->
  off' + Z.of_nat size' <= off \/ off + Z.of_nat size <= off' ->
  get_slot c' off' size' = get_slot c off' size'.
Proof.
  unfold put_slot, get_slot, memcpy, read_block. intros Hp Hd. inv_bind Hp. injection Hp as <-.
  cbn [conf_mem]. case_match; [|done]. injection E as <-. rewrite le_bytes_length in *.
  assert (Hl : length (take (Z.to_nat off) (conf_mem c) ++ le_bytes size v ++
    drop (Z.to_nat off + size) (conf_mem c)) = length (conf_mem c)).
  { rewrite !length_app, length_take, length_drop, le_bytes_length. lia. }
  rewrite Hl. destruct ((0 <=? off') && (0 <=? Z.of_nat size') &&
    (off' + Z.of_nat size' <=? Z.of_nat (length (conf_mem c)))) eqn:E2; [|done].
  cbn [mbind outcome_bind]. f_equal. f_equal. rewrite Nat2Z.id.
  destruct Hd as [Hd|Hd].
  - rewrite drop_app_le by (rewrite length_take; lia).
    rewrite take_app_le by (rewrite length_drop, length_take; lia).
    by rewrite skipn_firstn_comm, take_take, Nat.min_l by lia.
  - rewrite drop_app_ge, length_take by (rewrite length_take; lia).
    rewrite drop_app_ge, le_bytes_length, drop_drop by (rewrite le_bytes_length; lia).
    f_equal. f_equal. lia.
Qed.

Lemma put_slot_ok c off size v :
  0 <= off -> off + Z.of_nat size <= Z.of_nat (length (conf_mem c)) ->
  exists m, put_slot c off size v = Ok (mkConf m (conf_strings c)) /\
    length m = length (conf_mem c).
Proof.
  intros H1 H2. unfold put_slot. destruct (memcpy (conf_mem c) off (le_bytes size v)) eqn:E.
  - eexists. split; [done|]. by apply memcpy_length in E.
  - unfold memcpy in E. rewrite le_bytes_length in E. replace (_ && _) with true in E by lia. done.
Qed.

(** A word without quotes or blanks. *)
Definition plain_char (x : Z) : Prop :=
  is_byte x /\ isspace x = false /\ x <> 0 /\ x <> 34 /\ x <> 39.
Definition plain (t : bytes) : Prop := t <> [] /\ Forall plain_char t.

Section PlainWords.
Context `{Allocator}.
Hypothesis alloc_total : forall n, alloc_ok n = true.

Lemma token_loop_plain fuel t r s c f :
  Forall plain_char t -> sds_repr s c f -> fits c (Z.of_nat (length t)) -> (length t < fuel)%nat ->
  exists s' f', token_loop fuel (t ++ 0 :: r) false false (Some s) = Ok (Some (0 :: r, Some s')) /\
    sds_repr s' (c ++ t) f'.
Proof.
  intros Ht. revert fuel s c f. induction Ht as [|x t (Hb & Hs & Hx & H34 & H39) _ IH];
    intros fuel s c f Hr Hf Hfuel; (destruct fuel as [|fuel]; [simpl in *; lia|]).
  - exists s, f. rewrite app_nil_r. done.
  - cbn [app token_loop]. unfold token_turn, advance. cbn [peek mbind outcome_bind].
    unfold isspace in Hs. do 2 (decide_tests; cbn [mbind outcome_bind]).
    destruct (catlen_ptr_repr alloc_total _ _ _ [x] Hr) as (s1 & f1 & -> & Hs1).
    { eapply fits_le; [done|simpl; lia]. }
    cbn [mbind outcome_bind peek]. decide_tests. cbn [mbind outcome_bind drop].
    destruct (IH fuel s1 _ f1 Hs1) as (s2 & f2 & E & Hs2); [|simpl in *; lia|].
    { apply fits_app. eapply fits_le; [done|simpl; lia]. }
    exists s2, f2. split; [exact E|]. by rewrite <-app_assoc in Hs2.
Qed.

Lemma sdssplitargs_plain t r :
  plain t -> fits [] (Z.of_nat (length t)) ->
  exists s f, sdssplitargs (t ++ 0 :: r) = Ok (Some [Some s], 1) /\ sds_repr s t f.
Proof.
  intros [Hne Ht] Hf. destruct t as [|x t]; [done|]. unfold sdssplitargs.
  pose proof Ht as Hx. apply Forall_cons in Hx as [(Hb & Hs & Hx & _) _].
  cbn [args_loop app skip_blanks]. rewrite Hs, andb_false_r. cbn [mbind outcome_bind peek].
  replace (x =? 0) with false by lia.
  destruct (sdsempty_repr alloc_total) as (s0 & -> & Hs0). cbn [mbind outcome_bind].
  destruct (token_loop_plain (S (length (x :: t ++ 0 :: r))) (x :: t) r s0 [] 0)
    as (s1 & f1 & E & Hs1); [done..| |].
  { simpl. rewrite length_app. simpl. lia. }
  cbn [app] in E. rewrite E. cbn [mbind outcome_bind]. rewrite alloc_total.
  exists s1, f1. split; [|done]. by cbn [length].
Qed.

End PlainWords.

Lemma repr_cstr s t f : sds_repr s t f -> no_nul t -> cstr (sh_buf s) = t.
Proof. intros [_ _ (rest & -> & _) _] Ht. by apply cstr_app. Qed.

Lemma plain_no_nul t : plain t -> no_nul t.
Proof. intros [_ Ht]. eapply Forall_impl; [exact Ht|]. by intros x (? & ? & ? & ?). Qed.

(** The slot a command writes: its size and the value of the text. *)
Definition slot_value (h : handler) (t : bytes) : option (nat * Z) :=
  match h with
  | conf_set_num => Some (4%nat, atoi t)
  | conf_set_usec => Some (8%nat, fst (timetoll t))
  | conf_set_mem => Some (8%nat, fst (memtoll t))
  | conf_set_flag => if strcaseeq t (str "yes") then Some (1%nat, 1)
                     else if strcaseeq t (str "no") then Some (1%nat, 0) else None
  | conf_set_str => None
  end.

Lemma call_handler_value h t size v s f off c :
  slot_value h t = Some (size, v) -> sds_repr s t f -> no_nul t ->
  0 <= off -> off + Z.of_nat size <= Z.of_nat (length (conf_mem c)) ->
  exists c', call_handler (Some h) 1 (Some [Some s]) off c = Ok (CONFIG_OK, c') /\
    put_slot c off size v = Ok c'.
Proof.
  intros Hv Hs Hn H1 H2.
  assert (Ha : arg (Some [Some s]) 0 = Ok t) by (rewrite <-(repr_cstr s t f) by done; done).
  destruct (put_slot_ok c off size v H1 H2) as (m & E & _).
  exists (mkConf m (conf_strings c)). split; [|done].
  unfold call_handler, conf_set_flag_slot, conf_set_usec_slot, conf_set_num_slot, conf_set_mem_slot.
  change (1 <? 1) with false. rewrite Ha. cbn [mbind outcome_bind].
  destruct h; cbn [slot_value] in Hv; try discriminate Hv; try (injection Hv as <- <-; by rewrite E).
  destruct (strcaseeq t (str "yes")); [injection Hv as <- <-; by rewrite E|].
  destruct (strcaseeq t (str "no")); [injection Hv as <- <-; by rewrite E|done].
Qed.

Lemma find_command_spec table name :
  null_command ∈ table ->
  exists r, find_command table name = Ok r /\
    match r with
    | Some cmd => exists pre post, table = pre ++ cmd :: post /\ is_null_command cmd = false /\
        strcaseeq name (cmd_name cmd) = true /\
        Forall (fun c => is_null_command c = false /\ strcaseeq name (cmd_name c) = false) pre
    | None => exists pre cmd post, table = pre ++ cmd :: post /\ is_null_command cmd = true /\
        Forall (fun c => is_null_command c = false /\ strcaseeq name (cmd_name c) = false) pre
    end.
Proof.
  induction table as [|cp table IH]; intros Hin; [by apply elem_of_nil in Hin|].
  cbn [find_command]. destruct (is_null_command cp) eqn:En.
  { eexists. split; [done|]. exists [], cp, table. auto. }
  destruct (strcaseeq name (cmd_name cp)) eqn:Es.
  { eexists. split; [done|]. exists [], table. auto. }
  destruct IH as (r & -> & Hr).
  { apply elem_of_cons in Hin as [<-|]; done. }
  eexists. split; [done|]. destruct r as [cmd|].
  - destruct Hr as (pre & post & -> & ? & ? & ?). exists (cp :: pre), post.
    split_and!; [done..|by constructor].
  - destruct Hr as (pre & cmd & post & -> & ? & ?). exists (cp :: pre), cmd, post.
    split_and!; [done..|by constructor].
Qed.

(** ** Properties *)

(** C40: A configuration line whose key names a numeric, duration, size or flag
    command and whose value is one plain word stores the parsed value in the
    command's slot, changes no other member, and frees the argument strings. *)
Theorem parse_conf_sets_slot (A : Allocator) name t rest table cn h off size v c :
  (forall n, alloc_ok n = true) -> no_nul name ->
  find_command table name = Ok (Some (mkCmd cn (Some h) off)) ->
  plain t -> fits [] (Z.of_nat (length t)) -> slot_value h t = Some (size, v) ->
  0 <= off -> off + Z.of_nat size <= Z.of_nat (length (conf_mem c)) ->
  exists c' s f,
    parse_conf (mkNode (Some (name ++ [0])) (Some (t ++ 0 :: rest))) table c
      = Ok (CONFIG_OK, c', [Some s]) /\ sds_repr s t f /\
    get_slot c' off size = Ok (v mod 2 ^ (8 * Z.of_nat size)) /\
    forall off' size', off' + Z.of_nat size' <= off \/ off + Z.of_nat size <= off' ->
      get_slot c' off' size' = get_slot c off' size'.
Proof.
  intros Ha Hname Hfind Ht Hf Hv H1 H2. unfold parse_conf. cbn [node_key node_value].
  destruct (sdssplitargs_plain Ha t rest Ht Hf) as (s & f & -> & Hs). cbn [mbind outcome_bind].
  rewrite cstr_app, Hfind by done. cbn [mbind outcome_bind cmd_handler cmd_offset].
  destruct (call_handler_value h t size v s f off c) as (c' & -> & Hp); auto using plain_no_nul.
  exists c', s, f. split_and!; [done|done|by eapply get_put_same|].
  intros off' size' Hd. by eapply get_put_other.
Qed.

Lemma parse_conf_sets_slot_witness :
  let A := total_alloc in
  exists c' s f,
    parse_conf (mkNode (Some (str "Worker_Num" ++ [0])) (Some (str "16" ++ [0]))) server_cmd_table init_conf
      = Ok (CONFIG_OK, c', [Some s]) /\ sds_repr s (str "16") f /\
    get_slot c' 12 4 = Ok (16 mod 2 ^ (8 * Z.of_nat 4)) /\
    forall off' size', off' + Z.of_nat size' <= 12 \/ 12 + Z.of_nat 4 <= off' ->
      get_slot c' off' size' = get_slot init_conf off' size'.
Proof.
  intros A. apply (parse_conf_sets_slot A (str "Worker_Num") (str "16") [] server_cmd_table
    (str "worker_num") conf_set_num 12 4 16 init_conf); try done.
  - by repeat (constructor; [done|]).
  - split; [done|]. repeat (constructor; [by vm_compute|]). constructor.
Defined.

(** [find_command] returns the first command whose name is the key up to
    letter case, or nothing when no command before the end marker matches. *)
Theorem find_command_first table name :
  null_command ∈ table ->
  exists r, find_command table name = Ok r /\
    match r with
    | Some cmd => exists pre post, table = pre ++ cmd :: post /\ is_null_command cmd = false /\
        strcaseeq name (cmd_name cmd) = true /\
        Forall (fun c => is_null_command c = false /\ strcaseeq name (cmd_name c) = false) pre
    | None => exists pre cmd post, table = pre ++ cmd :: post /\ is_null_command cmd = true /\
        Forall (fun c => is_null_command c = false /\ strcaseeq name (cmd_name c) = false) pre
    end.
Proof. apply find_command_spec. Qed.

Lemma find_command_first_witness :
  exists r, find_command server_cmd_table (str "PORT") = Ok r /\
    match r with
    | Some cmd => exists pre post, server_cmd_table = pre ++ cmd :: post /\ is_null_command cmd = false /\
        strcaseeq (str "PORT") (cmd_name cmd) = true /\
        Forall (fun c => is_null_command c = false /\ strcaseeq (str "PORT") (cmd_name c) = false) pre
    | None => exists pre cmd post, server_cmd_table = pre ++ cmd :: post /\ is_null_command cmd = true /\
        Forall (fun c => is_null_command c = false /\ strcaseeq (str "PORT") (cmd_name c) = false) pre
    end.
Proof.
  apply (find_command_first server_cmd_table (str "PORT")).
  unfold server_cmd_table. do 9 apply list_elem_of_further. apply list_elem_of_here.
Defined.

(** A line with an unterminated quotation: a known command reports an
    error, but an unknown command runs into the cleanup loop with a count of
    -1 and no array, and crashes. *)
Theorem parse_conf_unbalanced (A : Allocator) name b rest table cmd c :
  (forall n, alloc_ok n = true) -> no_nul name ->
  Forall (fun x => x <> 0 /\ x <> 34 /\ x <> 92) b -> fits [] (Z.of_nat (length b)) ->
  find_command table name = Ok cmd ->
  (forall x, cmd = Some x -> cmd_handler x <> None) ->
  parse_conf (mkNode (Some (name ++ [0])) (Some (34 :: b ++ 0 :: rest))) table c
    = match cmd with Some _ => Ok (CONFIG_ERROR, c, []) | None => Trap NullDeref end.
Proof.
  intros Ha Hname Hb Hf Hfind Hh. unfold parse_conf. cbn [node_key node_value].
  rewrite sdssplitargs_open by done. cbn [mbind outcome_bind].
  rewrite cstr_app, Hfind by done. cbn [mbind outcome_bind].
  destruct cmd as [[n [h|] off]|]; [|by destruct (Hh _ eq_refl)|done].
  by destruct h.
Qed.

Lemma parse_conf_unbalanced_witness :
  let A := total_alloc in
  parse_conf (mkNode (Some (str "unknown" ++ [0])) (Some [34; 0])) server_cmd_table init_conf
    = Trap NullDeref.
Proof.
  intros A. apply (parse_conf_unbalanced A (str "unknown") [] [] server_cmd_table None init_conf); try done.
  by repeat (constructor; [done|]).
Defined.

(** The object built by the constructor reads back as its initialisers. *)
Example init_conf_defaults : read_options init_conf = Ok default_options.
Proof. vm_compute. reflexivity. Qed.
