(* ===== verification/Worker.v ===== *)
(** * Workers and connections (src/server/worker.cpp, connection.cpp,
      tcp_connection.cpp, udp_connection.cpp)

    A worker owns an event loop, a vector of connections indexed by descriptor,
    a queue of sockets handed over by the dispatcher and the pipe that announces
    them.  Connection objects live in a heap ([w_heap]); the pointers in the
    vector are addresses in it, so that touching a deleted connection traps.
    [process_io_buffer], which a user's subclass provides, is a parameter. *)

From S2P Require Import Prelude Queue Sds Event Socket Config.

Definition WORKER_OK : Z := 0.
Definition WORKER_ERROR : Z := -1.
Definition WORKER_CONNECTION_REMOVED : Z := -2.
Definition QUIT : Z := 0.
Definition NEW_CONNECTION : Z := 1.
Definition INITIAL_FD_NUM : Z := 1024.

Abbreviation cptr := nat.

(** [Connection] and its TCP part; a reply is the buffer its slice denotes. *)
Record Connection := mkConn {
  c_kind : socket_kind;
  c_s : sptr;
  c_last_interaction : Z;
  c_watcher : nat;
  c_timer : nat;
  c_io_buffer : sds;
  c_reply_list_size : Z;
  c_reply_list : list bytes;
  c_receive_state : Z;
  c_bytes_expected : Z;
  c_bytes_processed : Z;
  c_bytes_written : Z }.

Definition set_last (c : Connection) (t : Z) : Connection :=
  mkConn (c_kind c) (c_s c) t (c_watcher c) (c_timer c) (c_io_buffer c) (c_reply_list_size c)
    (c_reply_list c) (c_receive_state c) (c_bytes_expected c) (c_bytes_processed c) (c_bytes_written c).
Definition set_watchers (c : Connection) (w t : nat) : Connection :=
  mkConn (c_kind c) (c_s c) (c_last_interaction c) w t (c_io_buffer c) (c_reply_list_size c)
    (c_reply_list c) (c_receive_state c) (c_bytes_expected c) (c_bytes_processed c) (c_bytes_written c).
Definition set_buffer (c : Connection) (b : sds) : Connection :=
  mkConn (c_kind c) (c_s c) (c_last_interaction c) (c_watcher c) (c_timer c) b (c_reply_list_size c)
    (c_reply_list c) (c_receive_state c) (c_bytes_expected c) (c_bytes_processed c) (c_bytes_written c).
Definition set_replies (c : Connection) (n : Z) (l : list bytes) (written : Z) : Connection :=
  mkConn (c_kind c) (c_s c) (c_last_interaction c) (c_watcher c) (c_timer c) (c_io_buffer c) n
    l (c_receive_state c) (c_bytes_expected c) (c_bytes_processed c) written.
Definition set_frame (c : Connection) (state expected processed : Z) : Connection :=
  mkConn (c_kind c) (c_s c) (c_last_interaction c) (c_watcher c) (c_timer c) (c_io_buffer c)
    (c_reply_list_size c) (c_reply_list c) state expected processed (c_bytes_written c).

(** ** TCPConnection *)

Definition reset (c : Connection) (initial_state initial_bytes_expected : Z) : Connection :=
  set_frame c initial_state initial_bytes_expected 0.

Definition expect_next (c : Connection) (next_state next_bytes_expected : Z) : Connection :=
  set_frame c next_state next_bytes_expected (u64 (c_bytes_processed c + c_bytes_expected c)).

Definition shrink_processed (c : Connection) (next_state next_bytes_expected : Z) : outcome Connection :=
  let processed := u64 (c_bytes_processed c + c_bytes_expected c) in
  b ← sdsrange (c_io_buffer c) (s32 processed) (-1);
  Ok (set_frame (set_buffer c b) next_state next_bytes_expected 0).

(** ** GenericWorker *)

Record worker (K Q : Type) := mkWorker {
  w_opts : GenericServerOptions;
  w_el : EventLoop;
  w_conns : list (option cptr);
  w_heap : gmap nat Connection;
  w_next : cptr;
  w_nm : NetworkManager;
  w_kernel : K;
  w_mq : Q;
  w_pipe : list Z;             (** messages in the notification pipe *)
  w_freed : list bytes;        (** reply buffers passed to [zfree], in order *)
  w_cron_timer : nat;
  w_pipe_watcher : nat;
  w_notify_fds : Z * Z }.      (** [_notify_recv_fd], [_notify_send_fd] *)
Arguments mkWorker {K Q}.
Arguments w_opts {K Q}.
Arguments w_el {K Q}.
Arguments w_conns {K Q}.
Arguments w_heap {K Q}.
Arguments w_next {K Q}.
Arguments w_nm {K Q}.
Arguments w_kernel {K Q}.
Arguments w_mq {K Q}.
Arguments w_pipe {K Q}.
Arguments w_freed {K Q}.
Arguments w_cron_timer {K Q}.
Arguments w_pipe_watcher {K Q}.
Arguments w_notify_fds {K Q}.

Section Worker.
Context {K Q : Type} `{Kernel K} `{Fifo Q sptr} `{Allocator}.
Implicit Type w : worker K Q.

Definition upd_el w el := mkWorker (w_opts w) el (w_conns w) (w_heap w) (w_next w) (w_nm w)
  (w_kernel w) (w_mq w) (w_pipe w) (w_freed w) (w_cron_timer w) (w_pipe_watcher w) (w_notify_fds w).
Definition upd_conns w v := mkWorker (w_opts w) (w_el w) v (w_heap w) (w_next w) (w_nm w)
  (w_kernel w) (w_mq w) (w_pipe w) (w_freed w) (w_cron_timer w) (w_pipe_watcher w) (w_notify_fds w).
Definition upd_heap w h := mkWorker (w_opts w) (w_el w) (w_conns w) h (w_next w) (w_nm w)
  (w_kernel w) (w_mq w) (w_pipe w) (w_freed w) (w_cron_timer w) (w_pipe_watcher w) (w_notify_fds w).
Definition upd_nm w nm := mkWorker (w_opts w) (w_el w) (w_conns w) (w_heap w) (w_next w) nm
  (w_kernel w) (w_mq w) (w_pipe w) (w_freed w) (w_cron_timer w) (w_pipe_watcher w) (w_notify_fds w).
Definition upd_kernel w (k : K) : worker K Q := mkWorker (w_opts w) (w_el w) (w_conns w) (w_heap w) (w_next w) (w_nm w)
  k (w_mq w) (w_pipe w) (w_freed w) (w_cron_timer w) (w_pipe_watcher w) (w_notify_fds w).
Definition upd_mq w (q : Q) p : worker K Q := mkWorker (w_opts w) (w_el w) (w_conns w) (w_heap w) (w_next w) (w_nm w)
  (w_kernel w) q p (w_freed w) (w_cron_timer w) (w_pipe_watcher w) (w_notify_fds w).
Definition upd_freed w l := mkWorker (w_opts w) (w_el w) (w_conns w) (w_heap w) (w_next w) (w_nm w)
  (w_kernel w) (w_mq w) (w_pipe w) l (w_cron_timer w) (w_pipe_watcher w) (w_notify_fds w).

(** A connection object, and a store to it. *)
Definition conn w (cp : cptr) : outcome Connection := the (w_heap w !! cp).
Definition put_conn w (cp : cptr) (c : Connection) : worker K Q :=
  upd_heap w (<[cp := c]> (w_heap w)).

(** [c->_s], and [c->fd()]. *)
Definition conn_socket w (c : Connection) : outcome Socket := the (nm_heap (w_nm w) !! c_s c).
Definition conn_fd w (c : Connection) : outcome Z := s ← conn_socket w c; Ok (s_fd s).

Definition enable_events w (c : Connection) (events : Z) : outcome (worker K Q) :=
  fd ← conn_fd w c;
  el ← start_io_event (w_el w) (c_watcher c) fd events; Ok (upd_el w el).

Definition disable_events w (c : Connection) (events : Z) : outcome (worker K Q) :=
  fd ← conn_fd w c;
  el ← stop_io_event (w_el w) (c_watcher c) fd events; Ok (upd_el w el).

Definition start_conn_timer w (c : Connection) : outcome (worker K Q) :=
  el ← start_timer (w_el w) (c_timer c) (opt_tick (w_opts w)); Ok (upd_el w el).

(** [delete c]: the TCP destructor frees the pending replies, the UDP one does
    not; the base destructor frees the buffer and deletes the socket. *)
Definition delete_connection w (cp : cptr) : outcome (worker K Q) :=
  c ← conn w cp;
  let w := match c_kind c with
           | TCPSocket => upd_freed w (w_freed w ++ c_reply_list c)
           | UDPSocket => w
           end in
  _ ← conn_socket w c;
  let nm := w_nm w in
  let w := upd_nm w (mkNM (nm_sockets nm) (nm_listen_fd nm) (delete (c_s c) (nm_heap nm)) (nm_next nm)) in
  Ok (upd_heap w (delete cp (w_heap w))).

Definition remove_conn w (cp : cptr) : outcome (worker K Q) :=
  c ← conn w cp;
  let w := put_conn w cp (set_last c (now (w_el w))) in
  el ← delete_io_event (w_el w) (c_watcher c);
  el ← delete_timer el (c_timer c);
  let w := upd_el w el in
  fd ← conn_fd w c;
  v ← set_slot (w_conns w) fd None;
  delete_connection (upd_conns w v) cp.

Definition close_conn w (cp : cptr) : outcome (worker K Q) :=
  c ← conn w cp;
  fd ← conn_fd w c;
  w ← remove_conn w cp;
  Ok (upd_kernel w (sys_close (w_kernel w) fd)).

(** The loop of [close_all_conns] and of [stop]: a copy of the slots is not
    taken, but [close_conn] only clears the slot it is given. *)
Fixpoint close_slots w (i n : nat) : outcome (worker K Q) :=
  match n with
  | O => Ok w
  | S n =>
      p ← Socket.get_slot (w_conns w) (Z.of_nat i);
      match p with
      | Some cp => w ← close_conn w cp; close_slots w (S i) n
      | None => close_slots w (S i) n
      end
  end.

Definition close_all_conns w : outcome (worker K Q) := close_slots w 0 (length (w_conns w)).

(** The new connection: the base and the derived constructors. *)
Definition new_connection (kind : socket_kind) (s : sptr) : outcome Connection :=
  b ← sdsempty;
  match b with
  | None => Trap NullDeref
  | Some b => Ok (mkConn kind s 0 0 0 b 0 [] 0 1 0 0)
  end.

Definition create_connection w (s : option sptr) : outcome (option cptr * worker K Q) :=
  match s with
  | None => Ok (None, w)
  | Some s =>
      sock ← the (nm_heap (w_nm w) !! s);
      let fd := s_fd sock in
      if fd =? ZF_INVALID_SOCKET then Ok (None, w) else
      c ← new_connection (s_kind sock) s;
      let cp := w_next w in
      let '(io, el) := create_io_event (w_el w) ConnIo cp in
      let '(tm, el) := create_timer el TimeoutCb cp true in
      let c := set_watchers (set_last c (now (w_el w))) io tm in
      let w := mkWorker (w_opts w) el (w_conns w) (<[cp := c]> (w_heap w)) (S cp) (w_nm w)
                 (w_kernel w) (w_mq w) (w_pipe w) (w_freed w) (w_cron_timer w) (w_pipe_watcher w) (w_notify_fds w) in
      w ← enable_events w c (if negb (opt_ssl_open (w_opts w) =? 0) then Z.lor READ WRITE else READ);
      w ← start_conn_timer w c;
      v ← put_at_fd (w_conns w) fd cp;
      Ok (Some cp, upd_conns w v)
  end.

(** The message queue and the notification pipe, of which a full one refuses. *)
Definition mq_push w (s : sptr) : outcome (worker K Q) :=
  q ← fifo_produce s (w_mq w); Ok (upd_mq w q (w_pipe w)).

Definition mq_pop w : outcome (option sptr * worker K Q) :=
  r ← fifo_consume (w_mq w); let '(s, q) := r in Ok (s, upd_mq w q (w_pipe w)).

Definition notify w (pipe_room : bool) (msg : Z) : Z * worker K Q :=
  if pipe_room then (WORKER_OK, upd_mq w (w_mq w) (w_pipe w ++ [msg])) else (WORKER_ERROR, w).

Definition process_timeout w (cp : cptr) : outcome (worker K Q) :=
  c ← conn w cp;
  if u64 (now (w_el w) - c_last_interaction c) >? opt_connection_timeout (w_opts w)
  then close_conn w cp else Ok w.

Definition get_clients_count w : Z := s32 (Z.of_nat (length (w_conns w))).

Definition reply_list_size w (cp : cptr) : outcome Z := c ← conn w cp; Ok (c_reply_list_size c).

(** Takes over the buffer [reply] and returns the length of the list. *)
Definition add_reply w (cp : cptr) (reply : bytes) : outcome (Z * worker K Q) :=
  c ← conn w cp;
  let c := set_replies c (s32 (c_reply_list_size c + 1)) (c_reply_list c ++ [reply]) (c_bytes_written c) in
  w ← enable_events (put_conn w cp c) c WRITE;
  Ok (c_reply_list_size c, w).

(** The loop of [tcp_write_io]: whether it falls through, as opposed to an early
    return.  [Connection::write] has no return statement: its value is taken to
    be that of the socket's write, which it calls last. *)
Fixpoint tcp_write_loop (fuel : nat) w (cp : cptr) : outcome (bool * worker K Q) :=
  match fuel with
  | O => Trap OutOfFuel
  | S fuel =>
      c ← conn w cp;
      match c_reply_list c with
      | [] => Ok (true, w)
      | reply :: rest =>
          s ← conn_socket w c;
          d ← read_block reply (c_bytes_written c) (Z.of_nat (length reply) - c_bytes_written c);
          let '(r, k) := write (w_kernel w) s d in
          let w := upd_kernel w k in
          if r =? SOCKET_ERR then (w ← close_conn w cp; Ok (false, w))
          else if r =? 0 then Ok (false, w)
          else if u64 (r + c_bytes_written c) =? Z.of_nat (length reply) then
            let c := set_replies c (s32 (c_reply_list_size c - 1)) rest 0 in
            tcp_write_loop fuel (upd_freed (put_conn w cp c) (w_freed w ++ [reply])) cp
          else
            let c := set_replies c (c_reply_list_size c) (c_reply_list c) (u64 (c_bytes_written c + r)) in
            tcp_write_loop fuel (put_conn w cp c) cp
      end
  end.

(** Every turn that does not return writes at least one byte. *)
Definition write_fuel (c : Connection) : nat := S (S (sum_list_with length (c_reply_list c))).

Definition tcp_write_io w (cp : cptr) : outcome (worker K Q) :=
  c ← conn w cp;
  r ← tcp_write_loop (write_fuel c) w cp;
  let '(through, w) := r in
  if negb through then Ok w else
  c ← conn w cp;
  let c := set_last c (now (w_el w)) in
  let w := put_conn w cp c in
  match c_reply_list c with
  | [] => disable_events w c WRITE
  | _ => Ok w
  end.

(** [udp_write_io] has no exit for a write that does not take everything. *)
Fixpoint udp_write_loop (fuel : nat) w (cp : cptr) : outcome (worker K Q) :=
  match fuel with
  | O => Trap OutOfFuel
  | S fuel =>
      c ← conn w cp;
      match c_reply_list c with
      | [] => Ok w
      | reply :: rest =>
          s ← conn_socket w c;
          let '(r, k) := write (w_kernel w) s reply in
          let w := upd_kernel w k in
          if u64 r =? Z.of_nat (length reply) then
            let c := set_replies c (s32 (c_reply_list_size c - 1)) rest (c_bytes_written c) in
            udp_write_loop fuel (upd_freed (put_conn w cp c) (w_freed w ++ [reply])) cp
          else udp_write_loop fuel w cp
      end
  end.

Definition udp_write_io (fuel : nat) w (cp : cptr) : outcome (worker K Q) :=
  w ← udp_write_loop fuel w cp;
  c ← conn w cp;
  let c := set_last c (now (w_el w)) in
  let w := put_conn w cp c in
  match c_reply_list c with
  | [] => disable_events w c WRITE
  | _ => Ok w
  end.

(** A pointer that must not be null. *)
Definition non_null {A} (m : outcome (option A)) : outcome A :=
  a ← m; match a with Some a => Ok a | None => Trap NullDeref end.

(** [c->read(buf + at, len)]: the bytes received are stored in the buffer.
    [Connection::read] has no return statement: its value is taken to be that of
    the socket's read, which it calls last. *)
Definition conn_read w (c : Connection) (at_ len : Z) : outcome (Z * Connection * worker K Q) :=
  s ← conn_socket w c;
  let '(r, d, k) := read (w_kernel w) s len in
  let b := c_io_buffer c in
  m ← memcpy (sh_buf b) at_ d;
  Ok (r, set_buffer c (mkSds (sh_len b) (sh_free b) m), upd_kernel w k).

Section Process.
(** The user's handler: the return code and the new state. *)
Variable process_io_buffer : worker K Q -> cptr -> outcome (Z * worker K Q).

Definition tcp_read_io w (cp : cptr) : outcome (worker K Q) :=
  c ← conn w cp;
  let rlen := s32 (c_bytes_expected c) in
  let iblen := sdslen (c_io_buffer c) in
  b ← non_null (sdsMakeRoomFor (c_io_buffer c) (u64 rlen));
  r ← conn_read w (set_buffer c b) iblen (u64 rlen);
  let '(r, c, w) := r in
  let w := put_conn w cp c in
  if r =? SOCKET_ERR then close_conn w cp
  else if r =? SOCKET_PEER_CLOSED then close_conn w cp
  else
    b ← (if r >? 0 then sdsIncrLen (c_io_buffer c) r else Ok (c_io_buffer c));
    let c := set_last (set_buffer c b) (now (w_el w)) in
    let w := put_conn w cp c in
    if u64 (sdslen (c_io_buffer c) - c_bytes_processed c) >=? c_bytes_expected c then
      p ← process_io_buffer w cp;
      let '(code, w) := p in
      if negb (code =? WORKER_OK) then close_conn w cp else Ok w
    else Ok w.

Definition udp_read_io w (cp : cptr) : outcome (worker K Q) :=
  c ← conn w cp;
  b ← non_null (sdsMakeRoomFor (c_io_buffer c) 1024);
  r ← conn_read w (set_buffer c b) 0 1024;
  let '(r, c, w) := r in
  b ← (if r >? 0 then sdsIncrLen (c_io_buffer c) r else Ok (c_io_buffer c));
  let c := set_last (set_buffer c b) (now (w_el w)) in
  p ← process_io_buffer (put_conn w cp c) cp;
  Ok (snd p).

Definition read_io w (fd : Z) : outcome (worker K Q) :=
  if fd =? ZF_INVALID_SOCKET then Ok w else
  if Z.of_nat (length (w_conns w)) <=? u64 fd then Ok w else
  p ← Socket.get_slot (w_conns w) fd;
  match p with
  | None => Ok w
  | Some cp =>
      c ← conn w cp;
      match c_kind c with TCPSocket => tcp_read_io w cp | UDPSocket => udp_read_io w cp end
  end.

Definition write_io (fuel : nat) w (fd : Z) : outcome (worker K Q) :=
  if fd =? ZF_INVALID_SOCKET then Ok w else
  if Z.of_nat (length (w_conns w)) <=? u64 fd then Ok w else
  s ← Socket.get_slot (nm_sockets (w_nm w)) fd;
  match s with
  | None => Ok w
  | Some _ =>
      p ← Socket.get_slot (w_conns w) fd;
      match p with
      | None => Ok w
      | Some cp =>
          c ← conn w cp;
          match c_kind c with TCPSocket => tcp_write_io w cp | UDPSocket => udp_write_io fuel w cp end
      end
  end.

Definition conn_io_cb (fuel : nat) w (fd revents : Z) : outcome (worker K Q) :=
  w ← (if negb (Z.land revents READ =? 0) then read_io w fd else Ok w);
  if negb (Z.land revents WRITE =? 0) then write_io fuel w fd else Ok w.

Definition stop w : outcome (worker K Q) :=
  el ← delete_timer (w_el w) (w_cron_timer w);
  el ← delete_io_event el (w_pipe_watcher w);
  let k := sys_close (sys_close (w_kernel w) (fst (w_notify_fds w))) (snd (w_notify_fds w)) in
  close_all_conns (upd_kernel (upd_el w (Event.stop el)) k).

(** [process_notify] of the base class only logs. *)
Definition process_internal_notify w (msg : Z) : outcome (worker K Q) :=
  if msg =? QUIT then stop w
  else if msg =? NEW_CONNECTION then
    r ← mq_pop w;
    let '(s, w) := r in
    match s with
    | Some s => r ← create_connection w (Some s); Ok (snd r)
    | None => Ok w
    end
  else Ok w.

(** A message read from the pipe; an empty pipe only logs. *)
Definition recv_notify w : outcome (worker K Q) :=
  match w_pipe w with
  | [] => Ok w
  | msg :: rest => process_internal_notify (upd_mq w (w_mq w) rest) msg
  end.

End Process.

(** The constructor and [initialize]. *)
Definition new_worker (o : GenericServerOptions) (now : Z) (nm : NetworkManager) (k : K) (q : Q) :
    worker K Q :=
  mkWorker o (new_loop now 0) (resize [] INITIAL_FD_NUM) ∅ 0 nm k q [] [] 0 0 (-1, -1).

Definition initialize w : outcome (Z * worker K Q) :=
  match sys_pipe (w_kernel w) with
  | (SysErr _, k) => Ok (WORKER_ERROR, upd_kernel w k)
  | (SysOk (rfd, wfd), k) =>
      let '(io, el) := create_io_event (w_el w) RecvNotify 0 in
      el ← start_io_event el io rfd READ;
      let '(tm, el) := create_timer el CronCb 0 true in
      el ← start_timer el tm (opt_tick (w_opts w));
      Ok (WORKER_OK, mkWorker (w_opts w) el (w_conns w) (w_heap w) (w_next w) (w_nm w) k (w_mq w)
                       (w_pipe w) (w_freed w) tm io (rfd, wfd))
  end.

End Worker.
