(* ===== verification/WorkerFacts.v ===== *)
(** * Invariant of the worker

    The pointers between the connection vector, the connection heap, the event
    loop and the socket table stay consistent: every operation of a worker with
    TCP connections runs without trapping and keeps [worker_ok].  The section
    is parameterised by what the user's protocol keeps true of a connection
    ([P], a predicate on the bytes received, the bytes sent and the object). *)

From S2P Require Import Prelude Queue Sds Event Socket Config Worker.

(** ** Traffic

    The bytes read from and written to the connection that uses a descriptor. *)
Class Traffic (K : Type) `{Kernel K} := {
  rcvd : K -> Z -> bytes;
  sent : K -> Z -> bytes;
  traffic_read : forall k fd len r k', sys_read k fd len = (r, k') ->
    rcvd k' fd = rcvd k fd ++ match r with SysOk d => d | SysErr _ => [] end /\
    sent k' fd = sent k fd /\
    forall fd', fd' <> fd -> rcvd k' fd' = rcvd k fd' /\ sent k' fd' = sent k fd';
  traffic_write : forall k fd d r k', sys_write k fd d = (r, k') ->
    sent k' fd = sent k fd ++ match r with SysOk n => take (Z.to_nat n) d | SysErr _ => [] end /\
    rcvd k' fd = rcvd k fd /\
    forall fd', fd' <> fd -> rcvd k' fd' = rcvd k fd' /\ sent k' fd' = sent k fd';
  traffic_close : forall k fd fd', fd' <> fd ->
    rcvd (sys_close k fd) fd' = rcvd k fd' /\ sent (sys_close k fd) fd' = sent k fd';
  traffic_setsockopt : forall k fd l o v r k', sys_setsockopt k fd l o v = (r, k') ->
    rcvd k' = rcvd k /\ sent k' = sent k;
  traffic_getfl : forall k fd r k', sys_getfl k fd = (r, k') -> rcvd k' = rcvd k /\ sent k' = sent k;
  traffic_setfl : forall k fd v r k', sys_setfl k fd v = (r, k') -> rcvd k' = rcvd k /\ sent k' = sent k }.

(** The replies not yet written: the first one lacks [_bytes_written] bytes. *)
Definition pending (c : Connection) : bytes :=
  drop (Z.to_nat (c_bytes_written c)) (mjoin (c_reply_list c)).

Definition reply_ok (r : bytes) : Prop := r <> [] /\ Z.of_nat (length r) <= INT_MAX.

Definition written_ok (c : Connection) : Prop :=
  match c_reply_list c with
  | [] => c_bytes_written c = 0
  | r :: _ => 0 <= c_bytes_written c < Z.of_nat (length r)
  end.

Section WorkerFacts.
Context {K Q : Type} `{KernelLaws K} `{!Traffic K} `{Fifo Q sptr} `{Allocator}.
Hypothesis alloc_total : forall n, alloc_ok n = true.
(** The protocol's invariant of a connection, which does not depend on the
    time of the last interaction. *)
Variable P : bytes -> bytes -> Connection -> Prop.
Hypothesis P_last : forall r s c t, P r s c -> P r s (set_last c t).
Implicit Types (w : worker K Q) (c : Connection).

Record conn_ok w (fd : Z) (cp : cptr) c : Prop := mkConnOk {
  ck_kind : c_kind c = TCPSocket;
  ck_sock : exists s, nm_heap (w_nm w) !! c_s c = Some s /\ s_fd s = fd;
  ck_io : exists x, el_ios (w_el w) !! c_watcher c = Some x /\ iow_data x = cp /\
    iow_cb x = ConnIo /\ io_active (iow_io x) = true /\ io_fd (iow_io x) = fd /\
    Z.testbit (io_events (iow_io x)) 0 = true;
  ck_timer : exists y, el_timers (w_el w) !! c_timer c = Some y /\ tw_data y = cp /\ tw_cb y = TimeoutCb;
  ck_size : c_reply_list_size c = s32 (Z.of_nat (length (c_reply_list c)));
  ck_replies : Forall reply_ok (c_reply_list c);
  ck_written : written_ok c;
  ck_inv : P (rcvd (w_kernel w) fd) (sent (w_kernel w) fd) c }.

Record worker_ok w : Prop := mkWorkerOk {
  wk_loop : loop_ok (w_el w);
  wk_slots : forall fd cp, slot (w_conns w) fd = Some cp ->
    exists c, w_heap w !! cp = Some c /\ conn_ok w fd cp c;
  wk_heap : forall cp c, w_heap w !! cp = Some c ->
    (cp < w_next w)%nat /\ exists fd, slot (w_conns w) fd = Some cp }.

(** [w'] is [w] with only connection [cp] on [fd] changed, to [c']. *)
Record touched w w' (fd : Z) (cp : cptr) c c' : Prop := mkTouched {
  to_conns : w_conns w' = w_conns w;
  to_heap : w_heap w' = <[cp := c']> (w_heap w);
  to_next : w_next w' = w_next w;
  to_nm : w_nm w' = w_nm w;
  to_loop : loop_ok (w_el w');
  to_el : same_but (c_watcher c) (w_el w) (w_el w');
  to_traffic : forall fd', fd' <> fd -> rcvd (w_kernel w') fd' = rcvd (w_kernel w) fd' /\
    sent (w_kernel w') fd' = sent (w_kernel w) fd' }.

(** Distinct connections have distinct watchers. *)
Lemma watcher_inj w fd1 cp1 c1 fd2 cp2 c2 :
  conn_ok w fd1 cp1 c1 -> conn_ok w fd2 cp2 c2 -> c_watcher c1 = c_watcher c2 -> cp1 = cp2.
Proof.
  intros [_ _ (x & Hx & Hd & _) _ _ _ _ _] [_ _ (y & Hy & Hd' & _) _ _ _ _ _] E. congruence.
Qed.

Lemma timer_inj w fd1 cp1 c1 fd2 cp2 c2 :
  conn_ok w fd1 cp1 c1 -> conn_ok w fd2 cp2 c2 -> c_timer c1 = c_timer c2 -> cp1 = cp2.
Proof.
  intros [_ _ _ (x & Hx & Hd & _) _ _ _ _] [_ _ _ (y & Hy & Hd' & _) _ _ _ _] E. congruence.
Qed.

Lemma socket_inj w fd1 cp1 c1 fd2 cp2 c2 :
  conn_ok w fd1 cp1 c1 -> conn_ok w fd2 cp2 c2 -> c_s c1 = c_s c2 -> fd1 = fd2.
Proof.
  intros [_ (s & Hs & E1) _ _ _ _ _ _] [_ (s' & Hs' & E2) _ _ _ _ _ _] E. congruence.
Qed.

Lemma touched_ok w w' fd cp c c' :
  worker_ok w -> slot (w_conns w) fd = Some cp -> w_heap w !! cp = Some c ->
  touched w w' fd cp c c' -> conn_ok w' fd cp c' -> worker_ok w'.
Proof.
  intros [Hl Hs Hh] Hfd Hc [T1 T2 T3 T4 T5 T6 T7] Hc'. constructor; [done| |].
  - intros fd2 cp2 Hs2. rewrite T1 in Hs2. destruct (decide (cp2 = cp)) as [->|Hne].
    + exists c'. rewrite T2, lookup_insert_eq. split; [done|].
      destruct (Hs _ _ Hfd) as (c1 & Hc1 & Hok1). destruct (Hs _ _ Hs2) as (c2 & Hc2 & Hok2).
      assert (fd2 = fd) as ->; [|done]. eapply socket_inj; [done|done|congruence].
    + destruct (Hs _ _ Hs2) as (c2 & Hc2 & Hok2). exists c2.
      rewrite T2, lookup_insert_ne by done. split; [done|].
      destruct (Hs _ _ Hfd) as (c1 & Hc1 & Hok1). assert (c1 = c) as -> by congruence.
      assert (Hfd2 : fd2 <> fd) by (intros ->; congruence).
      assert (Hw : c_watcher c2 <> c_watcher c) by (intros E; by apply Hne, (watcher_inj w fd2 _ c2 fd _ c)).
      destruct T6 as (Tio & Ttm & _). destruct (T7 fd2 Hfd2) as [Tr Ts].
      destruct Hok2. constructor; rewrite ?T4, ?Ttm, ?Tr, ?Ts, ?(Tio _ Hw); done.
  - intros cp2 c2 Hc2. rewrite T1, T3. rewrite T2 in Hc2.
    apply lookup_insert_Some in Hc2 as [[<- _]|[_ Hc2]]; eauto.
Qed.

(** A slot and its connection. *)
Lemma worker_conn w fd cp :
  worker_ok w -> slot (w_conns w) fd = Some cp ->
  exists c, w_heap w !! cp = Some c /\ conn_ok w fd cp c /\ conn w cp = Ok c /\
    conn_fd w c = Ok fd /\ exists s, conn_socket w c = Ok s /\ s_fd s = fd.
Proof.
  intros Hw Hs. destruct (wk_slots _ Hw _ _ Hs) as (c & Hc & Hok). exists c.
  destruct (ck_sock _ _ _ _ Hok) as (s & Hs' & E).
  assert (Hsock : conn_socket w c = Ok s) by (unfold conn_socket; by rewrite Hs').
  split_and!; [done|done| | |].
  - unfold conn. by rewrite Hc.
  - unfold conn_fd. rewrite Hsock. simpl. by rewrite E.
  - eauto.
Qed.

(** ** Closing *)

(** What closing the connection on [fd] leaves. *)
Record closed w w' (fd : Z) (cp : cptr) c : Prop := mkClosed {
  cl_slot : slot (w_conns w') fd = None;
  cl_others : forall fd', fd' <> fd -> slot (w_conns w') fd' = slot (w_conns w) fd';
  cl_length : length (w_conns w') = length (w_conns w);
  cl_heap : w_heap w' = delete cp (w_heap w);
  cl_next : w_next w' = w_next w;
  cl_nm : w_nm w' = mkNM (nm_sockets (w_nm w)) (nm_listen_fd (w_nm w))
    (delete (c_s c) (nm_heap (w_nm w))) (nm_next (w_nm w));
  cl_kernel : w_kernel w' = sys_close (w_kernel w) fd;
  cl_freed : w_freed w' = w_freed w ++ c_reply_list c;
  cl_io : el_ios (w_el w') !! c_watcher c = None;
  cl_ios : forall i, i <> c_watcher c -> el_ios (w_el w') !! i = el_ios (w_el w) !! i;
  cl_timers : el_timers (w_el w') = delete (c_timer c) (el_timers (w_el w));
  cl_mq : w_mq w' = w_mq w /\ w_pipe w' = w_pipe w }.

Lemma delete_connection_eq w cp c s :
  w_heap w !! cp = Some c -> c_kind c = TCPSocket -> nm_heap (w_nm w) !! c_s c = Some s ->
  delete_connection w cp = Ok (upd_heap (upd_nm (upd_freed w (w_freed w ++ c_reply_list c))
    (mkNM (nm_sockets (w_nm w)) (nm_listen_fd (w_nm w)) (delete (c_s c) (nm_heap (w_nm w)))
       (nm_next (w_nm w)))) (delete cp (w_heap w))).
Proof.
  intros Hc Hk Hs. unfold delete_connection, conn. rewrite Hc. cbn [the mbind outcome_bind].
  rewrite Hk. unfold conn_socket. cbn [upd_freed w_nm]. by rewrite Hs.
Qed.

Lemma close_conn_effect w fd cp :
  worker_ok w -> slot (w_conns w) fd = Some cp ->
  exists c w', w_heap w !! cp = Some c /\ close_conn w cp = Ok w' /\ closed w w' fd cp c /\
    loop_ok (w_el w').
Proof.
  intros Hw Hs. destruct (worker_conn w fd cp Hw Hs) as (c & Hc & Hok & Ec & Efd & s & Es & Hsfd).
  destruct Hok as [Hk (s0 & Hs0 & _) (x & Hx & _) (y & Hy & _) _ _ _ _]. exists c.
  unfold close_conn. rewrite Ec. cbn [mbind outcome_bind]. rewrite Efd. cbn [mbind outcome_bind].
  unfold remove_conn. rewrite Ec. cbn [mbind outcome_bind put_conn upd_heap w_el].
  destruct (delete_io_event_ok _ _ _ (wk_loop _ Hw) Hx) as (el1 & -> & Hl1 & (Hio & Htm & Hn1 & Hn2 & Hn3) & Hnone).
  cbn [mbind outcome_bind]. rewrite <-Htm in Hy.
  destruct (delete_timer_ok _ _ _ Hl1 Hy) as (el2 & -> & Hl2 & (Hios & _) & Htms).
  cbn [mbind outcome_bind]. unfold conn_fd, conn_socket in *. cbn [upd_el w_nm upd_heap put_conn].
  rewrite Hs0 in *. cbn [the mbind outcome_bind] in *. injection Efd as Efd'. rewrite Efd'.
  cbn [upd_el upd_heap put_conn w_conns].
  destruct (set_slot_ok (w_conns w) fd None (slot_Some_range _ _ _ Hs)) as (v & -> & Hv1 & Hv2 & Hv3).
  cbn [mbind outcome_bind].
  rewrite (delete_connection_eq _ cp (set_last c (now (w_el w))) s0);
    [|apply lookup_insert_eq|done|done]. cbn [mbind outcome_bind].
  eexists. split; [done|]. split; [done|]. split; [|done].
  constructor; cbn; try done.
  - by rewrite delete_insert_eq.
  - by rewrite Hios.
  - intros i Hi. by rewrite Hios, Hio.
  - by rewrite Htms, Htm.
Qed.

Lemma close_conn_ok w fd cp :
  worker_ok w -> slot (w_conns w) fd = Some cp ->
  exists c w', w_heap w !! cp = Some c /\ close_conn w cp = Ok w' /\ closed w w' fd cp c /\
    worker_ok w'.
Proof.
  intros Hw Hs. destruct (close_conn_effect w fd cp Hw Hs) as (c & w' & Hc & E & Hcl & Hl).
  exists c, w'. split_and!; [done..|].
  destruct (wk_slots _ Hw _ _ Hs) as (c1 & Hc1 & Hok1). assert (c1 = c) as -> by congruence.
  assert (Huniq : forall fd', slot (w_conns w) fd' = Some cp -> fd' = fd).
  { intros fd' Hs'. destruct (wk_slots _ Hw _ _ Hs') as (c2 & Hc2 & Hok2).
    eapply socket_inj; [exact Hok2|exact Hok1|congruence]. }
  constructor; [done| |].
  - intros fd2 cp2 Hs2. destruct (decide (fd2 = fd)) as [->|Hfd].
    { by rewrite (cl_slot _ _ _ _ _ Hcl) in Hs2. }
    rewrite (cl_others _ _ _ _ _ Hcl) in Hs2 by done.
    assert (Hcp : cp2 <> cp) by (intros ->; by apply Hfd, Huniq).
    destruct (wk_slots _ Hw _ _ Hs2) as (c2 & Hc2 & Hok2). exists c2.
    rewrite (cl_heap _ _ _ _ _ Hcl), lookup_delete_ne by done. split; [done|].
    assert (Hsk : c_s c2 <> c_s c) by (intros E'; by apply Hfd, (socket_inj w _ cp2 c2 _ cp c)).
    assert (Hwt : c_watcher c2 <> c_watcher c) by (intros E'; by apply Hcp, (watcher_inj w fd2 _ c2 fd _ c)).
    assert (Htm : c_timer c2 <> c_timer c) by (intros E'; by apply Hcp, (timer_inj w fd2 _ c2 fd _ c)).
    destruct (traffic_close (w_kernel w) fd fd2 Hfd) as [Tr Ts].
    destruct Hok2. constructor; rewrite ?(cl_nm _ _ _ _ _ Hcl), ?(cl_ios _ _ _ _ _ Hcl _ Hwt),
      ?(cl_timers _ _ _ _ _ Hcl), ?(cl_kernel _ _ _ _ _ Hcl), ?Tr, ?Ts; cbn [nm_heap];
      rewrite ?lookup_delete_ne by done; done.
  - intros cp2 c2 Hc2. rewrite (cl_heap _ _ _ _ _ Hcl) in Hc2.
    apply lookup_delete_Some in Hc2 as [Hne Hc2].
    destruct (wk_heap _ Hw _ _ Hc2) as (Hlt & fd2 & Hs2). rewrite (cl_next _ _ _ _ _ Hcl).
    split; [done|]. exists fd2. rewrite (cl_others _ _ _ _ _ Hcl); [done|]. intros ->. congruence.
Qed.

(** ** Isolation

    An operation on the connection of [fd] leaves the others alone. *)
Record isolated (fd : Z) w w' : Prop := mkIsolated {
  is_slots : forall fd', fd' <> fd -> slot (w_conns w') fd' = slot (w_conns w) fd';
  is_heap : forall fd' cp', fd' <> fd -> slot (w_conns w) fd' = Some cp' ->
    w_heap w' !! cp' = w_heap w !! cp';
  is_traffic : forall fd', fd' <> fd -> rcvd (w_kernel w') fd' = rcvd (w_kernel w) fd' /\
    sent (w_kernel w') fd' = sent (w_kernel w) fd';
  is_length : length (w_conns w') = length (w_conns w);
  is_sockets : nm_sockets (w_nm w') = nm_sockets (w_nm w);
  is_nm : nm_heap (w_nm w') ⊆ nm_heap (w_nm w) /\ nm_next (w_nm w') = nm_next (w_nm w);
  is_mq : w_mq w' = w_mq w /\ w_pipe w' = w_pipe w }.

Lemma isolated_refl fd w : isolated fd w w.
Proof. by constructor. Qed.

Lemma isolated_trans fd w1 w2 w3 : isolated fd w1 w2 -> isolated fd w2 w3 -> isolated fd w1 w3.
Proof.
  intros [A1 A2 A3 A4 A5 [A8 A9] [A6 A7]] [B1 B2 B3 B4 B5 [B8 B9] [B6 B7]]. constructor.
  - intros fd' Hne. by rewrite B1, A1.
  - intros fd' cp' Hne Hs. rewrite (B2 fd' cp'), (A2 fd' cp'); [done..|by rewrite A1].
  - intros fd' Hne. destruct (A3 fd' Hne), (B3 fd' Hne). split; congruence.
  - congruence.
  - congruence.
  - split; [by etrans|congruence].
  - split; congruence.
Qed.

Lemma touched_isolated w w' fd cp c c' :
  worker_ok w -> slot (w_conns w) fd = Some cp -> touched w w' fd cp c c' ->
  w_mq w' = w_mq w /\ w_pipe w' = w_pipe w -> isolated fd w w'.
Proof.
  intros Hw Hs [T1 T2 T3 T4 T5 T6 T7] Hmq. constructor; rewrite ?T1, ?T4; try done.
  intros fd' cp' Hne Hs'. rewrite T2. apply lookup_insert_ne. intros ->.
  destruct (wk_slots _ Hw _ _ Hs) as (c1 & Hc1 & Hok1).
  destruct (wk_slots _ Hw _ _ Hs') as (c2 & Hc2 & Hok2).
  apply Hne. eapply socket_inj; [exact Hok2|exact Hok1|congruence].
Qed.

Lemma closed_isolated w w' fd cp c :
  worker_ok w -> slot (w_conns w) fd = Some cp -> w_heap w !! cp = Some c ->
  closed w w' fd cp c -> isolated fd w w'.
Proof.
  intros Hw Hs Hc [C1 C2 C3 C4 C5 C6 C7 C8 C9 C10 C11 C12]. constructor; try done.
  - intros fd' cp' Hne Hs'. rewrite C4. apply lookup_delete_ne. intros ->.
    destruct (wk_slots _ Hw _ _ Hs) as (c1 & Hc1 & Hok1).
    destruct (wk_slots _ Hw _ _ Hs') as (c2 & Hc2 & Hok2).
    apply Hne. eapply socket_inj; [exact Hok2|exact Hok1|congruence].
  - intros fd' Hne. rewrite C7. by apply traffic_close.
  - by rewrite C6.
  - rewrite C6. split; [apply delete_subseteq|done].
Qed.

(** ** Events of a connection *)

Lemma same_but_refl i el : same_but i el el.
Proof. by split_and!. Qed.

(** A new watcher state that still watches for reading keeps [conn_ok]. *)
Lemma conn_ok_el w fd cp c el x :
  conn_ok w fd cp c -> same_but (c_watcher c) (w_el w) el ->
  el_ios el !! c_watcher c = Some x -> iow_data x = cp -> iow_cb x = ConnIo ->
  io_active (iow_io x) = true -> io_fd (iow_io x) = fd -> Z.testbit (io_events (iow_io x)) 0 = true ->
  conn_ok (upd_el w el) fd cp c.
Proof.
  intros [] (Hio & Htm & _) Hx. constructor; cbn [upd_el w_nm w_el w_kernel]; rewrite ?Htm; try done.
  exists x. done.
Qed.

Lemma mask_bit0 m : is_mask m -> Z.testbit m 0 = true -> m = 1 \/ m = 3.
Proof. intros [->|[->|[->| ->]]]%mask_cases; vm_compute; auto; discriminate. Qed.

(** Enabling WRITE. *)
Lemma enable_write_ok w fd cp c :
  worker_ok w -> slot (w_conns w) fd = Some cp -> w_heap w !! cp = Some c ->
  conn_ok w fd cp c ->
  exists w', enable_events w c WRITE = Ok w' /\ touched w w' fd cp c c /\ conn_ok w' fd cp c /\
    w_mq w' = w_mq w /\ w_pipe w' = w_pipe w /\ w_kernel w' = w_kernel w /\ w_freed w' = w_freed w /\
    interest (w_el w') (c_watcher c) = Some (fd, Z.lor READ WRITE).
Proof.
  intros Hw Hs Hc Hok. destruct (worker_conn w fd cp Hw Hs) as (c1 & Hc1 & _ & _ & Efd & _).
  assert (c1 = c) as -> by congruence. unfold enable_events. rewrite Efd. cbn [mbind outcome_bind].
  destruct (ck_io _ _ _ _ Hok) as (x & Hx & Hd & Hcb & Ha & Hf & Hb).
  destruct (ok_io _ (wk_loop _ Hw) _ _ Hx Ha) as [Hfd Hm]. rewrite Hf in Hfd.
  destruct (start_io_event_ok (w_el w) (c_watcher c) x fd WRITE (wk_loop _ Hw) Hx Hfd)
    as (el & -> & Hl & Hsame & Hi & io & Hio & Hact & Hfd'); [done|by intros _|].
  cbn [mbind outcome_bind]. exists (upd_el w el). split; [done|].
  assert (Hbits : interest el (c_watcher c) = Some (fd, 3)).
  { rewrite Hi. unfold interest. rewrite Hx, Ha, Hf. cbn [fmap option_fmap option_map snd default].
    rewrite trans_from_mask by done. by destruct (mask_bit0 _ Hm Hb) as [-> | ->]. }
  assert (Hio3 : io_events io = 3).
  { unfold interest in Hbits. rewrite Hio in Hbits. cbn in Hbits. rewrite Hact in Hbits.
    destruct (ok_io _ Hl _ _ Hio Hact) as [_ Hm']. cbn in Hm'.
    rewrite trans_from_mask in Hbits by done. congruence. }
  split; [|split_and!; try done].
  - constructor; cbn; try done. by rewrite insert_id.
  - eapply conn_ok_el; [done|done|exact Hio|done|done|done|done|]. cbn. by rewrite Hio3.
Qed.

(** Disabling WRITE leaves READ. *)
Lemma disable_write_ok w fd cp c :
  worker_ok w -> slot (w_conns w) fd = Some cp -> w_heap w !! cp = Some c ->
  conn_ok w fd cp c ->
  exists w', disable_events w c WRITE = Ok w' /\ touched w w' fd cp c c /\ conn_ok w' fd cp c /\
    w_mq w' = w_mq w /\ w_pipe w' = w_pipe w /\
    interest (w_el w') (c_watcher c) = Some (fd, READ).
Proof.
  intros Hw Hs Hc Hok. destruct (worker_conn w fd cp Hw Hs) as (c1 & Hc1 & _ & _ & Efd & _).
  assert (c1 = c) as -> by congruence. unfold disable_events. rewrite Efd. cbn [mbind outcome_bind].
  destruct (ck_io _ _ _ _ Hok) as (x & Hx & Hd & Hcb & Ha & Hf & Hb).
  destruct (ok_io _ (wk_loop _ Hw) _ _ Hx Ha) as [Hfd Hm]. rewrite Hf in Hfd.
  destruct (stop_io_event_ok (w_el w) (c_watcher c) x WRITE (wk_loop _ Hw) Hx Ha)
    as (el & E & Hl & Hsame & Hi & io & Hio & Hfd'); [done|].
  rewrite Hf in E, Hfd'. rewrite E. cbn [mbind outcome_bind]. exists (upd_el w el). split; [done|].
  assert (Hbits : interest el (c_watcher c) = Some (fd, 1)).
  { rewrite Hi. unfold interest. rewrite Hx, Ha, Hf, trans_from_mask by done.
    by destruct (mask_bit0 _ Hm Hb) as [-> | ->]. }
  assert (Hio1 : io_active io = true /\ io_events io = 1).
  { unfold interest in Hbits. rewrite Hio in Hbits. cbn in Hbits. destruct (io_active io) eqn:Hact; [|done].
    destruct (ok_io _ Hl _ _ Hio Hact) as [_ Hm']. cbn in Hm'.
    rewrite trans_from_mask in Hbits by done. split; congruence. }
  destruct Hio1 as [Hact Hev]. split; [|split_and!; try done].
  - constructor; cbn; try done. by rewrite insert_id.
  - eapply conn_ok_el; [done|done|exact Hio|done|done|done|done|]. cbn. by rewrite Hev.
Qed.

(** ** Changes to the object itself *)

(** [c'] is [c] up to its buffers and counters. *)
Definition same_identity c c' : Prop :=
  c_kind c' = c_kind c /\ c_s c' = c_s c /\ c_watcher c' = c_watcher c /\ c_timer c' = c_timer c.

Definition same_base w w' : Prop :=
  w_conns w' = w_conns w /\ w_next w' = w_next w /\ w_nm w' = w_nm w /\ w_el w' = w_el w /\
  w_mq w' = w_mq w /\ w_pipe w' = w_pipe w.

Definition others_quiet (fd : Z) (k k' : K) : Prop :=
  forall fd', fd' <> fd -> rcvd k' fd' = rcvd k fd' /\ sent k' fd' = sent k fd'.

Lemma store_conn w w' fd cp c c' :
  worker_ok w -> slot (w_conns w) fd = Some cp -> w_heap w !! cp = Some c -> conn_ok w fd cp c ->
  same_base w w' -> w_heap w' = <[cp := c']> (w_heap w) -> same_identity c c' ->
  others_quiet fd (w_kernel w) (w_kernel w') ->
  c_reply_list_size c' = s32 (Z.of_nat (length (c_reply_list c'))) ->
  Forall reply_ok (c_reply_list c') -> written_ok c' ->
  P (rcvd (w_kernel w') fd) (sent (w_kernel w') fd) c' ->
  worker_ok w' /\ conn_ok w' fd cp c' /\ isolated fd w w' /\ slot (w_conns w') fd = Some cp /\
  w_heap w' !! cp = Some c'.
Proof.
  intros Hw Hs Hc Hok (B1 & B2 & B3 & B4 & B5 & B6) Hh (I1 & I2 & I3 & I4) Hq H1' H2' H3' HP.
  assert (Hok' : conn_ok w' fd cp c').
  { destruct Hok. constructor; rewrite ?B3, ?B4, ?I1, ?I2, ?I3, ?I4; done. }
  assert (HT : touched w w' fd cp c c').
  { constructor; try done; rewrite B4; [apply wk_loop, Hw|apply same_but_refl]. }
  split_and!; [by eapply touched_ok|done|by eapply touched_isolated|by rewrite B1|].
  by rewrite Hh, lookup_insert_eq.
Qed.

(** The same for a change of the events only. *)
Lemma touch_same w w' fd cp c :
  worker_ok w -> slot (w_conns w) fd = Some cp -> w_heap w !! cp = Some c ->
  touched w w' fd cp c c -> conn_ok w' fd cp c -> w_mq w' = w_mq w /\ w_pipe w' = w_pipe w ->
  worker_ok w' /\ isolated fd w w' /\ slot (w_conns w') fd = Some cp /\ w_heap w' !! cp = Some c.
Proof.
  intros Hw Hs Hc HT Hok Hmq.
  split_and!; [by eapply touched_ok|by eapply touched_isolated|by rewrite (to_conns _ _ _ _ _ _ HT)|].
  by rewrite (to_heap _ _ _ _ _ _ HT), lookup_insert_eq.
Qed.

Lemma s32_succ n : s32 (s32 n + 1) = s32 (n + 1).
Proof.
  unfold swrap. change (32 - 1) with 31.
  replace ((n + 2 ^ 31) mod 2 ^ 32 - 2 ^ 31 + 1 + 2 ^ 31) with ((n + 2 ^ 31) mod 2 ^ 32 + 1) by lia.
  rewrite Zplus_mod_idemp_l. do 2 f_equal. lia.
Qed.

Lemma s32_pred n : s32 (s32 n - 1) = s32 (n - 1).
Proof.
  unfold swrap. change (32 - 1) with 31.
  replace ((n + 2 ^ 31) mod 2 ^ 32 - 2 ^ 31 - 1 + 2 ^ 31) with ((n + 2 ^ 31) mod 2 ^ 32 + -1) by lia.
  rewrite Zplus_mod_idemp_l. do 2 f_equal. lia.
Qed.

(** Adding a reply: [P] must allow a longer list. *)
Lemma add_reply_ok w fd cp c reply :
  worker_ok w -> slot (w_conns w) fd = Some cp -> w_heap w !! cp = Some c ->
  reply_ok reply ->
  P (rcvd (w_kernel w) fd) (sent (w_kernel w) fd)
    (set_replies c (s32 (c_reply_list_size c + 1)) (c_reply_list c ++ [reply]) (c_bytes_written c)) ->
  exists w' c',
    add_reply w cp reply = Ok (s32 (Z.of_nat (length (c_reply_list c)) + 1), w') /\
    worker_ok w' /\ isolated fd w w' /\ slot (w_conns w') fd = Some cp /\ w_heap w' !! cp = Some c' /\
    c' = set_replies c (s32 (c_reply_list_size c + 1)) (c_reply_list c ++ [reply]) (c_bytes_written c) /\
    w_kernel w' = w_kernel w /\ w_freed w' = w_freed w /\
    interest (w_el w') (c_watcher c) = Some (fd, Z.lor READ WRITE).
Proof.
  intros Hw Hs Hc Hr HP. destruct (worker_conn w fd cp Hw Hs) as (c1 & Hc1 & Hok & Ec & _).
  assert (c1 = c) as -> by congruence. unfold add_reply. rewrite Ec. cbn [mbind outcome_bind].
  set (c' := set_replies c _ _ _) in *.
  destruct (store_conn w (put_conn w cp c') fd cp c c') as (Hw1 & Hok1 & Hi1 & Hs1 & Hc1'); try done.
  { cbn [c' set_replies c_reply_list_size c_reply_list].
    rewrite (ck_size _ _ _ _ Hok), s32_succ, length_app. f_equal. simpl. lia. }
  { apply Forall_app. split; [apply Hok|]. by constructor. }
  { pose proof (ck_written _ _ _ _ Hok) as Hwr. unfold written_ok in *.
    cbn [c' set_replies c_bytes_written c_reply_list].
    destruct (c_reply_list c); [|done]. rewrite Hwr. destruct Hr as [Hr _].
    destruct reply; [done|]. simpl. lia. }
  destruct (enable_write_ok _ fd cp c' Hw1 Hs1 Hc1' Hok1) as (w' & -> & HT & Hok2 & Hmq & Hp & Hk & Hfr & Hint).
  destruct (touch_same _ w' fd cp c' Hw1 Hs1 Hc1' HT Hok2 (conj Hmq Hp)) as (Hw2 & Hi2 & Hs2 & Hc2).
  cbn [mbind outcome_bind]. exists w', c'. split_and!; try done.
  - f_equal. f_equal. cbn [c' set_replies c_reply_list_size]. by rewrite (ck_size _ _ _ _ Hok), s32_succ.
  - by eapply isolated_trans.
Qed.

(** ** Writing replies *)

(** [P] sees replies only through the bytes still to be sent. *)
Definition P_writes : Prop := forall r s c n l wr x,
  P r s c -> pending c = x ++ pending (set_replies c n l wr) -> P r (s ++ x) (set_replies c n l wr).

Lemma write_traffic k s d r k' :
  Z.of_nat (length d) <= INT_MAX -> write k s d = (r, k') ->
  (r = SOCKET_ERR \/ 0 <= r <= Z.of_nat (length d)) /\
  sent k' (s_fd s) = sent k (s_fd s) ++ take (Z.to_nat r) d /\
  rcvd k' (s_fd s) = rcvd k (s_fd s) /\ others_quiet (s_fd s) k k'.
Proof.
  intros Hl. unfold write. destruct (sys_write k (s_fd s) d) as [[n|e] k1] eqn:E; intros [= <- <-].
  - pose proof (write_at_most _ _ _ _ _ E) as Hn. apply traffic_write in E as (E1 & E2 & E3).
    unfold INT_MAX in Hl. rewrite s32_small by lia. auto.
  - apply traffic_write in E as (E1 & E2 & E3).
    destruct (e =? EAGAIN); (split; [|done]); [right; lia|by left].
Qed.

Lemma pending_split c reply rest :
  c_reply_list c = reply :: rest -> written_ok c ->
  pending c = drop (Z.to_nat (c_bytes_written c)) reply ++ mjoin rest.
Proof.
  intros E Hw. unfold pending, written_ok in *. rewrite E in *. csimpl. apply drop_app_le. lia.
Qed.

(** The bytes left, which every turn of the loop reduces. *)
Definition left (c : Connection) : nat := length (pending c).

Lemma left_le_fuel c : written_ok c -> (left c < write_fuel c)%nat.
Proof.
  intros _. unfold left, pending, write_fuel. rewrite length_drop.
  assert (length (mjoin (c_reply_list c)) = sum_list_with length (c_reply_list c)) as ->; [|lia].
  induction (c_reply_list c); csimpl; [done|]. rewrite length_app. lia.
Qed.

(** One successful write of [r] bytes on a nonempty list. *)
Lemma write_turn w fd cp c reply rest r k' :
  P_writes -> worker_ok w -> slot (w_conns w) fd = Some cp -> w_heap w !! cp = Some c ->
  c_reply_list c = reply :: rest ->
  let d := drop (Z.to_nat (c_bytes_written c)) reply in
  0 < r <= Z.of_nat (length d) ->
  sent k' fd = sent (w_kernel w) fd ++ take (Z.to_nat r) d -> rcvd k' fd = rcvd (w_kernel w) fd ->
  others_quiet fd (w_kernel w) k' ->
  let done_ := u64 (r + c_bytes_written c) =? Z.of_nat (length reply) in
  let c' := if done_ then set_replies c (s32 (c_reply_list_size c - 1)) rest 0
            else set_replies c (c_reply_list_size c) (c_reply_list c) (u64 (c_bytes_written c + r)) in
  let w' := put_conn (upd_kernel w k') cp c' in
  forall fr, worker_ok (upd_freed w' fr) /\ isolated fd w (upd_freed w' fr) /\
    slot (w_conns w) fd = Some cp /\ (left c' < left c)%nat.
Proof.
  intros HPw Hw Hs Hc El d Hr Hsent Hrcvd Hq done_ c' w' fr.
  destruct (wk_slots _ Hw _ _ Hs) as (c1 & Hc1 & Hok). assert (c1 = c) as -> by congruence.
  pose proof (ck_written _ _ _ _ Hok) as Hwr. pose proof (ck_replies _ _ _ _ Hok) as Hrep.
  pose proof (pending_split c reply rest El Hwr) as Hpend. fold d in Hpend.
  unfold written_ok in Hwr. rewrite El in Hwr, Hrep. cbn iota in Hwr.
  apply Forall_cons in Hrep as [[Hne Hlen] Hrest].
  assert (Hd : length d = (length reply - Z.to_nat (c_bytes_written c))%nat) by (unfold d; apply length_drop).
  unfold INT_MAX in Hlen.
  assert (Hp : pending c = take (Z.to_nat r) d ++ pending c').
  { rewrite Hpend. unfold c', done_. rewrite (u64_small (r + _)), (u64_small (_ + r)) by lia.
    destruct (Z.eqb_spec (r + c_bytes_written c) (Z.of_nat (length reply))) as [E|E].
    - rewrite take_ge by lia. unfold pending. cbn [set_replies c_reply_list c_bytes_written].
      by rewrite drop_0.
    - rewrite (pending_split (set_replies c _ (c_reply_list c) _) reply rest); [|done|].
      + cbn [set_replies c_bytes_written]. rewrite app_assoc. f_equal. unfold d.
        replace (Z.to_nat (c_bytes_written c + r)) with (Z.to_nat (c_bytes_written c) + Z.to_nat r)%nat by lia.
        by rewrite <-drop_drop, take_drop.
      + unfold written_ok. cbn [set_replies c_reply_list c_bytes_written]. rewrite El. lia. }
  destruct (store_conn w (upd_freed w' fr) fd cp c c') as (Hw' & _ & Hi & _ & _); try done.
  { unfold c'. by destruct done_. }
  { unfold c'. destruct done_; cbn [set_replies c_reply_list_size c_reply_list].
    - rewrite (ck_size _ _ _ _ Hok), s32_pred, El. f_equal. simpl. lia.
    - apply Hok. }
  { unfold c'. destruct done_; cbn [set_replies c_reply_list]; [done|]. rewrite El. by constructor. }
  { unfold c', done_. rewrite (u64_small (r + _)), (u64_small (_ + r)) by lia.
    destruct (Z.eqb_spec (r + c_bytes_written c) (Z.of_nat (length reply))) as [E|E];
      unfold written_ok; cbn [set_replies c_reply_list c_bytes_written].
    - destruct rest as [|r2 rest]; [done|]. apply Forall_cons in Hrest as [[Hr2 _] _].
      destruct r2; [done|]. simpl. lia.
    - rewrite El. lia. }
  { cbn [w' put_conn upd_heap upd_kernel upd_freed w_kernel]. rewrite Hsent, Hrcvd.
    unfold c' in *. destruct done_; by apply HPw; [apply Hok|]. }
  split_and!; [done|done|done|]. unfold left. rewrite Hp, length_app, length_take. lia.
Qed.

(** The receiving side of the object is the same. *)
Definition same_input c c' : Prop :=
  c_io_buffer c' = c_io_buffer c /\ c_receive_state c' = c_receive_state c /\
  c_bytes_expected c' = c_bytes_expected c /\ c_bytes_processed c' = c_bytes_processed c.

(** What the loop leaves: the connection closed, or still there with its input
    side untouched and, when the loop ran through, nothing left to write. *)
Definition write_result w fd cp c (res : bool * worker K Q) : Prop :=
  let '(through, w') := res in
  worker_ok w' /\ isolated fd w w' /\
  ((through = false /\ slot (w_conns w') fd = None) \/
   slot (w_conns w') fd = Some cp /\ exists c', w_heap w' !! cp = Some c' /\ same_input c c' /\
     (through = true -> c_reply_list c' = [])).

Lemma write_result_trans w1 w2 fd cp c1 c2 res :
  isolated fd w1 w2 -> same_input c1 c2 -> write_result w2 fd cp c2 res -> write_result w1 fd cp c1 res.
Proof.
  destruct res as [b w']. intros Hi Hsi (H1' & H2' & H3'). split_and!; [done|by eapply isolated_trans|].
  destruct H3' as [?|(? & c' & ? & Hsi' & ?)]; [by left|]. right. split; [done|].
  exists c'. split_and!; [done| |done]. unfold same_input in *. destruct_and!. split_and!; congruence.
Qed.

(** Replacing the system state when only this descriptor saw traffic. *)
Lemma kernel_ok w fd cp k' :
  worker_ok w -> slot (w_conns w) fd = Some cp -> others_quiet fd (w_kernel w) k' ->
  rcvd k' fd = rcvd (w_kernel w) fd -> sent k' fd = sent (w_kernel w) fd ->
  worker_ok (upd_kernel w k') /\ isolated fd w (upd_kernel w k').
Proof.
  intros Hw Hs Hq Er Es. destruct (wk_slots _ Hw _ _ Hs) as (c & Hc & Hok).
  destruct (store_conn w (upd_kernel w k') fd cp c c) as (Hw' & _ & Hi & _); try done; try apply Hok.
  - by rewrite insert_id.
  - cbn [upd_kernel w_kernel]. rewrite Er, Es. apply Hok.
Qed.

Lemma tcp_write_loop_ok fuel w fd cp c :
  P_writes -> worker_ok w -> slot (w_conns w) fd = Some cp -> w_heap w !! cp = Some c ->
  (left c < fuel)%nat ->
  exists res, tcp_write_loop fuel w cp = Ok res /\ write_result w fd cp c res.
Proof.
  intros HPw. revert w c. induction fuel as [|fuel IH]; intros w c Hw Hs Hc Hf; [lia|].
  destruct (worker_conn w fd cp Hw Hs) as (c1 & Hc1 & Hok & Ec & _ & s & Es & Hsfd).
  assert (c1 = c) as -> by congruence. cbn [tcp_write_loop]. rewrite Ec. cbn [mbind outcome_bind].
  destruct (c_reply_list c) as [|reply rest] eqn:El.
  { eexists. split; [done|]. split_and!; [done|apply isolated_refl|]. right. split; [done|].
    exists c. done. }
  rewrite Es. cbn [mbind outcome_bind].
  pose proof (ck_written _ _ _ _ Hok) as Hwr. pose proof (ck_replies _ _ _ _ Hok) as Hrep.
  unfold written_ok in Hwr. rewrite El in Hwr, Hrep. cbn iota in Hwr.
  apply Forall_cons in Hrep as [[Hne Hlen] _].
  set (d := drop (Z.to_nat (c_bytes_written c)) reply).
  assert (Hd : length d = (length reply - Z.to_nat (c_bytes_written c))%nat) by (unfold d; apply length_drop).
  assert (Hrb : read_block reply (c_bytes_written c) (Z.of_nat (length reply) - c_bytes_written c) = Ok d).
  { unfold read_block. decide_tests. f_equal. rewrite take_ge by (rewrite length_drop; lia). done. }
  rewrite Hrb. cbn [mbind outcome_bind].
  destruct (write (w_kernel w) s d) as [r k'] eqn:Ew.
  assert (Hdl : Z.of_nat (length d) <= INT_MAX) by lia.
  destruct (write_traffic _ _ _ _ _ Hdl Ew) as (Hr & Hsent & Hrcvd & Hq). rewrite Hsfd in *.
  unfold SOCKET_ERR in *. destruct (Z.eqb_spec r (-1)) as [->|Hr1].
  - rewrite app_nil_r in Hsent.
    destruct (kernel_ok w fd cp k' Hw Hs Hq Hrcvd Hsent) as [Hw' Hi].
    destruct (close_conn_ok _ fd cp Hw' Hs) as (c2 & w2 & Hc2 & -> & Hcl & Hw2).
    cbn [mbind outcome_bind]. eexists. split; [done|]. split_and!; [done| |left; split; [done|apply Hcl]].
    eapply isolated_trans; [exact Hi|]. by eapply closed_isolated.
  - destruct (Z.eqb_spec r 0) as [->|Hr0].
    + rewrite app_nil_r in Hsent.
      destruct (kernel_ok w fd cp k' Hw Hs Hq Hrcvd Hsent) as [Hw' Hi].
      eexists. split; [done|]. split_and!; [done|done|]. right. split; [done|]. exists c. done.
    + assert (Hr' : 0 < r <= Z.of_nat (length d)) by lia.
      destruct (u64 (r + c_bytes_written c) =? Z.of_nat (length reply)) eqn:Edone.
      * destruct (write_turn w fd cp c reply rest r k' HPw Hw Hs Hc El Hr' Hsent Hrcvd Hq
          (w_freed w ++ [reply])) as (Hw' & Hi & _ & Hlt). rewrite Edone in Hlt, Hi, Hw'.
        destruct (IH _ (set_replies c (s32 (c_reply_list_size c - 1)) rest 0) Hw' Hs) as (res & E & Hres);
          [apply lookup_insert_eq|lia|].
        exists res. split; [exact E|]. by eapply write_result_trans; [exact Hi| |exact Hres].
      * destruct (write_turn w fd cp c reply rest r k' HPw Hw Hs Hc El Hr' Hsent Hrcvd Hq
          (w_freed w)) as (Hw' & Hi & _ & Hlt). rewrite Edone, El in Hlt, Hi, Hw'.
        destruct (IH _ (set_replies c (c_reply_list_size c) (reply :: rest) (u64 (c_bytes_written c + r))) Hw' Hs)
          as (res & E & Hres); [apply lookup_insert_eq|lia|].
        exists res. split; [exact E|]. by eapply write_result_trans; [exact Hi| |exact Hres].
Qed.

(** Touching the time of the last interaction. *)
Lemma touch_time w fd cp c t :
  worker_ok w -> slot (w_conns w) fd = Some cp -> w_heap w !! cp = Some c ->
  worker_ok (put_conn w cp (set_last c t)) /\ isolated fd w (put_conn w cp (set_last c t)).
Proof.
  intros Hw Hs Hc. destruct (wk_slots _ Hw _ _ Hs) as (c1 & Hc1 & Hok).
  assert (c1 = c) as -> by congruence.
  destruct (store_conn w (put_conn w cp (set_last c t)) fd cp c (set_last c t)) as (Hw' & _ & Hi & _);
    try done; try apply Hok. by apply P_last, Hok.
Qed.

(** A write event returns, keeps the invariant and concerns one connection. *)
Lemma tcp_write_io_ok w fd cp c :
  P_writes -> worker_ok w -> slot (w_conns w) fd = Some cp -> w_heap w !! cp = Some c ->
  exists w', tcp_write_io w cp = Ok w' /\ worker_ok w' /\ isolated fd w w' /\
    (slot (w_conns w') fd = None \/
     slot (w_conns w') fd = Some cp /\ exists c', w_heap w' !! cp = Some c' /\ same_input c c').
Proof.
  intros HPw Hw Hs Hc. destruct (worker_conn w fd cp Hw Hs) as (c0 & Hc0 & Hok & Ec & _).
  assert (c0 = c) as -> by congruence.
  unfold tcp_write_io. rewrite Ec. cbn [mbind outcome_bind].
  destruct (tcp_write_loop_ok (write_fuel c) w fd cp c HPw Hw Hs Hc) as ([b w1] & -> & Hw1 & Hi1 & Hres).
  { apply left_le_fuel, Hok. }
  cbn [mbind outcome_bind]. destruct b; cbn [negb].
  2: { exists w1. split_and!; try done. destruct Hres as [[_ ?]|(? & c' & ? & ? & _)]; [by left|right; eauto]. }
  destruct Hres as [[? _]|(Hth & c1 & Hc1 & Hsi & El)]; [done|]. specialize (El eq_refl).
  unfold conn. rewrite Hc1. cbn [the mbind outcome_bind set_last c_reply_list]. rewrite El.
  destruct (touch_time w1 fd cp c1 (now (w_el w1)) Hw1 Hth Hc1) as [Hw2 Hi2].
  set (w2 := put_conn w1 cp (set_last c1 (now (w_el w1)))) in *.
  assert (Hc2 : w_heap w2 !! cp = Some (set_last c1 (now (w_el w1)))) by apply lookup_insert_eq.
  destruct (wk_slots _ Hw2 fd cp Hth) as (c3 & Hc3 & Hok3).
  assert (c3 = set_last c1 (now (w_el w1))) as -> by congruence.
  destruct (disable_write_ok w2 fd cp _ Hw2 Hth Hc2 Hok3) as (w3 & -> & HT & Hok4 & Hmq & Hp & _).
  destruct (touch_same w2 w3 fd cp _ Hw2 Hth Hc2 HT Hok4 (conj Hmq Hp)) as (Hw3 & Hi3 & Hs3 & Hc4).
  exists w3. split_and!; [done|done| |right; split; [done|]; exists (set_last c1 (now (w_el w1))); done].
  eapply isolated_trans; [exact Hi1|]. by eapply isolated_trans.
Qed.

(** ** Reading *)

(** The connection can receive what it expects: no more than the buffer can be
    made to hold. *)
Definition ready c (b : bytes) (f : nat) : Prop :=
  sds_repr (c_io_buffer c) b f /\ 0 <= c_bytes_expected c /\ fits b (c_bytes_expected c) /\
  0 <= c_bytes_processed c <= Z.of_nat (length b).

(** [P] holds again when [d] was received and appended to the buffer. *)
Definition P_reads r s c (b : bytes) : Prop := forall d b' f',
  is_bytes d -> Z.of_nat (length d) <= c_bytes_expected c -> sds_repr b' (b ++ d) f' ->
  P (r ++ d) s (set_buffer c b').

(** The bytes a read delivers, and the results that end the connection. *)
Definition data (r : sysret bytes) : bytes := match r with SysOk d => d | SysErr _ => [] end.
Definition hangup (r : sysret bytes) : Prop := r = SysOk [] \/ exists e, r = SysErr e /\ e <> EAGAIN.

(** The code [Socket::read] returns for a result of read(2). *)
Definition read_code (rr : sysret bytes) (r : Z) : Prop :=
  r = Z.of_nat (length (data rr)) /\ ~ hangup rr \/
  data rr = [] /\ hangup rr /\ (r = SOCKET_ERR \/ r = SOCKET_PEER_CLOSED).

Lemma read_traffic k s len :
  0 <= len <= INT_MAX ->
  exists rr r k', sys_read k (s_fd s) len = (rr, k') /\ read k s len = (r, data rr, k') /\
    is_bytes (data rr) /\ Z.of_nat (length (data rr)) <= len /\ read_code rr r /\
    rcvd k' (s_fd s) = rcvd k (s_fd s) ++ data rr /\ sent k' (s_fd s) = sent k (s_fd s) /\
    others_quiet (s_fd s) k k'.
Proof.
  intros Hl. unfold read. destruct (sys_read k (s_fd s) len) as [rr k'] eqn:E.
  pose proof (traffic_read _ _ _ _ _ E) as (E1 & E2 & E3).
  destruct rr as [d|e].
  - pose proof (read_at_most _ _ _ _ _ E) as [Hd Hb]. destruct d as [|x d].
    + exists (SysOk []), SOCKET_PEER_CLOSED, k'. split_and!; try done. right. split_and!; auto. by left.
    + eexists (SysOk (x :: d)), _, k'. unfold INT_MAX in Hl. rewrite s32_small by lia.
      split_and!; try done. left. split; [done|]. by intros [?|(? & ? & _)].
  - eexists (SysErr e), _, k'. split_and!; [done|done|by apply Forall_nil|simpl; lia| |done..].
    destruct (Z.eqb_spec e EAGAIN) as [->|].
    + left. split; [done|]. by intros [?|(? & [= <-] & ?)].
    + right. split_and!; auto. right. eauto.
Qed.

(** The bytes received are stored behind the buffer's content. *)
Lemma conn_read_ok w fd cp c c0 b f n :
  worker_ok w -> slot (w_conns w) fd = Some cp -> w_heap w !! cp = Some c -> c_s c0 = c_s c ->
  sds_repr (c_io_buffer c0) b f -> 0 <= n <= Z.of_nat f -> Z.of_nat f <= INT_MAX ->
  exists rr r m s' k', fst (sys_read (w_kernel w) fd n) = rr /\ let d := data rr in
    conn_read w c0 (Z.of_nat (length b)) n
      = Ok (r, set_buffer c0 (mkSds (sh_len (c_io_buffer c0)) (sh_free (c_io_buffer c0)) m), upd_kernel w k') /\
    sdsIncrLen (mkSds (sh_len (c_io_buffer c0)) (sh_free (c_io_buffer c0)) m) (Z.of_nat (length d)) = Ok s' /\
    sds_repr s' (b ++ d) (f - length d) /\ (d = [] -> m = sh_buf (c_io_buffer c0)) /\
    is_bytes d /\ Z.of_nat (length d) <= n /\ read_code rr r /\
    rcvd k' fd = rcvd (w_kernel w) fd ++ d /\ sent k' fd = sent (w_kernel w) fd /\
    others_quiet fd (w_kernel w) k'.
Proof.
  intros Hw Hs Hc Ec0 Hb Hn Hf.
  destruct (worker_conn w fd cp Hw Hs) as (c1 & Hc1 & Hok & _ & _ & s & Es & Hsfd).
  assert (c1 = c) as -> by congruence.
  destruct (read_traffic (w_kernel w) s n ltac:(lia)) as (rr & r & k' & Esys & Er & Hd & Hdl & Hr & T1 & T2 & T3).
  rewrite Hsfd in *.
  destruct (sdsIncrLen_repr (c_io_buffer c0) b f (data rr) Hb ltac:(lia)) as (m & s' & Em & Ei & Hs').
  exists rr, r, m, s', k'. split; [by rewrite Esys|]. cbn zeta. split_and!; try done.
  - unfold conn_read, conn_socket in *. rewrite Ec0, Es. cbn [mbind outcome_bind]. by rewrite Er, Em.
  - intros E. rewrite E in Em. unfold memcpy in Em. case_match; [|done]. injection Em as <-.
    cbn [app length]. by rewrite Nat.add_0_r, take_drop.
Qed.

(** What the user's handler must do when a complete unit is in the buffer. *)
Definition handler_ok (process_io_buffer : worker K Q -> cptr -> outcome (Z * worker K Q)) : Prop :=
  forall w fd cp c b f, worker_ok w -> slot (w_conns w) fd = Some cp -> w_heap w !! cp = Some c ->
    sds_repr (c_io_buffer c) b f -> 0 <= c_bytes_processed c ->
    c_bytes_processed c + c_bytes_expected c <= Z.of_nat (length b) ->
    exists code w', process_io_buffer w cp = Ok (code, w') /\ worker_ok w' /\ isolated fd w w' /\
      slot (w_conns w') fd = Some cp.

(** The connection as it stands once [d] has been received. *)
Definition received c b (d : bytes) c2 : Prop :=
  exists b2 f2 t, sds_repr b2 (b ++ d) f2 /\ is_bytes d /\ Z.of_nat (length d) <= c_bytes_expected c /\
    c2 = set_last (set_buffer c b2) t.

(** What a read event leaves behind on its own descriptor: the connection
    closed because the peer hung up; or, with the data stored, waiting for
    more, as the handler left it, or closed because the handler refused. *)
Definition read_result process w fd cp c b w' : Prop :=
  worker_ok w' /\ isolated fd w w' /\
  let rr := fst (sys_read (w_kernel w) fd (c_bytes_expected c)) in
  (hangup rr /\ slot (w_conns w') fd = None) \/
  ~ hangup rr /\ exists c2 w2, received c b (data rr) c2 /\
    worker_ok w2 /\ slot (w_conns w2) fd = Some cp /\ w_heap w2 !! cp = Some c2 /\
    ((Z.of_nat (length (b ++ data rr)) < c_bytes_processed c + c_bytes_expected c /\ w' = w2) \/
     (c_bytes_processed c + c_bytes_expected c <= Z.of_nat (length (b ++ data rr)) /\
      exists code w3, process w2 cp = Ok (code, w3) /\
        (code = WORKER_OK /\ w' = w3 \/ code <> WORKER_OK /\ slot (w_conns w') fd = None))).

Lemma close_result w0 w fd cp :
  worker_ok w -> slot (w_conns w) fd = Some cp -> isolated fd w0 w ->
  exists w', close_conn w cp = Ok w' /\ worker_ok w' /\ isolated fd w0 w' /\
    slot (w_conns w') fd = None.
Proof.
  intros Hw Hs Hi. destruct (close_conn_ok w fd cp Hw Hs) as (c & w' & Hc & E & Hcl & Hw').
  exists w'. split_and!; [done|done| |apply Hcl].
  eapply isolated_trans; [done|]. by eapply closed_isolated.
Qed.

(** The handler's part of the event, once the data is in the buffer. *)
Lemma after_receive process w w2 fd cp c c2 b b2 f2 :
  handler_ok process -> isolated fd w w2 -> worker_ok w2 -> slot (w_conns w2) fd = Some cp ->
  w_heap w2 !! cp = Some c2 -> 0 <= c_bytes_processed c ->
  received c b (data (fst (sys_read (w_kernel w) fd (c_bytes_expected c)))) c2 ->
  c_io_buffer c2 = b2 -> sds_repr b2 (b ++ data (fst (sys_read (w_kernel w) fd (c_bytes_expected c)))) f2 ->
  c_bytes_processed c <= Z.of_nat (length b) ->
  ~ hangup (fst (sys_read (w_kernel w) fd (c_bytes_expected c))) ->
  exists w', (if u64 (sdslen b2 - c_bytes_processed c) >=? c_bytes_expected c then
      p ← process w2 cp;
      let '(code, w) := p in
      if negb (code =? WORKER_OK) then close_conn w cp else Ok w
    else Ok w2) = Ok w' /\ read_result process w fd cp c b w'.
Proof.
  intros Hproc Hi2 Hw2 Hs2 Hc2 Hpos Hrec Eb2 Hb2 Hpr Hnh. set (d := data _) in *.
  rewrite (sdslen_repr _ _ _ Hb2). pose proof (repr_int _ _ _ Hb2) as Hint. unfold INT_MAX in Hint.
  rewrite u64_small by (rewrite length_app in *; lia).
  destruct (_ >=? c_bytes_expected c) eqn:Edue.
  2: { exists w2. split; [done|]. split_and!; [done|done|]. right. split; [done|]. exists c2, w2.
       split_and!; try done. left. split; [fold d; lia|done]. }
  assert (Hsame : c_bytes_processed c2 = c_bytes_processed c /\ c_bytes_expected c2 = c_bytes_expected c).
  { by destruct Hrec as (? & ? & ? & _ & _ & _ & ->). }
  destruct Hsame as [Hp2 He2].
  destruct (Hproc w2 fd cp c2 (b ++ d) f2 Hw2 Hs2 Hc2) as (code & w3 & Ep & Hw3 & Hi3 & Hs3);
    [by rewrite Eb2|lia|lia|].
  rewrite Ep. cbn [mbind outcome_bind]. pose proof (isolated_trans _ _ _ _ Hi2 Hi3) as Hi.
  destruct (Z.eqb_spec code WORKER_OK) as [->|Hcode]; cbn [negb].
  - exists w3. split; [done|]. split_and!; [done|done|]. right. split; [done|]. exists c2, w2.
    split_and!; try done. right. split; [fold d; lia|]. eauto 10.
  - destruct (close_result w w3 fd cp Hw3 Hs3 Hi) as (w4 & E4 & ? & ? & ?).
    exists w4. split; [exact E4|]. split_and!; [done|done|]. right. split; [done|]. exists c2, w2.
    split_and!; try done. right. split; [fold d; lia|]. eauto 10.
Qed.

Lemma tcp_read_io_ok process w fd cp c b f :
  handler_ok process -> worker_ok w -> slot (w_conns w) fd = Some cp -> w_heap w !! cp = Some c ->
  ready c b f -> P_reads (rcvd (w_kernel w) fd) (sent (w_kernel w) fd) c b ->
  exists w', tcp_read_io process w cp = Ok w' /\ read_result process w fd cp c b w'.
Proof.
  intros Hproc Hw Hs Hc (Hb & Hexp & Hfit & Hpr) HP.
  destruct (worker_conn w fd cp Hw Hs) as (c1 & Hc1 & Hok & Ec & _).
  assert (c1 = c) as -> by congruence. unfold tcp_read_io. rewrite Ec. cbn [mbind outcome_bind].
  unfold fits, INT_MAX, SDS_MAX_PREALLOC in Hfit.
  rewrite (s32_small (c_bytes_expected c)), (u64_small (c_bytes_expected c)) by lia.
  destruct (sdsMakeRoomFor_repr alloc_total (c_io_buffer c) b f (Z.to_nat (c_bytes_expected c)) Hb)
    as (b1 & f1 & Eb1 & Hb1 & Hf1); [by rewrite Z2Nat.id by lia|].
  rewrite Z2Nat.id in Eb1 by lia. unfold non_null. rewrite Eb1. cbn [mbind outcome_bind].
  rewrite (sdslen_repr _ _ _ Hb). pose proof (repr_int _ _ _ Hb1) as Hint.
  destruct (conn_read_ok w fd cp c (set_buffer c b1) b f1 (c_bytes_expected c) Hw Hs Hc eq_refl Hb1)
    as (rr & r & m & s' & k' & Err & -> & Hincr & Hs' & Hm & Hd & Hdl & Hr & T1 & T2 & T3); [lia|lia|].
  cbn [mbind outcome_bind set_buffer c_io_buffer] in *. unfold read_code in Hr. set (d := data rr) in *.
  assert (Hstore : forall b2 w', sds_repr b2 (b ++ d) (f1 - length d) -> forall t c2,
    c2 = set_buffer c b2 \/ c2 = set_last (set_buffer c b2) t ->
    same_base w w' -> w_heap w' = <[cp := c2]> (w_heap w) -> w_kernel w' = k' ->
    worker_ok w' /\ conn_ok w' fd cp c2 /\ isolated fd w w' /\ slot (w_conns w') fd = Some cp /\
    w_heap w' !! cp = Some c2).
  { intros b2 w' Hb2 t c2 Hc2 Hbase Hheap Hk.
    assert (HPc : P (rcvd k' fd) (sent k' fd) (set_buffer c b2)) by (rewrite T1, T2; by eapply HP).
    apply (P_last _ _ _ t) in HPc as HPt.
    destruct Hc2 as [-> | ->]; eapply store_conn; try done; try apply Hok; by rewrite Hk. }
  destruct Hr as [[-> Hnh]|(Ed & Hhang & Hr)].
  - unfold SOCKET_ERR, SOCKET_PEER_CLOSED. decide_tests.
    set (w1 := put_conn (upd_kernel w k') cp _).
    assert (Hbuf : exists b2, (if Z.of_nat (length d) >? 0
        then sdsIncrLen {| sh_len := sh_len b1; sh_free := sh_free b1; sh_buf := m |} (Z.of_nat (length d))
        else Ok {| sh_len := sh_len b1; sh_free := sh_free b1; sh_buf := m |}) = Ok b2 /\
        sds_repr b2 (b ++ d) (f1 - length d)).
    { destruct (Z.of_nat (length d) >? 0) eqn:E0; [eauto|].
      assert (Ed : d = []) by (destruct d; [done|simpl in E0; lia]).
      eexists. split; [done|]. rewrite Hm, Ed by done. destruct b1. by rewrite app_nil_r, Nat.sub_0_r. }
    destruct Hbuf as (b2 & -> & Hb2). cbn [mbind outcome_bind].
    set (c2 := set_last _ _). set (w2 := put_conn w1 cp c2).
    destruct (Hstore b2 w2 Hb2 (now (w_el w1)) c2) as (Hw2 & Hok2 & Hi2 & Hs2 & Hc2); try done.
    { by right. }
    { unfold w2, w1. cbn. by rewrite insert_insert_eq. }
    eapply (after_receive process w w2 fd cp c c2 b b2); try done; try lia; rewrite Err; fold d; [|exact Hb2|done].
    eexists _, _, _. split_and!; [exact Hb2|done|done|done].
  - rewrite Ed in *. rewrite (Hm eq_refl). rewrite app_nil_r, Nat.sub_0_r in *.
    set (w1 := put_conn (upd_kernel w k') cp _).
    destruct (Hstore b1 w1 Hb1 0 (set_buffer c b1)) as (Hw1 & Hok1 & Hi1 & Hs1 & Hc1'); try done.
    { by left. }
    { unfold w1. cbn. by destruct b1. }
    destruct (close_result w w1 fd cp Hw1 Hs1 Hi1) as (w2 & E & Hw2 & Hi2 & Hs2).
    exists w2. split; [by destruct Hr as [-> | ->]|]. split_and!; [done|done|]. left. by rewrite Err.
Qed.

(** ** New connections *)

(** The object the constructors build on socket [s]. *)
Definition fresh_conn (s : sptr) (t : Z) (io tm : nat) (b : sds) : Connection :=
  mkConn TCPSocket s t io tm b 0 [] 0 1 0 0.

Lemma new_connection_ok s :
  exists b, sds_repr b [] 0 /\
    new_connection TCPSocket s = Ok (fresh_conn s 0 0 0 b).
Proof.
  destruct (sdsempty_repr alloc_total) as (b & Eb & Hb). exists b. split; [done|].
  unfold new_connection. by rewrite Eb.
Qed.

(** Watching a new connection: the loop after the two watchers are created and
    started. *)
Lemma watch_new_ok el fd cp tick events :
  loop_ok el -> 0 <= fd -> events = READ \/ events = Z.lor READ WRITE ->
  let '(io, el1) := create_io_event el ConnIo cp in
  let '(tm, el2) := create_timer el1 TimeoutCb cp true in
  exists el3 el4,
    start_io_event el2 io fd events = Ok el3 /\ start_timer el3 tm tick = Ok el4 /\ loop_ok el4 /\
    (forall i, (i < el_next el)%nat -> el_ios el4 !! i = el_ios el !! i /\ el_timers el4 !! i = el_timers el !! i) /\
    (exists x, el_ios el4 !! io = Some x /\ iow_data x = cp /\ iow_cb x = ConnIo /\
      io_active (iow_io x) = true /\ io_fd (iow_io x) = fd /\ Z.testbit (io_events (iow_io x)) 0 = true) /\
    (exists y, el_timers el4 !! tm = Some y /\ tw_data y = cp /\ tw_cb y = TimeoutCb).
Proof.
  intros Hl Hfd Hev. destruct (create_io_event el ConnIo cp) as [io el1] eqn:E1.
  pose proof (create_io_event_ok el ConnIo cp Hl) as H1'. rewrite E1 in H1'.
  destruct H1' as (Hl1 & Hio & Hn1 & Hios1 & Htm1 & _).
  destruct (create_timer el1 TimeoutCb cp true) as [tm el2] eqn:E2.
  pose proof (create_timer_ok el1 TimeoutCb cp true Hl1) as H2'. rewrite E2 in H2'.
  destruct H2' as (Hl2 & Htm & Hn2 & Hios2 & Htm2 & _).
  assert (Hx : el_ios el2 !! io = Some (mkIOW (mkIo false 0 (el_fresh_events el)) ConnIo cp))
    by (rewrite Hios2, Hios1; apply lookup_insert_eq).
  assert (Hm : is_mask events) by (destruct Hev as [-> | ->]; done).
  destruct (start_io_event_ok el2 io _ fd events Hl2 Hx Hfd Hm) as (el3 & E3 & Hl3 & (Hsb & Htm3 & _) & Hi & iov & Hiov & Hact & Hfd3);
    [done|].
  assert (Hy : el_timers el3 !! tm = Some (mkTW (mkTimer false 0 0) TimeoutCb cp true))
    by (rewrite Htm3, Htm2; apply lookup_insert_eq).
  destruct (start_timer_ok el3 tm _ tick Hl3 Hy) as (el4 & t & E4 & Hl4 & (Hios4 & _) & Htm4 & _).
  exists el3, el4. split_and!; [done|done|done| | |].
  - intros i Hi'. rewrite Hios4, Htm4, Hsb, Hios2, Hios1, Htm3, Htm2, Htm1 by lia.
    by rewrite !lookup_insert_ne by lia.
  - rewrite Hios4, Hiov. eexists. split_and!; [done..|]. cbn.
    destruct (ok_io _ Hl3 _ _ Hiov Hact) as [_ Hm3]. cbn in Hm3.
    unfold interest in Hi. rewrite Hiov, Hx in Hi. cbn in Hi. rewrite Hact in Hi. cbn in Hi.
    rewrite trans_from_mask in Hi by done. injection Hi as _ Hi. rewrite Hi.
    by destruct Hev as [-> | ->].
  - rewrite Htm4. eexists. split; [apply lookup_insert_eq|done].
Qed.

Lemma create_connection_ok w s sock :
  worker_ok w -> nm_heap (w_nm w) !! s = Some sock -> s_kind sock = TCPSocket ->
  0 <= s_fd sock < 2 ^ 30 -> w_conns w <> [] -> slot (w_conns w) (s_fd sock) = None ->
  (forall t io tm b, sds_repr b [] 0 ->
    P (rcvd (w_kernel w) (s_fd sock)) (sent (w_kernel w) (s_fd sock)) (fresh_conn s t io tm b)) ->
  exists w', create_connection w (Some s) = Ok (Some (w_next w), w') /\ worker_ok w' /\
    slot (w_conns w') (s_fd sock) = Some (w_next w) /\
    (forall fd, fd <> s_fd sock -> slot (w_conns w') fd = slot (w_conns w) fd) /\
    w_kernel w' = w_kernel w /\ w_mq w' = w_mq w /\ w_pipe w' = w_pipe w /\ w_nm w' = w_nm w /\
    w_conns w' <> [] /\ exists t io tm b, w_heap w' = <[w_next w := fresh_conn s t io tm b]> (w_heap w) /\
      sds_repr b [] 0.
Proof.
  intros Hw Hsk Hk Hfd Hne Hs HP. unfold create_connection. rewrite Hsk. cbn [the mbind outcome_bind].
  unfold ZF_INVALID_SOCKET. replace (s_fd sock =? -1) with false by lia. rewrite Hk.
  destruct (new_connection_ok s) as (b & Hb & ->). cbn [mbind outcome_bind].
  destruct (create_io_event (w_el w) ConnIo (w_next w)) as [io el1] eqn:E1.
  destruct (create_timer el1 TimeoutCb (w_next w) true) as [tm el2] eqn:E2.
  set (ev := if negb (opt_ssl_open (w_opts w) =? 0) then Z.lor READ WRITE else READ).
  pose proof (watch_new_ok (w_el w) (s_fd sock) (w_next w) (opt_tick (w_opts w)) ev (wk_loop _ Hw)) as Hwn.
  rewrite E1, E2 in Hwn. destruct Hwn as (el3 & el4 & E3 & E4 & Hl4 & Hold & Hio & Htm); [lia| |].
  { unfold ev. destruct (negb _); auto. }
  set (c := set_watchers (set_last (fresh_conn s 0 0 0 b) (now (w_el w))) io tm).
  unfold enable_events, start_conn_timer, conn_fd, conn_socket. cbn [w_nm w_el w_opts].
  change (c_s c) with s. change (c_watcher c) with io. change (c_timer c) with tm.
  rewrite Hsk. cbn [the mbind outcome_bind].
  fold ev. rewrite E3. cbn [mbind outcome_bind upd_el w_el w_opts]. rewrite E4. cbn [mbind outcome_bind upd_el w_conns].
  destruct (put_at_fd_ok (w_conns w) (s_fd sock) (w_next w) Hfd) as (v & -> & Hv1 & Hv2 & Hv3 & _); [done|].
  cbn [mbind outcome_bind]. eexists. split; [done|]. cbn.
  assert (Hfresh : w_heap w !! w_next w = None).
  { destruct (w_heap w !! w_next w) eqn:E; [|done]. apply (wk_heap _ Hw) in E as [? _]. lia. }
  split.
  - constructor; cbn; [done| |].
    + intros fd cp Hcp. destruct (decide (fd = s_fd sock)) as [->|Hne'].
      * assert (cp = w_next w) as -> by congruence. exists c. split; [apply lookup_insert_eq|].
        constructor; cbn; try done; [eauto|by apply HP].
      * rewrite Hv2 in Hcp by done. destruct (wk_slots _ Hw _ _ Hcp) as (c2 & Hc2 & Hok2).
        exists c2. rewrite lookup_insert_ne by congruence. split; [done|].
        pose proof (wk_loop _ Hw) as Hl. destruct Hok2 as [G1 G2 (x & Hx & G3) (y & Hy & G4) G5 G6 G7 G8].
        constructor; cbn; try done.
        -- exists x. rewrite (proj1 (Hold _ (ok_ios _ Hl _ _ Hx))). done.
        -- exists y. rewrite (proj2 (Hold _ (ok_timers _ Hl _ _ Hy))). done.
    + intros cp c2 [[<- <-]|[Hne' Hc2]]%lookup_insert_Some.
      * split; [lia|]. eauto.
      * destruct (wk_heap _ Hw _ _ Hc2) as (Hlt & fd & Hf). split; [lia|]. exists fd.
        rewrite Hv2; [done|]. intros ->. congruence.
  - split_and!; try done; [by intros ->; simpl in *; lia|]. exists (now (w_el w)), io, tm, b. done.
Qed.

(** ** Events *)

(** The vector access behind a descriptor that passed the range tests. *)
Lemma get_slot_in_range {A} (v : list (option A)) i :
  0 <= i < Z.of_nat (length v) -> Socket.get_slot v i = Ok (slot v i).
Proof.
  intros Hi. unfold Socket.get_slot, slot. decide_tests.
  destruct (lookup_lt_is_Some_2 v (Z.to_nat i)) as [x Hx]; [lia|]. by rewrite Hx.
Qed.

(** What the protocol must offer for a readable descriptor. *)
Definition can_read w fd : Prop := forall cp c,
  slot (w_conns w) fd = Some cp -> w_heap w !! cp = Some c ->
  exists b f, ready c b f /\ P_reads (rcvd (w_kernel w) fd) (sent (w_kernel w) fd) c b.

(** [R] is what the protocol keeps true of a connection between events. *)
Definition at_rest (R : Connection -> Prop) w : Prop := forall fd cp c,
  slot (w_conns w) fd = Some cp -> w_heap w !! cp = Some c -> R c.

Lemma at_rest_event R fd w w' :
  at_rest R w -> isolated fd w w' ->
  (forall cp c, slot (w_conns w') fd = Some cp -> w_heap w' !! cp = Some c -> R c) ->
  at_rest R w'.
Proof.
  intros HR Hi Hfd fd' cp c Hs Hc. destruct (decide (fd' = fd)) as [->|Hne]; [by eapply Hfd|].
  rewrite (is_slots _ _ _ Hi) in Hs by done. apply (HR fd' cp c Hs).
  by rewrite <-(is_heap _ _ _ Hi fd' cp).
Qed.

Lemma read_io_ok process w fd :
  handler_ok process -> worker_ok w -> 0 <= fd < 2 ^ 31 -> can_read w fd ->
  exists w', read_io process w fd = Ok w' /\ worker_ok w' /\ isolated fd w w' /\
    ((w' = w /\ slot (w_conns w) fd = None) \/
     exists cp c b f, slot (w_conns w) fd = Some cp /\ w_heap w !! cp = Some c /\ ready c b f /\
       read_result process w fd cp c b w').
Proof.
  intros Hp Hw Hfd Hr. unfold read_io, ZF_INVALID_SOCKET. replace (fd =? -1) with false by lia.
  rewrite u64_small by lia.
  assert (Hnone : slot (w_conns w) fd = None -> exists w', Ok w = Ok w' /\ worker_ok w' /\ isolated fd w w' /\
    ((w' = w /\ slot (w_conns w) fd = None) \/
     exists cp c b f, slot (w_conns w) fd = Some cp /\ w_heap w !! cp = Some c /\ ready c b f /\
       read_result process w fd cp c b w')).
  { intros Hs. exists w. split_and!; [done|done|apply isolated_refl|by left]. }
  destruct (Z.leb_spec (Z.of_nat (length (w_conns w))) fd).
  { apply Hnone. destruct (slot (w_conns w) fd) eqn:Hs; [|done]. apply slot_Some_range in Hs. lia. }
  rewrite get_slot_in_range by lia. cbn [mbind outcome_bind].
  destruct (slot (w_conns w) fd) as [cp|] eqn:Hs; [|by apply Hnone].
  destruct (worker_conn w fd cp Hw Hs) as (c & Hc & Hok & -> & _). cbn [mbind outcome_bind].
  rewrite (ck_kind _ _ _ _ Hok). destruct (Hr cp c Hs Hc) as (b & f & Hready & HPr).
  destruct (tcp_read_io_ok process w fd cp c b f Hp Hw Hs Hc Hready HPr) as (w' & -> & Hres).
  exists w'. split_and!; [done|apply Hres|apply Hres|]. right. exists cp, c, b, f. auto.
Qed.

Lemma write_io_ok fuel w fd :
  P_writes -> worker_ok w -> 0 <= fd < 2 ^ 31 -> fd < Z.of_nat (length (nm_sockets (w_nm w))) ->
  exists w', write_io fuel w fd = Ok w' /\ worker_ok w' /\ isolated fd w w' /\
    (w' = w \/ exists cp c, slot (w_conns w) fd = Some cp /\ w_heap w !! cp = Some c /\
       (slot (w_conns w') fd = None \/
        slot (w_conns w') fd = Some cp /\ exists c', w_heap w' !! cp = Some c' /\ same_input c c')).
Proof.
  intros HPw Hw Hfd Hn. unfold write_io, ZF_INVALID_SOCKET. replace (fd =? -1) with false by lia.
  rewrite u64_small by lia.
  assert (Hsame : exists w', Ok w = Ok w' /\ worker_ok w' /\ isolated fd w w' /\
    (w' = w \/ exists cp c, slot (w_conns w) fd = Some cp /\ w_heap w !! cp = Some c /\
       (slot (w_conns w') fd = None \/
        slot (w_conns w') fd = Some cp /\ exists c', w_heap w' !! cp = Some c' /\ same_input c c'))).
  { exists w. split_and!; [done|done|apply isolated_refl|by left]. }
  destruct (Z.leb_spec (Z.of_nat (length (w_conns w))) fd); [done|].
  rewrite (get_slot_in_range (nm_sockets (w_nm w))) by lia. cbn [mbind outcome_bind].
  destruct (slot (nm_sockets (w_nm w)) fd) as [sp|]; [|done].
  rewrite get_slot_in_range by lia. cbn [mbind outcome_bind].
  destruct (slot (w_conns w) fd) as [cp|] eqn:Hs; [|done].
  destruct (worker_conn w fd cp Hw Hs) as (c & Hc & Hok & -> & _). cbn [mbind outcome_bind].
  rewrite (ck_kind _ _ _ _ Hok).
  destruct (tcp_write_io_ok w fd cp c HPw Hw Hs Hc) as (w' & -> & H1' & H2' & Hres).
  exists w'. split_and!; [done..|]. right. eauto.
Qed.

(** Any combination of readiness on a descriptor the table knows. *)
Lemma conn_io_cb_ok R process fuel w fd revents :
  handler_ok process -> P_writes -> worker_ok w -> 0 <= fd < 2 ^ 31 ->
  fd < Z.of_nat (length (nm_sockets (w_nm w))) -> can_read w fd ->
  (forall c c', same_input c c' -> R c -> R c') ->
  (forall w' cp' c' cp c b f, slot (w_conns w) fd = Some cp -> w_heap w !! cp = Some c -> R c -> ready c b f ->
     read_result process w fd cp c b w' -> slot (w_conns w') fd = Some cp' -> w_heap w' !! cp' = Some c' ->
     R c') ->
  at_rest R w ->
  exists w', conn_io_cb process fuel w fd revents = Ok w' /\ worker_ok w' /\ isolated fd w w' /\
    at_rest R w'.
Proof.
  intros Hp HPw Hw Hfd Hn Hr HRin HRread HR. unfold conn_io_cb.
  assert (exists w1, (if negb (Z.land revents READ =? 0) then read_io process w fd else Ok w) = Ok w1 /\
    worker_ok w1 /\ isolated fd w w1 /\ at_rest R w1) as (w1 & -> & Hw1 & Hi1 & HR1).
  { destruct (negb _); [|exists w; split_and!; auto using isolated_refl].
    destruct (read_io_ok process w fd Hp Hw Hfd Hr) as (w1 & E & Hw1 & Hi1 & Hcase).
    exists w1. split_and!; [done..|]. destruct Hcase as [[-> _]|(cp & c & b & f & Hs & Hc & Hrd & Hres)]; [done|].
    eapply at_rest_event; [done|done|]. intros cp' c' Hs' Hc'.
    by apply (HRread w1 cp' c' cp c b f Hs Hc (HR _ _ _ Hs Hc) Hrd Hres Hs' Hc'). }
  cbn [mbind outcome_bind]. destruct (negb _); [|eauto].
  destruct (write_io_ok fuel w1 fd HPw Hw1 Hfd) as (w2 & -> & Hw2 & Hi2 & Hcase).
  { by rewrite (is_sockets _ _ _ Hi1). }
  exists w2. split_and!; [done..|by eapply isolated_trans|].
  destruct Hcase as [-> |(cp & c & Hs & Hc & Hres)]; [done|].
  eapply at_rest_event; [done|done|]. intros cp' c' Hs' Hc'.
  destruct Hres as [?|(Hs2 & c2 & Hc2 & Hsi)]; [congruence|].
  assert (cp' = cp) as -> by congruence. assert (c2 = c') as -> by congruence.
  eapply HRin; [done|]. by eapply HR1.
Qed.

Lemma process_timeout_ok w fd cp :
  worker_ok w -> slot (w_conns w) fd = Some cp ->
  exists w' c, w_heap w !! cp = Some c /\ process_timeout w cp = Ok w' /\ worker_ok w' /\ isolated fd w w' /\
    if u64 (now (w_el w) - c_last_interaction c) >? opt_connection_timeout (w_opts w)
    then slot (w_conns w') fd = None else w' = w.
Proof.
  intros Hw Hs. destruct (worker_conn w fd cp Hw Hs) as (c & Hc & Hok & Ec & _).
  unfold process_timeout. rewrite Ec. cbn [mbind outcome_bind].
  destruct (u64 _ >? _) eqn:Et.
  - destruct (close_conn_ok w fd cp Hw Hs) as (c1 & w' & Hc1 & -> & Hcl & Hw').
    exists w', c. rewrite Et. split_and!; try done; [|apply Hcl]. by eapply closed_isolated.
  - exists w, c. rewrite Et. split_and!; done.
Qed.

(** Closing every slot from [i] on. *)
Lemma close_slots_ok n i w :
  worker_ok w -> (i + n <= length (w_conns w))%nat ->
  exists w', close_slots w i n = Ok w' /\ worker_ok w' /\ length (w_conns w') = length (w_conns w) /\
    (forall fd, Z.of_nat i <= fd < Z.of_nat (i + n) -> slot (w_conns w') fd = None) /\
    (forall fd, ~ Z.of_nat i <= fd < Z.of_nat (i + n) -> slot (w_conns w') fd = slot (w_conns w) fd).
Proof.
  revert i w. induction n as [|n IH]; intros i w Hw Hn.
  - exists w. split_and!; try done. intros; lia.
  - cbn [close_slots]. rewrite get_slot_in_range by lia. cbn [mbind outcome_bind].
    destruct (slot (w_conns w) (Z.of_nat i)) as [cp|] eqn:Hs.
    + destruct (close_conn_ok w _ cp Hw Hs) as (c & w1 & _ & -> & Hcl & Hw1). cbn [mbind outcome_bind].
      destruct (IH (S i) w1 Hw1) as (w2 & -> & Hw2 & Hl2 & Ha & Hb).
      { rewrite (cl_length _ _ _ _ _ Hcl). lia. }
      exists w2. split_and!; [done|done|by rewrite Hl2, (cl_length _ _ _ _ _ Hcl)| |].
      * intros fd Hfd. destruct (decide (fd = Z.of_nat i)) as [->|]; [|apply Ha; lia].
        rewrite Hb by lia. apply Hcl.
      * intros fd Hfd. rewrite Hb by lia. apply Hcl. lia.
    + destruct (IH (S i) w Hw) as (w2 & -> & Hw2 & Hl2 & Ha & Hb); [lia|].
      exists w2. split_and!; [done|done|done| |].
      * intros fd Hfd. destruct (decide (fd = Z.of_nat i)) as [->|]; [|apply Ha; lia].
        rewrite Hb by lia. done.
      * intros fd Hfd. apply Hb. lia.
Qed.

Lemma close_all_conns_ok w :
  worker_ok w ->
  exists w', close_all_conns w = Ok w' /\ worker_ok w' /\ w_heap w' = ∅ /\
    forall fd, slot (w_conns w') fd = None.
Proof.
  intros Hw. destruct (close_slots_ok (length (w_conns w)) 0 w Hw) as (w' & E & Hw' & Hl & Ha & _); [lia|].
  assert (Hnone : forall fd, slot (w_conns w') fd = None).
  { intros fd. destruct (slot (w_conns w') fd) eqn:E'; [|done].
    pose proof (slot_Some_range _ _ _ E') as Hr. rewrite Ha in E'; [done|lia]. }
  exists w'. split_and!; [done|done| |done]. apply map_eq. intros cp. rewrite lookup_empty.
  destruct (w_heap w' !! cp) eqn:E'; [|done]. apply (wk_heap _ Hw') in E' as (_ & fd & Hfd).
  by rewrite Hnone in Hfd.
Qed.

End WorkerFacts.

(** ** Changing the protocol's invariant *)

Section Strengthen.
Context {K Q : Type} `{KernelLaws K} `{!Traffic K} `{Fifo Q sptr}.
Implicit Types (w : worker K Q) (P : bytes -> bytes -> Connection -> Prop).

Lemma worker_ok_change P1 P2 w :
  worker_ok P1 w ->
  (forall fd cp c, slot (w_conns w) fd = Some cp -> w_heap w !! cp = Some c ->
    P1 (rcvd (w_kernel w) fd) (sent (w_kernel w) fd) c ->
    P2 (rcvd (w_kernel w) fd) (sent (w_kernel w) fd) c) ->
  worker_ok P2 w.
Proof.
  intros [Hl Hs Hh] HP. constructor; [done| |done].
  intros fd cp Hcp. destruct (Hs fd cp Hcp) as (c & Hc & []). exists c. split; [done|].
  constructor; eauto.
Qed.

Lemma worker_ok_inv P w fd cp c :
  worker_ok P w -> slot (w_conns w) fd = Some cp -> w_heap w !! cp = Some c ->
  P (rcvd (w_kernel w) fd) (sent (w_kernel w) fd) c.
Proof.
  intros Hw Hs Hc. destruct (wk_slots _ _ Hw _ _ Hs) as (c1 & Hc1 & Hok).
  assert (c1 = c) as -> by congruence. apply Hok.
Qed.

(** After an isolated operation, the invariant of one connection is enough. *)
Lemma worker_ok_isolated P fd w w' :
  worker_ok P w -> worker_ok (fun _ _ _ => True) w' -> isolated fd w w' ->
  (forall cp c, slot (w_conns w') fd = Some cp -> w_heap w' !! cp = Some c ->
    P (rcvd (w_kernel w') fd) (sent (w_kernel w') fd) c) ->
  worker_ok P w'.
Proof.
  intros Hw Hw' Hi HP. eapply worker_ok_change; [exact Hw'|]. intros fd' cp c Hs Hc _.
  destruct (decide (fd' = fd)) as [->|Hne]; [by eapply HP|].
  destruct (is_traffic _ _ _ Hi fd' Hne) as [-> ->].
  rewrite (is_slots _ _ _ Hi) in Hs by done. eapply worker_ok_inv; [done|done|].
  by rewrite <-(is_heap _ _ _ Hi fd' cp).
Qed.

End Strengthen.
