(* ===== verification/SimpleServer.v ===== *)
(** * The nshead echo server (examples/demo/simple-tcp-server)

    [SimpleWorker] cuts the byte stream of a TCP connection into requests, each
    a 36-byte nshead followed by the body whose length the head gives, and
    echoes them.  The theorems are about the server made of this handler and
    the framework's worker: any sequence of events with any segmentation of the
    input and any partial writes. *)

From S2P Require Import Prelude Queue Sds Event Socket Config Worker WorkerFacts.

(** ** nshead (src/util/nshead.h) *)

Definition NSHEAD_MAGICNUM : Z := 4218459028. (* 0xfb709394 *)
Definition sizeof_nshead : Z := 36.

(** [hdr->magic_num] and [hdr->body_len] of a head at the start of a block. *)
Definition magic_num (m : bytes) : outcome Z := b ← read_block m 24 4; Ok (le_val b).
Definition body_len (m : bytes) : outcome Z := b ← read_block m 32 4; Ok (le_val b).

(** ** SimpleWorker *)

Definition STATE_IDLE : Z := 0.
Definition STATE_HEAD : Z := 1.
Definition STATE_BODY : Z := 2.

Section SimpleWorker.
Context {K Q : Type} `{Kernel K} `{Fifo Q sptr} `{Allocator}.
Implicit Type w : worker K Q.

Definition process_request w (cp : cptr) (header body : bytes) : outcome (Z * worker K Q) :=
  match zmalloc_block (u64 (Z.of_nat (length header) + Z.of_nat (length body))) with
  | None => Trap NullDeref
  | Some buf =>
      buf ← memcpy buf 0 header;
      buf ← memcpy buf (Z.of_nat (length header)) body;
      r ← add_reply w cp buf;
      Ok (WORKER_OK, snd r)
  end.

Definition process_io_buffer w (cp : cptr) : outcome (Z * worker K Q) :=
  c ← conn w cp;
  if c_receive_state c =? STATE_IDLE then
    Ok (WORKER_OK, put_conn w cp (reset c STATE_HEAD sizeof_nshead))
  else if c_receive_state c =? STATE_HEAD then
    magic ← magic_num (sh_buf (c_io_buffer c));
    if negb (magic =? NSHEAD_MAGICNUM) then Ok (WORKER_ERROR, w) else
    len ← body_len (sh_buf (c_io_buffer c));
    Ok (WORKER_OK, put_conn w cp (expect_next c STATE_BODY len))
  else if c_receive_state c =? STATE_BODY then
    len ← body_len (sh_buf (c_io_buffer c));
    header ← read_block (sh_buf (c_io_buffer c)) 0 sizeof_nshead;
    body ← read_block (sh_buf (c_io_buffer c)) sizeof_nshead len;
    r ← process_request w cp header body;
    let '(ret, w) := r in
    if negb (ret =? WORKER_OK) then Ok (ret, w) else
    c ← conn w cp;
    c ← shrink_processed c STATE_HEAD sizeof_nshead;
    Ok (WORKER_OK, put_conn w cp c)
  else Ok (WORKER_OK, w).

End SimpleWorker.

(** ** Frames *)

Definition field (m : bytes) (off : nat) : Z := le_val (take 4 (drop off m)).

(** A complete request. *)
Definition frame (m : bytes) : Prop :=
  is_bytes m /\ (36 <= length m)%nat /\ field m 24 = NSHEAD_MAGICNUM /\
  Z.of_nat (length m) = 36 + field m 32.

(** Where the handler is in the stream, with [b] in the buffer. *)
Inductive phase (c : Connection) (b : bytes) : Prop :=
| ph_idle : c_receive_state c = STATE_IDLE -> c_bytes_expected c = 1 -> c_bytes_processed c = 0 ->
    phase c b
| ph_head : c_receive_state c = STATE_HEAD -> c_bytes_expected c = 36 -> c_bytes_processed c = 0 ->
    phase c b
| ph_body : c_receive_state c = STATE_BODY -> c_bytes_processed c = 36 -> (36 <= length b)%nat ->
    field b 24 = NSHEAD_MAGICNUM -> c_bytes_expected c = field b 32 -> phase c b.

(** The stream invariant: what was received is the answered requests followed
    by the buffer; what was sent and what is queued are the answers. *)
Definition echo_inv (r s : bytes) (c : Connection) : Prop :=
  exists b f answered,
    sds_repr (c_io_buffer c) b f /\ is_bytes b /\ Forall frame answered /\
    r = mjoin answered ++ b /\ s ++ pending c = mjoin answered /\ phase c b.

Lemma field_range m off : is_bytes m -> 0 <= field m off < 2 ^ 32.
Proof.
  intros Hm. unfold field. pose proof (le_val_range (take 4 (drop off m))) as Hr.
  destruct Hr as [H1 H2]; [by apply Forall_take, Forall_drop|]. split; [done|].
  eapply Z.lt_le_trans; [exact H2|]. apply Z.pow_le_mono_r; [lia|]. rewrite length_take. lia.
Qed.

Lemma read_field b rest off :
  (off + 4 <= length b)%nat ->
  (x ← read_block (b ++ rest) (Z.of_nat off) 4; Ok (le_val x)) = Ok (field b off).
Proof.
  intros Hl. unfold read_block, field. rewrite length_app. decide_tests. cbn [mbind outcome_bind].
  rewrite Nat2Z.id, drop_app_le, take_app_le by (rewrite ?length_drop; lia). done.
Qed.

Lemma field_app b d off : (off + 4 <= length b)%nat -> field (b ++ d) off = field b off.
Proof.
  intros Hl. unfold field. by rewrite drop_app_le, take_app_le by (rewrite ?length_drop; lia).
Qed.

Lemma field_take b n off : (off + 4 <= n)%nat -> field (take n b) off = field b off.
Proof.
  intros Hl. unfold field. rewrite skipn_firstn_comm, take_take. f_equal. f_equal. lia.
Qed.

Lemma sds_repr_det s b f b' f' : sds_repr s b f -> sds_repr s b' f' -> b' = b.
Proof.
  intros [L1 _ (r1 & B1 & _) _] [L2 _ (r2 & B2 & _) _]. rewrite B1 in B2.
  assert (length b = length b') by lia.
  apply app_inj_1 in B2 as [? _]; [congruence|done].
Qed.

Section Echo.
Context {K Q : Type} `{KernelLaws K} `{!Traffic K} `{Fifo Q sptr} `{Allocator}.
Hypothesis alloc_total : forall n, alloc_ok n = true.
Implicit Types (w : worker K Q) (c : Connection).

Abbreviation simple := (process_io_buffer (K := K) (Q := Q)).
Abbreviation ok := (worker_ok (K := K) (Q := Q) echo_inv).
Definition anything (r s : bytes) (c : Connection) : Prop := True.

Lemma echo_last r s c t : echo_inv r s c -> echo_inv r s (set_last c t).
Proof.
  intros (b & f & ans & ? & ? & ? & ? & ? & Hph). exists b, f, ans. split_and!; try done.
  destruct Hph; [apply ph_idle|apply ph_head|apply ph_body]; done.
Qed.

Lemma echo_writes : P_writes echo_inv.
Proof.
  intros r s c n l wr x (b & f & ans & ? & ? & ? & ? & Es & Hph) Hp. exists b, f, ans.
  split_and!; try done; [by rewrite <-app_assoc, <-Hp|].
  destruct Hph; [apply ph_idle|apply ph_head|apply ph_body]; done.
Qed.

(** *** One turn of the handler, by state *)

Lemma simple_idle w cp c :
  w_heap w !! cp = Some c -> c_receive_state c = STATE_IDLE ->
  simple w cp = Ok (WORKER_OK, put_conn w cp (reset c STATE_HEAD sizeof_nshead)).
Proof. intros Hc Hst. unfold process_io_buffer, conn. rewrite Hc. cbn [the mbind outcome_bind]. by rewrite Hst. Qed.

Lemma simple_head w cp c b f :
  w_heap w !! cp = Some c -> c_receive_state c = STATE_HEAD -> sds_repr (c_io_buffer c) b f ->
  (36 <= length b)%nat ->
  simple w cp = if field b 24 =? NSHEAD_MAGICNUM
                then Ok (WORKER_OK, put_conn w cp (expect_next c STATE_BODY (field b 32)))
                else Ok (WORKER_ERROR, w).
Proof.
  intros Hc Hst [_ _ (rest & Hb & _) _] Hl. unfold process_io_buffer, conn, magic_num, body_len.
  rewrite Hc. cbn [the mbind outcome_bind]. rewrite Hst, Hb.
  change (STATE_HEAD =? STATE_IDLE) with false. change (STATE_HEAD =? STATE_HEAD) with true. cbn iota.
  change 24 with (Z.of_nat 24). change 32 with (Z.of_nat 32). rewrite !read_field by lia.
  cbn [mbind outcome_bind]. change (Z.of_nat 24) with 24. by destruct (field b 24 =? NSHEAD_MAGICNUM).
Qed.

(** The reply buffer is the head followed by the body. *)
Lemma process_request_eq w cp header body :
  Z.of_nat (length header + length body) < 2 ^ 64 ->
  process_request w cp header body = (r ← add_reply w cp (header ++ body); Ok (WORKER_OK, snd r)).
Proof.
  intros Hl. unfold process_request, zmalloc_block. rewrite alloc_total, u64_small by lia.
  replace (Z.to_nat (Z.of_nat (length header) + Z.of_nat (length body))) with (length header + length body)%nat by lia.
  pose proof (fresh_bytes_length (length header + length body)) as Hf.
  set (m := fresh_bytes _) in *.
  rewrite (memcpy_front m header) by lia. cbn [mbind outcome_bind].
  rewrite <-(app_nil_r (header ++ drop (length header) m)), <-app_assoc.
  rewrite (memcpy_app header (drop (length header) m) [] body) by (rewrite ?length_drop; lia).
  cbn [mbind outcome_bind]. by rewrite app_nil_r.
Qed.

Lemma range_tail (b : bytes) n :
  (n <= length b)%nat -> range_slice b (Z.of_nat n) (-1) = drop n b.
Proof.
  intros Hn. unfold range_slice, range_index. decide_tests.
  rewrite Nat2Z.id. apply take_ge. rewrite length_drop. lia.
Qed.

Lemma simple_body w fd cp c b f :
  worker_ok anything w -> slot (w_conns w) fd = Some cp -> w_heap w !! cp = Some c ->
  c_receive_state c = STATE_BODY -> sds_repr (c_io_buffer c) b f -> is_bytes b ->
  c_bytes_processed c = 36 -> c_bytes_expected c = field b 32 ->
  36 + field b 32 <= Z.of_nat (length b) ->
  let n := Z.to_nat (36 + field b 32) in
  exists w' c' buf f', simple w cp = Ok (WORKER_OK, w') /\ worker_ok anything w' /\ isolated fd w w' /\
    slot (w_conns w') fd = Some cp /\ w_heap w' !! cp = Some c' /\ w_kernel w' = w_kernel w /\
    sds_repr buf (drop n b) f' /\
    c' = set_frame (set_buffer (set_replies c (s32 (c_reply_list_size c + 1))
           (c_reply_list c ++ [take n b]) (c_bytes_written c)) buf) STATE_HEAD 36 0 /\
    interest (w_el w') (c_watcher c) = Some (fd, Z.lor READ WRITE).
Proof.
  intros Hw Hs Hc Hst Hb Hbytes Hpr Hexp Hle n.
  pose proof (field_range b 32 Hbytes) as Hfr. pose proof (repr_int _ _ _ Hb) as Hint. unfold INT_MAX in Hint.
  assert (Hn : Z.of_nat n = 36 + field b 32) by lia.
  pose proof Hb as [_ _ (rest & Hbuf & _) _].
  unfold process_io_buffer, conn. rewrite Hc. cbn [the mbind outcome_bind]. rewrite Hst.
  change (STATE_BODY =? STATE_IDLE) with false. change (STATE_BODY =? STATE_HEAD) with false.
  change (STATE_BODY =? STATE_BODY) with true. cbn iota. rewrite Hbuf.
  unfold body_len. change 32 with (Z.of_nat 32) at 1. rewrite read_field by lia. cbn [mbind outcome_bind].
  assert (Hh : read_block (b ++ 0 :: rest) 0 sizeof_nshead = Ok (take 36 b)).
  { rewrite <-(take_drop 36 b) at 1. rewrite <-app_assoc. apply read_block_0. rewrite length_take. unfold sizeof_nshead. lia. }
  assert (Hbd : read_block (b ++ 0 :: rest) sizeof_nshead (field b 32) = Ok (take (n - 36) (drop 36 b))).
  { rewrite <-(take_drop 36 b) at 1. rewrite <-(take_drop (n - 36) (drop 36 b)) at 1. rewrite <-!app_assoc.
    apply read_block_app; rewrite length_take, ?length_drop; unfold sizeof_nshead; lia. }
  rewrite Hh, Hbd. cbn [mbind outcome_bind].
  rewrite process_request_eq by (rewrite !length_take, length_drop; lia).
  rewrite take_take_drop. replace (36 + (n - 36))%nat with n by lia.
  destruct (add_reply_ok anything w fd cp c (take n b) Hw Hs Hc) as (w1 & c1 & -> & Hw1 & Hi1 & Hs1 & Hc1 & Ec1 & Hk1 & _ & Hint1); [|done|].
  { unfold reply_ok, INT_MAX. split; [|rewrite length_take; lia]. intros E. apply (f_equal length) in E.
    rewrite length_take in E. simpl in E. lia. }
  cbn [mbind outcome_bind snd]. change (WORKER_OK =? WORKER_OK) with true. cbn [negb].
  rewrite Hc1. cbn [the mbind outcome_bind]. unfold shrink_processed.
  assert (Hp1 : c_bytes_processed c1 = 36 /\ c_bytes_expected c1 = field b 32 /\ c_io_buffer c1 = c_io_buffer c) by (by subst c1).
  destruct Hp1 as (-> & -> & ->). rewrite u64_small, s32_small by lia. rewrite <-Hn.
  destruct (sdsrange_repr (c_io_buffer c) b f (Z.of_nat n) (-1) Hb) as (buf & -> & Hbuf'); [unfold INT_MIN, INT_MAX; lia|by vm_compute|].
  rewrite range_tail in Hbuf' by lia. cbn [mbind outcome_bind].
  set (c2 := set_frame (set_buffer c1 buf) STATE_HEAD sizeof_nshead 0).
  destruct (wk_slots _ _ Hw1 _ _ Hs1) as (c1' & Hc1' & Hok1). assert (c1' = c1) as -> by congruence.
  destruct (store_conn anything w1 (put_conn w1 cp c2) fd cp c1 c2) as (Hw2 & _ & Hi2 & Hs2 & Hc2); try done; try apply Hok1.
  eexists _, c2, buf, _. split_and!; [done|done|by eapply isolated_trans|done|done|done|exact Hbuf'|by subst c1|done].
Qed.

Lemma ok_anything w : ok w -> worker_ok anything w.
Proof. intros Hw. by eapply worker_ok_change. Qed.

(** A request taken off the buffer keeps the stream invariant. *)
Lemma echo_answer r s c b n c' buf f' :
  echo_inv r s c -> sds_repr (c_io_buffer c) b f' -> is_bytes b -> frame (take n b) ->
  written_ok c -> (exists f, sds_repr buf (drop n b) f) ->
  c' = set_frame (set_buffer (set_replies c (s32 (c_reply_list_size c + 1))
         (c_reply_list c ++ [take n b]) (c_bytes_written c)) buf) STATE_HEAD 36 0 ->
  echo_inv r s c'.
Proof.
  intros (b0 & f0 & ans & Hb0 & _ & Hfr & Hr & Hsent & _) Hb Hbytes Hframe Hwr (f & Hbuf) ->.
  assert (b0 = b) as -> by (by eapply sds_repr_det).
  exists (drop n b), f, (ans ++ [take n b]). split_and!; [done|by apply Forall_drop| | | |].
  - apply Forall_app. split; [done|]. by constructor.
  - rewrite Hr. etrans; [|symmetry; apply (f_equal (.++ drop n b)), join_app].
    rewrite <-app_assoc. f_equal. csimpl. by rewrite app_nil_r, take_drop.
  - transitivity (mjoin ans ++ take n b).
    + rewrite <-Hsent, <-app_assoc. f_equal. unfold pending.
      cbn [set_frame set_buffer set_replies c_reply_list c_bytes_written].
      etrans; [apply f_equal, join_app|]. csimpl. rewrite app_nil_r.
      apply drop_app_le. unfold written_ok in Hwr. destruct (c_reply_list c) as [|x l]; csimpl; [lia|].
      rewrite length_app. lia.
    + symmetry. etrans; [apply join_app|]. csimpl. by rewrite app_nil_r.
  - by apply ph_head.
Qed.

Lemma simple_handler_ok : handler_ok echo_inv simple.
Proof.
  intros w fd cp c b f Hw Hs Hc Hb Hpos Hdue.
  destruct (wk_slots _ _ Hw _ _ Hs) as (c0 & Hc0 & Hok). assert (c0 = c) as -> by congruence.
  pose proof (ck_inv _ _ _ _ _ Hok) as HP. pose proof HP as (b0 & f0 & ans & Hb0 & Hbytes & Hfr & Hr & Hsent & Hph).
  assert (b0 = b) as -> by (by eapply sds_repr_det).
  assert (Hput : forall c', same_identity c c' -> c_reply_list_size c' = c_reply_list_size c ->
    c_reply_list c' = c_reply_list c -> c_bytes_written c' = c_bytes_written c ->
    echo_inv (rcvd (w_kernel w) fd) (sent (w_kernel w) fd) c' ->
    ok (put_conn w cp c') /\ isolated fd w (put_conn w cp c') /\ slot (w_conns (put_conn w cp c')) fd = Some cp).
  { intros c' Hid E1 E2 E3 HP'.
    destruct (store_conn echo_inv w (put_conn w cp c') fd cp c c') as (? & _ & ? & ? & _); try done;
      unfold written_ok; rewrite ?E1, ?E2, ?E3; apply Hok. }
  destruct Hph as [Hst He Hp|Hst He Hp|Hst Hp Hl Hm He].
  - rewrite (simple_idle w cp c Hc Hst). eexists _, _. split; [done|]. apply Hput; try done.
    exists b, f0, ans. split_and!; try done. by apply ph_head.
  - rewrite (simple_head w cp c b f0 Hc Hst Hb0) by lia.
    destruct (Z.eqb_spec (field b 24) NSHEAD_MAGICNUM) as [Em|Em].
    + eexists _, _. split; [done|]. apply Hput; try done.
      exists b, f0, ans. split_and!; try done. apply ph_body; try done; [|lia].
      cbn [expect_next set_frame c_bytes_processed]. rewrite Hp, He. by rewrite u64_small by lia.
    + eexists _, _. split; [done|]. split_and!; [done|apply isolated_refl|done].
  - rewrite Hp, He in Hdue.
    destruct (simple_body w fd cp c b f0 (ok_anything w Hw) Hs Hc Hst Hb0 Hbytes Hp He Hdue)
      as (w' & c' & buf & f' & E & Hw' & Hi & Hs' & Hc' & Hk & Hbuf & Ec' & _).
    eexists _, w'. split; [done|]. split_and!; [|done|done].
    eapply worker_ok_isolated; [exact Hw|exact Hw'|exact Hi|]. intros cp2 c2 Hs2 Hc2.
    assert (cp2 = cp) as -> by congruence. assert (c2 = c') as -> by congruence.
    rewrite Hk. eapply echo_answer; [exact HP|exact Hb0|done| |apply Hok|eauto|exact Ec'].
    set (n := Z.to_nat _) in *.
    assert (Hfr32 := field_range b 32 Hbytes).
    split_and!; [by apply Forall_take|rewrite length_take; lia|by rewrite field_take by lia|].
    rewrite field_take, length_take by lia. lia.
Qed.

(** *** Bounded buffers

    [M] bounds the bodies of the requests.  Between events a connection holds
    nothing, less than a head plus what an earlier request left, or a head and
    at most [M] bytes behind it. *)

Definition rest (M : Z) (c : Connection) : Prop :=
  exists b f, sds_repr (c_io_buffer c) b f /\
    ((c_receive_state c = STATE_IDLE /\ length b = O) \/
     (c_receive_state c = STATE_HEAD /\ Z.of_nat (length b) <= M) \/
     (c_receive_state c = STATE_BODY /\ Z.of_nat (length b) <= 36 + M)).

(** The length the next read asks for is at most [M]. *)
Definition polite (M : Z) w (fd : Z) : Prop := forall cp c,
  slot (w_conns w) fd = Some cp -> w_heap w !! cp = Some c -> c_bytes_expected c <= M.

Definition limit_ok (M : Z) : Prop := 36 <= M <= 2 ^ 30 - 2 ^ 20.

Lemma rest_input M c c' : same_input c c' -> rest M c -> rest M c'.
Proof.
  intros (E1 & E2 & _) (b & f & Hb & Hcase). exists b, f. by rewrite E1, E2.
Qed.

Lemma echo_reads r s c b f :
  echo_inv r s c -> sds_repr (c_io_buffer c) b f -> P_reads echo_inv r s c b.
Proof.
  intros (b0 & f0 & ans & Hb0 & Hbytes & Hfr & Hr & Hsent & Hph) Hb d b' f' Hd _ Hb'.
  assert (b0 = b) as -> by (by eapply sds_repr_det).
  exists (b ++ d), f', ans. split_and!; try done.
  - by apply Forall_app.
  - by rewrite Hr, app_assoc.
  - destruct Hph; [by apply ph_idle|by apply ph_head|]. apply ph_body; try done.
    + rewrite length_app. lia.
    + by rewrite field_app by lia.
    + by rewrite field_app by lia.
Qed.

Lemma rest_ready M r s c :
  limit_ok M -> echo_inv r s c -> rest M c -> c_bytes_expected c <= M ->
  exists b f, ready c b f /\ P_reads echo_inv r s c b.
Proof.
  intros HM HP (b & f & Hb & Hcase) He. exists b, f. split; [|by eapply echo_reads].
  destruct HP as (b0 & f0 & ans & Hb0 & Hbytes & _ & _ & _ & Hph).
  assert (b0 = b) as -> by (by eapply sds_repr_det). unfold limit_ok in HM.
  pose proof (field_range b 32 Hbytes).
  split; [done|]. split; [destruct Hph; lia|].
  split; [unfold fits, SDS_MAX_PREALLOC, INT_MAX|]; destruct Hph; lia.
Qed.

Ltac phase_lia := unfold STATE_IDLE, STATE_HEAD, STATE_BODY in *; lia.

(** A read event leaves the connection at rest. *)
Lemma rest_read M w w' fd cp' c' cp c b f :
  limit_ok M -> ok w -> slot (w_conns w) fd = Some cp -> w_heap w !! cp = Some c ->
  rest M c -> c_bytes_expected c <= M -> ready c b f ->
  read_result echo_inv simple w fd cp c b w' ->
  slot (w_conns w') fd = Some cp' -> w_heap w' !! cp' = Some c' -> rest M c'.
Proof.
  intros HM Hw Hs Hc (b0 & f0 & Hb0 & Hcase) He (Hb & _) (Hw' & _ & Hres) Hs' Hc'.
  assert (b0 = b) as -> by (by eapply sds_repr_det). unfold limit_ok in HM. cbn zeta in Hres.
  set (d := data _) in *.
  destruct Hres as [[_ ?]|(_ & c2 & w2 & (b2 & f2 & t & Hb2 & Hd & Hdl & Ec2) & Hw2 & Hs2 & Hc2 & Hout)]; [congruence|].
  pose proof (worker_ok_inv _ _ _ _ _ Hw Hs Hc) as (b1 & f1 & ans & Hb1 & Hbytes & _ & _ & _ & Hph).
  assert (b1 = b) as -> by (by eapply sds_repr_det). rewrite length_app in Hout.
  assert (Hf2 : c_receive_state c2 = c_receive_state c /\ c_io_buffer c2 = b2 /\
    c_bytes_processed c2 = c_bytes_processed c /\ c_bytes_expected c2 = c_bytes_expected c) by by subst c2.
  destruct Hf2 as (Est & Ebuf & Epr & Eex). pose proof (field_range b 32 Hbytes) as Hrange. rewrite <-Ebuf in Hb2. clear Ec2.
  destruct Hout as [[Hlt ->]|(Hdue & code & w3 & Hproc & [[-> ->]|[_ ?]])]; [| |congruence].
  - assert (cp' = cp) as -> by congruence. assert (c' = c2) as -> by congruence.
    exists (b ++ d), f2. split; [done|]. rewrite length_app, Est. destruct Hph; phase_lia.
  - destruct Hph as [Hst Hexp Hp|Hst Hexp Hp|Hst Hp Hl Hm Hexp]; rewrite Hst in *.
    + rewrite (simple_idle w2 cp c2 Hc2 Est) in Hproc. injection Hproc as <-.
      assert (cp' = cp) as -> by (cbn in Hs'; congruence).
      cbn [put_conn upd_heap w_heap] in Hc'. rewrite lookup_insert_eq in Hc'. injection Hc' as <-.
      exists (b ++ d), f2. split; [done|]. rewrite length_app. right. left. split; [done|]. phase_lia.
    + rewrite (simple_head w2 cp c2 (b ++ d) f2 Hc2 Est Hb2) in Hproc by (rewrite length_app; lia).
      case_match; [|done]. injection Hproc as <-.
      assert (cp' = cp) as -> by (cbn in Hs'; congruence).
      cbn [put_conn upd_heap w_heap] in Hc'. rewrite lookup_insert_eq in Hc'. injection Hc' as <-.
      exists (b ++ d), f2. split; [done|]. rewrite length_app. right. right. split; [done|]. phase_lia.
    + destruct (simple_body w2 fd cp c2 (b ++ d) f2 (ok_anything w2 Hw2) Hs2 Hc2 Est Hb2)
        as (w4 & c4 & buf & f4 & E & _ & _ & Hs4 & Hc4 & _ & Hbuf & Ec4 & _).
      { by apply Forall_app. }
      { by rewrite Epr. }
      { by rewrite Eex, field_app by lia. }
      { rewrite length_app, field_app by lia. lia. }
      rewrite E in Hproc. injection Hproc as ->.
      assert (cp' = cp) as -> by congruence. assert (c' = c4) as -> by congruence.
      exists (drop (Z.to_nat (36 + field (b ++ d) 32)) (b ++ d)), f4. subst c4. split; [done|].
      rewrite length_drop, length_app, field_app by lia. right. left. split; [done|]. phase_lia.
Qed.

End Echo.

(** ** The server as a transition system *)

Inductive event :=
| Io (fd revents : Z)              (** readiness reported by the loop *)
| Timeout (fd : Z)                 (** the connection's timer *)
| Accept (listener : Socket) (fd : Z)  (** a new connection handed to the worker *)
| Clock (t : Z).                   (** the loop's cached time *)

Definition set_now (el : EventLoop) (t : Z) : EventLoop :=
  mkLoop (el_ios el) (el_timers el) (el_next el) t (el_stopped el) (el_fresh_events el).

Section System.
Context {K Q : Type} `{Kernel K} `{Fifo Q sptr} `{Allocator}.
Implicit Types w : worker K Q.

Definition exec w (e : event) : outcome (worker K Q) :=
  match e with
  | Io fd revents => conn_io_cb process_io_buffer 0 w fd revents
  | Timeout fd =>
      match slot (w_conns w) fd with Some cp => process_timeout w cp | None => Ok w end
  | Accept ls fd =>
      r ← wrap_socket (w_kernel w) (w_nm w) ls fd;
      let '(p, nm, k) := r in
      r ← create_connection (upd_kernel (upd_nm w nm) k) (Some p);
      Ok (snd r)
  | Clock t => Ok (upd_el w (set_now (w_el w) t))
  end.

(** A worker without connections. *)
Definition initial w : Prop :=
  loop_ok (w_el w) /\ w_conns w <> [] /\ (forall fd, slot (w_conns w) fd = None) /\ w_heap w = ∅ /\
  (forall p s, nm_heap (w_nm w) !! p = Some s -> (p < nm_next (w_nm w))%nat).
End System.

Section Reachability.
Context {K Q : Type} `{KernelLaws K} `{!Traffic K} `{Fifo Q sptr} `{Allocator}.
Implicit Types w : worker K Q.

(** What the environment does: readiness concerns descriptors that were
    accepted, on connections whose announced body is within the limit; an
    accepted descriptor is not one in use and has seen no traffic. *)
Definition enabled (M : Z) w (e : event) : Prop :=
  match e with
  | Io fd _ => 0 <= fd < 2 ^ 31 /\ fd < Z.of_nat (length (nm_sockets (w_nm w))) /\ polite M w fd
  | Timeout _ | Clock _ => True
  | Accept ls fd => s_kind ls = TCPSocket /\ 0 < fd < 2 ^ 30 /\ slot (w_conns w) fd = None /\
      rcvd (w_kernel w) fd = [] /\ sent (w_kernel w) fd = []
  end.

Inductive reachable (M : Z) : worker K Q -> Prop :=
| reach_init w : initial w -> reachable M w
| reach_step w e w' : reachable M w -> enabled M w e -> exec w e = Ok w' -> reachable M w'.

Record server_inv (M : Z) w : Prop := mkServerInv {
  si_ok : worker_ok echo_inv w;
  si_rest : at_rest (rest M) w;
  si_conns : w_conns w <> [];
  si_nm : forall p s, nm_heap (w_nm w) !! p = Some s -> (p < nm_next (w_nm w))%nat }.

Hypothesis alloc_total : forall n, alloc_ok n = true.

Lemma initial_inv M w : initial w -> server_inv M w.
Proof.
  intros (Hl & Hne & Hs & Hh & Hnm). constructor; [|by intros fd cp c Hcp; rewrite Hs in Hcp|done..].
  constructor; [done|by intros fd cp Hcp; rewrite Hs in Hcp|by intros cp c Hc; rewrite Hh in Hc].
Qed.

Lemma isolated_inv M fd w w' :
  server_inv M w -> worker_ok echo_inv w' -> at_rest (rest M) w' -> isolated fd w w' -> server_inv M w'.
Proof.
  intros [_ _ Hne Hnm] Hw' HR Hi. destruct (is_nm _ _ _ Hi) as [Hsub Hnext]. constructor; [done|done| |].
  - intros E. apply Hne. pose proof (is_length _ _ _ Hi) as Hl. rewrite E in Hl. by destruct (w_conns w).
  - intros p s Hp. rewrite Hnext. eapply Hnm, lookup_weaken; eauto.
Qed.

Lemma io_inv M w fd rv :
  limit_ok M -> server_inv M w -> enabled M w (Io fd rv) ->
  exists w', exec w (Io fd rv) = Ok w' /\ server_inv M w' /\ isolated fd w w'.
Proof.
  intros HM Hinv (Hfd & Hn & Hpol). pose proof Hinv as [Hw HR _ _].
  destruct (conn_io_cb_ok alloc_total echo_inv echo_last (rest M) process_io_buffer 0 w fd rv)
    as (w' & E & Hw' & Hi & HR'); try done.
  - by apply simple_handler_ok.
  - apply echo_writes.
  - intros cp c Hs Hc. eapply rest_ready; [done| |by eapply HR|by eapply Hpol].
    by eapply worker_ok_inv.
  - intros c c' Hsi. by apply rest_input.
  - intros w' cp' c' cp c b f Hs Hc HRc Hrd Hres Hs' Hc'. eapply rest_read; eauto.
  - exists w'. split_and!; [done| |done]. by eapply isolated_inv.
Qed.

Lemma timeout_inv M w fd :
  server_inv M w -> exists w', exec w (Timeout fd) = Ok w' /\ server_inv M w' /\ isolated fd w w'.
Proof.
  intros Hinv. cbn [exec]. destruct (slot (w_conns w) fd) as [cp|] eqn:Hs.
  2: { exists w. split_and!; [done|done|apply isolated_refl]. }
  destruct (process_timeout_ok echo_inv w fd cp (si_ok _ _ Hinv) Hs)
    as (w' & c & Hc & E & Hw' & Hi & Hslot).
  exists w'. split_and!; [done| |done]. eapply isolated_inv; [done|done| |done].
  destruct (_ >? _); [|by subst w'; apply Hinv].
  eapply at_rest_event; [apply Hinv|done|]. intros cp' c' Hs' _. congruence.
Qed.

(** Setting socket options moves no data. *)
Lemma set_option_traffic (k : K) fd opt v r k' :
  set_option k fd opt v = (r, k') -> rcvd k' = rcvd k /\ sent k' = sent k.
Proof.
  unfold set_option. destruct (translate_option opt stack_junk stack_junk) as [[t l] o].
  case_match; [by intros [= _ <-]|]. destruct (sys_setsockopt k fd l o v) as [[?|?] k1] eqn:E;
    intros [= _ <-]; by eapply traffic_setsockopt.
Qed.

Lemma set_noblock_traffic (k : K) s r k' :
  set_noblock k s = (r, k') -> rcvd k' = rcvd k /\ sent k' = sent k.
Proof.
  unfold set_noblock. destruct (sys_getfl k (s_fd s)) as [[fl|?] k1] eqn:E1.
  - apply traffic_getfl in E1 as [<- <-]. destruct (sys_setfl k1 _ _) as [[?|?] k2] eqn:E2;
      intros [= _ <-]; by eapply traffic_setfl.
  - intros [= _ <-]. by eapply traffic_getfl.
Qed.

(** The table gains the new socket; nothing else of the worker changes. *)
Lemma wrap_socket_inv M w ls fd :
  server_inv M w -> 0 < fd < 2 ^ 30 ->
  exists nm k, wrap_socket (w_kernel w) (w_nm w) ls fd = Ok (nm_next (w_nm w), nm, k) /\
    server_inv M (upd_kernel (upd_nm w nm) k) /\ rcvd k = rcvd (w_kernel w) /\ sent k = sent (w_kernel w) /\
    nm_heap nm !! nm_next (w_nm w) = Some (mkSocket (s_kind ls) fd Ipv4Address_default).
Proof.
  intros [[Hl Hs Hh] HR Hne Hnm] Hfd. unfold wrap_socket, new_socket.
  destruct (set_option (w_kernel w) fd _ 1) as [r1 k1] eqn:E1.
  destruct (set_noblock k1 _) as [r2 k2] eqn:E2.
  apply set_option_traffic in E1 as [Er1 Es1]. apply set_noblock_traffic in E2 as [Er2 Es2].
  match goal with |- context [register ?nm0 fd ?p] =>
    destruct (put_at_fd_ok (nm_sockets nm0) fd p) as (v & Ev & _); [lia|lia|]; unfold register; rewrite Ev end.
  cbn [mbind outcome_bind nm_heap nm_next nm_listen_fd].
  set (sock := mkSocket (s_kind ls) fd Ipv4Address_default).
  set (nm := mkNM v (nm_listen_fd (w_nm w)) (<[nm_next (w_nm w) := sock]> (nm_heap (w_nm w))) (S (nm_next (w_nm w)))).
  exists nm, k2. split_and!; [done| |congruence|congruence|apply lookup_insert_eq].
  constructor; [|done|done|].
  - constructor; [done| |done]. intros fd' cp Hcp. destruct (Hs fd' cp Hcp) as (c & Hc & Hok).
    exists c. split; [done|]. destruct Hok as [G1 (s & Hsk & G2) G3 G4 G5 G6 G7 G8].
    constructor; cbn [upd_kernel upd_nm w_nm w_el w_kernel]; try done.
    + exists s. unfold nm. cbn [nm_heap]. rewrite lookup_insert_ne; [done|]. apply Hnm in Hsk. lia.
    + by rewrite Er2, Er1, Es2, Es1.
  - intros p s. cbn. intros [[<- _]|[_ Hp]]%lookup_insert_Some; [lia|]. apply Hnm in Hp. lia.
Qed.

Lemma fresh_echo (s : sptr) t io tm b : sds_repr b [] 0 -> echo_inv [] [] (fresh_conn s t io tm b).
Proof.
  intros Hb. exists [], O, []. split_and!; [done|by apply Forall_nil|by apply Forall_nil|done|done|by apply ph_idle].
Qed.

Lemma accept_inv M w ls fd :
  limit_ok M -> server_inv M w -> enabled M w (Accept ls fd) ->
  exists w', exec w (Accept ls fd) = Ok w' /\ server_inv M w'.
Proof.
  intros HM Hinv (Hk & Hfd & Hslot & Hr & Hs). cbn [exec].
  destruct (wrap_socket_inv M w ls fd Hinv Hfd) as (nm & k & -> & Hinv' & Er & Es & Hsock).
  cbn [mbind outcome_bind]. set (w1 := upd_kernel (upd_nm w nm) k) in *.
  destruct (create_connection_ok alloc_total echo_inv w1 (nm_next (w_nm w)) _ (si_ok _ _ Hinv') Hsock)
    as (w' & -> & Hw' & Hs1 & Hs2 & _ & _ & _ & Hnm' & Hne' & t & io & tm & b & Hheap & Hb); try done.
  - cbn [s_fd]. lia.
  - apply Hinv'.
  - intros t io tm b Hb. cbn [s_fd]. change (w_kernel w1) with k. rewrite Er, Es, Hr, Hs.
    by apply fresh_echo.
  - cbn [mbind outcome_bind snd]. exists w'. split; [done|]. constructor; [done| |done|].
    + intros fd' cp c Hcp Hc. cbn [s_fd] in Hs1, Hs2. destruct (decide (fd' = fd)) as [->|Hne''].
      * assert (cp = w_next w1) as -> by congruence. rewrite Hheap, lookup_insert_eq in Hc.
        injection Hc as <-. exists [], O. split; [done|]. by left.
      * rewrite Hs2 in Hcp by done. eapply (si_rest _ _ Hinv'); [done|].
        rewrite Hheap, lookup_insert_ne in Hc; [done|]. intros <-.
        destruct (wk_slots _ _ (si_ok _ _ Hinv') _ _ Hcp) as (c2 & Hc2 & _).
        apply (wk_heap _ _ (si_ok _ _ Hinv')) in Hc2 as [? _]. lia.
    + rewrite Hnm'. apply Hinv'.
Qed.

Lemma clock_inv M w t : server_inv M w -> server_inv M (upd_el w (set_now (w_el w) t)).
Proof.
  intros [[[L1 L2 L3] Hs Hh] HR Hne Hnm]. constructor; [|done..]. constructor; [done| |done].
  intros fd cp Hcp. destruct (Hs fd cp Hcp) as (c & Hc & []). exists c. split; [done|]. by constructor.
Qed.

(** Every enabled event runs and keeps the invariant. *)
Lemma exec_inv M w e :
  limit_ok M -> server_inv M w -> enabled M w e -> exists w', exec w e = Ok w' /\ server_inv M w'.
Proof.
  intros HM Hinv Hen. destruct e as [fd rv|fd|ls fd|t].
  - destruct (io_inv M w fd rv HM Hinv Hen) as (w' & ? & ? & _). eauto.
  - destruct (timeout_inv M w fd Hinv) as (w' & ? & ? & _). eauto.
  - by apply accept_inv.
  - eexists. split; [done|]. by apply clock_inv.
Qed.

Lemma reachable_inv M w : limit_ok M -> reachable M w -> server_inv M w.
Proof.
  intros HM. induction 1 as [w Hi|w e w' _ IH Hen E]; [by apply initial_inv|].
  destruct (exec_inv M w e HM IH Hen) as (w2 & E2 & Hinv). congruence.
Qed.

(** A readable descriptor with a connection. *)
Lemma io_read_result M w fd cp c :
  limit_ok M -> server_inv M w -> enabled M w (Io fd READ) ->
  slot (w_conns w) fd = Some cp -> w_heap w !! cp = Some c ->
  exists w' b f, exec w (Io fd READ) = Ok w' /\ ready c b f /\
    read_result echo_inv process_io_buffer w fd cp c b w'.
Proof.
  intros HM [Hw HR _ _] (Hfd & Hn & Hpol) Hs Hc. cbn [exec]. unfold conn_io_cb.
  change (negb (Z.land READ READ =? 0)) with true. change (negb (Z.land READ WRITE =? 0)) with false. cbn iota.
  destruct (read_io_ok alloc_total echo_inv echo_last process_io_buffer w fd) as (w' & -> & _ & _ & Hcase); try done.
  - by apply simple_handler_ok.
  - intros cp' c' Hs' Hc'. eapply rest_ready; [done| |by eapply HR|by eapply Hpol].
    by eapply worker_ok_inv.
  - cbn [mbind outcome_bind]. destruct Hcase as [[_ ?]|(cp' & c' & b & f & Hs' & Hc' & Hrd & Hres)]; [congruence|].
    assert (cp' = cp) as -> by congruence. assert (c' = c) as -> by congruence.
    by exists w', b, f.
Qed.

(** A read that delivers data stores it, and when the unit is complete the
    handler has run on it. *)
Lemma io_data M w fd cp c d k1 :
  limit_ok M -> server_inv M w -> enabled M w (Io fd READ) ->
  slot (w_conns w) fd = Some cp -> w_heap w !! cp = Some c ->
  sys_read (w_kernel w) fd (c_bytes_expected c) = (SysOk d, k1) -> d <> [] ->
  exists w' b f c2 w2, exec w (Io fd READ) = Ok w' /\ sds_repr (c_io_buffer c) b f /\ received c b d c2 /\
    worker_ok echo_inv w2 /\ slot (w_conns w2) fd = Some cp /\ w_heap w2 !! cp = Some c2 /\
    (c_bytes_processed c + c_bytes_expected c <= Z.of_nat (length (b ++ d)) ->
      exists code w3, process_io_buffer w2 cp = Ok (code, w3) /\ (code = WORKER_OK -> w' = w3)).
Proof.
  intros HM Hinv He Hs Hc Hsys Hd.
  destruct (io_read_result M w fd cp c HM Hinv He Hs Hc) as (w' & b & f & E & (Hb & _) & _ & _ & Hres).
  rewrite Hsys in Hres. cbn [fst data] in Hres.
  destruct Hres as [[[?|(e & ? & _)] _]|(_ & c2 & w2 & Hrec & Hw2 & Hs2 & Hc2 & Hout)]; [congruence|done|].
  exists w', b, f, c2, w2. split_and!; try done. intros Hdue.
  destruct Hout as [[? _]|(_ & code & w3 & Ep & Hcode)]; [lia|].
  exists code, w3. split; [done|]. intros ->. by destruct Hcode as [[_ ->]|[? _]].
Qed.

End Reachability.

(** ** A concrete server

    The simulated system with one request waiting on descriptor 5. *)

#[export] Instance sim_traffic : Traffic sim.
Proof.
  refine {| rcvd k fd := at_fd (sim_read k) fd; sent k fd := at_fd (sim_out k) fd |}; cbn.
  - intros k fd len r k'. destruct ((len <? 0) || _).
    + intros [= <- <-]. by rewrite app_nil_r.
    + intros [= <- <-]. cbn. unfold at_fd. rewrite lookup_insert_eq. split_and!; try done.
      intros fd' Hne. by rewrite lookup_insert_ne.
  - intros k fd d r k' [= <- <-]. cbn. unfold at_fd. rewrite lookup_insert_eq, Nat2Z.id, take_ge by lia.
    split_and!; try done. intros fd' Hne. by rewrite lookup_insert_ne.
  - intros k fd fd' Hne. unfold at_fd. by rewrite !lookup_delete_ne.
  - by intros k fd l o v r k' [= _ <-].
  - by intros k fd r k' [= _ <-].
  - by intros k fd v r k' [= _ <-].
Defined.

Definition demo_head (len : Z) : bytes :=
  replicate 24 0 ++ le_bytes 4 NSHEAD_MAGICNUM ++ replicate 4 0 ++ le_bytes 4 len.
Definition demo_request : bytes := demo_head 2 ++ [65; 66].
Definition demo_listener : Socket := mkSocket TCPSocket 3 Ipv4Address_default.
Definition demo_sim (input : bytes) : sim := mkSim {[ 5 := input ]} ∅ ∅ 6.
Definition demo_worker (input : bytes) : worker sim (heap sptr * LockFreeQueue) :=
  new_worker default_options 0 new_network_manager (demo_sim input) (Seq.new_queue bump_alloc 0%nat ∅).

Definition run_events `{Allocator} (w : worker sim (heap sptr * LockFreeQueue)) (es : list event) :
    outcome (worker sim (heap sptr * LockFreeQueue)) :=
  foldl (fun w e => w ← w; exec w e) (Ok w) es.

(** The state after some events. *)
Definition demo_after (input : bytes) (es : list event) : worker sim (heap sptr * LockFreeQueue) :=
  let A := total_alloc in
  match run_events (demo_worker input) es with Ok w => w | Trap _ => demo_worker input end.

Definition demo_accept : event := Accept demo_listener 5.

Lemma demo_initial input : initial (demo_worker input).
Proof.
  split_and!; [|done| |done|].
  - constructor; cbn; intros w x Hw; by rewrite lookup_empty in Hw.
  - intros fd. unfold demo_worker, new_worker, slot, resize. cbn [w_conns take app].
    destruct (fd <? 0); [done|]. destruct (_ !! _) eqn:E; [|done].
    apply lookup_replicate in E as [-> _]. done.
  - cbn. intros p s Hp. by rewrite lookup_empty in Hp.
Qed.

(** Checking that an event is enabled on a concrete state. *)
Definition polite_b (M : Z) (w : worker sim (heap sptr * LockFreeQueue)) (fd : Z) : bool :=
  match slot (w_conns w) fd ≫= (w_heap w !!.) with
  | Some c => c_bytes_expected c <=? M
  | None => true
  end.

Definition enabled_b (M : Z) (w : worker sim (heap sptr * LockFreeQueue)) (e : event) : bool :=
  match e with
  | Io fd _ => (0 <=? fd) && (fd <? 2 ^ 31) && (fd <? Z.of_nat (length (nm_sockets (w_nm w)))) && polite_b M w fd
  | Timeout _ | Clock _ => true
  | Accept ls fd => bool_decide (s_kind ls = TCPSocket) && (0 <? fd) && (fd <? 2 ^ 30) &&
      bool_decide (slot (w_conns w) fd = None) &&
      bool_decide (at_fd (sim_read (w_kernel w)) fd = []) && bool_decide (at_fd (sim_out (w_kernel w)) fd = [])
  end.

Lemma enabled_b_sound M w e : enabled_b M w e = true -> enabled M w e.
Proof.
  destruct e as [fd rv|fd|ls fd|t]; cbn [enabled_b enabled]; try done.
  - intros [[[H1 H2]%andb_prop H3]%andb_prop H4]%andb_prop. split; [lia|]. split; [lia|].
    intros cp c Hs Hc. unfold polite_b in H4. rewrite Hs in H4. cbn in H4. rewrite Hc in H4. lia.
  - rewrite !andb_true_iff, !bool_decide_eq_true. intros [[[[[H1 H2] H3] H4] H5] H6]. split_and!; (done || lia).
Qed.

Fixpoint enabled_run (M : Z) (w : worker sim (heap sptr * LockFreeQueue)) (es : list event) : bool :=
  let A := total_alloc in
  match es with
  | [] => true
  | e :: es => enabled_b M w e && match exec w e with Ok w => enabled_run M w es | Trap _ => false end
  end.

Lemma run_reachable M w es w' :
  let A := total_alloc in
  reachable M w -> enabled_run M w es = true -> run_events w es = Ok w' -> reachable M w'.
Proof.
  intros A Hr. revert w Hr. unfold run_events. induction es as [|e es IH]; intros w Hr He Hrun.
  - by injection Hrun as <-.
  - cbn [enabled_run] in He. apply andb_prop in He as [He1 He2]. cbn [foldl] in Hrun.
    cbn [mbind outcome_bind] in Hrun. fold A in He2.
    destruct (exec w e) as [w1|tr] eqn:E; [|done].
    eapply (IH w1); [|done|done]. eapply reach_step; [done|by apply enabled_b_sound|done].
Qed.

Lemma demo_reachable M input es :
  let A := total_alloc in
  enabled_run M (demo_worker input) es = true ->
  bool_decide (is_Some (match run_events (demo_worker input) es with Ok _ => Some () | Trap _ => None end)) = true ->
  reachable M (demo_after input es).
Proof.
  intros A He Hok. unfold demo_after. fold A.
  destruct (run_events (demo_worker input) es) as [w|tr] eqn:E.
  - eapply run_reachable; [apply reach_init, demo_initial|done|done].
  - apply bool_decide_eq_true in Hok as [? ?]. done.
Qed.

(** ** Properties *)



(** C2: The server echoes the stream: on every open connection the bytes
    received are a sequence of complete requests followed by what is still in
    the buffer, and the bytes sent followed by the queued replies are exactly
    those requests.  So what was sent is always a prefix of what was received:
    nothing is lost, duplicated, reordered or mixed between connections. *)
Theorem server_echoes_stream {K Q : Type} `{KernelLaws K} `{!Traffic K} `{Fifo Q sptr} (A : Allocator)
    M (w : worker K Q) fd cp :
  (forall n, alloc_ok n = true) -> limit_ok M -> reachable M w -> slot (w_conns w) fd = Some cp ->
  exists c b f answered,
    w_heap w !! cp = Some c /\ sds_repr (c_io_buffer c) b f /\ Forall frame answered /\
    rcvd (w_kernel w) fd = mjoin answered ++ b /\
    sent (w_kernel w) fd ++ pending c = mjoin answered /\
    sent (w_kernel w) fd `prefix_of` rcvd (w_kernel w) fd.
Proof.
  intros Ha HM Hr Hs. pose proof (si_ok _ _ (reachable_inv Ha M w HM Hr)) as Hw.
  destruct (wk_slots _ _ Hw _ _ Hs) as (c & Hc & Hok).
  destruct (ck_inv _ _ _ _ _ Hok) as (b & f & ans & Hb & _ & Hfr & Er & Es & _).
  exists c, b, f, ans. split_and!; try done.
  rewrite Er, <-Es, <-app_assoc. by apply prefix_app_r.
Qed.

(** The whole conversation: the request arrives and the reply leaves. *)
Definition demo_conversation : list event :=
  [demo_accept; Io 5 READ; Io 5 READ; Io 5 READ; Io 5 WRITE].

Lemma server_echoes_stream_witness :
  let A := total_alloc in let w := demo_after demo_request demo_conversation in
  exists c b f answered,
    w_heap w !! 0%nat = Some c /\ sds_repr (c_io_buffer c) b f /\ Forall frame answered /\
    rcvd (w_kernel w) 5 = mjoin answered ++ b /\
    sent (w_kernel w) 5 ++ pending c = mjoin answered /\
    sent (w_kernel w) 5 `prefix_of` rcvd (w_kernel w) 5.
Proof.
  intros A w. apply (server_echoes_stream A 100 w 5 0%nat).
  - done.
  - by vm_compute.
  - apply demo_reachable; vm_compute; reflexivity.
  - vm_compute. reflexivity.
Defined.

Example demo_echoes : sent (w_kernel (demo_after demo_request demo_conversation)) 5 = demo_request.
Proof. vm_compute. reflexivity. Qed.

(** Connections are isolated: an event on one descriptor changes neither
    the slot, the connection object, nor the traffic of any other. *)
Theorem server_isolates_connections {K Q : Type} `{KernelLaws K} `{!Traffic K} `{Fifo Q sptr} (A : Allocator)
    M (w : worker K Q) fd revents w' fd' cp' :
  (forall n, alloc_ok n = true) -> limit_ok M -> reachable M w -> enabled M w (Io fd revents) ->
  exec w (Io fd revents) = Ok w' -> fd' <> fd -> slot (w_conns w) fd' = Some cp' ->
  slot (w_conns w') fd' = Some cp' /\ w_heap w' !! cp' = w_heap w !! cp' /\
  rcvd (w_kernel w') fd' = rcvd (w_kernel w) fd' /\ sent (w_kernel w') fd' = sent (w_kernel w) fd'.
Proof.
  intros Ha HM Hr He E Hne Hs.
  destruct (io_inv Ha M w fd revents HM (reachable_inv Ha M w HM Hr) He) as (w2 & E2 & _ & Hi).
  assert (w2 = w') as -> by congruence.
  split_and!; [by rewrite (is_slots _ _ _ Hi)|by apply (is_heap _ _ _ Hi fd')|by apply Hi..].
Qed.

Definition demo_two : list event := [demo_accept; Accept demo_listener 7].

Lemma server_isolates_connections_witness :
  let A := total_alloc in let w := demo_after demo_request demo_two in
  let w' := demo_after demo_request (demo_two ++ [Io 5 READ]) in
  slot (w_conns w') 7 = Some 1%nat /\ w_heap w' !! 1%nat = w_heap w !! 1%nat /\
  rcvd (w_kernel w') 7 = rcvd (w_kernel w) 7 /\ sent (w_kernel w') 7 = sent (w_kernel w) 7.
Proof.
  intros A w w'. apply (server_isolates_connections A 100 w 5 READ w' 7 1%nat).
  - done.
  - by vm_compute.
  - apply demo_reachable; vm_compute; reflexivity.
  - apply enabled_b_sound. vm_compute. reflexivity.
  - vm_compute. reflexivity.
  - done.
  - vm_compute. reflexivity.
Defined.

(** C39: Memory is bounded: between events no connection buffers more than a
    head and one body of the limit, although each read asks for the whole of
    what is expected next. *)
Theorem server_buffers_bounded {K Q : Type} `{KernelLaws K} `{!Traffic K} `{Fifo Q sptr} (A : Allocator)
    M (w : worker K Q) fd cp c :
  (forall n, alloc_ok n = true) -> limit_ok M -> reachable M w ->
  slot (w_conns w) fd = Some cp -> w_heap w !! cp = Some c ->
  sdslen (c_io_buffer c) <= 36 + M.
Proof.
  intros Ha HM Hr Hs Hc. destruct (si_rest _ _ (reachable_inv Ha M w HM Hr) fd cp c Hs Hc) as (b & f & Hb & Hcase).
  rewrite (sdslen_repr _ _ _ Hb). unfold limit_ok in HM. lia.
Qed.

Definition the_conn (o : option Connection) : Connection :=
  default (mkConn TCPSocket 0 0 0 0 (mkSds 0 0 []) 0 [] 0 0 0 0) o.

Lemma server_buffers_bounded_witness :
  let A := total_alloc in let w := demo_after demo_request [demo_accept; Io 5 READ; Io 5 READ] in
  sdslen (c_io_buffer (the_conn (w_heap w !! 0%nat))) <= 36 + 100.
Proof.
  intros A w. apply (server_buffers_bounded A 100 w 5 0%nat).
  - done.
  - by vm_compute.
  - apply demo_reachable; vm_compute; reflexivity.
  - vm_compute. reflexivity.
  - vm_compute. reflexivity.
Defined.




(** The handler takes one step per readable event: the event that completes
    a head answers nothing, even when the whole body is already in the buffer.
    The buffered request then waits for the next readable event, which the peer
    causes only by sending more. *)
Theorem server_head_event_answers_nothing {K Q : Type} `{KernelLaws K} `{!Traffic K} `{Fifo Q sptr} (A : Allocator)
    M (w : worker K Q) fd cp c b f d k1 :
  (forall n, alloc_ok n = true) -> limit_ok M -> reachable M w -> enabled M w (Io fd READ) ->
  slot (w_conns w) fd = Some cp -> w_heap w !! cp = Some c -> sds_repr (c_io_buffer c) b f ->
  c_receive_state c = STATE_HEAD ->
  sys_read (w_kernel w) fd (c_bytes_expected c) = (SysOk d, k1) -> d <> [] ->
  (36 <= length (b ++ d))%nat -> field (b ++ d) 24 = NSHEAD_MAGICNUM ->
  exists w' c' f',
    exec w (Io fd READ) = Ok w' /\ w_heap w' !! cp = Some c' /\
    c_reply_list c' = c_reply_list c /\ sds_repr (c_io_buffer c') (b ++ d) f' /\
    c_receive_state c' = STATE_BODY /\ c_bytes_expected c' = field (b ++ d) 32.
Proof.
  intros Ha HM Hr He Hs Hc Hb Hst Hsys Hd Hlen Hmag. pose proof (reachable_inv Ha M w HM Hr) as Hinv.
  destruct (io_data Ha M w fd cp c d k1 HM Hinv He Hs Hc Hsys Hd)
    as (w' & b0 & f0 & c2 & w2 & E & Hb0 & (b2 & f2 & t & Hb2 & _ & _ & ->) & Hw2 & Hs2 & Hc2 & Hdue).
  assert (b0 = b) as -> by (by eapply sds_repr_det).
  pose proof (worker_ok_inv _ _ _ _ _ (si_ok _ _ Hinv) Hs Hc) as (b1 & f1 & ans & _ & _ & _ & _ & _ & Hph).
  destruct Hph as [Hst'|_ Hexp Hp|Hst']; [by rewrite Hst in Hst'| |by rewrite Hst in Hst'].
  destruct Hdue as (code & w3 & Ep & Hcode); [lia|].
  rewrite (simple_head w2 cp _ (b ++ d) f2 Hc2 Hst Hb2 Hlen), Hmag in Ep.
  change (NSHEAD_MAGICNUM =? NSHEAD_MAGICNUM) with true in Ep. cbn iota in Ep. injection Ep as <- <-.
  rewrite (Hcode eq_refl) in E. eexists _, _, f2. split; [exact E|].
  split; [apply lookup_insert_eq|]. done.
Qed.

(** A request with a body of one byte, all of it received in two events. *)
Definition short_request : bytes := demo_head 1 ++ [65].
Definition stalled : worker sim (heap sptr * LockFreeQueue) :=
  demo_after short_request [demo_accept; Io 5 READ; Io 5 READ].

Lemma server_head_event_answers_nothing_witness :
  let A := total_alloc in let w := demo_after short_request [demo_accept; Io 5 READ] in
  let c := the_conn (w_heap w !! 0%nat) in
  exists w' c' f',
    exec w (Io 5 READ) = Ok w' /\ w_heap w' !! 0%nat = Some c' /\
    c_reply_list c' = c_reply_list c /\ sds_repr (c_io_buffer c') ([0] ++ drop 1 short_request) f' /\
    c_receive_state c' = STATE_BODY /\ c_bytes_expected c' = field ([0] ++ drop 1 short_request) 32.
Proof.
  intros A w c. apply (server_head_event_answers_nothing A 100 w 5 0%nat c [0] 1 (drop 1 short_request)
    (snd (sys_read (w_kernel w) 5 36))).
  - done.
  - by vm_compute.
  - apply demo_reachable; vm_compute; reflexivity.
  - apply enabled_b_sound. vm_compute. reflexivity.
  - vm_compute. reflexivity.
  - vm_compute. reflexivity.
  - constructor; [vm_compute; reflexivity..| |by vm_compute].
    exists (drop 2 (sh_buf (c_io_buffer c))). split; vm_compute; reflexivity.
  - vm_compute. reflexivity.
  - vm_compute. reflexivity.
  - by vm_compute.
  - vm_compute. lia.
  - vm_compute. reflexivity.
Defined.

(** After these events everything has been read and nothing is queued. *)
Example stalled_request :
  rcvd (w_kernel stalled) 5 = short_request /\ at_fd (sim_in (w_kernel stalled)) 5 = [] /\
  c_reply_list (the_conn (w_heap stalled !! 0%nat)) = [].
Proof. vm_compute. auto. Qed.


(** A request without a body ends the connection: the read of zero bytes
    returns zero, which the code takes for the peer's closing, and the request
    is never answered. *)
Theorem server_empty_body_closes {K Q : Type} `{KernelLaws K} `{!Traffic K} `{Fifo Q sptr} (A : Allocator)
    M (w : worker K Q) fd cp c k1 :
  (forall n, alloc_ok n = true) -> limit_ok M -> reachable M w -> enabled M w (Io fd READ) ->
  slot (w_conns w) fd = Some cp -> w_heap w !! cp = Some c ->
  c_receive_state c = STATE_BODY -> c_bytes_expected c = 0 ->
  sys_read (w_kernel w) fd 0 = (SysOk [], k1) ->
  exists w', exec w (Io fd READ) = Ok w' /\ slot (w_conns w') fd = None.
Proof.
  intros Ha HM Hr He Hs Hc Hst Hexp Hsys. pose proof (reachable_inv Ha M w HM Hr) as Hinv.
  destruct (io_read_result Ha M w fd cp c HM Hinv He Hs Hc) as (w' & b & f & E & _ & _ & _ & Hres).
  rewrite Hexp, Hsys in Hres. exists w'. split; [done|].
  destruct Hres as [[_ ?]|[Hnh _]]; [done|]. destruct Hnh. by left.
Qed.

Lemma server_empty_body_closes_witness :
  let A := total_alloc in
  let w := demo_after (demo_head 0 ++ replicate 10 1) [demo_accept; Io 5 READ; Io 5 READ] in
  exists w', exec w (Io 5 READ) = Ok w' /\ slot (w_conns w') 5 = None.
Proof.
  intros A w. apply (server_empty_body_closes A 100 w 5 0%nat (the_conn (w_heap w !! 0%nat))
    (snd (sys_read (w_kernel w) 5 0))).
  - done.
  - by vm_compute.
  - apply demo_reachable; vm_compute; reflexivity.
  - apply enabled_b_sound. vm_compute. reflexivity.
  - vm_compute. reflexivity.
  - vm_compute. reflexivity.
  - vm_compute. reflexivity.
  - vm_compute. reflexivity.
  - vm_compute. reflexivity.
Defined.
