(* ===== verification/WorkerProps.v ===== *)
(** * Life and death of a connection (worker.cpp)

    What the worker promises of its connections beyond the echo protocol: write
    events flush the queued replies and then stop being requested, idle
    connections are closed and active ones are not, closing everything releases
    everything; and the write loop for datagrams that never ends when the
    system refuses a datagram. *)

From S2P Require Import Prelude Queue Sds Event Socket Config Worker WorkerFacts SimpleServer.

Section Flush.
Context {K Q : Type} `{KernelLaws K} `{!Traffic K} `{Fifo Q sptr} `{Allocator}.
Context (P : bytes -> bytes -> Connection -> Prop).
Hypothesis P_last : forall r s c t, P r s c -> P r s (set_last c t).
Implicit Types (w : worker K Q) (c : Connection).

(** The system takes whatever is written to [fd]. *)
Definition takes_all (fd : Z) : Prop :=
  forall k d, exists k', sys_write k fd d = (SysOk (Z.of_nat (length d)), k').

Lemma write_loop_flush fuel w fd cp c :
  takes_all fd -> P_writes P -> worker_ok P w -> slot (w_conns w) fd = Some cp -> w_heap w !! cp = Some c ->
  (left c < fuel)%nat ->
  exists w' c', tcp_write_loop fuel w cp = Ok (true, w') /\ worker_ok P w' /\
    slot (w_conns w') fd = Some cp /\ w_heap w' !! cp = Some c' /\ c_reply_list c' = [] /\
    c_watcher c' = c_watcher c /\ sent (w_kernel w') fd = sent (w_kernel w) fd ++ pending c /\
    w_freed w' = w_freed w ++ c_reply_list c.
Proof.
  intros Hall HPw. revert w c. induction fuel as [|fuel IH]; intros w c Hw Hs Hc Hf; [lia|].
  destruct (worker_conn P w fd cp Hw Hs) as (c1 & Hc1 & Hok & Ec & _ & s & Es & Hsfd).
  assert (c1 = c) as -> by congruence. cbn [tcp_write_loop]. rewrite Ec. cbn [mbind outcome_bind].
  pose proof (ck_written _ _ _ _ _ Hok) as Hwr. pose proof (ck_replies _ _ _ _ _ Hok) as Hrep.
  destruct (c_reply_list c) as [|reply rest] eqn:El.
  { exists w, c. split_and!; try done; [|by rewrite app_nil_r].
    unfold pending. rewrite El. cbn. by rewrite drop_nil, app_nil_r. }
  pose proof (pending_split c reply rest El Hwr) as Hpend.
  rewrite Es. cbn [mbind outcome_bind]. unfold written_ok in Hwr. rewrite El in Hwr.
  apply Forall_cons in Hrep as [[Hne Hlen] _]. unfold INT_MAX in Hlen.
  set (d := drop (Z.to_nat (c_bytes_written c)) reply) in *.
  assert (Hd : length d = (length reply - Z.to_nat (c_bytes_written c))%nat) by (unfold d; apply length_drop).
  assert (Hrb : read_block reply (c_bytes_written c) (Z.of_nat (length reply) - c_bytes_written c) = Ok d).
  { unfold read_block. decide_tests. f_equal. rewrite take_ge by (rewrite length_drop; lia). done. }
  rewrite Hrb. cbn [mbind outcome_bind].
  destruct (Hall (w_kernel w) d) as [k' Ek].
  assert (Ew : write (w_kernel w) s d = (Z.of_nat (length d), k')).
  { unfold write. rewrite Hsfd, Ek. f_equal. apply s32_small. lia. }
  rewrite Ew. unfold SOCKET_ERR. decide_tests. rewrite u64_small by lia. decide_tests.
  destruct (write_traffic (w_kernel w) s d _ _ ltac:(unfold INT_MAX; lia) Ew) as (_ & Hsent & Hrcvd & Hq). rewrite Hsfd in *.
  destruct (write_turn P w fd cp c reply rest (Z.of_nat (length d)) k' HPw Hw Hs Hc El ltac:(fold d; lia)
    Hsent Hrcvd Hq (w_freed w ++ [reply])) as (Hw' & _ & _ & Hlt).
  rewrite (u64_small (_ + _)) in Hlt, Hw' by lia.
  replace (Z.of_nat (length d) + c_bytes_written c =? Z.of_nat (length reply)) with true in Hlt, Hw' by lia.
  destruct (IH _ (set_replies c (s32 (c_reply_list_size c - 1)) rest 0) Hw' Hs) as
    (w2 & c2 & E & Hw2 & Hs2 & Hc2 & El2 & Ewt & Hsent2 & Hfr); [apply lookup_insert_eq|lia|].
  exists w2, c2. split_and!; try done.
  - rewrite Hsent2. cbn [upd_freed put_conn upd_heap upd_kernel w_kernel]. rewrite Hsent, <-app_assoc, Hpend.
    f_equal. rewrite Nat2Z.id, firstn_all. f_equal.
  - rewrite Hfr. cbn [upd_freed w_freed set_replies c_reply_list]. by rewrite <-app_assoc.
Qed.

Lemma disable_events_frame w c ev w' :
  disable_events w c ev = Ok w' -> w_kernel w' = w_kernel w /\ w_freed w' = w_freed w.
Proof.
  unfold disable_events. intros E. inv_bind E. inv_bind E. by injection E as <-.
Qed.

Lemma tcp_write_io_flush w fd cp c :
  takes_all fd -> P_writes P -> worker_ok P w -> slot (w_conns w) fd = Some cp -> w_heap w !! cp = Some c ->
  exists w' c', tcp_write_io w cp = Ok w' /\ worker_ok P w' /\
    slot (w_conns w') fd = Some cp /\ w_heap w' !! cp = Some c' /\ c_reply_list c' = [] /\
    sent (w_kernel w') fd = sent (w_kernel w) fd ++ pending c /\
    w_freed w' = w_freed w ++ c_reply_list c /\ interest (w_el w') (c_watcher c') = Some (fd, READ).
Proof.
  intros Hall HPw Hw Hs Hc. destruct (worker_conn P w fd cp Hw Hs) as (c0 & Hc0 & Hok & Ec & _).
  assert (c0 = c) as -> by congruence. unfold tcp_write_io. rewrite Ec. cbn [mbind outcome_bind].
  destruct (write_loop_flush (write_fuel c) w fd cp c Hall HPw Hw Hs Hc) as
    (w1 & c1 & -> & Hw1 & Hs1 & Hc1 & El & Ewt & Hsent & Hfr); [apply left_le_fuel, Hok|].
  cbn [mbind outcome_bind negb]. unfold conn. rewrite Hc1. cbn [the mbind outcome_bind set_last c_reply_list]. rewrite El.
  destruct (touch_time P P_last w1 fd cp c1 (now (w_el w1)) Hw1 Hs1 Hc1) as [Hw2 _].
  set (w2 := put_conn w1 cp (set_last c1 (now (w_el w1)))) in *.
  assert (Hc2 : w_heap w2 !! cp = Some (set_last c1 (now (w_el w1)))) by apply lookup_insert_eq.
  destruct (wk_slots _ _ Hw2 fd cp Hs1) as (c3 & Hc3 & Hok3).
  assert (c3 = set_last c1 (now (w_el w1))) as -> by congruence.
  destruct (disable_write_ok P w2 fd cp _ Hw2 Hs1 Hc2 Hok3) as (w3 & E3 & HT & Hok4 & Hmq & Hp & Hint).
  destruct (touch_same P w2 w3 fd cp _ Hw2 Hs1 Hc2 HT Hok4 (conj Hmq Hp)) as (Hw3 & _ & Hs3 & Hc4).
  destruct (disable_events_frame _ _ _ _ E3) as [Hk3 Hf3].
  exists w3, (set_last c1 (now (w_el w1))). split_and!; try done.
  - by rewrite Hk3.
  - by rewrite Hf3.
Qed.

End Flush.

(** ** Properties *)

(** C26: Write events make progress: when the system takes what is written to a
    connection, one write event sends everything that was queued, in order,
    passes every reply buffer to [zfree] once, and the descriptor is then only
    watched for reading. *)
Theorem server_flushes_replies {K Q : Type} `{KernelLaws K} `{!Traffic K} `{Fifo Q sptr} (A : Allocator)
    M (w : worker K Q) fd cp c :
  (forall n, alloc_ok n = true) -> limit_ok M -> reachable M w -> enabled M w (Io fd WRITE) ->
  slot (w_conns w) fd = Some cp -> w_heap w !! cp = Some c -> is_Some (slot (nm_sockets (w_nm w)) fd) ->
  takes_all fd ->
  exists w' c', exec w (Io fd WRITE) = Ok w' /\ slot (w_conns w') fd = Some cp /\ w_heap w' !! cp = Some c' /\
    c_reply_list c' = [] /\ sent (w_kernel w') fd = sent (w_kernel w) fd ++ pending c /\
    w_freed w' = w_freed w ++ c_reply_list c /\ interest (w_el w') (c_watcher c') = Some (fd, READ).
Proof.
  intros Ha HM Hr (Hfd & Hn & _) Hs Hc [p Hp] Hall. destruct (reachable_inv Ha M w HM Hr) as [Hw _ _ _].
  destruct (tcp_write_io_flush echo_inv echo_last w fd cp c Hall echo_writes Hw Hs Hc) as
    (w' & c' & E & _ & Hs' & Hc' & El & Hsent & Hfr & Hint).
  exists w', c'. split_and!; try done.
  cbn [exec]. unfold conn_io_cb. change (negb (Z.land WRITE READ =? 0)) with false.
  change (negb (Z.land WRITE WRITE =? 0)) with true. cbn [mbind outcome_bind]. cbn iota.
  pose proof (slot_Some_range _ _ _ Hs) as Hrange. destruct (wk_slots _ _ Hw _ _ Hs) as (c1 & Hc1 & Hok).
  assert (c1 = c) as -> by congruence.
  unfold write_io, ZF_INVALID_SOCKET. rewrite u64_small by lia. decide_tests.
  rewrite (get_slot_in_range (nm_sockets (w_nm w)) fd), Hp by lia. cbn [mbind outcome_bind].
  rewrite (get_slot_in_range (w_conns w) fd), Hs by lia. cbn [mbind outcome_bind].
  unfold conn. rewrite Hc. cbn [the mbind outcome_bind]. by rewrite (ck_kind _ _ _ _ _ Hok).
Qed.

Definition demo_queued : worker sim (heap sptr * LockFreeQueue) :=
  demo_after demo_request [demo_accept; Io 5 READ; Io 5 READ; Io 5 READ].

Lemma sim_takes_all fd : takes_all (K := sim) fd.
Proof. intros k d. by eexists. Qed.

Lemma server_flushes_replies_witness :
  let A := total_alloc in let w := demo_queued in let c := the_conn (w_heap w !! 0%nat) in
  exists w' c', exec w (Io 5 WRITE) = Ok w' /\ slot (w_conns w') 5 = Some 0%nat /\ w_heap w' !! 0%nat = Some c' /\
    c_reply_list c' = [] /\ sent (w_kernel w') 5 = sent (w_kernel w) 5 ++ pending c /\
    w_freed w' = w_freed w ++ c_reply_list c /\ interest (w_el w') (c_watcher c') = Some (5, READ).
Proof.
  intros A w c. apply (server_flushes_replies A 100 w 5 0%nat c).
  - done.
  - by vm_compute.
  - apply demo_reachable; vm_compute; reflexivity.
  - apply enabled_b_sound. vm_compute. reflexivity.
  - vm_compute. reflexivity.
  - vm_compute. reflexivity.
  - vm_compute. eauto.
  - apply sim_takes_all.
Defined.

(** The reply of that run is the request. *)
Example queued_reply : pending (the_conn (w_heap demo_queued !! 0%nat)) = demo_request.
Proof. vm_compute. reflexivity. Qed.

(** The idle timer: a timer event closes a connection exactly when it has
    been idle for longer than [connection_timeout], and leaves every other
    connection alone.  The difference is unsigned: when the clock has been set
    back behind the last interaction the connection is closed however recent it
    was. *)
Theorem server_closes_idle {K Q : Type} `{KernelLaws K} `{!Traffic K} `{Fifo Q sptr} (A : Allocator)
    M (w : worker K Q) fd cp c :
  (forall n, alloc_ok n = true) -> limit_ok M -> reachable M w ->
  slot (w_conns w) fd = Some cp -> w_heap w !! cp = Some c ->
  0 <= c_last_interaction c < 2 ^ 64 -> 0 <= now (w_el w) < 2 ^ 64 ->
  exists w', exec w (Timeout fd) = Ok w' /\ isolated fd w w' /\
    (c_last_interaction c <= now (w_el w) ->
       if now (w_el w) - c_last_interaction c >? opt_connection_timeout (w_opts w)
       then slot (w_conns w') fd = None else w' = w) /\
    (now (w_el w) < c_last_interaction c ->
       opt_connection_timeout (w_opts w) < 2 ^ 64 - (c_last_interaction c - now (w_el w)) ->
       slot (w_conns w') fd = None).
Proof.
  intros Ha HM Hr Hs Hc Hl Ht. destruct (reachable_inv Ha M w HM Hr) as [Hw _ _ _].
  destruct (process_timeout_ok echo_inv w fd cp Hw Hs) as (w' & c1 & Hc1 & E & _ & Hi & Hres).
  assert (c1 = c) as -> by congruence. exists w'. cbn [exec]. rewrite Hs. split_and!; [done|done| |].
  - intros Hle. by rewrite u64_small in Hres by lia.
  - intros Hlt Hto. rewrite u64_neg in Hres by lia.
    by replace (_ >? _) with true in Hres by lia.
Qed.

Definition demo_late : worker sim (heap sptr * LockFreeQueue) :=
  demo_after demo_request [demo_accept; Clock (2 * 60 * 1000 * 1000)].

Lemma server_closes_idle_witness :
  let A := total_alloc in let w := demo_late in let c := the_conn (w_heap w !! 0%nat) in
  exists w', exec w (Timeout 5) = Ok w' /\ isolated 5 w w' /\
    (c_last_interaction c <= now (w_el w) ->
       if now (w_el w) - c_last_interaction c >? opt_connection_timeout (w_opts w)
       then slot (w_conns w') 5 = None else w' = w) /\
    (now (w_el w) < c_last_interaction c ->
       opt_connection_timeout (w_opts w) < 2 ^ 64 - (c_last_interaction c - now (w_el w)) ->
       slot (w_conns w') 5 = None).
Proof.
  intros A w c. apply (server_closes_idle A 100 w 5 0%nat c).
  - done.
  - by vm_compute.
  - apply demo_reachable; vm_compute; reflexivity.
  - vm_compute. reflexivity.
  - vm_compute. reflexivity.
  - vm_compute. split; [discriminate|reflexivity].
  - vm_compute. split; [discriminate|reflexivity].
Defined.

(** Closing all connections closes every one of them without touching a
    deleted object and leaves no connection object behind. *)
Theorem server_close_all {K Q : Type} `{KernelLaws K} `{!Traffic K} `{Fifo Q sptr} (A : Allocator)
    M (w : worker K Q) :
  (forall n, alloc_ok n = true) -> limit_ok M -> reachable M w ->
  exists w', close_all_conns w = Ok w' /\ w_heap w' = ∅ /\ forall fd, slot (w_conns w') fd = None.
Proof.
  intros Ha HM Hr. destruct (reachable_inv Ha M w HM Hr) as [Hw _ _ _].
  destruct (close_all_conns_ok echo_inv w Hw) as (w' & E & _ & Hh & Hs). eauto.
Qed.

Lemma server_close_all_witness :
  let A := total_alloc in
  exists w', close_all_conns (demo_after demo_request demo_two) = Ok w' /\ w_heap w' = ∅ /\
    forall fd, slot (w_conns w') fd = None.
Proof.
  intros A. apply (server_close_all A 100 (demo_after demo_request demo_two)).
  - done.
  - by vm_compute.
  - apply demo_reachable; vm_compute; reflexivity.
Defined.

(** [udp_write_io] has no way out of a refused datagram: if the system does
    not take the first queued reply in full (for instance EAGAIN), the write
    loop never ends, whatever number of turns it is given. *)
Theorem udp_write_never_ends {K Q : Type} `{Kernel K} `{Fifo Q sptr} fuel (w : worker K Q) cp c s reply rest :
  w_heap w !! cp = Some c -> nm_heap (w_nm w) !! c_s c = Some s -> c_reply_list c = reply :: rest ->
  (forall k, u64 (fst (write k s reply)) <> Z.of_nat (length reply)) ->
  udp_write_io fuel w cp = Trap OutOfFuel.
Proof.
  intros Hc Hs El Hrefuse. unfold udp_write_io.
  assert (udp_write_loop fuel w cp = Trap OutOfFuel) as ->; [|done].
  revert w Hc Hs. induction fuel as [|fuel IH]; intros w Hc Hs; [done|]. cbn [udp_write_loop].
  unfold conn, conn_socket. rewrite Hc. cbn [the mbind outcome_bind]. rewrite El, Hs. cbn [the mbind outcome_bind].
  specialize (Hrefuse (w_kernel w)). destruct (write (w_kernel w) s reply) as [r k]. cbn [fst] in Hrefuse.
  replace (u64 r =? Z.of_nat (length reply)) with false by lia. by apply IH.
Qed.

(** A system whose socket buffers are full. *)
Definition full : Kernel unit := {|
  sys_socket k _ _ := (SysErr EAGAIN, k); sys_bind k _ _ := (SysErr EAGAIN, k);
  sys_listen k _ _ := (SysErr EAGAIN, k); sys_accept k _ := (SysErr EAGAIN, k);
  sys_recvfrom k _ _ := (SysErr EAGAIN, k); sys_connect k _ _ := (SysErr EAGAIN, k);
  sys_setsockopt k _ _ _ _ := (SysErr EAGAIN, k); sys_getfl k _ := (SysErr EAGAIN, k);
  sys_setfl k _ _ := (SysErr EAGAIN, k); sys_read k _ _ := (SysErr EAGAIN, k);
  sys_write k _ _ := (SysErr EAGAIN, k); sys_close k _ := k; sys_pipe k := (SysErr EAGAIN, k);
  stack_junk := 0 |}.

Definition udp_conn : Connection := mkConn UDPSocket 0 0 0 0 (mkSds 0 0 []) 1 [[65]] 0 1 0 0.
Definition udp_socket : Socket := mkSocket UDPSocket 4 Ipv4Address_default.
Definition udp_worker : worker unit (heap sptr * LockFreeQueue) :=
  mkWorker default_options (new_loop 0 0) [Some 0%nat] {[0%nat := udp_conn]} 1
    (mkNM [] 0 {[0%nat := udp_socket]} 1) tt (Seq.new_queue bump_alloc 0%nat ∅) [] [] 0 0 (-1, -1).

Lemma udp_write_never_ends_witness : udp_write_io (H := full) 1000 udp_worker 0 = Trap OutOfFuel.
Proof.
  apply (@udp_write_never_ends unit _ full _ 1000 udp_worker 0%nat udp_conn udp_socket [65] []).
  - vm_compute. reflexivity.
  - vm_compute. reflexivity.
  - reflexivity.
  - intros []. vm_compute. discriminate.
Defined.

(** [get_clients_count] returns the size of the connection table: a worker with
    no connection at all reports 1024 clients. *)
Example clients_count_of_idle_worker : get_clients_count (demo_worker []) = 1024 /\ w_heap (demo_worker []) = ∅.
Proof. split; vm_compute; reflexivity. Qed.
