(* ===== verification/Dispatcher.v ===== *)
(** * The dispatcher (src/server/dispatcher.cpp, server.cpp, thread.cpp)

    The dispatcher accepts connections in its own thread and hands each socket
    to a worker, chosen round-robin, through the worker's queue, announcing it
    with a message in the worker's pipe.  Threads are a parameter: whether
    pthread_create, pthread_join and the affinity call succeed. *)

From S2P Require Import Prelude Utils Queue Sds Event Socket Config Worker.

Definition DISPATCHER_OK : Z := 0.
Definition DISPATCHER_ERROR : Z := 1.
Definition THREAD_OK : Z := 0.
Definition THREAD_ERROR : Z := -1.
Definition DISPATCHER_QUIT : Z := 0.

(** The thread library, indexed by the number of the call. *)
Class Threads := {
  pthread_create : nat -> bool;
  pthread_join : nat -> bool;
  pthread_setaffinity : nat -> Z -> bool;
  thread_id : nat -> Z }.

(** What the dispatcher keeps of a worker besides the worker object: the names
    and numbers it gives it. *)
Record worker_slot (K Q : Type) := mkSlot {
  ws_worker : worker K Q;
  ws_cpu_id : Z;
  ws_thread_name : bytes;
  ws_worker_id : bytes;
  ws_thread : nat }.
Arguments mkSlot {K Q}.
Arguments ws_worker {K Q}.
Arguments ws_cpu_id {K Q}.
Arguments ws_thread_name {K Q}.
Arguments ws_worker_id {K Q}.
Arguments ws_thread {K Q}.

Record dispatcher (K Q : Type) := mkDispatcher {
  d_opts : GenericServerOptions;
  d_el : EventLoop;
  d_io_watcher : option nat;
  d_pipe_watcher : option nat;
  d_nm : NetworkManager;
  d_kernel : K;
  d_mq : Q;
  d_pipe : list Z;
  d_workers : list (worker_slot K Q);
  d_next_worker : nat;
  d_cpu_id : Z;
  d_threads : nat }.
Arguments mkDispatcher {K Q}.
Arguments d_opts {K Q}.
Arguments d_el {K Q}.
Arguments d_io_watcher {K Q}.
Arguments d_pipe_watcher {K Q}.
Arguments d_nm {K Q}.
Arguments d_kernel {K Q}.
Arguments d_mq {K Q}.
Arguments d_pipe {K Q}.
Arguments d_workers {K Q}.
Arguments d_next_worker {K Q}.
Arguments d_cpu_id {K Q}.
Arguments d_threads {K Q}.

(** ** Threads *)

Section Threads.
Context `{Threads}.

(** [create_thread] and [join_thread] on the thread of number [n]. *)
Definition create_thread (n : nat) : Z := if pthread_create n then THREAD_OK else THREAD_ERROR.
Definition join_thread (n : nat) : Z := if pthread_join n then THREAD_OK else THREAD_ERROR.

(** [GenericWorker::bind_cpu]. *)
Definition bind_cpu (n : nat) (cpu_id : Z) : bool :=
  if cpu_id =? -1 then false else pthread_setaffinity n cpu_id.
End Threads.

Section Dispatcher.
Context {K Q : Type} `{Kernel K} `{Fifo Q sptr} `{Inet} `{Threads}.
Implicit Types d : dispatcher K Q.

Definition upd_workers d ws := mkDispatcher (d_opts d) (d_el d) (d_io_watcher d) (d_pipe_watcher d)
  (d_nm d) (d_kernel d) (d_mq d) (d_pipe d) ws (d_next_worker d) (d_cpu_id d) (d_threads d).

Definition with_worker (x : worker_slot K Q) (w : worker K Q) : worker_slot K Q :=
  mkSlot w (ws_cpu_id x) (ws_thread_name x) (ws_worker_id x) (ws_thread x).

(** [dispatch_new_conn] by its steps, between which the worker's thread runs:
    the turn is taken, the socket is put into the worker's queue, the message is
    written to the worker's pipe, and the function returns. *)
Inductive dispatch_pc := DTurn (s : sptr) | DPush (j : nat) (s : sptr) | DNotify (j : nat) (s : sptr) | DReturn (code : Z).

(** [pipe_room] says whether the worker's pipe accepts the message. *)
Definition dispatch_step (pipe_room : bool) (pc : dispatch_pc) d : outcome (dispatch_pc * dispatcher K Q) :=
  match pc with
  | DTurn s =>
      match d_workers d !! d_next_worker d with
      | None => Trap OutOfBounds
      | Some _ =>
          let n := length (d_workers d) in
          if (n =? 0)%nat then Trap DivByZero else
          let next := ((d_next_worker d + 1) mod n)%nat in
          Ok (DPush (d_next_worker d) s,
              mkDispatcher (d_opts d) (d_el d) (d_io_watcher d) (d_pipe_watcher d) (d_nm d) (d_kernel d)
                (d_mq d) (d_pipe d) (d_workers d) next (d_cpu_id d) (d_threads d))
      end
  | DPush j s =>
      x ← the (d_workers d !! j);
      w ← mq_push (ws_worker x) s;
      Ok (DNotify j s, upd_workers d (<[j := with_worker x w]> (d_workers d)))
  | DNotify j _ =>
      x ← the (d_workers d !! j);
      let '(r, w) := notify (ws_worker x) pipe_room NEW_CONNECTION in
      Ok (DReturn (if negb (r =? WORKER_OK) then DISPATCHER_ERROR else DISPATCHER_OK),
          upd_workers d (<[j := with_worker x w]> (d_workers d)))
  | DReturn code => Ok (DReturn code, d)
  end.

(** The steps without interruption, as the dispatcher's thread sees them. *)
Definition dispatch_new_conn d (s : sptr) (pipe_room : bool) : outcome (Z * dispatcher K Q) :=
  r ← dispatch_step pipe_room (DTurn s) d;
  r ← dispatch_step pipe_room (fst r) (snd r);
  r ← dispatch_step pipe_room (fst r) (snd r);
  match r with
  | (DReturn code, d) => Ok (code, d)
  | _ => Trap OutOfFuel
  end.

(** The accept callback. *)
Definition accept_new_conn (fuel : nat) d (listen_fd : Z) (pipe_room : bool) : outcome (dispatcher K Q) :=
  r ← generic_accept fuel (d_kernel d) (d_nm d) listen_fd Ipv4Address_default;
  let '(s, nm, k) := r in
  let d := mkDispatcher (d_opts d) (d_el d) (d_io_watcher d) (d_pipe_watcher d) nm k (d_mq d) (d_pipe d)
             (d_workers d) (d_next_worker d) (d_cpu_id d) (d_threads d) in
  match s with
  | None => Ok d
  | Some s => r ← dispatch_new_conn d s pipe_room; Ok (snd r)
  end.

Definition create_pipe d : outcome (Z * dispatcher K Q) :=
  match sys_pipe (d_kernel d) with
  | (SysErr _, k) => Ok (DISPATCHER_ERROR, mkDispatcher (d_opts d) (d_el d) (d_io_watcher d) (d_pipe_watcher d)
      (d_nm d) k (d_mq d) (d_pipe d) (d_workers d) (d_next_worker d) (d_cpu_id d) (d_threads d))
  | (SysOk (rfd, wfd), k) =>
      let '(io, el) := create_io_event (d_el d) RecvNotify 0 in
      el ← start_io_event el io rfd READ;
      Ok (DISPATCHER_OK, mkDispatcher (d_opts d) el (d_io_watcher d) (Some io) (d_nm d) k (d_mq d) (d_pipe d)
            (d_workers d) (d_next_worker d) (d_cpu_id d) (d_threads d))
  end.

Definition create_dispatcher_server d (type : Z) (ip : bytes) (port : Z) : outcome (Z * dispatcher K Q) :=
  r ← create_server (d_kernel d) (d_nm d) type ip port;
  let '(s, nm, k) := r in
  let d := mkDispatcher (d_opts d) (d_el d) (d_io_watcher d) (d_pipe_watcher d) nm k (d_mq d) (d_pipe d)
             (d_workers d) (d_next_worker d) (d_cpu_id d) (d_threads d) in
  match s with
  | None => Ok (DISPATCHER_ERROR, d)
  | Some s =>
      sock ← the (nm_heap nm !! s);
      let '(io, el) := create_io_event (d_el d) AcceptNewConn 0 in
      el ← start_io_event el io (s_fd sock) READ;
      Ok (DISPATCHER_OK, mkDispatcher (d_opts d) el (Some io) (d_pipe_watcher d) (d_nm d) (d_kernel d) (d_mq d)
            (d_pipe d) (d_workers d) (d_next_worker d) (d_cpu_id d) (d_threads d))
  end.

(** The worker the factory builds, and the name it gives its thread. *)
Variable worker_factory : option (GenericServerOptions -> worker K Q * bytes).

(** [std::to_string] of an [int]. *)
Definition to_string (v : Z) : bytes := match ll_text v with Ok t => t | Trap _ => [] end.

(** A worker is initialised, named after the next cpu, started and, if asked,
    bound to the cpu; it joins the list last. *)
Definition spawn_worker d : outcome (Z * dispatcher K Q) :=
  match worker_factory with
  | None => Ok (DISPATCHER_ERROR, d)
  | Some f =>
      let '(w, name) := f (d_opts d) in
      r ← initialize w;
      let w := upd_nm (snd r) (d_nm d) in
      let cpu := d_cpu_id d in
      let name := name ++ str "_" ++ to_string cpu in
      let n := d_threads d in
      let d := mkDispatcher (d_opts d) (d_el d) (d_io_watcher d) (d_pipe_watcher d) (d_nm d) (d_kernel d)
                 (d_mq d) (d_pipe d) (d_workers d) (d_next_worker d) (s32 (cpu + 1)) (S n) in
      if create_thread n =? THREAD_ERROR then Ok (DISPATCHER_ERROR, d) else
      let id := name ++ str "_" ++ to_string (thread_id n) in
      if negb (opt_bind_cpu (d_opts d) =? 0) && negb (bind_cpu n cpu) then Ok (DISPATCHER_ERROR, d) else
      Ok (DISPATCHER_OK, upd_workers d (d_workers d ++ [mkSlot w cpu name id n]))
  end.

Fixpoint spawn_workers (n : nat) d : outcome (Z * dispatcher K Q) :=
  match n with
  | O => Ok (DISPATCHER_OK, d)
  | S n =>
      r ← spawn_worker d;
      let '(code, d) := r in
      if code =? DISPATCHER_ERROR then Ok (DISPATCHER_ERROR, d) else spawn_workers n d
  end.

(** [GenericDispatcher::initialize]. *)
Definition initialize_dispatcher d (ip : bytes) : outcome (Z * dispatcher K Q) :=
  r ← create_pipe d;
  let '(code, d) := r in
  if code =? DISPATCHER_ERROR then Ok (DISPATCHER_ERROR, d) else
  r ← create_dispatcher_server d (opt_server_type (d_opts d)) ip (opt_port (d_opts d));
  let '(code, d) := r in
  if negb (code =? 0) then Ok (DISPATCHER_ERROR, d) else
  spawn_workers (Z.to_nat (opt_worker_num (d_opts d))) d.

(** [join_workers]: tells each worker to quit and waits for it; a failed join
    leaves the rest running.  The pipes here accept the message. *)
Fixpoint join_loop (done_ todo : list (worker_slot K Q)) : Z * list (worker_slot K Q) :=
  match todo with
  | [] => (DISPATCHER_OK, done_)
  | x :: todo =>
      let '(_, w) := notify (ws_worker x) true QUIT in
      let x := with_worker x w in
      if join_thread (ws_thread x) =? THREAD_ERROR then (DISPATCHER_ERROR, done_ ++ x :: todo)
      else join_loop (done_ ++ [x]) todo
  end.

Definition join_workers d : Z * dispatcher K Q :=
  let '(code, ws) := join_loop [] (d_workers d) in (code, upd_workers d ws).

Definition delete_watcher (el : EventLoop) (w : option nat) : outcome EventLoop :=
  match w with Some w => delete_io_event el w | None => Ok el end.

Definition stop_dispatcher d : outcome (dispatcher K Q) :=
  el ← delete_watcher (d_el d) (d_pipe_watcher d);
  el ← delete_watcher el (d_io_watcher d);
  let d := mkDispatcher (d_opts d) (Event.stop el) (d_io_watcher d) (d_pipe_watcher d) (d_nm d) (d_kernel d)
             (d_mq d) (d_pipe d) (d_workers d) (d_next_worker d) (d_cpu_id d) (d_threads d) in
  Ok (snd (join_workers d)).

(** [process_notify] of the base class only logs. *)
Definition dispatcher_internal_notify d (msg : Z) : outcome (dispatcher K Q) :=
  if msg =? DISPATCHER_QUIT then stop_dispatcher d else Ok d.

Definition notify_dispatcher d (pipe_room : bool) (msg : Z) : Z * dispatcher K Q :=
  if pipe_room
  then (DISPATCHER_OK, mkDispatcher (d_opts d) (d_el d) (d_io_watcher d) (d_pipe_watcher d) (d_nm d) (d_kernel d)
          (d_mq d) (d_pipe d ++ [msg]) (d_workers d) (d_next_worker d) (d_cpu_id d) (d_threads d))
  else (DISPATCHER_ERROR, d).

(** The count and the text [",id:count"] per worker between brackets. *)
Fixpoint clients_loop (ws : list (worker_slot K Q)) : Z * bytes :=
  match ws with
  | [] => (0, [])
  | x :: ws =>
      let count := get_clients_count (ws_worker x) in
      let '(n, text) := clients_loop ws in
      (count + n, str "," ++ ws_worker_id x ++ str ":" ++ to_string count ++ text)
  end.

Definition get_all_clients_count d : Z * bytes :=
  let '(n, text) := clients_loop (d_workers d) in (s64 n, str "[" ++ text ++ str "]").

(** [GenericServer::stop]. *)
Definition stop_server d (pipe_room : bool) : dispatcher K Q :=
  snd (notify_dispatcher d pipe_room DISPATCHER_QUIT).

(** [GenericServer::initialize]. *)
Definition initialize_server d (ip : bytes) : outcome (Z * dispatcher K Q) :=
  r ← initialize_dispatcher d ip;
  let '(code, d) := r in
  Ok (if negb (code =? DISPATCHER_OK) then SERVER_ERROR else SERVER_OK, d).

(** The worker's side, [recv_notify] up to the creation of the connection: the
    message at the head of the pipe is read; a quit stops the worker, for a new
    connection the socket is popped. *)
Definition handoff (w : worker K Q) : outcome (option sptr * worker K Q) :=
  match w_pipe w with
  | [] => Ok (None, w)
  | msg :: rest =>
      let w := upd_mq w (w_mq w) rest in
      if msg =? QUIT then (w ← stop w; Ok (None, w))
      else if msg =? NEW_CONNECTION then mq_pop w else Ok (None, w)
  end.

End Dispatcher.

(** ** Facts *)

(** The sockets worker [j] of [n] receives when dispatching starts at [next]. *)
Fixpoint assigned (n next j : nat) (ss : list sptr) : list sptr :=
  match ss with
  | [] => []
  | s :: ss => (if (next =? j)%nat then [s] else []) ++ assigned n ((next + 1) mod n) j ss
  end.

(** How far worker [j] is from its turn. *)
Definition distance (n next j : nat) : nat := ((j + n - next) mod n)%nat.

Lemma distance_step n next j :
  (next < n)%nat -> (j < n)%nat ->
  distance n ((next + 1) mod n) j = if (next =? j)%nat then (n - 1)%nat else (distance n next j - 1)%nat.
Proof.
  intros Hn Hj. unfold distance.
  assert (Hmod : forall a, (a < n)%nat -> ((a + n) mod n = a)%nat).
  { intros a Ha. replace (a + n)%nat with (a + 1 * n)%nat by lia.
    rewrite Nat.Div0.mod_add. by apply Nat.mod_small. }
  assert (Hnext : ((next + 1) mod n = if (next + 1 =? n)%nat then 0 else next + 1)%nat).
  { destruct (Nat.eqb_spec (next + 1) n) as [->|]; [apply Nat.Div0.mod_same|apply Nat.mod_small; lia]. }
  rewrite Hnext. destruct (Nat.eqb_spec next j) as [->|Hne].
  - destruct (Nat.eqb_spec (j + 1) n).
    + rewrite Nat.sub_0_r, Hmod by lia. lia.
    + rewrite Nat.mod_small by lia. lia.
  - destruct (decide (j < next)%nat).
    + destruct (Nat.eqb_spec (next + 1) n).
      * rewrite Nat.sub_0_r, Hmod, Nat.mod_small by lia. lia.
      * rewrite !Nat.mod_small by lia. lia.
    + destruct (Nat.eqb_spec (next + 1) n); [lia|].
      replace (j + n - next)%nat with ((j - next) + n)%nat by lia.
      replace (j + n - (next + 1))%nat with ((j - next - 1) + n)%nat by lia.
      rewrite !Hmod by lia. lia.
Qed.

Lemma distance_zero n next j : (next < n)%nat -> (j < n)%nat -> distance n next j = O <-> next = j.
Proof.
  intros Hn Hj. unfold distance. destruct (decide (j < next)%nat).
  - rewrite Nat.mod_small by lia. lia.
  - replace (j + n - next)%nat with ((j - next) + 1 * n)%nat by lia.
    rewrite Nat.Div0.mod_add, Nat.mod_small by lia. lia.
Qed.

(** Each worker receives every [n]-th socket. *)
Lemma assigned_length n next j ss :
  (next < n)%nat -> (j < n)%nat ->
  length (assigned n next j ss) = ((length ss + (n - 1 - distance n next j)) / n)%nat.
Proof.
  revert next. induction ss as [|s ss IH]; intros next Hn Hj.
  - simpl. symmetry. apply Nat.div_small. lia.
  - cbn [assigned]. rewrite length_app, IH by (done || apply Nat.mod_upper_bound; lia).
    rewrite distance_step by done. pose proof (distance_zero n next j Hn Hj) as H0.
    assert (Hd : (distance n next j < n)%nat) by (apply Nat.mod_upper_bound; lia).
    destruct (Nat.eqb_spec next j) as [->|Hne].
    + rewrite (proj2 H0 eq_refl). cbn [length]. rewrite Nat.sub_diag, Nat.add_0_r.
      replace (S (length ss) + (n - 1 - 0))%nat with (length ss + 1 * n)%nat by lia.
      rewrite Nat.div_add by lia. lia.
    + cbn [length]. rewrite Nat.add_0_l. f_equal.
      assert (distance n next j <> O) by (rewrite H0; done). lia.
Qed.

Section DispatcherFacts.
Context {K Q : Type} `{Kernel K} `{Fifo Q sptr}.
Implicit Types d : dispatcher K Q.

(** The queues of the workers hold [ls]. *)
Definition queues (ws : list (worker_slot K Q)) (ls : list (list sptr)) : Prop :=
  Forall2 (fun x l => fifo_repr (w_mq (ws_worker x)) l) ws ls.

(** The three steps of a dispatch, on a dispatcher whose queues hold [ls]. *)
Lemma dispatch_turn_ok room s d x : d_workers d !! d_next_worker d = Some x ->
  exists d', dispatch_step room (DTurn s) d = Ok (DPush (d_next_worker d) s, d') /\ d_workers d' = d_workers d /\
    d_next_worker d' = ((d_next_worker d + 1) mod length (d_workers d))%nat.
Proof.
  intros Hx. pose proof (lookup_lt_Some _ _ _ Hx). cbn [dispatch_step]. rewrite Hx.
  destruct (Nat.eqb_spec (length (d_workers d)) 0); [lia|]. eauto.
Qed.

Lemma dispatch_push_ok room j s d x l : d_workers d !! j = Some x -> fifo_repr (w_mq (ws_worker x)) l ->
  exists w, dispatch_step room (DPush j s) d = Ok (DNotify j s, upd_workers d (<[j := with_worker x w]> (d_workers d))) /\
    fifo_repr (w_mq w) (l ++ [s]) /\ w_pipe w = w_pipe (ws_worker x).
Proof.
  intros Hx Hl. cbn [dispatch_step]. rewrite Hx. cbn [the mbind outcome_bind].
  unfold mq_push. destruct (fifo_produce_ok _ _ s Hl) as (q & -> & Hq). cbn [mbind outcome_bind]. eauto.
Qed.

Lemma dispatch_notify_ok room j s d x : d_workers d !! j = Some x ->
  exists code w, dispatch_step room (DNotify j s) d = Ok (DReturn code, upd_workers d (<[j := with_worker x w]> (d_workers d))) /\
    (code = DISPATCHER_OK <-> room = true) /\ w_mq w = w_mq (ws_worker x) /\
    w_pipe w = w_pipe (ws_worker x) ++ (if room then [NEW_CONNECTION] else []).
Proof.
  intros Hx. cbn [dispatch_step]. rewrite Hx. cbn [the mbind outcome_bind]. unfold notify.
  destruct room; eexists _, _; (split; [done|]); cbn; by rewrite ?app_nil_r.
Qed.

Lemma dispatch_ok d s room ls l :
  queues (d_workers d) ls -> ls !! d_next_worker d = Some l ->
  exists code d', dispatch_new_conn d s room = Ok (code, d') /\
    (code = DISPATCHER_OK <-> room = true) /\
    queues (d_workers d') (<[d_next_worker d := l ++ [s]]> ls) /\
    d_next_worker d' = ((d_next_worker d + 1) mod length (d_workers d))%nat /\
    length (d_workers d') = length (d_workers d).
Proof.
  intros Hq Hl. unfold dispatch_new_conn.
  destruct (Forall2_lookup_r _ _ _ _ _ Hq Hl) as (x & Hx & Hr). pose proof (lookup_lt_Some _ _ _ Hx).
  destruct (dispatch_turn_ok room s d x Hx) as (d1 & -> & Hw & Hn). cbn [mbind outcome_bind fst snd].
  rewrite <-Hw in Hx. destruct (dispatch_push_ok room _ s d1 x l Hx Hr) as (w & -> & Hr' & _).
  cbn [mbind outcome_bind fst snd]. set (d2 := upd_workers d1 _). set (j := d_next_worker d) in *.
  assert (Hx2 : d_workers d2 !! j = Some (with_worker x w)) by (unfold d2; cbn; rewrite Hw; by apply list_lookup_insert_eq).
  destruct (dispatch_notify_ok room j s d2 _ Hx2) as (code & w2 & -> & Hcode & Hq2 & _).
  cbn [mbind outcome_bind]. exists code. eexists. split; [done|]. split; [done|]. split; [|split; [exact Hn|]].
  - unfold d2. cbn. rewrite list_insert_insert_eq, Hw. apply Forall2_insert; [done|]. cbn. by rewrite Hq2.
  - unfold d2. cbn. by rewrite !length_insert, Hw.
Qed.

Fixpoint dispatch_all d (ss : list (sptr * bool)) : outcome (dispatcher K Q) :=
  match ss with
  | [] => Ok d
  | (s, room) :: ss => r ← dispatch_new_conn d s room; dispatch_all (snd r) ss
  end.

Lemma dispatch_all_ok ss d ls n :
  n = length (d_workers d) -> (d_next_worker d < n)%nat -> queues (d_workers d) ls ->
  exists d', dispatch_all d ss = Ok d' /\ length (d_workers d') = n /\
    queues (d_workers d') (imap (fun j l => l ++ assigned n (d_next_worker d) j (fst <$> ss)) ls) /\
    d_next_worker d' = ((d_next_worker d + length ss) mod n)%nat.
Proof.
  revert d ls. induction ss as [|[s room] ss IH]; intros d ls Hn Hlt Hq.
  - exists d. split_and!; [done..| |].
    + replace (imap _ ls) with ls; [done|]. apply list_eq. intros i. rewrite list_lookup_imap.
      destruct (ls !! i); simpl; [by rewrite app_nil_r|done].
    + rewrite Nat.add_0_r, Nat.mod_small; done.
  - destruct (lookup_lt_is_Some_2 ls (d_next_worker d)) as [l Hl].
    { rewrite <-(Forall2_length _ _ _ Hq). lia. }
    cbn [dispatch_all]. destruct (dispatch_ok d s room ls l Hq Hl) as (code & d1 & -> & _ & Hq1 & Hnext & Hlen).
    cbn [mbind outcome_bind snd].
    destruct (IH d1 (<[d_next_worker d := l ++ [s]]> ls)) as (d2 & -> & Hl2 & Hq2 & Hn2).
    { congruence. }
    { rewrite Hnext, <-Hn. apply Nat.mod_upper_bound. lia. }
    { done. }
    exists d2. split_and!; [done|done| |].
    + replace (imap _ ls) with (imap (λ j l0, l0 ++ assigned n (d_next_worker d1) j ss.*1) (<[d_next_worker d:=l ++ [s]]> ls)); [done|].
      apply list_eq. intros i. rewrite !list_lookup_imap. rewrite Hnext, <-Hn. cbn [fmap list_fmap fst assigned].
      destruct (Nat.eqb_spec (d_next_worker d) i) as [<-|Hne].
      * rewrite list_lookup_insert_eq by (by eapply lookup_lt_Some). rewrite Hl. simpl. by rewrite <-app_assoc.
      * by rewrite list_lookup_insert_ne.
    + rewrite Hn2, Hnext, <-Hn, Nat.Div0.add_mod_idemp_l. f_equal. cbn [length]. lia.
Qed.

(** ** What the worker's callbacks leave alone

    Stopping a worker and creating or closing connections change neither its
    queue nor its pipe. *)
Definition same_mail (w w' : worker K Q) : Prop := w_mq w' = w_mq w /\ w_pipe w' = w_pipe w.

Lemma close_conn_mail w cp w' : close_conn w cp = Ok w' -> same_mail w w'.
Proof.
  unfold close_conn, remove_conn, delete_connection. intros Hc. inv_bind Hc. inv_bind Hc. inv_bind Hc. injection Hc as <-.
  inv_bind E1. inv_bind E1. inv_bind E1. inv_bind E1. inv_bind E1. inv_bind E1. inv_bind E1. injection E1 as <-.
  by destruct (c_kind _).
Qed.

Lemma close_slots_mail n w i w' : close_slots w i n = Ok w' -> same_mail w w'.
Proof.
  revert w i. induction n as [|n IH]; intros w i Hc; cbn [close_slots] in Hc; [by injection Hc as <-|].
  inv_bind Hc. destruct a as [cp|]; [|by eapply IH]. inv_bind Hc.
  apply IH in Hc as [H1 H2]. apply close_conn_mail in E0 as [H3 H4]. split; congruence.
Qed.

Lemma stop_mail w w' : stop w = Ok w' -> same_mail w w'.
Proof. unfold stop. intros Hs. inv_bind Hs. inv_bind Hs. by apply close_slots_mail in Hs. Qed.

Lemma create_connection_mail `{Allocator} w s o w' : create_connection w s = Ok (o, w') -> same_mail w w'.
Proof.
  unfold create_connection, enable_events, start_conn_timer. destruct s as [s|]; [|by intros [= _ <-]].
  intros Hc. inv_bind Hc. destruct (_ =? _); [by injection Hc as _ <-|]. inv_bind Hc.
  destruct (create_io_event _ _ _) as [io el]. destruct (create_timer _ _ _ _) as [tm el'].
  inv_bind Hc. inv_bind Hc. inv_bind Hc. injection Hc as _ <-.
  inv_bind E1. inv_bind E1. injection E1 as <-. inv_bind E2. by injection E2 as <-.
Qed.

(** ** A worker's queue and pipe while the dispatcher is at [pc] *)

(** The messages that announce a connection. *)
Definition announcements (w : worker K Q) : nat := length (filter (fun m => m = NEW_CONNECTION) (w_pipe w)).

(** One socket of worker [j] is in its queue and not yet announced. *)
Definition unannounced (pc : dispatch_pc) (j : nat) : nat :=
  match pc with DNotify i _ => if decide (i = j) then 1%nat else 0%nat | _ => 0%nat end.

(** The queue holds [l], of which more than the messages announce only the
    socket of a dispatch under way and those whose message was refused. *)
Record worker_sync (pc : dispatch_pc) (j : nat) (w : worker K Q) (l : list sptr) : Prop := mkSync {
  sy_queue : fifo_repr (w_mq w) l;
  sy_pipe : (announcements w + unannounced pc j <= length l)%nat }.

Lemma same_mail_sync pc j w w' l : same_mail w w' -> worker_sync pc j w l -> worker_sync pc j w' l.
Proof. intros [Hq Hp] [Hl Ha]. split; [by rewrite Hq|]. unfold announcements in *. by rewrite Hp. Qed.

(** A message that announces a connection finds a socket; any other leaves the
    queue alone, if the worker can be stopped. *)
Lemma handoff_announced pc j w l rest : worker_sync pc j w l -> w_pipe w = NEW_CONNECTION :: rest ->
  exists s w' l', handoff w = Ok (Some s, w') /\ l = s :: l' /\ worker_sync pc j w' l'.
Proof.
  intros [Hq Hp] Ep. unfold handoff, announcements in *. rewrite Ep in *. rewrite filter_cons_True in Hp by done.
  destruct l as [|s l]; [simpl in Hp; lia|]. change (NEW_CONNECTION =? QUIT) with false. rewrite Z.eqb_refl.
  unfold mq_pop. cbn [upd_mq w_mq]. destruct (fifo_consume_ok _ _ Hq) as (q & -> & Hq').
  cbn [mbind outcome_bind head]. eexists s, _, l. split; [done|]. split; [done|]. split; [done|].
  unfold announcements. cbn [upd_mq w_pipe]. simpl in Hp. lia.
Qed.

Lemma handoff_sync pc j w l r w' : worker_sync pc j w l -> handoff w = Ok (r, w') ->
  exists l', l = match r with Some s => s :: l' | None => l' end /\ worker_sync pc j w' l'.
Proof.
  intros Hs E. destruct (w_pipe w) as [|m rest] eqn:Ep.
  { unfold handoff in E. rewrite Ep in E. injection E as <- <-. by exists l. }
  destruct (decide (m = NEW_CONNECTION)) as [->|Hm].
  { destruct (handoff_announced _ _ _ _ _ Hs Ep) as (s & w1 & l' & E1 & -> & Hs'). rewrite E in E1. injection E1 as -> ->. eauto. }
  assert (Hr : worker_sync pc j (upd_mq w (w_mq w) rest) l).
  { destruct Hs as [Hq Hp]. split; [done|]. unfold announcements in *. rewrite Ep, filter_cons_False in Hp by done. done. }
  unfold handoff in E. rewrite Ep, (proj2 (Z.eqb_neq m _) Hm) in E. destruct (m =? QUIT).
  - inv_bind E. injection E as <- <-. exists l. split; [done|]. by eapply same_mail_sync, Hr; apply stop_mail.
  - injection E as <- <-. by exists l.
Qed.

End DispatcherFacts.

(** ** Dispatching and taking over, interleaved *)

Inductive hev := HDispatch (j : nat) (s : sptr) | HPop (j : nat) (s : sptr) | HTau.

Section Handover.
Context {K Q : Type} `{Kernel K} `{Fifo Q sptr} `{Allocator}.
Implicit Types d : dispatcher K Q.

(** The dispatcher's thread and the workers': the state is the dispatcher with
    its workers and where its thread is in [dispatch_new_conn].  A dispatch
    starts when the thread is in none; each further step of it is one step; a
    worker handles the message at the head of its pipe at any time in between,
    with everything [recv_notify] does; the dispatcher tells a worker to quit
    only between dispatches. *)
Inductive hstep : dispatch_pc * dispatcher K Q -> hev -> dispatch_pc * dispatcher K Q -> Prop :=
| h_start code d s room pc' d' :
    dispatch_step room (DTurn s) d = Ok (pc', d') ->
    hstep (DReturn code, d) (HDispatch (d_next_worker d) s) (pc', d')
| h_dispatch pc d room pc' d' :
    (forall s, pc <> DTurn s) -> dispatch_step room pc d = Ok (pc', d') -> hstep (pc, d) HTau (pc', d')
| h_pop pc d j x s w1 o w' :
    d_workers d !! j = Some x -> handoff (ws_worker x) = Ok (Some s, w1) ->
    create_connection w1 (Some s) = Ok (o, w') ->
    hstep (pc, d) (HPop j s) (pc, upd_workers d (<[j := with_worker x w']> (d_workers d)))
| h_other pc d j x w' :
    d_workers d !! j = Some x -> handoff (ws_worker x) = Ok (None, w') ->
    hstep (pc, d) HTau (pc, upd_workers d (<[j := with_worker x w']> (d_workers d)))
| h_quit code d j x (room : bool) :
    d_workers d !! j = Some x ->
    hstep (DReturn code, d) HTau
      (DReturn code, upd_workers d (<[j := with_worker x (snd (notify (ws_worker x) room QUIT))]> (d_workers d))).

Inductive hrun (x : dispatch_pc * dispatcher K Q) : list hev -> dispatch_pc * dispatcher K Q -> Prop :=
| hr_nil : hrun x [] x
| hr_snoc tr y e z : hrun x tr y -> hstep y e z -> hrun x (tr ++ [e]) z.

Definition sync (pc : dispatch_pc) (ws : list (worker_slot K Q)) (ls : list (list sptr)) : Prop :=
  length ws = length ls /\
  forall j x l, ws !! j = Some x -> ls !! j = Some l -> worker_sync pc j (ws_worker x) l.

(** The socket a dispatch has taken a turn for and not yet put into the queue. *)
Definition in_hand (pc : dispatch_pc) (j : nat) : list sptr :=
  match pc with DPush i s => if decide (i = j) then [s] else [] | _ => [] end.

Definition dispatched (j : nat) (tr : list hev) : list sptr :=
  omap (fun e => match e with HDispatch i s => if decide (i = j) then Some s else None | _ => None end) tr.
Definition popped (j : nat) (tr : list hev) : list sptr :=
  omap (fun e => match e with HPop i s => if decide (i = j) then Some s else None | _ => None end) tr.

Lemma sync_lookup pc ws ls j x : sync pc ws ls -> ws !! j = Some x ->
  exists l, ls !! j = Some l /\ worker_sync pc j (ws_worker x) l.
Proof.
  intros [Hlen Hs] Hx. destruct (lookup_lt_is_Some_2 ls j) as [l Hl]; [rewrite <-Hlen; by eapply lookup_lt_Some|eauto].
Qed.

Lemma sync_weaken pc pc' ws ls : sync pc ws ls -> (forall i, unannounced pc' i <= unannounced pc i)%nat -> sync pc' ws ls.
Proof.
  intros [Hlen Hs] Hle. split; [done|]. intros j x l Hx Hl. destruct (Hs j x l Hx Hl). specialize (Hle j). split; [done|lia].
Qed.

(** A step that changes worker [j] only. *)
Lemma sync_insert pc pc' ws ls j x l : sync pc ws ls -> worker_sync pc' j (ws_worker x) l ->
  (forall i, i <> j -> unannounced pc' i <= unannounced pc i)%nat -> sync pc' (<[j := x]> ws) (<[j := l]> ls).
Proof.
  intros [Hlen Hs] Hj Hle. split; [by rewrite !length_insert|]. intros i y m. destruct (decide (i = j)) as [->|Hne].
  - intros Hy Hm. apply list_lookup_insert_Some in Hy as [(_ & <- & _)|[? _]]; [|done].
    by apply list_lookup_insert_Some in Hm as [(_ & <- & _)|[? _]].
  - rewrite !list_lookup_insert_ne by done. intros Hy Hm. destruct (Hs i y m Hy Hm) as [Hq Hp].
    specialize (Hle i Hne). split; [done|lia].
Qed.

Lemma lookup_insert_default (ls : list (list sptr)) j l i : (j < length ls)%nat ->
  default [] (<[j := l]> ls !! i) = if decide (i = j) then l else default [] (ls !! i).
Proof. intros Hj. case_decide as E; [subst; by rewrite list_lookup_insert_eq|by rewrite list_lookup_insert_ne]. Qed.

(** One step, on the contents of the queues. *)
Definition balanced (pc : dispatch_pc) (ls : list (list sptr)) (e : hev) (pc' : dispatch_pc) (ls' : list (list sptr)) : Prop :=
  forall i, default [] (ls !! i) ++ in_hand pc i ++ dispatched i [e] =
            popped i [e] ++ default [] (ls' !! i) ++ in_hand pc' i.

Lemma dispatch_step_sync room pc d pc' d' ls :
  sync pc (d_workers d) ls -> dispatch_step room pc d = Ok (pc', d') ->
  exists ls', sync pc' (d_workers d') ls' /\
    balanced pc ls (match pc with DTurn s => HDispatch (d_next_worker d) s | _ => HTau end) pc' ls'.
Proof.
  intros Hs E. destruct pc as [s|j s|j s|code].
  - destruct (d_workers d !! d_next_worker d) as [x|] eqn:Hx; [|by cbn in E; rewrite Hx in E].
    destruct (dispatch_turn_ok room s d x Hx) as (d1 & E1 & Hw & _). rewrite E in E1. injection E1 as -> ->.
    exists ls. split; [rewrite Hw; by eapply sync_weaken|]. intros i. cbn. by case_decide.
  - destruct (d_workers d !! j) as [x|] eqn:Hx; [|by cbn in E; rewrite Hx in E].
    destruct (sync_lookup _ _ _ _ _ Hs Hx) as (l & Hl & [Hq Hp]).
    destruct (dispatch_push_ok room j s d x l Hx Hq) as (w & E1 & Hq' & Hpp). rewrite E in E1. injection E1 as -> ->.
    exists (<[j := l ++ [s]]> ls). split.
    + apply (sync_insert _ _ _ _ _ _ _ Hs); [|intros i Hi; cbn; by rewrite decide_False by done].
      split; [done|]. unfold announcements in *. cbn -[filter] in *. rewrite Hpp, decide_True, length_app by done. simpl. lia.
    + intros i. cbn [dispatched popped omap list_omap in_hand]. rewrite lookup_insert_default by (by eapply lookup_lt_Some).
      case_decide as Hji; [subst; rewrite decide_True, Hl by done|rewrite decide_False by done]; cbn; by rewrite ?app_nil_r.
  - destruct (d_workers d !! j) as [x|] eqn:Hx; [|by cbn in E; rewrite Hx in E].
    destruct (sync_lookup _ _ _ _ _ Hs Hx) as (l & Hl & [Hq Hp]).
    destruct (dispatch_notify_ok room j s d x Hx) as (code & w & E1 & _ & Hq' & Hpp). rewrite E in E1. injection E1 as -> ->.
    exists ls. split; [|intros i; cbn; by rewrite app_nil_r].
    rewrite <-(list_insert_id ls j l Hl). apply (sync_insert _ _ _ _ _ _ _ Hs); [|intros i Hi; cbn; by rewrite decide_False by done].
    split; [by cbn; rewrite Hq'|]. unfold announcements in *. cbn -[filter] in *. rewrite Hpp, decide_True, filter_app, length_app in * by done.
    assert (length (filter (fun m => m = NEW_CONNECTION) (if room then [NEW_CONNECTION] else [])) <= 1)%nat by (by destruct room; vm_compute; lia).
    lia.
  - injection E as <- <-. exists ls. split; [done|]. intros i. cbn. by rewrite app_nil_r.
Qed.

Lemma hstep_sync pc d e pc' d' ls :
  sync pc (d_workers d) ls -> hstep (pc, d) e (pc', d') ->
  exists ls', sync pc' (d_workers d') ls' /\ balanced pc ls e pc' ls'.
Proof.
  intros Hs Hst. inversion Hst as [code d0 s room pc1 d1 E|pc0 d0 room pc1 d1 Hne E|pc0 d0 j x s w1 o w' Hx E Ec|pc0 d0 j x w' Hx E|code d0 j x room Hx];
    subst; clear Hst.
  - eapply (dispatch_step_sync room (DTurn s)); [|done]. by eapply sync_weaken.
  - destruct pc as [s| | |]; [by destruct (Hne s)|..]; exact (dispatch_step_sync room _ d pc' d' ls Hs E).
  - destruct (sync_lookup _ _ _ _ _ Hs Hx) as (l & Hl & Hsy).
    destruct (handoff_sync _ _ _ _ _ _ Hsy E) as (l' & -> & Hsy'). exists (<[j := l']> ls). split.
    + apply (sync_insert _ _ _ _ _ _ _ Hs); [|done]. by eapply same_mail_sync, Hsy'; apply create_connection_mail in Ec.
    + intros i. cbn [dispatched popped omap list_omap]. rewrite lookup_insert_default by (by eapply lookup_lt_Some).
      case_decide as Hji; [subst; rewrite decide_True, Hl by done|rewrite decide_False by done]; cbn; by rewrite app_nil_r.
  - destruct (sync_lookup _ _ _ _ _ Hs Hx) as (l & Hl & Hsy).
    destruct (handoff_sync _ _ _ _ _ _ Hsy E) as (l' & -> & Hsy'). exists ls. split.
    + cbn. rewrite <-(list_insert_id ls j l' Hl). by apply (sync_insert _ _ _ _ _ _ _ Hs).
    + intros i. cbn. by rewrite app_nil_r.
  - destruct (sync_lookup _ _ _ _ _ Hs Hx) as (l & Hl & [Hq Hp]). exists ls. split.
    + cbn. rewrite <-(list_insert_id ls j l Hl). apply (sync_insert _ _ _ _ _ _ _ Hs); [|done].
      destruct room; [|done]. split; [done|]. unfold announcements in *. cbn -[filter] in *.
      rewrite filter_app, length_app. change (filter (fun m => m = NEW_CONNECTION) [QUIT]) with (@nil Z). cbn. lia.
    + intros i. cbn. by rewrite app_nil_r.
Qed.

Lemma hrun_sync x tr y ls :
  sync (fst x) (d_workers (snd x)) ls -> hrun x tr y ->
  exists ls', sync (fst y) (d_workers (snd y)) ls' /\
    forall j, default [] (ls !! j) ++ in_hand (fst x) j ++ dispatched j tr =
              popped j tr ++ default [] (ls' !! j) ++ in_hand (fst y) j.
Proof.
  intros Hs. induction 1 as [|tr y e z _ IH Hst].
  - exists ls. split; [done|]. intros j. cbn. by rewrite app_nil_r.
  - destruct IH as (ls1 & Hs1 & H1'). destruct y as [pc d], z as [pc' d'].
    destruct (hstep_sync _ _ _ _ _ _ Hs1 Hst) as (ls2 & Hs2 & H2').
    exists ls2. split; [done|]. intros j. unfold dispatched, popped in *. rewrite !omap_app.
    rewrite (app_assoc (in_hand _ _)), (app_assoc (default _ _)), H1'. rewrite <-!app_assoc. f_equal. apply H2'.
Qed.

End Handover.

(** The handover and the creation of the connection are the worker's callback. *)
Lemma recv_notify_handoff {K Q : Type} `{Kernel K} `{Fifo Q sptr} (A : Allocator) (w : worker K Q) :
  recv_notify w = (r ← handoff w;
                   match r with
                   | (Some s, w) => r ← create_connection w (Some s); Ok (snd r)
                   | (None, w) => Ok w
                   end).
Proof.
  unfold recv_notify, handoff, process_internal_notify. destruct (w_pipe w) as [|m rest]; [done|].
  destruct (m =? QUIT); [by destruct (stop _)|]. destruct (m =? NEW_CONNECTION); [|done].
  destruct (mq_pop _) as [[[s|] w1]|]; done.
Qed.

(** ** Properties *)

(** C24: Round robin: dispatching a sequence of sockets from worker [next] on
    appends to the queue of worker [j] exactly every [n]-th of them, in order,
    and the numbers any two workers receive differ by at most one. *)
Theorem dispatch_round_robin {K Q : Type} `{Kernel K} `{Fifo Q sptr} (d : dispatcher K Q) ss ls n :
  n = length (d_workers d) -> (d_next_worker d < n)%nat -> queues (d_workers d) ls ->
  exists d', dispatch_all d ss = Ok d' /\
    queues (d_workers d') (imap (fun j l => l ++ assigned n (d_next_worker d) j (fst <$> ss)) ls) /\
    d_next_worker d' = ((d_next_worker d + length ss) mod n)%nat /\
    forall i j, (i < n)%nat -> (j < n)%nat ->
      (length (assigned n (d_next_worker d) i (fst <$> ss)) <=
       S (length (assigned n (d_next_worker d) j (fst <$> ss))))%nat.
Proof.
  intros Hn Hlt Hq. destruct (dispatch_all_ok ss d ls n Hn Hlt Hq) as (d' & E & _ & Hq' & Hn').
  exists d'. split_and!; [done..|]. intros i j Hi Hj. rewrite !assigned_length by done.
  set (m := length _). assert (Hdiv : ((m + (n - 1 - distance n (d_next_worker d) i)) / n <= (m + (n - 1)) / n)%nat)
    by (apply Nat.Div0.div_le_mono; lia).
  assert (Hdiv2 : (m / n <= (m + (n - 1 - distance n (d_next_worker d) j)) / n)%nat)
    by (apply Nat.Div0.div_le_mono; lia).
  assert (((m + (n - 1)) / n <= S (m / n))%nat); [|lia].
  transitivity ((m + 1 * n) / n)%nat; [apply Nat.Div0.div_le_mono; lia|].
  rewrite Nat.div_add by lia. lia.
Qed.

(** A dispatcher with [n] idle workers. *)
Definition idle_worker : worker sim (heap sptr * LockFreeQueue) :=
  new_worker default_options 0 new_network_manager sim0 (Seq.new_queue bump_alloc 0%nat ∅).
Definition idle_dispatcher (n : nat) : dispatcher sim (heap sptr * LockFreeQueue) :=
  mkDispatcher default_options (new_loop 0 0) None None new_network_manager sim0
    (Seq.new_queue bump_alloc 0%nat ∅) [] (replicate n (mkSlot idle_worker 0 [] [] 0)) 0 0 0.

Lemma idle_queues n : queues (d_workers (idle_dispatcher n)) (replicate n []).
Proof.
  unfold queues, idle_dispatcher. cbn [d_workers]. apply Forall2_replicate. apply (new_queue_repr bump_alloc 0%nat).
Qed.

Lemma dispatch_round_robin_witness :
  exists d', dispatch_all (idle_dispatcher 2) [(10%nat, true); (11%nat, true); (12%nat, false)] = Ok d' /\
    queues (d_workers d') (imap (fun j l => l ++ assigned 2 0 j [10; 11; 12]%nat) (replicate 2 [])) /\
    d_next_worker d' = ((0 + 3) mod 2)%nat /\
    forall i j, (i < 2)%nat -> (j < 2)%nat ->
      (length (assigned 2 0 i [10; 11; 12]%nat) <= S (length (assigned 2 0 j [10; 11; 12]%nat)))%nat.
Proof.
  apply (dispatch_round_robin (idle_dispatcher 2) [(10%nat, true); (11%nat, true); (12%nat, false)] (replicate 2 []) 2);
    [done|vm_compute; lia|apply idle_queues].
Defined.

(** C4: No connection is lost, duplicated or reordered between the dispatcher
    and a worker.  The dispatcher's thread runs [dispatch_new_conn] step by step
    (turn, queue, message, which the pipe may refuse) and between any two of
    its steps the workers handle messages, quit messages included.  Then the
    sockets dispatched to worker [j] are those it has taken over, in order,
    followed by those in its queue and by the one the dispatcher holds for it
    between turn and queue; and a message that announces a connection always
    finds a socket in the queue, so the worker never pops an empty one. *)
Theorem handover_fifo {K Q : Type} `{Kernel K} `{Fifo Q sptr} `{Allocator} (d : dispatcher K Q) code tr pc d' ls :
  sync (DReturn code) (d_workers d) ls -> (forall j, default [] (ls !! j) = []) -> hrun (DReturn code, d) tr (pc, d') ->
  exists ls', queues (d_workers d') ls' /\
    (forall j, dispatched j tr = popped j tr ++ default [] (ls' !! j) ++ in_hand pc j) /\
    forall j x rest, d_workers d' !! j = Some x -> w_pipe (ws_worker x) = NEW_CONNECTION :: rest ->
      exists s w', handoff (ws_worker x) = Ok (Some s, w').
Proof.
  intros Hs Hempty Hrun. destruct (hrun_sync (DReturn code, d) tr (pc, d') ls Hs Hrun) as (ls' & Hs' & Htr). cbn [fst snd] in *.
  exists ls'. split_and!.
  - destruct Hs' as [Hlen Hs']. apply Forall2_same_length_lookup_2; [done|]. intros j x l Hx Hl. by destruct (Hs' j x l Hx Hl).
  - intros j. specialize (Htr j). by rewrite Hempty in Htr.
  - intros j x rest Hx Hp. destruct (sync_lookup _ _ _ _ _ Hs' Hx) as (l & _ & Hsy).
    destruct (handoff_announced _ _ _ _ _ Hsy Hp) as (s & w' & _ & E & _). eauto.
Qed.

(** Two workers that know a socket; the dispatcher hands it to the first, takes
    the second's turn for another one, and meanwhile the first takes over. *)
Definition ready_worker : worker sim (heap sptr * LockFreeQueue) :=
  upd_nm idle_worker (mkNM [] (-1) {[ 10%nat := mkSocket TCPSocket 5 Ipv4Address_default ]} 11).
Definition ready_dispatcher : dispatcher sim (heap sptr * LockFreeQueue) :=
  upd_workers (idle_dispatcher 2) (replicate 2 (mkSlot ready_worker 0 [] [] 0)).
Definition demo_step (pc : dispatch_pc) (d : dispatcher sim (heap sptr * LockFreeQueue)) :=
  match dispatch_step true pc d with Ok x => x | Trap _ => (pc, d) end.
Definition demo_turn := demo_step (DTurn 10) ready_dispatcher.
Definition demo_pushed := demo_step (fst demo_turn) (snd demo_turn).
Definition demo_notified := demo_step (fst demo_pushed) (snd demo_pushed).
Definition demo_second := demo_step (DTurn 11) (snd demo_notified).
Definition demo_slot := default (mkSlot ready_worker 0 [] [] 0) (d_workers (snd demo_second) !! 0%nat).
Definition demo_handed := match handoff (ws_worker demo_slot) with Ok (_, w) => w | Trap _ => ready_worker end.
Definition demo_created :=
  match @create_connection _ _ total_alloc demo_handed (Some 10%nat) with Ok x => x | Trap _ => (None, ready_worker) end.
Definition demo_taken : dispatch_pc * dispatcher sim (heap sptr * LockFreeQueue) :=
  (DPush 1 11, upd_workers (snd demo_second)
     (<[0%nat := with_worker demo_slot (snd demo_created)]> (d_workers (snd demo_second)))).
Definition demo_trace : list hev := [HDispatch 0 10; HTau; HTau; HDispatch 1 11; HPop 0 10].

Lemma handover_fifo_witness :
  exists ls', queues (d_workers (snd demo_taken)) ls' /\
    (forall j, dispatched j demo_trace = popped j demo_trace ++ default [] (ls' !! j) ++ in_hand (DPush 1 11) j) /\
    forall j x rest, d_workers (snd demo_taken) !! j = Some x -> w_pipe (ws_worker x) = NEW_CONNECTION :: rest ->
      exists s w', handoff (ws_worker x) = Ok (Some s, w').
Proof.
  apply (@handover_fifo _ _ _ _ total_alloc ready_dispatcher DISPATCHER_OK demo_trace (DPush 1 11) (snd demo_taken) (replicate 2 [])).
  - split; [done|]. intros j x l [-> _]%lookup_replicate [-> _]%lookup_replicate.
    split; [apply (new_queue_repr bump_alloc 0%nat)|]. cbn. lia.
  - intros [|[|j]]; done.
  - apply (hr_snoc _ [HDispatch 0 10; HTau; HTau; HDispatch 1 11] (DPush 1 11, snd demo_second) _ demo_taken).
    + apply (hr_snoc _ [HDispatch 0 10; HTau; HTau] demo_notified).
      * apply (hr_snoc _ [HDispatch 0 10; HTau] demo_pushed); [apply (hr_snoc _ [HDispatch 0 10] demo_turn)|].
        -- apply (hr_snoc _ [] (DReturn DISPATCHER_OK, ready_dispatcher)); [constructor|].
           apply (h_start DISPATCHER_OK ready_dispatcher 10 true). vm_compute. reflexivity.
        -- apply (h_dispatch _ (snd demo_turn) true); [discriminate|vm_compute; reflexivity].
        -- apply (h_dispatch _ (snd demo_pushed) true); [discriminate|vm_compute; reflexivity].
      * apply (h_start DISPATCHER_OK (snd demo_notified) 11 true). vm_compute. reflexivity.
    + apply (h_pop _ _ 0 demo_slot 10 demo_handed (fst demo_created)); vm_compute; reflexivity.
Defined.

(** Without workers a dispatch indexes an empty vector. *)
Theorem dispatch_without_workers {K Q : Type} `{Kernel K} `{Fifo Q sptr} (d : dispatcher K Q) s room :
  d_workers d = [] -> dispatch_new_conn d s room = Trap OutOfBounds.
Proof. intros E. unfold dispatch_new_conn. cbn [dispatch_step]. by rewrite E, lookup_nil. Qed.

Lemma dispatch_without_workers_witness : dispatch_new_conn (idle_dispatcher 0) 10 true = Trap OutOfBounds.
Proof. apply (dispatch_without_workers (idle_dispatcher 0) 10 true). reflexivity. Defined.
