(* ===== verification/Crc32c.v ===== *)
(** * crc32c.cpp, crc32c.h: the CRC-32C checksum

    [extend] consumes its buffer in four loops (bytes up to a 4-byte aligned
    address, 16 bytes at a time, 4 bytes at a time, the last bytes) with four
    256-entry tables.  Addresses are absolute: [addr] is where the buffer
    starts, so that the alignment loop is the one of the code.  The reference is
    the bit-at-a-time division by the (reflected) Castagnoli polynomial. *)

From S2P Require Import Prelude.

Definition table0_ : list Z := [
  0x00000000; 0xf26b8303; 0xe13b70f7; 0x1350f3f4; 0xc79a971f; 0x35f1141c; 0x26a1e7e8; 0xd4ca64eb;
  0x8ad958cf; 0x78b2dbcc; 0x6be22838; 0x9989ab3b; 0x4d43cfd0; 0xbf284cd3; 0xac78bf27; 0x5e133c24;
  0x105ec76f; 0xe235446c; 0xf165b798; 0x030e349b; 0xd7c45070; 0x25afd373; 0x36ff2087; 0xc494a384;
  0x9a879fa0; 0x68ec1ca3; 0x7bbcef57; 0x89d76c54; 0x5d1d08bf; 0xaf768bbc; 0xbc267848; 0x4e4dfb4b;
  0x20bd8ede; 0xd2d60ddd; 0xc186fe29; 0x33ed7d2a; 0xe72719c1; 0x154c9ac2; 0x061c6936; 0xf477ea35;
  0xaa64d611; 0x580f5512; 0x4b5fa6e6; 0xb93425e5; 0x6dfe410e; 0x9f95c20d; 0x8cc531f9; 0x7eaeb2fa;
  0x30e349b1; 0xc288cab2; 0xd1d83946; 0x23b3ba45; 0xf779deae; 0x05125dad; 0x1642ae59; 0xe4292d5a;
  0xba3a117e; 0x4851927d; 0x5b016189; 0xa96ae28a; 0x7da08661; 0x8fcb0562; 0x9c9bf696; 0x6ef07595;
  0x417b1dbc; 0xb3109ebf; 0xa0406d4b; 0x522bee48; 0x86e18aa3; 0x748a09a0; 0x67dafa54; 0x95b17957;
  0xcba24573; 0x39c9c670; 0x2a993584; 0xd8f2b687; 0x0c38d26c; 0xfe53516f; 0xed03a29b; 0x1f682198;
  0x5125dad3; 0xa34e59d0; 0xb01eaa24; 0x42752927; 0x96bf4dcc; 0x64d4cecf; 0x77843d3b; 0x85efbe38;
  0xdbfc821c; 0x2997011f; 0x3ac7f2eb; 0xc8ac71e8; 0x1c661503; 0xee0d9600; 0xfd5d65f4; 0x0f36e6f7;
  0x61c69362; 0x93ad1061; 0x80fde395; 0x72966096; 0xa65c047d; 0x5437877e; 0x4767748a; 0xb50cf789;
  0xeb1fcbad; 0x197448ae; 0x0a24bb5a; 0xf84f3859; 0x2c855cb2; 0xdeeedfb1; 0xcdbe2c45; 0x3fd5af46;
  0x7198540d; 0x83f3d70e; 0x90a324fa; 0x62c8a7f9; 0xb602c312; 0x44694011; 0x5739b3e5; 0xa55230e6;
  0xfb410cc2; 0x092a8fc1; 0x1a7a7c35; 0xe811ff36; 0x3cdb9bdd; 0xceb018de; 0xdde0eb2a; 0x2f8b6829;
  0x82f63b78; 0x709db87b; 0x63cd4b8f; 0x91a6c88c; 0x456cac67; 0xb7072f64; 0xa457dc90; 0x563c5f93;
  0x082f63b7; 0xfa44e0b4; 0xe9141340; 0x1b7f9043; 0xcfb5f4a8; 0x3dde77ab; 0x2e8e845f; 0xdce5075c;
  0x92a8fc17; 0x60c37f14; 0x73938ce0; 0x81f80fe3; 0x55326b08; 0xa759e80b; 0xb4091bff; 0x466298fc;
  0x1871a4d8; 0xea1a27db; 0xf94ad42f; 0x0b21572c; 0xdfeb33c7; 0x2d80b0c4; 0x3ed04330; 0xccbbc033;
  0xa24bb5a6; 0x502036a5; 0x4370c551; 0xb11b4652; 0x65d122b9; 0x97baa1ba; 0x84ea524e; 0x7681d14d;
  0x2892ed69; 0xdaf96e6a; 0xc9a99d9e; 0x3bc21e9d; 0xef087a76; 0x1d63f975; 0x0e330a81; 0xfc588982;
  0xb21572c9; 0x407ef1ca; 0x532e023e; 0xa145813d; 0x758fe5d6; 0x87e466d5; 0x94b49521; 0x66df1622;
  0x38cc2a06; 0xcaa7a905; 0xd9f75af1; 0x2b9cd9f2; 0xff56bd19; 0x0d3d3e1a; 0x1e6dcdee; 0xec064eed;
  0xc38d26c4; 0x31e6a5c7; 0x22b65633; 0xd0ddd530; 0x0417b1db; 0xf67c32d8; 0xe52cc12c; 0x1747422f;
  0x49547e0b; 0xbb3ffd08; 0xa86f0efc; 0x5a048dff; 0x8ecee914; 0x7ca56a17; 0x6ff599e3; 0x9d9e1ae0;
  0xd3d3e1ab; 0x21b862a8; 0x32e8915c; 0xc083125f; 0x144976b4; 0xe622f5b7; 0xf5720643; 0x07198540;
  0x590ab964; 0xab613a67; 0xb831c993; 0x4a5a4a90; 0x9e902e7b; 0x6cfbad78; 0x7fab5e8c; 0x8dc0dd8f;
  0xe330a81a; 0x115b2b19; 0x020bd8ed; 0xf0605bee; 0x24aa3f05; 0xd6c1bc06; 0xc5914ff2; 0x37faccf1;
  0x69e9f0d5; 0x9b8273d6; 0x88d28022; 0x7ab90321; 0xae7367ca; 0x5c18e4c9; 0x4f48173d; 0xbd23943e;
  0xf36e6f75; 0x0105ec76; 0x12551f82; 0xe03e9c81; 0x34f4f86a; 0xc69f7b69; 0xd5cf889d; 0x27a40b9e;
  0x79b737ba; 0x8bdcb4b9; 0x988c474d; 0x6ae7c44e; 0xbe2da0a5; 0x4c4623a6; 0x5f16d052; 0xad7d5351
].

Definition table1_ : list Z := [
  0x00000000; 0x13a29877; 0x274530ee; 0x34e7a899; 0x4e8a61dc; 0x5d28f9ab; 0x69cf5132; 0x7a6dc945;
  0x9d14c3b8; 0x8eb65bcf; 0xba51f356; 0xa9f36b21; 0xd39ea264; 0xc03c3a13; 0xf4db928a; 0xe7790afd;
  0x3fc5f181; 0x2c6769f6; 0x1880c16f; 0x0b225918; 0x714f905d; 0x62ed082a; 0x560aa0b3; 0x45a838c4;
  0xa2d13239; 0xb173aa4e; 0x859402d7; 0x96369aa0; 0xec5b53e5; 0xfff9cb92; 0xcb1e630b; 0xd8bcfb7c;
  0x7f8be302; 0x6c297b75; 0x58ced3ec; 0x4b6c4b9b; 0x310182de; 0x22a31aa9; 0x1644b230; 0x05e62a47;
  0xe29f20ba; 0xf13db8cd; 0xc5da1054; 0xd6788823; 0xac154166; 0xbfb7d911; 0x8b507188; 0x98f2e9ff;
  0x404e1283; 0x53ec8af4; 0x670b226d; 0x74a9ba1a; 0x0ec4735f; 0x1d66eb28; 0x298143b1; 0x3a23dbc6;
  0xdd5ad13b; 0xcef8494c; 0xfa1fe1d5; 0xe9bd79a2; 0x93d0b0e7; 0x80722890; 0xb4958009; 0xa737187e;
  0xff17c604; 0xecb55e73; 0xd852f6ea; 0xcbf06e9d; 0xb19da7d8; 0xa23f3faf; 0x96d89736; 0x857a0f41;
  0x620305bc; 0x71a19dcb; 0x45463552; 0x56e4ad25; 0x2c896460; 0x3f2bfc17; 0x0bcc548e; 0x186eccf9;
  0xc0d23785; 0xd370aff2; 0xe797076b; 0xf4359f1c; 0x8e585659; 0x9dface2e; 0xa91d66b7; 0xbabffec0;
  0x5dc6f43d; 0x4e646c4a; 0x7a83c4d3; 0x69215ca4; 0x134c95e1; 0x00ee0d96; 0x3409a50f; 0x27ab3d78;
  0x809c2506; 0x933ebd71; 0xa7d915e8; 0xb47b8d9f; 0xce1644da; 0xddb4dcad; 0xe9537434; 0xfaf1ec43;
  0x1d88e6be; 0x0e2a7ec9; 0x3acdd650; 0x296f4e27; 0x53028762; 0x40a01f15; 0x7447b78c; 0x67e52ffb;
  0xbf59d487; 0xacfb4cf0; 0x981ce469; 0x8bbe7c1e; 0xf1d3b55b; 0xe2712d2c; 0xd69685b5; 0xc5341dc2;
  0x224d173f; 0x31ef8f48; 0x050827d1; 0x16aabfa6; 0x6cc776e3; 0x7f65ee94; 0x4b82460d; 0x5820de7a;
  0xfbc3faf9; 0xe861628e; 0xdc86ca17; 0xcf245260; 0xb5499b25; 0xa6eb0352; 0x920cabcb; 0x81ae33bc;
  0x66d73941; 0x7575a136; 0x419209af; 0x523091d8; 0x285d589d; 0x3bffc0ea; 0x0f186873; 0x1cbaf004;
  0xc4060b78; 0xd7a4930f; 0xe3433b96; 0xf0e1a3e1; 0x8a8c6aa4; 0x992ef2d3; 0xadc95a4a; 0xbe6bc23d;
  0x5912c8c0; 0x4ab050b7; 0x7e57f82e; 0x6df56059; 0x1798a91c; 0x043a316b; 0x30dd99f2; 0x237f0185;
  0x844819fb; 0x97ea818c; 0xa30d2915; 0xb0afb162; 0xcac27827; 0xd960e050; 0xed8748c9; 0xfe25d0be;
  0x195cda43; 0x0afe4234; 0x3e19eaad; 0x2dbb72da; 0x57d6bb9f; 0x447423e8; 0x70938b71; 0x63311306;
  0xbb8de87a; 0xa82f700d; 0x9cc8d894; 0x8f6a40e3; 0xf50789a6; 0xe6a511d1; 0xd242b948; 0xc1e0213f;
  0x26992bc2; 0x353bb3b5; 0x01dc1b2c; 0x127e835b; 0x68134a1e; 0x7bb1d269; 0x4f567af0; 0x5cf4e287;
  0x04d43cfd; 0x1776a48a; 0x23910c13; 0x30339464; 0x4a5e5d21; 0x59fcc556; 0x6d1b6dcf; 0x7eb9f5b8;
  0x99c0ff45; 0x8a626732; 0xbe85cfab; 0xad2757dc; 0xd74a9e99; 0xc4e806ee; 0xf00fae77; 0xe3ad3600;
  0x3b11cd7c; 0x28b3550b; 0x1c54fd92; 0x0ff665e5; 0x759baca0; 0x663934d7; 0x52de9c4e; 0x417c0439;
  0xa6050ec4; 0xb5a796b3; 0x81403e2a; 0x92e2a65d; 0xe88f6f18; 0xfb2df76f; 0xcfca5ff6; 0xdc68c781;
  0x7b5fdfff; 0x68fd4788; 0x5c1aef11; 0x4fb87766; 0x35d5be23; 0x26772654; 0x12908ecd; 0x013216ba;
  0xe64b1c47; 0xf5e98430; 0xc10e2ca9; 0xd2acb4de; 0xa8c17d9b; 0xbb63e5ec; 0x8f844d75; 0x9c26d502;
  0x449a2e7e; 0x5738b609; 0x63df1e90; 0x707d86e7; 0x0a104fa2; 0x19b2d7d5; 0x2d557f4c; 0x3ef7e73b;
  0xd98eedc6; 0xca2c75b1; 0xfecbdd28; 0xed69455f; 0x97048c1a; 0x84a6146d; 0xb041bcf4; 0xa3e32483
].

Definition table2_ : list Z := [
  0x00000000; 0xa541927e; 0x4f6f520d; 0xea2ec073; 0x9edea41a; 0x3b9f3664; 0xd1b1f617; 0x74f06469;
  0x38513ec5; 0x9d10acbb; 0x773e6cc8; 0xd27ffeb6; 0xa68f9adf; 0x03ce08a1; 0xe9e0c8d2; 0x4ca15aac;
  0x70a27d8a; 0xd5e3eff4; 0x3fcd2f87; 0x9a8cbdf9; 0xee7cd990; 0x4b3d4bee; 0xa1138b9d; 0x045219e3;
  0x48f3434f; 0xedb2d131; 0x079c1142; 0xa2dd833c; 0xd62de755; 0x736c752b; 0x9942b558; 0x3c032726;
  0xe144fb14; 0x4405696a; 0xae2ba919; 0x0b6a3b67; 0x7f9a5f0e; 0xdadbcd70; 0x30f50d03; 0x95b49f7d;
  0xd915c5d1; 0x7c5457af; 0x967a97dc; 0x333b05a2; 0x47cb61cb; 0xe28af3b5; 0x08a433c6; 0xade5a1b8;
  0x91e6869e; 0x34a714e0; 0xde89d493; 0x7bc846ed; 0x0f382284; 0xaa79b0fa; 0x40577089; 0xe516e2f7;
  0xa9b7b85b; 0x0cf62a25; 0xe6d8ea56; 0x43997828; 0x37691c41; 0x92288e3f; 0x78064e4c; 0xdd47dc32;
  0xc76580d9; 0x622412a7; 0x880ad2d4; 0x2d4b40aa; 0x59bb24c3; 0xfcfab6bd; 0x16d476ce; 0xb395e4b0;
  0xff34be1c; 0x5a752c62; 0xb05bec11; 0x151a7e6f; 0x61ea1a06; 0xc4ab8878; 0x2e85480b; 0x8bc4da75;
  0xb7c7fd53; 0x12866f2d; 0xf8a8af5e; 0x5de93d20; 0x29195949; 0x8c58cb37; 0x66760b44; 0xc337993a;
  0x8f96c396; 0x2ad751e8; 0xc0f9919b; 0x65b803e5; 0x1148678c; 0xb409f5f2; 0x5e273581; 0xfb66a7ff;
  0x26217bcd; 0x8360e9b3; 0x694e29c0; 0xcc0fbbbe; 0xb8ffdfd7; 0x1dbe4da9; 0xf7908dda; 0x52d11fa4;
  0x1e704508; 0xbb31d776; 0x511f1705; 0xf45e857b; 0x80aee112; 0x25ef736c; 0xcfc1b31f; 0x6a802161;
  0x56830647; 0xf3c29439; 0x19ec544a; 0xbcadc634; 0xc85da25d; 0x6d1c3023; 0x8732f050; 0x2273622e;
  0x6ed23882; 0xcb93aafc; 0x21bd6a8f; 0x84fcf8f1; 0xf00c9c98; 0x554d0ee6; 0xbf63ce95; 0x1a225ceb;
  0x8b277743; 0x2e66e53d; 0xc448254e; 0x6109b730; 0x15f9d359; 0xb0b84127; 0x5a968154; 0xffd7132a;
  0xb3764986; 0x1637dbf8; 0xfc191b8b; 0x595889f5; 0x2da8ed9c; 0x88e97fe2; 0x62c7bf91; 0xc7862def;
  0xfb850ac9; 0x5ec498b7; 0xb4ea58c4; 0x11abcaba; 0x655baed3; 0xc01a3cad; 0x2a34fcde; 0x8f756ea0;
  0xc3d4340c; 0x6695a672; 0x8cbb6601; 0x29faf47f; 0x5d0a9016; 0xf84b0268; 0x1265c21b; 0xb7245065;
  0x6a638c57; 0xcf221e29; 0x250cde5a; 0x804d4c24; 0xf4bd284d; 0x51fcba33; 0xbbd27a40; 0x1e93e83e;
  0x5232b292; 0xf77320ec; 0x1d5de09f; 0xb81c72e1; 0xccec1688; 0x69ad84f6; 0x83834485; 0x26c2d6fb;
  0x1ac1f1dd; 0xbf8063a3; 0x55aea3d0; 0xf0ef31ae; 0x841f55c7; 0x215ec7b9; 0xcb7007ca; 0x6e3195b4;
  0x2290cf18; 0x87d15d66; 0x6dff9d15; 0xc8be0f6b; 0xbc4e6b02; 0x190ff97c; 0xf321390f; 0x5660ab71;
  0x4c42f79a; 0xe90365e4; 0x032da597; 0xa66c37e9; 0xd29c5380; 0x77ddc1fe; 0x9df3018d; 0x38b293f3;
  0x7413c95f; 0xd1525b21; 0x3b7c9b52; 0x9e3d092c; 0xeacd6d45; 0x4f8cff3b; 0xa5a23f48; 0x00e3ad36;
  0x3ce08a10; 0x99a1186e; 0x738fd81d; 0xd6ce4a63; 0xa23e2e0a; 0x077fbc74; 0xed517c07; 0x4810ee79;
  0x04b1b4d5; 0xa1f026ab; 0x4bdee6d8; 0xee9f74a6; 0x9a6f10cf; 0x3f2e82b1; 0xd50042c2; 0x7041d0bc;
  0xad060c8e; 0x08479ef0; 0xe2695e83; 0x4728ccfd; 0x33d8a894; 0x96993aea; 0x7cb7fa99; 0xd9f668e7;
  0x9557324b; 0x3016a035; 0xda386046; 0x7f79f238; 0x0b899651; 0xaec8042f; 0x44e6c45c; 0xe1a75622;
  0xdda47104; 0x78e5e37a; 0x92cb2309; 0x378ab177; 0x437ad51e; 0xe63b4760; 0x0c158713; 0xa954156d;
  0xe5f54fc1; 0x40b4ddbf; 0xaa9a1dcc; 0x0fdb8fb2; 0x7b2bebdb; 0xde6a79a5; 0x3444b9d6; 0x91052ba8
].

Definition table3_ : list Z := [
  0x00000000; 0xdd45aab8; 0xbf672381; 0x62228939; 0x7b2231f3; 0xa6679b4b; 0xc4451272; 0x1900b8ca;
  0xf64463e6; 0x2b01c95e; 0x49234067; 0x9466eadf; 0x8d665215; 0x5023f8ad; 0x32017194; 0xef44db2c;
  0xe964b13d; 0x34211b85; 0x560392bc; 0x8b463804; 0x924680ce; 0x4f032a76; 0x2d21a34f; 0xf06409f7;
  0x1f20d2db; 0xc2657863; 0xa047f15a; 0x7d025be2; 0x6402e328; 0xb9474990; 0xdb65c0a9; 0x06206a11;
  0xd725148b; 0x0a60be33; 0x6842370a; 0xb5079db2; 0xac072578; 0x71428fc0; 0x136006f9; 0xce25ac41;
  0x2161776d; 0xfc24ddd5; 0x9e0654ec; 0x4343fe54; 0x5a43469e; 0x8706ec26; 0xe524651f; 0x3861cfa7;
  0x3e41a5b6; 0xe3040f0e; 0x81268637; 0x5c632c8f; 0x45639445; 0x98263efd; 0xfa04b7c4; 0x27411d7c;
  0xc805c650; 0x15406ce8; 0x7762e5d1; 0xaa274f69; 0xb327f7a3; 0x6e625d1b; 0x0c40d422; 0xd1057e9a;
  0xaba65fe7; 0x76e3f55f; 0x14c17c66; 0xc984d6de; 0xd0846e14; 0x0dc1c4ac; 0x6fe34d95; 0xb2a6e72d;
  0x5de23c01; 0x80a796b9; 0xe2851f80; 0x3fc0b538; 0x26c00df2; 0xfb85a74a; 0x99a72e73; 0x44e284cb;
  0x42c2eeda; 0x9f874462; 0xfda5cd5b; 0x20e067e3; 0x39e0df29; 0xe4a57591; 0x8687fca8; 0x5bc25610;
  0xb4868d3c; 0x69c32784; 0x0be1aebd; 0xd6a40405; 0xcfa4bccf; 0x12e11677; 0x70c39f4e; 0xad8635f6;
  0x7c834b6c; 0xa1c6e1d4; 0xc3e468ed; 0x1ea1c255; 0x07a17a9f; 0xdae4d027; 0xb8c6591e; 0x6583f3a6;
  0x8ac7288a; 0x57828232; 0x35a00b0b; 0xe8e5a1b3; 0xf1e51979; 0x2ca0b3c1; 0x4e823af8; 0x93c79040;
  0x95e7fa51; 0x48a250e9; 0x2a80d9d0; 0xf7c57368; 0xeec5cba2; 0x3380611a; 0x51a2e823; 0x8ce7429b;
  0x63a399b7; 0xbee6330f; 0xdcc4ba36; 0x0181108e; 0x1881a844; 0xc5c402fc; 0xa7e68bc5; 0x7aa3217d;
  0x52a0c93f; 0x8fe56387; 0xedc7eabe; 0x30824006; 0x2982f8cc; 0xf4c75274; 0x96e5db4d; 0x4ba071f5;
  0xa4e4aad9; 0x79a10061; 0x1b838958; 0xc6c623e0; 0xdfc69b2a; 0x02833192; 0x60a1b8ab; 0xbde41213;
  0xbbc47802; 0x6681d2ba; 0x04a35b83; 0xd9e6f13b; 0xc0e649f1; 0x1da3e349; 0x7f816a70; 0xa2c4c0c8;
  0x4d801be4; 0x90c5b15c; 0xf2e73865; 0x2fa292dd; 0x36a22a17; 0xebe780af; 0x89c50996; 0x5480a32e;
  0x8585ddb4; 0x58c0770c; 0x3ae2fe35; 0xe7a7548d; 0xfea7ec47; 0x23e246ff; 0x41c0cfc6; 0x9c85657e;
  0x73c1be52; 0xae8414ea; 0xcca69dd3; 0x11e3376b; 0x08e38fa1; 0xd5a62519; 0xb784ac20; 0x6ac10698;
  0x6ce16c89; 0xb1a4c631; 0xd3864f08; 0x0ec3e5b0; 0x17c35d7a; 0xca86f7c2; 0xa8a47efb; 0x75e1d443;
  0x9aa50f6f; 0x47e0a5d7; 0x25c22cee; 0xf8878656; 0xe1873e9c; 0x3cc29424; 0x5ee01d1d; 0x83a5b7a5;
  0xf90696d8; 0x24433c60; 0x4661b559; 0x9b241fe1; 0x8224a72b; 0x5f610d93; 0x3d4384aa; 0xe0062e12;
  0x0f42f53e; 0xd2075f86; 0xb025d6bf; 0x6d607c07; 0x7460c4cd; 0xa9256e75; 0xcb07e74c; 0x16424df4;
  0x106227e5; 0xcd278d5d; 0xaf050464; 0x7240aedc; 0x6b401616; 0xb605bcae; 0xd4273597; 0x09629f2f;
  0xe6264403; 0x3b63eebb; 0x59416782; 0x8404cd3a; 0x9d0475f0; 0x4041df48; 0x22635671; 0xff26fcc9;
  0x2e238253; 0xf36628eb; 0x9144a1d2; 0x4c010b6a; 0x5501b3a0; 0x88441918; 0xea669021; 0x37233a99;
  0xd867e1b5; 0x05224b0d; 0x6700c234; 0xba45688c; 0xa345d046; 0x7e007afe; 0x1c22f3c7; 0xc167597f;
  0xc747336e; 0x1a0299d6; 0x782010ef; 0xa565ba57; 0xbc65029d; 0x6120a825; 0x0302211c; 0xde478ba4;
  0x31035088; 0xec46fa30; 0x8e647309; 0x5321d9b1; 0x4a21617b; 0x9764cbc3; 0xf54642fa; 0x2803e842
].

(** ** The code *)

(** [DecodeFixed32]: the plain little-endian load of the taken branch. *)
Definition DecodeFixed32 (buf : bytes) (i : Z) : outcome Z :=
  w ← read_block buf i 4; Ok (le_val w).

Definition LE_LOAD32 (buf : bytes) (i : Z) : outcome Z := DecodeFixed32 buf i.

(** [tableK_[i]]. *)
Definition entry (t : list Z) (i : Z) : outcome Z :=
  match t !! Z.to_nat i with
  | Some v => if i <? 0 then Trap OutOfBounds else Ok v
  | None => Trap OutOfBounds
  end.

Section Extend.
Context (addr : Z) (buf : bytes).

(** The macros STEP1 and STEP4, on the locals [p] and [l]. *)
Definition STEP1 (p l : Z) : outcome (Z * Z) :=
  b ← load buf (p - addr);
  let c := Z.lxor (Z.land l 0xff) b in
  t ← entry table0_ c;
  Ok (p + 1, Z.lxor t (Z.shiftr l 8)).

Definition STEP4 (p l : Z) : outcome (Z * Z) :=
  w ← LE_LOAD32 buf (p - addr);
  let c := Z.lxor l w in
  t3 ← entry table3_ (Z.land c 0xff);
  t2 ← entry table2_ (Z.land (Z.shiftr c 8) 0xff);
  t1 ← entry table1_ (Z.land (Z.shiftr c 16) 0xff);
  t0 ← entry table0_ (Z.shiftr c 24);
  Ok (p + 4, Z.lxor (Z.lxor (Z.lxor t3 t2) t1) t0).

(** [while (p != stop) STEP1]. *)
Fixpoint bytes_until (fuel : nat) (stop p l : Z) : outcome (Z * Z) :=
  match fuel with
  | O => Trap OutOfFuel
  | S fuel =>
      if p =? stop then Ok (p, l)
      else r ← STEP1 p l; bytes_until fuel stop (fst r) (snd r)
  end.

(** [while ((e-p) >= 16) { STEP4; STEP4; STEP4; STEP4; }]. *)
Fixpoint by_sixteen (fuel : nat) (e p l : Z) : outcome (Z * Z) :=
  match fuel with
  | O => Trap OutOfFuel
  | S fuel =>
      if 16 <=? e - p then
        r ← STEP4 p l; r ← STEP4 (fst r) (snd r);
        r ← STEP4 (fst r) (snd r); r ← STEP4 (fst r) (snd r);
        by_sixteen fuel e (fst r) (snd r)
      else Ok (p, l)
  end.

(** [while ((e-p) >= 4) STEP4]. *)
Fixpoint by_four (fuel : nat) (e p l : Z) : outcome (Z * Z) :=
  match fuel with
  | O => Trap OutOfFuel
  | S fuel =>
      if 4 <=? e - p then r ← STEP4 p l; by_four fuel e (fst r) (snd r)
      else Ok (p, l)
  end.

(** [extend(crc, buf, size)]; [fuel] bounds each loop. *)
Definition extend_fuel (fuel : nat) (crc size : Z) : outcome Z :=
  let p := addr in
  let e := p + size in
  let l := Z.lxor crc 0xffffffff in
  let x := u64 (Z.shiftl (Z.shiftr (u64 (p + 3)) 2) 2) in
  r ← (if x <=? e then bytes_until fuel x p l else Ok (p, l));
  r ← by_sixteen fuel e (fst r) (snd r);
  r ← by_four fuel e (fst r) (snd r);
  r ← bytes_until fuel e (fst r) (snd r);
  Ok (Z.lxor (snd r) 0xffffffff).

(** Every iteration advances, so [size + 4] rounds are enough. *)
Definition extend (crc size : Z) : outcome Z := extend_fuel (Z.to_nat size + 4) crc size.

Definition value (n : Z) : outcome Z := extend 0 n.

End Extend.

Definition kMaskDelta : Z := 0xa282ead8.

Definition mask (crc : Z) : Z :=
  u32 (Z.lor (Z.shiftr crc 15) (u32 (Z.shiftl crc 17)) + kMaskDelta).

Definition unmask (masked_crc : Z) : Z :=
  let rot := u32 (masked_crc - kMaskDelta) in
  Z.lor (Z.shiftr rot 17) (u32 (Z.shiftl rot 15)).

(** ** The reference: one bit at a time *)

(** The Castagnoli polynomial, reflected. *)
Definition poly : Z := 0x82f63b78.

(** Divide by [x]: shift one bit out and reduce. *)
Definition shift_bit (l : Z) : Z :=
  Z.lxor (Z.shiftr l 1) (if Z.odd l then poly else 0).

Definition shift_bits (n : nat) (l : Z) : Z := Nat.iter n shift_bit l.

Definition crc_byte (l b : Z) : Z := shift_bits 8 (Z.lxor l b).

Definition crc_bytes (l : Z) (s : bytes) : Z := foldl crc_byte l s.

(** CRC-32C of [s] appended to a string whose checksum is [crc]. *)
Definition crc32c (crc : Z) (s : bytes) : Z :=
  Z.lxor (crc_bytes (Z.lxor crc 0xffffffff) s) 0xffffffff.

(** The check value of the CRC catalogue. *)
Example crc32c_check : crc32c 0 (str "123456789") = 0xe3069283.
Proof. vm_compute. reflexivity. Qed.
Example extend_check : value 1002 (str "123456789") 9 = Ok 0xe3069283.
Proof. vm_compute. reflexivity. Qed.

(** ** Algebra of the reference *)

Lemma shift_bit_lxor a b : shift_bit (Z.lxor a b) = Z.lxor (shift_bit a) (shift_bit b).
Proof.
  unfold shift_bit. rewrite Z.shiftr_lxor, <-!Z.bit0_odd, Z.lxor_spec.
  apply Z.bits_inj'. intros i _. rewrite !Z.lxor_spec.
  destruct (Z.testbit a 0), (Z.testbit b 0); cbn [xorb];
    rewrite ?Z.bits_0; destruct (Z.testbit (Z.shiftr a 1) i), (Z.testbit (Z.shiftr b 1) i),
    (Z.testbit poly i); done.
Qed.

Lemma shift_bits_lxor n a b :
  shift_bits n (Z.lxor a b) = Z.lxor (shift_bits n a) (shift_bits n b).
Proof.
  unfold shift_bits. induction n as [|n IH]; simpl; [done|]. by rewrite IH, shift_bit_lxor.
Qed.

Lemma shift_bits_add n m a : shift_bits (n + m) a = shift_bits n (shift_bits m a).
Proof. unfold shift_bits. apply Nat.iter_add. Qed.

(** Bits that are not reduced are only shifted. *)
Lemma shift_bits_shiftl n a : shift_bits n (Z.shiftl a (Z.of_nat n)) = a.
Proof.
  induction n as [|n IH]; [apply Z.shiftl_0_r|].
  rewrite <-Nat.add_1_r, shift_bits_add. rewrite Nat2Z.inj_add, <-Z.shiftl_shiftl by lia.
  rewrite <-IH at 2. f_equal. change (shift_bits 1) with shift_bit. unfold shift_bit.
  change (Z.of_nat 1) with 1.
  rewrite <-Z.bit0_odd, Z.shiftl_spec_low, Z.lxor_0_r, Z.shiftr_shiftl_l by lia.
  apply Z.shiftl_0_r.
Qed.

(** A word is its low [n] bits and the rest. *)
Lemma split_low n a : 0 <= n -> a = Z.lxor (Z.land a (Z.ones n)) (Z.shiftl (Z.shiftr a n) n).
Proof.
  intros Hn. apply Z.bits_inj'. intros i Hi. rewrite Z.lxor_spec, Z.land_spec.
  destruct (Z.ltb_spec i n).
  - rewrite Z.ones_spec_low, Z.shiftl_spec_low by lia. by rewrite andb_true_r, xorb_false_r.
  - rewrite Z.ones_spec_high, Z.shiftl_spec, Z.shiftr_spec by lia.
    rewrite andb_false_r. cbn [xorb]. f_equal. lia.
Qed.

Lemma shift_bits_low n a :
  shift_bits n a = Z.lxor (shift_bits n (Z.land a (Z.ones (Z.of_nat n)))) (Z.shiftr a (Z.of_nat n)).
Proof.
  rewrite (split_low (Z.of_nat n) a) at 1 by lia. by rewrite shift_bits_lxor, shift_bits_shiftl.
Qed.

(** ** Ranges *)

Definition word (z : Z) : Prop := 0 <= z < 2 ^ 32.

Lemma lxor_range n a b : 0 <= n -> 0 <= a < 2 ^ n -> 0 <= b < 2 ^ n -> 0 <= Z.lxor a b < 2 ^ n.
Proof.
  intros Hn Ha Hb.
  assert (Z.lxor a b = Z.lxor a b mod 2 ^ n) as ->; [|apply Z.mod_pos_bound; lia].
  apply Z.bits_inj'. intros i Hi. rewrite Z.testbit_mod_pow2, Z.lxor_spec by lia.
  rewrite <-(Z.mod_small a (2 ^ n)), <-(Z.mod_small b (2 ^ n)), !Z.testbit_mod_pow2 by lia.
  by destruct (i <? n).
Qed.

Lemma shift_bit_word l : word l -> word (shift_bit l).
Proof.
  intros Hl. apply lxor_range; [lia| |by case_match].
  rewrite Z.shiftr_div_pow2 by lia. change (2 ^ 1) with 2. unfold word in Hl.
  Z.to_euclidean_division_equations; lia.
Qed.

Lemma shift_bits_word n l : word l -> word (shift_bits n l).
Proof. intros Hl. induction n; [done|]. by apply shift_bit_word. Qed.

Lemma land_byte z : 0 <= Z.land z 0xff < 256.
Proof. change 0xff with (Z.ones 8). rewrite Z.land_ones by lia. by apply Z.mod_pos_bound. Qed.

Lemma land_byte_small b : is_byte b -> Z.land b 0xff = b.
Proof. intros. change 0xff with (Z.ones 8). rewrite Z.land_ones by lia. by apply Z.mod_small. Qed.

Lemma shiftr_byte b : is_byte b -> Z.shiftr b 8 = 0.
Proof. intros. rewrite Z.shiftr_div_pow2 by lia. by apply Z.div_small. Qed.

Lemma byte_word b : is_byte b -> word b.
Proof. unfold is_byte, word. lia. Qed.

Lemma crc_byte_word l b : word l -> is_byte b -> word (crc_byte l b).
Proof. intros. apply shift_bits_word, lxor_range; [lia|done|by apply byte_word]. Qed.

Lemma crc_bytes_is_word s l : word l -> is_bytes s -> word (crc_bytes l s).
Proof.
  intros Hl Hs. revert l Hl. induction Hs as [|b s Hb _ IH]; intros l Hl; [done|].
  by apply IH, crc_byte_word.
Qed.

(** ** Several bytes at a time *)

Lemma le_cons_lxor b v : is_byte b -> b + 256 * v = Z.lxor b (Z.shiftl v 8).
Proof.
  intros Hb. rewrite (split_low 8 (b + 256 * v)) by lia. change (Z.ones 8) with 0xff. f_equal.
  - change 0xff with (Z.ones 8). rewrite Z.land_ones by lia. change (2 ^ 8) with 256.
    unfold is_byte in Hb. by rewrite (Z.mul_comm 256), Z.mod_add, Z.mod_small by lia.
  - rewrite Z.shiftr_div_pow2 by lia. change (2 ^ 8) with 256. unfold is_byte in Hb.
    by rewrite (Z.mul_comm 256), Z.div_add, Z.div_small by lia.
Qed.

(** The bytes of a little-endian word are consumed as one division. *)
Lemma crc_bytes_word l w :
  is_bytes w -> crc_bytes l w = shift_bits (8 * length w) (Z.lxor l (le_val w)).
Proof.
  intros Hw. revert l. induction Hw as [|b w Hb _ IH]; intros l; [by cbn; rewrite Z.lxor_0_r|].
  cbn [crc_bytes foldl]. fold (crc_bytes (crc_byte l b) w). rewrite IH. unfold crc_byte.
  cbn [length le_val]. replace (8 * S (length w))%nat with (8 * length w + 8)%nat by lia.
  rewrite shift_bits_add. f_equal.
  rewrite le_cons_lxor, <-Z.lxor_assoc, (shift_bits_lxor 8 (Z.lxor l b)) by done.
  by rewrite (shift_bits_shiftl 8).
Qed.

Lemma peel_byte n c :
  shift_bits (n + 8) c =
  Z.lxor (shift_bits (n + 8) (Z.land c 0xff)) (shift_bits n (Z.shiftr c 8)).
Proof.
  rewrite !shift_bits_add, (shift_bits_low 8 c), shift_bits_lxor. reflexivity.
Qed.

Lemma four_bytes c :
  shift_bits 32 c =
  Z.lxor (Z.lxor (Z.lxor (shift_bits 32 (Z.land c 0xff)) (shift_bits 24 (Z.land (Z.shiftr c 8) 0xff)))
    (shift_bits 16 (Z.land (Z.shiftr c 16) 0xff))) (shift_bits 8 (Z.shiftr c 24)).
Proof.
  pose proof (peel_byte 24 c) as H3. pose proof (peel_byte 16 (Z.shiftr c 8)) as H2.
  pose proof (peel_byte 8 (Z.shiftr c 16)) as H1. rewrite Z.shiftr_shiftr in H2, H1 by lia.
  cbn [Nat.add] in H1, H2, H3. change (8 + 8) with 16 in H2. change (16 + 8) with 24 in H1.
  by rewrite H3, H2, H1, !Z.lxor_assoc.
Qed.

(** ** The tables *)

Definition table_ok (t : list Z) (n : nat) : bool :=
  forallb (fun i => bool_decide (t !! i = Some (shift_bits n (Z.of_nat i)))) (seq 0 256).

Lemma entry_ok t n c : table_ok t n = true -> 0 <= c < 256 -> entry t c = Ok (shift_bits n c).
Proof.
  intros Ht Hc. unfold table_ok in Ht. rewrite forallb_forall in Ht.
  specialize (Ht (Z.to_nat c)). rewrite in_seq in Ht. specialize (Ht ltac:(lia)).
  apply bool_decide_eq_true in Ht. unfold entry. rewrite Ht. decide_tests.
  by rewrite Z2Nat.id by lia.
Qed.

Lemma table0_ok c : 0 <= c < 256 -> entry table0_ c = Ok (shift_bits 8 c).
Proof. apply entry_ok. vm_compute. reflexivity. Qed.
Lemma table1_ok c : 0 <= c < 256 -> entry table1_ c = Ok (shift_bits 16 c).
Proof. apply entry_ok. vm_compute. reflexivity. Qed.
Lemma table2_ok c : 0 <= c < 256 -> entry table2_ c = Ok (shift_bits 24 c).
Proof. apply entry_ok. vm_compute. reflexivity. Qed.
Lemma table3_ok c : 0 <= c < 256 -> entry table3_ c = Ok (shift_bits 32 c).
Proof. apply entry_ok. vm_compute. reflexivity. Qed.

(** ** The loops *)

Section Loops.
Context (addr : Z) (buf : bytes) (l0 : Z).
Hypothesis Hbytes : is_bytes buf.
Hypothesis Hl0 : word l0.

(** At address [p] the register holds the division of the bytes before [p]. *)
Definition upto (p l : Z) : Prop :=
  0 <= p - addr <= Z.of_nat (length buf) /\ l = crc_bytes l0 (take (Z.to_nat (p - addr)) buf).

Lemma upto_word p l : upto p l -> word l.
Proof. intros [_ ->]. apply crc_bytes_is_word; [done|]. by apply Forall_take. Qed.

Lemma upto_step p l w :
  upto p l -> read_block buf (p - addr) (Z.of_nat (length w)) = Ok w ->
  upto (p + Z.of_nat (length w)) (crc_bytes l w).
Proof.
  intros [Hp ->]. unfold read_block. case_match; [|done]. intros [= Hw]. split; [lia|].
  unfold crc_bytes. rewrite <-foldl_app. f_equal. rewrite Nat2Z.id in Hw.
  replace (Z.to_nat (p + Z.of_nat (length w) - addr)) with (Z.to_nat (p - addr) + length w)%nat by lia.
  by rewrite <-take_take_drop, Hw.
Qed.

Lemma STEP1_ok p l :
  upto p l -> p - addr < Z.of_nat (length buf) ->
  exists l', STEP1 addr buf p l = Ok (p + 1, l') /\ upto (p + 1) l'.
Proof.
  intros Hu Hp. pose proof (upto_word _ _ Hu) as Hl. destruct (Hu) as [Hp0 _].
  destruct (lookup_lt_is_Some_2 buf (Z.to_nat (p - addr))) as [b Hb]; [lia|].
  assert (is_byte b) as Hbb by (by eapply Forall_lookup_1).
  exists (crc_bytes l [b]). split.
  - unfold STEP1, load. decide_tests. rewrite Hb. cbn [mbind outcome_bind].
    rewrite table0_ok; [|apply (lxor_range 8); [lia|apply land_byte|done]].
    cbn [mbind outcome_bind crc_bytes foldl]. unfold crc_byte. do 2 f_equal.
    rewrite (shift_bits_low 8 (Z.lxor l b)). change (Z.ones (Z.of_nat 8)) with 0xff.
    change (Z.of_nat 8) with 8.
    rewrite Z.shiftr_lxor, (shiftr_byte b), Z.lxor_0_r by done. f_equal. f_equal.
    apply Z.bits_inj'. intros i Hi. rewrite !Z.lxor_spec, !Z.land_spec, Z.lxor_spec.
    rewrite <-(land_byte_small b) at 1 by done. rewrite Z.land_spec.
    by destruct (Z.testbit l i), (Z.testbit b i), (Z.testbit 255 i).
  - apply (upto_step p l [b] Hu). unfold read_block. simpl length. decide_tests.
    change (Z.to_nat (Z.of_nat 1)) with 1%nat. by rewrite (drop_S _ b).
Qed.

Lemma STEP4_ok p l :
  upto p l -> p - addr + 4 <= Z.of_nat (length buf) ->
  exists l', STEP4 addr buf p l = Ok (p + 4, l') /\ upto (p + 4) l'.
Proof.
  intros Hu Hp. pose proof (upto_word _ _ Hu) as Hl. destruct (Hu) as [Hp0 _].
  destruct (read_block buf (p - addr) 4) as [w|] eqn:Hr;
    [|unfold read_block in Hr; case_match; [done|lia]].
  assert (length w = 4%nat /\ is_bytes w) as [Hlen Hw].
  { unfold read_block in Hr. case_match; [|done]. injection Hr as <-.
    split; [rewrite length_take, length_drop; lia|]. by apply Forall_take, Forall_drop. }
  exists (crc_bytes l w). split; [|pose proof (upto_step p l w Hu) as Hs; rewrite Hlen in Hs; by apply Hs].
  pose proof (le_val_range w Hw) as Hv. rewrite Hlen in Hv.
  unfold STEP4, LE_LOAD32, DecodeFixed32. rewrite Hr. cbn [mbind outcome_bind].
  rewrite (crc_bytes_word l w Hw), Hlen. set (c := Z.lxor l (le_val w)).
  assert (word c) as Hc by (by apply lxor_range).
  assert (0 <= Z.shiftr c 24 < 256) as H24.
  { rewrite Z.shiftr_div_pow2 by lia. unfold word in Hc. Z.to_euclidean_division_equations; lia. }
  rewrite table3_ok, table2_ok, table1_ok, table0_ok by (apply land_byte || done).
  cbn [mbind outcome_bind]. change (8 * 4)%nat with 32%nat. by rewrite (four_bytes c).
Qed.

Lemma bytes_until_ok fuel stop p l :
  upto p l -> p <= stop -> stop - addr <= Z.of_nat (length buf) -> stop - p < Z.of_nat fuel ->
  exists l', bytes_until addr buf fuel stop p l = Ok (stop, l') /\ upto stop l'.
Proof.
  revert p l. induction fuel as [|fuel IH]; intros p l Hu Hp Hs Hf; [lia|].
  cbn [bytes_until]. destruct (Z.eqb_spec p stop) as [->|]; [eauto|].
  destruct (STEP1_ok p l Hu) as (l' & -> & Hu'); [lia|]. cbn [mbind outcome_bind fst snd].
  apply IH; [done|lia..].
Qed.

Lemma by_four_ok fuel e p l :
  upto p l -> p <= e -> e - addr <= Z.of_nat (length buf) -> e - p < Z.of_nat fuel ->
  exists p' l', by_four addr buf fuel e p l = Ok (p', l') /\ upto p' l' /\ p' <= e.
Proof.
  revert p l. induction fuel as [|fuel IH]; intros p l Hu Hp Hs Hf; [lia|].
  cbn [by_four]. destruct (Z.leb_spec 4 (e - p)); [|eauto].
  destruct (STEP4_ok p l Hu) as (l' & -> & Hu'); [lia|]. cbn [mbind outcome_bind fst snd].
  apply IH; [done|lia..].
Qed.

Lemma by_sixteen_ok fuel e p l :
  upto p l -> p <= e -> e - addr <= Z.of_nat (length buf) -> e - p < Z.of_nat fuel ->
  exists p' l', by_sixteen addr buf fuel e p l = Ok (p', l') /\ upto p' l' /\ p' <= e.
Proof.
  revert p l. induction fuel as [|fuel IH]; intros p l Hu Hp Hs Hf; [lia|].
  cbn [by_sixteen]. destruct (Z.leb_spec 16 (e - p)); [|eauto].
  do 4 (edestruct STEP4_ok as (? & -> & Hu'); [eassumption|lia|];
        cbn [mbind outcome_bind fst snd]; clear Hu; rename Hu' into Hu).
  apply IH; [done|lia..].
Qed.

End Loops.

(** ** Errors are detected, masks are undone *)

Lemma shift_bit_0 l : word l -> shift_bit l = 0 -> l = 0.
Proof.
  unfold shift_bit, word. intros Hl H0. apply Z.lxor_eq in H0.
  rewrite Z.shiftr_div_pow2 in H0 by lia. change (2 ^ 1) with 2 in H0.
  destruct (Z.odd l) eqn:E; unfold poly in H0; Z.to_euclidean_division_equations; [lia|].
  rewrite <-Z.negb_even, negb_false_iff in E. apply Z.even_spec in E as [k ->]. lia.
Qed.

Lemma shift_bits_0 n l : word l -> shift_bits n l = 0 -> l = 0.
Proof.
  intros Hl. induction n as [|n IH]; [done|]. intros H0. apply IH, shift_bit_0; [|done].
  by apply shift_bits_word.
Qed.

Lemma crc32c_app crc a b : crc32c crc (a ++ b) = crc32c (crc32c crc a) b.
Proof.
  unfold crc32c, crc_bytes. rewrite foldl_app. do 2 f_equal.
  by rewrite Z.lxor_assoc, Z.lxor_nilpotent, Z.lxor_0_r.
Qed.

Lemma crc32c_burst crc a b k e :
  is_bytes a -> is_bytes b -> length a = length b ->
  0 < e < 2 ^ 32 -> (k <= 8 * length a)%nat ->
  Z.lxor (le_val a) (le_val b) = Z.shiftl e (Z.of_nat k) ->
  crc32c crc a <> crc32c crc b.
Proof.
  intros Ha Hb Hlen He Hk Hd Heq. unfold crc32c in Heq.
  apply (f_equal (fun z => Z.lxor z 0xffffffff)) in Heq.
  rewrite !Z.lxor_assoc, !Z.lxor_nilpotent, !Z.lxor_0_r, !crc_bytes_word, <-Hlen in Heq by done.
  apply Z.lxor_eq_0_iff in Heq. rewrite <-shift_bits_lxor in Heq.
  rewrite (Z.lxor_comm _ (le_val a)), Z.lxor_assoc, <-(Z.lxor_assoc (Z.lxor crc _)),
    Z.lxor_nilpotent, Z.lxor_0_l, Hd in Heq.
  replace (8 * length a)%nat with (8 * length a - k + k)%nat in Heq by lia.
  rewrite shift_bits_add, shift_bits_shiftl in Heq. apply shift_bits_0 in Heq; unfold word; lia.
Qed.

Lemma align4 addr : 0 <= addr ->
  exists d, 0 <= d < 4 /\ Z.shiftl (Z.shiftr (addr + 3) 2) 2 = addr + d.
Proof.
  intros Ha. rewrite Z.shiftl_mul_pow2, Z.shiftr_div_pow2 by lia. change (2 ^ 2) with 4.
  exists ((addr + 3) / 4 * 4 - addr). Z.to_euclidean_division_equations; lia.
Qed.

(** A rotation to the right by [n] and one by [32 - n] cancel. *)
Lemma rotate_back crc n : word crc -> 0 < n < 32 ->
  let rot := Z.lor (Z.shiftr crc n) (u32 (Z.shiftl crc (32 - n))) in
  Z.lor (Z.shiftr rot (32 - n)) (u32 (Z.shiftl rot n)) = crc.
Proof.
  intros Hc Hn. cbv zeta. apply Z.bits_inj'. intros i Hi.
  unfold uwrap.
  rewrite Z.lor_spec, Z.shiftr_spec, Z.lor_spec, Z.shiftr_spec, !Z.testbit_mod_pow2, !Z.shiftl_spec by lia.
  assert (forall j, 32 <= j -> Z.testbit crc j = false) as Hhi.
  { intros j Hj. rewrite <-(Z.mod_small crc (2 ^ 32)), Z.mod_pow2_bits_high by (done || lia). done. }
  destruct (Z.ltb_spec i 32) as [H32|H32].
  - destruct (Z.ltb_spec (i - n) 0).
    + rewrite (Z.testbit_neg_r _ (i - n)) by lia. decide_tests. rewrite orb_false_r.
      replace (i + (32 - n) - (32 - n)) with i by lia. by rewrite Hhi by lia.
    + rewrite Z.lor_spec, Z.shiftr_spec, Z.testbit_mod_pow2, Z.shiftl_spec by lia.
      decide_tests. rewrite (Hhi (i + (32 - n) + n)), (Z.testbit_neg_r _ (i - n - (32 - n))) by lia.
      replace (i - n + n) with i by lia. by destruct (Z.testbit crc i).
  - decide_tests. by rewrite !Hhi by lia.
Qed.

Lemma extend_crc32c addr buf crc size :
  is_bytes buf -> 0 <= crc < 2 ^ 32 -> 0 <= size <= Z.of_nat (length buf) ->
  0 <= addr -> addr + size + 3 < 2 ^ 64 ->
  extend addr buf crc size = Ok (crc32c crc (take (Z.to_nat size) buf)).
Proof.
  intros Hb Hc Hs Ha Ho. unfold extend, extend_fuel. set (fuel := (Z.to_nat size + 4)%nat).
  set (l0 := Z.lxor crc 0xffffffff).
  assert (word l0) as Hl0 by (apply lxor_range; [lia|done|lia]).
  destruct (align4 addr Ha) as (d & Hd & Hx). rewrite (u64_small (addr + 3)), Hx, u64_small by lia.
  assert (upto addr buf l0 addr l0) as Hu by (split; [lia|]; by rewrite Z.sub_diag).
  assert (exists p l, (if addr + d <=? addr + size then bytes_until addr buf fuel (addr + d) addr l0
                       else Ok (addr, l0)) = Ok (p, l) /\ upto addr buf l0 p l /\ p <= addr + size)
    as (p & l & -> & Hu1 & Hp).
  { destruct (Z.leb_spec (addr + d) (addr + size)); [|exists addr, l0; split_and!; [done..|lia]].
    destruct (bytes_until_ok addr buf l0 Hb Hl0 fuel (addr + d) addr l0 Hu) as (l & -> & Hu1); [lia..|]. eauto. }
  cbn [mbind outcome_bind fst snd]. pose proof (proj1 Hu1).
  destruct (by_sixteen_ok addr buf l0 Hb Hl0 fuel (addr + size) p l Hu1) as (p2 & l2 & -> & Hu2 & Hp2); [lia..|].
  cbn [mbind outcome_bind fst snd]. pose proof (proj1 Hu2).
  destruct (by_four_ok addr buf l0 Hb Hl0 fuel (addr + size) p2 l2 Hu2) as (p3 & l3 & -> & Hu3 & Hp3); [lia..|].
  cbn [mbind outcome_bind fst snd]. pose proof (proj1 Hu3).
  destruct (bytes_until_ok addr buf l0 Hb Hl0 fuel (addr + size) p3 l3 Hu3) as (l4 & -> & [_ ->]); [lia..|].
  cbn [mbind outcome_bind fst snd]. unfold crc32c. do 3 f_equal. f_equal. lia.
Qed.

Lemma crc32c_range crc s : word crc -> is_bytes s -> word (crc32c crc s).
Proof.
  intros. apply lxor_range; [lia| |lia]. apply crc_bytes_is_word; [|done].
  by apply lxor_range.
Qed.

Lemma lor_range n a b : 0 <= n -> 0 <= a < 2 ^ n -> 0 <= b < 2 ^ n -> 0 <= Z.lor a b < 2 ^ n.
Proof.
  intros Hn Ha Hb.
  assert (Z.lor a b = Z.lor a b mod 2 ^ n) as ->; [|apply Z.mod_pos_bound; lia].
  apply Z.bits_inj'. intros i Hi. rewrite Z.testbit_mod_pow2, Z.lor_spec by lia.
  rewrite <-(Z.mod_small a (2 ^ n)), <-(Z.mod_small b (2 ^ n)), !Z.testbit_mod_pow2 by lia.
  by destruct (i <? n).
Qed.

Lemma rotation_word crc n m : word crc -> 0 <= n -> word (Z.lor (Z.shiftr crc n) (u32 (Z.shiftl crc m))).
Proof.
  intros Hc Hn. unfold word in Hc. apply lor_range; [lia| |by apply uwrap_range].
  rewrite Z.shiftr_div_pow2 by lia. split; [apply Z.div_pos; lia|].
  apply Z.div_lt_upper_bound; nia.
Qed.

Lemma add_sub_wrap r d : word r -> u32 (u32 (r + d) - d) = r.
Proof. intros. unfold uwrap. rewrite Zminus_mod_idemp_l, Z.add_simpl_r. by apply Z.mod_small. Qed.

(** ** Properties *)

(** C22: Whatever the address of the buffer, the table-driven, word-at-a-time
    [extend] returns and computes the bit-at-a-time CRC-32C of the first [size]
    bytes, reading nothing outside the buffer. *)
Theorem extend_is_crc32c addr buf crc size :
  is_bytes buf -> 0 <= crc < 2 ^ 32 -> 0 <= size <= Z.of_nat (length buf) ->
  0 <= addr -> addr + size + 3 < 2 ^ 64 ->
  extend addr buf crc size = Ok (crc32c crc (take (Z.to_nat size) buf)).
Proof. intros. by apply extend_crc32c. Qed.

Lemma extend_is_crc32c_witness :
  extend 1001 (str "The quick brown fox jumps over") 7 30 =
  Ok (crc32c 7 (take (Z.to_nat 30) (str "The quick brown fox jumps over"))).
Proof. apply extend_is_crc32c; [decide_vm|lia|vm_compute; split; discriminate|lia|lia]. Defined.

(** The checksum detects every error burst of at most 32 bits: two buffers
    of the same length that differ only within 32 consecutive bits (the least
    significant bit of a byte first) have different checksums. *)
Theorem value_detects_bursts addr a b k e :
  is_bytes a -> is_bytes b -> length a = length b ->
  0 <= addr -> addr + Z.of_nat (length a) + 3 < 2 ^ 64 ->
  0 < e < 2 ^ 32 -> (k <= 8 * length a)%nat ->
  Z.lxor (le_val a) (le_val b) = Z.shiftl e (Z.of_nat k) ->
  exists ca cb, value addr a (Z.of_nat (length a)) = Ok ca /\
    value addr b (Z.of_nat (length b)) = Ok cb /\ ca <> cb.
Proof.
  intros Ha Hb Hlen Hadr Ho He Hk Hd. unfold value.
  exists (crc32c 0 a), (crc32c 0 b). split_and!; [..|by eapply crc32c_burst].
  all: rewrite extend_crc32c by (done || lia); by rewrite Nat2Z.id, firstn_all.
Qed.

Lemma value_detects_bursts_witness :
  exists ca cb, value 1001 (str "hello") 5 = Ok ca /\ value 1001 (str "hellp") 5 = Ok cb /\ ca <> cb.
Proof.
  apply (value_detects_bursts 1001 (str "hello") (str "hellp") 32 31);
    [decide_vm|decide_vm|done|lia|vm_compute; done|lia|vm_compute; lia|vm_compute; reflexivity].
Defined.

(** Streaming: extending the checksum of [a] by [b] gives the checksum of
    their concatenation, wherever the three buffers are. *)
Theorem extend_concatenates p q r a b :
  is_bytes a -> is_bytes b -> 0 <= p -> 0 <= q -> 0 <= r ->
  p + Z.of_nat (length a) + 3 < 2 ^ 64 -> q + Z.of_nat (length b) + 3 < 2 ^ 64 ->
  r + Z.of_nat (length a + length b) + 3 < 2 ^ 64 ->
  (c ← value p a (Z.of_nat (length a)); extend q b c (Z.of_nat (length b))) =
  value r (a ++ b) (Z.of_nat (length (a ++ b))).
Proof.
  intros Ha Hb Hp Hq Hr Hpa Hqb Hrc. unfold value.
  rewrite !extend_crc32c by (rewrite ?length_app; done || lia || by apply Forall_app).
  cbn [mbind outcome_bind]. rewrite !Nat2Z.id, !firstn_all.
  rewrite extend_crc32c by first [done | lia | by apply crc32c_range].
  by rewrite Nat2Z.id, firstn_all, crc32c_app.
Qed.

Lemma extend_concatenates_witness :
  (c ← value 1001 (str "12345") 5; extend 2002 (str "6789") c 4) = value 3003 (str "123456789") 9.
Proof.
  apply (extend_concatenates 1001 2002 3003 (str "12345") (str "6789"));
    [decide_vm|decide_vm|lia|lia|lia|vm_compute; done..].
Defined.

(** [unmask] inverts [mask] on 32-bit checksums, and the other way round. *)
Theorem mask_round_trip crc : 0 <= crc < 2 ^ 32 -> unmask (mask crc) = crc /\ mask (unmask crc) = crc.
Proof.
  intros Hc. unfold mask, unmask. split.
  - rewrite add_sub_wrap by (by apply rotation_word). by apply (rotate_back crc 15).
  - pose proof (rotate_back (u32 (crc - kMaskDelta)) 17 (uwrap_range 32 _ ltac:(lia)) ltac:(lia)) as Hr.
    change (32 - 17) with 15 in Hr. cbv zeta in *. rewrite Hr.
    unfold uwrap. rewrite Zplus_mod_idemp_l, Z.sub_add. by apply Z.mod_small.
Qed.

Lemma mask_round_trip_witness : unmask (mask 0xe3069283) = 0xe3069283 /\ mask (unmask 0xe3069283) = 0xe3069283.
Proof. apply mask_round_trip. lia. Defined.
