(* ===== verification/Hash.v ===== *)
(** * hash.cpp, hash.h: MurmurHash2 (64-bit)

    The word loop, the fall-through switch over the tail and the finalizer of
    [MurmurHash64A], with unsigned 64-bit arithmetic written out, and the two
    entry points [hash] and [strhash].  The reference reads the key as
    little-endian words followed by a little-endian tail. *)

From S2P Require Import Prelude Crc32c.

Definition m : Z := 0xc6a4a7935bd1e995.
Definition r : Z := 47.

(** ** The code *)

(** One round of [while(data != end)]: [i] counts the words consumed. *)
Fixpoint murmur_words (fuel : nat) (key : bytes) (last i h : Z) : outcome (Z * Z) :=
  match fuel with
  | O => Trap OutOfFuel
  | S fuel =>
      if i =? last then Ok (i, h) else
      w ← read_block key (8 * i) 8;
      let k := le_val w in
      let k := u64 (k * m) in
      let k := Z.lxor k (Z.shiftr k r) in
      let k := u64 (k * m) in
      let h := Z.lxor h k in
      let h := u64 (h * m) in
      murmur_words fuel key last (i + 1) h
  end.

(** [h ^= uint64_t(data2[j]) << (8 * j)]. *)
Definition tail_byte (key : bytes) (data2 j h : Z) : outcome Z :=
  b ← load key (data2 + j); Ok (Z.lxor h (Z.shiftl b (8 * j))).

(** [switch(len & 7)]: case [n] falls through to case 1. *)
Fixpoint murmur_tail (n : nat) (key : bytes) (data2 h : Z) : outcome Z :=
  match n with
  | O => Ok h
  | S n => h ← tail_byte key data2 (Z.of_nat n) h;
           match n with
           | O => Ok (u64 (h * m))
           | S _ => murmur_tail n key data2 h
           end
  end.

Definition MurmurHash64A (key : bytes) (len seed : Z) : outcome Z :=
  let h := Z.lxor seed (u64 (len * m)) in
  res ← murmur_words (length key + 2) key (Z.quot len 8) 0 h;
  h ← murmur_tail (Z.to_nat (Z.land len 7)) key (8 * fst res) (snd res);
  let h := Z.lxor h (Z.shiftr h r) in
  let h := u64 (h * m) in
  let h := Z.lxor h (Z.shiftr h r) in
  Ok h.

(** The [size_t] argument is narrowed to the [int] parameter. *)
Definition hash (src : bytes) (size : Z) : outcome Z := MurmurHash64A src (s32 size) 0xba1dba1d.

Definition strhash (s : bytes) : outcome Z :=
  n ← strlen s; hash s (Z.of_nat n).

(** ** The reference *)

Definition xorshift (z : Z) : Z := Z.lxor z (Z.shiftr z r).
Definition times (z : Z) : Z := u64 (z * m).
Definition absorb (h k : Z) : Z := times (Z.lxor h (times (xorshift (times k)))).
Definition finish (h : Z) : Z := xorshift (times (xorshift h)).

(** [n] words, then what is left. *)
Fixpoint murmur_blocks (n : nat) (h : Z) (s : bytes) : Z :=
  match n with
  | O => match s with [] => h | _ => times (Z.lxor h (le_val s)) end
  | S n => murmur_blocks n (absorb h (le_val (take 8 s))) (drop 8 s)
  end.

Definition murmur (seed : Z) (s : bytes) : Z :=
  finish (murmur_blocks (length s / 8) (Z.lxor seed (u64 (Z.of_nat (length s) * m))) s).

Example hash_value : hash (str "hello world") 11 = Ok (murmur 0xba1dba1d (str "hello world")).
Proof. vm_compute. reflexivity. Qed.

(** A size of 2^31 or more becomes a negative length: the word loop runs off the key. *)
Example hash_huge_size : hash (replicate 64 7) (2 ^ 31) = Trap OutOfBounds.
Proof. vm_compute. reflexivity. Qed.

(** ** The code computes the reference *)

Lemma murmur_words_ok fuel pre s suf n h k :
  length pre = (8 * Z.to_nat n)%nat -> 0 <= n -> (8 * k <= length s)%nat -> (k < fuel)%nat ->
  exists h', murmur_words fuel (pre ++ s ++ suf) (n + Z.of_nat k) n h = Ok (n + Z.of_nat k, h') /\
    murmur_blocks k h s =
      match drop (8 * k) s with [] => h' | t => times (Z.lxor h' (le_val t)) end.
Proof.
  revert pre s n h k. induction fuel as [|fuel IH]; intros pre s n h k Hpre Hn Hk Hf; [lia|].
  cbn [murmur_words]. destruct k as [|k].
  - rewrite Z.add_0_r, Z.eqb_refl. exists h. by destruct s.
  - replace (n =? n + Z.of_nat (S k)) with false by lia.
    rewrite <-(take_drop 8 s), <-app_assoc, read_block_app by (rewrite ?length_take; lia).
    cbn [mbind outcome_bind]. rewrite app_assoc.
    replace (n + Z.of_nat (S k)) with (n + 1 + Z.of_nat k) by lia.
    destruct (IH (pre ++ take 8 s) (drop 8 s) (n + 1) (absorb h (le_val (take 8 s))) k
      ltac:(rewrite length_app, length_take; lia) ltac:(lia)
      ltac:(rewrite length_drop; lia) ltac:(lia)) as (h' & E & Hb).
    exists h'. split; [exact E|]. rewrite (take_drop 8 s). cbn [murmur_blocks]. rewrite Hb, drop_drop.
    by replace (8 + 8 * k)%nat with (8 * S k)%nat by lia.
Qed.

Lemma le_val_snoc t b :
  is_bytes t -> is_byte b ->
  le_val (t ++ [b]) = Z.lxor (le_val t) (Z.shiftl b (8 * Z.of_nat (length t))).
Proof.
  intros Ht Hb. induction Ht as [|x t Hx Ht IH].
  - cbn [app le_val length]. by rewrite Z.shiftl_0_r, Z.lxor_0_l, Z.mul_0_r, Z.add_0_r.
  - cbn [app le_val]. rewrite IH, !le_cons_lxor, Z.shiftl_lxor, Z.lxor_assoc, Z.shiftl_shiftl by (done || lia).
    do 3 f_equal. cbn [length]. lia.
Qed.

Lemma murmur_tail_ok pre t suf h :
  is_bytes t ->
  murmur_tail (length t) (pre ++ t ++ suf) (Z.of_nat (length pre)) h =
  Ok (match t with [] => h | _ => times (Z.lxor h (le_val t)) end).
Proof.
  revert suf h. induction t as [|b t IH] using rev_ind; intros suf h Ht; [done|].
  apply Forall_app in Ht as [Ht [Hb _]%Forall_cons]. rewrite length_app, Nat.add_1_r.
  cbn [murmur_tail]. unfold tail_byte. rewrite <-app_assoc. cbn [app].
  rewrite (app_assoc pre t (b :: suf)), load_app by (rewrite length_app; lia). cbn [mbind outcome_bind].
  assert (t ++ [b] <> []) by (by destruct t). destruct (t ++ [b]) as [|x' t'] eqn:E; [done|].
  rewrite <-E, le_val_snoc by done. rewrite (Z.lxor_comm (le_val t)), <-Z.lxor_assoc.
  destruct t as [|x t]; [by rewrite Z.lxor_0_r|].
  change (length (x :: t)) with (S (length t)) at 1. cbv iota beta.
  rewrite <-app_assoc. change (S (length t)) with (length (x :: t)). by rewrite IH.
Qed.

Lemma MurmurHash64A_murmur s suf seed :
  is_bytes s -> Z.of_nat (length s) < 2 ^ 31 ->
  MurmurHash64A (s ++ suf) (Z.of_nat (length s)) seed = Ok (murmur seed s).
Proof.
  intros Hs Hlen. unfold MurmurHash64A, murmur. set (n := (length s / 8)%nat).
  pose proof (Nat.div_mod_eq (length s) 8) as Hdm. pose proof (Nat.mod_upper_bound (length s) 8 ltac:(lia)).
  fold n in Hdm. set (k := (length s mod 8)%nat) in *.
  rewrite Z.quot_div_nonneg by lia. change (Z.of_nat (length s) / 8) with (Z.of_nat (length s) / Z.of_nat 8).
  rewrite <-Nat2Z.inj_div.
  change 7 with (Z.ones 3). rewrite Z.land_ones by lia.
  change (2 ^ 3) with (Z.of_nat 8). rewrite <-Nat2Z.inj_mod, Nat2Z.id. fold n k.
  destruct (murmur_words_ok (length (s ++ suf) + 2) [] s suf 0
    (Z.lxor seed (u64 (Z.of_nat (length s) * m))) n) as (h' & E & Hb); [done|lia|lia|rewrite length_app; lia|].
  cbn [app] in E. rewrite Z.add_0_l in E. rewrite E. cbn [mbind outcome_bind fst snd]. rewrite Hb.
  assert (length (drop (8 * n) s) = k) as Hk by (rewrite length_drop; lia).
  rewrite <-(take_drop (8 * n) s) at 1. rewrite <-app_assoc, <-Hk.
  replace (8 * Z.of_nat n) with (Z.of_nat (length (take (8 * n) s))) by (rewrite length_take; lia).
  rewrite murmur_tail_ok by (by apply Forall_drop). by destruct (drop (8 * n) s).
Qed.

(** ** Every round is a bijection of 64-bit words *)

Definition word64 (z : Z) : Prop := 0 <= z < 2 ^ 64.

(** The inverse of the multiplier modulo 2^64. *)
Definition m_inv : Z := 0x5f7a0ea7e59b19bd.

Lemma times_inj a b : word64 a -> word64 b -> times a = times b -> a = b.
Proof.
  intros Ha Hb E. apply (f_equal (fun z => u64 (z * m_inv))) in E. unfold times, uwrap in E.
  rewrite !Zmult_mod_idemp_l, <-!Z.mul_assoc, <-!(Zmult_mod_idemp_r (m * m_inv)) in E.
  change ((m * m_inv) mod 2 ^ 64) with 1 in E. rewrite !Z.mul_1_r, !Z.mod_small in E by done. done.
Qed.

Lemma xorshift_inj a b : word64 a -> word64 b -> xorshift a = xorshift b -> a = b.
Proof.
  intros Ha Hb E. unfold xorshift in E. apply Z.lxor_eq_0_iff in E.
  assert (Z.lxor (Z.lxor a b) (Z.shiftr (Z.lxor a b) r) = 0) as E'.
  { rewrite Z.shiftr_lxor, <-E. apply Z.bits_inj'. intros i _. rewrite !Z.lxor_spec.
    by destruct (Z.testbit a i), (Z.testbit b i), (Z.testbit (Z.shiftr a r) i), (Z.testbit (Z.shiftr b r) i). }
  apply Z.lxor_eq in E'. pose proof (lxor_range 64 a b ltac:(lia) Ha Hb) as Hr.
  rewrite Z.shiftr_div_pow2 in E' by (unfold r; lia). apply Z.lxor_eq.
  destruct (decide (Z.lxor a b = 0)) as [|Hne]; [done|exfalso].
  pose proof (Z.div_lt (Z.lxor a b) (2 ^ r) ltac:(lia) ltac:(unfold r; lia)). lia.
Qed.

Lemma times_word z : word64 (times z).
Proof. by apply uwrap_range. Qed.

Lemma xorshift_word z : word64 z -> word64 (xorshift z).
Proof.
  intros Hz. unfold word64 in Hz. apply lxor_range; [lia|done|].
  rewrite Z.shiftr_div_pow2 by (unfold r; lia). unfold r. Z.to_euclidean_division_equations; lia.
Qed.

Lemma lxor_word64 a b : word64 a -> word64 b -> word64 (Z.lxor a b).
Proof. apply lxor_range. lia. Qed.

#[local] Hint Resolve times_word xorshift_word lxor_word64 : spg.

Lemma lxor_inj_r a b c : Z.lxor c a = Z.lxor c b -> a = b.
Proof.
  intros E. apply (f_equal (Z.lxor c)) in E.
  by rewrite <-!Z.lxor_assoc, Z.lxor_nilpotent, !Z.lxor_0_l in E.
Qed.

Lemma absorb_inj h h' k k' :
  word64 h -> word64 h' -> word64 k -> word64 k' -> h = h' \/ k = k' ->
  absorb h k = absorb h' k' -> h = h' /\ k = k'.
Proof.
  intros Hh Hh' Hk Hk' Hor E. unfold absorb in E. apply times_inj in E; [|auto with spg..].
  destruct Hor as [<-| <-].
  - apply lxor_inj_r, times_inj, xorshift_inj, times_inj in E; auto with spg.
  - rewrite !(Z.lxor_comm _ (times _)) in E. by apply lxor_inj_r in E.
Qed.

Lemma absorb_word h k : word64 (absorb h k).
Proof. apply times_word. Qed.

Lemma le_val_word64 s : is_bytes s -> (length s <= 8)%nat -> word64 (le_val s).
Proof.
  intros Hs Hl. pose proof (le_val_range s Hs) as Hr. unfold word64.
  pose proof (Z.pow_le_mono_r 2 (8 * Z.of_nat (length s)) 64 ltac:(lia) ltac:(lia)). lia.
Qed.

(** The state after the rest of the key determines the state before it. *)
Lemma murmur_blocks_inj n h h' s :
  word64 h -> word64 h' -> is_bytes s -> (length s < 8 * n + 8)%nat ->
  murmur_blocks n h s = murmur_blocks n h' s -> h = h'.
Proof.
  revert h h' s. induction n as [|n IH]; intros h h' s Hh Hh' Hs Hl E; cbn [murmur_blocks] in E.
  - destruct s as [|b s]; [done|]. apply times_inj in E.
    + rewrite !(Z.lxor_comm _ (le_val _)) in E. by apply lxor_inj_r in E.
    + apply lxor_word64; [done|]. apply le_val_word64; [done|lia].
    + apply lxor_word64; [done|]. apply le_val_word64; [done|lia].
  - apply IH in E; [|apply absorb_word..|by apply Forall_drop|rewrite length_drop; lia].
    assert (word64 (le_val (take 8 s))) by (apply le_val_word64; [by apply Forall_take|rewrite length_take; lia]).
    apply absorb_inj in E; tauto.
Qed.

(** A changed word or tail changes the state. *)
Lemma murmur_blocks_differ n h pre x y suf :
  word64 h -> is_bytes (pre ++ x ++ suf) -> is_bytes y -> length x = length y ->
  (8 * n <= length (pre ++ x ++ suf) < 8 * n + 8)%nat ->
  (exists j, length pre = 8 * j)%nat -> length x = 8%nat \/ (length x < 8)%nat /\ suf = [] ->
  murmur_blocks n h (pre ++ x ++ suf) = murmur_blocks n h (pre ++ y ++ suf) -> x = y.
Proof.
  intros Hh Hb Hy Hxy Hl [j Hj] Hcase. revert n h pre Hh Hb Hl Hj.
  induction j as [|j IH]; intros n h pre Hh Hb Hl Hj E.
  - destruct pre; [|done]. cbn [app] in *. apply Forall_app in Hb as [Hx Hs].
    destruct Hcase as [H8|[Hlt ->]].
    + destruct n as [|n]; [rewrite length_app in Hl; lia|]. cbn [murmur_blocks] in E.
      rewrite !take_app_length', !drop_app_length' in E by lia.
      apply murmur_blocks_inj in E; [|apply absorb_word..|done|rewrite length_app in Hl; lia].
      apply absorb_inj in E as [_ E]; [|done|done|apply le_val_word64; [done|lia]|apply le_val_word64; [done|lia]|by left].
      by apply le_val_inj.
    + rewrite !app_nil_r in *. destruct n; [|lia]. cbn [murmur_blocks] in E.
      destruct x as [|a x], y as [|b y]; try done. apply times_inj in E;
        [|apply lxor_word64; [done|apply le_val_word64; [done|lia]]..].
      apply lxor_inj_r in E. by apply le_val_inj.
  - destruct n as [|n]; [rewrite length_app in Hl; lia|]. cbn [murmur_blocks] in E.
    rewrite !take_app_le, !drop_app_le in E by lia.
    apply IH in E; [done|apply absorb_word|..].
    + apply Forall_app in Hb as [Hp Hb]. apply Forall_app. split; [by apply Forall_drop|done].
    + revert Hl. rewrite !length_app, length_drop. lia.
    + rewrite length_drop. lia.
Qed.

Lemma murmur_differ seed pre x y suf :
  word64 seed -> is_bytes (pre ++ x ++ suf) -> is_bytes y -> length x = length y ->
  (exists j, length pre = 8 * j)%nat -> length x = 8%nat \/ (length x < 8)%nat /\ suf = [] ->
  murmur seed (pre ++ x ++ suf) = murmur seed (pre ++ y ++ suf) -> x = y.
Proof.
  intros Hseed Hb Hy Hxy Hj Hcase E. unfold murmur, finish in E.
  assert (length (pre ++ x ++ suf) = length (pre ++ y ++ suf)) as Hlen by (rewrite !length_app; lia).
  rewrite <-Hlen in E. set (n := (length _ / 8)%nat) in E. set (h := Z.lxor seed _) in E.
  assert (word64 h) as Hh by (apply lxor_word64; [done|apply times_word]).
  pose proof (Nat.div_mod_eq (length (pre ++ x ++ suf)) 8).
  pose proof (Nat.mod_upper_bound (length (pre ++ x ++ suf)) 8 ltac:(lia)).
  assert (forall k g s, word64 g -> word64 (murmur_blocks k g s)) as Hw.
  { induction k; intros g s Hg; cbn; [by destruct s; auto with spg|]. apply IHk, absorb_word. }
  apply xorshift_inj, times_inj, xorshift_inj in E; auto with spg.
  by eapply murmur_blocks_differ in E; [|done|done|done|done|unfold n; lia|done|done].
Qed.

(** ** Properties *)

(** [hash] returns, for every key shorter than 2^31 bytes, the reference
    MurmurHash2 of exactly its [size] bytes, and reads nothing after them. *)
Theorem hash_is_murmur s suf :
  is_bytes s -> Z.of_nat (length s) < 2 ^ 31 ->
  hash (s ++ suf) (Z.of_nat (length s)) = Ok (murmur 0xba1dba1d s).
Proof. intros. unfold hash. rewrite s32_small by lia. by apply MurmurHash64A_murmur. Qed.

Lemma hash_is_murmur_witness : hash (str "spigeon" ++ [0; 1]) 7 = Ok (murmur 0xba1dba1d (str "spigeon")).
Proof. apply (hash_is_murmur (str "spigeon")); [decide_vm|vm_compute; done]. Defined.

(** Two keys of the same length that differ only within one aligned 8-byte
    word, or only in the last incomplete word, never collide. *)
Theorem hash_word_injective pre x y suf :
  is_bytes (pre ++ x ++ suf) -> is_bytes y -> length x = length y -> x <> y ->
  Z.of_nat (length (pre ++ x ++ suf)) < 2 ^ 31 ->
  (exists j, length pre = 8 * j)%nat -> length x = 8%nat \/ (length x < 8)%nat /\ suf = [] ->
  exists hx hy,
    hash (pre ++ x ++ suf) (Z.of_nat (length (pre ++ x ++ suf))) = Ok hx /\
    hash (pre ++ y ++ suf) (Z.of_nat (length (pre ++ y ++ suf))) = Ok hy /\ hx <> hy.
Proof.
  intros Hb Hy Hxy Hne Hlen Hj Hcase. unfold hash.
  assert (length (pre ++ x ++ suf) = length (pre ++ y ++ suf)) as Hl by (rewrite !length_app; lia).
  assert (is_bytes (pre ++ y ++ suf)).
  { apply Forall_app in Hb as [? [_ ?]%Forall_app]. by apply Forall_app_2, Forall_app_2. }
  exists (murmur 0xba1dba1d (pre ++ x ++ suf)), (murmur 0xba1dba1d (pre ++ y ++ suf)). split_and!.
  - rewrite s32_small, <-(app_nil_r (pre ++ x ++ suf)) at 1 by lia. by apply MurmurHash64A_murmur.
  - rewrite s32_small, <-(app_nil_r (pre ++ y ++ suf)) at 1 by lia. apply MurmurHash64A_murmur; [done|lia].
  - intros E. apply Hne. by eapply murmur_differ in E; [|vm_compute; split; done|..].
Qed.

Lemma hash_word_injective_witness :
  exists hx hy, hash (str "user:001") 8 = Ok hx /\ hash (str "user:002") 8 = Ok hy /\ hx <> hy.
Proof.
  apply (hash_word_injective [] (str "user:001") (str "user:002") []);
    [decide_vm|decide_vm|done|done|vm_compute; done|by exists 0%nat|by left].
Defined.
