(* ===== verification/Zmalloc.v ===== *)
(** * zmalloc.cpp: the accounting allocator

    Every block carries its size in an 8-byte header ([PREFIX_SIZE]; neither
    [USE_TCMALLOC], [USE_JEMALLOC] nor [__APPLE__] is defined in the build) and
    [used_memory] counts the bytes handed out.  The heap is the set of live
    blocks of the C library, whose [malloc]/[realloc] are parameters with their
    documented behaviour.  The refinement shows the map from live pointers to
    their contents that clients rely on, and that the counter is the total of
    [zmalloc_size] over it.  The last part is the update of the counter by
    several threads. *)

From S2P Require Import Prelude.

(** ** The C library's heap *)

Abbreviation cheap := (gmap Z bytes).

(** [malloc_addr]: where a block of [n] bytes is placed, or null;
    [realloc_addr]: where the block at [p] goes when it is resized. *)
Class CAlloc := {
  malloc_addr : cheap -> Z -> option Z;
  realloc_addr : cheap -> Z -> Z -> option Z;
  garbage : nat -> Z }.

(** A block never starts where a live one does, nor where its header would put
    the user's pointer at null. *)
Class CAllocLaws (C : CAlloc) : Prop := {
  malloc_fresh h n a : malloc_addr h n = Some a -> h !! a = None /\ a <> -8;
  realloc_fresh h p n a : realloc_addr h p n = Some a -> a = p \/ h !! a = None /\ a <> -8;
  garbage_byte i : is_byte (garbage i) }.

Definition PREFIX_SIZE : Z := 8.

Record zstate := mkZ {
  blocks : cheap;
  used_memory : Z;
  zmalloc_thread_safe : bool;
  zmalloc_oom_handler : Z -> outcome unit }.

Definition zmalloc_default_oom (size : Z) : outcome unit := Trap Aborted.

(** The initial values of the static variables. *)
Definition zinit : zstate := mkZ ∅ 0 false zmalloc_default_oom.

Definition with_blocks (st : zstate) (b : cheap) (u : Z) : zstate :=
  mkZ b u (zmalloc_thread_safe st) (zmalloc_oom_handler st).

(** ** The code *)

(** [if (_n&(sizeof(long)-1)) _n += sizeof(long)-(_n&(sizeof(long)-1))]. *)
Definition pad (n : Z) : Z :=
  if Z.land n 7 =? 0 then n else u64 (n + (8 - Z.land n 7)).

(** The macros; run by one thread both branches have the same effect. *)
Definition update_zmalloc_stat_alloc (u n : Z) : Z := u64 (u + pad n).
Definition update_zmalloc_stat_free (u n : Z) : Z := u64 (u - pad n).

Section Zmalloc.
Context {C : CAlloc}.

(** The write of [size] into the header and the return of [ptr + PREFIX_SIZE]; [content]
    is what the C library put in the block. *)
Definition hand_out (st : zstate) (a : option Z) (content : bytes) (size : Z) : outcome (Z * zstate) :=
  match a with
  | None => _ ← zmalloc_oom_handler st size; Trap NullDeref
  | Some a =>
      b ← memcpy content 0 (le_bytes 8 size);
      Ok (a + PREFIX_SIZE,
          with_blocks st (<[a := b]> (blocks st))
            (update_zmalloc_stat_alloc (used_memory st) (u64 (size + PREFIX_SIZE))))
  end.

Definition zmalloc (st : zstate) (size : Z) : outcome (Z * zstate) :=
  let n := u64 (size + PREFIX_SIZE) in
  hand_out st (malloc_addr (blocks st) n) (garbage <$> seq 0 (Z.to_nat n)) size.

Definition zcalloc (st : zstate) (size : Z) : outcome (Z * zstate) :=
  let n := u64 (size + PREFIX_SIZE) in
  hand_out st (malloc_addr (blocks st) n) (replicate (Z.to_nat n) 0) size.

(** The size in the header of a live block, and the block. *)
Definition header (st : zstate) (realptr : Z) : outcome (Z * bytes) :=
  match blocks st !! realptr with
  | None => Trap UseAfterFree
  | Some b => w ← read_block b 0 8; Ok (le_val w, b)
  end.

Definition zrealloc (st : zstate) (ptr size : Z) : outcome (Z * zstate) :=
  if ptr =? 0 then zmalloc st size else
  let realptr := ptr - PREFIX_SIZE in
  hb ← header st realptr;
  let '(oldsize, b) := hb in
  let n := u64 (size + PREFIX_SIZE) in
  match realloc_addr (blocks st) realptr n with
  | None => _ ← zmalloc_oom_handler st size; Trap NullDeref
  | Some a =>
      let moved := take (Z.to_nat n) b ++ (garbage <$> seq 0 (Z.to_nat n - length b)) in
      b' ← memcpy moved 0 (le_bytes 8 size);
      Ok (a + PREFIX_SIZE,
          with_blocks st (<[a := b']> (delete realptr (blocks st)))
            (update_zmalloc_stat_alloc (update_zmalloc_stat_free (used_memory st) oldsize) size))
  end.

Definition zmalloc_size (st : zstate) (ptr : Z) : outcome Z :=
  hb ← header st (ptr - PREFIX_SIZE);
  let size := fst hb in
  let size := if Z.land size 7 =? 0 then size else u64 (size + (8 - Z.land size 7)) in
  Ok (u64 (size + PREFIX_SIZE)).

Definition zfree (st : zstate) (ptr : Z) : outcome zstate :=
  if ptr =? 0 then Ok st else
  let realptr := ptr - PREFIX_SIZE in
  hb ← header st realptr;
  Ok (with_blocks st (delete realptr (blocks st))
        (update_zmalloc_stat_free (used_memory st) (u64 (fst hb + PREFIX_SIZE)))).

(** The client's [memcpy] into the memory at [ptr]. *)
Definition poke (st : zstate) (ptr off : Z) (src : bytes) : outcome zstate :=
  match blocks st !! (ptr - PREFIX_SIZE) with
  | None => Trap UseAfterFree
  | Some b => b' ← memcpy b (PREFIX_SIZE + off) src;
              Ok (with_blocks st (<[ptr - PREFIX_SIZE := b']> (blocks st)) (used_memory st))
  end.

Definition zstrdup (st : zstate) (s : bytes) : outcome (Z * zstate) :=
  n ← strlen s;
  let l := Z.of_nat n + 1 in
  r ← zmalloc st l;
  src ← read_block s 0 l;
  st' ← poke (snd r) (fst r) 0 src;
  Ok (fst r, st').

Definition zmalloc_used_memory (st : zstate) : Z := used_memory st.

Definition zmalloc_enable_thread_safeness (st : zstate) : zstate :=
  mkZ (blocks st) (used_memory st) true (zmalloc_oom_handler st).

Definition zmalloc_set_oom_handler (st : zstate) (h : Z -> outcome unit) : zstate :=
  mkZ (blocks st) (used_memory st) (zmalloc_thread_safe st) h.

End Zmalloc.

(** ** What clients see: live pointers and their contents *)

Definition block_of (c : bytes) : bytes := le_bytes 8 (Z.of_nat (length c)) ++ c.
Definition real (p : Z) : Z := p - PREFIX_SIZE.

(** What a block of [n] bytes costs. *)
Definition cost (n : Z) : Z := (n + 7) / 8 * 8 + 8.

Definition total (h : gmap Z bytes) : Z :=
  map_fold (fun _ c acc => cost (Z.of_nat (length c)) + acc) 0 h.

Record zrepr (st : zstate) (h : gmap Z bytes) : Prop := mkRepr {
  zr_blocks : blocks st = kmap real (block_of <$> h);
  zr_used : used_memory st = u64 (total h);
  zr_sizes : map_Forall (fun p c => p <> 0 /\ Z.of_nat (length c) + 16 <= 2 ^ 64) h }.

#[export] Instance real_inj : Inj (=) (=) real.
Proof. intros a b. unfold real. lia. Qed.

Lemma land7 n : Z.land n 7 = n mod 8.
Proof. change 7 with (Z.ones 3). by rewrite Z.land_ones. Qed.

Lemma pad_eq n : 0 <= n -> n + 7 < 2 ^ 64 -> pad n = (n + 7) / 8 * 8.
Proof.
  intros Hn Hb. unfold pad. rewrite land7. destruct (Z.eqb_spec (n mod 8) 0).
  - Z.to_euclidean_division_equations; lia.
  - rewrite u64_small; Z.to_euclidean_division_equations; lia.
Qed.

(** The header's bytes are part of the padded size. *)
Lemma pad_prefix n : 0 <= n -> n + 16 <= 2 ^ 64 -> pad (n + 8) = cost n.
Proof.
  intros. unfold cost. destruct (decide (n + 16 < 2 ^ 64)).
  - rewrite pad_eq by lia. Z.to_euclidean_division_equations; lia.
  - replace n with (2 ^ 64 - 16) by lia. vm_compute. done.
Qed.

Lemma total_insert h p c : h !! p = None -> total (<[p := c]> h) = cost (Z.of_nat (length c)) + total h.
Proof. intros. unfold total. rewrite map_fold_insert_L; [done|intros; lia|done]. Qed.

Lemma total_delete h p c : h !! p = Some c -> total h = cost (Z.of_nat (length c)) + total (delete p h).
Proof. intros Hp. rewrite <-(total_insert (delete p h) p c) by apply lookup_delete_eq.
  by rewrite insert_delete_id. Qed.

(** ** The operations on that view *)

Lemma repr_block st h p c : zrepr st h -> h !! p = Some c -> blocks st !! (p - PREFIX_SIZE) = Some (block_of c).
Proof.
  intros Hr Hp. change (p - PREFIX_SIZE) with (real p).
  by rewrite (zr_blocks _ _ Hr), (lookup_kmap real), lookup_fmap, Hp.
Qed.

Lemma header_ok st h p c :
  zrepr st h -> h !! p = Some c -> header st (p - PREFIX_SIZE) = Ok (Z.of_nat (length c), block_of c).
Proof.
  intros Hr Hp. unfold header. rewrite (repr_block _ _ _ _ Hr Hp).
  pose proof (zr_sizes _ _ Hr p c Hp) as [_ Hs].
  unfold block_of. rewrite read_block_0 by (by rewrite le_bytes_length).
  cbn [mbind outcome_bind]. rewrite le_val_bytes. by rewrite Z.mod_small by (change (8 * Z.of_nat 8) with 64; lia).
Qed.

Lemma real_add a : real (a + PREFIX_SIZE) = a.
Proof. unfold real. lia. Qed.

Lemma memcpy_header content size :
  length content = Z.to_nat (size + 8) -> 0 <= size ->
  memcpy content 0 (le_bytes 8 size) = Ok (block_of (drop 8 content)).
Proof.
  intros Hl Hs. rewrite memcpy_front; rewrite le_bytes_length; [|lia].
  unfold block_of. rewrite length_drop, Hl. do 3 f_equal. lia.
Qed.

Lemma repr_insert st h a c :
  zrepr st h -> blocks st !! a = None -> a <> -8 -> Z.of_nat (length c) + 16 <= 2 ^ 64 ->
  h !! (a + PREFIX_SIZE) = None /\
  zrepr (with_blocks st (<[a := block_of c]> (blocks st))
           (update_zmalloc_stat_alloc (used_memory st) (Z.of_nat (length c) + 8)))
        (<[a + PREFIX_SIZE := c]> h).
Proof.
  intros Hr Ha Ha8 Hc. assert (h !! (a + PREFIX_SIZE) = None) as Hp.
  { rewrite (zr_blocks _ _ Hr), <-(real_add a), (lookup_kmap real), lookup_fmap in Ha.
    by destruct (h !! (a + PREFIX_SIZE)). }
  split; [done|]. constructor; cbn [blocks used_memory with_blocks].
  - by rewrite fmap_insert, (kmap_insert real), real_add, (zr_blocks _ _ Hr).
  - unfold update_zmalloc_stat_alloc. rewrite pad_prefix, total_insert, (zr_used _ _ Hr) by (done || lia).
    unfold uwrap. rewrite Zplus_mod_idemp_l. f_equal. lia.
  - apply map_Forall_insert_2; [|apply Hr]. unfold PREFIX_SIZE. split; [lia|done].
Qed.

Lemma repr_delete st h p c :
  zrepr st h -> h !! p = Some c ->
  zrepr (with_blocks st (delete (p - PREFIX_SIZE) (blocks st))
           (update_zmalloc_stat_free (used_memory st) (Z.of_nat (length c) + 8)))
        (delete p h).
Proof.
  intros Hr Hp. pose proof (zr_sizes _ _ Hr p c Hp) as [_ Hs].
  constructor; cbn [blocks used_memory with_blocks].
  - by rewrite fmap_delete, (kmap_delete real), (zr_blocks _ _ Hr).
  - unfold update_zmalloc_stat_free. rewrite pad_prefix, (zr_used _ _ Hr), (total_delete _ _ _ Hp) by lia.
    unfold uwrap. rewrite Zminus_mod_idemp_l. f_equal. lia.
  - apply map_Forall_delete, Hr.
Qed.

Lemma hand_out_ok st h a content size :
  zrepr st h -> length content = Z.to_nat (size + 8) -> 0 <= size -> size + 16 <= 2 ^ 64 ->
  blocks st !! a = None -> a <> -8 ->
  exists st', hand_out st (Some a) content size = Ok (a + PREFIX_SIZE, st') /\
    h !! (a + PREFIX_SIZE) = None /\ zrepr st' (<[a + PREFIX_SIZE := drop 8 content]> h) /\
    zmalloc_oom_handler st' = zmalloc_oom_handler st.
Proof.
  intros Hr Hl Hs Hb Ha Ha8. unfold hand_out. rewrite memcpy_header by done. cbn [mbind outcome_bind].
  destruct (repr_insert st h a (drop 8 content) Hr Ha Ha8) as [Hp Hr']; [rewrite length_drop; lia|].
  eexists. split; [done|]. split_and!; [done| |done].
  rewrite length_drop, Hl in Hr'. unfold PREFIX_SIZE at 1. rewrite u64_small by lia.
  by replace (Z.of_nat (Z.to_nat (size + 8) - 8) + 8) with (size + 8) in Hr' by lia.
Qed.

(** Writing inside the user's part of a block. *)
Lemma poke_ok st h p c off src :
  zrepr st h -> h !! p = Some c -> 0 <= off -> off + Z.of_nat (length src) <= Z.of_nat (length c) ->
  exists st' c', poke st p off src = Ok st' /\ memcpy c off src = Ok c' /\ zrepr st' (<[p := c']> h) /\
    zmalloc_oom_handler st' = zmalloc_oom_handler st.
Proof.
  intros Hr Hp Ho Hl. unfold poke. rewrite (repr_block _ _ _ _ Hr Hp).
  set (c' := take (Z.to_nat off) c ++ src ++ drop (Z.to_nat off + length src) c).
  assert (length c' = length c) as Hlen by (unfold c'; rewrite !length_app, length_take, length_drop; lia).
  assert (memcpy c off src = Ok c') as E by (unfold memcpy; by decide_tests).
  assert (memcpy (block_of c) (PREFIX_SIZE + off) src = Ok (block_of c')) as ->.
  { unfold memcpy, PREFIX_SIZE, block_of. rewrite length_app, le_bytes_length. decide_tests. f_equal.
    rewrite Hlen. replace (Z.to_nat (8 + off)) with (8 + Z.to_nat off)%nat by lia.
    rewrite take_app_ge, drop_app_ge, le_bytes_length by (rewrite le_bytes_length; lia).
    rewrite <-app_assoc. do 2 f_equal; [f_equal; lia|]. do 2 f_equal. lia. }
  cbn [mbind outcome_bind]. exists (with_blocks st (<[p - PREFIX_SIZE := block_of c']> (blocks st)) (used_memory st)), c'.
  split_and!; [done|done| |done]. constructor; cbn [blocks used_memory with_blocks].
  - by rewrite fmap_insert, (kmap_insert real), (zr_blocks _ _ Hr).
  - rewrite (zr_used _ _ Hr), (total_delete h p c Hp), <-insert_delete_eq.
    rewrite total_insert, Hlen by apply lookup_delete_eq. done.
  - apply map_Forall_insert_2; [|apply Hr]. rewrite Hlen. apply (zr_sizes _ _ Hr p c Hp).
Qed.

(** ** Commands, and what they promise *)

Inductive zcmd :=
| ZMalloc (n : Z) | ZCalloc (n : Z) | ZRealloc (p n : Z) | ZFree (p : Z)
| ZPoke (p off : Z) (src : bytes) | ZStrdup (s : bytes).

Definition exec {C : CAlloc} (st : zstate) (c : zcmd) : outcome (Z * zstate) :=
  match c with
  | ZMalloc n => zmalloc st n
  | ZCalloc n => zcalloc st n
  | ZRealloc p n => zrealloc st p n
  | ZFree p => st' ← zfree st p; Ok (0, st')
  | ZPoke p off src => st' ← poke st p off src; Ok (0, st')
  | ZStrdup s => zstrdup st s
  end.

(** A request whose header and padding fit in [size_t]. *)
Definition sane (n : Z) : Prop := 0 <= n /\ n + 16 <= 2 ^ 64.

(** What a client may ask for when its live pointers are those of [h]. *)
Definition allowed (h : gmap Z bytes) (c : zcmd) : Prop :=
  match c with
  | ZMalloc n | ZCalloc n => sane n
  | ZRealloc p n => sane n /\ (p = 0 \/ is_Some (h !! p))
  | ZFree p => p = 0 \/ is_Some (h !! p)
  | ZPoke p off src => exists c, h !! p = Some c /\ 0 <= off /\ off + Z.of_nat (length src) <= Z.of_nat (length c)
  | ZStrdup s => exists k, strlen s = Ok k /\ sane (Z.of_nat k + 1)
  end.

(** A fresh pointer to [c]. *)
Definition handed (h : gmap Z bytes) (c : bytes) (p : Z) (h' : gmap Z bytes) : Prop :=
  p <> 0 /\ h !! p = None /\ h' = <[p := c]> h.

Definition promised (h : gmap Z bytes) (c : zcmd) (r : Z) (h' : gmap Z bytes) : Prop :=
  match c with
  | ZMalloc n => exists b, length b = Z.to_nat n /\ handed h b r h'
  | ZCalloc n => handed h (replicate (Z.to_nat n) 0) r h'
  | ZRealloc p n =>
      exists b, length b = Z.to_nat n /\ handed (delete p h) b r h' /\
        forall old, h !! p = Some old -> take (length old) b = take (length b) old
  | ZFree p => h' = delete p h
  | ZPoke p off src => exists b b', h !! p = Some b /\ memcpy b off src = Ok b' /\ h' = <[p := b']> h
  | ZStrdup s => handed h (cstr s ++ [0]) r h'
  end.

(** The C library refused the request. *)
Definition refused {C : CAlloc} (st : zstate) (c : zcmd) : Prop :=
  match c with
  | ZMalloc n | ZCalloc n => malloc_addr (blocks st) (n + 8) = None
  | ZRealloc p n =>
      if p =? 0 then malloc_addr (blocks st) (n + 8) = None
      else realloc_addr (blocks st) (p - 8) (n + 8) = None
  | ZStrdup s => malloc_addr (blocks st) (Z.of_nat (length (cstr s)) + 1 + 8) = None
  | _ => False
  end.

Section Refinement.
Context {C : CAlloc} {CL : CAllocLaws C}.
Implicit Types (st : zstate) (h : gmap Z bytes).

(** [zmalloc] and [zcalloc] with what the C library put in the block. *)
Lemma alloc_ok st h content n :
  zrepr st h -> sane n -> zmalloc_oom_handler st = zmalloc_default_oom -> length content = Z.to_nat (n + 8) ->
  let res := hand_out st (malloc_addr (blocks st) (n + 8)) content n in
  (exists p st' h', res = Ok (p, st') /\ handed h (drop 8 content) p h' /\ zrepr st' h' /\
     zmalloc_oom_handler st' = zmalloc_default_oom) \/
  (res = Trap Aborted /\ malloc_addr (blocks st) (n + 8) = None).
Proof.
  intros Hr [Hn Hb] Hoom Hl. cbv zeta. destruct (malloc_addr (blocks st) (n + 8)) as [a|] eqn:Ea.
  - left. destruct (malloc_fresh _ _ _ Ea) as [Hf H8].
    destruct (hand_out_ok st h a content n Hr Hl Hn Hb Hf H8) as (st' & -> & Hp & Hr' & Ho).
    eexists _, _, _. split_and!; [done| |exact Hr'|congruence].
    split_and!; [unfold PREFIX_SIZE; lia|done|done].
  - right. unfold hand_out. by rewrite Hoom.
Qed.

Lemma zmalloc_ok st h n :
  zrepr st h -> sane n -> zmalloc_oom_handler st = zmalloc_default_oom ->
  (exists p st' h' b, zmalloc st n = Ok (p, st') /\ length b = Z.to_nat n /\ handed h b p h' /\ zrepr st' h' /\
     zmalloc_oom_handler st' = zmalloc_default_oom) \/
  (zmalloc st n = Trap Aborted /\ malloc_addr (blocks st) (n + 8) = None).
Proof.
  intros Hr Hs Hoom. unfold zmalloc, PREFIX_SIZE. rewrite (u64_small (n + 8)) by (destruct Hs; lia).
  set (content := garbage <$> _). assert (length content = Z.to_nat (n + 8)) as Hl
    by (unfold content; by rewrite length_fmap, length_seq).
  destruct (alloc_ok st h content n Hr Hs Hoom Hl) as [(p & st' & h' & -> & Hh & Hr' & Ho)|[-> Hn]]; [left|by right].
  eexists p, st', h', _. split_and!; [done| |exact Hh|done|done]. rewrite length_drop. destruct Hs; lia.
Qed.

Lemma zcalloc_ok st h n :
  zrepr st h -> sane n -> zmalloc_oom_handler st = zmalloc_default_oom ->
  (exists p st' h', zcalloc st n = Ok (p, st') /\ handed h (replicate (Z.to_nat n) 0) p h' /\ zrepr st' h' /\
     zmalloc_oom_handler st' = zmalloc_default_oom) \/
  (zcalloc st n = Trap Aborted /\ malloc_addr (blocks st) (n + 8) = None).
Proof.
  intros Hr Hs Hoom. unfold zcalloc, PREFIX_SIZE. rewrite (u64_small (n + 8)) by (destruct Hs; lia).
  set (content := replicate _ 0). assert (length content = Z.to_nat (n + 8)) as Hl by apply length_replicate.
  pose proof (alloc_ok st h content n Hr Hs Hoom Hl) as Ha. unfold content in Ha at 2.
  rewrite drop_replicate in Ha. replace (Z.to_nat (n + 8) - 8)%nat with (Z.to_nat n) in Ha by (destruct Hs; lia).
  exact Ha.
Qed.

Lemma zfree_ok st h p :
  zrepr st h -> p = 0 \/ is_Some (h !! p) ->
  exists st', zfree st p = Ok st' /\ zrepr st' (delete p h) /\ zmalloc_oom_handler st' = zmalloc_oom_handler st.
Proof.
  intros Hr Hp. unfold zfree. destruct (Z.eqb_spec p 0) as [->|Hne].
  - exists st. rewrite delete_id; [done|]. destruct (h !! 0) as [c|] eqn:E; [|done].
    by destruct (zr_sizes _ _ Hr 0 c E).
  - destruct Hp as [->|[c Hc]]; [done|]. rewrite (header_ok _ _ _ _ Hr Hc). cbn [mbind outcome_bind fst].
    pose proof (zr_sizes _ _ Hr p c Hc) as [_ Hs]. unfold PREFIX_SIZE at 2. rewrite u64_small by lia.
    eexists. split_and!; [done|by apply repr_delete|done].
Qed.

(** The padded sizes with and without the header differ by 8. *)
Lemma realloc_used u a b :
  sane a -> sane b ->
  update_zmalloc_stat_alloc (update_zmalloc_stat_free u a) b =
  update_zmalloc_stat_alloc (update_zmalloc_stat_free u (a + 8)) (b + 8).
Proof.
  intros [Ha Ha'] [Hb Hb']. unfold update_zmalloc_stat_alloc, update_zmalloc_stat_free.
  rewrite !pad_prefix, !pad_eq by lia. unfold cost, uwrap. rewrite !Zplus_mod_idemp_l. f_equal. lia.
Qed.

(** What the C library's [realloc] leaves in the user's part. *)
Lemma moved_content n c g :
  length g = (n - length c)%nat ->
  let b := drop 8 (take (8 + n) (block_of c) ++ g) in
  length b = n /\ take (length c) b = take n c.
Proof.
  intros Hg. cbv zeta. unfold block_of. rewrite take_app_ge by (rewrite le_bytes_length; lia).
  rewrite le_bytes_length, <-app_assoc, drop_app_length' by (by rewrite le_bytes_length).
  replace (8 + n - 8)%nat with n by lia. split; [rewrite length_app, length_take; lia|].
  destruct (decide (n <= length c)%nat).
  - destruct g; [|simpl in Hg; lia]. rewrite app_nil_r, take_take. f_equal. lia.
  - rewrite !(take_ge c n), take_app_length by lia. done.
Qed.

Lemma zrealloc_ok st h p c n :
  zrepr st h -> sane n -> h !! p = Some c -> zmalloc_oom_handler st = zmalloc_default_oom ->
  (exists q st' h' b, zrealloc st p n = Ok (q, st') /\ length b = Z.to_nat n /\ handed (delete p h) b q h' /\
     take (length c) b = take (length b) c /\ zrepr st' h' /\ zmalloc_oom_handler st' = zmalloc_default_oom) \/
  (zrealloc st p n = Trap Aborted /\ realloc_addr (blocks st) (p - 8) (n + 8) = None).
Proof.
  intros Hr Hs Hp Hoom. destruct (zr_sizes _ _ Hr p c Hp) as [Hp0 Hc]. unfold zrealloc.
  replace (p =? 0) with false by lia. rewrite (header_ok _ _ _ _ Hr Hp). cbn [mbind outcome_bind].
  unfold PREFIX_SIZE. rewrite !(u64_small (n + 8)) by (destruct Hs; lia).
  destruct (realloc_addr _ _ _) as [a|] eqn:Ea; [left|right; by rewrite Hoom].
  replace (Z.to_nat (n + 8)) with (8 + Z.to_nat n)%nat by (destruct Hs; lia).
  set (g := garbage <$> _). assert (length g = (Z.to_nat n - length c)%nat) as Hg.
  { unfold g, block_of. rewrite length_fmap, length_seq, length_app, le_bytes_length. lia. }
  destruct (moved_content (Z.to_nat n) c g Hg) as [Hlb Htb]. set (moved := take _ _ ++ g) in *.
  assert (length moved = Z.to_nat (n + 8)) as Hlm.
  { unfold moved, block_of. rewrite length_app, length_take, length_app, le_bytes_length. destruct Hs; lia. }
  rewrite memcpy_header by (destruct Hs; done || lia). cbn [mbind outcome_bind].
  pose proof (repr_delete st h p c Hr Hp) as Hd. set (st1 := with_blocks st _ _) in Hd.
  assert (blocks st1 !! a = None /\ a <> -8) as [Hf Ha8].
  { unfold st1. cbn [blocks with_blocks]. unfold PREFIX_SIZE. destruct (realloc_fresh _ _ _ _ Ea) as [->|[Hf Ha8]].
    - split; [apply lookup_delete_eq|lia].
    - split; [|done]. destruct (decide (a = p - 8)) as [->|]; [apply lookup_delete_eq|by rewrite lookup_delete_ne]. }
  destruct (repr_insert st1 (delete p h) a (drop 8 moved) Hd Hf Ha8) as [Hq Hr']; [destruct Hs; lia|].
  eexists (a + 8), _, _, (drop 8 moved). split_and!; [done|done| |by rewrite Hlb| |done].
  - split_and!; [lia|done|reflexivity].
  - rewrite realloc_used by (done || split; lia). rewrite Hlb, Z2Nat.id in Hr' by (by destruct Hs). exact Hr'.
Qed.

Lemma strlen_split (s : bytes) k :
  strlen s = Ok k -> exists rest, s = cstr s ++ 0 :: rest /\ k = length (cstr s).
Proof.
  revert k. induction s as [|c s IH]; intros k; cbn [strlen cstr]; [done|].
  destruct (Z.eqb_spec c 0) as [->|Hc]; [intros [= <-]; by exists s|].
  destruct (strlen s) as [k'|]; [|done]. intros [= <-]. destruct (IH k' eq_refl) as (rest & E & ->).
  exists rest. cbn [app length]. by rewrite <-E.
Qed.

Lemma zstrdup_ok st h s k :
  zrepr st h -> strlen s = Ok k -> sane (Z.of_nat k + 1) -> zmalloc_oom_handler st = zmalloc_default_oom ->
  (exists p st' h', zstrdup st s = Ok (p, st') /\ handed h (cstr s ++ [0]) p h' /\ zrepr st' h' /\
     zmalloc_oom_handler st' = zmalloc_default_oom) \/
  (zstrdup st s = Trap Aborted /\ malloc_addr (blocks st) (Z.of_nat (length (cstr s)) + 1 + 8) = None).
Proof.
  intros Hr Hk Hs Hoom. unfold zstrdup. rewrite Hk. cbn [mbind outcome_bind].
  destruct (strlen_split s k Hk) as (rest & Es & ->).
  destruct (zmalloc_ok st h _ Hr Hs Hoom) as [(p & st1 & h1 & b & -> & Hlb & (Hp0 & Hp & ->) & Hr1 & Ho1)|[-> Hn]];
    [left|by right].
  cbn [mbind outcome_bind fst snd].
  assert (read_block s 0 (Z.of_nat (length (cstr s)) + 1) = Ok (cstr s ++ [0])) as ->.
  { rewrite Es at 1. rewrite (cons_middle 0), app_assoc.
    apply read_block_0. rewrite length_app. simpl. lia. }
  cbn [mbind outcome_bind].
  destruct (poke_ok st1 (<[p := b]> h) p b 0 (cstr s ++ [0]) Hr1) as (st2 & c' & -> & Ec & Hr2 & Ho2);
    [apply lookup_insert_eq|lia|rewrite length_app; simpl; lia|].
  rewrite memcpy_front, drop_ge, app_nil_r in Ec by (rewrite length_app; simpl; lia). injection Ec as <-.
  exists p, st2, (<[p := cstr s ++ [0]]> h). split_and!; [done|by split_and!| |congruence].
  by rewrite insert_insert_eq in Hr2.
Qed.

End Refinement.

(** ** The counter shared by threads

    A thread's pending updates of [used_memory] are the amounts still to add
    (an allocation) or subtract (a release).  With [zmalloc_thread_safe] an
    update is one atomic step; without it, it is the load and the store of
    [used_memory += _n]. *)

Record thread_state := mkT { t_todo : list Z; t_loaded : option Z }.

Record counter := mkCounter { c_safe : bool; c_used : Z; c_threads : list thread_state; c_done : list Z }.

Inductive cstep : counter -> counter -> Prop :=
| c_atomic u ts dn i d rest :
    ts !! i = Some (mkT (d :: rest) None) ->
    cstep (mkCounter true u ts dn) (mkCounter true (u64 (u + d)) (<[i := mkT rest None]> ts) (d :: dn))
| c_load u ts dn i d rest :
    ts !! i = Some (mkT (d :: rest) None) ->
    cstep (mkCounter false u ts dn) (mkCounter false u (<[i := mkT (d :: rest) (Some u)]> ts) dn)
| c_store u ts dn i d rest v :
    ts !! i = Some (mkT (d :: rest) (Some v)) ->
    cstep (mkCounter false u ts dn) (mkCounter false (u64 (v + d)) (<[i := mkT rest None]> ts) (d :: dn)).

Definition sumZ (l : list Z) : Z := foldr Z.add 0 l.

Definition pending (ts : list thread_state) : Z := sumZ ((fun t => sumZ (t_todo t)) <$> ts).

Lemma pending_cons t ts : pending (t :: ts) = sumZ (t_todo t) + pending ts.
Proof. done. Qed.

Lemma pending_insert ts i t t' :
  ts !! i = Some t -> pending (<[i := t']> ts) = pending ts - sumZ (t_todo t) + sumZ (t_todo t').
Proof.
  revert i. induction ts as [|x ts IH]; intros [|i]; [done..| |].
  - intros [= ->]. cbn [insert list_insert]. rewrite !pending_cons. lia.
  - intros Hi. change (<[S i := t']> (x :: ts)) with (x :: <[i := t']> ts). rewrite !pending_cons.
    rewrite (IH i Hi). lia.
Qed.

Lemma cost_nonneg n : 0 <= n -> 0 <= cost n.
Proof. intros. unfold cost. Z.to_euclidean_division_equations; lia. Qed.

Lemma total_nonneg h : 0 <= total h.
Proof.
  unfold total. rewrite map_fold_foldr. induction (map_to_list h) as [|[p c] l IH]; cbn; [lia|].
  pose proof (cost_nonneg (Z.of_nat (length c)) ltac:(lia)). lia.
Qed.

Lemma total_by_pointer h :
  total h = map_fold (fun p _ acc => cost (Z.of_nat (length (default [] (h !! p)))) + acc) 0 h.
Proof.
  unfold total. rewrite !map_fold_foldr.
  assert (Forall (fun '(p, c) => h !! p = Some c) (map_to_list h)) as Hall.
  { apply Forall_forall. intros [p c]. apply elem_of_map_to_list. }
  induction Hall as [|[p c] l Hp _ IH]; [done|]. cbn. rewrite Hp, IH. done.
Qed.

(** ** Properties *)

(** C23: The allocator keeps its contract: whatever a client does with live
    pointers, either the C library refuses memory and the program aborts, or the
    call returns and does what it promises (a fresh block of the requested size,
    zeroed by [zcalloc], with the common prefix kept by [zrealloc], the copy of
    the string by [zstrdup]; no other block changes), headers and
    [used_memory] stay consistent with the live blocks. *)
Theorem zmalloc_refines_heap {C : CAlloc} {CL : CAllocLaws C} st h c :
  zrepr st h -> zmalloc_oom_handler st = zmalloc_default_oom -> allowed h c ->
  (exists r st' h', exec st c = Ok (r, st') /\ promised h c r h' /\ zrepr st' h' /\
     zmalloc_oom_handler st' = zmalloc_default_oom) \/
  (exec st c = Trap Aborted /\ refused st c).
Proof.
  intros Hr Hoom. destruct c as [n|n|p n|p|p off src|s]; cbn [allowed exec promised refused].
  - intros Hs. destruct (zmalloc_ok st h n Hr Hs Hoom) as [(p & st' & h' & b & ? & ? & ? & ? & ?)|]; [left|by right].
    exists p, st', h'. eauto 6.
  - intros Hs. by apply zcalloc_ok.
  - intros [Hs Hp]. destruct (decide (p = 0)) as [->|Hne].
    + assert (h !! 0 = None) as H0.
      { destruct (h !! 0) as [c|] eqn:E; [|done]. by destruct (zr_sizes _ _ Hr 0 c E). }
      destruct (zmalloc_ok st h n Hr Hs Hoom) as [(p & st' & h' & b & ? & ? & ? & ? & ?)|]; [left|by right].
      exists p, st', h'. rewrite H0, delete_id by done. split_and!; [done| |done|done]. by exists b.
    + destruct Hp as [|[c Hc]]; [done|]. rewrite Hc. replace (p =? 0) with false by lia.
      destruct (zrealloc_ok st h p c n Hr Hs Hc Hoom) as [(q & st' & h' & b & ? & ? & ? & ? & ? & ?)|]; [left|by right].
      exists q, st', h'. split_and!; [done| |done|done]. exists b. split_and!; [done|done|]. by intros ? [= <-].
  - intros Hp. left. destruct (zfree_ok st h p Hr Hp) as (st' & -> & Hr' & Ho).
    eexists 0, st', _. split_and!; [done|done|done|congruence].
  - intros (c & Hc & H1 & H2). left. destruct (poke_ok st h p c off src Hr Hc H1 H2) as (st' & c' & -> & E & Hr' & Ho).
    eexists 0, st', _. split_and!; [done|by exists c, c'|done|congruence].
  - intros (k & Hk & Hs). by eapply zstrdup_ok.
Qed.

(** A C library that never refuses and never reuses an address. *)
Definition bump : CAlloc := {|
  malloc_addr h _ := Some (foldr Z.max 0 (map_to_list h).*1 + 16);
  realloc_addr h p _ := Some p;
  garbage _ := 170 |}.

Lemma bump_above (h : cheap) a : is_Some (h !! a) -> a <= foldr Z.max 0 (map_to_list h).*1.
Proof.
  intros [b Hb]. assert (a ∈ (map_to_list h).*1) as Hin.
  { apply list_elem_of_fmap. exists (a, b). split; [done|]. by apply elem_of_map_to_list. }
  revert Hin. generalize ((map_to_list h).*1). clear. intros l Hin. induction Hin; simpl in *; lia.
Qed.

Lemma bump_pos (h : cheap) : 0 <= foldr Z.max 0 (map_to_list h).*1.
Proof. generalize ((map_to_list h).*1). induction l; simpl; lia. Qed.

#[export] Instance bump_laws : CAllocLaws bump.
Proof.
  split; cbn.
  - intros h n a [= <-]. split.
    + destruct (h !! _) eqn:E; [|done]. pose proof (bump_above h _ (ex_intro _ _ E)). lia.
    + pose proof (bump_pos h). lia.
  - intros h p n a [= <-]. by left.
  - intros. unfold is_byte. lia.
Qed.

Lemma zrepr_init : zrepr zinit ∅.
Proof. split; cbn; [by rewrite fmap_empty, kmap_empty|done|apply map_Forall_empty]. Qed.

Lemma zmalloc_refines_heap_witness :
  (exists r st' h', exec (C := bump) zinit (ZStrdup (str "key" ++ [0])) = Ok (r, st') /\
     promised ∅ (ZStrdup (str "key" ++ [0])) r h' /\ zrepr st' h' /\
     zmalloc_oom_handler st' = zmalloc_default_oom) \/
  (exec (C := bump) zinit (ZStrdup (str "key" ++ [0])) = Trap Aborted /\
   refused (C := bump) zinit (ZStrdup (str "key" ++ [0]))).
Proof.
  apply (zmalloc_refines_heap (C := bump)); [apply zrepr_init|reflexivity|].
  exists 3%nat. split; [reflexivity|]. unfold sane. lia.
Defined.

(** The statistic is the sum of the block sizes: as long as the total fits
    in [size_t], [zmalloc_used_memory] is the sum of [zmalloc_size] over the
    live pointers. *)
Theorem used_memory_is_total_size st h :
  zrepr st h -> total h < 2 ^ 64 ->
  exists size, (forall p c, h !! p = Some c -> zmalloc_size st p = Ok (size p)) /\
    zmalloc_used_memory st = map_fold (fun p _ acc => size p + acc) 0 h.
Proof.
  intros Hr Ht. exists (fun p => cost (Z.of_nat (length (default [] (h !! p))))). split.
  - intros p c Hp. rewrite Hp. cbn [default]. unfold zmalloc_size. rewrite (header_ok _ _ _ _ Hr Hp).
    cbn [mbind outcome_bind fst]. destruct (zr_sizes _ _ Hr p c Hp) as [_ Hs].
    change (if Z.land ?n 7 =? 0 then _ else _) with (pad n). rewrite pad_eq by lia. f_equal.
    change (id c) with c. unfold cost, PREFIX_SIZE. apply u64_small. Z.to_euclidean_division_equations; lia.
  - unfold zmalloc_used_memory. rewrite (zr_used _ _ Hr), u64_small by (split; [apply total_nonneg|done]).
    apply total_by_pointer.
Qed.

Lemma used_memory_is_total_size_witness :
  exists size, (forall p c, (∅ : gmap Z bytes) !! p = Some c -> zmalloc_size zinit p = Ok (size p)) /\
    zmalloc_used_memory zinit = map_fold (fun p _ acc => size p + acc) 0 (∅ : gmap Z bytes).
Proof. apply used_memory_is_total_size; [apply zrepr_init|]. vm_compute. reflexivity. Defined.

(** With [zmalloc_thread_safe] set, the updates of any number of threads in
    any order are all counted. *)
Theorem thread_safe_counter ts c :
  rtc cstep (mkCounter true 0 ts []) c ->
  c_used c = u64 (sumZ (c_done c)) /\
  sumZ (c_done c) + sumZ ((fun t => sumZ (t_todo t)) <$> c_threads c) = sumZ ((fun t => sumZ (t_todo t)) <$> ts).
Proof.
  intros Hrun. assert (c_safe c = true /\ c_used c = u64 (sumZ (c_done c)) /\
    sumZ (c_done c) + pending (c_threads c) = pending ts) as (_ & ? & ?); [|done].
  revert c Hrun. apply rtc_ind_r; [done|]. intros c1 c2 _ Hst (Hsafe & Hu & Hsum). destruct Hst as [u l dn i d rest Hi| |]; [|done..].
  cbn [c_safe c_used c_done c_threads] in *. rewrite (pending_insert _ _ _ _ Hi).
  cbn [t_todo sumZ foldr]. split_and!; [done| |].
  - rewrite Hu. unfold uwrap. rewrite Zplus_mod_idemp_l. f_equal. unfold sumZ. lia.
  - unfold sumZ in *. cbn [foldr]. lia.
Qed.

Lemma thread_safe_counter_witness :
  u64 (8 + 16) = u64 (sumZ [8; 16]) /\
  sumZ [8; 16] + sumZ ((fun t => sumZ (t_todo t)) <$> [mkT [] None; mkT [] None]) =
  sumZ ((fun t => sumZ (t_todo t)) <$> [mkT [16] None; mkT [8] None]).
Proof.
  apply (thread_safe_counter [mkT [16] None; mkT [8] None]
           (mkCounter true (u64 (8 + 16)) [mkT [] None; mkT [] None] [8; 16])).
  eapply rtc_l; [by apply (c_atomic 0 _ [] 0 16 [])|].
  eapply rtc_l; [by apply (c_atomic _ _ [16] 1 8 [])|]. apply rtc_refl.
Defined.

(** Without [zmalloc_thread_safe] (which nothing in the program sets) two
    threads can lose an update: the counter ends below what was allocated. *)
Theorem unsafe_counter_loses_updates :
  exists c, rtc cstep (mkCounter false 0 [mkT [16] None; mkT [8] None] []) c /\
    Forall (fun t => t_todo t = []) (c_threads c) /\ c_used c < sumZ (c_done c).
Proof.
  eexists. split.
  - eapply rtc_l; [by apply (c_load 0 _ [] 0 16 [])|]. eapply rtc_l; [by apply (c_load 0 _ [] 1 8 [])|].
    eapply rtc_l; [by apply (c_store 0 _ [] 0 16 [] 0)|]. eapply rtc_l; [by apply (c_store _ _ _ 1 8 [] 0)|].
    apply rtc_refl.
  - split; [by repeat constructor|]. vm_compute. done.
Qed.
