(* ===== verification/Slice.v ===== *)
(** * slice.h: pointer and length into external storage

    A slice is the block its pointers point into, the offset of [data_] (the
    offset of [buffer_] is kept too) and [size_].  Reads outside the block
    trap.  The specification reads a slice as the bytes it refers to. *)

From S2P Require Import Prelude.

Record Slice := mkSlice {
  mem : bytes;        (** the storage the pointers point into *)
  buffer_ : Z;
  data_ : Z;
  size_ : Z }.

(** ** The code *)

(** The constructors: the empty string literal, a block and a length, a C string. *)
Definition empty_slice : Slice := mkSlice [0] 0 0 0.
Definition slice_of (d : bytes) (n : Z) : Slice := mkSlice d 0 0 n.
Definition slice_of_string (s : bytes) : Slice := mkSlice (s ++ [0]) 0 0 (Z.of_nat (length s)).
Definition slice_of_cstr (s : bytes) : outcome Slice :=
  n ← strlen s; Ok (mkSlice s 0 0 (Z.of_nat n)).

Definition size (x : Slice) : Z := size_ x.
Definition empty (x : Slice) : bool := size_ x =? 0.

(** [operator[]]: the assertion, then the load. *)
Definition at_index (x : Slice) (n : Z) : outcome Z :=
  guard_trap (n <? size_ x) AssertFailed (load (mem x) (data_ x + n)).

Definition clear (x : Slice) : Slice := empty_slice.

Definition remove_prefix (x : Slice) (n : Z) : outcome Slice :=
  guard_trap (n <=? size_ x) AssertFailed
    (Ok (mkSlice (mem x) (buffer_ x) (data_ x + n) (size_ x - n))).

(** [std::string(data_, size_)]. *)
Definition to_string (x : Slice) : outcome bytes := read_block (mem x) (data_ x) (size_ x).

(** [memcmp(x.data_, y.data_, n)] with a [size_t] count. *)
Definition slice_memcmp (x y : Slice) (n : Z) : outcome Z :=
  a ← read_block (mem x) (data_ x) n;
  b ← read_block (mem y) (data_ y) n;
  Ok (memcmp a b).

(** [compare]: the common length is an [int], converted back to [size_t] for [memcmp]. *)
Definition compare (x b : Slice) : outcome Z :=
  let min_len := s32 (if size_ x <? size_ b then size_ x else size_ b) in
  r ← slice_memcmp x b (u64 min_len);
  Ok (if r =? 0 then (if size_ x <? size_ b then -1 else if size_ b <? size_ x then 1 else r) else r).

Definition starts_with (s x : Slice) : outcome bool :=
  if size_ x <=? size_ s then r ← slice_memcmp s x (size_ x); Ok (r =? 0) else Ok false.

Definition slice_eq (x y : Slice) : outcome bool :=
  if size_ x =? size_ y then r ← slice_memcmp x y (size_ x); Ok (r =? 0) else Ok false.

Definition slice_neq (x y : Slice) : outcome bool := b ← slice_eq x y; Ok (negb b).

(** ** The bytes of a slice *)

(** [x] refers to the bytes [c] of its storage. *)
Definition denotes (x : Slice) (c : bytes) : Prop :=
  is_bytes c /\ size_ x = Z.of_nat (length c) /\
  exists pre rest, mem x = pre ++ c ++ rest /\ data_ x = Z.of_nat (length pre).

(** Lexicographic order on byte strings. *)
Fixpoint lex (a b : bytes) : Z :=
  match a, b with
  | [], [] => 0
  | [], _ => -1
  | _, [] => 1
  | x :: a, y :: b => if x <? y then -1 else if y <? x then 1 else lex a b
  end.

Lemma denotes_read x c n :
  denotes x c -> 0 <= n <= Z.of_nat (length c) ->
  read_block (mem x) (data_ x) n = Ok (take (Z.to_nat n) c).
Proof.
  intros (_ & _ & pre & rest & -> & ->) Hn. rewrite <-(take_drop (Z.to_nat n) c) at 1.
  rewrite <-app_assoc. apply read_block_app; [done|]. rewrite length_take. lia.
Qed.

Lemma denotes_memcmp x y a b n :
  denotes x a -> denotes y b -> 0 <= n <= Z.of_nat (length a) -> n <= Z.of_nat (length b) ->
  slice_memcmp x y n = Ok (memcmp (take (Z.to_nat n) a) (take (Z.to_nat n) b)).
Proof.
  intros Hx Hy Ha Hb. unfold slice_memcmp.
  by rewrite (denotes_read x a), (denotes_read y b) by (done || lia).
Qed.

Lemma lex_memcmp a b :
  lex a b = (let n := Nat.min (length a) (length b) in
             let r := memcmp (take n a) (take n b) in
             if r =? 0 then Z.sgn (Z.of_nat (length a) - Z.of_nat (length b)) else r).
Proof.
  cbv zeta. revert b. induction a as [|x a IH]; intros [|y b]; [done..|].
  cbn [lex length Nat.min take memcmp]. destruct (x <? y), (y <? x); [done..|].
  rewrite IH. replace (Z.of_nat (S (length a)) - Z.of_nat (S (length b)))
    with (Z.of_nat (length a) - Z.of_nat (length b)) by lia. done.
Qed.

Lemma lex_0 a b : lex a b = 0 <-> a = b.
Proof.
  revert b. induction a as [|x a IH]; intros [|y b]; cbn; [done..|].
  destruct (Z.ltb_spec x y), (Z.ltb_spec y x); [lia|split; [done|intros [= -> _]; lia]..|].
  rewrite IH. split; [intros ->; f_equal; lia|by intros [= _ ->]].
Qed.

Lemma lex_antisym a b : lex b a = - lex a b.
Proof.
  revert b. induction a as [|x a IH]; intros [|y b]; cbn; [done..|].
  destruct (Z.ltb_spec x y), (Z.ltb_spec y x); [lia|done|done|]. apply IH.
Qed.

Lemma lex_trans a b c : lex a b <= 0 -> lex b c <= 0 -> lex a c <= 0.
Proof.
  revert b c. induction a as [|x a IH]; intros [|y b] [|z c]; cbn; [lia..|].
  repeat (case_match; try lia). apply IH.
Qed.

Lemma memcmp_prefix a b : memcmp (take (length b) a) b = 0 -> (length b <= length a)%nat -> b `prefix_of` a.
Proof.
  intros H Hl. apply memcmp_0 in H; [|rewrite length_take; lia]. exists (drop (length b) a).
  by rewrite <-H at 1; rewrite take_drop.
Qed.

(** ** Properties *)

(** [compare] is the lexicographic order of the bytes the two slices refer
    to, for slices shorter than 2^31: zero exactly on equal contents,
    antisymmetric and transitive; [operator==] and [starts_with] decide
    equality and the prefix relation. *)
Theorem compare_is_lexicographic x y a b :
  denotes x a -> denotes y b -> Z.of_nat (length a) < 2 ^ 31 -> Z.of_nat (length b) < 2 ^ 31 ->
  compare x y = Ok (lex a b) /\ (lex a b = 0 <-> a = b) /\ lex b a = - lex a b /\
  (forall c, lex a b <= 0 -> lex b c <= 0 -> lex a c <= 0) /\
  slice_eq x y = Ok (bool_decide (a = b)) /\ starts_with x y = Ok (bool_decide (b `prefix_of` a)).
Proof.
  intros Hx Hy Ha Hb. pose proof (proj1 (proj2 Hx)) as Hsx. pose proof (proj1 (proj2 Hy)) as Hsy.
  split_and!; [|apply lex_0|apply lex_antisym|by intros; apply lex_trans with b|..].
  - unfold compare. rewrite Hsx, Hsy.
    assert ((if Z.of_nat (length a) <? Z.of_nat (length b) then Z.of_nat (length a) else Z.of_nat (length b)) =
            Z.of_nat (Nat.min (length a) (length b))) as -> by (case_match; lia).
    rewrite s32_small, u64_small, (denotes_memcmp x y a b), Nat2Z.id by (done || lia).
    cbn [mbind outcome_bind]. rewrite lex_memcmp. cbv zeta. f_equal.
    case_match; [|done]. destruct (Z.ltb_spec (Z.of_nat (length a)) (Z.of_nat (length b))); [lia|].
    destruct (Z.ltb_spec (Z.of_nat (length b)) (Z.of_nat (length a))); lia.
  - unfold slice_eq. rewrite Hsx, Hsy. destruct (Z.eqb_spec (Z.of_nat (length a)) (Z.of_nat (length b))) as [E|E].
    + rewrite (denotes_memcmp x y a b) by (done || lia). cbn [mbind outcome_bind]. f_equal.
      rewrite Nat2Z.id, firstn_all, take_ge by lia. destruct (bool_decide_reflect (a = b)) as [->|Hne].
      * by rewrite memcmp_refl.
      * apply Z.eqb_neq. intros H0. apply Hne, memcmp_0; [lia|done].
    + f_equal. symmetry. apply bool_decide_eq_false. by intros ->.
  - unfold starts_with. rewrite Hsx, Hsy. destruct (Z.leb_spec (Z.of_nat (length b)) (Z.of_nat (length a))) as [E|E].
    + rewrite (denotes_memcmp x y a b) by (done || lia). cbn [mbind outcome_bind]. f_equal.
      rewrite Nat2Z.id, firstn_all. destruct (bool_decide_reflect (b `prefix_of` a)) as [[t ->]|Hne].
      * by rewrite take_app_length, memcmp_refl.
      * apply Z.eqb_neq. intros H0. apply Hne, memcmp_prefix; [done|lia].
    + f_equal. symmetry. apply bool_decide_eq_false. intros H0%prefix_length. lia.
Qed.

Lemma slice_of_string_denotes s : is_bytes s -> denotes (slice_of_string s) s.
Proof. intros Hs. split_and!; [done|done|]. by exists [], [0]. Qed.

Lemma compare_is_lexicographic_witness :
  let x := slice_of_string (str "abc") in let y := slice_of_string (str "abd") in
  compare x y = Ok (lex (str "abc") (str "abd")) /\ (lex (str "abc") (str "abd") = 0 <-> str "abc" = str "abd") /\
  lex (str "abd") (str "abc") = - lex (str "abc") (str "abd") /\
  (forall c, lex (str "abc") (str "abd") <= 0 -> lex (str "abd") c <= 0 -> lex (str "abc") c <= 0) /\
  slice_eq x y = Ok (bool_decide (str "abc" = str "abd")) /\
  starts_with x y = Ok (bool_decide (str "abd" `prefix_of` str "abc")).
Proof.
  apply (compare_is_lexicographic (slice_of_string (str "abc")) (slice_of_string (str "abd")));
    [apply slice_of_string_denotes; decide_vm..|vm_compute; done|vm_compute; done].
Defined.

(** [remove_prefix] drops the first [n] bytes, a larger [n] fails the
    assertion, and [operator[]] reads the bytes in order. *)
Theorem remove_prefix_drops x c n :
  denotes x c -> 0 <= n ->
  match remove_prefix x n with
  | Ok x' => denotes x' (drop (Z.to_nat n) c) /\ to_string x' = Ok (drop (Z.to_nat n) c) /\
             forall i, 0 <= i < size x' -> at_index x' i = at_index x (n + i)
  | Trap t => t = AssertFailed /\ Z.of_nat (length c) < n
  end.
Proof.
  intros Hx Hn. pose proof (proj1 (proj2 Hx)) as Hs. unfold remove_prefix, guard_trap.
  destruct (Z.leb_spec n (size_ x)) as [Hle|]; [|split; [done|lia]].
  assert (denotes (mkSlice (mem x) (buffer_ x) (data_ x + n) (size_ x - n)) (drop (Z.to_nat n) c)) as Hd.
  { destruct Hx as (Hb & _ & pre & rest & Hm & Hp). split_and!; [by apply Forall_drop|cbn; rewrite length_drop; lia|].
    exists (pre ++ take (Z.to_nat n) c), rest. cbn [mem data_].
    rewrite Hm, <-app_assoc, (app_assoc (take _ c)), take_drop, length_app, length_take. split; [done|lia]. }
  split_and!; [done| |].
  - unfold to_string. rewrite (denotes_read _ _ _ Hd); destruct Hd as (_ & Hsz & _); rewrite Hsz; [|lia].
    by rewrite Nat2Z.id, firstn_all.
  - unfold size, at_index, guard_trap. cbn [size_ data_ mem]. intros i Hi. decide_tests. f_equal. lia.
Qed.

Lemma remove_prefix_drops_witness :
  match remove_prefix (slice_of_string (str "GET /")) 4 with
  | Ok x' => denotes x' (drop 4 (str "GET /")) /\ to_string x' = Ok (drop 4 (str "GET /")) /\
             forall i, 0 <= i < size x' -> at_index x' i = at_index (slice_of_string (str "GET /")) (4 + i)
  | Trap t => t = AssertFailed /\ Z.of_nat (length (str "GET /")) < 4
  end.
Proof. apply (remove_prefix_drops (slice_of_string (str "GET /"))); [apply slice_of_string_denotes; decide_vm|lia]. Defined.
