(* ===== verification/Status.v ===== *)
(** * status.cpp, status.h: error values

    A [Status] owns a heap block holding a length, a 16-bit code and a message,
    or null for success.  The blocks live in an explicit heap, so that copying,
    assignment (with its aliasing test) and destruction are the pointer
    operations of the code.  The specification is that a [Status] behaves as an
    immutable value. *)

From S2P Require Import Prelude Utils Slice.

Inductive Code :=
| kOk | kBadRequest | kUnauthorized | kForbidden | kNotFound | kUnknownMethod | kRequestTimeout
| kEntityTooLarge | kUnsupportedType | kTooManyRequests | kInternalError | kNotImplemented
| kServiceUnavailable | kServiceTimeout | kVersionNotSupported.

#[export] Instance Code_eq_dec : EqDecision Code.
Proof. solve_decision. Defined.

Definition code_value (c : Code) : Z :=
  match c with
  | kOk => 0 | kBadRequest => 400 | kUnauthorized => 401 | kForbidden => 403 | kNotFound => 404
  | kUnknownMethod => 405 | kRequestTimeout => 408 | kEntityTooLarge => 413 | kUnsupportedType => 415
  | kTooManyRequests => 429 | kInternalError => 500 | kNotImplemented => 501
  | kServiceUnavailable => 503 | kServiceTimeout => 504 | kVersionNotSupported => 505
  end.

(** The heap of [new char[]] blocks. *)
Record sheap := mkHeap { cells : gmap nat bytes; next_cell : nat }.

(** [state_]: null or a block. *)
Abbreviation Status := (option nat).

Definition new_block (h : sheap) (b : bytes) : nat * sheap :=
  (next_cell h, mkHeap (<[next_cell h := b]> (cells h)) (S (next_cell h))).

Definition deref (h : sheap) (p : nat) : outcome bytes :=
  match cells h !! p with Some b => Ok b | None => Trap UseAfterFree end.

(** [delete[] state_]: deleting null does nothing. *)
Definition delete_state (h : sheap) (s : Status) : outcome sheap :=
  match s with
  | None => Ok h
  | Some p => _ ← deref h p; Ok (mkHeap (delete p (cells h)) (next_cell h))
  end.

Section Code.
Context `{Allocator}.

(** ** The code *)

Definition CopyState (h : sheap) (state : nat) : outcome (nat * sheap) :=
  b ← deref h state;
  w ← read_block b 0 4;
  let size := le_val w in
  let result := fresh_bytes (Z.to_nat (u32 (size + 7))) in
  src ← read_block b 0 (u32 (size + 6));
  result ← memcpy result 0 src;
  result ← store result (u32 (size + 6)) 0;
  Ok (new_block h result).

(** The private constructor. *)
Definition new_Status (h : sheap) (code : Code) (msg msg2 : Slice) : outcome (Status * sheap) :=
  guard_trap (negb (bool_decide (code = kOk))) AssertFailed (
  let len1 := u32 (Slice.size msg) in
  let len2 := u32 (Slice.size msg2) in
  let size := u32 (len1 + (if len2 =? 0 then 0 else u32 (2 + len2))) in
  let result := fresh_bytes (Z.to_nat (u32 (size + 7))) in
  result ← memcpy result 0 (le_bytes 4 size);
  result ← memcpy result 4 (le_bytes 2 (u16 (code_value code)));
  m1 ← read_block (mem msg) (data_ msg) len1;
  result ← memcpy result 6 m1;
  result ← (if len2 =? 0 then Ok result else
            result ← store result (u32 (6 + len1)) 58;
            result ← store result (u32 (7 + len1)) 32;
            m2 ← read_block (mem msg2) (data_ msg2) len2;
            memcpy result (8 + len1) m2);
  result ← store result (u32 (size + 6)) 0;
  let '(p, h) := new_block h result in
  Ok (Some p, h)).

(** The public factories; a missing [msg2] is the empty slice. *)
Definition BadRequest (h : sheap) := new_Status h kBadRequest.
Definition Unauthorized (h : sheap) := new_Status h kUnauthorized.
Definition Forbidden (h : sheap) := new_Status h kForbidden.
Definition NotFound (h : sheap) := new_Status h kNotFound.
Definition UnknownMethod (h : sheap) := new_Status h kUnknownMethod.
Definition RequestTimeout (h : sheap) := new_Status h kRequestTimeout.
Definition EntityTooLarge (h : sheap) := new_Status h kEntityTooLarge.
Definition UnsupportedType (h : sheap) := new_Status h kUnsupportedType.
Definition TooManyRequest (h : sheap) := new_Status h kTooManyRequests.
Definition InternalError (h : sheap) := new_Status h kInternalError.
Definition NotImplemented (h : sheap) := new_Status h kNotImplemented.
Definition ServiceUnavailable (h : sheap) := new_Status h kServiceUnavailable.
Definition ServiceTimeout (h : sheap) := new_Status h kServiceTimeout.
Definition VersionNotSupported (h : sheap) := new_Status h kVersionNotSupported.

(** [Status()], [Status::OK()]. *)
Definition OK : Status := None.

(** The copy constructor. *)
Definition copy_Status (h : sheap) (s : Status) : outcome (Status * sheap) :=
  match s with
  | None => Ok (None, h)
  | Some p => r ← CopyState h p; Ok (Some (fst r), snd r)
  end.

(** [operator=]: the new [state_] of the assigned object. *)
Definition assign (h : sheap) (this s : Status) : outcome (Status * sheap) :=
  if bool_decide (this = s) then Ok (this, h) else
  h ← delete_state h this;
  copy_Status h s.

Definition code (h : sheap) (s : Status) : outcome Z :=
  match s with
  | None => Ok (code_value kOk)
  | Some p => b ← deref h p; w ← read_block b 4 2; Ok (le_val w)
  end.

Definition ok (s : Status) : bool := match s with None => true | Some _ => false end.

Definition is_code (c : Code) (h : sheap) (s : Status) : outcome bool :=
  v ← code h s; Ok (v =? code_value c).
Definition isBadRequest := is_code kBadRequest.
Definition isForbidden := is_code kForbidden.
Definition isNotFound := is_code kNotFound.
Definition isUnknownMethod := is_code kUnknownMethod.
Definition isEntityTooLarge := is_code kEntityTooLarge.
Definition isUnsupportedType := is_code kUnsupportedType.
Definition isInternalError := is_code kInternalError.
Definition isVersionNotSupported := is_code kVersionNotSupported.

(** The [switch] of [toString]. *)
Definition type_text (c : Z) : outcome bytes :=
  if c =? 0 then Ok (str "OK")
  else if c =? 400 then Ok (str "Bad Request: ")
  else if c =? 401 then Ok (str "Unauthorized: ")
  else if c =? 403 then Ok (str "Forbidden: ")
  else if c =? 404 then Ok (str "Not Found: ")
  else if c =? 405 then Ok (str "Unknown Method: ")
  else if c =? 408 then Ok (str "Request Timeout: ")
  else if c =? 413 then Ok (str "Entity Too Large: ")
  else if c =? 415 then Ok (str "Unsupported Type: ")
  else if c =? 429 then Ok (str "Too Many Requests: ")
  else if c =? 500 then Ok (str "Internal Error: ")
  else if c =? 501 then Ok (str "Not Implemented: ")
  else if c =? 503 then Ok (str "Service Unavailable: ")
  else if c =? 504 then Ok (str "Service Timeout: ")
  else if c =? 505 then Ok (str "Version Not Supported: ")
  else d ← ll_text c; Ok (str "Unknown code(" ++ d ++ str "): ").

Definition toString (h : sheap) (s : Status) : outcome bytes :=
  match s with
  | None => Ok (str "OK")
  | Some p =>
      c ← code h s;
      result ← type_text c;
      b ← deref h p;
      w ← read_block b 0 4;
      m ← read_block b 6 (le_val w);
      Ok (result ++ m)
  end.

End Code.

(** ** The contents of a block *)

Definition state_block (c : Z) (m : bytes) : bytes :=
  le_bytes 4 (Z.of_nat (length m)) ++ le_bytes 2 c ++ m ++ [0].

(** "message: detail". *)
Definition message (m1 m2 : bytes) : bytes :=
  m1 ++ match m2 with [] => [] | _ => str ": " ++ m2 end.

Definition small_message (m : bytes) : Prop := Z.of_nat (length m) + 7 < 2 ^ 32.

Lemma state_block_length c m : length (state_block c m) = (length m + 7)%nat.
Proof. unfold state_block. rewrite !length_app, !le_bytes_length. simpl. lia. Qed.

Lemma state_block_size c m :
  small_message m -> exists w, read_block (state_block c m) 0 4 = Ok w /\ le_val w = Z.of_nat (length m).
Proof.
  intros Hm. eexists. split; [by apply read_block_0|]. rewrite le_val_bytes. apply Z.mod_small.
  unfold small_message in Hm. change (8 * Z.of_nat 4) with 32. lia.
Qed.

Lemma state_block_code c m :
  0 <= c < 2 ^ 16 -> exists w, read_block (state_block c m) 4 2 = Ok w /\ le_val w = c.
Proof.
  intros Hc. eexists. split; [by apply read_block_app|]. rewrite le_val_bytes. by apply Z.mod_small.
Qed.

Lemma state_block_message c m : read_block (state_block c m) 6 (Z.of_nat (length m)) = Ok m.
Proof.
  unfold state_block. rewrite app_assoc. apply read_block_app; [|done].
  by rewrite length_app, !le_bytes_length.
Qed.

(** Filling a block from left to right. *)
Lemma memcpy_after (pre rest src : bytes) i :
  i = Z.of_nat (length pre) -> (length src <= length rest)%nat ->
  memcpy (pre ++ rest) i src = Ok ((pre ++ src) ++ drop (length src) rest).
Proof.
  intros Hi Hl. rewrite <-(take_drop (length src) rest) at 1. rewrite <-app_assoc.
  apply memcpy_app; [done|]. rewrite length_take. lia.
Qed.

Lemma store_after (pre rest : bytes) i b :
  i = Z.of_nat (length pre) -> (1 <= length rest)%nat ->
  store (pre ++ rest) i b = Ok ((pre ++ [b]) ++ drop 1 rest).
Proof.
  intros Hi Hl. destruct rest as [|x rest]; [simpl in Hl; lia|]. cbn [drop]. rewrite <-app_assoc.
  by apply store_app.
Qed.

Section Facts.
Context `{Allocator}.

Lemma CopyState_ok h p c m :
  cells h !! p = Some (state_block c m) -> small_message m ->
  CopyState h p = Ok (new_block h (state_block c m)).
Proof.
  intros Hp Hm. unfold CopyState, deref. rewrite Hp. cbn [mbind outcome_bind].
  destruct (state_block_size c m Hm) as (w & -> & Hw). cbn [mbind outcome_bind]. rewrite Hw.
  unfold small_message in Hm. rewrite !u32_small by lia. set (n := Z.of_nat (length m)).
  set (body := le_bytes 4 n ++ le_bytes 2 c ++ m).
  assert (state_block c m = body ++ [0]) as -> by (unfold state_block, body, n; by rewrite <-!app_assoc).
  assert (Hbl : Z.of_nat (length body) = n + 6) by (unfold body, n; rewrite !length_app, !le_bytes_length; lia).
  rewrite read_block_0 by lia. cbn [mbind outcome_bind].
  rewrite memcpy_front by (rewrite fresh_bytes_length; lia). cbn [mbind outcome_bind].
  rewrite store_after by (rewrite ?length_drop, ?fresh_bytes_length; lia). cbn [mbind outcome_bind].
  rewrite drop_drop, drop_ge, app_nil_r; [done|]. rewrite fresh_bytes_length. lia.
Qed.

Lemma new_Status_ok h c msg msg2 m1 m2 :
  c <> kOk -> denotes msg m1 -> denotes msg2 m2 -> small_message (message m1 m2) ->
  new_Status h c msg msg2 =
  let '(p, h') := new_block h (state_block (code_value c) (message m1 m2)) in Ok (Some p, h').
Proof.
  intros Hc H1 H2 Hm. unfold new_Status. rewrite bool_decide_eq_false_2 by done. cbn [negb guard_trap].
  pose proof (proj1 (proj2 H1)) as Hs1. pose proof (proj1 (proj2 H2)) as Hs2. unfold Slice.size.
  unfold small_message in Hm. set (M := message m1 m2) in *.
  assert (length M = length m1 + match m2 with [] => 0 | _ => 2 + length m2 end)%nat as HM
    by (unfold M, message; rewrite length_app; by destruct m2).
  assert (Hl1 : u32 (size_ msg) = Z.of_nat (length m1)) by (rewrite Hs1; apply u32_small; lia).
  assert (Hl2 : u32 (size_ msg2) = Z.of_nat (length m2)) by (rewrite Hs2; apply u32_small; destruct m2; cbn [length] in *; lia).
  rewrite Hl1, Hl2. cbv zeta.
  assert (u32 (Z.of_nat (length m1) + (if Z.of_nat (length m2) =? 0 then 0 else u32 (2 + Z.of_nat (length m2)))) =
          Z.of_nat (length M)) as ->.
  { destruct m2 as [|x m2]; cbn [length] in *; decide_tests; [rewrite u32_small; lia|].
    rewrite (u32_small (2 + _)), u32_small by lia. lia. }
  rewrite !(u32_small (Z.of_nat (length M) + _)) by lia. set (F := fresh_bytes _).
  assert (HF : length F = (length M + 7)%nat) by (unfold F; rewrite fresh_bytes_length; lia).
  assert (u16 (code_value c) = code_value c) as -> by (by destruct c).
  rewrite memcpy_front by (rewrite le_bytes_length; lia). cbn [mbind outcome_bind].
  rewrite memcpy_after by (rewrite ?length_drop, ?le_bytes_length; done || lia). cbn [mbind outcome_bind].
  rewrite (denotes_read msg m1 _ H1), Nat2Z.id, firstn_all by lia. cbn [mbind outcome_bind].
  rewrite memcpy_after by (rewrite ?length_app, ?length_drop, ?le_bytes_length; done || lia). cbn [mbind outcome_bind].
  rewrite !le_bytes_length, !drop_drop. unfold state_block.
  set (hdr := le_bytes 4 (Z.of_nat (length M)) ++ le_bytes 2 (code_value c)).
  assert (Hh : length hdr = 6%nat) by (unfold hdr; by rewrite length_app, !le_bytes_length).
  assert (le_bytes 4 (Z.of_nat (length M)) ++ le_bytes 2 (code_value c) ++ M ++ [0] = hdr ++ M ++ [0]) as ->
    by (unfold hdr; by rewrite <-app_assoc).
  destruct m2 as [|x m2]; cbn [length] in *; decide_tests; cbn [mbind outcome_bind].
  - rewrite store_after by (rewrite ?length_app, ?length_drop; lia). cbn [mbind outcome_bind].
    rewrite drop_drop, drop_ge, app_nil_r by lia. unfold M, message. by rewrite <-!app_assoc.
  - rewrite !u32_small by lia. rewrite (denotes_read msg2 (x :: m2) _ H2), Nat2Z.id by (cbn [length]; lia).
    rewrite take_ge by done.
    rewrite store_after by (rewrite ?length_app, ?length_drop; lia). cbn [mbind outcome_bind].
    rewrite store_after by (rewrite ?length_app, ?length_drop; cbn [length]; lia). cbn [mbind outcome_bind].
    rewrite memcpy_after by (rewrite ?length_app, ?length_drop; cbn [length]; lia). cbn [mbind outcome_bind].
    rewrite store_after by (rewrite ?length_app, ?length_drop; cbn [length]; lia). cbn [mbind outcome_bind].
    rewrite !drop_drop, drop_ge, app_nil_r by (cbn [length]; lia). unfold M, message.
    rewrite <-!app_assoc. done.
Qed.

End Facts.

(** ** Programs over [Status] variables *)

Record sstate := mkS { s_vars : gmap nat Status; s_heap : sheap }.

Inductive scmd :=
| SOk (x : nat)                                       (** [Status x;] *)
| SNew (x : nat) (c : Code) (msg msg2 : Slice)        (** [Status x = Status::NotFound(msg, msg2);] *)
| SCopy (x y : nat)                                   (** [Status x(y);] *)
| SAssign (x y : nat)                                 (** [x = y;] *)
| SDestroy (x : nat).                                 (** the end of the life of [x] *)

Definition var (st : sstate) (x : nat) : outcome Status :=
  match s_vars st !! x with Some s => Ok s | None => Trap UseAfterFree end.

Definition srun `{Allocator} (st : sstate) (c : scmd) : outcome sstate :=
  match c with
  | SOk x => Ok (mkS (<[x := OK]> (s_vars st)) (s_heap st))
  | SNew x c msg msg2 =>
      r ← new_Status (s_heap st) c msg msg2; Ok (mkS (<[x := fst r]> (s_vars st)) (snd r))
  | SCopy x y =>
      s ← var st y; r ← copy_Status (s_heap st) s; Ok (mkS (<[x := fst r]> (s_vars st)) (snd r))
  | SAssign x y =>
      this ← var st x; s ← var st y; r ← assign (s_heap st) this s;
      Ok (mkS (<[x := fst r]> (s_vars st)) (snd r))
  | SDestroy x => s ← var st x; h ← delete_state (s_heap st) s; Ok (mkS (delete x (s_vars st)) h)
  end.

(** The value of a status: success, or a code and a message. *)
Abbreviation sval := (option (Z * bytes)).

(** New variables are new names; the others are alive. *)
Definition sallowed (a : gmap nat sval) (c : scmd) : Prop :=
  match c with
  | SOk x => a !! x = None
  | SNew x c msg msg2 => a !! x = None /\ c <> kOk /\
      exists m1 m2, denotes msg m1 /\ denotes msg2 m2 /\ small_message (message m1 m2)
  | SCopy x y => a !! x = None /\ is_Some (a !! y)
  | SAssign x y => is_Some (a !! x) /\ is_Some (a !! y)
  | SDestroy x => is_Some (a !! x)
  end.

(** What the program does to the values. *)
Definition svalue (a : gmap nat sval) (c : scmd) (a' : gmap nat sval) : Prop :=
  match c with
  | SOk x => a' = <[x := None]> a
  | SNew x c msg msg2 => exists m1 m2, denotes msg m1 /\ denotes msg2 m2 /\
      a' = <[x := Some (code_value c, message m1 m2)]> a
  | SCopy x y | SAssign x y => exists v, a !! y = Some v /\ a' = <[x := v]> a
  | SDestroy x => a' = delete x a
  end.

(** A variable's pointer holds its value. *)
Definition holds (h : sheap) (s : Status) (v : sval) : Prop :=
  match s, v with
  | None, None => True
  | Some p, Some (c, m) => cells h !! p = Some (state_block c m) /\ small_message m /\ 0 < c < 2 ^ 16
  | _, _ => False
  end.

(** Every block is owned by exactly one variable. *)
Record owned (st : sstate) (a : gmap nat sval) : Prop := mkOwned {
  ow_dom x : s_vars st !! x = None <-> a !! x = None;
  ow_val x s v : s_vars st !! x = Some s -> a !! x = Some v -> holds (s_heap st) s v;
  ow_unique x y p : s_vars st !! x = Some (Some p) -> s_vars st !! y = Some (Some p) -> x = y;
  ow_leak p b : cells (s_heap st) !! p = Some b -> exists x, s_vars st !! x = Some (Some p);
  ow_next p b : cells (s_heap st) !! p = Some b -> (p < next_cell (s_heap st))%nat }.

Section Values.
Context `{Allocator}.

Lemma owned_lookup st a x v :
  owned st a -> a !! x = Some v -> exists s, s_vars st !! x = Some s /\ holds (s_heap st) s v.
Proof.
  intros Ho Hx. destruct (s_vars st !! x) as [s|] eqn:E; [exists s; split; [done|by eapply ow_val]|].
  apply (ow_dom _ _ Ho) in E. congruence.
Qed.

(** The end of a variable frees its block and no other. *)
Lemma owned_delete st a x v :
  owned st a -> a !! x = Some v ->
  exists s h, var st x = Ok s /\ delete_state (s_heap st) s = Ok h /\
    owned (mkS (delete x (s_vars st)) h) (delete x a) /\ next_cell h = next_cell (s_heap st) /\
    (forall y s' w, y <> x -> s_vars st !! y = Some s' -> a !! y = Some w -> holds h s' w).
Proof.
  intros Ho Hx. destruct (owned_lookup _ _ _ _ Ho Hx) as (s & Hs & Hh). exists s.
  set (h := match s with None => s_heap st | Some p => mkHeap (delete p (cells (s_heap st))) (next_cell (s_heap st)) end).
  exists h. assert (Hother : forall y s' w, y <> x -> s_vars st !! y = Some s' -> a !! y = Some w -> holds h s' w).
  { intros y s' w Hne Hy Hw. pose proof (ow_val _ _ Ho y s' w Hy Hw) as Hv.
    destruct s as [p|]; [|done]. destruct s' as [q|], w as [[c m]|]; [|done..]. cbn in *.
    rewrite lookup_delete_ne; [done|]. intros <-. by apply Hne, (ow_unique _ _ Ho y x p). }
  unfold var. rewrite Hs. split_and!; [done| | |by destruct s|done].
  - unfold delete_state, deref, h. destruct s as [p|]; [|done]. destruct v as [[c m]|]; [|done].
    cbn in Hh. by destruct Hh as [-> _].
  - constructor; cbn [s_vars s_heap].
    + intros y. destruct (decide (y = x)) as [->|]; [by rewrite !lookup_delete_eq|].
      rewrite !lookup_delete_ne by done. apply (ow_dom _ _ Ho).
    + intros y s' w Hy Hw. apply lookup_delete_Some in Hy as [? ?], Hw as [_ ?]. eauto.
    + intros y z p Hy Hz. apply lookup_delete_Some in Hy as [_ ?], Hz as [_ ?]. by eapply ow_unique.
    + intros p b Hp. assert (cells (s_heap st) !! p = Some b /\ s <> Some p) as [Hp' Hne].
      { unfold h in Hp. destruct s as [q|]; [|by split]. cbn in Hp. apply lookup_delete_Some in Hp as [? ?].
        split; [done|]. by intros [= ->]. }
      destruct (ow_leak _ _ Ho p b Hp') as [y Hy]. exists y. rewrite lookup_delete_ne; [done|]. congruence.
    + intros p b Hp. unfold h in *. destruct s as [q|]; cbn in *; [apply lookup_delete_Some in Hp as [_ Hp]|];
        by eapply (ow_next _ _ Ho).
Qed.

(** A variable set to success. *)
Lemma owned_ok st a x :
  owned st a -> a !! x = None -> owned (mkS (<[x := None]> (s_vars st)) (s_heap st)) (<[x := None]> a).
Proof.
  intros Ho Hx. apply (ow_dom _ _ Ho) in Hx as Hx'. constructor; cbn [s_vars s_heap].
  - intros y. destruct (decide (x = y)) as [->|]; [by rewrite !lookup_insert_eq|].
    rewrite !lookup_insert_ne by done. apply (ow_dom _ _ Ho).
  - intros y s w. destruct (decide (x = y)) as [->|]; [rewrite !lookup_insert_eq; by intros [= <-] [= <-]|].
    rewrite !lookup_insert_ne by done. apply (ow_val _ _ Ho).
  - intros y z p Hy Hz. apply lookup_insert_Some in Hy as [[_ ?]|[_ ?]], Hz as [[_ ?]|[_ ?]]; [done..|].
    by eapply ow_unique.
  - intros p b Hp. destruct (ow_leak _ _ Ho p b Hp) as [y Hy]. exists y. rewrite lookup_insert_ne; [done|congruence].
  - apply (ow_next _ _ Ho).
Qed.

(** A variable set to a new block. *)
Lemma owned_new st a x c m :
  owned st a -> a !! x = None -> small_message m -> 0 < c < 2 ^ 16 ->
  let '(p, h) := new_block (s_heap st) (state_block c m) in
  owned (mkS (<[x := Some p]> (s_vars st)) h) (<[x := Some (c, m)]> a).
Proof.
  intros Ho Hx Hm Hc. apply (ow_dom _ _ Ho) in Hx as Hx'. unfold new_block.
  set (n := next_cell (s_heap st)). assert (cells (s_heap st) !! n = None) as Hn.
  { destruct (cells (s_heap st) !! n) eqn:E; [|done]. apply (ow_next _ _ Ho) in E. unfold n in E. lia. }
  assert (Hold : forall y, s_vars st !! y <> Some (Some n)).
  { intros y Hy. destruct (a !! y) as [v|] eqn:Ea; [|apply (ow_dom _ _ Ho) in Ea; congruence].
    pose proof (ow_val _ _ Ho _ _ _ Hy Ea) as Hv. destruct v as [[c' m']|]; [|done]. cbn in Hv.
    rewrite Hn in Hv. by destruct Hv. }
  constructor; cbn [s_vars s_heap cells next_cell].
  - intros y. destruct (decide (x = y)) as [->|]; [by rewrite !lookup_insert_eq|].
    rewrite !lookup_insert_ne by done. apply (ow_dom _ _ Ho).
  - intros y s w. destruct (decide (x = y)) as [->|].
    + rewrite !lookup_insert_eq. intros [= <-] [= <-]. cbn. by rewrite lookup_insert_eq.
    + rewrite !lookup_insert_ne by done. intros Hy Hw. pose proof (ow_val _ _ Ho _ _ _ Hy Hw) as Hv.
      destruct s as [q|], w as [[c' m']|]; [|done..]. cbn in *. rewrite lookup_insert_ne; [done|].
      intros <-. by destruct (Hold y).
  - intros y z p Hy Hz. apply lookup_insert_Some in Hy as [[? E]|[? Hy]], Hz as [[? E']|[? Hz]]; [congruence| | |].
    + injection E as <-. by destruct (Hold z).
    + injection E' as <-. by destruct (Hold y).
    + by eapply ow_unique.
  - intros p b Hp. apply lookup_insert_Some in Hp as [[<- _]|[_ Hp]]; [exists x; by rewrite lookup_insert_eq|].
    destruct (ow_leak _ _ Ho p b Hp) as [y Hy]. exists y. rewrite lookup_insert_ne; [done|congruence].
  - intros p b Hp. apply lookup_insert_Some in Hp as [[<- _]|[_ Hp]]; [lia|].
    apply (ow_next _ _ Ho) in Hp. unfold n. lia.
Qed.

(** Copying a live value into a new variable. *)
Lemma owned_copy st a x s v :
  owned st a -> a !! x = None -> holds (s_heap st) s v ->
  exists s' h, copy_Status (s_heap st) s = Ok (s', h) /\ owned (mkS (<[x := s']> (s_vars st)) h) (<[x := v]> a).
Proof.
  intros Ho Hx Hh. destruct s as [p|], v as [[c m]|]; cbn in Hh; try done.
  - destruct Hh as (Hp & Hm & Hc). cbn [copy_Status]. rewrite (CopyState_ok _ _ _ _ Hp Hm).
    pose proof (owned_new st a x c m Ho Hx Hm Hc) as Hn. destruct (new_block _ _) as [q h].
    cbn [mbind outcome_bind fst snd]. eauto.
  - eexists None, _. split; [done|]. by apply owned_ok.
Qed.

End Values.

(** ** Properties *)

(** A [Status] is a value: in any program that constructs, copies, assigns
    (also to itself) and destroys status variables, no operation fails, each
    variable holds the value the program text says, and every block is owned by
    exactly one live variable: nothing leaks and nothing is freed twice. *)
Theorem status_is_value `{Allocator} st a c :
  owned st a -> sallowed a c ->
  exists st' a', srun st c = Ok st' /\ svalue a c a' /\ owned st' a'.
Proof.
  intros Ho. destruct c as [x|x c msg msg2|x y|x y|x]; cbn [sallowed srun svalue].
  - intros Hx. eexists _, _. split_and!; [done|done|]. by apply owned_ok.
  - intros (Hx & Hc & m1 & m2 & H1 & H2 & Hm). rewrite (new_Status_ok _ c msg msg2 m1 m2) by done.
    pose proof (owned_new st a x (code_value c) _ Ho Hx Hm ltac:(by destruct c)) as Hn.
    destruct (new_block _ _) as [p h]. cbn [mbind outcome_bind fst snd]. eexists _, _. split_and!; [done| |exact Hn].
    by exists m1, m2.
  - intros [Hx [v Hy]]. destruct (owned_lookup _ _ _ _ Ho Hy) as (s & Hs & Hh). unfold var. rewrite Hs.
    cbn [mbind outcome_bind]. destruct (owned_copy st a x s v Ho Hx Hh) as (s' & h & -> & Ho').
    cbn [mbind outcome_bind fst snd]. eexists _, _. split_and!; [done|by exists v|done].
  - intros [[vx Hx] [v Hy]]. destruct (owned_lookup _ _ _ _ Ho Hx) as (this & Ht & Hht).
    destruct (owned_lookup _ _ _ _ Ho Hy) as (s & Hs & Hh).
    destruct (owned_delete st a x vx Ho Hx) as (this' & h & Hv & Hd & Ho' & _ & Hother).
    unfold var in *. rewrite Ht in Hv. injection Hv as <-. rewrite Ht, Hs. cbn [mbind outcome_bind]. unfold assign.
    destruct (bool_decide_reflect (this = s)) as [->|Hne].
    + cbn [mbind outcome_bind fst snd]. assert (vx = v) as <-.
      { destruct s as [p|], vx, v; cbn in *; try done.
        assert (x = y) as -> by (by apply (ow_unique _ _ Ho x y p)). congruence. }
      exists st, a. split_and!; [|exists vx; by rewrite insert_id|done]. rewrite insert_id by done. by destruct st.
    + rewrite Hd. cbn [mbind outcome_bind]. assert (Hxy : y <> x) by congruence.
      destruct (owned_copy _ _ x s v Ho' (lookup_delete_eq _ _) (Hother y s v Hxy Hs Hy)) as (s' & h' & Hcp & Ho2).
      cbn [s_heap] in Hcp. rewrite Hcp. cbn [mbind outcome_bind fst snd s_vars] in *.
      eexists _, _. split_and!; [done|by exists v|]. by rewrite !insert_delete_eq in Ho2.
  - intros [v Hx]. destruct (owned_delete st a x v Ho Hx) as (s & h & -> & Hd & Ho' & _ & _).
    cbn [mbind outcome_bind]. rewrite Hd. cbn [mbind outcome_bind]. eexists _, _. by split_and!.
Qed.

Lemma owned_empty : owned (mkS ∅ (mkHeap ∅ 0)) ∅.
Proof. constructor; cbn; [by split|..]; intros; try done. Qed.

Lemma status_is_value_witness :
  exists st' a',
    srun (H := total_alloc) (mkS ∅ (mkHeap ∅ 0))
      (SNew 0 kNotFound (slice_of_string (str "key")) (slice_of_string (str "missing"))) = Ok st' /\
    svalue ∅ (SNew 0 kNotFound (slice_of_string (str "key")) (slice_of_string (str "missing"))) a' /\ owned st' a'.
Proof.
  apply (@status_is_value total_alloc (mkS ∅ (mkHeap ∅ 0)) ∅
    (SNew 0 kNotFound (slice_of_string (str "key")) (slice_of_string (str "missing")))); [apply owned_empty|].
  split_and!; [done|done|]. exists (str "key"), (str "missing").
  split_and!; [apply slice_of_string_denotes; decide_vm..|vm_compute; done].
Defined.

(** What a status reports is what it was built from: the code, its own
    predicate and no other, and "Type: message[: detail]" as text. *)
Theorem status_reports `{Allocator} h c msg msg2 m1 m2 :
  c <> kOk -> denotes msg m1 -> denotes msg2 m2 -> small_message (message m1 m2) ->
  exists s h', new_Status h c msg msg2 = Ok (s, h') /\ ok s = false /\ code h' s = Ok (code_value c) /\
    (forall c', is_code c' h' s = Ok (bool_decide (c' = c))) /\
    exists t, type_text (code_value c) = Ok t /\ toString h' s = Ok (t ++ message m1 m2).
Proof.
  intros Hc H1 H2 Hm. rewrite (new_Status_ok h c msg msg2 m1 m2) by done. unfold new_block.
  set (h' := mkHeap _ _). exists (Some (next_cell h)), h'. split; [done|]. split; [done|].
  assert (deref h' (next_cell h) = Ok (state_block (code_value c) (message m1 m2))) as Hd.
  { unfold deref, h'. cbn. by rewrite lookup_insert_eq. }
  assert (code h' (Some (next_cell h)) = Ok (code_value c)) as Hcode.
  { cbn [code]. rewrite Hd. cbn [mbind outcome_bind].
    destruct (state_block_code (code_value c) (message m1 m2)) as (w & -> & Hw); [by destruct c|].
    cbn [mbind outcome_bind]. by rewrite Hw. }
  split_and!; [done| |].
  - intros c'. unfold is_code. rewrite Hcode. cbn [mbind outcome_bind]. f_equal. by destruct c', c.
  - assert (exists t, type_text (code_value c) = Ok t) as [t Ht] by (destruct c; eexists; reflexivity).
    exists t. split; [done|]. unfold toString. rewrite Hcode. cbn [mbind outcome_bind].
    rewrite Ht, Hd. cbn [mbind outcome_bind].
    destruct (state_block_size (code_value c) _ Hm) as (w & -> & Hw). cbn [mbind outcome_bind].
    by rewrite Hw, state_block_message.
Qed.

Lemma status_reports_witness :
  exists s h', new_Status (H := total_alloc) (mkHeap ∅ 0) kNotFound
      (slice_of_string (str "key")) (slice_of_string (str "missing")) = Ok (s, h') /\
    ok s = false /\ code h' s = Ok (code_value kNotFound) /\
    (forall c', is_code c' h' s = Ok (bool_decide (c' = kNotFound))) /\
    exists t, type_text (code_value kNotFound) = Ok t /\
      toString h' s = Ok (t ++ message (str "key") (str "missing")).
Proof.
  apply (@status_reports total_alloc (mkHeap ∅ 0) kNotFound (slice_of_string (str "key"))
    (slice_of_string (str "missing")) (str "key") (str "missing"));
    [done|apply slice_of_string_denotes; decide_vm..|vm_compute; done].
Defined.

(** The message of the default build of the code: "Not Found: key: missing". *)
Example status_text :
  toString (mkHeap {[0%nat := state_block 404 (message (str "key") (str "missing"))]} 1) (Some 0%nat) =
  Ok (str "Not Found: key: missing").
Proof. vm_compute. reflexivity. Qed.
