(* ===== verification/Stat.v ===== *)
(** * stat.cpp: per-thread statistics

    Every thread owns a map from names to 64-bit values, found through its
    thread-specific pointer and registered in a global list; queries walk the
    list.  The maps are heap objects, because [stat_destroy] deletes them while
    the thread-specific pointers stay.  Each operation runs under the locks it
    takes, so an execution of several threads is a sequence of operations. *)

From S2P Require Import Prelude.

Abbreviation stat_container_t := (gmap bytes Z).

Record stats := mkStats {
  st_heap : gmap nat stat_container_t;      (** [new stat_data_t] objects *)
  st_next : nat;
  st_specific : gmap nat nat;               (** [pthread_getspecific], by thread *)
  stat_thread_data_list : list nat }.

Definition stats0 : stats := mkStats ∅ 0 ∅ [].

(** ** The code *)

Definition container (g : stats) (d : nat) : outcome stat_container_t :=
  match st_heap g !! d with Some c => Ok c | None => Trap UseAfterFree end.

Definition set_container (g : stats) (d : nat) (c : stat_container_t) : stats :=
  mkStats (<[d := c]> (st_heap g)) (st_next g) (st_specific g) (stat_thread_data_list g).

Definition stat_init_thread_data (g : stats) (t : nat) : outcome (nat * stats) :=
  match st_specific g !! t with
  | Some _ => Trap AssertFailed
  | None =>
      let data := st_next g in
      Ok (data, mkStats (<[data := ∅]> (st_heap g)) (S data) (<[t := data]> (st_specific g))
                  (stat_thread_data_list g ++ [data]))
  end.

Definition stat_get_thread_data (g : stats) (t : nat) : outcome (nat * stats) :=
  match st_specific g !! t with
  | Some d => Ok (d, g)
  | None => stat_init_thread_data g t
  end.

(** [delete *data_iter] for every registered object, then [clear()]. *)
Fixpoint delete_all (h : gmap nat stat_container_t) (ds : list nat) : outcome (gmap nat stat_container_t) :=
  match ds with
  | [] => Ok h
  | d :: ds => match h !! d with Some _ => delete_all (delete d h) ds | None => Trap UseAfterFree end
  end.

Definition stat_destroy_thread_data (g : stats) : outcome stats :=
  h ← delete_all (st_heap g) (stat_thread_data_list g);
  Ok (mkStats h (st_next g) (st_specific g) []).

Definition stat_destroy (g : stats) : outcome stats := stat_destroy_thread_data g.

(** [map[key]]: a missing key is inserted with value 0. *)
Definition subscript (c : stat_container_t) (key : bytes) : Z * stat_container_t :=
  match c !! key with Some v => (v, c) | None => (0, <[key := 0]> c) end.

Definition stat_set (g : stats) (t : nat) (key : bytes) (value : Z) : outcome stats :=
  r ← stat_get_thread_data g t;
  let '(d, g) := r in
  c ← container g d;
  Ok (set_container g d (<[key := value]> c)).

Definition stat_set_max (g : stats) (t : nat) (key : bytes) (value : Z) : outcome stats :=
  r ← stat_get_thread_data g t;
  let '(d, g) := r in
  c ← container g d;
  let '(v, c) := subscript c key in
  Ok (set_container g d (if v <? value then <[key := value]> c else c)).

Definition stat_incr (g : stats) (t : nat) (key : bytes) (step : Z) : outcome stats :=
  r ← stat_get_thread_data g t;
  let '(d, g) := r in
  c ← container g d;
  let '(v, c) := subscript c key in
  Ok (set_container g d (<[key := s64 (v + step)]> c)).

Definition stat_decr (g : stats) (t : nat) (key : bytes) (step : Z) : outcome stats :=
  r ← stat_get_thread_data g t;
  let '(d, g) := r in
  c ← container g d;
  let '(v, c) := subscript c key in
  Ok (set_container g d (<[key := s64 (v - step)]> c)).

Definition stat_get (g : stats) (t : nat) (key : bytes) : outcome (Z * stats) :=
  r ← stat_get_thread_data g t;
  let '(d, g) := r in
  c ← container g d;
  let '(v, c) := subscript c key in
  Ok (v, set_container g d c).

(** The loop body of [stat_get_all] over one map: [std::map] is walked in the
    order of its keys, here the order of [map_to_list]. *)
Definition merge_entry (acc : stat_container_t * stat_container_t) (kv : bytes * Z) :
    stat_container_t * stat_container_t :=
  let '(sum_result, max_result) := acc in
  let '(k, v) := kv in
  let '(s, sum_result) := subscript sum_result k in
  let sum_result := <[k := s64 (s + v)]> sum_result in
  let max_result := match max_result !! k with None => <[k := v]> max_result | Some _ => max_result end in
  let '(m, max_result) := subscript max_result k in
  let max_result := if m <? v then <[k := v]> max_result else max_result in
  (sum_result, max_result).

Fixpoint merge_all (g : stats) (ds : list nat) (acc : stat_container_t * stat_container_t) :
    outcome (stat_container_t * stat_container_t) :=
  match ds with
  | [] => Ok acc
  | d :: ds => c ← container g d; merge_all g ds (foldl merge_entry acc (map_to_list c))
  end.

Definition stat_get_all (g : stats) : outcome (stat_container_t * stat_container_t) :=
  merge_all g (stat_thread_data_list g) (∅, ∅).

Fixpoint sum_loop (g : stats) (key : bytes) (ds : list nat) (result : Z) : outcome (Z * stats) :=
  match ds with
  | [] => Ok (result, g)
  | d :: ds =>
      c ← container g d;
      let '(v, c) := subscript c key in
      sum_loop (set_container g d c) key ds (s64 (result + v))
  end.

Definition stat_get_sum (g : stats) (key : bytes) : outcome (Z * stats) :=
  sum_loop g key (stat_thread_data_list g) 0.

Fixpoint max_loop (g : stats) (key : bytes) (ds : list nat) (result : Z) : outcome Z :=
  match ds with
  | [] => Ok result
  | d :: ds =>
      c ← container g d;
      max_loop g key ds (match c !! key with Some v => if result <? v then v else result | None => result end)
  end.

Definition stat_get_max (g : stats) (key : bytes) : outcome Z :=
  max_loop g key (stat_thread_data_list g) LLONG_MIN.

(** ** What the statistics mean: a map per registered thread *)

(** The registered maps are distinct live objects, one for every thread that has
    a pointer, in order of registration. *)
Record registered (g : stats) : Prop := mkReg {
  rg_nodup : NoDup (stat_thread_data_list g);
  rg_live d : d ∈ stat_thread_data_list g <-> is_Some (st_heap g !! d);
  rg_next d : is_Some (st_heap g !! d) -> (d < st_next g)%nat;
  rg_threads t d : st_specific g !! t = Some d -> d ∈ stat_thread_data_list g;
  rg_owner t u d : st_specific g !! t = Some d -> st_specific g !! u = Some d -> t = u }.

Definition maps (g : stats) : list stat_container_t :=
  (fun d => default ∅ (st_heap g !! d)) <$> stat_thread_data_list g.

(** The values of [key] in the maps that have it. *)
Definition values (g : stats) (key : bytes) : list Z := omap (fun c => c !! key) (maps g).

(** The value of [key] in thread [t]'s own map, 0 if it has none. *)
Definition own (g : stats) (t : nat) (key : bytes) : Z :=
  match st_specific g !! t with
  | Some d => default 0 (default ∅ (st_heap g !! d) !! key)
  | None => 0
  end.

(** ** Updates *)

Lemma thread_data_ok g t :
  registered g ->
  exists d g', stat_get_thread_data g t = Ok (d, g') /\ registered g' /\ st_specific g' !! t = Some d /\
    (forall u k, own g' u k = own g u k) /\ exists c, st_heap g' !! d = Some c /\ forall k, default 0 (c !! k) = own g t k.
Proof.
  intros Hr. unfold stat_get_thread_data, own. destruct (st_specific g !! t) as [d|] eqn:E.
  - exists d, g. pose proof (rg_threads _ Hr _ _ E) as [c Hc]%(rg_live _ Hr). rewrite Hc.
    split_and!; [done..|]. by exists c.
  - unfold stat_init_thread_data. rewrite E. set (n := st_next g).
    assert (Hn : st_heap g !! n = None).
    { destruct (st_heap g !! n) eqn:En; [|done]. pose proof (rg_next _ Hr n (ex_intro _ _ En)). unfold n in *. lia. }
    assert (Hnin : n ∉ stat_thread_data_list g) by (rewrite (rg_live _ Hr), Hn; by intros []).
    eexists n, _. split; [reflexivity|]. cbn. split_and!.
    + constructor; cbn.
      * apply NoDup_app. split_and!; [apply Hr| |apply NoDup_singleton].
        intros x Hx ->%list_elem_of_singleton. done.
      * intros d. rewrite elem_of_app, list_elem_of_singleton, (rg_live _ Hr). destruct (decide (d = n)) as [->|].
        -- rewrite lookup_insert_eq. split; eauto.
        -- rewrite lookup_insert_ne by done. split; [by intros [|]|eauto].
      * intros d. destruct (decide (d = n)) as [->|]; [unfold n; lia|]. rewrite lookup_insert_ne by done.
        intros Hd%(rg_next _ Hr). lia.
      * intros u d. rewrite elem_of_app, list_elem_of_singleton.
        intros [[_ <-]|[_ H]]%lookup_insert_Some; [by right|left; by eapply rg_threads].
      * intros u v d Hu Hv. apply lookup_insert_Some in Hu as [[<- <-]|[? Hu]], Hv as [[<- ?]|[? Hv]];
          [done|by apply (rg_threads _ Hr) in Hv|by simplify_eq; apply (rg_threads _ Hr) in Hu|by eapply rg_owner].
    + by rewrite lookup_insert_eq.
    + intros u k. destruct (decide (u = t)) as [->|]; [by rewrite !lookup_insert_eq, E|].
      rewrite (lookup_insert_ne (st_specific g)) by done. destruct (st_specific g !! u) as [d|] eqn:Eu; [|done].
      rewrite lookup_insert_ne; [done|]. intros <-. by apply (rg_threads _ Hr) in Eu.
    + exists ∅. by rewrite lookup_insert_eq.
Qed.

Lemma set_container_ok g t d c :
  registered g -> st_specific g !! t = Some d ->
  registered (set_container g d c) /\
  forall u k, own (set_container g d c) u k = if decide (u = t) then default 0 (c !! k) else own g u k.
Proof.
  intros Hr Ht. pose proof (rg_threads _ Hr _ _ Ht) as Hin. pose proof (proj1 (rg_live _ Hr d) Hin) as Hd.
  assert (Hs : forall x, is_Some (<[d := c]> (st_heap g) !! x) <-> is_Some (st_heap g !! x)).
  { intros x. destruct (decide (x = d)) as [->|]; [rewrite lookup_insert_eq; split; eauto|by rewrite lookup_insert_ne]. }
  split.
  - constructor; cbn; [apply Hr|intros x; rewrite Hs; apply Hr|intros x; rewrite Hs; apply Hr|apply Hr|apply Hr].
  - intros u k. unfold own. cbn. destruct (decide (u = t)) as [->|Hne]; [by rewrite Ht, lookup_insert_eq|].
    destruct (st_specific g !! u) as [e|] eqn:Eu; [|done]. rewrite lookup_insert_ne; [done|].
    intros <-. by apply Hne, (rg_owner _ Hr u t d).
Qed.

Lemma subscript_fst c k : fst (subscript c k) = default 0 (c !! k).
Proof. unfold subscript. by destruct (c !! k). Qed.

Lemma subscript_snd c k k' : default 0 (snd (subscript c k) !! k') = default 0 (c !! k').
Proof.
  unfold subscript. destruct (c !! k) eqn:E; [done|]. cbn.
  destruct (decide (k = k')) as [->|]; [by rewrite lookup_insert_eq, E|by rewrite lookup_insert_ne].
Qed.

(** The operations of one thread on its own map. *)
Inductive stat_op := OSet (v : Z) | OSetMax (v : Z) | OIncr (step : Z) | ODecr (step : Z) | OGet.

Definition run_op (g : stats) (t : nat) (key : bytes) (o : stat_op) : outcome stats :=
  match o with
  | OSet v => stat_set g t key v
  | OSetMax v => stat_set_max g t key v
  | OIncr s => stat_incr g t key s
  | ODecr s => stat_decr g t key s
  | OGet => r ← stat_get g t key; Ok (snd r)
  end.

(** The value after the operation. *)
Definition new_value (o : stat_op) (v : Z) : Z :=
  match o with
  | OSet w => w
  | OSetMax w => Z.max v w
  | OIncr s => s64 (v + s)
  | ODecr s => s64 (v - s)
  | OGet => v
  end.

Lemma default_insert (c : stat_container_t) key v k :
  default 0 (<[key := v]> c !! k) = if decide (k = key) then v else default 0 (c !! k).
Proof. destruct (decide (k = key)) as [->|]; [by rewrite lookup_insert_eq|by rewrite lookup_insert_ne]. Qed.

Lemma run_op_ok g t key o :
  registered g ->
  exists g', run_op g t key o = Ok g' /\ registered g' /\
    forall u k, own g' u k = if decide (u = t /\ k = key) then new_value o (own g t key) else own g u k.
Proof.
  intros Hr. destruct (thread_data_ok g t Hr) as (d & g1 & E & Hr1 & Ht & Hown & c & Hc & Hv).
  assert (exists c', run_op g t key o = Ok (set_container g1 d c') /\
    forall k, default 0 (c' !! k) = if decide (k = key) then new_value o (own g t key) else default 0 (c !! k))
    as (c' & -> & Hc').
  { pose proof (subscript_fst c key) as Hf. pose proof (subscript_snd c key) as Hs. rewrite Hv in Hf.
    destruct (subscript c key) as [v c1] eqn:Esub. cbn in Hf, Hs. subst v.
    destruct o; cbn [run_op]; unfold stat_set, stat_set_max, stat_incr, stat_decr, stat_get;
      rewrite E; cbn [mbind outcome_bind]; unfold container; rewrite Hc; cbn [mbind outcome_bind];
      rewrite ?Esub; cbn [mbind outcome_bind snd]; (eexists; split; [reflexivity|]); intros k.
    - by rewrite default_insert.
    - destruct (Z.ltb_spec (own g t key) v); rewrite ?default_insert, Hs;
        destruct (decide (k = key)) as [->|]; cbn; rewrite ?Hv; lia || done.
    - by rewrite default_insert, Hs.
    - by rewrite default_insert, Hs.
    - rewrite Hs. case_decide; [subst; by rewrite Hv|done]. }
  destruct (set_container_ok g1 t d c' Hr1 Ht) as [Hr2 Ho2]. eexists. split_and!; [done|done|].
  intros u k. rewrite Ho2, Hc', Hv, Hown.
  destruct (decide (u = t)) as [->|]; [|by rewrite decide_False by (by intros [])].
  destruct (decide (k = key)) as [->|]; [by rewrite decide_True|by rewrite decide_False by (by intros [])].
Qed.

(** ** Queries *)

Definition sum_step (o : option Z) (v : Z) : option Z := Some (s64 (default 0 o + v)).
Definition max_step (o : option Z) (v : Z) : option Z :=
  Some (match o with None => v | Some w => Z.max w v end).

(** One entry touches one key of the two results. *)
Lemma merge_entry_lookup s m k v k' :
  let '(s', m') := merge_entry (s, m) (k, v) in
  s' !! k' = (if decide (k' = k) then sum_step (s !! k) v else s !! k') /\
  m' !! k' = (if decide (k' = k) then max_step (m !! k) v else m !! k').
Proof.
  unfold merge_entry, subscript, sum_step, max_step.
  destruct (s !! k) as [sv|] eqn:Es; destruct (m !! k) as [mv|] eqn:Em;
    rewrite ?Em, ?lookup_insert_eq; cbn; destruct (decide (k' = k)) as [->|Hne];
    rewrite ?lookup_insert_eq, ?lookup_insert_ne by done;
    (split; [by rewrite ?lookup_insert_ne|]);
    case_match; rewrite ?lookup_insert_eq, ?lookup_insert_ne by done; try done; rewrite ?Em; f_equal; lia.
Qed.

Lemma merge_list_lookup l s m k :
  NoDup l.*1 ->
  let '(s', m') := foldl merge_entry (s, m) l in
  s' !! k = match (list_to_map l : gmap bytes Z) !! k with Some v => sum_step (s !! k) v | None => s !! k end /\
  m' !! k = match (list_to_map l : gmap bytes Z) !! k with Some v => max_step (m !! k) v | None => m !! k end.
Proof.
  revert s m. induction l as [|[k0 v0] l IH]; intros s m Hnd; [done|].
  cbn [fmap list_fmap fst] in Hnd. apply NoDup_cons in Hnd as [Hnin Hnd]. cbn [foldl].
  pose proof (merge_entry_lookup s m k0 v0 k) as H1. destruct (merge_entry (s, m) (k0, v0)) as [s1 m1].
  specialize (IH s1 m1 Hnd). destruct (foldl merge_entry (s1, m1) l) as [s2 m2].
  destruct IH as [-> ->], H1 as [-> ->]. cbn. destruct (decide (k = k0)) as [->|Hne].
  - rewrite lookup_insert_eq. by rewrite (not_elem_of_list_to_map_1 l k0 Hnin).
  - by rewrite lookup_insert_ne.
Qed.

Lemma merge_all_lookup g ds s m k :
  (forall d, d ∈ ds -> is_Some (st_heap g !! d)) ->
  exists s' m', merge_all g ds (s, m) = Ok (s', m') /\
    s' !! k = foldl sum_step (s !! k) (omap (fun c => c !! k) ((fun d => default ∅ (st_heap g !! d)) <$> ds)) /\
    m' !! k = foldl max_step (m !! k) (omap (fun c => c !! k) ((fun d => default ∅ (st_heap g !! d)) <$> ds)).
Proof.
  revert s m. induction ds as [|d ds IH]; intros s m Hl; [by exists s, m|].
  cbn [merge_all]. unfold container. destruct (Hl d) as [c Hc]; [left|]. rewrite Hc. cbn [mbind outcome_bind].
  pose proof (merge_list_lookup (map_to_list c) s m k (NoDup_fst_map_to_list c)) as H1.
  destruct (foldl merge_entry (s, m) (map_to_list c)) as [s1 m1]. rewrite list_to_map_to_list in H1.
  destruct (IH s1 m1) as (s2 & m2 & -> & Hs & Hm); [intros; apply Hl; by right|].
  exists s2, m2. split; [done|]. rewrite Hs, Hm. destruct H1 as [-> ->]. cbn. rewrite Hc. cbn [default].
  change (id c) with c. by destruct (c !! k).
Qed.

Lemma s64_add_l a b : s64 (s64 a + b) = s64 (a + b).
Proof.
  unfold swrap. f_equal.
  replace ((a + 2 ^ (64 - 1)) mod 2 ^ 64 - 2 ^ (64 - 1) + b + 2 ^ (64 - 1))
    with ((a + 2 ^ (64 - 1)) mod 2 ^ 64 + b) by lia.
  rewrite Zplus_mod_idemp_l. f_equal. lia.
Qed.

Definition sum (l : list Z) : Z := foldr Z.add 0 l.

Lemma fold_sum_step l o :
  foldl sum_step o l = match l with [] => o | _ => Some (s64 (default 0 o + sum l)) end.
Proof.
  revert o. induction l as [|v l IH]; intros o; [done|]. cbn [foldl]. rewrite IH.
  cbn [sum foldr sum_step default]. destruct l as [|w l]; [by cbn; rewrite Z.add_0_r|].
  f_equal. change (id (s64 (default 0 o + v))) with (s64 (default 0 o + v)).
  rewrite s64_add_l. f_equal. unfold sum. cbn [foldr]. lia.
Qed.

Definition maximum (v : Z) (l : list Z) : Z := foldr Z.max v l.

Lemma max_assoc_fold l v w : Z.max w (foldr Z.max v l) = foldr Z.max (Z.max w v) l.
Proof. induction l as [|x l IH]; cbn; lia. Qed.

Lemma fold_max_step l v : foldl max_step (Some v) l = Some (maximum v l).
Proof.
  revert v. induction l as [|w l IH]; intros v; [done|]. cbn [foldl].
  change (max_step (Some v) w) with (Some (Z.max v w)). rewrite IH. unfold maximum. cbn [foldr].
  by rewrite max_assoc_fold, (Z.max_comm w).
Qed.

Lemma registered_live g d : registered g -> d ∈ stat_thread_data_list g -> is_Some (st_heap g !! d).
Proof. intros Hr. apply (rg_live _ Hr). Qed.

Lemma max_loop_ok g key ds r :
  (forall d, d ∈ ds -> is_Some (st_heap g !! d)) ->
  max_loop g key ds r =
  Ok (maximum r (omap (fun c => c !! key) ((fun d => default ∅ (st_heap g !! d)) <$> ds))).
Proof.
  revert r. induction ds as [|d ds IH]; intros r Hl; [done|].
  cbn [max_loop]. unfold container. destruct (Hl d) as [c Hc]; [left|]. rewrite Hc. cbn [mbind outcome_bind].
  rewrite IH by (intros; apply Hl; by right). cbn. rewrite Hc. cbn [default]. change (id c) with c. f_equal.
  destruct (c !! key) as [v|]; [|done]. unfold maximum. cbn [foldr]. rewrite max_assoc_fold. f_equal.
  destruct (Z.ltb_spec r v); lia.
Qed.

(** [stat_get_sum] reads every map through [operator[]]. *)
Lemma sum_loop_ok g key ds r :
  NoDup ds -> (forall d, d ∈ ds -> is_Some (st_heap g !! d)) -> s64 r = r ->
  exists g', sum_loop g key ds r =
    Ok (s64 (r + sum (omap (fun c => c !! key) ((fun d => default ∅ (st_heap g !! d)) <$> ds))), g') /\
    stat_thread_data_list g' = stat_thread_data_list g /\
    forall d, st_heap g' !! d = if decide (d ∈ ds) then snd <$> (flip subscript key <$> st_heap g !! d) else st_heap g !! d.
Proof.
  revert g r. induction ds as [|d ds IH]; intros g r Hnd Hl Hr.
  - exists g. cbn. rewrite Z.add_0_r, Hr. split_and!; [done|done|]. intros d. by rewrite decide_False by (by intros ?%elem_of_nil).
  - apply NoDup_cons in Hnd as [Hnin Hnd]. cbn [sum_loop]. unfold container.
    destruct (Hl d) as [c Hc]; [left|]. rewrite Hc. cbn [mbind outcome_bind].
    destruct (subscript c key) as [v c'] eqn:Esub.
    assert (Hother : forall e, e ∈ ds -> st_heap (set_container g d c') !! e = st_heap g !! e).
    { intros e He. cbn. rewrite lookup_insert_ne; [done|]. by intros <-. }
    destruct (IH (set_container g d c') (s64 (r + v)) Hnd) as (g' & -> & Hlist & Hh).
    + intros e He. rewrite Hother by done. apply Hl. by right.
    + unfold swrap at 1. apply (swrap_small 64); [lia|]. apply (swrap_range 64). lia.
    + exists g'. split_and!; [|by rewrite Hlist|].
      * do 2 f_equal. rewrite s64_add_l. cbn. rewrite Hc. cbn [default]. change (id c) with c.
        replace ((fun e => default ∅ (<[d := c']> (st_heap g) !! e)) <$> ds)
          with ((fun e => default ∅ (st_heap g !! e)) <$> ds).
        2:{ apply list_fmap_ext. intros i e He. apply list_elem_of_lookup_2 in He.
            rewrite lookup_insert_ne; [done|]. by intros <-. }
        unfold subscript in Esub. destruct (c !! key); injection Esub as <- _; unfold sum; cbn [foldr]; f_equal; lia.
      * intros e. rewrite Hh. cbn. destruct (decide (e = d)) as [->|Hne].
        -- rewrite decide_False, decide_True, lookup_insert_eq, Hc by (done || left). cbn. by rewrite Esub.
        -- rewrite lookup_insert_ne by done. destruct (decide (e ∈ ds)).
           ++ by rewrite decide_True by (by right).
           ++ by rewrite decide_False by (by intros [|]%elem_of_cons).
Qed.

Lemma delete_all_ok h ds :
  NoDup ds -> (forall d, d ∈ ds -> is_Some (h !! d)) ->
  exists h', delete_all h ds = Ok h' /\ forall d, h' !! d = if decide (d ∈ ds) then None else h !! d.
Proof.
  revert h. induction ds as [|d ds IH]; intros h Hnd Hl.
  - exists h. split; [done|]. intros d. by rewrite decide_False by (by intros ?%elem_of_nil).
  - apply NoDup_cons in Hnd as [Hnin Hnd]. cbn [delete_all]. destruct (Hl d) as [c ->]; [left|].
    destruct (IH (delete d h) Hnd) as (h' & -> & Hh).
    { intros e He. rewrite lookup_delete_ne; [apply Hl; by right|]. by intros <-. }
    exists h'. split; [done|]. intros e. rewrite Hh. destruct (decide (e = d)) as [->|].
    + by rewrite decide_False, decide_True, lookup_delete_eq by (done || left).
    + rewrite lookup_delete_ne by done. destruct (decide (e ∈ ds)).
      * by rewrite decide_True by (by right).
      * by rewrite decide_False by (by intros [|]%elem_of_cons).
Qed.

Lemma registered_stats0 : registered stats0.
Proof.
  constructor; cbn.
  - constructor.
  - intros d. rewrite lookup_empty. split; [by intros ?%elem_of_nil|by intros []].
  - intros d. rewrite lookup_empty. by intros [].
  - done.
  - done.
Qed.

(** Two threads have counted requests. *)
Definition two_threads : outcome stats :=
  g ← stat_incr stats0 1 (str "requests") 5;
  g ← stat_incr g 2 (str "requests") 7;
  stat_set_max g 2 (str "reply") 100.

(** ** Properties *)

(** A thread's [set], [set_max], [incr], [decr] or [get] returns, changes the
    named value of that thread to what it says (an absent value counts as 0),
    and nothing of any other thread or name. *)
Theorem stat_op_effect g t key o :
  registered g ->
  exists g', run_op g t key o = Ok g' /\ registered g' /\
    forall u k, own g' u k = if decide (u = t /\ k = key) then new_value o (own g t key) else own g u k.
Proof. intros. by apply run_op_ok. Qed.

Lemma stat_op_effect_witness :
  exists g', run_op stats0 1 (str "requests") (OIncr 1) = Ok g' /\ registered g' /\
    forall u k, own g' u k = if decide (u = 1%nat /\ k = str "requests")
                             then new_value (OIncr 1) (own stats0 1 (str "requests")) else own stats0 u k.
Proof. apply (stat_op_effect stats0 1 (str "requests") (OIncr 1)). apply registered_stats0. Defined.

(** The queries agree: [stat_get_all] gives for every name the (64-bit) sum
    and the maximum over the threads that have it, and no other names;
    [stat_get_sum] and [stat_get_max] give the same sum and maximum. *)
Theorem stat_queries_agree g :
  registered g ->
  exists s m, stat_get_all g = Ok (s, m) /\ forall key,
    (exists g', stat_get_sum g key = Ok (s64 (sum (values g key)), g')) /\
    stat_get_max g key = Ok (maximum LLONG_MIN (values g key)) /\
    match values g key with
    | [] => s !! key = None /\ m !! key = None
    | v :: vs => s !! key = Some (s64 (sum (v :: vs))) /\ m !! key = Some (maximum v vs)
    end.
Proof.
  intros Hr. assert (Hl : forall d, d ∈ stat_thread_data_list g -> is_Some (st_heap g !! d)) by (intros d; by apply registered_live).
  destruct (merge_all_lookup g _ ∅ ∅ [] Hl) as (s & m & E & _). exists s, m. split; [done|]. intros key.
  split_and!.
  - unfold stat_get_sum. destruct (sum_loop_ok g key (stat_thread_data_list g) 0 (rg_nodup _ Hr) Hl eq_refl) as (g' & -> & _). by exists g'.
  - by apply max_loop_ok.
  - destruct (merge_all_lookup g _ ∅ ∅ key Hl) as (s' & m' & E' & Hs & Hm). rewrite E in E'. injection E' as <- <-.
    rewrite lookup_empty in Hs, Hm. fold (maps g) (values g key) in Hs, Hm. rewrite fold_sum_step in Hs.
    destruct (values g key) as [|v vs]; [done|]. split; [done|]. cbn [foldl] in Hm.
    change (max_step None v) with (Some v) in Hm. by rewrite fold_max_step in Hm.
Qed.

Lemma stat_queries_agree_witness :
  exists s m, stat_get_all stats0 = Ok (s, m) /\ forall key,
    (exists g', stat_get_sum stats0 key = Ok (s64 (sum (values stats0 key)), g')) /\
    stat_get_max stats0 key = Ok (maximum LLONG_MIN (values stats0 key)) /\
    match values stats0 key with
    | [] => s !! key = None /\ m !! key = None
    | v :: vs => s !! key = Some (s64 (sum (v :: vs))) /\ m !! key = Some (maximum v vs)
    end.
Proof. apply (stat_queries_agree stats0). apply registered_stats0. Defined.

Example two_threads_queries :
  (g ← two_threads; r ← stat_get_sum g (str "requests"); Ok (fst r)) = Ok 12 /\
  (g ← two_threads; stat_get_max g (str "requests")) = Ok 7.
Proof. split; vm_compute; reflexivity. Qed.

(** Asking for the sum of a name creates it: for a name no thread has,
    [stat_get_max] returns the smallest 64-bit integer before a [stat_get_sum] of
    that name and 0 after it. *)
Theorem stat_get_sum_defines_key g key :
  registered g -> stat_thread_data_list g <> [] -> values g key = [] ->
  stat_get_max g key = Ok LLONG_MIN /\
  exists g', stat_get_sum g key = Ok (0, g') /\ stat_get_max g' key = Ok 0.
Proof.
  intros Hr Hne Hv. assert (Hl : forall d, d ∈ stat_thread_data_list g -> is_Some (st_heap g !! d)) by (intros d; by apply registered_live).
  unfold stat_get_max, stat_get_sum. rewrite max_loop_ok by done. fold (maps g) (values g key). rewrite Hv. split; [done|].
  destruct (sum_loop_ok g key (stat_thread_data_list g) 0 (rg_nodup _ Hr) Hl eq_refl) as (g' & -> & Hlist & Hh).
  fold (maps g) (values g key). rewrite Hv. exists g'. split; [done|].
  rewrite max_loop_ok; rewrite Hlist; [f_equal|].
  - unfold values, maps in Hv.
    assert (Forall (fun d => d ∈ stat_thread_data_list g) (stat_thread_data_list g)) as Hall by (by apply Forall_forall).
    destruct (stat_thread_data_list g) as [|d0 ds]; [done|]. clear Hne.
    assert (forall l, Forall (fun d => d ∈ d0 :: ds) l ->
      omap (fun c => c !! key) ((fun d => default ∅ (st_heap g !! d)) <$> l) = [] ->
      maximum LLONG_MIN (omap (fun c => c !! key) ((fun d => default ∅ (st_heap g' !! d)) <$> l)) =
      match l with [] => LLONG_MIN | _ => 0 end) as Hmx; [|by apply (Hmx (d0 :: ds))].
    intros l. induction l as [|d l IH]; intros Hin Hom; [done|]. apply Forall_cons in Hin as [Hd Hin].
    cbn in *. destruct (Hl d Hd) as [c Hc]. rewrite Hh, decide_True, Hc in * by done. cbn in *.
    change (id c) with c in *. destruct (c !! key) as [v|] eqn:Ec; [done|]. unfold subscript. rewrite Ec. cbn.
    rewrite lookup_insert_eq. cbn. unfold maximum in *. cbn [foldr]. rewrite IH by done. by destruct l.
  - intros d Hd. rewrite Hh, decide_True by done. by destruct (Hl d Hd) as [c ->].
Qed.

Definition one_thread : stats := match stat_incr stats0 1 (str "requests") 5 with Ok g => g | Trap _ => stats0 end.

Lemma registered_one_thread : registered one_thread.
Proof.
  destruct (run_op_ok stats0 1 (str "requests") (OIncr 5) registered_stats0) as (g' & E & Hr & _).
  unfold one_thread. change (stat_incr _ _ _ _) with (run_op stats0 1 (str "requests") (OIncr 5)). by rewrite E.
Qed.

Lemma stat_get_sum_defines_key_witness :
  stat_get_max one_thread (str "reply") = Ok LLONG_MIN /\
  exists g', stat_get_sum one_thread (str "reply") = Ok (0, g') /\ stat_get_max g' (str "reply") = Ok 0.
Proof.
  apply (stat_get_sum_defines_key one_thread (str "reply"));
    [apply registered_one_thread|vm_compute; discriminate|vm_compute; reflexivity].
Defined.

(** [stat_destroy] frees the maps but not the threads' pointers to them: a
    thread that has recorded anything then uses freed memory. *)
Theorem stat_after_destroy g t d key v :
  registered g -> st_specific g !! t = Some d ->
  exists g', stat_destroy g = Ok g' /\ stat_thread_data_list g' = [] /\
    stat_set g' t key v = Trap UseAfterFree.
Proof.
  intros Hr Ht. unfold stat_destroy, stat_destroy_thread_data.
  destruct (delete_all_ok (st_heap g) _ (rg_nodup _ Hr)) as (h' & -> & Hh); [by intros; apply registered_live|].
  cbn [mbind outcome_bind]. eexists. split_and!; [done|done|].
  unfold stat_set, stat_get_thread_data. cbn [st_specific]. rewrite Ht. cbn [mbind outcome_bind].
  unfold container. cbn [st_heap]. by rewrite Hh, decide_True by (by eapply rg_threads).
Qed.

Lemma stat_after_destroy_witness :
  exists g', stat_destroy one_thread = Ok g' /\ stat_thread_data_list g' = [] /\
    stat_set g' 1 (str "requests") 1 = Trap UseAfterFree.
Proof. apply (stat_after_destroy one_thread 1 0); [apply registered_one_thread|vm_compute; reflexivity]. Defined.
