(* ===== verification/KeyLock.v ===== *)
(** * key_lock.h, key_lock.cpp: a lock per key, by buckets of mutexes

    A key is hashed to one of [2^bucket_power] mutexes.  A mutex is free or held
    by a thread; [lock] of a held mutex blocks, which the step relation renders
    as a thread that cannot take that step.  The theorems are about any
    interleaving of the threads. *)

From S2P Require Import Prelude Crc32c Hash Slice.

Abbreviation tid := nat (only parsing).

(** A [pthread_mutex_t]: its holder. *)
Abbreviation mutex := (option nat).

Record KeyLock := mkKeyLock {
  _bucket_num : Z;
  _bucket_mask : Z;
  _bucket_list : list mutex }.

Definition DEFAULT_BUCKET_POWER : Z := 16.

(** ** The code *)

(** The constructor: [1 << bucket_power] is a shift of an [int], stored in a
    [uint32_t]; the mutexes are initialised one by one. *)
Definition new_KeyLock (bucket_power : Z) : outcome KeyLock :=
  guard_trap (bucket_power <? 32) Undefined (
  let num := u32 (Z.shiftl 1 bucket_power) in
  Ok (mkKeyLock num (u32 (num - 1)) (replicate (Z.to_nat num) None))).

(** [hash(key.data(), key.size()) & _bucket_mask]. *)
Definition bucket_of (kl : KeyLock) (key : Slice) : outcome nat :=
  h ← hash (drop (Z.to_nat (data_ key)) (mem key)) (size_ key);
  Ok (Z.to_nat (Z.land h (_bucket_mask kl))).

Definition bucket (kl : KeyLock) (i : nat) : outcome mutex :=
  match _bucket_list kl !! i with Some b => Ok b | None => Trap OutOfBounds end.

Definition set_bucket (kl : KeyLock) (i : nat) (b : mutex) : KeyLock :=
  mkKeyLock (_bucket_num kl) (_bucket_mask kl) (<[i := b]> (_bucket_list kl)).

(** [pthread_mutex_lock]: [None] while another holder keeps the thread blocked. *)
Definition lock (kl : KeyLock) (t : tid) (key : Slice) : outcome (option KeyLock) :=
  i ← bucket_of kl key;
  b ← bucket kl i;
  match b with
  | None => Ok (Some (set_bucket kl i (Some t)))
  | Some _ => Ok None
  end.

(** [try_lock]: the value stored in [*try_succeed]. *)
Definition try_lock (kl : KeyLock) (t : tid) (key : Slice) : outcome (bool * KeyLock) :=
  i ← bucket_of kl key;
  b ← bucket kl i;
  match b with
  | None => Ok (true, set_bucket kl i (Some t))
  | Some _ => Ok (false, kl)
  end.

(** [pthread_mutex_unlock]. *)
Definition unlock (kl : KeyLock) (key : Slice) : outcome KeyLock :=
  i ← bucket_of kl key;
  _ ← bucket kl i;
  Ok (set_bucket kl i None).

(** The destructor destroys the mutexes one by one from [i] on; destroying one
    that is held is undefined. *)
Fixpoint destroy_buckets (n i : nat) (kl : KeyLock) : outcome () :=
  match n with
  | O => Ok ()
  | S n =>
      b ← bucket kl i;
      match b with
      | None => destroy_buckets n (S i) kl
      | Some _ => Trap Undefined
      end
  end.
Definition delete_KeyLock (kl : KeyLock) : outcome () := destroy_buckets (Z.to_nat (_bucket_num kl)) 0 kl.

(** ** Threads that lock and unlock keys

    [held] are the keys locked and not yet unlocked, with their threads: the
    live [KeyLockHolder]s and the successful [try_lock]s. *)

Record system := mkSys { sys_lock : KeyLock; held : list (tid * Slice) }.

(** A key whose slice is valid and short enough for [hash]. *)
Definition short (c : bytes) : Prop := Z.of_nat (length c) < 2 ^ 31.
Definition usable (key : Slice) : Prop := exists c, denotes key c /\ short c.

Inductive kstep : system -> system -> Prop :=
| k_lock s t key kl : usable key ->
    lock (sys_lock s) t key = Ok (Some kl) -> kstep s (mkSys kl ((t, key) :: held s))
| k_try s t key kl : usable key ->
    try_lock (sys_lock s) t key = Ok (true, kl) -> kstep s (mkSys kl ((t, key) :: held s))
| k_try_fails s t key kl : usable key ->
    try_lock (sys_lock s) t key = Ok (false, kl) -> kstep s (mkSys kl (held s))
| k_unlock s t key l1 l2 kl :
    held s = l1 ++ (t, key) :: l2 -> unlock (sys_lock s) key = Ok kl -> kstep s (mkSys kl (l1 ++ l2)).

(** ** Facts *)

(** The bucket depends on the contents of the key only. *)
Definition index (kl : KeyLock) (c : bytes) : nat := Z.to_nat (Z.land (murmur 0xba1dba1d c) (_bucket_mask kl)).

Lemma bucket_of_index kl key c : denotes key c -> short c -> bucket_of kl key = Ok (index kl c).
Proof.
  intros (Hb & Hs & pre & rest & Hm & Hd) Hc. unfold bucket_of, hash.
  rewrite Hm, Hd, Nat2Z.id, drop_app_length, Hs, s32_small, MurmurHash64A_murmur by (done || unfold short in Hc; lia).
  done.
Qed.

(** The lists have as many buckets as the mask can reach. *)
Definition sized (kl : KeyLock) : Prop :=
  exists p, 0 <= p < 32 /\ _bucket_mask kl = Z.ones p /\ length (_bucket_list kl) = Z.to_nat (2 ^ p).

Lemma index_in_range kl c : sized kl -> (index kl c < length (_bucket_list kl))%nat.
Proof.
  intros (p & Hp & Hm & Hl). unfold index. rewrite Hm, Hl, Z.land_ones by lia.
  pose proof (Z.mod_pos_bound (murmur 0xba1dba1d c) (2 ^ p) ltac:(lia)). lia.
Qed.

Lemma new_KeyLock_sized p kl : 0 <= p -> new_KeyLock p = Ok kl -> sized kl /\ Forall (fun b => b = None) (_bucket_list kl).
Proof.
  intros Hp. unfold new_KeyLock, guard_trap. destruct (Z.ltb_spec p 32); [|done]. intros [= <-].
  assert (0 < 2 ^ p <= 2 ^ 31) by (split; [lia|apply Z.pow_le_mono_r; lia]).
  rewrite Z.shiftl_mul_pow2, Z.mul_1_l, !u32_small by lia. split; [|by apply Forall_replicate].
  exists p. cbn. rewrite length_replicate. split_and!; [lia|lia| |done]. rewrite Z.ones_equiv. lia.
Qed.

(** Every held key has its own bucket, and the holders are those of the buckets. *)
Record consistent (s : system) : Prop := mkCons {
  cs_sized : sized (sys_lock s);
  cs_keys t key : (t, key) ∈ held s -> usable key;
  cs_held t key i : (t, key) ∈ held s -> bucket_of (sys_lock s) key = Ok i ->
    _bucket_list (sys_lock s) !! i = Some (Some t);
  cs_nodup : NoDup ((fun x => bucket_of (sys_lock s) (snd x)) <$> held s);
  cs_owner i t : _bucket_list (sys_lock s) !! i = Some (Some t) ->
    exists key, (t, key) ∈ held s /\ bucket_of (sys_lock s) key = Ok i }.

Lemma usable_bucket kl key : sized kl -> usable key ->
  exists i b, bucket_of kl key = Ok i /\ bucket kl i = Ok b /\ _bucket_list kl !! i = Some b.
Proof.
  intros Hs (c & Hd & Hc). rewrite (bucket_of_index kl key c Hd Hc).
  destruct (lookup_lt_is_Some_2 _ _ (index_in_range kl c Hs)) as [b Hb].
  exists (index kl c), b. unfold bucket. by rewrite Hb.
Qed.

Lemma sized_set kl i b : sized kl -> sized (set_bucket kl i b).
Proof. intros (p & ? & ? & ?). exists p. cbn. by rewrite length_insert. Qed.

Lemma held_bucket s t key : consistent s -> (t, key) ∈ held s ->
  exists i, bucket_of (sys_lock s) key = Ok i /\ _bucket_list (sys_lock s) !! i = Some (Some t).
Proof.
  intros Hc Hin. destruct (usable_bucket _ key (cs_sized _ Hc) (cs_keys _ Hc _ _ Hin)) as (i & b & Hi & _).
  exists i. split; [done|]. by eapply cs_held.
Qed.

(** Taking a free bucket. *)
Lemma consistent_acquire s t key i :
  consistent s -> usable key -> bucket_of (sys_lock s) key = Ok i ->
  _bucket_list (sys_lock s) !! i = Some None ->
  consistent (mkSys (set_bucket (sys_lock s) i (Some t)) ((t, key) :: held s)).
Proof.
  intros Hc Hu Hi Hb. assert (Hne : forall u k j, (u, k) ∈ held s -> bucket_of (sys_lock s) k = Ok j -> j <> i).
  { intros u k j Hin Hj ->. pose proof (cs_held _ Hc _ _ _ Hin Hj). congruence. }
  assert (Hset : forall k, bucket_of (set_bucket (sys_lock s) i (Some t)) k = bucket_of (sys_lock s) k) by done.
  constructor; cbn [sys_lock held]; [by apply sized_set, Hc|..].
  - intros u k [[= -> ->]|Hin]%elem_of_cons; [done|by eapply cs_keys].
  - intros u k j. rewrite Hset. intros [[= -> ->]|Hin]%elem_of_cons Hj; cbn.
    + rewrite Hi in Hj. injection Hj as <-. apply list_lookup_insert_eq. by eapply lookup_lt_Some.
    + rewrite list_lookup_insert_ne; [by eapply cs_held|]. intros <-. by eapply Hne.
  - cbn. apply NoDup_cons. split; [|apply Hc]. rewrite Hset, Hi. intros [[u k] [Hk Hin]]%list_elem_of_fmap.
    cbn in Hk. symmetry in Hk. by destruct (Hne u k i).
  - intros j u. cbn. intros Hj. destruct (decide (j = i)) as [->|Hji].
    + rewrite list_lookup_insert_eq in Hj by (by eapply lookup_lt_Some). injection Hj as <-.
      exists key. rewrite Hset. split; [left|done].
    + rewrite list_lookup_insert_ne in Hj by done. destruct (cs_owner _ Hc _ _ Hj) as (k & Hin & Hk).
      exists k. split; [by right|done].
Qed.

Lemma consistent_release s t key l1 l2 i :
  consistent s -> held s = l1 ++ (t, key) :: l2 -> bucket_of (sys_lock s) key = Ok i ->
  consistent (mkSys (set_bucket (sys_lock s) i None) (l1 ++ l2)).
Proof.
  intros Hc Hh Hi. assert (Hin : forall x, x ∈ l1 ++ l2 -> x ∈ held s).
  { intros x. rewrite Hh, !elem_of_app, elem_of_cons. tauto. }
  pose proof (cs_nodup _ Hc) as Hnd. rewrite Hh, fmap_app, fmap_cons in Hnd.
  apply NoDup_app in Hnd as (Hn1 & Hd & [Hn Hn2]%NoDup_cons).
  assert (Hne : forall u k, (u, k) ∈ l1 ++ l2 -> bucket_of (sys_lock s) k <> Ok i).
  { intros u k Hk E. cbn [snd] in *. rewrite Hi in *. apply elem_of_app in Hk as [Hk|Hk].
    - apply (Hd (Ok i)); [|left]. apply list_elem_of_fmap. by exists (u, k).
    - apply Hn, list_elem_of_fmap. by exists (u, k). }
  constructor; cbn [sys_lock held]; [by apply sized_set, Hc|..].
  - intros u k Hk. by eapply cs_keys, Hin.
  - intros u k j Hk Hj. cbn. change (bucket_of (sys_lock s) k = Ok j) in Hj.
    rewrite list_lookup_insert_ne; [by eapply cs_held, Hj; [|apply Hin]|]. intros <-. by eapply Hne.
  - rewrite fmap_app. apply NoDup_app. split_and!; [exact Hn1| |exact Hn2].
    intros x Hx1 Hx2. apply (Hd x Hx1). by right.
  - intros j u. cbn. intros Hj. destruct (decide (j = i)) as [->|Hji].
    + destruct (decide (i < length (_bucket_list (sys_lock s)))%nat) as [Hl|Hl].
      * by rewrite list_lookup_insert_eq in Hj.
      * apply lookup_lt_Some in Hj. rewrite length_insert in Hj. done.
    + rewrite list_lookup_insert_ne in Hj by done. destruct (cs_owner _ Hc _ _ Hj) as (k & Hk & Ek).
      exists k. split; [|done]. rewrite Hh, elem_of_app, elem_of_cons in Hk. apply elem_of_app.
      destruct Hk as [|[[= -> ->]|]]; [by left| |by right]. congruence.
Qed.

Lemma kstep_consistent s s' : consistent s -> kstep s s' -> consistent s'.
Proof.
  intros Hc Hst. destruct Hst as [s t key kl Hu E|s t key kl Hu E|s t key kl Hu E|s t key l1 l2 kl Hh E].
  1,2,3: destruct (usable_bucket (sys_lock s) key (cs_sized _ Hc) Hu) as (i & b & Hi & Hb & Hl).
  - unfold lock in E. rewrite Hi in E. cbn in E. rewrite Hb in E. destruct b; [done|]. injection E as <-.
    by apply consistent_acquire.
  - unfold try_lock in E. rewrite Hi in E. cbn in E. rewrite Hb in E. destruct b; [done|]. injection E as <-.
    by apply consistent_acquire.
  - unfold try_lock in E. rewrite Hi in E. cbn in E. rewrite Hb in E. destruct b; [|done]. injection E as <-.
    by destruct s.
  - unfold unlock in E. destruct (bucket_of (sys_lock s) key) as [i|] eqn:Hi; [|done]. cbn in E.
    destruct (bucket (sys_lock s) i); [|done]. injection E as <-. by eapply consistent_release.
Qed.

Lemma run_consistent p kl s :
  0 <= p -> new_KeyLock p = Ok kl -> rtc kstep (mkSys kl []) s -> consistent s.
Proof.
  intros Hp Hk. revert s. apply rtc_ind_r.
  - destruct (new_KeyLock_sized p kl Hp Hk) as [Hs Hf]. constructor; cbn.
    + done.
    + by intros t key ?%elem_of_nil.
    + by intros t key i ?%elem_of_nil.
    + constructor.
    + intros i t Hi. by apply (Forall_lookup_1 _ _ _ _ Hf) in Hi.
  - intros s1 s2 _ Hst Hc. by eapply kstep_consistent.
Qed.

Lemma destroy_buckets_free n i kl : (i + n <= length (_bucket_list kl))%nat ->
  (forall j t, _bucket_list kl !! j <> Some (Some t)) -> destroy_buckets n i kl = Ok ().
Proof.
  revert i. induction n as [|n IH]; intros i Hl Hf; [done|]. cbn. unfold bucket.
  destruct (_bucket_list kl !! i) as [[t|]|] eqn:Hi; [by destruct (Hf i t)| |apply lookup_ge_None_1 in Hi; lia].
  cbn. apply IH; [lia|done].
Qed.

(** No operation changes the number of buckets. *)
Lemma bucket_num_kept s s' : kstep s s' -> _bucket_num (sys_lock s') = _bucket_num (sys_lock s) /\
  length (_bucket_list (sys_lock s')) = length (_bucket_list (sys_lock s)).
Proof.
  intros Hst. destruct Hst as [s t key kl Hu E|s t key kl Hu E|s t key kl Hu E|s t key l1 l2 kl Hh E];
    [unfold lock in E|unfold try_lock in E|unfold try_lock in E|unfold unlock in E];
    destruct (bucket_of (sys_lock s) key) as [i|]; try done; cbn in E; destruct (bucket (sys_lock s) i) as [[?|]|]; try done;
    injection E as <-; cbn; by rewrite ?length_insert.
Qed.

(** What a key's bucket makes of a [lock] and a [try_lock]: blocked and refused,
    with no change, when a held key falls in it, taken otherwise. *)
Definition lock_outcome (s : system) (t : tid) (key : Slice) : Prop :=
  (exists u k, (u, k) ∈ held s /\ bucket_of (sys_lock s) k = bucket_of (sys_lock s) key /\
     lock (sys_lock s) t key = Ok None /\ try_lock (sys_lock s) t key = Ok (false, sys_lock s)) \/
  ((forall u k, (u, k) ∈ held s -> bucket_of (sys_lock s) k <> bucket_of (sys_lock s) key) /\
   exists kl', lock (sys_lock s) t key = Ok (Some kl') /\ try_lock (sys_lock s) t key = Ok (true, kl')).

Lemma consistent_outcome s t key : consistent s -> usable key -> lock_outcome s t key.
Proof.
  intros Hc Hu. destruct (usable_bucket (sys_lock s) key (cs_sized _ Hc) Hu) as (i & b & Hi & Hb & Hl).
  unfold lock_outcome, lock, try_lock. rewrite Hi. cbn [mbind outcome_bind]. rewrite Hb. cbn [mbind outcome_bind].
  destruct b as [u|].
  - left. destruct (cs_owner _ Hc _ _ Hl) as (k & Hin & Hk'). by exists u, k.
  - right. split; [|by eexists]. intros u k Hin E. pose proof (cs_held _ Hc _ _ _ Hin E). congruence.
Qed.

(** A held key is short whatever contents it is read with. *)
Lemma held_short s a t key c : consistent s -> held s !! a = Some (t, key) -> denotes key c -> short c.
Proof.
  intros Hc Ha (_ & Hs & _). destruct (cs_keys _ Hc t key) as (c' & (_ & Hs' & _) & Hc'); [by eapply list_elem_of_lookup_2|].
  unfold short in *. lia.
Qed.

(** ** Properties *)

(** When every key was unlocked again, the destructor finds all mutexes free. *)
Theorem key_lock_destroyed_free p kl s : 0 <= p -> new_KeyLock p = Ok kl -> rtc kstep (mkSys kl []) s -> held s = [] ->
  delete_KeyLock (sys_lock s) = Ok ().
Proof.
  intros Hp Hk Hrun Hh. pose proof (run_consistent p kl s Hp Hk Hrun) as Hc. apply destroy_buckets_free.
  - cut (length (_bucket_list (sys_lock s)) = Z.to_nat (_bucket_num (sys_lock s))); [lia|]. clear Hh Hc. revert s Hrun. apply rtc_ind_r.
    + cbn. unfold new_KeyLock, guard_trap in Hk. destruct (p <? 32); [|done]. injection Hk as <-. cbn. by rewrite length_replicate.
    + intros s1 s2 _ Hst IH. destruct (bucket_num_kept s1 s2 Hst) as [-> ->]. done.
  - intros j t Hj. destruct (cs_owner _ Hc j t Hj) as (key & Hin & _). rewrite Hh in Hin. by apply elem_of_nil in Hin.
Qed.

(** C35: Mutual exclusion, for keys shorter than 2^31 bytes.  In any interleaving
    of [lock], [try_lock] and [unlock] of any number of threads on such keys, two
    different holders never hold the same key, whatever slices they name it
    with; no operation of a thread can go wrong: a [lock] or [try_lock] of a key
    whose bucket is in use blocks, or reports failure and changes nothing (the
    calling thread's own locks included), one whose bucket is free succeeds; and
    unlocking a held key returns. *)
Theorem key_lock_mutual_exclusion p kl s :
  0 <= p -> new_KeyLock p = Ok kl -> rtc kstep (mkSys kl []) s ->
  (forall a b t1 t2 k1 k2 c, held s !! a = Some (t1, k1) -> held s !! b = Some (t2, k2) ->
     denotes k1 c -> denotes k2 c -> a = b) /\
  (forall t key, usable key -> lock_outcome s t key) /\
  (forall t key, (t, key) ∈ held s -> exists kl', unlock (sys_lock s) key = Ok kl').
Proof.
  intros Hp Hk Hrun. pose proof (run_consistent p kl s Hp Hk Hrun) as Hc. split_and!.
  - intros a b t1 t2 k1 k2 c Ha Hb H1 H2. apply (NoDup_lookup _ a b (Ok (index (sys_lock s) c)) (cs_nodup _ Hc)).
    + rewrite list_lookup_fmap, Ha. cbn. rewrite (bucket_of_index _ k1 c); [done..|]. by eapply held_short.
    + rewrite list_lookup_fmap, Hb. cbn. rewrite (bucket_of_index _ k2 c); [done..|]. by eapply held_short.
  - intros t key. by apply consistent_outcome.
  - intros t key Hin. destruct (usable_bucket _ key (cs_sized _ Hc) (cs_keys _ Hc _ _ Hin)) as (i & b & Hi & Hb & _).
    unfold unlock. rewrite Hi. cbn [mbind outcome_bind]. rewrite Hb. cbn [mbind outcome_bind]. eauto.
Qed.

(** Thread 7 locks a key; thread 8 tries the same key, named inside another
    string, in vain and locks a different one. *)
Definition small_lock : KeyLock := mkKeyLock 4 3 (replicate 4 None).
Definition demo_key : Slice := slice_of_string (str "user:1").
Definition same_key : Slice := mkSlice (str "[user:1]") 0 1 6.
Definition other_key : Slice := slice_of_string (str "user:2").
Definition locked_by (kl : KeyLock) (t : tid) (key : Slice) : KeyLock :=
  match lock kl t key with Ok (Some kl) => kl | _ => kl end.
Definition demo_contended : system :=
  mkSys (locked_by (locked_by small_lock 7 demo_key) 8 other_key) [(8%nat, other_key); (7%nat, demo_key)].

Lemma usable_string c : is_bytes c -> short c -> usable (slice_of_string c).
Proof. intros Hb Hs. exists c. split; [by apply slice_of_string_denotes|done]. Qed.

Lemma same_key_denotes : denotes same_key (str "user:1").
Proof. split; [decide_vm|]. split; [done|]. by exists (str "["), (str "]"). Qed.

Lemma same_key_usable : usable same_key.
Proof. exists (str "user:1"). split; [apply same_key_denotes|vm_compute; reflexivity]. Qed.

Lemma key_lock_mutual_exclusion_witness :
  (forall a b t1 t2 k1 k2 c, held demo_contended !! a = Some (t1, k1) -> held demo_contended !! b = Some (t2, k2) ->
     denotes k1 c -> denotes k2 c -> a = b) /\
  lock_outcome demo_contended 8 same_key /\
  try_lock (sys_lock demo_contended) 8 same_key = Ok (false, sys_lock demo_contended) /\
  exists kl', unlock (sys_lock demo_contended) demo_key = Ok kl'.
Proof.
  destruct (key_lock_mutual_exclusion 2 small_lock demo_contended) as (Hx & Ho & Hu).
  - lia.
  - vm_compute. reflexivity.
  - eapply rtc_l; [apply (k_lock (mkSys small_lock []) 7 demo_key (locked_by small_lock 7 demo_key))|].
    + apply usable_string; [decide_vm|vm_compute; reflexivity].
    + vm_compute. reflexivity.
    + eapply rtc_l; [apply (k_try_fails _ 8 same_key (locked_by small_lock 7 demo_key)); [apply same_key_usable|vm_compute; reflexivity]|].
      eapply rtc_l; [apply (k_lock _ 8 other_key (locked_by (locked_by small_lock 7 demo_key) 8 other_key))|apply rtc_refl].
      * apply usable_string; [decide_vm|vm_compute; reflexivity].
      * vm_compute. reflexivity.
  - split; [exact Hx|]. split; [apply Ho, same_key_usable|]. split; [vm_compute; reflexivity|].
    apply (Hu 7%nat). right. left.
Defined.
