(* ===== verification/UrlSnprintf.v ===== *)
(** * Formatted output (src/util/url_snprintf.cpp)

    [url_vsnprintf] interprets a printf format and percent-encodes what it
    prints.  The output buffer is a block of memory with the locals [buf] and
    [size] of the code; the format is the block read through [*fmt++], its
    terminator included; the variable arguments are a list of typed values, and
    taking one of another type, signed overflow and the conversion of a number
    out of range are [Undefined].  Doubles are binary64 numbers of Rocq's
    specification of IEEE 754. *)

From S2P Require Import Prelude Utils.
From Stdlib Require Import SpecFloat.

(** ** Output *)

(** The locals [original_buf], [buf] and [size]. *)
Record out := mkOut { o_mem : bytes; o_buf : Z; o_size : Z }.

Definition hex : bytes := str "0123456789abcdef" ++ [0].
Definition HEX : bytes := str "0123456789ABCDEF" ++ [0].

(** The [case] labels of [_put]: the unreserved characters of RFC 3986. *)
Definition unreserved (c : Z) : bool :=
  isupper c || islower c || isdigit c || (c =? 45) || (c =? 46) || (c =? 95) || (c =? 126).

(** [*buf++ = b] for each of the bytes, leaving [size] bytes of room. *)
Fixpoint append (o : out) (bs : bytes) (size : Z) : outcome out :=
  match bs with
  | [] => Ok (mkOut (o_mem o) (o_buf o) size)
  | b :: bs => m ← store (o_mem o) (o_buf o) b; append (mkOut m (o_buf o + 1) (o_size o)) bs size
  end.

(** The macro [_put]. *)
Definition _put (o : out) (c : Z) : outcome out :=
  let size := o_size o in
  if unreserved c then (if size =? 0 then Ok o else append o [c] (size - 1))
  else if size =? 0 then Ok o
  else if size =? 1 then append o [37] 0
  else if size =? 2 then append o [37; Z.land (Z.shiftr c 4) 0xf + 48] 0
  else
    h ← load HEX (Z.land (Z.shiftr c 4) 0xf);
    l ← load HEX (Z.land c 0xf);
    append o [37; h; l] (size - 3).

(** [for (...) _put(c)], [n] times. *)
Fixpoint put_n (n : nat) (o : out) (c : Z) : outcome out :=
  match n with O => Ok o | S n => o ← _put o c; put_n n o c end.

(** ** Arguments *)

Inductive va : Set :=
| VInt (z : Z)        (** an [int] or [unsigned int] *)
| VLong (z : Z)       (** a [long], [long long], [size_t], or a pointer's value *)
| VStr (m : bytes)    (** a pointer to a block of characters *)
| VDouble (d : spec_float).

Inductive ctype : Set := T_int | T_uint | T_long | T_ulong | T_llong | T_ullong | T_size_t.

Definition ctype_signed (t : ctype) : bool :=
  match t with T_int | T_long | T_llong => true | _ => false end.
Definition ctype_width (t : ctype) : Z := match t with T_int | T_uint => 32 | _ => 64 end.

(** The bits of an argument read as a value of the type. *)
Definition read_as (t : ctype) (z : Z) : Z :=
  if ctype_signed t then swrap (ctype_width t) z else uwrap (ctype_width t) z.

(** [va_arg(vl, type)]. *)
Definition va_arg (t : ctype) (vl : list va) : outcome (Z * list va) :=
  match vl with
  | VInt z :: vl => if ctype_width t =? 32 then Ok (read_as t z, vl) else Trap Undefined
  | VLong z :: vl => if ctype_width t =? 64 then Ok (read_as t z, vl) else Trap Undefined
  | _ => Trap Undefined
  end.

Definition va_arg_str (vl : list va) : outcome (bytes * list va) :=
  match vl with VStr m :: vl => Ok (m, vl) | _ => Trap Undefined end.
Definition va_arg_double (vl : list va) : outcome (spec_float * list va) :=
  match vl with VDouble d :: vl => Ok (d, vl) | _ => Trap Undefined end.

(** The result of an [int] computation. *)
Definition int_of (z : Z) : outcome Z :=
  if (INT_MIN <=? z) && (z <=? INT_MAX) then Ok z else Trap Undefined.

(** ** Directives *)

Definition STATE_FLAGS : Z := 0.
Definition STATE_WIDTH : Z := 1.
Definition STATE_PRECISION : Z := 2.
Definition STATE_LENGTH : Z := 3.

(** The locals of the loop over one directive ([haswidth] is only assigned). *)
Record dir := mkDir {
  d_state : Z; d_alternate : bool; d_minus : bool; d_plus : bool; d_space : bool; d_zero : bool;
  d_width : Z; d_precision : Z; d_hasprecision : bool; d_length : Z }.

Definition dir0 : dir := mkDir 0 false false false false false 0 0 false 0.

Definition set_width (d : dir) (state width : Z) : dir :=
  mkDir state (d_alternate d) (d_minus d) (d_plus d) (d_space d) (d_zero d) width
    (d_precision d) (d_hasprecision d) (d_length d).
Definition set_precision (d : dir) (state precision : Z) : dir :=
  mkDir state (d_alternate d) (d_minus d) (d_plus d) (d_space d) (d_zero d) (d_width d)
    precision true (d_length d).
Definition set_length (d : dir) (length : Z) : dir :=
  mkDir STATE_LENGTH (d_alternate d) (d_minus d) (d_plus d) (d_space d) (d_zero d) (d_width d)
    (d_precision d) (d_hasprecision d) length.

(** The flag characters, which count in the first state only. *)
Definition set_flag (c : Z) (d : dir) : dir :=
  if d_state d =? STATE_FLAGS then
    mkDir (d_state d) (d_alternate d || (c =? 35)) (d_minus d || (c =? 45)) (d_plus d || (c =? 43))
      (d_space d || (c =? 32)) (d_zero d || (c =? 48)) (d_width d)
      (d_precision d) (d_hasprecision d) (d_length d)
  else d.

(** A digit of the width or of the precision. *)
Definition digit_char (c : Z) (d : dir) : outcome dir :=
  if d_state d <=? STATE_WIDTH then
    w ← int_of (d_width d * 10 + (c - 48)); Ok (set_width d STATE_WIDTH w)
  else if d_state d =? STATE_PRECISION then
    p ← int_of (d_precision d * 10 + (c - 48)); Ok (set_precision d (d_state d) p)
  else Ok d.

Definition dot_char (d : dir) : dir :=
  if d_state d <=? STATE_PRECISION then set_precision d STATE_PRECISION (d_precision d) else d.

(** [case '*'], before it falls through into [case 'h']. *)
Definition star_char (d : dir) (vl : list va) : outcome (dir * list va) :=
  if d_state d <=? STATE_WIDTH then
    r ← va_arg T_int vl; Ok (set_width d STATE_PRECISION (fst r), snd r)
  else if d_state d =? STATE_PRECISION then
    r ← va_arg T_int vl; Ok (set_precision d STATE_LENGTH (fst r), snd r)
  else Ok (d, vl).

Definition h_char (d : dir) : dir := set_length d (if d_length d =? 104 then 72 else 104).
Definition l_char (d : dir) : dir := set_length d (if d_length d =? 108 then 76 else 108).

(** The characters that do not end a directive; the others of them are the
    apostrophe and the unknown characters, which are skipped. *)
Definition flag_char (c : Z) (d : dir) (vl : list va) : outcome (dir * list va) :=
  if (c =? 35) || (c =? 45) || (c =? 43) || (c =? 32) then Ok (set_flag c d, vl)
  else if (c =? 48) && (d_state d =? STATE_FLAGS) then Ok (set_flag c d, vl)
  else if isdigit c then d ← digit_char c d; Ok (d, vl)
  else if c =? 46 then Ok (dot_char d, vl)
  else if c =? 42 then r ← star_char d vl; Ok (h_char (fst r), snd r)
  else if c =? 104 then Ok (h_char d, vl)
  else if c =? 108 then Ok (l_char d, vl)
  else if (c =? 106) || (c =? 122) || (c =? 116) then Ok (set_length d c, vl)
  else if c =? 76 then Ok (set_length d 68, vl)
  else Ok (d, vl).

(** ** Integer conversions *)

(** The argument [alt] of [_out_int_alt]. *)
Inductive alt : Set := AltNone | AltO | AltX (x : Z).

(** [*cur++ = c] into [char tmp[maxlen]]. *)
Definition push_tmp (maxlen : nat) (tmp : bytes) (c : Z) : outcome bytes :=
  if (length tmp <? maxlen)%nat then Ok (tmp ++ [c]) else Trap OutOfBounds.

(** [while (val > 0)]: every turn stores a character, so [maxlen] bounds it. *)
Fixpoint digits (fuel maxlen : nat) (base : Z) (h : bytes) (val : Z) (tmp : bytes) : outcome bytes :=
  match fuel with
  | O => Trap OutOfFuel
  | S fuel =>
      if 0 <? val then
        c ← (if base <=? 10 then Ok (val mod base + 48) else load h (val mod base));
        tmp ← push_tmp maxlen tmp c;
        digits fuel maxlen base h (val / base) tmp
      else Ok tmp
  end.

(** A leading character: printed at once before a padding of zeroes, or kept
    with the digits. *)
Definition lead (maxlen : nat) (d : dir) (c : Z) (s : out * Z * bytes) : outcome (out * Z * bytes) :=
  let '(o, width, tmp) := s in
  if d_zero d && negb (width =? 0) then
    o ← _put o c; width ← int_of (width - 1); Ok (o, width, tmp)
  else tmp ← push_tmp maxlen tmp c; Ok (o, width, tmp).

Definition sign_lead (maxlen : nat) (negative hasneg : bool) (d : dir) (s : out * Z * bytes) :
    outcome (out * Z * bytes) :=
  if negative then lead maxlen d 45 s
  else if hasneg && d_plus d then lead maxlen d 43 s
  else if hasneg && d_space d then lead maxlen d 32 s
  else Ok s.

(** The macros [_alt_o] and [_alt_x]. *)
Definition alt_lead (maxlen : nat) (a : alt) (d : dir) (s : out * Z * bytes) : outcome (out * Z * bytes) :=
  if negb (d_alternate d) then Ok s else
  match a with
  | AltNone => Ok s
  | AltO => lead maxlen d 48 s
  | AltX x =>
      let '(o, width, tmp) := s in
      if d_zero d && negb (width =? 0) then
        o ← _put o 48; o ← _put o x;
        Ok (o, if width <? 2 then 0 else width - 2, tmp)
      else tmp ← push_tmp maxlen tmp x; tmp ← push_tmp maxlen tmp 48; Ok (o, width, tmp)
  end.

(** The padding on the left; [width] stays as it is. *)
Definition pad_left (d : dir) (s : out * Z * bytes) : outcome out :=
  let '(o, width, tmp) := s in
  if d_minus d then Ok o
  else if width =? 0 then Ok o
  else put_n (Z.to_nat (width - Z.of_nat (length tmp))) o (if d_zero d then 48 else 32).

(** [while (cur >= tmp && size > 0) { _put(...); width--; }], last character
    first. *)
Fixpoint put_tmp (rtmp : bytes) (o : out) (width : Z) : outcome (out * Z) :=
  match rtmp with
  | [] => Ok (o, width)
  | c :: rtmp =>
      if 0 <? o_size o then
        o ← _put o c; width ← int_of (width - 1); put_tmp rtmp o width
      else Ok (o, width)
  end.

(** [while (width > 0 && size > 0)], with [n] the positive part of [width]. *)
Fixpoint pad_right (n : nat) (o : out) : outcome out :=
  match n with
  | O => Ok o
  | S n => if 0 <? o_size o then o ← _put o 32; pad_right n o else Ok o
  end.

(** The macro [_out_int_alt]. *)
Definition out_int_alt (t : ctype) (maxlen : nat) (hasneg : bool) (base : Z) (a : alt) (h : bytes)
    (d : dir) (o : out) (vl : list va) : outcome (out * list va) :=
  r ← va_arg t vl;
  let '(val, vl) := r in
  let negative := val <? 0 in
  _ ← (if negative && (val =? - 2 ^ (ctype_width t - 1)) then Trap Undefined else Ok tt);
  let val := Z.abs val in
  tmp ← (if val =? 0 then push_tmp maxlen [] 48 else digits (S maxlen) maxlen base h val []);
  s ← sign_lead maxlen negative hasneg d (o, d_width d, tmp);
  s ← alt_lead maxlen a d s;
  o ← pad_left d s;
  r ← put_tmp (rev (snd s)) o (snd (fst s));
  o ← pad_right (Z.to_nat (snd r)) (fst r);
  Ok (o, vl).

(** The [switch (length)] of the integer conversions: the types for no length
    or h, l, ll and z; any other length prints nothing. *)
Definition int_switch (t0 tl tL : ctype) (hasneg : bool) (base : Z) (a : alt) (h : bytes)
    (d : dir) (o : out) (vl : list va) : outcome (out * list va) :=
  let len := d_length d in
  if (len =? 0) || (len =? 104) || (len =? 72) then out_int_alt t0 16 hasneg base a h d o vl
  else if len =? 108 then out_int_alt tl 32 hasneg base a h d o vl
  else if len =? 76 then out_int_alt tL 64 hasneg base a h d o vl
  else if len =? 122 then out_int_alt T_size_t 32 hasneg base a h d o vl
  else Ok (o, vl).

Definition conv_d := int_switch T_int T_long T_llong true 10 AltNone hex.
Definition conv_u := int_switch T_uint T_ulong T_ullong false 10 AltNone hex.
Definition conv_o := int_switch T_uint T_ulong T_ullong false 8 AltO hex.
Definition conv_x := int_switch T_uint T_ulong T_ullong false 16 (AltX 120) hex.
Definition conv_X := int_switch T_uint T_ulong T_ullong false 16 (AltX 88) HEX.
Definition conv_p := out_int_alt T_ulong 32 false 16 (AltX 120) hex.

(** [case 'c']. *)
Definition conv_c (o : out) (vl : list va) : outcome (out * list va) :=
  r ← va_arg T_int vl; o ← _put o (u8 (fst r)); Ok (o, snd r).

(** ** Strings *)

(** [for (tmpchr = val; *tmpchr && len < width; tmpchr++, len++)]. *)
Fixpoint count_to (m : bytes) (len width : Z) : outcome Z :=
  match m with
  | [] => Trap OutOfBounds
  | c :: m => if negb (c =? 0) && (len <? width) then count_to m (len + 1) width else Ok len
  end.

(** [for (i = 0; i < len; i++) _put(val[i])]. *)
Fixpoint put_first (n : nat) (m : bytes) (o : out) : outcome out :=
  match n, m with
  | O, _ => Ok o
  | S n, c :: m => o ← _put o c; put_first n m o
  | S _, [] => Trap OutOfBounds
  end.

(** [while ( *val && size && precision) { _put( *val); val++; precision--; }]:
    also how far [val] moved. *)
Fixpoint put_upto (m : bytes) (o : out) (precision moved : Z) : outcome (out * Z) :=
  match m with
  | [] => Trap OutOfBounds
  | c :: m =>
      if negb (c =? 0) && negb (o_size o =? 0) && negb (precision =? 0) then
        o ← _put o c; precision ← int_of (precision - 1); put_upto m o precision (moved + 1)
      else Ok (o, moved)
  end.

(** [while ( *val && size) { _put( *val); val++; }]. *)
Fixpoint put_all (m : bytes) (o : out) (moved : Z) : outcome (out * Z) :=
  match m with
  | [] => Trap OutOfBounds
  | c :: m =>
      if negb (c =? 0) && negb (o_size o =? 0) then o ← _put o c; put_all m o (moved + 1)
      else Ok (o, moved)
  end.

Definition put_as_is (m : bytes) (o : out) (precision : Z) : outcome (out * Z) :=
  if negb (precision =? 0) then put_upto m o precision 0 else put_all m o 0.

(** [case 's']. *)
Definition conv_s (d : dir) (o : out) (vl : list va) : outcome (out * list va) :=
  r ← va_arg_str vl;
  let '(val, vl) := r in
  let width := d_width d in
  let precision := d_precision d in
  if negb (width =? 0) && negb (d_minus d) then
    len ← count_to val 0 width;
    let len := if negb (precision =? 0) && (precision <? len) then precision else len in
    if len <? width then
      k ← int_of (width - len);
      o ← put_n (Z.to_nat k) o 32;
      o ← put_first (Z.to_nat len) val o;
      Ok (o, vl)
    else r ← put_as_is val o precision; Ok (fst r, vl)
  else
    r ← put_as_is val o precision;
    let '(o, moved) := r in
    if negb (width =? 0) then
      o ← put_n (Z.to_nat (s32 (width - moved))) o 32; Ok (o, vl)
    else Ok (o, vl).

(** ** Doubles *)

Definition fadd := SFadd 53 1024.
Definition fsub := SFsub 53 1024.
Definition fmul := SFmul 53 1024.
Definition fdiv := SFdiv 53 1024.
Definition flt (a b : spec_float) : bool := SFltb a b.
Definition fge (a b : spec_float) : bool := SFleb b a.

(** The double nearest to n * 2^e, and the literals 1e<k> and 1e-<k>. *)
Definition of_Z (n e : Z) : spec_float := binary_normalize 53 1024 n e false.
Definition lit (k : Z) : spec_float := of_Z (10 ^ k) 0.
Definition lit_inv (k : Z) : spec_float := of_Z (2 ^ (200 + 4 * k) / 10 ^ k) (- (200 + 4 * k)).
Definition half : spec_float := of_Z 1 (-1).
Definition zero : spec_float := S754_zero false.

(** [(int) val]. *)
Definition to_int (v : spec_float) : outcome Z :=
  match v with
  | S754_zero _ => Ok 0
  | S754_finite s m e =>
      let t := if 0 <=? e then Z.pos m * 2 ^ e else Z.pos m / 2 ^ (- e) in
      int_of (if s then - t else t)
  | _ => Trap Undefined
  end.

(** [while (val >= p*scale && exp <= 350) { scale *= p; exp += k; }]. *)
Fixpoint scale_up (fuel : nat) (p : spec_float) (k : Z) (val : spec_float) (s : spec_float * Z) :
    outcome (spec_float * Z) :=
  match fuel with
  | O => Trap OutOfFuel
  | S fuel =>
      let '(scale, exp) := s in
      if fge val (fmul p scale) && (exp <=? 350)
      then scale_up fuel p k val (fmul scale p, exp + k) else Ok s
  end.

(** [while (val < q && val > 0) { val *= p; exp -= k; }]. *)
Fixpoint scale_down (fuel : nat) (q p : spec_float) (k : Z) (s : spec_float * Z) :
    outcome (spec_float * Z) :=
  match fuel with
  | O => Trap OutOfFuel
  | S fuel =>
      let '(val, exp) := s in
      if flt val q && flt zero val
      then scale_down fuel q p k (fmul val p, exp - k) else Ok s
  end.

Definition scale_loops (val : spec_float) : outcome (spec_float * Z) :=
  s ← scale_up 400 (lit 100) 100 val (lit 0, 0);
  s ← scale_up 400 (lit 64) 64 val s;
  s ← scale_up 400 (lit 8) 8 val s;
  scale_up 400 (lit 1) 1 val s.

(** The scientific branch: the mantissa in [1, 10) and the exponent. *)
Definition normalise (val scale rounder : spec_float) (exp : Z) : outcome (spec_float * Z) :=
  s ← scale_down 400 (lit_inv 100) (lit 100) 100 (fdiv val scale, exp);
  s ← scale_down 400 (lit_inv 64) (lit 64) 64 s;
  s ← scale_down 400 (lit_inv 8) (lit 8) 8 s;
  s ← scale_down 400 (lit 0) (lit 1) 1 s;
  let val := fadd (fst s) rounder in
  if fge val (lit 1) then Ok (fmul val (lit_inv 1), snd s + 1) else Ok (val, snd s).

(** The printed length, computed when a width is given. *)
Definition double_len (fmode negative : bool) (d : dir) (precision exp : Z) : outcome Z :=
  if d_width d =? 0 then Ok 0 else
  let len := if negative || d_plus d || d_space d then 1 else 0 in
  len ← (if fmode then int_of (len + (exp + 1 + 1 + precision))
         else int_of (len + (1 + 1 + precision) +
                      (if (100 <=? exp) || (exp <=? -100) then 5 else 4)));
  int_of (if d_hasprecision d && (precision =? 0) && negb (d_alternate d) then len - 1 else len).

(** [for (i = width - len; i > 0; i--) _put(c)], under the test of the code. *)
Definition double_pad (test : bool) (d : dir) (len c : Z) (o : out) : outcome out :=
  if (len <? d_width d) && test then
    k ← int_of (d_width d - len); put_n (Z.to_nat k) o c
  else Ok o.

Definition put_digit (z : Z) (o : out) : outcome out := _put o (u8 (z + 48)).

(** The digits before and after the dot of the fixed notation, and those of
    the mantissa. *)
Fixpoint int_digits (n : nat) (val scale : spec_float) (o : out) : outcome (spec_float * out) :=
  match n with
  | O => Ok (val, o)
  | S n =>
      z ← to_int (fdiv val scale);
      o ← put_digit (Z.rem z 10) o;
      int_digits n (fsub val (fmul (of_Z z 0) scale)) (fmul scale (lit_inv 1)) o
  end.

Fixpoint frac_digits (n : nat) (val scale : spec_float) (o : out) : outcome out :=
  match n with
  | O => Ok o
  | S n =>
      z ← to_int (fmul val scale);
      o ← put_digit (Z.rem z 10) o;
      frac_digits n (fsub val (fdiv (of_Z z 0) scale)) (fmul scale (lit 1)) o
  end.

Fixpoint mant_digits (n : nat) (val : spec_float) (o : out) : outcome (spec_float * out) :=
  match n with
  | O => Ok (val, o)
  | S n =>
      z ← to_int val;
      o ← put_digit z o;
      mant_digits n (fmul (fsub val (of_Z z 0)) (lit 1)) o
  end.

(** [while (maxexp < exp) maxexp = (maxexp+1)*10 - 1;] *)
Fixpoint max_exp (fuel : nat) (maxexp exp : Z) : outcome Z :=
  match fuel with
  | O => Trap OutOfFuel
  | S fuel => if maxexp <? exp then max_exp fuel ((maxexp + 1) * 10 - 1) exp else Ok maxexp
  end.

(** [while (maxexp >= 1) { _put(((exp/maxexp)%10)+'0'); maxexp /= 10; }] *)
Fixpoint exp_digits (fuel : nat) (maxexp exp : Z) (o : out) : outcome out :=
  match fuel with
  | O => Trap OutOfFuel
  | S fuel =>
      if 1 <=? maxexp then
        o ← put_digit ((exp / maxexp) mod 10) o; exp_digits fuel (maxexp / 10) exp o
      else Ok o
  end.

Definition put_dot (d : dir) (precision : Z) (o : out) : outcome out :=
  if negb (d_hasprecision d && (precision =? 0) && negb (d_alternate d)) then _put o 46 else Ok o.

Definition put_fixed (d : dir) (precision exp : Z) (val scale : spec_float) (o : out) : outcome out :=
  r ← (if fge val (lit 0) then int_digits (Z.to_nat (exp + 1)) val scale o
       else o ← _put o 48; Ok (val, o));
  o ← put_dot d precision (snd r);
  frac_digits (Z.to_nat precision) (fst r) (lit 1) o.

Definition put_scientific (d : dir) (precision exp capital : Z) (val : spec_float) (o : out) : outcome out :=
  r ← mant_digits 1 val o;
  o ← put_dot d precision (snd r);
  r ← mant_digits (Z.to_nat precision) (fst r) o;
  o ← _put (snd r) (101 + capital);
  o ← _put o (if exp <? 0 then 45 else 43);
  let exp := Z.abs exp in
  maxexp ← max_exp 20 99 exp;
  exp_digits 20 ((maxexp + 1) / 10) exp o.

(** [case 'g'], ['G'], ['f'], ['e'] and ['E']. *)
Definition conv_double (c : Z) (d : dir) (o : out) (vl : list va) : outcome (out * list va) :=
  let fmode := c =? 102 in
  let capital := if (c =? 69) || (c =? 71) then -32 else 0 in
  r ← va_arg_double vl;
  let '(val, vl) := r in
  let negative := flt val zero in
  let val := if negative then SFopp val else val in
  let precision := if d_hasprecision d then d_precision d else 6 in
  let rounder := Nat.iter (Z.to_nat precision) (fun x => fmul x (lit_inv 1)) half in
  let val := if fmode then fadd val rounder else val in
  s ← scale_loops val;
  let '(scale, exp) := s in
  s ← (if fmode then Ok (val, exp) else normalise val scale rounder exp);
  let '(val, exp) := s in
  len ← double_len fmode negative d precision exp;
  o ← double_pad (negb (d_minus d) && negb (d_zero d)) d len 32 o;
  o ← (if negative then _put o 45 else if d_plus d then _put o 43
       else if d_space d then _put o 32 else Ok o);
  o ← double_pad (negb (d_minus d) && d_zero d) d len 48 o;
  o ← (if fmode then put_fixed d precision exp val scale o
       else put_scientific d precision exp capital val o);
  o ← double_pad (d_minus d) d len 32 o;
  Ok (o, vl).

(** ** The interpreter *)

(** The conversion characters: each ends its directive.  [n] prints what a
    second percent sign does. *)
Definition convert (c : Z) (d : dir) (o : out) (vl : list va) : option (outcome (out * list va)) :=
  if c =? 99 then Some (conv_c o vl)
  else if (c =? 105) || (c =? 100) then Some (conv_d d o vl)
  else if c =? 117 then Some (conv_u d o vl)
  else if c =? 111 then Some (conv_o d o vl)
  else if c =? 120 then Some (conv_x d o vl)
  else if c =? 88 then Some (conv_X d o vl)
  else if c =? 112 then Some (conv_p d o vl)
  else if (c =? 103) || (c =? 71) || (c =? 102) || (c =? 101) || (c =? 69) then Some (conv_double c d o vl)
  else if c =? 115 then Some (conv_s d o vl)
  else if (c =? 110) || (c =? 37) then Some (o ← _put o 37; Ok (o, vl))
  else None.

(** The two nested loops: [None] is the outer loop, [Some d] the inner one.
    The inner loop leaves at the terminator as well, and the outer one then
    reads on behind it. *)
Fixpoint run (fmt : bytes) (mode : option dir) (o : out) (vl : list va) : outcome (out * list va) :=
  match fmt with
  | [] => Trap OutOfBounds
  | c :: fmt =>
      match mode with
      | None =>
          if (c =? 0) || negb (0 <? o_size o) then Ok (o, vl)
          else if c =? 37 then run fmt (Some dir0) o vl
          else o ← _put o c; run fmt None o vl
      | Some d =>
          if c =? 0 then run fmt None o vl else
          match convert c d o vl with
          | Some r => r ← r; run fmt None (fst r) (snd r)
          | None => r ← flag_char c d vl; run fmt (Some (fst r)) o (snd r)
          end
      end
  end.

Definition url_vsnprintf (original_buf : bytes) (size : Z) (fmt : bytes) (vl : list va) :
    outcome (Z * bytes) :=
  r ← run fmt None (mkOut original_buf 0 size) vl;
  let o := fst r in
  m ← store (o_mem o) (o_buf o) 0;
  Ok (s32 (o_buf o), m).

Definition url_snprintf := url_vsnprintf.

(** ** Runs *)

(** The text written, for running the definitions. *)
Definition written (r : outcome (Z * bytes)) : option bytes :=
  match r with Ok (n, m) => Some (take (Z.to_nat n) m) | Trap _ => None end.

Example run_flags :
  written (url_snprintf (replicate 65 170) 64 (str "%#x|%-4d|%05d|%.2s" ++ [0])
    [VInt 255; VInt 42; VInt (-42); VStr (str "abc" ++ [0])]) =
  Some (str "0xff%7C42%20%20%7C-0042%20%20%7Cab").
Proof. reflexivity. Qed.

(** [%f] of 1.5, [%e] of 1.5 and [%.3f] of -15432. *)
Example run_doubles :
  written (url_snprintf (replicate 65 170) 64 (str "%f/%e/%.3f" ++ [0])
    [VDouble (of_Z 3 (-1)); VDouble (of_Z 3 (-1)); VDouble (of_Z (-15432) 0)]) =
  Some (str "1.500000%2F1.500000e%2B00%2F-15432.000").
Proof. vm_compute. reflexivity. Qed.

(** The literals are the nearest doubles. *)
Example literals :
  (lit_inv 1, lit_inv 100, lit 100) =
  (S754_finite false 7205759403792794 (-56), S754_finite false 7880401239278896 (-385),
   S754_finite false 5147557589468029 280).
Proof. vm_compute. reflexivity. Qed.
