(* ===== verification/UrlFacts.v ===== *)
(** * Properties of the formatted output

    url_vsnprintf stays inside its buffer and ends; its output is the percent
    encoding of what the format says; what it does at the ends of the buffer and
    of the format. *)

From S2P Require Import Prelude Utils UrlSnprintf.
From Stdlib Require Import SpecFloat.

(** ** What [_put] writes *)

Definition hexdigit (n : Z) : Z := if n <? 10 then n + 48 else n + 55.

(** The percent encoding of a character and of a text. *)
Definition enc1 (c : Z) : bytes :=
  if unreserved c then [c]
  else [37; hexdigit (Z.land (Z.shiftr c 4) 0xf); hexdigit (Z.land c 0xf)].
Definition enc (cs : bytes) : bytes := cs ≫= enc1.

(** What one [_put] writes when [size] bytes are left. *)
Definition put_bytes (size c : Z) : bytes :=
  if negb (unreserved c) && (size =? 2) then [37; Z.land (Z.shiftr c 4) 0xf + 48]
  else take (Z.to_nat size) (enc1 c).

(** The buffer has room for [size] more bytes and the terminator. *)
Definition good (o : out) : Prop :=
  0 <= o_buf o /\ 0 <= o_size o /\ o_buf o + o_size o < Z.of_nat (length (o_mem o)).

(** The state after writing [bs]. *)
Definition adv (o : out) (bs : bytes) : out :=
  mkOut (take (Z.to_nat (o_buf o)) (o_mem o) ++ bs ++ drop (Z.to_nat (o_buf o) + length bs) (o_mem o))
    (o_buf o + Z.of_nat (length bs)) (o_size o - Z.of_nat (length bs)).

Definition fits (o : out) (bs : bytes) : Prop := Z.of_nat (length bs) <= o_size o.
Definition grows (o o' : out) : Prop := exists bs, fits o bs /\ o' = adv o bs.

Lemma adv_nil o : adv o [] = o.
Proof.
  destruct o as [m b s]. unfold adv. cbn [o_mem o_buf o_size length app].
  rewrite Nat.add_0_r, take_drop. f_equal; simpl; lia.
Qed.

Lemma adv_app o a b : good o -> fits o a -> adv (adv o a) b = adv o (a ++ b).
Proof.
  unfold good, fits. destruct o as [m p s]. unfold adv. cbn [o_mem o_buf o_size]. intros Hg Hf.
  rewrite length_app. f_equal; try lia.
  replace (Z.to_nat (p + Z.of_nat (length a))) with (length (take (Z.to_nat p) m ++ a))
    by (rewrite length_app, length_take; lia).
  rewrite (app_assoc (take _ m) a), take_app_length, <-drop_drop, drop_app_length, drop_drop, <-!app_assoc.
  do 4 f_equal. lia.
Qed.

Lemma adv_good o a : good o -> fits o a -> good (adv o a).
Proof.
  unfold good, fits, adv. destruct o as [m p s]. cbn [o_mem o_buf o_size]. intros Hg Hf.
  rewrite !length_app, length_take, length_drop. lia.
Qed.

Lemma fits_both o a b : good o -> fits o a -> fits (adv o a) b -> fits o (a ++ b).
Proof. unfold fits. cbn [adv o_size]. rewrite length_app. lia. Qed.

Lemma grows_refl o : good o -> grows o o.
Proof. intros (?&?&?). exists []. split; [unfold fits; simpl; lia|]. by rewrite adv_nil. Qed.

Lemma grows_trans o o1 o2 : good o -> grows o o1 -> grows o1 o2 -> grows o o2.
Proof.
  intros Hg (a & Ha & ->) (b & Hb & ->). exists (a ++ b).
  split; [by apply fits_both|by rewrite adv_app].
Qed.

Lemma grows_good o o' : good o -> grows o o' -> good o'.
Proof. intros Hg (a & Ha & ->). by apply adv_good. Qed.

Lemma append_size o bs s size : append o bs size = append (mkOut (o_mem o) (o_buf o) s) bs size.
Proof.
  revert o s. induction bs as [|b bs IH]; intros o s; [done|]. cbn [append o_mem o_buf].
  destruct (store _ _ _); [|done]. cbn [mbind outcome_bind]. by rewrite (IH _ s).
Qed.

Lemma append_adv o bs size :
  good o -> fits o bs -> size = o_size o - Z.of_nat (length bs) -> append o bs size = Ok (adv o bs).
Proof.
  revert o. induction bs as [|b bs IH]; intros o Hg Hf ->.
  - cbn [append]. rewrite adv_nil. destruct o. cbn. do 2 f_equal. lia.
  - destruct Hg as (H1 & H2 & H3). pose proof Hf as Hf'. unfold fits in Hf. cbn [length] in Hf.
    cbn [append]. unfold store. decide_tests. cbn [mbind outcome_bind].
    set (o1 := mkOut _ _ _).
    assert (E : adv o [b] = mkOut (o_mem o1) (o_buf o1) (o_size o - 1)).
    { unfold adv, o1. cbn [o_mem o_buf length]. f_equal.
      rewrite insert_take_drop by lia. cbn [app]. by rewrite Nat.add_1_r. }
    rewrite (append_size o1 _ (o_size o - 1)), <-E, IH, adv_app; [done|..].
    + done.
    + unfold fits. simpl. lia.
    + apply adv_good; [done|]. unfold fits. simpl. lia.
    + unfold fits, adv. cbn. lia.
    + unfold adv. cbn [o_size length]. lia.
Qed.

Lemma HEX_digit n : 0 <= n < 16 -> load HEX n = Ok (hexdigit n).
Proof.
  intros Hn. assert (H : n ∈ seqZ 0 16) by (apply elem_of_seqZ; lia).
  clear Hn. revert n H. apply Forall_forall. repeat constructor.
Qed.

Lemma nibble z : 0 <= Z.land z 15 < 16.
Proof. change 15 with (Z.ones 4). rewrite Z.land_ones by lia. apply Z.mod_pos_bound. lia. Qed.

Lemma put_eq o c : good o -> _put o c = Ok (adv o (put_bytes (o_size o) c)).
Proof.
  intros Hg. pose proof Hg as (H1 & H2 & H3). unfold _put, put_bytes, enc1.
  destruct (unreserved c) eqn:U; cbn [negb andb].
  - destruct (Z.eqb_spec (o_size o) 0) as [->|]; [by rewrite adv_nil|].
    rewrite take_ge by (simpl; lia). by apply append_adv; [|unfold fits; simpl; lia|].
  - destruct (Z.eqb_spec (o_size o) 0) as [->|]; [by rewrite adv_nil|].
    destruct (Z.eqb_spec (o_size o) 1) as [E|]; [rewrite ?E; by apply append_adv; [|unfold fits; simpl; lia|simpl; lia]|].
    destruct (Z.eqb_spec (o_size o) 2) as [E|]; [rewrite ?E; by apply append_adv; [|unfold fits; simpl; lia|simpl; lia]|].
    rewrite !HEX_digit by apply nibble. cbn [mbind outcome_bind].
    rewrite take_ge by (simpl; lia). by apply append_adv; [|unfold fits; simpl; lia|].
Qed.

Lemma put_bytes_fits size c : 0 <= size -> Z.of_nat (length (put_bytes size c)) <= size.
Proof.
  intros. unfold put_bytes. destruct (negb _ && _) eqn:E; [simpl; lia|]. rewrite length_take. lia.
Qed.

Lemma put_bytes_room size c : 3 <= size -> put_bytes size c = enc1 c.
Proof.
  intros. unfold put_bytes. decide_tests. rewrite andb_false_r. apply take_ge.
  unfold enc1. case_match; simpl; lia.
Qed.

(** ** Outcomes with a postcondition

    [wp t m Q]: the result of [m] satisfies [Q]; [t] says what is claimed of a
    trap ([False]: there is none, [True]: nothing). *)

Definition wp {A} (t : Prop) (m : outcome A) (Q : A -> Prop) : Prop :=
  match m with Ok a => Q a | Trap _ => t end.

Lemma wp_bind {A B} t (m : outcome A) (f : A -> outcome B) (Q : A -> Prop) (R : B -> Prop) :
  wp t m Q -> (forall a, Q a -> wp t (f a) R) -> wp t (m ≫= f) R.
Proof. destruct m; simpl; auto. Qed.

Lemma wp_mono {A} (t t' : Prop) (m : outcome A) (Q R : A -> Prop) :
  wp t m Q -> (t -> t') -> (forall a, Q a -> R a) -> wp t' m R.
Proof. destruct m; simpl; auto. Qed.

Lemma wp_total {A} (m : outcome A) (Q : A -> Prop) : wp False m Q -> exists a, m = Ok a /\ Q a.
Proof. destruct m; simpl; [eauto|done]. Qed.

(** A computation that only appends to the output [o]. *)
Definition grow {A} (t : Prop) (f : A -> out) (o : out) (m : outcome A) : Prop :=
  good o -> wp t m (fun a => grows o (f a)).

Lemma grow_put t o c : grow t id o (_put o c).
Proof.
  intros Hg. rewrite put_eq by done. simpl. eexists. split; [|done].
  apply put_bytes_fits. apply Hg.
Qed.

Lemma grow_ret {A} t f o (a : A) : f a = o -> grow t f o (Ok a).
Proof. intros E Hg. simpl. rewrite E. by apply grows_refl. Qed.

Lemma grow_bind {A B} t f g o (m : outcome A) (k : A -> outcome B) :
  grow t f o m -> (forall a, grow t g (f a) (k a)) -> grow t g o (m ≫= k).
Proof.
  intros Hm Hk Hg. eapply wp_bind; [by apply Hm|]. intros a Ha. cbn in Ha.
  eapply wp_mono; [eapply Hk, grows_good; eassumption|done|].
  intros b Hb. by eapply grows_trans.
Qed.

(** A step that does not touch the output. *)
Lemma grow_pure {A B} (t : Prop) g o (m : outcome A) (k : A -> outcome B) :
  wp t m (fun _ => True) -> (forall a, m = Ok a -> grow t g o (k a)) -> grow t g o (m ≫= k).
Proof. intros Hm Hk Hg. destruct m; simpl in *; [by apply Hk|done]. Qed.

Lemma grow_trap {A} g o (t : trap) : grow True g o (Trap t : outcome A).
Proof. done. Qed.

Lemma wp_True {A} (m : outcome A) : wp True m (fun _ => True).
Proof. by destruct m. Qed.

Lemma grow_put_n t n o c : grow t id o (put_n n o c).
Proof.
  revert o. induction n as [|n IH]; intros o; [by apply grow_ret|].
  eapply grow_bind; [apply grow_put|]. intros a. apply IH.
Qed.

Lemma grow_pad_right t n o : grow t id o (pad_right n o).
Proof.
  revert o. induction n as [|n IH]; intros o; [by apply grow_ret|].
  cbn [pad_right]. case_match; [|by apply grow_ret].
  eapply grow_bind; [apply grow_put|]. intros a. apply IH.
Qed.

(** ** Every conversion only appends *)

Create HintDb grow.
#[export] Hint Resolve grow_put grow_put_n grow_pad_right : grow.

Ltac grow_tac :=
  repeat first
  [ progress intros
  | apply grow_ret; reflexivity
  | apply grow_trap
  | solve [auto with grow]
  | match goal with
    | |- grow _ _ _ (let '(_, _) := ?x in _) => destruct x
    | |- grow _ _ _ (if ?x then _ else _) => destruct x
    end
  | progress cbn [fst snd id]
  | eapply grow_bind; [solve [auto with grow]|]
  | eapply grow_pure; [apply wp_True|] ].

Lemma grow_lead maxlen d c s : grow True (fun s => fst (fst s)) (fst (fst s)) (lead maxlen d c s).
Proof. unfold lead. destruct s as [[o w] tmp]. cbn [fst snd]. grow_tac. Qed.
#[export] Hint Resolve grow_lead : grow.

Lemma grow_sign_lead maxlen n h d s :
  grow True (fun s => fst (fst s)) (fst (fst s)) (sign_lead maxlen n h d s).
Proof. unfold sign_lead. grow_tac. Qed.

Lemma grow_alt_lead maxlen a d s :
  grow True (fun s => fst (fst s)) (fst (fst s)) (alt_lead maxlen a d s).
Proof. 
  unfold alt_lead. destruct s as [[o w] tmp]. destruct a; cbn [fst snd].
  1, 3: grow_tac.
  case_match; [by apply grow_ret|]. apply (grow_lead maxlen d 48 (o, w, tmp)).
Qed.

Lemma grow_pad_left d s : grow True id (fst (fst s)) (pad_left d s).
Proof. unfold pad_left. destruct s as [[o w] tmp]. cbn [fst snd]. grow_tac. Qed.

Lemma grow_put_tmp r o w : grow True fst o (put_tmp r o w).
Proof. revert o w. induction r; intros; cbn [put_tmp]; grow_tac. Qed.
#[export] Hint Resolve grow_sign_lead grow_alt_lead grow_pad_left grow_put_tmp : grow.

Lemma grow_out_int_alt t m hn b a h d o vl : grow True fst o (out_int_alt t m hn b a h d o vl).
Proof.
  unfold out_int_alt. apply grow_pure; [apply wp_True|]. intros [v vl'] _. cbn zeta.
  do 2 (apply grow_pure; [apply wp_True|]; intros ? _).
  eapply grow_bind; [apply (grow_sign_lead _ _ _ _ (o, _, _))|]. cbn [fst]. grow_tac.
Qed.
#[export] Hint Resolve grow_out_int_alt : grow.

Lemma grow_int_switch t0 tl tL hn b a h d o vl : grow True fst o (int_switch t0 tl tL hn b a h d o vl).
Proof. unfold int_switch. grow_tac. Qed.
#[export] Hint Resolve grow_int_switch : grow.

Lemma grow_conv_c o vl : grow True fst o (conv_c o vl).
Proof. unfold conv_c. grow_tac. Qed.

Lemma grow_put_first n m o : grow True id o (put_first n m o).
Proof. revert m o. induction n; intros [|c m] o; cbn [put_first]; grow_tac. Qed.

Lemma grow_put_upto m o p k : grow True fst o (put_upto m o p k).
Proof. revert o p k. induction m; intros; cbn [put_upto]; grow_tac. Qed.

Lemma grow_put_all m o k : grow True fst o (put_all m o k).
Proof. revert o k. induction m; intros; cbn [put_all]; grow_tac. Qed.
#[export] Hint Resolve grow_conv_c grow_put_first grow_put_upto grow_put_all : grow.

Lemma grow_put_as_is m o p : grow True fst o (put_as_is m o p).
Proof. unfold put_as_is. grow_tac. Qed.
#[export] Hint Resolve grow_put_as_is : grow.

Lemma grow_conv_s d o vl : grow True fst o (conv_s d o vl).
Proof. unfold conv_s. grow_tac. Qed.

Lemma grow_double_pad b d l c o : grow True id o (double_pad b d l c o).
Proof. unfold double_pad. grow_tac. Qed.

Lemma grow_put_digit z o : grow True id o (put_digit z o).
Proof. unfold put_digit. grow_tac. Qed.
#[export] Hint Resolve grow_conv_s grow_double_pad grow_put_digit : grow.

Lemma grow_int_digits n v s o : grow True snd o (int_digits n v s o).
Proof. revert v s o. induction n; intros; cbn [int_digits]; grow_tac. Qed.

Lemma grow_frac_digits n v s o : grow True id o (frac_digits n v s o).
Proof. revert v s o. induction n; intros; cbn [frac_digits]; grow_tac. Qed.

Lemma grow_mant_digits n v o : grow True snd o (mant_digits n v o).
Proof. revert v o. induction n; intros; cbn [mant_digits]; grow_tac. Qed.

Lemma grow_exp_digits n m e o : grow True id o (exp_digits n m e o).
Proof. revert m o. induction n; intros; cbn [exp_digits]; grow_tac. Qed.

Lemma grow_put_dot d p o : grow True id o (put_dot d p o).
Proof. unfold put_dot. grow_tac. Qed.
#[export] Hint Resolve grow_int_digits grow_frac_digits grow_mant_digits grow_exp_digits grow_put_dot : grow.

Lemma grow_put_fixed d p e v s o : grow True id o (put_fixed d p e v s o).
Proof.
  unfold put_fixed. eapply (grow_bind True snd); [grow_tac|]. grow_tac.
Qed.

Lemma grow_put_scientific d p e c v o : grow True id o (put_scientific d p e c v o).
Proof. unfold put_scientific. grow_tac. Qed.
#[export] Hint Resolve grow_put_fixed grow_put_scientific : grow.

Lemma grow_conv_double c d o vl : grow True fst o (conv_double c d o vl).
Proof.
  unfold conv_double. cbn zeta.
  do 3 (apply grow_pure; [apply wp_True|]; intros [] _).
  apply grow_pure; [apply wp_True|]; intros ? _.
  eapply grow_bind; [apply grow_double_pad|]. intros o1.
  eapply (grow_bind True id); [grow_tac|]. intros o2.
  eapply grow_bind; [apply grow_double_pad|]. intros o3.
  eapply (grow_bind True id); [grow_tac|]. grow_tac.
Qed.
#[export] Hint Resolve grow_conv_double : grow.

Lemma grow_convert c d o vl r : convert c d o vl = Some r -> grow True fst o r.
Proof.
  unfold convert, conv_d, conv_u, conv_o, conv_x, conv_X, conv_p. intros H.
  repeat case_match; simplify_eq; grow_tac.
Qed.

Lemma grow_run fmt mode o vl : grow True fst o (run fmt mode o vl).
Proof.
  revert mode o vl. induction fmt as [|c fmt IH]; intros mode o vl; cbn [run]; [apply grow_trap|].
  destruct mode as [d|]; [|grow_tac]. case_match; [apply IH|].
  destruct (convert c d o vl) as [r|] eqn:E; [|grow_tac].
  eapply grow_bind; [by eapply grow_convert|]. grow_tac.
Qed.

(** ** Formats whose arguments fit *)

Definition width_ok (d : dir) : bool := (- 2 ^ 30 <=? d_width d) && (d_width d <=? 2 ^ 30).

(** The arguments left after an integer of the type; the most negative value
    of a signed type is not accepted. *)
Definition int_left (t : ctype) (d : dir) (vl : list va) : option (list va) :=
  match va_arg t vl with
  | Ok (v, vl) => if width_ok d && negb (v =? - 2 ^ (ctype_width t - 1)) then Some vl else None
  | Trap _ => None
  end.

Definition switch_left (t0 tl tL : ctype) (d : dir) (vl : list va) : option (list va) :=
  let len := d_length d in
  if (len =? 0) || (len =? 104) || (len =? 72) then int_left t0 d vl
  else if len =? 108 then int_left tl d vl
  else if len =? 76 then int_left tL d vl
  else if len =? 122 then int_left T_size_t d vl
  else Some vl.

Definition str_left (d : dir) (vl : list va) : option (list va) :=
  match vl with
  | VStr m :: vl =>
      if bool_decide (0 ∈ m) && width_ok d && (0 <=? d_precision d) && (d_precision d <=? 2 ^ 30)
      then Some vl else None
  | _ => None
  end.

(** [Some None]: a conversion character whose argument is not as it needs it;
    the conversions of doubles are not accepted. *)
Definition conv_left (c : Z) (d : dir) (vl : list va) : option (option (list va)) :=
  if c =? 99 then Some (match va_arg T_int vl with Ok (_, vl) => Some vl | Trap _ => None end)
  else if (c =? 105) || (c =? 100) then Some (switch_left T_int T_long T_llong d vl)
  else if (c =? 117) || (c =? 111) || (c =? 120) || (c =? 88)
    then Some (switch_left T_uint T_ulong T_ullong d vl)
  else if c =? 112 then Some (int_left T_ulong d vl)
  else if (c =? 103) || (c =? 71) || (c =? 102) || (c =? 101) || (c =? 69) then Some None
  else if c =? 115 then Some (str_left d vl)
  else if (c =? 110) || (c =? 37) then Some (Some vl)
  else None.

(** Every directive of the format is complete and finds arguments as it needs
    them. *)
Fixpoint typed (fmt : bytes) (mode : option dir) (vl : list va) : bool :=
  match fmt with
  | [] => false
  | c :: fmt =>
      match mode with
      | None =>
          if c =? 0 then true
          else if c =? 37 then typed fmt (Some dir0) vl else typed fmt None vl
      | Some d =>
          if c =? 0 then false else
          match conv_left c d vl with
          | Some (Some vl) => typed fmt None vl
          | Some None => false
          | None => match flag_char c d vl with Ok (d, vl) => typed fmt (Some d) vl | Trap _ => false end
          end
      end
  end.

(** ** They run to the end *)

Lemma int_of_ok z : INT_MIN <= z <= INT_MAX -> int_of z = Ok z.
Proof. intros. unfold int_of. by decide_tests. Qed.

Lemma push_tmp_ok maxlen tmp c : (length tmp < maxlen)%nat -> push_tmp maxlen tmp c = Ok (tmp ++ [c]).
Proof. intros. unfold push_tmp. destruct (Nat.ltb_spec (length tmp) maxlen); [done|lia]. Qed.

Lemma hex_digit_ok h n : h = hex \/ h = HEX -> 0 <= n < 16 -> exists c, load h n = Ok c.
Proof.
  intros Hh Hn. assert (Hl : (Z.to_nat n < length h)%nat) by (destruct Hh; subst; simpl; lia).
  unfold load. decide_tests. apply lookup_lt_is_Some in Hl as [c ->]. eauto.
Qed.

Lemma digits_ok maxlen base h k fuel val tmp :
  8 <= base <= 16 -> h = hex \/ h = HEX -> 0 <= val < 8 ^ Z.of_nat k -> (k < fuel)%nat ->
  (length tmp + k <= maxlen)%nat ->
  exists t, digits fuel maxlen base h val tmp = Ok t /\ (length t <= length tmp + k)%nat.
Proof.
  intros Hb Hh. revert k val tmp. induction fuel as [|fuel IH]; intros k val tmp Hv Hk Hl; [lia|].
  cbn [digits]. destruct (Z.ltb_spec 0 val) as [Hp|]; [|by exists tmp; split; [|lia]].
  destruct k as [|k]; [simpl in Hv; lia|].
  pose proof (Z.mod_pos_bound val base ltac:(lia)).
  assert (exists c, (if base <=? 10 then Ok (val mod base + 48) else load h (val mod base)) = Ok c)
    as [c ->] by (destruct (base <=? 10); [eauto|apply hex_digit_ok; [done|lia]]).
  cbn [mbind outcome_bind]. rewrite push_tmp_ok by lia. cbn [mbind outcome_bind].
  rewrite Nat2Z.inj_succ, Z.pow_succ_r in Hv by lia.
  destruct (IH k (val / base) (tmp ++ [c])) as (t & -> & Ht).
  - split; [apply Z.div_pos; lia|]. apply Z.div_lt_upper_bound; [lia|].
    assert (0 < 8 ^ Z.of_nat k) by lia. nia.
  - lia.
  - rewrite length_app. simpl. lia.
  - exists t. split; [done|]. rewrite length_app in Ht. simpl in Ht. lia.
Qed.

(** Enough room in [tmp] and a [width] away from the limits. *)
Definition lead_ok (maxlen n : nat) (s : out * Z * bytes) : Prop :=
  good (fst (fst s)) /\ INT_MIN + 100 + Z.of_nat n <= snd (fst s) <= INT_MAX /\
  (length (snd s) + n <= maxlen)%nat.

Lemma put_ok o c : good o -> exists o', _put o c = Ok o' /\ good o'.
Proof.
  intros Hg. pose proof (grow_put False o c Hg) as H. apply wp_total in H as (o' & Ho & H).
  exists o'. split; [done|]. by eapply grows_good.
Qed.

Lemma lead_total maxlen n d c s :
  lead_ok maxlen (S n) s -> exists s', lead maxlen d c s = Ok s' /\ lead_ok maxlen n s'.
Proof.
  destruct s as [[o w] tmp]. unfold lead, lead_ok. cbn [fst snd]. intros (Hg & Hw & Hl).
  destruct (d_zero d && negb (w =? 0)).
  - destruct (put_ok o c Hg) as (o' & -> & Hg'). cbn [mbind outcome_bind].
    rewrite int_of_ok by lia. cbn [mbind outcome_bind]. eexists. split; [done|]. cbn [fst snd].
    split; [done|lia].
  - rewrite push_tmp_ok by lia. cbn [mbind outcome_bind]. eexists. split; [done|]. cbn [fst snd].
    rewrite length_app. simpl. split; [done|lia].
Qed.

Lemma lead_ok_le maxlen n m s : (m <= n)%nat -> lead_ok maxlen n s -> lead_ok maxlen m s.
Proof. unfold lead_ok. intros ? (?&?&?). split; [done|]. lia. Qed.

Lemma sign_lead_total maxlen n neg hn d s :
  lead_ok maxlen (S n) s -> exists s', sign_lead maxlen neg hn d s = Ok s' /\ lead_ok maxlen n s'.
Proof.
  intros Hs. unfold sign_lead. repeat case_match; try (by apply lead_total).
  exists s. split; [done|]. eapply lead_ok_le; [|done]. lia.
Qed.

Lemma alt_lead_total maxlen n a d s :
  lead_ok maxlen (S (S n)) s -> exists s', alt_lead maxlen a d s = Ok s' /\ lead_ok maxlen n s'.
Proof.
  intros Hs. unfold alt_lead.
  assert (H0 : lead_ok maxlen n s) by (eapply lead_ok_le; [|done]; lia).
  destruct (negb _); [eauto|]. destruct a as [| |x]; [by eauto|apply lead_total; eapply lead_ok_le; [|exact Hs]; lia|].
  destruct s as [[o w] tmp]. destruct Hs as (Hg & Hw & Hl). cbn [fst snd] in *.
  case_match.
  - destruct (put_ok o 48 Hg) as (o1 & -> & Hg1). cbn [mbind outcome_bind].
    destruct (put_ok o1 x Hg1) as (o2 & -> & Hg2). cbn [mbind outcome_bind].
    eexists. split; [done|]. unfold lead_ok. cbn [fst snd]. unfold INT_MIN, INT_MAX in *.
    split; [done|]. destruct (Z.ltb_spec w 2); lia.
  - rewrite push_tmp_ok by lia. cbn [mbind outcome_bind].
    rewrite push_tmp_ok by (rewrite length_app; simpl; lia). cbn [mbind outcome_bind].
    eexists. split; [done|]. unfold lead_ok. cbn [fst snd]. rewrite !length_app. simpl.
    split; [done|]. lia.
Qed.

Lemma put_tmp_total r o w :
  good o -> INT_MIN + Z.of_nat (length r) <= w <= INT_MAX -> exists s, put_tmp r o w = Ok s /\ good (fst s).
Proof.
  revert o w. induction r as [|c r IH]; intros o w Hg Hw; cbn [put_tmp]; [eauto|].
  destruct (0 <? o_size o); [|eauto].
  destruct (put_ok o c Hg) as (o' & -> & Hg'). cbn [mbind outcome_bind].
  simpl in Hw. rewrite int_of_ok by lia. cbn [mbind outcome_bind]. apply IH; [done|lia].
Qed.

Lemma read_as_range t z :
  - 2 ^ (ctype_width t - 1) <= read_as t z < 2 ^ ctype_width t.
Proof.
  unfold read_as. destruct t; cbn [ctype_signed ctype_width];
    match goal with
    | |- context [swrap ?w ?z] => pose proof (swrap_range w z ltac:(lia))
    | |- context [uwrap ?w ?z] => pose proof (uwrap_range w z ltac:(lia))
    end; lia.
Qed.

Lemma va_arg_range t vl v vl' :
  va_arg t vl = Ok (v, vl') -> - 2 ^ (ctype_width t - 1) <= v < 2 ^ ctype_width t.
Proof.
  unfold va_arg. intros H. repeat case_match; simplify_eq; apply read_as_range.
Qed.

Lemma pow8_32 : 2 ^ 32 < 8 ^ Z.of_nat 11.
Proof. reflexivity. Qed.
Lemma pow8_64 : 2 ^ 64 < 8 ^ Z.of_nat 22.
Proof. reflexivity. Qed.

(** [tmp] holds every number of the type, with its sign and prefix. *)
Lemma int_text_total t maxlen base h v :
  8 <= base <= 16 -> h = hex \/ h = HEX ->
  (ctype_width t = 32 /\ (16 <= maxlen)%nat) \/ (ctype_width t = 64 /\ (32 <= maxlen)%nat) ->
  - 2 ^ (ctype_width t - 1) < v < 2 ^ ctype_width t ->
  exists tmp, (if Z.abs v =? 0 then push_tmp maxlen [] 48
               else digits (S maxlen) maxlen base h (Z.abs v) []) = Ok tmp /\
    (length tmp + 3 <= maxlen)%nat /\ Z.of_nat (length tmp) <= 64.
Proof.
  intros Hb Hh Hm Hv. destruct (Z.eqb_spec (Z.abs v) 0).
  { rewrite push_tmp_ok by (simpl; lia). eexists. split; [done|]. simpl. lia. }
  pose proof pow8_32. pose proof pow8_64.
  destruct Hm as [[E Hm]|[E Hm]]; rewrite E in Hv.
  - destruct (digits_ok maxlen base h 11 (S maxlen) (Z.abs v) []) as (t' & -> & Ht); simpl length in *; try lia; [done|].
    eexists. split; [done|]. lia.
  - destruct (digits_ok maxlen base h 22 (S maxlen) (Z.abs v) []) as (t' & -> & Ht); simpl length in *; try lia; [done|].
    eexists. split; [done|]. lia.
Qed.

Lemma put_n_total n o c : good o -> exists o', put_n n o c = Ok o' /\ good o'.
Proof.
  intros Hg. destruct (wp_total _ _ (grow_put_n False n o c Hg)) as (o' & Ho & H).
  exists o'. split; [done|]. by eapply grows_good.
Qed.

Lemma pad_left_total d s : good (fst (fst s)) -> exists o', pad_left d s = Ok o' /\ good o'.
Proof.
  destruct s as [[o w] tmp]. cbn [fst snd]. intros Hg. unfold pad_left.
  repeat case_match; eauto using put_n_total.
Qed.

Lemma out_int_alt_total t maxlen hn base a h d o vl vl' :
  good o -> 8 <= base <= 16 -> h = hex \/ h = HEX ->
  (ctype_width t = 32 /\ (16 <= maxlen)%nat) \/ (ctype_width t = 64 /\ (32 <= maxlen)%nat) ->
  (maxlen <= 64)%nat -> int_left t d vl = Some vl' ->
  exists o', out_int_alt t maxlen hn base a h d o vl = Ok (o', vl').
Proof.
  intros Hg Hb Hh Hm Hm64 Hl. unfold int_left, width_ok in Hl. unfold out_int_alt.
  destruct (va_arg t vl) as [[v vl1]|] eqn:Ev; [|done].
  apply va_arg_range in Ev. cbn [mbind outcome_bind].
  destruct (_ && _) eqn:Ew in Hl; [|done]. simplify_eq.
  replace (v =? _) with false by lia. rewrite andb_false_r. cbn [mbind outcome_bind].
  destruct (int_text_total t maxlen base h v) as (tmp & -> & Ht & Ht2); [done..|lia|].
  cbn [mbind outcome_bind].
  destruct (sign_lead_total maxlen 2 (v <? 0) hn d (o, d_width d, tmp)) as (s1 & -> & H1).
  { split; [done|]. cbn [fst snd]. unfold INT_MIN, INT_MAX. lia. }
  cbn [mbind outcome_bind].
  destruct (alt_lead_total maxlen 0 a d s1 H1) as (s2 & E2 & H2). rewrite E2. cbn [mbind outcome_bind].
  destruct (pad_left_total d s2) as (o3 & -> & Hg3); [apply H2|]. cbn [mbind outcome_bind].
  destruct (put_tmp_total (rev (snd s2)) o3 (snd (fst s2))) as (s4 & -> & Hg4); [done|..].
  { destruct H2 as (_ & H2 & H2'). rewrite length_rev. lia. }
  cbn [mbind outcome_bind].
  destruct (wp_total _ _ (grow_pad_right False (Z.to_nat (snd s4)) (fst s4) Hg4)) as (o5 & -> & _).
  by eexists.
Qed.

Lemma count_to_total m l w :
  0 ∈ m -> 0 <= l ->
  exists len, count_to m l w = Ok len /\ l <= len <= Z.max l w /\ (Z.to_nat (len - l) <= length m)%nat.
Proof.
  revert l. induction m as [|c m IH]; intros l Hm Hl; [by apply elem_of_nil in Hm|]. cbn [count_to].
  destruct (Z.eqb_spec c 0) as [->|Hc]; cbn [negb andb]; [exists l; simpl; split; [done|lia]|].
  destruct (Z.ltb_spec l w); [|exists l; simpl; split; [done|lia]].
  apply elem_of_cons in Hm as [?|Hm]; [congruence|].
  destruct (IH (l + 1) Hm ltac:(lia)) as (len & -> & H1 & H2). exists len. split; [done|]. simpl. lia.
Qed.

Lemma put_first_total n m o : good o -> (n <= length m)%nat -> exists o', put_first n m o = Ok o' /\ good o'.
Proof.
  revert m o. induction n as [|n IH]; intros [|c m] o Hg Hn; simpl in Hn; cbn [put_first]; try lia; eauto.
  destruct (put_ok o c Hg) as (o' & -> & Hg'). cbn [mbind outcome_bind]. apply IH; [done|lia].
Qed.

Lemma put_upto_total m o p k :
  0 ∈ m -> good o -> 0 <= p <= INT_MAX -> exists r, put_upto m o p k = Ok r /\ good (fst r).
Proof.
  revert o p k. induction m as [|c m IH]; intros o p k Hm Hg Hp; [by apply elem_of_nil in Hm|].
  cbn [put_upto]. destruct (Z.eqb_spec c 0) as [->|Hc]; cbn [negb andb]; [eauto|].
  destruct (negb _ && _) eqn:E; [|eauto]. apply elem_of_cons in Hm as [?|Hm]; [congruence|].
  destruct (put_ok o c Hg) as (o' & -> & Hg'). cbn [mbind outcome_bind].
  rewrite int_of_ok by (unfold INT_MIN in *; lia). cbn [mbind outcome_bind]. apply IH; [done..|lia].
Qed.

Lemma put_all_total m o k : 0 ∈ m -> good o -> exists r, put_all m o k = Ok r /\ good (fst r).
Proof.
  revert o k. induction m as [|c m IH]; intros o k Hm Hg; [by apply elem_of_nil in Hm|].
  cbn [put_all]. destruct (Z.eqb_spec c 0) as [->|Hc]; cbn [negb andb]; [eauto|].
  destruct (negb _) eqn:E; [|eauto]. apply elem_of_cons in Hm as [?|Hm]; [congruence|].
  destruct (put_ok o c Hg) as (o' & -> & Hg'). cbn [mbind outcome_bind]. by apply IH.
Qed.

Lemma put_as_is_total m o p :
  0 ∈ m -> good o -> 0 <= p <= INT_MAX -> exists r, put_as_is m o p = Ok r /\ good (fst r).
Proof. intros. unfold put_as_is. case_match; [by apply put_upto_total|by apply put_all_total]. Qed.

Lemma conv_s_total d o vl vl' :
  good o -> str_left d vl = Some vl' -> exists o', conv_s d o vl = Ok (o', vl').
Proof.
  intros Hg Hl. unfold str_left, width_ok in Hl. destruct vl as [|[| |m|] vl]; try done.
  case_match eqn:E; [|done]. simplify_eq. rewrite !andb_true_iff, bool_decide_eq_true in E.
  destruct E as [[[Hm Hw] Hp] Hp']. unfold conv_s. cbn [va_arg_str mbind outcome_bind].
  assert (HP : 0 <= d_precision d <= INT_MAX) by (unfold INT_MAX; lia).
  destruct (put_as_is_total m o (d_precision d) Hm Hg HP) as ([o1 k] & E1 & Hg1). cbn [fst] in Hg1.
  case_match.
  - destruct (count_to_total m 0 (d_width d) Hm) as (len & -> & H1 & H2); [lia|]. cbn [mbind outcome_bind].
    match goal with |- context [if ?b then d_precision d else len] =>
      set (n := if b then d_precision d else len) end.
    assert (Hn : 0 <= n <= len) by (unfold n; case_match; lia).
    case_match; [|rewrite E1; by eexists].
    rewrite int_of_ok by (unfold INT_MIN, INT_MAX; lia). cbn [mbind outcome_bind].
    destruct (put_n_total (Z.to_nat (d_width d - n)) o 32 Hg) as (o2 & -> & Hg2). cbn [mbind outcome_bind].
    destruct (put_first_total (Z.to_nat n) m o2 Hg2) as (o3 & -> & _); [lia|]. by eexists.
  - rewrite E1. cbn [mbind outcome_bind]. case_match; [|by eexists].
    destruct (put_n_total (Z.to_nat (s32 (d_width d - k))) o1 32 Hg1) as (o2 & -> & _). by eexists.
Qed.

Lemma int_switch_total t0 tl tL hn base a h d o vl vl' :
  good o -> 8 <= base <= 16 -> h = hex \/ h = HEX ->
  ctype_width t0 = 32 -> ctype_width tl = 64 -> ctype_width tL = 64 ->
  switch_left t0 tl tL d vl = Some vl' ->
  exists o', int_switch t0 tl tL hn base a h d o vl = Ok (o', vl').
Proof.
  intros Hg Hb Hh H0 Hl HL. unfold switch_left, int_switch.
  repeat case_match; intros Hs; simplify_eq; [..|by eexists];
    apply out_int_alt_total; try done; rewrite ?H0, ?Hl, ?HL; cbn [ctype_width]; lia.
Qed.

Ltac char_cases c :=
  repeat (match goal with |- context [c =? ?k] => destruct (Z.eqb_spec c k) as [->|?] end; cbn [orb]).

(** An integer conversion whose argument [conv_left] accepts. *)
Ltac int_conv :=
  match goal with
  | Hl : switch_left _ _ _ _ _ = Some ?vl' |- context [int_switch ?a ?b ?c ?hn ?base ?al ?h ?d ?o ?vl] =>
      destruct (int_switch_total a b c hn base al h d o vl vl') as [o' ->]; [done|lia|done..|by eexists]
  | Hl : int_left _ _ _ = Some ?vl' |- context [out_int_alt ?t ?m ?hn ?base ?al ?h ?d ?o ?vl] =>
      destruct (out_int_alt_total t m hn base al h d o vl vl') as [o' ->];
        [done|lia|done|right; cbn; lia|lia|done|by eexists]
  end.

Lemma convert_total c d o vl vl' :
  good o -> conv_left c d vl = Some (Some vl') -> exists o', convert c d o vl = Some (Ok (o', vl')).
Proof.
  intros Hg. unfold conv_left, convert, conv_d, conv_u, conv_o, conv_x, conv_X, conv_p, conv_c.
  assert (Hh : hex = hex \/ hex = HEX) by auto. assert (HH : HEX = hex \/ HEX = HEX) by auto.
  char_cases c; intros H; simplify_eq; try done.
  { destruct (va_arg T_int vl) as [[v vl1]|]; [|done]. simplify_eq. cbn [mbind outcome_bind fst snd].
    destruct (put_ok o (u8 v) Hg) as (o' & -> & _). by eexists. }
  1-7: int_conv.
  - destruct (conv_s_total d o vl vl') as [o' ->]; [done..|by eexists].
  - destruct (put_ok o 37 Hg) as (o' & -> & _). by eexists.
  - destruct (put_ok o 37 Hg) as (o' & -> & _). by eexists.
Qed.

Lemma convert_none c d o vl : conv_left c d vl = None -> convert c d o vl = None.
Proof. unfold conv_left, convert. char_cases c; done. Qed.

Lemma run_total fmt mode o vl :
  good o -> typed fmt mode vl = true -> exists r, run fmt mode o vl = Ok r.
Proof.
  revert mode o vl. induction fmt as [|c fmt IH]; intros mode o vl Hg Ht; [done|].
  cbn [typed] in Ht. cbn [run]. destruct mode as [d|].
  - destruct (c =? 0); [done|]. destruct (conv_left c d vl) as [[vl'|]|] eqn:E; [|done|].
    + destruct (convert_total c d o vl vl' Hg E) as (o' & E'). rewrite E'. cbn [mbind outcome_bind fst snd].
      apply IH; [|done]. eapply grows_good; [exact Hg|]. exact (grow_convert _ _ _ _ _ E' Hg).
    + rewrite (convert_none c d o vl E). destruct (flag_char c d vl) as [[d' vl']|]; [|done].
      cbn [mbind outcome_bind fst snd]. by apply IH.
  - destruct (Z.eqb_spec c 0) as [->|Hc]; cbn [orb]; [eauto|]. destruct (negb _); [eauto|].
    destruct (c =? 37); [by apply IH|]. destruct (put_ok o c Hg) as (o' & -> & Hg').
    cbn [mbind outcome_bind]. by apply IH.
Qed.

(** ** What is printed when there is room *)

Lemma enc_cons c cs : enc (c :: cs) = enc1 c ++ enc cs.
Proof. done. Qed.

Lemma enc_app a b : enc (a ++ b) = enc a ++ enc b.
Proof. apply bind_app. Qed.

Lemma enc1_length c : (1 <= length (enc1 c) <= 3)%nat.
Proof. unfold enc1. case_match; simpl; lia. Qed.

Lemma enc_length cs : (length cs <= length (enc cs) <= 3 * length cs)%nat.
Proof.
  induction cs as [|c cs IH]; [simpl; lia|]. rewrite enc_cons, length_app. simpl.
  pose proof (enc1_length c). lia.
Qed.

Lemma enc_unreserved cs : Forall (fun c => unreserved c = true) cs -> enc cs = cs.
Proof. induction 1 as [|c cs Hc _ IH]; [done|]. rewrite enc_cons, IH. unfold enc1. by rewrite Hc. Qed.

Lemma put_room o c : good o -> fits o (enc1 c) -> _put o c = Ok (adv o (enc1 c)).
Proof.
  unfold fits. intros Hg Hf. rewrite put_eq by done. do 2 f_equal. revert Hf.
  unfold put_bytes, enc1. destruct (unreserved c) eqn:U; cbn [negb andb length]; intros Hf.
  - apply take_ge. simpl. lia.
  - replace (o_size o =? 2) with false by lia. apply take_ge. simpl. lia.
Qed.

(** The first character of a text that fits, and the rest of it. *)
Lemma put_cons o c cs :
  good o -> fits o (enc (c :: cs)) ->
  _put o c = Ok (adv o (enc1 c)) /\ good (adv o (enc1 c)) /\ fits (adv o (enc1 c)) (enc cs) /\
  adv (adv o (enc1 c)) (enc cs) = adv o (enc (c :: cs)) /\ 0 < o_size o.
Proof.
  rewrite enc_cons. intros Hg Hf. unfold fits in Hf. rewrite length_app in Hf.
  assert (H1 : fits o (enc1 c)) by (unfold fits; lia). pose proof (enc1_length c).
  split; [by apply put_room|]. split; [by apply adv_good|].
  split; [unfold fits, adv; cbn [o_size]; lia|]. split; [by apply adv_app|lia].
Qed.

Lemma put_n_room n o c :
  good o -> fits o (enc (replicate n c)) -> put_n n o c = Ok (adv o (enc (replicate n c))).
Proof.
  revert o. induction n as [|n IH]; intros o Hg Hf; [by rewrite adv_nil|]. cbn [replicate] in Hf.
  destruct (put_cons _ _ _ Hg Hf) as (E & Hg' & Hf' & Ha & _). cbn [put_n replicate].
  rewrite E. cbn [mbind outcome_bind]. by rewrite IH, Ha.
Qed.

Lemma pad_right_room n o :
  good o -> fits o (enc (replicate n 32)) -> pad_right n o = Ok (adv o (enc (replicate n 32))).
Proof.
  revert o. induction n as [|n IH]; intros o Hg Hf; [by rewrite adv_nil|]. cbn [replicate] in Hf.
  destruct (put_cons _ _ _ Hg Hf) as (E & Hg' & Hf' & Ha & Hs). cbn [pad_right replicate].
  rewrite (proj2 (Z.ltb_lt _ _) Hs), E. cbn [mbind outcome_bind]. by rewrite IH, Ha.
Qed.

Lemma put_tmp_room r o w :
  good o -> fits o (enc r) -> INT_MIN + Z.of_nat (length r) <= w <= INT_MAX ->
  put_tmp r o w = Ok (adv o (enc r), w - Z.of_nat (length r)).
Proof.
  revert o w. induction r as [|c r IH]; intros o w Hg Hf Hw.
  { rewrite adv_nil. cbn [put_tmp length]. do 2 f_equal. lia. }
  destruct (put_cons _ _ _ Hg Hf) as (E & Hg' & Hf' & Ha & Hs). cbn [put_tmp]. simpl length in *.
  rewrite (proj2 (Z.ltb_lt _ _) Hs), E. cbn [mbind outcome_bind].
  rewrite int_of_ok by lia. cbn [mbind outcome_bind]. rewrite IH, Ha by (done || lia).
  do 2 f_equal. lia.
Qed.

Lemma put_all_room s tl o k :
  no_nul s -> good o -> fits o (enc s) ->
  put_all (s ++ 0 :: tl) o k = Ok (adv o (enc s), k + Z.of_nat (length s)).
Proof.
  intros Hn. revert o k. induction Hn as [|c s Hc _ IH]; intros o k Hg Hf.
  { rewrite adv_nil. cbn [put_all app length]. do 2 f_equal. lia. }
  destruct (put_cons _ _ _ Hg Hf) as (E & Hg' & Hf' & Ha & Hs). cbn [put_all app].
  rewrite (proj2 (Z.eqb_neq _ _) Hc), (proj2 (Z.eqb_neq (o_size o) 0)) by lia. cbn [negb andb].
  rewrite E. cbn [mbind outcome_bind]. rewrite IH, Ha by done. do 2 f_equal. simpl. lia.
Qed.

(** Plain text in the format is printed as it is. *)
Lemma run_text s fmt o vl :
  no_nul s -> Forall (fun c => c <> 37) s -> good o -> fits o (enc s) ->
  run (s ++ fmt) None o vl = run fmt None (adv o (enc s)) vl.
Proof.
  intros Hn. revert o. induction Hn as [|c s Hc _ IH]; intros o Hp Hg Hf; [by rewrite adv_nil|].
  inversion_clear Hp as [|? ? H37 Hp'].
  destruct (put_cons _ _ _ Hg Hf) as (E & Hg' & Hf' & Ha & Hs). cbn [run app].
  rewrite (proj2 (Z.eqb_neq _ _) Hc), (proj2 (Z.ltb_lt _ _) Hs), (proj2 (Z.eqb_neq _ _) H37).
  cbn [negb orb]. rewrite E. cbn [mbind outcome_bind]. by rewrite IH, Ha.
Qed.

(** The buffer and the return value after writing [bs] from its start. *)
Definition printed (buf bs : bytes) : Z * bytes :=
  (s32 (Z.of_nat (length bs)), bs ++ 0 :: drop (S (length bs)) buf).

Lemma finish buf size bs :
  0 <= size < Z.of_nat (length buf) -> Z.of_nat (length bs) <= size ->
  (let o := adv (mkOut buf 0 size) bs in
   m ← store (o_mem o) (o_buf o) 0; Ok (s32 (o_buf o), m)) = Ok (printed buf bs).
Proof.
  intros Hs Hb. unfold adv, printed. cbn [o_mem o_buf o_size]. rewrite take_0. cbn [app].
  rewrite Nat.add_0_l, Z.add_0_l.
  destruct (drop (length bs) buf) as [|x l] eqn:E.
  { apply (f_equal length) in E. rewrite length_drop in E. simpl in E. lia. }
  rewrite (store_app bs l x 0) by done. cbn [mbind outcome_bind].
  do 4 f_equal. replace (S (length bs)) with (length bs + 1)%nat by lia.
  by rewrite <-drop_drop, E.
Qed.

Lemma good_start buf size : 0 <= size < Z.of_nat (length buf) -> good (mkOut buf 0 size).
Proof. unfold good. cbn. lia. Qed.

Lemma run_percent fmt o vl : 0 < o_size o -> run (37 :: fmt) None o vl = run fmt (Some dir0) o vl.
Proof. intros H. cbn [run Z.eqb orb]. by rewrite (proj2 (Z.ltb_lt _ _) H). Qed.

Lemma run_flag c fmt d d' o vl vl' :
  c <> 0 -> convert c d o vl = None -> flag_char c d vl = Ok (d', vl') ->
  run (c :: fmt) (Some d) o vl = run fmt (Some d') o vl'.
Proof. intros Hc Hn Hf. cbn [run]. by rewrite (proj2 (Z.eqb_neq _ _) Hc), Hn, Hf. Qed.

Lemma run_convert c fmt d o vl o' vl' :
  c <> 0 -> convert c d o vl = Some (Ok (o', vl')) ->
  run (c :: fmt) (Some d) o vl = run fmt None o' vl'.
Proof. intros Hc Hv. cbn [run]. by rewrite (proj2 (Z.eqb_neq _ _) Hc), Hv. Qed.

(** A format that prints [bs]. *)
Lemma prints buf size fmt vl bs vl' :
  0 <= size < Z.of_nat (length buf) -> Z.of_nat (length bs) <= size ->
  run fmt None (mkOut buf 0 size) vl = Ok (adv (mkOut buf 0 size) bs, vl') ->
  url_vsnprintf buf size fmt vl = Ok (printed buf bs).
Proof.
  intros Hs Hb Hr. unfold url_vsnprintf. rewrite Hr. cbn [mbind outcome_bind fst]. by apply finish.
Qed.

(** ** Decimal numbers *)

Lemma put_digits_digits room v acc r txt :
  0 < v -> put_digits room v acc = Ok (r, txt) ->
  exists x, txt = x ++ acc /\ (forall k, v < 10 ^ Z.of_nat k -> (length x <= k)%nat) /\
    forall fuel maxlen tmp, (length x < fuel)%nat -> (length tmp + length x <= maxlen)%nat ->
      digits fuel maxlen 10 hex v tmp = Ok (tmp ++ rev x).
Proof.
  revert v acc. induction room as [|room IH]; intros v acc Hv; [done|]. cbn [put_digits].
  assert (Hq : 0 <= v / 10) by (apply Z.div_pos; lia).
  assert (Hk : forall k, v < 10 ^ Z.of_nat k -> exists k', k = S k' /\ v / 10 < 10 ^ Z.of_nat k').
  { intros [|k'] H; [simpl in H; lia|]. exists k'. split; [done|].
    rewrite Nat2Z.inj_succ, Z.pow_succ_r in H by lia. apply Z.div_lt_upper_bound; lia. }
  assert (Hd : forall fuel maxlen tmp, (length tmp < maxlen)%nat ->
    digits (S fuel) maxlen 10 hex v tmp = digits fuel maxlen 10 hex (v / 10) (tmp ++ [48 + v mod 10])).
  { intros fuel maxlen tmp Hl. cbn [digits]. replace (0 <? v) with true by lia.
    cbn [Z.leb Z.compare Pos.compare Pos.compare_cont mbind outcome_bind].
    rewrite push_tmp_ok by done. cbn [mbind outcome_bind]. by rewrite Z.add_comm. }
  destruct (Z.eqb_spec (v / 10) 0) as [E0|E0]; intros H.
  - simplify_eq. exists [48 + v mod 10]. split; [done|]. split; [intros k (k' & -> & _)%Hk; simpl; lia|].
    intros [|[|fuel]] maxlen tmp Hf Hl; simpl length in *; [lia..|].
    rewrite Hd, E0 by lia. done.
  - destruct (IH (v / 10) _ ltac:(lia) H) as (x & -> & Hx & Hdig). exists (x ++ [48 + v mod 10]).
    split; [by rewrite <-app_assoc|]. split.
    + intros k (k' & -> & ?%Hx)%Hk. rewrite length_app. simpl. lia.
    + intros [|fuel] maxlen tmp Hf Hl; rewrite length_app in *; simpl length in *; [lia|].
      rewrite Hd, Hdig by (rewrite ?length_app; simpl; lia).
      rewrite rev_app_distr. cbn [rev app]. by rewrite <-app_assoc.
Qed.

(** The characters [_out_int_alt] keeps in [tmp], last first, are the text of
    [ll2string]. *)
Lemma int_text maxlen k v t :
  - 10 ^ Z.of_nat k < v < 10 ^ Z.of_nat k -> LLONG_MIN <= v <= LLONG_MAX -> (0 < k < maxlen)%nat ->
  ll_text v = Ok t ->
  exists tmp, (if Z.abs v =? 0 then push_tmp maxlen [] 48
               else digits (S maxlen) maxlen 10 hex (Z.abs v) []) = Ok tmp /\
    (length tmp < maxlen)%nat /\ t = rev (if v <? 0 then tmp ++ [45] else tmp) /\ (length t <= S k)%nat.
Proof.
  unfold LLONG_MIN, LLONG_MAX. intros Hk Hv Hm Ht. unfold ll_text in Ht.
  set (u := if v <? 0 then u64 (- v) else u64 v) in Ht.
  assert (Hu : u = Z.abs v).
  { unfold u. destruct (Z.ltb_spec v 0); rewrite u64_small; lia. }
  rewrite Hu in Ht. inv_bind Ht. destruct a as [room x0]. cbn zeta iota in Ht.
  destruct (Z.eqb_spec (Z.abs v) 0) as [E0|E0].
  - clear u Hu. assert (v = 0) as -> by lia. vm_compute in E. simplify_eq. cbn in Ht. simplify_eq.
    rewrite push_tmp_ok by (simpl; lia). exists [48]. split; [done|].
    split; [simpl; lia|]. split; [done|simpl; lia].
  - destruct (put_digits_digits 32 (Z.abs v) [] room x0 ltac:(lia) E) as (x & -> & Hx & Hd).
    rewrite app_nil_r in Ht. assert (Hlx : (length x <= k)%nat) by (apply Hx; lia).
    exists (rev x). rewrite Hd by (simpl; lia). split; [done|].
    rewrite length_rev. split; [lia|].
    destruct (v <? 0); [destruct room; [done|]|]; simplify_eq;
      rewrite ?rev_app_distr, rev_involutive; simpl; split; (done || lia).
Qed.

Lemma dec_text_unreserved v t : dec_text v t -> Forall (fun c => unreserved c = true) t.
Proof.
  assert (H : forall ds, canonical ds -> Forall (fun c => unreserved c = true) ds).
  { intros ds (Hd & _). eapply Forall_impl; [exact Hd|]. intros c Hc. unfold unreserved.
    rewrite Hc. by rewrite !orb_true_r. }
  intros [(_ & Hc & _)|(_ & ds & -> & Hc & _)]; [auto|]. constructor; [done|auto].
Qed.

(** A directive without the flags [#], [+], space and 0. *)
Definition plain (d : dir) : Prop :=
  d_alternate d = false /\ d_plus d = false /\ d_space d = false /\ d_zero d = false.

(** What a signed decimal conversion prints. *)
Definition padded (d : dir) (t : bytes) : bytes :=
  let pad := replicate (Z.to_nat (d_width d - Z.of_nat (length t))) 32 in
  (if d_minus d then [] else pad) ++ t ++ pad.

Lemma padded_none d t : d_width d <= Z.of_nat (length t) -> padded d t = t.
Proof.
  intros. unfold padded. replace (Z.to_nat _) with 0%nat by lia. cbn [replicate].
  rewrite app_nil_r. by destruct (d_minus d).
Qed.

Lemma out_int_decimal ct maxlen k d o vl vl' v t :
  va_arg ct vl = Ok (v, vl') -> - 10 ^ Z.of_nat k < v < 10 ^ Z.of_nat k -> (0 < k < maxlen)%nat ->
  (k <= 30)%nat ->
  - 2 ^ (ctype_width ct - 1) < v -> LLONG_MIN <= v <= LLONG_MAX -> ll_text v = Ok t ->
  plain d -> 0 <= d_width d <= 2 ^ 30 -> good o -> fits o (enc (padded d t)) ->
  out_int_alt ct maxlen true 10 AltNone hex d o vl = Ok (adv o (enc (padded d t)), vl').
Proof.
  intros Hva Hk Hkm Hk30 Hmin Hv Ht (Ha & Hp & Hsp & Hz) Hw Hg Hf. unfold out_int_alt.
  rewrite Hva. cbn [mbind outcome_bind]. replace (v =? _) with false by lia.
  rewrite andb_false_r. cbn [mbind outcome_bind].
  destruct (int_text maxlen k v t) as (tmp & -> & Hl & Et & Hlt); [done..|]. cbn [mbind outcome_bind].
  assert (Es : sign_lead maxlen (v <? 0) true d (o, d_width d, tmp) =
               Ok (o, d_width d, if v <? 0 then tmp ++ [45] else tmp)).
  { unfold sign_lead, lead. rewrite Hp, Hsp, Hz. cbn [andb]. case_match; [|done].
    by rewrite push_tmp_ok. }
  rewrite Es. clear Es. cbn [mbind outcome_bind]. unfold alt_lead. rewrite Ha. cbn [negb mbind outcome_bind].
  set (tm := if v <? 0 then _ else _) in *. assert (Hlen : length tm = length t) by (rewrite Et; apply eq_sym, length_rev).
  unfold padded in *. set (pad := replicate _ 32) in *.
  set (left := if d_minus d then [] else pad) in *.
  rewrite !enc_app in Hf. pose proof Hf as Hf'. unfold fits in Hf'. rewrite !length_app in Hf'.
  assert (Hfl : fits o (enc left)) by (unfold fits; lia).
  assert (Ep : pad_left d (o, d_width d, tm) = Ok (adv o (enc left))).
  { unfold pad_left, left in *. destruct (d_minus d); [by rewrite adv_nil|].
    rewrite Hz. destruct (Z.eqb_spec (d_width d) 0) as [E|E].
    - assert (pad = []) as -> by (unfold pad; by replace (Z.to_nat _) with 0%nat by lia). by rewrite adv_nil.
    - rewrite Hlen. by apply put_n_room. }
  rewrite Ep. cbn [mbind outcome_bind fst snd]. rewrite <-Et.
  rewrite put_tmp_room; [|by apply adv_good|unfold fits, adv; cbn [o_size]; lia|unfold INT_MIN, INT_MAX; lia].
  cbn [mbind outcome_bind fst snd]. rewrite adv_app by done. fold pad.
  assert (Hfl2 : fits o (enc left ++ enc t)) by (unfold fits; rewrite length_app; lia).
  rewrite pad_right_room; [|by apply adv_good|].
  - fold pad. cbn [mbind outcome_bind]. rewrite adv_app by done. by rewrite !enc_app, app_assoc.
  - fold pad. unfold fits, adv. cbn [o_size]. rewrite length_app. lia.
Qed.

(** ** Decoding *)

Definition unhex (d : Z) : Z := if d <? 58 then d - 48 else d - 55.

(** The percent decoding of RFC 3986. *)
Fixpoint decode (l : bytes) : bytes :=
  match l with
  | [] => []
  | c :: l =>
      if c =? 37 then
        match l with h :: x :: l => unhex h * 16 + unhex x :: decode l | _ => [] end
      else c :: decode l
  end.

(** [enc1] on every byte: an unreserved character, or a percent sign and two
    unreserved digits that give the byte back. *)
Definition enc1_check (c : Z) : bool :=
  match enc1 c with
  | [x] => (x =? c) && unreserved x && negb (x =? 37)
  | [p; h; l] => (p =? 37) && unreserved h && unreserved l && (unhex h * 16 + unhex l =? c)
  | _ => false
  end.

Lemma enc1_checked c : is_byte c -> enc1_check c = true.
Proof.
  intros Hc. assert (H : Forall (fun c => enc1_check c = true) (seqZ 0 256))
    by (repeat constructor). rewrite Forall_forall in H. apply H, elem_of_seqZ.
  unfold is_byte in Hc. lia.
Qed.

Lemma decode_enc s : is_bytes s -> decode (enc s) = s.
Proof.
  induction 1 as [|c s Hc _ IH]; [done|]. rewrite enc_cons. apply enc1_checked in Hc.
  unfold enc1_check in Hc. destruct (enc1 c) as [|p [|h [|l [|]]]] eqn:E; try done.
  - cbn [app decode]. replace (p =? 37) with false by lia. rewrite IH. f_equal. lia.
  - cbn [app decode]. replace (p =? 37) with true by lia. rewrite IH. f_equal. lia.
Qed.

Definition url_char (c : Z) : Prop := unreserved c = true \/ c = 37.

Lemma enc_url_chars s : is_bytes s -> Forall url_char (enc s).
Proof.
  induction 1 as [|c s Hc _ IH]; [constructor|]. rewrite enc_cons. apply Forall_app. split; [|done].
  apply enc1_checked in Hc. unfold enc1_check in Hc. unfold url_char.
  destruct (enc1 c) as [|p [|h [|l [|]]]]; try done; rewrite !andb_true_iff in Hc;
    repeat (apply Forall_cons_2; [first [left; tauto | right; lia]|]); apply Forall_nil_2.
Qed.

(** ** Properties *)

(** C29: url_vsnprintf stays inside its buffer and ends.  With a buffer of more
    than [size] bytes, whenever it returns it has written some bytes, at most
    [size] of them, at the start of the buffer, then the terminator, and
    nothing else, and returns their number; and it does return for every format
    whose directives are complete and find arguments of the types they read
    (integers other than the most negative one, terminated strings, widths up
    to 2^30; conversions of doubles excepted). *)
Theorem url_vsnprintf_bounded (buf fmt : bytes) (size : Z) (vl : list va)
  (Hsize : 0 <= size < Z.of_nat (length buf)) :
  (forall ret m, url_vsnprintf buf size fmt vl = Ok (ret, m) ->
     exists bs, Z.of_nat (length bs) <= size /\ ret = s32 (Z.of_nat (length bs)) /\
       m = bs ++ 0 :: drop (S (length bs)) buf) /\
  (typed fmt None vl = true -> exists ret m, url_vsnprintf buf size fmt vl = Ok (ret, m)).
Proof.
  pose proof (good_start buf size Hsize) as Hg.
  assert (H : forall r, run fmt None (mkOut buf 0 size) vl = Ok r ->
    exists bs, Z.of_nat (length bs) <= size /\ url_vsnprintf buf size fmt vl = Ok (printed buf bs)).
  { intros [o' vl'] E. pose proof (grow_run fmt None _ vl Hg) as Hr. rewrite E in Hr.
    destruct Hr as (bs & Hf & Ho). cbn in Ho. subst o'. exists bs. split; [done|].
    by eapply prints. }
  split.
  - intros ret m E. pose proof E as E'. unfold url_vsnprintf in E'. inv_bind E'.
    destruct (H _ E0) as (bs & Hb & Hp). rewrite E in Hp. unfold printed in Hp. simplify_eq. eauto.
  - intros Ht. destruct (run_total fmt None _ vl Hg Ht) as [r Er].
    destruct (H r Er) as (bs & _ & Hp). eexists _, _. exact Hp.
Qed.

Lemma url_vsnprintf_bounded_witness :
  exists ret m, url_vsnprintf (replicate 9 170) 8 (str "%d/%-4s" ++ [0]) [VInt 7; VStr (str "ab" ++ [0])] = Ok (ret, m).
Proof.
  apply (url_vsnprintf_bounded (replicate 9 170) (str "%d/%-4s" ++ [0]) 8
    [VInt 7; VStr (str "ab" ++ [0])]); [simpl; lia|reflexivity].
Defined.

(** C30: printing a string with [%s] percent-encodes it: when the buffer is
    large enough the call writes the encoding of the string up to its
    terminator, made of unreserved characters and percent signs only, and
    decoding that gives the string back. *)
Theorem url_s_round_trip (buf s tl : bytes) (size : Z)
  (Hs : is_bytes s) (Hn : no_nul s)
  (Hroom : 3 * Z.of_nat (length s) <= size) (Hsize : size < Z.of_nat (length buf)) :
  exists e, url_snprintf buf size (str "%s" ++ [0]) [VStr (s ++ 0 :: tl)] =
      Ok (s32 (Z.of_nat (length e)), e ++ 0 :: drop (S (length e)) buf) /\
    decode e = s /\ Forall url_char e.
Proof.
  exists (enc s). split; [|by split; [apply decode_enc|apply enc_url_chars]].
  pose proof (enc_length s) as Hl. assert (Hg : good (mkOut buf 0 size)) by (apply good_start; lia).
  change (str "%s" ++ [0]) with [37; 115; 0].
  destruct (decide (size = 0)) as [->|Hz].
  { assert (s = []) as -> by (destruct s; [done|simpl in *; lia]).
    apply (prints buf 0 _ _ [] [VStr ([] ++ 0 :: tl)]); [lia|done|]. by rewrite adv_nil. }
  apply (prints buf size _ _ (enc s) []); [lia..|].
  rewrite run_percent by (cbn; lia).
  rewrite (run_convert 115 _ dir0 _ _ (adv (mkOut buf 0 size) (enc s)) []); [done|done|].
  unfold convert. cbn [Z.eqb Pos.eqb orb]. unfold conv_s, put_as_is. cbn -[put_all enc adv].
  rewrite put_all_room; [done|done|done|unfold fits; cbn; lia].
Qed.

Lemma url_s_round_trip_witness :
  exists e, url_snprintf (replicate 8 170) 7 (str "%s" ++ [0]) [VStr (str "a/" ++ 0 :: [])] =
      Ok (s32 (Z.of_nat (length e)), e ++ 0 :: drop (S (length e)) (replicate 8 170)) /\
    decode e = str "a/" /\ Forall url_char e.
Proof.
  apply (url_s_round_trip (replicate 8 170) (str "a/") [] 7);
    [decide_vm|repeat constructor; discriminate|simpl; lia..].
Defined.

(** [%ld], with which the log prints numbers, prints the same text as
    ll2string for every long except the most negative one. *)
Theorem url_ld_prints_decimal (buf : bytes) (size v : Z)
  (Hsize : 20 <= size < Z.of_nat (length buf)) (Hv : LLONG_MIN < v <= LLONG_MAX) :
  exists t, ll_text v = Ok t /\
    url_snprintf buf size (str "%ld" ++ [0]) [VLong v] =
      Ok (s32 (Z.of_nat (length t)), t ++ 0 :: drop (S (length t)) buf).
Proof.
  destruct (ll_text_spec v) as (t & Ht & Hd & Hl); [lia|]. exists t. split; [done|].
  assert (Hu : Forall (fun c => unreserved c = true) t) by (by eapply dec_text_unreserved).
  assert (Hp : padded (l_char dir0) t = t) by (apply padded_none; cbn; lia).
  apply (prints buf size _ _ t []); [lia..|]. change (str "%ld" ++ [0]) with [37; 108; 100; 0].
  rewrite run_percent by (cbn; lia).
  rewrite (run_flag 108 _ dir0 (l_char dir0) _ [VLong v] [VLong v]) by done.
  rewrite (run_convert 100 _ (l_char dir0) _ _ (adv (mkOut buf 0 size) t) []); [done|done|].
  unfold convert. cbn [Z.eqb Pos.eqb orb]. f_equal.
  change (conv_d (l_char dir0)) with (out_int_alt T_long 32 true 10 AltNone hex (l_char dir0)).
  rewrite <-(enc_unreserved t Hu) at 1. rewrite <-Hp at 1. unfold LLONG_MIN, LLONG_MAX in *.
  apply (out_int_decimal T_long 32 19 _ _ _ _ v t); try done; try lia.
  - cbn. by rewrite s64_small by lia.
  - cbn. lia.
  - unfold LLONG_MIN, LLONG_MAX. lia.
  - apply good_start. lia.
  - rewrite Hp, (enc_unreserved t Hu). unfold fits. cbn. lia.
Qed.

Lemma url_ld_prints_decimal_witness :
  exists t, ll_text (-42) = Ok t /\
    url_snprintf (replicate 32 170) 31 (str "%ld" ++ [0]) [VLong (-42)] =
      Ok (s32 (Z.of_nat (length t)), t ++ 0 :: drop (S (length t)) (replicate 32 170)).
Proof. apply (url_ld_prints_decimal (replicate 32 170) 31 (-42)); [simpl; lia|vm_compute; split; congruence]. Defined.

(** a right-justified number is padded on both sides: [%*d] with a width
    larger than the text prints the missing spaces before the number and as
    many again behind it, because the loop on the left does not count [width]
    down. *)
Theorem url_pads_both_sides (buf t : bytes) (size w v : Z)
  (Hv : INT_MIN < v <= INT_MAX) (Ht : ll_text v = Ok t)
  (Hw : Z.of_nat (length t) < w <= 2 ^ 30)
  (Hsize : 6 * w <= size < Z.of_nat (length buf)) :
  let pad := replicate (Z.to_nat (w - Z.of_nat (length t))) 32 in
  url_snprintf buf size (str "%*d" ++ [0]) [VInt w; VInt v] =
    Ok (printed buf (enc (pad ++ t ++ pad))).
Proof.
  intros pad. unfold INT_MIN, INT_MAX in Hv.
  set (d := h_char (set_width dir0 STATE_PRECISION w)).
  assert (Hp : padded d t = pad ++ t ++ pad) by done.
  assert (Hf : fits (mkOut buf 0 size) (enc (padded d t))).
  { unfold fits. cbn [o_size]. pose proof (enc_length (padded d t)) as Hl.
    rewrite Hp, !length_app in Hl. unfold pad in Hl. rewrite length_replicate in Hl.
    rewrite Hp. unfold pad. lia. }
  rewrite <-Hp. apply (prints buf size _ _ _ []); [lia|exact Hf|].
  change (str "%*d" ++ [0]) with [37; 42; 100; 0]. rewrite run_percent by (cbn; lia).
  rewrite (run_flag 42 _ dir0 d _ [VInt w; VInt v] [VInt v]); [|done|done|].
  2: { cbn. rewrite s32_small by lia. done. }
  rewrite (run_convert 100 _ d _ _ (adv (mkOut buf 0 size) (enc (padded d t))) []); [done|done|].
  unfold convert. cbn [Z.eqb Pos.eqb orb]. f_equal.
  change (conv_d d) with (out_int_alt T_int 16 true 10 AltNone hex d).
  apply (out_int_decimal T_int 16 10 _ _ _ _ v t); try done; try lia.
  - cbn. by rewrite s32_small by lia.
  - cbn. lia.
  - unfold LLONG_MIN, LLONG_MAX. lia.
  - cbn. lia.
  - apply good_start. lia.
Qed.

Lemma url_pads_both_sides_witness :
  url_snprintf (replicate 32 170) 31 (str "%*d" ++ [0]) [VInt 4; VInt 42] =
    Ok (printed (replicate 32 170) (str "%20%2042%20%20")).
Proof.
  exact (url_pads_both_sides (replicate 32 170) (str "42") 31 4 42 ltac:(vm_compute; split; congruence)
    eq_refl ltac:(simpl; lia) ltac:(simpl; lia)).
Defined.

(** The two defects at the ends of the buffers. *)

Lemma run_fills s fmt o vl :
  Forall (fun c => unreserved c = true) s -> o_buf o + o_size o = Z.of_nat (length (o_mem o)) ->
  0 <= o_buf o -> 0 <= o_size o -> o_size o < Z.of_nat (length s) ->
  exists o', run (s ++ fmt) None o vl = Ok (o', vl) /\ o_buf o' = Z.of_nat (length (o_mem o')).
Proof.
  intros Hs. revert o. induction Hs as [|c s Hc _ IH]; intros o Hb H0 H1 Hl; [simpl in Hl; lia|].
  cbn [run app]. assert (Hnz : c <> 0) by (intros ->; done). assert (Hnp : c <> 37) by (intros ->; done).
  rewrite (proj2 (Z.eqb_neq _ _) Hnz), (proj2 (Z.eqb_neq _ _) Hnp). cbn [orb].
  destruct (Z.ltb_spec 0 (o_size o)) as [Hp|Hp]; cbn [negb]; [|exists o; split; [done|lia]].
  unfold _put. rewrite Hc. replace (o_size o =? 0) with false by lia. cbn [append].
  unfold store. decide_tests. cbn [mbind outcome_bind o_mem o_buf o_size].
  apply IH; cbn [o_buf o_size o_mem]; rewrite ?length_insert; simpl in Hl; lia.
Qed.

(** the terminator is written past a full buffer.  Called, as the log does,
    with [size] the size of the buffer, url_vsnprintf stores the terminator one
    byte behind the buffer when the text has more than [size] characters. *)
Theorem url_overruns_full_buffer (buf s : bytes) (vl : list va)
  (Hs : Forall (fun c => unreserved c = true) s) (Hl : (length buf < length s)%nat) :
  url_vsnprintf buf (Z.of_nat (length buf)) (s ++ [0]) vl = Trap OutOfBounds.
Proof.
  destruct (run_fills s [0] (mkOut buf 0 (Z.of_nat (length buf))) vl) as (o' & Hr & Hb);
    [done|cbn; lia..|].
  unfold url_vsnprintf. rewrite Hr. cbn [mbind outcome_bind fst]. unfold store.
  rewrite Hb, Z.ltb_irrefl, andb_false_r. done.
Qed.

Lemma url_overruns_full_buffer_witness :
  url_vsnprintf [170; 170] 2 (str "abc" ++ [0]) [] = Trap OutOfBounds.
Proof. apply (url_overruns_full_buffer [170; 170] (str "abc") []); [repeat constructor|simpl; lia]. Defined.

(** a format that ends inside a directive is read past its terminator: the
    inner loop leaves at the terminator having stepped over it, and the outer
    loop goes on reading. *)
Theorem url_reads_past_format (buf s : bytes) (size : Z) (vl : list va)
  (Hn : no_nul s) (Hp : Forall (fun c => c <> 37) s)
  (Hroom : 3 * Z.of_nat (length s) < size) (Hsize : size < Z.of_nat (length buf)) :
  url_vsnprintf buf size (s ++ [37; 0]) vl = Trap OutOfBounds.
Proof.
  pose proof (enc_length s). unfold url_vsnprintf.
  rewrite run_text; [|done|done|apply good_start; lia|unfold fits; cbn; lia].
  rewrite run_percent by (cbn; lia). done.
Qed.

Lemma url_reads_past_format_witness :
  url_vsnprintf (replicate 16 170) 15 (str "100" ++ [37; 0]) [] = Trap OutOfBounds.
Proof.
  apply (url_reads_past_format (replicate 16 170) (str "100") 15 []);
    [repeat constructor; discriminate..|simpl; lia|simpl; lia].
Defined.
