(* ===== verification/IntrusiveList.v ===== *)
(** * Intrusive doubly-linked lists (src/util/list.h)

    A [list_head] is both a list and a node of one.  The heap maps addresses to
    the two fields; every operation follows the pointers as the code does, and
    a null or dangling one traps.  A list is a ring of nodes through its head;
    the theorems show that any sequence of operations on any number of lists
    does to the rings what it should do to the sequences they stand for. *)

From S2P Require Import Prelude.

(** ** Heap *)

Abbreviation loc := positive (only parsing).
Abbreviation ptr := (option positive) (only parsing).

Record list_head := mkHead { next : ptr; prev : ptr }.
Abbreviation heap := (gmap positive list_head) (only parsing).

Definition deref (h : heap) (p : ptr) : outcome (loc * list_head) :=
  match p with
  | None => Trap NullDeref
  | Some a => match h !! a with None => Trap UseAfterFree | Some n => Ok (a, n) end
  end.

Definition get_next (h : heap) (p : ptr) : outcome ptr := r ← deref h p; Ok (next (snd r)).
Definition get_prev (h : heap) (p : ptr) : outcome ptr := r ← deref h p; Ok (prev (snd r)).
Definition set_next (h : heap) (p v : ptr) : outcome heap :=
  r ← deref h p; Ok (<[fst r := mkHead v (prev (snd r))]> h).
Definition set_prev (h : heap) (p v : ptr) : outcome heap :=
  r ← deref h p; Ok (<[fst r := mkHead (next (snd r)) v]> h).

(** ** Operations *)

Definition INIT_LIST_HEAD (h : heap) (p : ptr) : outcome heap :=
  h ← set_next h p p; set_prev h p p.

Definition __list_add (h : heap) (new prev next : ptr) : outcome heap :=
  h ← set_prev h next new;
  h ← set_next h new next;
  h ← set_prev h new prev;
  set_next h prev new.

Definition list_add (h : heap) (new head : ptr) : outcome heap :=
  n ← get_next h head; __list_add h new head n.

Definition list_add_tail (h : heap) (new head : ptr) : outcome heap :=
  p ← get_prev h head; __list_add h new p head.

Definition __list_del (h : heap) (prev next : ptr) : outcome heap :=
  h ← set_prev h next prev;
  set_next h prev next.

(** [__list_del(entry->prev, entry->next)]. *)
Definition unlink (h : heap) (entry : ptr) : outcome heap :=
  p ← get_prev h entry; n ← get_next h entry; __list_del h p n.

Definition list_del (h : heap) (entry : ptr) : outcome heap :=
  h ← unlink h entry;
  h ← set_next h entry None;
  set_prev h entry None.

Definition list_del_init (h : heap) (entry : ptr) : outcome heap :=
  h ← unlink h entry; INIT_LIST_HEAD h entry.

Definition list_move (h : heap) (list head : ptr) : outcome heap :=
  h ← unlink h list; list_add h list head.

Definition list_move_tail (h : heap) (list head : ptr) : outcome heap :=
  h ← unlink h list; list_add_tail h list head.

Definition list_empty (h : heap) (head : ptr) : outcome bool :=
  n ← get_next h head; Ok (bool_decide (n = head)).

Definition __list_splice (h : heap) (list head : ptr) : outcome heap :=
  first ← get_next h list;
  last ← get_prev h list;
  at_ ← get_next h head;
  h ← set_prev h first head;
  h ← set_next h head first;
  h ← set_next h last at_;
  set_prev h at_ last.

Definition list_splice (h : heap) (list head : ptr) : outcome heap :=
  e ← list_empty h list; if negb e then __list_splice h list head else Ok h.

Definition list_splice_init (h : heap) (list head : ptr) : outcome heap :=
  e ← list_empty h list;
  if negb e then h ← __list_splice h list head; INIT_LIST_HEAD h list else Ok h.

(** The loops [list_for_each] and [list_for_each_prev]: the nodes visited. *)
Fixpoint for_each (fuel : nat) (step : heap -> ptr -> outcome ptr) (h : heap) (pos head : ptr) :
    outcome (list loc) :=
  match fuel with
  | O => Trap OutOfFuel
  | S fuel =>
      if bool_decide (pos = head) then Ok [] else
      r ← deref h pos;
      nxt ← step h pos;
      l ← for_each fuel step h nxt head;
      Ok (fst r :: l)
  end.

Definition list_for_each (fuel : nat) (h : heap) (head : ptr) : outcome (list loc) :=
  pos ← get_next h head; for_each fuel get_next h pos head.

Definition list_for_each_prev (fuel : nat) (h : heap) (head : ptr) : outcome (list loc) :=
  pos ← get_prev h head; for_each fuel get_prev h pos head.

(** [list_for_each_safe] with a body that may change the heap. *)
Fixpoint for_each_safe (fuel : nat) (body : heap -> ptr -> outcome heap) (h : heap) (pos n head : ptr) :
    outcome heap :=
  match fuel with
  | O => Trap OutOfFuel
  | S fuel =>
      if bool_decide (pos = head) then Ok h else
      h ← body h pos;
      n' ← get_next h n;
      for_each_safe fuel body h n n' head
  end.

Definition list_for_each_safe (fuel : nat) (body : heap -> ptr -> outcome heap) (h : heap) (head : ptr) :
    outcome heap :=
  pos ← get_next h head; n ← get_next h pos; for_each_safe fuel body h pos n head.

(** ** Fields *)

Definition nxt (h : heap) (a : loc) : ptr := n ← h !! a; next n.
Definition prv (h : heap) (a : loc) : ptr := n ← h !! a; prev n.
Definition alloc (h : heap) (a : loc) : Prop := is_Some (h !! a).
Definition wr_next (h : heap) (a : loc) (v : ptr) : heap := alter (fun n => mkHead v (prev n)) a h.
Definition wr_prev (h : heap) (a : loc) (v : ptr) : heap := alter (fun n => mkHead (next n) v) a h.

Lemma get_next_eq h a : alloc h a -> get_next h (Some a) = Ok (nxt h a).
Proof. intros [n E]. unfold get_next, nxt, deref. by rewrite E. Qed.
Lemma get_prev_eq h a : alloc h a -> get_prev h (Some a) = Ok (prv h a).
Proof. intros [n E]. unfold get_prev, prv, deref. by rewrite E. Qed.

Lemma alter_known (f : list_head -> list_head) (h : heap) (a : loc) n : h !! a = Some n -> alter f a h = <[a := f n]> h.
Proof. intros E. rewrite <-(insert_id h a n) at 1 by done. apply alter_insert_eq. Qed.

Lemma set_next_eq h a v : alloc h a -> set_next h (Some a) v = Ok (wr_next h a v).
Proof.
  intros [n E]. unfold set_next, wr_next, deref. rewrite E. cbn.
  by rewrite (alter_known _ _ _ _ E).
Qed.
Lemma set_prev_eq h a v : alloc h a -> set_prev h (Some a) v = Ok (wr_prev h a v).
Proof.
  intros [n E]. unfold set_prev, wr_prev, deref. rewrite E. cbn.
  by rewrite (alter_known _ _ _ _ E).
Qed.

Lemma alloc_wr_next h a v x : alloc (wr_next h a v) x <-> alloc h x.
Proof. unfold alloc, wr_next. apply lookup_alter_is_Some. Qed.
Lemma alloc_wr_prev h a v x : alloc (wr_prev h a v) x <-> alloc h x.
Proof. unfold alloc, wr_prev. apply lookup_alter_is_Some. Qed.

Lemma nxt_wr_next h a v x : alloc h a -> nxt (wr_next h a v) x = if decide (x = a) then v else nxt h x.
Proof.
  intros [n E]. unfold nxt, wr_next. case_decide as D; [subst; by rewrite lookup_alter_eq, E|].
  by rewrite lookup_alter_ne.
Qed.
Lemma prv_wr_prev h a v x : alloc h a -> prv (wr_prev h a v) x = if decide (x = a) then v else prv h x.
Proof.
  intros [n E]. unfold prv, wr_prev. case_decide as D; [subst; by rewrite lookup_alter_eq, E|].
  by rewrite lookup_alter_ne.
Qed.
Lemma prv_wr_next h a v x : prv (wr_next h a v) x = prv h x.
Proof.
  unfold prv, wr_next. destruct (decide (a = x)) as [->|]; [|by rewrite lookup_alter_ne].
  rewrite lookup_alter_eq. by destruct (h !! x).
Qed.
Lemma nxt_wr_prev h a v x : nxt (wr_prev h a v) x = nxt h x.
Proof.
  unfold nxt, wr_prev. destruct (decide (a = x)) as [->|]; [|by rewrite lookup_alter_ne].
  rewrite lookup_alter_eq. by destruct (h !! x).
Qed.

Create Rewrite HintDb wr.
#[local] Hint Rewrite alloc_wr_next alloc_wr_prev prv_wr_next nxt_wr_prev : wr.

(** Compute the fields of a heap after a sequence of stores to allocated nodes. *)
Ltac fields :=
  repeat first
  [ progress autorewrite with wr
  | rewrite nxt_wr_next by (autorewrite with wr; done)
  | rewrite prv_wr_prev by (autorewrite with wr; done) ].

(** ** Rings *)

(** [f] leads from the nodes of the first list to those of the second. *)
Definition leads (f : loc -> ptr) : list loc -> list loc -> Prop := Forall2 (fun a b => f a = Some b).

(** The ring through [hd] and then [xs]. *)
Definition ring (h : heap) (hd : loc) (xs : list loc) : Prop :=
  NoDup (hd :: xs) /\ leads (nxt h) (hd :: xs) (xs ++ [hd]) /\ leads (prv h) (xs ++ [hd]) (hd :: xs).

Lemma leads_frame (f g : loc -> ptr) A B :
  (forall x, x ∈ A -> g x = f x) -> leads f A B -> leads g A B.
Proof.
  intros H HF. induction HF as [|a b A B Hab HF IH]; constructor.
  - rewrite H; [done|by left].
  - apply IH. intros x Hx. apply H. by right.
Qed.

Lemma leads_app f A1 B1 A2 B2 : length A1 = length B1 ->
  leads f (A1 ++ A2) (B1 ++ B2) <-> leads f A1 B1 /\ leads f A2 B2.
Proof.
  intros Hl. split.
  - intros H. unfold leads in *. by apply Forall2_app_inv in H.
  - intros [H1 H2]. by apply Forall2_app.
Qed.

Lemma leads_alloc_nxt h A B x : leads (nxt h) A B -> x ∈ A -> alloc h x.
Proof.
  intros HF. induction HF as [|a b A B Hab HF IH]; intros Hx; [by apply elem_of_nil in Hx|].
  apply elem_of_cons in Hx as [->|Hx]; [|auto]. unfold nxt in Hab. unfold alloc.
  destruct (h !! a); [eauto|done].
Qed.

Lemma ring_alloc h hd xs x : ring h hd xs -> x ∈ hd :: xs -> alloc h x.
Proof. intros (_ & H & _). by apply leads_alloc_nxt with (xs ++ [hd]). Qed.

Lemma ring_frame h h' hd xs :
  (forall x, x ∈ hd :: xs -> h' !! x = h !! x) -> ring h hd xs -> ring h' hd xs.
Proof.
  intros Hf (Hn & H1 & H2). split; [done|].
  split; [eapply leads_frame, H1|eapply leads_frame, H2]; intros x Hx;
    unfold nxt, prv; rewrite Hf; try done; set_solver.
Qed.

Lemma rotate_NoDup (hd : loc) xs : NoDup (hd :: xs) -> NoDup (xs ++ [hd]).
Proof. intros H. by rewrite Permutation_app_comm. Qed.

(** Nodes outside [S] are untouched, and none is freed. *)
Definition same_off (S : list loc) (h h' : heap) : Prop :=
  (forall x, x ∉ S -> h' !! x = h !! x) /\ (forall x, alloc h' x <-> alloc h x).

Lemma same_off_refl S h : same_off S h h.
Proof. done. Qed.
Lemma same_off_trans S h h1 h2 : same_off S h h1 -> same_off S h1 h2 -> same_off S h h2.
Proof. intros [H1 A1] [H2 A2]. split; [intros x Hx; by rewrite H2, H1|]. intros x. by rewrite A2, A1. Qed.
Lemma same_off_next (S : list loc) h a v : a ∈ S -> same_off S h (wr_next h a v).
Proof.
  intros Ha. split; [|apply alloc_wr_next]. intros x Hx. unfold wr_next.
  rewrite lookup_alter_ne; [done|]. by intros ->.
Qed.
Lemma same_off_prev (S : list loc) h a v : a ∈ S -> same_off S h (wr_prev h a v).
Proof.
  intros Ha. split; [|apply alloc_wr_prev]. intros x Hx. unfold wr_prev.
  rewrite lookup_alter_ne; [done|]. by intros ->.
Qed.
Lemma same_off_mono (S S' : list loc) h h' : S ⊆ S' -> same_off S h h' -> same_off S' h h'.
Proof. intros HS [H A]. split; [|done]. intros x Hx. apply H. set_solver. Qed.

(** Chains of stores, each to a node of [S]. *)
Ltac stores := repeat first
  [ apply same_off_refl
  | eapply same_off_trans; [|apply same_off_next; first [assumption|set_solver]]
  | eapply same_off_trans; [|apply same_off_prev; first [assumption|set_solver]] ].

(** ** Insertion *)

Lemma add_eq h n p q :
  alloc h n -> alloc h p -> alloc h q ->
  __list_add h (Some n) (Some p) (Some q) =
    Ok (wr_next (wr_prev (wr_next (wr_prev h q (Some n)) n (Some q)) n (Some p)) p (Some n)).
Proof.
  intros Hn Hp Hq. unfold __list_add. rewrite set_prev_eq by done. cbn [mbind outcome_bind].
  rewrite set_next_eq by (by autorewrite with wr). cbn [mbind outcome_bind].
  rewrite set_prev_eq by (by autorewrite with wr). cbn [mbind outcome_bind].
  by rewrite set_next_eq by (by autorewrite with wr).
Qed.

(** Between the neighbours [p] and [q] of a ring. *)
Lemma insert_between h hd xs n p q u w u' w' :
  ring h hd xs -> hd :: xs = u ++ p :: w -> xs ++ [hd] = u' ++ q :: w' -> length u = length u' ->
  alloc h n -> n ∉ hd :: xs ->
  exists h', __list_add h (Some n) (Some p) (Some q) = Ok h' /\
    leads (nxt h') (u ++ p :: n :: w) (u' ++ n :: q :: w') /\
    leads (prv h') (u' ++ n :: q :: w') (u ++ p :: n :: w) /\ same_off (n :: hd :: xs) h h'.
Proof.
  intros Hr EA EB Hl Hn Hni. pose proof Hr as (HN & H1 & H2). pose proof (rotate_NoDup _ _ HN) as HN'.
  assert (Hp : p ∈ hd :: xs) by (rewrite EA; set_solver).
  assert (Hq : q ∈ hd :: xs) by (assert (q ∈ xs ++ [hd]) by (rewrite EB; set_solver); set_solver).
  eexists. split; [by apply add_eq; [|eapply ring_alloc..]|].
  assert (Hap : alloc h p) by (by eapply ring_alloc). assert (Haq : alloc h q) by (by eapply ring_alloc).
  assert (Hnx : n ∉ xs ++ [hd]) by set_solver.
  rewrite EA, EB in *. apply NoDup_app in HN as (HNu & Hu & [Hpw HNw]%NoDup_cons).
  apply NoDup_app in HN' as (HNu' & Hu' & [Hqw HNw']%NoDup_cons).
  apply leads_app in H1 as [H1a H1b]; [|done]. apply leads_app in H2 as [H2a H2b]; [|done].
  inversion_clear H1b as [|? ? ? ? Epq H1w]. inversion_clear H2b as [|? ? ? ? Eqp H2w].
  split; [|split].
  - apply leads_app; [done|]. split.
    + eapply leads_frame, H1a. intros x Hx. fields. rewrite !decide_False by set_solver. done.
    + constructor; [fields; by rewrite decide_True|]. constructor.
      * fields. by rewrite decide_False, decide_True by set_solver.
      * eapply leads_frame, H1w. intros x Hx. fields. by rewrite !decide_False by set_solver.
  - apply leads_app; [done|]. split.
    + eapply leads_frame, H2a. intros x Hx. fields. by rewrite !decide_False by set_solver.
    + constructor; [fields; by rewrite decide_True|]. constructor.
      * fields. by rewrite decide_False, decide_True by set_solver.
      * eapply leads_frame, H2w. intros x Hx. fields. by rewrite !decide_False by set_solver.
  - stores.
Qed.

Lemma split_last (hd : loc) xs : exists u p, hd :: xs = u ++ [p] /\ length u = length xs.
Proof.
  destruct (exists_last (l := hd :: xs)) as (u & p & E); [done|]. exists u, p. split; [done|].
  apply (f_equal length) in E. rewrite length_app in E. simpl in E. lia.
Qed.

Lemma ring_first h hd xs q w : ring h hd xs -> xs ++ [hd] = q :: w -> nxt h hd = Some q.
Proof. intros (_ & H & _) E. rewrite E in H. by inversion H. Qed.

Lemma ring_last h hd xs u p : ring h hd xs -> hd :: xs = u ++ [p] -> prv h hd = Some p.
Proof.
  intros (_ & _ & H) E. rewrite E in H. apply leads_app in H as [_ H]; [by inversion H|].
  apply (f_equal length) in E. rewrite length_app in E. simpl in E. lia.
Qed.

Lemma list_add_ok h hd xs n :
  ring h hd xs -> alloc h n -> n ∉ hd :: xs ->
  exists h', list_add h (Some n) (Some hd) = Ok h' /\ ring h' hd (n :: xs) /\ same_off (n :: hd :: xs) h h'.
Proof.
  intros Hr Hn Hni. destruct (xs ++ [hd]) as [|q w] eqn:E; [by destruct xs|].
  unfold list_add. rewrite get_next_eq by (eapply ring_alloc; [done|by left]).
  rewrite (ring_first _ _ _ _ _ Hr E). cbn [mbind outcome_bind].
  destruct (insert_between h hd xs n hd q [] xs [] w) as (h' & -> & H1 & H2 & Hs); [done..|].
  exists h'. split; [done|]. split; [|done]. cbn [app] in H1, H2. rewrite <-E in H1, H2.
  split; [|by split]. destruct Hr as [HN _]. clear -HN Hni. rewrite !NoDup_cons in *. set_solver.
Qed.

Lemma list_add_tail_ok h hd xs n :
  ring h hd xs -> alloc h n -> n ∉ hd :: xs ->
  exists h', list_add_tail h (Some n) (Some hd) = Ok h' /\ ring h' hd (xs ++ [n]) /\
    same_off (n :: hd :: xs) h h'.
Proof.
  intros Hr Hn Hni. destruct (split_last hd xs) as (u & p & E & Hl).
  unfold list_add_tail. rewrite get_prev_eq by (eapply ring_alloc; [done|by left]).
  rewrite (ring_last _ _ _ _ _ Hr E). cbn [mbind outcome_bind].
  destruct (insert_between h hd xs n p hd u [] xs []) as (h' & -> & H1 & H2 & Hs); [done..|].
  exists h'. split; [done|]. split; [|done].
  assert (EA : hd :: xs ++ [n] = u ++ [p; n]) by (by rewrite app_comm_cons, E, <-app_assoc).
  assert (EB : (xs ++ [n]) ++ [hd] = xs ++ [n; hd]) by (by rewrite <-app_assoc).
  split; [|rewrite EA, EB; by split]. destruct Hr as [HN _].
  rewrite app_comm_cons. apply NoDup_app. split; [done|]. split; [set_solver|apply NoDup_singleton].
Qed.

(** ** Removal *)

Lemma unlink_ok h hd a e b :
  ring h hd (a ++ e :: b) ->
  exists h', unlink h (Some e) = Ok h' /\ ring h' hd (a ++ b) /\ alloc h' e /\
    same_off (hd :: a ++ e :: b) h h'.
Proof.
  intros Hr. pose proof Hr as (HN & H1 & H2).
  destruct (split_last hd a) as (u & p & EA & Hl).
  destruct (b ++ [hd]) as [|q w] eqn:EB; [by destruct b|].
  assert (E1 : hd :: a ++ e :: b = u ++ p :: e :: b) by (by rewrite app_comm_cons, EA, <-app_assoc).
  assert (E2 : (a ++ e :: b) ++ [hd] = a ++ e :: q :: w) by (rewrite <-app_assoc; cbn [app]; by rewrite EB).
  pose proof (rotate_NoDup _ _ HN) as HN'.
  rewrite E1 in HN, H1, H2. rewrite E2 in HN', H1, H2.
  apply leads_app in H1 as [H1a H1b]; [|done]. apply leads_app in H2 as [H2a H2b]; [|done].
  inversion_clear H1b as [|? ? ? ? Ep H1c]. inversion_clear H1c as [|? ? ? ? Ee H1w].
  inversion_clear H2b as [|? ? ? ? Ee' H2c]. inversion_clear H2c as [|? ? ? ? Eq H2w].
  assert (Hal : forall x, x ∈ hd :: a ++ e :: b -> alloc h x) by (intros x; by apply ring_alloc).
  rewrite E1 in Hal. assert (Hp : alloc h p) by (apply Hal; set_solver).
  assert (He : alloc h e) by (apply Hal; set_solver).
  assert (Hqm : q ∈ hd :: b) by (assert (q ∈ b ++ [hd]) by (rewrite EB; by left); set_solver).
  assert (Hq : alloc h q) by (apply Hal; rewrite <-E1; set_solver).
  assert (Hpm : p ∈ hd :: a ++ e :: b) by (rewrite E1; set_solver).
  assert (Hqm2 : q ∈ hd :: a ++ e :: b) by (clear -Hqm; set_solver).
  eexists. split.
  { unfold unlink. rewrite get_prev_eq, Ee' by done. cbn [mbind outcome_bind].
    rewrite get_next_eq, Ee by done. cbn [mbind outcome_bind]. unfold __list_del.
    rewrite set_prev_eq by done. cbn [mbind outcome_bind]. by rewrite set_next_eq by (by autorewrite with wr). }
  apply NoDup_app in HN as (HNu & Hu & HNr). apply NoDup_cons in HNr as [Hpr [Her HNb]%NoDup_cons].
  apply NoDup_app in HN' as (HNa & Ha & HNs). apply NoDup_cons in HNs as [Hes [Hqs HNw]%NoDup_cons].
  split; [|split; [by autorewrite with wr|stores]].
  assert (EA' : hd :: a ++ b = u ++ p :: b) by (by rewrite app_comm_cons, EA, <-app_assoc).
  assert (EB' : (a ++ b) ++ [hd] = a ++ q :: w) by (by rewrite <-app_assoc, EB).
  unfold ring. rewrite EA', EB'. split; [|split].
  - apply NoDup_app. split; [done|]. split; [set_solver|]. apply NoDup_cons. set_solver.
  - apply leads_app; [done|]. split; [|constructor].
    + eapply leads_frame, H1a. intros x Hx. fields. by rewrite !decide_False by set_solver.
    + fields. by rewrite decide_True.
    + eapply leads_frame, H1w. intros x Hx. fields. by rewrite !decide_False by set_solver.
  - apply leads_app; [done|]. split; [|constructor].
    + eapply leads_frame, H2a. intros x Hx. fields. by rewrite !decide_False by set_solver.
    + fields. by rewrite decide_True.
    + eapply leads_frame, H2w. intros x Hx. fields. by rewrite !decide_False by set_solver.
Qed.

Lemma init_ok h a :
  alloc h a -> exists h', INIT_LIST_HEAD h (Some a) = Ok h' /\ ring h' a [] /\ same_off [a] h h'.
Proof.
  intros Ha. eexists. split.
  { unfold INIT_LIST_HEAD. rewrite set_next_eq by done. cbn [mbind outcome_bind].
    by rewrite set_prev_eq by (by autorewrite with wr). }
  split; [|stores]. split; [apply NoDup_singleton|].
  split; (constructor; [|constructor]); fields; by rewrite decide_True.
Qed.

Lemma detach_ok h hd xs e :
  ring h hd xs -> alloc h e -> e ∉ hd :: xs ->
  exists h', (h ← set_next h (Some e) None; set_prev h (Some e) None) = Ok h' /\
    ring h' hd xs /\ nxt h' e = None /\ prv h' e = None /\ same_off [e] h h'.
Proof.
  intros Hr He Hni. rewrite set_next_eq by done. cbn [mbind outcome_bind].
  rewrite set_prev_eq by (by autorewrite with wr). eexists. split; [done|].
  assert (Hs : same_off [e] h (wr_prev (wr_next h e None) e None)) by stores.
  split; [|split; [|split; [|done]]].
  - eapply ring_frame; [|done]. intros x Hx. apply Hs. set_solver.
  - fields. by rewrite decide_True.
  - fields. by rewrite decide_True.
Qed.

(** ** Splicing *)

Lemma splice_eq h l hd f z q :
  alloc h l -> alloc h hd -> alloc h f -> alloc h z -> alloc h q ->
  nxt h l = Some f -> prv h l = Some z -> nxt h hd = Some q ->
  __list_splice h (Some l) (Some hd) =
    Ok (wr_prev (wr_next (wr_next (wr_prev h f (Some hd)) hd (Some f)) z (Some q)) q (Some z)).
Proof.
  intros Hl Hd Hf Hz Hq E1 E2 E3. unfold __list_splice.
  rewrite (get_next_eq h l), E1 by done. cbn [mbind outcome_bind].
  rewrite get_prev_eq, E2 by done. cbn [mbind outcome_bind].
  rewrite get_next_eq, E3 by done. cbn [mbind outcome_bind].
  rewrite set_prev_eq by done. cbn [mbind outcome_bind].
  rewrite set_next_eq by (by autorewrite with wr). cbn [mbind outcome_bind].
  rewrite set_next_eq by (by autorewrite with wr). cbn [mbind outcome_bind].
  by rewrite set_prev_eq by (by autorewrite with wr).
Qed.

(** Two chains joined: [a] now leads to [b] and [c] to [d]. *)
Lemma leads_join (g g' : loc -> ptr) a b c d A B C D :
  g' a = Some b -> g' c = Some d -> (forall x, x <> a -> x <> c -> g' x = g x) ->
  leads g A B -> leads g C D -> (a ∉ A ++ C) -> (c ∉ A ++ C) ->
  leads g' ([a] ++ A ++ [c] ++ C) ([b] ++ B ++ [d] ++ D).
Proof.
  intros Ha Hc Hg HAB HCD Hna Hnc. constructor; [done|].
  apply leads_app; [by eapply Forall2_length|]. split; [|constructor; [done|]].
  - eapply leads_frame, HAB. intros x Hx. apply Hg; set_solver.
  - eapply leads_frame, HCD. intros x Hx. apply Hg; set_solver.
Qed.

Lemma nodup_two (a c : loc) A C :
  NoDup ([a] ++ A ++ [c] ++ C) -> (a ∉ A ++ C) /\ (c ∉ A ++ C) /\ a <> c.
Proof.
  cbn [app]. intros [Ha H]%NoDup_cons. apply NoDup_app in H as (_ & HA & [Hc _]%NoDup_cons).
  split; [set_solver|]. split; [set_solver|]. intros ->. set_solver.
Qed.

Lemma splice_ok h l xs hd ys :
  ring h l xs -> xs <> [] -> ring h hd ys -> (forall x, x ∈ l :: xs -> x ∉ hd :: ys) ->
  exists h', __list_splice h (Some l) (Some hd) = Ok h' /\ ring h' hd (xs ++ ys) /\ alloc h' l /\
    same_off ((l :: xs) ++ hd :: ys) h h'.
Proof.
  intros Hr Hne Hr2 Hdis. pose proof Hr as (HN & H1 & H2). pose proof Hr2 as (HN2 & H3 & H4).
  pose proof (rotate_NoDup _ _ HN2) as HN2'. pose proof (rotate_NoDup _ _ HN) as HN'.
  destruct xs as [|f xs']; [done|]. destruct (exists_last (l := f :: xs')) as (v & z & Ez); [done|].
  destruct (ys ++ [hd]) as [|q w] eqn:EB; [by destruct ys|].
  assert (Hlv : length v = length xs').
  { apply (f_equal length) in Ez. rewrite length_app in Ez. simpl in Ez. lia. }
  assert (Elz : l :: f :: xs' = (l :: v) ++ [z]) by (by rewrite Ez).
  assert (Hz : z ∈ l :: f :: xs') by (rewrite Elz; apply elem_of_app; right; by left).
  assert (Hf : f ∈ l :: f :: xs') by (right; by left).
  assert (Hw : forall x, x ∈ q :: w -> x ∈ hd :: ys) by (intros x; rewrite <-EB; clear; set_solver).
  assert (Hv : forall x, x ∈ v -> x ∈ l :: f :: xs') by (intros x; rewrite Elz; clear; set_solver).
  assert (Hh : hd ∈ hd :: ys) by (by left). assert (Hq : q ∈ hd :: ys) by (apply Hw; by left).
  assert (Al : forall x, x ∈ l :: f :: xs' -> alloc h x) by (intros x; by apply ring_alloc).
  assert (Ah : forall x, x ∈ hd :: ys -> alloc h x) by (intros x; by apply ring_alloc).
  eexists. split.
  { apply (splice_eq h l hd f z q); auto.
    - apply Al. by left.
    - by apply (ring_first _ _ _ _ (xs' ++ [l]) Hr).
    - by apply (ring_last _ _ _ _ _ Hr Elz).
    - by apply (ring_first _ _ _ _ _ Hr2 EB). }
  split; [|split; [by autorewrite with wr; apply Al; left|]].
  2: { assert (hd ∈ (l :: f :: xs') ++ hd :: ys) by (apply elem_of_app; by right).
       assert (q ∈ (l :: f :: xs') ++ hd :: ys) by (apply elem_of_app; by right).
       assert (f ∈ (l :: f :: xs') ++ hd :: ys) by (apply elem_of_app; by left).
       assert (z ∈ (l :: f :: xs') ++ hd :: ys) by (apply elem_of_app; by left). clear -H H0 H5 H6. stores. }
  assert (HNA : NoDup (hd :: (f :: xs') ++ ys)).
  { rewrite Permutation_middle. apply NoDup_app. apply NoDup_cons in HN as [_ HN].
    split; [done|]. split; [|done]. intros x Hx. apply Hdis. by right. }
  pose proof (rotate_NoDup _ _ HNA) as HNB. unfold ring.
  replace (hd :: (f :: xs') ++ ys) with ([hd] ++ v ++ [z] ++ ys) in * by (rewrite Ez, <-!app_assoc; done).
  replace (((f :: xs') ++ ys) ++ [hd]) with ([f] ++ xs' ++ [q] ++ w) in * by (rewrite <-!app_assoc, EB; done).
  inversion_clear H1 as [|? ? ? ? _ H1']. inversion_clear H2 as [|? ? ? ? _ H2'].
  rewrite Ez in H1', H2'. apply leads_app in H1' as [H1v _]; [|done]. apply leads_app in H2' as [H2v _]; [|done].
  inversion_clear H3 as [|? ? ? ? _ H3w]. inversion_clear H4 as [|? ? ? ? _ H4w].
  destruct (nodup_two _ _ _ _ HNA) as (N1 & N2 & N3). destruct (nodup_two _ _ _ _ HNB) as (N4 & N5 & N6).
  pose proof (Ah _ Hh). pose proof (Ah _ Hq). pose proof (Al _ Hf). pose proof (Al _ Hz).
  split; [done|]. split.
  - apply (leads_join (nxt h)); try done; [..|intros x Hx1 Hx2]; fields.
    + by rewrite decide_False, decide_True.
    + by rewrite decide_True.
    + by rewrite !decide_False.
  - apply (leads_join (prv h)); try done; [..|intros x Hx1 Hx2]; fields.
    + by rewrite decide_False, decide_True.
    + by rewrite decide_True.
    + by rewrite !decide_False.
Qed.

(** ** Worlds of lists

    The abstract state maps the head of each list to its elements; [D] are the
    nodes that exist. *)

Abbreviation world := (gmap positive (list positive)) (only parsing).

(** [x] is in no list of [W]. *)
Definition clean (W : world) (x : loc) : Prop := forall hd xs, W !! hd = Some xs -> x ∉ hd :: xs.

Record repr (D : gset positive) (h : heap) (W : world) : Prop := {
  repr_dom : forall x, alloc h x <-> x ∈ D;
  repr_ring : forall hd xs, W !! hd = Some xs -> ring h hd xs;
  repr_disj : forall k k' xs xs' x,
    W !! k = Some xs -> W !! k' = Some xs' -> x ∈ k :: xs -> x ∈ k' :: xs' -> k = k' }.

Inductive op : Set :=
| Init (n : loc) | Add (n hd : loc) | AddTail (n hd : loc) | Del (e : loc) | DelInit (e : loc)
| Move (e hd : loc) | MoveTail (e hd : loc) | Splice (l hd : loc) | SpliceInit (l hd : loc).

Definition exec (h : heap) (o : op) : outcome heap :=
  match o with
  | Init n => INIT_LIST_HEAD h (Some n)
  | Add n hd => list_add h (Some n) (Some hd)
  | AddTail n hd => list_add_tail h (Some n) (Some hd)
  | Del e => list_del h (Some e)
  | DelInit e => list_del_init h (Some e)
  | Move e hd => list_move h (Some e) (Some hd)
  | MoveTail e hd => list_move_tail h (Some e) (Some hd)
  | Splice l hd => list_splice h (Some l) (Some hd)
  | SpliceInit l hd => list_splice_init h (Some l) (Some hd)
  end.

Fixpoint exec_all (h : heap) (os : list op) : outcome heap :=
  match os with [] => Ok h | o :: os => h ← exec h o; exec_all h os end.

(** A node that exists and is in no list, except that it may be the head of an
    empty one. *)
Definition avail (D : gset positive) (W : world) (n : loc) : Prop :=
  n ∈ D /\ (W !! n = None \/ W !! n = Some []) /\ clean (delete n W) n.

(** What each operation does to the sequences, and when it may be used. *)
Inductive astep (D : gset positive) (W : world) : op -> world -> Prop :=
| a_init n : avail D W n -> astep D W (Init n) (<[n := []]> W)
| a_add n hd xs : avail D W n -> n <> hd -> W !! hd = Some xs ->
    astep D W (Add n hd) (<[hd := n :: xs]> (delete n W))
| a_add_tail n hd xs : avail D W n -> n <> hd -> W !! hd = Some xs ->
    astep D W (AddTail n hd) (<[hd := xs ++ [n]]> (delete n W))
| a_del hd a e b : W !! hd = Some (a ++ e :: b) -> astep D W (Del e) (<[hd := a ++ b]> W)
| a_del_init hd a e b : W !! hd = Some (a ++ e :: b) ->
    astep D W (DelInit e) (<[e := []]> (<[hd := a ++ b]> W))
| a_move hd a e b hd' xs : W !! hd = Some (a ++ e :: b) -> <[hd := a ++ b]> W !! hd' = Some xs ->
    astep D W (Move e hd') (<[hd' := e :: xs]> (<[hd := a ++ b]> W))
| a_move_tail hd a e b hd' xs : W !! hd = Some (a ++ e :: b) -> <[hd := a ++ b]> W !! hd' = Some xs ->
    astep D W (MoveTail e hd') (<[hd' := xs ++ [e]]> (<[hd := a ++ b]> W))
| a_splice_empty l hd ys : W !! l = Some [] -> W !! hd = Some ys -> astep D W (Splice l hd) W
| a_splice l hd xs ys : W !! l = Some xs -> xs <> [] -> W !! hd = Some ys -> l <> hd ->
    astep D W (Splice l hd) (<[hd := xs ++ ys]> (delete l W))
| a_splice_init l hd xs ys : W !! l = Some xs -> W !! hd = Some ys -> l <> hd ->
    astep D W (SpliceInit l hd) (<[l := []]> (<[hd := xs ++ ys]> (delete l W))).

Inductive asteps (D : gset positive) : world -> list op -> world -> Prop :=
| as_nil W : asteps D W [] W
| as_cons W o W1 os W2 : astep D W o W1 -> asteps D W1 os W2 -> asteps D W (o :: os) W2.

Lemma repr_forget D h W n : repr D h W -> repr D h (delete n W).
Proof.
  intros [Hd Hr Hj]. split; [done|..].
  - intros hd xs [_ H]%lookup_delete_Some. by apply Hr.
  - intros k k' xs xs' x [_ H]%lookup_delete_Some [_ H']%lookup_delete_Some. by eapply Hj.
Qed.

(** One ring changes; the nodes touched are in no other. *)
Lemma repr_update D h h' W (S : list loc) hd xs' :
  repr D h W -> same_off S h h' -> ring h' hd xs' ->
  (forall x k ys, x ∈ S ++ hd :: xs' -> W !! k = Some ys -> x ∈ k :: ys -> k = hd) ->
  repr D h' (<[hd := xs']> W).
Proof.
  intros [Hd Hr Hj] [Hs Ha] Hring Hown. split.
  - intros x. by rewrite Ha.
  - intros k ys [[<- <-]|[Hne E]]%lookup_insert_Some; [done|].
    apply ring_frame with h; [|by apply Hr]. intros x Hx. apply Hs. intros HxS.
    apply Hne. symmetry. eapply Hown; [apply elem_of_app; by left|done|done].
  - intros k k' xs ys x [[<- <-]|[Hne E]]%lookup_insert_Some [[<- <-]|[Hne' E']]%lookup_insert_Some Hx Hx'.
    + done.
    + symmetry. eapply Hown; [apply elem_of_app; by right|done..].
    + eapply Hown; [apply elem_of_app; by right|done..].
    + by eapply Hj.
Qed.

Lemma repr_frame D h h' W (S : list loc) :
  repr D h W -> same_off S h h' -> (forall x, x ∈ S -> clean W x) -> repr D h' W.
Proof.
  intros [Hd Hr Hj] [Hs Ha] Hc. split; [intros x; by rewrite Ha| |done].
  intros hd xs E. apply ring_frame with h; [|by apply Hr]. intros x Hx. apply Hs. intros HS.
  by eapply Hc.
Qed.

(** Nodes of the ring of [hd] or in no list belong to no other ring. *)
Lemma owned_by D h W hd xs (L : list loc) :
  repr D h W -> W !! hd = Some xs -> (forall x, x ∈ L -> clean W x \/ x ∈ hd :: xs) ->
  forall x k ys, x ∈ L -> W !! k = Some ys -> x ∈ k :: ys -> k = hd.
Proof.
  intros HR E HL x k ys Hx Ek Hxk. destruct (HL x Hx) as [Hc|Hx']; [by apply Hc in Ek|].
  eapply (repr_disj _ _ _ HR); eauto.
Qed.

Lemma add_step D h W n hd xs :
  repr D h W -> n ∈ D -> clean W n -> W !! hd = Some xs ->
  exists h', list_add h (Some n) (Some hd) = Ok h' /\ repr D h' (<[hd := n :: xs]> W).
Proof.
  intros HR Hn Hc E. destruct (list_add_ok h hd xs n) as (h' & -> & Hr & Hs).
  - by apply (repr_ring _ _ _ HR).
  - by apply (repr_dom _ _ _ HR).
  - by apply Hc.
  - exists h'. split; [done|]. eapply repr_update; [done..|]. apply (owned_by D h W hd xs); [done..|].
    intros x. clear -Hc. rewrite !elem_of_app, !elem_of_cons. naive_solver.
Qed.

Lemma add_tail_step D h W n hd xs :
  repr D h W -> n ∈ D -> clean W n -> W !! hd = Some xs ->
  exists h', list_add_tail h (Some n) (Some hd) = Ok h' /\ repr D h' (<[hd := xs ++ [n]]> W).
Proof.
  intros HR Hn Hc E. destruct (list_add_tail_ok h hd xs n) as (h' & -> & Hr & Hs).
  - by apply (repr_ring _ _ _ HR).
  - by apply (repr_dom _ _ _ HR).
  - by apply Hc.
  - exists h'. split; [done|]. eapply repr_update; [done..|]. apply (owned_by D h W hd xs); [done..|].
    intros x. clear -Hc. rewrite !elem_of_app, !elem_of_cons, elem_of_app, list_elem_of_singleton. naive_solver.
Qed.

Lemma unlink_step D h W hd a e b :
  repr D h W -> W !! hd = Some (a ++ e :: b) ->
  exists h', unlink h (Some e) = Ok h' /\ repr D h' (<[hd := a ++ b]> W) /\
    clean (<[hd := a ++ b]> W) e /\ e ∈ D.
Proof.
  intros HR E. pose proof (repr_ring _ _ _ HR _ _ E) as Hr.
  destruct (unlink_ok h hd a e b Hr) as (h' & -> & Hr' & He & Hs). exists h'. split; [done|].
  assert (HR' : repr D h' (<[hd := a ++ b]> W)).
  { eapply repr_update; [done..|]. apply (owned_by D h W hd (a ++ e :: b)); [done..|].
    intros x. clear. rewrite !elem_of_app, !elem_of_cons, !elem_of_app, !elem_of_cons. naive_solver. }
  split; [done|]. split; [|by apply (repr_dom _ _ _ HR')].
  intros k ys [[<- <-]|[Hne Ek]]%lookup_insert_Some Hin.
  - destruct Hr as [HN _]. apply NoDup_cons in HN as [Hhd HN]. apply NoDup_app in HN as (_ & Ha & [Hb _]%NoDup_cons).
    apply elem_of_cons in Hin as [->|Hin]; [apply Hhd; clear; set_solver|].
    apply elem_of_app in Hin as [Hin|Hin]; [|done]. apply (Ha e Hin). by left.
  - apply Hne. eapply (repr_disj _ _ _ HR); [exact E|exact Ek| |exact Hin]. clear. set_solver.
Qed.

Lemma init_step D h W n :
  repr D h W -> n ∈ D -> clean (delete n W) n ->
  exists h', INIT_LIST_HEAD h (Some n) = Ok h' /\ repr D h' (<[n := []]> W).
Proof.
  intros HR Hn Hc. destruct (init_ok h n) as (h' & -> & Hr & Hs); [by apply (repr_dom _ _ _ HR)|].
  exists h'. split; [done|]. eapply repr_update; [done..|].
  intros x k ys Hx Ek Hxk. apply dec_stable. intros Hne.
  assert (x = n) as -> by (clear -Hx; set_solver).
  apply (Hc k ys); [|done]. by rewrite lookup_delete_ne.
Qed.

Lemma list_empty_ok h hd xs : ring h hd xs -> list_empty h (Some hd) = Ok (bool_decide (xs = [])).
Proof.
  intros Hr. unfold list_empty. rewrite get_next_eq by (eapply ring_alloc; [done|by left]).
  destruct (xs ++ [hd]) as [|q w] eqn:E; [by destruct xs|].
  rewrite (ring_first _ _ _ _ _ Hr E). cbn [mbind outcome_bind]. f_equal. apply bool_decide_ext.
  destruct xs as [|y xs]; simplify_eq/=; [done|]. split; [|done]. intros [= ->].
  destruct Hr as [HN _]. apply NoDup_cons in HN as [HN _]. exfalso. apply HN. by left.
Qed.

Lemma splice_step D h W l hd xs ys :
  repr D h W -> W !! l = Some xs -> xs <> [] -> W !! hd = Some ys -> l <> hd ->
  exists h', __list_splice h (Some l) (Some hd) = Ok h' /\
    repr D h' (<[hd := xs ++ ys]> (delete l W)) /\ l ∈ D /\ clean (<[hd := xs ++ ys]> (delete l W)) l.
Proof.
  intros HR El Hne Eh Hlh.
  assert (Hdis : forall x, x ∈ l :: xs -> x ∉ hd :: ys).
  { intros x H1 H2. apply Hlh. eapply (repr_disj _ _ _ HR); eauto. }
  destruct (splice_ok h l xs hd ys) as (h' & -> & Hr & Ha & Hs); [by apply (repr_ring _ _ _ HR)|done|by apply (repr_ring _ _ _ HR)|done|].
  exists h'. split; [done|].
  assert (Hcl : forall x, x ∈ l :: xs -> clean (delete l W) x).
  { intros x Hx k zs [Hk Ek]%lookup_delete_Some Hin. apply Hk. eapply (repr_disj _ _ _ HR); eauto. }
  assert (HR' : repr D h' (<[hd := xs ++ ys]> (delete l W))).
  { eapply repr_update; [by apply repr_forget|done|done|].
    apply (owned_by D h (delete l W) hd ys); [by apply repr_forget|by rewrite lookup_delete_ne|].
    intros x. specialize (Hcl x). clear -Hcl. revert Hcl. rewrite !elem_of_app, !elem_of_cons, elem_of_app. naive_solver. }
  split; [done|]. split; [by apply (repr_dom _ _ _ HR')|].
  intros k zs [[<- <-]|[Hk Ek]]%lookup_insert_Some Hin.
  - apply elem_of_cons in Hin as [->|[Hin|Hin]%elem_of_app]; [done|..].
    + pose proof (repr_ring _ _ _ HR _ _ El) as [HN _]. by apply NoDup_cons in HN as [HN _].
    + apply (Hdis l); [by left|by right].
  - apply (Hcl l ltac:(by left) k zs Ek Hin).
Qed.

Lemma del_step D h W hd a e b :
  repr D h W -> W !! hd = Some (a ++ e :: b) ->
  exists h', list_del h (Some e) = Ok h' /\ repr D h' (<[hd := a ++ b]> W) /\
    nxt h' e = None /\ prv h' e = None.
Proof.
  intros HR E. destruct (unlink_step _ _ _ _ _ _ _ HR E) as (h1 & E1 & HR1 & Hc & He).
  assert (Hr1 : ring h1 hd (a ++ b)) by (apply (repr_ring _ _ _ HR1); by rewrite lookup_insert_eq).
  destruct (detach_ok h1 hd (a ++ b) e) as (h2 & E2 & _ & Hn & Hp & Hs).
  { done. } { by apply (repr_dom _ _ _ HR1). } { apply Hc. by rewrite lookup_insert_eq. }
  exists h2. unfold list_del. rewrite E1. cbn [mbind outcome_bind]. split; [exact E2|].
  split; [|done]. eapply repr_frame; [done..|]. intros x Hx. by apply list_elem_of_singleton in Hx as ->.
Qed.

Lemma exec_step D h W o W' :
  repr D h W -> astep D W o W' -> exists h', exec h o = Ok h' /\ repr D h' W'.
Proof.
  intros HR Hs. destruct Hs as [n (Hn & Hw & Hc)|n hd xs (Hn & Hw & Hc) Hne E|n hd xs (Hn & Hw & Hc) Hne E
    |hd a e b E|hd a e b E|hd a e b hd' xs E E'|hd a e b hd' xs E E'|l hd ys El Eh|l hd xs ys El Hx Eh Hne
    |l hd xs ys El Eh Hne]; cbn [exec].
  - by apply init_step.
  - apply add_step; [by apply repr_forget|done..|by rewrite lookup_delete_ne].
  - apply add_tail_step; [by apply repr_forget|done..|by rewrite lookup_delete_ne].
  - destruct (del_step _ _ _ _ _ _ _ HR E) as (h' & H1 & H2 & _). eauto.
  - destruct (unlink_step _ _ _ _ _ _ _ HR E) as (h1 & E1 & HR1 & Hc & He).
    unfold list_del_init. rewrite E1. cbn [mbind outcome_bind]. apply init_step; [done..|].
    intros k ys [_ Hk]%lookup_delete_Some. by apply Hc.
  - destruct (unlink_step _ _ _ _ _ _ _ HR E) as (h1 & E1 & HR1 & Hc & He).
    unfold list_move. rewrite E1. cbn [mbind outcome_bind]. by apply add_step.
  - destruct (unlink_step _ _ _ _ _ _ _ HR E) as (h1 & E1 & HR1 & Hc & He).
    unfold list_move_tail. rewrite E1. cbn [mbind outcome_bind]. by apply add_tail_step.
  - unfold list_splice. rewrite (list_empty_ok h l []) by (by apply (repr_ring _ _ _ HR)). by exists h.
  - unfold list_splice. rewrite (list_empty_ok h l xs) by (by apply (repr_ring _ _ _ HR)).
    cbn [mbind outcome_bind]. rewrite bool_decide_eq_false_2 by done. cbn [negb].
    destruct (splice_step D h W l hd xs ys) as (h' & -> & HR' & _); [done..|]. eauto.
  - unfold list_splice_init. rewrite (list_empty_ok h l xs) by (by apply (repr_ring _ _ _ HR)).
    cbn [mbind outcome_bind]. case_bool_decide as Hx; cbn [negb].
    + subst xs. exists h. split; [done|].
      replace (<[l:=[]]> (<[hd:=[] ++ ys]> (delete l W))) with W; [done|].
      rewrite insert_insert_ne, insert_delete_eq by done. cbn [app]. by rewrite (insert_id W l), (insert_id W hd).
    + destruct (splice_step D h W l hd xs ys) as (h' & -> & HR' & Hl & Hc); [done..|].
      cbn [mbind outcome_bind]. apply init_step; [done..|].
      intros k zs [_ Hk]%lookup_delete_Some. by apply Hc.
Qed.

(** ** Traversal *)

Lemma for_each_leads (step : heap -> ptr -> outcome ptr) (f : loc -> ptr) h hd fuel ys y zs :
  (forall x, x ∈ ys -> alloc h x /\ step h (Some x) = Ok (f x)) ->
  ys ++ [hd] = y :: zs -> leads f ys zs -> hd ∉ ys -> (length ys < fuel)%nat ->
  for_each fuel step h (Some y) (Some hd) = Ok ys.
Proof.
  revert ys y zs. induction fuel as [|fuel IH]; intros ys y zs Ha E Hl Hh Hf; [lia|].
  cbn [for_each]. destruct ys as [|y' ys]; cbn [app] in E; simplify_eq.
  { by rewrite bool_decide_eq_true_2. }
  rewrite bool_decide_eq_false_2 by (intros [= ->]; apply Hh; by left).
  destruct (Ha y) as [[n En] Es]; [by left|]. unfold deref. rewrite En, Es. cbn [mbind outcome_bind fst].
  destruct (ys ++ [hd]) as [|z w] eqn:Ez; [by destruct ys|].
  inversion Hl as [|? ? ? ? Ey Hl']; subst. rewrite Ey.
  rewrite (IH ys z w); [done|..].
  - intros x Hx. apply Ha. by right.
  - done.
  - done.
  - intros Hin. apply Hh. by right.
  - simpl in Hf. lia.
Qed.

Lemma for_each_ok h hd xs fuel :
  ring h hd xs -> (length xs < fuel)%nat -> list_for_each fuel h (Some hd) = Ok xs.
Proof.
  intros Hr Hf. pose proof Hr as (HN & H1 & _). unfold list_for_each.
  rewrite get_next_eq by (eapply ring_alloc; [done|by left]).
  destruct (xs ++ [hd]) as [|q w] eqn:E; [by destruct xs|].
  rewrite (ring_first _ _ _ _ _ Hr E). cbn [mbind outcome_bind].
  apply NoDup_cons in HN as [HN _]. inversion H1; subst.
  apply (for_each_leads get_next (nxt h) h hd fuel xs q w); try done.
  intros x Hx. assert (alloc h x) by (eapply ring_alloc; [done|by right]). split; [done|by apply get_next_eq].
Qed.

Lemma for_each_prev_ok h hd xs fuel :
  ring h hd xs -> (length xs < fuel)%nat -> list_for_each_prev fuel h (Some hd) = Ok (reverse xs).
Proof.
  intros Hr Hf. pose proof Hr as (HN & _ & H2). unfold list_for_each_prev.
  rewrite get_prev_eq by (eapply ring_alloc; [done|by left]).
  apply Forall2_reverse in H2. rewrite reverse_app, (reverse_cons xs hd), reverse_singleton in H2.
  cbn [app] in H2.
  destruct (reverse xs ++ [hd]) as [|q w] eqn:E; [by destruct (reverse xs)|].
  inversion H2 as [|? ? ? ? Eq Hw]; subst. rewrite Eq. cbn [mbind outcome_bind].
  apply NoDup_cons in HN as [HN _].
  apply (for_each_leads get_prev (prv h) h hd fuel (reverse xs) q w); try done.
  - intros x Hx. rewrite elem_of_reverse in Hx. assert (alloc h x) by (eapply ring_alloc; [done|by right]).
    split; [done|by apply get_prev_eq].
  - by rewrite elem_of_reverse.
  - by rewrite length_reverse.
Qed.

(** [list_for_each_safe(pos, n, head) list_del(pos)]. *)
Lemma for_each_safe_del D h W hd ys y n zs fuel :
  repr D h W -> W !! hd = Some ys -> ys ++ [hd] = y :: zs -> nxt h y = Some n -> (length ys < fuel)%nat ->
  exists h', for_each_safe fuel list_del h (Some y) (Some n) (Some hd) = Ok h' /\ repr D h' (<[hd := []]> W).
Proof.
  revert h W ys y n zs. induction fuel as [|fuel IH]; intros h W ys y n zs HR E Ey En Hf; [lia|].
  cbn [for_each_safe]. destruct ys as [|y' ys]; cbn [app] in Ey; simplify_eq.
  { rewrite bool_decide_eq_true_2 by done. exists h. split; [done|]. by rewrite insert_id. }
  pose proof (repr_ring _ _ _ HR _ _ E) as (HN & H1 & _). apply NoDup_cons in HN as [HN _].
  rewrite bool_decide_eq_false_2 by (intros [= ->]; apply HN; by left).
  destruct (del_step D h W hd [] y ys HR E) as (h1 & -> & HR1 & _). cbn [mbind outcome_bind app].
  assert (E1 : <[hd := ys]> W !! hd = Some ys) by apply lookup_insert_eq.
  pose proof (repr_ring _ _ _ HR1 _ _ E1) as Hr1.
  destruct (ys ++ [hd]) as [|z w] eqn:Ez; [by destruct ys|].
  inversion H1 as [|? ? ? ? _ H2]. subst. cbn [app] in H2. rewrite Ez in H2.
  inversion H2 as [|? ? ? ? Ey _]. subst. rewrite En in Ey. simplify_eq.
  assert (Hz : z ∈ hd :: ys) by (assert (z ∈ ys ++ [hd]) by (rewrite Ez; by left); clear -H; set_solver).
  assert (exists n', nxt h1 z = Some n') as [n' En'].
  { destruct Hr1 as (_ & Hl & _). clear -Hl Hz. induction Hl; [by apply elem_of_nil in Hz|].
    apply elem_of_cons in Hz as [->|]; eauto. }
  rewrite get_next_eq, En' by (by eapply ring_alloc). cbn [mbind outcome_bind].
  destruct (IH h1 (<[hd := ys]> W) ys z n' w) as (h2 & -> & HR2); [done..|simpl in Hf; lia|].
  exists h2. split; [done|]. by rewrite insert_insert_eq in HR2.
Qed.

(** ** Properties *)

(** C33: the intrusive lists are sequences.  From any heap whose rings stand for
    a world of disjoint lists, every sequence of initialisations, insertions at
    either end, removals, moves within a list or to another one, and splices,
    each used as its specification allows, runs without touching a null or
    dangling pointer and ends in a heap that stands for the world in which the
    same operations were done on sequences; no list is changed by an operation
    on another. *)
Theorem lists_refine_sequences (D : gset positive) (h : heap) (W W' : world) (os : list op)
  (HR : repr D h W) (Hs : asteps D W os W') :
  exists h', exec_all h os = Ok h' /\ repr D h' W'.
Proof.
  revert h HR. induction Hs as [W|W o W1 os W2 Ho Hs IH]; intros h HR; [by exists h|].
  destruct (exec_step D h W o W1 HR Ho) as (h1 & E1 & HR1). cbn [exec_all].
  rewrite E1. cbn [mbind outcome_bind]. by apply IH.
Qed.

(** Three unlinked nodes: 1 becomes a list of 2 and 3, 3 is moved to the front. *)
Definition three : heap := <[1%positive := mkHead None None]> (<[2%positive := mkHead None None]>
  (<[3%positive := mkHead None None]> ∅)).

Lemma three_repr : repr {[1; 2; 3]}%positive three ∅.
Proof.
  split.
  - intros x. unfold alloc, three. rewrite !lookup_insert_is_Some, lookup_empty. split.
    + intros [<-|[_ [<-|[_ [<-|[_ []%is_Some_None]]]]]]; set_solver.
    + intros Hx. destruct (decide (1%positive = x)); [by left|]. right. split; [done|].
      destruct (decide (2%positive = x)); [by left|]. right. split; [done|]. left. set_solver.
  - done.
  - done.
Qed.

Lemma lists_refine_sequences_witness :
  exists h', exec_all three [Init 1; AddTail 2 1; AddTail 3 1; Move 3 1]%positive = Ok h' /\
    repr {[1; 2; 3]}%positive h' (<[1%positive := [3; 2]%positive]> ∅).
Proof.
  apply (lists_refine_sequences _ three ∅ _ _ three_repr).
  econstructor; [apply a_init; split; [set_solver|split; [by left|intros ? ?; by rewrite delete_empty]]|].
  rewrite insert_empty.
  assert (Hav : forall x xs, x <> 1%positive -> x ∉ xs -> x ∈ ({[1; 2; 3]}%positive : gset positive) ->
    avail {[1; 2; 3]}%positive {[1%positive := xs]} x).
  { intros x xs Hx Hn Hd. split; [done|]. split; [left; by apply lookup_singleton_ne|].
    intros k ys [_ [<- <-]%lookup_singleton_Some]%lookup_delete_Some. set_solver. }
  econstructor; [apply (a_add_tail _ _ 2 1 []); [apply Hav; set_solver|done|by rewrite lookup_singleton_eq]|].
  rewrite delete_singleton_ne, insert_singleton_eq by done.
  econstructor; [apply (a_add_tail _ _ 3 1 [2%positive]); [apply Hav; set_solver|done|by rewrite lookup_singleton_eq]|].
  rewrite delete_singleton_ne, insert_singleton_eq by done.
  econstructor; [apply (a_move _ _ 1 [2%positive] 3 [] 1 [2%positive]); [by rewrite lookup_singleton_eq|by rewrite insert_singleton_eq, lookup_singleton_eq]|].
  rewrite !insert_singleton_eq. apply as_nil.
Defined.

(** C38: traversal.  On a list of a represented heap [list_for_each] visits
    exactly its elements in order and [list_for_each_prev] in reverse order,
    [list_empty] tells whether there are any, and [list_for_each_safe] with
    [list_del] as its body empties the list and leaves every other list as it
    is; each loop ends after one turn per element. *)
Theorem lists_traversal (D : gset positive) (h : heap) (W : world) (hd : loc) (xs : list loc) (fuel : nat)
  (HR : repr D h W) (E : W !! hd = Some xs) (Hf : (length xs < fuel)%nat) :
  list_for_each fuel h (Some hd) = Ok xs /\
  list_for_each_prev fuel h (Some hd) = Ok (reverse xs) /\
  list_empty h (Some hd) = Ok (bool_decide (xs = [])) /\
  exists h', list_for_each_safe fuel list_del h (Some hd) = Ok h' /\ repr D h' (<[hd := []]> W).
Proof.
  pose proof (repr_ring _ _ _ HR _ _ E) as Hr.
  split; [by apply for_each_ok|]. split; [by apply for_each_prev_ok|]. split; [by apply list_empty_ok|].
  destruct (xs ++ [hd]) as [|q w] eqn:Eq; [by destruct xs|].
  unfold list_for_each_safe. rewrite get_next_eq by (eapply ring_alloc; [done|by left]).
  rewrite (ring_first _ _ _ _ _ Hr Eq). cbn [mbind outcome_bind].
  assert (Hq : q ∈ hd :: xs) by (assert (q ∈ xs ++ [hd]) by (rewrite Eq; by left); clear -H; set_solver).
  rewrite get_next_eq by (by eapply ring_alloc). cbn [mbind outcome_bind].
  destruct (nxt h q) as [n|] eqn:En; [by eapply for_each_safe_del|].
  destruct Hr as (_ & Hl & _). exfalso. clear -Hl Hq En.
  induction Hl; [by apply elem_of_nil in Hq|]. apply elem_of_cons in Hq as [->|]; [congruence|auto].
Qed.

(** The list 1 of 2 and 3. *)
Definition demo : heap :=
  <[1%positive := mkHead (Some 2%positive) (Some 3%positive)]>
  (<[2%positive := mkHead (Some 3%positive) (Some 1%positive)]>
  (<[3%positive := mkHead (Some 1%positive) (Some 2%positive)]> ∅)).

Lemma demo_repr : repr (dom demo) demo {[1%positive := [2; 3]%positive]}.
Proof.
  split.
  - intros x. unfold alloc. by rewrite elem_of_dom.
  - intros hd xs [<- <-]%lookup_singleton_Some. split; [decide_vm|]. split; repeat constructor.
  - intros k k' xs xs' x [<- _]%lookup_singleton_Some [<- _]%lookup_singleton_Some. done.
Qed.

Lemma lists_traversal_witness :
  list_for_each 3 demo (Some 1%positive) = Ok [2; 3]%positive /\
  list_for_each_prev 3 demo (Some 1%positive) = Ok (reverse [2; 3]%positive) /\
  list_empty demo (Some 1%positive) = Ok (bool_decide ([2; 3]%positive = [])) /\
  exists h', list_for_each_safe 3 list_del demo (Some 1%positive) = Ok h' /\
    repr (dom demo) h' (<[1%positive := []]> {[1%positive := [2; 3]%positive]}).
Proof. apply (lists_traversal _ demo _ _ _ 3 demo_repr); [by rewrite lookup_singleton_eq|simpl; lia]. Defined.
