(* ===== verification/File.v ===== *)
(** * File helpers (src/util/file.cpp)

    A [std::string] is a list of bytes that may contain zero bytes; a system
    call sees it up to the first one.  dirname cuts a path by storing zero
    bytes into a copy of it, so the strings create_parent_dir recurses on keep
    their length.  The file system is a parameter with the documented laws of
    mkdir. *)

From S2P Require Import Prelude.

Definition slash : Z := 47.

(** What a system call sees of a string. *)
Definition c_str (s : bytes) : bytes := cstr (s ++ [0]).

(** ** dirname and basename *)

(** [while (last >= 0 && test(s[last])) --last;] with [n] for [last + 1]. *)
Fixpoint back (test : Z -> bool) (s : bytes) (n : nat) : nat :=
  match n with
  | O => O
  | S m => match s !! m with Some c => if test c then back test s m else n | None => n end
  end.

(** [while (last > 0 && '/' == parent[last]) --last;]. *)
Fixpoint back_to_root (s : bytes) (n : nat) : nat :=
  match n with
  | S (S m as n') =>
      match s !! n' with Some c => if c =? slash then back_to_root s n' else n | None => n end
  | _ => n
  end.

Definition is_slash (c : Z) : bool := c =? slash.
Definition not_slash (c : Z) : bool := negb (c =? slash).

Definition dirname (pathname : bytes) (reserve_last_slash : bool) : bytes :=
  let n := back is_slash pathname (length pathname) in
  if (n =? 0)%nat then [slash] else
  let n := back not_slash pathname n in
  let '(parent, n) := if (n =? 0)%nat then ([46; slash], 2%nat) else (<[n := 0]> pathname, n) in
  if reserve_last_slash then parent else
  let n := back_to_root parent n in
  <[n := 0]> parent.

Definition basename (pathname : bytes) : bytes :=
  let n := back is_slash pathname (length pathname) in
  if (n =? 0)%nat then [slash] else
  let m := back not_slash pathname n in
  take (n - m) (drop m pathname).

(** ** The file system *)

Class FileSystem (F : Type) := {
  stat_dir : F -> bytes -> bool;      (** stat succeeds and S_ISDIR *)
  stat_size : F -> bytes -> option Z; (** st_size, when stat succeeds *)
  access_rwx : F -> bytes -> bool;    (** access(p, R_OK|W_OK|X_OK) == 0 *)
  access_f : F -> bytes -> bool;      (** access(p, F_OK) == 0 *)
  mkdir : F -> bytes -> bool * F }.

Definition usable `{FileSystem F} (f : F) (p : bytes) : bool := stat_dir f p && access_rwx f p.

(** The documented behaviour of mkdir: a new directory is usable by its
    creator, and nothing else changes; a failed call changes nothing. *)
Class FileSystemLaws F `{FileSystem F} := {
  mkdir_made (f : F) p f' : mkdir f p = (true, f') -> usable f' p = true;
  mkdir_other (f : F) p f' q : mkdir f p = (true, f') -> q <> p ->
    usable f' q = usable f q /\ access_f f' q = access_f f q;
  mkdir_failed (f : F) p f' : mkdir f p = (false, f') -> f' = f }.

Section Operations.
Context {F : Type} {FS : FileSystem F}.

Definition exists_ (f : F) (path : bytes) : Z := if access_f f (c_str path) then 0 else -1.

(** The return value and [*out_size]. *)
Definition file_size (f : F) (path : bytes) : Z * Z :=
  match stat_size f (c_str path) with None => (-1, 0) | Some n => (0, u64 n) end.

(** The recursion is on the string dirname returns. *)
Fixpoint create_parent_dir (fuel : nat) (f : F) (path : bytes) : outcome (Z * F) :=
  match fuel with
  | O => Trap OutOfFuel
  | S fuel =>
      let parent := dirname path false in
      if usable f (c_str parent) then Ok (0, f)
      else if access_f f (c_str parent) then Ok (-1, f)
      else
        r ← create_parent_dir fuel f parent;
        let '(ret, f) := r in
        if ret =? 0 then
          let '(made, f) := mkdir f (c_str parent) in Ok (if made then 0 else -1, f)
        else Ok (-1, f)
  end.

Definition create_dir (fuel : nat) (f : F) (path : bytes) : outcome (Z * F) :=
  if usable f (c_str path) then Ok (0, f)
  else if access_f f (c_str path) then Ok (-1, f)
  else
    r ← create_parent_dir fuel f path;
    let '(ret, f) := r in
    if ret =? 0 then
      let '(made, f) := mkdir f (c_str path) in Ok (if made then 0 else -1, f)
    else Ok (-1, f).

End Operations.

(** ** scan_dir *)

(** What readdir_r gives: the array [d_name] of an entry, the end of the
    directory, or an error. *)
Inductive dirread : Set := Entry (d_name : bytes) | DirEnd | DirError.

(** The loop; a directory stream ends with [DirEnd] or [DirError]. *)
Fixpoint scan_loop (reads : list dirread) (prefix : bytes) (out : list bytes) : outcome (Z * list bytes) :=
  match reads with
  | [] => Trap OutOfFuel
  | DirError :: _ => Ok (-1, out)
  | DirEnd :: _ => Ok (0, out)
  | Entry d_name :: reads =>
      if bool_decide (cstr d_name = str "..") || bool_decide (cstr d_name = str ".")
      then scan_loop reads prefix out
      else
        b ← read_block d_name 0 (Z.of_nat (length prefix));
        scan_loop reads prefix (if memcmp b prefix =? 0 then out ++ [cstr d_name] else out)
  end.

(** [None]: opendir failed. *)
Definition scan_dir (dir : option (list dirread)) (prefix : bytes) : outcome (Z * list bytes) :=
  match dir with None => Ok (-1, []) | Some reads => scan_loop reads prefix [] end.

(** ** Runs *)

Example dirname_runs :
  (c_str (dirname (str "/a/b/c") false), c_str (dirname (str "abc") false), c_str (dirname (str "/a") false),
   c_str (dirname (str "//") false), c_str (dirname (str "/a//b/") false), c_str (dirname (str "/a/b") true)) =
  (str "/a/b", str ".", str "/", str "/", str "/a", str "/a/").
Proof. reflexivity. Qed.

Example basename_runs :
  (basename (str "/a/bc"), basename (str "bc//"), basename (str "/")) = (str "bc", str "bc", str "/").
Proof. reflexivity. Qed.

(** ** Cutting paths *)

Definition no_slash (s : bytes) : Prop := Forall (fun c => c <> slash) s.

Lemma back_unique test s n k :
  (k <= n)%nat -> (forall i, (k <= i < n)%nat -> exists c, s !! i = Some c /\ test c = true) ->
  k = 0%nat \/ (exists j c, k = S j /\ s !! j = Some c /\ test c = false) -> back test s n = k.
Proof.
  intros Hk Ht Hs. induction n as [|m IH]; cbn [back]; [lia|].
  destruct (decide (k = S m)) as [->|Hne].
  - destruct Hs as [|(j & c & [= <-] & Ej & Hc)]; [lia|]. by rewrite Ej, Hc.
  - destruct (Ht m) as (c & -> & ->); [lia|]. apply IH; [lia|]. intros i Hi. apply Ht. lia.
Qed.

(** [a] ends where [test] stops holding. *)
Definition stops (test : Z -> bool) (a : bytes) : Prop :=
  a = [] \/ exists a' c, a = a' ++ [c] /\ test c = false.

Lemma back_mid test a b t :
  stops test a -> Forall (fun c => test c = true) b -> back test (a ++ b ++ t) (length a + length b) = length a.
Proof.
  intros Ha Hb. apply back_unique; [lia|..].
  - intros i Hi. rewrite lookup_app_r, lookup_app_l by lia.
    destruct (lookup_lt_is_Some_2 b (i - length a)) as [c E]; [lia|]. exists c. split; [done|].
    rewrite Forall_lookup in Hb. by eapply Hb.
  - destruct Ha as [->|(a' & c & -> & Hc)]; [by left|]. right. exists (length a'), c.
    rewrite length_app, Nat.add_1_r. split; [done|]. split; [|done].
    rewrite <-app_assoc. cbn [app]. apply list_lookup_middle. done.
Qed.

Lemma back_to_root_back s n : (0 < n)%nat -> back_to_root s n = Nat.max 1 (back is_slash s n).
Proof.
  induction n as [|n IH]; intros Hn; [lia|]. destruct n as [|m].
  - cbn [back_to_root back]. destruct (s !! 0%nat); [|lia]. destruct (is_slash z); cbn; lia.
  - cbn [back_to_root]. change (back is_slash s (S (S m))) with
      (match s !! S m with Some c => if is_slash c then back is_slash s (S m) else S (S m) | None => S (S m) end).
    destruct (s !! S m) as [c|]; [|lia]. unfold is_slash at 1. destruct (c =? slash); [|lia]. apply IH. lia.
Qed.

Lemma slashes_Forall i : Forall (fun c => is_slash c = true) (replicate i slash).
Proof. by apply Forall_replicate. Qed.

Lemma no_slash_Forall b : no_slash b -> Forall (fun c => not_slash c = true) b.
Proof. intros H. eapply Forall_impl; [exact H|]. intros c Hc. unfold not_slash. apply negb_true_iff. by apply Z.eqb_neq. Qed.

Lemma stops_slash_no_slash b a : b <> [] -> no_slash b -> stops is_slash (a ++ b).
Proof.
  intros Hne Hb. right. destruct (exists_last Hne) as (b' & c & ->). exists (a ++ b'), c.
  rewrite app_assoc. split; [done|]. apply Forall_app in Hb as [_ Hc].
  inversion_clear Hc. unfold is_slash. by apply Z.eqb_neq.
Qed.

Lemma stops_not_slash a i : stops not_slash (a ++ replicate (S i) slash).
Proof.
  right. exists (a ++ replicate i slash), slash. split; [|done].
  rewrite <-app_assoc. f_equal. change [slash] with (replicate 1 slash).
  rewrite <-replicate_add. f_equal. lia.
Qed.

(** A directory part that does not end in a slash. *)
Definition trimmed (d : bytes) : Prop := stops is_slash d.

Lemma back_trailing d b i : b <> [] -> no_slash b ->
  back is_slash (d ++ b ++ replicate i slash) (length (d ++ b ++ replicate i slash)) = (length d + length b)%nat.
Proof.
  intros Hne Hb. pose proof (back_mid is_slash (d ++ b) (replicate i slash) []) as H.
  rewrite app_nil_r, <-app_assoc, !length_app in H. rewrite !length_app, Nat.add_assoc. apply H.
  - by apply stops_slash_no_slash.
  - apply slashes_Forall.
Qed.

(** The last component of a path and what is in front of it, whatever the
    number of slashes between and behind them. *)
Lemma basename_app d b i j : b <> [] -> no_slash b ->
  basename (d ++ replicate (S i) slash ++ b ++ replicate j slash) = b.
Proof.
  intros Hne Hb. unfold basename. rewrite app_assoc, back_trailing by done.
  assert (length b <> 0%nat) by (by destruct b). rewrite !length_app, length_replicate.
  destruct (Nat.eqb_spec (length d + S i + length b) 0); [lia|].
  pose proof (back_mid not_slash (d ++ replicate (S i) slash) b (replicate j slash)) as E.
  rewrite length_app, length_replicate in E. rewrite E; [|apply stops_not_slash|by apply no_slash_Forall].
  rewrite drop_app_length' by (rewrite length_app, length_replicate; done).
  replace (_ - _)%nat with (length b) by lia. apply take_app_length.
Qed.

Lemma basename_alone b j : b <> [] -> no_slash b -> basename (b ++ replicate j slash) = b.
Proof.
  intros Hne Hb. unfold basename. 
  pose proof (back_trailing [] b j Hne Hb) as E0. cbn [app length Nat.add] in E0. rewrite E0.
  assert (length b <> 0%nat) by (by destruct b). destruct (Nat.eqb_spec (length b) 0); [lia|].
  pose proof (back_mid not_slash [] b (replicate j slash)) as E. cbn [app length Nat.add] in E.
  rewrite E; [|by left|by apply no_slash_Forall]. rewrite Nat.sub_0_r, drop_0. apply take_app_length.
Qed.

(** The cut string: the directory part, then a zero byte; the length is kept. *)
Lemma dirname_app d b i j :
  b <> [] -> no_slash b -> trimmed d ->
  exists t, dirname (d ++ replicate (S i) slash ++ b ++ replicate j slash) false =
    (if bool_decide (d = []) then [slash] else d) ++ 0 :: t /\
    (i = 0%nat -> j = 0%nat -> no_slash t).
Proof.
  intros Hne Hb Hd. unfold dirname. rewrite app_assoc, back_trailing by done.
  assert (Hlb : length b <> 0%nat) by (by destruct b). rewrite !length_app, length_replicate.
  destruct (Nat.eqb_spec (length d + S i + length b) 0); [lia|].
  pose proof (back_mid not_slash (d ++ replicate (S i) slash) b (replicate j slash)) as E.
  rewrite length_app, length_replicate in E. rewrite E; [|apply stops_not_slash|by apply no_slash_Forall].
  destruct (Nat.eqb_spec (length d + S i) 0); [lia|]. cbv zeta iota beta.
  destruct b as [|c b]; [done|]. cbn [app].
  assert (E1 : <[(length d + S i)%nat := 0]> ((d ++ replicate (S i) slash) ++ c :: b ++ replicate j slash) =
               d ++ replicate (S i) slash ++ 0 :: b ++ replicate j slash).
  { rewrite insert_app_r_alt by (rewrite length_app, length_replicate; lia).
    rewrite length_app, length_replicate, Nat.sub_diag. cbn [insert list_insert]. by rewrite <-app_assoc. }
  rewrite E1, back_to_root_back by lia.
  pose proof (back_mid is_slash d (replicate (S i) slash) (0 :: b ++ replicate j slash) Hd (slashes_Forall _)) as E2.
  rewrite length_replicate in E2. rewrite E2. clear E E1 E2.
  apply Forall_cons in Hb as [_ Hb].
  case_bool_decide as Hdn.
  - subst d. cbn [length Nat.max app]. destruct i as [|i]; cbn [replicate app].
    + exists (b ++ replicate j slash). split; [done|]. intros _ ->. by rewrite app_nil_r.
    + eexists. split; [cbn; reflexivity|done].
  - replace (Nat.max 1 (length d)) with (length d) by (destruct d; [done|simpl; lia]).
    rewrite insert_app_r_alt, Nat.sub_diag by lia. cbn [replicate app insert list_insert].
    eexists. split; [done|]. intros -> ->. cbn [replicate app]. rewrite app_nil_r. constructor; [done|exact Hb].
Qed.

Lemma dirname_alone b j : b <> [] -> no_slash b -> dirname (b ++ replicate j slash) false = [46; 0].
Proof.
  intros Hne Hb. unfold dirname. 
  pose proof (back_trailing [] b j Hne Hb) as E0. cbn [app length Nat.add] in E0. rewrite E0.
  assert (length b <> 0%nat) by (by destruct b). destruct (Nat.eqb_spec (length b) 0); [lia|].
  pose proof (back_mid not_slash [] b (replicate j slash)) as E. cbn [app length Nat.add] in E.
  by rewrite E by (by left || by apply no_slash_Forall).
Qed.

(** ** Creating directories *)

(** A component of a path, and absolute paths without redundant slashes. *)
Definition component (c : bytes) : Prop := c <> [] /\ no_slash c /\ no_nul c.
Definition path (cs : list bytes) : bytes := cs ≫= cons slash.
Definition dirpath (cs : list bytes) : bytes := if bool_decide (cs = []) then [slash] else path cs.

Lemma path_snoc cs c : path (cs ++ [c]) = path cs ++ slash :: c.
Proof. unfold path. rewrite bind_app. cbn. by rewrite app_nil_r. Qed.

Lemma path_nil cs : path cs = [] -> cs = [].
Proof. by destruct cs. Qed.

Lemma path_no_nul cs : Forall component cs -> no_nul (path cs).
Proof.
  induction 1 as [|c cs (_ & _ & Hc) _ IH]; [constructor|]. apply Forall_app. split; [|done].
  constructor; [done|exact Hc].
Qed.

Lemma dirpath_no_nul cs : Forall component cs -> no_nul (dirpath cs).
Proof.
  intros H. unfold dirpath. case_bool_decide; [|by apply path_no_nul]. repeat constructor. discriminate.
Qed.

Lemma path_trimmed cs : Forall component cs -> trimmed (path cs).
Proof.
  intros H. destruct cs as [|c cs _] using rev_ind; [by left|]. rewrite path_snoc.
  apply Forall_app in H as [_ (Hne & Hs & _)%Forall_singleton].
  change (slash :: c) with ([slash] ++ c). rewrite app_assoc. by apply stops_slash_no_slash.
Qed.

Lemma c_str_cut d t : no_nul d -> c_str (d ++ 0 :: t) = d.
Proof. intros H. unfold c_str. rewrite <-app_assoc. cbn [app]. by apply cstr_app. Qed.

Lemma c_str_whole d : no_nul d -> c_str d = d.
Proof. intros H. unfold c_str. by apply cstr_app. Qed.

(** What is left behind the first zero byte of a cut string. *)
Definition rest (t : bytes) : Prop := (t = [] \/ exists t', t = 0 :: t') /\ no_slash t.

Lemma dirname_path cs c t :
  Forall component cs -> component c -> rest t ->
  exists t', dirname (path (cs ++ [c]) ++ t) false = dirpath cs ++ 0 :: t' /\ no_slash t'.
Proof.
  intros Hcs (Hne & Hs & _) [_ Ht]. rewrite path_snoc.
  destruct (dirname_app (path cs) (c ++ t) 0 0) as (t' & E & Hn).
  - by destruct c.
  - apply Forall_app. by split.
  - by apply path_trimmed.
  - exists t'. split; [|auto]. cbn [replicate app] in E. rewrite app_nil_r in E.
    rewrite <-app_assoc. cbn [app]. rewrite E. unfold dirpath. do 2 f_equal.
    case_bool_decide as H1; case_bool_decide as H2; [done|by apply path_nil in H1|by subst|done].
Qed.

Section Create.
Context {F : Type} {FS : FileSystem F} {FL : FileSystemLaws F}.
Implicit Types f : F.

(** Only directories on the way to [cs] may have changed, and usable ones stay
    usable. *)
Definition keeps (cs : list bytes) f f' : Prop :=
  (forall q, (forall p, p `prefix_of` cs -> p <> [] -> q <> dirpath p) ->
     usable f' q = usable f q /\ access_f f' q = access_f f q) /\
  (forall q, usable f q = true -> usable f' q = true).

Lemma keeps_refl cs f : keeps cs f f.
Proof. by split. Qed.

Lemma keeps_prefix cs cs' f f' : cs `prefix_of` cs' -> keeps cs f f' -> keeps cs' f f'.
Proof.
  intros Hp [H1 H2]. split; [|done]. intros q Hq. apply H1. intros p Hpc. apply Hq. by etrans.
Qed.

Lemma keeps_mkdir cs f f1 f2 :
  cs <> [] -> keeps cs f f1 -> mkdir f1 (dirpath cs) = (true, f2) -> keeps cs f f2.
Proof.
  intros Hne [H1 H2] Hm. split.
  - intros q Hq. destruct (mkdir_other f1 _ f2 q Hm) as [-> ->]; [by apply Hq|]. by apply H1.
  - intros q Hq. destruct (decide (q = dirpath cs)) as [->|Hd]; [by eapply mkdir_made|].
    destruct (mkdir_other f1 _ f2 q Hm Hd) as [-> _]. auto.
Qed.

(** Nothing but usable directories is in the way of [cs]. *)
Definition clear_way (cs : list bytes) f : Prop :=
  forall p, p `prefix_of` cs -> access_f f (dirpath p) = true -> usable f (dirpath p) = true.

(** mkdir makes a missing directory of the way in a usable one. *)
Definition makes (cs : list bytes) : Prop :=
  forall (g : F) p c, p ++ [c] `prefix_of` cs -> usable g (dirpath p) = true ->
    access_f g (dirpath (p ++ [c])) = false -> fst (mkdir g (dirpath (p ++ [c]))) = true.

Lemma dirpath_longer cs c p : p `prefix_of` cs -> component c -> dirpath (cs ++ [c]) <> dirpath p.
Proof.
  intros [k ->] (Hc & _) E. apply (f_equal length) in E. unfold dirpath in E.
  rewrite bool_decide_eq_false_2 in E by (by destruct (p ++ k)).
  unfold path in E. rewrite !bind_app, !length_app in E. cbn in E. rewrite length_app in E. simpl in E.
  destruct c; [done|]. simpl in E. case_bool_decide; [subst; simpl in E|]; lia.
Qed.

(** The last mkdir, after the directories above have been dealt with. *)
Lemma make_last cs c f r f1 :
  component c -> access_f f (dirpath (cs ++ [c])) = false ->
  (r = 0 -> usable f1 (dirpath cs) = true) -> keeps cs f f1 -> (clear_way cs f -> makes cs -> r = 0) ->
  exists r' f', (if r =? 0 then
      let '(made, f') := mkdir f1 (dirpath (cs ++ [c])) in Ok (if made then 0 else -1, f')
    else Ok (-1, f1)) = Ok (r', f') /\
    (r' = 0 -> usable f' (dirpath (cs ++ [c])) = true) /\ keeps (cs ++ [c]) f f' /\
    (clear_way (cs ++ [c]) f -> makes (cs ++ [c]) -> r' = 0).
Proof.
  intros Hc Ha Hr Hk Hs. assert (Hpre : cs `prefix_of` cs ++ [c]) by (by apply prefix_app_r).
  pose proof (keeps_prefix _ _ _ _ Hpre Hk) as Hk'. destruct (Z.eqb_spec r 0) as [->|Hr0].
  2: { exists (-1), f1. split; [done|]. split; [done|]. split; [done|]. intros Hw Hm. exfalso. apply Hr0, Hs.
       - intros p Hp. apply Hw. by etrans.
       - intros g p x Hp. apply Hm. by etrans. }
  assert (Ha1 : access_f f1 (dirpath (cs ++ [c])) = false).
  { rewrite <-Ha. apply Hk. intros p Hp _. by apply dirpath_longer. }
  destruct (mkdir f1 (dirpath (cs ++ [c]))) as [[] f2] eqn:Em.
  - exists 0, f2. split; [done|]. split; [intros _; by eapply mkdir_made|].
    split; [|done]. eapply keeps_mkdir; [by destruct cs|done..].
  - pose proof Em as Em'. apply mkdir_failed in Em' as ->. exists (-1), f1.
    split; [done|]. split; [done|]. split; [done|].
    intros Hw Hm. specialize (Hm f1 cs c (reflexivity _) (Hr eq_refl) Ha1). by rewrite Em in Hm.
Qed.

Lemma create_parent_ok cs c t fuel f :
  Forall component cs -> component c -> rest t -> usable f [slash] = true -> (length cs < fuel)%nat ->
  exists r f', create_parent_dir fuel f (path (cs ++ [c]) ++ t) = Ok (r, f') /\
    (r = 0 -> usable f' (dirpath cs) = true) /\ keeps cs f f' /\
    (clear_way cs f -> makes cs -> r = 0).
Proof.
  revert c t fuel f. induction cs as [|c' cs IH] using rev_ind; intros c t fuel f Hcs Hc Ht Hroot Hf;
    (destruct fuel as [|fuel]; [lia|]); cbn [create_parent_dir];
    (destruct (dirname_path _ c t Hcs Hc Ht) as (t' & Ed & Ht')); rewrite Ed; clear Ed;
    rewrite (c_str_cut _ t' (dirpath_no_nul _ Hcs)).
  { change (dirpath []) with [slash]. rewrite Hroot. exists 0, f. by repeat split. }
  set (d := dirpath (cs ++ [c'])) in *.
  destruct (usable f d) eqn:Hu; [by exists 0, f; repeat split|].
  destruct (access_f f d) eqn:Ha.
  { exists (-1), f. split; [done|]. split; [done|]. split; [apply keeps_refl|].
    intros Hw _. specialize (Hw _ (reflexivity _) Ha). unfold d in Hu. congruence. }
  apply Forall_app in Hcs as [Hcs Hc']. rewrite Forall_singleton in Hc'.
  replace (d ++ 0 :: t') with (path (cs ++ [c']) ++ 0 :: t')
    by (unfold d, dirpath; by rewrite bool_decide_eq_false_2 by (by destruct cs)).
  destruct (IH c' (0 :: t') fuel f) as (r & f1 & -> & Hr & Hk & Hs); [done..|split; [eauto|constructor; [discriminate|done]]|done| |].
  { rewrite length_app in Hf. simpl in Hf. lia. }
  cbn [mbind outcome_bind]. by apply make_last.
Qed.

End Create.

(** ** A file system to run on *)

(** The set of directories there are, all of them usable; mkdir needs the
    parent. *)
#[export] Instance dirs : FileSystem (gset (list Z)) := {
  stat_dir f p := bool_decide (p ∈ f);
  stat_size f p := if bool_decide (p ∈ f) then Some 4096 else None;
  access_rwx f p := bool_decide (p ∈ f);
  access_f f p := bool_decide (p ∈ f);
  mkdir f p :=
    if bool_decide (p ∈ f) then (false, f)
    else if bool_decide (c_str (dirname p false) ∈ f) then (true, {[p]} ∪ f) else (false, f) }.

Lemma dirs_usable (f : gset (list Z)) p : usable f p = bool_decide (p ∈ f).
Proof. unfold usable. cbn. apply andb_diag. Qed.

#[export] Instance dirs_laws : FileSystemLaws (gset (list Z)).
Proof.
  split.
  - intros f p f'. rewrite dirs_usable. cbn. repeat case_bool_decide; intros [= <-]; set_solver.
  - intros f p f' q. rewrite !dirs_usable. cbn.
    repeat (case_bool_decide; try done); intros [= <-] Hq; set_solver.
  - intros f p f'. cbn. repeat case_bool_decide; by intros [= <-].
Qed.

(** ** scan_dir *)

Definition listed (prefix : bytes) (name : bytes) : Prop :=
  name <> str ".." /\ name <> str "." /\ prefix `prefix_of` name.
#[export] Instance listed_dec prefix name : Decision (listed prefix name).
Proof. unfold listed. apply _. Defined.

Lemma prefix_block prefix d : no_nul prefix -> prefix `prefix_of` d <-> prefix `prefix_of` cstr d.
Proof.
  intros Hp. revert d. induction Hp as [|c p Hc _ IH]; intros d; [split; intros _; apply prefix_nil|].
  destruct d as [|x d]; cbn [cstr]; [done|]. destruct (Z.eqb_spec x 0) as [->|Hx].
  - split; intros H; [|by apply prefix_nil_not in H].
    by apply prefix_cons_inv_1 in H.
  - split; intros H; pose proof (prefix_cons_inv_1 _ _ _ _ H); apply prefix_cons_inv_2 in H; subst x;
      apply prefix_cons; by apply (IH d).
Qed.

Lemma memcmp_name (prefix d b : bytes) :
  read_block d 0 (Z.of_nat (length prefix)) = Ok b -> (memcmp b prefix =? 0) = bool_decide (prefix `prefix_of` d).
Proof.
  unfold read_block. case_match eqn:E; [|done]. intros [= <-]. rewrite Nat2Z.id. change (Z.to_nat 0) with 0%nat. rewrite drop_0.
  destruct (decide (take (length prefix) d = prefix)) as [Et|Et].
  - rewrite Et, memcmp_refl. symmetry. apply bool_decide_eq_true. exists (drop (length prefix) d).
    rewrite <-Et at 1. symmetry. apply take_drop.
  - rewrite bool_decide_eq_false_2.
    + apply Z.eqb_neq. intros H%memcmp_0; [done|]. rewrite length_take. lia.
    + intros [k ->]. by rewrite take_app_length in Et.
Qed.

Lemma scan_loop_ok blocks last ret prefix out :
  no_nul prefix -> Forall (fun d => (length prefix <= length d)%nat) blocks ->
  (last = DirEnd /\ ret = 0 \/ last = DirError /\ ret = -1) ->
  scan_loop (map Entry blocks ++ [last]) prefix out = Ok (ret, out ++ filter (listed prefix) (cstr <$> blocks)).
Proof.
  intros Hp Hb Hl. revert out. induction Hb as [|d blocks Hd _ IH]; intros out.
  { rewrite app_nil_r. by destruct Hl as [[-> ->]|[-> ->]]. }
  cbn [map app scan_loop fmap list_fmap].
  assert (E : exists b, read_block d 0 (Z.of_nat (length prefix)) = Ok b)
    by (unfold read_block; decide_tests; eauto). destruct E as [b E].
  rewrite filter_cons.
  destruct (bool_decide (cstr d = str "..")) eqn:E1; [rewrite bool_decide_eq_true in E1|rewrite bool_decide_eq_false in E1].
  { cbn [orb]. rewrite decide_False by (unfold listed; tauto). apply IH. }
  destruct (bool_decide (cstr d = str ".")) eqn:E2; [rewrite bool_decide_eq_true in E2|rewrite bool_decide_eq_false in E2].
  { cbn [orb]. rewrite decide_False by (unfold listed; tauto). apply IH. }
  cbn [orb]. rewrite E. cbn [mbind outcome_bind]. rewrite (memcmp_name _ _ _ E).
  case_bool_decide as Hpre; rewrite (prefix_block _ _ Hp) in Hpre.
  - rewrite decide_True by done. rewrite IH, <-app_assoc. done.
  - rewrite decide_False by (unfold listed; tauto). apply IH.
Qed.

(** ** Properties *)

(** dirname and basename split every path.  Whatever the slashes between
    and behind them, a system call sees the result of dirname as the directory
    part of the path, [/] when that is empty, and basename gives the last
    component; a lone component is in [.]; of a path of slashes only, and of the
    empty one, both give [/]. *)
Theorem path_split (d b : bytes) (i j : nat)
  (Hd : trimmed d) (Hdn : no_nul d) (Hne : b <> []) (Hb : no_slash b) :
  (let p := d ++ replicate (S i) slash ++ b ++ replicate j slash in
   c_str (dirname p false) = (if bool_decide (d = []) then [slash] else d) /\ basename p = b) /\
  (let p := b ++ replicate j slash in c_str (dirname p false) = [46] /\ basename p = b) /\
  (let p := replicate j slash in dirname p false = [slash] /\ basename p = [slash]).
Proof.
  split; [|split]; cbv zeta.
  - destruct (dirname_app d b i j Hne Hb Hd) as (t & -> & _). split; [|by apply basename_app].
    apply c_str_cut. case_bool_decide; [repeat constructor; discriminate|done].
  - split; [by rewrite dirname_alone|by apply basename_alone].
  - pose proof (back_mid is_slash [] (replicate j slash) [] ltac:(by left) (slashes_Forall j)) as E.
    cbn [app length Nat.add] in E. rewrite app_nil_r in E. unfold dirname, basename. by rewrite E.
Qed.

Lemma path_split_witness :
  c_str (dirname (str "/a//bc/") false) = str "/a" /\ basename (str "/a//bc/") = str "bc".
Proof.
  apply (path_split (str "/a") (str "bc") 1 1).
  - right. exists [slash], 97. done.
  - repeat constructor; discriminate.
  - discriminate.
  - repeat constructor; discriminate.
Defined.

(** create_dir makes a directory and the ones above it.  For an absolute
    path without redundant slashes, over any file system in which [/] is usable,
    create_dir returns; when it returns 0 the directory is usable; only
    directories on the way to it have changed and none has become unusable; and
    it does return 0 when nothing but usable directories is in the way and mkdir
    can make the missing ones. *)
Theorem create_dir_makes_path `{FL : FileSystemLaws F} (f : F) (cs : list bytes) (c : bytes) (fuel : nat)
  (Hcs : Forall component cs) (Hc : component c) (Hroot : usable f [slash] = true)
  (Hf : (length cs < fuel)%nat) :
  exists r f', create_dir fuel f (path (cs ++ [c])) = Ok (r, f') /\
    (r = 0 -> usable f' (path (cs ++ [c])) = true) /\ keeps (cs ++ [c]) f f' /\
    (clear_way (cs ++ [c]) f -> makes (F := F) (cs ++ [c]) -> r = 0).
Proof.
  assert (Hall : Forall component (cs ++ [c])) by (apply Forall_app; split; [done|by apply Forall_singleton]).
  assert (Ed : dirpath (cs ++ [c]) = path (cs ++ [c]))
    by (unfold dirpath; by rewrite bool_decide_eq_false_2 by (by destruct cs)).
  unfold create_dir. rewrite c_str_whole by (by apply path_no_nul). rewrite <-!Ed.
  set (d := dirpath (cs ++ [c])) in *. destruct (usable f d) eqn:Hu; [by exists 0, f; repeat split|].
  destruct (access_f f d) eqn:Ha.
  { exists (-1), f. split; [done|]. split; [done|]. split; [apply keeps_refl|].
    intros Hw _. specialize (Hw _ (reflexivity _) Ha). unfold d in Hu. congruence. }
  destruct (create_parent_ok cs c [] fuel f) as (r & f1 & E & Hr & Hk & Hs); [done..|split; [by left|constructor]|done|done|].
  rewrite app_nil_r, <-Ed in E. rewrite E. cbn [mbind outcome_bind]. by apply make_last.
Qed.

Lemma create_dir_makes_path_witness :
  exists r f', create_dir 9 ({[[slash]]} : gset (list Z)) (str "/a/b") = Ok (r, f') /\
    (r = 0 -> usable f' (str "/a/b") = true).
Proof.
  destruct (create_dir_makes_path ({[[slash]]} : gset (list Z)) [str "a"] (str "b") 9) as (r & f' & H1 & H2 & _).
  - repeat constructor; discriminate.
  - repeat constructor; discriminate.
  - rewrite dirs_usable. by apply bool_decide_eq_true, elem_of_singleton.
  - simpl. lia.
  - exists r, f'. by split.
Defined.

Example create_dir_run :
  (r ← create_dir 9 ({[[slash]]} : gset (list Z)) (str "/a/b/c"); Ok (fst r, bool_decide (str "/a/b/c" ∈ snd r))) = Ok (0, true).
Proof. vm_compute. reflexivity. Qed.

(** a doubled slash makes create_parent_dir fail: the string dirname leaves
    for [/a] still has the second slash behind its zero byte, so the recursion
    meets [/a] twice and the second mkdir of it fails. *)
Theorem create_dir_doubled_slash :
  create_dir 9 ({[[slash]]} : gset (list Z)) (str "/a//b/c") = Ok (-1, {[str "/a"]} ∪ {[[slash]]}).
Proof. vm_compute. reflexivity. Qed.

(** scan_dir lists a directory.  Over every stream of entries whose name
    arrays are at least as long as the prefix, it returns in order the names
    with the prefix other than [.] and [..], with 0 when the stream ends and -1
    when it fails, the names read so far being left in the list. *)
Theorem scan_dir_lists (blocks : list bytes) (last : dirread) (ret : Z) (prefix : bytes)
  (Hp : no_nul prefix) (Hb : Forall (fun d => (length prefix <= length d)%nat) blocks)
  (Hl : last = DirEnd /\ ret = 0 \/ last = DirError /\ ret = -1) :
  scan_dir (Some (map Entry blocks ++ [last])) prefix = Ok (ret, filter (listed prefix) (cstr <$> blocks)).
Proof. by apply scan_loop_ok. Qed.

Lemma scan_dir_lists_witness :
  scan_dir (Some (map Entry [str ".." ++ [0]; str "ab" ++ [0]; str "b" ++ [0; 0]] ++ [DirEnd])) (str "a") =
    Ok (0, filter (listed (str "a")) (cstr <$> [str ".." ++ [0]; str "ab" ++ [0]; str "b" ++ [0; 0]])).
Proof.
  apply scan_dir_lists; [repeat constructor; discriminate|repeat constructor; simpl; lia|by left].
Defined.
