(* ===== verification/Log.v ===== *)
(** * Logging (src/util/log.cpp, src/util/log.h)

    The items a request collects for its log line (log_data_t), the assembly of
    a record in a fixed buffer (log_printf), and the thread that writes the
    records to the files.  The program is built with NOT_URLENCODE_LOG, so the
    text of a format is what the C library's snprintf prints; it enters as a
    string, and what snprintf does with the buffer is modelled. *)

From S2P Require Import Prelude Utils.

(** ** snprintf and the cursor macros *)

(** [snprintf(m + off, size, ...)] when the formatted text is [text]. *)
Definition c_snprintf (m : bytes) (off size : Z) (text : bytes) : outcome (Z * bytes) :=
  let n := Z.of_nat (length text) in
  if size =? 0 then Ok (n, m) else
  m ← memcpy m off (take (Z.to_nat (size - 1)) text ++ [0]);
  Ok (n, m).

(** The locals [buf] and [size], with the memory [buf] points into. *)
Record cursor := mkCursor { c_mem : bytes; c_buf : Z; c_size : Z }.

(** The macro _ADJUST_LOG_BUF_CURSOR. *)
Definition adjust (ret : Z) (c : cursor) : cursor :=
  let ret := if ret <? 0 then 0 else if c_size c <=? ret then c_size c - 1 else ret in
  mkCursor (c_mem c) (c_buf c + ret) (c_size c - ret).

(** [ret = snprintf(buf, size, ...); _ADJUST_LOG_BUF_CURSOR(ret, buf, size);] *)
Definition print (c : cursor) (text : bytes) : outcome cursor :=
  r ← c_snprintf (c_mem c) (c_buf c) (c_size c) text;
  Ok (adjust (fst r) (mkCursor (snd r) (c_buf c) (c_size c))).

(** The macro _ADD_BLANK_SPACE. *)
Definition add_blank (c : cursor) : outcome cursor :=
  if 0 <? c_size c then
    m ← store (c_mem c) (c_buf c) 32;
    m ← store m (c_buf c + 1) 0;
    Ok (mkCursor m (c_buf c + 1) (c_size c - 1))
  else Ok c.

(** ** Log items *)

Definition LOG_BUF_LEN_MAX : Z := 2 * 2048.
Definition LOG_ITEM_LEN_MAX : Z := 2048.

Abbreviation ptr := (option positive) (only parsing).

Record log_data_t := mkData { ld_buf : bytes; ld_len : Z; ld_prev : ptr; ld_next : ptr; ld_tail : ptr }.
Abbreviation lheap := (gmap positive log_data_t) (only parsing).

Definition ld_deref (h : lheap) (p : ptr) : outcome (positive * log_data_t) :=
  match p with
  | None => Trap NullDeref
  | Some a => match h !! a with None => Trap UseAfterFree | Some n => Ok (a, n) end
  end.

Section Items.
Context `{Allocator}.

(** zmalloc does not return null: it aborts.  The new node is at an unused
    address. *)
Definition log_data_new (h : lheap) : outcome (positive * lheap) :=
  match zmalloc_block LOG_ITEM_LEN_MAX with
  | None => Trap Aborted
  | Some b =>
      b ← store b 0 0;
      let a := fresh (dom h) in
      Ok (a, <[a := mkData b 0 None None (Some a)]> h)
  end.

Definition set_next (n : log_data_t) (p : ptr) : log_data_t := mkData (ld_buf n) (ld_len n) (ld_prev n) p (ld_tail n).
Definition set_prev (n : log_data_t) (p : ptr) : log_data_t := mkData (ld_buf n) (ld_len n) p (ld_next n) (ld_tail n).
Definition set_tail (n : log_data_t) (p : ptr) : log_data_t := mkData (ld_buf n) (ld_len n) (ld_prev n) (ld_next n) p.

(** The first part of the macro _PUSH: the node to fill. *)
Definition push_node (h : lheap) (ld : ptr) : outcome (positive * lheap) :=
  l ← ld_deref h ld;
  t ← ld_deref h (ld_tail (snd l));
  let '(node, n) := t in
  if 0 <? ld_len n then
    r ← log_data_new h;
    let '(a, h) := r in
    let h := <[node := set_next n (Some a)]> h in
    x ← ld_deref h (Some a);
    let h := <[a := set_prev (snd x) (Some node)]> h in
    l ← ld_deref h ld;
    Ok (a, <[fst l := set_tail (snd l) (Some a)]> h)
  else Ok (node, h).

(** The macro _PUSH, with the formatted value. *)
Definition push (h : lheap) (ld : ptr) (key value : bytes) : outcome lheap :=
  r ← push_node h ld;
  let '(node, h) := r in
  x ← ld_deref h (Some node);
  let n := snd x in
  c ← print (mkCursor (ld_buf n) 0 LOG_ITEM_LEN_MAX) key;
  c ← print c (str "=");
  c ← print c value;
  Ok (<[node := mkData (c_mem c) (c_buf c) (ld_prev n) (ld_next n) (ld_tail n)]> h).

Definition log_data_push_str (h : lheap) (ld : ptr) (key value : bytes) : outcome lheap :=
  push h ld (cstr key) (cstr value).
Definition log_data_push := log_data_push_str.
Definition log_data_push_int (h : lheap) (ld : ptr) (key : bytes) (value : Z) : outcome lheap :=
  t ← ll_text value; push h ld (cstr key) t.
Definition log_data_push_uint (h : lheap) (ld : ptr) (key : bytes) (value : Z) : outcome lheap :=
  r ← put_digits 32 (u64 value) []; push h ld (cstr key) (snd r).
(** [%lf] of the value is the C library's. *)
Definition log_data_push_double (h : lheap) (ld : ptr) (key text : bytes) : outcome lheap :=
  push h ld (cstr key) text.

Fixpoint free_loop (fuel : nat) (h : lheap) (next : ptr) : outcome lheap :=
  match next with
  | None => Ok h
  | Some a =>
      match fuel with
      | O => Trap OutOfFuel
      | S fuel => x ← ld_deref h next; free_loop fuel (delete a h) (ld_next (snd x))
      end
  end.

Definition log_data_free (h : lheap) (ld : ptr) : outcome lheap := free_loop (size h) h ld.

(** The values of g_log_data_thread_key, by thread. *)
Definition log_set_thread_log_data (key : gmap nat positive) (t : nat) (ld : ptr) : gmap nat positive :=
  match ld with Some a => <[t := a]> key | None => delete t key end.

Definition log_get_thread_log_data (key : gmap nat positive) (t : nat) (h : lheap) :
    outcome (positive * gmap nat positive * lheap) :=
  match key !! t with
  | Some ld => Ok (ld, key, h)
  | None => r ← log_data_new h; Ok (fst r, log_set_thread_log_data key t (Some (fst r)), snd r)
  end.

End Items.

(** ** Records *)

Definition STORE_LOG_MONITOR : Z := 32.
Definition STORE_LOG_DEBUG : Z := 16.
Definition STORE_LOG_TRACE : Z := 8.
Definition STORE_LOG_NOTICE : Z := 4.
Definition STORE_LOG_WARNING : Z := 2.
Definition STORE_LOG_FATAL : Z := 1.

Definition esc (s : bytes) : bytes := 27 :: s.
Definition YELLOW : bytes := esc (str "[33m").
Definition CYAN : bytes := esc (str "[36m").
Definition WHITE : bytes := esc (str "[37m").
Definition BOLDRED : bytes := esc (str "[1m") ++ esc (str "[31m").
Definition BOLDWHITE : bytes := esc (str "[1m") ++ esc (str "[37m").

Definition color (level : Z) : bytes :=
  if level =? STORE_LOG_WARNING then YELLOW
  else if level =? STORE_LOG_FATAL then BOLDRED
  else if level =? STORE_LOG_NOTICE then CYAN
  else if level =? STORE_LOG_TRACE then WHITE
  else BOLDWHITE.

(** The clock's text, g_bin_name and the process id of a line. *)
Record stamp := mkStamp { timebuf : bytes; bin_name : bytes; pid_text : bytes }.

Definition prefix_text (level : Z) (levelstr : bytes) (st : stamp) : bytes :=
  color level ++ levelstr ++ str ": " ++ timebuf st ++ str " " ++ bin_name st ++ str " * " ++
  pid_text st ++ str " [".

Definition ending : bytes := str "]" ++ esc (str "[0m") ++ [10].

(** The loop over the items: [memcpy(buf, cur->buf, ret); buf[ret] = '\0'; ...]. *)
Fixpoint items_loop (fuel : nat) (h : lheap) (cur : ptr) (c : cursor) : outcome cursor :=
  match cur with
  | None => Ok c
  | Some _ =>
      match fuel with
      | O => Trap OutOfFuel
      | S fuel =>
          x ← ld_deref h cur;
          let n := snd x in
          let ret := if ld_len n <? c_size c then ld_len n
                     else if 0 <? c_size c then c_size c - 1 else 0 in
          src ← read_block (ld_buf n) 0 ret;
          m ← memcpy (c_mem c) (c_buf c) src;
          m ← store m (c_buf c + ret) 0;
          c ← add_blank (mkCursor m (c_buf c + ret) (c_size c - ret));
          items_loop fuel h (ld_next n) c
      end
  end.

(** [if (p) { ... }] on a pointer to a string. *)
Definition print_opt (c : cursor) (label : bytes) (p : option bytes) (blank : bool) : outcome cursor :=
  match p with
  | None => Ok c
  | Some s => c ← print c label; c ← print c s; if blank then add_blank c else Ok c
  end.

(** log_buf_t: [buf], [len] and [level] in one block. *)
Definition len_offset : Z := LOG_BUF_LEN_MAX.
Definition level_offset : Z := LOG_BUF_LEN_MAX + 4.
Definition sizeof_log_buf_t : Z := LOG_BUF_LEN_MAX + 8.

Definition set_len (m : bytes) (len : Z) : outcome bytes := memcpy m len_offset (le_bytes 4 len).

(** log_printf up to the push onto the list: the block of the record and the
    return value. *)
Definition log_record `{Allocator} (h : lheap) (ld : ptr) (level : Z) (fileline function : option bytes)
    (levelstr : bytes) (st : stamp) (msg : bytes) : outcome (Z * bytes) :=
  match zmalloc_block sizeof_log_buf_t with
  | None => Trap Aborted
  | Some m =>
      m ← memcpy m level_offset (le_bytes 4 level);
      let c := mkCursor m 0 LOG_BUF_LEN_MAX in
      c ← (if level =? STORE_LOG_MONITOR then Ok c else
             c ← print c (prefix_text level levelstr st);
             c ← print_opt c (str "file=") fileline false;
             c ← print_opt c (str " function=") function true;
             c ← items_loop (size h) h ld c;
             print c (str "msg="));
      c ← print c msg;
      c ← print c ending;
      last ← load (c_mem c) (c_buf c - 1);
      m ← (if negb (last =? 10) then store (c_mem c) (c_buf c - 1) 10 else Ok (c_mem c));
      m ← set_len m (c_buf c);
      Ok (c_buf c, m)
  end.

(** The macro log_base: the items of a line, those of the thread when none are
    given, and whether a line of this level is printed. *)
Definition log_base_data (key : gmap nat positive) (t : nat) (data : ptr) : ptr :=
  match data with Some _ => data | None => key !! t end.

Definition log_enabled (g_log_level lvl : Z) : bool :=
  (lvl <=? g_log_level) || (lvl =? STORE_LOG_MONITOR).

(** ** What the cursor shows

    A cursor over an array of [N] bytes has printed the text [T]: up to its
    first [N-1] characters, [k] in number; or, after a blank was put into the
    last byte, [k = N] and [size] is 0. *)

Record shows (N : nat) (c : cursor) (T : bytes) (k : nat) : Prop := {
  sh_buf : c_buf c = Z.of_nat k;
  sh_size : c_size c = Z.of_nat N - Z.of_nat k;
  sh_k : k = Nat.min (length T) (N - 1) \/ (k = N /\ (N <= length T)%nat);
  sh_text : take (Nat.min k (N - 1)) (c_mem c) = take (Nat.min k (N - 1)) T;
  sh_len : (N <= length (c_mem c))%nat }.

(** [m'] differs from [m] in its first [n] bytes only. *)
Definition same_tail (n : nat) (m m' : bytes) : Prop := drop n m' = drop n m /\ length m' = length m.

Lemma same_tail_refl n m : same_tail n m m.
Proof. done. Qed.
Lemma same_tail_trans n m m1 m2 : same_tail n m m1 -> same_tail n m1 m2 -> same_tail n m m2.
Proof. intros [H1 L1] [H2 L2]. split; congruence. Qed.
Lemma same_tail_le n n' m m' : (n <= n')%nat -> same_tail n m m' -> same_tail n' m m'.
Proof.
  intros Hn [H L]. split; [|done]. replace n' with (n + (n' - n))%nat by lia.
  by rewrite <-!drop_drop, H.
Qed.

(** Copying [s] to [m + k]. *)
Lemma memcpy_at m (k : nat) s :
  (k + length s <= length m)%nat -> memcpy m (Z.of_nat k) s = Ok (take k m ++ s ++ drop (k + length s) m).
Proof. intros H. unfold memcpy. decide_tests. by rewrite Nat2Z.id. Qed.

Lemma memcpy_same_tail m (k n : nat) s :
  (k + length s <= n)%nat -> (k + length s <= length m)%nat ->
  same_tail n m (take k m ++ s ++ drop (k + length s) m).
Proof.
  intros H1 H2. split; [|rewrite !length_app, length_take, length_drop; lia].
  replace n with (length (take k m ++ s) + (n - (k + length s)))%nat
    by (rewrite length_app, length_take; lia).
  rewrite app_assoc, <-drop_drop, drop_app_length, drop_drop. f_equal. rewrite length_app, length_take. lia.
Qed.

Lemma store_at m (k : nat) b :
  (k < length m)%nat -> store m (Z.of_nat k) b = Ok (<[k := b]> m).
Proof. intros H. unfold store. decide_tests. by rewrite Nat2Z.id. Qed.

Lemma insert_same_tail (m : bytes) (k n : nat) b : (k < n)%nat -> same_tail n m (<[k := b]> m).
Proof. intros H. split; [by rewrite drop_insert_lt|apply length_insert]. Qed.

(** Appending [s] behind the text shown, as far as it goes. *)
Lemma shown_app (N k : nat) (m T s w : bytes) :
  take k m = take k T -> k = Nat.min (length T) (N - 1) -> (k <= length m)%nat -> (0 < N)%nat ->
  let B := take (N - 1 - k) s in
  take (k + length B) (take k m ++ B ++ w) = take (k + length B) (T ++ s).
Proof.
  intros Ht Hk Hm HN B.
  replace (k + length B)%nat with (length (take k m ++ B)) by (rewrite length_app, length_take; lia).
  rewrite app_assoc, take_app_length. rewrite length_app, length_take, Ht.
  replace (Nat.min k (length m)) with k by lia. unfold B.
  destruct (decide (length T <= N - 1)%nat) as [Hl|Hl].
  - replace k with (length T) in * by lia. rewrite (take_ge T) by lia.
    rewrite take_app_add. f_equal. rewrite length_take.
    destruct (decide (N - 1 - length T <= length s)%nat); [by rewrite Nat.min_l by lia|].
    by rewrite Nat.min_r, !take_ge by lia.
  - replace (N - 1 - k)%nat with 0%nat by lia. cbn [length take]. rewrite app_nil_r, Nat.add_0_r.
    by rewrite take_app_le by lia.
Qed.

Lemma print_shows (N : nat) c T k text :
  (0 < N)%nat -> shows N c T k ->
  exists c' k', print c text = Ok c' /\ shows N c' (T ++ text) k' /\ (k' < N)%nat /\
    same_tail N (c_mem c) (c_mem c') /\ ((k < N)%nat -> c_mem c' !! k' = Some 0).
Proof.
  intros HN [Hb Hs Hk Ht Hl]. unfold print, c_snprintf. rewrite Hb, Hs.
  destruct (Z.eqb_spec (Z.of_nat N - Z.of_nat k) 0) as [E|E].
  - assert (k = N) as -> by lia. destruct Hk as [Hk|[_ Hk]]; [lia|]. cbn [mbind outcome_bind fst snd].
    eexists _, (N - 1)%nat. split; [done|]. unfold adjust. cbn [c_mem c_buf c_size].
    rewrite (proj2 (Z.ltb_ge _ _)), (proj2 (Z.leb_le _ _)) by lia.
    split; [|split; [lia|split; [apply same_tail_refl|lia]]]. split; cbn [c_mem c_buf c_size]; try lia.
    + left. rewrite length_app. lia.
    + replace (Nat.min N (N - 1)) with (N - 1)%nat in Ht by lia.
      rewrite Nat.min_id, Ht. by rewrite take_app_le by lia.
  - assert (Hk' : k = Nat.min (length T) (N - 1)) by lia. clear Hk.
    replace (Z.to_nat (Z.of_nat N - Z.of_nat k - 1)) with (N - 1 - k)%nat by lia.
    set (B := take (N - 1 - k) text). assert (HB : (length B = Nat.min (N - 1 - k) (length text))%nat) by apply length_take.
    rewrite memcpy_at by (rewrite length_app; simpl; lia). cbn [mbind outcome_bind fst snd].
    eexists _, (k + length B)%nat. split; [done|].
    rewrite (length_app B [0]). cbn [length]. unfold adjust. cbn [c_mem c_buf c_size].
    rewrite (proj2 (Z.ltb_ge _ _)) by lia.
    split; [|split; [lia|split]].
    + split; cbn [c_mem c_buf c_size].
      * destruct (Z.leb_spec (Z.of_nat N - Z.of_nat k) (Z.of_nat (length text))); lia.
      * destruct (Z.leb_spec (Z.of_nat N - Z.of_nat k) (Z.of_nat (length text))); lia.
      * left. rewrite length_app. lia.
      * replace (Nat.min (k + length B) (N - 1)) with (k + length B)%nat by lia.
        rewrite <-app_assoc. replace (Nat.min k (N - 1)) with k in Ht by lia.
        apply shown_app; [done|done|lia|done].
      * rewrite !length_app, length_take, length_drop. simpl. lia.
    + pose proof (memcpy_same_tail (c_mem c) k N (B ++ [0])) as H. rewrite length_app in H. simpl in H.
      apply H; lia.
    + intros _. rewrite lookup_app_r by (rewrite length_take; lia). rewrite length_take.
      rewrite lookup_app_l by (rewrite length_app; simpl; lia). rewrite lookup_app_r by lia.
      by replace (k + length B - Nat.min k (length (c_mem c)) - length B)%nat with 0%nat by lia.
Qed.

Lemma blank_shows (N : nat) c T k :
  (0 < N < length (c_mem c))%nat -> shows N c T k ->
  exists c' k', add_blank c = Ok c' /\ shows N c' (T ++ [32]) k' /\ same_tail (S N) (c_mem c) (c_mem c').
Proof.
  intros HN [Hb Hs Hk Ht Hl]. unfold add_blank. rewrite Hb, Hs.
  destruct (Z.ltb_spec 0 (Z.of_nat N - Z.of_nat k)) as [E|E].
  - assert (Hk' : k = Nat.min (length T) (N - 1)) by lia. clear Hk.
    rewrite store_at by lia. cbn [mbind outcome_bind].
    replace (Z.of_nat k + 1) with (Z.of_nat (S k)) by lia.
    rewrite store_at by (rewrite length_insert; lia). cbn [mbind outcome_bind].
    eexists _, (S k). split; [done|]. split.
    + split; cbn [c_mem c_buf c_size]; [lia|lia|rewrite length_app; simpl; lia| |rewrite !length_insert; lia].
      rewrite take_insert_ge by lia. replace (Nat.min k (N - 1)) with k in Ht by lia.
      destruct (decide (k = N - 1)%nat) as [E'|E'].
      * replace (Nat.min (S k) (N - 1)) with k by lia. rewrite take_insert_ge by lia.
        by rewrite take_app_le by lia.
      * replace (Nat.min (S k) (N - 1)) with (S k) by lia. replace k with (length T) in * by lia.
        rewrite (take_ge T) in Ht by lia. rewrite (take_ge (T ++ [32])) by (rewrite length_app; simpl; lia).
        rewrite insert_take_drop by lia. rewrite Ht.
        rewrite take_app_ge by lia. by replace (S (length T) - length T)%nat with 1%nat by lia.
    + eapply same_tail_trans; apply insert_same_tail; lia.
  - exists c, k. split; [done|]. split; [|apply same_tail_refl].
    split; [done|done|right; rewrite length_app; simpl; lia| |done].
    rewrite Ht. by rewrite take_app_le by lia.
Qed.

(** One turn of the loop over the items, the item being the text [I]. *)
Lemma item_shows (N : nat) c T k I rest_ len :
  (0 < N < length (c_mem c))%nat -> shows N c T k -> len = Z.of_nat (length I) ->
  let ret := if len <? c_size c then len else if 0 <? c_size c then c_size c - 1 else 0 in
  exists src m1 m2 k', read_block (I ++ rest_) 0 ret = Ok src /\ memcpy (c_mem c) (c_buf c) src = Ok m1 /\
    store m1 (c_buf c + ret) 0 = Ok m2 /\
    shows N (mkCursor m2 (c_buf c + ret) (c_size c - ret)) (T ++ I) k' /\ same_tail (S N) (c_mem c) m2.
Proof.
  intros HN [Hb Hs Hk Ht Hl] -> ret.
  set (B := if decide (k = N) then [] else take (N - 1 - k) I).
  assert (Hret : ret = Z.of_nat (length B) /\ (length B <= length I)%nat).
  { unfold ret, B. rewrite Hs. destruct (decide (k = N)) as [->|Hne]; [simpl; repeat case_match; lia|].
    rewrite length_take. repeat case_match; lia. }
  destruct Hret as [Hret HBI]. rewrite Hret, Hb, Hs.
  assert (Hsrc : read_block (I ++ rest_) 0 (Z.of_nat (length B)) = Ok B).
  { unfold read_block. rewrite length_app. decide_tests. rewrite Nat2Z.id. change (Z.to_nat 0) with 0%nat.
    rewrite drop_0, take_app_le by lia. f_equal. unfold B. case_match; [done|].
    rewrite length_take. destruct (decide (N - 1 - k <= length I)%nat); [by rewrite Nat.min_l by lia|].
    by rewrite Nat.min_r, !take_ge by lia. }
  assert (HkB : (k + length B <= N)%nat) by (unfold B; case_match; [simpl|rewrite length_take]; lia).
  eexists B, _, _, (k + length B)%nat. split; [exact Hsrc|]. split; [apply memcpy_at; lia|].
  rewrite <-Nat2Z.inj_add. split.
  { apply store_at. rewrite !length_app, length_take, length_drop. lia. }
  assert (Hst : same_tail (S N) (c_mem c) (take k (c_mem c) ++ B ++ drop (k + length B) (c_mem c)))
    by (apply memcpy_same_tail; lia).
  split; [|eapply same_tail_trans; [exact Hst|apply insert_same_tail; lia]].
  split; cbn [c_mem c_buf c_size]; [lia|lia| | |rewrite length_insert; destruct Hst as [_ ->]; lia].
  - rewrite length_app. unfold B in *. case_match; [simpl; lia|]. rewrite length_take in *. left. lia.
  - rewrite take_insert_ge by lia. unfold B. destruct (decide (k = N)) as [->|Hne].
    + cbn [length app]. rewrite Nat.add_0_r, take_drop, Ht. by rewrite take_app_le by lia.
    + assert (Hk' : k = Nat.min (length T) (N - 1)) by lia.
      replace (Nat.min (k + length (take (N - 1 - k) I)) (N - 1)) with (k + length (take (N - 1 - k) I))%nat
        by (rewrite length_take; lia).
      replace (Nat.min k (N - 1)) with k in Ht by lia.
      apply shown_app; [done|done|lia|lia].
Qed.

(** ** Lists of items *)

(** A node that holds the item [t], with its terminator in its buffer. *)
Definition item_at (h : lheap) (a : positive) (t : bytes) (nx : ptr) : Prop :=
  exists n r, h !! a = Some n /\ ld_buf n = t ++ 0 :: r /\ ld_len n = Z.of_nat (length t) /\
    length (ld_buf n) = Z.to_nat LOG_ITEM_LEN_MAX /\ ld_next n = nx.

(** The nodes [as_] with the items [ts], from the pointer [p]. *)
Inductive items (h : lheap) : ptr -> list positive -> list bytes -> Prop :=
| items_nil : items h None [] []
| items_cons a t p as_ ts : item_at h a t p -> items h p as_ ts -> items h (Some a) (a :: as_) (t :: ts).

Definition items_text (ts : list bytes) : bytes := ts ≫= fun t => t ++ [32].

Lemma items_nodes h p as_ ts a : items h p as_ ts -> a ∈ as_ -> is_Some (h !! a).
Proof.
  induction 1 as [|b t p as_ ts (n & r & E & _) _ IH]; intros Ha; [by apply elem_of_nil in Ha|].
  apply elem_of_cons in Ha as [->|Ha]; [eauto|auto].
Qed.

Lemma items_size h p as_ ts : items h p as_ ts -> NoDup as_ -> (length as_ <= size h)%nat.
Proof.
  intros Hi Hn. rewrite <-size_dom. rewrite <-(size_list_to_set (C := gset positive)) by done.
  apply subseteq_size. intros a Ha%elem_of_list_to_set. apply elem_of_dom. by eapply items_nodes.
Qed.

Lemma items_loop_shows (N : nat) h fuel p as_ ts c T k :
  (0 < N < length (c_mem c))%nat -> shows N c T k -> items h p as_ ts -> (length as_ <= fuel)%nat ->
  exists c' k', items_loop fuel h p c = Ok c' /\ shows N c' (T ++ items_text ts) k' /\
    same_tail (S N) (c_mem c) (c_mem c').
Proof.
  intros HN Hc Hi. revert fuel c T k HN Hc.
  induction Hi as [|a t p as_ ts (n & r & E & Eb & El & _ & En) Hi IH]; intros fuel c T k HN Hc Hf.
  { exists c, k. unfold items_text. cbn. rewrite app_nil_r. by destruct fuel. }
  destruct fuel as [|fuel]; [simpl in Hf; lia|]. cbn [items_loop ld_deref]. rewrite E. cbn [mbind outcome_bind snd].
  destruct (item_shows N c T k t (0 :: r) (ld_len n) HN Hc El) as (src & m1 & m2 & k1 & H1 & H2 & H3 & H4 & H5).
  rewrite Eb, H1. cbn [mbind outcome_bind]. rewrite H2. cbn [mbind outcome_bind]. rewrite H3. cbn [mbind outcome_bind].
  destruct H5 as [H5 L5].
  assert (HN2 : (0 < N < length m2)%nat) by lia.
  destruct (blank_shows N (mkCursor m2 _ _) _ _ HN2 H4) as (c2 & k2 & E2 & Hc2 & H6 & L6).
  rewrite E2. cbn [mbind outcome_bind]. rewrite En. cbn [c_mem] in *.
  destruct (IH fuel c2 _ k2 ltac:(lia) Hc2) as (c3 & k3 & E3 & Hc3 & H7); [simpl in Hf; lia|].
  exists c3, k3. split; [done|]. split.
  - unfold items_text in *. cbn [mbind list_bind]. by rewrite <-!app_assoc in *.
  - eapply same_tail_trans; [by split|]. eapply same_tail_trans; [|exact H7]. by split.
Qed.

Definition opt_text (label : bytes) (p : option bytes) (blank : bool) : bytes :=
  match p with None => [] | Some s => label ++ s ++ (if blank then [32] else []) end.

Lemma print_opt_shows (N : nat) c T k label p blank :
  (0 < N < length (c_mem c))%nat -> shows N c T k ->
  exists c' k', print_opt c label p blank = Ok c' /\ shows N c' (T ++ opt_text label p blank) k' /\
    same_tail (S N) (c_mem c) (c_mem c').
Proof.
  intros HN Hc. destruct p as [s|]; cbn [print_opt opt_text].
  2: { exists c, k. rewrite app_nil_r. split; [done|]. split; [done|apply same_tail_refl]. }
  destruct (print_shows N c T k label ltac:(lia) Hc) as (c1 & k1 & -> & Hc1 & _ & [S1 L1] & _). cbn [mbind outcome_bind].
  destruct (print_shows N c1 _ k1 s ltac:(lia) Hc1) as (c2 & k2 & -> & Hc2 & _ & [S2 L2] & _). cbn [mbind outcome_bind].
  assert (Hs2 : same_tail (S N) (c_mem c) (c_mem c2)).
  { apply same_tail_le with N; [lia|]. eapply same_tail_trans; by split. }
  destruct blank.
  - destruct (blank_shows N c2 _ k2 ltac:(lia) Hc2) as (c3 & k3 & -> & Hc3 & S3). exists c3, k3. split; [done|].
    split; [by rewrite <-!app_assoc in Hc3|]. by eapply same_tail_trans.
  - exists c2, k2. split; [done|]. split; [|done]. rewrite app_nil_r. by rewrite <-app_assoc in Hc2.
Qed.

(** ** The text of a record *)

Definition record_text (level : Z) (fileline function : option bytes) (levelstr : bytes) (st : stamp)
    (ts : list bytes) (msg : bytes) : bytes :=
  (if level =? STORE_LOG_MONITOR then [] else
     prefix_text level levelstr st ++ opt_text (str "file=") fileline false ++
     opt_text (str " function=") function true ++ items_text ts ++ str "msg=") ++ msg ++ ending.

(** The size of the array of a record. *)
Definition cap : nat := Z.to_nat LOG_BUF_LEN_MAX.
Lemma cap_eq : Z.of_nat cap = 4096.
Proof. reflexivity. Qed.

(** A line is cut to 4095 characters and always ends with a newline. *)
Definition record_line (T : bytes) : bytes :=
  let r := take (cap - 1) T in take (length r - 1) r ++ [10].

Lemma record_head `{Allocator} h p as_ ts level fileline function levelstr st m :
  length m = Z.to_nat sizeof_log_buf_t -> items h p as_ ts -> NoDup as_ ->
  let c := mkCursor m 0 LOG_BUF_LEN_MAX in
  exists c' k, (if level =? STORE_LOG_MONITOR then Ok c else
      c ← print c (prefix_text level levelstr st);
      c ← print_opt c (str "file=") fileline false;
      c ← print_opt c (str " function=") function true;
      c ← items_loop (size h) h p c;
      print c (str "msg=")) = Ok c' /\ (k < cap)%nat /\
    shows cap c' (if level =? STORE_LOG_MONITOR then [] else
       prefix_text level levelstr st ++ opt_text (str "file=") fileline false ++
       opt_text (str " function=") function true ++ items_text ts ++ str "msg=") k /\
    same_tail (S cap) m (c_mem c').
Proof.
  intros Hm Hi Hn c. pose proof cap_eq as Hcap. unfold sizeof_log_buf_t, LOG_BUF_LEN_MAX in Hm.
  assert (Hc : shows cap c [] 0).
  { unfold c. split; cbn [c_mem c_buf c_size]; [done|unfold LOG_BUF_LEN_MAX; lia|by left|done|lia]. }
  destruct (level =? STORE_LOG_MONITOR); [exists c, 0%nat; split; [done|split; [lia|split; [done|apply same_tail_refl]]]|].
  assert (Hlen : (cap < length (c_mem c))%nat) by (unfold c; cbn [c_mem]; lia).
  destruct (print_shows cap c _ _ (prefix_text level levelstr st) ltac:(lia) Hc) as (c1 & k1 & -> & H1 & _ & [S1 L1] & _).
  cbn [mbind outcome_bind].
  destruct (print_opt_shows cap c1 _ _ (str "file=") fileline false ltac:(lia) H1) as (c2 & k2 & -> & H2 & [S2 L2]).
  cbn [mbind outcome_bind].
  destruct (print_opt_shows cap c2 _ _ (str " function=") function true ltac:(lia) H2) as (c3 & k3 & -> & H3 & [S3 L3]).
  cbn [mbind outcome_bind].
  destruct (items_loop_shows cap h (size h) p as_ ts c3 _ k3 ltac:(lia) H3 Hi ltac:(by eapply items_size)) as (c4 & k4 & -> & H4 & [S4 L4]).
  cbn [mbind outcome_bind].
  destruct (print_shows cap c4 _ k4 (str "msg=") ltac:(lia) H4) as (c5 & k5 & -> & H5 & Hk5 & [S5 L5] & _).
  exists c5, k5. split; [done|]. split; [done|]. split; [by rewrite <-!app_assoc in H5|].
  apply (same_tail_trans _ _ (c_mem c1)); [by apply same_tail_le with cap; [lia|]|].
  apply (same_tail_trans _ _ (c_mem c2)); [by split|]. apply (same_tail_trans _ _ (c_mem c3)); [by split|].
  apply (same_tail_trans _ _ (c_mem c4)); [by split|]. apply same_tail_le with cap; [lia|]. by split.
Qed.

(** The end of a record: the newline and the length. *)
Lemma record_end (m T : bytes) (k : nat) :
  length m = Z.to_nat sizeof_log_buf_t -> take k m = take k T -> m !! k = Some 0 ->
  k = Nat.min (length T) (cap - 1) -> (0 < length T)%nat ->
  exists m', (last ← load m (Z.of_nat k - 1);
    m ← (if negb (last =? 10) then store m (Z.of_nat k - 1) 10 else Ok m);
    set_len m (Z.of_nat k)) = Ok m' /\
    take k m' = record_line T /\ length (record_line T) = k /\ m' !! k = Some 0 /\
    le_val (take 4 (drop cap m')) = Z.of_nat k /\ drop (cap + 4) m' = drop (cap + 4) m.
Proof.
  pose proof cap_eq as Hcap. unfold sizeof_log_buf_t, LOG_BUF_LEN_MAX. intros Hm Ht Hz Hk HT.
  set (j := (k - 1)%nat). assert (Hj : Z.of_nat k - 1 = Z.of_nat j) by lia. rewrite Hj.
  destruct (lookup_lt_is_Some_2 m j) as [x Hx]; [lia|]. unfold load. decide_tests. rewrite Nat2Z.id, Hx.
  cbn [mbind outcome_bind].
  assert (E : (if negb (x =? 10) then store m (Z.of_nat j) 10 else Ok m) = Ok (<[j := 10]> m)).
  { destruct (Z.eqb_spec x 10) as [->|]; cbn [negb]; [by rewrite list_insert_id|]. apply store_at. lia. }
  rewrite E. cbn [mbind outcome_bind]. unfold set_len, len_offset, LOG_BUF_LEN_MAX.
  replace (2 * 2048) with (Z.of_nat cap) by lia.
  rewrite memcpy_at by (rewrite length_insert, le_bytes_length; lia). rewrite le_bytes_length.
  set (m3 := <[j := 10]> m). assert (H3 : length m3 = length m) by apply length_insert.
  assert (Hcut : length (take cap m3) = cap) by (rewrite length_take; lia).
  eexists. split; [done|].
  assert (Hline : record_line T = take k m3).
  { unfold record_line, m3. rewrite length_take, take_take.
    replace (Nat.min (Nat.min (cap - 1) (length T) - 1) (cap - 1)) with j by lia.
    replace k with (S j) by lia. rewrite take_insert_lt by lia. rewrite (take_S_r m j x Hx).
    rewrite insert_app_r_alt by (rewrite length_take; lia). rewrite length_take.
    replace (j - Nat.min j (length m))%nat with 0%nat by lia. cbn [insert list_insert]. f_equal.
    replace (take j m) with (take j (take k m)) by (rewrite take_take; f_equal; lia).
    rewrite Ht, take_take. f_equal. lia. }
  split; [|split; [|split; [|split]]].
  - rewrite Hline, take_app_le by lia. rewrite take_take. f_equal. lia.
  - rewrite Hline, length_take. lia.
  - rewrite lookup_app_l by lia. rewrite lookup_take_lt by lia. unfold m3. rewrite list_lookup_insert_ne by lia. done.
  - rewrite <-Hcut at 1. rewrite drop_app_length.
    rewrite take_app_le by (rewrite le_bytes_length; lia). rewrite take_ge by (rewrite le_bytes_length; lia).
    rewrite le_val_bytes. apply Z.mod_small. change (2 ^ (8 * Z.of_nat 4)) with (2 ^ 32). lia.
  - rewrite <-drop_drop. rewrite <-Hcut at 1. rewrite drop_app_length.
    rewrite drop_app_le by (rewrite le_bytes_length; lia).
    rewrite drop_ge by (rewrite le_bytes_length; lia). cbn [app]. unfold m3. by rewrite drop_insert_lt by lia.
Qed.

(** ** Pushing items *)

Definition item_cap : nat := Z.to_nat LOG_ITEM_LEN_MAX.
Lemma item_cap_eq : Z.of_nat item_cap = 2048.
Proof. reflexivity. Qed.

(** The text of an item, cut to its buffer. *)
Definition item_text (key value : bytes) : bytes := take (item_cap - 1) (key ++ str "=" ++ value).

(** The list [ld] has the nodes [as_] with the items [ts]; an empty list is one
    node with an empty item. *)
Record data_list (h : lheap) (ld : positive) (as_ : list positive) (ts : list bytes) : Prop := {
  dl_items : items h (Some ld) as_ ts;
  dl_nodup : NoDup as_;
  dl_tail : exists n t, h !! ld = Some n /\ last as_ = Some t /\ ld_tail n = Some t;
  dl_full : ts = [[]] \/ Forall (fun t => t <> []) ts }.

Lemma take_zero_split (m T : bytes) (k : nat) :
  take k m = take k T -> m !! k = Some 0 -> exists r, m = take k T ++ 0 :: r.
Proof. intros Ht Hz. exists (drop (S k) m). rewrite <-Ht. symmetry. by apply take_drop_middle. Qed.

(** Filling a node. *)
Lemma fill_item (b key value : bytes) :
  length b = item_cap ->
  exists c r, (c ← print (mkCursor b 0 LOG_ITEM_LEN_MAX) key; c ← print c (str "="); print c value) = Ok c /\
    c_mem c = item_text key value ++ 0 :: r /\ c_buf c = Z.of_nat (length (item_text key value)) /\
    length (c_mem c) = item_cap /\ item_text key value <> [].
Proof.
  intros Hb. pose proof item_cap_eq as Hcap.
  assert (H0 : shows item_cap (mkCursor b 0 LOG_ITEM_LEN_MAX) [] 0).
  { split; cbn [c_mem c_buf c_size]; [done|unfold LOG_ITEM_LEN_MAX; lia|by left|done|lia]. }
  destruct (print_shows item_cap _ _ _ key ltac:(lia) H0) as (c1 & k1 & -> & H1 & Hk1 & [_ L1] & _). cbn [mbind outcome_bind].
  destruct (print_shows item_cap _ _ _ (str "=") ltac:(lia) H1) as (c2 & k2 & -> & H2 & Hk2 & [_ L2] & _). cbn [mbind outcome_bind].
  destruct (print_shows item_cap _ _ _ value ltac:(lia) H2) as (c3 & k3 & -> & H3 & Hk3 & [_ L3] & Hz).
  cbn [app] in H3. rewrite <-app_assoc in H3. destruct H3 as [Hbuf _ Hk Ht _].
  replace (Nat.min k3 (item_cap - 1)) with k3 in Ht by lia.
  assert (Hit : item_text key value = take k3 (key ++ str "=" ++ value)).
  { unfold item_text. destruct Hk as [->|[? ?]]; [|lia]. set (T := key ++ _).
    destruct (decide (length T <= item_cap - 1)%nat); [by rewrite Nat.min_l, !take_ge by lia|].
    by rewrite Nat.min_r by lia. }
  destruct (take_zero_split _ _ _ Ht (Hz Hk2)) as [r Er]. exists c3, r. split; [done|].
  assert (Hlen : (k3 <= length (key ++ str "=" ++ value))%nat) by lia.
  rewrite Hit. split; [done|]. split; [rewrite length_take; lia|]. split; [cbn [c_mem] in L1; lia|].
  intros E%(f_equal length). rewrite length_take in E. rewrite !length_app in *. simpl in *. lia.
Qed.

Lemma items_frame (h h' : lheap) p as_ ts :
  (forall x t nx, x ∈ as_ -> item_at h x t nx -> item_at h' x t nx) -> items h p as_ ts -> items h' p as_ ts.
Proof.
  intros Hf Hi. induction Hi as [|a t p as_ ts Ha _ IH]; [constructor|]. apply items_cons with p.
  - apply Hf; [by left|done].
  - apply IH. intros x t' nx Hx. apply Hf. by right.
Qed.

(** A new last node. *)
Lemma items_snoc (h h' : lheap) p as_ ts z a t :
  items h p as_ ts -> last as_ = Some z -> NoDup as_ ->
  (forall x t nx, x ∈ as_ -> item_at h x t nx -> item_at h' x t (if decide (x = z) then Some a else nx)) ->
  item_at h' a t None -> items h' p (as_ ++ [a]) (ts ++ [t]).
Proof.
  intros Hi Hz Hn Hf Ha. induction Hi as [|b u p as_ ts Hb Hi IH]; [done|]. cbn [app].
  apply NoDup_cons in Hn as [Hbn Hn]. destruct as_ as [|b' as_'].
  - inversion Hi; subst. cbn in Hz. simplify_eq. cbn [app]. econstructor; [|econstructor; [exact Ha|constructor]].
    pose proof (Hf z u None ltac:(by left) Hb) as H. by rewrite decide_True in H.
  - assert (Hne : b <> z).
    { intros ->. apply Hbn. rewrite last_cons_cons in Hz. by apply last_Some_elem_of in Hz. }
    econstructor.
    + pose proof (Hf b u p ltac:(by left) Hb) as H. by rewrite decide_False in H.
    + apply IH; [by rewrite last_cons_cons in Hz|done|]. intros x t' nx Hx. apply Hf. by right.
Qed.

(** The node [_PUSH] fills, when the list is empty and when it is not. *)
Lemma push_node_empty `{Allocator} h ld as_ :
  data_list h ld as_ [[]] -> as_ = [ld] /\ push_node h (Some ld) = Ok (ld, h).
Proof.
  intros [Hi _ (n & t & E & El & Et) _]. inversion Hi as [|? ? ? as' ? Ha Hi']; subst.
  inversion Hi'; subst. cbn in El. simplify_eq. split; [done|].
  destruct Ha as (n' & r & E' & _ & Elen & _). rewrite E in E'. simplify_eq.
  unfold push_node. cbn [ld_deref]. rewrite E. cbn [mbind outcome_bind snd]. rewrite Et. cbn [ld_deref].
  rewrite E. cbn [mbind outcome_bind]. by rewrite Elen.
Qed.

Lemma items_last h p as_ ts z :
  items h p as_ ts -> last as_ = Some z -> exists t, t ∈ ts /\ item_at h z t None.
Proof.
  intros Hi. induction Hi as [|a t p as_ ts Ha Hi IH]; [done|]. intros Hz.
  destruct as_ as [|b as_].
  - inversion Hi; subst. cbn in Hz. simplify_eq. exists t. split; [by left|done].
  - rewrite last_cons_cons in Hz. destruct (IH Hz) as (t' & ? & ?). exists t'. split; [by right|done].
Qed.

Lemma push_node_more `{Allocator} h ld as_ ts :
  alloc_ok LOG_ITEM_LEN_MAX = true -> data_list h ld as_ ts -> Forall (fun t => t <> []) ts ->
  exists a h' n, push_node h (Some ld) = Ok (a, h') /\ (a ∉ as_) /\ h !! a = None /\
    h' !! a = Some n /\ length (ld_buf n) = item_cap /\ ld_next n = None /\
    (forall z, last as_ = Some z -> forall x t nx, x ∈ as_ -> item_at h x t nx ->
       item_at h' x t (if decide (x = z) then Some a else nx)) /\
    (exists n0, h' !! ld = Some n0 /\ ld_tail n0 = Some a) /\
    (forall x, x ∉ a :: as_ -> h' !! x = h !! x).
Proof.
  intros Hal [Hi Hnd (n & z & E & El & Et) _] Hne.
  destruct (items_last _ _ _ _ _ Hi El) as (tz & Htz & nz & rz & Ez & Ebz & Elz & Hlz & Enz).
  rewrite Forall_forall in Hne. specialize (Hne tz Htz).
  assert (Hz0 : 0 < ld_len nz) by (rewrite Elz; destruct tz; [done|simpl; lia]).
  set (a := fresh (dom h)). assert (Ha : h !! a = None) by (apply not_elem_of_dom, is_fresh).
  assert (Hna : a ∉ as_) by (intros Hin; apply (items_nodes _ _ _ _ _ Hi) in Hin as [? ?]; congruence).
  assert (Hzin : z ∈ as_) by (by apply last_Some_elem_of).
  assert (Hldin : ld ∈ as_) by (inversion Hi; by left).
  assert (Haz : a <> z) by congruence. assert (Hal' : a <> ld) by congruence.
  unfold push_node. cbn [ld_deref]. rewrite E. cbn [mbind outcome_bind snd]. rewrite Et. cbn [ld_deref].
  rewrite Ez. cbn [mbind outcome_bind]. rewrite (proj2 (Z.ltb_lt _ _) Hz0).
  unfold log_data_new, zmalloc_block. rewrite Hal.
  rewrite (store_at _ 0) by (rewrite fresh_bytes_length; unfold LOG_ITEM_LEN_MAX; lia).
  cbn [mbind outcome_bind]. fold a. set (n1 := mkData _ 0 None None (Some a)).
  rewrite lookup_insert_ne, lookup_insert_eq by done. cbn [mbind outcome_bind snd].
  set (h2 := <[a := set_prev n1 (Some z)]> _).
  assert (E2 : exists n2, h2 !! ld = Some n2 /\ ld_buf n2 = ld_buf n /\ ld_len n2 = ld_len n /\
    ld_next n2 = if decide (ld = z) then Some a else ld_next n).
  { unfold h2. rewrite lookup_insert_ne by done. destruct (decide (ld = z)) as [->|Hd].
    - rewrite lookup_insert_eq. simplify_eq. eexists. by repeat split.
    - rewrite !lookup_insert_ne by done. exists n. by repeat split. }
  destruct E2 as (n2 & -> & B2 & L2 & N2). cbn [mbind outcome_bind fst snd].
  eexists a, _, (set_prev n1 (Some z)). split; [done|]. split; [done|]. split; [done|].
  split; [unfold h2; by rewrite lookup_insert_ne, lookup_insert_eq by done|].
  split; [cbn; rewrite length_insert; apply fresh_bytes_length|]. split; [done|]. split; [|split].
  - intros z' Hz' x t nx Hx (nx0 & r & F1 & F2 & F3 & F4 & F5). rewrite El in Hz'. simplify_eq.
    assert (Hxa : a <> x) by congruence. unfold item_at.
    destruct (decide (x = ld)) as [->|Hxl].
    + rewrite lookup_insert_eq. rewrite E in F1. simplify_eq. eexists _, r. split; [done|]. cbn.
      rewrite B2, L2. by repeat split.
    + rewrite lookup_insert_ne by done. unfold h2. rewrite lookup_insert_ne by done.
      destruct (decide (x = z')) as [->|Hxz].
      * rewrite lookup_insert_eq. rewrite Ez in F1. simplify_eq. eexists _, r. split; [done|]. by repeat split.
      * rewrite !lookup_insert_ne by done. exists nx0, r. by repeat split.
  - rewrite lookup_insert_eq. eexists. by split.
  - intros x Hx. assert (x <> a /\ x <> ld /\ x <> z) as (? & ? & ?).
    { split; [|split]; intros ->; apply Hx; [by left|by right|by right]. }
    rewrite lookup_insert_ne by done. unfold h2. by rewrite !lookup_insert_ne by done.
Qed.

Definition pushed (ts : list bytes) (t : bytes) : list bytes := if bool_decide (ts = [[]]) then [t] else ts ++ [t].

Lemma push_ok `{Allocator} h ld as_ ts key value :
  alloc_ok LOG_ITEM_LEN_MAX = true -> data_list h ld as_ ts ->
  exists h' as', push h (Some ld) key value = Ok h' /\
    data_list h' ld as' (pushed ts (item_text key value)) /\
    (forall x, x ∉ as' -> h' !! x = h !! x) /\ as_ ⊆ as' /\ (forall x, x ∈ as' -> x ∈ as_ \/ h !! x = None).
Proof.
  intros Hal Hd. unfold push, pushed. case_bool_decide as Ets.
  - subst ts. destruct (push_node_empty h ld as_ Hd) as [-> ->]. cbn [mbind outcome_bind].
    destruct Hd as [Hi Hnd (n & z & E & El & Et) _]. inversion Hi as [|? ? ? ? ? (n' & r & E' & Eb & Elen & Hl & En) Hi']; subst.
    assert (n' = n) as -> by congruence. clear E'. cbn in El. injection El as <-.
    assert (En0 : ld_next n = None) by (by inversion Hi'). cbn [ld_deref]. rewrite E. cbn [mbind outcome_bind snd].
    destruct (fill_item (ld_buf n) key value Hl) as (c & r' & Hc & Hm & Hb & Hlen & Hne).
    destruct (print _ key) as [c1|]; [|done]. cbn [mbind outcome_bind] in *.
    destruct (print c1 (str "=")) as [c2|]; [|done]. cbn [mbind outcome_bind] in *. rewrite Hc. cbn [mbind outcome_bind].
    eexists _, [ld]. split; [done|].
    split; [|split; [intros x Hx; rewrite lookup_insert_ne; [done|set_solver]|split; [done|by left]]].
    split; [|done| |right; by apply Forall_singleton].
    + econstructor; [|constructor]. eexists _, r'. rewrite lookup_insert_eq. split; [done|]. by repeat split.
    + eexists _, ld. rewrite lookup_insert_eq. by repeat split.
  - assert (Hne : Forall (fun t => t <> []) ts) by (by destruct (dl_full _ _ _ _ Hd)).
    destruct (push_node_more h ld as_ ts Hal Hd Hne) as (a & h1 & n & -> & Hna & Hha & Ea & Hl & En & Hf & (n0 & E0 & Et0) & Hfr).
    cbn [mbind outcome_bind ld_deref]. rewrite Ea. cbn [mbind outcome_bind snd].
    destruct (fill_item (ld_buf n) key value Hl) as (c & r' & Hc & Hm & Hb & Hlen & Hnei).
    destruct (print _ key) as [c1|]; [|done]. cbn [mbind outcome_bind] in *.
    destruct (print c1 (str "=")) as [c2|]; [|done]. cbn [mbind outcome_bind] in *. rewrite Hc. cbn [mbind outcome_bind].
    destruct Hd as [Hi Hnd (nl & z & E & El & Et) _].
    assert (Hld : ld ∈ as_) by (inversion Hi; by left). assert (Hal' : a <> ld) by (by intros ->).
    eexists _, (as_ ++ [a]). split; [done|]. split.
    + split.
      * eapply items_snoc; [exact Hi|exact El|done| |].
        -- intros x t nx Hx Hit. destruct (Hf z El x t nx Hx Hit) as (n' & r & F1 & F2).
           exists n', r. rewrite lookup_insert_ne by (by intros ->). by split.
        -- eexists _, r'. rewrite lookup_insert_eq. split; [done|]. by repeat split.
      * apply NoDup_app. split; [done|]. split; [|apply NoDup_singleton]. intros x Hx ->%list_elem_of_singleton. done.
      * exists n0, a. rewrite lookup_insert_ne by done. split; [done|]. by rewrite last_snoc.
      * right. apply Forall_app. split; [done|by apply Forall_singleton].
    + split; [intros x Hx; rewrite lookup_insert_ne by set_solver; apply Hfr; set_solver|].
      split; [set_solver|]. intros x [Hx| ->%list_elem_of_singleton]%elem_of_app; auto.
Qed.

Lemma free_loop_ok fuel h p as_ ts :
  items h p as_ ts -> NoDup as_ -> (length as_ <= fuel)%nat ->
  exists h', free_loop fuel h p = Ok h' /\ forall x, h' !! x = if decide (x ∈ as_) then None else h !! x.
Proof.
  revert h p as_ ts. induction fuel as [|fuel IH]; intros h p as_ ts Hi Hn Hf.
  { inversion Hi; subst; [|simpl in Hf; lia]. exists h. by split. }
  inversion Hi as [|a t p' as' ts' (n & r & E & _ & _ & _ & En) Hi']; subst; [exists h; by split|].
  cbn [free_loop ld_deref]. rewrite E. cbn [mbind outcome_bind snd]. apply NoDup_cons in Hn as [Ha Hn].
  destruct (IH (delete a h) (ld_next n) as' ts') as (h' & -> & Hh').
  - eapply items_frame; [|exact Hi']. intros x u nx Hx (n' & r' & F1 & F2). exists n', r'.
    rewrite lookup_delete_ne by (by intros ->). by split.
  - done.
  - simpl in Hf. lia.
  - exists h'. split; [done|]. intros x. rewrite Hh'. destruct (decide (x = a)) as [->|Hx].
    + rewrite (decide_True (P := a ∈ a :: as')) by (by left). case_decide; [done|apply lookup_delete_eq].
    + rewrite lookup_delete_ne by done. apply decide_ext. set_solver.
Qed.

(** A sequence of [log_data_push]. *)
Fixpoint push_all `{Allocator} (h : lheap) (ld : ptr) (kvs : list (bytes * bytes)) : outcome lheap :=
  match kvs with [] => Ok h | (k, v) :: kvs => h ← log_data_push h ld k v; push_all h ld kvs end.

Definition pair_text (kv : bytes * bytes) : bytes := item_text (cstr (fst kv)) (cstr (snd kv)).

(** The list as it grows over a heap [h0]: its nodes are new. *)
Definition collected (h0 h : lheap) (ld : positive) (as_ : list positive) (ts : list bytes) : Prop :=
  data_list h ld as_ ts /\ forall x, if decide (x ∈ as_) then h0 !! x = None else h !! x = h0 !! x.

Lemma push_all_ok `{Allocator} h0 h ld as_ ts kvs :
  alloc_ok LOG_ITEM_LEN_MAX = true -> collected h0 h ld as_ ts ->
  exists h' as', push_all h (Some ld) kvs = Ok h' /\
    collected h0 h' ld as' (foldl pushed ts (map pair_text kvs)).
Proof.
  intros Hal. revert h as_ ts. induction kvs as [|[k v] kvs IH]; intros h as_ ts [Hd Hc]; [by eexists _, _|].
  cbn [push_all map foldl]. unfold log_data_push, log_data_push_str.
  destruct (push_ok h ld as_ ts (cstr k) (cstr v) Hal Hd) as (h1 & as1 & -> & Hd1 & Hf & Hsub & Hnew).
  cbn [mbind outcome_bind]. apply (IH h1 as1). split; [exact Hd1|]. intros x. specialize (Hc x).
  destruct (decide (x ∈ as1)) as [Hx|Hx].
  - destruct (Hnew x Hx) as [Hx'|Hx']; [by rewrite decide_True in Hc|]. case_decide; [done|congruence].
  - rewrite Hf by done. rewrite decide_False in Hc; [done|]. intros Hx'. by apply Hx, Hsub.
Qed.

Lemma pushed_all kvs : Forall (fun t => t <> []) kvs -> kvs <> [] -> foldl pushed [[]] kvs = kvs.
Proof.
  assert (H : forall ts kvs, ts <> [[]] -> Forall (fun t => t <> []) kvs -> foldl pushed ts kvs = ts ++ kvs).
  { intros us kvs' Hus Hk. revert us Hus. induction Hk as [|t kvs' Ht _ IH]; intros us Hus; [by rewrite app_nil_r|].
    cbn [foldl]. unfold pushed at 2. rewrite bool_decide_eq_false_2 by done.
    rewrite IH, <-app_assoc; [done|]. destruct us as [|? [|]]; cbn; congruence. }
  intros Hk Hne. destruct Hk as [|t kvs Ht Hk]; [done|]. cbn [foldl]. unfold pushed at 2.
  rewrite bool_decide_eq_true_2 by done. apply H; [congruence|done].
Qed.

(** ** Properties *)

(** C34: log_printf always makes a well-formed line.  Whatever the lengths of
    the prefix, the file and function names, the items and the message, it
    returns without touching memory outside the record; the record holds the
    text of the line, cut to 4095 characters, ending with a newline and then a
    zero byte; [len] is its length, which is also returned, and [level] is the
    level. *)
Theorem log_record_line `{Allocator} (h : lheap) (ld : ptr) (as_ : list positive) (ts : list bytes)
  (level : Z) (fileline function : option bytes) (levelstr : bytes) (st : stamp) (msg : bytes)
  (Hal : alloc_ok sizeof_log_buf_t = true) (Hi : items h ld as_ ts) (Hn : NoDup as_) :
  exists m, let line := record_line (record_text level fileline function levelstr st ts msg) in
    log_record h ld level fileline function levelstr st msg = Ok (Z.of_nat (length line), m) /\
    (length line < Z.to_nat LOG_BUF_LEN_MAX)%nat /\
    take (length line) m = line /\ m !! length line = Some 0 /\
    le_val (take 4 (drop (Z.to_nat len_offset) m)) = Z.of_nat (length line) /\
    le_val (take 4 (drop (Z.to_nat level_offset) m)) = u32 level.
Proof.
  pose proof cap_eq as Hcap. set (T := record_text level fileline function levelstr st ts msg).
  unfold log_record, zmalloc_block. rewrite Hal.
  set (m0 := fresh_bytes _). assert (Hm0 : Z.of_nat (length m0) = 4104) by (unfold m0; rewrite fresh_bytes_length; reflexivity).
  unfold level_offset, len_offset, LOG_BUF_LEN_MAX. replace (2 * 2048 + 4) with (Z.of_nat (cap + 4)) by lia.
  rewrite memcpy_at by (rewrite le_bytes_length; lia). rewrite le_bytes_length. cbn [mbind outcome_bind].
  set (m1 := _ ++ _ ++ _). 
  assert (Hm1 : length m1 = Z.to_nat sizeof_log_buf_t).
  { unfold m1. rewrite !length_app, length_take, length_drop, le_bytes_length. unfold sizeof_log_buf_t, LOG_BUF_LEN_MAX. lia. }
  destruct (record_head h ld as_ ts level fileline function levelstr st m1 Hm1 Hi Hn) as (c1 & k1 & E1 & Hk1 & H1 & [S1 L1]).
  unfold LOG_BUF_LEN_MAX in E1. rewrite E1. clear E1. cbn [mbind outcome_bind].
  destruct (print_shows cap c1 _ k1 msg ltac:(lia) H1) as (c2 & k2 & -> & H2 & Hk2 & [S2 L2] & _). cbn [mbind outcome_bind].
  destruct (print_shows cap c2 _ k2 ending ltac:(lia) H2) as (c3 & k3 & -> & H3 & Hk3 & [S3 L3] & Hz). cbn [mbind outcome_bind].
  rewrite <-app_assoc in H3. fold (record_text level fileline function levelstr st ts msg) in H3. fold T in H3.
  destruct H3 as [Hb _ Hk Ht _]. rewrite Hb. replace (Nat.min k3 (cap - 1)) with k3 in Ht by lia.
  assert (HT : (0 < length T)%nat) by (unfold T, record_text; rewrite !length_app; simpl; lia).
  destruct (record_end (c_mem c3) T k3) as (m' & E & R1 & R2 & R3 & R4 & R5); [congruence|done|by apply Hz|lia|done|].
  destruct (load (c_mem c3) (Z.of_nat k3 - 1)) as [x|]; [|done]. cbn [mbind outcome_bind] in *.
  destruct (if negb (x =? 10) then _ else _) as [m2|]; [|done]. cbn [mbind outcome_bind] in *. rewrite E.
  exists m'. cbv zeta. rewrite R2. split; [done|]. split; [change (Z.to_nat (2 * 2048)) with cap; lia|].
  split; [done|]. split; [done|]. split; [exact R4|].
  replace (Z.to_nat (Z.of_nat (cap + 4))) with (cap + 4)%nat by lia. rewrite R5.
  assert (Htail : same_tail (cap + 4) m1 (c_mem c3)).
  { apply (same_tail_trans _ _ (c_mem c1)); [apply same_tail_le with (S cap); [lia|split; assumption]|].
    apply (same_tail_trans _ _ (c_mem c2)); (apply same_tail_le with cap; [lia|split; assumption]). }
  destruct Htail as [-> _]. unfold m1.
  replace (cap + 4)%nat with (length (take (cap + 4) m0)) at 1 by (rewrite length_take; lia).
  rewrite drop_app_length, take_app_le by (rewrite le_bytes_length; lia).
  rewrite take_ge by (rewrite le_bytes_length; lia). apply le_val_bytes.
Qed.

(** the items of a line are kept in order and given back.  After
    log_data_new and any sequence of log_data_push, over any heap, the list holds
    exactly the pushed pairs as [key=value], each cut to 2047 characters, in the
    order they were pushed, and nothing else has changed; log_data_free then
    frees every node of it and nothing else: the heap is the one there was
    before. *)
Theorem log_items_collected `{Allocator} (h : lheap) (kvs : list (bytes * bytes))
  (Hal : alloc_ok LOG_ITEM_LEN_MAX = true) :
  exists ld h0 h' as_, log_data_new h = Ok (ld, h0) /\ push_all h0 (Some ld) kvs = Ok h' /\
    items h' (Some ld) as_ (if bool_decide (kvs = []) then [[]] else map pair_text kvs) /\ NoDup as_ /\
    (forall x, x ∉ as_ -> h' !! x = h !! x) /\ log_data_free h' (Some ld) = Ok h.
Proof.
  unfold log_data_new, zmalloc_block. rewrite Hal.
  rewrite (store_at _ 0) by (rewrite fresh_bytes_length; unfold LOG_ITEM_LEN_MAX; lia). cbn [mbind outcome_bind].
  set (ld := fresh (dom h)). set (n0 := mkData _ 0 None None (Some ld)). set (h0 := <[ld := n0]> h).
  assert (Hl : h !! ld = None) by (apply not_elem_of_dom, is_fresh).
  assert (Hc : collected h h0 ld [ld] [[]]).
  { split; [split|].
    - econstructor; [|constructor]. exists n0, (tail (ld_buf n0)). unfold h0. rewrite lookup_insert_eq.
      split; [done|]. cbn [n0 ld_buf ld_len ld_next]. rewrite length_insert, fresh_bytes_length.
      by repeat split.
    - apply NoDup_singleton.
    - exists n0, ld. unfold h0. by rewrite lookup_insert_eq.
    - by left.
    - intros x. case_decide as Hx; [by apply list_elem_of_singleton in Hx as ->|].
      unfold h0. rewrite lookup_insert_ne; [done|]. intros <-. apply Hx. by left. }
  destruct (push_all_ok h h0 ld [ld] [[]] kvs Hal Hc) as (h' & as_ & Hp & [Hi Hnd Htl Hfull] & Hx).
  exists ld, h0, h', as_. split; [done|]. split; [done|].
  assert (Hts : foldl pushed [[]] (map pair_text kvs) = if bool_decide (kvs = []) then [[]] else map pair_text kvs).
  { case_bool_decide as Hk; [by subst|]. apply pushed_all; [|by destruct kvs].
    apply Forall_forall. intros t (kv & -> & _)%list_elem_of_fmap.
    destruct (fill_item (fresh_bytes item_cap) (cstr (fst kv)) (cstr (snd kv)) (fresh_bytes_length _)) as (_ & _ & _ & _ & _ & _ & ?). done. }
  rewrite Hts in Hi. split; [done|]. split; [done|]. split.
  - intros x Hn. specialize (Hx x). by rewrite decide_False in Hx.
  - unfold log_data_free. destruct (free_loop_ok (size h') h' _ _ _ Hi Hnd) as (h2 & -> & H2); [by eapply items_size|].
    f_equal. apply map_eq. intros x. rewrite H2. specialize (Hx x). by case_decide.
Qed.

(** Two items in a list, and a line with them. *)
Definition demo_heap : lheap :=
  <[1%positive := mkData (str "a=1" ++ 0 :: replicate 2044 170) 3 None (Some 2%positive) (Some 2%positive)]>
  (<[2%positive := mkData (str "b=2" ++ 0 :: replicate 2044 170) 3 (Some 1%positive) None (Some 2%positive)]> ∅).

Lemma demo_items : items demo_heap (Some 1%positive) [1; 2]%positive [str "a=1"; str "b=2"].
Proof.
  assert (Hl : length (str "a=1" ++ 0 :: replicate 2044 170) = Z.to_nat LOG_ITEM_LEN_MAX)
    by (rewrite length_app, length_cons, length_replicate; reflexivity).
  repeat econstructor; try exact Hl.
Qed.

Lemma log_record_line_witness :
  exists m, let line := record_line (record_text STORE_LOG_NOTICE None None (str "NOTICE")
      (mkStamp (str "t") (str "b") (str "1")) [str "a=1"; str "b=2"] (str "hi")) in
    @log_record total_alloc demo_heap (Some 1%positive) STORE_LOG_NOTICE None None (str "NOTICE")
      (mkStamp (str "t") (str "b") (str "1")) (str "hi") = Ok (Z.of_nat (length line), m) /\
    (length line < Z.to_nat LOG_BUF_LEN_MAX)%nat /\ take (length line) m = line.
Proof.
  destruct (@log_record_line total_alloc demo_heap (Some 1%positive) [1; 2]%positive [str "a=1"; str "b=2"]
    STORE_LOG_NOTICE None None (str "NOTICE") (mkStamp (str "t") (str "b") (str "1")) (str "hi"))
    as (m & H1 & H2 & H3 & _); [reflexivity|apply demo_items|decide_vm|]. exists m. by split; [|split].
Defined.

Lemma log_items_collected_witness :
  exists ld h0 h' as_, @log_data_new total_alloc ∅ = Ok (ld, h0) /\
    @push_all total_alloc h0 (Some ld) [(str "a" ++ [0], str "1" ++ [0])] = Ok h' /\
    items h' (Some ld) as_ [str "a=1"] /\ log_data_free h' (Some ld) = Ok ∅.
Proof.
  destruct (@log_items_collected total_alloc ∅ [(str "a" ++ [0], str "1" ++ [0])])
    as (ld & h0 & h' & as_ & H1 & H2 & H3 & _ & _ & H6); [reflexivity|].
  exists ld, h0, h', as_. split; [done|]. split; [done|]. split; [|done].
  assert (Hc : (3 <= item_cap - 1)%nat) by (pose proof item_cap_eq; lia).
  assert (E : map pair_text [(str "a" ++ [0], str "1" ++ [0])] = [str "a=1"])
    by (cbn [map]; unfold pair_text, item_text; rewrite take_ge; [done|exact Hc]).
  rewrite bool_decide_eq_false_2, E in H3 by discriminate. exact H3.
Defined.

(** A blank behind a text that fills the array: the terminator goes to the byte
    behind the array, which is the first one of [len]. *)
Theorem add_blank_overruns (m : bytes) (Hm : (cap < length m)%nat) :
  exists m', add_blank (mkCursor m (Z.of_nat cap - 1) 1) = Ok (mkCursor m' (Z.of_nat cap) 0) /\ m' !! cap = Some 0.
Proof.
  pose proof cap_eq. exists (<[cap := 0]> (<[(cap - 1)%nat := 32]> m)). split.
  - unfold add_blank. cbn [c_size c_buf c_mem Z.ltb Z.compare].
    replace (Z.of_nat cap - 1) with (Z.of_nat (cap - 1)) by lia. rewrite store_at by lia. cbn [mbind outcome_bind].
    replace (Z.of_nat (cap - 1) + 1) with (Z.of_nat cap) by lia. by rewrite store_at by (rewrite length_insert; lia).
  - rewrite list_lookup_insert_eq; [done|]. rewrite length_insert. lia.
Qed.

Lemma add_blank_overruns_witness :
  exists m', add_blank (mkCursor (replicate (S cap) 170) (Z.of_nat cap - 1) 1) = Ok (mkCursor m' (Z.of_nat cap) 0) /\
    m' !! cap = Some 0.
Proof. apply (add_blank_overruns (replicate (S cap) 170)). rewrite length_replicate. lia. Defined.

(** ** The logging thread

    Records go to the list under its lock; the thread writes and then pops the
    first one until the list is empty.  A file that was moved away is opened
    again. *)

Record record := mkRecord { r_level : Z; r_line : bytes }.

Inductive target : Set := TWf | TLog | TMonitor.
#[export] Instance target_eq_dec : EqDecision target.
Proof. solve_decision. Defined.

Definition target_of (level : Z) : target :=
  if level <=? STORE_LOG_WARNING then TWf else if level <=? STORE_LOG_DEBUG then TLog else TMonitor.

(** A stream: what went to files closed since, and to the current one. *)
Record sink := mkSink { closed : bytes; current : bytes }.

(** Where the thread is: at the test of g_log_running, at the tests for moved
    files, at the test of the list, after fwrite, or gone. *)
Inductive tpc : Set := AtTop | AtFiles | AtList | AtPop | Gone.

Record logger := mkLogger {
  g_log_list : list record; g_log_running : bool; thread : tpc; sinks : target -> sink }.

Definition fwrite (sk : target -> sink) (t : target) (b : bytes) : target -> sink :=
  fun t' => if decide (t' = t) then mkSink (closed (sk t)) (current (sk t) ++ b) else sk t'.
Definition reopen (sk : target -> sink) (t : target) : target -> sink :=
  fun t' => if decide (t' = t) then mkSink (closed (sk t) ++ current (sk t)) [] else sk t'.

Inductive event : Type :=
| ELog (r : record)      (** log_printf pushes a record *)
| EThread                (** the thread does its next step *)
| EMoved (t : target)    (** the thread finds a file gone and opens it again *)
| EClose.                (** log_close *)

Definition step (l : logger) (e : event) : logger :=
  match e with
  | ELog r => mkLogger (g_log_list l ++ [r]) (g_log_running l) (thread l) (sinks l)
  | EClose => mkLogger (g_log_list l) false (thread l) (sinks l)
  | EMoved t =>
      match thread l with
      | AtFiles => mkLogger (g_log_list l) (g_log_running l) AtFiles (reopen (sinks l) t)
      | _ => l
      end
  | EThread =>
      match thread l with
      | AtTop => mkLogger (g_log_list l) (g_log_running l) (if g_log_running l then AtFiles else Gone) (sinks l)
      | AtFiles => mkLogger (g_log_list l) (g_log_running l) AtList (sinks l)
      | AtList =>
          match g_log_list l with
          | [] => mkLogger [] (g_log_running l) AtTop (sinks l)
          | r :: _ => mkLogger (g_log_list l) (g_log_running l) AtPop
                        (fwrite (sinks l) (target_of (r_level r)) (r_line r))
          end
      | AtPop => mkLogger (tail (g_log_list l)) (g_log_running l) AtList (sinks l)
      | Gone => l
      end
  end.

Definition steps (l : logger) (es : list event) : logger := foldl step l es.

Definition logger0 : logger := mkLogger [] true AtTop (fun _ => mkSink [] []).

(** The lines of the records for a file. *)
Definition lines (t : target) (rs : list record) : bytes :=
  rs ≫= fun r => if decide (target_of (r_level r) = t) then r_line r else [].

Fixpoint logged (es : list event) : list record :=
  match es with [] => [] | ELog r :: es => r :: logged es | _ :: es => logged es end.

Definition written (l : logger) (t : target) : bytes := closed (sinks l t) ++ current (sinks l t).

(** The records still to be written. *)
Definition pending (l : logger) : list record :=
  match thread l with AtPop => tail (g_log_list l) | _ => g_log_list l end.

Lemma lines_app t a b : lines t (a ++ b) = lines t a ++ lines t b.
Proof. apply bind_app. Qed.

Lemma written_fwrite sk t b t' :
  closed (fwrite sk t b t') ++ current (fwrite sk t b t') =
  closed (sk t') ++ current (sk t') ++ (if decide (t' = t) then b else []).
Proof. unfold fwrite. case_decide; subst; cbn; by rewrite ?app_nil_r, <-?app_assoc. Qed.

Lemma written_reopen sk t t' :
  closed (reopen sk t t') ++ current (reopen sk t t') = closed (sk t') ++ current (sk t').
Proof. unfold reopen. case_decide; subst; cbn; by rewrite ?app_nil_r. Qed.

(** At [AtPop] there is a first record. *)
Definition pc_ok (l : logger) : Prop := thread l = AtPop -> g_log_list l <> [].

Lemma step_ok l e : pc_ok l -> pc_ok (step l e).
Proof.
  unfold pc_ok. intros H. destruct e; cbn.
  - intros Hp%H. by destruct (g_log_list l).
  - destruct (thread l) eqn:E; cbn; [by destruct (g_log_running l)|done|by destruct (g_log_list l)|done|by rewrite E].
  - destruct (thread l) eqn:E; cbn; [by rewrite E|done|by rewrite E|auto|by rewrite E].
  - done.
Qed.

Lemma step_conserves l e t :
  pc_ok l ->
  written (step l e) t ++ lines t (pending (step l e)) =
  written l t ++ lines t (pending l) ++ lines t (logged [e]).
Proof.
  intros Hok. destruct e as [r| |t'|]; cbn [logged].
  - unfold written, pending. cbn [step thread g_log_list sinks].
    destruct (thread l) eqn:E; rewrite <-lines_app; try done.
    destruct (g_log_list l) eqn:El; [by apply Hok in E|]. done.
  - change (lines t []) with (@nil Z). rewrite app_nil_r. unfold written, pending. cbn [step].
    destruct (thread l) eqn:E; cbn [thread g_log_list sinks]; [by destruct (g_log_running l)|done| |done|by rewrite E].
    destruct (g_log_list l) as [|r rs]; [done|]. cbn [sinks thread g_log_list tail].
    rewrite written_fwrite, <-!app_assoc. do 2 f_equal. unfold lines. cbn [mbind list_bind].
    f_equal. by apply decide_ext.
  - change (lines t []) with (@nil Z). rewrite app_nil_r. unfold written, pending. cbn [step].
    destruct (thread l) eqn:E; cbn [thread g_log_list sinks]; rewrite ?E; try done. by rewrite written_reopen.
  - change (lines t []) with (@nil Z). by rewrite app_nil_r.
Qed.

Lemma logged_app a b : logged (a ++ b) = logged a ++ logged b.
Proof. induction a as [|e a IH]; [done|]. destruct e; cbn; by rewrite ?IH. Qed.

Lemma steps_conserve es t :
  pc_ok (steps logger0 es) /\
  written (steps logger0 es) t ++ lines t (pending (steps logger0 es)) = lines t (logged es).
Proof.
  induction es as [|e es [IH1 IH2]] using rev_ind; [done|]. unfold steps in *. rewrite foldl_snoc.
  split; [by apply step_ok|]. rewrite step_conserves by done. rewrite app_assoc, IH2.
  by rewrite logged_app, lines_app.
Qed.

(** Two steps of the thread per record empty the list. *)
Lemma drain l :
  thread l = AtList ->
  let l' := steps l (replicate (2 * length (g_log_list l)) EThread) in
  thread l' = AtList /\ g_log_list l' = [].
Proof.
  destruct l as [rs run pc sk]. cbn [thread g_log_list]. intros ->. revert sk.
  induction rs as [|r rs IH]; intros sk; [done|]. cbn [length].
  replace (2 * S (length rs))%nat with (S (S (2 * length rs))) by lia. apply IH.
Qed.

(** the log files hold the lines in the order they were logged.  In any
    interleaving of threads that log, steps of the logging thread, and files
    moved away and opened again, what was written to the file of a level class,
    over all its incarnations, followed by the lines still in the list is
    exactly what was logged for it: no line is lost, duplicated, reordered or
    sent to another file; and a thread that is emptying the list empties it in
    two steps per record. *)
Theorem log_files_in_order (es : list event) :
  let l := steps logger0 es in
  (forall t, written l t ++ lines t (pending l) = lines t (logged es)) /\
  (thread l = AtList ->
   let l' := steps l (replicate (2 * length (g_log_list l)) EThread) in
   forall t, written l' t = lines t (logged es)).
Proof.
  cbv zeta. split; [intros t; apply steps_conserve|]. intros Hl t.
  destruct (drain _ Hl) as [Ht He]. unfold steps in *. rewrite <-foldl_app in *.
  destruct (steps_conserve (es ++ replicate (2 * length (g_log_list (foldl step logger0 es))) EThread) t) as [_ H].
  unfold steps in H. unfold pending in H at 1. rewrite Ht, He in H. change (lines t []) with (@nil Z) in H.
  rewrite app_nil_r in H. rewrite H, logged_app.
  assert (Hr : forall n, logged (replicate n EThread) = []) by (intros n; by induction n).
  by rewrite Hr, app_nil_r.
Qed.

(** log_close can lose a line: when the flag is cleared after the thread
    has found the list empty and a line is logged before the thread tests the
    flag, the thread goes away and the line stays in the list. *)
Theorem log_close_loses_line (r : record) (more : nat) :
  let l := steps logger0 ([EThread; EThread; EThread; ELog r; EClose] ++ replicate more EThread) in
  g_log_list l = [r] /\ forall t, written l t = [].
Proof.
  cbv zeta. unfold steps. rewrite foldl_app. cbn [foldl step logger0 thread g_log_list g_log_running sinks app].
  assert (H : forall n l, thread l = Gone \/ (thread l = AtTop /\ g_log_running l = false) ->
    g_log_list (foldl step l (replicate n EThread)) = g_log_list l /\
    sinks (foldl step l (replicate n EThread)) = sinks l).
  { induction n as [|n IH]; intros l Hl; [done|]. cbn [replicate foldl].
    destruct (IH (step l EThread)) as [-> ->].
    - destruct Hl as [Hl|[Hl Hr]]; cbn [step]; rewrite Hl; [by left|]. left. cbn. by rewrite Hr.
    - destruct Hl as [Hl|[Hl Hr]]; cbn [step]; by rewrite Hl. }
  destruct (H more (mkLogger [r] false AtTop (fun _ => mkSink [] []))) as [E1 E2]; [by right|].
  split; [exact E1|]. intros t. unfold written. by rewrite E2.
Qed.

(** ** Opening the log *)

Definition LOG_PARAM_ERROR : Z := -5500.
Definition LOG_CREATE_DIR_ERROR : Z := -5501.
Definition LOG_OPEN_FILE_ERROR : Z := -5502.
Definition LOG_CREATE_THREAD_FAIL : Z := -5503.
Definition LOG_CREATE_KEY_FAIL : Z := -5505.
Definition FILE_NAME_MAX : Z := 1024.
Definition BIN_NAME_MAX : Z := 32.

(** What the system answers: mkdir (or EEXIST), fopen of a name,
    pthread_key_create and pthread_create. *)
Record system := mkSystem {
  mkdir_ok : bool; fopen_ok : bytes -> bool; key_ok : bool; thread_ok : bool }.

(** [snprintf] into a global array of [n] bytes. *)
Definition print_name (n : Z) (text : bytes) : bytes := take (Z.to_nat (n - 1)) text.

Record names := mkNames { g_log_filename : bytes; g_logwf_filename : bytes; g_logmonitor_filename : bytes }.

Definition log_names (dir bin_name : bytes) : names :=
  let d := print_name FILE_NAME_MAX dir in
  let b := print_name BIN_NAME_MAX bin_name in
  mkNames (print_name FILE_NAME_MAX (d ++ str "/" ++ b ++ str ".log"))
    (print_name FILE_NAME_MAX (d ++ str "/" ++ b ++ str ".log.wf"))
    (print_name FILE_NAME_MAX (d ++ str "/" ++ b ++ str ".log.monitor")).

(** The global variables log_init sets. *)
Record globals := mkGlobals { g_log_level : Z; g_write_to_stderr : bool; g_names : option names }.

(** The return value and the globals; [log_to_stderr] is whether that
    environment variable is set. *)
Definition log_init (sys : system) (g : globals) (dir bin_name : bytes) (log_level : Z) (log_to_stderr : bool) :
    outcome (Z * globals) :=
  nd ← strlen dir;
  nb ← strlen bin_name;
  if (nd =? 0)%nat || (FILE_NAME_MAX <=? Z.of_nat nd) || (nb =? 0)%nat || (BIN_NAME_MAX <=? Z.of_nat nb)
  then Ok (LOG_PARAM_ERROR, g) else
  let g := mkGlobals log_level (log_to_stderr || g_write_to_stderr g) (g_names g) in
  if negb (mkdir_ok sys) then Ok (LOG_CREATE_DIR_ERROR, g)
  else
    let n := log_names (cstr dir) (cstr bin_name) in
    let g := mkGlobals log_level (g_write_to_stderr g) (Some n) in
    if negb (fopen_ok sys (g_log_filename n)) then Ok (LOG_OPEN_FILE_ERROR, g)
    else if negb (fopen_ok sys (g_logwf_filename n)) then Ok (LOG_OPEN_FILE_ERROR, g)
    else if negb (fopen_ok sys (g_logmonitor_filename n)) then Ok (LOG_OPEN_FILE_ERROR, g)
    else if negb (key_ok sys) then Ok (LOG_CREATE_KEY_FAIL, g)
    else if negb (thread_ok sys) then Ok (LOG_CREATE_THREAD_FAIL, g)
    else Ok (0, g).

(** log_close clears the flag and joins the thread; [joined] is whether
    pthread_join succeeds. *)
Definition log_close (l : logger) (joined : bool) : Z * logger :=
  (if joined then 0 else -1, mkLogger (g_log_list l) false (thread l) (sinks l)).
Definition log_join (joined : bool) : Z := if joined then 0 else -1.

Definition name_cap : nat := Z.to_nat (FILE_NAME_MAX - 1).
Lemma name_cap_eq : Z.of_nat name_cap = 1023.
Proof. reflexivity. Qed.

(** log_init accepts directory names with which the three log files
    coincide.  For a directory and a program name whose [.log] name just fits
    into the 1023 characters kept, the names of the three files are cut to the
    same one. *)
Theorem log_names_collide (dir bin_name : bytes)
  (Hb : (length bin_name < Z.to_nat BIN_NAME_MAX)%nat)
  (Hd : Z.of_nat (length dir) + Z.of_nat (length bin_name) + 5 = FILE_NAME_MAX - 1) :
  let n := log_names dir bin_name in
  g_log_filename n = dir ++ str "/" ++ bin_name ++ str ".log" /\
  g_logwf_filename n = g_log_filename n /\ g_logmonitor_filename n = g_log_filename n.
Proof.
  unfold FILE_NAME_MAX, BIN_NAME_MAX in *. cbv zeta. unfold log_names. cbn [g_log_filename g_logwf_filename g_logmonitor_filename].
  assert (Eb : print_name BIN_NAME_MAX bin_name = bin_name) by (apply take_ge; unfold BIN_NAME_MAX; lia).
  assert (Ed : print_name FILE_NAME_MAX dir = dir) by (apply take_ge; unfold FILE_NAME_MAX; lia).
  rewrite Eb, Ed. unfold print_name, FILE_NAME_MAX. change (Z.to_nat (1024 - 1)) with name_cap.
  pose proof name_cap_eq as Hc.
  assert (Hlog : length (dir ++ str "/" ++ bin_name ++ str ".log") = name_cap)
    by (rewrite !length_app; simpl; lia).
  assert (H : forall s, take name_cap (dir ++ str "/" ++ bin_name ++ str ".log" ++ s) = dir ++ str "/" ++ bin_name ++ str ".log").
  { intros s. replace (dir ++ str "/" ++ bin_name ++ str ".log" ++ s)
      with ((dir ++ str "/" ++ bin_name ++ str ".log") ++ s) by (by rewrite <-!app_assoc).
    rewrite <-Hlog. apply take_app_length. }
  pose proof (H []) as H0. pose proof (H (str ".wf")) as H1. pose proof (H (str ".monitor")) as H2.
  rewrite app_nil_r in H0. change (str ".log" ++ str ".wf") with (str ".log.wf") in H1.
  change (str ".log" ++ str ".monitor") with (str ".log.monitor") in H2. by rewrite H0, H1, H2.
Qed.

Lemma log_names_collide_witness :
  let n := log_names (replicate 1017 120) (str "b") in g_logwf_filename n = g_log_filename n.
Proof.
  apply (log_names_collide (replicate 1017 120) (str "b")).
  - vm_compute. lia.
  - rewrite length_replicate. reflexivity.
Defined.
