(* ===== verification/Gsdm.v ===== *)
(** * Command workers (src/gsdm/new_worker.cpp, new_worker.h, basecmd.h)

    Worker threads send each other commands: the sender puts the command into
    the receiver's lock-free queue for (sender, command type) and sends a
    datagram that names the queue; the receiver's event loop reads a datagram
    and takes one command from that queue.  Map lookups with [operator[]] insert
    what they do not find, keys of the outer map are unsigned. *)

From S2P Require Import Prelude Queue Event Utils.

(** [struct CmdInfo] as it is sent. *)
Record CmdInfo := mkInfo { worker_id : Z; cmd_type : Z }.
Definition sizeof_CmdInfo : nat := 8.
Definition info_bytes (i : CmdInfo) : bytes := le_bytes 4 (worker_id i) ++ le_bytes 4 (cmd_type i).
Definition info_of (b : bytes) : CmdInfo := mkInfo (le_val (take 4 b)) (s32 (le_val (take 4 (drop 4 b)))).

(** What the system calls of [initialize] answer: the descriptors of socketpair,
    and whether bind to a path succeeds. *)
Record unix := mkUnix { socketpair : option (Z * Z); bind_ok : bytes -> bool }.

Section Gsdm.
Context {Q C : Type} {FQ : Fifo Q (option C)} (new_q : Q).

(** NewGenericWorker, with the datagrams that wait in its socket and the calls
    [cmd->process(this)] it has made, with the queue each command came from.  A
    command is a pointer, [None] when null. *)
Record gworker := mkG {
  g_id : Z;
  g_post : Z;
  g_wait : Z;
  g_wait_buf : bytes;                        (** [_unix_wait_buf] *)
  g_path : bytes;                            (** [_address_wait.sun_path] *)
  g_watcher : option nat;
  g_el : EventLoop;
  g_queues : gmap Z (gmap Z Q);              (** [_worker_queue] *)
  g_inbox : list bytes;
  g_processed : list (Z * Z * C) }.

Definition wait_buf_size : nat := 16.
Definition sun_path_size : nat := 108.

Definition new_gworker (id now fresh_events : Z) : gworker :=
  mkG id (-1) (-1) (replicate wait_buf_size 0) (replicate sun_path_size 0) None
    (new_loop now fresh_events) ∅ [] [].

Definition get_worker_id (w : gworker) : Z := g_id w.

Definition with_queues (w : gworker) (m : gmap Z (gmap Z Q)) : gworker :=
  mkG (g_id w) (g_post w) (g_wait w) (g_wait_buf w) (g_path w) (g_watcher w) (g_el w) m (g_inbox w) (g_processed w).
Definition with_inbox (w : gworker) (l : list bytes) : gworker :=
  mkG (g_id w) (g_post w) (g_wait w) (g_wait_buf w) (g_path w) (g_watcher w) (g_el w) (g_queues w) l (g_processed w).
Definition with_buf (w : gworker) (b : bytes) : gworker :=
  mkG (g_id w) (g_post w) (g_wait w) b (g_path w) (g_watcher w) (g_el w) (g_queues w) (g_inbox w) (g_processed w).
Definition with_socks (w : gworker) (post wait : Z) : gworker :=
  mkG (g_id w) post wait (g_wait_buf w) (g_path w) (g_watcher w) (g_el w) (g_queues w) (g_inbox w) (g_processed w).
Definition with_path (w : gworker) (p : bytes) : gworker :=
  mkG (g_id w) (g_post w) (g_wait w) (g_wait_buf w) p (g_watcher w) (g_el w) (g_queues w) (g_inbox w) (g_processed w).
Definition with_loop (w : gworker) (el : EventLoop) (x : option nat) : gworker :=
  mkG (g_id w) (g_post w) (g_wait w) (g_wait_buf w) (g_path w) x el (g_queues w) (g_inbox w) (g_processed w).
Definition with_processed (w : gworker) (l : list (Z * Z * C)) : gworker :=
  mkG (g_id w) (g_post w) (g_wait w) (g_wait_buf w) (g_path w) (g_watcher w) (g_el w) (g_queues w) (g_inbox w) l.

(** [strncpy(dst, s, n)]: pads with zero bytes. *)
Definition strncpy (s : bytes) (n : nat) : bytes := take n s ++ replicate (n - length s) 0.

Definition initialize (u : unix) (w : gworker) : outcome (Z * gworker) :=
  match socketpair u with
  | None => Ok (-1, w)
  | Some (post, wait) =>
      let w := with_socks w post wait in
      id_text ← ll_text (get_worker_id w);
      path ← memcpy (g_path w) 1 (strncpy (str "gsdm_" ++ id_text) (sun_path_size - 2));
      let w := with_path w path in
      if negb (bind_ok u (g_path w)) then Ok (-1, w) else
      let '(x, el) := create_io_event (g_el w) RecvUnixNotify 0 in
      el ← start_io_event el x (g_wait w) READ;
      Ok (0, with_loop w el (Some x))
  end.

(** The macros of stlwrapper.h. *)
Definition MAP_HAS1 {V} (m : gmap Z V) (k : Z) : bool := bool_decide (is_Some (m !! k)).
Definition MAP_HAS2 {V} (m : gmap Z (gmap Z V)) (k1 k2 : Z) : bool :=
  match m !! k1 with Some n => MAP_HAS1 n k2 | None => false end.

Definition setup_queue (w : gworker) (src_worker_id cmd_type : Z) : gworker :=
  let src_worker_id := u32 src_worker_id in
  if negb (MAP_HAS2 (g_queues w) src_worker_id cmd_type) then
    let qh : gmap Z Q := default ∅ (g_queues w !! src_worker_id) in
    with_queues w (<[src_worker_id := <[cmd_type := new_q]> qh]> (g_queues w))
  else w.

(** [send_cmd] by the thread of the sender [src]: [_worker_queue[id]] inserts an
    empty table when the sender is unknown, then the type is looked up in it. *)
Definition send_find (w : gworker) (src cmd_type : Z) : bool * gworker :=
  let src := u32 src in
  let qh : gmap Z Q := default ∅ (g_queues w !! src) in
  (MAP_HAS1 qh cmd_type, with_queues w (<[src := qh]> (g_queues w))).

(** [qh[cmd_type]->produce(cmd)]; the entry of an absent type would be null. *)
Definition send_produce (w : gworker) (src cmd_type : Z) (cmd : option C) : outcome gworker :=
  let src := u32 src in
  let qh : gmap Z Q := default ∅ (g_queues w !! src) in
  match qh !! cmd_type with
  | None => Trap NullDeref
  | Some q =>
      q ← fifo_produce cmd q;
      Ok (with_queues w (<[src := <[cmd_type := q]> qh]> (g_queues w)))
  end.

(** [sent]: whether sendto takes the datagram. The function has no return
    statement. *)
Definition notify_unix (w : gworker) (sent : bool) (buffer : bytes) : gworker :=
  if sent then with_inbox w (g_inbox w ++ [buffer]) else w.

Definition send_cmd (w : gworker) (src cmd_type : Z) (cmd : option C) (sent : bool) : outcome gworker :=
  let '(found, w) := send_find w src cmd_type in
  if negb found then Ok w else
  w ← send_produce w src cmd_type cmd;
  Ok (notify_unix w sent (info_bytes (mkInfo (u32 src) cmd_type))).

(** [None]: the end of the function is reached without a return statement. *)
Definition process_unix_notify (w : gworker) (info : CmdInfo) : outcome (option Z * gworker) :=
  let src_worker_id := s32 (worker_id info) in
  let cmd_type := cmd_type info in
  if negb (MAP_HAS2 (g_queues w) (u32 src_worker_id) cmd_type) then Ok (Some (-1), w) else
  match g_queues w !! u32 src_worker_id with
  | None => Trap Undefined
  | Some qh =>
      match qh !! cmd_type with
      | None => Trap Undefined
      | Some q =>
          r ← fifo_consume q;
          let '(v, q) := r : option (option C) * Q in
          let w := with_queues w (<[u32 src_worker_id := <[cmd_type := q]> qh]> (g_queues w)) in
          match v with
          | Some (Some cmd) =>
              Ok (None, with_processed w (g_processed w ++ [(u32 src_worker_id, cmd_type, cmd)]))
          | _ => Ok (Some (-1), w)
          end
      end
  end.

(** The io callback.  recvfrom takes the first datagram, cut to the buffer, or
    fails and leaves the buffer as it is. *)
Definition recv_unix_notify (w : gworker) : outcome (option Z * gworker) :=
  let w := match g_inbox w with
           | [] => w
           | d :: rest =>
               let d := take wait_buf_size d in
               with_inbox (with_buf w (d ++ drop (length d) (g_wait_buf w))) rest
           end in
  process_unix_notify w (info_of (g_wait_buf w)).

(** ** The queues as a map on (sender, type) *)

Abbreviation qkey := (Z * Z)%type (only parsing).
Implicit Types (w : gworker) (k : qkey).

Definition queue_at w k : option Q := g_queues w !! fst k ≫= fun qh => qh !! snd k.

Definition valid_key k : Prop := 0 <= fst k < 2 ^ 32 /\ - 2 ^ 31 <= snd k < 2 ^ 31.

Lemma queue_at_same w a k :
  queue_at (with_queues w (<[a := default ∅ (g_queues w !! a)]> (g_queues w))) k = queue_at w k.
Proof.
  unfold queue_at. cbn. destruct (decide (fst k = a)) as [<-|Hne]; [|by rewrite lookup_insert_ne].
  rewrite lookup_insert_eq. destruct (g_queues w !! fst k); cbn; [done|apply lookup_empty].
Qed.

Lemma queue_at_put w a b q m k :
  m = default ∅ (g_queues w !! a) ->
  queue_at (with_queues w (<[a := <[b := q]> m]> (g_queues w))) k =
  if decide (k = (a, b)) then Some q else queue_at w k.
Proof.
  intros ->. unfold queue_at. cbn. destruct k as [k1 k2]; cbn [fst snd].
  destruct (decide (k1 = a)) as [->|Hne].
  - rewrite lookup_insert_eq. cbn. destruct (decide (k2 = b)) as [->|Hb].
    + by rewrite lookup_insert_eq, decide_True.
    + rewrite lookup_insert_ne by done. rewrite decide_False by congruence.
      destruct (g_queues w !! a); cbn; [done|apply lookup_empty].
  - rewrite lookup_insert_ne by done. by rewrite decide_False by congruence.
Qed.

Lemma MAP_HAS2_queue w a b : MAP_HAS2 (g_queues w) a b = bool_decide (is_Some (queue_at w (a, b))).
Proof.
  unfold MAP_HAS2, MAP_HAS1, queue_at. cbn. by destruct (g_queues w !! a).
Qed.

Definition info_for k : bytes := info_bytes (mkInfo (fst k) (snd k)).

Lemma info_round_trip k rest : valid_key k -> info_of (info_for k ++ rest) = mkInfo (fst k) (snd k).
Proof.
  intros [H1 H2]. unfold info_of, info_for, info_bytes. cbn [worker_id cmd_type].
  rewrite <-app_assoc. rewrite take_app_length' by (by rewrite le_bytes_length).
  rewrite drop_app_length' by (by rewrite le_bytes_length). rewrite take_app_length' by (by rewrite le_bytes_length).
  rewrite !le_val_bytes. change (8 * Z.of_nat 4) with 32. f_equal; [by apply Z.mod_small|].
  unfold swrap. change (2 ^ (32 - 1)) with (2 ^ 31).
  rewrite Zplus_mod_idemp_l. rewrite Z.mod_small by lia. lia.
Qed.

(** The nodes of the hash tables: the keys of the outer one and, for each, those
    of the inner one.  While they do not change, threads that look keys up only
    read the tables. *)
Definition shape w : gmap Z (gset Z) := dom <$> g_queues w.

Lemma shape_put w a b q qh : g_queues w !! a = Some qh -> is_Some (qh !! b) ->
  shape (with_queues w (<[a := <[b := q]> qh]> (g_queues w))) = shape w.
Proof.
  intros Ha Hb. unfold shape. cbn [g_queues with_queues]. rewrite fmap_insert, dom_insert_lookup_L by done.
  apply insert_id. by rewrite lookup_fmap, Ha.
Qed.

Lemma shape_sender w w' a : shape w' = shape w -> is_Some (g_queues w !! a) -> is_Some (g_queues w' !! a).
Proof.
  intros Hs [qh Ha]. assert (E : shape w' !! a = Some (dom qh)) by (rewrite Hs; unfold shape; by rewrite lookup_fmap, Ha).
  unfold shape in E. rewrite lookup_fmap in E. by destruct (g_queues w' !! a).
Qed.

(** ** Senders, receiver and the socket between them

    Each sender is one thread, which makes one send after the other; a send is
    three steps: the table is searched, the command goes into the queue, the
    datagram is sent, which may fail.  The receiver's thread handles datagrams.
    [s_pc] says where the senders that are in a send are, [s_lost] the datagrams
    that were not taken, [s_sent] the commands put into queues. *)

Inductive send_pc := SFound (ty : Z) (cmd : option C) | SQueued (ty : Z).

Record sys := mkSys {
  s_w : gworker; s_pc : gmap Z send_pc; s_lost : list (Z * Z); s_sent : list (Z * Z * option C) }.

Inductive gstep (senders : list Z) (s : sys) : sys -> Prop :=
| gstep_find src ty cmd found w' :
    src ∈ senders -> s_pc s !! src = None -> - 2 ^ 31 <= ty < 2 ^ 31 ->
    send_find (s_w s) src ty = (found, w') ->
    gstep senders s (mkSys w' (if found : bool then <[src := SFound ty cmd]> (s_pc s) else s_pc s) (s_lost s) (s_sent s))
| gstep_produce src ty cmd w' :
    s_pc s !! src = Some (SFound ty cmd) -> send_produce (s_w s) src ty cmd = Ok w' ->
    gstep senders s (mkSys w' (<[src := SQueued ty]> (s_pc s)) (s_lost s) (s_sent s ++ [(src, ty, cmd)]))
| gstep_notify src ty (sent : bool) :
    s_pc s !! src = Some (SQueued ty) ->
    gstep senders s (mkSys (notify_unix (s_w s) sent (info_for (src, ty))) (delete src (s_pc s))
      (if sent then s_lost s else (src, ty) :: s_lost s) (s_sent s))
| gstep_recv r w' :
    g_inbox (s_w s) <> [] -> recv_unix_notify (s_w s) = Ok (r, w') ->
    gstep senders s (mkSys w' (s_pc s) (s_lost s) (s_sent s)).

(** The queues are set up before the threads run. *)
Fixpoint setup_all w (ks : list (Z * Z)) : gworker :=
  match ks with [] => w | k :: ks => setup_all (setup_queue w (fst k) (snd k)) ks end.

(** Whether the sender of a key has queued a command and not yet announced it. *)
Definition pending (s : sys) k : nat :=
  match s_pc s !! fst k with Some (SQueued ty) => if decide (ty = snd k) then 1%nat else 0%nat | _ => 0%nat end.

(** The commands of a key, and how often a key occurs. *)
Definition sel {D} k (l : list (Z * Z * D)) : list D :=
  omap (fun x => if decide (fst x = k) then Some (snd x) else None) l.
Definition cnt k (l : list (Z * Z)) : nat := length (filter (fun x => x = k) l).

Lemma sel_app {D} k (a b : list (Z * Z * D)) : sel k (a ++ b) = sel k a ++ sel k b.
Proof. apply omap_app. Qed.
Lemma sel_one {D} k j (d : D) : sel k [(j, d)] = if decide (j = k) then [d] else [].
Proof. unfold sel. cbn. by case_decide. Qed.
Lemma cnt_app k a b : cnt k (a ++ b) = (cnt k a + cnt k b)%nat.
Proof. unfold cnt. by rewrite filter_app, length_app. Qed.
Lemma cnt_cons k j l : cnt k (j :: l) = ((if decide (j = k) then 1 else 0) + cnt k l)%nat.
Proof. unfold cnt. rewrite filter_cons. by case_decide. Qed.

(** The account of one key: what was taken from its queue and what is in it;
    every command in it has a datagram in the socket, one to be sent or one
    lost. *)
Definition account (s : sys) (keys : list (Z * Z)) k : Prop :=
  exists taken l,
    match queue_at (s_w s) k with Some q => fifo_repr q l | None => taken = [] /\ l = [] end /\
    sel k (s_sent s) = taken ++ l /\ sel k (g_processed (s_w s)) = omap id taken /\
    length l = (cnt k keys + pending s k + cnt k (s_lost s))%nat.

Record ginv (senders : list Z) (sh : gmap Z (gset Z)) (s : sys) : Prop := {
  gi_keys : exists keys, g_inbox (s_w s) = map info_for keys /\ Forall valid_key keys /\ forall k, account s keys k;
  gi_pc : forall src, match s_pc s !! src with
                      | Some (SFound ty _) => valid_key (src, ty) /\ is_Some (queue_at (s_w s) (src, ty))
                      | Some (SQueued ty) => valid_key (src, ty)
                      | None => True
                      end;
  gi_shape : shape (s_w s) = sh;
  gi_senders : forall src, src ∈ senders -> 0 <= src < 2 ^ 32 /\ is_Some (g_queues (s_w s) !! src);
  gi_buf : length (g_wait_buf (s_w s)) = wait_buf_size }.

(** ** What the operations do to the queues *)

Lemma setup_queue_at w src ty k :
  queue_at (setup_queue w src ty) k =
  match queue_at w k with
  | Some q => Some q
  | None => if decide (k = (u32 src, ty)) then Some new_q else None
  end.
Proof.
  unfold setup_queue. rewrite MAP_HAS2_queue. case_bool_decide as Hq; cbn [negb].
  - destruct (queue_at w k) eqn:E; [done|]. case_decide; [subst|done]. rewrite E in Hq. by destruct Hq.
  - rewrite queue_at_put by done. apply eq_None_not_Some in Hq.
    case_decide as Hk; [subst; by rewrite Hq|]. by destruct (queue_at w k).
Qed.

Lemma setup_frame w src ty : exists m, setup_queue w src ty = with_queues w m.
Proof. unfold setup_queue. case_match; [eauto|]. exists (g_queues w). by destruct w. Qed.

Lemma send_find_known w src ty : 0 <= src < 2 ^ 32 -> is_Some (g_queues w !! src) ->
  send_find w src ty = (bool_decide (is_Some (queue_at w (src, ty))), w).
Proof.
  intros Hs [qh Hq]. unfold send_find. rewrite u32_small by lia. unfold MAP_HAS1, queue_at. cbn [fst snd]. rewrite Hq.
  cbn [from_option id mbind option_bind]. rewrite insert_id by done. by destruct w.
Qed.

Lemma send_found w src ty cmd q l : 0 <= src < 2 ^ 32 ->
  queue_at w (src, ty) = Some q -> fifo_repr q l ->
  exists q' m, fifo_repr q' (l ++ [cmd]) /\ send_produce w src ty cmd = Ok (with_queues w m) /\
    shape (with_queues w m) = shape w /\
    forall k, queue_at (with_queues w m) k = if decide (k = (src, ty)) then Some q' else queue_at w k.
Proof.
  intros Hs Hq Hl. destruct (fifo_produce_ok q l cmd Hl) as (q' & Ep & Hl').
  exists q'. unfold send_produce. rewrite u32_small by lia. unfold queue_at in Hq. cbn [fst snd] in Hq.
  destruct (g_queues w !! src) as [qh|] eqn:Eqh; [|done]. cbn in Hq. cbn [from_option id].
  rewrite Hq, Ep. cbn [mbind outcome_bind]. eexists. split; [done|]. split; [done|]. split; [by apply shape_put|].
  intros k. apply queue_at_put. by rewrite Eqh.
Qed.

Lemma u32_s32 z : 0 <= z < 2 ^ 32 -> u32 (s32 z) = z.
Proof. intros Hz. unfold uwrap, swrap. change (2 ^ (32 - 1)) with (2 ^ 31). Z.to_euclidean_division_equations. lia. Qed.

Lemma process_found w k q l :
  valid_key k -> queue_at w k = Some q -> fifo_repr q l ->
  exists q' m, fifo_repr q' (tail l) /\ shape (with_queues w m) = shape w /\
    (forall j, queue_at (with_queues w m) j = if decide (j = k) then Some q' else queue_at w j) /\
    process_unix_notify w (mkInfo (fst k) (snd k)) =
      Ok (match head l with
          | Some (Some c) => (None, with_processed (with_queues w m) (g_processed w ++ [(k, c)]))
          | _ => (Some (-1), with_queues w m)
          end).
Proof.
  intros [Hk _] Hq Hl. destruct (fifo_consume_ok q l Hl) as (q' & Ec & Hl').
  exists q', (<[fst k := <[snd k := q']> (default ∅ (g_queues w !! fst k))]> (g_queues w)).
  split; [done|]. split.
  { unfold queue_at in Hq. destruct (g_queues w !! fst k) as [qh|] eqn:Eqh; [|done]. apply shape_put; [done|by eexists]. }
  split; [intros j; rewrite queue_at_put by done; by rewrite <-surjective_pairing|].
  unfold process_unix_notify. cbn [worker_id cmd_type]. rewrite u32_s32 by done.
  rewrite MAP_HAS2_queue, <-surjective_pairing, Hq. cbn [negb bool_decide].
  unfold queue_at in Hq. destruct (g_queues w !! fst k) as [qh|]; [|done]. cbn in Hq.
  rewrite bool_decide_eq_true_2 by eauto. cbn [negb]. rewrite Hq, Ec. cbn [mbind outcome_bind from_option id].
  by destruct (head l) as [[c|]|].
Qed.

Lemma recv_first w k rest :
  valid_key k -> g_inbox w = info_for k :: rest -> length (g_wait_buf w) = wait_buf_size ->
  exists b, length b = wait_buf_size /\
    recv_unix_notify w = process_unix_notify (with_inbox (with_buf w b) rest) (mkInfo (fst k) (snd k)).
Proof.
  intros Hk Hi Hb. assert (Hl : length (info_for k) = 8%nat)
    by (unfold info_for, info_bytes; by rewrite length_app, !le_bytes_length).
  unfold recv_unix_notify. rewrite Hi. rewrite take_ge by (rewrite Hl; unfold wait_buf_size; lia).
  eexists. split; [|cbn [g_wait_buf with_inbox with_buf]; by rewrite info_round_trip].
  rewrite length_app, length_drop, Hb, Hl. done.
Qed.

(** ** The invariant *)

Context (new_q_empty : fifo_repr new_q []).

Lemma account_key s keys k : account s keys k -> forall q, queue_at (s_w s) k = Some q -> exists l, fifo_repr q l.
Proof. intros (taken & l & H & _) q E. rewrite E in H. eauto. Qed.

Section Inv.
Context (senders : list Z) (sh : gmap Z (gset Z)).

(** A queue that is there stays there while the tables keep their nodes. *)
Lemma shape_queue w w' k : shape w' = shape w -> is_Some (queue_at w k) -> is_Some (queue_at w' k).
Proof.
  intros Hs [q Hq]. unfold queue_at in *. destruct (g_queues w !! fst k) as [qh|] eqn:Ea; [|done]. cbn in Hq.
  assert (E : shape w' !! fst k = Some (dom qh)) by (rewrite Hs; unfold shape; by rewrite lookup_fmap, Ea).
  unfold shape in E. rewrite lookup_fmap in E. destruct (g_queues w' !! fst k) as [qh'|]; [|done].
  cbn in *. injection E as E. apply elem_of_dom. rewrite E. apply elem_of_dom. eauto.
Qed.

(** A step that keeps the nodes keeps what the invariant says of the senders. *)
Lemma senders_kept w w' : shape w' = shape w ->
  (forall src, src ∈ senders -> 0 <= src < 2 ^ 32 /\ is_Some (g_queues w !! src)) ->
  forall src, src ∈ senders -> 0 <= src < 2 ^ 32 /\ is_Some (g_queues w' !! src).
Proof. intros Hs Hw src Hin. destruct (Hw src Hin). split; [done|]. by eapply shape_sender. Qed.

Lemma ginv_find s src ty cmd found w' :
  src ∈ senders -> s_pc s !! src = None -> - 2 ^ 31 <= ty < 2 ^ 31 -> send_find (s_w s) src ty = (found, w') ->
  ginv senders sh s ->
  ginv senders sh (mkSys w' (if found : bool then <[src := SFound ty cmd]> (s_pc s) else s_pc s) (s_lost s) (s_sent s)).
Proof.
  intros Hin Hpc Hty E Hi. destruct (gi_senders _ _ _ Hi src Hin) as [Hr Hq]. rewrite send_find_known in E by done.
  injection E as <- <-. case_bool_decide as Hat; [|by destruct s]. destruct Hi as [(keys & Hi & Hv & Ha) Hp Hsh Hse Hb].
  split; cbn [s_w s_pc s_lost s_sent]; [|intros i|done..].
  - exists keys. split; [done|]. split; [done|]. intros k. destruct (Ha k) as (taken & l & H). exists taken, l.
    cbn [s_w s_lost s_sent]. revert H. unfold pending. cbn [s_pc]. destruct (decide (fst k = src)) as [->|Hne].
    + by rewrite lookup_insert_eq, Hpc.
    + by rewrite lookup_insert_ne.
  - destruct (decide (i = src)) as [->|Hne]; [by rewrite lookup_insert_eq|]. rewrite lookup_insert_ne by done. apply Hp.
Qed.

Lemma ginv_produce s src ty cmd w' :
  s_pc s !! src = Some (SFound ty cmd) -> send_produce (s_w s) src ty cmd = Ok w' -> ginv senders sh s ->
  ginv senders sh (mkSys w' (<[src := SQueued ty]> (s_pc s)) (s_lost s) (s_sent s ++ [(src, ty, cmd)])).
Proof.
  intros Hpc E [(keys & Hi & Hv & Ha) Hp Hsh Hse Hb]. pose proof (Hp src) as Hsrc. rewrite Hpc in Hsrc.
  destruct Hsrc as [Hval [q Eq]]. destruct (Ha (src, ty)) as (taken & l & H & H1 & H2 & H3). rewrite Eq in H.
  destruct (send_found _ src ty cmd q l (proj1 Hval) Eq H) as (q' & m & Hq' & E' & Hs' & Hm). rewrite E in E'. injection E' as ->.
  split; cbn [s_w s_pc s_lost s_sent]; [|intros i|congruence|by eapply senders_kept|done].
  - exists keys. split; [done|]. split; [done|]. intros k. unfold account, pending. cbn [s_w s_pc s_lost s_sent].
    rewrite Hm, sel_app, sel_one. destruct (decide (k = (src, ty))) as [->|Hk].
    + exists taken, (l ++ [cmd]). cbn [fst snd]. rewrite lookup_insert_eq, !decide_True by done. split; [done|].
      rewrite H1, <-app_assoc. split; [done|]. split; [done|].
      unfold pending in H3. cbn [fst snd] in H3. rewrite Hpc in H3. rewrite length_app. simpl. lia.
    + destruct (Ha k) as (taken' & l' & G & G1 & G2 & G3). exists taken', l'. rewrite decide_False by congruence.
      rewrite app_nil_r. split; [done|]. split; [done|]. split; [done|]. rewrite G3. unfold pending.
      destruct k as [k1 k2]. cbn [fst snd]. destruct (decide (k1 = src)) as [->|Hne]; [|by rewrite lookup_insert_ne].
      rewrite lookup_insert_eq, Hpc, decide_False by congruence. done.
  - destruct (decide (i = src)) as [->|Hne]; [by rewrite lookup_insert_eq|]. rewrite lookup_insert_ne by done.
    specialize (Hp i). destruct (s_pc s !! i) as [[ty' cmd'|ty']|]; [|done..]. destruct Hp as [Hp1 Hp2]. split; [done|]. by eapply shape_queue.
Qed.

Lemma ginv_notify s src ty (sent : bool) :
  s_pc s !! src = Some (SQueued ty) -> ginv senders sh s ->
  ginv senders sh (mkSys (notify_unix (s_w s) sent (info_for (src, ty))) (delete src (s_pc s))
    (if sent then s_lost s else (src, ty) :: s_lost s) (s_sent s)).
Proof.
  intros Hpc [(keys & Hi & Hv & Ha) Hp Hsh Hse Hb]. pose proof (Hp src) as Hval. rewrite Hpc in Hval.
  split; cbn [s_w s_pc s_lost s_sent]; [|intros i|by destruct sent..].
  - exists (if sent then keys ++ [(src, ty)] else keys). split; [destruct sent; cbn; [|done]; by rewrite Hi, map_app|].
    split; [destruct sent; [apply Forall_app; split; [done|by apply Forall_singleton]|done]|].
    intros j. destruct (Ha j) as (taken & l & H & H1 & H2 & H3). exists taken, l. cbn [s_w s_lost s_sent].
    split; [by destruct sent|]. split; [done|]. split; [by destruct sent|]. rewrite H3. unfold pending. cbn [s_pc].
    destruct j as [j1 j2]. cbn [fst snd]. destruct (decide (j1 = src)) as [->|Hne].
    + rewrite Hpc, lookup_delete_eq. destruct sent; rewrite ?cnt_app, !cnt_cons; [change (cnt _ []) with 0%nat|];
        (destruct (decide (ty = j2)) as [->|Hne]; [rewrite decide_True by done|rewrite decide_False by congruence]; lia).
    + rewrite lookup_delete_ne by done. destruct sent; rewrite ?cnt_app, !cnt_cons, decide_False by congruence; [change (cnt _ []) with 0%nat|]; lia.
  - destruct (decide (i = src)) as [->|Hne]; [by rewrite lookup_delete_eq|]. rewrite lookup_delete_ne by done. by destruct sent; apply Hp.
Qed.

Lemma ginv_recv s r w' :
  g_inbox (s_w s) <> [] -> recv_unix_notify (s_w s) = Ok (r, w') -> ginv senders sh s ->
  ginv senders sh (mkSys w' (s_pc s) (s_lost s) (s_sent s)) /\ g_inbox w' = tail (g_inbox (s_w s)).
Proof.
  intros Hne E [(keys & Hi & Hv & Ha) Hp Hsh Hse Hb]. destruct keys as [|k keys]; [by rewrite Hi in Hne|].
  inversion_clear Hv as [|?? Hk Hv']. cbn [map] in Hi.
  destruct (recv_first _ _ _ Hk Hi Hb) as (b & Hlb & Er). rewrite Er in E. clear Er.
  destruct (Ha k) as (taken & l & H & H1 & H2 & H3).
  rewrite cnt_cons, decide_True in H3 by done. destruct l as [|c l]; [simpl in H3; lia|].
  destruct (queue_at (s_w s) k) as [q|] eqn:Eq; [|by destruct H].
  set (w1 := with_inbox (with_buf (s_w s) b) (map info_for keys)) in *.
  destruct (process_found w1 k q (c :: l) Hk Eq H) as (q' & m & Hq' & Hs' & Hm & E'). rewrite E in E'. clear E.
  cbn [head hd_error tail] in *.
  assert (Hw : w' = with_processed (with_queues w1 m) (g_processed w1 ++ (match c with Some c => [(k, c)] | None => [] end))).
  { destruct c; cbn in E'; injection E' as -> ->; [done|]. rewrite app_nil_r. by destruct (s_w s). }
  clear E'. assert (Hsw : shape w' = shape (s_w s)) by (by rewrite Hw).
  split; [|by rewrite Hw, Hi]. split; cbn [s_w s_pc s_lost s_sent]; [|intros i|congruence|by eapply senders_kept|by rewrite Hw].
  2: { specialize (Hp i). destruct (s_pc s !! i) as [[ty' cmd'|ty']|]; [|done..]. destruct Hp as [Hp1 Hp2]. split; [done|]. by eapply shape_queue. }
  exists keys. split; [by rewrite Hw|]. split; [done|]. intros j. unfold account, pending. cbn [s_w s_pc s_lost s_sent]. subst w'.
  change (queue_at (with_processed (with_queues w1 m) _) j) with (queue_at (with_queues w1 m) j).
  rewrite Hm. cbn [g_processed with_processed]. rewrite sel_app.
  assert (Hs : sel j (match c with Some c => [(k, c)] | None => [] end) =
    if decide (k = j) then omap id [c] else []) by (destruct c; [rewrite sel_one|]; by case_decide).
  rewrite Hs. destruct (decide (j = k)) as [->|Hj].
  - exists (taken ++ [c]), l. rewrite !decide_True by done. split; [done|]. rewrite H1, <-app_assoc. split; [done|].
    rewrite omap_app. split; [by rewrite <-H2|]. unfold pending in H3. simpl in H3. lia.
  - destruct (Ha j) as (taken' & l' & G & G1 & G2 & G3). exists taken', l'. rewrite decide_False by done.
    rewrite app_nil_r. rewrite cnt_cons, decide_False in G3 by done. done.
Qed.

Lemma gstep_ginv s s' : gstep senders s s' -> ginv senders sh s -> ginv senders sh s'.
Proof.
  intros Hs Hi. destruct Hs.
  - by apply ginv_find.
  - by eapply ginv_produce.
  - by apply ginv_notify.
  - by eapply ginv_recv.
Qed.

End Inv.

Lemma initialize_frame u w r w' :
  initialize u w = Ok (r, w') ->
  g_queues w' = g_queues w /\ g_inbox w' = g_inbox w /\ g_processed w' = g_processed w /\ g_wait_buf w' = g_wait_buf w.
Proof.
  unfold initialize. destruct (socketpair u) as [[post wait]|]; [|by intros [= <- <-]].
  intros H. inv_bind H. inv_bind H. destruct (negb _); [by injection H as <- <-|].
  destruct (create_io_event _ _ _) as [x el]. inv_bind H. by injection H as <- <-.
Qed.

Definition started (w0 : gworker) : Prop :=
  exists u id now fresh_events, initialize u (new_gworker id now fresh_events) = Ok (0, w0).

(** Set-up leaves everything but the tables alone, and its queues are empty. *)
Lemma setup_all_frame ks w :
  (exists m, setup_all w ks = with_queues w m) /\
  (forall k q, queue_at (setup_all w ks) k = Some q -> queue_at w k = Some q \/ q = new_q) /\
  (forall a, is_Some (g_queues w !! a) \/ (exists ty, (a, ty) ∈ ks /\ 0 <= a < 2 ^ 32) -> is_Some (g_queues (setup_all w ks) !! a)).
Proof.
  revert w. induction ks as [|[a ty] ks IH]; intros w; cbn [setup_all fst snd].
  - split; [exists (g_queues w); by destruct w|]. split; [auto|]. intros a [Ha|(ty & ?%not_elem_of_nil & _)]; done.
  - destruct (IH (setup_queue w a ty)) as ((m & ->) & Hq & Hs). destruct (setup_frame w a ty) as [m1 Em].
    split; [exists m; by rewrite Em|]. split.
    + intros k q Hk. destruct (Hq k q Hk) as [Hk1|]; [|auto]. rewrite setup_queue_at in Hk1.
      destruct (queue_at w k); [auto|]. case_decide; [|done]. injection Hk1 as <-. auto.
    + intros b Hb. apply Hs. destruct Hb as [Hb|(ty' & [[= <- <-]|Hin]%elem_of_cons & Hr)]; [left|left|right; eauto].
      * unfold setup_queue. case_match; [|done]. cbn. apply lookup_insert_is_Some'. auto.
      * assert (Hq' : is_Some (queue_at (setup_queue w b ty') (b, ty'))).
        { rewrite setup_queue_at. rewrite u32_small by lia. rewrite decide_True by done. by destruct (queue_at w (b, ty')). }
        unfold queue_at in Hq'. cbn [fst snd] in Hq'. destruct (g_queues _ !! b); [done|]. by destruct Hq'.
Qed.

(** Every sender has been set up with some type. *)
Definition prepared (ks : list (Z * Z)) (senders : list Z) : Prop :=
  Forall (fun src => 0 <= src < 2 ^ 32 /\ exists ty, (src, ty) ∈ ks) senders.

Lemma reached_ginv w0 ks senders s : started w0 -> prepared ks senders ->
  rtc (gstep senders) (mkSys (setup_all w0 ks) ∅ [] []) s -> ginv senders (shape (setup_all w0 ks)) s.
Proof.
  intros (u & id & now & fe & E) Hse Hr. apply initialize_frame in E as (Eq & Ei & Ep & Eb).
  destruct (setup_all_frame ks w0) as ((m & Em) & Hq & Hs). set (w1 := setup_all w0 ks) in *.
  assert (H0 : ginv senders (shape w1) (mkSys w1 ∅ [] [])).
  { split; cbn [s_w s_pc s_lost s_sent]; [|done|done| |by rewrite Em; cbn; rewrite Eb].
    - exists []. rewrite Em at 1. split; [by cbn; rewrite Ei|]. split; [constructor|]. intros k. exists [], [].
      cbn [s_w s_lost s_sent]. split; [|by rewrite Em; cbn; rewrite Ep].
      destruct (queue_at w1 k) as [q|] eqn:Ek; [|done]. destruct (Hq k q Ek) as [Hk| ->]; [|done].
      unfold queue_at in Hk. by rewrite Eq in Hk.
    - intros src Hin. apply list_elem_of_lookup in Hin as [i Hin]. destruct (Forall_lookup_1 _ _ _ _ Hse Hin) as (Hrange & ty & Hty). eauto 10. }
  clear -Hr H0 new_q_empty. revert H0. induction Hr as [|s1 s2 s3 Hs _ IH]; [done|]. intros H1.
  apply IH. by eapply gstep_ginv.
Qed.

(** A handler call for a waiting datagram finds a command. *)
Lemma recv_runs senders sh s : ginv senders sh s -> g_inbox (s_w s) <> [] -> exists r w', recv_unix_notify (s_w s) = Ok (r, w').
Proof.
  intros [(keys & Hi & Hv & Ha) _ _ _ Hb] Hne. destruct keys as [|k keys]; [by rewrite Hi in Hne|].
  inversion_clear Hv as [|?? Hk Hv']. cbn [map] in Hi.
  destruct (recv_first _ _ _ Hk Hi Hb) as (b & _ & ->).
  destruct (Ha k) as (taken & l & H & _ & _ & H3). rewrite cnt_cons, decide_True in H3 by done.
  destruct (queue_at (s_w s) k) as [q|] eqn:Eq; [|destruct H as [_ ->]; simpl in H3; lia].
  destruct (process_found (with_inbox (with_buf (s_w s) b) (map info_for keys)) k q l Hk Eq H) as (? & ? & _ & _ & _ & ->).
  destruct (head l) as [[c|]|]; eauto.
Qed.

Lemma send_runs senders sh s src ty cmd : ginv senders sh s -> s_pc s !! src = Some (SFound ty cmd) ->
  exists w', send_produce (s_w s) src ty cmd = Ok w'.
Proof.
  intros [(keys & _ & _ & Ha) Hp _ _ _] Hpc. specialize (Hp src). rewrite Hpc in Hp. destruct Hp as [[Hr _] [q Eq]].
  destruct (account_key _ _ _ (Ha _) _ Eq) as [l Hl].
  destruct (send_found _ src ty cmd _ _ Hr Eq Hl) as (q' & m & _ & -> & _). eauto.
Qed.

(** The event loop, called [n] times. *)
Fixpoint recv_times (n : nat) (w : gworker) : outcome gworker :=
  match n with O => Ok w | S n => r ← recv_unix_notify w; recv_times n (snd r) end.

Lemma recv_all senders sh s : ginv senders sh s ->
  exists w', recv_times (length (g_inbox (s_w s))) (s_w s) = Ok w' /\ g_inbox w' = [] /\
    ginv senders sh (mkSys w' (s_pc s) (s_lost s) (s_sent s)).
Proof.
  remember (length (g_inbox (s_w s))) as n eqn:En. revert s En. induction n as [|n IH]; intros s En Hs.
  - exists (s_w s). split; [done|]. split; [by destruct (g_inbox (s_w s))|]. by destruct s.
  - assert (Hne : g_inbox (s_w s) <> []) by (by destruct (g_inbox (s_w s))).
    destruct (recv_runs _ _ s Hs Hne) as (r & w1 & E). destruct (ginv_recv _ _ s r w1 Hne E Hs) as [H1 Ht].
    destruct (IH (mkSys w1 (s_pc s) (s_lost s) (s_sent s))) as (w2 & E2 & H2); [|done|].
    { cbn [s_w]. rewrite Ht. destruct (g_inbox (s_w s)); cbn in *; lia. }
    exists w2. cbn [recv_times]. rewrite E. cbn [mbind outcome_bind snd]. done.
Qed.

End Gsdm.
Arguments gworker : clear implicits.
Arguments sys : clear implicits.

(** ** Properties *)

Section Delivery.
Context {Q C : Type} `{Fifo Q (option C)} (new_q : Q) (Hnew : fifo_repr new_q []).

(** C31: commands between workers are delivered in order, and only a datagram
    the system did not take can hold one back.  The receiver's queues are set up
    before the threads run, for every sender at least one; each sender is one
    thread that makes one send at a time, searching the table, queueing the
    command and sending the datagram in separate steps, and the receiver's
    thread handles datagrams, all interleaved in any way.  Then the nodes of the
    tables never change, so the threads only read them, and each queue has one
    producer and one consumer; queueing and handler calls return; for every
    sender and type the commands processed followed by those waiting in the
    queue are exactly the commands sent, in order, nothing duplicated or taken
    from another queue; and once no datagram and no unfinished send is left, as
    many commands wait as datagrams were lost: none, if none was. *)
Theorem gsdm_delivers (w0 : gworker Q C) ks senders (s : sys Q C) (Hw : started w0) (Hk : prepared ks senders)
  (Hs : rtc (gstep senders) (mkSys (setup_all new_q w0 ks) ∅ [] []) s) :
  shape (s_w s) = shape (setup_all new_q w0 ks) /\
  (forall src ty cmd, s_pc s !! src = Some (SFound ty cmd) -> exists w', send_produce (s_w s) src ty cmd = Ok w') /\
  (g_inbox (s_w s) <> [] -> exists r w', recv_unix_notify (s_w s) = Ok (r, w')) /\
  (forall k, exists waiting,
     omap id (sel k (s_sent s)) = sel k (g_processed (s_w s)) ++ omap id waiting /\
     (forall q, queue_at (s_w s) k = Some q -> fifo_repr q waiting) /\
     (g_inbox (s_w s) = [] -> s_pc s = ∅ -> length waiting = cnt k (s_lost s))).
Proof.
  pose proof (reached_ginv new_q Hnew w0 ks senders s Hw Hk Hs) as Hi. split; [by apply Hi|].
  split; [intros src ty cmd; by eapply send_runs|]. split; [by eapply recv_runs|]. intros k.
  destruct Hi as [(keys & Ei & _ & Ha) _ _ _ _]. destruct (Ha k) as (taken & l & H1 & H2 & H3 & H4).
  exists l. rewrite H2, omap_app, H3. split; [done|]. split; [intros q E; by rewrite E in H1|].
  intros Ei' Ep. rewrite H4. unfold pending. rewrite Ep, lookup_empty. rewrite Ei' in Ei. destruct keys; [|done]. cbn. lia.
Qed.

(** when every datagram was taken the receiver catches up: from any
    reachable state without unfinished sends, handling the waiting datagrams
    processes every command sent, in order per sender and type. *)
Theorem gsdm_catches_up (w0 : gworker Q C) ks senders (s : sys Q C) (Hw : started w0) (Hk : prepared ks senders)
  (Hs : rtc (gstep senders) (mkSys (setup_all new_q w0 ks) ∅ [] []) s) (Hp : s_pc s = ∅) (Hl : s_lost s = []) :
  exists w', recv_times (length (g_inbox (s_w s))) (s_w s) = Ok w' /\
    forall k, sel k (g_processed w') = omap id (sel k (s_sent s)).
Proof.
  destruct (recv_all _ _ s (reached_ginv new_q Hnew w0 ks senders s Hw Hk Hs)) as (w' & E & Ei & [(keys & Ek & _ & Ha) _ _ _ _]).
  exists w'. split; [done|]. intros k. destruct (Ha k) as (taken & l & _ & H2 & H3 & H4).
  unfold pending in H4. cbn [s_w s_pc s_lost s_sent] in *. rewrite Ei in Ek. destruct keys; [|done].
  rewrite Hp, lookup_empty, Hl in H4. destruct l; [|done]. by rewrite H3, H2, app_nil_r.
Qed.

End Delivery.

(** A worker with id 1 that takes commands of type 1000 from worker 2; one is
    sent and its datagram lost, the next arrives. *)
Definition demo_q : heap (option Z) * LockFreeQueue := Seq.new_queue bump_alloc None ∅.
Definition demo_unix : unix := mkUnix (Some (3, 4)) (fun _ => true).

Lemma demo_q_empty : fifo_repr demo_q [].
Proof. apply new_queue_repr. Qed.

Definition demo_send (w : gworker (heap (option Z) * LockFreeQueue) Z) (cmd : Z) (sent : bool) :=
  send_cmd w 2 1000 (Some cmd) sent.

Definition demo_run : outcome (list (Z * Z * Z) * list (Z * Z * Z)) :=
  r ← initialize demo_unix (new_gworker 1 0 0);
  let w := setup_queue demo_q (snd r) 2 1000 in
  w ← demo_send w 7 false;
  w ← demo_send w 8 true;
  w1 ← recv_unix_notify w;
  w2 ← recv_unix_notify (snd w1);
  Ok (g_processed (snd w1), g_processed (snd w2)).

(** The lost datagram delays the first command until the second one's datagram;
    the second stays behind until the handler runs again, here on a recvfrom that
    reads nothing and leaves the buffer as it is. *)
Example demo_runs : demo_run = Ok ([(2, 1000, 7)], [(2, 1000, 7); (2, 1000, 8)]).
Proof. vm_compute. reflexivity. Qed.

Definition demo_w0 : gworker (heap (option Z) * LockFreeQueue) Z :=
  match initialize (C := Z) demo_unix (new_gworker 1 0 0) with Ok r => snd r | Trap _ => new_gworker 1 0 0 end.
Definition demo_w1 : gworker _ Z := setup_all demo_q demo_w0 [(2, 1000); (3, 1000)].
Definition produced (w : gworker (heap (option Z) * LockFreeQueue) Z) (src cmd : Z) : gworker _ Z :=
  match send_produce w src 1000 (Some cmd) with Ok w => w | Trap _ => w end.

(** Sender 2 and sender 3 are in a send at the same time; 2's datagram is taken,
    3 has queued its command. *)
Definition demo_w2 : gworker _ Z := produced demo_w1 3 8.
Definition demo_w3 : gworker _ Z := produced demo_w2 2 7.
Definition demo_sys : sys _ Z :=
  mkSys (notify_unix demo_w3 true (info_for (2, 1000))) (delete 2 (<[2 := SQueued 1000]> {[3 := SQueued 1000]})) []
    [(3, 1000, Some 8); (2, 1000, Some 7)].
Definition demo_done : sys _ Z :=
  mkSys (notify_unix (s_w demo_sys) true (info_for (3, 1000))) ∅ [] (s_sent demo_sys).

Lemma demo_started : started demo_w0.
Proof. exists demo_unix, 1, 0, 0. vm_compute. reflexivity. Qed.

Lemma demo_prepared : prepared [(2, 1000); (3, 1000)] [2; 3].
Proof. repeat constructor; try lia; eexists; [left|right; left]. Qed.

Lemma demo_reached : rtc (gstep [2; 3]) (mkSys demo_w1 ∅ [] []) demo_sys.
Proof.
  eapply rtc_l; [apply (gstep_find _ (mkSys demo_w1 ∅ [] []) 2 1000 (Some 7) true demo_w1); [left|done|lia|vm_compute; reflexivity]|].
  eapply rtc_l; [eapply (gstep_find _ _ 3 1000 (Some 8) true demo_w1); [right; left|done|lia|vm_compute; reflexivity]|].
  eapply rtc_l; [apply (gstep_produce _ _ 3 1000 (Some 8) demo_w2); [done|vm_compute; reflexivity]|].
  eapply rtc_l; [apply (gstep_produce _ _ 2 1000 (Some 7) demo_w3); [done|vm_compute; reflexivity]|].
  eapply rtc_l; [apply (gstep_notify _ _ 2 1000 true); done|].
  match goal with |- rtc _ ?x _ => replace x with demo_sys by (vm_compute; reflexivity) end. apply rtc_refl.
Qed.

Lemma demo_done_reached : rtc (gstep [2; 3]) (mkSys demo_w1 ∅ [] []) demo_done.
Proof.
  eapply rtc_r; [apply demo_reached|]. apply (gstep_notify [2; 3] demo_sys 3 1000 true). done.
Qed.

Lemma gsdm_delivers_witness :
  shape (s_w demo_sys) = shape demo_w1 /\
  (exists r w', recv_unix_notify (s_w demo_sys) = Ok (r, w')) /\
  exists waiting, omap id (sel (2, 1000) (s_sent demo_sys)) =
    sel (2, 1000) (g_processed (s_w demo_sys)) ++ omap id waiting.
Proof.
  destruct (gsdm_delivers demo_q demo_q_empty demo_w0 [(2, 1000); (3, 1000)] [2; 3] demo_sys demo_started demo_prepared demo_reached)
    as (H0 & _ & H1 & H2).
  split; [exact H0|]. split; [apply H1; discriminate|]. destruct (H2 (2, 1000)) as (waiting & H3 & _). by exists waiting.
Defined.

Lemma gsdm_catches_up_witness :
  exists w', recv_times (length (g_inbox (s_w demo_done))) (s_w demo_done) = Ok w' /\
    forall k, sel k (g_processed w') = omap id (sel k (s_sent demo_done)).
Proof.
  apply (gsdm_catches_up demo_q demo_q_empty demo_w0 [(2, 1000); (3, 1000)] [2; 3] demo_done demo_started demo_prepared demo_done_reached);
    reflexivity.
Defined.

(** A sender for which nothing was set up adds a node to the receiver's table,
    without a lock and while other threads read it. *)
Example send_find_inserts : shape (snd (send_find demo_w0 9 1000)) = {[9 := ∅]} /\ shape demo_w0 = ∅.
Proof. split; vm_compute; reflexivity. Qed.
