(* ===== verification/Proxy.v ===== *)
(** * The HTTP client and the proxy demo (src/client/http_client.cpp,
      examples/demo/http-proxy/proxy_worker.cpp)

    A proxy worker asks a backend for every request it gets and answers when the
    response arrives; in between the connection may have gone.  A backend
    request (backend_req_t) and its connection point to each other; br_flag_map
    says whether the connection is still there.  The event-driven HTTP library
    is a parameter: a request it accepts calls back once, later.  HttpInterface
    shows that evhttpclient.cpp does so. *)

From S2P Require Import Prelude Queue Sds Event Socket Config Worker WorkerFacts UrlSnprintf SimpleServer.
From Stdlib Require Import SpecFloat.

Abbreviation header_map_t := (gmap bytes bytes) (only parsing).

(** ** HttpClient *)

(** [class ResponseInfo] of the library. *)
Record ResponseInfo := mkRi {
  ri_timeout : bool; ri_code : Z; ri_latency : spec_float; ri_headers : gmap bytes bytes; ri_response : bytes }.

(** EvHttpClient: its operations, the requests (by their data pointers) that wait
    for their callback, and [finished e d ri e']: in state [e] the library calls
    back for [d] with the response [ri], after which it is in state [e']. *)
Class EvHttp (E : Type) := {
  ev_init : E -> outcome (Z * E);
  setTimeout : E -> spec_float -> E;
  makeGet : E -> bytes -> gmap bytes bytes -> nat -> outcome (Z * E);
  makePost : E -> bytes -> gmap bytes bytes -> bytes -> nat -> outcome (Z * E);
  makeDelete : E -> bytes -> gmap bytes bytes -> bytes -> nat -> outcome (Z * E);
  waiting : E -> list nat;
  finished : E -> nat -> option ResponseInfo -> E -> Prop }.

(** A request returns; if it returns 0 it waits for its callback from then on,
    otherwise it does not. *)
Definition requested `{EvHttp E} (e : E) (d : nat) (m : outcome (Z * E)) : Prop :=
  exists r e', m = Ok (r, e') /\ ((r = 0 /\ waiting e' ≡ₚ d :: waiting e) \/ (r <> 0 /\ waiting e' ≡ₚ waiting e)).

(** A callback ends exactly one wait. *)
Class EvHttpLaws (E : Type) `{EvHttp E} : Prop := {
  get_requested : forall e path hs d, requested e d (makeGet e path hs d);
  post_requested : forall e path hs body d, requested e d (makePost e path hs body d);
  delete_requested : forall e path hs body d, requested e d (makeDelete e path hs body d);
  finished_once : forall e d ri e', finished e d ri e' -> waiting e ≡ₚ d :: waiting e' }.

Record HttpClientResponse := mkResp {
  is_timeout : bool; status_code : Z; cost_time_us : Z; headers : gmap bytes bytes; response : bytes }.

(** [uint64_t(v)]; undefined outside the range. *)
Definition to_u64 (v : spec_float) : outcome Z :=
  match v with
  | S754_zero _ => Ok 0
  | S754_finite false m e =>
      let z := Z.shiftl (Zpos m) e in if z <? 2 ^ 64 then Ok z else Trap Undefined
  | S754_finite true m e => if Z.shiftl (Zpos m) e =? 0 then Ok 0 else Trap Undefined
  | _ => Trap Undefined
  end.

Section HttpClient.
Context {E : Type} `{EvHttp E}.

(** [((double)timeout_us) / 1000000]. *)
Definition seconds (timeout_us : Z) : spec_float := fdiv (of_Z timeout_us 0) (of_Z 1000000 0).

(** The constructor, after [new EvHttpClient]. *)
Definition HttpClient_new (client : E) (timeout_us : Z) : E := setTimeout client (seconds timeout_us).

Definition init (client : E) : outcome (Z * E) :=
  r ← ev_init client;
  let '(ret, client) := r in Ok (if ret =? 0 then 0 else -1, client).

Definition set_timeout (client : E) (timeout_us : Z) : E := setTimeout client (seconds timeout_us).

Definition get_headers (client : E) (path : bytes) (hs : gmap bytes bytes) (data : nat) : outcome (Z * E) :=
  r ← makeGet client path hs data;
  let '(ret, client) := r in Ok (if ret =? 0 then 0 else -1, client).
Definition get (client : E) (path : bytes) (data : nat) : outcome (Z * E) := get_headers client path ∅ data.

Definition post_headers (client : E) (path : bytes) (hs : gmap bytes bytes) (body : bytes) (data : nat) : outcome (Z * E) :=
  r ← makePost client path hs body data;
  let '(ret, client) := r in Ok (if ret =? 0 then 0 else -1, client).
Definition post (client : E) (path body : bytes) (data : nat) : outcome (Z * E) := post_headers client path ∅ body data.

Definition del_headers (client : E) (path : bytes) (hs : gmap bytes bytes) (body : bytes) (data : nat) : outcome (Z * E) :=
  r ← makeDelete client path hs body data;
  let '(ret, client) := r in Ok (if ret =? 0 then 0 else -1, client).
Definition del (client : E) (path body : bytes) (data : nat) : outcome (Z * E) := del_headers client path ∅ body data.

(** [client_callback]: what the callback given to the client is called with. *)
Definition client_callback (ri : option ResponseInfo) : outcome (option HttpClientResponse) :=
  match ri with
  | None => Ok None
  | Some ri =>
      cost ← to_u64 (fmul (fmul (ri_latency ri) (of_Z 1000 0)) (of_Z 1000 0));
      Ok (Some (mkResp (ri_timeout ri) (ri_code ri) cost (ri_headers ri) (ri_response ri)))
  end.

End HttpClient.

(** ** ProxyWorker *)

(** What the proxy uses of a connection: [priv_data] and the replies handed to
    add_reply. *)
Record pconn := mkPconn { priv_data : option nat; reply_list : list bytes }.

(** The worker: connections and backend requests by address ([br->conn]; the
    worker pointer of a request is this worker), the flags and the client. *)
Record ProxyWorker (E : Type) := mkProxy {
  conns : gmap nat pconn;
  backend_reqs : gmap nat (option nat);
  br_flag_map : gmap nat bool;
  client : E }.
Arguments mkProxy {E}.
Arguments conns {E}.
Arguments backend_reqs {E}.
Arguments br_flag_map {E}.
Arguments client {E}.

Section Proxy.
Context {E : Type} `{EvHttp E} `{Allocator}.
Implicit Type p : ProxyWorker E.

Definition set_conn p (c : nat) (x : pconn) : ProxyWorker E :=
  mkProxy (<[c := x]> (conns p)) (backend_reqs p) (br_flag_map p) (client p).

(** [conn->priv_data = v]. *)
Definition set_priv p (c : nat) (v : option nat) : outcome (ProxyWorker E) :=
  x ← the (conns p !! c); Ok (set_conn p c (mkPconn v (reply_list x))).

Definition sizeof_backend_req_t : Z := 16.

Definition backend_req_new p (conn : nat) : outcome (nat * ProxyWorker E) :=
  if alloc_ok sizeof_backend_req_t then
    let br := fresh (dom (backend_reqs p)) in
    let p := mkProxy (conns p) (<[br := Some conn]> (backend_reqs p)) (br_flag_map p) (client p) in
    p ← set_priv p conn (Some br);
    Ok (br, mkProxy (conns p) (backend_reqs p) (<[br := true]> (br_flag_map p)) (client p))
  else Trap Aborted.

Definition before_remove_conn p (conn : nat) : outcome (ProxyWorker E) :=
  x ← the (conns p !! conn);
  match priv_data x with
  | None => Ok p
  | Some br =>
      let flags := <[br := false]> (br_flag_map p) in
      _ ← the (backend_reqs p !! br);
      set_priv (mkProxy (conns p) (<[br := None]> (backend_reqs p)) flags (client p)) conn None
  end.

(** remove_conn of the framework as far as the proxy sees it. *)
Definition remove_conn p (conn : nat) : outcome (ProxyWorker E) :=
  p ← before_remove_conn p conn;
  Ok (mkProxy (delete conn (conns p)) (backend_reqs p) (br_flag_map p) (client p)).

Definition backend_req_free p (br : nat) : outcome (ProxyWorker E) :=
  conn ← the (backend_reqs p !! br);
  p ← (match conn with
       | Some c => p ← set_priv p c None; Ok (mkProxy (conns p) (<[br := None]> (backend_reqs p)) (br_flag_map p) (client p))
       | None => Ok p
       end);
  Ok (mkProxy (conns p) (delete br (backend_reqs p)) (delete br (br_flag_map p)) (client p)).

(** The message: a head and the text with its terminator. *)
Definition reply_buf (msg : bytes) : outcome bytes :=
  n ← strlen msg;
  let msg_len := s32 (Z.of_nat n + 1) in
  let buf_len := s32 (sizeof_nshead + msg_len) in
  match zmalloc_block buf_len with
  | None => Trap Aborted
  | Some buf =>
      buf ← memcpy buf 0 (replicate (Z.to_nat sizeof_nshead) 0);
      buf ← memcpy buf 24 (le_bytes 4 NSHEAD_MAGICNUM);
      buf ← memcpy buf 32 (le_bytes 4 msg_len);
      memcpy buf sizeof_nshead (take (Z.to_nat (msg_len - 1)) (cstr msg) ++ [0])
  end.

Definition reply p (conn : nat) (msg : bytes) : outcome (ProxyWorker E) :=
  buf ← reply_buf msg;
  x ← the (conns p !! conn);
  Ok (set_conn p conn (mkPconn (priv_data x) (reply_list x ++ [buf]))).

Definition process_request p (conn : nat) : outcome (Z * ProxyWorker E) :=
  r ← backend_req_new p conn;
  let '(br, p) := r in
  g ← get (client p) (str "/") br;
  let '(ret, cl) := g in
  let p := mkProxy (conns p) (backend_reqs p) (br_flag_map p) cl in
  if negb (ret =? 0) then
    p ← reply p conn (str "post error" ++ [0]);
    p ← backend_req_free p br;
    Ok (WORKER_OK, p)
  else Ok (WORKER_OK, p).

(** [br->worker] is read before anything else. *)
Definition http_client_callback p (resp : option HttpClientResponse) (br : nat) : outcome (ProxyWorker E) :=
  conn ← the (backend_reqs p !! br);
  if match br_flag_map p !! br with Some true => false | _ => true end then backend_req_free p br
  else
    match resp with
    | None => backend_req_free p br
    | Some resp =>
        match conn with
        | None => Trap NullDeref
        | Some conn =>
            p ← (if is_timeout resp then reply p conn (str "timeout" ++ [0])
                 else if negb (status_code resp =? 200) then reply p conn (str "wrong status code" ++ [0])
                 else reply p conn (str "OK" ++ [0]));
            backend_req_free p br
        end
    end.

End Proxy.

(** ** The proxy and its environment *)

Inductive pevent (E : Type) : Type :=
| POpen (c : nat)                            (** a client connects *)
| PRequest (c : nat)                         (** a complete request is read *)
| PClose (c : nat)                           (** the connection is removed *)
| PResponse (br : nat) (ri : option ResponseInfo) (cl : E).  (** the library calls back and is then in state [cl] *)
Arguments POpen {E}.
Arguments PRequest {E}.
Arguments PClose {E}.
Arguments PResponse {E}.

Section System.
Context {E : Type} `{EvHttpLaws E} `{Allocator}.
Implicit Type p : ProxyWorker E.

Definition pstep p (e : pevent E) : outcome (ProxyWorker E) :=
  match e with
  | POpen c => Ok (set_conn p c (mkPconn None []))
  | PRequest c => r ← process_request p c; Ok (snd r)
  | PClose c => remove_conn p c
  | PResponse br ri cl =>
      let p := mkProxy (conns p) (backend_reqs p) (br_flag_map p) cl in
      resp ← client_callback ri; http_client_callback p resp br
  end.

(** What the environment does: a new connection gets an unused address, events
    concern open connections, the library calls back as it does, with a latency
    that fits. *)
Definition possible p (e : pevent E) : Prop :=
  match e with
  | POpen c => conns p !! c = None
  | PRequest c | PClose c => is_Some (conns p !! c)
  | PResponse br ri cl => finished (client p) br ri cl /\ exists resp, client_callback ri = Ok resp
  end.

(** No request while another one of the connection waits for the backend. *)
Definition one_at_a_time p (e : pevent E) : Prop :=
  match e with PRequest c => forall x, conns p !! c = Some x -> priv_data x = None | _ => True end.

Record pinv p : Prop := {
  pi_nodup : NoDup (waiting (client p));
  pi_waiting br : br ∈ waiting (client p) <-> is_Some (backend_reqs p !! br);
  pi_linked br c : backend_reqs p !! br = Some (Some c) ->
    br_flag_map p !! br = Some true /\ exists x, conns p !! c = Some x /\ priv_data x = Some br;
  pi_cut br : backend_reqs p !! br = Some None -> br_flag_map p !! br = Some false;
  pi_conn c x br : conns p !! c = Some x -> priv_data x = Some br -> backend_reqs p !! br = Some (Some c) }.

(** The messages the proxy sends are nshead requests. *)
Definition proxy_message (msg : bytes) : bytes :=
  replicate 24 0 ++ le_bytes 4 NSHEAD_MAGICNUM ++ replicate 4 0 ++
  le_bytes 4 (Z.of_nat (length msg) + 1) ++ msg ++ [0].

Lemma reply_buf_ok msg :
  (forall n, alloc_ok n = true) -> no_nul msg -> Z.of_nat (length msg) < 2 ^ 31 - 37 ->
  reply_buf (msg ++ [0]) = Ok (proxy_message msg).
Proof.
  intros Ha Hn Hl. unfold reply_buf. rewrite strlen_app by done. cbn [mbind outcome_bind].
  rewrite !(s32_small (Z.of_nat (length msg) + 1)) by lia. unfold sizeof_nshead.
  rewrite (s32_small (36 + (Z.of_nat (length msg) + 1))) by lia. unfold zmalloc_block. rewrite Ha.
  rewrite (cstr_app msg []) by done.
  set (z := fresh_bytes _). assert (Hz : length z = (36 + (length msg + 1))%nat)
    by (unfold z; rewrite fresh_bytes_length; lia).
  rewrite <-(take_drop 36 z). rewrite memcpy_0 by (rewrite length_take, length_replicate; lia).
  cbn [mbind outcome_bind]. change (Z.to_nat 36) with (24 + (4 + (4 + 4)))%nat. rewrite !replicate_add, <-!app_assoc.
  rewrite memcpy_app by (by rewrite ?length_replicate, ?le_bytes_length). cbn [mbind outcome_bind].
  replace (Z.of_nat (length msg) + 1 - 1) with (Z.of_nat (length msg)) by lia. rewrite Nat2Z.id, take_ge by lia.
  rewrite (app_assoc (replicate 24 0)), (app_assoc (_ ++ _) (replicate 4 0)).
  rewrite memcpy_app by (by rewrite ?length_app, ?length_replicate, ?le_bytes_length). cbn [mbind outcome_bind].
  rewrite <-(app_nil_r (drop _ z)), (app_assoc _ (le_bytes 4 (Z.of_nat (length msg) + 1))).
  rewrite memcpy_app.
  - unfold proxy_message. rewrite app_nil_r, <-!app_assoc. done.
  - by rewrite !length_app, !length_replicate, !le_bytes_length.
  - rewrite length_drop, Hz, length_app. simpl. lia.
Qed.

Context (Halloc : forall n, alloc_ok n = true).

Lemma reply_ok p c x msg :
  no_nul msg -> Z.of_nat (length msg) < 2 ^ 31 - 37 -> conns p !! c = Some x ->
  reply p c (msg ++ [0]) = Ok (set_conn p c (mkPconn (priv_data x) (reply_list x ++ [proxy_message msg]))).
Proof. intros Hn Hl Hc. unfold reply. rewrite reply_buf_ok by done. cbn [mbind outcome_bind]. by rewrite Hc. Qed.

Lemma free_linked p br c x :
  backend_reqs p !! br = Some (Some c) -> conns p !! c = Some x ->
  backend_req_free p br = Ok (mkProxy (<[c := mkPconn None (reply_list x)]> (conns p))
    (delete br (backend_reqs p)) (delete br (br_flag_map p)) (client p)).
Proof.
  intros Hb Hc. unfold backend_req_free. rewrite Hb. cbn [mbind outcome_bind the].
  unfold set_priv. rewrite Hc. cbn [mbind outcome_bind the set_conn conns backend_reqs br_flag_map client].
  by rewrite delete_insert_eq.
Qed.

Lemma free_cut p br :
  backend_reqs p !! br = Some None ->
  backend_req_free p br = Ok (mkProxy (conns p) (delete br (backend_reqs p)) (delete br (br_flag_map p)) (client p)).
Proof. intros Hb. unfold backend_req_free. by rewrite Hb. Qed.

(** Nothing but the replies of a connection, and the client, has changed. *)
Lemma pinv_replied p c x rs cl fl :
  pinv p -> conns p !! c = Some x -> waiting cl ≡ₚ waiting (client p) ->
  (forall br, is_Some (backend_reqs p !! br) -> fl !! br = br_flag_map p !! br) ->
  pinv (mkProxy (<[c := mkPconn (priv_data x) rs]> (conns p)) (backend_reqs p) fl cl).
Proof.
  intros [I1 I2 I3 I4 I5] Hc Hw Hf. split; cbn [conns backend_reqs br_flag_map client].
  - by rewrite Hw.
  - intros br. rewrite Hw. apply I2.
  - intros br d Hd. destruct (I3 br d Hd) as (Hfl & y & Hy & Hp). rewrite Hf by eauto. split; [done|].
    destruct (decide (d = c)) as [->|Hne]; [rewrite lookup_insert_eq|rewrite lookup_insert_ne by done]; [|eauto].
    eexists. split; [done|]. cbn. congruence.
  - intros br Hb. rewrite Hf by eauto. by apply I4.
  - intros d y br. destruct (decide (d = c)) as [->|Hne];
      [rewrite lookup_insert_eq|rewrite lookup_insert_ne by done; apply I5].
    intros [= <-]. cbn. by apply I5.
Qed.

(** A request is over: its connection, if any, is free again. *)
Lemma pinv_over_linked p br c rs cl :
  pinv p -> backend_reqs p !! br = Some (Some c) -> waiting (client p) ≡ₚ br :: waiting cl ->
  pinv (mkProxy (<[c := mkPconn None rs]> (conns p)) (delete br (backend_reqs p)) (delete br (br_flag_map p)) cl).
Proof.
  intros [I1 I2 I3 I4 I5] Hb Hw. rewrite Hw in I1. apply NoDup_cons in I1 as [Hnot Hnd].
  destruct (I3 _ _ Hb) as (_ & x & Hx & Hpx).
  split; cbn [conns backend_reqs br_flag_map client]; [done|..].
  - intros a. destruct (decide (a = br)) as [->|Hne].
    + rewrite lookup_delete_eq. split; [done|]. by intros [? ?].
    + rewrite lookup_delete_ne by done. rewrite <-I2, Hw. rewrite elem_of_cons. naive_solver.
  - intros a d [Hne Ha]%lookup_delete_Some. rewrite lookup_delete_ne by done.
    destruct (I3 _ _ Ha) as (Hf & y & Hy & Hpy). split; [done|]. exists y. split; [|done].
    rewrite lookup_insert_ne; [done|]. intros ->. congruence.
  - intros a [Hne Ha]%lookup_delete_Some. rewrite lookup_delete_ne by done. by apply I4.
  - intros d y a. destruct (decide (d = c)) as [->|Hne]; [rewrite lookup_insert_eq; by intros [= <-]|].
    rewrite lookup_insert_ne by done. intros Hy Hpy. pose proof (I5 _ _ _ Hy Hpy) as Ha.
    rewrite lookup_delete_ne; [done|]. intros ->. congruence.
Qed.

Lemma pinv_over_cut p br cl :
  pinv p -> backend_reqs p !! br = Some None -> waiting (client p) ≡ₚ br :: waiting cl ->
  pinv (mkProxy (conns p) (delete br (backend_reqs p)) (delete br (br_flag_map p)) cl).
Proof.
  intros [I1 I2 I3 I4 I5] Hb Hw. rewrite Hw in I1. apply NoDup_cons in I1 as [Hnot Hnd].
  split; cbn [conns backend_reqs br_flag_map client]; [done|..].
  - intros a. destruct (decide (a = br)) as [->|Hne].
    + rewrite lookup_delete_eq. split; [done|]. by intros [? ?].
    + rewrite lookup_delete_ne by done. rewrite <-I2, Hw. rewrite elem_of_cons. naive_solver.
  - intros a d [Hne Ha]%lookup_delete_Some. rewrite lookup_delete_ne by done. by apply I3.
  - intros a [Hne Ha]%lookup_delete_Some. rewrite lookup_delete_ne by done. by apply I4.
  - intros d y a Hy Hpy. pose proof (I5 _ _ _ Hy Hpy) as Ha.
    rewrite lookup_delete_ne; [done|]. intros ->. congruence.
Qed.

(** A request goes out. *)
Lemma pinv_asked p br c x cl :
  pinv p -> backend_reqs p !! br = None -> conns p !! c = Some x -> priv_data x = None ->
  waiting cl ≡ₚ br :: waiting (client p) ->
  pinv (mkProxy (<[c := mkPconn (Some br) (reply_list x)]> (conns p)) (<[br := Some c]> (backend_reqs p))
    (<[br := true]> (br_flag_map p)) cl).
Proof.
  intros [I1 I2 I3 I4 I5] Hb Hc Hpx Hw. split; cbn [conns backend_reqs br_flag_map client].
  - rewrite Hw. apply NoDup_cons. split; [|done]. rewrite I2, Hb. by intros [? ?].
  - intros a. rewrite Hw, elem_of_cons. destruct (decide (a = br)) as [->|Hne].
    + rewrite lookup_insert_eq. naive_solver.
    + rewrite lookup_insert_ne by done. rewrite <-I2. naive_solver.
  - intros a d. destruct (decide (a = br)) as [->|Hne].
    + rewrite !lookup_insert_eq. intros [= <-]. split; [done|]. rewrite lookup_insert_eq. eauto.
    + rewrite !lookup_insert_ne by done. intros Ha. destruct (I3 _ _ Ha) as (Hf & y & Hy & Hpy).
      split; [done|]. exists y. split; [|done]. rewrite lookup_insert_ne; [done|]. intros ->. congruence.
  - intros a. destruct (decide (a = br)) as [->|Hne]; [by rewrite lookup_insert_eq|].
    rewrite !lookup_insert_ne by done. apply I4.
  - intros d y a. destruct (decide (d = c)) as [->|Hne].
    + rewrite lookup_insert_eq. intros [= <-]. cbn. intros [= ->]. by rewrite lookup_insert_eq.
    + rewrite lookup_insert_ne by done. intros Hy Hpy. pose proof (I5 _ _ _ Hy Hpy) as Ha.
      rewrite lookup_insert_ne; [done|]. intros ->. congruence.
Qed.

(** A connection without a request goes. *)
Lemma pinv_closed p c x :
  pinv p -> conns p !! c = Some x -> priv_data x = None ->
  pinv (mkProxy (delete c (conns p)) (backend_reqs p) (br_flag_map p) (client p)).
Proof.
  intros [I1 I2 I3 I4 I5] Hc Hpx. split; cbn [conns backend_reqs br_flag_map client]; [exact I1|exact I2| |exact I4|].
  - intros a d Ha. destruct (I3 _ _ Ha) as (Hf & y & Hy & Hpy). split; [done|]. exists y. split; [|done].
    rewrite lookup_delete_ne; [done|]. intros ->. congruence.
  - intros d y a [_ Hy]%lookup_delete_Some. by apply I5.
Qed.

(** A connection with a request goes: the request is cut off. *)
Lemma pinv_cut p c br :
  pinv p -> backend_reqs p !! br = Some (Some c) ->
  pinv (mkProxy (delete c (conns p)) (<[br := None]> (backend_reqs p)) (<[br := false]> (br_flag_map p)) (client p)).
Proof.
  intros [I1 I2 I3 I4 I5] Hb. destruct (I3 _ _ Hb) as (_ & x & Hx & Hpx).
  split; cbn [conns backend_reqs br_flag_map client]; [done|..].
  - intros a. rewrite I2. destruct (decide (a = br)) as [->|Hne].
    + rewrite lookup_insert_eq, Hb. naive_solver.
    + by rewrite lookup_insert_ne.
  - intros a d. destruct (decide (a = br)) as [->|Hne]; [by rewrite lookup_insert_eq|].
    rewrite !lookup_insert_ne by done. intros Ha. destruct (I3 _ _ Ha) as (Hf & y & Hy & Hpy).
    split; [done|]. exists y. split; [|done]. rewrite lookup_delete_ne; [done|]. intros ->. congruence.
  - intros a. destruct (decide (a = br)) as [->|Hne]; [by rewrite !lookup_insert_eq|].
    rewrite !lookup_insert_ne by done. apply I4.
  - intros d y a [Hne Hy]%lookup_delete_Some Hpy. pose proof (I5 _ _ _ Hy Hpy) as Ha.
    rewrite lookup_insert_ne; [done|]. intros ->. congruence.
Qed.

Lemma pinv_opened p c :
  pinv p -> conns p !! c = None -> pinv (set_conn p c (mkPconn None [])).
Proof.
  intros [I1 I2 I3 I4 I5] Hc. split; cbn [set_conn conns backend_reqs br_flag_map client]; [exact I1|exact I2| |exact I4|].
  - intros a d Ha. destruct (I3 _ _ Ha) as (Hf & y & Hy & Hpy). split; [done|]. exists y. split; [|done].
    rewrite lookup_insert_ne; [done|]. intros ->. congruence.
  - intros d y a. destruct (decide (d = c)) as [->|Hne]; [rewrite lookup_insert_eq; by intros [= <-]|].
    rewrite lookup_insert_ne by done. apply I5.
Qed.

(** ** What an event does *)

(** The text a response is answered with. *)
Definition verdict (r : HttpClientResponse) : bytes :=
  if is_timeout r then str "timeout"
  else if negb (status_code r =? 200) then str "wrong status code" else str "OK".

(** The replies of a connection after a response: one more, or, for a request
    that failed in the library (a null response), no more, since the callback
    then frees the request and sends nothing. *)
Definition replies_after (replies : list bytes) (resp : option HttpClientResponse) : list bytes :=
  match resp with
  | Some r => replies ++ [proxy_message (verdict r)]
  | None => replies
  end.

Definition effect p (e : pevent E) p' : Prop :=
  match e with
  | POpen c => conns p' = <[c := mkPconn None []]> (conns p)
  | PClose c => conns p' = delete c (conns p)
  | PRequest c => exists x, conns p !! c = Some x /\
      ((exists br, br ∈ waiting (client p') /\ backend_reqs p' !! br = Some (Some c) /\
          conns p' = <[c := mkPconn (Some br) (reply_list x)]> (conns p)) \/
       conns p' = <[c := mkPconn None (reply_list x ++ [proxy_message (str "post error")])]> (conns p))
  | PResponse br ri cl => exists resp, client_callback ri = Ok resp /\ backend_reqs p' !! br = None /\
      match backend_reqs p !! br with
      | Some (Some c) => exists x, conns p !! c = Some x /\
          conns p' = <[c := mkPconn None (replies_after (reply_list x) resp)]> (conns p)
      | _ => conns p' = conns p
      end
  end.

Lemma no_nul_texts :
  no_nul (str "timeout") /\ no_nul (str "wrong status code") /\ no_nul (str "OK") /\ no_nul (str "post error").
Proof. repeat split; repeat (constructor; [discriminate|]); constructor. Qed.

Lemma request_step p c :
  pinv p -> possible p (PRequest c) -> one_at_a_time p (PRequest c) ->
  exists p', pstep p (PRequest c) = Ok p' /\ effect p (PRequest c) p' /\ pinv p'.
Proof.
  intros Hi [x Hc] Hone. pose proof (Hone x Hc) as Hpx. clear Hone. cbn [pstep effect].
  unfold process_request, backend_req_new. rewrite Halloc. set (br := fresh (dom (backend_reqs p))).
  assert (Hb : backend_reqs p !! br = None) by (apply not_elem_of_dom, is_fresh).
  unfold set_priv. cbn [conns]. rewrite Hc. cbn [the mbind outcome_bind set_conn conns backend_reqs br_flag_map client].
  unfold get, get_headers. destruct (get_requested (client p) (str "/") ∅ br) as (r & cl & -> & Eg).
  cbn [mbind outcome_bind]. destruct Eg as [[-> Eg]|[Hr Eg]].
  - cbn [Z.eqb negb mbind outcome_bind snd]. eexists. split; [done|].
    split; [|by apply pinv_asked]. exists x. split; [done|]. left. exists br. cbn [client backend_reqs conns].
    split; [rewrite Eg; by left|]. by rewrite lookup_insert_eq.
  - rewrite (proj2 (Z.eqb_neq r 0) Hr). cbn [Z.eqb negb].
    rewrite (reply_ok _ c (mkPconn (Some br) (reply_list x)) (str "post error")); [|apply no_nul_texts|simpl; lia|by cbn; rewrite lookup_insert_eq].
    cbn [mbind outcome_bind]. erewrite free_linked; [|by cbn; rewrite lookup_insert_eq|by cbn; rewrite lookup_insert_eq].
    cbn [mbind outcome_bind snd reply_list set_conn conns backend_reqs br_flag_map client priv_data].
    rewrite !insert_insert_eq. rewrite delete_insert_id by done. eexists. split; [done|]. split; [eauto|].
    rewrite <-Hpx. apply pinv_replied; [done..|]. intros a [y Ha]. rewrite lookup_delete_ne by congruence.
    apply lookup_insert_ne. congruence.
Qed.

Lemma close_step p c :
  pinv p -> possible p (PClose c) ->
  exists p', pstep p (PClose c) = Ok p' /\ effect p (PClose c) p' /\ pinv p'.
Proof.
  intros Hi [x Hc]. cbn [pstep effect]. unfold remove_conn, before_remove_conn. rewrite Hc.
  cbn [the mbind outcome_bind]. destruct (priv_data x) as [br|] eqn:Hp.
  - pose proof (pi_conn p Hi _ _ _ Hc Hp) as Hb. rewrite Hb. unfold set_priv.
    cbn [the mbind outcome_bind conns]. rewrite Hc.
    cbn [the mbind outcome_bind set_conn conns backend_reqs br_flag_map client]. rewrite delete_insert_eq.
    eexists. split; [done|]. split; [done|]. by apply pinv_cut.
  - cbn [mbind outcome_bind]. eexists. split; [done|]. split; [done|]. by eapply pinv_closed.
Qed.

Lemma response_step p br ri cl :
  pinv p -> possible p (PResponse br ri cl) ->
  exists p', pstep p (PResponse br ri cl) = Ok p' /\ effect p (PResponse br ri cl) p' /\ pinv p'.
Proof.
  intros Hi (Hw & resp & Er). cbn [pstep effect]. rewrite Er. cbn [mbind outcome_bind].
  pose proof (finished_once _ _ _ _ Hw) as Hf.
  assert (is_Some (backend_reqs p !! br)) as [o Hb] by (apply (pi_waiting p Hi); rewrite Hf; by left).
  unfold http_client_callback. cbn [backend_reqs br_flag_map]. rewrite Hb. cbn [the mbind outcome_bind].
  destruct no_nul_texts as (T1 & T2 & T3 & _). destruct o as [c|].
  - destruct (pi_linked p Hi _ _ Hb) as (Hfl & x & Hc & Hpx). rewrite Hfl.
    set (p1 := mkProxy (conns p) (backend_reqs p) (br_flag_map p) cl).
    assert (Hrep : forall msg, no_nul msg -> Z.of_nat (length msg) < 2 ^ 31 - 37 ->
      (q ← reply p1 c (msg ++ [0]); backend_req_free q br) =
      Ok (mkProxy (<[c := mkPconn None (reply_list x ++ [proxy_message msg])]> (conns p))
        (delete br (backend_reqs p)) (delete br (br_flag_map p)) cl)).
    { intros msg Hn Hl. rewrite (reply_ok p1 c x) by done. cbn [mbind outcome_bind].
      erewrite free_linked; [|exact Hb|by cbn; rewrite lookup_insert_eq].
      cbn [set_conn conns backend_reqs br_flag_map client reply_list p1]. by rewrite insert_insert_eq. }
    exists (mkProxy (<[c := mkPconn None (replies_after (reply_list x) resp)]> (conns p))
      (delete br (backend_reqs p)) (delete br (br_flag_map p)) cl).
    split; [|split; [|by apply pinv_over_linked]].
    + destruct resp as [resp|]; unfold replies_after, verdict.
      * destruct (is_timeout resp); [by apply Hrep; [|simpl; lia]|].
        destruct (negb _); by apply Hrep; [|simpl; lia].
      * exact (free_linked p1 br c x Hb Hc).
    + exists resp. split; [done|]. cbn [backend_reqs conns]. rewrite lookup_delete_eq. split; [done|]. eauto.
  - rewrite (pi_cut p Hi _ Hb). rewrite free_cut by done. eexists. split; [done|].
    split; [|exact (pinv_over_cut p br cl Hi Hb Hf)]. exists resp. split; [done|]. cbn [backend_reqs conns client br_flag_map].
    by rewrite lookup_delete_eq.
Qed.

Lemma proxy_step p e :
  pinv p -> possible p e -> one_at_a_time p e -> exists p', pstep p e = Ok p' /\ effect p e p' /\ pinv p'.
Proof.
  intros Hi Hp Ho. destruct e.
  - eexists. split; [done|]. split; [done|]. by apply pinv_opened.
  - by apply request_step.
  - by apply close_step.
  - by apply response_step.
Qed.

(** The states reached from an idle worker by events of clients that send one
    request at a time. *)
Inductive preach (cl : E) : ProxyWorker E -> Prop :=
| preach_init : preach cl (mkProxy ∅ ∅ ∅ cl)
| preach_step p e p' : preach cl p -> possible p e -> one_at_a_time p e -> pstep p e = Ok p' -> preach cl p'.

Lemma preach_pinv cl p : waiting cl = [] -> preach cl p -> pinv p.
Proof.
  intros Hw. induction 1 as [|p e p' _ IH Hp Ho Es].
  - split; cbn; try (by intros; rewrite ?lookup_empty in * ); [rewrite Hw; constructor|].
    intros br. rewrite Hw, lookup_empty. split; [by intros ?%elem_of_nil|by intros [? ?]].
  - destruct (proxy_step p e IH Hp Ho) as (q & Eq & _ & Hq). congruence.
Qed.

End System.

(** A message of the proxy is a request in the sense of the echo server. *)
Lemma proxy_message_frame (msg : bytes) (Hb : is_bytes msg) (Hl : Z.of_nat (length msg) < 2 ^ 31) :
  frame (proxy_message msg).
Proof.
  assert (Hz : forall n, is_bytes (replicate n 0)) by (intros n; apply Forall_replicate; unfold is_byte; lia).
  assert (Hle : forall n z, is_bytes (le_bytes n z)).
  { intros n. induction n as [|n IH]; intros z; constructor; [|apply IH]. apply Z.mod_pos_bound. lia. }
  split; [|split; [|split]].
  - unfold proxy_message. unfold is_bytes. rewrite !Forall_app, Forall_singleton.
    split_and!; [apply Hz|apply Hle|apply Hz|apply Hle|done|unfold is_byte; lia].
  - unfold proxy_message. rewrite !length_app, !length_replicate, !le_bytes_length. lia.
  - reflexivity.
  - unfold field, proxy_message. rewrite !length_app, !length_replicate, !le_bytes_length.
    replace (drop 32 _) with (le_bytes 4 (Z.of_nat (length msg) + 1) ++ msg ++ [0]) by reflexivity.
    rewrite take_app_length' by (by rewrite le_bytes_length). rewrite le_val_bytes.
    rewrite Z.mod_small by lia. simpl length. lia.
Qed.

Lemma replies_after_frames replies resp : Forall frame replies -> Forall frame (replies_after replies resp).
Proof.
  intros Hr. destruct resp as [r|]; cbn [replies_after]; [|done]. apply Forall_app. split; [done|]. apply Forall_singleton.
  unfold verdict. destruct (is_timeout r); [|destruct (negb _)]; (apply proxy_message_frame; [decide_vm|simpl; lia]).
Qed.

Definition framed {E} (p : ProxyWorker E) : Prop :=
  forall c x, conns p !! c = Some x -> Forall frame (reply_list x).

Lemma framed_insert {E} (p p' : ProxyWorker E) c v rs :
  framed p -> conns p' = <[c := mkPconn v rs]> (conns p) -> Forall frame rs -> framed p'.
Proof.
  intros Hf E1 Hr d x. rewrite E1. destruct (decide (d = c)) as [->|Hd];
    [rewrite lookup_insert_eq; by intros [= <-]|rewrite lookup_insert_ne by done; apply Hf].
Qed.

Lemma effect_framed `{EvHttp E} (p p' : ProxyWorker E) e : framed p -> effect p e p' -> framed p'.
Proof.
  intros Hf He. destruct e as [c|c|c|br ri cl]; cbn [effect] in He.
  - by eapply framed_insert.
  - destruct He as (x & Hx & [(br & _ & _ & E1)|E1]); (eapply framed_insert; [done..|]); [by eapply Hf|].
    apply Forall_app. split; [by eapply Hf|]. apply Forall_singleton, proxy_message_frame; [decide_vm|simpl; lia].
  - intros d x. rewrite He. intros [_ Hx]%lookup_delete_Some. by eapply Hf.
  - destruct He as (resp & _ & _ & He). destruct (backend_reqs p !! br) as [[c|]|].
    + destruct He as (x & Hx & E1). eapply framed_insert; [done..|]. apply replies_after_frames. by eapply Hf.
    + intros d x. rewrite He. apply Hf.
    + intros d x. rewrite He. apply Hf.
Qed.

(** ** Properties *)

(** C32: the proxy settles each request once and survives connections that go
    away.  While allocations succeed, and with clients that wait for the answer
    before the next request, in any
    interleaving of connects, requests, closes and backend responses no event
    touches a freed connection or backend request; a request either waits for
    the backend or is answered with an error at once; a response adds exactly
    one reply, saying whether it was in time and had status 200, to the
    connection that asked, if it is still there, and to no other, and frees the
    backend request; a null response, by which the library reports that the
    request failed, frees the backend request and leaves the client without any
    reply, as the code has it. *)
Theorem proxy_answers `{EvHttpLaws E} `{Allocator} (cl : E) (p : ProxyWorker E) (e : pevent E)
  (Halloc : forall n, alloc_ok n = true) (Hw : waiting cl = [])
  (Hr : preach cl p) (Hp : possible p e) (Ho : one_at_a_time p e) :
  exists p', pstep p e = Ok p' /\ effect p e p'.
Proof.
  destruct (proxy_step Halloc p e (preach_pinv Halloc cl p Hw Hr) Hp Ho) as (p' & G1 & G2 & _). eauto.
Qed.

(** A library that accepts every request. *)
#[export] Instance list_client : EvHttp (list nat) := {
  ev_init e := Ok (0, e);
  setTimeout e _ := e;
  makeGet e _ _ d := Ok (0, d :: e);
  makePost e _ _ _ d := Ok (0, d :: e);
  makeDelete e _ _ _ d := Ok (0, d :: e);
  waiting e := e;
  finished e d _ e' := e ≡ₚ d :: e' }.

#[export] Instance list_client_laws : EvHttpLaws (list nat).
Proof. split; [intros; eexists _, _; by split; [|left]..|done]. Qed.

Abbreviation demo := (ProxyWorker (list nat)).
Definition demo0 : demo := mkProxy ∅ ∅ ∅ [].
Definition ok_ri : ResponseInfo := mkRi false 200 (S754_zero false) ∅ [].

Definition prun (p : demo) (es : list (pevent (list nat))) : outcome demo :=
  foldl (fun r e => p ← r; @pstep _ list_client total_alloc p e) (Ok p) es.


(** a client that sends its next request before the answer to the first
    crashes the proxy: the second request takes over priv_data, closing the
    connection cuts off only that one, and the response to the first is sent on
    the deleted connection.  When the response to the first arrives before the
    connection closes it clears priv_data, and the second request crashes the
    proxy in the same way. *)
Theorem proxy_pipelining_crashes :
  prun demo0 [POpen 1; PRequest 1; PRequest 1; PClose 1; PResponse 0 (Some ok_ri) [1%nat]] = Trap UseAfterFree /\
  prun demo0 [POpen 1; PRequest 1; PRequest 1; PResponse 0 (Some ok_ri) [1%nat]; PClose 1; PResponse 1 (Some ok_ri) []] =
    Trap UseAfterFree.
Proof. split; vm_compute; reflexivity. Qed.

(** A backend request that fails leaves the client without a reply. *)
Example proxy_null_response_silent :
  (p ← prun demo0 [POpen 1; PRequest 1; PResponse 0 None []]; Ok (conns p !! 1%nat)) = Ok (Some (mkPconn None [])).
Proof. vm_compute. reflexivity. Qed.

Definition demo_asked : demo :=
  match prun demo0 [POpen 1; PRequest 1] with Ok p => p | Trap _ => demo0 end.

Lemma demo_preach : @preach _ list_client total_alloc [] demo_asked.
Proof.
  eapply preach_step with (e := PRequest 1); [|..].
  - eapply preach_step with (e := POpen 1); [apply preach_init|reflexivity|exact I|reflexivity].
  - eexists. reflexivity.
  - intros x [= <-]. reflexivity.
  - vm_compute. reflexivity.
Qed.

Lemma proxy_answers_witness :
  exists p', @pstep _ list_client total_alloc demo_asked (PResponse 0 (Some ok_ri) []) = Ok p' /\
    effect demo_asked (PResponse 0 (Some ok_ri) []) p'.
Proof.
  apply (@proxy_answers _ list_client list_client_laws total_alloc [] demo_asked (PResponse 0 (Some ok_ri) [])).
  - reflexivity.
  - reflexivity.
  - apply demo_preach.
  - split; [vm_compute; reflexivity|eexists; vm_compute; reflexivity].
  - exact I.
Defined.

(** C37: everything the proxy queues for a client is a well-formed message.  In
    every state reached with clients that send one request at a time, each reply
    in the list of each connection is an nshead head with the magic number and
    the length of the body, followed by exactly that many bytes: a frame as the
    echo server's protocol has it. *)
Theorem proxy_replies_well_formed `{EvHttpLaws E} `{Allocator} (cl : E) (p : ProxyWorker E)
  (Halloc : forall n, alloc_ok n = true) (Hw : waiting cl = []) (Hr : preach cl p) :
  forall c x, conns p !! c = Some x -> Forall frame (reply_list x).
Proof.
  change (framed p). induction Hr as [|p e p' Hr IH Hp Ho Es]; [by intros c x; cbn; rewrite lookup_empty|].
  destruct (proxy_step Halloc p e (preach_pinv Halloc cl p Hw Hr) Hp Ho) as (q & Eq & He & _).
  rewrite Es in Eq. injection Eq as <-. by eapply effect_framed.
Qed.

Definition demo_answered : demo :=
  match @pstep _ list_client total_alloc demo_asked (PResponse 0 (Some ok_ri) []) with Ok p => p | Trap _ => demo0 end.

Lemma proxy_replies_well_formed_witness :
  Forall frame [proxy_message (str "OK")].
Proof.
  apply (@proxy_replies_well_formed _ list_client list_client_laws total_alloc [] demo_answered)
    with (c := 1%nat) (x := mkPconn None [proxy_message (str "OK")]).
  - reflexivity.
  - reflexivity.
  - eapply preach_step with (e := PResponse 0 (Some ok_ri) []); [apply demo_preach|split; [vm_compute; reflexivity|eexists; vm_compute; reflexivity]|exact I|].
    vm_compute. reflexivity.
  - vm_compute. reflexivity.
Defined.
