(* ===== verification/Lock.v ===== *)
(** * Mutex, CondVar and RWLock (src/util/lock.h)

    The classes wrap pthread objects and assert that every call returns 0; the
    holders lock in their constructor and unlock in their destructor.  The
    pthread objects are modelled as POSIX describes them; a call that blocks has
    no result ([None]) until it is tried again in a later state. *)

From S2P Require Import Prelude.

Abbreviation tid := nat.

Definition EBUSY : Z := 16.
Definition EDEADLK : Z := 35.

(** The macro ASSERT_EQUAL_0 on the return value of a call. *)
Definition ASSERT_EQUAL_0 {A} (r : Z * A) : outcome A :=
  if fst r =? 0 then Ok (snd r) else Trap AssertFailed.

(** A call that may block, or trap on a use POSIX leaves undefined. *)
Abbreviation call A := (option (outcome A)) (only parsing).

(** ** pthread_rwlock_t *)

Record rwlock_t := mkRw { readers : list tid; writer : option tid }.

Definition pthread_rwlock_init : rwlock_t := mkRw [] None.

Definition pthread_rwlock_rdlock (l : rwlock_t) (t : tid) : option (Z * rwlock_t) :=
  match writer l with
  | None => Some (0, mkRw (t :: readers l) None)
  | Some w => if decide (w = t) then Some (EDEADLK, l) else None
  end.

Definition pthread_rwlock_tryrdlock (l : rwlock_t) (t : tid) : Z * rwlock_t :=
  match writer l with
  | None => (0, mkRw (t :: readers l) None)
  | Some _ => (EBUSY, l)
  end.

Definition pthread_rwlock_wrlock (l : rwlock_t) (t : tid) : option (Z * rwlock_t) :=
  match writer l, readers l with
  | None, [] => Some (0, mkRw [] (Some t))
  | Some w, _ => if decide (w = t) then Some (EDEADLK, l) else None
  | None, _ :: _ => None
  end.

(** Removes one occurrence. *)
Fixpoint remove1 (t : tid) (l : list tid) : list tid :=
  match l with [] => [] | x :: l => if decide (x = t) then l else x :: remove1 t l end.

Definition pthread_rwlock_unlock (l : rwlock_t) (t : tid) : outcome (Z * rwlock_t) :=
  if decide (writer l = Some t) then Ok (0, mkRw (readers l) None)
  else if decide (t ∈ readers l) then Ok (0, mkRw (remove1 t (readers l)) (writer l))
  else Trap Undefined.

(** ** RWLock and its holders *)

Definition rdlock (l : rwlock_t) (t : tid) : call rwlock_t := ASSERT_EQUAL_0 <$> pthread_rwlock_rdlock l t.
Definition tryrdlock (l : rwlock_t) (t : tid) : outcome rwlock_t := ASSERT_EQUAL_0 (pthread_rwlock_tryrdlock l t).
Definition wrlock (l : rwlock_t) (t : tid) : call rwlock_t := ASSERT_EQUAL_0 <$> pthread_rwlock_wrlock l t.
Definition rw_unlock (l : rwlock_t) (t : tid) : outcome rwlock_t :=
  r ← pthread_rwlock_unlock l t; ASSERT_EQUAL_0 r.

(** RLockHolder and WLockHolder. *)
Inductive holder : Set := RLockHolder | WLockHolder.
#[export] Instance holder_eq_dec : EqDecision holder.
Proof. solve_decision. Defined.

Definition construct (k : holder) (l : rwlock_t) (t : tid) : call rwlock_t :=
  match k with RLockHolder => rdlock l t | WLockHolder => wrlock l t end.
Definition destruct_holder (l : rwlock_t) (t : tid) : outcome rwlock_t := rw_unlock l t.

(** Any number of threads, each with at most one holder at a time. *)
Record rwsys := mkRwsys { rw : rwlock_t; held : gmap tid holder }.

Inductive rwstep (s : rwsys) : rwsys -> Prop :=
| rw_enter t k l : held s !! t = None -> construct k (rw s) t = Some (Ok l) ->
    rwstep s (mkRwsys l (<[t := k]> (held s)))
| rw_leave t k l : held s !! t = Some k -> destruct_holder (rw s) t = Ok l ->
    rwstep s (mkRwsys l (delete t (held s))).

(** ** pthread_mutex_t and pthread_cond_t *)

(** A condition variable with its mutex: the owner, the threads that wait and
    those that were woken and need the mutex again. *)
Record monitor := mkMon { owner : option tid; waiters : list tid; woken : list tid }.

Definition monitor0 : monitor := mkMon None [] [].

Definition mutex_lock (m : monitor) (t : tid) : call monitor :=
  match owner m with
  | None => Some (ASSERT_EQUAL_0 (0, mkMon (Some t) (waiters m) (woken m)))
  | Some _ => None
  end.

Definition mutex_unlock (m : monitor) (t : tid) : outcome monitor :=
  if decide (owner m = Some t) then ASSERT_EQUAL_0 (0, mkMon None (waiters m) (woken m)) else Trap Undefined.

(** [wait()]: releases the mutex and blocks; [wait_return] is its return. *)
Definition cond_wait (m : monitor) (t : tid) : outcome monitor :=
  if decide (owner m = Some t) then Ok (mkMon None (waiters m ++ [t]) (woken m)) else Trap Undefined.

Definition wait_return (m : monitor) (t : tid) : call monitor :=
  match owner m with
  | None => if decide (t ∈ woken m) then Some (ASSERT_EQUAL_0 (0, mkMon (Some t) (waiters m) (remove1 t (woken m)))) else None
  | Some _ => None
  end.

(** signal wakes one waiter; POSIX leaves open which. *)
Definition cond_signal (m : monitor) (i : nat) : outcome monitor :=
  ASSERT_EQUAL_0 (0, match waiters m !! i with
                     | Some t => mkMon (owner m) (delete i (waiters m)) (woken m ++ [t])
                     | None => m
                     end).

Definition cond_broadcast (m : monitor) : outcome monitor :=
  ASSERT_EQUAL_0 (0, mkMon (owner m) [] (woken m ++ waiters m)).

(** What a thread is doing with the monitor. *)
Inductive place : Set := Inside | InWait.
Record consys := mkCon { mon : monitor; place_of : gmap tid place }.

Inductive cstep (s : consys) : consys -> Prop :=
| c_lock t m : place_of s !! t = None -> mutex_lock (mon s) t = Some (Ok m) ->
    cstep s (mkCon m (<[t := Inside]> (place_of s)))
| c_unlock t m : place_of s !! t = Some Inside -> mutex_unlock (mon s) t = Ok m ->
    cstep s (mkCon m (delete t (place_of s)))
| c_wait t m : place_of s !! t = Some Inside -> cond_wait (mon s) t = Ok m ->
    cstep s (mkCon m (<[t := InWait]> (place_of s)))
| c_return t m : place_of s !! t = Some InWait -> wait_return (mon s) t = Some (Ok m) ->
    cstep s (mkCon m (<[t := Inside]> (place_of s)))
| c_signal i m : (i = 0 \/ i < length (waiters (mon s)))%nat -> cond_signal (mon s) i = Ok m -> cstep s (mkCon m (place_of s))
| c_broadcast m : cond_broadcast (mon s) = Ok m -> cstep s (mkCon m (place_of s)).

(** ** Readers and writers *)

Lemma remove1_elem t l x : NoDup l -> x ∈ remove1 t l <-> x ∈ l /\ x <> t.
Proof.
  induction 1 as [|y l Hy _ IH]; cbn [remove1]; [split; [by intros ?%elem_of_nil|by intros [?%elem_of_nil _]]|].
  case_decide as Hd; rewrite ?elem_of_cons, ?IH; [subst|]; set_solver.
Qed.

Lemma remove1_NoDup t l : NoDup l -> NoDup (remove1 t l).
Proof.
  induction 1 as [|y l Hy Hl IH]; cbn [remove1]; [constructor|]. case_decide; [done|].
  constructor; [|done]. rewrite remove1_elem by done. naive_solver.
Qed.

Record rwinv (s : rwsys) : Prop := {
  ri_nodup : NoDup (readers (rw s));
  ri_readers t : t ∈ readers (rw s) <-> held s !! t = Some RLockHolder;
  ri_writer t : writer (rw s) = Some t <-> held s !! t = Some WLockHolder;
  ri_excl : writer (rw s) = None \/ readers (rw s) = [] }.

Lemma rw_leave_ok s t k : rwinv s -> held s !! t = Some k -> exists l, destruct_holder (rw s) t = Ok l.
Proof.
  intros [I1 I2 I3 I4] Hh. unfold destruct_holder, rw_unlock, pthread_rwlock_unlock.
  destruct k.
  - apply I2 in Hh as Hr. case_decide; cbn; [eauto|]. rewrite decide_True by done. cbn. eauto.
  - apply I3 in Hh. rewrite decide_True by done. cbn. eauto.
Qed.

Lemma rwstep_inv s s' : rwstep s s' -> rwinv s -> rwinv s'.
Proof.
  intros Hs [I1 I2 I3 I4]. destruct Hs as [t k l Hh E|t k l Hh E].
  - assert (Hne : forall x, x <> t -> <[t := k]> (held s) !! x = held s !! x) by (intros x Hx; by apply lookup_insert_ne).
    destruct k; cbn [construct] in E.
    + unfold rdlock, pthread_rwlock_rdlock in E. destruct (writer (rw s)) as [w|] eqn:Ew.
      { case_decide; cbn in E; [|done]. by injection E. }
      cbn in E. injection E as <-. split; cbn [rw held readers writer].
      * constructor; [|done]. rewrite I2, Hh. done.
      * intros x. rewrite elem_of_cons, I2. destruct (decide (x = t)) as [->|Hx];
          [rewrite lookup_insert_eq; naive_solver|rewrite Hne by done; naive_solver].
      * intros x. destruct (decide (x = t)) as [->|Hx]; [rewrite lookup_insert_eq; naive_solver|].
        rewrite Hne by done. apply I3.
      * by left.
    + unfold wrlock, pthread_rwlock_wrlock in E. destruct (writer (rw s)) as [w|] eqn:Ew.
      { case_decide; cbn in E; [|done]. by injection E. }
      destruct (readers (rw s)) as [|r rs] eqn:Er; [|done]. cbn in E. injection E as <-.
      split; cbn [rw held readers writer]; [constructor|..|by right].
      * intros x. destruct (decide (x = t)) as [->|Hx]; [rewrite lookup_insert_eq; set_solver|].
        rewrite Hne by done. apply I2.
      * intros x. destruct (decide (x = t)) as [->|Hx]; [rewrite lookup_insert_eq; naive_solver|].
        rewrite Hne, <-I3 by done. naive_solver.
  - assert (Hne : forall x, x <> t -> delete t (held s) !! x = held s !! x) by (intros x Hx; by apply lookup_delete_ne).
    unfold destruct_holder, rw_unlock, pthread_rwlock_unlock in E.
    destruct (decide (writer (rw s) = Some t)) as [Hw|Hw].
    + cbn in E. injection E as <-. apply I3 in Hw as Hk. split; cbn [rw held readers writer]; [done|..|by left].
      * intros x. destruct (decide (x = t)) as [->|Hx]; [|by rewrite Hne].
        rewrite lookup_delete_eq, I2, Hk. naive_solver.
      * intros x. destruct (decide (x = t)) as [->|Hx]; [by rewrite lookup_delete_eq|].
        rewrite Hne, <-I3, Hw by done. naive_solver.
    + destruct (decide (t ∈ readers (rw s))) as [Hr|Hr]; [|done]. cbn in E. injection E as <-.
      split; cbn [rw held readers writer].
      * by apply remove1_NoDup.
      * intros x. rewrite remove1_elem, I2 by done. destruct (decide (x = t)) as [->|Hx];
          [rewrite lookup_delete_eq; naive_solver|rewrite Hne by done; naive_solver].
      * intros x. destruct (decide (x = t)) as [->|Hx]; [rewrite lookup_delete_eq; naive_solver|].
        rewrite Hne by done. apply I3.
      * destruct I4 as [->|E]; [by left|]. rewrite E in Hr. by apply elem_of_nil in Hr.
Qed.

Definition rwsys0 : rwsys := mkRwsys pthread_rwlock_init ∅.

Lemma rw_reached_inv s : rtc rwstep rwsys0 s -> rwinv s.
Proof.
  assert (H0 : rwinv rwsys0).
  { split; cbn; [constructor|..|by left]; intros t; rewrite lookup_empty; [|naive_solver].
    split; [by intros ?%elem_of_nil|done]. }
  intros Hr. revert H0. generalize rwsys0 Hr. clear Hr. intros s0. induction 1 as [|s1 s2 s3 Hs _ IH]; [done|].
  intros H1. by eapply IH, rwstep_inv.
Qed.

(** ** The monitor *)

Record cinv (s : consys) : Prop := {
  ci_nodup : NoDup (waiters (mon s) ++ woken (mon s));
  ci_owner t : owner (mon s) = Some t <-> place_of s !! t = Some Inside;
  ci_wait t : t ∈ waiters (mon s) ++ woken (mon s) <-> place_of s !! t = Some InWait }.

Lemma remove1_perm t l : t ∈ l -> l ≡ₚ t :: remove1 t l.
Proof.
  induction l as [|x l IH]; [by intros ?%elem_of_nil|]. cbn [remove1]. case_decide; [by subst|].
  intros [->|H1]%elem_of_cons; [done|]. rewrite (IH H1) at 1. apply perm_swap.
Qed.

(** The queue of the condition variable may be rearranged. *)
Lemma cinv_wake s ws wk :
  ws ++ wk ≡ₚ waiters (mon s) ++ woken (mon s) -> cinv s -> cinv (mkCon (mkMon (owner (mon s)) ws wk) (place_of s)).
Proof.
  intros Hp [I1 I2 I3]. split; cbn [mon place_of owner waiters woken]; [by rewrite Hp|done|].
  intros t. rewrite Hp. apply I3.
Qed.

Lemma cinv_none s t : cinv s -> place_of s !! t <> Some InWait -> t ∉ waiters (mon s) ++ woken (mon s).
Proof. intros [_ _ I3] Hn Ht. by apply Hn, I3. Qed.

Lemma cstep_inv s s' : cstep s s' -> cinv s -> cinv s'.
Proof.
  intros Hs Hi. pose proof Hi as [I1 I2 I3]. destruct Hs as [t m Hp E|t m Hp E|t m Hp E|t m Hp E|i m _ E|m E].
  - unfold mutex_lock in E. destruct (owner (mon s)) eqn:Eo; [done|]. cbn in E. injection E as <-.
    split; cbn [mon place_of owner waiters woken]; [done|..]; intros x;
      (destruct (decide (x = t)) as [->|Hx]; [rewrite lookup_insert_eq|rewrite lookup_insert_ne by done]).
    + naive_solver.
    + rewrite <-I2. naive_solver.
    + rewrite I3, Hp. naive_solver.
    + apply I3.
  - unfold mutex_unlock in E. case_decide as Ho; [|done]. cbn in E. injection E as <-.
    split; cbn [mon place_of owner waiters woken]; [done|..]; intros x;
      (destruct (decide (x = t)) as [->|Hx]; [rewrite lookup_delete_eq|rewrite lookup_delete_ne by done]).
    + naive_solver.
    + rewrite <-I2, Ho. naive_solver.
    + rewrite I3, Hp. naive_solver.
    + apply I3.
  - unfold cond_wait in E. case_decide as Ho; [|done]. injection E as <-.
    assert (Hnot : t ∉ waiters (mon s) ++ woken (mon s)) by (apply cinv_none; [done|congruence]).
    assert (Hperm : (waiters (mon s) ++ [t]) ++ woken (mon s) ≡ₚ t :: waiters (mon s) ++ woken (mon s))
      by (rewrite <-app_assoc; symmetry; apply Permutation_middle).
    split; cbn [mon place_of owner waiters woken]; [rewrite Hperm; by constructor|..]; intros x;
      (destruct (decide (x = t)) as [->|Hx]; [rewrite lookup_insert_eq|rewrite lookup_insert_ne by done]).
    + naive_solver.
    + rewrite <-I2, Ho. naive_solver.
    + rewrite Hperm, elem_of_cons. naive_solver.
    + rewrite Hperm, elem_of_cons, I3. naive_solver.
  - unfold wait_return in E. destruct (owner (mon s)) eqn:Eo; [done|]. case_decide as Ht; [|done].
    cbn in E. injection E as <-. pose proof (remove1_perm _ _ Ht) as Hr.
    assert (Hperm : waiters (mon s) ++ woken (mon s) ≡ₚ t :: waiters (mon s) ++ remove1 t (woken (mon s)))
      by (rewrite Hr at 1; symmetry; apply Permutation_middle).
    rewrite Hperm in I1. apply NoDup_cons in I1 as [Hnot Hnd].
    split; cbn [mon place_of owner waiters woken]; [done|..]; intros x;
      (destruct (decide (x = t)) as [->|Hx]; [rewrite lookup_insert_eq|rewrite lookup_insert_ne by done]).
    + naive_solver.
    + rewrite <-I2. naive_solver.
    + naive_solver.
    + rewrite <-I3, Hperm, elem_of_cons. naive_solver.
  - unfold cond_signal in E. cbn in E. injection E as <-. destruct (waiters (mon s) !! i) as [t|] eqn:Et; [|by destruct s].
    apply cinv_wake; [|done]. rewrite (delete_Permutation _ _ _ Et) at 2.
    rewrite (app_assoc (delete i _)), (Permutation_app_comm (_ ++ _) [t]). done.
  - unfold cond_broadcast in E. cbn in E. injection E as <-. apply cinv_wake; [|done]. cbn [app].
    apply Permutation_app_comm.
Qed.

Definition consys0 : consys := mkCon monitor0 ∅.

Lemma con_reached_inv s : rtc cstep consys0 s -> cinv s.
Proof.
  assert (H0 : cinv consys0).
  { split; cbn; [constructor|..]; intros t; rewrite lookup_empty; [naive_solver|].
    split; [by intros ?%elem_of_nil|done]. }
  intros Hr. revert H0. generalize consys0 Hr. clear Hr. intros s0. induction 1 as [|s1 s2 s3 Hs _ IH]; [done|].
  intros H1. by eapply IH, cstep_inv.
Qed.

(** ** Properties *)

(** the read-write lock with its holders.  In any interleaving of any number
    of threads that construct and destroy reader and writer holders, each thread
    at most one at a time: a writer is alone; no assertion fails, neither on
    construction nor on destruction; and a holder is made to wait only by
    another one, a reader only by a writer. *)
Theorem rwlock_exclusion (s : rwsys) (Hs : rtc rwstep rwsys0 s) :
  (forall t t' k, held s !! t = Some WLockHolder -> held s !! t' = Some k -> t' = t) /\
  (forall t k, held s !! t = Some k -> exists l, destruct_holder (rw s) t = Ok l) /\
  (forall t k, held s !! t = None ->
     (exists l, construct k (rw s) t = Some (Ok l)) \/
     (construct k (rw s) t = None /\ exists t' k', held s !! t' = Some k' /\ (k = RLockHolder -> k' = WLockHolder))).
Proof.
  pose proof (rw_reached_inv s Hs) as Hi. pose proof Hi as [I1 I2 I3 I4]. split; [|split].
  - intros t t' k Hw Hk. apply I3 in Hw. destruct k.
    + apply I2 in Hk. destruct I4 as [E|E]; [congruence|]. rewrite E in Hk. by apply elem_of_nil in Hk.
    + apply I3 in Hk. congruence.
  - intros t k. by apply rw_leave_ok.
  - intros t k Hn. assert (Hw : writer (rw s) <> Some t) by (rewrite I3; congruence).
    destruct k; unfold construct, rdlock, wrlock, pthread_rwlock_rdlock, pthread_rwlock_wrlock;
      destruct (writer (rw s)) as [w|] eqn:Ew.
    + right. rewrite decide_False by congruence. split; [done|]. exists w, WLockHolder. split; [by apply I3|done].
    + left. eexists. reflexivity.
    + right. rewrite decide_False by congruence. split; [done|]. exists w, WLockHolder. split; [by apply I3|done].
    + destruct (readers (rw s)) as [|r rs] eqn:Er; [left; eexists; reflexivity|]. right. split; [done|].
      exists r, RLockHolder. split; [|done]. apply I2. by left.
Qed.

(** Thread 1 reads. *)
Definition demo_rw : rwsys := mkRwsys (mkRw [1%nat] None) (<[1%nat := RLockHolder]> ∅).

Lemma demo_rw_reached : rtc rwstep rwsys0 demo_rw.
Proof. eapply rtc_l; [|apply rtc_refl]. by apply (rw_enter rwsys0 1 RLockHolder). Qed.

Lemma rwlock_exclusion_witness :
  (exists l, construct RLockHolder (rw demo_rw) 2 = Some (Ok l)) \/
  (construct RLockHolder (rw demo_rw) 2 = None /\
     exists t' k', held demo_rw !! t' = Some k' /\ (RLockHolder = RLockHolder -> k' = WLockHolder)).
Proof. apply (rwlock_exclusion demo_rw demo_rw_reached). reflexivity. Defined.

(** tryrdlock does not report that the lock is taken: while a writer holds it
    the assertion on the return value fails and the process is killed. *)
Theorem tryrdlock_kills (l : rwlock_t) (t w : tid) (Hw : writer l = Some w) : tryrdlock l t = Trap AssertFailed.
Proof. unfold tryrdlock, pthread_rwlock_tryrdlock. by rewrite Hw. Qed.

Lemma tryrdlock_kills_witness : tryrdlock (mkRw [] (Some 1%nat)) 2 = Trap AssertFailed.
Proof. by apply (tryrdlock_kills (mkRw [] (Some 1%nat)) 2 1). Defined.

(** the condition variable with its mutex.  In any interleaving of threads
    that lock, unlock, wait, signal and broadcast, at most one thread is inside;
    the thread inside can unlock or wait without an assertion failing; a
    broadcast wakes every waiting thread, so that each of them can return from
    its wait with the mutex once that is free; and a signal wakes one waiting
    thread when there is one. *)
Theorem condvar_monitor (s : consys) (Hs : rtc cstep consys0 s) :
  (forall t t', place_of s !! t = Some Inside -> place_of s !! t' = Some Inside -> t' = t) /\
  (forall t, place_of s !! t = Some Inside ->
     (exists m, mutex_unlock (mon s) t = Ok m) /\ exists m, cond_wait (mon s) t = Ok m) /\
  (exists m, cond_broadcast (mon s) = Ok m /\ forall t, place_of s !! t = Some InWait ->
     owner m = None -> exists m', wait_return m t = Some (Ok m') /\ owner m' = Some t) /\
  (forall i, (i < length (waiters (mon s)))%nat -> exists t m, cond_signal (mon s) i = Ok m /\
     place_of s !! t = Some InWait /\ woken m = woken (mon s) ++ [t]).
Proof.
  pose proof (con_reached_inv s Hs) as [I1 I2 I3]. split; [|split; [|split]].
  - intros t t' Ht Ht'. apply I2 in Ht, Ht'. congruence.
  - intros t Ht. apply I2 in Ht. unfold mutex_unlock, cond_wait. rewrite !decide_True by done. cbn. eauto.
  - eexists. split; [reflexivity|]. intros t Ht Ho. apply I3 in Ht. cbn in Ho.
    assert (Hw : t ∈ woken (mon s) ++ waiters (mon s)) by (rewrite Permutation_app_comm; exact Ht).
    unfold wait_return. cbn. rewrite Ho. rewrite decide_True by done.
    eexists. split; [reflexivity|done].
  - intros i Hi. destruct (lookup_lt_is_Some_2 _ _ Hi) as [t Et]. exists t. unfold cond_signal. rewrite Et.
    eexists. split; [reflexivity|]. split; [|done]. apply I3. apply elem_of_app. left. by eapply list_elem_of_lookup_2.
Qed.

(** Thread 1 is inside, then waits. *)
Definition demo_con1 : consys := mkCon (mkMon (Some 1%nat) [] []) (<[1%nat := Inside]> (place_of consys0)).
Definition demo_con : consys := mkCon (mkMon None [1%nat] []) (<[1%nat := InWait]> (place_of demo_con1)).

Lemma demo_con_reached : rtc cstep consys0 demo_con.
Proof.
  apply rtc_l with demo_con1; [by apply (c_lock consys0 1)|].
  eapply rtc_l; [by apply (c_wait demo_con1 1 (mkMon None [1%nat] []))|apply rtc_refl].
Qed.

Lemma condvar_monitor_witness :
  exists m, cond_broadcast (mon demo_con) = Ok m /\ forall t, place_of demo_con !! t = Some InWait ->
     owner m = None -> exists m', wait_return m t = Some (Ok m') /\ owner m' = Some t.
Proof. apply (condvar_monitor demo_con demo_con_reached). Defined.
