(* ===== verification/Pack.v ===== *)
(** * Message packs (src/util/pack.cpp, src/util/pack.h)

    A [Pack] wraps a pack of the external mcpack library, which is a parameter,
    and owns the scratch buffer it opened it with.  Sub-packs are assigned over
    the caller's object with the default assignment, which copies both members.
    The wrappers turn the library's results into error codes and out
    parameters. *)

From S2P Require Import Prelude Slice.

Definition PACK_OK : Z := 0.
Definition PACK_MODE_ERROR : Z := 2700.
Definition PACK_OPEN_ERROR : Z := 2701.
Definition PACK_PUT_ERROR : Z := 2702.
Definition PACK_GET_ERROR : Z := 2703.

Definition READ : Z := 1.
Definition WRITE : Z := 2.

(** A pointer to a pack of the library, null before [open]. *)
Abbreviation mc_pack := (option nat) (only parsing).

(** The library, over its state [M].  Where it returns a pointer the result is a
    value or the error MC_PACK_PTR_ERR finds in it; elsewhere it is the returned
    int, with the value stored. *)
Class McPack (M : Type) := {
  mc_pack_open_r : M -> bytes -> Z -> (nat + Z) * M;
  mc_pack_open_w : M -> Z -> bytes -> Z -> (nat + Z) * M;
  mc_pack_finish : M -> mc_pack -> M;
  mc_pack_close : M -> mc_pack -> M;
  mc_pack_get_raw : M -> mc_pack -> bytes -> bytes + Z;
  mc_pack_get_str : M -> mc_pack -> bytes -> bytes + Z;
  mc_pack_get_int32 : M -> mc_pack -> bytes -> Z * Z;
  mc_pack_get_uint32 : M -> mc_pack -> bytes -> Z * Z;
  mc_pack_get_int64 : M -> mc_pack -> bytes -> Z * Z;
  mc_pack_get_uint64 : M -> mc_pack -> bytes -> Z * Z;
  mc_pack_get_array : M -> mc_pack -> bytes -> nat + Z;
  mc_pack_get_item_count : M -> nat -> Z;
  mc_pack_get_object_arr : M -> mc_pack -> Z -> nat + Z;
  mc_pack_get_str_arr : M -> mc_pack -> Z -> bytes + Z;
  mc_pack_put_raw : M -> mc_pack -> bytes -> bytes -> Z * M;
  mc_pack_put_str : M -> mc_pack -> bytes -> bytes -> Z * M;
  mc_pack_put_int32 : M -> mc_pack -> bytes -> Z -> Z * M;
  mc_pack_put_uint32 : M -> mc_pack -> bytes -> Z -> Z * M;
  mc_pack_put_int64 : M -> mc_pack -> bytes -> Z -> Z * M;
  mc_pack_put_uint64 : M -> mc_pack -> bytes -> Z -> Z * M;
  mc_pack_put_null : M -> mc_pack -> bytes -> Z * M;
  mc_pack_put_array : M -> mc_pack -> bytes -> (nat + Z) * M;
  mc_pack_put_object : M -> mc_pack -> option bytes -> (nat + Z) * M }.

(** [class Pack]; a scratch buffer is the Slice object and the block it points
    to, live together. *)
Record Pack := mkPack { _pack : mc_pack; _tmp_buf : option nat }.
Abbreviation buffers := (gset nat) (only parsing).

Definition new_Pack : Pack := mkPack None None.

(** The destructor. *)
Definition delete_Pack (bufs : buffers) (p : Pack) : outcome buffers :=
  match _tmp_buf p with
  | None => Ok bufs
  | Some b => if decide (b ∈ bufs) then Ok (bufs ∖ {[b]}) else Trap UseAfterFree
  end.

(** The private constructor, and [*pack = Pack(subpack)]: the target's members
    are overwritten and the temporary is destroyed. *)
Definition sub_Pack (subpack : nat) : Pack := mkPack (Some subpack) None.
Definition assign_sub (bufs : buffers) (target : Pack) (subpack : nat) : outcome (buffers * Pack) :=
  let tmp := sub_Pack subpack in
  let target := mkPack (_pack tmp) (_tmp_buf tmp) in
  bufs ← delete_Pack bufs tmp;
  Ok (bufs, target).

Section Pack.
Context {M : Type} `{McPack M} `{Allocator}.
Implicit Types (m : M) (p : Pack) (bufs : buffers).

Definition tmp_buf_len (size : Z) : Z := u64 (3 * size + 10240).

Definition open m bufs p (buf : bytes) (mode : Z) : outcome (Z * Pack * buffers * M) :=
  let len := tmp_buf_len (Z.of_nat (length buf)) in
  if negb (alloc_ok len) then Trap Aborted else
  let tmp_buf := fresh bufs in
  if (mode =? READ) || (mode =? WRITE) then
    let '(r, m) := if mode =? READ then mc_pack_open_r m buf len else mc_pack_open_w m 2 buf len in
    match r with
    | inr pack_err => Ok (PACK_OPEN_ERROR, mkPack None (_tmp_buf p), bufs, m)
    | inl pack => Ok (PACK_OK, mkPack (Some pack) (Some tmp_buf), {[tmp_buf]} ∪ bufs, m)
    end
  else Ok (PACK_MODE_ERROR, p, bufs, m).

Definition finish m p : Z * M := (PACK_OK, mc_pack_finish m (_pack p)).
Definition close m p : Z * M := (PACK_OK, mc_pack_close m (_pack p)).

(** The return code and the out parameter, [None] when it is left alone. *)
Definition got {A B} (r : A + Z) (f : A -> B) : Z * option B :=
  match r with inr _ => (PACK_GET_ERROR, None) | inl v => (PACK_OK, Some (f v)) end.
Definition got_int (r : Z * Z) : Z * option Z :=
  if fst r <? 0 then (PACK_GET_ERROR, None) else (PACK_OK, Some (snd r)).

Definition get_raw m p key : Z * option bytes := got (mc_pack_get_raw m (_pack p) key) id.
Definition get_str m p key : Z * option bytes := got (mc_pack_get_str m (_pack p) key) cstr.
Definition get_int32 m p key : Z * option Z := got_int (mc_pack_get_int32 m (_pack p) key).
Definition get_uint32 m p key : Z * option Z := got_int (mc_pack_get_uint32 m (_pack p) key).
Definition get_int64 m p key : Z * option Z := got_int (mc_pack_get_int64 m (_pack p) key).
Definition get_uint64 m p key : Z * option Z := got_int (mc_pack_get_uint64 m (_pack p) key).
Definition get_str_arr m p index : Z * option bytes := got (mc_pack_get_str_arr m (_pack p) index) cstr.

Definition put (r : Z * M) : Z * M := (if negb (fst r =? 0) then PACK_PUT_ERROR else PACK_OK, snd r).

Definition put_raw m p key (value : bytes) : Z * M := put (mc_pack_put_raw m (_pack p) key value).
(** The library reads the value up to a zero byte, whatever the slice's size. *)
Definition put_str m p key (value : bytes) : Z * M := put (mc_pack_put_str m (_pack p) key value).
Definition put_int32 m p key (value : Z) : Z * M := put (mc_pack_put_int32 m (_pack p) key value).
Definition put_uint32 m p key (value : Z) : Z * M := put (mc_pack_put_uint32 m (_pack p) key value).
Definition put_int64 m p key (value : Z) : Z * M := put (mc_pack_put_int64 m (_pack p) key value).
Definition put_uint64 m p key (value : Z) : Z * M := put (mc_pack_put_uint64 m (_pack p) key value).
Definition put_null m p key : Z * M := put (mc_pack_put_null m (_pack p) key).

(** [target] is the object the caller passes for the sub-pack. *)
Definition sub_result bufs (target : Pack) (r : nat + Z) : outcome (Z * Pack * buffers) :=
  match r with
  | inr pack_err => Ok (PACK_PUT_ERROR, target, bufs)
  | inl subpack => x ← assign_sub bufs target subpack; Ok (PACK_OK, snd x, fst x)
  end.

Definition put_array m bufs p key (target : Pack) : outcome (Z * Pack * buffers * M) :=
  let '(r, m) := mc_pack_put_array m (_pack p) key in
  x ← sub_result bufs target r; Ok (x, m).
Definition put_object m bufs p key (target : Pack) : outcome (Z * Pack * buffers * M) :=
  let '(r, m) := mc_pack_put_object m (_pack p) (Some key) in
  x ← sub_result bufs target r; Ok (x, m).
Definition put_object_to_array m bufs p (target : Pack) : outcome (Z * Pack * buffers * M) :=
  let '(r, m) := mc_pack_put_object m (_pack p) None in
  x ← sub_result bufs target r; Ok (x, m).

(** A failed get reports PACK_PUT_ERROR here. *)
Definition get_array m bufs p key (target : Pack) (arr_size : Z) : outcome (Z * Pack * buffers * Z) :=
  let r := mc_pack_get_array m (_pack p) key in
  x ← sub_result bufs target r;
  Ok (x, match r with inl subpack => u64 (mc_pack_get_item_count m subpack) | inr _ => arr_size end).
Definition get_object_arr m bufs p (index : Z) (target : Pack) : outcome (Z * Pack * buffers) :=
  sub_result bufs target (mc_pack_get_object_arr m (_pack p) index).

(** ** Who owns a scratch buffer *)

(** The Pack variables of a program, the live buffers and the library.  A
    program opens variables that hold no buffer and passes such variables for
    sub-packs; [r] is what the library answers to the call for one. *)
Record program := mkProg { vars : gmap nat Pack; bufs_of : gset nat; lib : M }.

Inductive pstep (s : program) : program -> Prop :=
| p_new v : vars s !! v = None -> pstep s (mkProg (<[v := new_Pack]> (vars s)) (bufs_of s) (lib s))
| p_open v p buf mode r p' b m : vars s !! v = Some p -> _tmp_buf p = None ->
    open (lib s) (bufs_of s) p buf mode = Ok (r, p', b, m) -> pstep s (mkProg (<[v := p']> (vars s)) b m)
| p_sub v p r x p' b m : vars s !! v = Some p -> _tmp_buf p = None ->
    sub_result (bufs_of s) p r = Ok (x, p', b) -> pstep s (mkProg (<[v := p']> (vars s)) b m)
| p_delete v p b : vars s !! v = Some p -> delete_Pack (bufs_of s) p = Ok b ->
    pstep s (mkProg (delete v (vars s)) b (lib s)).

(** Every live buffer belongs to exactly one variable. *)
Record owned (s : program) : Prop := {
  ow_live b : b ∈ bufs_of s <-> exists v p, vars s !! v = Some p /\ _tmp_buf p = Some b;
  ow_once v v' p p' b : vars s !! v = Some p -> vars s !! v' = Some p' ->
    _tmp_buf p = Some b -> _tmp_buf p' = Some b -> v' = v }.

(** A variable without a buffer is overwritten by one without, or one with a new
    buffer. *)
Lemma owned_set s v p q m :
  owned s -> (vars s !! v = None \/ exists p0, vars s !! v = Some p0 /\ _tmp_buf p0 = None) -> q = p ->
  _tmp_buf q = None -> owned (mkProg (<[v := q]> (vars s)) (bufs_of s) m).
Proof.
  intros [I1 I2] Hv -> Hq. split; cbn [vars bufs_of].
  - intros b. rewrite I1. split; intros (w & r & Hw & Hr).
    + exists w, r. split; [|done]. rewrite lookup_insert_ne; [done|]. intros ->. naive_solver.
    + exists w, r. destruct (decide (w = v)) as [->|Hne].
      * rewrite lookup_insert_eq in Hw. injection Hw as <-. congruence.
      * by rewrite lookup_insert_ne in Hw.
  - intros w w' r r' b. destruct (decide (w = v)) as [->|Hw]; destruct (decide (w' = v)) as [->|Hw'];
      rewrite ?lookup_insert_eq, ?lookup_insert_ne by done; [congruence..|]. apply I2.
Qed.

Lemma owned_open s v p b q m :
  owned s -> vars s !! v = Some p -> _tmp_buf p = None -> b ∉ bufs_of s -> _tmp_buf q = Some b ->
  owned (mkProg (<[v := q]> (vars s)) ({[b]} ∪ bufs_of s) m).
Proof.
  intros [I1 I2] Hv Hp Hb Hq. split; cbn [vars bufs_of].
  - intros a. rewrite elem_of_union, elem_of_singleton, I1. split.
    + intros [->|(w & r & Hw & Hr)]; [exists v, q; by rewrite lookup_insert_eq|].
      exists w, r. split; [|done]. rewrite lookup_insert_ne; [done|]. intros ->. congruence.
    + intros (w & r & Hw & Hr). destruct (decide (w = v)) as [->|Hne].
      * rewrite lookup_insert_eq in Hw. left. congruence.
      * rewrite lookup_insert_ne in Hw by done. eauto.
  - assert (Hno : forall w r, vars s !! w = Some r -> _tmp_buf r <> Some b) by (intros w r Hw Hr; apply Hb, I1; eauto).
    intros w w' r r' a. destruct (decide (w = v)) as [->|Hw]; destruct (decide (w' = v)) as [->|Hw'];
      rewrite ?lookup_insert_eq, ?lookup_insert_ne by done; [done|..|apply I2]; intros; simplify_eq;
      exfalso; naive_solver.
Qed.

Lemma delete_owned s v p : owned s -> vars s !! v = Some p ->
  exists b, delete_Pack (bufs_of s) p = Ok b /\ owned (mkProg (delete v (vars s)) b (lib s)).
Proof.
  intros [I1 I2] Hv. unfold delete_Pack. destruct (_tmp_buf p) as [b|] eqn:Hp.
  - rewrite decide_True by (apply I1; eauto). eexists. split; [done|]. split; cbn [vars bufs_of].
    + intros a. rewrite elem_of_difference, elem_of_singleton, I1. split.
      * intros [(w & r & Hw & Hr) Hne]. exists w, r. split; [|done]. rewrite lookup_delete_ne; [done|].
        intros ->. congruence.
      * intros (w & r & [Hne Hw]%lookup_delete_Some & Hr). split; [eauto|]. intros ->. by apply Hne, (I2 w v r p b).
    + intros w w' r r' a [_ Hw]%lookup_delete_Some [_ Hw']%lookup_delete_Some. by apply I2.
  - eexists. split; [done|]. split; cbn [vars bufs_of].
    + intros a. rewrite I1. split; intros (w & r & Hw & Hr); exists w, r.
      * split; [|done]. rewrite lookup_delete_ne; [done|]. intros ->. congruence.
      * by apply lookup_delete_Some in Hw as [_ Hw].
    + intros w w' r r' a [_ Hw]%lookup_delete_Some [_ Hw']%lookup_delete_Some. by apply I2.
Qed.

Lemma pstep_owned s s' : pstep s s' -> owned s -> owned s'.
Proof.
  intros Hs Hi. destruct Hs as [v Hv|v p buf mode r p' b m Hv Hp E|v p r x p' b m Hv Hp E|v p b Hv E].
  - by eapply owned_set; [|left| |].
  - unfold open in E. destruct (negb _); [done|]. destruct ((mode =? READ) || (mode =? WRITE)).
    + destruct (if mode =? READ then _ else _) as [[pk|e] m1]; injection E as <- <- <- <-.
      * by eapply owned_open; [..|apply is_fresh|].
      * by eapply owned_set; [|right; eauto| |].
    + injection E as <- <- <- <-. by eapply owned_set; [|right; eauto| |].
  - unfold sub_result in E. destruct r as [sp|e]; injection E as <- <- <-;
      by eapply owned_set; [|right; eauto| |].
  - destruct (delete_owned s v p Hi Hv) as (b' & E' & Ho). congruence.
Qed.

End Pack.

(** ** Properties *)

(** scratch buffers are freed exactly once.  In any program that opens Pack
    variables which hold no buffer, fetches sub-packs into such variables and
    destroys variables in any order, with any answers of the library, destroying
    a variable never frees a buffer twice, every live buffer belongs to exactly
    one variable, and when all variables are gone no buffer is left. *)
Theorem pack_buffers_owned `{McPack M} `{Allocator} (m0 : M) (s : program (M := M))
  (Hs : rtc pstep (mkProg ∅ ∅ m0) s) :
  (forall v p, vars s !! v = Some p -> exists b, delete_Pack (bufs_of s) p = Ok b) /\
  (forall b, b ∈ bufs_of s -> exists v p, vars s !! v = Some p /\ _tmp_buf p = Some b /\
     forall v' p', vars s !! v' = Some p' -> _tmp_buf p' = Some b -> v' = v) /\
  (vars s = ∅ -> bufs_of s = ∅).
Proof.
  assert (Hi : owned s).
  { assert (H1 : owned (mkProg (M := M) ∅ ∅ m0)) by (split; [intros b; split; [done|by intros (? & ? & ? & _)]|done]).
    revert H1. induction Hs as [|s1 s2 s3 Hst _ IH]; [done|]. intros H1. by eapply IH, pstep_owned. }
  split; [|split].
  - intros v p Hv. destruct (delete_owned s v p Hi Hv) as (b & E & _). eauto.
  - intros b Hb. apply (ow_live s Hi) in Hb as (v & p & Hv & Hp). exists v, p. split; [done|]. split; [done|].
    intros v' p' Hv' Hp'. by eapply (ow_once s Hi).
  - intros He. apply set_eq. intros b. rewrite (ow_live s Hi), He. split; [|done].
    by intros (v & p & Hv & _).
Qed.

(** A library that opens everything and has nothing in it. *)
Definition empty_lib : McPack nat := {|
  mc_pack_open_r m _ _ := (inl m, S m); mc_pack_open_w m _ _ _ := (inl m, S m);
  mc_pack_finish m _ := m; mc_pack_close m _ := m;
  mc_pack_get_raw _ _ _ := inr (-1); mc_pack_get_str _ _ _ := inr (-1);
  mc_pack_get_int32 _ _ _ := (-1, 0); mc_pack_get_uint32 _ _ _ := (-1, 0);
  mc_pack_get_int64 _ _ _ := (-1, 0); mc_pack_get_uint64 _ _ _ := (-1, 0);
  mc_pack_get_array _ _ _ := inr (-1); mc_pack_get_item_count _ _ := 0;
  mc_pack_get_object_arr _ _ _ := inr (-1); mc_pack_get_str_arr _ _ _ := inr (-1);
  mc_pack_put_raw m _ _ _ := (0, m); mc_pack_put_str m _ _ _ := (0, m);
  mc_pack_put_int32 m _ _ _ := (0, m); mc_pack_put_uint32 m _ _ _ := (0, m);
  mc_pack_put_int64 m _ _ _ := (0, m); mc_pack_put_uint64 m _ _ _ := (0, m);
  mc_pack_put_null m _ _ := (0, m); mc_pack_put_array m _ _ := (inl m, S m);
  mc_pack_put_object m _ _ := (inl m, S m) |}.

Abbreviation demo := (program (M := nat)).
Definition demo1 : demo := mkProg (<[7%nat := new_Pack]> ∅) ∅ 0%nat.
Definition demo2 : demo := mkProg (<[7%nat := mkPack (Some 0%nat) (Some 0%nat)]> (vars demo1)) ({[0%nat]} ∪ ∅) 1%nat.

Lemma demo_program : rtc (@pstep nat empty_lib total_alloc) (mkProg ∅ ∅ 0%nat) demo2.
Proof.
  apply rtc_l with demo1; [by apply (p_new (mkProg ∅ ∅ 0%nat) 7)|]. eapply rtc_l; [|apply rtc_refl].
  by apply (@p_open nat empty_lib total_alloc demo1 7 new_Pack [] READ 0).
Qed.

Lemma pack_buffers_owned_witness :
  exists b, delete_Pack (bufs_of demo2) (mkPack (Some 0%nat) (Some 0%nat)) = Ok b.
Proof.
  apply (@pack_buffers_owned nat empty_lib total_alloc 0%nat demo2 demo_program) with (v := 7%nat). reflexivity.
Defined.

(** Fetching a sub-pack into an opened Pack loses its buffer: it stays allocated
    after the object is gone. *)
Theorem pack_sub_leaks (bufs : gset nat) (p : Pack) (b sub : nat)
  (Hp : _tmp_buf p = Some b) (Hb : b ∈ bufs) :
  exists p' bufs', assign_sub bufs p sub = Ok (bufs', p') /\ delete_Pack bufs' p' = Ok bufs' /\ b ∈ bufs'.
Proof. eexists _, _. split; [reflexivity|]. done. Qed.
