(* ===== verification/Helpers.v ===== *)
(** * Small helpers (src/util/string.cpp, src/util/profiler.h,
      examples/demo/simple-udp-server/simple_worker.cpp)

    The formatted-string functions, which print into a local array of 128 bytes,
    the profiler, which reports a slow section once, and the handler of the UDP
    demo. *)

From S2P Require Import Prelude Utils Queue Sds Event Socket Config Worker Log.

(** ** string.cpp *)

Definition format_buf_size : Z := 128.

(** [vsnprintf(buf, sizeof(buf), msgfmt, args)] over the array as it was; [text]
    is the formatted text. *)
Definition format_buf `{Allocator} (text : bytes) : outcome bytes :=
  r ← c_snprintf (fresh_bytes (Z.to_nat format_buf_size)) 0 format_buf_size text;
  _ ← strlen (snd r);
  Ok (cstr (snd r)).

(** [None]: the format is null. *)
Definition string_format `{Allocator} (text : option bytes) : outcome bytes :=
  match text with None => Ok [] | Some text => format_buf text end.

Definition string_append `{Allocator} (s : bytes) (text : option bytes) : outcome bytes :=
  match text with None => Ok s | Some text => format_buf text end.

Lemma format_buf_ok `{Allocator} text : no_nul text -> format_buf text = Ok (take 127 text).
Proof.
  intros Hn. unfold format_buf, c_snprintf, format_buf_size. cbn [Z.eqb]. change (Z.to_nat (128 - 1)) with 127%nat.
  rewrite memcpy_front by (rewrite fresh_bytes_length, length_app, length_take; simpl length; lia).
  cbn [mbind outcome_bind snd]. rewrite <-app_assoc. cbn [app].
  assert (Ht : no_nul (take 127 text)) by (by apply Forall_take).
  rewrite strlen_app, cstr_app by done. done.
Qed.

(** string_append replaces the string by the formatted text, cut to 127
    characters, instead of appending to it. *)
Theorem string_append_replaces `{Allocator} (s text : bytes) (Hn : no_nul text) :
  string_append s (Some text) = Ok (take 127 text) /\ string_format (Some text) = Ok (take 127 text).
Proof. unfold string_append, string_format. by rewrite format_buf_ok. Qed.

Lemma string_append_replaces_witness :
  @string_append total_alloc (str "ab") (Some (str "c")) = Ok (str "c").
Proof. apply (@string_append_replaces total_alloc (str "ab") (str "c")). repeat constructor; discriminate. Defined.

(** ** Profiler *)

Record Profiler := mkProf {
  p_slow_time_us : Z; p_start : Z; p_end : Z; p_kill : bool; p_warnings : list Z }.

(** [current_time_us] of a time in seconds and microseconds. *)
Definition current_time_us (tv_sec tv_usec : Z) : Z := u64 (s64 (tv_sec * 1000000) + tv_usec).

(** [slow_time_us] is an int, kept as a uint64_t. *)
Definition new_Profiler (slow_time_us : Z) (kill : bool) (now : Z) : Profiler :=
  mkProf (u64 slow_time_us) now 0 kill [].

(** [end()], also run by the destructor; the warning is logged with the time. *)
Definition prof_end (p : Profiler) (now : Z) : outcome Profiler :=
  if p_end p =? 0 then
    let p := mkProf (p_slow_time_us p) (p_start p) now (p_kill p) (p_warnings p) in
    if p_slow_time_us p <=? u64 (p_end p - p_start p) then
      if p_kill p then Trap Aborted
      else Ok (mkProf (p_slow_time_us p) (p_start p) (p_end p) (p_kill p)
                 (p_warnings p ++ [u64 (p_end p - p_start p)]))
    else Ok p
  else Ok p.

Fixpoint prof_ends (p : Profiler) (nows : list Z) : outcome Profiler :=
  match nows with [] => Ok p | now :: nows => p ← prof_end p now; prof_ends p nows end.

Lemma prof_ends_done p nows : p_end p <> 0 -> prof_ends p nows = Ok p.
Proof.
  intros Hp. induction nows as [|now nows IH]; [done|]. cbn [prof_ends]. unfold prof_end.
  by rewrite (proj2 (Z.eqb_neq _ _)).
Qed.

(** A profiler that does not kill measures up to the first end() and warns at
    most once, exactly when the section took at least the given time; when the
    clock was set back in between, the unsigned difference makes it warn for
    every limit up to 2^63 microseconds. *)
Theorem profiler_reports_once (slow start now : Z) (nows : list Z)
  (Hslow : 0 <= slow < 2 ^ 31) (Hstart : 0 <= start < 2 ^ 62) (Hnow : 0 < now < 2 ^ 62) :
  exists p, prof_ends (new_Profiler slow false start) (now :: nows) = Ok p /\
    p_warnings p = (if start <=? now then if slow <=? now - start then [now - start] else []
                    else [now - start + 2 ^ 64]).
Proof.
  cbn [prof_ends]. unfold prof_end, new_Profiler. cbn [p_end p_slow_time_us p_start p_kill p_warnings Z.eqb].
  rewrite (u64_small slow) by lia.
  assert (Hd : u64 (now - start) = if start <=? now then now - start else now - start + 2 ^ 64).
  { destruct (Z.leb_spec start now); [by apply u64_small; lia|by apply u64_neg; lia]. }
  rewrite Hd. destruct (Z.leb_spec slow (if start <=? now then now - start else now - start + 2 ^ 64)) as [Hs|Hs];
    cbn [mbind outcome_bind]; rewrite prof_ends_done by (cbn; lia); (eexists; split; [done|]); cbn;
    destruct (Z.leb_spec start now); try lia; by decide_tests.
Qed.

Lemma profiler_reports_once_witness :
  exists p, prof_ends (new_Profiler 100 false 1000) [1150; 2000] = Ok p /\ p_warnings p = [150].
Proof. apply (profiler_reports_once 100 1000 1150 [2000]); lia. Defined.

(** ** The UDP demo *)

Section UdpDemo.
Context {K Q : Type} `{Kernel K} `{Fifo Q sptr} `{Allocator}.

(** [memcpy(buf, "hello client", 1024)] reads 1024 bytes from the literal. *)
Definition udp_process_io_buffer (w : worker K Q) (c : cptr) : outcome (Z * worker K Q) :=
  match zmalloc_block 1024 with
  | None => Trap Aborted
  | Some buf =>
      src ← read_block (str "hello client" ++ [0]) 0 1024;
      buf ← memcpy buf 0 src;
      r ← add_reply w c buf;
      Ok (WORKER_OK, snd r)
  end.

(** The handler reads past the end of the literal whenever it runs. *)
Theorem udp_demo_reads_past_literal (w : worker K Q) (c : cptr) (Ha : alloc_ok 1024 = true) :
  udp_process_io_buffer w c = Trap OutOfBounds.
Proof. unfold udp_process_io_buffer, zmalloc_block. by rewrite Ha. Qed.

End UdpDemo.
