(* ===== verification/SysInfo.v ===== *)
(** * Numbers from the system (src/util/utils.cpp, src/util/zmalloc.cpp)

    getRandomHexChars, which fills a buffer with random hexadecimal digits;
    d2string, which prints a double; and zmalloc_get_rss, which finds the
    resident set size in the text of /proc/<pid>/stat. *)

From S2P Require Import Prelude Utils UrlSnprintf Log.
From Stdlib Require Import SpecFloat.

(** ** getRandomHexChars *)

(** What the system answers: the bytes read from /dev/urandom (at most the
    number asked for), [None] when it cannot be opened; the time, the process id
    and the values of rand(). *)
Record entropy := mkEntropy {
  urandom : option bytes; tv_usec : Z; tv_sec : Z; pid : Z; rand : nat -> Z }.

Definition charset : bytes := str "0123456789abcdef".

(** [if (l >= sizeof(v)) { memcpy(x, &v, sizeof(v)); l -= ...; x += ...; }]. *)
Definition put_value (s : bytes * Z * Z) (n : nat) (v : Z) : outcome (bytes * Z * Z) :=
  let '(p, x, l) := s in
  if Z.of_nat n <=? l then
    p ← memcpy p x (le_bytes n v); Ok (p, x + Z.of_nat n, l - Z.of_nat n)
  else Ok s.

(** [for (j = 0; j < len; j++) p[j] = f(j, p[j])]. *)
Fixpoint each (n j : nat) (f : nat -> Z -> outcome Z) (p : bytes) : outcome bytes :=
  match n with
  | O => Ok p
  | S n =>
      c ← load p (Z.of_nat j);
      v ← f j c;
      p ← store p (Z.of_nat j) v;
      each n (S j) f p
  end.

Definition getRandomHexChars (e : entropy) (p : bytes) (len : nat) : outcome bytes :=
  let got := default [] (urandom e) in
  p ← memcpy p 0 got;
  p ← (if bool_decide (urandom e = None) || (length got <? len)%nat || (len =? 0)%nat then
         s ← put_value (p, 0, Z.of_nat len) 8 (tv_usec e);
         s ← put_value s 8 (tv_sec e);
         s ← put_value s 4 (pid e);
         each len 0 (fun j c => Ok (u8 (Z.lxor c (rand e j)))) (fst (fst s))
       else Ok p);
  p ← each len 0 (fun _ c => load charset (Z.land c 0x0F)) p;
  match urandom e with None => Trap NullDeref | Some _ => Ok p end.

Lemma each_spec f n j (a b c : bytes) :
  length a = j -> length b = n -> (forall i x, exists y, f i x = Ok y) ->
  exists b', each n j f (a ++ b ++ c) = Ok (a ++ b' ++ c) /\ length b' = n /\
    forall i x, b !! i = Some x -> exists y, b' !! i = Some y /\ f (j + i)%nat x = Ok y.
Proof.
  intros Ha Hb Hf. revert j a b Ha Hb. induction n as [|n IH]; intros j a b Ha Hb.
  - destruct b; [|done]. exists []. by split.
  - destruct b as [|x b]; [done|]. injection Hb as Hb. cbn [each app].
    rewrite load_app by (by rewrite Ha). cbn [mbind outcome_bind]. destruct (Hf j x) as [y Ey]. rewrite Ey.
    cbn [mbind outcome_bind]. rewrite store_app by (by rewrite Ha). cbn [mbind outcome_bind].
    destruct (IH (S j) (a ++ [y]) b) as (b' & E & Hl & Hx); [rewrite length_app, Ha; simpl; lia|done|].
    rewrite <-!app_assoc in E. cbn [app] in E. rewrite E. exists (y :: b'). split; [done|].
    split; [simpl; lia|]. intros [|i] z; cbn [lookup list_lookup].
    + intros [= <-]. exists y. by rewrite Nat.add_0_r.
    + intros Hz. destruct (Hx i z Hz) as (y' & H1 & H2). exists y'. split; [done|].
      by replace (j + S i)%nat with (S j + i)%nat by lia.
Qed.

(** The part of the buffer behind [len] bytes is not touched. *)
Definition keeps (len : nat) (p p' : bytes) : Prop :=
  length p' = length p /\ drop len p' = drop len p.

Lemma put_value_ok p x l n v len :
  0 <= x -> x + l = Z.of_nat len -> 0 <= l -> (len <= length p)%nat ->
  exists p' x' l', put_value (p, x, l) n v = Ok (p', x', l') /\ keeps len p p' /\
    0 <= x' /\ x' + l' = Z.of_nat len /\ 0 <= l'.
Proof.
  intros Hx Hxl Hl Hp. unfold put_value. destruct (Z.leb_spec (Z.of_nat n) l) as [H|H].
  - rewrite <-(Z2Nat.id x) by done. rewrite memcpy_at by (rewrite le_bytes_length; lia). cbn [mbind outcome_bind].
    eexists _, _, _. split; [done|]. split; [|lia].
    destruct (memcpy_same_tail p (Z.to_nat x) len (le_bytes n v)) as [H1 H2]; [rewrite le_bytes_length; lia..|].
    by split.
  - exists p, x, l. split; [done|]. split; [by split|lia].
Qed.

Definition hex_of (c : Z) : Z := default 0 (charset !! Z.to_nat (Z.land c 0x0F)).

Lemma charset_load c : load charset (Z.land c 0x0F) = Ok (hex_of c).
Proof.
  unfold hex_of, load. change 0x0F with (Z.ones 4). rewrite Z.land_ones by lia. change (2 ^ 4) with 16.
  pose proof (Z.mod_pos_bound c 16 ltac:(lia)) as Hb. rewrite (proj2 (Z.ltb_ge _ _)) by lia.
  destruct (lookup_lt_is_Some_2 charset (Z.to_nat (c mod 16))) as [x ->]; [|done].
  change (length charset) with 16%nat. lia.
Qed.

Lemma hex_of_digit c : hex_of c ∈ charset.
Proof.
  unfold hex_of. change 0x0F with (Z.ones 4). rewrite Z.land_ones by lia. change (2 ^ 4) with 16.
  pose proof (Z.mod_pos_bound c 16 ltac:(lia)) as Hb.
  destruct (lookup_lt_is_Some_2 charset (Z.to_nat (c mod 16))) as [x Hx]; [change (length charset) with 16%nat; lia|].
  rewrite Hx. by eapply list_elem_of_lookup_2.
Qed.

(** The last loop. *)
Lemma hex_loop p len :
  (len <= length p)%nat ->
  each len 0 (fun _ c => load charset (Z.land c 0x0F)) p = Ok (map hex_of (take len p) ++ drop len p).
Proof.
  intros Hp. rewrite <-(take_drop len p) at 1.
  destruct (each_spec (fun _ c => load charset (Z.land c 0x0F)) len 0 [] (take len p) (drop len p)) as (b & E & Hl & Hb);
    [done|rewrite length_take; lia|intros; rewrite charset_load; eauto|].
  cbn [app] in E. rewrite E. do 2 f_equal. apply list_eq_same_length with len; [by rewrite length_map, length_take; lia|done|].
  intros i x y Hi Hx Hy. rewrite list_lookup_fmap in Hy. destruct (take len p !! i) as [c|] eqn:Ec; [|done].
  cbn in Hy. injection Hy as <-. destruct (Hb i c Ec) as (z & Hz & Ez). rewrite charset_load in Ez. congruence.
Qed.

Lemma keeps_trans len p q r : keeps len p q -> keeps len q r -> keeps len p r.
Proof. intros [H1 H2] [H3 H4]. split; congruence. Qed.

(** The effort without /dev/urandom stays in the first [len] bytes. *)
Lemma fallback_ok e p len :
  (len <= length p)%nat ->
  exists q, (s ← put_value (p, 0, Z.of_nat len) 8 (tv_usec e);
             s ← put_value s 8 (tv_sec e);
             s ← put_value s 4 (pid e);
             each len 0 (fun j c => Ok (u8 (Z.lxor c (rand e j)))) (fst (fst s))) = Ok q /\ keeps len p q.
Proof.
  intros Hp. destruct (put_value_ok p 0 (Z.of_nat len) 8 (tv_usec e) len) as (p1 & x1 & l1 & -> & K1 & B1); [lia..|].
  cbn [mbind outcome_bind]. pose proof K1 as [L1 _].
  destruct (put_value_ok p1 x1 l1 8 (tv_sec e) len) as (p2 & x2 & l2 & -> & K2 & B2); [lia..|].
  cbn [mbind outcome_bind]. pose proof K2 as [L2 _].
  destruct (put_value_ok p2 x2 l2 4 (pid e) len) as (p3 & x3 & l3 & -> & K3 & _); [lia..|].
  cbn [mbind outcome_bind fst]. pose proof K3 as [L3 _].
  destruct (each_spec (fun j c => Ok (u8 (Z.lxor c (rand e j)))) len 0 [] (take len p3) (drop len p3)) as (b & E & Hl & _);
    [done|rewrite length_take; lia|eauto|].
  cbn [app] in E. rewrite take_drop in E. rewrite E. eexists. split; [done|].
  eapply keeps_trans; [exact K1|]. eapply keeps_trans; [exact K2|]. eapply keeps_trans; [exact K3|].
  split; [rewrite length_app, length_drop; lia|]. by rewrite drop_app_length'.
Qed.

Lemma random_middle e p len :
  (length (default [] (urandom e)) <= len)%nat -> (len <= length p)%nat ->
  exists q, keeps len p q /\ (length (default [] (urandom e)) = len -> urandom e <> None -> (0 < len)%nat ->
      take len q = default [] (urandom e)) /\
    getRandomHexChars e p len =
      match urandom e with None => Trap NullDeref | Some _ => Ok (map hex_of (take len q) ++ drop len q) end.
Proof.
  intros Hr Hp. set (r := default [] (urandom e)) in *.
  destruct (memcpy_same_tail p 0 len r) as [T1 T2]; [lia..|]. change 0 with (Z.of_nat 0) in *.
  unfold getRandomHexChars. fold r. change (memcpy p 0 r) with (memcpy p (Z.of_nat 0) r).
  rewrite memcpy_at by lia. cbn [mbind outcome_bind]. set (p1 := take 0 p ++ r ++ drop (0 + length r) p) in *.
  destruct (bool_decide (urandom e = None) || (length r <? len)%nat || (len =? 0)%nat) eqn:Et.
  - destruct (fallback_ok e p1 len) as (q & -> & K); [lia|]. cbn [mbind outcome_bind]. pose proof K as [Lq _].
    rewrite hex_loop by lia. cbn [mbind outcome_bind].
    exists q. split; [by eapply keeps_trans; [|exact K]|]. split; [|done].
    intros Hl Hn H0. rewrite bool_decide_eq_false_2 in Et by done. exfalso. lia.
  - cbn [mbind outcome_bind]. rewrite hex_loop by lia. cbn [mbind outcome_bind]. exists p1. split; [by split|].
    split; [|done]. intros Hl _ _. unfold p1. change (take 0 p) with (@nil Z). cbn [app]. by rewrite take_app_length' by (symmetry; exact Hl).
Qed.

(** getRandomHexChars fills the buffer with hexadecimal digits: when
    /dev/urandom can be opened the first [len] bytes become such digits, from the
    low half of the bytes read when all could be read, and nothing behind them
    changes; when it cannot be opened the function closes a null stream. *)
Theorem random_hex_chars (e : entropy) (p : bytes) (len : nat)
  (Hr : (length (default [] (urandom e)) <= len)%nat) (Hp : (len <= length p)%nat) :
  match urandom e with
  | None => getRandomHexChars e p len = Trap NullDeref
  | Some r => exists h, getRandomHexChars e p len = Ok (h ++ drop len p) /\ length h = len /\
      Forall (fun c => c ∈ charset) h /\ (length r = len -> h = map hex_of r)
  end.
Proof.
  destruct (random_middle e p len Hr Hp) as (q & [Lq Dq] & Hq & E). rewrite E. clear E.
  destruct (urandom e) as [r|]; [|done]. cbn [default from_option id] in *. exists (map hex_of (take len q)).
  rewrite Dq. split; [done|]. split; [rewrite length_map, length_take; lia|]. split.
  - apply Forall_forall. intros c (x & -> & _)%list_elem_of_fmap. apply hex_of_digit.
  - intros Hl. destruct (decide (len = 0%nat)) as [->|Hn]; [by destruct r|]. rewrite Hq; [done|done|done|lia].
Qed.

Lemma random_hex_chars_witness :
  exists h, getRandomHexChars (mkEntropy (Some [0xAB; 0x3C]) 0 0 0 (fun _ => 0)) [1; 2; 3] 2 = Ok (h ++ [3]) /\
    length h = 2%nat /\ Forall (fun c => c ∈ charset) h /\ (length [0xAB; 0x3C] = 2%nat -> h = map hex_of [0xAB; 0x3C]).
Proof. apply (random_hex_chars (mkEntropy (Some [0xAB; 0x3C]) 0 0 0 (fun _ => 0)) [1; 2; 3] 2); simpl; lia. Defined.

(** ** d2string *)

Definition is_zero (v : spec_float) : bool := match v with S754_zero _ => true | _ => false end.

(** [(long long)value] of a value in the safe range. *)
Definition truncate (v : spec_float) : Z :=
  match v with
  | S754_finite s m e =>
      let t := if 0 <=? e then Z.pos m * 2 ^ e else Z.pos m / 2 ^ (- e) in if s then - t else t
  | _ => 0
  end.

(** The buffer and the return value; [g17] is the text of ["%.17g"]. *)
Definition d2string (buf : bytes) (len : Z) (value : spec_float) (g17 : bytes) : outcome (bytes * Z) :=
  let print text := r ← c_snprintf buf 0 len text; Ok (snd r, s32 (fst r)) in
  match value with
  | S754_nan => print (str "nan")
  | S754_infinity true => print (str "-inf")
  | S754_infinity false => print (str "inf")
  | S754_zero true => print (str "-0")
  | S754_zero false => print (str "0")
  | S754_finite _ _ _ =>
      let min := of_Z (-4503599627370495) 0 in
      let max := of_Z 4503599627370496 0 in
      if SFltb min value && SFltb value max && SFeqb value (of_Z (truncate value) 0)
      then ll2string buf len (truncate value)
      else print g17
  end.

Definition d2text (v : spec_float) (g17 : bytes) : outcome bytes :=
  r ← d2string (replicate 32 170) 32 v g17; Ok (cstr (fst r)).

Example d2string_runs :
  (d2text S754_nan [], d2text (S754_infinity true) [], d2text (S754_zero true) [], d2text (of_Z 3 0) [],
   d2text (of_Z (-12345) 0) [], d2text (of_Z 5 (-1)) (str "2.5"), d2text (of_Z (2 ^ 52) 0) (str "4503599627370496")) =
  (Ok (str "nan"), Ok (str "-inf"), Ok (str "-0"), Ok (str "3"), Ok (str "-12345"), Ok (str "2.5"),
   Ok (str "4503599627370496")).
Proof. vm_compute. reflexivity. Qed.

(** ** zmalloc_get_rss *)

(** [strchr(m, c)] for a character other than zero; running off the block
    traps. *)
Fixpoint strchr (m : bytes) (c : Z) : outcome (option nat) :=
  match m with
  | [] => Trap OutOfBounds
  | x :: m =>
      if x =? c then Ok (Some O)
      else if x =? 0 then Ok None
      else r ← strchr m c; Ok (S <$> (r : option nat))
  end.

(** [while (p && count--) { p = strchr(p, ' '); if (p) p++; }]. *)
Fixpoint skip_fields (count : nat) (p : option bytes) : outcome (option bytes) :=
  match count, p with
  | O, _ | _, None => Ok p
  | S count, Some p =>
      r ← strchr p 32;
      skip_fields count (match r with Some n => Some (drop (S n) p) | None => None end)
  end.

Definition rss_buf_size : nat := 4096.

(** [file]: what read gives, [None] when the file cannot be opened. *)
Definition zmalloc_get_rss `{Allocator} (page : Z) (file : option bytes) : outcome Z :=
  match file with
  | None | Some [] => Ok 0
  | Some data =>
      let buf := data ++ drop (length data) (fresh_bytes rss_buf_size) in
      p ← skip_fields 23 (Some buf);
      match p with
      | None => Ok 0
      | Some p =>
          x ← strchr p 32;
          match x with
          | None => Ok 0
          | Some n => Ok (u64 (u64 (strtoll (take n p)) * page))
          end
      end
  end.

Definition field_ok (f : bytes) : Prop := Forall (fun c => c <> 32 /\ c <> 0) f.

Lemma strchr_field f rest : field_ok f -> strchr (f ++ 32 :: rest) 32 = Ok (Some (length f)).
Proof.
  induction 1 as [|c f [H1 H2] _ IH]; [done|]. cbn [app strchr length].
  rewrite (proj2 (Z.eqb_neq c 32)), (proj2 (Z.eqb_neq c 0)) by done. by rewrite IH.
Qed.

Lemma skip_fields_ok fs rest :
  Forall field_ok fs -> skip_fields (length fs) (Some ((fs ≫= fun f => f ++ [32]) ++ rest)) = Ok (Some rest).
Proof.
  induction 1 as [|f fs Hf _ IH]; [done|]. cbn [length mbind list_bind skip_fields].
  rewrite <-!app_assoc. cbn [app]. rewrite strchr_field by done. cbn [mbind outcome_bind].
  rewrite <-IH. f_equal. f_equal. change (f ++ 32 :: ?r) with (f ++ [32] ++ r).
  rewrite app_assoc. apply drop_app_length'. rewrite length_app. simpl. lia.
Qed.

Lemma digits_field ds : Forall (fun c => isdigit c = true) ds -> field_ok ds.
Proof. intros H. eapply Forall_impl; [exact H|]. intros c Hc%isdigit_spec. lia. Qed.

(** zmalloc_get_rss reads the 24th field: when 23 fields without blanks, each
    followed by a blank, and a decimal number with a blank behind it are read,
    it returns that number times the page size, whatever the buffer held before
    and whatever follows. *)
Theorem rss_is_field_24 `{Allocator} (page : Z) (fs : list bytes) (ds rest : bytes)
  (Hn : length fs = 23%nat) (Hf : Forall field_ok fs) (Hd : Forall (fun c => isdigit c = true) ds)
  (Hv : dec_val ds <= LLONG_MAX) :
  zmalloc_get_rss page (Some ((fs ≫= fun f => f ++ [32]) ++ ds ++ 32 :: rest)) = Ok (u64 (dec_val ds * page)).
Proof.
  unfold zmalloc_get_rss. set (data := (_ ++ _)).
  destruct data as [|c data'] eqn:Ed; [by destruct fs as [|[] ?]|]. rewrite <-Ed. unfold data. clear Ed data'.
  rewrite <-!app_assoc, <-Hn. cbn [app]. rewrite skip_fields_ok by done. cbn [mbind outcome_bind].
  rewrite strchr_field by (by apply digits_field). cbn [mbind outcome_bind]. rewrite take_app_length.
  rewrite strtoll_digits by done. unfold uwrap. by rewrite Z.mul_mod_idemp_l.
Qed.

Lemma rss_is_field_24_witness :
  @zmalloc_get_rss total_alloc 4096 (Some ((replicate 23 (str "7") ≫= fun f => f ++ [32]) ++ str "25" ++ 32 :: str "1")) =
    Ok (u64 (dec_val (str "25") * 4096)).
Proof.
  apply (@rss_is_field_24 total_alloc 4096 (replicate 23 (str "7")) (str "25") (str "1")).
  - reflexivity.
  - apply Forall_replicate. repeat constructor; discriminate.
  - repeat constructor.
  - by vm_compute.
Defined.

(** The second field is the name of the program in parentheses, which may
    contain a blank: then the field before is taken for the resident set size. *)
Theorem rss_name_with_blank `{Allocator} (page : Z) (fs : list bytes) (ds rest : bytes)
  (Hn : length fs = 20%nat) (Hf : Forall field_ok fs) (Hd : Forall (fun c => isdigit c = true) ds)
  (Hv : dec_val ds <= LLONG_MAX) :
  zmalloc_get_rss page (Some (str "7 (my prog) " ++ (fs ≫= fun f => f ++ [32]) ++ ds ++ 32 :: rest)) =
    Ok (u64 (dec_val ds * page)).
Proof.
  pose proof (rss_is_field_24 page (str "7" :: str "(my" :: str "prog)" :: fs) ds rest) as H1.
  apply H1; [by rewrite <-Hn| |done|done].
  repeat (constructor; [repeat constructor; discriminate|]). done.
Qed.
