(* ===== verification/EvHeap.v ===== *)
(** * The timer heap of libev (deps/libev-4.11/ev.c)

    The timers of an event loop are kept in a 4-ary heap of (deadline, watcher)
    pairs, the array [timers] whose first element is at index 3.  The heap
    functions move the pairs and store in each watcher, as [active], the index
    of its pair, so that a timer is found again without a search.  This file
    holds the watchers, the heap functions, and the proof that they restore the
    heap order, keep the stored indices right and keep the set of pairs.

    Time stamps are doubles.  The heap only compares and moves them: they enter
    as a type with the operations the code applies, of which the order is
    assumed total and transitive and the sum monotone, as they are on doubles
    other than NaN. *)

From S2P Require Import Prelude.

(** ** Time stamps *)

(** [ev_tstamp]: its sum, difference, zero and [<=]. *)
Class Tstamp (T : Type) := {
  tadd : T -> T -> T;
  tsub : T -> T -> T;
  tzero : T;
  tle : T -> T -> bool }.

(** The order of the doubles that are not NaN. *)
Class TstampLaws (T : Type) `{Tstamp T} : Prop := {
  tle_trans : forall a b c, tle a b = true -> tle b c = true -> tle a c = true;
  tle_total : forall a b, tle a b = true \/ tle b a = true;
  tadd_mono : forall a b c, tle a b = true -> tle (tadd a c) (tadd b c) = true }.

Definition tlt {T} `{Tstamp T} (a b : T) : bool := negb (tle b a).
(** [if (x)] on a time stamp. *)
Definition tnonzero {T} `{Tstamp T} (a : T) : bool := negb (tle a tzero && tle tzero a).

(** Ticks of a clock as integers. *)
#[export] Instance Z_tstamp : Tstamp Z := {| tadd := Z.add; tsub := Z.sub; tzero := 0; tle := Z.leb |}.
#[export] Instance Z_tstamp_laws : TstampLaws Z.
Proof. split; cbn; lia. Qed.

Section Order.
Context {T : Type} `{TL : TstampLaws T}.

Lemma tle_refl a : tle a a = true.
Proof. by destruct (tle_total a a). Qed.

Lemma tlt_le a b : tlt a b = true -> tle a b = true.
Proof. unfold tlt. destruct (tle_total a b) as [->| ->]; done. Qed.

Lemma tlt_ge a b : tlt a b = false -> tle b a = true.
Proof. unfold tlt. by destruct (tle b a). Qed.

Lemma tle_not_lt a b : tle b a = true -> tlt a b = false.
Proof. unfold tlt. by intros ->. Qed.

Lemma tle_lt_trans a b c : tle a b = true -> tlt b c = true -> tlt a c = true.
Proof.
  unfold tlt. intros Hab Hbc. destruct (tle c a) eqn:Hca; [|done].
  by rewrite (tle_trans _ _ _ Hca Hab) in Hbc.
Qed.
End Order.

(** ** Watchers and heap elements *)

(** The part of a watcher that depends on its type: [struct ev_io],
    [struct ev_timer].  The fields shared by all watchers are those of
    [EV_WATCHER]. *)
Inductive watcher_kind (T : Type) :=
| EvIo (fd events : Z)
| EvTimer (at_ repeat : T).
Arguments EvIo {T}.
Arguments EvTimer {T}.

Record watcher (T : Type) := mkW {
  active : Z;
  pending : Z;
  priority : Z;
  kind : watcher_kind T }.
Arguments mkW {T}.
Arguments active {T}.
Arguments pending {T}.
Arguments priority {T}.
Arguments kind {T}.

Record ANHE (T : Type) := mkANHE { ANHE_at : T; ANHE_w : nat }.
Arguments mkANHE {T}.
Arguments ANHE_at {T}.
Arguments ANHE_w {T}.

Definition set_active {T} (x : watcher T) (k : Z) : watcher T :=
  mkW k (pending x) (priority x) (kind x).

Definition DHEAP : Z := 4.
Definition HEAP0 : Z := DHEAP - 1.
Definition HPARENT (k : Z) : Z := Z.quot (k - HEAP0 - 1) DHEAP + HEAP0.
Definition UPHEAP_DONE (p k : Z) : bool := p =? k.

Section Heap.
Context {T : Type} `{TS : Tstamp T}.

(** The heap array, by index, and the watchers, by address. *)
Local Abbreviation harray := (gmap Z (ANHE T)).
Local Abbreviation wstore := (gmap nat (watcher T)).

(** [heap [i]], of an element that was written. *)
Definition hget (heap : harray) (i : Z) : outcome (ANHE T) :=
  match heap !! i with Some he => Ok he | None => Trap OutOfBounds end.

(** [ev_active (w) = k]. *)
Definition ev_set_active (ws : wstore) (w : nat) (k : Z) : outcome wstore :=
  match ws !! w with
  | Some x => Ok (<[w := set_active x k]> ws)
  | None => Trap UseAfterFree
  end.

(** [if (ANHE_at (pos [d]) < minat) minpos = pos + d, minat = ANHE_at (...)]. *)
Definition pick_child (heap : harray) (pos d : Z) (m : Z * T) : outcome (Z * T) :=
  he ← hget heap (pos + d);
  Ok (if tlt (ANHE_at he) (snd m) then (pos + d, ANHE_at he) else m).

(** The smallest child: the fast path where all four exist, the slow path that
    tests each against the end, none. *)
Definition min_child (heap : harray) (E pos : Z) : outcome (option (Z * T)) :=
  if pos + DHEAP - 1 <? E then
    he ← hget heap (pos + 0);
    m ← pick_child heap pos 1 (pos + 0, ANHE_at he);
    m ← pick_child heap pos 2 m;
    m ← pick_child heap pos 3 m;
    Ok (Some m)
  else if pos <? E then
    he ← hget heap (pos + 0);
    m ← (if pos + 1 <? E then pick_child heap pos 1 (pos + 0, ANHE_at he)
         else Ok (pos + 0, ANHE_at he));
    m ← (if pos + 2 <? E then pick_child heap pos 2 m else Ok m);
    m ← (if pos + 3 <? E then pick_child heap pos 3 m else Ok m);
    Ok (Some m)
  else Ok None.

(** [heap [k] = he; ev_active (ANHE_w (he)) = k]. *)
Definition place (hw : harray * wstore) (k : Z) (he : ANHE T) : outcome (harray * wstore) :=
  ws ← ev_set_active (snd hw) (ANHE_w he) k;
  Ok (<[k := he]> (fst hw), ws).

Fixpoint downheap_loop (fuel : nat) (hw : harray * wstore) (E k : Z) (he : ANHE T) :
    outcome (harray * wstore) :=
  match fuel with
  | O => Trap OutOfFuel
  | S fuel =>
      m ← min_child (fst hw) E (DHEAP * (k - HEAP0) + HEAP0 + 1);
      match m with
      | None => place hw k he
      | Some (minpos, minat) =>
          if tle (ANHE_at he) minat then place hw k he else
          c ← hget (fst hw) minpos;
          hw ← place hw k c;
          downheap_loop fuel hw E minpos he
      end
  end.

(** Away from the root: the index grows with every round, within the heap. *)
Definition downheap (hw : harray * wstore) (N k : Z) : outcome (harray * wstore) :=
  he ← hget (fst hw) k;
  downheap_loop (S (Z.to_nat N)) hw (N + HEAP0) k he.

Fixpoint upheap_loop (fuel : nat) (hw : harray * wstore) (k : Z) (he : ANHE T) :
    outcome (harray * wstore) :=
  match fuel with
  | O => Trap OutOfFuel
  | S fuel =>
      let p := HPARENT k in
      if UPHEAP_DONE p k then place hw k he else
      hp ← hget (fst hw) p;
      if tle (ANHE_at hp) (ANHE_at he) then place hw k he else
      hw ← place hw k hp;
      upheap_loop fuel hw p he
  end.

(** Towards the root: the index shrinks with every round. *)
Definition upheap (hw : harray * wstore) (k : Z) : outcome (harray * wstore) :=
  he ← hget (fst hw) k;
  upheap_loop (S (Z.to_nat k)) hw k he.

Definition adjustheap (hw : harray * wstore) (N k : Z) : outcome (harray * wstore) :=
  he ← hget (fst hw) k;
  if HEAP0 <? k then
    hp ← hget (fst hw) (HPARENT k);
    if tle (ANHE_at he) (ANHE_at hp) then upheap hw k else downheap hw N k
  else downheap hw N k.

Fixpoint reheap_loop (n : nat) (hw : harray * wstore) (i : Z) : outcome (harray * wstore) :=
  match n with
  | O => Ok hw
  | S n => hw ← upheap hw (i + HEAP0); reheap_loop n hw (i + 1)
  end.

Definition reheap (hw : harray * wstore) (N : Z) : outcome (harray * wstore) :=
  reheap_loop (Z.to_nat N) hw 0.

(** ** What the heap promises *)

Definition in_heap (N i : Z) : Prop := HEAP0 <= i < N + HEAP0.

(** The elements of a heap of [N]. *)
Definition has (h : harray) (N : Z) (e : ANHE T) : Prop := exists i, in_heap N i /\ h !! i = Some e.

(** Every slot of the heap is written, and no two with the same watcher. *)
Record slots (h : harray) (N : Z) : Prop := mkSlots {
  slots_full : forall i, in_heap N i -> is_Some (h !! i);
  slots_inj : forall i j a b, in_heap N i -> in_heap N j -> h !! i = Some a -> h !! j = Some b ->
    ANHE_w a = ANHE_w b -> i = j }.

(** The element at [i] is not later than the one at [j]. *)
Definition hle (h : harray) (i j : Z) : Prop :=
  forall a b, h !! i = Some a -> h !! j = Some b -> tle (ANHE_at a) (ANHE_at b) = true.

(** The heap condition of [verify_heap]. *)
Definition heap_ord (h : harray) (N : Z) : Prop :=
  forall i, HEAP0 < i < N + HEAP0 -> hle h (HPARENT i) i.

(** The heap condition with the element at [k] out of place: below it, above
    it, or both; its parent is still not later than its children. *)
Definition skip_ok (h : harray) (N k : Z) : Prop :=
  forall i, HEAP0 < i < N + HEAP0 -> HPARENT i = k -> HEAP0 < k -> hle h (HPARENT k) i.
Definition down_ord (h : harray) (N k : Z) : Prop :=
  (forall i, HEAP0 < i < N + HEAP0 -> HPARENT i <> k -> hle h (HPARENT i) i) /\ skip_ok h N k.
Definition up_ord (h : harray) (N k : Z) : Prop :=
  (forall i, HEAP0 < i < N + HEAP0 -> i <> k -> hle h (HPARENT i) i) /\ skip_ok h N k.
Definition around_ord (h : harray) (N k : Z) : Prop :=
  (forall i, HEAP0 < i < N + HEAP0 -> i <> k -> HPARENT i <> k -> hle h (HPARENT i) i) /\
  skip_ok h N k.

(** The watcher of every element but the one at [k] knows its index. *)
Definition indexed_but (P : Z -> Prop) (h : harray) (ws : wstore) (N : Z) : Prop :=
  forall i e, in_heap N i -> h !! i = Some e ->
    exists x, ws !! ANHE_w e = Some x /\ (P i -> active x = i).

(** The active-index condition of [verify_heap]. *)
Definition indexed (h : harray) (ws : wstore) (N : Z) : Prop := indexed_but (fun _ => True) h ws N.

(** What the heap functions leave alone: the elements, as a set, the array
    outside the heap, and everything but [active] of the heap's watchers. *)
Record sifted (N : Z) (hw hw' : harray * wstore) : Prop := mkSifted {
  sift_has : forall e, has (fst hw') N e <-> has (fst hw) N e;
  sift_out : forall i, ~ in_heap N i -> fst hw' !! i = fst hw !! i;
  sift_ws : forall w, exists f, snd hw' !! w = (fun x => set_active x (f x)) <$> snd hw !! w;
  sift_frame : forall w, (exists e, has (fst hw) N e /\ ANHE_w e = w) \/
    snd hw' !! w = snd hw !! w }.

(** ** One move of an element *)

Lemma in_heap_dec N i : {in_heap N i} + {~ in_heap N i}.
Proof. unfold in_heap. destruct (decide (HEAP0 <= i)), (decide (i < N + HEAP0)); [left|right..]; lia. Qed.

Lemma hget_Some (h : harray) i e : h !! i = Some e -> hget h i = Ok e.
Proof. unfold hget. by intros ->. Qed.

Lemma set_active_id (x : watcher T) : set_active x (active x) = x.
Proof. by destruct x. Qed.

Lemma sifted_refl N hw : sifted N hw hw.
Proof.
  split; [done|done| |by right]. intros w. exists active. destruct (snd hw !! w) as [x|]; [|done].
  cbn. by rewrite set_active_id.
Qed.

Lemma sifted_trans N a b c : sifted N a b -> sifted N b c -> sifted N a c.
Proof.
  intros [H1 O1 W1 F1] [H2 O2 W2 F2]. split.
  - intros e. by rewrite H2.
  - intros i Hi. by rewrite O2, O1.
  - intros w. destruct (W1 w) as [f E1], (W2 w) as [g E2].
    exists (fun x => g (set_active x (f x))). rewrite E2, E1. by destruct (snd a !! w).
  - intros w. destruct (F1 w) as [|E1]; [by left|].
    destruct (F2 w) as [(e & He%H1 & Hew)|E2]; [left; eauto|right; congruence].
Qed.

(** The heap as it is meant while the element [he], taken from [k], is in
    flight: it stands at [k], and its watcher's index is not yet stored. *)
Definition hole (h : harray) (ws : wstore) (N k : Z) (he : ANHE T) : Prop :=
  slots (<[k := he]> h) N /\ indexed_but (fun i => i <> k) (<[k := he]> h) ws N.

Lemma sift_set_active h (ws : wstore) h' N (w : nat) x k :
  (exists e, has h N e /\ ANHE_w e = w) -> ws !! w = Some x ->
  (forall e, has h' N e <-> has h N e) -> (forall i, ~ in_heap N i -> h' !! i = h !! i) ->
  sifted N (h, ws) (h', <[w := set_active x k]> ws).
Proof.
  intros (e & He & Hew) Hx Hh Ho. split; cbn [fst snd]; [done|done| |].
  - intros v. destruct (decide (v = w)) as [->|Hv].
    + exists (fun _ => k). by rewrite lookup_insert_eq, Hx.
    + exists active. rewrite lookup_insert_ne by done. destruct (ws !! v) as [y|]; [|done].
      cbn. by rewrite set_active_id.
  - intros v. destruct (decide (w = v)) as [<-|Hv]; [left; eauto|right]. by rewrite lookup_insert_ne.
Qed.

(** Storing the element in flight ends the sift. *)
Lemma place_last h ws N k he :
  in_heap N k -> hole h ws N k he ->
  exists ws', place (h, ws) k he = Ok (<[k := he]> h, ws') /\
    indexed (<[k := he]> h) ws' N /\ sifted N (<[k := he]> h, ws) (<[k := he]> h, ws').
Proof.
  intros Hk [HS HI]. destruct (HI k he Hk) as (x & Hx & _); [apply lookup_insert_eq|].
  exists (<[ANHE_w he := set_active x k]> ws). split_and!.
  - unfold place, ev_set_active. cbn [fst snd]. by rewrite Hx.
  - intros i e Hi He. destruct (decide (ANHE_w e = ANHE_w he)) as [Hw|Hw].
    + pose proof (slots_inj _ _ HS i k e he Hi Hk He (lookup_insert_eq _ _ _) Hw) as ->.
      exists (set_active x k). by rewrite Hw, lookup_insert_eq.
    + destruct (HI i e Hi He) as (y & Hy & Ha). exists y. rewrite lookup_insert_ne by done.
      split; [done|]. intros _. apply Ha. intros ->. rewrite lookup_insert_eq in He. by simplify_eq.
  - apply sift_set_active; [|done|done|done]. exists he. split; [|done].
    exists k. split; [done|apply lookup_insert_eq].
Qed.

(** Moving the element at [c] into the hole at [k] moves the hole to [c]. *)
Lemma place_move h ws N k c he e :
  in_heap N k -> in_heap N c -> c <> k -> h !! c = Some e -> hole h ws N k he ->
  exists ws', place (h, ws) k e = Ok (<[k := e]> h, ws') /\
    hole (<[k := e]> h) ws' N c he /\
    sifted N (<[k := he]> h, ws) (<[c := he]> (<[k := e]> h), ws').
Proof.
  intros Hk Hc Hck He [HS HI].
  assert (HcL : <[k := he]> h !! c = Some e) by by rewrite lookup_insert_ne.
  destruct (HI c e Hc HcL) as (x & Hx & Hax).
  assert (Hsw : forall i f, <[c := he]> (<[k := e]> h) !! i = Some f ->
    exists j, <[k := he]> h !! j = Some f /\ (in_heap N i -> in_heap N j) /\
      (i = c /\ j = k \/ i = k /\ j = c \/ i <> c /\ i <> k /\ j = i)).
  { intros i f. destruct (decide (i = c)) as [->|Hic].
    - rewrite lookup_insert_eq. intros [= <-]. exists k. rewrite lookup_insert_eq. eauto.
    - rewrite lookup_insert_ne by done. destruct (decide (i = k)) as [->|Hik].
      + rewrite lookup_insert_eq. intros [= <-]. exists c. eauto 6.
      + rewrite lookup_insert_ne by done. intros Hf. exists i. rewrite lookup_insert_ne by done.
        eauto 8. }
  assert (Hhas : forall f, has (<[c := he]> (<[k := e]> h)) N f <-> has (<[k := he]> h) N f).
  { intros f. split; intros (i & Hi & Hf).
    - destruct (Hsw i f Hf) as (j & Hj & Hij & _). exists j. auto.
    - destruct (decide (i = k)) as [->|Hik].
      + rewrite lookup_insert_eq in Hf. simplify_eq. exists c. by rewrite lookup_insert_eq.
      + rewrite lookup_insert_ne in Hf by done. destruct (decide (i = c)) as [->|Hic].
        * simplify_eq. exists k. split; [done|]. rewrite lookup_insert_ne by done.
          apply lookup_insert_eq.
        * exists i. split; [done|]. by rewrite !lookup_insert_ne. }
  exists (<[ANHE_w e := set_active x k]> ws). split_and!.
  - unfold place, ev_set_active. cbn [fst snd]. by rewrite Hx.
  - split; [split|].
    + intros i Hi. rewrite !lookup_insert_is_Some'. destruct (decide (i = k)) as [->|Hik]; [auto|].
      destruct (slots_full _ _ HS i Hi) as [f Hf]. rewrite lookup_insert_ne in Hf by done. eauto.
    + intros i j a b Hi Hj Ha Hb Hw.
      destruct (Hsw i a Ha) as (i' & Hi1 & Hi2 & Hi3), (Hsw j b Hb) as (j' & Hj1 & Hj2 & Hj3).
      pose proof (slots_inj _ _ HS i' j' a b (Hi2 Hi) (Hj2 Hj) Hi1 Hj1 Hw). lia.
    + intros i f Hi Hf. destruct (Hsw i f Hf) as (j & Hj & Hij & Hc3).
      destruct (decide (ANHE_w f = ANHE_w e)) as [Hw|Hw].
      * pose proof (slots_inj _ _ HS j c f e (Hij Hi) Hc Hj HcL Hw) as ->.
        exists (set_active x k). rewrite Hw, lookup_insert_eq. split; [done|].
        cbn. intros Hic. lia.
      * destruct (HI j f (Hij Hi) Hj) as (y & Hy & Hay). exists y.
        rewrite lookup_insert_ne by done. split; [done|]. intros Hic.
        destruct Hc3 as [[? ?]|[[-> ->]|(? & ? & ->)]]; [done| |by apply Hay].
        rewrite HcL in Hj. simplify_eq.
  - apply sift_set_active; [exists e; split; [exists c; eauto|done]|done|done|].
    intros i Hi. rewrite !lookup_insert_ne; [done|..]; by intros ->.
Qed.

(** ** Sifting *)

Context {TL : TstampLaws T}.

Lemma HPARENT_iff i k :
  HEAP0 < i -> (HPARENT i = k <-> DHEAP * (k - HEAP0) + HEAP0 + 1 <= i < DHEAP * (k - HEAP0) + HEAP0 + 5).
Proof. unfold HPARENT, HEAP0, DHEAP. intros. Z.to_euclidean_division_equations. lia. Qed.

Lemma HPARENT_lt i : HEAP0 < i -> HEAP0 <= HPARENT i < i.
Proof. unfold HPARENT, HEAP0, DHEAP. intros. Z.to_euclidean_division_equations. lia. Qed.

Lemma HPARENT_root : HPARENT HEAP0 = HEAP0.
Proof. done. Qed.

(** [m] is the position and the deadline of an earliest element of the [n] from [pos]. *)
Definition min_of (h : harray) (pos n : Z) (m : Z * T) : Prop :=
  exists e, snd m = ANHE_at e /\ h !! fst m = Some e /\ pos <= fst m < pos + n /\
    forall i f, pos <= i < pos + n -> h !! i = Some f -> tle (ANHE_at e) (ANHE_at f) = true.

Lemma pick_child_min h pos d m :
  is_Some (h !! (pos + d)) -> min_of h pos d m ->
  exists m', pick_child h pos d m = Ok m' /\ min_of h pos (d + 1) m'.
Proof.
  intros [e He] (a & Ha & Hm & Hr & Hmin). unfold pick_child, hget. rewrite He.
  cbn [mbind outcome_bind]. eexists. split; [done|]. rewrite Ha.
  destruct (tlt (ANHE_at e) (ANHE_at a)) eqn:Hlt; [exists e|exists a]; cbn [fst snd];
    (split_and!; [done|done|lia|lia|]); intros i f Hi Hf;
    (destruct (decide (i = pos + d)) as [->|Hd]; [simplify_eq|]).
  - apply tle_refl.
  - eapply tle_trans; [by apply tlt_le|]. apply (Hmin i f); [lia|done].
  - by apply tlt_ge.
  - apply (Hmin i f); [lia|done].
Qed.

Lemma pick_child_slow h E pos d m :
  (forall i, pos <= i < E -> is_Some (h !! i)) -> 0 <= d -> min_of h pos (Z.min d (E - pos)) m ->
  exists m', (if pos + d <? E then pick_child h pos d m else Ok m) = Ok m' /\
    min_of h pos (Z.min (d + 1) (E - pos)) m'.
Proof.
  intros HS Hd Hm. destruct (Z.ltb_spec (pos + d) E) as [Hlt|Hge].
  - rewrite Z.min_l in Hm by lia. rewrite Z.min_l by lia. apply pick_child_min; [|done].
    apply HS. lia.
  - rewrite Z.min_r in Hm by lia. rewrite Z.min_r by lia. eauto.
Qed.

(** Both paths find an earliest of the children that exist. *)
Lemma min_child_spec h E pos :
  (forall i, pos <= i < E -> is_Some (h !! i)) ->
  (E <= pos /\ min_child h E pos = Ok None) \/
  (pos < E /\ exists m, min_child h E pos = Ok (Some m) /\ min_of h pos (Z.min DHEAP (E - pos)) m).
Proof.
  intros HS. destruct (decide (pos < E)) as [Hlt|Hge]; [right|left; split; [lia|]].
  2:{ unfold min_child, DHEAP. rewrite !(proj2 (Z.ltb_ge _ _)) by lia. done. }
  split; [done|]. destruct (HS pos) as [e He]; [lia|].
  assert (H0 : min_of h pos (Z.min 1 (E - pos)) (pos + 0, ANHE_at e)).
  { exists e. rewrite Z.min_l by lia. cbn [fst snd]. rewrite Z.add_0_r. split_and!; [done|done|lia|lia|].
    intros i f Hi Hf. assert (i = pos) as -> by lia. simplify_eq. apply tle_refl. }
  destruct (pick_child_slow h E pos 1 _ HS ltac:(lia) H0) as (m1 & E1 & H1).
  destruct (pick_child_slow h E pos 2 _ HS ltac:(lia) H1) as (m2 & E2 & H2).
  destruct (pick_child_slow h E pos 3 _ HS ltac:(lia) H2) as (m3 & E3 & H3).
  exists m3. split; [|done]. unfold min_child, hget, DHEAP. rewrite (proj2 (Z.ltb_lt pos E)) by lia.
  rewrite Z.add_0_r in *. rewrite He. cbn [mbind outcome_bind].
  destruct (Z.ltb_spec (pos + 4 - 1) E) as [Hf|_].
  - rewrite (proj2 (Z.ltb_lt (pos + 1) E)) in E1 by lia. rewrite (proj2 (Z.ltb_lt (pos + 2) E)) in E2 by lia.
    rewrite (proj2 (Z.ltb_lt (pos + 3) E)) in E3 by lia. rewrite E1. cbn [mbind outcome_bind].
    rewrite E2. cbn [mbind outcome_bind]. by rewrite E3.
  - rewrite E1. cbn [mbind outcome_bind]. rewrite E2. cbn [mbind outcome_bind]. by rewrite E3.
Qed.

(** What a sift from [hw] achieves. *)
Definition restored (N : Z) (hw : harray * wstore) (r : outcome (harray * wstore)) : Prop :=
  exists h' ws', r = Ok (h', ws') /\ slots h' N /\ indexed h' ws' N /\ heap_ord h' N /\
    sifted N hw (h', ws').

Lemma restored_sifted N a b r : sifted N a b -> restored N b r -> restored N a r.
Proof.
  intros Hab (h' & ws' & E & HS & HI & HO & Hs). exists h', ws'.
  split_and!; [done..|]. by eapply sifted_trans.
Qed.

Lemma place_last_restored h ws N k he :
  in_heap N k -> hole h ws N k he -> heap_ord (<[k := he]> h) N ->
  restored N (<[k := he]> h, ws) (place (h, ws) k he).
Proof.
  intros Hk Hh Ho. destruct (place_last h ws N k he Hk Hh) as (ws' & E & HI & Hs).
  exists (<[k := he]> h), ws'. split_and!; [done|apply Hh|done..].
Qed.

Ltac hcase i k :=
  destruct (decide (i = k)) as [->|?];
  [rewrite ?lookup_insert_eq in * |rewrite ?(lookup_insert_ne _ k i) in * by done].

(** Exchanging the element out of place with its earliest child. *)
Lemma down_ord_move h N k c he e :
  HEAP0 <= k -> HEAP0 < c < N + HEAP0 -> down_ord (<[k := he]> h) N k -> h !! c = Some e ->
  HPARENT c = k -> tle (ANHE_at e) (ANHE_at he) = true ->
  (forall i f, HEAP0 < i < N + HEAP0 -> HPARENT i = k -> h !! i = Some f ->
    tle (ANHE_at e) (ANHE_at f) = true) ->
  down_ord (<[c := he]> (<[k := e]> h)) N c.
Proof.
  intros Hk Hc [Ho Hsk] He Hpc Hel Hmin. pose proof (HPARENT_lt c ltac:(lia)) as Hlt.
  split; [intros i Hi Hp a b|intros i Hi Hp _ a b]; pose proof (HPARENT_lt i ltac:(lia)) as Hpi.
  - rewrite (lookup_insert_ne _ c (HPARENT i)) by done. hcase i c.
    { rewrite Hpc, lookup_insert_eq. intros [= <-] [= <-]. done. }
    hcase i k.
    { rewrite lookup_insert_ne by lia. intros Ha [= <-].
      apply (Hsk c Hc Hpc ltac:(lia)); rewrite lookup_insert_ne by lia; done. }
    destruct (decide (HPARENT i = k)) as [Hp'|Hp'].
    { rewrite Hp', lookup_insert_eq. intros [= <-] Hb. by apply (Hmin i). }
    rewrite lookup_insert_ne by done. intros Ha Hb.
    apply (Ho i Hi Hp'); by rewrite lookup_insert_ne.
  - rewrite Hpc, lookup_insert_ne, lookup_insert_eq by lia. intros [= <-].
    rewrite !lookup_insert_ne by lia. intros Hb. assert (Hik : HPARENT i <> k) by lia.
    apply (Ho i Hi Hik); [rewrite Hp|]; by rewrite lookup_insert_ne by lia.
Qed.

Lemma downheap_loop_restores fuel : forall h ws N k he,
  in_heap N k -> hole h ws N k he -> down_ord (<[k := he]> h) N k ->
  N + HEAP0 - k <= Z.of_nat fuel ->
  restored N (<[k := he]> h, ws) (downheap_loop fuel (h, ws) (N + HEAP0) k he).
Proof.
  induction fuel as [|fuel IH]; intros h ws N k he Hk Hh [Ho Hsk] Hf;
    [unfold in_heap in Hk; lia|].
  cbn [downheap_loop fst]. set (pos := DHEAP * (k - HEAP0) + HEAP0 + 1).
  assert (Hkp : k < pos) by (unfold in_heap, pos, HEAP0, DHEAP in *; lia).
  assert (Hch : forall i, HEAP0 < i -> (HPARENT i = k <-> pos <= i < pos + DHEAP))
    by (intros i Hi; rewrite HPARENT_iff by done; unfold pos, DHEAP; lia).
  destruct (min_child_spec h (N + HEAP0) pos) as [[Hge ->]|(Hlt & [c a] & -> & (e & Ha & He & Hc & Hmin))].
  { intros i Hi. destruct Hh as [HS _]. destruct (slots_full _ _ HS i) as [f Hi'];
      [unfold in_heap in *; lia|]. rewrite lookup_insert_ne in Hi' by lia. eauto. }
  - cbn [mbind outcome_bind]. apply place_last_restored; [done|done|].
    intros i Hi. apply Ho; [done|]. intros Hp%Hch; lia.
  - cbn [mbind outcome_bind fst snd] in *. subst a.
    assert (Hch' : in_heap N c) by (unfold in_heap in *; lia).
    assert (Hpc : HPARENT c = k) by (apply Hch; unfold in_heap in *; lia).
    destruct (tle (ANHE_at he) (ANHE_at e)) eqn:Hle.
    + apply place_last_restored; [done|done|]. intros i Hi.
      destruct (decide (HPARENT i = k)) as [Hp|Hp]; [|by apply Ho].
      pose proof (HPARENT_lt i ltac:(lia)) as Hpi.
      rewrite Hp. intros x y. rewrite lookup_insert_eq. rewrite lookup_insert_ne by lia.
      intros [= <-] Hy. eapply tle_trans; [done|]. apply (Hmin i y); [|done].
      apply Hch in Hp; lia.
    + unfold hget. rewrite He. cbn [mbind outcome_bind].
      destruct (place_move h ws N k c he e) as (ws' & -> & Hh' & Hs); [done|done|lia|done|done|].
      cbn [mbind outcome_bind]. eapply restored_sifted; [done|].
      apply IH; [done|done| |unfold in_heap in *; lia].
      assert (Hel : tle (ANHE_at e) (ANHE_at he) = true)
        by (destruct (tle_total (ANHE_at e) (ANHE_at he)); congruence).
      eapply down_ord_move; [apply Hk|unfold in_heap in *; lia|done..|]. intros i f Hi Hp Hfi.
      apply (Hmin i f); [|done]. apply Hch in Hp; lia.
Qed.

Lemma downheap_restores h ws N k :
  in_heap N k -> slots h N -> indexed_but (fun i => i <> k) h ws N -> down_ord h N k ->
  restored N (h, ws) (downheap (h, ws) N k).
Proof.
  intros Hk HS HI Ho. destruct (slots_full _ _ HS k Hk) as [he He]. unfold downheap, hget.
  cbn [fst]. rewrite He. cbn [mbind outcome_bind].
  pose proof (downheap_loop_restores (S (Z.to_nat N)) h ws N k he) as H.
  unfold hole in H. rewrite insert_id in H by done. apply H; [done|done|done|].
  unfold in_heap in *. lia.
Qed.

(** Exchanging the element out of place with its parent. *)
Lemma up_ord_move h N k he hp :
  HEAP0 < k < N + HEAP0 -> up_ord (<[k := he]> h) N k -> h !! HPARENT k = Some hp ->
  tle (ANHE_at he) (ANHE_at hp) = true ->
  up_ord (<[HPARENT k := he]> (<[k := hp]> h)) N (HPARENT k).
Proof.
  intros Hk [Ho Hsk] Hp Hle. pose proof (HPARENT_lt k ltac:(lia)) as Hpk.
  assert (Hbelow : forall i f, HEAP0 < i < N + HEAP0 -> HPARENT i = HPARENT k -> i <> k ->
    h !! i = Some f -> tle (ANHE_at hp) (ANHE_at f) = true).
  { intros i f Hi Hpi Hik Hf. apply (Ho i Hi Hik); [rewrite Hpi|]; by rewrite lookup_insert_ne by lia. }
  split; [intros i Hi Hip a b|intros i Hi Hip Hroot a b]; pose proof (HPARENT_lt i ltac:(lia)) as Hpi.
  - rewrite (lookup_insert_ne _ (HPARENT k) i) by done. hcase i k.
    { by intros [= <-] [= <-]. }
    destruct (decide (HPARENT i = k)) as [Hq|Hq].
    { rewrite Hq, lookup_insert_ne, lookup_insert_eq by lia. intros [= <-] Hb.
      apply (Hsk i Hi Hq ltac:(lia)); by rewrite lookup_insert_ne by lia. }
    destruct (decide (HPARENT i = HPARENT k)) as [Hq'|Hq'].
    { rewrite Hq', lookup_insert_eq. intros [= <-] Hb. eapply tle_trans; [done|]. by apply (Hbelow i). }
    rewrite !lookup_insert_ne by done. intros Ha Hb. apply (Ho i Hi); [done|..]; by rewrite lookup_insert_ne.
  - pose proof (HPARENT_lt (HPARENT k) ltac:(lia)) as Hg.
    rewrite !(lookup_insert_ne _ _ (HPARENT (HPARENT k))) by lia. intros Ha.
    assert (Hgp : tle (ANHE_at a) (ANHE_at hp) = true)
      by (apply (Ho (HPARENT k) ltac:(lia) ltac:(lia)); by rewrite lookup_insert_ne by lia).
    rewrite lookup_insert_ne by lia. hcase i k; [by intros [= <-]|].
    intros Hb. eapply tle_trans; [done|]. by apply (Hbelow i).
Qed.

Lemma upheap_loop_restores fuel : forall h ws N k he,
  in_heap N k -> hole h ws N k he -> up_ord (<[k := he]> h) N k -> k - HEAP0 < Z.of_nat fuel ->
  restored N (<[k := he]> h, ws) (upheap_loop fuel (h, ws) k he).
Proof.
  induction fuel as [|fuel IH]; intros h ws N k he Hk Hh Hup Hf; [unfold in_heap in Hk; lia|].
  cbn [upheap_loop fst]. unfold UPHEAP_DONE.
  destruct (decide (k = HEAP0)) as [->|Hroot].
  { rewrite HPARENT_root, Z.eqb_refl. apply place_last_restored; [done|done|].
    intros i Hi. apply Hup; lia. }
  assert (HEAP0 < k < N + HEAP0) as Hk' by (unfold in_heap in Hk; lia).
  pose proof (HPARENT_lt k ltac:(lia)) as Hpk. rewrite (proj2 (Z.eqb_neq _ _)) by lia.
  assert (Hp : in_heap N (HPARENT k)) by (unfold in_heap in *; lia).
  destruct (slots_full _ _ (proj1 Hh) _ Hp) as [hp Ehp]. rewrite lookup_insert_ne in Ehp by lia.
  unfold hget. rewrite Ehp. cbn [mbind outcome_bind].
  destruct (tle (ANHE_at hp) (ANHE_at he)) eqn:Hle.
  - apply place_last_restored; [done|done|]. intros i Hi. destruct (decide (i = k)) as [->|Hik].
    + intros a b. rewrite lookup_insert_eq, lookup_insert_ne by lia. congruence.
    + by apply Hup.
  - destruct (place_move h ws N k (HPARENT k) he hp) as (ws' & -> & Hh' & Hs); [done|done|lia|done|done|].
    cbn [mbind outcome_bind]. eapply restored_sifted; [done|]. apply IH; [done|done| |lia].
    apply up_ord_move; [done|done|done|].
    destruct (tle_total (ANHE_at he) (ANHE_at hp)); congruence.
Qed.

Lemma upheap_restores h ws N k :
  in_heap N k -> slots h N -> indexed_but (fun i => i <> k) h ws N -> up_ord h N k ->
  restored N (h, ws) (upheap (h, ws) k).
Proof.
  intros Hk HS HI Ho. destruct (slots_full _ _ HS k Hk) as [he He]. unfold upheap, hget.
  cbn [fst]. rewrite He. cbn [mbind outcome_bind].
  pose proof (upheap_loop_restores (S (Z.to_nat k)) h ws N k he) as H.
  unfold hole in H. rewrite insert_id in H by done. apply H; [done|done|done|].
  unfold in_heap, HEAP0, DHEAP in *. lia.
Qed.

Lemma adjustheap_restores h ws N k :
  in_heap N k -> slots h N -> indexed_but (fun i => i <> k) h ws N -> around_ord h N k ->
  restored N (h, ws) (adjustheap (h, ws) N k).
Proof.
  intros Hk HS HI [Ho Hsk]. destruct (slots_full _ _ HS k Hk) as [he He].
  unfold adjustheap, hget. cbn [fst]. rewrite He. cbn [mbind outcome_bind].
  destruct (Z.ltb_spec HEAP0 k) as [Hlt|Hge].
  2:{ apply downheap_restores; [done..|]. split; [|done]. intros i Hi Hp. apply Ho; [done| |done].
    unfold in_heap in Hk. lia. }
  pose proof (HPARENT_lt k Hlt) as Hpk.
  destruct (slots_full _ _ HS (HPARENT k)) as [hp Hhp]; [unfold in_heap in *; lia|].
  rewrite Hhp. cbn [mbind outcome_bind]. destruct (tle (ANHE_at he) (ANHE_at hp)) eqn:Hle.
  - apply upheap_restores; [done..|]. split; [|done]. intros i Hi Hik.
    destruct (decide (HPARENT i = k)) as [Hp|Hp]; [|by apply Ho].
    rewrite Hp. intros a b Ha Hb. rewrite He in Ha. injection Ha as <-.
    eapply tle_trans; [done|]. by apply (Hsk i Hi Hp Hlt).
  - apply downheap_restores; [done..|]. split; [|done]. intros i Hi Hp.
    destruct (decide (i = k)) as [->|Hik]; [|by apply Ho].
    intros a b Ha Hb. destruct (tle_total (ANHE_at a) (ANHE_at b)); congruence.
Qed.

(** The root is not later than any element. *)
Lemma heap_root_min h N e f :
  slots h N -> heap_ord h N -> h !! HEAP0 = Some e -> has h N f -> tle (ANHE_at e) (ANHE_at f) = true.
Proof.
  intros HS Ho He (i & Hi & Hf). revert f Hf. induction i as [i IH] using (well_founded_induction (Z.lt_wf HEAP0)).
  intros f Hf. destruct (decide (i = HEAP0)) as [->|Hr]; [simplify_eq; apply tle_refl|].
  pose proof (HPARENT_lt i ltac:(unfold in_heap in Hi; lia)) as Hp.
  assert (Hi' : in_heap N (HPARENT i)) by (unfold in_heap in *; lia).
  destruct (slots_full _ _ HS _ Hi') as [g Hg]. eapply tle_trans.
  - apply (IH (HPARENT i)); [lia|done|done].
  - apply (Ho i); [unfold in_heap in Hi; lia|done|done].
Qed.

(** Rebuilding from any array: every prefix becomes a heap in turn. *)
Lemma up_ord_last h i : 0 <= i -> heap_ord h i -> up_ord h (i + 1) (i + HEAP0).
Proof.
  intros Hi Ho. split.
  - intros j Hj Hne. apply Ho. lia.
  - intros j Hj Hp _. pose proof (HPARENT_lt j ltac:(lia)). lia.
Qed.

Lemma slots_prefix h N M : M <= N -> slots h N -> slots h M.
Proof. intros HM [Hf Hi]. split; unfold in_heap in *; [intros i ?; apply Hf; lia|].
  intros i j a b ? ?. apply Hi; lia.
Qed.

Lemma sifted_extend M N hw hw' : M <= N -> sifted M hw hw' -> sifted N hw hw'.
Proof.
  intros HM [Hh Hout Hw Hfr]. split; [|intros i Hi; apply Hout; unfold in_heap in *; lia|done|].
  - intros e. split; intros (i & Hi & He); (destruct (in_heap_dec M i) as [Hm|Hm];
      [|exists i; split; [done|]; first [by rewrite <-Hout|by rewrite Hout]]).
    + destruct (proj1 (Hh e)) as (j & Hj & Hje); [by exists i|].
      exists j. split; [unfold in_heap in *; lia|done].
    + destruct (proj2 (Hh e)) as (j & Hj & Hje); [by exists i|].
      exists j. split; [unfold in_heap in *; lia|done].
  - intros w. destruct (Hfr w) as [(e & (i & Hi & He) & Hew)|]; [|by right]. left. exists e.
    split; [|done]. exists i. split; [unfold in_heap in *; lia|done].
Qed.

Lemma sifted_slots M N hw hw' :
  M <= N -> slots (fst hw) N -> slots (fst hw') M -> sifted M hw hw' -> slots (fst hw') N.
Proof.
  intros HM HS HS' Hsf. pose proof Hsf as [Hh Hout _ _]. split.
  - intros i Hi. destruct (in_heap_dec M i) as [Hm|Hm]; [by apply (slots_full _ _ HS')|].
    rewrite Hout by done. by apply (slots_full _ _ HS).
  - assert (Hmix : forall i j a b, in_heap M i -> in_heap N j -> ~ in_heap M j ->
      fst hw' !! i = Some a -> fst hw' !! j = Some b -> ANHE_w a <> ANHE_w b).
    { intros i j a b Hi Hj Hjm Ha Hb Hw. rewrite Hout in Hb by done.
      destruct (proj1 (Hh a)) as (i' & Hi' & Ha'); [by exists i|].
      pose proof (slots_inj _ _ HS i' j a b ltac:(unfold in_heap in *; lia) Hj Ha' Hb Hw).
      by subst. }
    intros i j a b Hi Hj Ha Hb Hw.
    destruct (in_heap_dec M i) as [Hm|Hm], (in_heap_dec M j) as [Hn|Hn].
    + by apply (slots_inj _ _ HS' i j a b).
    + by destruct (Hmix i j a b).
    + by destruct (Hmix j i b a).
    + rewrite Hout in Ha, Hb by done. by apply (slots_inj _ _ HS i j a b).
Qed.

Lemma reheap_loop_restores n : forall h ws i N,
  N = i + Z.of_nat n -> 0 <= i -> slots h N -> indexed_but (fun _ => False) h ws N ->
  indexed h ws i -> heap_ord h i ->
  exists h' ws', reheap_loop n (h, ws) i = Ok (h', ws') /\ slots h' N /\
    indexed h' ws' N /\ heap_ord h' N /\ sifted N (h, ws) (h', ws').
Proof.
  induction n as [|n IH]; intros h ws i N HN Hi HS Hex HI Ho.
  - exists h, ws. assert (N = i) as -> by lia. split_and!; [done..|apply sifted_refl].
  - cbn [reheap_loop].
    destruct (upheap_restores h ws (i + 1) (i + HEAP0)) as (h1 & ws1 & -> & HS1 & HI1 & HO1 & Hsf).
    + unfold in_heap. lia.
    + eapply slots_prefix; [|done]. lia.
    + intros j e Hj He. destruct (decide (j = i + HEAP0)) as [->|Hj'].
      * destruct (Hex (i + HEAP0) e) as (x & Hx & _); [unfold in_heap in *; lia|done|]. by exists x.
      * destruct (HI j e) as (x & Hx & Ha); [unfold in_heap in *; lia|done|].
        exists x. auto.
    + by apply up_ord_last.
    + cbn [mbind outcome_bind].
      pose proof (sifted_extend (i + 1) N _ _ ltac:(lia) Hsf) as HsN.
      destruct (IH h1 ws1 (i + 1) N) as (h' & ws' & -> & HS' & HI' & HO' & Hsf');
        [lia|lia| | |done|done|].
      * by apply (sifted_slots (i + 1) N (h, ws) (h1, ws1) ltac:(lia)).
      * intros j e Hj He. destruct (sift_has _ _ _ HsN e) as [Hback _].
        destruct Hback as (j' & Hj' & He'); [by exists j|].
        destruct (Hex j' e Hj' He') as (x & Hx & _). destruct (sift_ws _ _ _ HsN (ANHE_w e)) as [f Hf].
        cbn [snd] in Hf. rewrite Hx in Hf. by eexists.
      * exists h', ws'. split_and!; [done..|]. by eapply sifted_trans.
Qed.

Lemma reheap_restores h ws N :
  0 <= N -> slots h N -> indexed_but (fun _ => False) h ws N -> restored N (h, ws) (reheap (h, ws) N).
Proof.
  intros HN HS Hex. apply (reheap_loop_restores (Z.to_nat N) h ws 0 N); [lia|lia|done|done|..].
  - intros i e Hi. unfold in_heap in Hi. lia.
  - intros i Hi. lia.
Qed.
End Heap.
