(* ===== verification/EvLoop.v ===== *)
(** * The loop of libev (deps/libev-4.11/ev.c)

    The state of a loop and the operations [EventLoop] reaches: watchers, the
    queues of pending events by priority, the watchers of each descriptor with
    the changes not yet told to the backend, and the timer heap of [EvHeap].
    [ev_io_*], [ev_timer_*], [fd_reify], [timers_reify], [ev_invoke_pending] and
    one round of [ev_run] are translated whole; the types of watchers the
    program never starts (periodic, idle, prepare, check, fork, signal, async)
    have count zero and do not appear.  The kernel side of the backend is what
    [backend_modify] was told; its answers are an input of a round. *)

From S2P Require Import Prelude Event EvHeap.

Definition EV_TIMER : Z := 256.
Definition EV_MINPRI : Z := -2.
Definition EV_MAXPRI : Z := 2.
Definition NUMPRI : Z := EV_MAXPRI - EV_MINPRI + 1.
Definition EV_ANFD_REIFY : Z := 1.
Definition EVBREAK_CANCEL : Z := 0.
Definition EVBREAK_ONE : Z := 1.
Definition EVBREAK_ALL : Z := 2.

(** ** Growing arrays *)

Definition MALLOC_ROUND : Z := 4096.
Definition SIZEOF_POINTER : Z := 8.

Fixpoint double_until (fuel : nat) (ncur cnt : Z) : outcome Z :=
  match fuel with
  | O => Trap OutOfFuel
  | S fuel =>
      let ncur := Z.shiftl ncur 1 in
      if ncur <? cnt then double_until fuel ncur cnt else Ok ncur
  end.

(** The do-while loop doubles a positive number: [cnt] rounds are enough. *)
Definition array_nextsize (elem cur cnt : Z) : outcome Z :=
  ncur ← double_until (S (Z.to_nat cnt)) (cur + 1) cnt;
  Ok (if MALLOC_ROUND - SIZEOF_POINTER * 4 <? elem * ncur then
        let n := ncur * elem in
        let n := Z.land (n + elem + (MALLOC_ROUND - 1) + SIZEOF_POINTER * 4)
                        (Z.lnot (MALLOC_ROUND - 1)) in
        Z.quot (n - SIZEOF_POINTER * 4) elem
      else ncur).

(** The capacity after [array_needsize]. *)
Definition array_needsize (elem cur cnt : Z) : outcome Z :=
  if cur <? cnt then array_nextsize elem cur cnt else Ok cur.

(** ** State *)

(** [ANFD]: the io watchers of a descriptor, the events asked of the backend,
    and the flags of a change to tell it. *)
Record ANFD := mkANFD { fd_head : list nat; fd_events : Z; fd_reify_flag : Z }.
Definition ANFD_zero : ANFD := mkANFD [] 0 0.

(** [ANPENDING]; [None] is the dummy watcher [pending_w]. *)
Record ANPENDING := mkPend { p_w : option nat; p_events : Z }.

Record ev_loop (T : Type) := mkEv {
  mn_now : T;
  loop_done : Z;
  anfds : list ANFD;
  fdchanges : list Z;
  told : gmap Z Z;
  pendings : list (list ANPENDING);
  rfeeds : list nat;
  timers : gmap Z (ANHE T);
  timermax : Z;
  timercnt : Z;
  activecnt : Z;
  watchers : gmap nat (watcher T) }.
Arguments mkEv {T}.
Arguments mn_now {T}.
Arguments loop_done {T}.
Arguments anfds {T}.
Arguments fdchanges {T}.
Arguments told {T}.
Arguments pendings {T}.
Arguments rfeeds {T}.
Arguments timers {T}.
Arguments timermax {T}.
Arguments timercnt {T}.
Arguments activecnt {T}.
Arguments watchers {T}.

Definition sizeof_ANHE : Z := 16.
Definition sizeof_ANFD : Z := 16.

Definition ABSPRI {T} (x : watcher T) : Z := priority x - EV_MINPRI.

Definition set_pending {T} (x : watcher T) (p : Z) : watcher T :=
  mkW (active x) p (priority x) (kind x).
Definition set_kind {T} (x : watcher T) (k : watcher_kind T) : watcher T :=
  mkW (active x) (pending x) (priority x) k.

Section Loop.
Context {T : Type} `{TS : Tstamp T}.
Local Abbreviation loop := (ev_loop T).

Definition with_watchers (s : loop) (ws : gmap nat (watcher T)) : loop :=
  mkEv (mn_now s) (loop_done s) (anfds s) (fdchanges s) (told s) (pendings s) (rfeeds s) (timers s)
    (timermax s) (timercnt s) (activecnt s) ws.
Definition with_pendings (s : loop) (p : list (list ANPENDING)) : loop :=
  mkEv (mn_now s) (loop_done s) (anfds s) (fdchanges s) (told s) p (rfeeds s) (timers s)
    (timermax s) (timercnt s) (activecnt s) (watchers s).
Definition with_rfeeds (s : loop) (r : list nat) : loop :=
  mkEv (mn_now s) (loop_done s) (anfds s) (fdchanges s) (told s) (pendings s) r (timers s)
    (timermax s) (timercnt s) (activecnt s) (watchers s).
Definition with_timers (s : loop) (h : gmap Z (ANHE T)) (max cnt : Z) : loop :=
  mkEv (mn_now s) (loop_done s) (anfds s) (fdchanges s) (told s) (pendings s) (rfeeds s) h
    max cnt (activecnt s) (watchers s).
Definition with_io (s : loop) (a : list ANFD) (c : list Z) (k : gmap Z Z) : loop :=
  mkEv (mn_now s) (loop_done s) a c k (pendings s) (rfeeds s) (timers s)
    (timermax s) (timercnt s) (activecnt s) (watchers s).
Definition with_activecnt (s : loop) (n : Z) : loop :=
  mkEv (mn_now s) (loop_done s) (anfds s) (fdchanges s) (told s) (pendings s) (rfeeds s) (timers s)
    (timermax s) (timercnt s) n (watchers s).
Definition with_now (s : loop) (t : T) : loop :=
  mkEv t (loop_done s) (anfds s) (fdchanges s) (told s) (pendings s) (rfeeds s) (timers s)
    (timermax s) (timercnt s) (activecnt s) (watchers s).
Definition ev_break (s : loop) (how : Z) : loop :=
  mkEv (mn_now s) how (anfds s) (fdchanges s) (told s) (pendings s) (rfeeds s) (timers s)
    (timermax s) (timercnt s) (activecnt s) (watchers s).

(** A watcher that exists; its timer fields. *)
Definition get_w (s : loop) (w : nat) : outcome (watcher T) := the (watchers s !! w).
Definition put_w (s : loop) (w : nat) (x : watcher T) : loop :=
  with_watchers s (<[w := x]> (watchers s)).
Definition timer_of (x : watcher T) : outcome (T * T) :=
  match kind x with EvTimer a r => Ok (a, r) | EvIo _ _ => Trap Undefined end.
Definition io_of (x : watcher T) : outcome (Z * Z) :=
  match kind x with EvIo fd ev => Ok (fd, ev) | EvTimer _ _ => Trap Undefined end.

(** [pendings [pri]]. *)
Definition queue (s : loop) (pri : Z) : outcome (list ANPENDING) :=
  if pri <? 0 then Trap OutOfBounds else
  match pendings s !! Z.to_nat pri with Some q => Ok q | None => Trap OutOfBounds end.
Definition put_queue (s : loop) (pri : Z) (q : list ANPENDING) : loop :=
  with_pendings s (<[Z.to_nat pri := q]> (pendings s)).

(** [anfds [fd]]. *)
Definition get_anfd (s : loop) (fd : Z) : outcome ANFD :=
  if fd <? 0 then Trap OutOfBounds else
  match anfds s !! Z.to_nat fd with Some a => Ok a | None => Trap OutOfBounds end.
Definition put_anfd (s : loop) (fd : Z) (a : ANFD) : loop :=
  with_io s (<[Z.to_nat fd := a]> (anfds s)) (fdchanges s) (told s).
Definition anfdmax (s : loop) : Z := Z.of_nat (length (anfds s)).

(** ** Pending events *)

Definition ev_feed_event (s : loop) (w : nat) (revents : Z) : outcome loop :=
  x ← get_w s w;
  let pri := ABSPRI x in
  q ← queue s pri;
  if negb (pending x =? 0) then
    match q !! Z.to_nat (pending x - 1) with
    | Some p => Ok (put_queue s pri
        (<[Z.to_nat (pending x - 1) := mkPend (p_w p) (Z.lor (p_events p) revents)]> q))
    | None => Trap OutOfBounds
    end
  else
    let s := put_w s w (set_pending x (Z.of_nat (length q) + 1)) in
    Ok (put_queue s pri (q ++ [mkPend (Some w) revents])).

Definition feed_reverse (s : loop) (w : nat) : loop := with_rfeeds s (rfeeds s ++ [w]).

(** [feed_reverse_done] feeds from the end; its loop runs at least once. *)
Fixpoint feed_reverse_loop (n : nat) (s : loop) (revents : Z) : outcome loop :=
  match n with
  | O => Ok s
  | S n =>
      match rfeeds s !! n with
      | Some w => s ← ev_feed_event (with_rfeeds s (take n (rfeeds s))) w revents;
                  feed_reverse_loop n s revents
      | None => Trap OutOfBounds
      end
  end.
Definition feed_reverse_done (s : loop) (revents : Z) : outcome loop :=
  match rfeeds s with [] => Trap OutOfBounds | _ => feed_reverse_loop (length (rfeeds s)) s revents end.

Definition clear_pending (s : loop) (w : nat) : outcome loop :=
  x ← get_w s w;
  if negb (pending x =? 0) then
    q ← queue s (ABSPRI x);
    match q !! Z.to_nat (pending x - 1) with
    | Some p =>
        let s := put_queue s (ABSPRI x) (<[Z.to_nat (pending x - 1) := mkPend None (p_events p)]> q) in
        Ok (put_w s w (set_pending x 0))
    | None => Trap OutOfBounds
    end
  else Ok s.

(** ** Starting and stopping *)

Definition pri_adjust (x : watcher T) : watcher T :=
  let pri := priority x in
  let pri := if pri <? EV_MINPRI then EV_MINPRI else pri in
  let pri := if EV_MAXPRI <? pri then EV_MAXPRI else pri in
  mkW (active x) (pending x) pri (kind x).

Definition ev_start (s : loop) (w : nat) (active : Z) : outcome loop :=
  x ← get_w s w;
  Ok (with_activecnt (put_w s w (set_active (pri_adjust x) active)) (activecnt s + 1)).

Definition ev_stop (s : loop) (w : nat) : outcome loop :=
  x ← get_w s w;
  Ok (with_activecnt (put_w s w (set_active x 0)) (activecnt s - 1)).

Definition is_active (x : watcher T) : bool := negb (active x =? 0).

(** *** Descriptors *)

Definition wlist_add (head : list nat) (elem : nat) : list nat := elem :: head.
Fixpoint wlist_del (head : list nat) (elem : nat) : list nat :=
  match head with
  | [] => []
  | w :: rest => if decide (w = elem) then rest else w :: wlist_del rest elem
  end.

Definition fd_change (s : loop) (fd flags : Z) : outcome loop :=
  a ← get_anfd s fd;
  let reify := fd_reify_flag a in
  let s := put_anfd s fd (mkANFD (fd_head a) (fd_events a) (Z.lor reify flags)) in
  Ok (if reify =? 0 then with_io s (anfds s) (fdchanges s ++ [fd]) (told s) else s).

Definition io_start (s : loop) (w : nat) : outcome loop :=
  x ← get_w s w;
  if is_active x then Ok s else
  io ← io_of x;
  let '(fd, ev) := io : Z * Z in
  guard_trap (0 <=? fd) AssertFailed (
  guard_trap (Z.land ev (Z.lnot (Z.lor EV__IOFDSET (Z.lor EV_READ EV_WRITE))) =? 0) AssertFailed (
  s ← ev_start s w 1;
  max ← array_needsize sizeof_ANFD (anfdmax s) (fd + 1);
  let s := with_io s (anfds s ++ replicate (Z.to_nat (max - anfdmax s)) ANFD_zero) (fdchanges s)
             (told s) in
  a ← get_anfd s fd;
  let s := put_anfd s fd (mkANFD (wlist_add (fd_head a) w) (fd_events a) (fd_reify_flag a)) in
  s ← fd_change s fd (Z.lor (Z.land ev EV__IOFDSET) EV_ANFD_REIFY);
  x ← get_w s w;
  Ok (put_w s w (set_kind x (EvIo fd (Z.land ev (Z.lnot EV__IOFDSET))))))).

Definition io_stop (s : loop) (w : nat) : outcome loop :=
  s ← clear_pending s w;
  x ← get_w s w;
  if negb (is_active x) then Ok s else
  io ← io_of x;
  let '(fd, _) := io : Z * Z in
  guard_trap ((0 <=? fd) && (fd <? anfdmax s)) AssertFailed (
  a ← get_anfd s fd;
  let s := put_anfd s fd (mkANFD (wlist_del (fd_head a) w) (fd_events a) (fd_reify_flag a)) in
  s ← ev_stop s w;
  fd_change s fd EV_ANFD_REIFY).

(** [fd_event_nocheck]: every watcher of the descriptor that asked for one of
    the events. *)
Fixpoint feed_watchers (s : loop) (ws : list nat) (revents : Z) : outcome loop :=
  match ws with
  | [] => Ok s
  | w :: ws =>
      x ← get_w s w;
      io ← io_of x;
      let ev := Z.land (snd io) revents in
      s ← (if negb (ev =? 0) then ev_feed_event s w ev else Ok s);
      feed_watchers s ws revents
  end.
Definition fd_event_nocheck (s : loop) (fd revents : Z) : outcome loop :=
  a ← get_anfd s fd;
  feed_watchers s (fd_head a) revents.
Definition fd_event (s : loop) (fd revents : Z) : outcome loop :=
  a ← get_anfd s fd;
  if fd_reify_flag a =? 0 then fd_event_nocheck s fd revents else Ok s.

(** The union of the masks of a list of io watchers, as unsigned chars. *)
Fixpoint union_events (ws : gmap nat (watcher T)) (l : list nat) (acc : Z) : outcome Z :=
  match l with
  | [] => Ok acc
  | w :: l =>
      x ← the (ws !! w);
      io ← io_of x;
      union_events ws l (Z.lor acc (u8 (snd io)))
  end.

Fixpoint reify_fds (s : loop) (fds : list Z) : outcome loop :=
  match fds with
  | [] => Ok s
  | fd :: fds =>
      a ← get_anfd s fd;
      let o_events := fd_events a in
      let o_reify := fd_reify_flag a in
      ev ← union_events (watchers s) (fd_head a) 0;
      let s := put_anfd s fd (mkANFD (fd_head a) ev 0) in
      let o_reify := if negb (o_events =? ev) then EV__IOFDSET else o_reify in
      let s := if negb (Z.land o_reify EV__IOFDSET =? 0)
               then with_io s (anfds s) (fdchanges s) (<[fd := ev]> (told s)) else s in
      reify_fds s fds
  end.
Definition fd_reify (s : loop) : outcome loop :=
  s ← reify_fds s (fdchanges s);
  Ok (with_io s (anfds s) [] (told s)).

(** *** Timers *)

(** A heap function on the timers of the loop. *)
Definition on_heap (s : loop) (r : outcome (gmap Z (ANHE T) * gmap nat (watcher T))) : outcome loop :=
  hw ← r;
  let '(h, ws) := hw : gmap Z (ANHE T) * gmap nat (watcher T) in
  Ok (with_watchers (with_timers s h (timermax s) (timercnt s)) ws).

(** [timers [i] = he], within the capacity. *)
Definition put_timer_slot (s : loop) (i : Z) (he : ANHE T) : outcome loop :=
  guard_trap ((0 <=? i) && (i <? timermax s)) OutOfBounds
    (Ok (with_timers s (<[i := he]> (timers s)) (timermax s) (timercnt s))).

Definition timer_start (s : loop) (w : nat) : outcome loop :=
  x ← get_w s w;
  if is_active x then Ok s else
  ar ← timer_of x;
  let '(a, r) := ar : T * T in
  let s := put_w s w (set_kind x (EvTimer (tadd a (mn_now s)) r)) in
  guard_trap (tle tzero r) AssertFailed (
  let s := with_timers s (timers s) (timermax s) (timercnt s + 1) in
  let k := timercnt s + HEAP0 - 1 in
  s ← ev_start s w k;
  max ← array_needsize sizeof_ANHE (timermax s) (k + 1);
  let s := with_timers s (timers s) max (timercnt s) in
  s ← put_timer_slot s k (mkANHE (tadd a (mn_now s)) w);
  on_heap s (upheap (timers s, watchers s) k)).

Definition timer_stop (s : loop) (w : nat) : outcome loop :=
  s ← clear_pending s w;
  x ← get_w s w;
  if negb (is_active x) then Ok s else
  let active := active x in
  he ← hget (timers s) active;
  guard_trap (Nat.eqb (ANHE_w he) w) AssertFailed (
  let s := with_timers s (timers s) (timermax s) (timercnt s - 1) in
  s ← (if active <? timercnt s + HEAP0 then
         last ← hget (timers s) (timercnt s + HEAP0);
         s ← put_timer_slot s active last;
         on_heap s (adjustheap (timers s, watchers s) (timercnt s) active)
       else Ok s);
  x ← get_w s w;
  ar ← timer_of x;
  let '(a, r) := ar : T * T in
  ev_stop (put_w s w (set_kind x (EvTimer (tsub a (mn_now s)) r))) w).

Definition timer_again (s : loop) (w : nat) : outcome loop :=
  s ← clear_pending s w;
  x ← get_w s w;
  ar ← timer_of x;
  let '(a, r) := ar : T * T in
  if is_active x then
    if tnonzero r then
      let a := tadd (mn_now s) r in
      let s := put_w s w (set_kind x (EvTimer a r)) in
      he ← hget (timers s) (active x);
      s ← put_timer_slot s (active x) (mkANHE a (ANHE_w he));
      on_heap s (adjustheap (timers s, watchers s) (timercnt s) (active x))
    else timer_stop s w
  else if tnonzero r then timer_start (put_w s w (set_kind x (EvTimer r r))) w
  else Ok s.

(** One pass of the loop of [timers_reify]: the root is rescheduled or stopped
    and remembered. *)
Definition timer_fire (s : loop) : outcome loop :=
  he ← hget (timers s) HEAP0;
  let w := ANHE_w he in
  x ← get_w s w;
  ar ← timer_of x;
  let '(a, r) := ar : T * T in
  s ← (if tnonzero r then
         let a := tadd a r in
         let a := if tlt a (mn_now s) then mn_now s else a in
         let s := put_w s w (set_kind x (EvTimer a r)) in
         guard_trap (tlt tzero r) AssertFailed (
         s ← put_timer_slot s HEAP0 (mkANHE a w);
         on_heap s (downheap (timers s, watchers s) (timercnt s) HEAP0))
       else timer_stop s w);
  Ok (feed_reverse s w).

(** [timercnt && ANHE_at (timers [HEAP0]) < mn_now]. *)
Definition timer_due (s : loop) : outcome bool :=
  if timercnt s =? 0 then Ok false else
  he ← hget (timers s) HEAP0;
  Ok (tlt (ANHE_at he) (mn_now s)).

Fixpoint timers_loop (fuel : nat) (s : loop) : outcome loop :=
  match fuel with
  | O => Trap OutOfFuel
  | S fuel =>
      s ← timer_fire s;
      due ← timer_due s;
      if due : bool then timers_loop fuel s else Ok s
  end.

(** Every pass takes one timer that was due: [timercnt] passes are enough. *)
Definition timers_reify (s : loop) : outcome loop :=
  due ← timer_due s;
  if due : bool then
    s ← timers_loop (Z.to_nat (timercnt s)) s;
    feed_reverse_done s EV_TIMER
  else Ok s.

(** ** The invariant of a loop *)

(** What each part of the loop reads of a watcher. *)
Definition timer_view (x : watcher T) : option (Z * T * T) :=
  match kind x with EvTimer a r => Some (active x, a, r) | EvIo _ _ => None end.
Definition io_view (x : watcher T) : option (Z * Z * Z) :=
  match kind x with EvIo fd ev => Some (active x, fd, ev) | EvTimer _ _ => None end.
Definition pend_view (x : watcher T) : Z * Z := (pending x, priority x).

Local Abbreviation wstore := (gmap nat (watcher T)).

(** The timer heap: what [verify_heap] asserts, and that it holds all active
    timers. *)
Record timers_ok (h : gmap Z (ANHE T)) (max N : Z) (ws : wstore) : Prop := mkTimersOk {
  tm_cnt : 0 <= N;
  tm_max : 0 <= max /\ (N = 0 \/ N + HEAP0 <= max);
  tm_full : forall i, in_heap N i -> is_Some (h !! i);
  tm_view : forall i e, in_heap N i -> h !! i = Some e ->
    exists r, ws !! ANHE_w e ≫= timer_view = Some (i, ANHE_at e, r) /\ tle tzero r = true;
  tm_ord : heap_ord h N;
  tm_all : forall w k a r, ws !! w ≫= timer_view = Some (k, a, r) -> k <> 0 ->
    in_heap N k /\ h !! k = Some (mkANHE a w) }.

(** The pending queues: an entry is a watcher that knows its place, or the dummy. *)
Record pend_ok (ps : list (list ANPENDING)) (ws : wstore) : Prop := mkPendOk {
  pd_len : Z.of_nat (length ps) = NUMPRI;
  pd_pri : forall w p pri, pend_view <$> ws !! w = Some (p, pri) -> EV_MINPRI <= pri <= EV_MAXPRI;
  pd_entry : forall n q j w ev, ps !! n = Some q -> q !! j = Some (mkPend (Some w) ev) ->
    pend_view <$> ws !! w = Some (Z.of_nat j + 1, Z.of_nat n + EV_MINPRI);
  pd_all : forall w p pri, pend_view <$> ws !! w = Some (p, pri) -> p <> 0 ->
    0 < p /\ exists q ev, ps !! Z.to_nat (pri - EV_MINPRI) = Some q /\
      q !! Z.to_nat (p - 1) = Some (mkPend (Some w) ev) }.

(** The descriptors: every list holds the active watchers of its descriptor,
    a descriptor without a change is in step with its watchers, and the
    backend was told what [events] says. *)
Record io_ok (as_ : list ANFD) (ch : list Z) (tl : gmap Z Z) (ws : wstore) : Prop := mkIoOk {
  io_head : forall n a w, as_ !! n = Some a -> w ∈ fd_head a ->
    exists k ev, ws !! w ≫= io_view = Some (k, Z.of_nat n, ev) /\ k <> 0 /\ is_mask ev;
  io_nodup : forall n a, as_ !! n = Some a -> NoDup (fd_head a);
  io_all : forall w k fd ev, ws !! w ≫= io_view = Some (k, fd, ev) -> k <> 0 ->
    0 <= fd /\ exists a, as_ !! Z.to_nat fd = Some a /\ w ∈ fd_head a;
  io_changes : forall fd, fd ∈ ch <->
    0 <= fd /\ exists a, as_ !! Z.to_nat fd = Some a /\ fd_reify_flag a <> 0;
  io_ch_nodup : NoDup ch;
  io_sync : forall n a, as_ !! n = Some a -> fd_reify_flag a = 0 ->
    union_events ws (fd_head a) 0 = Ok (fd_events a);
  io_told : forall n a, as_ !! n = Some a -> default 0 (tl !! Z.of_nat n) = fd_events a;
  io_told_dom : forall fd, is_Some (tl !! fd) -> 0 <= fd < Z.of_nat (length as_) }.

(** The count of active watchers. *)
Definition count_ok (n : Z) (ws : wstore) : Prop :=
  exists X : gset nat, n = Z.of_nat (size X) /\
    forall w, w ∈ X <-> is_active <$> ws !! w = Some true.

Record ev_ok (s : loop) : Prop := mkEvOk {
  ok_tm : timers_ok (timers s) (timermax s) (timercnt s) (watchers s);
  ok_pd : pend_ok (pendings s) (watchers s);
  ok_fd : io_ok (anfds s) (fdchanges s) (told s) (watchers s);
  ok_cnt : count_ok (activecnt s) (watchers s) }.

(** *** Each part depends on its view of the watchers only *)

Lemma timers_ok_view h max N ws ws' :
  (forall w, ws' !! w ≫= timer_view = ws !! w ≫= timer_view) ->
  timers_ok h max N ws -> timers_ok h max N ws'.
Proof.
  intros Hv [H1 H2 H3 H4 H5 H6]. split; [done..| |done|].
  - intros i e Hi He. rewrite Hv. by apply H4.
  - intros w k a r. rewrite Hv. apply H6.
Qed.

Lemma pend_ok_view ps ws ws' :
  (forall w, pend_view <$> ws' !! w = pend_view <$> ws !! w) -> pend_ok ps ws -> pend_ok ps ws'.
Proof.
  intros Hv [H1 H2 H3 H4]. split; [done|..].
  - intros w p pri. rewrite Hv. apply H2.
  - intros n q j w ev. rewrite Hv. apply H3.
  - intros w p pri. rewrite Hv. apply H4.
Qed.

Lemma union_events_view ws ws' l acc :
  (forall w, w ∈ l -> ws' !! w ≫= io_view = ws !! w ≫= io_view) ->
  (forall w, w ∈ l -> is_Some (ws !! w ≫= io_view)) ->
  union_events ws' l acc = union_events ws l acc.
Proof.
  revert acc. induction l as [|w l IH]; intros acc Hv Hs; [done|]. cbn [union_events].
  pose proof (Hv w ltac:(left)) as Ev. destruct (Hs w ltac:(left)) as [[[k fd] ev] E].
  rewrite E in Ev. unfold io_view in E, Ev.
  destruct (ws !! w) as [x|]; [|done]. destruct (ws' !! w) as [x'|]; [|done]. cbn in E, Ev |- *.
  unfold io_of. destruct (kind x); [|done]. destruct (kind x'); [|done]. simplify_eq. cbn.
  apply IH; intros v Hv'; [apply Hv|apply Hs]; by right.
Qed.

Lemma io_ok_view as_ ch tl ws ws' :
  (forall w, ws' !! w ≫= io_view = ws !! w ≫= io_view) -> io_ok as_ ch tl ws -> io_ok as_ ch tl ws'.
Proof.
  intros Hv [H1 H2 H3 H4 H5 H6 H7 H8]. split; [|done| |done|done| |done|done].
  - intros n a w. rewrite Hv. apply H1.
  - intros w k fd ev. rewrite Hv. apply H3.
  - intros n a Ha Hr. rewrite <-(H6 n a Ha Hr). apply union_events_view; [done|].
    intros w Hw. destruct (H1 n a w Ha Hw) as (k & ev & -> & _). done.
Qed.

Lemma count_ok_view n ws ws' :
  (forall w, is_active <$> ws' !! w = is_active <$> ws !! w) -> count_ok n ws -> count_ok n ws'.
Proof. intros Hv (X & Hn & HX). exists X. split; [done|]. intros w. by rewrite HX, Hv. Qed.

Lemma count_ok_add n ws ws' w :
  is_active <$> ws !! w = Some false -> is_active <$> ws' !! w = Some true ->
  (forall v, v <> w -> is_active <$> ws' !! v = is_active <$> ws !! v) ->
  count_ok n ws -> count_ok (n + 1) ws'.
Proof.
  intros H0 H1 Hv (X & -> & HX). exists ({[w]} ∪ X). split.
  - rewrite size_union, size_singleton; [lia|]. apply disjoint_singleton_l. rewrite HX. congruence.
  - intros v. rewrite elem_of_union, elem_of_singleton, HX. destruct (decide (v = w)) as [->|Hvw].
    + split; [done|by left].
    + rewrite Hv by done. split; [by intros [|]|by right].
Qed.

Lemma count_ok_sub n ws ws' w :
  is_active <$> ws !! w = Some true -> is_active <$> ws' !! w <> Some true ->
  (forall v, v <> w -> is_active <$> ws' !! v = is_active <$> ws !! v) ->
  count_ok n ws -> count_ok (n - 1) ws'.
Proof.
  intros H0 H1 Hv (X & -> & HX). exists (X ∖ {[w]}). split.
  - assert (w ∈ X) as Hw by by apply HX. rewrite size_difference by (by apply singleton_subseteq_l).
    rewrite size_singleton. assert (size X <> 0)%nat; [|lia].
    intros E%size_empty_inv. by apply (E w) in Hw.
  - intros v. rewrite elem_of_difference, elem_of_singleton, HX. destruct (decide (v = w)) as [->|Hvw].
    + split; [by intros []|done].
    + rewrite Hv by done. split; [by intros []|done].
Qed.

(** ** The pending queues *)

Definition names (w : nat) (p : ANPENDING) : bool := bool_decide (p_w p = Some w).

(** The queues with every entry of [w] replaced by the dummy. *)
Definition clear_e (w : nat) (p : ANPENDING) : ANPENDING :=
  if names w p then mkPend None (p_events p) else p.
Definition clear_w (w : nat) (ps : list (list ANPENDING)) : list (list ANPENDING) :=
  fmap (M := list) (fmap (M := list) (clear_e w)) ps.

(** A queue after an event for [w]. *)
Definition feed_q (w : nat) (rev : Z) (q : list ANPENDING) : list ANPENDING :=
  if existsb (names w) q
  then fmap (M := list) (fun p => if names w p then mkPend (p_w p) (Z.lor (p_events p) rev) else p) q
  else q ++ [mkPend (Some w) rev].

Lemma names_spec w p : names w p = true <-> p_w p = Some w.
Proof. unfold names. by rewrite bool_decide_eq_true. Qed.

Lemma pd_queue ps ws w x :
  pend_ok ps ws -> ws !! w = Some x -> exists q, ps !! Z.to_nat (ABSPRI x) = Some q /\ 0 <= ABSPRI x < NUMPRI.
Proof.
  intros Hp Hx. pose proof (pd_pri _ _ Hp w (pending x) (priority x)) as Hr. rewrite Hx in Hr.
  specialize (Hr eq_refl). pose proof (pd_len _ _ Hp) as Hl. unfold ABSPRI, NUMPRI, EV_MINPRI, EV_MAXPRI in *.
  destruct (lookup_lt_is_Some_2 ps (Z.to_nat (priority x - -2))) as [q Hq]; [lia|]. eauto with lia.
Qed.

Lemma queue_lookup s pri q : 0 <= pri -> pendings s !! Z.to_nat pri = Some q -> queue s pri = Ok q.
Proof. intros H E. unfold queue. rewrite E. by destruct (Z.ltb_spec pri 0); [lia|]. Qed.

(** An entry of [w] is where the watcher says. *)
Lemma pd_entry_at ps ws w x n q j p :
  pend_ok ps ws -> ws !! w = Some x -> ps !! n = Some q -> q !! j = Some p -> names w p = true ->
  pending x = Z.of_nat j + 1 /\ n = Z.to_nat (ABSPRI x).
Proof.
  intros Hp Hx Hq Hj Hn%names_spec. destruct p as [pw ev]. cbn in Hn. subst pw.
  pose proof (pd_entry _ _ Hp n q j w ev Hq Hj) as E. rewrite Hx in E. unfold pend_view in E. cbn in E.
  injection E as E1 E2. unfold ABSPRI. split; [done|]. rewrite E2. lia.
Qed.

Lemma set_pending_id (x : watcher T) : set_pending x (pending x) = x.
Proof. by destruct x. Qed.

Lemma put_w_id s w x : watchers s !! w = Some x -> put_w s w x = s.
Proof. intros Hx. unfold put_w, with_watchers. rewrite insert_id by done. by destruct s. Qed.

Lemma clear_pending_eq s w x :
  pend_ok (pendings s) (watchers s) -> watchers s !! w = Some x ->
  clear_pending s w = Ok (put_w (with_pendings s (clear_w w (pendings s))) w (set_pending x 0)).
Proof.
  intros Hp Hx. unfold clear_pending, get_w. rewrite Hx. cbn [the mbind outcome_bind].
  destruct (pd_queue _ _ w x Hp Hx) as (q & Hq & Hr).
  destruct (Z.eqb_spec (pending x) 0) as [Hz|Hz]; cbn [negb].
  - assert (clear_w w (pendings s) = pendings s) as ->.
    { unfold clear_w. apply list_eq. intros n. rewrite list_lookup_fmap.
      destruct (pendings s !! n) as [q'|] eqn:Hn; [|done]. cbn. f_equal. apply list_eq. intros j.
      rewrite list_lookup_fmap. destruct (q' !! j) as [p|] eqn:Hj; [|done]. cbn. f_equal.
      unfold clear_e. destruct (names w p) eqn:Hw; [|done].
      destruct (pd_entry_at _ _ w x n q' j p Hp Hx Hn Hj Hw). lia. }
    rewrite <-Hz, set_pending_id. f_equal. symmetry. rewrite put_w_id by done. by destruct s.
  - destruct (pd_all _ _ Hp w (pending x) (priority x)) as (Hpos & q' & ev & Hq' & Hj);
      [by rewrite Hx|done|]. unfold ABSPRI in Hq, Hr. rewrite Hq in Hq'. injection Hq' as <-.
    rewrite (queue_lookup s _ q) by (unfold ABSPRI; lia || done). cbn [mbind outcome_bind]. rewrite Hj.
    f_equal. unfold put_w, put_queue, with_watchers, with_pendings. cbn. f_equal.
    unfold clear_w. apply list_eq. intros n. rewrite list_lookup_fmap.
    destruct (decide (n = Z.to_nat (ABSPRI x))) as [->|Hn].
    + rewrite list_lookup_insert_eq by (apply lookup_lt_is_Some_1; eauto). unfold ABSPRI. rewrite Hq. cbn. f_equal.
      apply list_eq. intros j. rewrite list_lookup_fmap.
      destruct (decide (j = Z.to_nat (pending x - 1))) as [->|Hne].
      * rewrite list_lookup_insert_eq by (apply lookup_lt_is_Some_1; eauto). rewrite Hj. cbn.
        unfold clear_e, names. cbn. by rewrite bool_decide_eq_true_2.
      * rewrite list_lookup_insert_ne by done. destruct (q !! j) as [p|] eqn:Ej; [|done]. cbn. f_equal.
        unfold clear_e. destruct (names w p) eqn:Hw; [|done].
        destruct (pd_entry_at _ _ w x _ q j p Hp Hx Hq Ej Hw). lia.
    + rewrite list_lookup_insert_ne by done. destruct (pendings s !! n) as [q'|] eqn:En; [|done].
      cbn. f_equal. apply list_eq. intros j. rewrite list_lookup_fmap.
      destruct (q' !! j) as [p|] eqn:Ej; [|done]. cbn. f_equal. unfold clear_e. destruct (names w p) eqn:Hw; [|done].
      destruct (pd_entry_at _ _ w x n q' j p Hp Hx En Ej Hw). done.
Qed.

(** No entry of the queues names [w]. *)
Definition unqueued (w : nat) (ps : list (list ANPENDING)) : Prop :=
  forall q p, q ∈ ps -> p ∈ q -> p_w p <> Some w.

Lemma clear_e_w w p v : p_w (clear_e w p) = Some v <-> p_w p = Some v /\ v <> w.
Proof.
  unfold clear_e. destruct (names w p) eqn:Hn.
  - apply names_spec in Hn. rewrite Hn. cbn. split; [done|]. by intros [[= ->] ?].
  - split; [|by intros []]. intros E. split; [done|]. intros ->. apply names_spec in E. congruence.
Qed.

Lemma clear_w_unqueued w ps : unqueued w (clear_w w ps).
Proof.
  intros q p (q' & -> & Hq)%list_elem_of_fmap (p' & -> & Hp)%list_elem_of_fmap E.
  by apply clear_e_w in E as [_ ?].
Qed.

Lemma clear_w_ok ps ws w x :
  pend_ok ps ws -> ws !! w = Some x -> pend_ok (clear_w w ps) (<[w := set_pending x 0]> ws).
Proof.
  intros Hp Hx. pose proof Hp as [H1 H2 H3 H4]. split.
  - unfold clear_w. by rewrite length_fmap.
  - intros v p pri. destruct (decide (v = w)) as [->|Hv].
    + rewrite lookup_insert_eq. cbn. intros [= <- <-]. apply (H2 w (pending x)). by rewrite Hx.
    + rewrite lookup_insert_ne by done. apply H2.
  - intros n q j v ev. unfold clear_w. rewrite list_lookup_fmap.
    destruct (ps !! n) as [q0|] eqn:Hn; [|done]. cbn. intros [= <-]. rewrite list_lookup_fmap.
    destruct (q0 !! j) as [p0|] eqn:Hj; [|done]. cbn. intros [= E].
    assert (Ev : p_w (clear_e w p0) = Some v) by by rewrite E. apply clear_e_w in Ev as [Ev Hvw].
    rewrite lookup_insert_ne by done. apply (H3 n q0 j v (p_events p0) Hn). rewrite Hj, <-Ev. by destruct p0.
  - intros v p pri. destruct (decide (v = w)) as [->|Hv].
    + rewrite lookup_insert_eq. cbn. by intros [= <- <-].
    + rewrite lookup_insert_ne by done. intros E Hnz.
      destruct (H4 v p pri E Hnz) as (Hpos & q & ev & Hq & Hj). split; [done|].
      exists (clear_e w <$> q), ev. unfold clear_w. rewrite !list_lookup_fmap, Hq, Hj.
      split; [done|]. cbn. f_equal. unfold clear_e, names. cbn.
      rewrite bool_decide_eq_false_2; [done|]. by intros [= ->].
Qed.

(** What [pending] becomes when an event is fed. *)
Definition fed_pending (x : watcher T) (q : list ANPENDING) : Z :=
  if pending x =? 0 then Z.of_nat (length q) + 1 else pending x.

Lemma existsb_names_iff ps ws w x q :
  pend_ok ps ws -> ws !! w = Some x -> ps !! Z.to_nat (ABSPRI x) = Some q ->
  (existsb (names w) q = true <-> pending x <> 0).
Proof.
  intros Hp Hx Hq. rewrite existsb_exists. split.
  - intros (p & Hin%list_elem_of_In & Hn). apply list_elem_of_lookup_1 in Hin as [j Hj].
    destruct (pd_entry_at _ _ w x _ q j p Hp Hx Hq Hj Hn). lia.
  - intros Hnz. destruct (pd_all _ _ Hp w (pending x) (priority x)) as (_ & q' & ev & Hq' & Hj);
      [by rewrite Hx|done|]. unfold ABSPRI in Hq. rewrite Hq in Hq'. injection Hq' as <-.
    exists (mkPend (Some w) ev). split; [|by apply names_spec].
    apply list_elem_of_In. by eapply list_elem_of_lookup_2.
Qed.

Lemma feed_event_eq s w x rev q :
  pend_ok (pendings s) (watchers s) -> watchers s !! w = Some x ->
  pendings s !! Z.to_nat (ABSPRI x) = Some q ->
  ev_feed_event s w rev = Ok (put_queue (put_w s w (set_pending x (fed_pending x q))) (ABSPRI x)
                                (feed_q w rev q)).
Proof.
  intros Hp Hx Hq. unfold ev_feed_event, get_w. rewrite Hx. cbn [the mbind outcome_bind].
  destruct (pd_queue _ _ w x Hp Hx) as (_ & _ & Hr). rewrite (queue_lookup s _ q) by (lia || done).
  cbn [mbind outcome_bind]. pose proof (existsb_names_iff _ _ w x q Hp Hx Hq) as Hex.
  unfold fed_pending, feed_q. destruct (Z.eqb_spec (pending x) 0) as [Hz|Hz]; cbn [negb].
  - destruct (existsb (names w) q); [|done]. by destruct (proj1 Hex eq_refl).
  - rewrite (proj2 Hex Hz). destruct (pd_all _ _ Hp w (pending x) (priority x)) as (_ & q' & ev & Hq' & Hj);
      [by rewrite Hx|done|]. unfold ABSPRI in Hq. rewrite Hq in Hq'. injection Hq' as <-.
    rewrite Hj. f_equal. rewrite set_pending_id, put_w_id by done. f_equal. cbn [p_w p_events].
    apply list_eq. intros j. rewrite list_lookup_fmap.
    destruct (decide (j = Z.to_nat (pending x - 1))) as [->|Hne].
    + rewrite list_lookup_insert_eq by (apply lookup_lt_is_Some_1; eauto). rewrite Hj. cbn.
      unfold names. cbn. by rewrite bool_decide_eq_true_2.
    + rewrite list_lookup_insert_ne by done. destruct (q !! j) as [p|] eqn:Ej; [|done]. cbn. f_equal.
      destruct (names w p) eqn:Hw; [|done]. destruct (pd_entry_at _ _ w x _ q j p Hp Hx Hq Ej Hw). lia.
Qed.

Lemma feed_q_lookup w rev q j p' :
  feed_q w rev q !! j = Some p' ->
  (exists p, q !! j = Some p /\ p_w p' = p_w p) \/
  (existsb (names w) q = false /\ j = length q /\ p' = mkPend (Some w) rev).
Proof.
  unfold feed_q. destruct (existsb (names w) q).
  - rewrite list_lookup_fmap. destruct (q !! j) as [p|]; [|done]. cbn. intros [= <-]. left. exists p.
    split; [done|]. by destruct (names w p).
  - intros [Hj|[Hl Hj]]%lookup_app_Some; [eauto|].
    apply list_lookup_singleton_Some in Hj as [Hj <-]. right. split_and!; [done|lia|done].
Qed.

Lemma feed_q_keeps w rev q j p : q !! j = Some p -> exists ev, feed_q w rev q !! j = Some (mkPend (p_w p) ev).
Proof.
  intros Hj. unfold feed_q. destruct (existsb (names w) q).
  - rewrite list_lookup_fmap, Hj. cbn. destruct (names w p); [eauto|]. exists (p_events p). by destruct p.
  - exists (p_events p). rewrite lookup_app_l by (apply lookup_lt_is_Some_1; eauto). rewrite Hj. by destruct p.
Qed.

Lemma feed_ok ps ws w x rev q :
  pend_ok ps ws -> ws !! w = Some x -> ps !! Z.to_nat (ABSPRI x) = Some q ->
  pend_ok (<[Z.to_nat (ABSPRI x) := feed_q w rev q]> ps) (<[w := set_pending x (fed_pending x q)]> ws).
Proof.
  intros Hp Hx Hq. pose proof Hp as [H1 H2 H3 H4].
  destruct (pd_queue _ _ w x Hp Hx) as (_ & _ & Hr).
  pose proof (existsb_names_iff _ _ w x q Hp Hx Hq) as Hex.
  assert (Hlt : (Z.to_nat (ABSPRI x) < length ps)%nat) by (apply lookup_lt_is_Some_1; eauto).
  split.
  - by rewrite length_insert.
  - intros v p pri. destruct (decide (v = w)) as [->|Hv].
    + rewrite lookup_insert_eq. cbn. intros [= <- <-]. apply (H2 w (pending x)). by rewrite Hx.
    + rewrite lookup_insert_ne by done. apply H2.
  - assert (Hold : forall n q0 j v ev, ps !! n = Some q0 -> q0 !! j = Some (mkPend (Some v) ev) ->
      pend_view <$> <[w := set_pending x (fed_pending x q)]> ws !! v = Some (Z.of_nat j + 1, Z.of_nat n + EV_MINPRI)).
    { intros n q0 j v ev Hn Hj. pose proof (H3 n q0 j v ev Hn Hj) as E.
      destruct (decide (v = w)) as [->|Hv]; [|by rewrite lookup_insert_ne].
      rewrite lookup_insert_eq. rewrite Hx in E. unfold pend_view in *. cbn in *. unfold fed_pending.
      injection E as E1 E2. rewrite E1, (proj2 (Z.eqb_neq _ _)) by lia. by rewrite E2. }
    intros n q' j v ev. destruct (decide (n = Z.to_nat (ABSPRI x))) as [->|Hn].
    + rewrite list_lookup_insert_eq by done. intros [= <-] Hj.
      destruct (feed_q_lookup w rev q j _ Hj) as [(p & Ep & Ew)|(He & -> & [= -> ->])].
      * cbn in Ew. apply (Hold _ q j v (p_events p)); [done|]. rewrite Ep, Ew. by destruct p.
      * rewrite lookup_insert_eq. unfold pend_view, fed_pending. cbn.
        destruct (Z.eqb_spec (pending x) 0) as [_|Hz]; [|by rewrite (proj2 Hex Hz) in He].
        do 2 f_equal. unfold ABSPRI in *. lia.
    + rewrite list_lookup_insert_ne by done. eauto.
  - intros v p pri. destruct (decide (v = w)) as [->|Hv].
    + rewrite lookup_insert_eq. cbn. intros [= <- <-] Hnz. fold (ABSPRI x).
      rewrite list_lookup_insert_eq by done. unfold fed_pending in *.
      destruct (Z.eqb_spec (pending x) 0) as [Hz|Hz].
      * split; [lia|]. exists (feed_q w rev q), rev. split; [done|]. unfold feed_q.
        destruct (existsb (names w) q); [by destruct (proj1 Hex eq_refl)|].
        by rewrite list_lookup_middle by lia.
      * destruct (H4 w (pending x) (priority x)) as (Hpos & q' & ev & Hq' & Hj); [by rewrite Hx|done|].
        fold (ABSPRI x) in Hq'. rewrite Hq in Hq'. injection Hq' as <-. split; [done|].
        destruct (feed_q_keeps w rev q _ _ Hj) as [ev' E]. eauto.
    + rewrite lookup_insert_ne by done. intros E Hnz.
      destruct (H4 v p pri E Hnz) as (Hpos & q0 & ev & Hq0 & Hj). split; [done|].
      destruct (decide (Z.to_nat (pri - EV_MINPRI) = Z.to_nat (ABSPRI x))) as [Epri|Hn].
      * rewrite Epri in Hq0 |- *. rewrite Hq in Hq0. injection Hq0 as <-. rewrite list_lookup_insert_eq by done.
        destruct (feed_q_keeps w rev q _ _ Hj) as [ev' E']. eauto.
      * rewrite list_lookup_insert_ne by done. eauto.
Qed.
End Loop.

(** Evaluates the fields of an updated loop. *)
Ltac ev_cbn :=
  unfold put_w, put_queue, put_anfd, set_active, set_pending, set_kind, with_watchers, with_pendings,
    with_rfeeds, with_timers, with_io, with_activecnt, with_now, ev_break;
  cbn [mn_now loop_done anfds fdchanges told pendings rfeeds timers timermax timercnt activecnt watchers
       active pending priority kind mbind outcome_bind the fst snd negb ANHE_at ANHE_w
       fd_head fd_events fd_reify_flag].
