(* ===== verification/EvTimer.v ===== *)
(** * The timers of a libev loop (deps/libev-4.11/ev.c)

    What the timer operations of [EvLoop] do, over the heap of [EvHeap]: each
    returns, keeps the invariant of the loop and changes the abstract state of
    one timer, that is whether it is armed, its deadline and its period. *)

From S2P Require Import Prelude Event EvHeap EvLoop.
From Stdlib Require Import Sorted.

(** ** Growing arrays *)

Lemma double_until_ok fuel : forall ncur cnt,
  0 < ncur -> cnt <= ncur * 2 + Z.of_nat fuel ->
  exists n, double_until (S fuel) ncur cnt = Ok n /\ cnt <= n /\ 2 * ncur <= n.
Proof.
  induction fuel as [|fuel IH]; intros ncur cnt Hn Hf; cbn [double_until];
    rewrite Z.shiftl_mul_pow2 by lia; change (2 ^ 1) with 2;
    (destruct (Z.ltb_spec (ncur * 2) cnt) as [Hlt|Hge]; [|exists (ncur * 2); split_and!; [done|lia|lia]]); [lia|].
  destruct (IH (ncur * 2) cnt) as (n & E & H1 & H2); [lia|lia|]. exists n. split_and!; [done|lia|lia].
Qed.

(** The new capacity is never below the need. *)
Lemma array_nextsize_ok elem cur cnt :
  0 < elem -> 0 <= cur -> exists n, array_nextsize elem cur cnt = Ok n /\ cnt <= n /\ cur < n.
Proof.
  intros He Hc. unfold array_nextsize.
  destruct (double_until_ok (Z.to_nat cnt) (cur + 1) cnt) as (n & -> & H1 & H2); [lia|lia|]. cbn [mbind outcome_bind]. eexists. split; [done|].
  destruct (Z.ltb_spec (MALLOC_ROUND - SIZEOF_POINTER * 4) (elem * n)) as [Hlt|Hge]; [|lia].
  unfold MALLOC_ROUND, SIZEOF_POINTER. change (4096 - 1) with (Z.ones 12).
  rewrite <-Z.ldiff_land, Z.ldiff_ones_r by lia.
  rewrite Z.shiftl_mul_pow2, Z.shiftr_div_pow2 by lia. change (2 ^ 12) with 4096. change (Z.ones 12) with 4095.
  set (m := (n * elem + elem + 4095 + 8 * 4) / 4096 * 4096 - 8 * 4).
  assert (Hm : n * elem + elem <= m) by (unfold m; Z.to_euclidean_division_equations; lia).
  assert (n + 1 <= Z.quot m elem); [|lia]. rewrite Z.quot_div_nonneg by nia.
  apply Z.div_le_lower_bound; nia.
Qed.

Lemma array_needsize_ok elem cur cnt :
  0 < elem -> 0 <= cur -> exists n, array_needsize elem cur cnt = Ok n /\ cnt <= n /\ cur <= n.
Proof.
  intros He Hc. unfold array_needsize. destruct (Z.ltb_spec cur cnt) as [Hlt|Hge]; [|exists cur; split_and!; [done|lia|lia]].
  destruct (array_nextsize_ok elem cur cnt He Hc) as (n & -> & ? & ?). exists n. split_and!; [done|lia|lia].
Qed.

Section Timers.
Context {T : Type} `{TL : TstampLaws T}.
Local Abbreviation loop := (ev_loop T).
Local Abbreviation harray := (gmap Z (ANHE T)).
Local Abbreviation wstore := (gmap nat (watcher T)).

(** ** The abstract state of a timer *)

(** Whether it is armed, its deadline (the time left when it is not armed) and
    its period. *)
Definition tstate (ws : wstore) (w : nat) : option (bool * T * T) :=
  '(k, a, r) ← ws !! w ≫= timer_view; Some (negb (k =? 0), a, r).

(** The element [e] of the heap is a timer that is not stopped. *)
Definition elem_ok (ws : wstore) (e : ANHE T) : Prop :=
  exists x r, ws !! ANHE_w e = Some x /\ kind x = EvTimer (ANHE_at e) r /\ active x <> 0 /\
    tle tzero r = true.

Lemma timer_view_Some (ws : wstore) w k a r :
  ws !! w ≫= timer_view = Some (k, a, r) <->
  exists x, ws !! w = Some x /\ active x = k /\ kind x = EvTimer a r.
Proof.
  unfold timer_view. destruct (ws !! w) as [x|]; cbn; [|split; [done|by intros (? & ? & _)]].
  split.
  - destruct (kind x) eqn:Hk; [done|]. intros [= <- <- <-]. eauto.
  - intros (? & [= <-] & <- & ->). done.
Qed.

Lemma timers_slots h max N ws : timers_ok h max N ws -> slots h N /\ indexed h ws N.
Proof.
  intros Hok. split; [split|].
  - apply (tm_full _ _ _ _ Hok).
  - intros i j a b Hi Hj Ha Hb Hw.
    destruct (tm_view _ _ _ _ Hok i a Hi Ha) as (r & E & _), (tm_view _ _ _ _ Hok j b Hj Hb) as (r' & E' & _).
    rewrite Hw in E. congruence.
  - intros i e Hi He. destruct (tm_view _ _ _ _ Hok i e Hi He) as (r & E & _).
    apply timer_view_Some in E as (x & Hx & Ha & _). eauto.
Qed.

Lemma timers_elem h max N ws e : timers_ok h max N ws -> has h N e -> elem_ok ws e.
Proof.
  intros Hok (i & Hi & He). destruct (tm_view _ _ _ _ Hok i e Hi He) as (r & E & Hr).
  apply timer_view_Some in E as (x & Hx & Ha & Hk). exists x, r. split_and!; [done|done| |done].
  unfold in_heap, HEAP0, DHEAP in Hi. lia.
Qed.

(** The armed timers are the elements of the heap. *)
Lemma armed_has h max N ws w a :
  timers_ok h max N ws ->
  ((exists r, tstate ws w = Some (true, a, r)) <-> has h N (mkANHE a w)).
Proof.
  intros Hok. unfold tstate. split.
  - intros [r E]. destruct (ws !! w ≫= timer_view) as [[[k a'] r']|] eqn:Ev; [|done]. cbn in E.
    injection E as Hk -> ->. destruct (Z.eqb_spec k 0) as [|Hnz]; [done|].
    destruct (tm_all _ _ _ _ Hok w k a r Ev Hnz) as [Hi He]. by exists k.
  - intros (i & Hi & He). destruct (tm_view _ _ _ _ Hok i _ Hi He) as (r & E & _). cbn in E.
    exists r. rewrite E. cbn. destruct (Z.eqb_spec i 0); [|done].
    unfold in_heap, HEAP0, DHEAP in Hi. lia.
Qed.

(** A sift leaves the abstract state of every timer. *)
Lemma sift_tstate N h ws h' ws' w :
  (forall e, has h N e -> elem_ok ws e) -> indexed h' ws' N -> sifted N (h, ws) (h', ws') ->
  tstate ws' w = tstate ws w.
Proof.
  intros He HI Hs. unfold tstate.
  destruct (sift_ws _ _ _ Hs w) as [f Ef]. cbn [snd] in Ef.
  destruct (ws !! w) as [x|] eqn:Hx; [|by rewrite Ef].
  rewrite Ef. cbn. unfold timer_view. cbn. destruct (kind x) as [|a r] eqn:Hk; [done|]. cbn.
  do 3 f_equal. destruct (sift_frame _ _ _ Hs w) as [(e & (i & Hi & Hie)%(sift_has _ _ _ Hs) & <-)|Hf].
  - destruct (HI i e Hi Hie) as (x' & Hx' & Ha). rewrite Ef in Hx'. injection Hx' as <-. cbn in Ha.
    specialize (Ha Logic.I).
    destruct (He e) as (x0 & r0 & Hx0 & _ & Hnz & _); [apply (sift_has _ _ _ Hs); by exists i|].
    simplify_eq. rewrite (proj2 (Z.eqb_neq _ _) Hnz), (proj2 (Z.eqb_neq (f x) 0)); [done|].
    unfold in_heap, HEAP0, DHEAP in Hi. lia.
  - cbn [snd] in Hf. rewrite Hf, Hx in Ef. injection Ef as Ef. by rewrite Ef at 2.
Qed.

(** A heap function re-establishes the invariant of the timers, for every store
    that differs from its result in timers [ex] that are stopped. *)
Lemma restored_timers N max h ws r (ex : nat -> Prop) :
  0 <= N -> 0 <= max /\ (N = 0 \/ N + HEAP0 <= max) ->
  (forall e, has h N e -> elem_ok ws e /\ ~ ex (ANHE_w e)) ->
  (forall w k a r, ~ ex w -> ws !! w ≫= timer_view = Some (k, a, r) -> k <> 0 ->
    exists e, has h N e /\ ANHE_w e = w) ->
  restored N (h, ws) r ->
  exists h' ws', r = Ok (h', ws') /\ sifted N (h, ws) (h', ws') /\
    (forall w, tstate ws' w = tstate ws w) /\
    forall ws'', (forall w, ~ ex w -> ws'' !! w = ws' !! w) ->
      (forall w k a r, ex w -> ws'' !! w ≫= timer_view = Some (k, a, r) -> k = 0) ->
      timers_ok h' max N ws''.
Proof.
  intros HN Hmax Hel Hall (h' & ws' & -> & HS & HI & HO & Hs). exists h', ws'.
  assert (Hts : forall w, tstate ws' w = tstate ws w).
  { intros w. eapply sift_tstate; [|done|done]. intros e He. by apply Hel. }
  assert (Hv : forall i e, in_heap N i -> h' !! i = Some e ->
    exists r, ws' !! ANHE_w e ≫= timer_view = Some (i, ANHE_at e, r) /\ tle tzero r = true).
  { intros i e Hi He. destruct (HI i e Hi He) as (x' & Hx' & Ha). specialize (Ha Logic.I).
    destruct (Hel e) as [(x & r & Hx & Hk & _ & Hr) _]; [apply (sift_has _ _ _ Hs); by exists i|].
    exists r. split; [|done]. apply timer_view_Some. exists x'. split_and!; [done|done|].
    destruct (sift_ws _ _ _ Hs (ANHE_w e)) as [f Ef]. cbn [snd] in Ef.
    rewrite Hx, Hx' in Ef. by injection Ef as ->. }
  split_and!; [done|done|done|]. intros ws'' Heq Hex. split; [done|done| | |done|].
  - apply (slots_full _ _ HS).
  - intros i e Hi He. rewrite Heq; [by apply Hv|]. apply Hel, (sift_has _ _ _ Hs). by exists i.
  - intros w k a r Ew Hk. assert (Hnx : ~ ex w) by (intros Hx; by destruct Hk; apply (Hex w k a r)).
    rewrite (Heq w Hnx) in Ew.
    assert (Hin : exists e, has h N e /\ ANHE_w e = w).
    { destruct (sift_frame _ _ _ Hs w) as [|Hf]; [done|]. cbn [snd] in Hf. rewrite Hf in Ew. eauto. }
    destruct Hin as (e & (i & Hi & He)%(sift_has _ _ _ Hs) & <-). cbn [fst] in He.
    destruct (Hv i e Hi He) as (r' & Ev & _). rewrite Ew in Ev. injection Ev as -> -> ->.
    split; [done|]. rewrite He. by destruct e.
Qed.

(** ** What a timer operation leaves alone *)

Record tframe (s s' : loop) : Prop := mkTframe {
  tf_now : mn_now s' = mn_now s;
  tf_done : loop_done s' = loop_done s;
  tf_anfds : anfds s' = anfds s;
  tf_changes : fdchanges s' = fdchanges s;
  tf_told : told s' = told s;
  tf_rfeeds : rfeeds s' = rfeeds s;
  tf_pendings : pendings s' = pendings s;
  tf_pend : forall v, pend_view <$> watchers s' !! v = pend_view <$> watchers s !! v;
  tf_io : forall v, watchers s' !! v ≫= io_view = watchers s !! v ≫= io_view }.

Lemma tframe_refl s : tframe s s.
Proof. by split. Qed.
Lemma tframe_trans s1 s2 s3 : tframe s1 s2 -> tframe s2 s3 -> tframe s1 s3.
Proof. intros [] []. split; intros; etrans; eauto. Qed.

(** Activity is part of the views. *)
Lemma is_active_views (ws ws' : wstore) v :
  ws' !! v ≫= io_view = ws !! v ≫= io_view -> tstate ws' v = tstate ws v ->
  is_active <$> ws' !! v = is_active <$> ws !! v.
Proof.
  unfold tstate, io_view, timer_view, is_active.
  destruct (ws !! v) as [x|], (ws' !! v) as [x'|]; cbn; [|destruct (kind x); done|destruct (kind x'); done|done].
  destruct (kind x), (kind x'); cbn; try done; intros E1 E2; congruence.
Qed.

Lemma tstate_active (ws : wstore) w b a r :
  tstate ws w = Some (b, a, r) -> is_active <$> ws !! w = Some b.
Proof.
  unfold tstate, timer_view, is_active. destruct (ws !! w) as [x|]; [|done]. cbn.
  destruct (kind x); [done|]. cbn. by intros [= -> _ _].
Qed.

Lemma tframe_ok s s' :
  tframe s s' -> ev_ok s -> timers_ok (timers s') (timermax s') (timercnt s') (watchers s') ->
  count_ok (activecnt s') (watchers s') -> ev_ok s'.
Proof.
  intros F [_ Hpd Hio _] Htm Hc. split; [done| | |done].
  - rewrite (tf_pendings _ _ F). eapply pend_ok_view; [apply (tf_pend _ _ F)|done].
  - rewrite (tf_anfds _ _ F), (tf_changes _ _ F), (tf_told _ _ F).
    eapply io_ok_view; [apply (tf_io _ _ F)|done].
Qed.

Lemma sift_pend N h (ws : wstore) h' ws' v :
  sifted N (h, ws) (h', ws') -> pend_view <$> ws' !! v = pend_view <$> ws !! v.
Proof.
  intros Hs. destruct (sift_ws _ _ _ Hs v) as [f Ef]. cbn [snd] in Ef. rewrite Ef.
  by destruct (ws !! v).
Qed.

Lemma sift_io N h (ws : wstore) h' ws' v :
  (forall e, has h N e -> elem_ok ws e) -> sifted N (h, ws) (h', ws') ->
  ws' !! v ≫= io_view = ws !! v ≫= io_view.
Proof.
  intros He Hs. destruct (sift_frame _ _ _ Hs v) as [(e & Hh & <-)|Hf]; [|by cbn in Hf; rewrite Hf].
  destruct (He e Hh) as (x & r & Hx & Hk & _). destruct (sift_ws _ _ _ Hs (ANHE_w e)) as [f Ef].
  cbn [snd] in Ef. rewrite Ef, Hx. unfold io_view. cbn. by rewrite Hk.
Qed.

(** ** Starting a timer *)

Lemma has_push (h : harray) N e0 e :
  0 <= N -> (has (<[N + HEAP0 := e0]> h) (N + 1) e <-> has h N e \/ e = e0).
Proof.
  intros HN. split.
  - intros (i & Hi & He). apply lookup_insert_Some in He as [[<- <-]|[Hne He]]; [by right|].
    left. exists i. split; [unfold in_heap in *; lia|done].
  - intros [(i & Hi & He)| ->].
    + exists i. split; [unfold in_heap in *; lia|]. rewrite lookup_insert_ne; [done|]. unfold in_heap in Hi. lia.
    + exists (N + HEAP0). split; [unfold in_heap; lia|]. apply lookup_insert_eq.
Qed.

Lemma heap_ord_push (h : harray) N e0 : heap_ord h N -> heap_ord (<[N + HEAP0 := e0]> h) N.
Proof.
  intros Ho i Hi a b. pose proof (HPARENT_lt i ltac:(lia)). rewrite !lookup_insert_ne by lia. by apply Ho.
Qed.

Lemma timers_push_ready h max N ws w x a r :
  timers_ok h max N ws -> ws !! w = Some x -> active x = 0 -> tle tzero r = true ->
  let x' := mkW (N + HEAP0) (pending x) (priority x) (EvTimer a r) in
  let h1 := <[N + HEAP0 := mkANHE a w]> h in
  let ws1 := <[w := x']> ws in
  (forall e, has h1 (N + 1) e -> elem_ok ws1 e) /\
  (forall v k a r, ws1 !! v ≫= timer_view = Some (k, a, r) -> k <> 0 ->
    exists e, has h1 (N + 1) e /\ ANHE_w e = v) /\
  restored (N + 1) (h1, ws1) (upheap (h1, ws1) (N + HEAP0)).
Proof.
  intros Hok Hx Ha Hr x' h1 ws1. pose proof (tm_cnt _ _ _ _ Hok) as HN.
  destruct (timers_slots _ _ _ _ Hok) as [[HF HJ] HI].
  assert (Hfresh : forall e, has h N e -> ANHE_w e <> w).
  { intros e He <-. destruct (timers_elem _ _ _ _ e Hok He) as (y & r' & Hy & _ & Hnz & _). congruence. }
  assert (Hel : forall e, has h1 (N + 1) e -> elem_ok ws1 e).
  { intros e He. apply has_push in He as [He| ->]; [..|done].
    - destruct (timers_elem _ _ _ _ e Hok He) as (y & r' & Hy & Hrest). exists y, r'.
      unfold ws1. rewrite lookup_insert_ne by (symmetry; by apply Hfresh). done.
    - exists x', r. unfold ws1. cbn [ANHE_w ANHE_at]. rewrite lookup_insert_eq. split_and!; [done|done| |done].
      cbn. unfold HEAP0, DHEAP. lia. }
  split_and!; [done| |].
  - intros v k a' r' Ev Hk. destruct (decide (v = w)) as [->|Hv].
    + exists (mkANHE a w). split; [|done]. apply has_push; [done|by right].
    + unfold ws1 in Ev. rewrite lookup_insert_ne in Ev by done.
      destruct (tm_all _ _ _ _ Hok v k a' r' Ev Hk) as [Hi He]. exists (mkANHE a' v).
      split; [|done]. apply has_push; [done|]. left. by exists k.
  - assert (Hslots : slots h1 (N + 1)).
    { split.
      - intros i Hi. unfold h1. rewrite lookup_insert_is_Some'.
        destruct (decide (i = N + HEAP0)) as [->|]; [by left|right]. apply HF. unfold in_heap in *. lia.
      - intros i j b c Hi Hj Hb Hc Hw. unfold h1 in Hb, Hc.
        apply lookup_insert_Some in Hb as [[<- <-]|[Hib Hb]], Hc as [[<- <-]|[Hjc Hc]]; [done|..].
        + destruct (Hfresh c); [exists j; split; [unfold in_heap in *; lia|done]|by rewrite <-Hw].
        + destruct (Hfresh b); [exists i; split; [unfold in_heap in *; lia|done]|by rewrite Hw].
        + apply (HJ i j b c); [unfold in_heap in *; lia..|done|done|done]. }
    apply upheap_restores; [unfold in_heap; lia|done| |].
    + intros i e Hi He. destruct (Hel e) as (y & r' & Hy & _); [by exists i|]. exists y. split; [done|].
      intros Hne. unfold h1 in He. rewrite lookup_insert_ne in He by done.
      assert (in_heap N i) as Hi' by (unfold in_heap in *; lia).
      destruct (HI i e Hi' He) as (z & Hz & Haz). unfold ws1 in Hy.
      rewrite lookup_insert_ne in Hy by (symmetry; apply Hfresh; by exists i). simplify_eq. auto.
    + apply up_ord_last; [done|]. apply heap_ord_push, Hok.
Qed.

(** The effect of an operation on timer [w]: it returns, keeps the invariant and
    what is not a timer, leaves the other timers and gives [w] the state [t]. *)
Definition sets_timer (s : loop) (w : nat) (t : option (bool * T * T)) (r : outcome loop) : Prop :=
  exists s', r = Ok s' /\ ev_ok s' /\ tframe s s' /\ tstate (watchers s') w = t /\
    forall v, v <> w -> tstate (watchers s') v = tstate (watchers s) v.

Lemma timer_start_ok s w x a r :
  ev_ok s -> watchers s !! w = Some x -> kind x = EvTimer a r -> active x = 0 -> tle tzero r = true ->
  sets_timer s w (Some (true, tadd a (mn_now s), r)) (timer_start s w).
Proof.
  intros Hok Hx Hk Ha Hr. pose proof Hok as [Htm Hpd Hio Hct]. pose proof (tm_cnt _ _ _ _ Htm) as HN.
  pose proof (pd_pri _ _ Hpd w (pending x) (priority x)) as Hpri. rewrite Hx in Hpri. specialize (Hpri eq_refl).
  assert (Hadj : forall y : watcher T, priority y = priority x -> pri_adjust y = y).
  { intros y Hy. unfold pri_adjust. rewrite Hy. unfold EV_MINPRI, EV_MAXPRI in *.
    rewrite (proj2 (Z.ltb_ge (priority x) (-2))) by lia. rewrite (proj2 (Z.ltb_ge 2 (priority x))) by lia.
    rewrite <-Hy. by destruct y. }
  unfold timer_start, get_w. rewrite Hx. cbn [the mbind outcome_bind]. unfold is_active, timer_of. rewrite Ha, Hk.
  cbn [Z.eqb negb mbind outcome_bind]. rewrite guard_trap_true by done.
  unfold ev_start, get_w. ev_cbn. rewrite lookup_insert_eq. ev_cbn. rewrite Hadj by done. ev_cbn.
  replace (timercnt s + 1 + HEAP0 - 1) with (timercnt s + HEAP0) by lia.
  destruct (array_needsize_ok sizeof_ANHE (timermax s) (timercnt s + HEAP0 + 1)) as (max & -> & Hmax & Hmm);
    [done|apply (tm_max _ _ _ _ Htm)|].
  unfold put_timer_slot. ev_cbn. rewrite guard_trap_true by (unfold HEAP0, DHEAP in *; lia).
  ev_cbn. rewrite insert_insert_eq.
  destruct (timers_push_ready _ _ _ _ w x (tadd a (mn_now s)) r Htm Hx Ha Hr) as (Hel & Hall & Hres).
  eapply (restored_timers _ max _ _ _ (fun _ => False)) in Hres as (h' & ws' & -> & Hs & Hts & Htm');
    [|lia|unfold HEAP0, DHEAP in *; lia|by auto|by eauto].
  unfold on_heap. ev_cbn. eexists. split; [done|].
  assert (Htw : tstate ws' w = Some (true, tadd a (mn_now s), r)).
  { rewrite Hts. unfold tstate. rewrite lookup_insert_eq. cbn. rewrite (proj2 (Z.eqb_neq _ _)); [done|].
    unfold HEAP0, DHEAP. lia. }
  assert (Htv : forall v, v <> w -> tstate ws' v = tstate (watchers s) v).
  { intros v Hv. rewrite Hts. unfold tstate. by rewrite lookup_insert_ne. }
  match goal with |- ev_ok ?s1 /\ _ => assert (F : tframe s s1) end.
  { split; try done; intros v; cbn.
    - rewrite (sift_pend _ _ _ _ _ v Hs). destruct (decide (v = w)) as [->|Hv].
      + by rewrite lookup_insert_eq, Hx.
      + by rewrite lookup_insert_ne.
    - rewrite (sift_io _ _ _ _ _ v Hel Hs). destruct (decide (v = w)) as [->|Hv].
      + rewrite lookup_insert_eq, Hx. unfold io_view. cbn. by rewrite Hk.
      + by rewrite lookup_insert_ne. }
  split_and!; [|done|done|done].
  apply (tframe_ok s); [done|done|by apply Htm'|]. cbn. eapply (count_ok_add _ _ _ w); [| | |done].
  - rewrite Hx. cbn. unfold is_active. by rewrite Ha.
  - by eapply tstate_active.
  - intros v Hv. apply is_active_views; [apply (tf_io _ _ F)|by apply Htv].
Qed.

(** ** Removing and changing an element *)

Lemma replace_around (h : harray) N M k e :
  slots h N -> heap_ord h N -> M <= N -> in_heap N k -> around_ord (<[k := e]> h) M k.
Proof.
  intros HS Ho HM Hk. split; intros i Hi.
  - intros Hik Hp a b. rewrite !lookup_insert_ne by done. apply Ho. lia.
  - intros Hp Hroot a b. pose proof (HPARENT_lt i ltac:(lia)). pose proof (HPARENT_lt k Hroot).
    rewrite !lookup_insert_ne by lia. intros Ha Hb. destruct (slots_full _ _ HS k Hk) as [c Hc].
    eapply tle_trans.
    + apply (Ho k); [unfold in_heap in Hk; lia|done|done].
    + apply (Ho i); [lia|by rewrite Hp|done].
Qed.

(** The heap without its element at [k]: the last element takes its place. *)
Definition popped (h : harray) (N k : Z) (last : ANHE T) : harray :=
  if k <? N - 1 + HEAP0 then <[k := last]> h else h.

Lemma has_popped (h : harray) N k last a w e :
  slots h N -> in_heap N k -> h !! k = Some (mkANHE a w) -> h !! (N - 1 + HEAP0) = Some last ->
  (has (popped h N k last) (N - 1) e <-> has h N e /\ ANHE_w e <> w).
Proof.
  intros HS Hk He Hl. unfold popped. destruct (Z.ltb_spec k (N - 1 + HEAP0)) as [Hlt|Hge].
  - split.
    + intros (i & Hi & Hie). apply lookup_insert_Some in Hie as [[<- <-]|[Hne Hie]].
      * split; [exists (N - 1 + HEAP0); split; [unfold in_heap in *; lia|done]|]. intros Hw.
        pose proof (slots_inj _ _ HS k (N - 1 + HEAP0) _ _ Hk ltac:(unfold in_heap in *; lia) He Hl (eq_sym Hw)). lia.
      * split; [exists i; split; [unfold in_heap in *; lia|done]|]. intros Hw. destruct Hne.
        apply (slots_inj _ _ HS k i _ _ Hk ltac:(unfold in_heap in *; lia) He Hie (eq_sym Hw)).
    + intros [(i & Hi & Hie) Hw]. destruct (decide (i = N - 1 + HEAP0)) as [->|Hne].
      * exists k. rewrite lookup_insert_eq. split; [unfold in_heap in *; lia|congruence].
      * exists i. split; [unfold in_heap in *; lia|]. rewrite lookup_insert_ne; [done|]. intros ->. by simplify_eq.
  - assert (k = N - 1 + HEAP0) as -> by (unfold in_heap in *; lia). split.
    + intros (i & Hi & Hie). split; [exists i; split; [unfold in_heap in *; lia|done]|]. intros Hw.
      pose proof (slots_inj _ _ HS (N - 1 + HEAP0) i _ _ Hk ltac:(unfold in_heap in *; lia) He Hie (eq_sym Hw)).
      unfold in_heap in *. lia.
    + intros [(i & Hi & Hie) Hw]. exists i. split; [|done].
      destruct (decide (i = N - 1 + HEAP0)) as [->|Hne]; [by simplify_eq|unfold in_heap in *; lia].
Qed.

Lemma slots_popped (h : harray) N k last :
  slots h N -> in_heap N k -> h !! (N - 1 + HEAP0) = Some last -> slots (popped h N k last) (N - 1).
Proof.
  intros HS Hk Hl. unfold popped. destruct (Z.ltb_spec k (N - 1 + HEAP0)) as [Hlt|Hge].
  - pose proof (fun i j a b => slots_inj _ _ HS i j a b) as HJ. split.
    + intros i Hi. rewrite lookup_insert_is_Some'. right. apply (slots_full _ _ HS). unfold in_heap in *. lia.
    + intros i j a b Hi Hj Ha Hb Hw.
      apply lookup_insert_Some in Ha as [[<- <-]|[Hia Ha]], Hb as [[<- <-]|[Hjb Hb]]; [done|..].
      * pose proof (HJ (N - 1 + HEAP0) j _ _ ltac:(unfold in_heap in *; lia) ltac:(unfold in_heap in *; lia) Hl Hb Hw).
        unfold in_heap in *. lia.
      * pose proof (HJ i (N - 1 + HEAP0) _ _ ltac:(unfold in_heap in *; lia) ltac:(unfold in_heap in *; lia) Ha Hl Hw).
        unfold in_heap in *. lia.
      * apply (HJ i j a b); [unfold in_heap in *; lia..|done|done|done].
  - eapply slots_prefix; [|done]. lia.
Qed.

(** What [ev_timer_stop] does to the heap. *)
Lemma timers_pop h max N ws w k a r :
  timers_ok h max N ws -> ws !! w ≫= timer_view = Some (k, a, r) -> k <> 0 ->
  exists last, h !! (N - 1 + HEAP0) = Some last /\ in_heap N k /\ h !! k = Some (mkANHE a w) /\
    restored (N - 1) (popped h N k last, ws)
      (if k <? N - 1 + HEAP0 then adjustheap (popped h N k last, ws) (N - 1) k else Ok (h, ws)) /\
    (forall e, has (popped h N k last) (N - 1) e -> elem_ok ws e /\ ANHE_w e <> w) /\
    (forall v k' a' r', v <> w -> ws !! v ≫= timer_view = Some (k', a', r') -> k' <> 0 ->
      exists e, has (popped h N k last) (N - 1) e /\ ANHE_w e = v).
Proof.
  intros Hok Ew Hnz. destruct (timers_slots _ _ _ _ Hok) as [HS HI].
  destruct (tm_all _ _ _ _ Hok w k a r Ew Hnz) as [Hk He].
  destruct (slots_full _ _ HS (N - 1 + HEAP0)) as [last Hl]; [unfold in_heap in *; lia|].
  pose proof (has_popped h N k last a w) as Hhas.
  exists last. split_and!; [done|done|done| | |].
  - pose proof (slots_popped h N k last HS Hk Hl) as HSp. unfold popped in *.
    destruct (Z.ltb_spec k (N - 1 + HEAP0)) as [Hlt|Hge].
    + apply adjustheap_restores; [unfold in_heap in *; lia|done| |].
      * intros i e Hi Hie. apply lookup_insert_Some in Hie as [[<- <-]|[Hne Hie]].
        -- destruct (HI (N - 1 + HEAP0) last) as (x & Hx & _); [unfold in_heap in *; lia|done|]. by exists x.
        -- destruct (HI i e) as (x & Hx & Ha); [unfold in_heap in *; lia|done|]. exists x. auto.
      * apply (replace_around h N); [done|apply Hok|lia|done].
    + exists h, ws. split_and!; [done|done| | |apply sifted_refl].
      * intros i e Hi. apply HI. unfold in_heap in *. lia.
      * intros i Hi. apply (tm_ord _ _ _ _ Hok). lia.
  - intros e [Hin Hw]%Hhas; [|done..]. split; [by eapply timers_elem|done].
  - intros v k' a' r' Hv Ev Hk'. destruct (tm_all _ _ _ _ Hok v k' a' r' Ev Hk') as [Hi' He'].
    exists (mkANHE a' v). split; [|done]. apply Hhas; [done..|]. split; [by exists k'|done].
Qed.

(** ** Stopping a timer *)

(** The loop after [clear_pending]. *)
Definition cleared (s : loop) (w : nat) (x : watcher T) : loop :=
  put_w (with_pendings s (clear_w w (pendings s))) w (set_pending x 0).

Lemma cleared_views s w x v :
  watchers s !! w = Some x ->
  watchers (cleared s w x) !! v ≫= io_view = watchers s !! v ≫= io_view /\
  watchers (cleared s w x) !! v ≫= timer_view = watchers s !! v ≫= timer_view /\
  is_active <$> watchers (cleared s w x) !! v = is_active <$> watchers s !! v.
Proof.
  intros Hx. unfold cleared. ev_cbn. destruct (decide (v = w)) as [->|Hv].
  - by rewrite lookup_insert_eq, Hx.
  - by rewrite lookup_insert_ne.
Qed.

Lemma cleared_tstate s w x v :
  watchers s !! w = Some x -> tstate (watchers (cleared s w x)) v = tstate (watchers s) v.
Proof. intros Hx. unfold tstate. by destruct (cleared_views s w x v Hx) as (_ & -> & _). Qed.

Lemma cleared_ok s w x : ev_ok s -> watchers s !! w = Some x -> ev_ok (cleared s w x).
Proof.
  intros [Htm Hpd Hio Hct] Hx. pose proof (fun v => cleared_views s w x v Hx) as Hv. split.
  - eapply timers_ok_view; [|done]. apply Hv.
  - by apply clear_w_ok.
  - eapply io_ok_view; [|done]. apply Hv.
  - eapply count_ok_view; [|done]. apply Hv.
Qed.

Lemma cleared_w s w x : watchers (cleared s w x) !! w = Some (set_pending x 0).
Proof. apply lookup_insert_eq. Qed.

Lemma timer_stop_inactive s w x :
  ev_ok s -> watchers s !! w = Some x -> active x = 0 -> timer_stop s w = Ok (cleared s w x).
Proof.
  intros Hok Hx Ha. unfold timer_stop. rewrite (clear_pending_eq s w x (ok_pd _ Hok) Hx). fold (cleared s w x).
  cbn [mbind outcome_bind]. unfold get_w. rewrite cleared_w. cbn [the mbind outcome_bind].
  unfold is_active. cbn [active set_pending]. by rewrite Ha.
Qed.

Lemma timer_stop_active s w x a r :
  ev_ok s -> watchers s !! w = Some x -> kind x = EvTimer a r -> active x <> 0 ->
  sets_timer (cleared s w x) w (Some (false, tsub a (mn_now s), r)) (timer_stop s w).
Proof.
  intros Hok0 Hx0 Hk Ha. pose proof (cleared_ok s w x Hok0 Hx0) as Hok.
  unfold timer_stop. rewrite (clear_pending_eq s w x (ok_pd _ Hok0) Hx0). fold (cleared s w x).
  cbn [mbind outcome_bind].
  pose proof (cleared_w s w x) as Hx.
  change (mn_now s) with (mn_now (cleared s w x)). set (s1 := cleared s w x) in *. clearbody s1. clear s Hok0 Hx0.
  pose proof Hok as [Htm Hpd Hio Hct]. unfold get_w. rewrite Hx. cbn [the mbind outcome_bind].
  unfold is_active. cbn [active set_pending]. rewrite (proj2 (Z.eqb_neq _ _) Ha). cbn [negb].
  destruct (timers_pop _ _ _ _ w (active x) a r Htm) as (last & Hl & Hin & He & Hres & Hel & Hall);
    [apply timer_view_Some; by exists (set_pending x 0)|done|].
  rewrite (hget_Some _ _ _ He). ev_cbn. rewrite guard_trap_true by apply Nat.eqb_refl.
  pose proof (tm_max _ _ _ _ Htm) as Hmax.
  eapply (restored_timers _ (timermax s1) _ _ _ (fun v => v = w)) in Hres as (h' & ws' & Er & Hs & Hts & Htm');
    [|unfold in_heap in *; lia|unfold in_heap in *; lia|done|done].
  match goal with |- context [?m ≫= _] =>
    assert (Em : m = Ok (mkEv (mn_now s1) (loop_done s1) (anfds s1) (fdchanges s1) (told s1) (pendings s1)
      (rfeeds s1) h' (timermax s1) (timercnt s1 - 1) (activecnt s1) ws')) end.
  { unfold popped in Er. destruct (Z.ltb_spec (active x) (timercnt s1 - 1 + HEAP0)) as [Hlt|Hge].
    - rewrite (hget_Some _ _ _ Hl). cbn [mbind outcome_bind]. unfold put_timer_slot. ev_cbn.
      rewrite guard_trap_true by (unfold in_heap, HEAP0, DHEAP in *; lia). ev_cbn.
      unfold on_heap. rewrite Er. by ev_cbn.
    - injection Er as <- <-. by destruct s1. }
  rewrite Em. cbn [mbind outcome_bind watchers].
  assert (Hw' : ws' !! w = Some (set_pending x 0)).
  { destruct (sift_frame _ _ _ Hs w) as [(e & Hhe & Hw)|Hf]; [by destruct (Hel e Hhe)|].
    cbn [snd] in Hf. by rewrite Hf. }
  rewrite Hw'. ev_cbn. unfold timer_of. cbn [kind]. rewrite Hk. ev_cbn. unfold ev_stop, get_w. ev_cbn.
  rewrite lookup_insert_eq. ev_cbn. rewrite insert_insert_eq. eexists. split; [done|].
  match goal with |- ev_ok ?s2 /\ _ => assert (F : tframe s1 s2) end.
  { split; try done; intros v; cbn; (destruct (decide (v = w)) as [->|Hv];
      [rewrite lookup_insert_eq, Hx|rewrite lookup_insert_ne by done]).
    - done.
    - by rewrite (sift_pend _ _ _ _ _ v Hs).
    - unfold io_view. cbn. by rewrite Hk.
    - rewrite (sift_io _ _ _ _ _ v (fun e He => proj1 (Hel e He)) Hs). done. }
  assert (Hother : forall v, v <> w -> tstate (<[w := mkW 0 0 (priority x) (EvTimer (tsub a (mn_now s1)) r)]> ws') v
    = tstate (watchers s1) v).
  { intros v Hv. unfold tstate. rewrite lookup_insert_ne by done. apply Hts. }
  split_and!; [|done| |done].
  - apply (tframe_ok s1); [done|done| |].
    + apply Htm'; cbn.
      * intros v Hv. by rewrite lookup_insert_ne.
      * intros v k a' r' ->. rewrite lookup_insert_eq. cbn. by intros [= <- _ _].
    + cbn. apply (count_ok_sub _ (watchers s1) _ w); [| | |done].
      * rewrite Hx. cbn. unfold is_active. cbn. by rewrite (proj2 (Z.eqb_neq _ _) Ha).
      * by rewrite lookup_insert_eq.
      * intros v Hv. apply is_active_views; [apply (tf_io _ _ F)|by apply Hother].
  - cbn. unfold tstate. by rewrite lookup_insert_eq.
Qed.

(** ** Changing the deadline of a timer *)

Lemma timers_update h max N ws w x a r a' :
  timers_ok h max N ws -> ws !! w = Some x -> kind x = EvTimer a r -> active x <> 0 ->
  let ws1 := <[w := set_kind x (EvTimer a' r)]> ws in
  let h1 := <[active x := mkANHE a' w]> h in
  in_heap N (active x) /\ h !! active x = Some (mkANHE a w) /\
  slots h1 N /\ indexed_but (fun i => i <> active x) h1 ws1 N /\ around_ord h1 N (active x) /\
  (forall e, has h1 N e -> elem_ok ws1 e) /\
  (forall v k a r, ws1 !! v ≫= timer_view = Some (k, a, r) -> k <> 0 ->
    exists e, has h1 N e /\ ANHE_w e = v).
Proof.
  intros Hok Hx Hk Ha ws1 h1. destruct (timers_slots _ _ _ _ Hok) as [HS HI].
  destruct (tm_all _ _ _ _ Hok w (active x) a r) as [Hin He];
    [apply timer_view_Some; by exists x|done|].
  assert (Hw : forall i e, in_heap N i -> i <> active x -> h !! i = Some e -> ANHE_w e <> w).
  { intros i e Hi Hne Hie Hw. destruct Hne. by apply (slots_inj _ _ HS i _ e (mkANHE a w)). }
  assert (HS1 : slots h1 N).
  { split.
    - intros i Hi. unfold h1. rewrite lookup_insert_is_Some'. right. by apply (slots_full _ _ HS).
    - intros i j b c Hi Hj Hb Hc Hbc. unfold h1 in *.
      apply lookup_insert_Some in Hb as [[<- <-]|[Hne Hb]], Hc as [[<- <-]|[Hne' Hc]]; [done|..].
      + by destruct (Hw j c Hj); [by apply not_eq_sym|done|].
      + by destruct (Hw i b Hi); [by apply not_eq_sym|done|].
      + by apply (slots_inj _ _ HS i j b c). }
  assert (Hel : forall e, has h1 N e -> elem_ok ws1 e).
  { intros e (i & Hi & Hie). apply lookup_insert_Some in Hie as [[<- <-]|[Hne Hie]].
    - destruct (timers_elem _ _ _ _ _ Hok (ex_intro _ _ (conj Hin He))) as (y & r' & Hy & Hky & _ & Hr).
      cbn in Hy. simplify_eq. exists (set_kind x (EvTimer a' r)), r. cbn. unfold ws1. rewrite lookup_insert_eq.
      cbn in Hky. split_and!; [done|done|done|congruence].
    - destruct (timers_elem _ _ _ _ e Hok) as (y & r' & Hy & Hrest); [by exists i|]. exists y, r'.
      unfold ws1. rewrite lookup_insert_ne; [done|]. apply not_eq_sym. by apply (Hw i e Hi (not_eq_sym Hne)). }
  split_and!; [done|done|done| | |done|].
  - intros i e Hi Hie. destruct (Hel e) as (y & r' & Hy & _); [by exists i|]. exists y. split; [done|].
    intros Hne. unfold h1 in Hie. rewrite lookup_insert_ne in Hie by done.
    destruct (HI i e Hi Hie) as (z & Hz & Haz). unfold ws1 in Hy.
    rewrite lookup_insert_ne in Hy by (apply not_eq_sym; by apply (Hw i e)). simplify_eq. auto.
  - apply (replace_around h N); [done|apply Hok|lia|done].
  - intros v k a1 r1 Ev Hkn. destruct (decide (v = w)) as [->|Hv].
    + exists (mkANHE a' w). split; [|done]. exists (active x). split; [done|apply lookup_insert_eq].
    + unfold ws1 in Ev. rewrite lookup_insert_ne in Ev by done.
      destruct (tm_all _ _ _ _ Hok v k a1 r1 Ev Hkn) as [Hik Hek]. exists (mkANHE a1 v). split; [|done].
      exists k. split; [done|]. unfold h1. rewrite lookup_insert_ne; [done|]. intros <-. by simplify_eq.
Qed.

Lemma update_sets_timer s w x a r a' res :
  ev_ok s -> watchers s !! w = Some x -> kind x = EvTimer a r -> active x <> 0 ->
  let ws1 := <[w := set_kind x (EvTimer a' r)]> (watchers s) in
  let h1 := <[active x := mkANHE a' w]> (timers s) in
  restored (timercnt s) (h1, ws1) res ->
  sets_timer s w (Some (true, a', r))
    (on_heap (with_timers (put_w s w (set_kind x (EvTimer a' r))) h1 (timermax s) (timercnt s)) res).
Proof.
  intros Hok Hx Hk Ha ws1 h1 Hres. pose proof Hok as [Htm Hpd Hio Hct].
  destruct (timers_update _ _ _ _ w x a r a' Htm Hx Hk Ha) as (Hin & He & _ & _ & _ & Hel & Hall).
  eapply (restored_timers _ (timermax s) _ _ _ (fun _ => False)) in Hres as (h' & ws' & -> & Hs & Hts & Htm');
    [|apply Htm|apply Htm|by auto|by eauto].
  unfold on_heap. ev_cbn. eexists. split; [done|].
  assert (Htw : tstate ws' w = Some (true, a', r)).
  { rewrite Hts. unfold tstate, ws1. rewrite lookup_insert_eq. cbn. by rewrite (proj2 (Z.eqb_neq _ _) Ha). }
  assert (Htv : forall v, v <> w -> tstate ws' v = tstate (watchers s) v).
  { intros v Hv. rewrite Hts. unfold tstate, ws1. by rewrite lookup_insert_ne. }
  match goal with |- ev_ok ?s1 /\ _ => assert (F : tframe s s1) end.
  { split; try done; intros v; cbn.
    - rewrite (sift_pend _ _ _ _ _ v Hs). unfold ws1. destruct (decide (v = w)) as [->|Hv].
      + by rewrite lookup_insert_eq, Hx.
      + by rewrite lookup_insert_ne.
    - rewrite (sift_io _ _ _ _ _ v Hel Hs). unfold ws1. destruct (decide (v = w)) as [->|Hv].
      + rewrite lookup_insert_eq, Hx. unfold io_view. cbn. by rewrite Hk.
      + by rewrite lookup_insert_ne. }
  split_and!; [|done|done|done].
  apply (tframe_ok s); [done|done|by apply Htm'|]. cbn. eapply count_ok_view; [|done].
  intros v. destruct (decide (v = w)) as [->|Hv].
  - rewrite (tstate_active _ _ _ _ _ Htw), Hx. cbn. unfold is_active. by rewrite (proj2 (Z.eqb_neq _ _) Ha).
  - apply is_active_views; [apply (tf_io _ _ F)|by apply Htv].
Qed.

(** Setting the fields of a timer: both when it is stopped, the period always. *)
Lemma set_timer_ok s w x a r a' r' :
  ev_ok s -> watchers s !! w = Some x -> kind x = EvTimer a r ->
  active x = 0 \/ a' = a /\ tle tzero r' = true ->
  sets_timer s w (Some (is_active x, a', r')) (Ok (put_w s w (set_kind x (EvTimer a' r')))).
Proof.
  intros Hok Hx Hk Hcase. pose proof Hok as [Htm Hpd Hio Hct]. eexists. split; [done|].
  assert (F : tframe s (put_w s w (set_kind x (EvTimer a' r')))).
  { split; try done; intros v; cbn; (destruct (decide (v = w)) as [->|Hv];
      [rewrite lookup_insert_eq, Hx|by rewrite lookup_insert_ne]); [done|].
    unfold io_view. cbn. by rewrite Hk. }
  split_and!; [|done| |].
  - apply (tframe_ok s); [done|done| |].
    + pose proof Htm as [H1 H2 H3 H4 H5 H6]. split; [done|done|done| |done|]; cbn [watchers put_w with_watchers timers timercnt].
      * intros i e Hi He. destruct (H4 i e Hi He) as (r0 & Ev & Hr0).
        destruct (decide (ANHE_w e = w)) as [<-|Hv]; [|rewrite lookup_insert_ne by done; eauto].
        rewrite lookup_insert_eq. apply timer_view_Some in Ev as (y & Hy & Hya & Hyk). simplify_eq.
        destruct Hcase as [Hz|[-> Hr']]; [unfold in_heap, HEAP0, DHEAP in Hi; lia|].
        exists r'. split; [|done]. cbn. congruence.
      * intros v k a1 r1. destruct (decide (v = w)) as [->|Hv]; [|rewrite lookup_insert_ne by done; eauto].
        rewrite lookup_insert_eq. cbn. intros [= <- <- <-] Hnz. destruct Hcase as [|[-> _]]; [done|].
        apply (H6 w (active x) a r); [|done]. apply timer_view_Some. eauto.
    + eapply count_ok_view; [|done]. intros v. cbn. destruct (decide (v = w)) as [->|Hv].
      * by rewrite lookup_insert_eq, Hx.
      * by rewrite lookup_insert_ne.
  - cbn. unfold tstate. by rewrite lookup_insert_eq.
  - intros v Hv. cbn. unfold tstate. by rewrite lookup_insert_ne.
Qed.

(** Operations on the same timer compose. *)
Lemma sets_timer_bind s s1 w t1 t (f : loop -> outcome loop) :
  sets_timer s w t1 (Ok s1) -> sets_timer s1 w t (f s1) -> sets_timer s w t (f s1).
Proof.
  intros (s1' & [= <-] & Hok & F1 & _ & Ho1) (s2 & -> & Hok2 & F2 & Hw & Ho2).
  exists s2. split_and!; [done|done|by eapply tframe_trans|done|].
  intros v Hv. by rewrite Ho2, Ho1.
Qed.

Lemma cleared_idem s w x : cleared (cleared s w x) w (set_pending x 0) = cleared s w x.
Proof.
  unfold cleared. ev_cbn. rewrite insert_insert_eq. f_equal. unfold clear_w. rewrite <-list_fmap_compose.
  apply list_fmap_ext. intros _ q _. cbn. rewrite <-list_fmap_compose. apply list_fmap_ext.
  intros _ p _. cbn. unfold clear_e. destruct (names w p) eqn:Hn; [done|by rewrite Hn].
Qed.

(** The state [ev_timer_again] gives a timer at time [now]. *)
Definition again_state (now a r : T) (act : bool) : bool * T * T :=
  if tnonzero r then (true, if act then tadd now r else tadd r now, r)
  else (false, if act then tsub a now else a, r).

Lemma timer_again_ok s w x a r :
  ev_ok s -> watchers s !! w = Some x -> kind x = EvTimer a r -> (tnonzero r = true -> tle tzero r = true) ->
  sets_timer (cleared s w x) w (Some (again_state (mn_now s) a r (is_active x))) (timer_again s w).
Proof.
  intros Hok0 Hx0 Hk Hr. pose proof (cleared_ok s w x Hok0 Hx0) as Hok.
  unfold timer_again. rewrite (clear_pending_eq s w x (ok_pd _ Hok0) Hx0). fold (cleared s w x).
  cbn [mbind outcome_bind]. pose proof (cleared_w s w x) as Hx. unfold get_w. rewrite Hx.
  cbn [the mbind outcome_bind]. unfold timer_of. cbn [kind set_pending]. rewrite Hk. cbn [mbind outcome_bind].
  unfold again_state. change (is_active (set_pending x 0)) with (is_active x).
  change (mn_now s) with (mn_now (cleared s w x)).
  destruct (is_active x) eqn:Hact, (tnonzero r) eqn:Hnz; unfold is_active in Hact.
  - assert (Ha : active (set_pending x 0) <> 0) by (cbn; lia). set (s1 := cleared s w x) in *.
    destruct (timers_update _ _ _ _ w _ a r (tadd (mn_now s1) r) (ok_tm _ Hok) Hx Hk Ha)
      as (Hin & He & HS1 & HI1 & Ho1 & _).
    change (timers (put_w ?s ?v ?y)) with (timers s).
    rewrite (hget_Some _ _ _ He). cbn [mbind outcome_bind ANHE_w]. unfold put_timer_slot.
    rewrite guard_trap_true.
    2:{ pose proof (tm_max _ _ _ _ (ok_tm _ Hok)) as Hm.
        change (timermax (put_w ?s ?v ?y)) with (timermax s). unfold in_heap, HEAP0, DHEAP in *. lia. }
    cbn [mbind outcome_bind].
    eapply (update_sets_timer s1 w _ a r (tadd (mn_now s1) r)); [done|done|done|done|].
    by apply adjustheap_restores.
  - pose proof (timer_stop_active _ w _ a r Hok Hx Hk ltac:(cbn; lia)) as Hst.
    by rewrite cleared_idem in Hst.
  - pose proof (set_timer_ok _ w _ a r r r Hok Hx Hk ltac:(left; cbn; lia)) as Hset.
    eapply (sets_timer_bind _ _ _ _ _ (fun s => timer_start s w)); [exact Hset|].
    destruct Hset as (s1 & [= <-] & Hok1 & F1 & _).
    rewrite <-(tf_now _ _ F1). eapply timer_start_ok; [done|apply lookup_insert_eq|done|cbn; lia|by apply Hr].
  - eexists. split_and!; [done|done|apply tframe_refl| |done].
    unfold tstate. rewrite Hx. cbn. unfold timer_view. cbn. rewrite Hk. cbn. do 3 f_equal. lia.
Qed.

(** ** Feeding events *)

(** What queueing an event leaves alone. *)
Definition body (x : watcher T) : Z * Z * watcher_kind T := (active x, priority x, kind x).

Record pframe (s s' : loop) : Prop := mkPframe {
  pf_now : mn_now s' = mn_now s;
  pf_done : loop_done s' = loop_done s;
  pf_anfds : anfds s' = anfds s;
  pf_changes : fdchanges s' = fdchanges s;
  pf_told : told s' = told s;
  pf_timers : timers s' = timers s;
  pf_max : timermax s' = timermax s;
  pf_cnt : timercnt s' = timercnt s;
  pf_active : activecnt s' = activecnt s;
  pf_body : forall v, body <$> watchers s' !! v = body <$> watchers s !! v }.

Lemma pframe_refl s : pframe s s.
Proof. by split. Qed.
Lemma pframe_trans s1 s2 s3 : pframe s1 s2 -> pframe s2 s3 -> pframe s1 s3.
Proof. intros [] []. split; intros; etrans; eauto. Qed.

Lemma body_views (ws ws' : wstore) v :
  body <$> ws' !! v = body <$> ws !! v ->
  ws' !! v ≫= timer_view = ws !! v ≫= timer_view /\ ws' !! v ≫= io_view = ws !! v ≫= io_view /\
  is_active <$> ws' !! v = is_active <$> ws !! v /\ priority <$> ws' !! v = priority <$> ws !! v.
Proof.
  unfold body, timer_view, io_view, is_active.
  destruct (ws !! v) as [x|], (ws' !! v) as [x'|]; [|done|done|done]. cbn. intros [= -> -> ->]. done.
Qed.

Lemma pframe_tstate s s' v : pframe s s' -> tstate (watchers s') v = tstate (watchers s) v.
Proof. intros F. unfold tstate. by destruct (body_views _ _ v (pf_body _ _ F v)) as (-> & _). Qed.

Lemma pframe_ok s s' : pframe s s' -> ev_ok s -> pend_ok (pendings s') (watchers s') -> ev_ok s'.
Proof.
  intros F [Htm _ Hio Hct] Hpd. pose proof (fun v => body_views _ _ v (pf_body _ _ F v)) as Hv. split; [|done|..].
  - rewrite (pf_timers _ _ F), (pf_max _ _ F), (pf_cnt _ _ F). eapply timers_ok_view; [|done]. apply Hv.
  - rewrite (pf_anfds _ _ F), (pf_changes _ _ F), (pf_told _ _ F). eapply io_ok_view; [|done]. apply Hv.
  - rewrite (pf_active _ _ F). eapply count_ok_view; [|done]. apply Hv.
Qed.

Lemma feed_event_ok s w x rev :
  ev_ok s -> watchers s !! w = Some x ->
  exists s' q, ev_feed_event s w rev = Ok s' /\ ev_ok s' /\ pframe s s' /\ rfeeds s' = rfeeds s /\
    pendings s !! Z.to_nat (ABSPRI x) = Some q /\
    pendings s' = <[Z.to_nat (ABSPRI x) := feed_q w rev q]> (pendings s) /\
    watchers s' = <[w := set_pending x (fed_pending x q)]> (watchers s).
Proof.
  intros Hok Hx. destruct (pd_queue _ _ w x (ok_pd _ Hok) Hx) as (q & Hq & _).
  rewrite (feed_event_eq s w x rev q (ok_pd _ Hok) Hx Hq). eexists _, q. split; [done|].
  match goal with |- ev_ok ?s1 /\ _ => assert (F : pframe s s1) end.
  { split; try done. intros v. cbn. destruct (decide (v = w)) as [->|Hv].
    - by rewrite lookup_insert_eq, Hx.
    - by rewrite lookup_insert_ne. }
  split_and!; [|done|done|done|done|done]. eapply pframe_ok; [done|done|]. cbn.
  apply feed_ok; [apply Hok|done|done].
Qed.

(** The watchers of a list that are queued with priority number [n]. *)
Definition at_pri (ws : wstore) (n : nat) (w : nat) : Prop :=
  (fun x => Z.to_nat (ABSPRI x)) <$> ws !! w = Some n.
#[export] Instance at_pri_dec ws n w : Decision (at_pri ws n w).
Proof. unfold at_pri. apply _. Defined.

Lemma feed_q_fresh ps (ws : wstore) w x rev q :
  pend_ok ps ws -> ws !! w = Some x -> ps !! Z.to_nat (ABSPRI x) = Some q -> pending x = 0 ->
  feed_q w rev q = q ++ [mkPend (Some w) rev].
Proof.
  intros Hp Hx Hq Hz. unfold feed_q. destruct (existsb (names w) q) eqn:He; [|done].
  by apply (existsb_names_iff _ _ w x q Hp Hx Hq) in He.
Qed.

Lemma feed_reverse_loop_ok rev l : forall s,
  ev_ok s -> rfeeds s = l -> NoDup l ->
  (forall w, w ∈ l -> exists x, watchers s !! w = Some x /\ pending x = 0) ->
  exists s', feed_reverse_loop (length l) s rev = Ok s' /\ ev_ok s' /\ pframe s s' /\ rfeeds s' = [] /\
    forall n q, pendings s !! n = Some q ->
      pendings s' !! n = Some (q ++ ((fun w => mkPend (Some w) rev) <$> reverse (filter (at_pri (watchers s) n) l))).
Proof.
  induction l as [|w l IH] using rev_ind; intros s Hok Hl Hnd Hp.
  - exists s. split_and!; [done|done|apply pframe_refl|done|]. intros n q Hq. cbn. by rewrite app_nil_r.
  - rewrite length_app, Nat.add_1_r. cbn [feed_reverse_loop]. rewrite Hl, list_lookup_middle by done.
    rewrite take_app_length.
    apply NoDup_app in Hnd as (Hnd & Hnw & _).
    destruct (Hp w) as (x & Hx & Hz); [set_solver|].
    destruct (feed_event_ok (with_rfeeds s l) w x rev) as (s1 & q1 & -> & Hok1 & F1 & Hr1 & Hq1 & Hps & Hws);
      [by destruct Hok; split|done|]. cbn [mbind outcome_bind].
    assert (F : pframe s s1) by (eapply pframe_trans; [|done]; by split).
    destruct (IH s1) as (s' & -> & Hok' & F' & Hr' & Hq'); [done|done|done| |].
    { intros v Hv. destruct (Hp v) as (y & Hy & Hyz); [set_solver|]. exists y. rewrite Hws. cbn.
      rewrite lookup_insert_ne; [done|]. intros <-. by apply (Hnw w Hv), list_elem_of_singleton. }
    exists s'. split_and!; [done|done|by eapply pframe_trans|done|]. intros n q Hq.
    assert (Hext : forall m : list nat, filter (at_pri (watchers s1) n) m = filter (at_pri (watchers s) n) m).
    { intros m. apply list_filter_iff. intros v. unfold at_pri.
      destruct (body_views _ _ v (pf_body _ _ F v)) as (_ & _ & _ & Hpr).
      destruct (watchers s1 !! v), (watchers s !! v); cbn in *; try done. unfold ABSPRI. by simplify_eq/=; rewrite Hpr. }
    rewrite filter_app, reverse_app, fmap_app. cbn [pendings with_rfeeds] in Hps, Hq1.
    destruct (decide (n = Z.to_nat (ABSPRI x))) as [->|Hn].
    + rewrite Hq in Hq1. injection Hq1 as <-.
      rewrite (feed_q_fresh _ _ w x rev q (ok_pd _ Hok) Hx Hq Hz) in Hps.
      rewrite (Hq' _ (q ++ [mkPend (Some w) rev])).
      * rewrite Hext, filter_cons_True; [by rewrite <-app_assoc|]. unfold at_pri. by rewrite Hx.
      * rewrite Hps. apply list_lookup_insert_eq. apply lookup_lt_is_Some_1; eauto.
    + rewrite (Hq' _ q); [|by rewrite Hps, list_lookup_insert_ne].
      rewrite Hext, (filter_cons_False _ w []); [done|]. unfold at_pri. rewrite Hx. cbn. congruence.
Qed.

(** ** Timers that are due *)

(** The timer [w] is armed and its deadline is before [now]. *)
Definition due (now : T) (ws : wstore) (w : nat) : bool :=
  match tstate ws w with Some (true, a, _) => tlt a now | _ => false end.

(** What [timers_reify] makes of a timer that was due at [now]. *)
Definition fired_state (now : T) (t : bool * T * T) : bool * T * T :=
  let '(_, a, r) := t in
  if tnonzero r then (true, if tlt (tadd a r) now then now else tadd a r, r)
  else (false, tsub a now, r).

(** No timer has an event queued, as after [ev_invoke_pending]. *)
Definition timers_idle (ws : wstore) : Prop :=
  forall w x a r, ws !! w = Some x -> kind x = EvTimer a r -> pending x = 0.

Lemma due_Some now ws w : due now ws w = true <-> exists a r, tstate ws w = Some (true, a, r) /\ tlt a now = true.
Proof.
  unfold due. destruct (tstate ws w) as [[[[] a] r]|]; split; try done; eauto.
  - intros (? & ? & [= -> ->] & ?). done.
  - by intros (? & ? & ? & _).
  - by intros (? & ? & ? & _).
Qed.

(** The test finds out whether a timer is due: the root is one of the earliest. *)
Lemma timer_due_ok s :
  ev_ok s -> exists b, timer_due s = Ok b /\
    (b = false -> forall w, due (mn_now s) (watchers s) w = false) /\
    (b = true -> exists a w r, timers s !! HEAP0 = Some (mkANHE a w) /\
      tstate (watchers s) w = Some (true, a, r) /\ due (mn_now s) (watchers s) w = true /\
      forall v b r', tstate (watchers s) v = Some (true, b, r') -> tle a b = true).
Proof.
  intros Hok. pose proof (ok_tm _ Hok) as Htm. destruct (timers_slots _ _ _ _ Htm) as [HS HI].
  pose proof (tm_cnt _ _ _ _ Htm) as HN. unfold timer_due.
  destruct (Z.eqb_spec (timercnt s) 0) as [Hz|Hnz].
  - exists false. split_and!; [done| |done]. intros _ w. apply not_true_is_false. intros (a & r & Ht & _)%due_Some.
    destruct (proj1 (armed_has _ _ _ _ w a Htm)) as (i & Hi & _); [by exists r|]. unfold in_heap in Hi. lia.
  - destruct (slots_full _ _ HS HEAP0) as [[a w] He]; [unfold in_heap; lia|].
    assert (Hmin : forall v b r', tstate (watchers s) v = Some (true, b, r') -> tle a b = true).
    { intros v b r' Hv. apply (heap_root_min _ _ (mkANHE a w) (mkANHE b v) HS (tm_ord _ _ _ _ Htm) He).
      apply (armed_has _ _ _ _ v b Htm). by exists r'. }
    rewrite (hget_Some _ _ _ He). cbn [mbind outcome_bind ANHE_at]. eexists. split; [done|]. split.
    + intros Hd v. apply not_true_is_false. intros (b & r' & Hv & Hlt)%due_Some.
      apply tlt_ge in Hd. pose proof (tle_trans _ _ _ Hd (Hmin v b r' Hv)) as Hc.
      by rewrite (tle_not_lt b (mn_now s) Hc) in Hlt.
    + intros Hd. destruct (proj2 (armed_has _ _ _ _ w a Htm)) as [r Hr];
        [exists HEAP0; split; [unfold in_heap; lia|done]|].
      exists a, w, r. split_and!; [done|done| |done]. apply due_Some. eauto.
Qed.

Lemma cleared_id s w x : ev_ok s -> watchers s !! w = Some x -> pending x = 0 -> cleared s w x = s.
Proof.
  intros Hok Hx Hz. pose proof (clear_pending_eq s w x (ok_pd _ Hok) Hx) as E.
  unfold clear_pending, get_w in E. rewrite Hx in E. cbn [the mbind outcome_bind] in E.
  rewrite Hz in E. cbn [Z.eqb negb] in E. fold (cleared s w x) in E. congruence.
Qed.

Lemma timer_fire_ok s a w r :
  ev_ok s -> timers s !! HEAP0 = Some (mkANHE a w) -> tstate (watchers s) w = Some (true, a, r) ->
  timers_idle (watchers s) ->
  exists s1, timer_fire s = Ok (feed_reverse s1 w) /\ ev_ok s1 /\ tframe s s1 /\
    tstate (watchers s1) w = Some (fired_state (mn_now s) (true, a, r)) /\
    forall v, v <> w -> tstate (watchers s1) v = tstate (watchers s) v.
Proof.
  intros Hok He Ht Hidle. unfold timer_fire. rewrite (hget_Some _ _ _ He). cbn [mbind outcome_bind ANHE_w].
  unfold tstate in Ht. destruct (watchers s !! w ≫= timer_view) as [[[k a'] r']|] eqn:Ev; [|done]. cbn in Ht.
  injection Ht as Hk -> ->. destruct (tm_all _ _ _ _ (ok_tm _ Hok) w k a r Ev ltac:(lia)) as [Hin Hek].
  apply timer_view_Some in Ev as (x & Hx & Hxa & Hxk).
  assert (k = HEAP0) as ->.
  { destruct (timers_slots _ _ _ _ (ok_tm _ Hok)) as [HS _].
    apply (slots_inj _ _ HS k HEAP0 _ _ Hin ltac:(unfold in_heap in *; lia) Hek He eq_refl). }
  unfold get_w. rewrite Hx. cbn [the mbind outcome_bind]. unfold timer_of. rewrite Hxk. cbn [mbind outcome_bind].
  assert (Ha : active x <> 0) by (rewrite Hxa; unfold HEAP0, DHEAP; lia).
  unfold fired_state. destruct (tnonzero r) eqn:Hnz.
  - set (a1 := if tlt (tadd a r) (mn_now s) then mn_now s else tadd a r).
    destruct (timers_update _ _ _ _ w x a r a1 (ok_tm _ Hok) Hx Hxk Ha)
      as (_ & _ & HS1 & HI1 & [Ho1 Hsk1] & Hel & _). rewrite Hxa in HS1, HI1, Ho1, Hsk1, Hel.
    assert (Hr : tle tzero r = true).
    { destruct (Hel (mkANHE a1 w)) as (y & r' & Hy & Hyk & _ & Hr);
        [exists HEAP0; split; [done|apply lookup_insert_eq]|].
      cbn in Hy, Hyk. rewrite lookup_insert_eq in Hy. injection Hy as <-. cbn in Hyk. by injection Hyk as <-. }
    rewrite guard_trap_true.
    2:{ unfold tnonzero in Hnz. rewrite Hr, andb_true_r in Hnz. exact Hnz. }
    unfold put_timer_slot. rewrite guard_trap_true.
    2:{ pose proof (tm_max _ _ _ _ (ok_tm _ Hok)). change (timermax (put_w ?s ?v ?y)) with (timermax s).
        unfold in_heap, HEAP0, DHEAP in *. lia. }
    cbn [mbind outcome_bind].
    destruct (update_sets_timer s w x a r a1 (downheap (<[HEAP0 := mkANHE a1 w]> (timers s),
      <[w := set_kind x (EvTimer a1 r)]> (watchers s)) (timercnt s) HEAP0)) as (s1 & E & Hok1 & F1 & Hw1 & Ho);
      [done|done|done|done| |].
    { rewrite Hxa. apply downheap_restores; [done|done|done|]. split; [|done].
      intros i Hi Hp. apply Ho1; [done|lia|done]. }
    rewrite Hxa in E. exists s1. split_and!; [|done..].
    match goal with |- (?m ≫= _) = _ => replace m with (Ok s1) by (symmetry; exact E) end. done.
  - pose proof (timer_stop_active s w x a r Hok Hx Hxk Ha) as Hst.
    rewrite (cleared_id s w x Hok Hx (Hidle w x a r Hx Hxk)) in Hst.
    destruct Hst as (s1 & -> & Hok1 & F1 & Hw1 & Ho). by exists s1.
Qed.

Lemma size_list_to_set_le (l : list nat) : (size (list_to_set l : gset nat) <= length l)%nat.
Proof.
  induction l as [|x l IH]; [done|]. rewrite list_to_set_cons, size_union_alt, size_singleton. cbn [length].
  pose proof (subseteq_size (list_to_set l ∖ {[x]} : gset nat) (list_to_set l) ltac:(set_solver)). lia.
Qed.

(** The timers of the heap that are due, as a set: never more than the heap holds. *)
Lemma due_set s :
  ev_ok s -> exists X : gset nat, (forall w, w ∈ X <-> due (mn_now s) (watchers s) w = true) /\
    Z.of_nat (size X) <= timercnt s.
Proof.
  intros Hok. pose proof (ok_tm _ Hok) as Htm.
  set (l := omap (fun i => ANHE_w <$> timers s !! i) (seqZ HEAP0 (timercnt s))).
  exists (list_to_set (filter (fun w => due (mn_now s) (watchers s) w = true) l)). split.
  - intros w. rewrite elem_of_list_to_set, list_elem_of_filter. split; [by intros []|]. intros Hd. split; [done|].
    pose proof Hd as (a & r & Ht & _)%due_Some.
    destruct (proj1 (armed_has _ _ _ _ w a Htm)) as (i & Hi & He); [by exists r|].
    apply list_elem_of_omap. exists i. rewrite He. split; [apply elem_of_seqZ; unfold in_heap in Hi; lia|done].
  - assert (forall f, length (omap (M := list) (A := Z) (B := nat) f (seqZ HEAP0 (timercnt s))) <= Z.to_nat (timercnt s))%nat as Hl.
    { intros f. rewrite <-(length_seqZ HEAP0 (timercnt s)). generalize (seqZ HEAP0 (timercnt s)) as m.
      induction m as [|i m IH]; cbn; [lia|]. destruct (f i); cbn; lia. }
    pose proof (Hl (fun i => ANHE_w <$> timers s !! i)) as Hlen. fold l in Hlen.
    pose proof (size_list_to_set_le (filter (fun w => due (mn_now s) (watchers s) w = true) l)) as H1.
    pose proof (length_filter (fun w => due (mn_now s) (watchers s) w = true) l) as H2.
    pose proof (tm_cnt _ _ _ _ Htm). lia.
Qed.

(** The deadline of [v] is not after that of [w]. *)
Definition earlier (ws : wstore) (v w : nat) : Prop :=
  forall b a r b' a' r', tstate ws v = Some (b, a, r) -> tstate ws w = Some (b', a', r') -> tle a a' = true.

(** The pass over the due timers, from [s] to [s'], firing [fs] in this order. *)
Record fires (s s' : loop) (fs : list nat) : Prop := mkFires {
  fi_nodup : NoDup fs;
  fi_due : forall w, w ∈ fs <-> due (mn_now s) (watchers s) w = true;
  fi_order : StronglySorted (earlier (watchers s)) fs;
  fi_fired : forall w, w ∈ fs -> tstate (watchers s') w = fired_state (mn_now s) <$> tstate (watchers s) w;
  fi_other : forall w, w ∉ fs -> tstate (watchers s') w = tstate (watchers s) w }.

Lemma fired_not_due now t w (ws : wstore) :
  tstate ws w = Some (fired_state now t) -> due now ws w = false.
Proof.
  unfold due. intros ->. destruct t as [[b a] r]. unfold fired_state.
  destruct (tnonzero r); [|done]. destruct (tlt (tadd a r) now) eqn:Hlt; [|done].
  apply tle_not_lt, tle_refl.
Qed.

Lemma timers_idle_frame s s' :
  tframe s s' -> (forall w, is_Some (tstate (watchers s') w) -> is_Some (tstate (watchers s) w)) ->
  timers_idle (watchers s) -> timers_idle (watchers s').
Proof.
  intros F Hts Hi w x' a r Hx' Hk. pose proof (tf_pend _ _ F w) as Hp. rewrite Hx' in Hp.
  destruct (Hts w) as [t Ht]; [unfold tstate; rewrite Hx'; cbn; unfold timer_view; rewrite Hk; by eexists|].
  unfold tstate in Ht. destruct (watchers s !! w) as [x|] eqn:Hx; [|done]. cbn in Ht, Hp.
  unfold timer_view in Ht. destruct (kind x) as [|a0 r0] eqn:Hkx; [done|].
  unfold pend_view in Hp. injection Hp as Hp _. rewrite Hp. by apply (Hi w x a0 r0).
Qed.

Lemma fires_cons s s1 s' w a r fs :
  mn_now s1 = mn_now s -> tstate (watchers s) w = Some (true, a, r) ->
  due (mn_now s) (watchers s) w = true ->
  (forall v b r', tstate (watchers s) v = Some (true, b, r') -> tle a b = true) ->
  tstate (watchers s1) w = Some (fired_state (mn_now s) (true, a, r)) ->
  (forall v, v <> w -> tstate (watchers s1) v = tstate (watchers s) v) ->
  fires s1 s' fs -> fires s s' (w :: fs).
Proof.
  intros Hnow Ht Hd Hmin Hw Ho [H1 H2 H3 H4 H5]. rewrite Hnow in *.
  assert (Hnw : w ∉ fs) by (rewrite H2, (fired_not_due _ _ _ _ Hw); done).
  assert (Hdv : forall v, v <> w -> due (mn_now s) (watchers s1) v = due (mn_now s) (watchers s) v)
    by (intros v Hv; unfold due; by rewrite Ho).
  assert (Hin : forall v, v ∈ fs -> v <> w) by (intros v Hv ->; done). split.
  - by constructor.
  - intros v. rewrite elem_of_cons. destruct (decide (v = w)) as [->|Hv]; [naive_solver|].
    rewrite H2, Hdv by done. naive_solver.
  - constructor.
    + clear H1 H4 H5. assert (Hsub : forall v, v ∈ fs -> v <> w) by done. clear H2 Hnw Hin.
      induction H3 as [|v l Hl IH Hfa]; [constructor|]. constructor.
      * apply IH. intros u Hu. apply Hsub. by right.
      * apply List.Forall_forall. intros u Hu%list_elem_of_In. rewrite List.Forall_forall in Hfa.
        intros b1 a1 r1 b2 a2 r2. rewrite <-!Ho by (apply Hsub; set_solver).
        apply (Hfa u). by apply list_elem_of_In.
    + apply List.Forall_forall. intros u Hu%list_elem_of_In. intros b1 a1 r1 b2 a2 r2 E1 E2.
      rewrite Ht in E1. injection E1 as <- <- <-.
      pose proof Hu as Hdu. rewrite H2, Hdv in Hdu by auto. apply due_Some in Hdu as (a3 & r3 & E3 & _).
      rewrite E2 in E3. injection E3 as -> -> ->. by apply (Hmin u a3 r3).
  - intros v [->|Hv]%elem_of_cons; [by rewrite H5, Hw, Ht|]. rewrite H4 by done. by rewrite Ho by auto.
  - intros v [Hv Hvf]%not_elem_of_cons. by rewrite H5, Ho.
Qed.

Lemma timers_loop_ok fuel : forall s (X : gset nat),
  ev_ok s -> timers_idle (watchers s) ->
  (forall w, w ∈ X <-> due (mn_now s) (watchers s) w = true) ->
  (0 < size X <= fuel)%nat ->
  exists s' fs, timers_loop fuel s = Ok s' /\ ev_ok s' /\ timers_idle (watchers s') /\
    tframe s (with_rfeeds s' (rfeeds s)) /\ rfeeds s' = rfeeds s ++ fs /\ fires s s' fs.
Proof.
  induction fuel as [|fuel IH]; intros s X Hok Hidle HX Hsz; [lia|]. cbn [timers_loop].
  destruct (timer_due_ok s Hok) as (b & Eb & Hno & Hyes). destruct b.
  2:{ assert (X ≡ ∅) as HE by (intros w; rewrite HX, (Hno eq_refl w); set_solver).
      apply size_empty_iff in HE. lia. }
  destruct (Hyes eq_refl) as (a & w & r & He & Ht & Hd & Hmin). clear Hno Hyes Eb.
  destruct (timer_fire_ok s a w r Hok He Ht Hidle) as (s1 & -> & Hok1 & F1 & Hw1 & Ho1).
  cbn [mbind outcome_bind].
  assert (Hok1' : ev_ok (feed_reverse s1 w)) by (destruct Hok1; by split).
  pose proof (fired_not_due _ _ _ _ Hw1) as Hnd.
  assert (Hd1 : forall v, due (mn_now s) (watchers s1) v = true <-> due (mn_now s) (watchers s) v = true /\ v <> w).
  { intros v. destruct (decide (v = w)) as [->|Hv]; [rewrite Hnd; naive_solver|].
    unfold due. rewrite Ho1 by done. naive_solver. }
  assert (Hidle1 : timers_idle (watchers s1)).
  { apply (timers_idle_frame s); [done| |done]. intros v. destruct (decide (v = w)) as [->|Hv]; [by rewrite Ht|].
    by rewrite Ho1. }
  destruct (timer_due_ok _ Hok1') as (b & -> & Hno & Hyes). cbn [mbind outcome_bind].
  change (mn_now (feed_reverse s1 w)) with (mn_now s1) in *.
  change (watchers (feed_reverse s1 w)) with (watchers s1) in *. rewrite (tf_now _ _ F1) in *.
  destruct b; [clear Hno|clear Hyes].
  - destruct (Hyes eq_refl) as (a' & w' & r' & _ & _ & Hd' & _). clear Hyes.
    destruct (IH (feed_reverse s1 w) (X ∖ {[w]})) as (s' & fs & -> & Hok' & Hidle' & F' & Hr' & HF);
      [done|done| | |].
    + intros v. rewrite elem_of_difference, HX, elem_of_singleton.
      change (mn_now (feed_reverse s1 w)) with (mn_now s1). rewrite (tf_now _ _ F1). by rewrite Hd1.
    + assert (w ∈ X) as HwX by by apply HX. assert (w' ∈ X ∖ {[w]}) as Hw'.
      { apply Hd1 in Hd' as [Hd' Hne]. apply elem_of_difference. rewrite HX, elem_of_singleton. done. }
      rewrite size_difference by (by apply singleton_subseteq_l). rewrite size_singleton.
      assert (size (X ∖ {[w]}) <> 0)%nat as Hne by (intros E%size_empty_inv; by apply (E w') in Hw').
      rewrite size_difference in Hne by (by apply singleton_subseteq_l). rewrite size_singleton in Hne. lia.
    + exists s', (w :: fs). cbn [rfeeds feed_reverse with_rfeeds] in Hr'. split_and!; [done|done|done| | |].
      * eapply tframe_trans; [exact F1|]. destruct F'. split; try done. rewrite (tf_rfeeds _ _ F1). done.
      * rewrite Hr', (tf_rfeeds _ _ F1). by rewrite <-app_assoc.
      * eapply fires_cons; [|exact Ht|done|done| | |exact HF]; [apply F1|done|done].
  - exists (feed_reverse s1 w), [w]. split_and!; [done|done|done| | |].
    + destruct F1. by split.
    + cbn. by rewrite (tf_rfeeds _ _ F1).
    + eapply fires_cons; [apply (tf_now _ _ F1)|exact Ht|done|done|exact Hw1|done|].
      split; [constructor| |constructor|by intros v ?%not_elem_of_nil|done].
      intros v. rewrite (tf_now _ _ F1), Hno by done. split; [by intros ?%not_elem_of_nil|done].
Qed.

(** The whole of [timers_reify]. *)
Lemma timers_reify_ok s :
  ev_ok s -> timers_idle (watchers s) -> rfeeds s = [] ->
  exists s' s1 fs, timers_reify s = Ok s' /\ ev_ok s' /\ rfeeds s' = [] /\ fires s s1 fs /\
    tframe s (with_rfeeds s1 []) /\ pframe s1 s' /\
    forall n q, pendings s !! n = Some q ->
      pendings s' !! n = Some (q ++ ((fun w => mkPend (Some w) EV_TIMER) <$>
                                 reverse (filter (at_pri (watchers s) n) fs))).
Proof.
  intros Hok Hidle Hr. unfold timers_reify.
  destruct (timer_due_ok s Hok) as (b & -> & Hno & Hyes). cbn [mbind outcome_bind]. destruct b.
  - destruct (due_set s Hok) as (X & HX & Hsz). destruct (Hyes eq_refl) as (a & w & r & _ & _ & Hd & _).
    destruct (timers_loop_ok (Z.to_nat (timercnt s)) s X Hok Hidle HX) as (s1 & fs & -> & Hok1 & Hid1 & F1 & Hr1 & HF).
    { split; [|lia]. apply HX in Hd. assert (size X <> 0)%nat; [|lia]. intros E%size_empty_inv. by apply (E w) in Hd. }
    cbn [mbind outcome_bind]. rewrite Hr in Hr1, F1. cbn in Hr1.
    unfold feed_reverse_done. rewrite Hr1. destruct fs as [|f0 fs0] eqn:Efs.
    { apply (fi_due _ _ _ HF) in Hd. by apply not_elem_of_nil in Hd. }
    rewrite <-Efs in *. clear f0 fs0 Efs.
    assert (Hts : forall v, is_Some (tstate (watchers s1) v) <-> is_Some (tstate (watchers s) v)).
    { intros v. destruct (decide (v ∈ fs)) as [Hv|Hv].
      - rewrite (fi_fired _ _ _ HF) by done. apply fmap_is_Some.
      - by rewrite (fi_other _ _ _ HF). }
    destruct (feed_reverse_loop_ok EV_TIMER fs s1 Hok1 Hr1 (fi_nodup _ _ _ HF)) as (s' & -> & Hok' & F' & Hr' & Hq).
    { intros v Hv. apply (fi_due _ _ _ HF), due_Some in Hv as (a1 & r1 & Ht & _).
      destruct (proj2 (Hts v)) as [t' Ht']; [by rewrite Ht|]. unfold tstate, timer_view in Ht'.
      destruct (watchers s1 !! v) as [x|] eqn:Hx; [|done]. exists x. split; [done|]. cbn in Ht'.
      destruct (kind x) as [|a2 r2] eqn:Hk; [done|]. by apply (Hid1 v x a2 r2). }
    exists s', s1, fs. split_and!; [done|done|done|done|done|done|].
    intros n q Hnq. rewrite (Hq n q); [|pose proof (tf_pendings _ _ F1) as Hpp; cbn in Hpp; by rewrite Hpp]. do 4 f_equal.
    apply list_filter_iff. intros v. unfold at_pri. pose proof (tf_pend _ _ F1 v) as Hp. cbn in Hp.
    unfold pend_view in Hp. destruct (watchers s1 !! v), (watchers s !! v); cbn in *; try done.
    unfold ABSPRI. injection Hp as _ ->. done.
  - exists s, s, []. split_and!; [done|done|done| | | |].
    + split; [constructor| |constructor|by intros v ?%not_elem_of_nil|done].
      intros v. rewrite Hno by done. split; [by intros ?%not_elem_of_nil|done].
    + by split.
    + apply pframe_refl.
    + intros n q ->. cbn. by rewrite app_nil_r.
Qed.
End Timers.
