(* ===== verification/EvIo.v ===== *)
(** * The descriptors of a libev loop (deps/libev-4.11/ev.c)

    What the io operations of [EvLoop] do: starting and stopping a watcher keeps
    the invariant of the loop and marks its descriptor as changed; [fd_reify]
    tells the backend, for every changed descriptor, the union of what its
    active watchers ask for; [fd_event] queues the event of a descriptor for
    every watcher that asked for it. *)

From S2P Require Import Prelude Event EvHeap EvLoop EvTimer.

Section Io.
Context {T : Type} `{TL : TstampLaws T}.
Local Abbreviation loop := (ev_loop T).
Local Abbreviation wstore := (gmap nat (watcher T)).

(** ** Lists of watchers *)

Lemma wlist_del_elem head w v : NoDup head -> (v ∈ wlist_del head w <-> v ∈ head /\ v <> w).
Proof.
  induction head as [|u head IH]; intros Hnd; cbn [wlist_del]; [set_solver|].
  apply NoDup_cons in Hnd as [Hu Hnd]. destruct (decide (u = w)) as [->|Hne].
  - rewrite elem_of_cons. set_solver.
  - rewrite !elem_of_cons, (IH Hnd). set_solver.
Qed.

Lemma wlist_del_nodup head w : NoDup head -> NoDup (wlist_del head w).
Proof.
  induction head as [|u head IH]; intros Hnd; cbn [wlist_del]; [constructor|].
  apply NoDup_cons in Hnd as [Hu Hnd]. destruct (decide (u = w)) as [->|Hne]; [done|].
  constructor; [|by apply IH]. rewrite wlist_del_elem by done. by intros [].
Qed.

Lemma io_view_Some (ws : wstore) w k fd ev :
  ws !! w ≫= io_view = Some (k, fd, ev) <->
  exists x, ws !! w = Some x /\ active x = k /\ kind x = EvIo fd ev.
Proof.
  unfold io_view. destruct (ws !! w) as [x|]; cbn; [|split; [done|by intros (? & ? & _)]].
  split.
  - destruct (kind x) eqn:Hk; [|done]. intros [= <- <- <-]. eauto.
  - intros (? & [= <-] & <- & ->). done.
Qed.

(** ** The union of the masks *)

(** Some active watcher of [fd] asks for the event of bit [b]. *)
Definition wants (ws : wstore) (fd b : Z) : Prop :=
  exists w k ev, ws !! w ≫= io_view = Some (k, fd, ev) /\ k <> 0 /\ Z.testbit ev b = true.

Lemma union_events_ok (ws : wstore) l : forall acc,
  (forall w, w ∈ l -> exists k fd ev, ws !! w ≫= io_view = Some (k, fd, ev) /\ is_mask ev) ->
  exists r, union_events ws l acc = Ok r /\
    forall b, Z.testbit r b = true <-> Z.testbit acc b = true \/
      exists w k fd ev, w ∈ l /\ ws !! w ≫= io_view = Some (k, fd, ev) /\ Z.testbit ev b = true.
Proof.
  induction l as [|w l IH]; intros acc Hl.
  - exists acc. split; [done|]. intros b. set_solver.
  - destruct (Hl w) as (k & fd & ev & E & Hm); [left|]. pose proof E as (x & Hx & Ha & Hk)%io_view_Some.
    cbn [union_events]. rewrite Hx. cbn [the mbind outcome_bind]. unfold io_of. rewrite Hk.
    cbn [mbind outcome_bind snd]. rewrite (uwrap_small 8) by (unfold is_mask in Hm; lia).
    destruct (IH (Z.lor acc ev)) as (r & -> & Hr); [intros v Hv; apply Hl; by right|].
    exists r. split; [done|]. intros b. rewrite Hr, Z.lor_spec, orb_true_iff. split.
    + intros [[H1|H1]|(v & k' & fd' & ev' & Hv & Hrest)]; [by left| |].
      * right. exists w, k, fd, ev. split; [left|done].
      * right. exists v, k', fd', ev'. split; [by right|done].
    + intros [H1|(v & k' & fd' & ev' & Hv & Hve & Hb)]; [by left; left|].
      apply elem_of_cons in Hv as [->|Hv]; [|right; eauto 10]. rewrite E in Hve.
      injection Hve as <- <- <-. left. by right.
Qed.

(** A descriptor in step with its watchers asks for what they want. *)
Lemma sync_wants as_ ch tl (ws : wstore) n a b :
  io_ok as_ ch tl ws -> as_ !! n = Some a -> fd_reify_flag a = 0 ->
  (Z.testbit (fd_events a) b = true <-> wants ws (Z.of_nat n) b).
Proof.
  intros Hok Ha Hf. pose proof (io_sync _ _ _ _ Hok n a Ha Hf) as Hs.
  destruct (union_events_ok ws (fd_head a) 0) as (r & Er & Hr).
  { intros w Hw. destruct (io_head _ _ _ _ Hok n a w Ha Hw) as (k & ev & ? & _ & ?). eauto. }
  rewrite Hs in Er. injection Er as ->. rewrite Hr, Z.bits_0. split.
  - intros [|(w & k & fd & ev & Hw & E & Hb)]; [done|].
    destruct (io_head _ _ _ _ Hok n a w Ha Hw) as (k' & ev' & E' & Hk & _).
    rewrite E in E'. injection E' as -> -> ->. by exists w, k', ev'.
  - intros (w & k & ev & E & Hk & Hb). right. exists w, k, (Z.of_nat n), ev. split; [|done].
    destruct (io_all _ _ _ _ Hok w k _ ev E Hk) as (_ & a' & Ha' & Hw). rewrite Nat2Z.id in Ha'.
    by simplify_eq.
Qed.

(** ** Changing the watchers of a descriptor *)

(** The descriptor array and the list of changes when [fd_change] was called for
    descriptor [n] with its list set to [l]. *)
Definition changed (as_ : list ANFD) (ch : list Z) (n : nat) (a : ANFD) (l : list nat) (flags : Z) :
    list ANFD * list Z :=
  (<[n := mkANFD l (fd_events a) (Z.lor (fd_reify_flag a) flags)]> as_,
   if fd_reify_flag a =? 0 then ch ++ [Z.of_nat n] else ch).

Lemma lor_odd_nonzero a b : Z.odd b = true -> Z.lor a b <> 0.
Proof.
  intros Hb E. assert (Z.testbit (Z.lor a b) 0 = true) as Ht by (rewrite Z.lor_spec, !Z.bit0_odd, Hb; apply orb_true_r).
  by rewrite E in Ht.
Qed.

Lemma io_ok_changed as_ ch tl (ws ws' : wstore) n a l flags w :
  io_ok as_ ch tl ws -> as_ !! n = Some a -> Z.odd flags = true -> NoDup l ->
  (forall v, v <> w -> ws' !! v ≫= io_view = ws !! v ≫= io_view) ->
  (forall v, v <> w -> (v ∈ l <-> v ∈ fd_head a)) ->
  (w ∈ l -> exists k ev, ws' !! w ≫= io_view = Some (k, Z.of_nat n, ev) /\ k <> 0 /\ is_mask ev) ->
  (forall k fd ev, ws' !! w ≫= io_view = Some (k, fd, ev) -> k <> 0 -> fd = Z.of_nat n /\ w ∈ l) ->
  (forall n' a', n' <> n -> as_ !! n' = Some a' -> w ∉ fd_head a') ->
  io_ok (fst (changed as_ ch n a l flags)) (snd (changed as_ ch n a l flags)) tl ws'.
Proof.
  intros [H1 H2 H3 H4 H5 H6 H7 H8] Ha Hodd Hnd Hv Hl Hw1 Hw2 Hno. cbn [changed fst snd].
  assert (Hlt : (n < length as_)%nat) by (apply lookup_lt_is_Some_1; eauto).
  pose proof (lor_odd_nonzero (fd_reify_flag a) flags Hodd) as Hnz.
  assert (Hcase : forall n' a', <[n := mkANFD l (fd_events a) (Z.lor (fd_reify_flag a) flags)]> as_ !! n' = Some a' ->
    n' = n /\ a' = mkANFD l (fd_events a) (Z.lor (fd_reify_flag a) flags) \/ n' <> n /\ as_ !! n' = Some a').
  { intros n' a' E. apply list_lookup_insert_Some in E as [(-> & <- & _)|[Hne E]]; [by left|right]. done. }
  split.
  - intros n' a' v E Hin. destruct (Hcase n' a' E) as [[-> ->]|[Hne E']].
    + cbn in Hin. destruct (decide (v = w)) as [->|Hvw]; [by apply Hw1|]. rewrite Hv by done.
      apply (H1 n a v Ha). by apply Hl.
    + assert (v <> w) by (intros ->; by apply (Hno n' a')). rewrite Hv by done. by apply (H1 n' a').
  - intros n' a' E. destruct (Hcase n' a' E) as [[-> ->]|[Hne E']]; [done|by apply (H2 n')].
  - intros v k fd ev E Hk. destruct (decide (v = w)) as [->|Hvw].
    + destruct (Hw2 k fd ev E Hk) as [-> Hin]. split; [lia|]. rewrite Nat2Z.id.
      eexists. rewrite list_lookup_insert_eq by done. done.
    + rewrite Hv in E by done. destruct (H3 v k fd ev E Hk) as (Hfd & a' & Ea & Hin). split; [done|].
      destruct (decide (Z.to_nat fd = n)) as [<-|Hne].
      * rewrite list_lookup_insert_eq by done. eexists. split; [done|]. cbn. apply Hl; [done|]. by simplify_eq.
      * rewrite list_lookup_insert_ne by done. eauto.
  - intros fd. destruct (decide (fd = Z.of_nat n)) as [->|Hne].
    + rewrite Nat2Z.id, list_lookup_insert_eq by done. split.
      * intros _. split; [lia|]. eauto.
      * intros _. destruct (Z.eqb_spec (fd_reify_flag a) 0) as [Hz|Hz]; [apply elem_of_app; right; set_solver|].
        apply H4. split; [lia|]. rewrite Nat2Z.id. eauto.
    + transitivity (fd ∈ ch); [destruct (fd_reify_flag a =? 0); set_solver|]. rewrite H4.
      split; (intros (Hfd & a' & E & Hf); split; [done|]; exists a'; split; [|done]).
      * rewrite list_lookup_insert_ne by lia. done.
      * rewrite list_lookup_insert_ne in E by lia. done.
  - destruct (Z.eqb_spec (fd_reify_flag a) 0) as [Hz|Hz]; [|done]. apply NoDup_app. split_and!; [done| |].
    + intros fd Hfd ->%list_elem_of_singleton. apply H4 in Hfd as (_ & a' & E & Hf).
      rewrite Nat2Z.id in E. by simplify_eq.
    + apply NoDup_singleton.
  - intros n' a' E Hf. destruct (Hcase n' a' E) as [[-> ->]|[Hne E']]; [done|].
    rewrite <-(H6 n' a' E' Hf). apply union_events_view.
    + intros v Hin. apply Hv. intros ->. by apply (Hno n' a').
    + intros v Hin. destruct (H1 n' a' v E' Hin) as (k & ev & -> & _). done.
  - intros n' a' E. destruct (Hcase n' a' E) as [[-> ->]|[Hne E']]; cbn; by apply H7.
  - rewrite length_insert. done.
Qed.

Lemma io_ok_grow as_ ch tl (ws : wstore) k :
  io_ok as_ ch tl ws -> io_ok (as_ ++ replicate k ANFD_zero) ch tl ws.
Proof.
  intros [H1 H2 H3 H4 H5 H6 H7 H8].
  assert (Hcase : forall n a, (as_ ++ replicate k ANFD_zero) !! n = Some a ->
    as_ !! n = Some a \/ (length as_ <= n)%nat /\ a = ANFD_zero).
  { intros n a [|[Hn E]]%lookup_app_Some; [by left|right]. split; [done|]. by apply lookup_replicate in E as []. }
  split; [| | | |done| | |].
  - intros n a w E Hw. destruct (Hcase n a E) as [E'|[_ ->]]; [by apply (H1 n a)|]. by apply not_elem_of_nil in Hw.
  - intros n a E. destruct (Hcase n a E) as [E'|[_ ->]]; [by apply (H2 n)|constructor].
  - intros w k' fd ev E Hk. destruct (H3 w k' fd ev E Hk) as (Hfd & a & Ea & Hin). split; [done|].
    exists a. by rewrite lookup_app_l by (apply lookup_lt_is_Some_1; eauto).
  - intros fd. rewrite H4. split; intros (Hfd & a & E & Hf); (split; [done|]); exists a; (split; [|done]).
    + by rewrite lookup_app_l by (apply lookup_lt_is_Some_1; eauto).
    + by destruct (Hcase _ _ E) as [|[_ ->]].
  - intros n a E Hf. destruct (Hcase n a E) as [E'|[_ ->]]; [by apply (H6 n)|done].
  - intros n a E. destruct (Hcase n a E) as [E'|[Hn ->]]; [by apply H7|]. cbn.
    destruct (tl !! Z.of_nat n) eqn:Et; [|done]. destruct (H8 (Z.of_nat n)); [eauto|]. lia.
  - intros fd Hs. destruct (H8 fd Hs). rewrite length_app. lia.
Qed.

(** ** Starting and stopping *)

(** What an operation on io watcher [w] leaves alone. *)
Record iframe (w : nat) (s s' : loop) : Prop := mkIframe {
  if_now : mn_now s' = mn_now s;
  if_done : loop_done s' = loop_done s;
  if_rfeeds : rfeeds s' = rfeeds s;
  if_pendings : pendings s' = pendings s;
  if_timers : timers s' = timers s;
  if_max : timermax s' = timermax s;
  if_cnt : timercnt s' = timercnt s;
  if_pend : forall v, pend_view <$> watchers s' !! v = pend_view <$> watchers s !! v;
  if_tm : forall v, watchers s' !! v ≫= timer_view = watchers s !! v ≫= timer_view;
  if_io : forall v, v <> w -> watchers s' !! v ≫= io_view = watchers s !! v ≫= io_view }.

Lemma iframe_ok w s s' :
  iframe w s s' -> ev_ok s -> io_ok (anfds s') (fdchanges s') (told s') (watchers s') ->
  count_ok (activecnt s') (watchers s') -> ev_ok s'.
Proof.
  intros F [Htm Hpd _ _] Hio Hct. split; [| |done|done].
  - rewrite (if_timers _ _ _ F), (if_max _ _ _ F), (if_cnt _ _ _ F).
    eapply timers_ok_view; [apply (if_tm _ _ _ F)|done].
  - rewrite (if_pendings _ _ _ F). eapply pend_ok_view; [apply (if_pend _ _ _ F)|done].
Qed.

(** Setting the descriptor and the mask of a stopped watcher. *)
Lemma set_io_ok s w x fd0 ev0 fd ev :
  ev_ok s -> watchers s !! w = Some x -> kind x = EvIo fd0 ev0 -> active x = 0 ->
  let s' := put_w s w (set_kind x (EvIo fd ev)) in
  ev_ok s' /\ iframe w s s' /\ watchers s' !! w = Some (set_kind x (EvIo fd ev)).
Proof.
  intros Hok Hx Hk Ha s'. pose proof Hok as [Htm Hpd Hio Hct].
  assert (F : iframe w s s').
  { split; try done; intros v; [| |intros Hv; cbn; by rewrite lookup_insert_ne];
      cbn; (destruct (decide (v = w)) as [->|Hv]; [rewrite lookup_insert_eq, Hx|by rewrite lookup_insert_ne]).
    - done.
    - unfold timer_view. cbn. by rewrite Hk. }
  split_and!; [|done|apply lookup_insert_eq]. apply (iframe_ok w s); [done|done| |].
  - assert (Hin : forall n a, anfds s !! n = Some a -> w ∉ fd_head a).
    { intros n a Ea Hin. destruct (io_head _ _ _ _ Hio n a w Ea Hin) as (k & ev' & E & Hnz & _).
      apply io_view_Some in E as (y & Hy & Hya & _). congruence. }
    assert (Hv : forall v, v <> w -> watchers s' !! v ≫= io_view = watchers s !! v ≫= io_view) by apply F.
    destruct Hio as [H1 H2 H3 H4 H5 H6 H7 H8]. split; [|done| |done|done| |done|done].
    + intros n a v Ea Hv'. rewrite Hv by (intros ->; by apply (Hin n a)). by apply (H1 n a).
    + intros v k fd1 ev1 E Hnz. destruct (decide (v = w)) as [->|Hvw].
      * cbn in E. rewrite lookup_insert_eq in E. cbn in E. by injection E as <- _ _.
      * rewrite Hv in E by done. by apply (H3 v k fd1 ev1).
    + intros n a Ea Hf. rewrite <-(H6 n a Ea Hf). apply union_events_view.
      * intros v Hv'. apply Hv. intros ->. by apply (Hin n a).
      * intros v Hv'. destruct (H1 n a v Ea Hv') as (k & ev' & -> & _). done.
  - eapply count_ok_view; [|done]. intros v. cbn. destruct (decide (v = w)) as [->|Hv].
    + by rewrite lookup_insert_eq, Hx.
    + by rewrite lookup_insert_ne.
Qed.

Definition io_legal (ev : Z) : Prop := Z.land ev (Z.lnot (Z.lor EV__IOFDSET (Z.lor EV_READ EV_WRITE))) = 0.

Lemma io_legal_mask ev : io_legal ev -> is_mask (Z.land ev (Z.lnot EV__IOFDSET)).
Proof.
  unfold io_legal, is_mask, EV__IOFDSET, EV_READ, EV_WRITE. intros H0.
  change (Z.lor 128 (Z.lor 1 2)) with 131 in H0.
  assert (E : Z.land ev (Z.lnot 128) = Z.land ev 3).
  { apply Z.bits_inj_iff. intros b. rewrite !Z.land_spec. apply (f_equal (fun z => Z.testbit z b)) in H0.
    rewrite Z.land_spec, Z.bits_0 in H0. destruct (Z.testbit ev b); [|done]. cbn in *.
    destruct (decide (b < 0)) as [Hn|Hn]; [by rewrite !Z.testbit_neg_r by lia|].
    rewrite Z.lnot_spec in H0 |- * by lia. apply negb_false_iff in H0.
    change 131 with (Z.lor 128 3) in H0. rewrite Z.lor_spec in H0.
    destruct (Z.testbit 128 b) eqn:E128, (Z.testbit 3 b) eqn:E3; try done.
    assert (Hc : Z.testbit (Z.land 128 3) b = false) by apply Z.bits_0.
    by rewrite Z.land_spec, E128, E3 in Hc. }
  rewrite E. change 3 with (Z.ones 2). rewrite Z.land_ones by lia. apply Z.mod_pos_bound. done.
Qed.

Lemma get_anfd_ok (s : loop) fd a : 0 <= fd -> anfds s !! Z.to_nat fd = Some a -> get_anfd s fd = Ok a.
Proof. intros Hfd E. unfold get_anfd. rewrite E. by destruct (Z.ltb_spec fd 0); [lia|]. Qed.

(** [fd_change] after the list of the descriptor was set. *)
Lemma fd_change_put (s : loop) fd a l flags :
  0 <= fd -> anfds s !! Z.to_nat fd = Some a ->
  let c := changed (anfds s) (fdchanges s) (Z.to_nat fd) a l flags in
  fd_change (put_anfd s fd (mkANFD l (fd_events a) (fd_reify_flag a))) fd flags =
  Ok (with_io s (fst c) (snd c) (told s)).
Proof.
  intros Hfd Ha. unfold fd_change.
  assert (Hlt : (Z.to_nat fd < length (anfds s))%nat) by (apply lookup_lt_is_Some_1; eauto).
  erewrite get_anfd_ok; [|done|by apply list_lookup_insert_eq]. ev_cbn.
  rewrite list_insert_insert_eq. unfold changed. cbn [fst snd]. rewrite Z2Nat.id by done.
  by destruct (fd_reify_flag a =? 0).
Qed.

Lemma not_in_heads s w x :
  ev_ok s -> watchers s !! w = Some x -> active x = 0 -> forall n a, anfds s !! n = Some a -> w ∉ fd_head a.
Proof.
  intros Hok Hx Ha n a Ea Hin.
  destruct (io_head _ _ _ _ (ok_fd _ Hok) n a w Ea Hin) as (k & ev' & E & Hnz & _).
  apply io_view_Some in E as (y & Hy & Hya & _). congruence.
Qed.

Lemma pri_adjust_id (ws : wstore) ps w x : pend_ok ps ws -> ws !! w = Some x -> pri_adjust x = x.
Proof.
  intros Hp Hx. pose proof (pd_pri _ _ Hp w (pending x) (priority x)) as Hr. rewrite Hx in Hr.
  specialize (Hr eq_refl). unfold pri_adjust, EV_MINPRI, EV_MAXPRI in *.
  rewrite (proj2 (Z.ltb_ge (priority x) (-2))) by lia. rewrite (proj2 (Z.ltb_ge 2 (priority x))) by lia.
  by destruct x.
Qed.

Lemma io_start_ok s w x fd ev :
  ev_ok s -> watchers s !! w = Some x -> kind x = EvIo fd ev -> active x = 0 -> 0 <= fd -> io_legal ev ->
  exists s', io_start s w = Ok s' /\ ev_ok s' /\ iframe w s s' /\ fd ∈ fdchanges s' /\
    watchers s' !! w ≫= io_view = Some (1, fd, Z.land ev (Z.lnot EV__IOFDSET)).
Proof.
  intros Hok Hx Hk Ha Hfd Hleg. pose proof Hok as [Htm Hpd Hio Hct].
  unfold io_start, get_w. rewrite Hx. cbn [the mbind outcome_bind]. unfold is_active, io_of. rewrite Ha, Hk.
  cbn [Z.eqb negb mbind outcome_bind]. rewrite guard_trap_true by lia.
  rewrite guard_trap_true by (unfold io_legal in Hleg; lia).
  unfold ev_start, get_w. rewrite Hx. cbn [the mbind outcome_bind]. rewrite (pri_adjust_id _ _ _ _ Hpd Hx).
  set (s1 := with_activecnt (put_w s w (set_active x 1)) (activecnt s + 1)).
  destruct (array_needsize_ok sizeof_ANFD (anfdmax s1) (fd + 1)) as (max & -> & Hmax & Hmm);
    [done|unfold anfdmax; lia|]. cbn [mbind outcome_bind].
  set (grown := anfds s ++ replicate (Z.to_nat (max - anfdmax s1)) ANFD_zero).
  assert (Hlt : (Z.to_nat fd < length grown)%nat).
  { unfold grown. rewrite length_app, length_replicate. unfold anfdmax in *. cbn [anfds s1 with_activecnt put_w with_watchers] in *. lia. }
  destruct (lookup_lt_is_Some_2 _ _ Hlt) as [a Ea].
  set (s2 := with_io s1 (anfds s1 ++ _) _ _). rewrite (get_anfd_ok s2 fd a Hfd Ea). cbn [mbind outcome_bind].
  rewrite (fd_change_put s2 fd a (wlist_add (fd_head a) w) _ Hfd Ea).
  set (c := changed _ _ _ _ _ _). cbn [mbind outcome_bind].
  assert (Hws : watchers (with_io s2 (fst c) (snd c) (told s2)) !! w = Some (set_active x 1)) by apply lookup_insert_eq.
  rewrite Hws. cbn [the mbind outcome_bind]. eexists. split; [done|].
  match goal with |- ev_ok ?s3 /\ _ => assert (F : iframe w s s3) end.
  { split; try done; intros v; [| |intros Hv; cbn; by rewrite !lookup_insert_ne];
      cbn; (destruct (decide (v = w)) as [->|Hv]; [rewrite lookup_insert_eq, Hx|by rewrite !lookup_insert_ne]).
    - done.
    - unfold timer_view. cbn. by rewrite Hk. }
  pose proof (io_ok_grow _ _ _ _ (Z.to_nat (max - anfdmax s1)) Hio) as Hgr.
  assert (Hnin : forall n a, grown !! n = Some a -> w ∉ fd_head a).
  { intros n a' [E|[_ E]]%lookup_app_Some; [by apply (not_in_heads s w x Hok Hx Ha n)|].
    apply lookup_replicate in E as [-> _]. apply not_elem_of_nil. }
  assert (Hodd : Z.odd (Z.lor (Z.land ev EV__IOFDSET) EV_ANFD_REIFY) = true)
    by (rewrite <-Z.bit0_odd, Z.lor_spec; apply orb_true_r).
  split_and!; [|done| |].
  - apply (iframe_ok w s); [done|done| |].
    + apply (io_ok_changed _ _ _ (watchers s) _ _ a _ _ w); [exact Hgr|exact Ea|done| | | | | |].
      * constructor; [by apply (Hnin (Z.to_nat fd))|]. apply (io_nodup _ _ _ _ Hgr (Z.to_nat fd) a Ea).
      * apply F.
      * intros v Hv. unfold wlist_add. rewrite elem_of_cons. naive_solver.
      * intros _. exists 1, (Z.land ev (Z.lnot EV__IOFDSET)). cbn. rewrite lookup_insert_eq. cbn.
        rewrite Z2Nat.id by done. split_and!; [done|done|by apply io_legal_mask].
      * cbn. rewrite lookup_insert_eq. cbn. intros k fd1 ev1 [= <- <- <-] _.
        split; [by rewrite Z2Nat.id|left].
      * intros n' a' _ E. by apply (Hnin n').
    + cbn. apply (count_ok_add _ (watchers s) _ w); [| | |done].
      * rewrite Hx. cbn. unfold is_active. by rewrite Ha.
      * by rewrite lookup_insert_eq.
      * intros v Hv. by rewrite !lookup_insert_ne.
  - cbn. destruct (Z.eqb_spec (fd_reify_flag a) 0) as [Hz|Hz].
    + apply elem_of_app. right. rewrite Z2Nat.id by done. by apply list_elem_of_singleton.
    + apply (io_changes _ _ _ _ Hgr). eauto.
  - cbn. by rewrite lookup_insert_eq.
Qed.

Lemma io_stop_inactive s w x :
  ev_ok s -> watchers s !! w = Some x -> active x = 0 -> io_stop s w = Ok (cleared s w x).
Proof.
  intros Hok Hx Ha. unfold io_stop. rewrite (clear_pending_eq s w x (ok_pd _ Hok) Hx). fold (cleared s w x).
  cbn [mbind outcome_bind]. unfold get_w. rewrite cleared_w. cbn [the mbind outcome_bind].
  unfold is_active. cbn [active set_pending]. by rewrite Ha.
Qed.

Lemma io_stop_active s w x fd ev :
  ev_ok s -> watchers s !! w = Some x -> kind x = EvIo fd ev -> active x <> 0 ->
  exists s', io_stop s w = Ok s' /\ ev_ok s' /\ iframe w (cleared s w x) s' /\ fd ∈ fdchanges s' /\
    watchers s' !! w ≫= io_view = Some (0, fd, ev).
Proof.
  intros Hok0 Hx0 Hk Ha. pose proof (cleared_ok s w x Hok0 Hx0) as Hok.
  unfold io_stop. rewrite (clear_pending_eq s w x (ok_pd _ Hok0) Hx0). fold (cleared s w x).
  cbn [mbind outcome_bind]. pose proof (cleared_w s w x) as Hx. set (s1 := cleared s w x) in *.
  clearbody s1. clear Hx0. pose proof Hok as [Htm Hpd Hio Hct]. unfold get_w at 1. rewrite Hx.
  cbn [the mbind outcome_bind]. unfold is_active, io_of. cbn [active kind set_pending].
  rewrite (proj2 (Z.eqb_neq _ _) Ha), Hk. cbn [negb mbind outcome_bind].
  destruct (io_all _ _ _ _ Hio w (active x) fd ev) as (Hfd & a & Ea & Hin);
    [apply io_view_Some; by exists (set_pending x 0)|done|].
  assert (Hlt : (Z.to_nat fd < length (anfds s1))%nat) by (apply lookup_lt_is_Some_1; eauto).
  rewrite guard_trap_true by (unfold anfdmax; lia).
  rewrite (get_anfd_ok s1 fd a Hfd Ea). cbn [mbind outcome_bind].
  unfold ev_stop, get_w. change (watchers (put_anfd ?s ?f ?y)) with (watchers s). rewrite Hx.
  cbn [the mbind outcome_bind].
  set (x' := set_active (set_pending x 0) 0).
  set (s2 := with_activecnt (put_w s1 w x') (activecnt s1 - 1)).
  pose proof (fd_change_put s2 fd a (wlist_del (fd_head a) w) EV_ANFD_REIFY Hfd Ea) as E.
  match goal with |- exists s', ?m = Ok s' /\ _ => replace m with (fd_change (put_anfd s2 fd (mkANFD (wlist_del (fd_head a) w) (fd_events a) (fd_reify_flag a))) fd EV_ANFD_REIFY) by done end.
  rewrite E. eexists. split; [done|].
  pose proof (io_nodup _ _ _ _ Hio _ _ Ea) as Hnd.
  match goal with |- ev_ok ?s3 /\ _ => assert (F : iframe w s1 s3) end.
  { split; try done; intros v; [| |intros Hv; cbn; by rewrite lookup_insert_ne];
      cbn; (destruct (decide (v = w)) as [->|Hv]; [rewrite lookup_insert_eq, Hx|by rewrite lookup_insert_ne]).
    - done.
    - unfold timer_view. cbn. by rewrite Hk. }
  split_and!; [|done| |].
  - apply (iframe_ok w s1); [done|done| |].
    + apply (io_ok_changed _ _ _ (watchers s1) _ _ a _ _ w); [exact Hio|exact Ea|done| | | | | |].
      * by apply wlist_del_nodup.
      * apply F.
      * intros v Hv. rewrite wlist_del_elem by done. naive_solver.
      * rewrite wlist_del_elem by done. by intros [_ ?].
      * cbn. rewrite lookup_insert_eq. unfold io_view, x'. cbn. rewrite Hk. by intros k fd1 ev1 [= <- _ _].
      * intros n' a' Hne E' Hin'. destruct (io_head _ _ _ _ Hio n' a' w E' Hin') as (k & ev' & Ev & _).
        rewrite Hx in Ev. unfold io_view in Ev. cbn in Ev. rewrite Hk in Ev. cbn in Ev. injection Ev as _ Efd _. lia.
    + cbn. apply (count_ok_sub _ (watchers s1) _ w); [| | |done].
      * rewrite Hx. cbn. unfold is_active. cbn. by rewrite (proj2 (Z.eqb_neq _ _) Ha).
      * by rewrite lookup_insert_eq.
      * intros v Hv. by rewrite lookup_insert_ne.
  - cbn. destruct (Z.eqb_spec (fd_reify_flag a) 0) as [Hz|Hz].
    + apply elem_of_app. right. rewrite Z2Nat.id by done. by apply list_elem_of_singleton.
    + apply (io_changes _ _ _ _ Hio). eauto.
  - cbn. rewrite lookup_insert_eq. unfold io_view, x'. cbn. by rewrite Hk.
Qed.

(** ** Telling the backend *)

(** One descriptor of [fd_reify]: it comes into step and leaves the list. *)
Lemma reify_one as_ fd fds tl (ws : wstore) a ev :
  io_ok as_ (fd :: fds) tl ws -> 0 <= fd -> as_ !! Z.to_nat fd = Some a ->
  union_events ws (fd_head a) 0 = Ok ev ->
  let o_reify := if negb (fd_events a =? ev) then EV__IOFDSET else fd_reify_flag a in
  io_ok (<[Z.to_nat fd := mkANFD (fd_head a) ev 0]> as_) fds
    (if negb (Z.land o_reify EV__IOFDSET =? 0) then <[fd := ev]> tl else tl) ws.
Proof.
  intros [H1 H2 H3 H4 H5 H6 H7 H8] Hfd Ha Hu o_reify.
  assert (Hlt : (Z.to_nat fd < length as_)%nat) by (apply lookup_lt_is_Some_1; eauto).
  apply NoDup_cons in H5 as [Hnf H5].
  assert (Hcase : forall n a', <[Z.to_nat fd := mkANFD (fd_head a) ev 0]> as_ !! n = Some a' ->
    n = Z.to_nat fd /\ a' = mkANFD (fd_head a) ev 0 \/ n <> Z.to_nat fd /\ as_ !! n = Some a').
  { intros n a' [(-> & <- & _)|[Hne E]]%list_lookup_insert_Some; [by left|by right]. }
  split.
  - intros n a' w E Hw. destruct (Hcase n a' E) as [[-> ->]|[_ E']]; [by apply (H1 _ a)|by apply (H1 _ a')].
  - intros n a' E. destruct (Hcase n a' E) as [[-> ->]|[_ E']]; [by apply (H2 (Z.to_nat fd) a)|by apply (H2 n)].
  - intros w k fd' ev' E Hk. destruct (H3 w k fd' ev' E Hk) as (Hfd' & a' & Ea & Hin). split; [done|].
    destruct (decide (Z.to_nat fd' = Z.to_nat fd)) as [Heq|Hne].
    + rewrite Heq in *. rewrite list_lookup_insert_eq by done. eexists. split; [done|]. cbn. by simplify_eq.
    + rewrite list_lookup_insert_ne by done. eauto.
  - intros fd'. destruct (decide (fd' = fd)) as [->|Hne].
    + split; [done|]. intros (_ & a' & E & Hf). rewrite list_lookup_insert_eq in E by done. by injection E as <-.
    + transitivity (fd' ∈ fd :: fds); [rewrite elem_of_cons; naive_solver|]. rewrite H4.
      split; (intros (Hfd' & a' & E & Hf); split; [done|]; exists a'; split; [|done]).
      * rewrite list_lookup_insert_ne by lia. done.
      * rewrite list_lookup_insert_ne in E by lia. done.
  - done.
  - intros n a' E Hf. destruct (Hcase n a' E) as [[-> ->]|[_ E']]; [done|by apply (H6 n)].
  - intros n a' E. destruct (Hcase n a' E) as [[-> ->]|[Hne E']]; cbn.
    + rewrite Z2Nat.id by done. destruct (negb (Z.land o_reify EV__IOFDSET =? 0)) eqn:Ht; [by rewrite lookup_insert_eq|].
      pose proof (H7 _ _ Ha) as Htl. rewrite Z2Nat.id in Htl by done. rewrite Htl.
      unfold o_reify in Ht. destruct (Z.eqb_spec (fd_events a) ev); [done|]. by cbn in Ht.
    + destruct (negb (Z.land o_reify EV__IOFDSET =? 0)); [rewrite lookup_insert_ne by lia|]; by apply H7.
  - intros fd'. rewrite length_insert. destruct (negb (Z.land o_reify EV__IOFDSET =? 0)); [|apply H8].
    rewrite lookup_insert_is_Some. intros [<-|[_ Hs]]; [lia|by apply H8].
Qed.

(** What telling the backend leaves alone. *)
Record kframe (s s' : loop) : Prop := mkKframe {
  kf_now : mn_now s' = mn_now s;
  kf_done : loop_done s' = loop_done s;
  kf_rfeeds : rfeeds s' = rfeeds s;
  kf_pendings : pendings s' = pendings s;
  kf_timers : timers s' = timers s;
  kf_max : timermax s' = timermax s;
  kf_cnt : timercnt s' = timercnt s;
  kf_active : activecnt s' = activecnt s;
  kf_ws : watchers s' = watchers s;
  kf_len : anfdmax s' = anfdmax s }.

Lemma reify_fds_ok fds : forall s,
  io_ok (anfds s) fds (told s) (watchers s) ->
  exists s', reify_fds s fds = Ok s' /\ io_ok (anfds s') [] (told s') (watchers s') /\ kframe s s'.
Proof.
  induction fds as [|fd fds IH]; intros s Hio; [by exists s|]. cbn [reify_fds].
  destruct (proj1 (io_changes _ _ _ _ Hio fd)) as (Hfd & a & Ea & _); [left|].
  rewrite (get_anfd_ok s fd a Hfd Ea). cbn [mbind outcome_bind].
  destruct (union_events_ok (watchers s) (fd_head a) 0) as (ev & Eu & _).
  { intros w Hw. destruct (io_head _ _ _ _ Hio _ a w Ea Hw) as (k & ev & ? & _ & ?). eauto. }
  rewrite Eu. cbn [mbind outcome_bind].
  pose proof (reify_one _ fd fds _ _ a ev Hio Hfd Ea Eu) as Hio'.
  match goal with |- context [reify_fds ?s1 fds] => destruct (IH s1) as (s' & -> & Hio'' & F') end.
  { revert Hio'. cbv zeta. destruct (negb (Z.land _ EV__IOFDSET =? 0)); done. }
  exists s'. split_and!; [done|done|]. destruct F' as [F1 F2 F3 F4 F5 F6 F7 F8 F9 F10].
  revert F1 F2 F3 F4 F5 F6 F7 F8 F9 F10.
  destruct (negb (Z.land _ EV__IOFDSET =? 0)); split; try done; unfold anfdmax in *; cbn in *;
    by rewrite length_insert in *.
Qed.

(** After [fd_reify] the backend was told exactly what the active watchers want. *)
Lemma fd_reify_ok s :
  ev_ok s -> exists s', fd_reify s = Ok s' /\ ev_ok s' /\ kframe s s' /\ fdchanges s' = [] /\
    (forall n a, anfds s' !! n = Some a -> fd_reify_flag a = 0) /\
    forall fd b, Z.testbit (default 0 (told s' !! fd)) b = true <-> wants (watchers s) fd b.
Proof.
  intros [Htm Hpd Hio Hct]. unfold fd_reify. destruct (reify_fds_ok (fdchanges s) s Hio) as (s1 & -> & Hio1 & F).
  cbn [mbind outcome_bind]. eexists. split; [done|].
  assert (Hflag : forall n a, anfds s1 !! n = Some a -> fd_reify_flag a = 0).
  { intros n a Ea. destruct (decide (fd_reify_flag a = 0)) as [|Hf]; [done|].
    destruct (not_elem_of_nil (Z.of_nat n)). apply (io_changes _ _ _ _ Hio1). split; [lia|]. rewrite Nat2Z.id. eauto. }
  split_and!; [|by destruct F; split|done|done|].
  - split; ev_cbn.
    + by rewrite (kf_timers _ _ F), (kf_max _ _ F), (kf_cnt _ _ F), (kf_ws _ _ F).
    + by rewrite (kf_pendings _ _ F), (kf_ws _ _ F).
    + done.
    + by rewrite (kf_active _ _ F), (kf_ws _ _ F).
  - intros fd b. ev_cbn. rewrite <-(kf_ws _ _ F).
    destruct (decide (0 <= fd < Z.of_nat (length (anfds s1)))) as [Hfd|Hfd].
    + destruct (lookup_lt_is_Some_2 (anfds s1) (Z.to_nat fd)) as [a Ea]; [lia|].
      pose proof (io_told _ _ _ _ Hio1 _ _ Ea) as Et. rewrite Z2Nat.id in Et by lia. rewrite Et.
      rewrite (sync_wants _ _ _ _ _ a b Hio1 Ea (Hflag _ _ Ea)). by rewrite Z2Nat.id by lia.
    + destruct (told s1 !! fd) as [v|] eqn:Et; [destruct Hfd; apply (io_told_dom _ _ _ _ Hio1); eauto|].
      cbn. rewrite Z.bits_0. split; [done|]. intros (w & k & ev & E & Hk & _).
      destruct (io_all _ _ _ _ Hio1 w k fd ev E Hk) as (H0 & a & Ea & _).
      destruct Hfd. split; [done|]. apply lookup_lt_Some in Ea. lia.
Qed.

(** ** Events of descriptors *)

(** The events [ev] are queued for [w]; the event of bit [b] is. *)
Definition queued (ps : list (list ANPENDING)) (w : nat) (ev : Z) : Prop :=
  exists q, q ∈ ps /\ mkPend (Some w) ev ∈ q.
Definition qbit (ps : list (list ANPENDING)) (w : nat) (b : Z) : Prop :=
  exists ev, queued ps w ev /\ Z.testbit ev b = true.

Lemma queued_lookup ps w ev :
  queued ps w ev <-> exists n q j, ps !! n = Some q /\ q !! j = Some (mkPend (Some w) ev).
Proof.
  split.
  - intros (q & [n Hq]%list_elem_of_lookup_1 & [j Hj]%list_elem_of_lookup_1). eauto.
  - intros (n & q & j & Hq & Hj). exists q. split; by eapply list_elem_of_lookup_2.
Qed.

(** A watcher has at most one entry. *)
Lemma queued_unique ps (ws : wstore) w ev ev' :
  pend_ok ps ws -> queued ps w ev -> queued ps w ev' -> ev = ev'.
Proof.
  intros Hp (n & q & j & Hq & Hj)%queued_lookup (n' & q' & j' & Hq' & Hj')%queued_lookup.
  pose proof (pd_entry _ _ Hp _ _ _ _ _ Hq Hj) as E. rewrite (pd_entry _ _ Hp _ _ _ _ _ Hq' Hj') in E.
  injection E as E1 E2. assert (j = j') as -> by lia. assert (n = n') as -> by lia. by simplify_eq.
Qed.

Lemma feed_queued ps (ws : wstore) w x rev q v b :
  pend_ok ps ws -> ws !! w = Some x -> ps !! Z.to_nat (ABSPRI x) = Some q ->
  (qbit (<[Z.to_nat (ABSPRI x) := feed_q w rev q]> ps) v b <->
   qbit ps v b \/ v = w /\ Z.testbit rev b = true).
Proof.
  intros Hp Hx Hq. assert (Hlt : (Z.to_nat (ABSPRI x) < length ps)%nat) by (apply lookup_lt_is_Some_1; eauto).
  pose proof (existsb_names_iff _ _ w x q Hp Hx Hq) as Hex. split.
  - intros (ev & (n & q' & j & Hn & Hj)%queued_lookup & Hb).
    apply list_lookup_insert_Some in Hn as [(<- & <- & _)|[Hne Hn]];
      [|left; exists ev; split; [apply queued_lookup; eauto|done]].
    unfold feed_q in Hj. destruct (existsb (names w) q).
    + rewrite list_lookup_fmap in Hj. destruct (q !! j) as [p|] eqn:Ej; [|done]. cbn in Hj.
      destruct (names w p) eqn:Hnp; injection Hj as Hj.
      * apply names_spec in Hnp. destruct p as [pw pe]. cbn in *. simplify_eq.
        rewrite Z.lor_spec, orb_true_iff in Hb. destruct Hb as [Hb|Hb]; [left|by right].
        exists pe. split; [apply queued_lookup; eauto|done].
      * subst p. left. exists ev. split; [apply queued_lookup; eauto|done].
    + apply lookup_app_Some in Hj as [Hj|[_ Hj]]; [left; exists ev; split; [apply queued_lookup; eauto|done]|].
      apply list_lookup_singleton_Some in Hj as [_ Hj]. right. injection Hj as -> ->. done.
  - intros [(ev & (n & q' & j & Hn & Hj)%queued_lookup & Hb)|[-> Hb]].
    + destruct (decide (n = Z.to_nat (ABSPRI x))) as [->|Hne].
      2:{ exists ev. split; [apply queued_lookup; exists n, q', j; by rewrite list_lookup_insert_ne|done]. }
      rewrite Hq in Hn. injection Hn as <-. unfold feed_q. destruct (existsb (names w) q) eqn:He.
      * exists (if names w (mkPend (Some v) ev) then Z.lor ev rev else ev). split.
        -- apply queued_lookup. eexists _, _, j. split; [by apply list_lookup_insert_eq|].
           rewrite list_lookup_fmap, Hj. cbn. by destruct (names w _).
        -- destruct (names w _); [|done]. by rewrite Z.lor_spec, Hb.
      * exists ev. split; [|done]. apply queued_lookup. eexists _, _, j. split; [by apply list_lookup_insert_eq|].
        by rewrite lookup_app_l by (apply lookup_lt_is_Some_1; eauto).
    + unfold feed_q. destruct (existsb (names w) q) eqn:He.
      * destruct (pd_all _ _ Hp w (pending x) (priority x)) as (_ & q' & ev & Hq' & Hj);
          [by rewrite Hx|by apply Hex|]. fold (ABSPRI x) in Hq'. rewrite Hq in Hq'. injection Hq' as <-.
        exists (Z.lor ev rev). split; [|by rewrite Z.lor_spec, Hb, orb_true_r].
        apply queued_lookup. eexists _, _, _. split; [by apply list_lookup_insert_eq|].
        rewrite list_lookup_fmap, Hj. cbn. unfold names. cbn. by rewrite bool_decide_eq_true_2.
      * exists rev. split; [|done]. apply queued_lookup. eexists _, _, (length q).
        split; [by apply list_lookup_insert_eq|]. by apply list_lookup_middle.
Qed.

(** Feeding the watchers of a descriptor. *)
Lemma feed_watchers_ok rev l : forall s,
  ev_ok s -> (forall w, w ∈ l -> is_Some (watchers s !! w ≫= io_view)) ->
  exists s', feed_watchers s l rev = Ok s' /\ ev_ok s' /\ pframe s s' /\ rfeeds s' = rfeeds s /\
    (forall v, watchers s !! v ≫= io_view = None -> watchers s' !! v = watchers s !! v) /\
    forall v b, qbit (pendings s') v b <-> qbit (pendings s) v b \/
      exists k fd ev, v ∈ l /\ watchers s !! v ≫= io_view = Some (k, fd, ev) /\
        Z.testbit ev b = true /\ Z.testbit rev b = true.
Proof.
  induction l as [|w l IH]; intros s Hok Hl.
  - exists s. split_and!; [done|done|apply pframe_refl|done|done|]. intros v b. set_solver.
  - destruct (Hl w) as [[[k fd] ev] E]; [left|]. pose proof E as (x & Hx & Ha & Hk)%io_view_Some.
    cbn [feed_watchers]. unfold get_w. rewrite Hx. cbn [the mbind outcome_bind]. unfold io_of. rewrite Hk.
    cbn [mbind outcome_bind snd].
    assert (Hstep : exists s1, (if negb (Z.land ev rev =? 0) then ev_feed_event s w (Z.land ev rev) else Ok s) = Ok s1 /\
      ev_ok s1 /\ pframe s s1 /\ rfeeds s1 = rfeeds s /\ (forall v, v <> w -> watchers s1 !! v = watchers s !! v) /\
      forall v b, qbit (pendings s1) v b <-> qbit (pendings s) v b \/ v = w /\ Z.testbit (Z.land ev rev) b = true).
    { destruct (Z.eqb_spec (Z.land ev rev) 0) as [Hz|Hz]; cbn [negb].
      - exists s. split_and!; [done|done|apply pframe_refl|done|done|]. intros v b. rewrite Hz, Z.bits_0. naive_solver.
      - destruct (feed_event_ok s w x (Z.land ev rev) Hok Hx) as (s1 & q & -> & Hok1 & F1 & Hr1 & Hq & Hps & Hws).
        exists s1. split_and!; [done..| |]; [intros v Hv; by rewrite Hws, lookup_insert_ne|]. intros v b. rewrite Hps. by apply (feed_queued _ (watchers s)), Hq; [apply Hok|]. }
    destruct Hstep as (s1 & -> & Hok1 & F1 & Hr1 & Hsame & Hq1). cbn [mbind outcome_bind].
    assert (Hio : forall v, watchers s1 !! v ≫= io_view = watchers s !! v ≫= io_view)
      by (intros v; apply (body_views _ _ v (pf_body _ _ F1 v))).
    destruct (IH s1) as (s' & -> & Hok' & F' & Hr' & Hs' & Hq'); [done|intros v Hv; rewrite Hio; apply Hl; by right|].
    exists s'. split_and!; [done|done|by eapply pframe_trans|congruence| |].
    { intros v Hv. rewrite Hs' by (by rewrite Hio). apply Hsame. intros ->. congruence. }
    intros v b. rewrite Hq', Hq1.
    rewrite Hio, Z.land_spec, andb_true_iff. split.
    + intros [[|[-> [? ?]]]|(k' & fd' & ev' & Hv & Hrest)]; [by left|right|right].
      * exists k, fd, ev. split; [left|done].
      * exists k', fd', ev'. split; [by right|done].
    + intros [|(k' & fd' & ev' & Hv & Ev & Hb1 & Hb2)]; [by left; left|].
      apply elem_of_cons in Hv as [->|Hv]; [|right; eauto 10]. rewrite E in Ev. injection Ev as <- <- <-.
      left. right. done.
Qed.

(** [fd_event] queues the events of a descriptor for the watchers that asked
    for them, unless the watchers changed while the backend waited. *)
Lemma fd_event_ok s fd rev a :
  ev_ok s -> 0 <= fd -> anfds s !! Z.to_nat fd = Some a ->
  exists s', fd_event s fd rev = Ok s' /\ ev_ok s' /\ pframe s s' /\ rfeeds s' = rfeeds s /\
    (forall v, watchers s !! v ≫= io_view = None -> watchers s' !! v = watchers s !! v) /\
    forall v b, qbit (pendings s') v b <-> qbit (pendings s) v b \/
      fd_reify_flag a = 0 /\ exists k ev, watchers s !! v ≫= io_view = Some (k, fd, ev) /\ k <> 0 /\
        Z.testbit ev b = true /\ Z.testbit rev b = true.
Proof.
  intros Hok Hfd Ha. pose proof (ok_fd _ Hok) as Hio. unfold fd_event.
  rewrite (get_anfd_ok s fd a Hfd Ha). cbn [mbind outcome_bind].
  destruct (Z.eqb_spec (fd_reify_flag a) 0) as [Hz|Hz].
  2:{ exists s. split_and!; [done|done|apply pframe_refl|done|done|]. naive_solver. }
  unfold fd_event_nocheck. rewrite (get_anfd_ok s fd a Hfd Ha). cbn [mbind outcome_bind].
  assert (Hh : forall w, w ∈ fd_head a -> exists k ev, watchers s !! w ≫= io_view = Some (k, fd, ev) /\ k <> 0).
  { intros w Hw. destruct (io_head _ _ _ _ Hio _ a w Ha Hw) as (k & ev & E & Hk & _).
    rewrite Z2Nat.id in E by done. eauto. }
  destruct (feed_watchers_ok rev (fd_head a) s Hok) as (s' & -> & Hok' & F' & Hr' & Hs' & Hq').
  { intros w Hw. destruct (Hh w Hw) as (k & ev & -> & _). done. }
  exists s'. split_and!; [done..|]. intros v b. rewrite Hq'. split.
  - intros [|(k & fd' & ev & Hv & E & Hb)]; [by left|right]. split; [done|].
    destruct (Hh v Hv) as (k' & ev' & E' & Hk). rewrite E in E'. injection E' as -> -> ->. eauto.
  - intros [|(_ & k & ev & E & Hk & Hb)]; [by left|right]. exists k, fd, ev. split; [|done].
    destruct (io_all _ _ _ _ Hio v k fd ev E Hk) as (_ & a' & Ea & Hin). by simplify_eq.
Qed.
End Io.
