(* ===== verification/EvRun.v ===== *)
(** * Rounds of a libev loop (deps/libev-4.11/ev.c)

    [ev_invoke_pending] calls the callbacks of the queued events, and a round of
    [ev_run] brings the backend into step, waits, queues what the backend and
    the clock report and calls the callbacks.  The callbacks are an argument:
    the class [CbLaws] says what the loop needs of them, and every sequence of
    [EventLoop] operations provides it. *)

From S2P Require Import Prelude Event EvHeap EvLoop EvTimer EvIo.
From Stdlib Require Import Sorted.

Section Invoke.
Context {T : Type} `{TL : TstampLaws T}.
Local Abbreviation loop := (ev_loop T).
Local Abbreviation wstore := (gmap nat (watcher T)).
Local Abbreviation queues := (list (list ANPENDING)).

(** The callback of a watcher, called with the events that happened. *)
Context (cb : nat -> Z -> loop -> outcome loop).

(** [while (pendingcnt [pri])]: the last entry is taken and called; the dummy
    does nothing. *)
Fixpoint invoke_queue (fuel : nat) (s : loop) (pri : Z) : outcome (loop * list (nat * Z)) :=
  match fuel with
  | O => Trap OutOfFuel
  | S fuel =>
      q ← queue s pri;
      match last q with
      | None => Ok (s, [])
      | Some p =>
          let s := put_queue s pri (take (length q - 1) q) in
          match p_w p with
          | None => invoke_queue fuel s pri
          | Some w =>
              x ← get_w s w;
              s ← cb w (p_events p) (put_w s w (set_pending x 0));
              r ← invoke_queue fuel s pri;
              Ok (fst r, (w, p_events p) :: snd r)
          end
      end
  end.

(** [for (pri = NUMPRI; pri--; )]. *)
Fixpoint invoke_from (n : nat) (s : loop) : outcome (loop * list (nat * Z)) :=
  match n with
  | O => Ok (s, [])
  | S n =>
      q ← queue s (Z.of_nat n);
      r ← invoke_queue (S (length q)) s (Z.of_nat n);
      r' ← invoke_from n (fst r);
      Ok (fst r', snd r ++ snd r')
  end.
(** The final state and the calls made, in order. *)
Definition ev_invoke_pending (s : loop) : outcome (loop * list (nat * Z)) :=
  invoke_from (Z.to_nat NUMPRI) s.

(** ** A round of [ev_run] *)

(** What the world gives a round: the clock before the wait, the ready
    descriptors the backend reports, and the clock after it. *)
Record world := mkWorld { e_before : T; e_ready : list (Z * Z); e_after : T }.

(** The constants of the wait: the longest one and the resolution of the backend. *)
Context (MAX_BLOCKTIME backend_mintime : T).

(** [mn_now = get_clock ()], of the monotonic clock. *)
Definition time_update (s : loop) (clock : T) : loop := with_now s clock.

(** How long the backend may block; no block time was asked for. *)
Definition waittime (s : loop) : outcome T :=
  if activecnt s =? 0 then Ok tzero else
  wt ← (if timercnt s =? 0 then Ok MAX_BLOCKTIME else
        he ← hget (timers s) HEAP0;
        let to := tsub (ANHE_at he) (mn_now s) in
        Ok (if tlt to MAX_BLOCKTIME then to else MAX_BLOCKTIME));
  let wt := if tlt wt tzero then tzero else wt in
  Ok (if tlt wt backend_mintime then backend_mintime else wt).

(** The loop of the backend over the descriptors that are ready. *)
Fixpoint poll_events (s : loop) (ready : list (Z * Z)) : outcome loop :=
  match ready with
  | [] => Ok s
  | (fd, got) :: ready => s ← fd_event s fd got; poll_events s ready
  end.

(** The body of the loop of [ev_run]. *)
Definition round (s : loop) (e : world) : outcome (loop * list (nat * Z)) :=
  s ← fd_reify s;
  let s := time_update s (e_before e) in
  _ ← waittime s;
  s ← poll_events s (e_ready e);
  let s := time_update (ev_break s EVBREAK_CANCEL) (e_after e) in
  s ← timers_reify s;
  ev_invoke_pending s.

(** [ev_run (loop, 0)] on the rounds the world provides: the final state, the
    calls made, and whether it returned. *)
Fixpoint run_rounds (s : loop) (es : list world) : outcome (loop * list (nat * Z) * bool) :=
  if negb (loop_done s =? 0) then Ok (s, [], true) else
  match es with
  | [] => Ok (s, [], false)
  | e :: es =>
      r ← round s e;
      let '(s, log) := r : loop * list (nat * Z) in
      if negb (activecnt s =? 0) && (loop_done s =? 0) then
        r ← run_rounds s es;
        let '(s, log', fin) := r : loop * list (nat * Z) * bool in
        Ok (s, log ++ log', fin)
      else Ok (s, log, true)
  end.

Definition ev_run (s : loop) (es : list world) : outcome (loop * list (nat * Z) * bool) :=
  r ← ev_invoke_pending (ev_break s EVBREAK_CANCEL);
  r' ← run_rounds (fst r) es;
  let '(s, log, fin) := r' : loop * list (nat * Z) * bool in
  Ok (if fin && (loop_done s =? EVBREAK_ONE) then ev_break s EVBREAK_CANCEL else s,
      snd r ++ log, fin).

(** ** What callbacks do to the queues *)

(** An entry stays or becomes the dummy. *)
Definition fades (p p' : ANPENDING) : Prop := p' = p \/ p' = mkPend None (p_events p).
Definition faded : queues -> queues -> Prop := Forall2 (Forall2 fades).

#[global] Instance fades_preorder : PreOrder fades.
Proof.
  split; [by left|]. intros p q r [->| ->] [->| ->]; [by left|by right..].
Qed.
#[global] Instance faded_preorder : PreOrder faded.
Proof. unfold faded. apply _. Qed.

Lemma faded_lookup ps ps' n q :
  faded ps ps' -> ps !! n = Some q -> exists q', ps' !! n = Some q' /\ Forall2 fades q q'.
Proof. intros Hf Hq. destruct (Forall2_lookup_l _ _ _ _ _ Hf Hq) as (q' & ? & ?). eauto. Qed.

Lemma faded_lookup_r ps ps' n q' :
  faded ps ps' -> ps' !! n = Some q' -> exists q, ps !! n = Some q /\ Forall2 fades q q'.
Proof. intros Hf Hq. destruct (Forall2_lookup_r _ _ _ _ _ Hf Hq) as (q & ? & ?). eauto. Qed.

Lemma clear_w_faded w ps : faded ps (clear_w w ps).
Proof.
  unfold faded, clear_w. apply Forall2_fmap_r, Forall2_same_length_lookup. split; [done|].
  intros i q q' -> [= ->]. apply Forall2_fmap_r, Forall2_same_length_lookup. split; [done|].
  intros j p p' -> [= ->]. unfold fades, clear_e. cbn. destruct (names w p'); auto.
Qed.

(** Nothing is queued that was not. *)
Lemma faded_queued ps ps' w ev : faded ps ps' -> queued ps' w ev -> queued ps w ev.
Proof.
  intros Hf (n & q' & j & Hq' & Hj)%queued_lookup.
  destruct (faded_lookup_r _ _ _ _ Hf Hq') as (q & Hq & Hqq).
  destruct (Forall2_lookup_r _ _ _ _ _ Hqq Hj) as (p & Hp & [E|E]); [|done].
  apply queued_lookup. exists n, q, j. by rewrite Hp, <-E.
Qed.

(** What the loop needs of the callbacks: they return, keep the invariant and
    queue nothing. *)
Class CbLaws : Prop := {
  cb_returns : forall w rev s, ev_ok s -> rfeeds s = [] -> is_Some (watchers s !! w) ->
    exists s', cb w rev s = Ok s' /\ ev_ok s' /\ rfeeds s' = [] /\ faded (pendings s) (pendings s') }.

(** ** Taking the last entry *)

(** The entries of a queue in the order in which they are called. *)
Definition entry (p : ANPENDING) : option (nat * Z) := w ← p_w p; Some (w, p_events p).
Definition pop_order (q : list ANPENDING) : list (nat * Z) := omap entry (reverse q).

Lemma pop_order_snoc q p : pop_order (q ++ [p]) = option_list (entry p) ++ pop_order q.
Proof. unfold pop_order. rewrite reverse_snoc. cbn. by destruct (entry p). Qed.

Lemma fades_pop_order q q' : Forall2 fades q q' -> pop_order q' `sublist_of` pop_order q.
Proof.
  intros Hf. induction Hf as [|p p' q q' [->| ->] Hf IH]; [apply sublist_nil_l|..];
    unfold pop_order in *; rewrite !reverse_cons, !omap_app.
  - by apply sublist_app.
  - cbn. rewrite app_nil_r. by apply sublist_inserts_r.
Qed.

Lemma pop_order_elem q w ev : (w, ev) ∈ pop_order q <-> mkPend (Some w) ev ∈ q.
Proof.
  unfold pop_order. rewrite list_elem_of_omap. split.
  - intros (p & Hp & E). apply elem_of_reverse. destruct p as [[v|] e]; unfold entry in E; cbn in E; by simplify_eq.
  - intros Hp. exists (mkPend (Some w) ev). split; [by apply elem_of_reverse|done].
Qed.

(** A watcher has one place in the queues. *)
Lemma entry_place ps (ws : wstore) n q j n' q' j' w ev ev' :
  pend_ok ps ws -> ps !! n = Some q -> q !! j = Some (mkPend (Some w) ev) ->
  ps !! n' = Some q' -> q' !! j' = Some (mkPend (Some w) ev') -> n = n' /\ j = j'.
Proof.
  intros Hp Hq Hj Hq' Hj'. pose proof (pd_entry _ _ Hp _ _ _ _ _ Hq Hj) as E1.
  rewrite (pd_entry _ _ Hp _ _ _ _ _ Hq' Hj') in E1. injection E1. lia.
Qed.

(** An event that stays queued while entries fade keeps its queue. *)
Lemma faded_place ps ps' (ws : wstore) n q w ev :
  pend_ok ps ws -> faded ps ps' -> ps !! n = Some q -> mkPend (Some w) ev ∈ q -> queued ps' w ev ->
  exists q', ps' !! n = Some q' /\ mkPend (Some w) ev ∈ q'.
Proof.
  intros Hp Hf Hq [j Hj]%list_elem_of_lookup_1 (m & q3 & j3 & Hm & Hj3)%queued_lookup.
  destruct (faded_lookup_r _ _ _ _ Hf Hm) as (q4 & Hq4 & Hf4).
  destruct (Forall2_lookup_r _ _ _ _ _ Hf4 Hj3) as (p4 & Hp4 & [E4|E4]); [|done]. subst p4.
  destruct (entry_place _ _ _ _ _ _ _ _ _ _ _ Hp Hq Hj Hq4 Hp4) as [<- _].
  exists q3. split; [done|]. by eapply list_elem_of_lookup_2.
Qed.

Lemma pop_ok ps (ws ws' : wstore) n q p :
  pend_ok ps ws -> ps !! n = Some (q ++ [p]) ->
  (forall v, p_w p <> Some v -> pend_view <$> ws' !! v = pend_view <$> ws !! v) ->
  (forall v, p_w p = Some v -> pend_view <$> ws' !! v = (fun x => (0, priority x)) <$> ws !! v) ->
  pend_ok (<[n := q]> ps) ws'.
Proof.
  intros Hp Hn Hv Hw. pose proof Hp as [H1 H2 H3 H4].
  assert (Hlt : (n < length ps)%nat) by (apply lookup_lt_is_Some_1; eauto).
  assert (Hlast : forall v m q' j ev, ps !! m = Some q' -> q' !! j = Some (mkPend (Some v) ev) ->
    p_w p = Some v -> m = n /\ j = length q).
  { intros v m q' j ev Hm Hj Ep. apply (entry_place ps ws m q' j n (q ++ [p]) (length q) v ev (p_events p)); [done..|].
    rewrite list_lookup_middle, <-Ep by done. by destruct p. }
  split.
  - by rewrite length_insert.
  - intros v pd pri. destruct (decide (p_w p = Some v)) as [E|E]; [rewrite (Hw v E)|rewrite (Hv v E); apply H2].
    destruct (ws !! v) as [x|] eqn:Hx; [|done]. cbn. intros [= <- <-]. apply (H2 v (pending x)). by rewrite Hx.
  - intros m q' j v ev Hm Hj.
    assert (Hold : exists q0, ps !! m = Some q0 /\ q0 !! j = Some (mkPend (Some v) ev) /\ (m = n -> (j < length q)%nat)).
    { apply list_lookup_insert_Some in Hm as [(<- & <- & _)|[Hne Hm]]; [|by exists q'].
      exists (q ++ [p]). pose proof (lookup_lt_Some _ _ _ Hj). by rewrite lookup_app_l. }
    destruct Hold as (q0 & Hm0 & Hj0 & Hlt0). rewrite Hv; [by apply (H3 m q0 j v ev)|].
    intros E. destruct (Hlast v m q0 j ev Hm0 Hj0 E) as [-> ->]. specialize (Hlt0 eq_refl). lia.
  - intros v pd pri. destruct (decide (p_w p = Some v)) as [E|E].
    + rewrite (Hw v E). destruct (ws !! v) as [x|]; [|done]. cbn. by intros [= <- _].
    + rewrite (Hv v E). intros Ev Hnz. destruct (H4 v pd pri Ev Hnz) as (Hpos & q0 & ev & Hq0 & Hj).
      split; [done|]. destruct (decide (Z.to_nat (pri - EV_MINPRI) = n)) as [Eq|Hne].
      * rewrite Eq in *. rewrite Hn in Hq0. injection Hq0 as <-. exists q, ev.
        rewrite list_lookup_insert_eq by done. split; [done|].
        apply lookup_app_Some in Hj as [Hj|[_ Hj]]; [done|]. apply list_lookup_singleton_Some in Hj as [_ Hj].
        by subst p.
      * rewrite list_lookup_insert_ne by done. eauto.
Qed.

(** The loop when the last entry [p] of queue [n] was taken. *)
Lemma pop_step s n q p :
  ev_ok s -> rfeeds s = [] -> pendings s !! n = Some (q ++ [p]) ->
  match p_w p with
  | None => ev_ok (put_queue s (Z.of_nat n) q)
  | Some w => exists x, watchers s !! w = Some x /\ ev_ok (put_w (put_queue s (Z.of_nat n) q) w (set_pending x 0))
  end.
Proof.
  intros Hok Hr Hn. pose proof (ok_pd _ Hok) as Hpd. destruct (p_w p) as [w|] eqn:Hw.
  - pose proof (pd_entry _ _ Hpd n (q ++ [p]) (length q) w (p_events p) Hn) as E.
    rewrite list_lookup_middle in E by done. specialize (E ltac:(rewrite <-Hw; by destruct p)).
    destruct (watchers s !! w) as [x|] eqn:Hx; [|done]. exists x. split; [done|].
    eapply (pframe_ok s); [|done|].
    + split; try done. intros v. cbn. destruct (decide (v = w)) as [->|Hv].
      * by rewrite lookup_insert_eq, Hx.
      * by rewrite lookup_insert_ne.
    + ev_cbn. rewrite Nat2Z.id. apply (pop_ok _ (watchers s) _ n q p Hpd Hn).
      * intros v Hv. rewrite lookup_insert_ne; [done|]. congruence.
      * intros v Ev. assert (v = w) as -> by congruence. by rewrite lookup_insert_eq, Hx.
  - eapply (pframe_ok s); [by split|done|]. ev_cbn. rewrite Nat2Z.id.
    apply (pop_ok _ (watchers s) _ n q p Hpd Hn); [done|]. congruence.
Qed.

(** The callbacks of other watchers leave the events of [w] queued. *)
Definition keeps (w : nat) : Prop :=
  forall v rev s s' ev, v <> w -> ev_ok s -> cb v rev s = Ok s' -> queued (pendings s) w ev -> queued (pendings s') w ev.

Context {CL : CbLaws}.

(** What a sequence of calls [log] for the queues below [ps] to the state [s'] is:
    calls for entries of the queue, in order, and for all that no callback
    withdrew. *)
Lemma invoke_queue_ok fuel : forall s n q,
  ev_ok s -> rfeeds s = [] -> pendings s !! n = Some q -> (length q < fuel)%nat ->
  exists s' log, invoke_queue fuel s (Z.of_nat n) = Ok (s', log) /\ ev_ok s' /\ rfeeds s' = [] /\
    faded (<[n := []]> (pendings s)) (pendings s') /\ log `sublist_of` pop_order q /\
    (forall w ev, keeps w -> (w, ev) ∈ pop_order q -> (w, ev) ∈ log) /\
    (forall w ev m q', keeps w -> m <> n -> pendings s !! m = Some q' -> mkPend (Some w) ev ∈ q' ->
      exists q'', pendings s' !! m = Some q'' /\ mkPend (Some w) ev ∈ q'').
Proof.
  induction fuel as [|fuel IH]; intros s n q Hok Hr Hn Hf; [lia|]. cbn [invoke_queue].
  rewrite (queue_lookup s _ q) by (rewrite ?Nat2Z.id; lia || done). cbn [mbind outcome_bind].
  assert (Hlt : (n < length (pendings s))%nat) by (apply lookup_lt_is_Some_1; eauto).
  destruct q as [|p q _] using rev_ind.
  { cbn [last]. exists s, []. split_and!; [done|done|done| |done|done|].
    - rewrite list_insert_id by done. done.
    - intros w ev m q' _ _ Hm Hin. eauto. }
  rewrite last_snoc. rewrite length_app, Nat.add_sub, take_app_length. rewrite pop_order_snoc.
  rewrite length_app in Hf. cbn [length] in Hf.
  pose proof (pop_step s n q p Hok Hr Hn) as Hpop. unfold entry. destruct (p_w p) as [w|] eqn:Hw.
  - destruct Hpop as (x & Hx & Hok1). unfold get_w.
    change (watchers (put_queue ?s ?i ?y)) with (watchers s). rewrite Hx. cbn [the mbind outcome_bind].
    set (s1 := put_w (put_queue s (Z.of_nat n) q) w (set_pending x 0)) in *.
    destruct (cb_returns w (p_events p) s1 Hok1 Hr) as (s2 & Ecb & Hok2 & Hr2 & Hfd);
      [eexists; apply lookup_insert_eq|]. rewrite Ecb. cbn [mbind outcome_bind].
    assert (Hps1 : pendings s1 = <[n := q]> (pendings s)) by (cbn; by rewrite Nat2Z.id).
    destruct (faded_lookup _ _ n q Hfd) as (q2 & Hq2 & Hqq); [by rewrite Hps1, list_lookup_insert_eq|].
    destruct (IH s2 n q2 Hok2 Hr2 Hq2) as (s' & log & -> & Hok' & Hr' & Hfd' & Hsub & Hall & Hoth).
    { rewrite <-(Forall2_length _ _ _ Hqq). lia. }
    cbn [mbind outcome_bind fst snd]. eexists s', _. split_and!; [done|done|done| | | |].
    + etrans; [|exact Hfd']. rewrite <-(list_insert_insert_eq (pendings s) n [] q), <-Hps1.
      apply Forall2_insert; [done|constructor].
    + cbn. apply sublist_skip. etrans; [done|]. by apply fades_pop_order.
    + intros v ev Hk. cbn. rewrite !elem_of_cons. intros [E|Hin]; [by left|right].
      destruct (decide (v = w)) as [->|Hvw].
      { exfalso. apply pop_order_elem, list_elem_of_lookup_1 in Hin as [j Hj].
        pose proof (lookup_lt_Some _ _ _ Hj) as Hjl.
        destruct (entry_place _ _ n (q ++ [p]) j n (q ++ [p]) (length q) w ev (p_events p) (ok_pd _ Hok) Hn) as [_ ->];
          [by rewrite lookup_app_l|done| |lia]. rewrite list_lookup_middle, <-Hw by done. by destruct p. }
      apply Hall; [done|]. apply pop_order_elem in Hin. apply pop_order_elem.
      assert (Hn1 : pendings s1 !! n = Some q) by (by rewrite Hps1, list_lookup_insert_eq).
      destruct (faded_place _ _ _ n q v ev (ok_pd _ Hok1) Hfd Hn1 Hin) as (q3 & Hq3 & Hin3).
      { apply (Hk w (p_events p) s1 s2 ev ltac:(done) Hok1 Ecb). exists q. split; [by eapply list_elem_of_lookup_2|done]. }
      by simplify_eq.
    + intros v ev m q' Hk Hmn Hm Hin.
      assert (Hm1 : pendings s1 !! m = Some q') by (by rewrite Hps1, list_lookup_insert_ne).
      assert (Hvw : w <> v).
      { intros <-. apply list_elem_of_lookup_1 in Hin as [j Hj].
        destruct (entry_place _ _ m q' j n (q ++ [p]) (length q) w ev (p_events p) (ok_pd _ Hok) Hm Hj Hn) as [-> _];
          [|done]. rewrite list_lookup_middle, <-Hw by done. by destruct p. }
      destruct (faded_place _ _ _ m q' v ev (ok_pd _ Hok1) Hfd Hm1 Hin) as (q3 & Hq3 & Hin3).
      { apply (Hk w (p_events p) s1 s2 ev Hvw Hok1 Ecb). exists q'. split; [by eapply list_elem_of_lookup_2|done]. }
      by apply (Hoth v ev m q3).
  - destruct (IH (put_queue s (Z.of_nat n) q) n q) as (s' & log & -> & Hok' & Hr' & Hfd' & Hsub & Hall & Hoth);
      [done|done|cbn; by rewrite Nat2Z.id, list_lookup_insert_eq|lia|].
    cbn [pendings put_queue with_pendings] in Hfd', Hoth. rewrite Nat2Z.id in *.
    rewrite list_insert_insert_eq in Hfd'. exists s', log. split_and!; [done..| |].
    + intros v ev Hk. cbn. by apply Hall.
    + intros v ev m q' Hk Hmn Hm Hin. apply (Hoth v ev m q'); [done|done| |done].
      by rewrite list_lookup_insert_ne.
Qed.

(** The queues below [n], in the order in which they are emptied. *)
Fixpoint pop_below (n : nat) (ps : queues) : list (nat * Z) :=
  match n with O => [] | S n => pop_order (default [] (ps !! n)) ++ pop_below n ps end.

Lemma pop_below_elem n ps w ev :
  (w, ev) ∈ pop_below n ps <-> exists m q, (m < n)%nat /\ ps !! m = Some q /\ mkPend (Some w) ev ∈ q.
Proof.
  induction n as [|n IH]; cbn [pop_below].
  - split; [by intros ?%not_elem_of_nil|]. intros (m & q & Hm & _). lia.
  - rewrite elem_of_app, pop_order_elem, IH. split.
    + intros [Hin|(m & q & Hm & Hrest)]; [|exists m, q; split; [lia|done]].
      destruct (ps !! n) as [q|] eqn:Hq; [|by apply not_elem_of_nil in Hin]. exists n, q. split; [lia|done].
    + intros (m & q & Hm & Hq & Hin). destruct (decide (m = n)) as [->|Hne]; [left; by rewrite Hq|right].
      exists m, q. split; [lia|done].
Qed.

Lemma faded_pop_below n ps ps' : faded ps ps' -> pop_below n ps' `sublist_of` pop_below n ps.
Proof.
  intros Hf. induction n as [|n IH]; cbn [pop_below]; [done|]. apply sublist_app; [|done].
  destruct (ps !! n) as [q|] eqn:Hq.
  - destruct (faded_lookup _ _ _ _ Hf Hq) as (q' & -> & Hqq). by apply fades_pop_order.
  - destruct (ps' !! n) as [q'|] eqn:Hq'; [|done].
    destruct (faded_lookup_r _ _ _ _ Hf Hq') as (q & Hq0 & _). congruence.
Qed.

Lemma pop_below_insert n ps q : pop_below n (<[n := q]> ps) = pop_below n ps.
Proof.
  assert (forall k, (k <= n)%nat -> pop_below k (<[n := q]> ps) = pop_below k ps) as Hk; [|by apply Hk].
  induction k as [|k IH]; intros Hk; cbn [pop_below]; [done|]. rewrite list_lookup_insert_ne by lia.
  f_equal. apply IH. lia.
Qed.

Lemma invoke_from_ok n : forall s,
  ev_ok s -> rfeeds s = [] -> (n <= length (pendings s))%nat ->
  exists s' log, invoke_from n s = Ok (s', log) /\ ev_ok s' /\ rfeeds s' = [] /\
    (forall m, (m < n)%nat -> pendings s' !! m = Some []) /\
    (forall m, pendings s !! m = Some [] -> pendings s' !! m = Some []) /\
    log `sublist_of` pop_below n (pendings s) /\
    (forall w ev, keeps w -> (w, ev) ∈ pop_below n (pendings s) -> (w, ev) ∈ log).
Proof.
  induction n as [|n IH]; intros s Hok Hr Hlen.
  { exists s, []. split_and!; [done|done|done|lia|done|done|done]. }
  cbn [invoke_from pop_below]. destruct (lookup_lt_is_Some_2 (pendings s) n) as [q Hq]; [lia|].
  rewrite (queue_lookup s _ q) by (rewrite ?Nat2Z.id; lia || done). cbn [mbind outcome_bind].
  destruct (invoke_queue_ok (S (length q)) s n q Hok Hr Hq) as (s1 & l1 & -> & Hok1 & Hr1 & Hf1 & Hsub1 & Hall1 & Hoth1);
    [lia|]. cbn [mbind outcome_bind fst snd].
  assert (Hlen1 : length (pendings s1) = length (pendings s))
    by (rewrite <-(Forall2_length _ _ _ Hf1), length_insert; done).
  destruct (IH s1 Hok1 Hr1) as (s2 & l2 & -> & Hok2 & Hr2 & Hz2 & Hk2 & Hsub2 & Hall2); [lia|].
  cbn [mbind outcome_bind fst snd].
  assert (Hempty : forall m, <[n := []]> (pendings s) !! m = Some [] -> pendings s1 !! m = Some []).
  { intros m Hm. destruct (faded_lookup _ _ _ _ Hf1 Hm) as (q' & Hq' & Hqq). by apply Forall2_nil_inv_l in Hqq as ->. }
  eexists s2, _. split_and!; [done|done|done| | | |].
  - intros m Hm. destruct (decide (m = n)) as [->|Hne]; [|apply Hz2; lia].
    apply Hk2, Hempty, list_lookup_insert_eq. lia.
  - intros m Hm. apply Hk2, Hempty. destruct (decide (m = n)) as [->|Hne].
    + apply list_lookup_insert_eq. lia.
    + by rewrite list_lookup_insert_ne.
  - rewrite Hq. cbn. apply sublist_app; [done|]. etrans; [done|]. etrans; [by apply faded_pop_below|].
    by rewrite pop_below_insert.
  - intros w ev Hk. rewrite Hq. cbn. rewrite !elem_of_app. intros [Hin|Hin]; [left; by apply Hall1|right].
    apply Hall2; [done|]. apply pop_below_elem in Hin as (m & q' & Hm & Hq' & Hin).
    destruct (Hoth1 w ev m q' Hk ltac:(lia) Hq' Hin) as (q2 & Hq2 & Hin2).
    apply pop_below_elem. eauto.
Qed.

Lemma all_empty_idle s :
  ev_ok s -> (forall n q, pendings s !! n = Some q -> q = []) ->
  forall w x, watchers s !! w = Some x -> pending x = 0.
Proof.
  intros Hok He w x Hx. destruct (decide (pending x = 0)) as [|Hnz]; [done|].
  destruct (pd_all _ _ (ok_pd _ Hok) w (pending x) (priority x)) as (_ & q & ev & Hq & Hj); [by rewrite Hx|done|].
  by rewrite (He _ _ Hq) in Hj.
Qed.

(** The state between rounds. *)
Record quiet (s : loop) : Prop := mkQuiet {
  qt_ok : ev_ok s;
  qt_rfeeds : rfeeds s = [];
  qt_empty : forall n q, pendings s !! n = Some q -> q = [] }.

Lemma invoke_pending_ok s :
  ev_ok s -> rfeeds s = [] ->
  exists s' log, ev_invoke_pending s = Ok (s', log) /\ quiet s' /\
    log `sublist_of` pop_below (Z.to_nat NUMPRI) (pendings s) /\
    (forall w ev, keeps w -> queued (pendings s) w ev -> (w, ev) ∈ log).
Proof.
  intros Hok Hr. pose proof (pd_len _ _ (ok_pd _ Hok)) as Hlen. unfold NUMPRI, EV_MAXPRI, EV_MINPRI in Hlen.
  destruct (invoke_from_ok (Z.to_nat NUMPRI) s Hok Hr) as (s' & log & E & Hok' & Hr' & Hz & _ & Hsub & Hall);
    [unfold NUMPRI, EV_MAXPRI, EV_MINPRI; lia|].
  exists s', log. split_and!; [done| |done|].
  - split; [done|done|]. intros n q Hq. pose proof (lookup_lt_Some _ _ _ Hq) as Hlt.
    pose proof (pd_len _ _ (ok_pd _ Hok')) as Hlen'. rewrite Hz in Hq by (unfold NUMPRI in *; lia). congruence.
  - intros w ev Hk (n & q & j & Hq & Hj)%queued_lookup. apply Hall; [done|]. apply pop_below_elem.
    exists n, q. split_and!; [|done|by eapply list_elem_of_lookup_2].
    pose proof (lookup_lt_Some _ _ _ Hq). unfold NUMPRI, EV_MAXPRI, EV_MINPRI. lia.
Qed.

Lemma fmap_sublist (l k : list (nat * Z)) : l `sublist_of` k -> (fst <$> l) `sublist_of` (fst <$> k).
Proof. induction 1; cbn; [done|by apply sublist_skip|by apply sublist_cons]. Qed.

(** Every call is for an event that was queued, and no watcher is called twice. *)
Lemma pop_below_queued n ps w ev : (w, ev) ∈ pop_below n ps -> queued ps w ev.
Proof.
  intros (m & q & _ & Hq & Hin)%pop_below_elem. exists q. split; [by eapply list_elem_of_lookup_2|done].
Qed.

Lemma pop_order_NoDup ps (ws : wstore) n q :
  pend_ok ps ws -> ps !! n = Some q -> NoDup (fst <$> pop_order q).
Proof.
  intros Hp Hq. assert (Hu : forall j j' w ev ev', q !! j = Some (mkPend (Some w) ev) ->
    q !! j' = Some (mkPend (Some w) ev') -> j = j') by (intros j j' w ev ev' H1 H2; by eapply entry_place).
  clear Hq. induction q as [|p q IH] using rev_ind; [constructor|]. rewrite pop_order_snoc, fmap_app.
  assert (IH' : NoDup (fst <$> pop_order q)).
  { apply IH. intros j j' w ev ev' H1 H2. apply (Hu j j' w ev ev').
    - by rewrite lookup_app_l by (apply lookup_lt_is_Some_1; eauto).
    - by rewrite lookup_app_l by (apply lookup_lt_is_Some_1; eauto). }
  destruct p as [[w|] e]; cbn; [|done]. constructor; [|done].
  intros ([v ev] & -> & Hin)%list_elem_of_fmap. cbn in *. apply pop_order_elem, list_elem_of_lookup_1 in Hin as [j Hj].
  pose proof (lookup_lt_Some _ _ _ Hj) as Hlt.
  assert (j = length q) as ->; [|lia]. apply (Hu j (length q) v ev e); [by rewrite lookup_app_l|by apply list_lookup_middle].
Qed.

Lemma pop_below_NoDup n ps (ws : wstore) : pend_ok ps ws -> NoDup (fst <$> pop_below n ps).
Proof.
  intros Hp. induction n as [|n IH]; cbn [pop_below]; [constructor|]. rewrite fmap_app. apply NoDup_app. split_and!.
  - destruct (ps !! n) as [q|] eqn:Hq; [by eapply pop_order_NoDup|constructor].
  - intros v ([w ev] & -> & Hin)%list_elem_of_fmap ([w' ev'] & Ew & Hin')%list_elem_of_fmap. cbn in Ew. subst w'.
    apply pop_order_elem in Hin. destruct (ps !! n) as [q|] eqn:Hq; [|by apply not_elem_of_nil in Hin]. cbn in Hin.
    apply pop_below_elem in Hin' as (m & q' & Hm & Hq' & Hin').
    apply list_elem_of_lookup_1 in Hin as [j Hj]. apply list_elem_of_lookup_1 in Hin' as [j' Hj'].
    destruct (entry_place _ _ _ _ _ _ _ _ _ _ _ Hp Hq Hj Hq' Hj') as [? _]. lia.
  - done.
Qed.

(** ** What a round does *)

(** The event of bit [b] is reported for the io watcher [w]. *)
Definition io_ready (ws : wstore) (ready : list (Z * Z)) (w : nat) (b : Z) : Prop :=
  exists k fd ev got, ws !! w ≫= io_view = Some (k, fd, ev) /\ k <> 0 /\ Z.testbit ev b = true /\
    (fd, got) ∈ ready /\ Z.testbit got b = true.

Lemma poll_events_ok ready : forall s,
  ev_ok s -> (forall n a, anfds s !! n = Some a -> fd_reify_flag a = 0) ->
  (forall fd got, (fd, got) ∈ ready -> 0 <= fd < anfdmax s) ->
  exists s', poll_events s ready = Ok s' /\ ev_ok s' /\ pframe s s' /\ rfeeds s' = rfeeds s /\
    (forall v, watchers s !! v ≫= io_view = None -> watchers s' !! v = watchers s !! v) /\
    forall v b, qbit (pendings s') v b <-> qbit (pendings s) v b \/ io_ready (watchers s) ready v b.
Proof.
  induction ready as [|[fd got] ready IH]; intros s Hok Hfl Hrd.
  - exists s. split_and!; [done|done|apply pframe_refl|done|done|]. intros v b. unfold io_ready. set_solver.
  - cbn [poll_events]. destruct (Hrd fd got) as [Hfd Hmax]; [left|].
    destruct (lookup_lt_is_Some_2 (anfds s) (Z.to_nat fd)) as [a Ea]; [unfold anfdmax in Hmax; lia|].
    destruct (fd_event_ok s fd got a Hok Hfd Ea) as (s1 & -> & Hok1 & F1 & Hr1 & Hs1 & Hq1). cbn [mbind outcome_bind].
    assert (Hio : forall v, watchers s1 !! v ≫= io_view = watchers s !! v ≫= io_view)
      by (intros v; apply (body_views _ _ v (pf_body _ _ F1 v))).
    destruct (IH s1) as (s' & -> & Hok' & F' & Hr' & Hs' & Hq'); [done|by rewrite (pf_anfds _ _ F1)| |].
    { intros fd' got' Hin. unfold anfdmax. rewrite (pf_anfds _ _ F1). apply (Hrd fd' got'). by right. }
    exists s'. split_and!; [done|done|by eapply pframe_trans|congruence| |].
    { intros v Hv. rewrite Hs' by (by rewrite Hio). by apply Hs1. }
    intros v b. rewrite Hq', Hq1. unfold io_ready. rewrite Hio. rewrite (Hfl _ _ Ea). split.
    + intros [[|(_ & k & ev & E & Hk & Hb1 & Hb2)]|(k & fd' & ev & got' & E & Hk & Hb & Hin & Hg)]; [by left|right|right].
      * exists k, fd, ev, got. split_and!; [done..|left|done].
      * exists k, fd', ev, got'. split_and!; [done..|by right|done].
    + intros [|(k & fd' & ev & got' & E & Hk & Hb & Hin & Hg)]; [by left; left|].
      apply elem_of_cons in Hin as [[= -> ->]|Hin]; [left; right; eauto 10|right; eauto 12].
Qed.

Lemma EV_TIMER_bit b : Z.testbit EV_TIMER b = true <-> b = 8.
Proof.
  unfold EV_TIMER. change 256 with (2 ^ 8). split; [|by intros ->].
  intros Hb. destruct (decide (b = 8)) as [|Hne]; [done|]. rewrite Z.pow2_bits_false in Hb by lia. done.
Qed.

(** [timers_reify] queues the timer event of the timers that are due. *)
Lemma timers_reify_qbit s :
  ev_ok s -> timers_idle (watchers s) -> rfeeds s = [] ->
  exists s', timers_reify s = Ok s' /\ ev_ok s' /\ rfeeds s' = [] /\
    forall v b, qbit (pendings s') v b <-> qbit (pendings s) v b \/
      b = 8 /\ due (mn_now s) (watchers s) v = true.
Proof.
  intros Hok Hid Hr. destruct (timers_reify_ok s Hok Hid Hr) as (s' & s1 & fs & -> & Hok' & Hr' & HF & _ & _ & Hq).
  exists s'. split_and!; [done|done|done|]. intros v b. split.
  - intros (ev & (n & q' & j & Hq' & Hj)%queued_lookup & Hb).
    destruct (lookup_lt_is_Some_2 (pendings s) n) as [q Hqs].
    { pose proof (pd_len _ _ (ok_pd _ Hok)). pose proof (pd_len _ _ (ok_pd _ Hok')).
      pose proof (lookup_lt_Some _ _ _ Hq'). lia. }
    rewrite (Hq n q Hqs) in Hq'. injection Hq' as <-. apply lookup_app_Some in Hj as [Hj|[_ Hj]].
    + left. exists ev. split; [apply queued_lookup; eauto|done].
    + right. apply list_elem_of_lookup_2, list_elem_of_fmap in Hj as (w & [= -> ->] & Hw).
      apply elem_of_reverse, list_elem_of_filter in Hw as [_ Hw]. apply (fi_due _ _ _ HF) in Hw.
      split; [by apply EV_TIMER_bit|done].
  - intros [(ev & (n & q & j & Hqs & Hj)%queued_lookup & Hb)|[-> Hd]].
    + exists ev. split; [|done]. apply queued_lookup. eexists n, _, j. split; [by apply Hq|].
      by rewrite lookup_app_l by (apply lookup_lt_is_Some_1; eauto).
    + exists EV_TIMER. split; [|done]. pose proof Hd as (a & r & Ht & _)%due_Some.
      unfold tstate in Ht. destruct (watchers s !! v) as [x|] eqn:Hx; [|done].
      destruct (pd_queue _ _ v x (ok_pd _ Hok) Hx) as (q & Hqs & _).
      exists (q ++ ((fun w => mkPend (Some w) EV_TIMER) <$>
        reverse (filter (at_pri (watchers s) (Z.to_nat (ABSPRI x))) fs))).
      split; [eapply list_elem_of_lookup_2; by apply Hq|]. apply elem_of_app. right.
      apply list_elem_of_fmap. exists v. split; [done|]. apply elem_of_reverse, list_elem_of_filter.
      split; [unfold at_pri; by rewrite Hx|]. by apply (fi_due _ _ _ HF).
Qed.

Lemma waittime_ok s : ev_ok s -> exists t, waittime s = Ok t.
Proof.
  intros Hok. unfold waittime. destruct (activecnt s =? 0); [eauto|].
  destruct (Z.eqb_spec (timercnt s) 0) as [Hz|Hnz]; [cbn; eauto|].
  pose proof (ok_tm _ Hok) as Htm. pose proof (tm_cnt _ _ _ _ Htm).
  destruct (tm_full _ _ _ _ Htm HEAP0) as [he He]; [unfold in_heap; lia|].
  rewrite (hget_Some _ _ _ He). cbn. eauto.
Qed.

(** The events of a round, bit by bit. *)
Definition happens (s : loop) (e : world) (w : nat) (b : Z) : Prop :=
  io_ready (watchers s) (e_ready e) w b \/ b = 8 /\ due (e_after e) (watchers s) w = true.

(** The backend reports descriptors the loop knows. *)
Definition world_ok (s : loop) (e : world) : Prop :=
  forall fd got, (fd, got) ∈ e_ready e -> 0 <= fd < anfdmax s.

Lemma ev_ok_now s t : ev_ok s -> ev_ok (with_now s t).
Proof. intros []. by split. Qed.
Lemma ev_ok_break s how : ev_ok s -> ev_ok (ev_break s how).
Proof. intros []. by split. Qed.

Lemma round_ok s e :
  quiet s -> world_ok s e ->
  exists s' log, round s e = Ok (s', log) /\ quiet s' /\ NoDup (fst <$> log) /\
    (forall w rev, (w, rev) ∈ log -> forall b, Z.testbit rev b = true <-> happens s e w b) /\
    (forall w b, keeps w -> happens s e w b -> exists rev, (w, rev) ∈ log).
Proof.
  intros [Hok Hr Hem] He. unfold round.
  destruct (fd_reify_ok s Hok) as (s1 & -> & Hok1 & F1 & _ & Hfl & _). cbn [mbind outcome_bind].
  destruct (waittime_ok (time_update s1 (e_before e))) as [wt ->]; [by apply ev_ok_now|]. cbn [mbind outcome_bind].
  destruct (poll_events_ok (e_ready e) (time_update s1 (e_before e))) as (s2 & -> & Hok2 & F2 & Hr2 & Hs2 & Hq2);
    [by apply ev_ok_now|done| |].
  { intros fd got Hin. unfold time_update, anfdmax. cbn. fold (anfdmax s1). rewrite (kf_len _ _ F1). by apply (He fd got). }
  cbn [mbind outcome_bind]. set (s3 := time_update _ (e_after e)).
  assert (Hws : forall v, watchers s3 !! v ≫= timer_view = watchers s !! v ≫= timer_view).
  { intros v. rewrite <-(kf_ws _ _ F1). apply (body_views _ _ v (pf_body _ _ F2 v)). }
  assert (Hid : timers_idle (watchers s3)).
  { intros w x a r Hx Hk. cbn in Hx. apply (all_empty_idle s Hok Hem w). rewrite <-(kf_ws _ _ F1).
    cbn in Hs2. rewrite <-Hs2; [done|]. destruct (body_views _ _ w (pf_body _ _ F2 w)) as (_ & Hv & _).
    cbn in Hv. rewrite <-Hv, Hx. unfold io_view. cbn. by rewrite Hk. }
  destruct (timers_reify_qbit s3) as (s4 & -> & Hok4 & Hr4 & Hq4); [by apply ev_ok_now, ev_ok_break|done| |].
  { cbn. rewrite Hr2. cbn. by rewrite (kf_rfeeds _ _ F1). }
  cbn [mbind outcome_bind].
  destruct (invoke_pending_ok s4 Hok4 Hr4) as (s' & log & E & Hqt & Hsub & Hall).
  assert (Hev : forall w b, qbit (pendings s4) w b <-> happens s e w b).
  { intros w b. rewrite Hq4. change (pendings s3) with (pendings s2). rewrite Hq2. cbn.
    rewrite (kf_pendings _ _ F1), (kf_ws _ _ F1). unfold happens, due, tstate. rewrite Hws.
    assert (~ qbit (pendings s) w b); [|tauto].
    intros (ev & (n & q & j & Hqn & Hj)%queued_lookup & _). by rewrite (Hem n q Hqn) in Hj. }
  exists s', log. split_and!; [done|done| | |].
  - eapply sublist_NoDup; [eapply pop_below_NoDup, Hok4|]. by apply fmap_sublist.
  - intros w rev Hin b. rewrite <-Hev.
    assert (Hqu : queued (pendings s4) w rev) by (eapply pop_below_queued, elem_of_sublist; [exact Hin|exact Hsub]).
    split; [intros Hb; by exists rev|]. intros (ev & Hqe & Hb).
    by rewrite <-(queued_unique _ _ _ _ _ (ok_pd _ Hok4) Hqe Hqu).
  - intros w b Hk (ev & Hqe & _)%Hev. exists ev. by apply Hall.
Qed.
End Invoke.
