(* ===== verification/EvClock.v ===== *)
(** * Suspending and checking a libev loop (deps/libev-4.11/ev.c)

    [ev_suspend] and [ev_resume], which shift all timers by the time in between,
    and [verify_heap], the loop's own check of its timer heap. *)

From S2P Require Import Prelude Event EvHeap EvLoop EvTimer EvIo EvRun.

Section Clock.
Context {T : Type} `{TL : TstampLaws T}.
Local Abbreviation loop := (ev_loop T).
Local Abbreviation wstore := (gmap nat (watcher T)).

Fixpoint reschedule_loop (n : nat) (s : loop) (i : Z) (adjust : T) : outcome loop :=
  match n with
  | O => Ok s
  | S n =>
      he ← hget (timers s) (i + HEAP0);
      x ← get_w s (ANHE_w he);
      ar ← timer_of x;
      let '(a, r) := ar : T * T in
      let s := put_w s (ANHE_w he) (set_kind x (EvTimer (tadd a adjust) r)) in
      s ← put_timer_slot s (i + HEAP0) (mkANHE (tadd a adjust) (ANHE_w he));
      reschedule_loop n s (i + 1) adjust
  end.

(** [timers_reschedule]: all timers by the same offset, the heap as it stands. *)
Definition timers_reschedule (s : loop) (adjust : T) : outcome loop :=
  reschedule_loop (Z.to_nat (timercnt s)) s 0 adjust.

(** The argument is the clock that [ev_now_update] reads. *)
Definition ev_suspend (s : loop) (clock : T) : loop := time_update s clock.
Definition ev_resume (s : loop) (clock : T) : outcome loop :=
  let mn_prev := mn_now s in
  let s := time_update s clock in
  timers_reschedule s (tsub (mn_now s) mn_prev).

(** [verify_heap] asserts, for every element, its index, the heap condition and
    the cached deadline; [verify_watcher] its priority and its pending entry. *)
Definition verify_watcher (s : loop) (w : nat) : outcome unit :=
  x ← get_w s w;
  guard_trap ((0 <=? ABSPRI x) && (ABSPRI x <? NUMPRI)) AssertFailed (
  if pending x =? 0 then Ok () else
  q ← queue s (ABSPRI x);
  match q !! Z.to_nat (pending x - 1) with
  | Some p => guard_trap (names w p) AssertFailed (Ok ())
  | None => Trap OutOfBounds
  end).

Fixpoint verify_loop (n : nat) (s : loop) (i : Z) : outcome unit :=
  match n with
  | O => Ok ()
  | S n =>
      he ← hget (timers s) i;
      x ← get_w s (ANHE_w he);
      guard_trap (active x =? i) AssertFailed (
      _ ← (if i =? HEAP0 then Ok () else
           hp ← hget (timers s) (HPARENT i);
           guard_trap (tle (ANHE_at hp) (ANHE_at he)) AssertFailed (Ok ()));
      ar ← timer_of x;
      guard_trap (tle (ANHE_at he) (fst ar) && tle (fst ar) (ANHE_at he)) AssertFailed (
      _ ← verify_watcher s (ANHE_w he);
      verify_loop n s (i + 1)))
  end.
Definition verify_heap (s : loop) : outcome unit := verify_loop (Z.to_nat (timercnt s)) s HEAP0.

(** ** The check passes *)

Lemma verify_watcher_ok s w x : ev_ok s -> watchers s !! w = Some x -> verify_watcher s w = Ok ().
Proof.
  intros Hok Hx. unfold verify_watcher, get_w. rewrite Hx. cbn [the mbind outcome_bind].
  pose proof (ok_pd _ Hok) as Hpd. destruct (pd_queue _ _ w x Hpd Hx) as (q & Hq & Hr).
  rewrite guard_trap_true by lia. destruct (Z.eqb_spec (pending x) 0) as [Hz|Hz]; [done|].
  rewrite (queue_lookup s _ q) by (lia || done). cbn [mbind outcome_bind].
  destruct (pd_all _ _ Hpd w (pending x) (priority x)) as (_ & q' & ev & Hq' & Hj); [by rewrite Hx|done|].
  fold (ABSPRI x) in Hq'. rewrite Hq in Hq'. injection Hq' as <-. rewrite Hj.
  apply guard_trap_true. by apply names_spec.
Qed.

Lemma verify_loop_ok n : forall s i,
  ev_ok s -> HEAP0 <= i -> i + Z.of_nat n <= timercnt s + HEAP0 -> verify_loop n s i = Ok ().
Proof.
  induction n as [|n IH]; intros s i Hok Hi Hn; [done|]. cbn [verify_loop].
  pose proof (ok_tm _ Hok) as Htm. assert (Hin : in_heap (timercnt s) i) by (unfold in_heap; lia).
  destruct (tm_full _ _ _ _ Htm i Hin) as [he He]. rewrite (hget_Some _ _ _ He). cbn [mbind outcome_bind].
  destruct (tm_view _ _ _ _ Htm i he Hin He) as (r & Ev & _). apply timer_view_Some in Ev as (x & Hx & Ha & Hk).
  unfold get_w. rewrite Hx. cbn [the mbind outcome_bind]. rewrite guard_trap_true by lia.
  assert ((if i =? HEAP0 then Ok () else hp ← hget (timers s) (HPARENT i);
    guard_trap (tle (ANHE_at hp) (ANHE_at he)) AssertFailed (Ok ())) = Ok ()) as ->.
  { destruct (Z.eqb_spec i HEAP0) as [|Hne]; [done|]. pose proof (HPARENT_lt i ltac:(lia)) as Hp.
    destruct (tm_full _ _ _ _ Htm (HPARENT i)) as [hp Hhp]; [unfold in_heap in *; lia|].
    rewrite (hget_Some _ _ _ Hhp). cbn [mbind outcome_bind]. apply guard_trap_true.
    apply (tm_ord _ _ _ _ Htm i); [unfold in_heap in Hin; lia|done|done]. }
  cbn [mbind outcome_bind]. unfold timer_of. rewrite Hk. cbn [mbind outcome_bind fst].
  rewrite guard_trap_true by (by rewrite !tle_refl). rewrite (verify_watcher_ok s _ x Hok Hx).
  cbn [mbind outcome_bind]. apply IH; [done|lia|lia].
Qed.

(** The loop's own assertions hold in every state that the invariant describes. *)
Lemma verify_heap_ok s : ev_ok s -> verify_heap s = Ok ().
Proof.
  intros Hok. apply verify_loop_ok; [done|lia|]. pose proof (tm_cnt _ _ _ _ (ok_tm _ Hok)). lia.
Qed.

(** ** Shifting the timers *)

(** The loop with the timers at the indices below [i] shifted. *)
Record shifted (d : T) (i : Z) (s s' : loop) : Prop := mkShifted {
  sh_frame : tframe s s';
  sh_max : timermax s' = timermax s;
  sh_cnt : timercnt s' = timercnt s;
  sh_active : activecnt s' = activecnt s;
  sh_heap : forall j, timers s' !! j =
    if decide (HEAP0 <= j < i + HEAP0) then (fun e => mkANHE (tadd (ANHE_at e) d) (ANHE_w e)) <$> timers s !! j
    else timers s !! j;
  sh_view : forall w, watchers s' !! w ≫= timer_view =
    '(k, a, r) ← watchers s !! w ≫= timer_view;
    Some (k, if decide (HEAP0 <= k < i + HEAP0) then tadd a d else a, r) }.

Lemma shifted_zero d s : shifted d 0 s s.
Proof.
  split; [apply tframe_refl|done|done|done|..].
  - intros j. destruct (decide (HEAP0 <= j < 0 + HEAP0)); [lia|done].
  - intros w. destruct (watchers s !! w ≫= timer_view) as [[[k a] r]|]; [|done]. cbn.
    destruct (decide (HEAP0 <= k < 0 + HEAP0)); [lia|done].
Qed.

Lemma reschedule_loop_ok n : forall s s1 i d,
  ev_ok s -> 0 <= i -> i + Z.of_nat n = timercnt s -> shifted d i s s1 ->
  exists s', reschedule_loop n s1 i d = Ok s' /\ shifted d (timercnt s) s s'.
Proof.
  induction n as [|n IH]; intros s s1 i d Hok Hi Hn Hsh.
  { exists s1. split; [done|]. by replace (timercnt s) with i by lia. }
  cbn [reschedule_loop]. pose proof (ok_tm _ Hok) as Htm.
  assert (Hin : in_heap (timercnt s) (i + HEAP0)) by (unfold in_heap; lia).
  destruct (tm_full _ _ _ _ Htm _ Hin) as [he He]. pose proof Hsh as [F Hmax Hcnt Hact Hh Hv].
  rewrite (hget_Some _ _ he) by (rewrite Hh; destruct (decide _); [lia|done]). cbn [mbind outcome_bind].
  destruct (tm_view _ _ _ _ Htm _ he Hin He) as (r & Ev & _).
  assert (Ev1 : watchers s1 !! ANHE_w he ≫= timer_view = Some (i + HEAP0, ANHE_at he, r)).
  { rewrite Hv, Ev. cbn. destruct (decide _); [lia|done]. }
  apply timer_view_Some in Ev1 as (x & Hx & Ha & Hk). unfold get_w. rewrite Hx. cbn [the mbind outcome_bind].
  unfold timer_of. rewrite Hk. cbn [mbind outcome_bind]. unfold put_timer_slot.
  change (timermax (put_w ?s ?v ?y)) with (timermax s).
  rewrite guard_trap_true.
  2:{ pose proof (tm_max _ _ _ _ Htm). rewrite Hmax. unfold in_heap, HEAP0, DHEAP in *. lia. }
  cbn [mbind outcome_bind]. apply (IH s); [done|lia|lia|]. split.
  - eapply tframe_trans; [exact F|]. split; try done; intros v; cbn;
      (destruct (decide (v = ANHE_w he)) as [->|Hne]; [rewrite lookup_insert_eq, Hx|by rewrite lookup_insert_ne]).
    + done.
    + unfold io_view. cbn. by rewrite Hk.
  - done.
  - done.
  - done.
  - intros j. cbn. destruct (decide (j = i + HEAP0)) as [->|Hj].
    + rewrite lookup_insert_eq, He. destruct (decide _); [done|lia].
    + rewrite lookup_insert_ne, Hh by done. destruct (decide _), (decide _); try done; lia.
  - intros w. cbn. destruct (decide (w = ANHE_w he)) as [->|Hw].
    + rewrite lookup_insert_eq, Ev. cbn. rewrite Ha. destruct (decide _); [done|lia].
    + rewrite lookup_insert_ne, Hv by done.
      destruct (watchers s !! w ≫= timer_view) as [[[k a] r']|] eqn:Ew; [|done]. cbn.
      destruct (decide (k = i + HEAP0)) as [->|Hkne].
      * destruct (tm_all _ _ _ _ Htm w _ a r' Ew) as [_ Hew]; [unfold HEAP0, DHEAP; lia|].
        rewrite He in Hew. injection Hew as ->. done.
      * do 3 f_equal. destruct (decide (HEAP0 <= k < i + HEAP0)), (decide (HEAP0 <= k < i + 1 + HEAP0)); try done; lia.
Qed.

(** The state of a timer after a shift by [d]: armed timers move. *)
Definition shift_state (d : T) (t : bool * T * T) : bool * T * T :=
  let '(b, a, r) := t in (b, if b then tadd a d else a, r).

Lemma shifted_ok d s s' : ev_ok s -> shifted d (timercnt s) s s' -> ev_ok s'.
Proof.
  intros Hok [F Hmax Hcnt Hact Hh Hv]. pose proof Hok as [Htm Hpd Hio Hct].
  assert (Hin : forall j, in_heap (timercnt s) j -> timers s' !! j =
    (fun e => mkANHE (tadd (ANHE_at e) d) (ANHE_w e)) <$> timers s !! j).
  { intros j Hj. rewrite Hh. unfold in_heap in Hj. destruct (decide _); [done|lia]. }
  apply (tframe_ok s); [done|done| |].
  - rewrite Hmax, Hcnt. destruct Htm as [H1 H2 H3 H4 H5 H6]. split; [done|done|..].
    + intros i Hi. rewrite Hin by done. apply fmap_is_Some. by apply H3.
    + intros i e Hi He. rewrite Hin in He by done. destruct (timers s !! i) as [e0|] eqn:He0; [|done].
      cbn in He. injection He as <-. cbn. destruct (H4 i e0 Hi He0) as (r & Ev & Hr). exists r. split; [|done].
      rewrite Hv, Ev. cbn. unfold in_heap in Hi. destruct (decide _); [done|lia].
    + intros i Hi a b Ha Hb. pose proof (HPARENT_lt i ltac:(lia)).
      rewrite Hin in Ha, Hb by (unfold in_heap; lia).
      destruct (timers s !! HPARENT i) as [a0|] eqn:Ea; [|done]. destruct (timers s !! i) as [b0|] eqn:Eb; [|done].
      cbn in Ha, Hb. injection Ha as <-. injection Hb as <-. cbn. apply tadd_mono. by apply (H5 i Hi).
    + intros w k a r Ew Hk. rewrite Hv in Ew. destruct (watchers s !! w ≫= timer_view) as [[[k0 a0] r0]|] eqn:E0; [|done].
      cbn in Ew. injection Ew as -> <- ->. destruct (H6 w k a0 r E0 Hk) as [Hik He]. split; [done|].
      rewrite Hin, He by done. cbn. unfold in_heap in Hik. destruct (decide _); [done|lia].
  - rewrite Hact. eapply count_ok_view; [|done]. intros w. pose proof (tf_io _ _ F w) as Hiow. specialize (Hv w).
    unfold is_active, io_view, timer_view in *.
    destruct (watchers s !! w) as [x|], (watchers s' !! w) as [x'|]; cbn in *; try done;
      try destruct (kind x); try destruct (kind x'); cbn in *; try done; congruence.
Qed.

(** Resuming at [clock] shifts every armed timer by the time that passed since
    the loop was suspended, and keeps the heap. *)
Lemma ev_resume_ok s clock :
  ev_ok s -> exists s', ev_resume s clock = Ok s' /\ ev_ok s' /\ mn_now s' = clock /\
    forall w, tstate (watchers s') w = shift_state (tsub clock (mn_now s)) <$> tstate (watchers s) w.
Proof.
  intros Hok. unfold ev_resume, timers_reschedule. set (s0 := time_update s clock).
  assert (Hok0 : ev_ok s0) by by apply ev_ok_now.
  pose proof (ok_tm _ Hok0) as Htm. pose proof (tm_cnt _ _ _ _ Htm).
  destruct (reschedule_loop_ok (Z.to_nat (timercnt s0)) s0 s0 0 (tsub clock (mn_now s)) Hok0) as (s' & E & Hsh);
    [done|lia|apply shifted_zero|].
  exists s'. split_and!; [exact E|by eapply shifted_ok|apply Hsh|]. intros w. unfold tstate.
  rewrite (sh_view _ _ _ _ Hsh). change (watchers s0) with (watchers s).
  destruct (watchers s !! w ≫= timer_view) as [[[k a] r]|] eqn:Ew; [|done]. cbn. do 2 f_equal.
  destruct (Z.eqb_spec k 0) as [->|Hnz]; cbn.
  - destruct (decide _) as [Hd|]; [unfold HEAP0, DHEAP in Hd; lia|done].
  - destruct (tm_all _ _ _ _ Htm w k a r Ew Hnz) as [Hik _]. unfold in_heap in Hik.
    change (timercnt s0) with (timercnt s) in *. destruct (decide _); [done|lia].
Qed.
End Clock.
