(* ===== verification/EvEvent.v ===== *)
(** * EventLoop on libev (src/server/event.cpp over deps/libev-4.11/ev.c)

    The operations of [EventLoop] over the whole state of a libev loop.  [Event]
    keeps of a watcher only whether it is active, its descriptor and its mask;
    here the same operations run on the queues, the descriptor lists and the
    timer heap, and a simulation shows that what [Event] says of a watcher is
    what libev does.  Any callback made of these operations satisfies the laws
    [EvRun] asks of callbacks, so that a running loop never traps. *)

From S2P Require Import Prelude Event EvHeap EvLoop EvTimer EvIo EvRun EvClock.
From Stdlib Require Import Sorted.

(** [float sec = (float)usec/1000000], of which the code needs the sign. *)
Class Seconds (T : Type) `{Tstamp T} := to_sec : Z -> T.
Class SecondsLaws (T : Type) `{Seconds T} : Prop := {
  to_sec_pos : forall usec, 0 <= usec -> tle tzero (to_sec usec) = true;
  to_sec_zero : forall usec, 0 <= usec -> tnonzero (to_sec usec) = negb (usec =? 0) }.

#[export] Instance Z_seconds : Seconds Z := fun usec => usec.
#[export] Instance Z_seconds_laws : SecondsLaws Z.
Proof. split; unfold to_sec, Z_seconds, tnonzero; cbn; intros; [lia|]. f_equal. lia. Qed.

(** ** The operations *)

Module Impl.
Section Impl.
Context {T : Type} `{TS : Tstamp T} {SEC : Seconds T}.
Local Abbreviation loop := (ev_loop T).

(** [ev_init]: a watcher at a fresh address, its other fields as allocated. *)
Definition ev_init (s : loop) (w : nat) (k : watcher_kind T) : outcome loop :=
  match watchers s !! w with
  | None => Ok (put_w s w (mkW 0 0 0 k))
  | Some _ => Trap Undefined
  end.

Definition create_io_event (s : loop) (w : nat) (fd0 ev0 : Z) : outcome loop :=
  ev_init s w (EvIo fd0 ev0).

Definition io_set (s : loop) (w : nat) (fd events : Z) : outcome loop :=
  x ← get_w s w;
  _ ← io_of x;
  Ok (put_w s w (set_kind x (EvIo fd (Z.lor events EV__IOFDSET)))).

Definition start_io_event (s : loop) (w : nat) (fd mask : Z) : outcome loop :=
  x ← get_w s w;
  io ← io_of x;
  if is_active x then
    let active_events := TRANS_FROM_EV_MASK (snd io) in
    let events := Z.lor active_events mask in
    if active_events =? events then Ok s else
    let events := TRANS_TO_EV_MASK events in
    s ← io_stop s w;
    s ← io_set s w fd events;
    io_start s w
  else
    s ← io_set s w fd (TRANS_TO_EV_MASK mask);
    io_start s w.

Definition stop_io_event (s : loop) (w : nat) (fd mask : Z) : outcome loop :=
  x ← get_w s w;
  io ← io_of x;
  let active_events := TRANS_FROM_EV_MASK (snd io) in
  let events := Z.land active_events (Z.lnot mask) in
  if active_events =? events then Ok s else
  let events := TRANS_TO_EV_MASK events in
  s ← io_stop s w;
  if negb (events =? EV_NONE) then
    s ← io_set s w fd events;
    io_start s w
  else Ok s.

(** [delete w], the memory of a watcher. *)
Definition delete_w (s : loop) (w : nat) : loop := with_watchers s (delete w (watchers s)).

Definition delete_io_event (s : loop) (w : nat) : outcome loop :=
  s ← io_stop s w;
  Ok (delete_w s w).

Definition create_timer (s : loop) (w : nat) (at0 repeat0 : T) : outcome loop :=
  ev_init s w (EvTimer at0 repeat0).

(** [need_repeat] is the field of the [TimerWatcher]. *)
Definition start_timer (s : loop) (w : nat) (need_repeat : bool) (usec : Z) : outcome loop :=
  let sec := to_sec usec in
  if negb need_repeat then
    s ← timer_stop s w;
    x ← get_w s w;
    _ ← timer_of x;
    timer_start (put_w s w (set_kind x (EvTimer sec tzero))) w
  else
    x ← get_w s w;
    ar ← timer_of x;
    timer_again (put_w s w (set_kind x (EvTimer (fst ar) sec))) w.

Definition stop_timer (s : loop) (w : nat) : outcome loop := timer_stop s w.

Definition delete_timer (s : loop) (w : nat) : outcome loop :=
  s ← stop_timer s w;
  Ok (delete_w s w).

Definition stop (s : loop) : loop := ev_break s EVBREAK_ALL.

(** [run], on what the world does; [suspend] and [resume], at the clock they read. *)
Definition run (cb : nat -> Z -> loop -> outcome loop) (MAX_BLOCKTIME backend_mintime : T)
    (s : loop) (es : list (@world T)) : outcome (loop * list (nat * Z) * bool) :=
  ev_run cb MAX_BLOCKTIME backend_mintime s es.
Definition suspend (s : loop) (clock : T) : loop := ev_suspend s clock.
Definition resume (s : loop) (clock : T) : outcome loop := ev_resume s clock.

(** The destructor: the loop is stopped, and gone unless it is the default one. *)
Definition destroy (s : loop) (is_default : bool) : option loop :=
  let s := stop s in
  if negb is_default then None else Some s.
End Impl.
End Impl.

Section Sim.
Context {T : Type} `{TS : Tstamp T} {TL : TstampLaws T} {SEC : Seconds T} {SL : SecondsLaws T}.
Local Abbreviation loop := (ev_loop T).
Local Abbreviation wstore := (gmap nat (watcher T)).

(** ** What [Event] keeps of a watcher *)

Definition io_abs (x : watcher T) : option ev_io :=
  match kind x with EvIo fd ev => Some (mkIo (is_active x) fd ev) | EvTimer _ _ => None end.

(** The effect of an operation on watcher [w]: the invariant and what is queued,
    except for events of [w], stay; no other watcher changes. *)
Record touches (w : nat) (s s' : loop) : Prop := mkTouches {
  tc_ok : ev_ok s';
  tc_rfeeds : rfeeds s' = rfeeds s;
  tc_now : mn_now s' = mn_now s;
  tc_done : loop_done s' = loop_done s;
  tc_faded : faded (pendings s) (pendings s');
  tc_queued : forall v ev, v <> w -> queued (pendings s) v ev -> queued (pendings s') v ev;
  tc_io : forall v, v <> w -> watchers s' !! v ≫= io_abs = watchers s !! v ≫= io_abs;
  tc_tm : forall v, v <> w -> tstate (watchers s') v = tstate (watchers s) v;
  tc_dom : forall v, v <> w -> is_Some (watchers s' !! v) <-> is_Some (watchers s !! v) }.

Lemma touches_refl w s : ev_ok s -> touches w s s.
Proof. by split. Qed.

Lemma touches_trans w s1 s2 s3 : touches w s1 s2 -> touches w s2 s3 -> touches w s1 s3.
Proof.
  intros [A1 A2 A3 A4 A5 A6 A7 A8 A9] [B1 B2 B3 B4 B5 B6 B7 B8 B9].
  split; [done|congruence|congruence|congruence|by etrans|by eauto|..]; intros v Hv.
  - by rewrite B7, A7.
  - by rewrite B8, A8.
  - by rewrite B9, A9.
Qed.

Lemma clear_w_queued ps w v ev : v <> w -> queued ps v ev -> queued (clear_w w ps) v ev.
Proof.
  intros Hv (q & Hq & Hp). exists (clear_e w <$> q). split; [by apply list_elem_of_fmap_2|].
  apply list_elem_of_fmap. exists (mkPend (Some v) ev). split; [|done]. unfold clear_e, names. cbn.
  rewrite bool_decide_eq_false_2; [done|]. by intros [= ->].
Qed.

Lemma io_view_abs (ws ws' : wstore) v :
  ws' !! v ≫= io_view = ws !! v ≫= io_view -> ws' !! v ≫= io_abs = ws !! v ≫= io_abs.
Proof.
  unfold io_view, io_abs, is_active. destruct (ws !! v) as [x|], (ws' !! v) as [x'|]; cbn;
    [|destruct (kind x); done|destruct (kind x'); done|done].
  destruct (kind x), (kind x'); try done; intros E; congruence.
Qed.

Lemma pend_view_dom (ws ws' : wstore) v :
  pend_view <$> ws' !! v = pend_view <$> ws !! v -> is_Some (ws' !! v) <-> is_Some (ws !! v).
Proof. rewrite <-!not_eq_None_Some. by destruct (ws' !! v), (ws !! v). Qed.

(** The frames of the primitives are instances. *)
Lemma cleared_touches w s x : ev_ok s -> watchers s !! w = Some x -> touches w s (cleared s w x).
Proof.
  intros Hok Hx. split; [by apply cleared_ok|done|done|done|apply clear_w_faded| | | |].
  - intros v ev Hv. by apply clear_w_queued.
  - intros v Hv. apply io_view_abs, cleared_views, Hx.
  - intros v Hv. by apply cleared_tstate.
  - intros v Hv. cbn. by rewrite lookup_insert_ne.
Qed.

Lemma iframe_touches w s s' : ev_ok s' -> iframe w s s' -> touches w s s'.
Proof.
  intros Hok F. split; [done|apply F|apply F|apply F| | | | |].
  - by rewrite (if_pendings _ _ _ F).
  - intros v ev Hv. by rewrite (if_pendings _ _ _ F).
  - intros v Hv. by apply io_view_abs, F.
  - intros v Hv. unfold tstate. by rewrite (if_tm _ _ _ F).
  - intros v Hv. apply pend_view_dom, F.
Qed.

Lemma tframe_touches w s s' :
  ev_ok s' -> tframe s s' -> (forall v, v <> w -> tstate (watchers s') v = tstate (watchers s) v) ->
  touches w s s'.
Proof.
  intros Hok F Ht. split; [done|apply F|apply F|apply F| | | |done|].
  - by rewrite (tf_pendings _ _ F).
  - intros v ev Hv. by rewrite (tf_pendings _ _ F).
  - intros v Hv. apply io_view_abs, F.
  - intros v Hv. apply pend_view_dom, F.
Qed.

Lemma sets_timer_touches s w t r :
  sets_timer s w t r -> exists s', r = Ok s' /\ touches w s s' /\ tstate (watchers s') w = t.
Proof.
  intros (s' & -> & Hok & F & Hw & Ho). exists s'. split_and!; [done| |done]. by apply tframe_touches.
Qed.

(** ** The primitives *)

Lemma io_abs_Some (ws : wstore) w io :
  ws !! w ≫= io_abs = Some io <->
  exists x, ws !! w = Some x /\ kind x = EvIo (io_fd io) (io_events io) /\ is_active x = io_active io.
Proof.
  unfold io_abs. destruct (ws !! w) as [x|]; cbn; [|split; [done|by intros (? & ? & _)]]. split.
  - destruct (kind x) eqn:Hk; [|done]. intros [= <-]. by exists x.
  - intros (? & [= <-] & -> & Ha). destruct io. cbn in *. by rewrite Ha.
Qed.

Lemma inactive_zero (x : watcher T) : is_active x = false <-> active x = 0.
Proof. unfold is_active. lia. Qed.

(** A stopped watcher [w]: it has no event queued and may be freed. *)
Definition stopped (s : loop) (w : nat) : Prop :=
  unqueued w (pendings s) /\ exists x, watchers s !! w = Some x /\ active x = 0 /\ pending x = 0.

Lemma io_stop_sim s w io :
  ev_ok s -> watchers s !! w ≫= io_abs = Some io ->
  exists s', io_stop s w = Ok s' /\ touches w s s' /\ stopped s' w /\
    watchers s' !! w ≫= io_abs = Some (mkIo false (io_fd io) (io_events io)).
Proof.
  intros Hok (x & Hx & Hk & Ha)%io_abs_Some. destruct (decide (active x = 0)) as [Hz|Hnz].
  - rewrite (io_stop_inactive s w x Hok Hx Hz). eexists. split; [done|]. split_and!.
    + by apply cleared_touches.
    + split; [apply clear_w_unqueued|]. exists (set_pending x 0). split_and!; [apply cleared_w|done|done].
    + apply io_abs_Some. exists (set_pending x 0). split_and!; [apply cleared_w|done|].
      cbn. by apply inactive_zero.
  - destruct (io_stop_active s w x _ _ Hok Hx Hk Hnz) as (s' & -> & Hok' & F & _ & Hv). exists s'.
    pose proof Hv as (y & Hy & Hya & Hyk)%io_view_Some. split_and!; [done| | |].
    + eapply touches_trans; [by apply cleared_touches|]. by apply iframe_touches.
    + split; [rewrite (if_pendings _ _ _ F); apply clear_w_unqueued|]. exists y. split_and!; [done|done|].
      pose proof (if_pend _ _ _ F w) as Hp. rewrite Hy, cleared_w in Hp. cbn in Hp. by injection Hp.
    + apply io_abs_Some. exists y. split_and!; [done|done|]. cbn. by apply inactive_zero.
Qed.

Lemma io_set_sim s w io fd ev :
  ev_ok s -> watchers s !! w ≫= io_abs = Some io -> io_active io = false ->
  exists s', Impl.io_set s w fd ev = Ok s' /\ touches w s s' /\
    watchers s' !! w ≫= io_abs = Some (ev_io_set io fd ev).
Proof.
  intros Hok (x & Hx & Hk & Ha)%io_abs_Some Hina. unfold Impl.io_set, get_w. rewrite Hx.
  cbn [the mbind outcome_bind]. unfold io_of. rewrite Hk. cbn [mbind outcome_bind]. eexists. split; [done|].
  destruct (set_io_ok s w x _ _ fd (Z.lor ev EV__IOFDSET) Hok Hx Hk) as (Hok' & F & Hw);
    [apply inactive_zero; congruence|]. split; [by apply iframe_touches|].
  apply io_abs_Some. eexists. split_and!; [done|done|]. cbn. by rewrite <-Ha.
Qed.

Lemma io_start_sim s w io io' :
  ev_ok s -> watchers s !! w ≫= io_abs = Some io -> ev_io_start io = Ok io' ->
  exists s', io_start s w = Ok s' /\ touches w s s' /\ watchers s' !! w ≫= io_abs = Some io'.
Proof.
  intros Hok Hio E. pose proof Hio as (x & Hx & Hk & Ha)%io_abs_Some. unfold ev_io_start in E.
  destruct (io_active io) eqn:Hact.
  - injection E as <-. exists s. unfold io_start, get_w. rewrite Hx. cbn [the mbind outcome_bind]. rewrite Ha.
    split_and!; [done|by apply touches_refl|by rewrite Hx in Hio].
  - unfold guard_trap in E. destruct (0 <=? io_fd io) eqn:Hfd; [|done].
    destruct (Z.land (io_events io) _ =? 0) eqn:Hleg; [|done]. injection E as <-.
    destruct (io_start_ok s w x _ _ Hok Hx Hk) as (s' & -> & Hok' & F & _ & Hv);
      [by apply inactive_zero|lia|unfold io_legal; lia|]. exists s'. split_and!; [done|by apply iframe_touches|].
    pose proof Hv as (y & Hy & Hya & Hyk)%io_view_Some. apply io_abs_Some. exists y.
    split_and!; [done|done|]. unfold is_active. by rewrite Hya.
Qed.

(** Freeing a stopped watcher. *)
Lemma delete_ok s w : ev_ok s -> stopped s w -> touches w s (Impl.delete_w s w).
Proof.
  intros [Htm Hpd Hio Hct] (Hun & x & Hx & Ha & Hp).
  assert (Hlook : forall v, delete w (watchers s) !! v = if decide (v = w) then None else watchers s !! v).
  { intros v. destruct (decide (v = w)) as [->|Hv]; [apply lookup_delete_eq|by apply lookup_delete_ne]. }
  assert (Hne : forall v, v <> w -> delete w (watchers s) !! v = watchers s !! v)
    by (intros v Hv; by apply lookup_delete_ne).
  split; [|done|done|done|reflexivity|done|..]; [|intros v Hv; cbn; unfold tstate; by rewrite Hne..].
  split; cbn.
  - destruct Htm as [H1 H2 H3 H4 H5 H6]. split; [done|done|done| |done|].
    + intros i e Hi He. destruct (H4 i e Hi He) as (r & E & Hr). exists r. rewrite Hne; [done|].
      intros Ew. rewrite Ew, Hx in E. unfold timer_view in E. cbn in E. destruct (kind x); [done|].
      cbn in E. injection E as E _ _. unfold in_heap, HEAP0, DHEAP in Hi. lia.
    + intros v k a r. rewrite Hlook. destruct (decide (v = w)); [done|]. apply H6.
  - destruct Hpd as [H1 H2 H3 H4]. split; [done|..].
    + intros v p pri. rewrite Hlook. destruct (decide (v = w)); [done|]. apply H2.
    + intros n q j v ev Hq Hj. rewrite Hne; [by apply (H3 n q j v ev)|]. intros ->.
      apply (Hun q (mkPend (Some w) ev)); [by eapply list_elem_of_lookup_2..|done].
    + intros v p pri. rewrite Hlook. destruct (decide (v = w)); [done|]. apply H4.
  - assert (Hin : forall n a, anfds s !! n = Some a -> w ∉ fd_head a).
    { intros n a Ea Hin. destruct (io_head _ _ _ _ Hio n a w Ea Hin) as (k & ev & E & Hk & _).
      apply io_view_Some in E as (y & Hy & Hya & _). congruence. }
    destruct Hio as [H1 H2 H3 H4 H5 H6 H7 H8]. split; [|done| |done|done| |done|done].
    + intros n a v Ea Hv. rewrite Hne by (intros ->; by apply (Hin n a)). by apply (H1 n a).
    + intros v k fd ev. rewrite Hlook. destruct (decide (v = w)); [done|]. apply H3.
    + intros n a Ea Hf. rewrite <-(H6 n a Ea Hf). apply union_events_view.
      * intros v Hv. rewrite Hne; [done|]. intros ->. by apply (Hin n a).
      * intros v Hv. destruct (H1 n a v Ea Hv) as (k & ev & -> & _). done.
  - destruct Hct as (X & Hn & HX). exists X. split; [done|]. intros v. rewrite HX, Hlook.
    destruct (decide (v = w)) as [->|]; [|done]. rewrite Hx. cbn. rewrite (proj2 (inactive_zero x) Ha). done.
Qed.

Lemma timer_stop_sim s w x a r :
  ev_ok s -> watchers s !! w = Some x -> kind x = EvTimer a r ->
  exists s' a', timer_stop s w = Ok s' /\ touches w s s' /\ stopped s' w /\
    tstate (watchers s') w = Some (false, a', r).
Proof.
  intros Hok Hx Hk. destruct (decide (active x = 0)) as [Hz|Hnz].
  - rewrite (timer_stop_inactive s w x Hok Hx Hz). exists (cleared s w x), a. split_and!; [done|..].
    + by apply cleared_touches.
    + split; [apply clear_w_unqueued|]. exists (set_pending x 0). split_and!; [apply cleared_w|done|done].
    + rewrite cleared_tstate by done. unfold tstate, timer_view. rewrite Hx. cbn. rewrite Hk. cbn. by rewrite Hz.
  - destruct (timer_stop_active s w x a r Hok Hx Hk Hnz) as (s' & -> & Hok' & F & Hw & Ho).
    exists s', (tsub a (mn_now s)). split_and!; [done| | |done].
    + eapply touches_trans; [by apply cleared_touches|]. by apply tframe_touches.
    + split; [rewrite (tf_pendings _ _ F); apply clear_w_unqueued|].
      pose proof (tstate_active _ _ _ _ _ Hw) as Hact. destruct (watchers s' !! w) as [y|] eqn:Hy; [|done].
      exists y. split_and!; [done|apply inactive_zero; by injection Hact|].
      pose proof (tf_pend _ _ F w) as Hp. rewrite Hy, cleared_w in Hp. cbn in Hp. by injection Hp.
Qed.

(** ** The simulation *)

(** The loop [s] of libev is what [el] says: each watcher is active as [el] has
    it, an io watcher on the same descriptor with the same mask. *)
Record impl (el : EventLoop) (s : loop) : Prop := mkImpl {
  im_ok : ev_ok s;
  im_io : forall w, watchers s !! w ≫= io_abs = iow_io <$> el_ios el !! w;
  im_tm : forall w, (fun t => fst (fst t)) <$> tstate (watchers s) w = (fun x => t_active (tw_timer x)) <$> el_timers el !! w;
  im_dom : forall w, is_Some (watchers s !! w) -> (w < el_next el)%nat;
  im_done : el_stopped el = negb (loop_done s =? 0) }.

(** The operations of an [EventLoop]; creation names the address and what the
    memory holds. *)
Inductive op :=
| OpCreateIo (w : nat) (cb : callback) (data : nat) (ev0 : Z)
| OpStartIo (w : nat) (fd mask : Z)
| OpStopIo (w : nat) (fd mask : Z)
| OpDeleteIo (w : nat)
| OpCreateTimer (w : nat) (cb : callback) (data : nat) (repeat : bool) (at0 repeat0 : T)
| OpStartTimer (w : nat) (repeat : bool) (usec : Z)
| OpStopTimer (w : nat)
| OpDeleteTimer (w : nat)
| OpStop.

Definition abs_op (el : EventLoop) (o : op) : outcome EventLoop :=
  match o with
  | OpCreateIo _ cb data _ => Ok (snd (Event.create_io_event el cb data))
  | OpStartIo w fd mask => Event.start_io_event el w fd mask
  | OpStopIo w fd mask => Event.stop_io_event el w fd mask
  | OpDeleteIo w => Event.delete_io_event el w
  | OpCreateTimer _ cb data repeat _ _ => Ok (snd (Event.create_timer el cb data repeat))
  | OpStartTimer w _ usec => Event.start_timer el w usec
  | OpStopTimer w => Event.stop_timer el w
  | OpDeleteTimer w => Event.delete_timer el w
  | OpStop => Ok (Event.stop el)
  end.

Definition run_op (s : loop) (o : op) : outcome loop :=
  match o with
  | OpCreateIo w _ _ ev0 => Impl.create_io_event s w 0 ev0
  | OpStartIo w fd mask => Impl.start_io_event s w fd mask
  | OpStopIo w fd mask => Impl.stop_io_event s w fd mask
  | OpDeleteIo w => Impl.delete_io_event s w
  | OpCreateTimer w _ _ _ at0 repeat0 => Impl.create_timer s w at0 repeat0
  | OpStartTimer w repeat usec => Impl.start_timer s w repeat usec
  | OpStopTimer w => Impl.stop_timer s w
  | OpDeleteTimer w => Impl.delete_timer s w
  | OpStop => Ok (Impl.stop s)
  end.

(** The watcher an operation is about. *)
Definition op_w (o : op) : option nat :=
  match o with
  | OpCreateIo w _ _ _ | OpStartIo w _ _ | OpStopIo w _ _ | OpDeleteIo w
  | OpCreateTimer w _ _ _ _ _ | OpStartTimer w _ _ | OpStopTimer w | OpDeleteTimer w => Some w
  | OpStop => None
  end.

(** Creation takes the next address, [need_repeat] is the watcher's and times
    are unsigned. *)
Definition op_fits (el : EventLoop) (o : op) : Prop :=
  match o with
  | OpCreateIo w _ _ ev0 => w = el_next el /\ ev0 = el_fresh_events el
  | OpCreateTimer w _ _ _ _ _ => w = el_next el
  | OpStartTimer w repeat usec => 0 <= usec /\ need_repeat <$> el_timers el !! w = Some repeat
  | _ => True
  end.

(** What an operation does to the queues: it withdraws events of its watcher. *)
Record op_effect (o : op) (s s' : loop) : Prop := mkOpEffect {
  oe_rfeeds : rfeeds s' = rfeeds s;
  oe_now : mn_now s' = mn_now s;
  oe_faded : faded (pendings s) (pendings s');
  oe_queued : forall v ev, op_w o <> Some v -> queued (pendings s) v ev -> queued (pendings s') v ev }.

Lemma touches_effect o w s s' : op_w o = Some w -> touches w s s' -> op_effect o s s'.
Proof.
  intros Ho [A1 A2 A3 A4 A5 A6 A7 A8 A9]. split; [done..|]. intros v ev Hv. apply A6. congruence.
Qed.

Lemma io_abs_tstate (ws : wstore) w io : ws !! w ≫= io_abs = Some io -> tstate ws w = None.
Proof. intros (x & Hx & Hk & _)%io_abs_Some. unfold tstate, timer_view. rewrite Hx. cbn. by rewrite Hk. Qed.

Lemma tstate_io_abs (ws : wstore) w t : tstate ws w = Some t -> ws !! w ≫= io_abs = None.
Proof.
  unfold tstate, timer_view, io_abs. destruct (ws !! w) as [x|]; [|done]. cbn. by destruct (kind x).
Qed.

Lemma impl_put_io el s s' w x io :
  impl el s -> el_ios el !! w = Some x -> touches w s s' -> watchers s' !! w ≫= io_abs = Some io ->
  impl (put_io el w x io) s'.
Proof.
  intros [H1 H2 H3 H4 H5] Hx Ht Hio. pose proof Ht as [A1 A2 A3 A4 A5 A6 A7 A8 A9].
  pose proof (H2 w) as Hw. rewrite Hx in Hw. cbn in Hw. split; cbn; [done|..].
  - intros v. destruct (decide (v = w)) as [->|Hv]; [by rewrite lookup_insert_eq|].
    by rewrite lookup_insert_ne, A7.
  - intros v. destruct (decide (v = w)) as [->|Hv]; [|by rewrite A8].
    rewrite <-H3. by rewrite (io_abs_tstate _ _ _ Hio), (io_abs_tstate _ _ _ Hw).
  - intros v Hs. destruct (decide (v = w)) as [->|Hv]; [|apply H4; by rewrite <-A9].
    apply H4. apply io_abs_Some in Hw as (y & -> & _). eauto.
  - by rewrite A4.
Qed.

Lemma impl_put_timer el s s' w x t b a r :
  impl el s -> el_timers el !! w = Some x -> touches w s s' -> tstate (watchers s') w = Some (b, a, r) ->
  t_active t = b -> impl (put_timer el w x t) s'.
Proof.
  intros [H1 H2 H3 H4 H5] Hx Ht Hts Hb. pose proof Ht as [A1 A2 A3 A4 A5 A6 A7 A8 A9].
  pose proof (H3 w) as Hw. rewrite Hx in Hw. cbn in Hw.
  destruct (tstate (watchers s) w) as [t0|] eqn:Ht0; [|done]. split; cbn; [done|..].
  - intros v. destruct (decide (v = w)) as [->|Hv]; [|by rewrite A7].
    rewrite <-H2. by rewrite (tstate_io_abs _ _ _ Hts), (tstate_io_abs _ _ _ Ht0).
  - intros v. destruct (decide (v = w)) as [->|Hv]; [|by rewrite lookup_insert_ne, A8].
    rewrite lookup_insert_eq, Hts. cbn. by rewrite Hb.
  - intros v Hs. destruct (decide (v = w)) as [->|Hv]; [|apply H4; by rewrite <-A9].
    apply H4. unfold tstate in Ht0. destruct (watchers s !! w); [eauto|done].
  - by rewrite A4.
Qed.

(** Reading the watcher on both sides. *)
Lemma impl_io_w el s w X :
  impl el s -> el_ios el !! w = Some X ->
  exists x, watchers s !! w = Some x /\ kind x = EvIo (io_fd (iow_io X)) (io_events (iow_io X)) /\
    is_active x = io_active (iow_io X) /\ watchers s !! w ≫= io_abs = Some (iow_io X).
Proof.
  intros Him HX. pose proof (im_io _ _ Him w) as Hw. rewrite HX in Hw. cbn in Hw.
  pose proof Hw as (x & Hx & Hk & Ha)%io_abs_Some. exists x. split_and!; [done..|]. exact Hw.
Qed.

(** Stop, set and start again: how the mask of a watcher changes. *)
Lemma restart_sim el s w X fd ev io' s1 :
  impl el s -> el_ios el !! w = Some X -> touches w s s1 ->
  watchers s1 !! w ≫= io_abs = Some (mkIo false (io_fd (iow_io X)) (io_events (iow_io X))) ->
  ev_io_start (ev_io_set (mkIo false (io_fd (iow_io X)) (io_events (iow_io X))) fd ev) = Ok io' ->
  exists s', (s2 ← Impl.io_set s1 w fd ev; io_start s2 w) = Ok s' /\ impl (put_io el w X io') s' /\ touches w s s'.
Proof.
  intros Him HX T1 H1 E. destruct (io_set_sim s1 w _ fd ev (tc_ok _ _ _ T1) H1 eq_refl) as (s2 & -> & T2 & H2).
  cbn [mbind outcome_bind]. destruct (io_start_sim s2 w _ io' (tc_ok _ _ _ T2) H2 E) as (s3 & -> & T3 & H3).
  assert (Tt : touches w s s3) by (eapply touches_trans; [|done]; by eapply touches_trans).
  exists s3. split_and!; [done| |done]. by eapply impl_put_io.
Qed.

Lemma io_stop_value io io1 : ev_io_stop io = Ok io1 -> io1 = mkIo false (io_fd io) (io_events io).
Proof.
  unfold ev_io_stop, guard_trap. destruct io as [[] fd ev]; cbn; [destruct (0 <=? fd); congruence|congruence].
Qed.

Lemma start_io_sim el el' s w fd mask :
  impl el s -> Event.start_io_event el w fd mask = Ok el' ->
  exists s', Impl.start_io_event s w fd mask = Ok s' /\ impl el' s' /\ touches w s s'.
Proof.
  intros Him E. unfold Event.start_io_event in E. destruct (el_ios el !! w) as [X|] eqn:HX; [|done].
  cbn [the mbind outcome_bind] in E. destruct (impl_io_w el s w X Him HX) as (x & Hx & Hk & Ha & Hab).
  unfold Impl.start_io_event, get_w. rewrite Hx. cbn [the mbind outcome_bind]. unfold io_of. rewrite Hk.
  cbn [mbind outcome_bind snd]. rewrite Ha. pose proof (im_ok _ _ Him) as Hok. destruct (io_active (iow_io X)) eqn:Hact.
  - destruct (TRANS_FROM_EV_MASK (io_events (iow_io X)) =? _).
    + injection E as <-. exists s. split_and!; [done|done|by apply touches_refl].
    + apply bind_Ok_inv in E as (io1 & E1 & E). apply bind_Ok_inv in E as (io2 & E2 & [= <-]).
      apply io_stop_value in E1 as ->.
      destruct (io_stop_sim s w _ Hok Hab) as (s1 & -> & T1 & _ & H1). cbn [mbind outcome_bind].
      by eapply restart_sim.
  - apply bind_Ok_inv in E as (io2 & E2 & [= <-]).
    apply (restart_sim el s w X fd _ io2 s Him HX); [by apply touches_refl| |]; rewrite <-Hact.
    + rewrite Hab. by destruct (iow_io X).
    + by destruct (iow_io X).
Qed.

Lemma stop_io_sim el el' s w fd mask :
  impl el s -> Event.stop_io_event el w fd mask = Ok el' ->
  exists s', Impl.stop_io_event s w fd mask = Ok s' /\ impl el' s' /\ touches w s s'.
Proof.
  intros Him E. unfold Event.stop_io_event in E. destruct (el_ios el !! w) as [X|] eqn:HX; [|done].
  cbn [the mbind outcome_bind] in E. destruct (impl_io_w el s w X Him HX) as (x & Hx & Hk & Ha & Hab).
  unfold Impl.stop_io_event, get_w. rewrite Hx. cbn [the mbind outcome_bind]. unfold io_of. rewrite Hk.
  cbn [mbind outcome_bind snd]. pose proof (im_ok _ _ Him) as Hok.
  destruct (TRANS_FROM_EV_MASK (io_events (iow_io X)) =? _).
  { injection E as <-. exists s. split_and!; [done|done|by apply touches_refl]. }
  apply bind_Ok_inv in E as (io1 & E1 & E). apply io_stop_value in E1 as ->.
  destruct (io_stop_sim s w _ Hok Hab) as (s1 & -> & T1 & _ & H1). cbn [mbind outcome_bind].
  destruct (negb (TRANS_TO_EV_MASK _ =? EV_NONE)).
  - apply bind_Ok_inv in E as (io2 & E2 & [= <-]). by eapply restart_sim.
  - injection E as <-. exists s1. split_and!; [done| |done]. by eapply impl_put_io.
Qed.

Lemma impl_delete_io el s s' w :
  impl el s -> is_Some (el_ios el !! w) -> touches w s s' -> watchers s' !! w = None ->
  impl (set_ios el (delete w (el_ios el))) s'.
Proof.
  intros [H1 H2 H3 H4 H5] [X HX] Ht Hn. pose proof Ht as [A1 A2 A3 A4 A5 A6 A7 A8 A9].
  pose proof (H2 w) as Hw. rewrite HX in Hw. cbn in Hw. split; cbn; [done|..].
  - intros v. destruct (decide (v = w)) as [->|Hv]; [by rewrite lookup_delete_eq, Hn|].
    by rewrite lookup_delete_ne, A7.
  - intros v. destruct (decide (v = w)) as [->|Hv]; [|by rewrite A8].
    rewrite <-H3, (io_abs_tstate _ _ _ Hw). unfold tstate. by rewrite Hn.
  - intros v Hs. destruct (decide (v = w)) as [->|Hv]; [rewrite Hn in Hs; by destruct Hs|apply H4; by rewrite <-A9].
  - by rewrite A4.
Qed.

Lemma delete_io_sim el el' s w :
  impl el s -> Event.delete_io_event el w = Ok el' ->
  exists s', Impl.delete_io_event s w = Ok s' /\ impl el' s' /\ touches w s s' /\ unqueued w (pendings s').
Proof.
  intros Him E. unfold Event.delete_io_event in E. destruct (el_ios el !! w) as [X|] eqn:HX; [|done].
  cbn [the mbind outcome_bind] in E. apply bind_Ok_inv in E as (io1 & _ & [= <-]).
  destruct (impl_io_w el s w X Him HX) as (x & Hx & Hk & Ha & Hab).
  destruct (io_stop_sim s w _ (im_ok _ _ Him) Hab) as (s1 & E1 & T1 & Hst & H1).
  unfold Impl.delete_io_event. rewrite E1. cbn [mbind outcome_bind]. eexists. split; [done|].
  pose proof (delete_ok s1 w (tc_ok _ _ _ T1) Hst) as T2.
  assert (Tt : touches w s (Impl.delete_w s1 w)) by by eapply touches_trans.
  split_and!; [|done|apply Hst]. apply (impl_delete_io el s); [done|eauto|done|]. apply lookup_delete_eq.
Qed.

Lemma impl_timer_w el s w X :
  impl el s -> el_timers el !! w = Some X ->
  exists x a r, watchers s !! w = Some x /\ kind x = EvTimer a r /\ is_active x = t_active (tw_timer X).
Proof.
  intros Him HX. pose proof (im_tm _ _ Him w) as Hw. rewrite HX in Hw. cbn in Hw.
  destruct (tstate (watchers s) w) as [[[b a] r]|] eqn:Ht; [|done]. cbn in Hw. injection Hw as ->.
  pose proof (tstate_active _ _ _ _ _ Ht) as Hact. unfold tstate, timer_view in Ht.
  destruct (watchers s !! w) as [x|]; [|done]. cbn in *. destruct (kind x) as [|a' r'] eqn:Hk; [done|].
  exists x, a', r'. split_and!; [done|done|]. by injection Hact.
Qed.

Lemma stop_timer_sim el el' s w :
  impl el s -> Event.stop_timer el w = Ok el' ->
  exists s', Impl.stop_timer s w = Ok s' /\ impl el' s' /\ touches w s s' /\ stopped s' w.
Proof.
  intros Him E. unfold Event.stop_timer in E. destruct (el_timers el !! w) as [X|] eqn:HX; [|done].
  cbn [the mbind outcome_bind] in E. injection E as <-.
  destruct (impl_timer_w el s w X Him HX) as (x & a & r & Hx & Hk & Ha).
  destruct (timer_stop_sim s w x a r (im_ok _ _ Him) Hx Hk) as (s1 & a1 & E1 & T1 & Hst & H1).
  exists s1. split_and!; [done| |done|done]. by eapply impl_put_timer.
Qed.

Lemma delete_timer_sim el el' s w :
  impl el s -> Event.delete_timer el w = Ok el' ->
  exists s', Impl.delete_timer s w = Ok s' /\ impl el' s' /\ touches w s s' /\ unqueued w (pendings s').
Proof.
  intros Him E. unfold Event.delete_timer in E. apply bind_Ok_inv in E as (el1 & E1 & [= <-]).
  destruct (stop_timer_sim el el1 s w Him E1) as (s1 & E2 & Him1 & T1 & Hst).
  unfold Impl.delete_timer. rewrite E2. cbn [mbind outcome_bind]. eexists. split; [done|].
  pose proof (delete_ok s1 w (tc_ok _ _ _ T1) Hst) as T2. split_and!; [|by eapply touches_trans|apply Hst].
  destruct Him1 as [H1 H2 H3 H4 H5]. pose proof T2 as [A1 A2 A3 A4 A5 A6 A7 A8 A9].
  assert (Hw : exists t, tstate (watchers s1) w = Some t).
  { unfold Event.stop_timer in E1. destruct (el_timers el !! w) as [X|] eqn:HX; [|done]. cbn in E1. injection E1 as <-.
    specialize (H3 w). cbn in H3. rewrite lookup_insert_eq in H3. cbn in H3.
    destruct (tstate (watchers s1) w); [eauto|done]. }
  destruct Hw as [t Hw]. split; cbn; [done|..].
  - intros v. destruct (decide (v = w)) as [->|Hv]; [|rewrite <-H2; by apply A7].
    rewrite lookup_delete_eq, <-H2. cbn. by rewrite (tstate_io_abs _ _ _ Hw).
  - intros v. destruct (decide (v = w)) as [->|Hv].
    + rewrite lookup_delete_eq. unfold tstate. cbn. by rewrite lookup_delete_eq.
    + rewrite lookup_delete_ne, <-H3 by done. f_equal. by apply A8.
  - intros v Hs. destruct (decide (v = w)) as [->|Hv]; [rewrite lookup_delete_eq in Hs; by destruct Hs|].
    apply H4. by apply A9.
  - done.
Qed.

Lemma start_timer_sim el el' s w usec rep :
  impl el s -> Event.start_timer el w usec = Ok el' -> 0 <= usec -> need_repeat <$> el_timers el !! w = Some rep ->
  exists s', Impl.start_timer s w rep usec = Ok s' /\ impl el' s' /\ touches w s s'.
Proof.
  intros Him E Hu Hrep. unfold Event.start_timer in E. destruct (el_timers el !! w) as [X|] eqn:HX; [|done].
  cbn [the mbind outcome_bind] in E. cbn in Hrep. injection Hrep as Hrep. rewrite Hrep in E.
  pose proof (im_ok _ _ Him) as Hok.
  destruct (impl_timer_w el s w X Him HX) as (x & a & r & Hx & Hk & Ha). unfold Impl.start_timer. destruct rep; cbn [negb] in *.
  - injection E as <-. unfold get_w. rewrite Hx. cbn [the mbind outcome_bind]. unfold timer_of. rewrite Hk.
    cbn [mbind outcome_bind fst].
    destruct (set_timer_ok s w x a r a (to_sec usec) Hok Hx Hk) as (s1 & [= <-] & Hok1 & F1 & Hw1 & Ho1);
      [right; split; [done|by apply to_sec_pos]|].
    pose proof (tframe_touches w _ _ Hok1 F1 Ho1) as T1.
    pose proof (lookup_insert_eq (watchers s) w (set_kind x (EvTimer a (to_sec usec)))) as Hx1.
    pose proof (timer_again_ok _ w _ a (to_sec usec) Hok1 Hx1 eq_refl (fun _ => to_sec_pos usec Hu)) as Hag.
    apply sets_timer_touches in Hag as (s2 & -> & T2 & Hts).
    assert (Tt : touches w s s2).
    { eapply touches_trans; [done|]. eapply touches_trans; [|done]. by apply cleared_touches. }
    exists s2. split_and!; [done| |done]. unfold again_state in Hts. rewrite to_sec_zero in Hts by done.
    unfold ev_timer_again, ev_timer_stop. cbn [t_active t_repeat t_after].
    destruct (negb (usec =? 0)), (t_active (tw_timer X)); by eapply impl_put_timer.
  - injection E as <-.
    destruct (timer_stop_sim s w x a r Hok Hx Hk) as (s1 & a1 & -> & T1 & (_ & y & Hy & Hya & _) & Hts).
    cbn [mbind outcome_bind]. unfold get_w. rewrite Hy. cbn [the mbind outcome_bind].
    assert (Hky : exists a' r', kind y = EvTimer a' r').
    { unfold tstate, timer_view in Hts. rewrite Hy in Hts. cbn in Hts. destruct (kind y); [done|eauto]. }
    destruct Hky as (a' & r' & Hky). unfold timer_of. rewrite Hky. cbn [mbind outcome_bind].
    destruct (set_timer_ok s1 w y a' r' (to_sec usec) tzero (tc_ok _ _ _ T1) Hy Hky) as (s2 & [= <-] & Hok2 & F2 & Hw2 & Ho2);
      [by left|]. pose proof (tframe_touches w _ _ Hok2 F2 Ho2) as T2.
    pose proof (lookup_insert_eq (watchers s1) w (set_kind y (EvTimer (to_sec usec) tzero))) as Hy2.
    pose proof (timer_start_ok _ w _ (to_sec usec) tzero Hok2 Hy2 eq_refl Hya (tle_refl _)) as Hst.
    apply sets_timer_touches in Hst as (s3 & -> & T3 & Hts3). exists s3.
    assert (Tt : touches w s s3) by (eapply touches_trans; [|done]; by eapply touches_trans).
    split_and!; [done| |done]. by eapply impl_put_timer.
Qed.

(** A fresh watcher. *)
Lemma ev_init_ok s w k :
  ev_ok s -> watchers s !! w = None ->
  exists s', Impl.ev_init s w k = Ok s' /\ touches w s s' /\ watchers s' !! w = Some (mkW 0 0 0 k).
Proof.
  intros [Htm Hpd Hio Hct] Hn. unfold Impl.ev_init. rewrite Hn. eexists. split; [done|].
  split; [|apply lookup_insert_eq].
  assert (Hlook : forall v, v <> w -> <[w := mkW 0 0 0 k]> (watchers s) !! v = watchers s !! v)
    by (intros v Hv; by rewrite lookup_insert_ne).
  split; [|done|done|done|reflexivity|done|..]; [|intros v Hv; cbn; unfold tstate; by rewrite Hlook..]. split; cbn.
  - destruct Htm as [H1 H2 H3 H4 H5 H6]. split; [done|done|done| |done|].
    + intros i e Hi He. destruct (H4 i e Hi He) as (r & E & Hr). exists r. rewrite Hlook; [done|].
      intros Ew. by rewrite Ew, Hn in E.
    + intros v k' a r. destruct (decide (v = w)) as [->|Hv]; [|rewrite Hlook by done; apply H6].
      rewrite lookup_insert_eq. unfold timer_view. cbn. destruct k; [done|]. by intros [= <- _ _].
  - destruct Hpd as [H1 H2 H3 H4]. split; [done|..].
    + intros v p pri. destruct (decide (v = w)) as [->|Hv]; [|rewrite Hlook by done; apply H2].
      rewrite lookup_insert_eq. cbn. intros [= _ <-]. done.
    + intros n q j v ev Hq Hj. pose proof (H3 n q j v ev Hq Hj) as E. rewrite Hlook; [done|].
      intros ->. by rewrite Hn in E.
    + intros v p pri. destruct (decide (v = w)) as [->|Hv]; [|rewrite Hlook by done; apply H4].
      rewrite lookup_insert_eq. cbn. by intros [= <- _].
  - assert (Hin : forall n a, anfds s !! n = Some a -> w ∉ fd_head a).
    { intros n a Ea Hin. destruct (io_head _ _ _ _ Hio n a w Ea Hin) as (k' & ev & E & _). by rewrite Hn in E. }
    destruct Hio as [H1 H2 H3 H4 H5 H6 H7 H8]. split; [|done| |done|done| |done|done].
    + intros n a v Ea Hv. rewrite Hlook by (intros ->; by apply (Hin n a)). by apply (H1 n a).
    + intros v k' fd ev. destruct (decide (v = w)) as [->|Hv]; [|rewrite Hlook by done; apply H3].
      rewrite lookup_insert_eq. unfold io_view. cbn. destruct k; [|done]. by intros [= <- _ _].
    + intros n a Ea Hf. rewrite <-(H6 n a Ea Hf). apply union_events_view.
      * intros v Hv. rewrite Hlook; [done|]. intros ->. by apply (Hin n a).
      * intros v Hv. destruct (H1 n a v Ea Hv) as (k' & ev & -> & _). done.
  - destruct Hct as (X & HX1 & HX). exists X. split; [done|]. intros v. rewrite HX.
    destruct (decide (v = w)) as [->|Hv]; [|by rewrite Hlook]. by rewrite lookup_insert_eq, Hn.
Qed.

Lemma impl_grow el s s' w ios tms :
  impl el s -> w = el_next el -> touches w s s' ->
  (forall v, v <> w -> ios !! v = el_ios el !! v) -> (forall v, v <> w -> tms !! v = el_timers el !! v) ->
  watchers s' !! w ≫= io_abs = iow_io <$> ios !! w ->
  (fun t => fst (fst t)) <$> tstate (watchers s') w = (fun x => t_active (tw_timer x)) <$> tms !! w ->
  impl (mkLoop ios tms (S w) (el_now el) (el_stopped el) (el_fresh_events el)) s'.
Proof.
  intros [H1 H2 H3 H4 H5] -> [A1 A2 A3 A4 A5 A6 A7 A8 A9] Hios Htms Hi Ht.
  split; cbn; [done|..].
  - intros v. destruct (decide (v = el_next el)) as [->|Hv]; [done|]. by rewrite Hios, A7.
  - intros v. destruct (decide (v = el_next el)) as [->|Hv]; [done|]. by rewrite Htms, A8.
  - intros v Hs. destruct (decide (v = el_next el)) as [->|Hv]; [lia|]. apply A9, H4 in Hs; [lia|done].
  - by rewrite A4.
Qed.

Lemma impl_fresh el s : impl el s -> watchers s !! el_next el = None.
Proof.
  intros Him. destruct (watchers s !! el_next el) as [x|] eqn:Hx; [|done].
  pose proof (im_dom _ _ Him (el_next el) ltac:(eauto)). lia.
Qed.

(** Every operation of [Event] is what [EventLoop] does on libev. *)
Lemma op_sim el el' s o :
  impl el s -> op_fits el o -> abs_op el o = Ok el' ->
  exists s', run_op s o = Ok s' /\ impl el' s' /\ op_effect o s s'.
Proof.
  intros Him Hf E. pose proof (im_ok _ _ Him) as Hok. destruct o as [w cb data ev0|w fd m|w fd m|w|w cb data rep at0 r0|w rep usec|w|w|];
    cbn [abs_op run_op op_fits] in *.
  - destruct Hf as [-> ->]. injection E as <-. unfold Impl.create_io_event.
    destruct (ev_init_ok s (el_next el) (EvIo 0 (el_fresh_events el)) Hok (impl_fresh _ _ Him)) as (s' & -> & Tt & Hw).
    exists s'. split_and!; [done| |by eapply touches_effect]. cbn.
    eapply (impl_grow el s); [done|done|done| |done|..].
    + intros v Hv. by rewrite lookup_insert_ne.
    + by rewrite Hw, lookup_insert_eq.
    + rewrite <-(im_tm _ _ Him). unfold tstate. rewrite Hw, (impl_fresh _ _ Him). done.
  - destruct (start_io_sim el el' s w fd m Him E) as (s' & -> & ? & ?). exists s'.
    split_and!; [done|done|by eapply touches_effect].
  - destruct (stop_io_sim el el' s w fd m Him E) as (s' & -> & ? & ?). exists s'.
    split_and!; [done|done|by eapply touches_effect].
  - destruct (delete_io_sim el el' s w Him E) as (s' & -> & ? & ? & _). exists s'.
    split_and!; [done|done|by eapply touches_effect].
  - subst w. injection E as <-. unfold Impl.create_timer.
    destruct (ev_init_ok s (el_next el) (EvTimer at0 r0) Hok (impl_fresh _ _ Him)) as (s' & -> & Tt & Hw).
    exists s'. split_and!; [done| |by eapply touches_effect]. cbn.
    eapply (impl_grow el s); [done|done|done|done|..].
    + intros v Hv. by rewrite lookup_insert_ne.
    + rewrite <-(im_io _ _ Him). by rewrite Hw, (impl_fresh _ _ Him).
    + unfold tstate. by rewrite Hw, lookup_insert_eq.
  - destruct Hf as [Hu Hrep]. destruct (start_timer_sim el el' s w usec rep Him E Hu Hrep) as (s' & -> & ? & ?).
    exists s'. split_and!; [done|done|by eapply touches_effect].
  - destruct (stop_timer_sim el el' s w Him E) as (s' & -> & ? & ? & _). exists s'.
    split_and!; [done|done|by eapply touches_effect].
  - destruct (delete_timer_sim el el' s w Him E) as (s' & -> & ? & ? & _). exists s'.
    split_and!; [done|done|by eapply touches_effect].
  - injection E as <-. eexists. split_and!; [done| |by split].
    destruct Him as [H1 H2 H3 H4 H5]. split; try done. by destruct H1; split.
Qed.

(** ** Callbacks made of these operations *)

(** What an operation needs of the loop. *)
Definition op_ok (s : loop) (o : op) : Prop :=
  match o with
  | OpCreateIo w _ _ _ | OpCreateTimer w _ _ _ _ _ => watchers s !! w = None
  | OpStartIo w fd _ | OpStopIo w fd _ => is_Some (watchers s !! w ≫= io_abs) /\ 0 <= fd
  | OpDeleteIo w => is_Some (watchers s !! w ≫= io_abs)
  | OpStartTimer w _ usec => is_Some (tstate (watchers s) w) /\ 0 <= usec
  | OpStopTimer w | OpDeleteTimer w => is_Some (tstate (watchers s) w)
  | OpStop => True
  end.

(** The loop of [Event] that a libev loop is, its callbacks left open. *)
Definition el_of (s : loop) (rep : bool) : EventLoop :=
  mkLoop (omap (fun x => (fun io => mkIOW io RecvNotify 0) <$> io_abs x) (watchers s))
    (omap (fun x => (fun t => mkTW (mkTimer (negb (fst (fst t) =? 0)) 0 0) CronCb 0 rep) <$> timer_view x) (watchers s))
    (S (max_list (elements (dom (watchers s))))) 0 (negb (loop_done s =? 0)) 0.

Lemma el_of_impl s rep : ev_ok s -> impl (el_of s rep) s.
Proof.
  intros Hok. split; cbn; [done| | | |done].
  - intros w. rewrite lookup_omap. destruct (watchers s !! w) as [x|]; [|done]. cbn. by destruct (io_abs x).
  - intros w. rewrite lookup_omap. unfold tstate. destruct (watchers s !! w) as [x|]; [|done]. cbn.
    by destruct (timer_view x) as [[[k a] r]|].
  - intros w [x Hx]. assert (w ∈ elements (dom (watchers s))) as Hin by (apply elem_of_elements, elem_of_dom; eauto).
    apply max_list_elem_of_le in Hin. lia.
Qed.

Lemma el_of_io s rep w io :
  watchers s !! w ≫= io_abs = Some io -> el_ios (el_of s rep) !! w = Some (mkIOW io RecvNotify 0).
Proof. intros E. cbn. rewrite lookup_omap. destruct (watchers s !! w); [|done]. cbn in *. by rewrite E. Qed.

Lemma el_of_timer s rep w t :
  tstate (watchers s) w = Some t ->
  exists X, el_timers (el_of s rep) !! w = Some X /\ need_repeat X = rep.
Proof.
  unfold tstate. cbn. rewrite lookup_omap. destruct (watchers s !! w) as [x|]; [|done]. cbn.
  destruct (timer_view x) as [[[k a] r]|]; [|done]. cbn. eauto.
Qed.

Lemma io_stop_defined s w io :
  ev_ok s -> watchers s !! w ≫= io_abs = Some io ->
  ev_io_stop io = Ok (mkIo false (io_fd io) (io_events io)).
Proof.
  intros Hok (x & Hx & Hk & Ha)%io_abs_Some. unfold ev_io_stop, guard_trap. destruct io as [[] fd ev]; [|done].
  cbn in *. destruct (io_all _ _ _ _ (ok_fd _ Hok) w (active x) fd ev) as (Hfd & _).
  - apply io_view_Some. eauto.
  - unfold is_active in Ha. lia.
  - by rewrite (proj2 (Z.leb_le _ _) Hfd).
Qed.

Lemma op_defined s o :
  ev_ok s -> op_ok s o -> (exists w k, run_op s o = Impl.ev_init s w k /\ watchers s !! w = None /\ op_w o = Some w) \/
  exists el', op_fits (el_of s (match o with OpStartTimer _ rep _ => rep | _ => false end)) o /\
    abs_op (el_of s (match o with OpStartTimer _ rep _ => rep | _ => false end)) o = Ok el'.
Proof.
  intros Hok Ho. destruct o as [w cb data ev0|w fd m|w fd m|w|w cb data rep at0 r0|w rep usec|w|w|];
    cbn [op_ok op_fits abs_op run_op op_w] in *; try (by left; eauto 6); right.
  - destruct Ho as [[io Hio] Hfd]. unfold Event.start_io_event. rewrite (el_of_io s false w io Hio).
    cbn [the mbind outcome_bind iow_io]. destruct (io_active io) eqn:Hact.
    + destruct (_ =? _); [eauto|]. rewrite (io_stop_defined s w io Hok Hio). cbn [mbind outcome_bind].
      rewrite start_inactive by (done || apply trans_to_is_mask). cbn. eauto.
    + destruct io as [act fd0 ev0]. cbn in Hact. subst act.
      rewrite start_inactive by (done || apply trans_to_is_mask). cbn. eauto.
  - destruct Ho as [[io Hio] Hfd]. unfold Event.stop_io_event. rewrite (el_of_io s false w io Hio).
    cbn [the mbind outcome_bind iow_io]. destruct (_ =? _); [eauto|].
    rewrite (io_stop_defined s w io Hok Hio). cbn [mbind outcome_bind]. destruct (negb _); [|eauto].
    rewrite start_inactive by (done || apply trans_to_is_mask). cbn. eauto.
  - destruct Ho as [io Hio]. unfold Event.delete_io_event. rewrite (el_of_io s false w io Hio).
    cbn [the mbind outcome_bind iow_io]. rewrite (io_stop_defined s w io Hok Hio). cbn. eauto.
  - destruct Ho as [[t Ht] Hu]. destruct (el_of_timer s rep w t Ht) as (X & HX & Hrep).
    unfold Event.start_timer. rewrite HX. cbn [the mbind outcome_bind]. destruct (negb (need_repeat X)); eexists;
      (split; [|done]); (split; [done|cbn; by rewrite Hrep]).
  - destruct Ho as [t Ht]. destruct (el_of_timer s false w t Ht) as (X & HX & _).
    unfold Event.stop_timer. rewrite HX. cbn. eauto.
  - destruct Ho as [t Ht]. destruct (el_of_timer s false w t Ht) as (X & HX & _).
    unfold Event.delete_timer, Event.stop_timer. rewrite HX. cbn. eauto.
  - cbn. eauto.
Qed.

Lemma ev_op_ok s o :
  ev_ok s -> op_ok s o -> exists s', run_op s o = Ok s' /\ ev_ok s' /\ op_effect o s s'.
Proof.
  intros Hok Ho. destruct (op_defined s o Hok Ho) as [(w & k & -> & Hn & Hw)|(el' & Hf & E)].
  - destruct (ev_init_ok s w k Hok Hn) as (s' & -> & Tt & _). exists s'.
    split_and!; [done|apply Tt|by eapply touches_effect].
  - destruct (op_sim _ el' s o (el_of_impl s _ Hok) Hf E) as (s' & -> & Him & He). exists s'.
    split_and!; [done|apply Him|done].
Qed.
End Sim.
