(* ===== verification/EvProps.v ===== *)
(** * What the event loop guarantees (src/server/event.cpp, deps/libev-4.11/ev.c)

    The theorems about a running loop: the operations of [EventLoop] refine
    [Event]; a loop whose callbacks use those operations never traps; a round
    calls exactly the watchers whose events happened; timers are called in the
    order of their deadlines; the backend is told what the watchers want. *)

From S2P Require Import Prelude Event EvHeap EvLoop EvTimer EvIo EvRun EvClock EvEvent.
From Stdlib Require Import Sorted.

Section Programs.
Context {T : Type} `{TS : Tstamp T} {TL : TstampLaws T} {SEC : Seconds T} {SL : SecondsLaws T}.
Local Abbreviation loop := (ev_loop T).
Local Abbreviation wstore := (gmap nat (watcher T)).

(** ** Callbacks as programs over [EventLoop] *)

Inductive prog :=
| Done
| Do (o : @op T) (next : loop -> prog).

Fixpoint run_prog (s : loop) (p : prog) : outcome loop :=
  match p with
  | Done => Ok s
  | Do o next => s ← run_op s o; run_prog s (next s)
  end.

(** Every operation is applied to a watcher that exists. *)
Fixpoint prog_ok (s : loop) (p : prog) : Prop :=
  match p with
  | Done => True
  | Do o next => op_ok s o /\ forall s', run_op s o = Ok s' -> prog_ok s' (next s')
  end.

Lemma run_prog_ok p : forall s,
  ev_ok s -> prog_ok s p ->
  exists s', run_prog s p = Ok s' /\ ev_ok s' /\ rfeeds s' = rfeeds s /\ faded (pendings s) (pendings s').
Proof.
  induction p as [|o next IH]; intros s Hok Hp.
  - exists s. by split_and!.
  - destruct Hp as [Ho Hn]. destruct (ev_op_ok s o Hok Ho) as (s1 & E & Hok1 & [R1 _ F1 _]).
    cbn [run_prog]. rewrite E. cbn [mbind outcome_bind].
    destruct (IH s1 s1 Hok1 (Hn s1 E)) as (s' & -> & Hok' & Hr' & F'). exists s'.
    split_and!; [done|done|congruence|by etrans].
Qed.

(** The callbacks of a server: a program chosen by the watcher, the events and
    the loop. *)
Definition cb_of (P : nat -> Z -> loop -> prog) (w : nat) (rev : Z) (s : loop) : outcome loop :=
  run_prog s (P w rev s).

Definition callbacks_ok (P : nat -> Z -> loop -> prog) : Prop :=
  forall w rev s, ev_ok s -> is_Some (watchers s !! w) -> prog_ok s (P w rev s).

(** They satisfy what the loop needs. *)
Lemma cb_of_laws P : callbacks_ok P -> CbLaws (cb_of P).
Proof.
  intros HP. split. intros w rev s Hok Hr Hw.
  destruct (run_prog_ok (P w rev s) s Hok (HP w rev s Hok Hw)) as (s' & E & Hok' & Hr' & F').
  exists s'. split_and!; [done|done|congruence|done].
Qed.

(** ** A new loop *)

(** The state [ev_loop_new] returns: no watchers, empty queues. *)
Definition ev_loop_new (now : T) : loop :=
  mkEv now 0 [] [] ∅ (replicate (Z.to_nat NUMPRI) []) [] ∅ 0 0 0 ∅.

Lemma ev_loop_new_ok now : ev_ok (ev_loop_new now).
Proof.
  split.
  - split; cbn; [done|lia|intros i; unfold in_heap; lia|intros i e; unfold in_heap; lia|intros i Hi; lia|].
    intros w k a r. by rewrite lookup_empty.
  - split; cbn; [done|done| |done]. intros n q j w ev Hq Hj. exfalso.
    assert (q = []) as ->; [|done]. do 5 (destruct n as [|n]; [by injection Hq|]). done.
  - split; cbn; try done; [|constructor|intros fd [? E]; by rewrite lookup_empty in E].
    intros fd. split; [by intros ?%not_elem_of_nil|]. by intros (_ & a & E & _).
  - exists ∅. split; [done|]. intros w. cbn. rewrite lookup_empty. set_solver.
Qed.

Lemma ev_loop_new_quiet now : quiet (ev_loop_new now).
Proof.
  split; [apply ev_loop_new_ok|done|]. intros n q Hq. cbn in Hq.
  do 5 (destruct n as [|n]; [by injection Hq|]). done.
Qed.

Lemma quiet_idle s t : quiet s -> timers_idle (watchers (with_now s t)).
Proof. intros [H1 H2 H3] w x a r Hx _. by apply (all_empty_idle s H1 H3 w). Qed.

(** ** A running loop *)

(** The backend reports known descriptors in every round. *)
Fixpoint worlds_ok (cb : nat -> Z -> loop -> outcome loop) (M m : T) (s : loop) (es : list (@world T)) : Prop :=
  match es with
  | [] => True
  | e :: es => world_ok s e /\ forall s' log, round cb M m s e = Ok (s', log) -> worlds_ok cb M m s' es
  end.

Lemma run_rounds_ok cb `{CL : !CbLaws cb} M m es : forall s,
  quiet s -> worlds_ok cb M m s es ->
  exists s' log fin, run_rounds cb M m s es = Ok (s', log, fin) /\ quiet s' /\
    (fin = true -> loop_done s' <> 0 \/ activecnt s' = 0).
Proof.
  induction es as [|e es IH]; intros s Hq Hw; cbn [run_rounds].
  - destruct (Z.eqb_spec (loop_done s) 0) as [Hz|Hnz]; cbn [negb]; eexists s, [], _; (split_and!; [done|done|auto]).
  - destruct Hw as [Hw Hws]. destruct (Z.eqb_spec (loop_done s) 0) as [Hz|Hnz]; cbn [negb].
    2:{ eexists s, [], _. split_and!; [done|done|auto]. }
    destruct (round_ok cb M m s e Hq Hw) as (s1 & l1 & E & Hq1 & _). rewrite E. cbn [mbind outcome_bind].
    destruct (negb (activecnt s1 =? 0) && (loop_done s1 =? 0)) eqn:Hgo.
    + destruct (IH s1 Hq1 (Hws s1 l1 E)) as (s2 & l2 & fin & -> & Hq2 & Hfin). cbn [mbind outcome_bind].
      eexists s2, _, fin. split_and!; [done|done|done].
    + eexists s1, l1, true. split_and!; [done|done|]. intros _. lia.
Qed.

(** C5: An event loop whose callbacks use the operations of EventLoop on watchers
    that exist, also to stop and free watchers that still have events queued,
    runs without a failed assertion, an index out of range or the use of a freed
    watcher, for any reports of the backend and the clock; no event is left queued
    and the loop's own check of its timer heap passes. *)
Theorem libev_run_safe (P : nat -> Z -> loop -> prog) (M m : T) (s : loop) (es : list (@world T)) :
  ev_ok s -> rfeeds s = [] -> callbacks_ok P ->
  (forall s0 log, ev_invoke_pending (cb_of P) (ev_break s EVBREAK_CANCEL) = Ok (s0, log) ->
    worlds_ok (cb_of P) M m s0 es) ->
  exists s' log fin, Impl.run (cb_of P) M m s es = Ok (s', log, fin) /\ quiet s' /\ verify_heap s' = Ok ().
Proof.
  intros Hok Hr HP Hws. pose proof (cb_of_laws P HP) as CL. unfold Impl.run, ev_run.
  destruct (invoke_pending_ok (cb_of P) (ev_break s EVBREAK_CANCEL)) as (s0 & l0 & E0 & Hq0 & _);
    [by apply ev_ok_break|done|]. rewrite E0. cbn [mbind outcome_bind fst snd].
  destruct (run_rounds_ok (cb_of P) M m es s0 Hq0 (Hws s0 l0 E0)) as (s1 & l1 & fin & -> & Hq1 & Hfin).
  cbn [mbind outcome_bind]. eexists _, _, fin. split; [done|].
  assert (Hq : quiet (if fin && (loop_done s1 =? EVBREAK_ONE) then ev_break s1 EVBREAK_CANCEL else s1)).
  { destruct (fin && (loop_done s1 =? EVBREAK_ONE)); [|done]. destruct Hq1 as [H1 H2 H3].
    split; [by apply ev_ok_break|done|done]. }
  split; [done|]. by apply verify_heap_ok, Hq.
Qed.

(** C6: EventLoop on libev refines the loop of Event: where a loop of libev is what
    [el] says, each operation does on it what Event defines, returns, leaves the
    loop being what the new [el] says, and withdraws no queued event but those of
    its own watcher. *)
Theorem libev_implements_event (el el' : EventLoop) (s : loop) (o : @op T) :
  impl el s -> op_fits el o -> abs_op el o = Ok el' ->
  exists s', run_op s o = Ok s' /\ impl el' s' /\ faded (pendings s) (pendings s') /\
    forall v ev, op_w o <> Some v -> queued (pendings s) v ev -> queued (pendings s') v ev.
Proof.
  intros Him Hf E. destruct (op_sim el el' s o Him Hf E) as (s' & Er & Him' & [_ _ F Q]).
  exists s'. by split_and!.
Qed.

(** C7: A round of the loop calls each watcher at most once and with exactly the
    events that happened for it: an io watcher with the events it asked for
    among those reported for its descriptor, a timer with the timer event when
    its deadline was before the clock after the wait; every watcher with such an
    event is called unless another callback withdrew it. *)
Theorem round_calls (cb : nat -> Z -> loop -> outcome loop) (CL : CbLaws cb) (M m : T) (s : loop) (e : @world T) :
  quiet s -> world_ok s e ->
  exists s' log, round cb M m s e = Ok (s', log) /\ quiet s' /\ NoDup (fst <$> log) /\
    (forall w rev, (w, rev) ∈ log -> forall b, Z.testbit rev b = true <-> happens s e w b) /\
    (forall w b, keeps cb w -> happens s e w b -> exists rev, (w, rev) ∈ log).
Proof. intros Hq Hw. exact (round_ok cb M m s e Hq Hw). Qed.

(** C8: [timers_reify] fires exactly the timers whose deadline has passed, each
    once: a periodic timer gets a next deadline that is not in the past, a
    one-shot timer is stopped, the others stay; the calls are queued in the order
    of the deadlines, before what was queued with the same priority. *)
Theorem timers_fire_in_order (s : loop) :
  ev_ok s -> timers_idle (watchers s) -> rfeeds s = [] ->
  exists s' fs, timers_reify s = Ok s' /\ ev_ok s' /\ NoDup fs /\
    (forall w, w ∈ fs <-> due (mn_now s) (watchers s) w = true) /\
    StronglySorted (earlier (watchers s)) fs /\
    (forall w, tstate (watchers s') w = if decide (w ∈ fs) then fired_state (mn_now s) <$> tstate (watchers s) w
      else tstate (watchers s) w) /\
    (forall w, due (mn_now s) (watchers s') w = false) /\
    forall n q, pendings s !! n = Some q ->
      pop_order <$> pendings s' !! n =
        Some (((fun w => (w, EV_TIMER)) <$> filter (at_pri (watchers s) n) fs) ++ pop_order q).
Proof.
  intros Hok Hid Hr. destruct (timers_reify_ok s Hok Hid Hr) as (s' & s1 & fs & E & Hok' & _ & HF & F1 & F2 & Hq).
  assert (Ht : forall w, tstate (watchers s') w = if decide (w ∈ fs) then fired_state (mn_now s) <$> tstate (watchers s) w
    else tstate (watchers s) w).
  { intros w. rewrite (pframe_tstate _ _ w F2). destruct (decide (w ∈ fs)) as [Hw|Hw];
      [by apply (fi_fired _ _ _ HF)|by apply (fi_other _ _ _ HF)]. }
  exists s', fs. split_and!; [done|done|apply HF|apply HF|apply HF|done| |].
  - intros w. specialize (Ht w). destruct (decide (w ∈ fs)) as [Hw|Hw].
    + pose proof Hw as (a & r & Hts & _)%(fi_due _ _ _ HF)%due_Some. rewrite Hts in Ht. by eapply fired_not_due.
    + unfold due. rewrite Ht. apply not_true_is_false. intros Hd. apply Hw, (fi_due _ _ _ HF). exact Hd.
  - intros n q Hqn. rewrite (Hq n q Hqn). cbn. f_equal. unfold pop_order.
    rewrite reverse_app, omap_app. f_equal. rewrite fmap_reverse, reverse_involutive.
    generalize (filter (at_pri (watchers s) n) fs) as l. induction l as [|w l IH]; [done|]. cbn. by f_equal.
Qed.

(** C9: When the backend is asked to wait it was told, for every descriptor, exactly
    the events that the active watchers of the descriptor want. *)
Theorem backend_told_wants (s : loop) :
  ev_ok s -> exists s', fd_reify s = Ok s' /\ ev_ok s' /\ fdchanges s' = [] /\
    watchers s' = watchers s /\
    forall fd b, Z.testbit (default 0 (told s' !! fd)) b = true <-> wants (watchers s) fd b.
Proof.
  intros Hok. destruct (fd_reify_ok s Hok) as (s' & E & Hok' & F & Hc & _ & Hw). exists s'.
  split_and!; [done|done|done|apply F|done].
Qed.

(** The wait is not longer than the time to the earliest deadline, or than the
    resolution of the backend when that is longer. *)
Lemma waittime_bound (M m : T) s a w :
  ev_ok s -> timers s !! HEAP0 = Some (mkANHE a w) -> activecnt s <> 0 -> timercnt s <> 0 ->
  exists t, waittime M m s = Ok t /\
    (tle t (tsub a (mn_now s)) = true \/ t = m \/ t = tzero) .
Proof.
  intros Hok He Hact Hcnt. unfold waittime. rewrite (proj2 (Z.eqb_neq _ _) Hact), (proj2 (Z.eqb_neq _ _) Hcnt).
  rewrite (hget_Some _ _ _ He). cbn [mbind outcome_bind ANHE_at]. eexists. split; [done|].
  set (to := tsub a (mn_now s)). set (wt := if tlt to M then to else M).
  assert (Hwt : tle wt to = true) by (unfold wt; destruct (tlt to M) eqn:Hl; [apply tle_refl|by apply tlt_ge]).
  destruct (tlt wt tzero); destruct (tlt _ m); auto.
Qed.
End Programs.

(** ** A loop that runs

    A server's loop in ticks: a notification pipe on descriptor 5, a one-shot
    timer of 5 ticks, a periodic one of 3 and one of 40.  Its callbacks free the
    io watcher they are called for and stop the timer. *)
Definition demo_prog : @prog Z :=
  Do (OpCreateIo 0 RecvNotify 0 0) (fun _ => Do (OpStartIo 0 5 READ) (fun _ =>
  Do (OpCreateTimer 1 TimeoutCb 0 false 0 0) (fun _ => Do (OpStartTimer 1 false 5) (fun _ =>
  Do (OpCreateTimer 2 CronCb 0 true 0 0) (fun _ => Do (OpStartTimer 2 true 3) (fun _ =>
  Do (OpCreateTimer 3 CronCb 0 true 0 0) (fun _ => Do (OpStartTimer 3 true 40) (fun _ => Done)))))))).

Definition demo_callbacks (w : nat) (rev : Z) (s : ev_loop Z) : @prog Z :=
  match kind <$> watchers s !! w with
  | Some (EvIo _ _) => Do (OpDeleteIo w) (fun _ => Done)
  | Some (EvTimer _ _) => Do (OpStopTimer w) (fun _ => Done)
  | None => Done
  end.

Lemma demo_prog_ok : prog_ok (ev_loop_new 0) demo_prog.
Proof.
  unfold demo_prog. cbn [prog_ok].
  repeat (split; [cbn [op_ok]; repeat split; (lia || eexists; vm_compute; reflexivity || by vm_compute)|];
    intros s' E; vm_compute in E; injection E as <-); done.
Qed.

Lemma demo_callbacks_ok : callbacks_ok demo_callbacks.
Proof.
  intros w rev s Hok [x Hx]. unfold demo_callbacks. rewrite Hx. cbn. destruct (kind x) eqn:Hk; cbn [prog_ok];
    (split; [|done]); cbn [op_ok].
  - unfold io_abs. rewrite Hx. cbn. rewrite Hk. eauto.
  - unfold tstate, timer_view. rewrite Hx. cbn. rewrite Hk. cbn. eauto.
Qed.

Definition demo_loop : ev_loop Z :=
  match run_prog (ev_loop_new 0) demo_prog with Ok s => s | Trap _ => ev_loop_new 0 end.

Lemma demo_loop_quiet : quiet demo_loop.
Proof.
  destruct (run_prog_ok demo_prog (ev_loop_new 0) (ev_loop_new_ok 0) demo_prog_ok) as (s & E & Hok & Hr & Hf).
  unfold demo_loop. rewrite E. split; [done|done|]. intros n q Hq.
  destruct (faded_lookup_r _ _ _ _ Hf Hq) as (q0 & Hq0 & Hqq).
  rewrite (qt_empty _ (ev_loop_new_quiet 0) n q0 Hq0) in Hqq. by inversion Hqq.
Qed.

(** Descriptor 5 becomes readable, and the clock passes the first two timers. *)
Definition demo_world : @world Z := mkWorld 1 [(5, EV_READ)] 7.

Lemma demo_world_ok : world_ok demo_loop demo_world.
Proof. intros fd got Hin. apply list_elem_of_singleton in Hin as [= -> ->]. vm_compute. done. Qed.

(** The second timer is called first: its deadline is earlier. *)
Lemma demo_round :
  snd <$> round (cb_of demo_callbacks) 60 1 demo_loop demo_world = Ok [(2%nat, EV_TIMER); (1%nat, EV_TIMER); (0%nat, EV_READ)].
Proof. by vm_compute. Qed.

Lemma demo_keeps w : keeps (cb_of demo_callbacks) w.
Proof.
  intros v rev s s' ev Hv Hok E Hq. unfold cb_of, demo_callbacks in E.
  destruct (watchers s !! v) as [x|] eqn:Hx; cbn in E; [|by injection E as <-].
  assert (Hcase : forall o, op_w o = Some v -> op_ok s o -> run_prog s (Do o (fun _ => Done)) = Ok s' ->
    queued (pendings s') w ev).
  { intros o Ho Hop Er. destruct (ev_op_ok s o Hok Hop) as (s1 & E1 & _ & [_ _ _ Q]). cbn in Er.
    rewrite E1 in Er. cbn in Er. injection Er as <-. apply Q; [congruence|done]. }
  destruct (kind x) eqn:Hk; (eapply Hcase; [| |exact E]; [done|]); cbn [op_ok].
  - unfold io_abs. rewrite Hx. cbn. rewrite Hk. eauto.
  - unfold tstate, timer_view. rewrite Hx. cbn. rewrite Hk. cbn. eauto.
Qed.

Lemma libev_implements_event_witness :
  exists s', run_op demo_loop (OpStopIo 0 5 READ) = Ok s' /\
    impl (set_ios (el_of demo_loop false) (<[0%nat := mkIOW (mkIo false 5 1) RecvNotify 0]> (el_ios (el_of demo_loop false)))) s'.
Proof.
  destruct (libev_implements_event (el_of demo_loop false)
    (set_ios (el_of demo_loop false) (<[0%nat := mkIOW (mkIo false 5 1) RecvNotify 0]> (el_ios (el_of demo_loop false))))
    demo_loop (OpStopIo 0 5 READ)) as (s' & E & Him & _).
  - apply el_of_impl, demo_loop_quiet.
  - exact Logic.I.
  - reflexivity.
  - exists s'. split; assumption.
Defined.

Lemma libev_run_safe_witness :
  exists s' log fin, Impl.run (cb_of demo_callbacks) 60 1 demo_loop [demo_world; mkWorld 8 [] 50] = Ok (s', log, fin) /\ quiet s' /\ verify_heap s' = Ok ().
Proof.
  apply (libev_run_safe demo_callbacks 60 1 demo_loop [demo_world; mkWorld 8 [] 50]).
  - apply demo_loop_quiet.
  - reflexivity.
  - exact demo_callbacks_ok.
  - intros s0 log E. assert (Hm : anfdmax s0 = 8) by (vm_compute in E; injection E as <- _; reflexivity).
    clear E. cbn [worlds_ok]. split; [|intros s' log' _].
    + unfold world_ok. rewrite Hm. cbn [e_ready demo_world]. intros fd got Hin.
      apply list_elem_of_singleton in Hin. injection Hin as -> ->. lia.
    + split; [|exact (fun _ _ _ => Logic.I)]. intros fd got Hin. by apply not_elem_of_nil in Hin.
Defined.

Lemma round_calls_witness :
  exists s' log, round (cb_of demo_callbacks) 60 1 demo_loop demo_world = Ok (s', log) /\
    exists rev, (2%nat, rev) ∈ log.
Proof.
  destruct (round_calls (cb_of demo_callbacks) (cb_of_laws _ demo_callbacks_ok) 60 1 demo_loop demo_world
    demo_loop_quiet demo_world_ok) as (s' & log & E & _ & _ & _ & Hall).
  exists s', log. split; [exact E|]. apply (Hall 2%nat 8); [apply demo_keeps|]. right. split; [reflexivity|]. vm_compute. reflexivity.
Defined.

Lemma timers_fire_in_order_witness :
  exists s' (fs : list nat), timers_reify (with_now demo_loop 7) = Ok s' /\ 1%nat ∈ fs /\ 2%nat ∈ fs /\ 3%nat ∉ fs.
Proof.
  destruct (timers_fire_in_order (with_now demo_loop 7)) as (s' & fs & E & _ & _ & Hd & _).
  - apply ev_ok_now, demo_loop_quiet.
  - apply quiet_idle, demo_loop_quiet.
  - reflexivity.
  - exists s', fs. split; [exact E|]. rewrite !Hd. vm_compute. split; [reflexivity|]. split; [reflexivity|discriminate].
Defined.

Lemma backend_told_wants_witness :
  exists s', fd_reify demo_loop = Ok s' /\ (Z.testbit (default 0 (told s' !! 5)) 0 = true <-> wants (watchers demo_loop) 5 0).
Proof.
  destruct (backend_told_wants demo_loop (qt_ok _ demo_loop_quiet)) as (s' & E & _ & _ & _ & H).
  exists s'. split; [exact E|apply H].
Defined.
