(* ===== verification/HttpParser.v ===== *)
(** * The HTTP parser (deps/evhttpclient/http_parser.c, http_parser.h)

    An incremental parser of HTTP messages: http_parser_execute is given the next
    bytes of a stream and reports what it finds through callbacks.  It keeps its
    place in a state of the record [http_parser] and, during one call, marks
    where a piece of data began.  This file has the whole of it, in the build the
    Makefile makes (HTTP_PARSER_STRICT, assertions on), for requests and
    responses: each case of the big switch says what it sets, what it marks and
    which callback it makes, and [execute] runs the cases over a buffer. *)

From S2P Require Import Prelude.

(** ** Constants and tables *)

Inductive state : Set :=
| s_dead | s_start_req_or_res | s_res_or_resp_H | s_start_res
| s_res_H | s_res_HT | s_res_HTT | s_res_HTTP
| s_res_first_http_major | s_res_http_major | s_res_first_http_minor | s_res_http_minor
| s_res_first_status_code | s_res_status_code | s_res_status | s_res_line_almost_done
| s_start_req | s_req_method | s_req_spaces_before_url
| s_req_schema | s_req_schema_slash | s_req_schema_slash_slash
| s_req_server_start | s_req_server | s_req_server_with_at
| s_req_path | s_req_query_string_start | s_req_query_string
| s_req_fragment_start | s_req_fragment
| s_req_http_start | s_req_http_H | s_req_http_HT | s_req_http_HTT | s_req_http_HTTP
| s_req_first_http_major | s_req_http_major | s_req_first_http_minor | s_req_http_minor
| s_req_line_almost_done
| s_header_field_start | s_header_field | s_header_value_start | s_header_value
| s_header_value_lws | s_header_almost_done
| s_chunk_size_start | s_chunk_size | s_chunk_parameters | s_chunk_size_almost_done
| s_headers_almost_done | s_headers_done
| s_chunk_data | s_chunk_data_almost_done | s_chunk_data_done
| s_body_identity | s_body_identity_eof | s_message_done.

(** [state <= s_headers_done]: the states before the body ones. *)
Definition PARSING_HEADER (s : state) : bool :=
  match s with
  | s_chunk_data | s_chunk_data_almost_done | s_chunk_data_done
  | s_body_identity | s_body_identity_eof | s_message_done => false
  | _ => true
  end.

Inductive header_states : Set :=
| h_general | h_C | h_CO | h_CON
| h_matching_connection | h_matching_proxy_connection | h_matching_content_length
| h_matching_transfer_encoding | h_matching_upgrade
| h_connection | h_content_length | h_transfer_encoding | h_upgrade
| h_matching_transfer_encoding_chunked | h_matching_connection_keep_alive
| h_matching_connection_close
| h_transfer_encoding_chunked | h_connection_keep_alive | h_connection_close.

Inductive http_errno_t : Set :=
| HPE_OK
| HPE_CB_message_begin | HPE_CB_url | HPE_CB_header_field | HPE_CB_header_value
| HPE_CB_headers_complete | HPE_CB_body | HPE_CB_message_complete
| HPE_INVALID_EOF_STATE | HPE_HEADER_OVERFLOW | HPE_CLOSED_CONNECTION | HPE_INVALID_VERSION
| HPE_INVALID_STATUS | HPE_INVALID_METHOD | HPE_INVALID_URL | HPE_INVALID_HOST | HPE_INVALID_PORT
| HPE_INVALID_PATH | HPE_INVALID_QUERY_STRING | HPE_INVALID_FRAGMENT | HPE_LF_EXPECTED
| HPE_INVALID_HEADER_TOKEN | HPE_INVALID_CONTENT_LENGTH | HPE_INVALID_CHUNK_SIZE
| HPE_INVALID_CONSTANT | HPE_INVALID_INTERNAL_STATE | HPE_STRICT | HPE_PAUSED | HPE_UNKNOWN.

Definition is_ok (e : http_errno_t) : bool := match e with HPE_OK => true | _ => false end.

Inductive http_parser_type : Set := HTTP_REQUEST | HTTP_RESPONSE | HTTP_BOTH.

Definition F_CHUNKED : Z := 1.
Definition F_CONNECTION_KEEP_ALIVE : Z := 2.
Definition F_CONNECTION_CLOSE : Z := 4.
Definition F_TRAILING : Z := 8.
Definition F_UPGRADE : Z := 16.
Definition F_SKIPBODY : Z := 32.

Definition HTTP_MAX_HEADER_SIZE : Z := 80 * 1024.

Definition method_strings : list bytes :=
  [str "DELETE"; str "GET"; str "HEAD"; str "POST"; str "PUT"; str "CONNECT"; str "OPTIONS";
   str "TRACE"; str "COPY"; str "LOCK"; str "MKCOL"; str "MOVE"; str "PROPFIND"; str "PROPPATCH";
   str "SEARCH"; str "UNLOCK"; str "REPORT"; str "MKACTIVITY"; str "CHECKOUT"; str "MERGE";
   str "M-SEARCH"; str "NOTIFY"; str "SUBSCRIBE"; str "UNSUBSCRIBE"; str "PATCH"; str "PURGE"].

Definition HTTP_DELETE : Z := 0.
Definition HTTP_GET : Z := 1.
Definition HTTP_HEAD : Z := 2.
Definition HTTP_POST : Z := 3.
Definition HTTP_PUT : Z := 4.
Definition HTTP_CONNECT : Z := 5.
Definition HTTP_OPTIONS : Z := 6.
Definition HTTP_TRACE : Z := 7.
Definition HTTP_COPY : Z := 8.
Definition HTTP_LOCK : Z := 9.
Definition HTTP_MKCOL : Z := 10.
Definition HTTP_MOVE : Z := 11.
Definition HTTP_PROPFIND : Z := 12.
Definition HTTP_PROPPATCH : Z := 13.
Definition HTTP_SEARCH : Z := 14.
Definition HTTP_UNLOCK : Z := 15.
Definition HTTP_REPORT : Z := 16.
Definition HTTP_MKACTIVITY : Z := 17.
Definition HTTP_CHECKOUT : Z := 18.
Definition HTTP_MERGE : Z := 19.
Definition HTTP_MSEARCH : Z := 20.
Definition HTTP_NOTIFY : Z := 21.
Definition HTTP_SUBSCRIBE : Z := 22.
Definition HTTP_UNSUBSCRIBE : Z := 23.
Definition HTTP_PATCH : Z := 24.
Definition HTTP_PURGE : Z := 25.

(** The tables have 256, 256 and 32 entries; the initialisers stop at 128, 128
    and 16, and C fills the rest with zeros. *)
Definition tokens : list Z :=
  [0; 0; 0; 0; 0; 0; 0; 0; 0; 0; 0; 0; 0; 0; 0; 0;
   0; 0; 0; 0; 0; 0; 0; 0; 0; 0; 0; 0; 0; 0; 0; 0;
   0; 33; 0; 35; 36; 37; 38; 39; 0; 0; 42; 43; 0; 45; 46; 0;
   48; 49; 50; 51; 52; 53; 54; 55; 56; 57; 0; 0; 0; 0; 0; 0;
   0; 97; 98; 99; 100; 101; 102; 103; 104; 105; 106; 107; 108; 109; 110; 111;
   112; 113; 114; 115; 116; 117; 118; 119; 120; 121; 122; 0; 0; 0; 94; 95;
   96; 97; 98; 99; 100; 101; 102; 103; 104; 105; 106; 107; 108; 109; 110; 111;
   112; 113; 114; 115; 116; 117; 118; 119; 120; 121; 122; 0; 124; 0; 126; 0].

Definition unhex : list Z :=
  [-1; -1; -1; -1; -1; -1; -1; -1; -1; -1; -1; -1; -1; -1; -1; -1;
   -1; -1; -1; -1; -1; -1; -1; -1; -1; -1; -1; -1; -1; -1; -1; -1;
   -1; -1; -1; -1; -1; -1; -1; -1; -1; -1; -1; -1; -1; -1; -1; -1;
   0; 1; 2; 3; 4; 5; 6; 7; 8; 9; -1; -1; -1; -1; -1; -1;
   -1; 10; 11; 12; 13; 14; 15; -1; -1; -1; -1; -1; -1; -1; -1; -1;
   -1; -1; -1; -1; -1; -1; -1; -1; -1; -1; -1; -1; -1; -1; -1; -1;
   -1; 10; 11; 12; 13; 14; 15; -1; -1; -1; -1; -1; -1; -1; -1; -1;
   -1; -1; -1; -1; -1; -1; -1; -1; -1; -1; -1; -1; -1; -1; -1; -1].

Definition normal_url_char : list Z :=
  [0; 0; 0; 0; 246; 255; 255; 127; 255; 255; 255; 255; 255; 255; 255; 127].

(** An entry of a table indexed by a byte. *)
Definition table (t : list Z) (c : Z) : Z := nth (Z.to_nat c) t 0.

(** Characters are bytes, 0 to 255; the code's [char] is signed, and its
    comparisons with ASCII characters have the same answers. *)
Abbreviation CR := 13.
Abbreviation LF := 10.
Abbreviation SP := 32.
Abbreviation HT := 9.

Definition LOWER (c : Z) : Z := Z.lor c 32.
Definition IS_ALPHA (c : Z) : bool := (97 <=? LOWER c) && (LOWER c <=? 122).
Definition IS_NUM (c : Z) : bool := (48 <=? c) && (c <=? 57).
Definition IS_ALPHANUM (c : Z) : bool := IS_ALPHA c || IS_NUM c.
Definition IS_HEX (c : Z) : bool := IS_NUM c || ((97 <=? LOWER c) && (LOWER c <=? 102)).

(** - _ . ! ~ * ' ( ) *)
Definition IS_MARK (c : Z) : bool :=
  (c =? 45) || (c =? 95) || (c =? 46) || (c =? 33) || (c =? 126) || (c =? 42) || (c =? 39)
  || (c =? 40) || (c =? 41).

(** and % ; : & = + $ , *)
Definition IS_USERINFO_CHAR (c : Z) : bool :=
  IS_ALPHANUM c || IS_MARK c || (c =? 37) || (c =? 59) || (c =? 58) || (c =? 38) || (c =? 61)
  || (c =? 43) || (c =? 36) || (c =? 44).

Definition TOKEN (c : Z) : Z := table tokens c.
Definition IS_URL_CHAR (c : Z) : bool :=
  negb (Z.land (table normal_url_char (Z.shiftr c 3)) (Z.shiftl 1 (Z.land c 7)) =? 0).
Definition IS_HOST_CHAR (c : Z) : bool := IS_ALPHANUM c || (c =? 46) || (c =? 45).

(** ** The parser's record *)

Record http_parser := mkParser {
  ptype : http_parser_type;
  flags : Z;
  pstate : state;
  header_state : header_states;
  index : Z;
  nread : Z;
  content_length : Z;
  http_major : Z;
  http_minor : Z;
  status_code : Z;
  method : Z;
  http_errno : http_errno_t;
  upgrade : bool }.

Definition set_ptype (p : http_parser) (v : http_parser_type) : http_parser :=
  mkParser v (flags p) (pstate p) (header_state p) (index p) (nread p) (content_length p) (http_major p) (http_minor p) (status_code p) (method p) (http_errno p) (upgrade p).
Definition set_flags (p : http_parser) (v : Z) : http_parser :=
  mkParser (ptype p) v (pstate p) (header_state p) (index p) (nread p) (content_length p) (http_major p) (http_minor p) (status_code p) (method p) (http_errno p) (upgrade p).
Definition set_pstate (p : http_parser) (v : state) : http_parser :=
  mkParser (ptype p) (flags p) v (header_state p) (index p) (nread p) (content_length p) (http_major p) (http_minor p) (status_code p) (method p) (http_errno p) (upgrade p).
Definition set_header_state (p : http_parser) (v : header_states) : http_parser :=
  mkParser (ptype p) (flags p) (pstate p) v (index p) (nread p) (content_length p) (http_major p) (http_minor p) (status_code p) (method p) (http_errno p) (upgrade p).
Definition set_index (p : http_parser) (v : Z) : http_parser :=
  mkParser (ptype p) (flags p) (pstate p) (header_state p) v (nread p) (content_length p) (http_major p) (http_minor p) (status_code p) (method p) (http_errno p) (upgrade p).
Definition set_nread (p : http_parser) (v : Z) : http_parser :=
  mkParser (ptype p) (flags p) (pstate p) (header_state p) (index p) v (content_length p) (http_major p) (http_minor p) (status_code p) (method p) (http_errno p) (upgrade p).
Definition set_content_length (p : http_parser) (v : Z) : http_parser :=
  mkParser (ptype p) (flags p) (pstate p) (header_state p) (index p) (nread p) v (http_major p) (http_minor p) (status_code p) (method p) (http_errno p) (upgrade p).
Definition set_http_major (p : http_parser) (v : Z) : http_parser :=
  mkParser (ptype p) (flags p) (pstate p) (header_state p) (index p) (nread p) (content_length p) v (http_minor p) (status_code p) (method p) (http_errno p) (upgrade p).
Definition set_http_minor (p : http_parser) (v : Z) : http_parser :=
  mkParser (ptype p) (flags p) (pstate p) (header_state p) (index p) (nread p) (content_length p) (http_major p) v (status_code p) (method p) (http_errno p) (upgrade p).
Definition set_status_code (p : http_parser) (v : Z) : http_parser :=
  mkParser (ptype p) (flags p) (pstate p) (header_state p) (index p) (nread p) (content_length p) (http_major p) (http_minor p) v (method p) (http_errno p) (upgrade p).
Definition set_method (p : http_parser) (v : Z) : http_parser :=
  mkParser (ptype p) (flags p) (pstate p) (header_state p) (index p) (nread p) (content_length p) (http_major p) (http_minor p) (status_code p) v (http_errno p) (upgrade p).
Definition set_http_errno (p : http_parser) (v : http_errno_t) : http_parser :=
  mkParser (ptype p) (flags p) (pstate p) (header_state p) (index p) (nread p) (content_length p) (http_major p) (http_minor p) (status_code p) (method p) v (upgrade p).
Definition set_upgrade (p : http_parser) (v : bool) : http_parser :=
  mkParser (ptype p) (flags p) (pstate p) (header_state p) (index p) (nread p) (content_length p) (http_major p) (http_minor p) (status_code p) (method p) (http_errno p) v.

Definition has_flag (p : http_parser) (f : Z) : bool := negb (Z.land (flags p) f =? 0).
Definition add_flag (p : http_parser) (f : Z) : http_parser := set_flags p (Z.lor (flags p) f).

Definition start_state (p : http_parser) : state :=
  match ptype p with HTTP_REQUEST => s_start_req | _ => s_start_res end.

Definition http_message_needs_eof (p : http_parser) : bool :=
  match ptype p with
  | HTTP_REQUEST => false
  | _ =>
      if (status_code p / 100 =? 1) || (status_code p =? 204) || (status_code p =? 304)
         || has_flag p F_SKIPBODY then false
      else if has_flag p F_CHUNKED || negb (content_length p =? ULLONG_MAX) then false
      else true
  end.

Definition http_should_keep_alive (p : http_parser) : bool :=
  if (0 <? http_major p) && (0 <? http_minor p) then
    if has_flag p F_CONNECTION_CLOSE then false else negb (http_message_needs_eof p)
  else
    if negb (has_flag p F_CONNECTION_KEEP_ALIVE) then false else negb (http_message_needs_eof p).

Definition NEW_MESSAGE (p : http_parser) : state :=
  if http_should_keep_alive p then start_state p else s_dead.

Definition http_parser_init (t : http_parser_type) : http_parser :=
  mkParser t 0
    (match t with HTTP_REQUEST => s_start_req | HTTP_RESPONSE => s_start_res | HTTP_BOTH => s_start_req_or_res end)
    h_general 0 0 0 0 0 0 0 HPE_OK false.

Definition http_parser_pause (p : http_parser) (paused : bool) : outcome http_parser :=
  match http_errno p with
  | HPE_OK | HPE_PAUSED => Ok (set_http_errno p (if paused then HPE_PAUSED else HPE_OK))
  | _ => Trap AssertFailed
  end.

Definition http_body_is_final (p : http_parser) : bool :=
  match pstate p with s_message_done => true | _ => false end.

Definition http_method_str (m : Z) : bytes := nth (Z.to_nat m) method_strings (str "<unknown>").

(** ** URLs, a character at a time *)

Definition parse_url_char (s : state) (ch : Z) : state :=
  if (ch =? SP) || (ch =? CR) || (ch =? LF) then s_dead
  else if (ch =? HT) || (ch =? 12) then s_dead
  else
    match s with
    | s_req_spaces_before_url =>
        if (ch =? 47) || (ch =? 42) then s_req_path
        else if IS_ALPHA ch then s_req_schema
        else s_dead
    | s_req_schema =>
        if IS_ALPHA ch then s
        else if ch =? 58 then s_req_schema_slash
        else s_dead
    | s_req_schema_slash => if ch =? 47 then s_req_schema_slash_slash else s_dead
    | s_req_schema_slash_slash => if ch =? 47 then s_req_server_start else s_dead
    | s_req_server_with_at | s_req_server_start | s_req_server =>
        if (match s with s_req_server_with_at => true | _ => false end) && (ch =? 64) then s_dead
        else if ch =? 47 then s_req_path
        else if ch =? 63 then s_req_query_string_start
        else if ch =? 64 then s_req_server_with_at
        else if IS_USERINFO_CHAR ch || (ch =? 91) || (ch =? 93) then s_req_server
        else s_dead
    | s_req_path =>
        if IS_URL_CHAR ch then s
        else if ch =? 63 then s_req_query_string_start
        else if ch =? 35 then s_req_fragment_start
        else s_dead
    | s_req_query_string_start | s_req_query_string =>
        if IS_URL_CHAR ch then s_req_query_string
        else if ch =? 63 then s_req_query_string
        else if ch =? 35 then s_req_fragment_start
        else s_dead
    | s_req_fragment_start =>
        if IS_URL_CHAR ch then s_req_fragment
        else if ch =? 63 then s_req_fragment
        else if ch =? 35 then s
        else s_dead
    | s_req_fragment =>
        if IS_URL_CHAR ch then s
        else if (ch =? 63) || (ch =? 35) then s
        else s_dead
    | _ => s_dead
    end.

(** ** The cases of the switch

    A case changes the parser, may set a mark, may move [p], and leaves the
    switch in one of the ways of [action]; where it makes a callback, the parser
    has its new values by then. *)

Inductive mark_kind : Set := K_header_field | K_header_value | K_url | K_body.
Inductive notify_kind : Set := N_message_begin | N_message_complete.

Inductive action : Set :=
| Break                                        (** [break] *)
| Reexecute                                    (** [goto reexecute_byte] *)
| Error                                        (** [goto error] *)
| Notify (f : notify_kind) (leave : bool)      (** CALLBACK_NOTIFY, then break or [return (p - data) + 1] *)
| Data (k : mark_kind) (extra : Z) (consume again : bool)
                                               (** CALLBACK_DATA_ with [extra] bytes more than [p - mark],
                                                   consuming the byte on an error or not, then
                                                   [goto reexecute_byte] or break *)
| HeadersComplete.                             (** on_headers_complete, then [goto reexecute_byte] *)

Record stmt := mkStmt { st_parser : http_parser; st_mark : option mark_kind; st_skip : Z; st_act : action }.

Definition leave (p : http_parser) (a : action) : outcome stmt := Ok (mkStmt p None 0 a).
Definition brk (p : http_parser) : outcome stmt := leave p Break.
Definition brk_to (p : http_parser) (s : state) : outcome stmt := leave (set_pstate p s) Break.
Definition fail (p : http_parser) (e : http_errno_t) : outcome stmt := leave (set_http_errno p e) Error.
Definition MARK (k : mark_kind) (m : outcome stmt) : outcome stmt :=
  x ← m; Ok (mkStmt (st_parser x) (Some k) (st_skip x) (st_act x)).

(** STRICT_CHECK(ch != c), then the next state. *)
Definition expect (p : http_parser) (ch c : Z) (s : state) : outcome stmt :=
  if negb (ch =? c) then fail p HPE_STRICT else brk_to p s.

(** NEW_MESSAGE and the callback at the end of a message. *)
Definition finish_message (p : http_parser) (lv : bool) : outcome stmt :=
  leave (set_pstate p (NEW_MESSAGE p)) (Notify N_message_complete lv).

(** Another digit of a version number. *)
Definition more_major (p : http_parser) (ch : Z) : outcome stmt :=
  let p := set_http_major p (u16 (u16 (http_major p * 10) + (ch - 48))) in
  if 999 <? http_major p then fail p HPE_INVALID_VERSION else brk p.
Definition more_minor (p : http_parser) (ch : Z) : outcome stmt :=
  let p := set_http_minor p (u16 (u16 (http_minor p * 10) + (ch - 48))) in
  if 999 <? http_minor p then fail p HPE_INVALID_VERSION else brk p.

Definition case_dead (p : http_parser) (ch : Z) : outcome stmt :=
  if (ch =? CR) || (ch =? LF) then brk p else fail p HPE_CLOSED_CONNECTION.

Definition case_start_req_or_res (p : http_parser) (ch : Z) : outcome stmt :=
  if (ch =? CR) || (ch =? LF) then brk p else
  let p := set_content_length (set_flags p 0) ULLONG_MAX in
  if ch =? 72 then leave (set_pstate p s_res_or_resp_H) (Notify N_message_begin false)
  else leave (set_pstate (set_ptype p HTTP_REQUEST) s_start_req) Reexecute.

Definition case_res_or_resp_H (p : http_parser) (ch : Z) : outcome stmt :=
  if ch =? 84 then brk_to (set_ptype p HTTP_RESPONSE) s_res_HT
  else if negb (ch =? 69) then fail p HPE_INVALID_CONSTANT
  else brk_to (set_index (set_method (set_ptype p HTTP_REQUEST) HTTP_HEAD) 2) s_req_method.

(** CR and LF stay in the state but report the beginning of a message too. *)
Definition case_start_res (p : http_parser) (ch : Z) : outcome stmt :=
  let p := set_content_length (set_flags p 0) ULLONG_MAX in
  if ch =? 72 then leave (set_pstate p s_res_H) (Notify N_message_begin false)
  else if (ch =? CR) || (ch =? LF) then leave p (Notify N_message_begin false)
  else fail p HPE_INVALID_CONSTANT.

Definition case_res_first_http_major (p : http_parser) (ch : Z) : outcome stmt :=
  if (ch <? 48) || (57 <? ch) then fail p HPE_INVALID_VERSION
  else brk_to (set_http_major p (ch - 48)) s_res_http_major.

Definition case_res_http_major (p : http_parser) (ch : Z) : outcome stmt :=
  if ch =? 46 then brk_to p s_res_first_http_minor
  else if negb (IS_NUM ch) then fail p HPE_INVALID_VERSION
  else more_major p ch.

Definition case_res_first_http_minor (p : http_parser) (ch : Z) : outcome stmt :=
  if negb (IS_NUM ch) then fail p HPE_INVALID_VERSION
  else brk_to (set_http_minor p (ch - 48)) s_res_http_minor.

Definition case_res_http_minor (p : http_parser) (ch : Z) : outcome stmt :=
  if ch =? SP then brk_to p s_res_first_status_code
  else if negb (IS_NUM ch) then fail p HPE_INVALID_VERSION
  else more_minor p ch.

Definition case_res_first_status_code (p : http_parser) (ch : Z) : outcome stmt :=
  if negb (IS_NUM ch) then
    if ch =? SP then brk p else fail p HPE_INVALID_STATUS
  else brk_to (set_status_code p (ch - 48)) s_res_status_code.

Definition case_res_status_code (p : http_parser) (ch : Z) : outcome stmt :=
  if negb (IS_NUM ch) then
    if ch =? SP then brk_to p s_res_status
    else if ch =? CR then brk_to p s_res_line_almost_done
    else if ch =? LF then brk_to p s_header_field_start
    else fail p HPE_INVALID_STATUS
  else
    let p := set_status_code p (u16 (u16 (status_code p * 10) + (ch - 48))) in
    if 999 <? status_code p then fail p HPE_INVALID_STATUS else brk p.

Definition case_res_status (p : http_parser) (ch : Z) : outcome stmt :=
  if ch =? CR then brk_to p s_res_line_almost_done
  else if ch =? LF then brk_to p s_header_field_start
  else brk p.

(** The methods by their first letter. *)
Definition first_method (ch : Z) : option Z :=
  if ch =? 67 then Some HTTP_CONNECT
  else if ch =? 68 then Some HTTP_DELETE
  else if ch =? 71 then Some HTTP_GET
  else if ch =? 72 then Some HTTP_HEAD
  else if ch =? 76 then Some HTTP_LOCK
  else if ch =? 77 then Some HTTP_MKCOL
  else if ch =? 78 then Some HTTP_NOTIFY
  else if ch =? 79 then Some HTTP_OPTIONS
  else if ch =? 80 then Some HTTP_POST
  else if ch =? 82 then Some HTTP_REPORT
  else if ch =? 83 then Some HTTP_SUBSCRIBE
  else if ch =? 84 then Some HTTP_TRACE
  else if ch =? 85 then Some HTTP_UNLOCK
  else None.

Definition case_start_req (p : http_parser) (ch : Z) : outcome stmt :=
  if (ch =? CR) || (ch =? LF) then brk p else
  let p := set_content_length (set_flags p 0) ULLONG_MAX in
  if negb (IS_ALPHA ch) then fail p HPE_INVALID_METHOD else
  let p := set_index (set_method p 0) 1 in
  match first_method ch with
  | None => fail p HPE_INVALID_METHOD
  | Some m => leave (set_pstate (set_method p m) s_req_method) (Notify N_message_begin false)
  end.

(** The method a letter that differs from the expected one turns it into;
    [inl] is a jump to the error label, with the errno it sets. *)
Definition other_method (m i ch : Z) : http_errno_t + Z :=
  if m =? HTTP_CONNECT then
    if (i =? 1) && (ch =? 72) then inr HTTP_CHECKOUT
    else if (i =? 2) && (ch =? 80) then inr HTTP_COPY
    else inl HPE_OK
  else if m =? HTTP_MKCOL then
    if (i =? 1) && (ch =? 79) then inr HTTP_MOVE
    else if (i =? 1) && (ch =? 69) then inr HTTP_MERGE
    else if (i =? 1) && (ch =? 45) then inr HTTP_MSEARCH
    else if (i =? 2) && (ch =? 65) then inr HTTP_MKACTIVITY
    else inl HPE_OK
  else if m =? HTTP_SUBSCRIBE then
    if (i =? 1) && (ch =? 69) then inr HTTP_SEARCH else inl HPE_OK
  else if (i =? 1) && (m =? HTTP_POST) then
    if ch =? 82 then inr HTTP_PROPFIND
    else if ch =? 85 then inr HTTP_PUT
    else if ch =? 65 then inr HTTP_PATCH
    else inl HPE_OK
  else if i =? 2 then
    if m =? HTTP_PUT then inr (if ch =? 82 then HTTP_PURGE else m)
    else if m =? HTTP_UNLOCK then inr (if ch =? 83 then HTTP_UNSUBSCRIBE else m)
    else inr m
  else if (i =? 4) && (m =? HTTP_PROPFIND) && (ch =? 80) then inr HTTP_PROPPATCH
  else inl HPE_INVALID_METHOD.

Definition case_req_method (p : http_parser) (ch : Z) : outcome stmt :=
  if ch =? 0 then fail p HPE_INVALID_METHOD else
  match method_strings !! Z.to_nat (method p) with
  | None => Trap OutOfBounds
  | Some matcher =>
      w ← load (matcher ++ [0]) (index p);
      let next p := set_index p (u8 (index p + 1)) in
      if (ch =? SP) && (w =? 0) then brk_to (next p) s_req_spaces_before_url
      else if ch =? w then brk (next p)
      else
        match other_method (method p) (index p) ch with
        | inl HPE_OK => leave p Error
        | inl e => fail p e
        | inr m => brk (next (set_method p m))
        end
  end.

(** The next state of the URL, or the error. *)
Definition url_char (p : http_parser) (s : state) (ch : Z) : outcome stmt :=
  let p := set_pstate p (parse_url_char s ch) in
  match pstate p with s_dead => fail p HPE_INVALID_URL | _ => brk p end.

Definition case_req_spaces_before_url (p : http_parser) (ch : Z) : outcome stmt :=
  if ch =? SP then brk p else
  MARK K_url (url_char p (if method p =? HTTP_CONNECT then s_req_server_start else pstate p) ch).

Definition case_req_schema (p : http_parser) (ch : Z) : outcome stmt :=
  if (ch =? SP) || (ch =? CR) || (ch =? LF) then fail p HPE_INVALID_URL
  else url_char p (pstate p) ch.

Definition case_req_url (p : http_parser) (ch : Z) : outcome stmt :=
  if ch =? SP then leave (set_pstate p s_req_http_start) (Data K_url 0 true false)
  else if (ch =? CR) || (ch =? LF) then
    leave (set_pstate (set_http_minor (set_http_major p 0) 9)
             (if ch =? CR then s_req_line_almost_done else s_header_field_start)) (Data K_url 0 true false)
  else url_char p (pstate p) ch.

Definition case_req_http_start (p : http_parser) (ch : Z) : outcome stmt :=
  if ch =? 72 then brk_to p s_req_http_H
  else if ch =? SP then brk p
  else fail p HPE_INVALID_CONSTANT.

Definition case_req_first_http_major (p : http_parser) (ch : Z) : outcome stmt :=
  if (ch <? 49) || (57 <? ch) then fail p HPE_INVALID_VERSION
  else brk_to (set_http_major p (ch - 48)) s_req_http_major.

Definition case_req_http_major (p : http_parser) (ch : Z) : outcome stmt :=
  if ch =? 46 then brk_to p s_req_first_http_minor
  else if negb (IS_NUM ch) then fail p HPE_INVALID_VERSION
  else more_major p ch.

Definition case_req_first_http_minor (p : http_parser) (ch : Z) : outcome stmt :=
  if negb (IS_NUM ch) then fail p HPE_INVALID_VERSION
  else brk_to (set_http_minor p (ch - 48)) s_req_http_minor.

Definition case_req_http_minor (p : http_parser) (ch : Z) : outcome stmt :=
  if ch =? CR then brk_to p s_req_line_almost_done
  else if ch =? LF then brk_to p s_header_field_start
  else if negb (IS_NUM ch) then fail p HPE_INVALID_VERSION
  else more_minor p ch.

Definition case_req_line_almost_done (p : http_parser) (ch : Z) : outcome stmt :=
  if negb (ch =? LF) then fail p HPE_LF_EXPECTED else brk_to p s_header_field_start.

(** *** Header fields *)

Definition CONNECTION : bytes := str "connection".
Definition PROXY_CONNECTION : bytes := str "proxy-connection".
Definition CONTENT_LENGTH : bytes := str "content-length".
Definition TRANSFER_ENCODING : bytes := str "transfer-encoding".
Definition UPGRADE : bytes := str "upgrade".
Definition CHUNKED : bytes := str "chunked".
Definition KEEP_ALIVE : bytes := str "keep-alive".
Definition CLOSE : bytes := str "close".

(** A name or value is compared with a word a character at a time: [index] is
    the position of the last character that agreed. *)
Definition matching (word : bytes) (full : header_states) (p : http_parser) (c : Z) : outcome http_parser :=
  let p := set_index p (u8 (index p + 1)) in
  let sizeof := Z.of_nat (length word) + 1 in
  if sizeof - 1 <? index p then Ok (set_header_state p h_general) else
  w ← load (word ++ [0]) (index p);
  Ok (if negb (c =? w) then set_header_state p h_general
      else if index p =? sizeof - 2 then set_header_state p full
      else p).

Definition case_header_field_start (p : http_parser) (ch : Z) : outcome stmt :=
  if ch =? CR then brk_to p s_headers_almost_done
  else if ch =? LF then leave (set_pstate p s_headers_almost_done) Reexecute
  else
    let c := TOKEN ch in
    if c =? 0 then fail p HPE_INVALID_HEADER_TOKEN else
    MARK K_header_field
      (let p := set_pstate (set_index p 0) s_header_field in
       brk (set_header_state p
              (if c =? 99 then h_C
               else if c =? 112 then h_matching_proxy_connection
               else if c =? 116 then h_matching_transfer_encoding
               else if c =? 117 then h_matching_upgrade
               else h_general))).

(** A further character of a name. *)
Definition field_char (p : http_parser) (ch c : Z) : outcome http_parser :=
  let next p := set_index p (u8 (index p + 1)) in
  match header_state p with
  | h_general => Ok p
  | h_C => Ok (set_header_state (next p) (if c =? 111 then h_CO else h_general))
  | h_CO => Ok (set_header_state (next p) (if c =? 110 then h_CON else h_general))
  | h_CON =>
      Ok (set_header_state (next p)
            (if c =? 110 then h_matching_connection
             else if c =? 116 then h_matching_content_length else h_general))
  | h_matching_connection => matching CONNECTION h_connection p c
  | h_matching_proxy_connection => matching PROXY_CONNECTION h_connection p c
  | h_matching_content_length => matching CONTENT_LENGTH h_content_length p c
  | h_matching_transfer_encoding => matching TRANSFER_ENCODING h_transfer_encoding p c
  | h_matching_upgrade => matching UPGRADE h_upgrade p c
  | h_connection | h_content_length | h_transfer_encoding | h_upgrade =>
      Ok (if negb (ch =? SP) then set_header_state p h_general else p)
  | _ => Trap AssertFailed
  end.

Definition case_header_field (p : http_parser) (ch : Z) : outcome stmt :=
  let c := TOKEN ch in
  if negb (c =? 0) then p ← field_char p ch c; brk p
  else if ch =? 58 then leave (set_pstate p s_header_value_start) (Data K_header_field 0 true false)
  else if ch =? CR then leave (set_pstate p s_header_almost_done) (Data K_header_field 0 true false)
  else if ch =? LF then leave (set_pstate p s_header_field_start) (Data K_header_field 0 true false)
  else fail p HPE_INVALID_HEADER_TOKEN.

Definition case_header_value_start (p : http_parser) (ch : Z) : outcome stmt :=
  if (ch =? SP) || (ch =? HT) then brk p else
  MARK K_header_value
    (let p := set_index (set_pstate p s_header_value) 0 in
     if ch =? CR then
       leave (set_pstate (set_header_state p h_general) s_header_almost_done) (Data K_header_value 0 true false)
     else if ch =? LF then leave (set_pstate p s_header_field_start) (Data K_header_value 0 true false)
     else
       let c := LOWER ch in
       match header_state p with
       | h_upgrade => brk (set_header_state (add_flag p F_UPGRADE) h_general)
       | h_transfer_encoding =>
           brk (set_header_state p (if 99 =? c then h_matching_transfer_encoding_chunked else h_general))
       | h_content_length =>
           if negb (IS_NUM ch) then fail p HPE_INVALID_CONTENT_LENGTH
           else brk (set_content_length p (ch - 48))
       | h_connection =>
           brk (set_header_state p
                  (if c =? 107 then h_matching_connection_keep_alive
                   else if c =? 99 then h_matching_connection_close else h_general))
       | _ => brk (set_header_state p h_general)
       end).

(** Another digit of a content length or chunk size: the test for overflow is
    whether the product, which wraps, has become smaller. *)
Definition more_length (p : http_parser) (base d : Z) : outcome stmt :=
  let t := u64 (u64 (content_length p * base) + d) in
  if (t <? content_length p) || (t =? ULLONG_MAX) then fail p HPE_INVALID_CONTENT_LENGTH
  else brk (set_content_length p t).

Definition case_header_value (p : http_parser) (ch : Z) : outcome stmt :=
  if ch =? CR then leave (set_pstate p s_header_almost_done) (Data K_header_value 0 true false)
  else if ch =? LF then leave (set_pstate p s_header_almost_done) (Data K_header_value 0 false true)
  else
    let c := LOWER ch in
    match header_state p with
    | h_general => brk p
    | h_connection | h_transfer_encoding => Trap AssertFailed
    | h_content_length =>
        if ch =? SP then brk p
        else if negb (IS_NUM ch) then fail p HPE_INVALID_CONTENT_LENGTH
        else more_length p 10 (ch - 48)
    | h_matching_transfer_encoding_chunked => p ← matching CHUNKED h_transfer_encoding_chunked p c; brk p
    | h_matching_connection_keep_alive => p ← matching KEEP_ALIVE h_connection_keep_alive p c; brk p
    | h_matching_connection_close => p ← matching CLOSE h_connection_close p c; brk p
    | h_transfer_encoding_chunked | h_connection_keep_alive | h_connection_close =>
        brk (if negb (ch =? SP) then set_header_state p h_general else p)
    | _ => brk (set_header_state (set_pstate p s_header_value) h_general)
    end.

Definition case_header_almost_done (p : http_parser) (ch : Z) : outcome stmt :=
  if negb (ch =? LF) then fail p HPE_STRICT else
  let p := set_pstate p s_header_value_lws in
  match header_state p with
  | h_connection_keep_alive => brk (add_flag p F_CONNECTION_KEEP_ALIVE)
  | h_connection_close => brk (add_flag p F_CONNECTION_CLOSE)
  | h_transfer_encoding_chunked => brk (add_flag p F_CHUNKED)
  | _ => brk p
  end.

Definition case_header_value_lws (p : http_parser) (ch : Z) : outcome stmt :=
  if (ch =? SP) || (ch =? HT) then brk_to p s_header_value_start
  else leave (set_pstate p s_header_field_start) Reexecute.

Definition case_headers_almost_done (p : http_parser) (ch : Z) : outcome stmt :=
  if negb (ch =? LF) then fail p HPE_STRICT
  else if has_flag p F_TRAILING then finish_message p false
  else
    let p := set_pstate p s_headers_done in
    leave (set_upgrade p (has_flag p F_UPGRADE || (method p =? HTTP_CONNECT))) HeadersComplete.

Definition case_headers_done (p : http_parser) (ch : Z) : outcome stmt :=
  if negb (ch =? LF) then fail p HPE_STRICT else
  let p := set_nread p 0 in
  if upgrade p then finish_message p true
  else if has_flag p F_SKIPBODY then finish_message p false
  else if has_flag p F_CHUNKED then brk_to p s_chunk_size_start
  else if content_length p =? 0 then finish_message p false
  else if negb (content_length p =? ULLONG_MAX) then brk_to p s_body_identity
  else if match ptype p with HTTP_REQUEST => true | _ => negb (http_message_needs_eof p) end
  then finish_message p false
  else brk_to p s_body_identity_eof.

(** *** Bodies

    [avail] is [(data + len) - p]. *)

Definition assert_that (b : bool) (k : outcome stmt) : outcome stmt := guard_trap b AssertFailed k.

Definition case_body_identity (p : http_parser) (avail : Z) : outcome stmt :=
  let to_read := Z.min (content_length p) avail in
  assert_that (negb (content_length p =? 0) && negb (content_length p =? ULLONG_MAX))
    (let p := set_content_length p (u64 (content_length p - to_read)) in
     Ok (if content_length p =? 0
         then mkStmt (set_pstate p s_message_done) (Some K_body) (to_read - 1) (Data K_body 1 false true)
         else mkStmt p (Some K_body) (to_read - 1) Break)).

Definition case_body_identity_eof (p : http_parser) (avail : Z) : outcome stmt :=
  Ok (mkStmt p (Some K_body) (avail - 1) Break).

Definition case_chunk_size_start (p : http_parser) (ch : Z) : outcome stmt :=
  assert_that (nread p =? 1) (assert_that (has_flag p F_CHUNKED)
    (let unhex_val := table unhex ch in
     if unhex_val =? -1 then fail p HPE_INVALID_CHUNK_SIZE
     else brk_to (set_content_length p unhex_val) s_chunk_size)).

Definition case_chunk_size (p : http_parser) (ch : Z) : outcome stmt :=
  assert_that (has_flag p F_CHUNKED)
    (if ch =? CR then brk_to p s_chunk_size_almost_done else
     let unhex_val := table unhex ch in
     if unhex_val =? -1 then
       if (ch =? 59) || (ch =? SP) then brk_to p s_chunk_parameters
       else fail p HPE_INVALID_CHUNK_SIZE
     else more_length p 16 unhex_val).

Definition case_chunk_parameters (p : http_parser) (ch : Z) : outcome stmt :=
  assert_that (has_flag p F_CHUNKED)
    (if ch =? CR then brk_to p s_chunk_size_almost_done else brk p).

Definition case_chunk_size_almost_done (p : http_parser) (ch : Z) : outcome stmt :=
  assert_that (has_flag p F_CHUNKED)
    (if negb (ch =? LF) then fail p HPE_STRICT else
     let p := set_nread p 0 in
     if content_length p =? 0 then brk_to (add_flag p F_TRAILING) s_header_field_start
     else brk_to p s_chunk_data).

Definition case_chunk_data (p : http_parser) (avail : Z) : outcome stmt :=
  let to_read := Z.min (content_length p) avail in
  assert_that (has_flag p F_CHUNKED)
  (assert_that (negb (content_length p =? 0) && negb (content_length p =? ULLONG_MAX))
    (let p := set_content_length p (u64 (content_length p - to_read)) in
     Ok (mkStmt (if content_length p =? 0 then set_pstate p s_chunk_data_almost_done else p)
           (Some K_body) (to_read - 1) Break))).

Definition case_chunk_data_almost_done (p : http_parser) (ch : Z) : outcome stmt :=
  assert_that (has_flag p F_CHUNKED) (assert_that (content_length p =? 0)
    (if negb (ch =? CR) then fail p HPE_STRICT
     else leave (set_pstate p s_chunk_data_done) (Data K_body 0 true false))).

Definition case_chunk_data_done (p : http_parser) (ch : Z) : outcome stmt :=
  assert_that (has_flag p F_CHUNKED)
    (if negb (ch =? LF) then fail p HPE_STRICT
     else brk_to (set_nread p 0) s_chunk_size_start).

(** *** The switch *)

Definition switch (p : http_parser) (ch avail : Z) : outcome stmt :=
  match pstate p with
  | s_dead => case_dead p ch
  | s_start_req_or_res => case_start_req_or_res p ch
  | s_res_or_resp_H => case_res_or_resp_H p ch
  | s_start_res => case_start_res p ch
  | s_res_H => expect p ch 84 s_res_HT
  | s_res_HT => expect p ch 84 s_res_HTT
  | s_res_HTT => expect p ch 80 s_res_HTTP
  | s_res_HTTP => expect p ch 47 s_res_first_http_major
  | s_res_first_http_major => case_res_first_http_major p ch
  | s_res_http_major => case_res_http_major p ch
  | s_res_first_http_minor => case_res_first_http_minor p ch
  | s_res_http_minor => case_res_http_minor p ch
  | s_res_first_status_code => case_res_first_status_code p ch
  | s_res_status_code => case_res_status_code p ch
  | s_res_status => case_res_status p ch
  | s_res_line_almost_done => expect p ch LF s_header_field_start
  | s_start_req => case_start_req p ch
  | s_req_method => case_req_method p ch
  | s_req_spaces_before_url => case_req_spaces_before_url p ch
  | s_req_schema | s_req_schema_slash | s_req_schema_slash_slash | s_req_server_start => case_req_schema p ch
  | s_req_server | s_req_server_with_at | s_req_path | s_req_query_string_start | s_req_query_string
  | s_req_fragment_start | s_req_fragment => case_req_url p ch
  | s_req_http_start => case_req_http_start p ch
  | s_req_http_H => expect p ch 84 s_req_http_HT
  | s_req_http_HT => expect p ch 84 s_req_http_HTT
  | s_req_http_HTT => expect p ch 80 s_req_http_HTTP
  | s_req_http_HTTP => expect p ch 47 s_req_first_http_major
  | s_req_first_http_major => case_req_first_http_major p ch
  | s_req_http_major => case_req_http_major p ch
  | s_req_first_http_minor => case_req_first_http_minor p ch
  | s_req_http_minor => case_req_http_minor p ch
  | s_req_line_almost_done => case_req_line_almost_done p ch
  | s_header_field_start => case_header_field_start p ch
  | s_header_field => case_header_field p ch
  | s_header_value_start => case_header_value_start p ch
  | s_header_value => case_header_value p ch
  | s_header_almost_done => case_header_almost_done p ch
  | s_header_value_lws => case_header_value_lws p ch
  | s_headers_almost_done => case_headers_almost_done p ch
  | s_headers_done => case_headers_done p ch
  | s_body_identity => case_body_identity p avail
  | s_body_identity_eof => case_body_identity_eof p avail
  | s_message_done => finish_message p false
  | s_chunk_size_start => case_chunk_size_start p ch
  | s_chunk_size => case_chunk_size p ch
  | s_chunk_parameters => case_chunk_parameters p ch
  | s_chunk_size_almost_done => case_chunk_size_almost_done p ch
  | s_chunk_data => case_chunk_data p avail
  | s_chunk_data_almost_done => case_chunk_data_almost_done p ch
  | s_chunk_data_done => case_chunk_data_done p ch
  end.

(** ** Running the cases *)

(** A callback reads the parser, changes the application's state [A] and
    returns a number; it may also pause the parser. *)
Record cb_result (A : Type) := mkRes { cb_ret : Z; cb_pauses : bool; cb_user : A }.
Arguments mkRes {A}.
Arguments cb_ret {A}.
Arguments cb_pauses {A}.
Arguments cb_user {A}.

Definition http_cb (A : Type) : Type := http_parser -> A -> outcome (cb_result A).
Definition http_data_cb (A : Type) : Type := http_parser -> bytes -> A -> outcome (cb_result A).

Record http_parser_settings (A : Type) := mkSettings {
  on_message_begin : option (http_cb A);
  on_url : option (http_data_cb A);
  on_header_field : option (http_data_cb A);
  on_header_value : option (http_data_cb A);
  on_headers_complete : option (http_cb A);
  on_body : option (http_data_cb A);
  on_message_complete : option (http_cb A) }.
Arguments mkSettings {A}.
Arguments on_message_begin {A}.
Arguments on_url {A}.
Arguments on_header_field {A}.
Arguments on_header_value {A}.
Arguments on_headers_complete {A}.
Arguments on_body {A}.
Arguments on_message_complete {A}.

Record marks := mkMarks {
  header_field_mark : option Z; header_value_mark : option Z; url_mark : option Z; body_mark : option Z }.

Definition get_mark (m : marks) (k : mark_kind) : option Z :=
  match k with
  | K_header_field => header_field_mark m | K_header_value => header_value_mark m
  | K_url => url_mark m | K_body => body_mark m
  end.

Definition set_mark (m : marks) (k : mark_kind) (v : option Z) : marks :=
  match k with
  | K_header_field => mkMarks v (header_value_mark m) (url_mark m) (body_mark m)
  | K_header_value => mkMarks (header_field_mark m) v (url_mark m) (body_mark m)
  | K_url => mkMarks (header_field_mark m) (header_value_mark m) v (body_mark m)
  | K_body => mkMarks (header_field_mark m) (header_value_mark m) (url_mark m) v
  end.

(** The variables of a call: [x_p] is [p - data]. *)
Record exec (A : Type) := mkExec { x_parser : http_parser; x_user : A; x_p : Z; x_marks : marks }.
Arguments mkExec {A}.
Arguments x_parser {A}.
Arguments x_user {A}.
Arguments x_p {A}.
Arguments x_marks {A}.

(** How a byte ends: with the next one, with a [return], or at the error label. *)
Inductive ctl : Set := Next | Return (v : Z) | ErrorLabel.

Section Execute.
Context {A : Type} (settings : http_parser_settings A) (data : bytes).
Implicit Type x : exec A.

Definition len : Z := Z.of_nat (length data).

Definition data_cb (k : mark_kind) : option (http_data_cb A) :=
  match k with
  | K_header_field => on_header_field settings | K_header_value => on_header_value settings
  | K_url => on_url settings | K_body => on_body settings
  end.
Definition data_errno (k : mark_kind) : http_errno_t :=
  match k with
  | K_header_field => HPE_CB_header_field | K_header_value => HPE_CB_header_value
  | K_url => HPE_CB_url | K_body => HPE_CB_body
  end.
Definition notify_cb (f : notify_kind) : option (http_cb A) :=
  match f with
  | N_message_begin => on_message_begin settings | N_message_complete => on_message_complete settings
  end.
Definition notify_errno (f : notify_kind) : http_errno_t :=
  match f with N_message_begin => HPE_CB_message_begin | N_message_complete => HPE_CB_message_complete end.

Definition with_parser x (p : http_parser) : exec A := mkExec p (x_user x) (x_p x) (x_marks x).

(** What a callback leaves: the user's state, a pause, an error. *)
Definition after_callback x (r : cb_result A) (failed : bool) (e : http_errno_t) : outcome (exec A) :=
  p ← (if cb_pauses r then http_parser_pause (x_parser x) true else Ok (x_parser x));
  Ok (mkExec (if failed then set_http_errno p e else p) (cb_user r) (x_p x) (x_marks x)).

(** CALLBACK_NOTIFY_: [Some er] is its [return]. *)
Definition CALLBACK_NOTIFY_ (f : notify_kind) (er : Z) x : outcome (option Z * exec A) :=
  guard_trap (is_ok (http_errno (x_parser x))) AssertFailed
    match notify_cb f with
    | None => Ok (None, x)
    | Some cb =>
        r ← cb (x_parser x) (x_user x);
        x ← after_callback x r (negb (cb_ret r =? 0)) (notify_errno f);
        Ok (if is_ok (http_errno (x_parser x)) then (None, x) else (Some er, x))
    end.

(** CALLBACK_DATA_ with the data from the mark to [upto]. *)
Definition CALLBACK_DATA_ (k : mark_kind) (upto er : Z) x : outcome (option Z * exec A) :=
  guard_trap (is_ok (http_errno (x_parser x))) AssertFailed
    match get_mark (x_marks x) k with
    | None => Ok (None, x)
    | Some m =>
        let clear x := mkExec (x_parser x) (x_user x) (x_p x) (set_mark (x_marks x) k None) in
        match data_cb k with
        | None => Ok (None, clear x)
        | Some cb =>
            at_ ← read_block data m (upto - m);
            r ← cb (x_parser x) at_ (x_user x);
            x ← after_callback x r (negb (cb_ret r =? 0)) (data_errno k);
            Ok (if is_ok (http_errno (x_parser x)) then (None, clear x) else (Some er, x))
        end
    end.

(** on_headers_complete: 1 says that there is no body. *)
Definition call_headers_complete x : outcome (option Z * exec A) :=
  match on_headers_complete settings with
  | None => Ok (if is_ok (http_errno (x_parser x)) then (None, x) else (Some (x_p x), x))
  | Some cb =>
      r ← cb (x_parser x) (x_user x);
      x ← after_callback x r (negb (cb_ret r =? 0) && negb (cb_ret r =? 1)) HPE_CB_headers_complete;
      let x := if cb_ret r =? 1 then with_parser x (add_flag (x_parser x) F_SKIPBODY) else x in
      Ok (if is_ok (http_errno (x_parser x)) then (None, x) else (Some (x_p x), x))
  end.

(** The parser, mark and position a case leaves. *)
Definition apply_stmt x (s : stmt) : exec A :=
  let ms := match st_mark s with
            | Some k => match get_mark (x_marks x) k with
                        | None => set_mark (x_marks x) k (Some (x_p x))
                        | Some _ => x_marks x
                        end
            | None => x_marks x
            end in
  mkExec (st_parser s) (x_user x) (x_p x + st_skip s) ms.

(** [or_return r k]: the early return of a callback macro, or go on. *)
Definition or_return (r : option Z * exec A) (k : exec A -> outcome (ctl * exec A)) : outcome (ctl * exec A) :=
  match r with (Some er, x) => Ok (Return er, x) | (None, x) => k x end.

(** The callback of a case and what follows it; [go] executes the byte again. *)
Definition perform (go : exec A -> outcome (ctl * exec A)) x (a : action) : outcome (ctl * exec A) :=
  match a with
  | Break => Ok (Next, x)
  | Reexecute => go x
  | Error => Ok (ErrorLabel, x)
  | Notify f leave =>
      r ← CALLBACK_NOTIFY_ f (x_p x + 1) x;
      or_return r (fun x => Ok (if leave then Return (x_p x + 1) else Next, x))
  | Data k extra consume again =>
      r ← CALLBACK_DATA_ k (x_p x + extra) (if consume then x_p x + 1 else x_p x) x;
      or_return r (fun x => if again then go x else Ok (Next, x))
  | HeadersComplete =>
      r ← call_headers_complete x;
      or_return r go
  end.

(** From the label reexecute_byte. *)
Fixpoint reexecute_byte (fuel : nat) x (ch : Z) : outcome (ctl * exec A) :=
  match fuel with
  | O => Trap OutOfFuel
  | S fuel =>
      s ← switch (x_parser x) ch (len - x_p x);
      perform (fun x => reexecute_byte fuel x ch) (apply_stmt x s) (st_act s)
  end.

(** The longest way through reexecute_byte: s_header_value_lws,
    s_header_field_start, s_headers_almost_done, s_headers_done. *)
Definition reexecutions : nat := 4.

(** The callbacks for the marks left at the end of the data. *)
Definition leftover x : outcome (Z * http_parser * A) :=
  let set k := match get_mark (x_marks x) k with Some _ => 1 | None => 0 end in
  guard_trap (set K_header_field + set K_header_value + set K_url + set K_body <=? 1) AssertFailed
   (let call k x (rest : exec A -> outcome (Z * http_parser * A)) :=
      r ← CALLBACK_DATA_ k (x_p x) (x_p x) x;
      match r : option Z * exec A with
      | (Some er, x) => Ok (er, x_parser x, x_user x)
      | (None, x) => rest x
      end in
    call K_header_field x (fun x => call K_header_value x (fun x => call K_url x (fun x =>
    call K_body x (fun x => Ok (len, x_parser x, x_user x)))))).

(** The error label. *)
Definition error_label x : Z * http_parser * A :=
  (x_p x,
   (if is_ok (http_errno (x_parser x)) then set_http_errno (x_parser x) HPE_UNKNOWN else x_parser x),
   x_user x).

(** [++parser->nread] and its limit: whether it holds. *)
Definition count_header (p : http_parser) : bool * http_parser :=
  if PARSING_HEADER (pstate p) then
    let p := set_nread p (u32 (nread p + 1)) in
    if HTTP_MAX_HEADER_SIZE <? nread p then (false, set_http_errno p HPE_HEADER_OVERFLOW) else (true, p)
  else (true, p).

Fixpoint bytes_loop (fuel : nat) x : outcome (Z * http_parser * A) :=
  match fuel with
  | O => Trap OutOfFuel
  | S fuel =>
      if x_p x =? len then leftover x else
      ch ← load data (x_p x);
      let '(fits, p) := count_header (x_parser x) in
      let x := with_parser x p in
      if negb fits then Ok (error_label x) else
      r ← reexecute_byte reexecutions x ch;
      match r : ctl * exec A with
      | (Next, x) => bytes_loop fuel (mkExec (x_parser x) (x_user x) (x_p x + 1) (x_marks x))
      | (Return v, x) => Ok (v, x_parser x, x_user x)
      | (ErrorLabel, x) => Ok (error_label x)
      end
  end.

(** The marks a call starts with: the data it continues. *)
Definition first_marks (s : state) : marks :=
  match s with
  | s_header_field => mkMarks (Some 0) None None None
  | s_header_value => mkMarks None (Some 0) None None
  | s_req_path | s_req_schema | s_req_schema_slash | s_req_schema_slash_slash | s_req_server_start
  | s_req_server | s_req_server_with_at | s_req_query_string_start | s_req_query_string
  | s_req_fragment_start | s_req_fragment => mkMarks None None (Some 0) None
  | _ => mkMarks None None None None
  end.

(** The end of the stream. *)
Definition execute_eof (parser : http_parser) (a : A) : outcome (Z * http_parser * A) :=
  match pstate parser with
  | s_body_identity_eof =>
      r ← CALLBACK_NOTIFY_ N_message_complete 0 (mkExec parser a 0 (mkMarks None None None None));
      Ok (0, x_parser (snd r), x_user (snd r))
  | s_dead | s_start_req_or_res | s_start_res | s_start_req => Ok (0, parser, a)
  | _ => Ok (1, set_http_errno parser HPE_INVALID_EOF_STATE, a)
  end.

(** The number of bytes parsed, the parser and the application's state. *)
Definition http_parser_execute (parser : http_parser) (a : A) : outcome (Z * http_parser * A) :=
  if negb (is_ok (http_errno parser)) then Ok (0, parser, a)
  else if len =? 0 then execute_eof parser a
  else bytes_loop (S (length data)) (mkExec parser a 0 (first_marks (pstate parser))).

End Execute.
