(* ===== verification/HttpFacts.v ===== *)
(** * Facts about the HTTP parser

    The invariant of the parser between bytes, what each case of the switch does
    to it, and the rule for running the parser: given conditions on the
    application's callbacks for each part of a message, http_parser_execute
    returns, with no assertion failed and no access out of bounds, and has called
    the callbacks in the order of a message. *)

From S2P Require Import Prelude HttpParser.

(** Unfold the setters and reduce the projections. *)
Ltac hp_cbn :=
  unfold leave, brk, brk_to, fail, finish_message, add_flag,
    set_ptype, set_flags, set_pstate, set_header_state, set_index, set_nread, set_content_length,
    set_http_major, set_http_minor, set_status_code, set_method, set_http_errno, set_upgrade in *;
  cbn [ptype flags pstate header_state index nread content_length http_major http_minor status_code
       method http_errno upgrade st_parser st_mark st_skip st_act] in *.

(** The same where the parser is a concrete record: inner setters first. *)
Ltac hp_cbv :=
  cbv beta iota zeta delta
    [leave brk brk_to fail finish_message add_flag
     set_ptype set_flags set_pstate set_header_state set_index set_nread set_content_length
     set_http_major set_http_minor set_status_code set_method set_http_errno set_upgrade
     ptype flags pstate header_state index nread content_length http_major http_minor status_code
     method http_errno upgrade st_parser st_mark st_skip st_act] in *.

(** ** The parts of a message *)

Inductive part : Set := Idle | Line | Head | Body.

Definition part_of (s : state) : part :=
  match s with
  | s_dead | s_start_req_or_res | s_start_res | s_start_req => Idle
  | s_header_field_start | s_header_field | s_header_value_start | s_header_value
  | s_header_value_lws | s_header_almost_done | s_headers_almost_done => Head
  | s_chunk_size_start | s_chunk_size | s_chunk_parameters | s_chunk_size_almost_done
  | s_headers_done | s_chunk_data | s_chunk_data_almost_done | s_chunk_data_done
  | s_body_identity | s_body_identity_eof | s_message_done => Body
  | _ => Line
  end.

(** What the application has seen: nothing of the next message, its head, or
    the end of its headers (trailers of a chunked body come after that). *)
Inductive phase : Set := PIdle | PHead | PTail.

Definition phase_of (p : http_parser) : phase :=
  match part_of (pstate p) with
  | Idle => PIdle
  | Line => PHead
  | Head => if has_flag p F_TRAILING then PTail else PHead
  | Body => PTail
  end.

(** ** The invariant *)

(** How far the index may be in the states that match a word. *)
Definition index_ok (p : http_parser) : Prop :=
  0 <= index p /\
  match header_state p with
  | h_C => index p = 0 | h_CO => index p = 1 | h_CON => index p = 2
  | h_matching_connection => index p < 10 | h_matching_proxy_connection => index p < 16
  | h_matching_content_length => index p < 14 | h_matching_transfer_encoding => index p < 17
  | h_matching_upgrade => index p < 7
  | h_matching_transfer_encoding_chunked => index p < 7
  | h_matching_connection_keep_alive => index p < 10
  | h_matching_connection_close => index p < 5
  | _ => True
  end.

Definition field_state (h : header_states) : bool :=
  match h with
  | h_matching_transfer_encoding_chunked | h_matching_connection_keep_alive | h_matching_connection_close
  | h_transfer_encoding_chunked | h_connection_keep_alive | h_connection_close => false
  | _ => true
  end.

Definition value_state (h : header_states) : bool :=
  match h with h_connection | h_transfer_encoding => false | _ => true end.

Definition state_ok (p : http_parser) : Prop :=
  match pstate p with
  | s_req_method =>
      exists w, method_strings !! Z.to_nat (method p) = Some w /\ 1 <= index p <= Z.of_nat (length w)
  | s_header_field => field_state (header_state p) = true /\ index_ok p
  | s_header_value =>
      value_state (header_state p) = true /\ index_ok p
      /\ (header_state p = h_content_length -> content_length p < ULLONG_MAX)
  | s_chunk_size_start => nread p = 0 /\ has_flag p F_CHUNKED = true
  | s_chunk_size | s_chunk_parameters | s_chunk_size_almost_done =>
      has_flag p F_CHUNKED = true /\ content_length p < ULLONG_MAX
  | s_chunk_data => has_flag p F_CHUNKED = true /\ 0 < content_length p < ULLONG_MAX
  | s_chunk_data_almost_done => has_flag p F_CHUNKED = true /\ content_length p = 0
  | s_chunk_data_done => has_flag p F_CHUNKED = true
  | s_body_identity => 0 < content_length p < ULLONG_MAX
  | _ => True
  end.

Record parser_ok (p : http_parser) : Prop := {
  ok_nread : 0 <= nread p <= HTTP_MAX_HEADER_SIZE;
  ok_length : 0 <= content_length p <= ULLONG_MAX;
  ok_line : part_of (pstate p) = Line -> has_flag p F_TRAILING = false;
  ok_state : state_ok p }.

Lemma parser_init_ok t : parser_ok (http_parser_init t).
Proof. by destruct t; split; vm_compute. Qed.

(** During a byte the count of header bytes has gone up: the first byte of a
    chunk size is the first one counted. *)
Record byte_ok (p : http_parser) : Prop := {
  bo_nread : 0 <= nread p <= HTTP_MAX_HEADER_SIZE;
  bo_length : 0 <= content_length p <= ULLONG_MAX;
  bo_line : part_of (pstate p) = Line -> has_flag p F_TRAILING = false;
  bo_state : pstate p <> s_chunk_size_start -> state_ok p;
  bo_chunk : pstate p = s_chunk_size_start -> nread p = 1 /\ has_flag p F_CHUNKED = true }.

(** ** Marks

    Which piece of data a state is in the middle of. *)
Definition mark_class (s : state) : option mark_kind :=
  match s with
  | s_header_field => Some K_header_field
  | s_header_value => Some K_header_value
  | s_req_schema | s_req_schema_slash | s_req_schema_slash_slash | s_req_server_start
  | s_req_server | s_req_server_with_at | s_req_path | s_req_query_string_start | s_req_query_string
  | s_req_fragment_start | s_req_fragment => Some K_url
  | s_chunk_data | s_chunk_data_almost_done | s_body_identity | s_body_identity_eof => Some K_body
  | _ => None
  end.

(** How many times a byte may be executed again from a state. *)
Definition rank (s : state) : nat :=
  match s with
  | s_header_value_lws => 3
  | s_header_field_start => 2
  | s_headers_almost_done | s_header_value | s_body_identity | s_start_req_or_res => 1
  | _ => 0
  end.

(** What the parts of a message allow a case to do, by how it leaves. *)
Definition flow (p : http_parser) (s : stmt) : Prop :=
  let p' := st_parser s in
  let c := mark_class (pstate p) in
  let c' := mark_class (pstate p') in
  match st_act s with
  | Error => True
  | Break =>
      phase_of p' = phase_of p /\
      (match st_mark s with
       | Some k => ((c = None /\ k <> K_body) \/ c = Some k) /\ c' = Some k
       | None => c' = c \/ (c = None /\ c' = Some K_body)
       end)
  | Reexecute =>
      phase_of p' = phase_of p /\ st_mark s = None /\ c = None /\ c' = None
  | Notify N_message_begin _ =>
      phase_of p = PIdle /\ (phase_of p' = PHead \/ phase_of p' = PIdle) /\
      st_mark s = None /\ c = None /\ c' = None
  | Notify N_message_complete _ =>
      phase_of p = PTail /\ phase_of p' = PIdle /\ st_mark s = None /\ c = None /\ c' = None
  | HeadersComplete =>
      phase_of p = PHead /\ pstate p' = s_headers_done /\ st_mark s = None /\ c = None
  | Data k extra _ _ =>
      phase_of p' = phase_of p /\ phase_of p <> PIdle /\
      (k = K_url -> phase_of p = PHead) /\ (k = K_body -> phase_of p = PTail) /\
      0 <= extra <= 1 /\
      c' = None /\ (c = Some k \/ (c = None /\ st_mark s = Some k)) /\ (st_mark s = None \/ st_mark s = Some k)
  end.

(** The cases after which the byte is executed again. *)
Definition reenters (a : action) : bool :=
  match a with Reexecute | HeadersComplete | Data _ _ _ true => true | _ => false end.

Record case_ok (p : http_parser) (avail : Z) (s : stmt) : Prop := {
  co_skip : 0 <= st_skip s < avail;
  co_flow : flow p s;
  co_again : reenters (st_act s) = true ->
    (rank (pstate (st_parser s)) < rank (pstate p))%nat /\ pstate (st_parser s) <> s_chunk_size_start;
  co_errno : st_act s <> Error -> http_errno (st_parser s) = http_errno p;
  co_parser : st_act s <> Error -> parser_ok (st_parser s) }.

Definition returns_ok (p : http_parser) (avail : Z) (m : outcome stmt) : Prop :=
  exists s, m = Ok s /\ case_ok p avail s.

(** ** The cases *)

Lemma has_flag_add p f g : has_flag (add_flag p f) g = has_flag p g || negb (Z.land f g =? 0).
Proof.
  unfold has_flag, add_flag, set_flags. cbn [flags]. rewrite Z.land_lor_distr_l.
  destruct (Z.eqb_spec (Z.land (flags p) g) 0) as [->|Hp].
  - by rewrite Z.lor_0_l.
  - destruct (Z.eqb_spec (Z.lor (Z.land (flags p) g) (Z.land f g)) 0) as [H|]; [|done].
    apply Z.lor_eq_0_iff in H. tauto.
Qed.

Lemma NEW_MESSAGE_idle p : part_of (NEW_MESSAGE p) = Idle.
Proof. unfold NEW_MESSAGE, start_state. by destruct (http_should_keep_alive p), (ptype p). Qed.

Lemma count_header_ok p p' : parser_ok p -> count_header p = (true, p') ->
  byte_ok p' /\ pstate p' = pstate p /\ phase_of p' = phase_of p /\ http_errno p' = http_errno p.
Proof.
  intros [Hn Hl Hline Hs]. unfold count_header. destruct (PARSING_HEADER (pstate p)) eqn:Hh.
  - assert (Hu : u32 (nread p + 1) = nread p + 1) by (apply u32_small; unfold HTTP_MAX_HEADER_SIZE in *; lia).
    hp_cbn. rewrite Hu. destruct (Z.ltb_spec HTTP_MAX_HEADER_SIZE (nread p + 1)); [done|].
    intros [= <-]. split; [|done]. split; hp_cbn; try done; try lia.
    + intros Hne. unfold state_ok in *. hp_cbn. by destruct (pstate p).
    + unfold state_ok in Hs. intros He. rewrite He in Hs. destruct Hs. split; [lia|done].
  - intros [= <-]. split; [|done]. split; try done. intros He. by rewrite He in Hh.
Qed.

(** Split the tests of a case; the value of a test is kept for [lia]. *)
Ltac split_tests :=
  repeat match goal with
  | |- context [if ?b then _ else _] => let E := fresh "E" in destruct b eqn:E
  end.

(** The pieces of [case_ok] once the case is a concrete statement. *)
Ltac case_pieces :=
  hp_cbn; unfold phase_of in *; hp_cbn; cbn [part_of mark_class rank reenters] in *; unfold has_flag in *; hp_cbn;
  repeat match goal with
  | H : Line = Line -> _ |- _ => specialize (H eq_refl)
  | H : Line = Line -> _ |- _ => rewrite H
  | H : negb (Z.land _ _ =? 0) = _ |- context [negb (Z.land _ _ =? 0)] => rewrite H
  end;
  try done; try lia.

Ltac case_done :=
  eexists; split; [reflexivity|]; split;
  [ hp_cbn; lia
  | unfold flow; case_pieces; try (split_and!; auto; try done; try lia)
  | intros Hre; first [ discriminate Hre | case_pieces; split; [lia|done] ]
  | first [ intros Hne; destruct (Hne eq_refl) | intros _; hp_cbn; done ]
  | first [ intros Hne; destruct (Hne eq_refl)
          | intros _; split; [ case_pieces | case_pieces | case_pieces | unfold state_ok; case_pieces ] ] ];
  try (eexists; split; [reflexivity|cbn; lia]).

(** The states before the headers. *)
Definition plain (s : state) : bool :=
  match s with
  | s_dead | s_start_req_or_res | s_res_or_resp_H | s_start_res | s_res_H | s_res_HT | s_res_HTT | s_res_HTTP
  | s_res_first_http_major | s_res_http_major | s_res_first_http_minor | s_res_http_minor
  | s_res_first_status_code | s_res_status_code | s_res_status | s_res_line_almost_done
  | s_req_http_start | s_req_http_H | s_req_http_HT | s_req_http_HTT | s_req_http_HTTP
  | s_req_first_http_major | s_req_http_major | s_req_first_http_minor | s_req_http_minor
  | s_req_line_almost_done => true
  | _ => false
  end.

Lemma plain_ok p ch avail : plain (pstate p) = true -> byte_ok p -> 1 <= avail ->
  returns_ok p avail (switch p ch avail).
Proof.
  intros Hp [Hn Hl Hline _ _] Ha. destruct p as [ty fl st hs ix nr cl ma mi sc me en up]. hp_cbn.
  destruct st; try discriminate Hp; clear Hp;
    unfold switch; hp_cbn;
    unfold case_dead, case_start_req_or_res, case_res_or_resp_H, case_start_res, expect,
      case_res_first_http_major, case_res_http_major, case_res_first_http_minor, case_res_http_minor,
      case_res_first_status_code, case_res_status_code, case_res_status, case_req_http_start,
      case_req_first_http_major, case_req_http_major, case_req_first_http_minor, case_req_http_minor,
      case_req_line_almost_done, more_major, more_minor; hp_cbn; unfold returns_ok;
    split_tests; case_done.
Qed.

(** *** Request lines *)

Lemma parse_url_char_class s ch :
  parse_url_char s ch = s_dead \/ mark_class (parse_url_char s ch) = Some K_url.
Proof. unfold parse_url_char. destruct s; split_tests; auto. Qed.

Lemma url_char_ok p s ch avail :
  byte_ok p -> part_of (pstate p) = Line -> mark_class (pstate p) = Some K_url -> 1 <= avail ->
  returns_ok p avail (url_char p s ch).
Proof.
  intros [Hn Hl Hline _ _] Hp Hm Ha. unfold url_char. hp_cbn. specialize (Hline Hp).
  destruct (parse_url_char_class s ch) as [Hd|Hd]; [rewrite Hd; case_done|].
  destruct (parse_url_char s ch); try discriminate Hd; clear Hd; unfold returns_ok;
    (eexists; split; [reflexivity|]; split;
      [ hp_cbn; lia
      | unfold flow, phase_of; hp_cbn; rewrite Hp, Hm; cbn; auto
      | done | done | intros _; split; done ]).
Qed.

(** The same from the blanks before the URL, where the mark is set. *)
Lemma url_first_ok p s ch avail :
  byte_ok p -> pstate p = s_req_spaces_before_url -> 1 <= avail ->
  returns_ok p avail (MARK K_url (url_char p s ch)).
Proof.
  intros [Hn Hl Hline _ _] Hp Ha. unfold url_char. hp_cbn. rewrite Hp in Hline. specialize (Hline eq_refl).
  destruct (parse_url_char_class s ch) as [Hd|Hd]; [rewrite Hd; unfold MARK; cbn [mbind outcome_bind]; case_done|].
  destruct (parse_url_char s ch); try discriminate Hd; clear Hd; unfold returns_ok, MARK; cbn [mbind outcome_bind];
    (eexists; split; [reflexivity|]; split;
      [ hp_cbn; lia
      | unfold flow, phase_of; hp_cbn; rewrite Hp; cbn; auto
      | done | done | intros _; split; done ]).
Qed.

Lemma first_method_valid ch m : first_method ch = Some m ->
  exists w, method_strings !! Z.to_nat m = Some w /\ 1 <= Z.of_nat (length w).
Proof. unfold first_method. split_tests; intros [= <-]; (eexists; split; [reflexivity|cbn; lia]). Qed.

Lemma method_strings_long n w : method_strings !! n = Some w -> 3 <= Z.of_nat (length w) <= 12.
Proof.
  intros H. assert (Hall : Forall (fun w : bytes => 3 <= Z.of_nat (length w) <= 12) method_strings)
    by (decide_vm). by apply (Forall_lookup_1 _ _ _ _ Hall H).
Qed.

(** Every change of method is to one with more letters to come. *)
Lemma other_method_valid m i ch m' w :
  other_method m i ch = inr m' -> method_strings !! Z.to_nat m = Some w -> 1 <= i <= Z.of_nat (length w) ->
  exists w', method_strings !! Z.to_nat m' = Some w' /\ i + 1 <= Z.of_nat (length w').
Proof.
  intros Ho Hw Hi. pose proof (method_strings_long _ _ Hw) as Hlw. revert Ho. unfold other_method.
  split_tests; intros [= <-];
    first [ by (exists w; split; [done|lia])
          | eexists; split; [reflexivity|cbn; lia] ].
Qed.

Lemma load_word (w : bytes) i : 0 <= i <= Z.of_nat (length w) -> exists c, load (w ++ [0]) i = Ok c.
Proof.
  intros Hi. unfold load. decide_tests.
  destruct (lookup_lt_is_Some_2 (w ++ [0]) (Z.to_nat i)) as [c ->]; [|eauto].
  rewrite length_app. cbn [length]. lia.
Qed.

Lemma load_word_end (w : bytes) i : no_nul w -> 0 <= i <= Z.of_nat (length w) ->
  load (w ++ [0]) i = Ok 0 -> i = Z.of_nat (length w).
Proof.
  intros Hw Hi. unfold load. decide_tests. destruct (decide (i < Z.of_nat (length w))); [|lia].
  rewrite lookup_app_l by lia. destruct (w !! Z.to_nat i) as [c|] eqn:E; [|done].
  intros [= ->]. by apply (Forall_lookup_1 _ _ _ _ Hw) in E.
Qed.

Lemma method_no_nul n w : method_strings !! n = Some w -> no_nul w.
Proof.
  intros H. assert (Hall : Forall no_nul method_strings) by (unfold no_nul; decide_vm).
  by apply (Forall_lookup_1 _ _ _ _ Hall H).
Qed.

Lemma req_method_ok p ch avail : byte_ok p -> pstate p = s_req_method -> 1 <= avail ->
  returns_ok p avail (case_req_method p ch).
Proof.
  intros [Hn Hl Hline Hs _] Hp Ha. destruct p as [ty fl st hs ix nr cl ma mi sc me en up]. hp_cbn. subst st.
  specialize (Hline eq_refl). specialize (Hs ltac:(done)). unfold state_ok in Hs. hp_cbn.
  destruct Hs as (w & Hw & Hi). unfold case_req_method. hp_cbn. rewrite Hw.
  pose proof (method_strings_long _ _ Hw).
  destruct (Z.eqb_spec ch 0) as [|Hch]; [case_done|].
  destruct (load_word w ix ltac:(lia)) as [c Hc]. rewrite Hc. cbn [mbind outcome_bind].
  assert (Hu : u8 (ix + 1) = ix + 1) by (apply uwrap_small; lia).
  destruct ((ch =? SP) && (c =? 0)) eqn:E1; [case_done|].
  destruct (Z.eqb_spec ch c) as [Hcc|Hcc].
  - unfold returns_ok. eexists; split; [reflexivity|].
    split; try done; [hp_cbn; lia|unfold flow; case_pieces; auto|].
    intros _. split; try done. exists w. hp_cbn. split; [done|].
    destruct (decide (ix = Z.of_nat (length w))) as [->|]; [|lia].
    exfalso. apply Hch. subst c. rewrite (load_app w [] 0) in Hc by lia. by injection Hc as <-.
  - destruct (other_method me ix ch) as [e|m'] eqn:Eo; [destruct e; case_done|].
    destruct (other_method_valid _ _ _ _ _ Eo Hw Hi) as (w' & Hw' & Hi').
    unfold returns_ok. eexists; split; [reflexivity|].
    split; try done; [hp_cbn; lia|unfold flow; case_pieces; auto|].
    intros _. split; try done. exists w'. hp_cbn. split; [done|lia].
Qed.

Lemma req_schema_ok p ch avail :
  byte_ok p -> part_of (pstate p) = Line -> mark_class (pstate p) = Some K_url -> 1 <= avail ->
  returns_ok p avail (case_req_schema p ch).
Proof.
  intros Hb Hp Hm Ha. unfold case_req_schema. destruct (_ || _); [|by apply url_char_ok].
  eexists; split; [reflexivity|]. split; try done. hp_cbn. lia.
Qed.

(** The end of a URL: its data and the next state. *)
Lemma url_end_ok p q avail :
  byte_ok p -> part_of (pstate p) = Line -> mark_class (pstate p) = Some K_url -> 1 <= avail ->
  flags q = flags p -> http_errno q = http_errno p -> nread q = nread p -> content_length q = content_length p ->
  match pstate q with s_req_http_start | s_req_line_almost_done | s_header_field_start => true | _ => false end = true ->
  returns_ok p avail (leave q (Data K_url 0 true false)).
Proof.
  intros [Hn Hl Hline _ _] Hp Hm Ha Hfl He Hnr Hcl Hq. specialize (Hline Hp).
  assert (Hfq : has_flag q F_TRAILING = false) by (unfold has_flag in *; by rewrite Hfl).
  eexists; split; [reflexivity|]. split; try done; [hp_cbn; lia| |].
  - unfold flow, phase_of. hp_cbn. rewrite Hp, Hm.
    destruct (pstate q); try discriminate Hq; cbn [part_of mark_class]; rewrite ?Hfq; split_and!; try done; auto; lia.
  - intros _. hp_cbn. split; rewrite ?Hnr, ?Hcl; try done.
    unfold state_ok. by destruct (pstate q).
Qed.

Lemma req_url_ok p ch avail :
  byte_ok p -> part_of (pstate p) = Line -> mark_class (pstate p) = Some K_url -> 1 <= avail ->
  returns_ok p avail (case_req_url p ch).
Proof.
  intros Hb Hp Hm Ha. unfold case_req_url.
  destruct (ch =? SP); [by apply url_end_ok|].
  destruct (_ || _); [apply url_end_ok; try done; by destruct (ch =? CR)|by apply url_char_ok].
Qed.

Lemma start_req_ok p ch avail : byte_ok p -> pstate p = s_start_req -> 1 <= avail ->
  returns_ok p avail (case_start_req p ch).
Proof.
  intros [Hn Hl _ _ _] Hp Ha. destruct p as [ty fl st hs ix nr cl ma mi sc me en up]. hp_cbn. subst st.
  unfold case_start_req. hp_cbv. split_tests; try case_done.
  destruct (first_method ch) as [m|] eqn:Em; [|case_done].
  apply first_method_valid in Em. unfold returns_ok. eexists; split; [reflexivity|].
  split; try done; [hp_cbn; lia|unfold flow; case_pieces; auto|]. intros _. split; try done.
  unfold state_ok. hp_cbn. destruct Em as (w & ? & ?). exists w. split; [done|lia].
Qed.

Lemma spaces_ok p ch avail : byte_ok p -> pstate p = s_req_spaces_before_url -> 1 <= avail ->
  returns_ok p avail (case_req_spaces_before_url p ch).
Proof.
  intros Hb Hp Ha. unfold case_req_spaces_before_url. destruct (ch =? SP); [|by apply url_first_ok].
  destruct Hb as [Hn Hl Hline _ _].
  destruct p as [ty fl st hs ix nr cl ma mi sc me en up]. hp_cbn. subst st. case_done.
Qed.


(** *** Header fields *)

(** One more character of a word: no access past its end, and the index stays
    below the length while the match goes on. *)
Lemma matching_ok (word : bytes) full p c :
  0 <= index p < Z.of_nat (length word) -> Z.of_nat (length word) <= 250 -> c <> 0 ->
  exists p', matching word full p c = Ok p' /\
    (p' = set_header_state (set_index p (index p + 1)) h_general
     \/ p' = set_header_state (set_index p (index p + 1)) full
     \/ (p' = set_index p (index p + 1) /\ index p + 1 < Z.of_nat (length word))).
Proof.
  intros Hi Hl Hc. unfold matching.
  assert (Hu : u8 (index p + 1) = index p + 1) by (apply uwrap_small; lia).
  hp_cbn. rewrite Hu. decide_tests.
  destruct (load_word word (index p + 1) ltac:(lia)) as [w Hw]. rewrite Hw. cbn [mbind outcome_bind].
  eexists. split; [reflexivity|].
  destruct (Z.eqb_spec c w) as [->|]; cbn [negb]; [|auto].
  destruct (Z.eqb_spec (index p + 1) (Z.of_nat (length word) + 1 - 2)); [auto|].
  right; right. split; [done|].
  destruct (decide (index p + 1 = Z.of_nat (length word))) as [He|]; [|lia].
  exfalso. apply Hc. rewrite He, (load_app word [] 0) in Hw by lia. by injection Hw as <-.
Qed.

(** A case that only moves the index and the state of the header stays in a
    name or a value. *)
Lemma header_break_ok p q avail :
  byte_ok p -> 1 <= avail -> flags q = flags p -> http_errno q = http_errno p -> nread q = nread p ->
  0 <= content_length q <= ULLONG_MAX -> pstate q = pstate p -> part_of (pstate p) = Head -> state_ok q ->
  returns_ok p avail (brk q).
Proof.
  intros [Hn Hl _ _ _] Ha Hfl He Hnr Hcl Hs Hp Hq.
  assert (Hfq : has_flag q F_TRAILING = has_flag p F_TRAILING) by (unfold has_flag; by rewrite Hfl).
  eexists; split; [reflexivity|]. split; try done; [hp_cbn; lia| |].
  - unfold flow, phase_of. hp_cbn. rewrite Hs, Hp, Hfq. auto.
  - intros _. hp_cbn. split; rewrite ?Hnr, ?Hs, ?Hp; try done.
Qed.

(** The new index and header state of a match. *)
Lemma matching_index (word : bytes) full p c :
  0 <= index p < Z.of_nat (length word) -> Z.of_nat (length word) <= 250 -> c <> 0 ->
  exists h i, matching word full p c = Ok (set_header_state (set_index p i) h) /\ 0 <= i /\
    (h = h_general \/ h = full \/ (h = header_state p /\ i < Z.of_nat (length word))).
Proof.
  intros Hi Hl Hc. destruct (matching_ok word full p c Hi Hl Hc) as (p' & -> & [->|[->|[-> Hlt]]]).
  - exists h_general, (index p + 1). split_and!; auto; lia.
  - exists full, (index p + 1). split_and!; auto; lia.
  - exists (header_state p), (index p + 1). split_and!; auto; lia.
Qed.

(** The two kinds of step in a name or value that is compared with a word. *)
Ltac match_word word full :=
  match goal with
  | Eh : header_state ?p = _, Hc : ?c <> 0 |- context [matching word full ?p ?c] =>
      let h := fresh "h" in let i := fresh "i" in let Hh := fresh "Hh" in
      destruct (matching_index word full p c) as (h & i & -> & ? & Hh); [cbn; lia|cbn; lia|done|];
      exists h, i; rewrite Eh in Hh;
      destruct Hh as [->|[->|[-> ?]]]; hp_cbn; split_and!; try done; cbn in *; lia
  end.
Ltac word_done full :=
  match goal with
  | |- context [negb (?ch =? SP)] =>
      match goal with
      | Eh : header_state ?p = _ |- _ =>
          exists (if negb (ch =? SP) then h_general else full), (index p);
          split; [destruct (negb (ch =? SP)); [by destruct p|auto]|]; hp_cbn; destruct (negb (ch =? SP)); auto
      end
  end.

Lemma field_char_ok p ch c :
  field_state (header_state p) = true -> index_ok p -> c <> 0 ->
  exists h i, field_char p ch c = Ok (set_header_state (set_index p i) h) /\
    field_state h = true /\ index_ok (set_header_state (set_index p i) h).
Proof.
  intros Hf [Hi0 Hi] Hc. unfold field_char, index_ok.
  assert (Hu : index p < 20 -> u8 (index p + 1) = index p + 1) by (intros; apply uwrap_small; lia).
  assert (Hid : forall h, header_state p = h -> Ok p = Ok (set_header_state (set_index p (index p)) h))
    by (intros h <-; by destruct p).
  destruct (header_state p) eqn:Eh; try discriminate Hf.
  - exists h_general, (index p). auto.
  - exists (if c =? 111 then h_CO else h_general), (index p + 1).
    rewrite Hu by lia. hp_cbn. split_and!; try done; split_tests; lia || done.
  - exists (if c =? 110 then h_CON else h_general), (index p + 1).
    rewrite Hu by lia. hp_cbn. split_and!; try done; split_tests; lia || done.
  - exists (if c =? 110 then h_matching_connection else if c =? 116 then h_matching_content_length else h_general),
      (index p + 1).
    rewrite Hu by lia. hp_cbn. split_and!; try done; split_tests; lia || done.
  - match_word CONNECTION h_connection.
  - match_word PROXY_CONNECTION h_connection.
  - match_word CONTENT_LENGTH h_content_length.
  - match_word TRANSFER_ENCODING h_transfer_encoding.
  - match_word UPGRADE h_upgrade.
  - word_done h_connection.
  - word_done h_content_length.
  - word_done h_transfer_encoding.
  - word_done h_upgrade.
Qed.

Lemma header_field_ok p ch avail : byte_ok p -> pstate p = s_header_field -> 1 <= avail ->
  returns_ok p avail (case_header_field p ch).
Proof.
  intros Hb Hp Ha. unfold case_header_field. pose proof Hb as [Hn Hl _ Hs _].
  rewrite Hp in Hs. specialize (Hs ltac:(done)). unfold state_ok in Hs. rewrite Hp in Hs. destruct Hs as [Hf Hi].
  destruct (Z.eqb_spec (TOKEN ch) 0) as [Ht|Ht]; cbn [negb].
  - clear Hi Hf Hb. destruct p as [ty fl st hs ix nr cl ma mi sc me en up]. hp_cbn. subst st.
    split_tests; case_done; by split_tests.
  - destruct (field_char_ok p ch (TOKEN ch) Hf Hi Ht) as (h & i & -> & Hf' & Hi'). cbn [mbind outcome_bind].
    apply header_break_ok; try done; [by rewrite Hp|].
    unfold state_ok. hp_cbn. by rewrite Hp.
Qed.

Lemma header_field_start_ok p ch avail : byte_ok p -> pstate p = s_header_field_start -> 1 <= avail ->
  returns_ok p avail (case_header_field_start p ch).
Proof.
  intros [Hn Hl _ _ _] Hp Ha. unfold case_header_field_start.
  destruct p as [ty fl st hs ix nr cl ma mi sc me en up]. hp_cbn. subst st. unfold MARK, index_ok.
  cbn [mbind outcome_bind]. hp_cbv. unfold returns_ok. split_tests; cbn [mbind outcome_bind]; case_done;
    try (unfold index_ok; hp_cbn; split_and!; done || lia); auto.
Qed.

(** The first character of a value. *)
Lemma value_mark_ok p q avail :
  byte_ok p -> 1 <= avail -> pstate p = s_header_value_start -> pstate q = s_header_value ->
  has_flag q F_TRAILING = has_flag p F_TRAILING -> http_errno q = http_errno p -> nread q = nread p ->
  0 <= content_length q <= ULLONG_MAX -> state_ok q ->
  returns_ok p avail (MARK K_header_value (brk q)).
Proof.
  intros [Hn Hl _ _ _] Ha Hp Hq Hfl He Hnr Hcl Hs.
  eexists; split; [reflexivity|]. split; try done; [hp_cbn; lia| |].
  - unfold flow, phase_of. hp_cbn. rewrite Hp, Hq. cbn [part_of mark_class]. rewrite Hfl. auto.
  - intros _. hp_cbn. split; rewrite ?Hnr, ?Hq; try done.
Qed.

Lemma header_value_start_ok p ch avail : byte_ok p -> pstate p = s_header_value_start -> 1 <= avail ->
  returns_ok p avail (case_header_value_start p ch).
Proof.
  intros Hb Hp Ha. pose proof Hb as [Hn Hl _ _ _]. unfold case_header_value_start.
  destruct p as [ty fl st hs ix nr cl ma mi sc me en up]. hp_cbn. subst st.
  destruct ((ch =? SP) || (ch =? HT)); [case_done|].
  destruct (ch =? CR); [unfold MARK; cbn [mbind outcome_bind]; case_done; by split_tests|].
  destruct (ch =? LF); [unfold MARK; cbn [mbind outcome_bind]; case_done; by split_tests|].
  assert (Hnum : IS_NUM ch = true -> 0 <= ch - 48 < 10) by (unfold IS_NUM; lia).
  destruct hs; hp_cbv; try (apply value_mark_ok; try done; unfold state_ok, index_ok; hp_cbn; split_tests; split_and!; done).
  - unfold ULLONG_MAX in *. destruct (IS_NUM ch); cbn [negb].
    + apply value_mark_ok; try done; hp_cbn; [unfold ULLONG_MAX; lia|].
      unfold state_ok, index_ok, ULLONG_MAX. hp_cbn. split_and!; try done. intros. lia.
    + unfold MARK. cbn [mbind outcome_bind]. case_done.
  - apply value_mark_ok; try done.
    etransitivity; [apply (has_flag_add (mkParser ty fl s_header_value h_upgrade 0 nr cl ma mi sc me en up) F_UPGRADE)|].
    by rewrite orb_false_r.
Qed.

Lemma more_length_ok p base d avail :
  byte_ok p -> 1 <= avail ->
  (forall t, 0 <= t < ULLONG_MAX -> returns_ok p avail (brk (set_content_length p t))) ->
  returns_ok p avail (more_length p base d).
Proof.
  intros Hb Ha Hgo. unfold more_length.
  pose proof (uwrap_range 64 (u64 (content_length p * base) + d)).
  destruct (_ || _) eqn:E.
  - eexists; split; [reflexivity|]. split; try done. hp_cbn. lia.
  - apply Hgo. unfold ULLONG_MAX in *. lia.
Qed.

(** A value that is compared with a word. *)
Lemma value_char_ok word full p c avail :
  byte_ok p -> pstate p = s_header_value -> 1 <= avail ->
  0 <= index p < Z.of_nat (length word) -> Z.of_nat (length word) <= 250 -> c <> 0 ->
  match full with h_transfer_encoding_chunked | h_connection_keep_alive | h_connection_close => true | _ => false end = true ->
  match header_state p with
  | h_matching_transfer_encoding_chunked => Z.of_nat (length word) = 7
  | h_matching_connection_keep_alive => Z.of_nat (length word) = 10
  | h_matching_connection_close => Z.of_nat (length word) = 5
  | _ => False
  end ->
  returns_ok p avail (p ← matching word full p c; brk p).
Proof.
  intros Hb Hp Ha Hi Hl Hc Hfull Hlen.
  destruct (matching_index word full p c Hi Hl Hc) as (h & i & -> & Hi0 & Hh). cbn [mbind outcome_bind].
  apply header_break_ok; try done; [apply Hb|by rewrite Hp|].
  unfold state_ok, index_ok. hp_cbn. rewrite Hp.
  destruct Hh as [->|[->|[-> Hlt]]]; [by split_and!|by destruct full; split_and!|].
  destruct (header_state p); try done; split_and!; try done; lia.
Qed.

Lemma LOWER_nonzero c : LOWER c <> 0.
Proof. unfold LOWER. intros H. apply Z.lor_eq_0_iff in H. lia. Qed.

Lemma header_value_ok p ch avail : byte_ok p -> pstate p = s_header_value -> 1 <= avail ->
  returns_ok p avail (case_header_value p ch).
Proof.
  intros Hb Hp Ha. pose proof Hb as [Hn Hl _ Hs _]. unfold case_header_value.
  rewrite Hp in Hs. specialize (Hs ltac:(done)). unfold state_ok in Hs. rewrite Hp in Hs.
  destruct Hs as (Hv & [Hi0 Hi] & Hcl).
  destruct (ch =? CR).
  { clear Hb. destruct p as [ty fl st hs ix nr cl ma mi sc me en up]. hp_cbn. subst st. case_done; by split_tests. }
  destruct (ch =? LF).
  { clear Hb. destruct p as [ty fl st hs ix nr cl ma mi sc me en up]. hp_cbn. subst st. case_done; by split_tests. }
  assert (Hgo : forall h, value_state h = true -> h <> h_content_length ->
    (forall i, 0 <= i -> index_ok (set_header_state (set_index p i) h)) ->
    returns_ok p avail (brk (set_header_state p h))).
  { intros h Hvh Hne Hx. apply header_break_ok; try done; [by rewrite Hp|].
    unfold state_ok. hp_cbn. rewrite Hp. specialize (Hx (index p) Hi0). destruct p. by hp_cbn. }
  assert (Hid : returns_ok p avail (brk p)).
  { apply header_break_ok; try done; [by rewrite Hp|]. unfold state_ok, index_ok. rewrite Hp. auto. }
  destruct (header_state p) eqn:Eh; try discriminate Hv; try done.
  all: try (apply value_char_ok; rewrite ?Eh; try done; try apply LOWER_nonzero; cbn; lia).
  all: try (split_tests; [apply Hgo; try done; intros; unfold index_ok; hp_cbn; done|done]).
  all: try (replace (set_pstate p s_header_value) with p by (destruct p; hp_cbn; by subst);
            apply Hgo; try done; intros; unfold index_ok; hp_cbn; done).
  destruct (ch =? SP); [done|]. destruct (IS_NUM ch); cbn [negb].
  - apply more_length_ok; [done..|]. intros t Ht.
    apply header_break_ok; try done; [hp_cbn; lia|by rewrite Hp|].
    unfold state_ok, index_ok. hp_cbn. rewrite Hp, Eh. split_and!; try done. intros. lia.
  - eexists; split; [reflexivity|]. split; try done. hp_cbn. lia.
Qed.

Lemma header_almost_done_ok p ch avail : byte_ok p -> pstate p = s_header_almost_done -> 1 <= avail ->
  returns_ok p avail (case_header_almost_done p ch).
Proof.
  intros [Hn Hl _ _ _] Hp Ha. unfold case_header_almost_done.
  destruct p as [ty fl st hs ix nr cl ma mi sc me en up]. hp_cbn. subst st.
  destruct (negb (ch =? LF)); [case_done|].
  assert (Hbrk : forall q, has_flag q F_TRAILING = negb (Z.land fl F_TRAILING =? 0) -> http_errno q = en ->
    nread q = nr -> content_length q = cl -> pstate q = s_header_value_lws ->
    returns_ok (mkParser ty fl s_header_almost_done hs ix nr cl ma mi sc me en up) avail (brk q)).
  { intros q Hq1 Hq2 Hq3 Hq4 Hq5. eexists; split; [reflexivity|]. split; try done; [hp_cbn; lia| |].
    - unfold flow, phase_of. hp_cbn. rewrite Hq5. cbn [part_of mark_class]. rewrite Hq1. auto.
    - intros _. hp_cbn. split; rewrite ?Hq3, ?Hq4, ?Hq5; try done. unfold state_ok. by rewrite Hq5. }
  pose proof (has_flag_add (mkParser ty fl s_header_value_lws hs ix nr cl ma mi sc me en up)) as Hadd.
  destruct hs; apply Hbrk; try done.
  all: etransitivity; [apply Hadd|by rewrite orb_false_r].
Qed.

Lemma headers_end_ok p ch avail : byte_ok p -> 1 <= avail ->
  (pstate p = s_header_value_lws -> returns_ok p avail (case_header_value_lws p ch)) /\
  (pstate p = s_headers_almost_done -> returns_ok p avail (case_headers_almost_done p ch)).
Proof.
  intros [Hn Hl _ _ _] Ha. split; intros Hp;
    destruct p as [ty fl st hs ix nr cl ma mi sc me en up]; hp_cbn; subst st.
  - unfold case_header_value_lws. hp_cbn. split_tests; case_done.
  - unfold case_headers_almost_done. set (q := mkParser _ _ _ _ _ _ _ _ _ _ _ _ _).
    pose proof (NEW_MESSAGE_idle q) as Hi. hp_cbn. subst q.
    destruct (negb (ch =? LF)); [case_done|].
    destruct (has_flag _ F_TRAILING) eqn:Ht; [|unfold has_flag in Ht; case_done].
    unfold has_flag in Ht. hp_cbn. revert Hi. destruct (NEW_MESSAGE _); intros Hi; try discriminate Hi; case_done.
Qed.

(** The end of a message, from a state of its body. *)
Lemma finish_ok p q lv avail :
  byte_ok p -> 1 <= avail -> part_of (pstate p) = Body -> mark_class (pstate p) = None ->
  http_errno q = http_errno p -> 0 <= nread q <= HTTP_MAX_HEADER_SIZE -> content_length q = content_length p ->
  returns_ok p avail (finish_message q lv).
Proof.
  intros [Hn Hl _ _ _] Ha Hp Hm He Hnr Hcl. pose proof (NEW_MESSAGE_idle q) as Hi.
  eexists; split; [reflexivity|]. split; try done; [hp_cbn; lia| |].
  - unfold flow, phase_of. hp_cbn. rewrite Hp, Hm. by destruct (NEW_MESSAGE q); try discriminate Hi.
  - intros _. hp_cbn. split; rewrite ?Hcl; try done.
    + hp_cbn. by rewrite Hi.
    + unfold state_ok. hp_cbn. by destruct (NEW_MESSAGE q); try discriminate Hi.
Qed.

(** On to another state of the body. *)
Lemma body_break_ok p q avail :
  byte_ok p -> 1 <= avail -> part_of (pstate p) = Body -> part_of (pstate q) = Body ->
  mark_class (pstate p) = None -> mark_class (pstate q) = None \/ mark_class (pstate q) = Some K_body ->
  http_errno q = http_errno p -> 0 <= nread q <= HTTP_MAX_HEADER_SIZE -> 0 <= content_length q <= ULLONG_MAX ->
  state_ok q -> returns_ok p avail (brk q).
Proof.
  intros [Hn Hl _ _ _] Ha Hp Hq Hm Hm' He Hnr Hcl Hs.
  eexists; split; [reflexivity|]. split; try done; [hp_cbn; lia| |].
  - unfold flow, phase_of. hp_cbn. rewrite Hp, Hq, Hm. destruct Hm' as [-> | ->]; auto.
  - intros _. hp_cbn. split; try done. by rewrite Hq.
Qed.

Lemma headers_done_ok p ch avail : byte_ok p -> pstate p = s_headers_done -> 1 <= avail ->
  returns_ok p avail (case_headers_done p ch).
Proof.
  intros Hb Hp Ha. pose proof Hb as [Hn Hl _ _ _]. unfold case_headers_done.
  destruct (negb (ch =? LF)); [eexists; split; [reflexivity|]; split; try done; hp_cbn; lia|].
  assert (Hfin : forall lv, returns_ok p avail (finish_message (set_nread p 0) lv)).
  { intros lv. apply finish_ok; rewrite ?Hp; try done. }
  assert (Hgo : forall s, part_of s = Body -> mark_class s = None \/ mark_class s = Some K_body ->
    state_ok (set_pstate (set_nread p 0) s) -> returns_ok p avail (brk_to (set_nread p 0) s)).
  { intros s Hs1 Hs2 Hs3. apply (body_break_ok p); rewrite ?Hp; try done. }
  split_tests; try apply Hfin; apply Hgo; auto; unfold state_ok; hp_cbn; try done.
  unfold ULLONG_MAX in *. hp_cbn. lia.
Qed.

(** A failed test of a byte. *)
Lemma fail_ok p q e avail : 1 <= avail -> returns_ok p avail (fail q e).
Proof. intros. eexists; split; [reflexivity|]. split; try done. hp_cbn. lia. Qed.

Lemma unhex_range ch : -1 <= table unhex ch < 16.
Proof.
  unfold table. assert (Hall : Forall (fun v => -1 <= v < 16) unhex) by decide_vm.
  destruct (nth_in_or_default (Z.to_nat ch) unhex 0) as [H| ->]; [|lia].
  rewrite Forall_forall in Hall. apply Hall. by apply list_elem_of_In.
Qed.

Lemma to_read_wrap n avail : 0 < n <= ULLONG_MAX -> 1 <= avail ->
  u64 (n - Z.min n avail) = n - Z.min n avail /\ 0 <= n - Z.min n avail < n.
Proof. unfold ULLONG_MAX. intros. split; [apply u64_small|]; lia. Qed.

Lemma body_ok p ch avail : byte_ok p -> part_of (pstate p) = Body -> 1 <= avail ->
  returns_ok p avail (switch p ch avail).
Proof.
  intros Hb Hp Ha. pose proof Hb as [Hn Hl _ Hs Hcs].
  unfold switch. destruct (pstate p) eqn:Es; try discriminate Hp; clear Hp;
    try specialize (Hs ltac:(done)); unfold state_ok in Hs; rewrite ?Es in Hs.
  - specialize (Hcs eq_refl) as [Hnr Hc]. unfold case_chunk_size_start, assert_that, guard_trap.
    rewrite Hnr, Hc. cbn [Z.eqb]. rewrite Pos.eqb_refl.
    pose proof (unhex_range ch). destruct (Z.eqb_spec (table unhex ch) (-1)); [by apply fail_ok|].
    apply body_break_ok; rewrite ?Es; try done; auto; unfold state_ok; hp_cbn; unfold ULLONG_MAX in *; first [lia | split; [done|lia]].
  - destruct Hs as [Hc Hlt]. unfold case_chunk_size, assert_that, guard_trap. rewrite Hc.
    assert (Hgo : forall s t, match s with s_chunk_size | s_chunk_parameters | s_chunk_size_almost_done => true | _ => false end = true ->
      0 <= t < ULLONG_MAX -> returns_ok p avail (brk (set_pstate (set_content_length p t) s))).
    { intros s t Hst Ht. destruct s; try discriminate Hst; (apply body_break_ok; rewrite ?Es; try done; hp_cbn; auto; try lia; (split; [done|cbn; lia])). }
    assert (Hid : forall s, set_pstate p s = set_pstate (set_content_length p (content_length p)) s) by (intros; by destruct p).
    unfold brk_to. rewrite !Hid. split_tests; try (apply Hgo; [done|lia]); [by apply fail_ok|].
    apply more_length_ok; [done..|]. intros t Ht. specialize (Hgo s_chunk_size t eq_refl Ht).
    by replace (set_content_length p t) with (set_pstate (set_content_length p t) s_chunk_size)
      by (destruct p; hp_cbn; by subst).
  - destruct Hs as [Hc Hlt]. unfold case_chunk_parameters, assert_that, guard_trap. rewrite Hc. split_tests.
    + apply body_break_ok; rewrite ?Es; try done; auto.
    + apply body_break_ok; rewrite ?Es; try done; auto. unfold state_ok. rewrite Es. auto.
  - destruct Hs as [Hc Hlt]. unfold case_chunk_size_almost_done, assert_that, guard_trap. rewrite Hc.
    destruct (negb (ch =? LF)); [by apply fail_ok|].
    destruct (Z.eqb_spec (content_length (set_nread p 0)) 0) as [H0|H0].
    + eexists; split; [reflexivity|]. pose proof (has_flag_add (set_nread p 0) F_TRAILING F_TRAILING) as Hf.
      rewrite orb_true_r in Hf. split; try done; [hp_cbn; lia|].
      unfold flow, phase_of. cbn [st_act st_parser st_mark]. change (pstate (set_pstate _ s_header_field_start)) with s_header_field_start.
      rewrite Es. cbn [part_of mark_class]. split; [|auto].
      by replace (has_flag (set_pstate (add_flag (set_nread p 0) F_TRAILING) s_header_field_start) F_TRAILING) with true by (symmetry; exact Hf).
    + apply body_break_ok; rewrite ?Es; try done; auto. unfold state_ok. hp_cbn. split; [done|lia].
  - by apply headers_done_ok.
  - destruct Hs as [Hc Hlt]. unfold case_chunk_data, assert_that, guard_trap. rewrite Hc.
    replace (negb (content_length p =? 0) && negb (content_length p =? ULLONG_MAX)) with true by lia.
    destruct (to_read_wrap (content_length p) avail ltac:(lia) ltac:(lia)) as [-> Hr].
    eexists; split; [reflexivity|]. hp_cbn.
    destruct (Z.eqb_spec (content_length p - Z.min (content_length p) avail) 0); split; hp_cbn; try done; try lia;
      try (unfold flow, phase_of; hp_cbn; rewrite ?Es; cbn; by auto);
      intros _; split; hp_cbn; rewrite ?Es; try done; try lia; unfold state_ok; hp_cbn; rewrite ?Es; split; done || lia.
  - destruct Hs as [Hc Hlt]. unfold case_chunk_data_almost_done, assert_that, guard_trap. rewrite Hc, Hlt. cbn [Z.eqb].
    destruct (negb (ch =? CR)); [by apply fail_ok|]. eexists; split; [reflexivity|]. split; try done; [hp_cbn; lia|].
    unfold flow, phase_of; hp_cbn; rewrite ?Es; cbn. split_and!; auto; try lia; done.
  - unfold case_chunk_data_done, assert_that, guard_trap. rewrite Hs.
    destruct (negb (ch =? LF)); [by apply fail_ok|]. apply body_break_ok; rewrite ?Es; try done; auto.
  - unfold case_body_identity, assert_that, guard_trap.
    replace (negb (content_length p =? 0) && negb (content_length p =? ULLONG_MAX)) with true by lia.
    destruct (to_read_wrap (content_length p) avail ltac:(lia) ltac:(lia)) as [-> Hr].
    eexists; split; [reflexivity|]. hp_cbn.
    destruct (Z.eqb_spec (content_length p - Z.min (content_length p) avail) 0); split; hp_cbn; try done; try lia;
      try (unfold flow, phase_of; hp_cbn; rewrite ?Es; cbn; split_and!; auto; by (lia || done));
      try (intros _; split; hp_cbn; rewrite ?Es; try done; try lia; unfold state_ok; hp_cbn; rewrite ?Es; done || lia).
    intros _. rewrite Es. cbn. split; [lia|done].
  - eexists; split; [reflexivity|]. split; hp_cbn; try done; try lia.
    + unfold flow, phase_of; hp_cbn; rewrite ?Es; cbn. auto.
    + intros _. split; try done; [by rewrite Es|]. unfold state_ok. by rewrite Es.
  - apply finish_ok; rewrite ?Es; try done.
Qed.

(** Every case returns and keeps the invariant. *)
Lemma switch_ok p ch avail : byte_ok p -> 1 <= avail -> returns_ok p avail (switch p ch avail).
Proof.
  intros Hb Ha. destruct (plain (pstate p)) eqn:Hpl; [by apply plain_ok|].
  destruct (match part_of (pstate p) with Body => true | _ => false end) eqn:Hp.
  { apply body_ok; [done| |done]. by destruct (part_of (pstate p)). }
  unfold switch. destruct (pstate p) eqn:Es; try discriminate Hpl; try discriminate Hp.
  - by apply start_req_ok.
  - by apply req_method_ok.
  - by apply spaces_ok.
  - apply req_schema_ok; by rewrite ?Es.
  - apply req_schema_ok; by rewrite ?Es.
  - apply req_schema_ok; by rewrite ?Es.
  - apply req_schema_ok; by rewrite ?Es.
  - apply req_url_ok; by rewrite ?Es.
  - apply req_url_ok; by rewrite ?Es.
  - apply req_url_ok; by rewrite ?Es.
  - apply req_url_ok; by rewrite ?Es.
  - apply req_url_ok; by rewrite ?Es.
  - apply req_url_ok; by rewrite ?Es.
  - apply req_url_ok; by rewrite ?Es.
  - by apply header_field_start_ok.
  - by apply header_field_ok.
  - by apply header_value_start_ok.
  - by apply header_value_ok.
  - by apply headers_end_ok.
  - by apply header_almost_done_ok.
  - by apply headers_end_ok.
Qed.
