(* ===== verification/HttpRun.v ===== *)
(** * Running the HTTP parser

    The rule for http_parser_execute: with callbacks that keep an invariant of
    the application for each phase of a message, the parser returns, has called
    them in the order of a message, and keeps its own invariant. *)

From S2P Require Import Prelude HttpParser HttpFacts.

(** ** Marks *)

Lemma get_set_mark ms k v : get_mark (set_mark ms k v) k = v.
Proof. by destruct k. Qed.

Lemma get_set_mark_ne ms k k' v : k' <> k -> get_mark (set_mark ms k v) k' = get_mark ms k'.
Proof. by destruct k, k'. Qed.

#[export] Instance mark_kind_eq_dec : EqDecision mark_kind.
Proof. solve_decision. Defined.

Lemma get_set_cases ms k k' v m : get_mark (set_mark ms k v) k' = Some m ->
  (k' = k /\ v = Some m) \/ (k' <> k /\ get_mark ms k' = Some m).
Proof.
  destruct (decide (k' = k)) as [->|Hne]; [rewrite get_set_mark; auto|].
  rewrite get_set_mark_ne by done. auto.
Qed.

(** The marks set at position [p] are those of the state; names, values and
    URLs always have theirs. *)
Record marks_ok (s : state) (ms : marks) (p : Z) : Prop := {
  mo_class k m : get_mark ms k = Some m -> mark_class s = Some k /\ 0 <= m <= p;
  mo_full k : mark_class s = Some k -> k <> K_body -> is_Some (get_mark ms k) }.

Definition only_mark (ms : marks) (k : mark_kind) (p : Z) : Prop :=
  forall k' m, get_mark ms k' = Some m -> k' = k /\ 0 <= m <= p.

Definition no_marks (ms : marks) : Prop := forall k, get_mark ms k = None.

Definition marks_after (ms : marks) (mk : option mark_kind) (p : Z) : marks :=
  match mk with
  | Some k => match get_mark ms k with None => set_mark ms k (Some p) | Some _ => ms end
  | None => ms
  end.

Lemma marks_after_cases ms mk p k m : get_mark (marks_after ms mk p) k = Some m ->
  get_mark ms k = Some m \/ (mk = Some k /\ m = p).
Proof.
  destruct mk as [k0|]; cbn [marks_after]; [|auto].
  destruct (get_mark ms k0) eqn:E; [auto|]. intros [[-> [= ->]]|[_ H]]%get_set_cases; auto.
Qed.

Lemma marks_after_set ms k p : is_Some (get_mark (marks_after ms (Some k) p) k).
Proof. cbn. destruct (get_mark ms k) eqn:E; [by rewrite E|]. rewrite get_set_mark. done. Qed.

Lemma no_marks_ok s ms p : no_marks ms -> mark_class s = None \/ mark_class s = Some K_body -> marks_ok s ms p.
Proof.
  intros Hn Hc. split.
  - intros k m. by rewrite Hn.
  - intros k Hk Hb. destruct Hc as [Hc|Hc]; rewrite Hc in Hk; [done|]. by injection Hk as <-.
Qed.

Lemma marks_none s ms p : marks_ok s ms p -> mark_class s = None -> no_marks ms.
Proof.
  intros [Hc _] Hs k. destruct (get_mark ms k) as [m|] eqn:E; [|done].
  destruct (Hc _ _ E) as [H _]. by rewrite H in Hs.
Qed.

(** The marks after a case that goes on to the next byte. *)
Lemma marks_break p s ms pos pos' :
  marks_ok (pstate p) ms pos -> 0 <= pos <= pos' -> flow p s -> st_act s = Break ->
  marks_ok (pstate (st_parser s)) (marks_after ms (st_mark s) pos) pos'.
Proof.
  intros [Hc Hf] Hpos Hfl Ha. unfold flow in Hfl. rewrite Ha in Hfl. destruct Hfl as [_ Hfl].
  destruct (st_mark s) as [k0|] eqn:Em.
  - destruct Hfl as [Hold Hnew]. split.
    + intros k m [H|[[= <-] ->]]%marks_after_cases; [|split; [done|lia]].
      destruct (Hc _ _ H) as [Hk ?]. destruct Hold as [[Hold _]|Hold]; rewrite Hold in Hk; [done|].
      injection Hk as <-. split; [done|lia].
    + intros k Hk _. rewrite Hnew in Hk. injection Hk as <-. apply marks_after_set.
  - cbn [marks_after]. destruct Hfl as [Hs|[Hs1 Hs2]].
    + split; intros *; rewrite Hs; [|apply Hf]. intros H. destruct (Hc _ _ H). split; [done|lia].
    + apply no_marks_ok; [|auto]. by apply (marks_none (pstate p) ms pos).
Qed.

(** The marks at a data callback. *)
Lemma marks_data p s ms pos k extra c ag :
  marks_ok (pstate p) ms pos -> 0 <= pos -> flow p s -> st_act s = Data k extra c ag ->
  only_mark (marks_after ms (st_mark s) pos) k pos.
Proof.
  intros [Hc Hf] Hpos Hfl Ha. unfold flow in Hfl. rewrite Ha in Hfl.
  destruct Hfl as (_ & _ & _ & _ & _ & _ & Hcl & Hmk). intros k' m [H|[H ->]]%marks_after_cases.
  - destruct (Hc _ _ H) as [Hk ?]. destruct Hcl as [Hcl|[Hcl _]]; rewrite Hcl in Hk; [|done].
    injection Hk as <-. done.
  - destruct Hmk as [Hm|Hm]; rewrite Hm in H; [done|]. injection H as <-. split; [done|lia].
Qed.

(** ** Callbacks *)

Section Rule.
Context {A : Type} (settings : http_parser_settings A) (data : bytes).
Context (J : phase -> A -> Prop) (D : A -> Prop).

Abbreviation len := (len data).

(** A callback, if it is set, returns, and where it returns a number accepted
    by [acc] takes [P] to [Q]. *)
Definition posts (acc : Z -> bool) (cb : option (http_cb A)) (P Q : A -> Prop) : Prop :=
  match cb with
  | None => forall a, P a -> Q a
  | Some cb => forall p a, P a ->
      exists r, cb p a = Ok r /\ D (cb_user r) /\ (acc (cb_ret r) = true -> Q (cb_user r))
  end.

Definition data_posts (cb : option (http_data_cb A)) (P : A -> Prop) : Prop :=
  match cb with
  | None => True
  | Some cb => forall p d a, P a ->
      exists r, cb p d a = Ok r /\ D (cb_user r) /\ (cb_ret r = 0 -> P (cb_user r))
  end.

Definition zero (z : Z) : bool := z =? 0.
Definition zero_or_one (z : Z) : bool := (z =? 0) || (z =? 1).

(** What the application promises: each phase's invariant is kept by the
    callbacks of that phase.  The beginning of a message can be reported more
    than once (each line end before a response does). *)
Record callbacks_ok : Prop := {
  cs_any ph a : J ph a -> D a;
  cs_begin : posts zero (on_message_begin settings) (J PIdle) (fun a => J PHead a /\ J PIdle a);
  cs_url : data_posts (on_url settings) (J PHead);
  cs_field ph : ph <> PIdle -> data_posts (on_header_field settings) (J ph);
  cs_value ph : ph <> PIdle -> data_posts (on_header_value settings) (J ph);
  cs_headers : posts zero_or_one (on_headers_complete settings) (J PHead) (J PTail);
  cs_body : data_posts (on_body settings) (J PTail);
  cs_complete : posts zero (on_message_complete settings) (J PTail) (J PIdle) }.

Context (Hcb : callbacks_ok).
Implicit Type x : exec A.

(** What a callback macro leaves. *)
Definition call_ok x (Q : A -> Prop) (er : Z) (r : option Z * exec A) : Prop :=
  let '(o, x') := r in
  D (x_user x') /\ x_p x' = x_p x /\
  match o with
  | None => x_parser x' = x_parser x /\ Q (x_user x')
  | Some e => e = er /\ http_errno (x_parser x') <> HPE_OK
  end.

Lemma after_callback_ok x r failed e :
  http_errno (x_parser x) = HPE_OK -> e <> HPE_OK ->
  exists x', after_callback x r failed e = Ok x' /\ x_user x' = cb_user r /\ x_p x' = x_p x /\ x_marks x' = x_marks x /\
    ((is_ok (http_errno (x_parser x')) = true /\ x_parser x' = x_parser x /\ failed = false)
     \/ (is_ok (http_errno (x_parser x')) = false /\ http_errno (x_parser x') <> HPE_OK)).
Proof.
  intros He Hne. unfold after_callback, http_parser_pause. rewrite He.
  destruct (cb_pauses r); cbn [mbind outcome_bind]; eexists; (split; [reflexivity|]); split_and!; try done;
    destruct failed; cbn; try (right; by destruct e).
  left. by rewrite He.
Qed.

Lemma notify_ok f er x (P Q : A -> Prop) :
  http_errno (x_parser x) = HPE_OK -> P (x_user x) -> (forall a, P a -> D a) ->
  posts zero (notify_cb settings f) P Q ->
  exists r, CALLBACK_NOTIFY_ settings f er x = Ok r /\ call_ok x Q er r /\
    (fst r = None -> x_marks (snd r) = x_marks x).
Proof.
  intros He HP HD Hp. unfold CALLBACK_NOTIFY_. rewrite He. cbn [is_ok guard_trap].
  destruct (notify_cb settings f) as [cb|]; cbn [posts] in Hp.
  - destruct (Hp (x_parser x) (x_user x) HP) as (r & -> & HDr & HQ). cbn [mbind outcome_bind].
    destruct (after_callback_ok x r (negb (cb_ret r =? 0)) (notify_errno f) He) as (x' & -> & Hu & Hx & Hm & Hc);
      [by destruct f|]. cbn [mbind outcome_bind]. eexists. split; [reflexivity|].
    destruct Hc as [(-> & Hpx & Hf)|(-> & Hpx)]; unfold call_ok; rewrite Hu, Hx; split_and!; try done.
    apply HQ. unfold zero. by destruct (cb_ret r =? 0).
  - eexists. split; [reflexivity|]. unfold call_ok. split_and!; auto.
Qed.

Lemma data_ok k upto er x (P : A -> Prop) :
  http_errno (x_parser x) = HPE_OK -> P (x_user x) -> (forall a, P a -> D a) ->
  data_posts (data_cb settings k) P -> only_mark (x_marks x) k upto -> upto <= len ->
  exists r, CALLBACK_DATA_ settings data k upto er x = Ok r /\ call_ok x P er r /\
    (fst r = None -> no_marks (x_marks (snd r))).
Proof.
  intros He HP HD Hp Hm Hu. unfold CALLBACK_DATA_. rewrite He. cbn [is_ok guard_trap].
  assert (Hclear : no_marks (set_mark (x_marks x) k None)).
  { intros k'. destruct (get_mark (set_mark (x_marks x) k None) k') as [m|] eqn:E; [|done].
    apply get_set_cases in E as [[_ ?]|[Hne E]]; [done|]. by destruct (Hm _ _ E). }
  destruct (get_mark (x_marks x) k) as [m|] eqn:Ek.
  - destruct (Hm _ _ Ek) as [_ Hm'].
    destruct (data_cb settings k) as [cb|]; cbn [data_posts] in Hp.
    + unfold read_block. rewrite (proj2 (andb_true_iff _ _)); [|split; [lia|]; unfold HttpParser.len in Hu; lia].
      cbn [mbind outcome_bind].
      destruct (Hp (x_parser x) (take (Z.to_nat (upto - m)) (drop (Z.to_nat m) data)) (x_user x) HP)
        as (r & -> & HDr & HQ). cbn [mbind outcome_bind].
      destruct (after_callback_ok x r (negb (cb_ret r =? 0)) (data_errno k) He) as (x' & -> & Hxu & Hx & Hxm & Hc);
        [by destruct k|]. cbn [mbind outcome_bind]. eexists. split; [reflexivity|].
      destruct Hc as [(-> & Hpx & Hf)|(-> & Hpx)]; unfold call_ok; cbn [fst snd x_user x_p x_parser x_marks];
        rewrite Hxu, Hx, ?Hxm; split_and!; try done.
      apply HQ. lia.
    + eexists. split; [reflexivity|]. unfold call_ok. cbn. split_and!; auto.
  - eexists. split; [reflexivity|]. unfold call_ok. split_and!; auto. intros _ k'. cbn [snd].
    destruct (get_mark (x_marks x) k') as [m|] eqn:E; [|done]. destruct (Hm _ _ E) as [-> _]. congruence.
Qed.

Lemma headers_complete_ok x :
  http_errno (x_parser x) = HPE_OK -> J PHead (x_user x) ->
  exists o x', call_headers_complete settings x = Ok (o, x') /\ D (x_user x') /\ x_p x' = x_p x /\
    match o with
    | None => (x_parser x' = x_parser x \/ x_parser x' = add_flag (x_parser x) F_SKIPBODY)
              /\ J PTail (x_user x') /\ x_marks x' = x_marks x
    | Some e => e = x_p x /\ http_errno (x_parser x') <> HPE_OK
    end.
Proof.
  intros He HJ. unfold call_headers_complete. pose proof (cs_headers Hcb) as Hp.
  destruct (on_headers_complete settings) as [cb|]; cbn [posts] in Hp.
  - destruct (Hp (x_parser x) (x_user x) HJ) as (r & -> & HDr & HQ). cbn [mbind outcome_bind].
    destruct (after_callback_ok x r (negb (cb_ret r =? 0) && negb (cb_ret r =? 1)) HPE_CB_headers_complete He)
      as (x' & -> & Hxu & Hx & Hxm & Hc); [done|]. cbn [mbind outcome_bind].
    destruct (Z.eqb_spec (cb_ret r) 1) as [H1|H1]; destruct Hc as [(Hi & Hpx & Hf)|(Hi & Hpx)];
      unfold with_parser; cbn [x_parser]; rewrite ?Hi;
      (eexists _, _; split; [cbn; rewrite ?Hi; reflexivity|]); cbn [x_user x_p x_parser x_marks]; rewrite ?Hxu, ?Hx, ?Hpx;
      (split; [done|]); (split; [done|]); try (split; [done|done]);
      (split; [by auto|]); (split; [|done]); apply HQ; unfold zero_or_one; lia.
  - rewrite He. eexists _, _. split; [reflexivity|]. split_and!; auto. by apply (cs_any Hcb PHead).
Qed.

(** ** A byte *)

(** Between two bytes, and in the middle of one. *)
Record at_byte x : Prop := {
  ab_byte : byte_ok (x_parser x);
  ab_errno : http_errno (x_parser x) = HPE_OK;
  ab_pos : 0 <= x_p x < len;
  ab_marks : marks_ok (pstate (x_parser x)) (x_marks x) (x_p x);
  ab_user : J (phase_of (x_parser x)) (x_user x) }.

Definition byte_result (pos : Z) (r : ctl * exec A) : Prop :=
  let '(c, x) := r in
  match c with
  | Next =>
      parser_ok (x_parser x) /\ http_errno (x_parser x) = HPE_OK /\ pos <= x_p x < len /\
      marks_ok (pstate (x_parser x)) (x_marks x) (x_p x + 1) /\ J (phase_of (x_parser x)) (x_user x)
  | Return v =>
      0 <= v <= len /\ D (x_user x) /\
      (http_errno (x_parser x) = HPE_OK -> parser_ok (x_parser x) /\ J (phase_of (x_parser x)) (x_user x))
  | ErrorLabel => 0 <= x_p x <= len /\ D (x_user x)
  end.

Lemma apply_stmt_eq x s :
  apply_stmt x s = mkExec (st_parser s) (x_user x) (x_p x + st_skip s) (marks_after (x_marks x) (st_mark s) (x_p x)).
Proof. done. Qed.

Lemma parser_byte_ok p : parser_ok p -> pstate p <> s_chunk_size_start -> byte_ok p.
Proof. intros [H1 H2 H3 H4] Hs. by split. Qed.

Lemma data_cb_posts k ph :
  ph <> PIdle -> (k = K_url -> ph = PHead) -> (k = K_body -> ph = PTail) -> data_posts (data_cb settings k) (J ph).
Proof.
  intros Hi Hu Hb. destruct k; cbn [data_cb].
  - by apply (cs_field Hcb).
  - by apply (cs_value Hcb).
  - rewrite Hu by done. apply (cs_url Hcb).
  - rewrite Hb by done. apply (cs_body Hcb).
Qed.

(** A case that makes a data callback, up to what follows it. *)
Lemma data_case_ok x s k extra c ag (er : Z) :
  at_byte x -> case_ok (x_parser x) (len - x_p x) s -> st_act s = Data k extra c ag ->
  exists r, CALLBACK_DATA_ settings data k (x_p (apply_stmt x s) + extra) er (apply_stmt x s) = Ok r /\
    call_ok (apply_stmt x s) (J (phase_of (x_parser x))) er r /\ (fst r = None -> no_marks (x_marks (snd r))).
Proof.
  intros [Hb He Hp Hm HJ] [Hsk Hfl _ Hen _] Ha. rewrite Ha in Hen.
  pose proof (marks_data _ _ _ _ _ _ _ _ Hm ltac:(lia) Hfl Ha) as Hom.
  unfold flow in Hfl. rewrite Ha in Hfl. destruct Hfl as (Hph & Hni & Hu & Hbo & Hex & _).
  rewrite apply_stmt_eq. cbn [x_p]. apply data_ok; cbn [x_parser x_user x_marks].
  - rewrite Hen by done. done.
  - done.
  - apply (cs_any Hcb).
  - by apply data_cb_posts.
  - intros k' m Hk. destruct (Hom _ _ Hk). split; [done|lia].
  - lia.
Qed.

(** A case that reports the beginning or the end of a message. *)
Lemma notify_case_ok x s f lv (er : Z) :
  at_byte x -> case_ok (x_parser x) (len - x_p x) s -> st_act s = Notify f lv ->
  exists r, CALLBACK_NOTIFY_ settings f er (apply_stmt x s) = Ok r /\
    call_ok (apply_stmt x s) (J (phase_of (st_parser s))) er r /\
    (fst r = None -> x_marks (snd r) = x_marks x) /\ mark_class (pstate (st_parser s)) = None /\ no_marks (x_marks x).
Proof.
  intros [Hb He Hp Hm HJ] [Hsk Hfl _ Hen _] Ha. rewrite Ha in Hen. unfold flow in Hfl. rewrite Ha in Hfl.
  assert (Hpost : posts zero (notify_cb settings f) (J (phase_of (x_parser x))) (J (phase_of (st_parser s)))
                  /\ st_mark s = None /\ mark_class (pstate (x_parser x)) = None
                  /\ mark_class (pstate (st_parser s)) = None).
  { destruct f; cbn [notify_cb].
    - destruct Hfl as (Hi & Hph & Hmk & Hc & Hc'). split_and!; try done. rewrite Hi.
      pose proof (cs_begin Hcb) as Hbeg. destruct (on_message_begin settings); cbn [posts] in *.
      + intros p a Ha'. destruct (Hbeg p a Ha') as (r & Hr & HD & HQ). exists r. split_and!; try done.
        intros Hz. destruct (HQ Hz). by destruct Hph as [-> | ->].
      + intros a Ha'. destruct (Hbeg a Ha'). by destruct Hph as [-> | ->].
    - destruct Hfl as (Hi & Hph & Hmk & Hc & Hc'). split_and!; try done. rewrite Hi, Hph. apply (cs_complete Hcb). }
  destruct Hpost as (Hpost & Hmk & Hc & Hc').
  destruct (notify_ok f er (apply_stmt x s) (J (phase_of (x_parser x))) (J (phase_of (st_parser s))))
    as (r & Hr & Hcall & Hmr); [|done|apply (cs_any Hcb)|done|].
  { cbn. rewrite Hen by done. done. }
  exists r. split_and!; try done.
  - intros Hn. rewrite (Hmr Hn), apply_stmt_eq. cbn [x_marks]. by rewrite Hmk.
  - by apply (marks_none (pstate (x_parser x)) _ (x_p x)).
Qed.

Lemma add_flag_ok p f : parser_ok p -> pstate p = s_headers_done -> parser_ok (add_flag p f).
Proof.
  intros [H1 H2 H3 H4] Hs. split; hp_cbn; try done; [by rewrite Hs|].
  unfold state_ok. hp_cbn. by rewrite Hs.
Qed.

(** What executing the byte again gives, from positions after [pos] and states
    of rank below [n]. *)
Definition continues (pos : Z) (n : nat) (go : exec A -> outcome (ctl * exec A)) : Prop :=
  forall y, at_byte y -> (rank (pstate (x_parser y)) < n)%nat -> pos <= x_p y ->
  exists r, go y = Ok r /\ byte_result pos r.

Section Cases.
Context (x : exec A) (s : stmt) (go : exec A -> outcome (ctl * exec A)).
Context (Hx : at_byte x) (Hco : case_ok (x_parser x) (len - x_p x) s).
Context (Hgo : continues (x_p x) (rank (pstate (x_parser x))) go).

Lemma break_case : st_act s = Break -> byte_result (x_p x) (Next, apply_stmt x s).
Proof.
  intros Ha. destruct Hx as [Hb He Hp Hm HJ]. destruct Hco as [Hsk Hfl _ Hen Hpo]. rewrite Ha in Hen, Hpo.
  rewrite apply_stmt_eq. cbn [byte_result x_parser x_user x_p x_marks].
  specialize (Hen ltac:(done)). specialize (Hpo ltac:(done)). split_and!; try done; [congruence|lia|lia| |].
  - apply (marks_break (x_parser x)); try done. lia.
  - unfold flow in Hfl. rewrite Ha in Hfl. destruct Hfl as [-> _]. done.
Qed.

(** A state in which the byte is executed again. *)
Definition enters (y : exec A) : Prop :=
  at_byte y /\ (rank (pstate (x_parser y)) < rank (pstate (x_parser x)))%nat /\ x_p x <= x_p y /\
  mark_class (pstate (x_parser y)) = None /\ pstate (x_parser y) = pstate (st_parser s).

Lemma enters_continues y : enters y -> exists r, go y = Ok r /\ byte_result (x_p x) r.
Proof. intros (Hy & Hr & Hp & _). by apply Hgo. Qed.

Lemma reexecute_next : st_act s = Reexecute -> enters (apply_stmt x s).
Proof.
  intros Ha. destruct Hx as [Hb He Hp Hm HJ]. destruct Hco as [Hsk Hfl Hag Hen Hpo]. rewrite Ha in Hag, Hen, Hpo.
  specialize (Hen ltac:(done)). specialize (Hpo ltac:(done)). destruct (Hag eq_refl) as [Hr Hcs].
  unfold flow in Hfl. rewrite Ha in Hfl. destruct Hfl as (Hph & Hmk & Hc & Hc').
  rewrite apply_stmt_eq. split; [|cbn [x_parser x_p]; split_and!; [done|lia|done|done]].
  split; cbn [x_parser x_user x_p x_marks].
  - by apply parser_byte_ok.
  - congruence.
  - lia.
  - rewrite Hmk. apply no_marks_ok; [|auto]. by apply (marks_none (pstate (x_parser x)) _ (x_p x)).
  - by rewrite Hph.
Qed.

Lemma notify_case f lv : st_act s = Notify f lv ->
  exists r, (r ← CALLBACK_NOTIFY_ settings f (x_p (apply_stmt x s) + 1) (apply_stmt x s);
             or_return r (fun x => Ok (if lv then Return (x_p x + 1) else Next, x))) = Ok r /\ byte_result (x_p x) r.
Proof.
  intros Ha. destruct Hx as [Hb He Hp Hm HJ]. pose proof Hco as [Hsk _ _ Hen Hpo]. rewrite Ha in Hen, Hpo.
  destruct (notify_case_ok x s f lv (x_p (apply_stmt x s) + 1) Hx Hco Ha) as (r & -> & Hcall & Hmr & Hc' & Hnm).
  cbn [mbind outcome_bind]. specialize (Hen ltac:(done)). specialize (Hpo ltac:(done)).
  destruct r as [[e|] x']; cbn [or_return call_ok fst snd] in *; (eexists; split; [reflexivity|]).
  - destruct Hcall as (HD & Hxp & -> & Hne). rewrite apply_stmt_eq. cbn [byte_result x_p]. split_and!; try done; lia.
  - destruct Hcall as (HD & Hxp & Hpx & HQ). rewrite apply_stmt_eq in Hpx, Hxp. cbn [x_parser x_p] in Hpx, Hxp.
    destruct lv; cbn [byte_result]; rewrite ?Hpx, ?Hxp.
    + split_and!; try done; lia.
    + split_and!; try done; try lia; [congruence|]. apply no_marks_ok; [|auto]. by rewrite (Hmr eq_refl).
Qed.

Lemma data_next k extra c x' : st_act s = Data k extra c true ->
  call_ok (apply_stmt x s) (J (phase_of (x_parser x))) (if c then x_p (apply_stmt x s) + 1 else x_p (apply_stmt x s)) (None, x') ->
  no_marks (x_marks x') -> enters x'.
Proof.
  intros Ha Hcall Hmr. destruct Hx as [Hb He Hp Hm HJ]. pose proof Hco as [Hsk Hfl Hag Hen Hpo]. rewrite Ha in Hag, Hen, Hpo.
  specialize (Hen ltac:(done)). specialize (Hpo ltac:(done)). destruct (Hag eq_refl) as [Hr Hcs].
  unfold flow in Hfl. rewrite Ha in Hfl. destruct Hfl as (Hph & _ & _ & _ & _ & Hc' & _).
  destruct Hcall as (HD & Hxp & Hpx & HQ). rewrite apply_stmt_eq in Hpx, Hxp. cbn [x_parser x_p] in Hpx, Hxp.
  unfold enters. rewrite Hpx, Hxp. split; [|split_and!; [done|lia|done|done]].
  split; rewrite ?Hpx, ?Hxp; [by apply parser_byte_ok|congruence|lia|by apply no_marks_ok; auto|by rewrite Hph].
Qed.

Lemma data_case k extra c ag : st_act s = Data k extra c ag ->
  exists r, (r ← CALLBACK_DATA_ settings data k (x_p (apply_stmt x s) + extra)
                   (if c then x_p (apply_stmt x s) + 1 else x_p (apply_stmt x s)) (apply_stmt x s);
             or_return r (fun x => if ag then go x else Ok (Next, x))) = Ok r /\ byte_result (x_p x) r.
Proof.
  intros Ha. destruct Hx as [Hb He Hp Hm HJ]. pose proof Hco as [Hsk Hfl Hag Hen Hpo]. rewrite Ha in Hag, Hen, Hpo.
  destruct (data_case_ok x s k extra c ag (if c then x_p (apply_stmt x s) + 1 else x_p (apply_stmt x s)) Hx Hco Ha)
    as (r & -> & Hcall & Hmr). cbn [mbind outcome_bind]. specialize (Hen ltac:(done)). specialize (Hpo ltac:(done)).
  unfold flow in Hfl. rewrite Ha in Hfl. destruct Hfl as (Hph & _ & _ & _ & _ & Hc' & _).
  destruct r as [[e|] x']; cbn [or_return call_ok fst snd] in *.
  - eexists. split; [reflexivity|]. destruct Hcall as (HD & Hxp & -> & Hne). rewrite apply_stmt_eq. cbn [byte_result x_p].
    split_and!; try done; destruct c; lia.
  - destruct ag.
    + apply enters_continues. by apply (data_next k extra c); auto.
    + destruct Hcall as (HD & Hxp & Hpx & HQ). rewrite apply_stmt_eq in Hpx, Hxp. cbn [x_parser x_p] in Hpx, Hxp.
      eexists. split; [reflexivity|]. cbn [byte_result]. rewrite Hpx, Hxp, Hph.
      split_and!; try done; try lia; [congruence|]. apply no_marks_ok; auto.
Qed.

Lemma headers_next x' : st_act s = HeadersComplete ->
  call_headers_complete settings (apply_stmt x s) = Ok (None, x') -> enters x' /\ x_marks x' = x_marks x.
Proof.
  intros Ha Hcall. destruct Hx as [Hb He Hp Hm HJ]. destruct Hco as [Hsk Hfl Hag Hen Hpo]. rewrite Ha in Hag, Hen, Hpo.
  specialize (Hen ltac:(done)). specialize (Hpo ltac:(done)). destruct (Hag eq_refl) as [Hr Hcs].
  unfold flow in Hfl. rewrite Ha in Hfl. destruct Hfl as (Hph & Hst & Hmk & Hc). rewrite Hph in HJ.
  destruct (headers_complete_ok (apply_stmt x s)) as (o & x2 & Hcall' & HD & Hxp & Ho); rewrite apply_stmt_eq in *;
    cbn [x_parser x_user x_p x_marks mbind outcome_bind] in *; [congruence|done|].
  rewrite Hcall in Hcall'. injection Hcall' as <- <-. destruct Ho as (Hpx & HJt & Hmx).
  assert (Hpx' : parser_ok (x_parser x') /\ pstate (x_parser x') = s_headers_done /\ http_errno (x_parser x') = HPE_OK).
  { destruct Hpx as [-> | ->]; [split_and!; try done; congruence|].
    split_and!; [by apply add_flag_ok|done|]. cbn. congruence. }
  destruct Hpx' as (Hpo' & Hst' & He'). rewrite Hmx, Hmk. cbn [marks_after]. split; [|done].
  unfold enters. rewrite Hst', Hxp. split; [|split_and!; [by rewrite Hst in Hr|lia|done|done]].
  split; rewrite ?Hxp, ?Hmx, ?Hmk; cbn [marks_after].
  - apply parser_byte_ok; [done|by rewrite Hst'].
  - done.
  - lia.
  - rewrite Hst'. apply no_marks_ok; [|by left]. by apply (marks_none (pstate (x_parser x)) _ (x_p x)).
  - unfold phase_of. by rewrite Hst'.
Qed.

Lemma headers_case : st_act s = HeadersComplete ->
  exists r, (r ← call_headers_complete settings (apply_stmt x s); or_return r go) = Ok r /\ byte_result (x_p x) r.
Proof.
  intros Ha. destruct Hx as [Hb He Hp Hm HJ]. pose proof Hco as [Hsk Hfl _ Hen _]. rewrite Ha in Hen.
  specialize (Hen ltac:(done)). unfold flow in Hfl. rewrite Ha in Hfl. destruct Hfl as (Hph & _). rewrite Hph in HJ.
  destruct (headers_complete_ok (apply_stmt x s)) as (o & x' & Hcall & HD & Hxp & Ho); [cbn; congruence|done|].
  rewrite Hcall. cbn [mbind outcome_bind]. destruct o as [e|]; cbn [or_return].
  - eexists. split; [reflexivity|]. destruct Ho as [-> Hne]. rewrite apply_stmt_eq. cbn [byte_result x_p].
    split_and!; try done; lia.
  - apply enters_continues. by apply headers_next.
Qed.

End Cases.

Lemma reexecute_ok fuel pos x ch :
  at_byte x -> (rank (pstate (x_parser x)) < fuel)%nat -> pos <= x_p x ->
  exists r, reexecute_byte settings data fuel x ch = Ok r /\ byte_result pos r.
Proof.
  revert pos x. induction fuel as [|fuel IH]; intros pos x Hx Hf Hpos; [lia|]. pose proof Hx as [Hb He Hp Hm HJ].
  destruct (switch_ok (x_parser x) ch (len - x_p x) Hb ltac:(lia)) as (s & Hs & Hco).
  cbn [reexecute_byte]. rewrite Hs. cbn [mbind outcome_bind].
  assert (Hgo : continues (x_p x) (rank (pstate (x_parser x))) (fun y => reexecute_byte settings data fuel y ch)).
  { intros y Hy Hr Hxy. apply IH; [done|lia|done]. }
  assert (Hmono : forall m, (exists r, m = Ok r /\ byte_result (x_p x) r) -> exists r, m = Ok r /\ byte_result pos r).
  { intros m (r & -> & Hr). exists r. split; [done|]. destruct r as [[|v|] y]; cbn in *; split_and!; try tauto; lia. }
  apply Hmono. unfold perform. destruct (st_act s) as [ | | |f lv|k extra c ag| ] eqn:Ha.
  - eexists. split; [reflexivity|]. by apply break_case.
  - by apply (enters_continues x s _ Hgo), reexecute_next.
  - eexists. split; [reflexivity|]. rewrite apply_stmt_eq. destruct Hco. cbn. split; [lia|]. by apply (cs_any Hcb _ _ HJ).
  - by apply notify_case.
  - by apply (data_case x s _ Hx Hco Hgo).
  - by apply (headers_case x s _ Hx Hco Hgo).
Qed.

(** ** The end of the data *)

Lemma data_unmarked k upto er x :
  is_ok (http_errno (x_parser x)) = true -> get_mark (x_marks x) k = None ->
  CALLBACK_DATA_ settings data k upto er x = Ok (None, x).
Proof. intros He Hm. unfold CALLBACK_DATA_. by rewrite He, Hm. Qed.

Lemma data_clears k upto er x x' :
  CALLBACK_DATA_ settings data k upto er x = Ok (None, x') ->
  is_ok (http_errno (x_parser x')) = true /\ x_p x' = x_p x /\
  forall k', get_mark (x_marks x') k' = if decide (k' = k) then None else get_mark (x_marks x) k'.
Proof.
  unfold CALLBACK_DATA_. destruct (is_ok (http_errno (x_parser x))) eqn:He; [|done]. cbn [guard_trap].
  destruct (get_mark (x_marks x) k) as [m|] eqn:Ek.
  - assert (Hget : forall k', get_mark (set_mark (x_marks x) k None) k'
                   = if decide (k' = k) then None else get_mark (x_marks x) k').
    { intros k'. case_decide as Hk; [subst; apply get_set_mark|by apply get_set_mark_ne]. }
    destruct (data_cb settings k) as [cb|]; [|intros [= <-]; by split_and!].
    intros H. inv_bind H. inv_bind H. inv_bind H. unfold after_callback in E1. inv_bind E1. injection E1 as <-.
    cbn [x_parser] in H. destruct (is_ok (http_errno _)) eqn:Hi in H; [|done]. injection H as <-. cbn.
    by split_and!.
  - intros [= <-]. split_and!; [done..|]. intros k'. by case_decide as Hk; [subst|].
Qed.

(** Only the mark that is set matters. *)
Lemma leftover_eq x k pos :
  is_ok (http_errno (x_parser x)) = true -> only_mark (x_marks x) k pos ->
  leftover settings data x =
    (r ← CALLBACK_DATA_ settings data k (x_p x) (x_p x) x;
     match r : option Z * exec A with
     | (Some er, x) => Ok (er, x_parser x, x_user x)
     | (None, x) => Ok (len, x_parser x, x_user x)
     end).
Proof.
  intros He Hm. assert (Hnone : forall k', k' <> k -> get_mark (x_marks x) k' = None).
  { intros k' Hk. destruct (get_mark (x_marks x) k') as [m|] eqn:E; [|done]. by destruct (Hm _ _ E). }
  unfold leftover. rewrite guard_trap_true.
  2: { destruct k; repeat match goal with |- context [get_mark _ ?k'] => rewrite (Hnone k') by done end; by case_match. }
  assert (Hskip : forall k' y, k' <> k -> is_ok (http_errno (x_parser y)) = true -> get_mark (x_marks y) k' = None ->
    CALLBACK_DATA_ settings data k' (x_p y) (x_p y) y = Ok (None, y)) by (intros; by apply data_unmarked).
  destruct k; repeat (rewrite Hskip by auto; cbn [mbind outcome_bind]);
    (destruct (CALLBACK_DATA_ _ _ _ _ _ x) as [[[e|] y]|t] eqn:E; cbn [mbind outcome_bind]; [done| |done]);
    destruct (data_clears _ _ _ _ _ E) as (Hi & _ & Hg);
    repeat (rewrite Hskip; [cbn [mbind outcome_bind]|done|done|rewrite Hg; case_decide; [done|by apply Hnone]]); done.
Qed.

Definition call_result (r : Z * http_parser * A) : Prop :=
  let '(n, p, a) := r in
  0 <= n <= len /\ D a /\ (http_errno p = HPE_OK -> parser_ok p /\ J (phase_of p) a).

Lemma marks_only s ms pos : marks_ok s ms pos -> exists k, only_mark ms k pos /\ (mark_class s = Some k \/ no_marks ms).
Proof.
  intros [Hc Hf]. destruct (mark_class s) as [k|] eqn:E.
  - exists k. split; [|auto]. intros k' m H. destruct (Hc _ _ H) as [[= ->] ?]. done.
  - exists K_body. split; [|right]; [intros k' m H; by destruct (Hc _ _ H)|].
    intros k. destruct (get_mark ms k) eqn:Ek; [|done]. by destruct (Hc _ _ Ek).
Qed.

(** A data class belongs to a phase in which its callback may be made. *)
Lemma class_phase p k : parser_ok p -> mark_class (pstate p) = Some k ->
  phase_of p <> PIdle /\ (k = K_url -> phase_of p = PHead) /\ (k = K_body -> phase_of p = PTail).
Proof.
  intros _ Hk. unfold phase_of. destruct (pstate p); try discriminate Hk; injection Hk as <-; cbn;
    split_and!; try done; by destruct (has_flag p F_TRAILING).
Qed.

Lemma leftover_ok x :
  parser_ok (x_parser x) -> http_errno (x_parser x) = HPE_OK -> x_p x = len ->
  marks_ok (pstate (x_parser x)) (x_marks x) (x_p x) -> J (phase_of (x_parser x)) (x_user x) ->
  exists r, leftover settings data x = Ok r /\ call_result r.
Proof.
  intros Hp He Hx Hm HJ. destruct (marks_only _ _ _ Hm) as (k & Hom & Hk).
  rewrite (leftover_eq x k (x_p x)) by (rewrite ?He; done).
  assert (Hlen : 0 <= len) by (unfold HttpParser.len; lia).
  assert (Hok : call_result (len, x_parser x, x_user x)).
  { cbn. split_and!; try lia; [by apply (cs_any Hcb _ _ HJ)|done]. }
  destruct Hk as [Hk|Hn].
  - destruct (class_phase _ _ Hp Hk) as (H1 & H2 & H3).
    destruct (data_ok k (x_p x) (x_p x) x (J (phase_of (x_parser x)))) as (r & -> & Hcall & _);
      [done|done|apply (cs_any Hcb)|by apply data_cb_posts|done|lia|]. cbn [mbind outcome_bind].
    destruct r as [[e|] x']; cbn [call_ok] in Hcall; (eexists; split; [reflexivity|]).
    + destruct Hcall as (? & ? & -> & ?). cbn. split_and!; try done; lia.
    + destruct Hcall as (HD & ? & Hpx & ?). cbn. rewrite Hpx. split_and!; try done; lia.
  - rewrite data_unmarked by (rewrite ?He; done). cbn [mbind outcome_bind]. eauto.
Qed.

(** ** The loop *)

Lemma bytes_loop_ok fuel x :
  parser_ok (x_parser x) -> http_errno (x_parser x) = HPE_OK -> 0 <= x_p x <= len ->
  len - x_p x < Z.of_nat fuel ->
  marks_ok (pstate (x_parser x)) (x_marks x) (x_p x) -> J (phase_of (x_parser x)) (x_user x) ->
  exists r, bytes_loop settings data fuel x = Ok r /\ call_result r.
Proof.
  revert x. induction fuel as [|fuel IH]; intros x Hp He Hx Hf Hm HJ; [lia|]. cbn [bytes_loop].
  destruct (Z.eqb_spec (x_p x) len) as [Hl|Hl]; [by apply leftover_ok|].
  assert (Hld : exists ch, load data (x_p x) = Ok ch).
  { unfold load. unfold HttpParser.len in *. decide_tests.
    destruct (lookup_lt_is_Some_2 data (Z.to_nat (x_p x))) as [ch ->]; [lia|eauto]. }
  destruct Hld as [ch ->]. cbn [mbind outcome_bind].
  destruct (count_header (x_parser x)) as [[|] p'] eqn:Ec; cbn [negb].
  - destruct (count_header_ok _ _ Hp Ec) as (Hb & Hs & Hph & He').
    destruct (reexecute_ok reexecutions (x_p x) (with_parser x p') ch) as (r & -> & Hr).
    + split; cbn [with_parser x_parser x_user x_p x_marks]; [done|congruence|lia|by rewrite Hs|by rewrite Hph].
    + cbn [with_parser x_parser]. unfold reexecutions. destruct (pstate p'); cbn; lia.
    + done.
    + cbn [mbind outcome_bind]. destruct r as [[|v|] y]; cbn [byte_result] in Hr.
      * destruct Hr as (? & ? & ? & ? & ?). apply IH; cbn [x_parser x_user x_p x_marks with_parser] in *; try done; lia.
      * eexists. split; [reflexivity|]. done.
      * eexists. split; [reflexivity|]. unfold error_label, call_result. destruct Hr. split_and!; try done; [lia..|].
        destruct (is_ok (http_errno (x_parser y))) eqn:Ei; [done|]. intros H'. by rewrite H' in Ei.
  - eexists. split; [reflexivity|]. unfold error_label, call_result. cbn [with_parser x_parser x_p x_user].
    split_and!; [lia|lia|by apply (cs_any Hcb _ _ HJ)|].
    unfold count_header in Ec. destruct (PARSING_HEADER _); [|done]. destruct (HTTP_MAX_HEADER_SIZE <? _); [|done].
    injection Ec as <-. done.
Qed.

(** The rule: on any data the parser returns, and its callbacks have kept the
    application's invariant. *)
Lemma execute_rule p a :
  data <> [] -> parser_ok p -> http_errno p = HPE_OK -> J (phase_of p) a ->
  exists n p' a', http_parser_execute settings data p a = Ok (n, p', a') /\ 0 <= n <= len /\ D a' /\
    (http_errno p' = HPE_OK -> parser_ok p' /\ J (phase_of p') a').
Proof.
  intros Hd Hp He HJ. unfold http_parser_execute. rewrite He. cbn [is_ok negb].
  assert (Hl : 0 < len) by (unfold HttpParser.len; destruct data; [done|cbn; lia]).
  rewrite (proj2 (Z.eqb_neq len 0)) by lia.
  destruct (bytes_loop_ok (S (length data)) (mkExec p a 0 (first_marks (pstate p)))) as (r & -> & Hr);
    cbn [x_parser x_user x_p x_marks]; try done; [lia|unfold HttpParser.len; lia| |].
  - destruct (pstate p); split; try done; intros k; destruct k; cbn; try done; intros m [= <-]; done.
  - destruct r as [[n p'] a']. eauto.
Qed.

End Rule.
