(* ===== verification/HttpSplit.v ===== *)
(** * The HTTP parser and the splitting of its input

    A stream may reach http_parser_execute in any pieces: the parser ends in the
    same state, and callbacks that append what they are given leave the
    application in the same state, as if it had come at once. *)

From S2P Require Import Prelude HttpParser HttpFacts HttpRun.

(** ** Pieces of data *)

Lemma read_block_ok (d : bytes) m u : 0 <= m <= u -> u <= Z.of_nat (length d) ->
  read_block d m (u - m) = Ok (take (Z.to_nat (u - m)) (drop (Z.to_nat m) d)).
Proof. intros. unfold read_block. decide_tests. done. Qed.

Lemma read_block_prefix (a b : bytes) m u : 0 <= m <= u -> u <= Z.of_nat (length a) ->
  read_block (a ++ b) m (u - m) = read_block a m (u - m).
Proof.
  intros Hm Hu. rewrite !read_block_ok by (rewrite ?length_app; lia).
  rewrite drop_app_le, take_app_le by (rewrite ?length_drop; lia). done.
Qed.

Lemma read_shift (a b : bytes) m u : 0 <= m <= u -> u <= Z.of_nat (length b) ->
  read_block (a ++ b) (Z.of_nat (length a) + m) (u - m) = read_block b m (u - m).
Proof.
  intros Hm Hu.
  replace (u - m) with (Z.of_nat (length a) + u - (Z.of_nat (length a) + m)) at 1 by lia.
  rewrite !read_block_ok by (rewrite ?length_app; lia). rewrite drop_app_ge by lia.
  do 2 f_equal; [lia|]. f_equal. lia.
Qed.

Lemma read_across (a b : bytes) m u : 0 <= m <= Z.of_nat (length a) -> 0 <= u <= Z.of_nat (length b) ->
  read_block (a ++ b) m (Z.of_nat (length a) + u - m) = Ok (drop (Z.to_nat m) a ++ take (Z.to_nat u) b).
Proof.
  intros Hm Hu. rewrite read_block_ok by (rewrite ?length_app; lia). f_equal.
  rewrite drop_app_le by lia. rewrite take_app_ge by (rewrite length_drop; lia).
  do 2 f_equal. rewrite length_drop. lia.
Qed.

Section Split.
Context {A : Type} (st : http_parser_settings A).

(** Data callbacks that do not look at the parser, do not pause it, and treat
    two pieces like one. *)
Record appends : Prop := {
  ap_parser k cb p p' d u : data_cb st k = Some cb -> cb p d u = cb p' d u;
  ap_pauses k cb p d u r : data_cb st k = Some cb -> cb p d u = Ok r -> cb_pauses r = false;
  ap_app k cb p d e u : data_cb st k = Some cb ->
    cb p (d ++ e) u = (r ← cb p d u; if cb_ret r =? 0 then cb p e (cb_user r) else Ok r) }.

Context (J : phase -> A -> Prop) (D : A -> Prop) (Hcb : callbacks_ok st J D) (Hap : appends).
Implicit Type x y : exec A.

(** The data callback of a mark that is set. *)
Definition clear_mark x (k : mark_kind) (u : A) : exec A := mkExec (x_parser x) u (x_p x) (set_mark (x_marks x) k None).
Definition fail_call x (k : mark_kind) (u : A) : exec A :=
  mkExec (set_http_errno (x_parser x) (data_errno k)) u (x_p x) (x_marks x).

Lemma data_value data k upto er x m cb d r :
  http_errno (x_parser x) = HPE_OK -> get_mark (x_marks x) k = Some m -> data_cb st k = Some cb ->
  read_block data m (upto - m) = Ok d -> cb (x_parser x) d (x_user x) = Ok r ->
  CALLBACK_DATA_ st data k upto er x =
    Ok (if cb_ret r =? 0 then (None, clear_mark x k (cb_user r)) else (Some er, fail_call x k (cb_user r))).
Proof.
  intros He Hm Hk Hd Hr. unfold CALLBACK_DATA_. rewrite He, Hm, Hk, Hd. cbn [is_ok guard_trap mbind outcome_bind].
  rewrite Hr. cbn [mbind outcome_bind]. unfold after_callback. rewrite (ap_pauses Hap _ _ _ _ _ _ Hk Hr).
  cbn [mbind outcome_bind x_parser]. destruct (cb_ret r =? 0); cbn [negb].
  - cbn [x_parser]. by rewrite He.
  - cbn. by destruct k.
Qed.

(** [d] was given to the callback for [k] in the state [u], which left [u']. *)
Definition delivered (k : mark_kind) (d : bytes) (u u' : A) : Prop :=
  match data_cb st k with
  | None => u' = u
  | Some cb => exists r, (forall p, cb p d u = Ok r) /\ cb_ret r = 0 /\ cb_user r = u'
  end.

Lemma delivered_app k cb p d e u u' :
  data_cb st k = Some cb -> delivered k d u u' -> cb p (d ++ e) u = cb p e u'.
Proof.
  intros Hk. unfold delivered. rewrite Hk. intros (r & Hr & H0 & Hu).
  rewrite (ap_app Hap k) by done. rewrite Hr. cbn [mbind outcome_bind]. by rewrite H0, Hu.
Qed.

(** ** Two runs

    The run on [a ++ b], past [a], beside the run on [b]. *)
Context (a b : bytes).
Abbreviation W := (a ++ b).
Abbreviation n := (Z.of_nat (length a)).

Lemma len_W : len W = n + len b.
Proof. unfold len. rewrite length_app. lia. Qed.

Definition pending_mark x y (k : mark_kind) (m : Z) : Prop :=
  get_mark (x_marks x) k = Some m /\ 0 <= m <= n /\ get_mark (x_marks y) k = Some 0 /\
  forall k', k' <> k -> get_mark (x_marks x) k' = None /\ get_mark (x_marks y) k' = None.

(** The same marks and user, or data that the run on [b] has delivered already. *)
Inductive pend x y : Prop :=
| Plain : x_user x = x_user y -> (forall k, get_mark (x_marks x) k = Z.add n <$> get_mark (x_marks y) k) -> pend x y
| Pending k m : pending_mark x y k m -> delivered k (drop (Z.to_nat m) a) (x_user x) (x_user y) -> pend x y.

Record shifted x y : Prop := {
  sh_parser : x_parser x = x_parser y;
  sh_pos : x_p x = n + x_p y;
  sh_ge : 0 <= x_p y;
  sh_pend : pend x y }.

Definition res_shifted (r1 r2 : ctl * exec A) : Prop :=
  match r1, r2 with
  | (Next, x), (Next, y) => shifted x y
  | (Return v, x), (Return w, y) =>
      v = n + w /\ x_parser x = x_parser y /\ (http_errno (x_parser x) = HPE_OK -> x_user x = x_user y)
  | (ErrorLabel, x), (ErrorLabel, y) => x_p x = n + x_p y /\ x_parser x = x_parser y
  | _, _ => False
  end.

Definition sim (m1 m2 : outcome (ctl * exec A)) : Prop :=
  exists r1 r2, m1 = Ok r1 /\ m2 = Ok r2 /\ res_shifted r1 r2.

Lemma pend_none x y : no_marks (x_marks x) -> pend x y -> x_user x = x_user y /\ no_marks (x_marks y).
Proof.
  intros Hn [Hu Hm|k m (Hk & _) _].
  - split; [done|]. intros k. specialize (Hm k). rewrite Hn in Hm. by destruct (get_mark (x_marks y) k).
  - by rewrite Hn in Hk.
Qed.

Lemma pend_unmarked x y : no_marks (x_marks x) -> no_marks (x_marks y) -> x_user x = x_user y -> pend x y.
Proof. intros Hx Hy Hu. apply Plain; [done|]. intros k. by rewrite Hx, Hy. Qed.

Lemma pend_ext x y x' y' :
  pend x y -> x_user x' = x_user x -> x_marks x' = x_marks x -> x_user y' = x_user y -> x_marks y' = x_marks y -> pend x' y'.
Proof.
  intros [Hu Hm|k m Hk Hd] H1 H2 H3 H4.
  - apply Plain; rewrite ?H1, ?H2, ?H3, ?H4; done.
  - apply (Pending _ _ k m); unfold pending_mark in *; rewrite ?H1, ?H2, ?H3, ?H4; done.
Qed.

Definition call_shifted (rx ry : option Z * exec A) : Prop :=
  match rx, ry with
  | (None, x), (None, y) => shifted x y /\ x_user x = x_user y
  | (Some e, x), (Some e', y) =>
      e = n + e' /\ x_parser x = x_parser y /\ http_errno (x_parser x) <> HPE_OK /\ x_user x = x_user y
  | _, _ => False
  end.

(** A data callback gives both runs the same: the run on [a ++ b] delivers now
    what the other has delivered in two pieces. *)
Lemma data_shift k extra er x y (P : A -> Prop) :
  shifted x y -> http_errno (x_parser y) = HPE_OK -> only_mark (x_marks y) k (x_p y + extra) ->
  x_p y + extra <= len b -> P (x_user y) -> data_posts D (data_cb st k) P ->
  exists rx ry, CALLBACK_DATA_ st W k (x_p x + extra) (n + er) x = Ok rx /\
    CALLBACK_DATA_ st b k (x_p y + extra) er y = Ok ry /\ call_shifted rx ry.
Proof.
  intros [Hp Hx Hy Hpd] He Hom Hle HP Hposts. assert (Hex : http_errno (x_parser x) = HPE_OK) by congruence.
  assert (Hyk : forall k', k' <> k -> get_mark (x_marks y) k' = None).
  { intros k' Hk. destruct (get_mark (x_marks y) k') eqn:E; [|done]. by destruct (Hom _ _ E). }
  destruct (get_mark (x_marks y) k) as [j|] eqn:Ej.
  2: { assert (Hny : no_marks (x_marks y)) by (intros k'; destruct (decide (k' = k)); [by subst|by apply Hyk]).
       destruct Hpd as [Hu Hm|k0 m (_ & _ & H0 & _) _]; [|by rewrite Hny in H0].
       assert (Hnx : no_marks (x_marks x)) by (intros k'; by rewrite Hm, Hny).
       rewrite !data_unmarked by (rewrite ?Hex, ?He; done).
       eexists _, _. split; [reflexivity|]. split; [reflexivity|]. split; [|done]. split; try done.
       by apply pend_unmarked. }
  destruct (Hom _ _ Ej) as [_ Hj].
  assert (Hclear : forall u, call_shifted (None, clear_mark x k u) (None, clear_mark y k u)).
  { intros u. split; [|done]. split; try done. apply pend_unmarked; [| |done]; intros k'; cbn [clear_mark x_marks];
      (destruct (decide (k' = k)) as [->|Hne]; [apply get_set_mark|rewrite get_set_mark_ne by done]); [|by apply Hyk].
    destruct Hpd as [_ Hm|k0 m (_ & _ & H0 & Hn) _]; [rewrite Hm, Hyk by done; done|].
    destruct (decide (k0 = k)) as [->|Hne']; [by apply Hn|]. rewrite Hyk in H0; done. }
  destruct (data_cb st k) as [cb|] eqn:Ek; cbn [data_posts] in Hposts.
  - assert (Hle' : x_p y + extra <= Z.of_nat (length b)) by (unfold len in Hle; lia).
    destruct (read_block b j (x_p y + extra - j)) as [d|] eqn:Ed; [|by rewrite read_block_ok in Ed].
    destruct (Hposts (x_parser y) d (x_user y) HP) as (r & Hr & _).
    assert (Hcx : exists m dx, get_mark (x_marks x) k = Some m /\ read_block W m (x_p x + extra - m) = Ok dx
                  /\ cb (x_parser x) dx (x_user x) = Ok r).
    { destruct Hpd as [Hu Hm|k0 m (Hk & Hm & H0 & Hn) Hd].
      - exists (n + j), d. split_and!; [by rewrite Hm, Ej| |by rewrite Hu, Hp].
        replace (x_p x + extra - (n + j)) with (x_p y + extra - j) by lia. by rewrite read_shift.
      - destruct (decide (k = k0)) as [<-|Hne]; [|by rewrite (proj2 (Hn _ Hne)) in Ej].
        rewrite Ej in H0. injection H0 as ->.
        exists m, (drop (Z.to_nat m) a ++ d). split_and!; [done| |].
        + replace (x_p x + extra - m) with (n + (x_p y + extra) - m) by lia. rewrite read_across by lia.
          rewrite read_block_ok in Ed by lia. injection Ed as <-. by rewrite Z.sub_0_r.
        + rewrite (delivered_app k cb _ _ _ _ (x_user y)) by done. by rewrite Hp. }
    destruct Hcx as (m & dx & Hmx & Hdx & Hrx).
    rewrite (data_value W k _ _ x m cb dx r), (data_value b k _ _ y j cb d r) by done.
    eexists _, _. split; [reflexivity|]. split; [reflexivity|].
    destruct (cb_ret r =? 0); [apply Hclear|]. cbn. rewrite Hp. split_and!; try done. by destruct k.
  - assert (Hmx : exists m, get_mark (x_marks x) k = Some m).
    { destruct Hpd as [Hu Hm|k0 m (Hk & Hm & H0 & Hn) Hd]; [rewrite Hm, Ej; eauto|].
      destruct (decide (k = k0)) as [<-|Hne]; [eauto|by rewrite (proj2 (Hn _ Hne)) in Ej]. }
    destruct Hmx as [m Hmx]. unfold CALLBACK_DATA_. rewrite Hex, He, Hmx, Ej, Ek. cbn [is_ok guard_trap].
    assert (Hu : x_user x = x_user y).
    { destruct Hpd as [Hu Hm|k0 m0 (Hk & Hm & H0 & Hn) Hd]; [done|].
      destruct (decide (k = k0)) as [<-|Hne]; [|by rewrite (proj2 (Hn _ Hne)) in Ej].
      unfold delivered in Hd. by rewrite Ek in Hd. }
    eexists _, _. split; [reflexivity|]. split; [reflexivity|]. rewrite Hu. apply Hclear.
Qed.

(** Callbacks without data see the same in both runs. *)
Lemma after_callback_shift x y r failed e x' :
  x_parser x = x_parser y -> x_p x = n + x_p y -> after_callback x r failed e = Ok x' ->
  exists y', after_callback y r failed e = Ok y' /\ x_parser x' = x_parser y' /\ x_user x' = x_user y' /\
    x_p x' = n + x_p y' /\ x_p y' = x_p y /\ x_marks x' = x_marks x /\ x_marks y' = x_marks y.
Proof.
  intros Hp Hx. unfold after_callback. rewrite Hp. intros H. inv_bind H. injection H as <-.
  rewrite E. cbn [mbind outcome_bind]. eexists. split; [reflexivity|]. by split_and!.
Qed.

Definition plain_shifted x y : Prop :=
  x_parser x = x_parser y /\ x_user x = x_user y /\ x_p x = n + x_p y /\ no_marks (x_marks x) /\ no_marks (x_marks y).

Lemma plain_shifted_ok x y : plain_shifted x y -> 0 <= x_p y -> shifted x y.
Proof. intros (? & ? & ? & ? & ?) ?. split; try done. by apply pend_unmarked. Qed.

Definition call_plain (rx ry : option Z * exec A) : Prop :=
  match rx, ry with
  | (None, x), (None, y) => plain_shifted x y
  | (Some e, x), (Some e', y) => e = n + e' /\ x_parser x = x_parser y /\ x_user x = x_user y
  | _, _ => False
  end.

Lemma notify_shift f er x y rx :
  plain_shifted x y -> CALLBACK_NOTIFY_ st f (n + er) x = Ok rx ->
  exists ry, CALLBACK_NOTIFY_ st f er y = Ok ry /\ call_plain rx ry.
Proof.
  intros (Hp & Hu & Hx & Hmx & Hmy). unfold CALLBACK_NOTIFY_. rewrite Hp, Hu.
  destruct (is_ok (http_errno (x_parser y))); [|done]. cbn [guard_trap].
  destruct (notify_cb st f) as [cb|]; [|intros [= <-]; eexists; split; [reflexivity|]; by split_and!].
  intros H. inv_bind H. rewrite E. cbn [mbind outcome_bind]. inv_bind H. injection H as <-.
  destruct (after_callback_shift _ y _ _ _ _ Hp Hx E0) as (y' & -> & Hp' & Hu' & Hx' & Hy' & Hm1 & Hm2).
  cbn [mbind outcome_bind]. eexists. split; [reflexivity|]. rewrite Hp'.
  destruct (is_ok (http_errno (x_parser y'))); cbn; [|by split_and!].
  unfold plain_shifted. rewrite Hm1, Hm2. by split_and!.
Qed.

Lemma headers_shift x y rx :
  plain_shifted x y -> call_headers_complete st x = Ok rx ->
  exists ry, call_headers_complete st y = Ok ry /\ call_plain rx ry.
Proof.
  intros (Hp & Hu & Hx & Hmx & Hmy). unfold call_headers_complete. rewrite Hp, Hu.
  destruct (on_headers_complete st) as [cb|].
  - intros H. inv_bind H. rewrite E. cbn [mbind outcome_bind]. inv_bind H. injection H as <-.
    destruct (after_callback_shift _ y _ _ _ _ Hp Hx E0) as (y' & -> & Hp' & Hu' & Hx' & Hy' & Hm1 & Hm2).
    cbn [mbind outcome_bind]. eexists. split; [reflexivity|].
    destruct (cb_ret a0 =? 1); unfold with_parser; cbn [x_parser]; rewrite Hp';
      (destruct (is_ok _); cbn; [|by split_and!; rewrite ?Hp']); unfold plain_shifted; cbn; rewrite Hm1, Hm2, ?Hp'; by split_and!.
  - intros [= <-]. eexists. split; [reflexivity|]. destruct (is_ok _); cbn; by split_and!.
Qed.

(** *** A case and its callback *)

Section Perform.
Context (x y : exec A) (s s' : stmt).
Context (Hx : at_byte W J x) (Hco : case_ok (x_parser x) (len W - x_p x) s).
Context (Hy : at_byte b J y) (Hco' : case_ok (x_parser y) (len b - x_p y) s').
Context (Hact : st_act s = st_act s') (Hsh : shifted (apply_stmt x s) (apply_stmt y s')).

(** The two continuations, from states without marks. *)
Context (go go' : exec A -> outcome (ctl * exec A)).
Context (Hgo : forall x2 y2, reenters (st_act s) = true -> enters W J x s x2 -> enters b J y s' y2 -> shifted x2 y2 -> sim (go x2) (go' y2)).

Lemma perform_data k extra c ag : st_act s = Data k extra c ag ->
  sim (perform st W go (apply_stmt x s) (Data k extra c ag)) (perform st b go' (apply_stmt y s') (Data k extra c ag)).
Proof.
  intros Ha. pose proof Ha as Ha'. rewrite Hact in Ha'. cbn [perform].
  destruct (data_case_ok st W J D Hcb x s k extra c ag
    (if c then x_p (apply_stmt x s) + 1 else x_p (apply_stmt x s)) Hx Hco Ha) as (rx & Hrx & Hcx & Hmx).
  destruct (data_case_ok st b J D Hcb y s' k extra c ag
    (if c then x_p (apply_stmt y s') + 1 else x_p (apply_stmt y s')) Hy Hco' Ha') as (ry & Hry & Hcy & Hmy).
  rewrite Hrx, Hry. cbn [mbind outcome_bind].
  pose proof Hco' as [Hsk Hfl _ Hen _]. rewrite Ha' in Hen.
  pose proof (marks_data _ _ _ _ _ _ _ _ (ab_marks _ _ _ Hy) ltac:(pose proof (ab_pos _ _ _ Hy); lia) Hfl Ha') as Hom.
  unfold flow in Hfl. rewrite Ha' in Hfl. destruct Hfl as (Hph & Hni & Hu & Hbo & Hex & _).
  destruct (data_shift k extra (if c then x_p (apply_stmt y s') + 1 else x_p (apply_stmt y s'))
    (apply_stmt x s) (apply_stmt y s') (J (phase_of (x_parser y)))) as (rx' & ry' & Hrx' & Hry' & Hc).
  - done.
  - cbn. rewrite Hen by done. apply Hy.
  - intros k' m Hk. rewrite apply_stmt_eq in Hk |- *. cbn [x_marks x_p] in *. destruct (Hom _ _ Hk). split; [done|lia].
  - rewrite apply_stmt_eq. cbn [x_p]. lia.
  - apply Hy.
  - by apply (data_cb_posts st J D).
  - assert (Her : n + (if c then x_p (apply_stmt y s') + 1 else x_p (apply_stmt y s'))
                  = (if c then x_p (apply_stmt x s) + 1 else x_p (apply_stmt x s)))
      by (destruct Hsh as [_ -> _ _]; destruct c; lia).
    rewrite Her, Hrx in Hrx'. rewrite Hry in Hry'. injection Hrx' as <-. injection Hry' as <-.
    destruct rx as [[e|] x'], ry as [[e'|] y']; cbn [call_shifted] in Hc; try done; cbn [or_return].
    + eexists _, _. split; [reflexivity|]. split; [reflexivity|]. cbn. destruct Hc as (? & ? & ? & ?). by split_and!.
    + destruct Hc as [Hc _]. destruct ag; [|eexists _, _; split; [reflexivity|]; split; [reflexivity|]; done].
      apply Hgo; [by rewrite Ha|by apply (data_next W J D x s Hx Hco k extra c); auto
                 |by apply (data_next b J D y s' Hy Hco' k extra c); auto|done].
Qed.

Lemma perform_notify f lv : st_act s = Notify f lv ->
  sim (perform st W go (apply_stmt x s) (Notify f lv)) (perform st b go' (apply_stmt y s') (Notify f lv)).
Proof.
  intros Ha. pose proof Ha as Ha'. rewrite Hact in Ha'. cbn [perform].
  destruct (notify_case_ok st W J D Hcb x s f lv (x_p (apply_stmt x s) + 1) Hx Hco Ha) as (rx & Hrx & Hcx & Hmx & _ & Hnx).
  assert (Hmk : st_mark s = None).
  { destruct Hco as [_ Hfl _ _ _]. unfold flow in Hfl. rewrite Ha in Hfl. by destruct f; destruct Hfl as (_ & _ & ? & _). }
  assert (Hnx1 : no_marks (x_marks (apply_stmt x s))) by (rewrite apply_stmt_eq, Hmk; done).
  destruct (pend_none _ _ Hnx1 (sh_pend _ _ Hsh)) as [Hu Hny1].
  assert (Hpl : plain_shifted (apply_stmt x s) (apply_stmt y s')) by (split_and!; try done; apply Hsh).
  replace (x_p (apply_stmt x s) + 1) with (n + (x_p (apply_stmt y s') + 1)) in * by (rewrite (sh_pos _ _ Hsh); lia).
  destruct (notify_shift f _ _ _ _ Hpl Hrx) as (ry & Hry & Hc). rewrite Hrx, Hry. cbn [mbind outcome_bind].
  assert (Hyp : forall o y', ry = (o, y') -> x_p y' = x_p (apply_stmt y s')).
  { intros o y' ->. destruct (notify_case_ok st b J D Hcb y s' f lv (x_p (apply_stmt y s') + 1) Hy Hco' Ha') as (r & Hr & Hcy & _).
    rewrite Hry in Hr. injection Hr as <-. by destruct Hcy as (_ & ? & _). }
  destruct rx as [[e|] x'], ry as [[e'|] y']; cbn [call_plain] in Hc; try done; cbn [or_return];
    (eexists _, _; split; [reflexivity|]; split; [reflexivity|]).
  - destruct Hc as (-> & Hp & Hu'). cbn. by split_and!.
  - specialize (Hyp _ _ eq_refl). pose proof Hc as (Hp' & Hu' & Hx' & _). destruct lv; cbn.
    + split_and!; try done. lia.
    + apply plain_shifted_ok; [done|]. rewrite Hyp. apply Hsh.
Qed.

Lemma perform_headers : st_act s = HeadersComplete ->
  sim (perform st W go (apply_stmt x s) HeadersComplete) (perform st b go' (apply_stmt y s') HeadersComplete).
Proof.
  intros Ha. pose proof Ha as Ha'. rewrite Hact in Ha'. cbn [perform].
  pose proof Hco as [_ Hfl _ Hen _]. rewrite Ha in Hen. unfold flow in Hfl. rewrite Ha in Hfl. destruct Hfl as (Hph & Hst & Hmk & Hc0).
  assert (Hnx1 : no_marks (x_marks (apply_stmt x s))).
  { rewrite apply_stmt_eq, Hmk. cbn. by apply (marks_none (pstate (x_parser x)) _ (x_p x)); [apply Hx|]. }
  destruct (pend_none _ _ Hnx1 (sh_pend _ _ Hsh)) as [Hu Hny1].
  assert (Hpl : plain_shifted (apply_stmt x s) (apply_stmt y s')) by (split_and!; try done; apply Hsh).
  destruct (headers_complete_ok st J D Hcb (apply_stmt x s)) as (o & x' & Hrx & _ & Hxp & Ho).
  { cbn. rewrite Hen by done. apply Hx. }
  { pose proof (ab_user _ _ _ Hx) as H. by rewrite Hph in H. }
  destruct (headers_shift _ _ _ Hpl Hrx) as (ry & Hry & Hc). rewrite Hrx, Hry. cbn [mbind outcome_bind].
  destruct o as [e|], ry as [[e'|] y']; cbn [call_plain] in Hc; try done; cbn [or_return].
  - eexists _, _. split; [reflexivity|]. split; [reflexivity|]. destruct Hc as (-> & Hp & Hu'). cbn. by split_and!.
  - destruct (headers_next st W J D Hcb x s Hx Hco x' Ha Hrx) as [Hex _].
    destruct (headers_next st b J D Hcb y s' Hy Hco' y' Ha' Hry) as [Hey _].
    apply Hgo; try done; [by rewrite Ha|]. apply plain_shifted_ok; [done|].
    destruct Hey as (_ & _ & ? & _). pose proof (ab_pos _ _ _ Hy). lia.
Qed.

Lemma perform_shift :
  sim (perform st W go (apply_stmt x s) (st_act s)) (perform st b go' (apply_stmt y s') (st_act s)).
Proof.
  enough (Hac : forall ac, st_act s = ac ->
    sim (perform st W go (apply_stmt x s) ac) (perform st b go' (apply_stmt y s') ac)) by (by apply Hac).
  intros [ | | |f lv|k extra c ag| ] Ha.
  - eexists _, _. split; [reflexivity|]. split; [reflexivity|]. done.
  - apply Hgo; [by rewrite Ha|by apply (reexecute_next W J x s)| |done]. apply (reexecute_next b J y s'); try done. by rewrite <-Hact.
  - eexists _, _. split; [reflexivity|]. split; [reflexivity|]. split; apply Hsh.
  - by apply perform_notify.
  - by apply perform_data.
  - by apply perform_headers.
Qed.

End Perform.

(** *** A byte *)

Lemma flow_mark p s k : flow p s -> st_act s <> Error -> st_mark s = Some k ->
  mark_class (pstate p) = None \/ mark_class (pstate p) = Some k.
Proof.
  intros Hf Hne Hk. unfold flow in Hf. rewrite Hk in Hf. destruct (st_act s) as [ | | |[] ?|k' ? ? ?| ].
  - tauto.
  - by destruct Hf as (_ & ? & _).
  - done.
  - by destruct Hf as (_ & _ & ? & _).
  - by destruct Hf as (_ & _ & ? & _).
  - destruct Hf as (_ & _ & _ & _ & _ & _ & Hc & Hm). destruct Hm as [|[= <-]]; [done|]. destruct Hc as [|[? _]]; auto.
  - by destruct Hf as (_ & _ & ? & _).
Qed.

Lemma marks_after_shift x y mk :
  x_p x = n + x_p y -> (forall k, get_mark (x_marks x) k = Z.add n <$> get_mark (x_marks y) k) ->
  forall k, get_mark (marks_after (x_marks x) mk (x_p x)) k = Z.add n <$> get_mark (marks_after (x_marks y) mk (x_p y)) k.
Proof.
  intros Hx Hm k. destruct mk as [k0|]; cbn [marks_after]; [|done].
  rewrite (Hm k0). destruct (get_mark (x_marks y) k0); cbn [fmap option_fmap option_map]; [done|].
  destruct (decide (k = k0)) as [->|Hne]; [rewrite !get_set_mark; cbn; by rewrite Hx|by rewrite !get_set_mark_ne].
Qed.

Lemma apply_shift x y s :
  shifted x y -> marks_ok (pstate (x_parser x)) (x_marks x) (x_p x) -> flow (x_parser x) s -> st_act s <> Error ->
  0 <= st_skip s -> shifted (apply_stmt x s) (apply_stmt y s).
Proof.
  intros [Hp Hx Hy Hpd] Hm Hf Hne Hsk. rewrite !apply_stmt_eq. split; cbn [x_parser x_p x_user x_marks]; [done|lia|lia|].
  destruct Hpd as [Hu Hms|k m Hpm Hd].
  - apply Plain; [done|]. cbn [x_marks]. by apply marks_after_shift.
  - apply (Pending _ _ k m); [|done]. pose proof Hpm as (Hk & Hmn & H0 & Hoth).
    assert (Hmk : st_mark s = None \/ st_mark s = Some k).
    { destruct (st_mark s) as [k0|] eqn:E; [|auto]. right. destruct (mo_class _ _ _ Hm _ _ Hk) as [Hc _].
      destruct (flow_mark _ _ _ Hf Hne E) as [H|H]; rewrite H in Hc; [done|]. by injection Hc as ->. }
    destruct Hmk as [-> | ->]; cbn [marks_after]; [done|]. by rewrite Hk, H0.
Qed.

Lemma switch_any_char p c c' avail : pstate p = s_message_done -> switch p c avail = switch p c' avail.
Proof. intros H. unfold switch. by rewrite H. Qed.

Lemma reexecute_shift fuel x y ch ch' :
  at_byte W J x -> at_byte b J y -> shifted x y -> (rank (pstate (x_parser x)) < fuel)%nat ->
  ch = ch' \/ pstate (x_parser x) = s_message_done ->
  sim (reexecute_byte st W fuel x ch) (reexecute_byte st b fuel y ch').
Proof.
  revert x y. induction fuel as [|fuel IH]; intros x y Hx Hy Hsh Hf Hch; [lia|]. cbn [reexecute_byte].
  pose proof (ab_pos _ _ _ Hx) as Hpx. pose proof (ab_pos _ _ _ Hy) as Hpy. pose proof Hsh as [Hp Hxy _ _].
  destruct (switch_ok (x_parser x) ch (len W - x_p x) (ab_byte _ _ _ Hx) ltac:(lia)) as (s & Hs & Hco).
  rewrite Hs. cbn [mbind outcome_bind].
  assert (Hs' : switch (x_parser y) ch' (len b - x_p y) = Ok s).
  { rewrite <-Hs, <-Hp, len_W, Hxy. replace (n + len b - (n + x_p y)) with (len b - x_p y) by lia.
    destruct Hch as [->|Hd]; [done|by apply switch_any_char]. }
  rewrite Hs'. cbn [mbind outcome_bind].
  destruct (match st_act s with Error => true | _ => false end) eqn:Her.
  { destruct (st_act s); try done. eexists _, _. split; [reflexivity|]. split; [reflexivity|].
    rewrite !apply_stmt_eq. cbn. split; [lia|done]. }
  assert (Hne : st_act s <> Error) by (intros H; by rewrite H in Her).
  assert (Hco' : case_ok (x_parser y) (len b - x_p y) s).
  { rewrite <-Hp. replace (len b - x_p y) with (len W - x_p x) by (rewrite len_W; lia). done. }
  apply perform_shift; try done.
  - apply apply_shift; try done; [apply Hx|apply Hco|apply Hco].
  - intros x2 y2 _ (Hx2 & Hr2 & _) (Hy2 & _) Hsh2. apply IH; try done; [lia|].
    destruct Hch as [|Hd]; [auto|]. rewrite Hd in Hr2. cbn in Hr2. lia.
Qed.

(** *** The loops *)

Definition loop_shifted (r1 r2 : Z * http_parser * A) : Prop :=
  let '(n1, p1, u1) := r1 in let '(n2, p2, u2) := r2 in
  n1 = n + n2 /\ p1 = p2 /\ (http_errno p1 = HPE_OK -> u1 = u2).

Definition loop_sim (m1 m2 : outcome (Z * http_parser * A)) : Prop :=
  exists r1 r2, m1 = Ok r1 /\ m2 = Ok r2 /\ loop_shifted r1 r2.

(** The state of a run between two bytes. *)
Record between (data : bytes) x : Prop := {
  bt_parser : parser_ok (x_parser x);
  bt_errno : http_errno (x_parser x) = HPE_OK;
  bt_pos : 0 <= x_p x <= len data;
  bt_marks : marks_ok (pstate (x_parser x)) (x_marks x) (x_p x);
  bt_user : J (phase_of (x_parser x)) (x_user x) }.

Lemma leftover_shift x y :
  between W x -> between b y -> shifted x y -> x_p y = len b ->
  loop_sim (leftover st W x) (leftover st b y).
Proof.
  intros Hx Hy Hsh Hl. pose proof Hsh as [Hp Hxy _ Hpd].
  destruct (marks_only _ _ _ (bt_marks _ _ Hy)) as (k & Hom & Hk).
  assert (Hkx : only_mark (x_marks x) k (x_p x)).
  { intros k' m Hm. destruct Hpd as [_ Hms|k0 m0 (H1 & H2 & H3 & H4) _].
    - rewrite Hms in Hm. destruct (get_mark (x_marks y) k') as [j|] eqn:E; [|done]. injection Hm as <-.
      destruct (Hom _ _ E). split; [done|lia].
    - destruct (Hom _ _ H3) as [-> ?]. destruct (decide (k' = k)) as [->|Hne]; [|by rewrite (proj1 (H4 _ Hne)) in Hm].
      rewrite H1 in Hm. injection Hm as <-. split; [done|lia]. }
  rewrite (leftover_eq st W x k (x_p x)), (leftover_eq st b y k (x_p y)) by (rewrite ?(bt_errno _ _ Hx), ?(bt_errno _ _ Hy); done).
  destruct Hk as [Hk|Hn].
  - destruct (class_phase _ _ (bt_parser _ _ Hy) Hk) as (H1 & H2 & H3).
    destruct (data_shift k 0 (x_p y) x y (J (phase_of (x_parser y)))) as (rx & ry & Hrx & Hry & Hc); try done.
    + by rewrite (bt_errno _ _ Hy).
    + by rewrite Z.add_0_r.
    + lia.
    + apply Hy.
    + by apply (data_cb_posts st J D).
    + rewrite !Z.add_0_r in *. rewrite Hxy in Hrx |- *. rewrite Hrx, Hry. cbn [mbind outcome_bind].
      destruct rx as [[e|] x'], ry as [[e'|] y']; cbn [call_shifted] in Hc; try done;
        (eexists _, _; split; [reflexivity|]; split; [reflexivity|]); cbn.
      * destruct Hc as (-> & ? & ? & ?). by split_and!.
      * destruct Hc as [[? ? ? ?] ?]. split_and!; try done. rewrite len_W. lia.
  - assert (Hnx : no_marks (x_marks x)).
    { intros k'. destruct Hpd as [_ Hms|k0 m0 (_ & _ & H3 & _) _]; [by rewrite Hms, Hn|by rewrite Hn in H3]. }
    destruct (pend_none _ _ Hnx Hpd) as [Hu _].
    rewrite !data_unmarked by (rewrite ?(bt_errno _ _ Hx), ?(bt_errno _ _ Hy); done). cbn [mbind outcome_bind].
    eexists _, _. split; [reflexivity|]. split; [reflexivity|]. cbn. split_and!; try done. rewrite len_W. lia.
Qed.

Definition next_byte x : exec A := mkExec (x_parser x) (x_user x) (x_p x + 1) (x_marks x).

Lemma between_byte data x p' : between data x -> x_p x <> len data -> count_header (x_parser x) = (true, p') ->
  at_byte data J (with_parser x p').
Proof.
  intros [Hp He Hx Hm HJ] Hl Hc. destruct (count_header_ok _ _ Hp Hc) as (Hb & Hs & Hph & He').
  split; cbn [with_parser x_parser x_user x_p x_marks]; [done|congruence|lia|by rewrite Hs|by rewrite Hph].
Qed.

Lemma between_next data pos x : 0 <= pos -> byte_result data J D pos (Next, x) -> between data (next_byte x).
Proof. intros ? (? & ? & ? & ? & ?). split; cbn; try done. lia. Qed.

Lemma load_in data i : 0 <= i < len data -> exists ch, load data i = Ok ch.
Proof.
  unfold load, len. intros Hi. decide_tests.
  destruct (lookup_lt_is_Some_2 data (Z.to_nat i)) as [ch ->]; [lia|eauto].
Qed.

Lemma rank_fuel s : (rank s < reexecutions)%nat.
Proof. unfold reexecutions. destruct s; cbn; lia. Qed.

Lemma load_shift i : 0 <= i -> load W (n + i) = load b i.
Proof.
  intros Hi. unfold load. decide_tests. rewrite lookup_app_r by lia.
  by replace (Z.to_nat (n + i) - length a)%nat with (Z.to_nat i) by lia.
Qed.

(** What the loop does after a byte. *)
Definition after_byte (data : bytes) (fuel : nat) (r : ctl * exec A) : outcome (Z * http_parser * A) :=
  match r with
  | (Next, x) => bytes_loop st data fuel (next_byte x)
  | (Return v, x) => Ok (v, x_parser x, x_user x)
  | (ErrorLabel, x) => Ok (error_label x)
  end.

Lemma bytes_loop_step data fuel x ch p' :
  x_p x <> len data -> load data (x_p x) = Ok ch -> count_header (x_parser x) = (true, p') ->
  bytes_loop st data (S fuel) x =
    (r ← reexecute_byte st data reexecutions (with_parser x p') ch; after_byte data fuel r).
Proof. intros Hl Hc Hp. cbn [bytes_loop]. rewrite (proj2 (Z.eqb_neq _ _) Hl), Hc, Hp. done. Qed.

Lemma after_byte_shift fuel fuel' posx posy rx ry :
  (forall x y, between W x -> between b y -> shifted x y ->
     len b - x_p y < Z.of_nat fuel -> len b - x_p y < Z.of_nat fuel' ->
     loop_sim (bytes_loop st W fuel x) (bytes_loop st b fuel' y)) ->
  0 <= posx -> 0 <= posy -> len b - posy < Z.of_nat (S fuel) -> len b - posy < Z.of_nat (S fuel') ->
  byte_result W J D posx rx -> byte_result b J D posy ry -> res_shifted rx ry ->
  loop_sim (after_byte W fuel rx) (after_byte b fuel' ry).
Proof.
  intros IH Hpx Hpy Hf Hf' Hbrx Hbry Hrs.
  destruct rx as [[|v|] x'], ry as [[|w|] y']; cbn [res_shifted] in Hrs; try done; cbn [after_byte].
  - pose proof Hbry as (_ & _ & ? & _).
    apply IH; [by apply (between_next W posx)|by apply (between_next b posy)| |cbn; lia|cbn; lia].
    destruct Hrs as [? ? ? Hpd']. split; cbn; [done|lia|lia|]. by apply (pend_ext x' y').
  - eexists _, _. split; [reflexivity|]. split; [reflexivity|]. cbn. tauto.
  - eexists _, _. split; [reflexivity|]. split; [reflexivity|]. unfold error_label. cbn.
    destruct Hrs as [-> ->]. split_and!; try done. destruct (is_ok (http_errno (x_parser y'))) eqn:Ei; [done|].
    intros H. by rewrite H in Ei.
Qed.

(** Past the limit for headers. *)
Lemma count_header_over p p' : count_header p = (false, p') -> http_errno p' = HPE_HEADER_OVERFLOW.
Proof.
  unfold count_header. destruct (PARSING_HEADER _); [|done]. destruct (HTTP_MAX_HEADER_SIZE <? _); [|done].
  by intros [= <-].
Qed.

Lemma bytes_loop_over data fuel x ch p' :
  x_p x <> len data -> load data (x_p x) = Ok ch -> count_header (x_parser x) = (false, p') ->
  bytes_loop st data (S fuel) x = Ok (x_p x, p', x_user x).
Proof.
  intros Hl Hc Hp. cbn [bytes_loop]. rewrite (proj2 (Z.eqb_neq _ _) Hl), Hc, Hp. cbn [mbind outcome_bind negb].
  unfold error_label. cbn. by rewrite (count_header_over _ _ Hp).
Qed.

Lemma bytes_loop_shift fuel fuel' x y :
  between W x -> between b y -> shifted x y ->
  len b - x_p y < Z.of_nat fuel -> len b - x_p y < Z.of_nat fuel' ->
  loop_sim (bytes_loop st W fuel x) (bytes_loop st b fuel' y).
Proof.
  revert fuel' x y. induction fuel as [|fuel IH]; intros fuel' x y Hx Hy Hsh Hf Hf'.
  { pose proof (bt_pos _ _ Hy). lia. }
  destruct fuel' as [|fuel']; [pose proof (bt_pos _ _ Hy); lia|].
  pose proof Hsh as [Hp Hxy Hge Hpd]. pose proof (bt_pos _ _ Hy) as Hpy.
  destruct (decide (x_p y = len b)) as [Hl|Hl].
  { cbn [bytes_loop]. rewrite len_W, Hxy, Hl, !Z.eqb_refl. by apply leftover_shift. }
  assert (Hlx : x_p x <> len W) by (rewrite len_W; lia).
  destruct (load_in b (x_p y)) as [ch Hch]; [lia|].
  assert (Hchx : load W (x_p x) = Ok ch) by (by rewrite Hxy, load_shift).
  destruct (count_header (x_parser y)) as [[|] p'] eqn:Ec.
  - rewrite (bytes_loop_step W fuel x ch p'), (bytes_loop_step b fuel' y ch p') by (rewrite ?Hp; done).
    assert (Hbx : at_byte W J (with_parser x p')) by (apply between_byte; by rewrite ?Hp).
    assert (Hby : at_byte b J (with_parser y p')) by (by apply between_byte).
    destruct (reexecute_ok st W J D Hcb reexecutions (x_p x) (with_parser x p') ch Hbx) as (rx & Hrx & Hbrx);
      [apply rank_fuel|done|].
    destruct (reexecute_ok st b J D Hcb reexecutions (x_p y) (with_parser y p') ch Hby) as (ry & Hry & Hbry);
      [apply rank_fuel|done|].
    destruct (reexecute_shift reexecutions (with_parser x p') (with_parser y p') ch ch) as (rx' & ry' & Hrx' & Hry' & Hrs);
      [done|done|by split; try done; apply (pend_ext x y)|apply rank_fuel|auto|].
    rewrite Hrx in Hrx'. rewrite Hry in Hry'. injection Hrx' as <-. injection Hry' as <-.
    rewrite Hrx, Hry. cbn [mbind outcome_bind].
    apply (after_byte_shift fuel fuel' (x_p x) (x_p y)); try done; [intros; by apply IH|lia].
  - rewrite (bytes_loop_over W fuel x ch p'), (bytes_loop_over b fuel' y ch p') by (rewrite ?Hp; done).
    eexists _, _. split; [reflexivity|]. split; [reflexivity|]. cbn. split_and!; try done.
    by rewrite (count_header_over _ _ Ec).
Qed.

(** ** The run on [a]

    Up to the end of [a] the runs on [a] and [a ++ b] agree, unless the body
    goes on in [b]. *)

Definition body_fits (p : http_parser) (avail : Z) : Prop :=
  match pstate p with
  | s_body_identity | s_chunk_data => content_length p <= avail
  | s_body_identity_eof => False
  | _ => True
  end.

Lemma switch_fits p ch avail avail' : body_fits p avail -> avail <= avail' -> switch p ch avail' = switch p ch avail.
Proof.
  intros Hf Ha. unfold body_fits in Hf. unfold switch. destruct (pstate p); try done.
  - unfold case_chunk_data. by rewrite !Z.min_l by lia.
  - unfold case_body_identity. by rewrite !Z.min_l by lia.
Qed.

Lemma class_fits p avail : mark_class (pstate p) = None -> body_fits p avail.
Proof. unfold body_fits. by destruct (pstate p). Qed.

Lemma data_prefix k upto er x : only_mark (x_marks x) k upto -> upto <= n ->
  CALLBACK_DATA_ st W k upto er x = CALLBACK_DATA_ st a k upto er x.
Proof.
  intros Hom Hu. unfold CALLBACK_DATA_. destruct (get_mark (x_marks x) k) as [m|] eqn:E; [|done].
  destruct (Hom _ _ E). by rewrite read_block_prefix by lia.
Qed.

Lemma reexecute_prefix fuel x ch :
  at_byte a J x -> body_fits (x_parser x) (len a - x_p x) -> (rank (pstate (x_parser x)) < fuel)%nat ->
  reexecute_byte st W fuel x ch = reexecute_byte st a fuel x ch.
Proof.
  revert x. induction fuel as [|fuel IH]; intros x Hx Hfit Hf; [lia|]. cbn [reexecute_byte].
  pose proof (ab_pos _ _ _ Hx) as Hpx.
  rewrite (switch_fits _ _ (len a - x_p x)) by (try done; unfold len; rewrite length_app; lia).
  destruct (switch_ok (x_parser x) ch (len a - x_p x) (ab_byte _ _ _ Hx) ltac:(lia)) as (s & -> & Hco).
  cbn [mbind outcome_bind]. unfold perform. destruct (st_act s) as [ | | |f lv|k extra c ag| ] eqn:Ha; try done.
  - destruct (reexecute_next a J x s Hx Hco Ha) as (Hn & Hr & _ & Hc & _). apply IH; [done|by apply class_fits|lia].
  - pose proof Hco as [Hsk Hfl _ _ _].
    pose proof (marks_data _ _ _ _ _ _ _ _ (ab_marks _ _ _ Hx) ltac:(lia) Hfl Ha) as Hom.
    unfold flow in Hfl. rewrite Ha in Hfl. destruct Hfl as (_ & _ & _ & _ & Hex & _).
    rewrite data_prefix.
    2: { intros k' m Hk. rewrite apply_stmt_eq in Hk |- *. cbn [x_marks x_p] in *. destruct (Hom _ _ Hk). split; [done|lia]. }
    2: { rewrite apply_stmt_eq. cbn [x_p]. unfold len in *. lia. }
    destruct (data_case_ok st a J D Hcb x s k extra c ag
      (if c then x_p (apply_stmt x s) + 1 else x_p (apply_stmt x s)) Hx Hco Ha) as (r & -> & Hcall & Hmr).
    cbn [mbind outcome_bind]. destruct r as [[e|] x']; cbn [or_return]; [done|]. destruct ag; [|done].
    destruct (data_next a J D x s Hx Hco k extra c x' Ha Hcall (Hmr eq_refl)) as (Hn & Hr & _ & Hc & _).
    apply IH; [done|by apply class_fits|lia].
  - destruct (call_headers_complete st (apply_stmt x s)) as [[[e|] x']|t] eqn:Eh; cbn [mbind outcome_bind or_return]; try done.
    destruct (headers_next st a J D Hcb x s Hx Hco x' Ha Eh) as [(Hn & Hr & _ & Hc & _) _].
    apply IH; [done|by apply class_fits|lia].
Qed.

(** *** Data the callback refuses

    Where the callback refuses the end of [a], the run on [a ++ b] ends in an
    error too. *)

Definition refused (k : mark_kind) (d : bytes) (u : A) : Prop :=
  exists cb r, data_cb st k = Some cb /\ (forall p, cb p d u = Ok r) /\ cb_ret r <> 0.

Lemma deliver_cases k d u p : mark_class (pstate p) = Some k -> parser_ok p -> J (phase_of p) u ->
  (exists u', delivered k d u u' /\ J (phase_of p) u') \/ refused k d u.
Proof.
  intros Hk Hp HJ. destruct (class_phase _ _ Hp Hk) as (H1 & H2 & H3).
  pose proof (data_cb_posts st J D Hcb k (phase_of p) H1 H2 H3) as Hposts. unfold delivered, refused.
  destruct (data_cb st k) as [cb|] eqn:Ek; [|left; by exists u]. cbn in Hposts.
  destruct (Hposts p d u HJ) as (r & Hr & HD & HJ').
  assert (Hany : forall q, cb q d u = Ok r) by (intros q; by rewrite (ap_parser Hap k cb q p)).
  destruct (Z.eq_dec (cb_ret r) 0) as [Hz|Hz]; [left|right].
  - exists (cb_user r). split; [by exists r|by apply HJ'].
  - exists cb, r. by split_and!.
Qed.

Definition doomed x : Prop :=
  exists k m, get_mark (x_marks x) k = Some m /\ 0 <= m <= n /\ refused k (drop (Z.to_nat m) a) (x_user x) /\
    forall k', k' <> k -> get_mark (x_marks x) k' = None.

Lemma data_doomed k upto er x : doomed x -> http_errno (x_parser x) = HPE_OK -> is_Some (get_mark (x_marks x) k) ->
  n <= upto <= len W ->
  exists x', CALLBACK_DATA_ st W k upto er x = Ok (Some er, x') /\ http_errno (x_parser x') <> HPE_OK.
Proof.
  intros (k0 & m & Hm & Hmn & (cb & r & Hk & Hr & Hz) & Hoth) He [j Hj] Hu.
  destruct (decide (k = k0)) as [->|Hne]; [|by rewrite Hoth in Hj].
  assert (Hread : read_block W m (upto - m) = Ok (drop (Z.to_nat m) a ++ take (Z.to_nat (upto - n)) b)).
  { replace (upto - m) with (n + (upto - n) - m) by lia. apply read_across; [done|]. rewrite len_W in Hu. unfold len in Hu. lia. }
  rewrite (data_value W k0 upto er x m cb _ r He Hm Hk Hread).
  - rewrite (proj2 (Z.eqb_neq _ _) Hz). eexists. split; [reflexivity|]. cbn. by destruct k0.
  - rewrite (ap_app Hap k0) by done. rewrite Hr. cbn [mbind outcome_bind]. by rewrite (proj2 (Z.eqb_neq _ _) Hz).
Qed.

Definition doomed_result (r : ctl * exec A) : Prop :=
  match r with
  | (Next, x) => doomed x /\ n <= x_p x
  | (Return _, x) => http_errno (x_parser x) <> HPE_OK
  | (ErrorLabel, _) => True
  end.

Lemma doomed_perform go x s :
  at_byte W J x -> case_ok (x_parser x) (len W - x_p x) s -> doomed (apply_stmt x s) -> n <= x_p (apply_stmt x s) ->
  exists r, perform st W go (apply_stmt x s) (st_act s) = Ok r /\ doomed_result r.
Proof.
  intros Hx Hco Hd Hn. pose proof Hco as [Hsk Hfl _ Hen _]. unfold flow in Hfl.
  assert (Hnot : st_mark s = None -> mark_class (pstate (x_parser x)) = None -> False).
  { intros Hmk Hc. destruct Hd as (k & m & Hk & _). rewrite apply_stmt_eq, Hmk in Hk. cbn in Hk.
    by rewrite (marks_none _ _ _ (ab_marks _ _ _ Hx) Hc) in Hk. }
  destruct (st_act s) as [ | | |f lv|k extra c ag| ] eqn:Ha; cbn [perform].
  - eexists. split; [reflexivity|]. done.
  - exfalso. apply Hnot; tauto.
  - eexists. split; [reflexivity|]. done.
  - exfalso. destruct f; apply Hnot; tauto.
  - assert (Hkm : is_Some (get_mark (x_marks (apply_stmt x s)) k)).
    { destruct Hd as (k0 & m & Hk & _). rewrite apply_stmt_eq in *. cbn [x_marks] in *.
      pose proof (marks_data _ _ _ _ k extra c ag (ab_marks _ _ _ Hx) ltac:(pose proof (ab_pos _ _ _ Hx); lia) (co_flow _ _ _ Hco) Ha) as Hom.
      destruct (Hom _ _ Hk) as [-> _]. by rewrite Hk. }
    destruct Hfl as (_ & _ & _ & _ & Hex & _).
    destruct (data_doomed k (x_p (apply_stmt x s) + extra) (if c then x_p (apply_stmt x s) + 1 else x_p (apply_stmt x s))
      (apply_stmt x s) Hd) as (x' & -> & Hne); [|done|split; [lia|]|].
    + cbn. rewrite Hen by done. apply Hx.
    + rewrite apply_stmt_eq. cbn [x_p]. lia.
    + cbn [mbind outcome_bind or_return]. eexists. split; [reflexivity|]. done.
  - exfalso. apply Hnot; tauto.
Qed.

Lemma doomed_apply x s : doomed x -> marks_ok (pstate (x_parser x)) (x_marks x) (x_p x) ->
  flow (x_parser x) s -> st_act s <> Error -> doomed (apply_stmt x s).
Proof.
  intros (k & m & Hk & Hm & Hr & Hoth) Hms Hf Hne. rewrite apply_stmt_eq. exists k, m. cbn [x_marks x_user].
  assert (Hmk : st_mark s = None \/ st_mark s = Some k).
  { destruct (st_mark s) as [k0|] eqn:E; [|auto]. right. destruct (mo_class _ _ _ Hms _ _ Hk) as [Hc _].
    destruct (flow_mark _ _ _ Hf Hne E) as [H|H]; rewrite H in Hc; [done|]. by injection Hc as ->. }
  replace (marks_after (x_marks x) (st_mark s) (x_p x)) with (x_marks x)
    by (destruct Hmk as [-> | ->]; cbn [marks_after]; by rewrite ?Hk).
  tauto.
Qed.

Lemma doomed_after fuel pos r :
  (forall x, between W x -> doomed x -> n <= x_p x -> len W - x_p x < Z.of_nat fuel ->
     exists v p u, bytes_loop st W fuel x = Ok (v, p, u) /\ http_errno p <> HPE_OK) ->
  0 <= pos -> len W - pos < Z.of_nat (S fuel) -> byte_result W J D pos r -> doomed_result r ->
  exists v p u, after_byte W fuel r = Ok (v, p, u) /\ http_errno p <> HPE_OK.
Proof.
  intros IH Hp Hf Hb Hd. destruct r as [[|v|] x']; cbn [after_byte].
  - pose proof Hb as (_ & _ & ? & _).
    destruct Hd as [Hd Hn]. apply IH; [by apply (between_next W pos)|exact Hd|cbn; lia|cbn; lia].
  - eexists _, _, _. split; [reflexivity|]. done.
  - eexists _, _, _. split; [reflexivity|]. cbn. destruct (is_ok (http_errno (x_parser x'))) eqn:E; [done|].
    intros H. by rewrite H in E.
Qed.

Lemma doomed_loop fuel x :
  between W x -> doomed x -> n <= x_p x -> len W - x_p x < Z.of_nat fuel ->
  exists v p u, bytes_loop st W fuel x = Ok (v, p, u) /\ http_errno p <> HPE_OK.
Proof.
  revert x. induction fuel as [|fuel IH]; intros x Hx Hd Hn Hf; pose proof (bt_pos _ _ Hx) as Hpx; [lia|].
  destruct (decide (x_p x = len W)) as [Hl|Hl].
  - cbn [bytes_loop]. rewrite Hl, Z.eqb_refl. pose proof Hd as (k & m & Hk & Hm & _ & Hoth).
    rewrite (leftover_eq st W x k (x_p x)).
    + destruct (data_doomed k (x_p x) (x_p x) x Hd) as (x' & -> & Hne); [apply Hx|by rewrite Hk|lia|].
      cbn [mbind outcome_bind]. eexists _, _, _. split; [reflexivity|]. done.
    + by rewrite (bt_errno _ _ Hx).
    + intros k' j Hj. destruct (decide (k' = k)) as [->|Hne]; [|by rewrite Hoth in Hj].
      split; [done|]. rewrite Hk in Hj. injection Hj as <-. lia.
  - destruct (load_in W (x_p x)) as [ch Hch]; [lia|].
    destruct (count_header (x_parser x)) as [[|] p'] eqn:Ec.
    + rewrite (bytes_loop_step W fuel x ch p') by done.
      pose proof (between_byte _ _ _ Hx Hl Ec) as Hb.
      destruct (reexecute_ok st W J D Hcb reexecutions (x_p x) (with_parser x p') ch Hb) as (r & Hr & Hbr);
        [apply rank_fuel|done|].
      rewrite Hr. cbn [mbind outcome_bind].
      apply (doomed_after fuel (x_p x)); try done; [lia|].
      revert Hr. change reexecutions with (S 3). cbn [reexecute_byte].
      destruct (switch_ok p' ch (len W - x_p x) (ab_byte _ _ _ Hb) ltac:(lia)) as (s & Hs & Hco).
      cbn [with_parser x_parser x_p]. rewrite Hs. cbn [mbind outcome_bind]. intros Hr.
      destruct (match st_act s with Error => true | _ => false end) eqn:Her.
      { destruct (st_act s); try done. cbn in Hr. by injection Hr as <-. }
      destruct (doomed_perform (fun x => reexecute_byte st W 3 x ch) (with_parser x p') s Hb Hco) as (r' & Hr' & Hdr).
      * apply doomed_apply; [exact Hd|apply Hb|apply Hco|]. intros H. by rewrite H in Her.
      * rewrite apply_stmt_eq. cbn. destruct Hco. lia.
      * assert (He : Ok r = Ok r') by (rewrite <-Hr, <-Hr'; done). by injection He as ->.
    + rewrite (bytes_loop_over W fuel x ch p') by done. eexists _, _, _. split; [reflexivity|].
      by rewrite (count_header_over _ _ Ec).
Qed.

(** *** The end of [a] *)

Definition start (p : http_parser) (u : A) : exec A := mkExec p u 0 (first_marks (pstate p)).

Lemma first_marks_ok s : marks_ok s (first_marks s) 0.
Proof. destruct s; split; try done; intros k; destruct k; cbn; try done; intros m [= <-]; done. Qed.

Lemma start_between data p u : parser_ok p -> http_errno p = HPE_OK -> J (phase_of p) u -> between data (start p u).
Proof. intros. split; cbn; try done; [unfold len; lia|apply first_marks_ok]. Qed.

(** The callback for the data left at the end. *)
Lemma leftover_delivered x k m u' :
  between a x -> x_p x = n -> get_mark (x_marks x) k = Some m ->
  delivered k (drop (Z.to_nat m) a) (x_user x) u' ->
  leftover st a x = Ok (len a, x_parser x, u').
Proof.
  intros Hx Hl Hk Hd. destruct (mo_class _ _ _ (bt_marks _ _ Hx) _ _ Hk) as [Hc Hm].
  rewrite (leftover_eq st a x k (x_p x)).
  - unfold delivered in Hd. destruct (data_cb st k) as [cb|] eqn:Ek.
    + destruct Hd as (r & Hr & Hz & Hu).
      rewrite (data_value a k (x_p x) (x_p x) x m cb (drop (Z.to_nat m) a) r); [|apply Hx|done|done| |done].
      * rewrite Hz. cbn. by rewrite Hu.
      * rewrite read_block_ok by lia. f_equal. rewrite take_ge; [done|]. rewrite length_drop. lia.
    + unfold CALLBACK_DATA_. rewrite (bt_errno _ _ Hx), Hk, Ek. cbn. by subst.
  - by rewrite (bt_errno _ _ Hx).
  - intros k' j Hj. destruct (mo_class _ _ _ (bt_marks _ _ Hx) _ _ Hj) as [Hc' ?].
    rewrite Hc in Hc'. by injection Hc' as <-.
Qed.

(** The two runs after [a], from the same bytes: [r] is what the run on
    [a ++ b] ends with. *)
Definition joins (fuela : nat) (x : exec A) (r : Z * http_parser * A) : Prop :=
  exists pa ua, bytes_loop st a fuela x = Ok (len a, pa, ua) /\ http_errno pa = HPE_OK /\ parser_ok pa /\
    J (phase_of pa) ua /\ bytes_loop st b (S (length b)) (start pa ua) = Ok (len b, r.1.2, r.2).

Lemma joins_intro fuela x v p u pa ua fW xW :
  bytes_loop st a fuela x = Ok (len a, pa, ua) -> http_errno pa = HPE_OK -> parser_ok pa -> J (phase_of pa) ua ->
  bytes_loop st W fW xW = Ok (v, p, u) -> v = len W -> http_errno p = HPE_OK ->
  loop_sim (bytes_loop st W fW xW) (bytes_loop st b (S (length b)) (start pa ua)) ->
  joins fuela x (v, p, u).
Proof.
  intros Ha He Hp HJ HW Hv Hok (r1 & r2 & H1 & H2 & Hs). rewrite HW in H1. injection H1 as <-.
  destruct r2 as [[v2 p2] u2]. cbn in Hs. destruct Hs as (Hv2 & -> & Hu). exists pa, ua. split_and!; try done.
  rewrite H2. cbn. rewrite Hu by done. rewrite len_W in Hv. repeat f_equal. lia.
Qed.

(** A mark of a body at the end of [a]: the chunk ended there. *)
Definition body_inv x : Prop := is_Some (get_mark (x_marks x) K_body) -> pstate (x_parser x) = s_chunk_data_almost_done.

Lemma almost_done_shift fW x u' :
  b <> [] -> between W x -> x_p x = n -> body_inv x -> len b < Z.of_nat fW ->
  (exists m, get_mark (x_marks x) K_body = Some m /\ delivered K_body (drop (Z.to_nat m) a) (x_user x) u') ->
  between b (start (x_parser x) u') ->
  loop_sim (bytes_loop st W fW x) (bytes_loop st b (S (length b)) (start (x_parser x) u')).
Proof.
  intros Hb Hx Hxn Hinv Hf (m & Hm & Hd) Hy. pose proof (Hinv ltac:(by rewrite Hm)) as Hs. clear Hinv.
  assert (Hlb : 0 < len b) by (unfold len; destruct b; [done|cbn; lia]).
  destruct fW as [|fW]; [lia|]. pose proof (bt_parser _ _ Hx) as Hp.
  destruct (load_in b 0) as [ch Hch]; [lia|].
  assert (Hlx : x_p x <> len W) by (rewrite len_W; lia).
  assert (Hchx : load W (x_p x) = Ok ch) by (rewrite Hxn, <-(Z.add_0_r n), load_shift; [done|lia]).
  assert (Hc : count_header (x_parser x) = (true, x_parser x)) by (unfold count_header; by rewrite Hs).
  rewrite (bytes_loop_step W fW x ch (x_parser x)) by done.
  rewrite (bytes_loop_step b (length b) (start (x_parser x) u') ch (x_parser x)) by (try done; cbn; lia).
  pose proof (between_byte _ _ _ Hx Hlx Hc) as Hbx.
  pose proof (between_byte b (start (x_parser x) u') (x_parser x) Hy ltac:(cbn; lia) Hc) as Hby.
  destruct (reexecute_ok st W J D Hcb reexecutions (x_p x) _ ch Hbx) as (rx & Hrx & Hbrx); [apply rank_fuel|done|].
  destruct (reexecute_ok st b J D Hcb reexecutions 0 _ ch Hby) as (ry & Hry & Hbry); [apply rank_fuel|done|].
  rewrite Hrx, Hry. cbn [mbind outcome_bind].
  apply (after_byte_shift fW (length b) (x_p x) 0); try done; try lia; [|unfold len; lia|].
  { intros x0 y0 ? ? ? ? ?. by apply bytes_loop_shift. }
  revert Hrx Hry. change reexecutions with (S 3). cbn [reexecute_byte with_parser x_parser].
  unfold switch. rewrite Hs. unfold case_chunk_data_almost_done, assert_that.
  pose proof (ok_state _ Hp) as Hst. unfold state_ok in Hst. rewrite Hs in Hst. destruct Hst as [Hch1 Hcl].
  rewrite Hch1, Hcl. cbn [guard_trap Z.eqb]. destruct (negb (ch =? CR)) eqn:Ecr; cbn [leave fail mbind outcome_bind st_act perform].
  { intros [= <-] [= <-]. rewrite !apply_stmt_eq. cbn. split; [lia|done]. }
  set (x1 := apply_stmt _ _). set (y1 := apply_stmt (with_parser (start _ _) _) _).
  assert (Hx1 : get_mark (x_marks x1) K_body = Some m) by done.
  assert (He1 : http_errno (x_parser x1) = HPE_OK) by (apply Hx).
  assert (Hy1 : CALLBACK_DATA_ st b K_body (x_p y1 + 0) (x_p y1 + 1) y1 = Ok (None, y1)).
  { apply data_unmarked; [by change (http_errno (x_parser y1)) with (http_errno (x_parser x1)); rewrite He1|].
    cbn. by rewrite Hs. }
  rewrite Hy1. cbn [mbind outcome_bind or_return].
  assert (Hx1c : CALLBACK_DATA_ st W K_body (x_p x1 + 0) (x_p x1 + 1) x1 = Ok (None, clear_mark x1 K_body u')).
  { destruct (mo_class _ _ _ (bt_marks _ _ Hx) _ _ Hm) as [_ Hmm].
    assert (Hp1 : x_p x1 + 0 = n) by (cbn; lia). rewrite Hp1.
    unfold delivered in Hd. destruct (data_cb st K_body) as [cb|] eqn:Ek.
    - destruct Hd as (r & Hr & Hz & <-).
      rewrite (data_value W K_body n _ x1 m cb (drop (Z.to_nat m) a) r); [by rewrite Hz|done|done|done| |done].
      rewrite read_block_prefix, read_block_ok by lia. f_equal. rewrite take_ge; [done|]. rewrite length_drop. lia.
    - unfold CALLBACK_DATA_. rewrite He1, Hx1, Ek. cbn [is_ok guard_trap]. by subst u'. }
  rewrite Hx1c. cbn [mbind outcome_bind or_return]. intros [= <-] [= <-]. cbn [res_shifted].
  split; [done|cbn; lia|cbn; lia|]. apply pend_unmarked; [| |done].
  - intros k. change (get_mark (set_mark (x_marks x) K_body None) k = None).
    destruct (decide (k = K_body)) as [->|Hne]; [apply get_set_mark|rewrite get_set_mark_ne by done].
    destruct (get_mark (x_marks x) k) as [j|] eqn:E; [|done]. destruct (mo_class _ _ _ (bt_marks _ _ Hx) _ _ E) as [H _].
    rewrite Hs in H. by injection H as <-.
  - intros k. cbn. rewrite Hs. by destruct k.
Qed.

(** At the end of [a] the callback for the data left gives the run on [b] what
    the run on [a ++ b] still has to deliver. *)
Lemma join_at_end fuela fW x v p u :
  b <> [] -> between a x -> x_p x = n -> body_inv x -> (0 < fuela)%nat -> len b < Z.of_nat fW ->
  bytes_loop st W fW x = Ok (v, p, u) -> v = len W -> http_errno p = HPE_OK -> joins fuela x (v, p, u).
Proof.
  intros Hb Hx Hxn Hinv Hfa Hf HW Hv Hok. destruct fuela as [|fuela]; [lia|].
  assert (HxW : between W x).
  { destruct Hx as [? ? ? ? ?]. split; try done. rewrite len_W. unfold len in *. lia. }
  assert (Hloop : bytes_loop st a (S fuela) x = leftover st a x) by (cbn [bytes_loop]; unfold len; by rewrite Hxn, Z.eqb_refl).
  pose proof (bt_marks _ _ Hx) as Hm. pose proof Hx as [Hp He _ _ HJ].
  assert (Hlb : len b < Z.of_nat (S (length b))) by (unfold len; lia).
  destruct (marks_only _ _ _ Hm) as (k & Hom & Hk).
  destruct (get_mark (x_marks x) k) as [m|] eqn:Ek.
  - destruct (mo_class _ _ _ Hm _ _ Ek) as [Hc Hmm].
    destruct (deliver_cases k (drop (Z.to_nat m) a) (x_user x) (x_parser x) Hc Hp HJ) as [(u' & Hd & HJ')|Href].
    + pose proof (start_between b (x_parser x) u' Hp He HJ') as Hy.
      apply (joins_intro _ _ _ _ _ (x_parser x) u' fW x); try done.
      { rewrite Hloop. by apply (leftover_delivered x k m). }
      destruct (decide (k = K_body)) as [->|Hnb]; [apply almost_done_shift; try done; eauto|].
      apply bytes_loop_shift; try done; [|cbn; lia|cbn; lia]. split; [done|cbn; lia|done|].
      apply (Pending _ _ k m); [|done]. split_and!; try done; try lia.
      * cbn. clear -Hc Hnb. by destruct (pstate (x_parser x)); try discriminate Hc; injection Hc as <-.
      * intros k' Hne. split.
        -- destruct (get_mark (x_marks x) k') eqn:E; [|done]. by destruct (Hom _ _ E).
        -- cbn. clear -Hc Hnb Hne. by destruct (pstate (x_parser x)); try discriminate Hc; injection Hc as <-; destruct k'.
    + exfalso. destruct (doomed_loop fW x HxW) as (v' & p' & u' & HW' & Hne); [|lia|rewrite len_W; lia|congruence].
      exists k, m. split_and!; try done; try lia. intros k' Hne.
      destruct (get_mark (x_marks x) k') eqn:E; [|done]. by destruct (Hom _ _ E).
  - assert (Hnm : no_marks (x_marks x)).
    { intros k'. destruct (get_mark (x_marks x) k') eqn:E; [|done]. destruct (Hom _ _ E) as [-> _]. by rewrite E in Ek. }
    pose proof (start_between b (x_parser x) (x_user x) Hp He HJ) as Hy.
    apply (joins_intro _ _ _ _ _ (x_parser x) (x_user x) fW x); try done.
    { rewrite Hloop, (leftover_eq st a x k (x_p x)) by (rewrite ?He; done). by rewrite data_unmarked by (rewrite ?He; done). }
    apply bytes_loop_shift; try done; [|cbn; lia|cbn; lia]. split; [done|cbn; lia|done|]. apply pend_unmarked; try done.
    intros k'. cbn. assert (Hcl : mark_class (pstate (x_parser x)) = None \/ mark_class (pstate (x_parser x)) = Some K_body).
    { destruct (mark_class (pstate (x_parser x))) as [k0|] eqn:E; [|auto]. right.
      destruct (decide (k0 = K_body)) as [->|Hne]; [done|]. destruct (mo_full _ _ _ Hm _ E Hne) as [? Hs]. by rewrite Hnm in Hs. }
    destruct (pstate (x_parser x)); cbn in Hcl; first [by destruct k'|by destruct Hcl].
Qed.

(** *** A body that goes on in [b] *)

Record over (p : http_parser) (al be : Z) (sa sW sb : stmt) : Prop := {
  ov_act : st_act sa = Break;
  ov_mark : st_mark sa = Some K_body;
  ov_skip : st_skip sa = al - 1;
  ov_state : pstate (st_parser sa) = pstate p;
  ov_parser : st_parser sb = st_parser sW;
  ov_acts : st_act sW = st_act sb;
  ov_noerr : st_act sW <> Error;
  ov_markW : st_mark sW = Some K_body;
  ov_markb : st_mark sb = Some K_body;
  ov_skips : st_skip sW = al + st_skip sb;
  ov_again : reenters (st_act sW) = true -> pstate (st_parser sW) = s_message_done }.

Lemma min_split c al be : al < c -> 1 <= be -> Z.min c (al + be) = al + Z.min (c - al) be.
Proof. lia. Qed.

Lemma overshoot p al be :
  byte_ok p -> 1 <= al -> 1 <= be -> ~ body_fits p al -> PARSING_HEADER (pstate p) = false /\
  exists sa sW sb, (forall ch, switch p ch al = Ok sa) /\ (forall ch, switch p ch (al + be) = Ok sW) /\
    (forall ch', switch (st_parser sa) ch' be = Ok sb) /\ over p al be sa sW sb.
Proof.
  intros Hb Hal Hbe Hfit. unfold body_fits in Hfit. pose proof (bo_state _ Hb) as Hs. pose proof (bo_length _ Hb) as Hl.
  unfold state_ok in Hs. assert (HU : ULLONG_MAX = 2 ^ 64 - 1) by done.
  destruct (pstate p) eqn:Es; try (by destruct Hfit); (split; [done|]); specialize (Hs ltac:(done)).
  - destruct Hs as [Hc Hcl]. unfold switch. rewrite Es. unfold case_chunk_data, assert_that. rewrite Hc.
    replace (negb (content_length p =? 0) && negb (content_length p =? ULLONG_MAX)) with true by lia.
    rewrite min_split, Z.min_r by lia.
    rewrite !u64_small by lia. hp_cbn. rewrite (proj2 (Z.eqb_neq (content_length p - al) 0)) by lia.
    eexists _, _, _. split; [intros; reflexivity|]. split; [intros; reflexivity|]. split.
    + intros ch'. hp_cbn. rewrite Es. unfold case_chunk_data, assert_that, has_flag in *. hp_cbn. rewrite Hc.
      replace (negb (content_length p - al =? 0) && negb (content_length p - al =? ULLONG_MAX)) with true by lia.
      rewrite u64_small by lia. cbn [guard_trap]. reflexivity.
    + replace (content_length p - al - (content_length p - al) `min` be)
        with (content_length p - (al + (content_length p - al) `min` be)) by lia.
      split; hp_cbn; rewrite ?Es; try done; lia.
  - unfold switch. rewrite Es. unfold case_body_identity, assert_that.
    replace (negb (content_length p =? 0) && negb (content_length p =? ULLONG_MAX)) with true by lia.
    rewrite min_split, Z.min_r by lia.
    rewrite !u64_small by lia. hp_cbn. rewrite (proj2 (Z.eqb_neq (content_length p - al) 0)) by lia.
    eexists _, _, _. split; [intros; reflexivity|]. split; [intros; reflexivity|]. split.
    + intros ch'. hp_cbn. rewrite Es. unfold case_body_identity, assert_that. hp_cbn.
      replace (negb (content_length p - al =? 0) && negb (content_length p - al =? ULLONG_MAX)) with true by lia.
      rewrite u64_small by lia. cbn [guard_trap]. reflexivity.
    + replace (content_length p - al - (content_length p - al) `min` be)
        with (content_length p - (al + (content_length p - al) `min` be)) by lia.
      destruct (_ =? 0); split; hp_cbn; rewrite ?Es; try done; lia.
  - unfold switch. rewrite Es. unfold case_body_identity_eof. eexists _, _, _.
    split; [intros; reflexivity|]. split; [intros; reflexivity|]. split; [intros ch'; hp_cbn; rewrite Es; reflexivity|].
    split; hp_cbn; try done; lia.
Qed.

Section Over.
Context (x : exec A) (sa sW sb : stmt).
Context (Hb : b <> []) (Hx : between a x) (Hxn : x_p x < n).
Context (Hbyte : byte_ok (x_parser x)) (Hhead : PARSING_HEADER (pstate (x_parser x)) = false).
Context (Hsa : forall ch, switch (x_parser x) ch (len a - x_p x) = Ok sa).
Context (HsW : forall ch, switch (x_parser x) ch (len W - x_p x) = Ok sW).
Context (Hsb : forall ch', switch (st_parser sa) ch' (len b) = Ok sb) (Hov : over (x_parser x) (len a - x_p x) (len b) sa sW sb).

Lemma over_atbyte data : 0 <= x_p x < len data -> at_byte data J x.
Proof. intros. by split; try apply Hx. Qed.

Lemma over_case data s : 0 <= x_p x < len data -> (forall ch, switch (x_parser x) ch (len data - x_p x) = Ok s) ->
  case_ok (x_parser x) (len data - x_p x) s.
Proof.
  intros Hp Hs. destruct (switch_ok (x_parser x) 0 (len data - x_p x) Hbyte ltac:(lia)) as (s' & Hs' & Hco).
  rewrite Hs in Hs'. by injection Hs' as <-.
Qed.

(** The mark of the body, and the state the run on [a] ends in. *)
Definition over_mark : Z := match get_mark (x_marks x) K_body with Some m => m | None => x_p x end.

Lemma over_mark_set s : st_mark s = Some K_body -> get_mark (x_marks (apply_stmt x s)) K_body = Some over_mark.
Proof.
  intros Hm. rewrite apply_stmt_eq. cbn [x_marks]. rewrite Hm. unfold over_mark. cbn [marks_after].
  destruct (get_mark (x_marks x) K_body) eqn:E; [done|apply get_set_mark].
Qed.

Lemma over_range : 0 <= over_mark <= x_p x.
Proof.
  unfold over_mark. destruct (get_mark (x_marks x) K_body) eqn:E; [|pose proof (bt_pos _ _ Hx); lia].
  apply (mo_class _ _ _ (bt_marks _ _ Hx) _ _ E).
Qed.

Lemma over_only s k : st_mark s = Some K_body -> k <> K_body -> get_mark (x_marks (apply_stmt x s)) k = None.
Proof.
  intros Hm Hk. rewrite apply_stmt_eq. cbn [x_marks]. rewrite Hm.
  destruct (get_mark (marks_after _ _ _) k) eqn:E; [|done].
  apply marks_after_cases in E as [E|[[= <-] _]]; [|done]. destruct (mo_class _ _ _ (bt_marks _ _ Hx) _ _ E) as [Hc _].
  destruct (pstate (x_parser x)); try discriminate Hhead; cbn in Hc; try done; by injection Hc as <-.
Qed.

Lemma over_end : between a (next_byte (apply_stmt x sa)) /\ x_p (next_byte (apply_stmt x sa)) = n.
Proof.
  pose proof (bt_pos _ _ Hx) as Hp. assert (Ha : 0 <= x_p x < len a) by (unfold len; lia). split.
  - apply (between_next a (x_p x)); [lia|].
    apply (break_case a J D); [by apply over_atbyte|by apply over_case|apply Hov].
  - unfold next_byte. rewrite apply_stmt_eq. cbn. rewrite (ov_skip _ _ _ _ _ _ Hov). unfold len. lia.
Qed.

Lemma over_loop_a fuel : (1 < fuel)%nat ->
  bytes_loop st a fuel x = leftover st a (next_byte (apply_stmt x sa)).
Proof.
  intros Hf. destruct fuel as [|[|fuel]]; [lia|lia|]. pose proof (bt_pos _ _ Hx) as Hp.
  destruct (load_in a (x_p x)) as [c Hc]; [unfold len; lia|].
  rewrite (bytes_loop_step a (S fuel) x c (x_parser x)); [|unfold len; lia|done|unfold count_header; by rewrite Hhead].
  change reexecutions with (S 3). cbn [reexecute_byte with_parser x_parser].
  change (x_p (mkExec (x_parser x) (x_user x) (x_p x) (x_marks x))) with (x_p x).
  rewrite Hsa. cbn [mbind outcome_bind]. rewrite (ov_act _ _ _ _ _ _ Hov). cbn [perform mbind outcome_bind after_byte].
  destruct over_end as [_ Hn].
  change (apply_stmt (with_parser x (x_parser x)) sa) with (apply_stmt x sa).
  cbn [bytes_loop]. by rewrite Hn, (proj2 (Z.eqb_eq n (len a)) eq_refl).
Qed.

(** The first byte of the run on [a ++ b] that reaches [b]. *)
Lemma over_loop_W fuel : exists ch, bytes_loop st W (S fuel) x =
  (r ← perform st W (fun y => reexecute_byte st W 3 y ch) (apply_stmt x sW) (st_act sW); after_byte W fuel r).
Proof.
  pose proof (bt_pos _ _ Hx) as Hp.
  destruct (load_in W (x_p x)) as [ch Hc]; [rewrite len_W; unfold len; lia|]. exists ch.
  rewrite (bytes_loop_step W fuel x ch (x_parser x));
    [|rewrite len_W; unfold len; lia|exact Hc|unfold count_header; by rewrite Hhead].
  change reexecutions with (S 3). cbn [reexecute_byte with_parser x_parser].
  change (x_p (mkExec (x_parser x) (x_user x) (x_p x) (x_marks x))) with (x_p x). by rewrite HsW.
Qed.

Lemma over_loop_b u' : exists ch, bytes_loop st b (S (length b)) (start (st_parser sa) u') =
  (r ← perform st b (fun y => reexecute_byte st b 3 y ch) (apply_stmt (start (st_parser sa) u') sb) (st_act sb);
   after_byte b (length b) r).
Proof.
  assert (Hlb : 0 < len b) by (unfold len; destruct b; [done|cbn; lia]).
  destruct (load_in b 0) as [ch Hc]; [lia|]. exists ch.
  assert (Hst : PARSING_HEADER (pstate (st_parser sa)) = false) by (by rewrite (ov_state _ _ _ _ _ _ Hov)).
  rewrite (bytes_loop_step b (length b) _ ch (st_parser sa)); [|cbn; lia|exact Hc|unfold count_header; cbn; by rewrite Hst].
  change reexecutions with (S 3). cbn [reexecute_byte with_parser x_parser x_p start]. by rewrite Z.sub_0_r, Hsb.
Qed.

(** The runs agree from there. *)
Lemma over_shift u' :
  delivered K_body (drop (Z.to_nat over_mark) a) (x_user x) u' ->
  shifted (apply_stmt x sW) (apply_stmt (start (st_parser sa) u') sb).
Proof.
  intros Hd. pose proof (bt_pos _ _ Hx) as Hp.
  assert (Hsk : 0 <= st_skip sb).
  { destruct (switch_ok (x_parser x) 0 (len W - x_p x) Hbyte) as (s' & Hs' & [Hs2 _ _ _ _]); [rewrite len_W; unfold len; lia|].
    destruct (switch_ok (st_parser sa) 0 (len b)) as (sb' & Hsb' & [Hsb2 _ _ _ _]).
    - pose proof over_end as [[Hpa _ _ _ _] _]. apply parser_byte_ok; [exact Hpa|].
      rewrite (ov_state _ _ _ _ _ _ Hov). intros H. by rewrite H in Hhead.
    - unfold len. destruct b; [done|cbn; lia].
    - rewrite Hsb in Hsb'. injection Hsb' as <-. lia. }
  split.
  - rewrite !apply_stmt_eq. cbn. symmetry. apply Hov.
  - rewrite !apply_stmt_eq. cbn. rewrite (ov_skips _ _ _ _ _ _ Hov). unfold len. lia.
  - rewrite !apply_stmt_eq. cbn. lia.
  - apply (Pending _ _ K_body over_mark); [|done]. pose proof over_range. split_and!; try lia.
    + apply over_mark_set. apply Hov.
    + rewrite apply_stmt_eq. cbn [x_marks]. rewrite (ov_markb _ _ _ _ _ _ Hov). cbn.
      rewrite (ov_state _ _ _ _ _ _ Hov). by destruct (pstate (x_parser x)); try discriminate Hhead.
    + intros k Hk. split; [by apply over_only; [apply Hov|]|].
      rewrite apply_stmt_eq. cbn [x_marks]. rewrite (ov_markb _ _ _ _ _ _ Hov). cbn [marks_after start x_marks x_p].
      rewrite (ov_state _ _ _ _ _ _ Hov).
      by destruct (pstate (x_parser x)); try discriminate Hhead; destruct k.
Qed.

Lemma over_result ch : exists r,
  perform st W (fun y => reexecute_byte st W 3 y ch) (apply_stmt x sW) (st_act sW) = Ok r /\ byte_result W J D (x_p x) r.
Proof.
  pose proof (bt_pos _ _ Hx) as Hp. assert (HpW : 0 <= x_p x < len W) by (rewrite len_W; unfold len in *; lia).
  destruct (reexecute_ok st W J D Hcb reexecutions (x_p x) x ch (over_atbyte W HpW)) as (r & Hr & Hbr); [apply rank_fuel|done|].
  exists r. split; [|done]. revert Hr. change reexecutions with (S 3). cbn [reexecute_byte]. rewrite HsW. done.
Qed.

Lemma over_result_b u' ch : at_byte b J (start (st_parser sa) u') -> exists r,
  perform st b (fun y => reexecute_byte st b 3 y ch) (apply_stmt (start (st_parser sa) u') sb) (st_act sb) = Ok r
  /\ byte_result b J D 0 r.
Proof.
  intros Hay. destruct (reexecute_ok st b J D Hcb reexecutions 0 _ ch Hay) as (r & Hr & Hbr); [apply rank_fuel|done|].
  exists r. split; [|done]. revert Hr. change reexecutions with (S 3). cbn [reexecute_byte]. cbn [start x_parser x_p].
  by rewrite Z.sub_0_r, Hsb.
Qed.

Lemma join_over fuela fW v p u :
  (1 < fuela)%nat -> len W - x_p x < Z.of_nat fW ->
  bytes_loop st W fW x = Ok (v, p, u) -> v = len W -> http_errno p = HPE_OK -> joins fuela x (v, p, u).
Proof.
  intros Hfa Hf HW Hv Hok. pose proof (bt_pos _ _ Hx) as Hp. destruct over_end as [Hend Hn].
  assert (Hlb : 0 < len b) by (unfold len; destruct b; [done|cbn; lia]).
  assert (HpW : 0 <= x_p x < len W) by (rewrite len_W; unfold len in *; lia).
  destruct fW as [|fW]; [lia|]. destruct (over_loop_W fW) as [ch HlW].
  pose proof (over_atbyte W HpW) as HaW. pose proof (over_case W sW HpW HsW) as HcW.
  assert (Hcl : mark_class (pstate (st_parser sa)) = Some K_body).
  { pose proof (bt_marks _ _ Hend) as Hm. apply (mo_class _ _ _ Hm K_body over_mark).
    unfold next_byte. cbn [x_marks]. apply over_mark_set. apply Hov. }
  assert (HposW : n <= x_p (apply_stmt x sW)).
  { rewrite apply_stmt_eq. cbn. pose proof (over_case a sa ltac:(unfold len; lia) Hsa) as [? _ _ _ _].
    rewrite (ov_skips _ _ _ _ _ _ Hov). unfold len in *.
    destruct (switch_ok (st_parser sa) 0 (len b)) as (sb' & Hsb' & [Hsb2 _ _ _ _]); [|unfold len; lia|].
    - apply parser_byte_ok; [apply Hend|]. rewrite (ov_state _ _ _ _ _ _ Hov). intros H'. by rewrite H' in Hhead.
    - unfold len in Hsb'. rewrite Hsb in Hsb'. injection Hsb' as <-. lia. }
  destruct (deliver_cases K_body (drop (Z.to_nat over_mark) a) (x_user x) (st_parser sa) Hcl (bt_parser _ _ Hend) (bt_user _ _ Hend))
    as [(u' & Hd & HJ')|Href].
  - pose proof (start_between b (st_parser sa) u' (bt_parser _ _ Hend) (bt_errno _ _ Hend) HJ') as Hy.
    apply (joins_intro _ _ _ _ _ (st_parser sa) u' (S fW) x); try done; [|apply Hend|apply Hend|].
    { rewrite over_loop_a by done. rewrite (leftover_delivered _ K_body over_mark u' Hend Hn); [done| |done].
      cbn [next_byte x_marks]. apply over_mark_set. apply Hov. }
    destruct (over_loop_b u') as [ch' Hlb']. rewrite HlW, Hlb'.
    assert (Hay : at_byte b J (start (st_parser sa) u')).
    { apply (between_byte b (start (st_parser sa) u') (st_parser sa)) in Hy; [exact Hy|cbn; lia|].
      unfold count_header. cbn. by rewrite (ov_state _ _ _ _ _ _ Hov), Hhead. }
    destruct (switch_ok (st_parser sa) 0 (len b) (ab_byte _ _ _ Hay) ltac:(lia)) as (sb' & Hsb' & Hcb').
    rewrite Hsb in Hsb'. injection Hsb' as <-.
    destruct (over_result_b u' ch' Hay) as (ry & Hry & Hbry).
    destruct (perform_shift x (start (st_parser sa) u') sW sb HaW HcW Hay ltac:(cbn; by rewrite Z.sub_0_r) (ov_acts _ _ _ _ _ _ Hov)
      (over_shift u' Hd) (fun y => reexecute_byte st W 3 y ch) (fun y => reexecute_byte st b 3 y ch')) as (rx & ry' & Hrx & Hry' & Hrs).
    { intros x2 y2 Hre (Hx2 & Hr2 & _ & Hc2 & Hs2) (Hy2 & _) Hsh2. apply reexecute_shift; try done.
      - pose proof (rank_fuel (pstate (x_parser x))). unfold reexecutions in *. lia.
      - right. rewrite Hs2. by apply (ov_again _ _ _ _ _ _ Hov). }
    destruct (over_result ch) as (rx' & Hrx' & Hbrx). rewrite Hrx in Hrx'. injection Hrx' as <-.
    rewrite (ov_acts _ _ _ _ _ _ Hov), Hry in Hry'. injection Hry' as <-. rewrite Hrx, Hry. cbn [mbind outcome_bind].
    apply (after_byte_shift fW (length b) (x_p x) 0); try done; try lia; [|rewrite len_W in Hf; unfold len in *; lia|unfold len; lia].
    intros x0 y0 ? ? ? ? ?. by apply bytes_loop_shift.
  - exfalso.
    destruct (doomed_perform (fun y => reexecute_byte st W 3 y ch) x sW HaW HcW) as (r & Hr & Hdr); [|done|].
    { exists K_body, over_mark. pose proof over_range. split_and!; try lia.
      - apply over_mark_set. apply Hov.
      - done.
      - intros k Hk. by apply over_only; [apply Hov|]. }
    destruct (over_result ch) as (r' & Hr' & Hbr). rewrite Hr in Hr'. injection Hr' as <-.
    rewrite HlW, Hr in HW. cbn [mbind outcome_bind] in HW.
    destruct (doomed_after fW (x_p x) r) as (v' & p' & u' & HW' & Hne); try done; [|lia|congruence].
    intros x0 ? ? ? ?. by apply doomed_loop.
Qed.

End Over.

(** *** The whole of [a] *)

Lemma fits_break p ch avail s :
  switch p ch avail = Ok s -> case_ok p avail s -> body_fits p avail -> st_act s = Break ->
  pstate p <> s_chunk_data_almost_done /\
  (st_mark s = Some K_body -> pstate (st_parser s) = s_chunk_data_almost_done).
Proof.
  intros Hs Hco Hfit Ha. pose proof (co_flow _ _ _ Hco) as Hfl. unfold flow in Hfl. rewrite Ha in Hfl. destruct Hfl as [_ Hfl].
  unfold body_fits in Hfit. unfold switch in Hs. split.
  - intros Hd. rewrite Hd in Hs. unfold case_chunk_data_almost_done, assert_that, guard_trap in Hs.
    destruct (has_flag p F_CHUNKED); [|done]. destruct (content_length p =? 0); [|done].
    destruct (negb (ch =? CR)); injection Hs as <-; done.
  - intros Hm. rewrite Hm in Hfl. destruct Hfl as [[[_ ?]|Hc] _]; [done|].
    destruct (pstate p) eqn:Es; try discriminate Hc; try done.
    + unfold case_chunk_data, assert_that, guard_trap in Hs. destruct (has_flag p F_CHUNKED); [|done].
      destruct (_ && _); [|done]. injection Hs as <-. rewrite Z.min_l by lia. by rewrite Z.sub_diag.
    + unfold case_chunk_data_almost_done, assert_that, guard_trap in Hs.
      destruct (has_flag p F_CHUNKED); [|done]. destruct (content_length p =? 0); [|done].
      destruct (negb (ch =? CR)); by injection Hs as <-.
    + unfold case_body_identity, assert_that, guard_trap in Hs. destruct (_ && _); [|done].
      rewrite Z.min_l, Z.sub_diag in Hs by lia. by injection Hs as <-.
Qed.

Lemma body_inv_byte fuel x ch x' :
  at_byte a J x -> body_fits (x_parser x) (len a - x_p x) -> body_inv x -> (rank (pstate (x_parser x)) < fuel)%nat ->
  reexecute_byte st a fuel x ch = Ok (Next, x') -> body_inv x'.
Proof.
  revert x. induction fuel as [|fuel IH]; intros x Hx Hfit Hinv Hf; [lia|]. cbn [reexecute_byte].
  pose proof (ab_pos _ _ _ Hx) as Hpx.
  destruct (switch_ok (x_parser x) ch (len a - x_p x) (ab_byte _ _ _ Hx) ltac:(lia)) as (s & Hs & Hco).
  rewrite Hs. cbn [mbind outcome_bind]. unfold perform.
  assert (Hent : forall y, enters a J x s y -> reexecute_byte st a fuel y ch = Ok (Next, x') -> body_inv x').
  { intros y (Hy & Hr & _ & Hc & _). apply IH; [done|by apply class_fits| |lia].
    intros [m Hm]. by rewrite (marks_none _ _ _ (ab_marks _ _ _ Hy) Hc) in Hm. }
  assert (Hnone : forall y, no_marks (x_marks y) -> body_inv y) by (intros y Hn [m Hm]; by rewrite Hn in Hm).
  destruct (st_act s) as [ | | |f lv|k extra c ag| ] eqn:Ha; try done.
  - intros [= <-]. destruct (fits_break _ _ _ _ Hs Hco Hfit Ha) as [Hnd Hmk]. intros [m Hm].
    rewrite apply_stmt_eq in Hm |- *. cbn [x_marks x_parser] in *.
    apply marks_after_cases in Hm as [Hm|[Hm _]]; [|by apply Hmk]. exfalso. by apply Hnd, Hinv.
  - apply Hent. by apply reexecute_next.
  - destruct (notify_case_ok st a J D Hcb x s f lv (x_p (apply_stmt x s) + 1) Hx Hco Ha) as (r & -> & _ & Hmr & _ & Hnm).
    cbn [mbind outcome_bind]. destruct r as [[e|] y]; cbn [or_return]; [done|]. destruct lv; [done|]. intros [= <-].
    apply Hnone. cbn in Hmr. by rewrite Hmr.
  - destruct (data_case_ok st a J D Hcb x s k extra c ag
      (if c then x_p (apply_stmt x s) + 1 else x_p (apply_stmt x s)) Hx Hco Ha) as (r & -> & Hcall & Hmr).
    cbn [mbind outcome_bind]. destruct r as [[e|] y]; cbn [or_return]; [done|].
    destruct ag; [|intros [= <-]; apply Hnone, (Hmr eq_refl)].
    apply Hent. by apply (data_next a J D x s Hx Hco k extra c); auto.
  - destruct (call_headers_complete st (apply_stmt x s)) as [[[e|] y]|t] eqn:Eh; cbn [mbind outcome_bind or_return]; try done.
    apply Hent. by apply (headers_next st a J D Hcb x s Hx Hco).
Qed.

#[local] Instance body_fits_dec p avail : Decision (body_fits p avail).
Proof. unfold body_fits. destruct (pstate p); apply _. Defined.

Lemma prefix_loop fuela fW x v p u :
  b <> [] -> between a x -> body_inv x -> len a - x_p x < Z.of_nat fuela -> len W - x_p x < Z.of_nat fW ->
  bytes_loop st W fW x = Ok (v, p, u) -> v = len W -> http_errno p = HPE_OK -> joins fuela x (v, p, u).
Proof.
  intros Hb. revert fW x. induction fuela as [|fuela IH]; intros fW x Hx Hinv Hfa HfW HW Hv Hok;
    pose proof (bt_pos _ _ Hx) as Hp; [lia|].
  assert (Hlb : 0 < len b) by (unfold len; destruct b; [done|cbn; lia]). pose proof len_W as HlW. assert (Hna : len a = n) by done.
  destruct (decide (x_p x = n)) as [Hn|Hn]; [apply (join_at_end _ fW); try done; unfold len in *; lia|].
  assert (Hla : x_p x <> len a) by (unfold len; lia). assert (HlxW : x_p x <> len W) by lia.
  destruct fW as [|fW]; [lia|].
  destruct (load_in a (x_p x)) as [ch Hch]; [lia|].
  assert (HchW : load W (x_p x) = Ok ch).
  { unfold load in *. revert Hch. decide_tests. by rewrite lookup_app_l by (unfold len in *; lia). }
  destruct (count_header (x_parser x)) as [[|] p'] eqn:Ec.
  2: { rewrite (bytes_loop_over W fW x ch p') in HW by done. injection HW as ? _ _. lia. }
  pose proof (between_byte _ _ _ Hx Hla Ec) as Hbx.
  destruct (decide (body_fits p' (len a - x_p x))) as [Hfit|Hfit].
  - rewrite (bytes_loop_step W fW x ch p') in HW by done.
    rewrite reexecute_prefix in HW by (try done; apply rank_fuel).
    destruct (reexecute_ok st a J D Hcb reexecutions (x_p x) (with_parser x p') ch Hbx) as (r & Hr & Hbr);
      [apply rank_fuel|done|]. rewrite Hr in HW. cbn [mbind outcome_bind] in HW.
    destruct r as [[|w|] y]; cbn [after_byte] in HW.
    + assert (Hy : body_inv y) by (apply (body_inv_byte reexecutions (with_parser x p') ch); try done; [|apply rank_fuel];
        intros Hm; destruct (count_header_ok _ _ (bt_parser _ _ Hx) Ec) as (_ & Hs & _); cbn; rewrite Hs; by apply Hinv).
      pose proof Hbr as (_ & _ & Hpos & _).
      destruct (IH fW (next_byte y)) as (pa & ua & Ha & Hrest); try done; [by apply (between_next a (x_p x)); [lia|]|cbn; lia|cbn; lia|].
      exists pa, ua. split; [|done]. rewrite (bytes_loop_step a fuela x ch p'), Hr by done. done.
    + injection HW as ? _ _. destruct Hbr as (? & _). lia.
    + injection HW as Hv' Hp' _. exfalso. revert Hok. rewrite <-Hp'.
      destruct (is_ok (http_errno (x_parser y))) eqn:E; [done|]. intros H. by rewrite H in E.
  - pose proof (ab_byte _ _ _ Hbx) as Hby. cbn [with_parser x_parser] in Hby.
    destruct (overshoot p' (len a - x_p x) (len b) Hby ltac:(lia) ltac:(lia) Hfit) as (Hh & sa & sW & sb & Hsa & HsW & Hsb & Hov).
    destruct (count_header_ok _ _ (bt_parser _ _ Hx) Ec) as (_ & Hst & _ & _).
    assert (Hpp : p' = x_parser x).
    { unfold count_header in Ec. rewrite <-Hst, Hh in Ec. by injection Ec. }
    rewrite Hpp in *. apply (join_over x sa sW sb Hb Hx ltac:(lia) Hby Hh Hsa) with (S fW); try done; [|lia].
    intros c. rewrite HlW. replace (n + len b - x_p x) with (len a - x_p x + len b) by lia. apply HsW.
Qed.

(** Two calls do what one call does. *)
Lemma execute_split p u p2 u2 :
  a <> [] -> b <> [] -> parser_ok p -> J (phase_of p) u ->
  http_parser_execute st (a ++ b) p u = Ok (len (a ++ b), p2, u2) -> http_errno p2 = HPE_OK ->
  exists p1 u1, http_parser_execute st a p u = Ok (len a, p1, u1) /\ http_errno p1 = HPE_OK /\ parser_ok p1 /\
    J (phase_of p1) u1 /\ http_parser_execute st b p1 u1 = Ok (len b, p2, u2).
Proof.
  intros Ha Hb Hp HJ HW Hok. assert (Hla : 0 < len a) by (unfold len; destruct a; [done|cbn; lia]).
  assert (Hlb : 0 < len b) by (unfold len; destruct b; [done|cbn; lia]). pose proof len_W as HlW.
  unfold http_parser_execute in HW |- *. destruct (http_errno p) eqn:He; cbn [is_ok negb] in HW |- *;
    try (injection HW as ? -> ->; congruence).
  rewrite (proj2 (Z.eqb_neq (len W) 0)) in HW by lia. rewrite (proj2 (Z.eqb_neq (len a) 0)) by lia.
  assert (Hj : joins (S (length a)) (start p u) (len W, p2, u2)).
  { apply (prefix_loop _ (S (length W))); try done.
    - by apply start_between.
    - intros [m Hm]. cbn in Hm. by destruct (pstate p).
    - cbn. unfold len. lia.
    - cbn. unfold len. lia. }
  destruct Hj as (p1 & u1 & H1 & H2 & H3 & H4 & H5).
  exists p1, u1. rewrite H2. cbn [is_ok negb]. rewrite (proj2 (Z.eqb_neq (len b) 0)) by lia. by split_and!.
Qed.

End Split.

(** ** Streams *)

(** The calls of a reader: one for each piece it receives. *)
Fixpoint feed {A} (st : http_parser_settings A) (pieces : list bytes) (p : http_parser) (u : A) : outcome (http_parser * A) :=
  match pieces with
  | [] => Ok (p, u)
  | d :: pieces =>
      r ← http_parser_execute st d p u;
      match r : Z * http_parser * A with (_, p, u) => feed st pieces p u end
  end.

Lemma feed_pieces {A} (st : http_parser_settings A) J D (pieces : list bytes) p u p2 u2 :
  callbacks_ok st J D -> appends st -> parser_ok p -> J (phase_of p) u ->
  Forall (fun d => d <> []) pieces -> pieces <> [] ->
  http_parser_execute st (concat pieces) p u = Ok (len (concat pieces), p2, u2) -> http_errno p2 = HPE_OK ->
  feed st pieces p u = Ok (p2, u2).
Proof.
  intros Hcb Hap. revert p u. induction pieces as [|d pieces IH]; intros p u Hp HJ Hne Hnil He Hok; [done|].
  apply Forall_cons in Hne as [Hd Hne]. cbn [feed concat] in *. destruct pieces as [|d2 pieces].
  { cbn [concat] in He. rewrite app_nil_r in He. by rewrite He. }
  assert (Hc : concat (d2 :: pieces) <> []).
  { apply Forall_cons in Hne as [Hd2 _]. cbn. by destruct d2. }
  destruct (execute_split st J D Hcb Hap d (concat (d2 :: pieces)) p u p2 u2 Hd Hc Hp HJ He Hok)
    as (p1 & u1 & -> & He1 & Hp1 & HJ1 & H2). cbn [mbind outcome_bind]. by apply IH.
Qed.
