(* ===== verification/HttpMessage.v ===== *)
(** * Parsing a printed response

    A response written out with its status line, header lines, a Content-Length
    and a body is parsed back: the parser makes exactly the callbacks that spell
    it, in order, and is ready for the next message.  Together with HttpSplit
    this holds however the bytes arrive. *)

From S2P Require Import Prelude Utils HttpParser HttpFacts HttpRun HttpSplit.

(** ** Responses and their callbacks *)

Record response := mkResponse {
  rs_code : Z; rs_reason : bytes; rs_headers : list (bytes * bytes); rs_length : bytes; rs_body : bytes }.

Definition CRLF : bytes := [CR; LF].

Definition print_header (h : bytes * bytes) : bytes := fst h ++ str ": " ++ snd h ++ CRLF.

Definition print_code (c : Z) : bytes := [48 + c / 100; 48 + c / 10 mod 10; 48 + c mod 10].

Definition print_head (r : response) : bytes :=
  str "HTTP/1.1 " ++ print_code (rs_code r) ++ str " " ++ rs_reason r ++ CRLF
  ++ concat (print_header <$> rs_headers r)
  ++ print_header (str "Content-Length", rs_length r) ++ CRLF.

Definition print_response (r : response) : bytes := print_head r ++ rs_body r.

Inductive event : Type :=
| EBegin | EField (d : bytes) | EValue (d : bytes) | EHeaders | EBody (d : bytes) | EComplete (code : Z).

Definition header_events (h : bytes * bytes) : list event := [EField (fst h); EValue (snd h)].

Definition events (r : response) : list event :=
  [EBegin] ++ concat (header_events <$> rs_headers r)
  ++ header_events (str "Content-Length", rs_length r) ++ [EHeaders]
  ++ (match rs_body r with [] => [] | _ => [EBody (rs_body r)] end) ++ [EComplete (rs_code r)].

Section Accepts.
Context {A : Type} (st : http_parser_settings A).

(** The callback of an event takes [u] to [u'] without an error. *)
Definition accepts (e : event) (u u' : A) : Prop :=
  let notify (cb : option (http_cb A)) (P : http_parser -> Prop) :=
    match cb with None => u' = u | Some cb => forall p, P p -> cb p u = Ok (mkRes 0 false u') end in
  let data (cb : option (http_data_cb A)) d :=
    match cb with None => u' = u | Some cb => forall p, cb p d u = Ok (mkRes 0 false u') end in
  match e with
  | EBegin => notify (on_message_begin st) (fun _ => True)
  | EField d => data (on_header_field st) d
  | EValue d => data (on_header_value st) d
  | EHeaders => notify (on_headers_complete st) (fun _ => True)
  | EBody d => data (on_body st) d
  | EComplete c => notify (on_message_complete st) (fun p => status_code p = c)
  end.

Inductive accepts_all : list event -> A -> A -> Prop :=
| acc_nil u : accepts_all [] u u
| acc_cons e es u u1 u' : accepts e u u1 -> accepts_all es u1 u' -> accepts_all (e :: es) u u'.

Lemma accepts_all_app es es' u u' : accepts_all (es ++ es') u u' ->
  exists u1, accepts_all es u u1 /\ accepts_all es' u1 u'.
Proof.
  revert u. induction es as [|e es IH]; intros u H; cbn in H; [by exists u; split; [constructor|]|].
  inversion H as [|? ? ? u1 ? He Hes]; subst. destruct (IH _ Hes) as (u2 & H1 & H2).
  exists u2. split; [by econstructor|done].
Qed.

Lemma accepts_one e u u' : accepts_all [e] u u' -> accepts e u u'.
Proof. intros H. inversion H as [|? ? ? u1 ? He Hes]; subst. by inversion Hes; subst. Qed.

Lemma accepts_two e1 e2 u u' : accepts_all [e1; e2] u u' -> exists u1, accepts e1 u u1 /\ accepts e2 u1 u'.
Proof. intros H. inversion H as [|? ? ? u1 ? He Hes]; subst. exists u1. by split; [|apply accepts_one]. Qed.

End Accepts.

(** ** Runs *)

Section Runs.
Context {A : Type} (st : http_parser_settings A) (data : bytes).
Implicit Type x : exec A.

Lemma bytes_loop_more f f' x r : bytes_loop st data f x = Ok r -> (f <= f')%nat -> bytes_loop st data f' x = Ok r.
Proof.
  revert f' x. induction f as [|f IH]; intros f' x H Hf; [done|]. destruct f' as [|f']; [lia|].
  cbn [bytes_loop] in *. destruct (x_p x =? len data); [done|].
  destruct (load data (x_p x)); [|done]. cbn [mbind outcome_bind] in *.
  destruct (count_header (x_parser x)) as [fits p']. destruct (negb fits); [done|].
  destruct (reexecute_byte _ _ _ _ _) as [[[|v|] y]|]; cbn [mbind outcome_bind] in *; try done.
  apply IH; [done|lia].
Qed.

(** The loop from [x], with a round for each byte left, ends in [r]. *)
Definition runs x (r : Z * http_parser * A) : Prop := bytes_loop st data (S (Z.to_nat (len data - x_p x))) x = Ok r.

Lemma runs_byte x p' ch y r :
  0 <= x_p x < len data -> load data (x_p x) = Ok ch -> count_header (x_parser x) = (true, p') ->
  reexecute_byte st data reexecutions (with_parser x p') ch = Ok (Next, y) -> x_p x <= x_p y ->
  runs (next_byte y) r -> runs x r.
Proof.
  intros Hp Hc Hh Hr Hy H. unfold runs in *. rewrite (bytes_loop_step _ _ _ _ ch p') by (try done; lia).
  rewrite Hr. cbn [mbind outcome_bind after_byte]. apply (bytes_loop_more _ _ _ _ H). cbn [next_byte x_p]. lia.
Qed.

(** The statements without callback or mark, over a string. *)
Fixpoint quiet (bs : bytes) (p : http_parser) : option http_parser :=
  match bs with
  | [] => Some p
  | c :: bs =>
      match count_header p with
      | (true, p) =>
          if PARSING_HEADER (pstate p) then
            match switch p c 1 with
            | Ok (mkStmt p None 0 Break) => quiet bs p
            | _ => None
            end
          else None
      | _ => None
      end
  end.

Lemma switch_header p ch avail avail' : PARSING_HEADER (pstate p) = true -> switch p ch avail = switch p ch avail'.
Proof. intros H. unfold switch. by destruct (pstate p). Qed.

Lemma quiet_app bs bs' p p1 : quiet bs p = Some p1 -> quiet (bs ++ bs') p = quiet bs' p1.
Proof.
  revert p. induction bs as [|c bs IH]; intros p; cbn [quiet app]; [by intros [= ->]|].
  destruct (count_header p) as [[|] q]; [|done]. destruct (PARSING_HEADER (pstate q)); [|done].
  destruct (switch q c 1) as [[q' [k|] [|z|z] [ | | | | | ]]|]; try done. apply IH.
Qed.

Lemma runs_quiet bs pre rest p p' u ms r :
  data = pre ++ bs ++ rest -> quiet bs p = Some p' ->
  runs (mkExec p' u (Z.of_nat (length (pre ++ bs))) ms) r -> runs (mkExec p u (Z.of_nat (length pre)) ms) r.
Proof.
  revert pre p. induction bs as [|c bs IH]; intros pre p Hd Hq Hr; cbn [quiet] in Hq.
  { injection Hq as <-. by rewrite app_nil_r in Hr. }
  destruct (count_header p) as [[|] q] eqn:Ec; [|done]. destruct (PARSING_HEADER (pstate q)) eqn:Eh; [|done].
  destruct (switch q c 1) as [[q' [k|] [|z|z] [ | | | | | ]]|] eqn:Es; try done.
  apply (runs_byte _ q c (mkExec q' u (Z.of_nat (length pre)) ms)); cbn [x_p x_parser].
  - unfold len. rewrite Hd, length_app. cbn. lia.
  - rewrite Hd. cbn. by apply load_app.
  - done.
  - change reexecutions with (S 3). cbn [reexecute_byte with_parser x_parser x_p].
    rewrite (switch_header _ _ _ 1 Eh), Es. cbn. unfold apply_stmt. cbn. by rewrite Z.add_0_r.
  - lia.
  - unfold next_byte. cbn [x_parser x_user x_p x_marks].
    replace (Z.of_nat (length pre) + 1) with (Z.of_nat (length (pre ++ [c]))) by (rewrite length_app; cbn; lia).
    apply IH; [by rewrite <-app_assoc|done|]. by rewrite <-app_assoc.
Qed.

(** *** Quiet strings *)

(** The parser among the headers: only the place in them differs from [p]. *)
Definition hd (p : http_parser) (s : state) (hs : header_states) (ix nr : Z) : http_parser :=
  mkParser (ptype p) (flags p) s hs ix nr (content_length p) (http_major p) (http_minor p) (status_code p)
    (method p) (http_errno p) (upgrade p).

Lemma set_pstate_hd p s hs ix nr s' : set_pstate (hd p s hs ix nr) s' = hd p s' hs ix nr.
Proof. done. Qed.

Lemma count_hd p s hs ix nr : PARSING_HEADER s = true -> 0 <= nr < HTTP_MAX_HEADER_SIZE ->
  count_header (hd p s hs ix nr) = (true, hd p s hs ix (nr + 1)).
Proof.
  intros Hs Hn. unfold count_header. cbn [hd pstate nread]. rewrite Hs.
  unfold set_nread. cbn [nread]. rewrite u32_small by (unfold HTTP_MAX_HEADER_SIZE in *; lia).
  by rewrite (proj2 (Z.ltb_ge _ _)) by lia.
Qed.

(** A string over which the same statement repeats. *)
Lemma quiet_repeat (f : Z -> http_parser) (P : Z -> Prop) bs nr :
  0 <= nr -> nr + Z.of_nat (length bs) <= HTTP_MAX_HEADER_SIZE -> Forall P bs ->
  (forall n, 0 <= n < HTTP_MAX_HEADER_SIZE -> count_header (f n) = (true, f (n + 1))) ->
  (forall n c, P c -> PARSING_HEADER (pstate (f n)) = true /\ switch (f n) c 1 = brk (f n)) ->
  quiet bs (f nr) = Some (f (nr + Z.of_nat (length bs))).
Proof.
  intros Hn Hl HP Hc Hs. revert nr Hn Hl. induction HP as [|c bs Hp HP IH]; intros nr Hn Hl; cbn [quiet length] in *.
  { by rewrite Z.add_0_r. }
  rewrite Hc by lia. destruct (Hs (nr + 1) c Hp) as [-> ->]. cbn [brk leave]. rewrite IH by lia. do 2 f_equal. lia.
Qed.

Definition text_byte (c : Z) : Prop := c <> CR /\ c <> LF.

Lemma quiet_reason p hs ix bs nr :
  0 <= nr -> nr + Z.of_nat (length bs) <= HTTP_MAX_HEADER_SIZE -> Forall text_byte bs ->
  quiet bs (hd p s_res_status hs ix nr) = Some (hd p s_res_status hs ix (nr + Z.of_nat (length bs))).
Proof.
  intros Hn Hl HP. apply (quiet_repeat (hd p s_res_status hs ix) text_byte); try done; [intros; by apply count_hd|].
  intros n c [H1 H2]. split; [done|]. unfold switch. cbn [hd pstate]. unfold case_res_status.
  by rewrite (proj2 (Z.eqb_neq c CR) H1), (proj2 (Z.eqb_neq c LF) H2).
Qed.

Lemma quiet_value p ix bs nr :
  0 <= nr -> nr + Z.of_nat (length bs) <= HTTP_MAX_HEADER_SIZE -> Forall text_byte bs ->
  quiet bs (hd p s_header_value h_general ix nr) = Some (hd p s_header_value h_general ix (nr + Z.of_nat (length bs))).
Proof.
  intros Hn Hl HP. apply (quiet_repeat (hd p s_header_value h_general ix) text_byte); try done; [intros; by apply count_hd|].
  intros n c [H1 H2]. split; [done|]. unfold switch. cbn [hd pstate]. unfold case_header_value.
  by rewrite (proj2 (Z.eqb_neq c CR) H1), (proj2 (Z.eqb_neq c LF) H2).
Qed.

(** *** Names *)

Definition token_byte (c : Z) : Prop := TOKEN c <> 0.

(** What has been read of a name, in lower case, where the state of the header
    says something about it. *)
Definition name_state (w : bytes) (hs : header_states) (ix : Z) : Prop :=
  let prefix (word : bytes) := ix + 1 = Z.of_nat (length w) /\ w `prefix_of` word /\ (length w < length word)%nat in
  match hs with
  | h_general => True
  | h_C => ix = 0 /\ w = str "c" | h_CO => ix = 1 /\ w = str "co" | h_CON => ix = 2 /\ w = str "con"
  | h_matching_connection => prefix CONNECTION
  | h_matching_proxy_connection => prefix PROXY_CONNECTION
  | h_matching_content_length => prefix CONTENT_LENGTH
  | h_matching_transfer_encoding => prefix TRANSFER_ENCODING
  | h_matching_upgrade => prefix UPGRADE
  | h_connection => w = CONNECTION \/ w = PROXY_CONNECTION
  | h_content_length => w = CONTENT_LENGTH
  | h_transfer_encoding => w = TRANSFER_ENCODING
  | h_upgrade => w = UPGRADE
  | _ => False
  end.

(** One more character of a word. *)
Lemma matching_name (word : bytes) full ix h0 c w :
  ix + 1 = Z.of_nat (length w) -> w `prefix_of` word -> (length w < length word)%nat ->
  Z.of_nat (length word) <= 250 -> (0 < length w)%nat ->
  exists hs, (forall p, index p = ix -> header_state p = h0 ->
                matching word full p c = Ok (set_header_state (set_index p (ix + 1)) hs)) /\
    (hs = h_general \/ (hs = full /\ w ++ [c] = word)
     \/ (hs = h0 /\ w ++ [c] `prefix_of` word /\ (length (w ++ [c]) < length word)%nat)).
Proof.
  intros Hi [k ->] Hlt Hl Hw. rewrite length_app in *. destruct k as [|c' k]; [cbn in Hlt; lia|].
  assert (Hu : u8 (ix + 1) = ix + 1) by (apply uwrap_small; lia).
  set (last := ix + 1 =? Z.of_nat (length w + S (length k)) + 1 - 2).
  exists (if negb (c =? c') then h_general else if last then full else h0). split.
  - intros p <- <-. unfold matching. cbn [index set_index]. rewrite Hu, length_app. cbn [length] in *.
    rewrite (proj2 (Z.ltb_ge _ _)) by lia.
    rewrite <-app_assoc. cbn [app]. rewrite load_app by lia. cbn [mbind outcome_bind]. subst last.
    destruct (negb (c =? c')); [done|]. destruct (_ =? _); [done|by destruct p].
  - subst last. destruct (Z.eqb_spec c c') as [<-|Hne]; cbn [negb]; [|auto]. right.
    destruct (Z.eqb_spec (ix + 1) (Z.of_nat (length w + S (length k)) + 1 - 2)) as [He|He]; [left|right].
    + split; [done|]. destruct k; [done|cbn in *; lia].
    + split; [done|]. split; [exists k; by rewrite <-app_assoc|]. rewrite length_app. destruct k; cbn in *; lia.
Qed.

(** A further character in one of the states that match a word. *)
Ltac name_match Hmatch Hw :=
  let H1 := fresh in let H2 := fresh in let H3 := fresh in
  destruct Hw as (H1 & H2 & H3); eapply Hmatch; [done|exact H2|done|done|];
  let h := fresh in let He := fresh in let Hp := fresh in let Hlt := fresh in
  intros h [->|[[-> He]|[-> [Hp Hlt]]]]; cbn [name_state]; auto;
  rewrite length_app in *; cbn [length] in *; split_and!; first [done|lia].

(** The states a name can be in. *)
Lemma name_char c w hs ix :
  name_state w hs ix -> (0 < length w)%nat -> TOKEN c <> 0 ->
  exists hs' ix', name_state (w ++ [TOKEN c]) hs' ix' /\
    forall p s nr, field_char (hd p s hs ix nr) c (TOKEN c) = Ok (hd p s hs' ix' nr).
Proof.
  intros Hw Hl Hc. assert (Hsp : (c =? SP) = false) by (apply Z.eqb_neq; intros ->; by apply Hc).
  assert (Hmatch : forall word full, ix + 1 = Z.of_nat (length w) -> w `prefix_of` word -> (length w < length word)%nat ->
    Z.of_nat (length word) <= 250 ->
    (forall h, h = h_general \/ (h = full /\ w ++ [TOKEN c] = word)
       \/ (h = hs /\ w ++ [TOKEN c] `prefix_of` word /\ (length (w ++ [TOKEN c]) < length word)%nat) ->
       name_state (w ++ [TOKEN c]) h (ix + 1)) ->
    exists hs' ix', name_state (w ++ [TOKEN c]) hs' ix' /\
      forall p s nr, matching word full (hd p s hs ix nr) (TOKEN c) = Ok (hd p s hs' ix' nr)).
  { intros word full H1 H2 H3 H4 Hns.
    destruct (matching_name word full ix hs (TOKEN c) w H1 H2 H3 H4 Hl) as (h & Hm & Hh).
    exists h, (ix + 1). split; [by apply Hns|]. intros p s nr. by apply (Hm (hd p s hs ix nr)). }
  unfold name_state in Hw. destruct hs; try done; cbn [field_char hd header_state index].
  - exists h_general, ix. by split.
  - destruct Hw as [-> ->]. exists (if TOKEN c =? 111 then h_CO else h_general), 1. split; [|done].
    destruct (Z.eqb_spec (TOKEN c) 111) as [->|]; by cbn.
  - destruct Hw as [-> ->]. exists (if TOKEN c =? 110 then h_CON else h_general), 2. split; [|done].
    destruct (Z.eqb_spec (TOKEN c) 110) as [->|]; by cbn.
  - destruct Hw as [-> ->].
    exists (if TOKEN c =? 110 then h_matching_connection else if TOKEN c =? 116 then h_matching_content_length else h_general), 3.
    split; [|done]. destruct (Z.eqb_spec (TOKEN c) 110) as [->|]; [by split_and!; [|eexists|cbn; lia]|].
    destruct (Z.eqb_spec (TOKEN c) 116) as [->|]; [by split_and!; [|eexists|cbn; lia]|done].
  - by name_match Hmatch Hw.
  - by name_match Hmatch Hw.
  - by name_match Hmatch Hw.
  - by name_match Hmatch Hw.
  - by name_match Hmatch Hw.
  - exists h_general, ix. split; [done|]. intros. by rewrite Hsp.
  - exists h_general, ix. split; [done|]. intros. by rewrite Hsp.
  - exists h_general, ix. split; [done|]. intros. by rewrite Hsp.
  - exists h_general, ix. split; [done|]. intros. by rewrite Hsp.
Qed.

Lemma quiet_name bs w hs ix :
  name_state w hs ix -> (0 < length w)%nat -> Forall token_byte bs ->
  exists hs' ix', name_state (w ++ (TOKEN <$> bs)) hs' ix' /\
    forall p nr, 0 <= nr -> nr + Z.of_nat (length bs) <= HTTP_MAX_HEADER_SIZE ->
    quiet bs (hd p s_header_field hs ix nr) = Some (hd p s_header_field hs' ix' (nr + Z.of_nat (length bs))).
Proof.
  intros Hw Hl Hbs. revert w hs ix Hw Hl. induction Hbs as [|c bs Hc Hbs IH]; intros w hs ix Hw Hl; cbn [length] in *.
  { exists hs, ix. rewrite app_nil_r. split; [done|]. intros. by rewrite Z.add_0_r. }
  destruct (name_char c w hs ix Hw Hl Hc) as (hs1 & ix1 & Hw1 & Hf).
  destruct (IH _ _ _ Hw1) as (hs' & ix' & Hw' & Hq); [rewrite length_app; cbn; lia|].
  exists hs', ix'. split; [by rewrite <-app_assoc in Hw'|]. intros p nr Hn Hmax. cbn [quiet].
  rewrite count_hd by (done || lia).
  change (pstate (hd p s_header_field hs ix (nr + 1))) with s_header_field. cbn [PARSING_HEADER].
  unfold switch. change (pstate (hd p s_header_field hs ix (nr + 1))) with s_header_field. cbn iota.
  unfold case_header_field. rewrite (proj2 (Z.eqb_neq (TOKEN c) 0) Hc). cbn [negb]. rewrite Hf. cbn [mbind outcome_bind brk leave].
  rewrite Hq by lia. do 2 f_equal. lia.
Qed.

(** The header state of the first character. *)
Definition first_state (c : Z) : header_states :=
  if c =? 99 then h_C else if c =? 112 then h_matching_proxy_connection
  else if c =? 116 then h_matching_transfer_encoding else if c =? 117 then h_matching_upgrade else h_general.

Lemma first_state_ok c : name_state [c] (first_state c) 0.
Proof.
  unfold first_state. destruct (Z.eqb_spec c 99) as [->|]; [done|].
  destruct (Z.eqb_spec c 112) as [->|]; [by split_and!; [|eexists|cbn; lia]|].
  destruct (Z.eqb_spec c 116) as [->|]; [by split_and!; [|eexists|cbn; lia]|].
  destruct (Z.eqb_spec c 117) as [->|]; [by split_and!; [|eexists|cbn; lia]|done].
Qed.

(** How a name leaves the state of the header. *)
Definition name_end (name : bytes) (hs : header_states) (ix : Z) : Prop :=
  match name with
  | [] => False
  | c :: name =>
      name_state (TOKEN <$> c :: name) hs ix /\
      forall p nr, 0 <= nr -> nr + Z.of_nat (length name) <= HTTP_MAX_HEADER_SIZE ->
        quiet name (hd p s_header_field (first_state (TOKEN c)) 0 nr)
          = Some (hd p s_header_field hs ix (nr + Z.of_nat (length name)))
  end.

(** The digits of a length: the value so far is in [p]. *)
Lemma quiet_digits p ds nr :
  Forall (fun c => isdigit c = true) ds -> 0 <= content_length p ->
  content_length p * 10 ^ Z.of_nat (length ds) + dec_val ds < ULLONG_MAX ->
  0 <= nr -> nr + Z.of_nat (length ds) <= HTTP_MAX_HEADER_SIZE ->
  quiet ds (hd p s_header_value h_content_length 0 nr) =
    Some (hd (set_content_length p (content_length p * 10 ^ Z.of_nat (length ds) + dec_val ds))
             s_header_value h_content_length 0 (nr + Z.of_nat (length ds))).
Proof.
  intros Hds. revert p nr. induction Hds as [|c ds Hc Hds IH]; intros p nr Hp Hlt Hn Hmax.
  { cbn. rewrite Z.mul_1_r, !Z.add_0_r. by destruct p. }
  rewrite dec_val_cons in *. cbn [quiet length] in *.
  pose proof (dec_val_nonneg ds Hds) as Hnn. apply isdigit_spec in Hc as Hcr.
  rewrite Nat2Z.inj_succ, Z.pow_succ_r in * by lia. set (e := 10 ^ Z.of_nat (length ds)) in *.
  assert (He : 1 <= e) by (subst e; lia).
  rewrite count_hd by (done || lia).
  change (pstate (hd p s_header_value h_content_length 0 (nr + 1))) with s_header_value. cbn [PARSING_HEADER].
  unfold switch. change (pstate (hd p s_header_value h_content_length 0 (nr + 1))) with s_header_value. cbn iota.
  unfold case_header_value. rewrite (proj2 (Z.eqb_neq c CR)), (proj2 (Z.eqb_neq c LF)) by lia.
  change (header_state (hd p s_header_value h_content_length 0 (nr + 1))) with h_content_length. cbn iota.
  rewrite (proj2 (Z.eqb_neq c SP)) by lia. replace (IS_NUM c) with true by (unfold IS_NUM; lia). cbn [negb].
  unfold more_length. change (content_length (hd p s_header_value h_content_length 0 (nr + 1))) with (content_length p).
  assert (Hb : content_length p * 10 + (c - 48) < ULLONG_MAX) by nia. assert (HU : ULLONG_MAX = 2 ^ 64 - 1) by done.
  rewrite !u64_small by (rewrite ?u64_small; lia).
  rewrite (proj2 (Z.ltb_ge _ _)), (proj2 (Z.eqb_neq _ ULLONG_MAX)) by lia. cbn [orb brk leave].
  specialize (IH (set_content_length p (content_length p * 10 + (c - 48))) (nr + 1)).
  cbn [content_length set_content_length] in IH. fold e in IH.
  replace ((content_length p * 10 + (c - 48)) * e + dec_val ds)
    with (content_length p * (10 * e) + ((c - 48) * e + dec_val ds)) in IH by lia.
  replace (nr + 1 + Z.of_nat (length ds)) with (nr + Z.succ (Z.of_nat (length ds))) in IH by lia.
  apply IH; lia.
Qed.

(** *** Data callbacks *)

Definition unmarked : marks := mkMarks None None None None.

Lemma data_accept k e upto er p u u1 pos m d :
  http_errno p = HPE_OK ->
  match k with K_header_field => e = EField d | K_header_value => e = EValue d | K_body => e = EBody d | K_url => False end ->
  read_block data m (upto - m) = Ok d -> accepts st e u u1 ->
  CALLBACK_DATA_ st data k upto er (mkExec p u pos (set_mark unmarked k (Some m))) = Ok (None, mkExec p u1 pos unmarked).
Proof.
  intros He Hk Hd Hacc. unfold CALLBACK_DATA_. cbn [x_parser x_marks]. rewrite He, get_set_mark. cbn [is_ok guard_trap].
  destruct k; try done; subst e; cbn [accepts data_cb] in *;
    (match goal with |- context [match ?o with Some _ => _ | None => _ end] => destruct o as [cb|] end;
     [|by subst]; rewrite Hd; cbn [mbind outcome_bind]; rewrite Hacc; cbn; by rewrite He).
Qed.

Lemma reexecute_S f x ch :
  reexecute_byte st data (S f) x ch =
    (s ← switch (x_parser x) ch (len data - x_p x);
     perform st data (fun y => reexecute_byte st data f y ch) (apply_stmt x s) (st_act s)).
Proof. done. Qed.

(** A byte at the end of [pre]. *)
Lemma runs_at pre c rest p p1 u ms y r :
  data = pre ++ c :: rest -> count_header p = (true, p1) ->
  reexecute_byte st data reexecutions (mkExec p1 u (Z.of_nat (length pre)) ms) c = Ok (Next, y) ->
  x_p y = Z.of_nat (length pre) ->
  runs (mkExec (x_parser y) (x_user y) (Z.of_nat (length (pre ++ [c]))) (x_marks y)) r ->
  runs (mkExec p u (Z.of_nat (length pre)) ms) r.
Proof.
  intros Hd Hc Hr Hy H. apply (runs_byte _ p1 c y); cbn [x_p x_parser]; try done.
  - unfold len. rewrite Hd, length_app. cbn. lia.
  - rewrite Hd. by apply load_app.
  - lia.
  - unfold next_byte. rewrite Hy. by rewrite length_app in H; cbn in H; rewrite Nat2Z.inj_add in H.
Qed.

Lemma runs_data pre c rest p p1 q u u1 k m d e r :
  data = pre ++ c :: rest -> count_header p = (true, p1) -> PARSING_HEADER (pstate p1) = true ->
  switch p1 c 1 = leave q (Data k 0 true false) -> http_errno q = HPE_OK ->
  match k with K_header_field => e = EField d | K_header_value => e = EValue d | _ => False end ->
  read_block data m (Z.of_nat (length pre) - m) = Ok d -> accepts st e u u1 ->
  runs (mkExec q u1 (Z.of_nat (length (pre ++ [c]))) unmarked) r ->
  runs (mkExec p u (Z.of_nat (length pre)) (set_mark unmarked k (Some m))) r.
Proof.
  intros Hd Hc Hh Hs He Hk Hrd Hacc Hr.
  apply (runs_at pre c rest _ p1 _ _ (mkExec q u1 (Z.of_nat (length pre)) unmarked)); try done.
  change reexecutions with (S 3). cbn [reexecute_byte x_parser x_p]. rewrite (switch_header _ _ _ 1 Hh), Hs.
  cbn [mbind outcome_bind leave st_act]. rewrite apply_stmt_eq.
  cbn [perform st_mark st_parser st_skip marks_after x_p x_user x_marks x_parser]. rewrite !Z.add_0_r.
  rewrite (data_accept k e _ _ q u u1 _ m d); try done. by destruct k.
Qed.

Lemma token_not c z : TOKEN c <> 0 -> TOKEN z = 0 -> (c =? z) = false.
Proof. intros H1 H2. apply Z.eqb_neq. by intros ->. Qed.

(** The first character of a name, at the beginning of a line. *)
Lemma runs_first pre c rest p s hs ix nr u r :
  data = pre ++ c :: rest -> TOKEN c <> 0 -> s = s_header_field_start \/ s = s_header_value_lws ->
  0 <= nr < HTTP_MAX_HEADER_SIZE ->
  runs (mkExec (hd p s_header_field (first_state (TOKEN c)) 0 (nr + 1)) u (Z.of_nat (length (pre ++ [c])))
          (set_mark unmarked K_header_field (Some (Z.of_nat (length pre))))) r ->
  runs (mkExec (hd p s hs ix nr) u (Z.of_nat (length pre)) unmarked) r.
Proof.
  intros Hd Ht Hs Hn Hr.
  set (x1 := mkExec (hd p s_header_field_start hs ix (nr + 1)) u (Z.of_nat (length pre)) unmarked).
  assert (Hfirst : forall f, reexecute_byte st data (S f) x1 c = Ok (Next,
    mkExec (hd p s_header_field (first_state (TOKEN c)) 0 (nr + 1)) u (Z.of_nat (length pre))
      (set_mark unmarked K_header_field (Some (Z.of_nat (length pre)))))).
  { intros f. cbn [reexecute_byte]. unfold switch. subst x1. cbn [x_parser hd pstate]. unfold case_header_field_start.
    rewrite (token_not c CR), (token_not c LF), (proj2 (Z.eqb_neq (TOKEN c) 0) Ht) by done.
    unfold MARK, brk, leave. cbn [mbind outcome_bind st_act perform]. rewrite apply_stmt_eq.
    cbn [st_parser st_mark st_skip st_act marks_after x_user x_p x_marks perform]. by rewrite Z.add_0_r. }
  apply (runs_at pre c rest _ (hd p s hs ix (nr + 1)) _ _ (mkExec (hd p s_header_field (first_state (TOKEN c)) 0 (nr + 1)) u
    (Z.of_nat (length pre)) (set_mark unmarked K_header_field (Some (Z.of_nat (length pre)))))); try done.
  { apply count_hd; [by destruct Hs as [-> | ->]|lia]. }
  destruct Hs as [-> | ->]; [apply Hfirst|]. change reexecutions with (S 3). rewrite reexecute_S.
  unfold switch. cbn [x_parser hd pstate]. unfold case_header_value_lws.
  rewrite (token_not c SP), (token_not c HT) by done. cbn [orb mbind outcome_bind leave st_act perform].
  rewrite apply_stmt_eq. cbn [st_parser st_mark st_skip marks_after x_user x_p x_marks]. rewrite Z.add_0_r. exact (Hfirst 2%nat).
Qed.

Lemma read_piece pre d rest : data = pre ++ d ++ rest ->
  read_block data (Z.of_nat (length pre)) (Z.of_nat (length (pre ++ d)) - Z.of_nat (length pre)) = Ok d.
Proof. intros ->. apply read_block_app; [done|]. rewrite length_app. lia. Qed.

(** A name up to its colon and the blank after it. *)
Lemma runs_name pre c name rest p s hs ix nr u u1 r :
  data = pre ++ (c :: name) ++ str ": " ++ rest -> http_errno p = HPE_OK -> Forall token_byte (c :: name) ->
  s = s_header_field_start \/ s = s_header_value_lws ->
  0 <= nr -> nr + Z.of_nat (length name) + 3 <= HTTP_MAX_HEADER_SIZE -> accepts st (EField (c :: name)) u u1 ->
  (forall hs' ix', name_end (c :: name) hs' ix' ->
     runs (mkExec (hd p s_header_value_start hs' ix' (nr + Z.of_nat (length name) + 3)) u1
             (Z.of_nat (length (pre ++ (c :: name) ++ str ": "))) unmarked) r) ->
  runs (mkExec (hd p s hs ix nr) u (Z.of_nat (length pre)) unmarked) r.
Proof.
  intros Hd He Htok Hs Hn Hmax Hacc Hr. apply Forall_cons in Htok as [Hc Htok].
  apply (runs_first pre c (name ++ str ": " ++ rest)); try done; [lia|].
  destruct (quiet_name name [TOKEN c] (first_state (TOKEN c)) 0) as (hs' & ix' & Hns & Hq);
    [apply first_state_ok|cbn; lia|done|].
  apply (runs_quiet name (pre ++ [c]) (str ": " ++ rest) _ _ _ _ _ ltac:(by rewrite <-app_assoc) (Hq p (nr + 1) ltac:(lia) ltac:(lia))).
  rewrite <-app_assoc. cbn [app].
  eapply (runs_data _ 58 (SP :: rest) _ _ _ _ u1 _ _ (c :: name)); [|by apply count_hd; [|lia]|done|reflexivity|done|reflexivity| |done|].
  - by rewrite Hd, <-app_assoc.
  - apply (read_piece pre (c :: name) (str ": " ++ rest)). by rewrite Hd.
  - rewrite <-app_assoc. cbn [app].
    apply (runs_quiet [SP] (pre ++ c :: name ++ [58]) rest _
      (hd p s_header_value_start hs' ix' (nr + Z.of_nat (length name) + 3))).
    + rewrite Hd, <-app_assoc. cbn. by rewrite <-app_assoc.
    + cbn [quiet]. unfold hd at 1, set_pstate. cbn [ptype flags header_state index nread content_length http_major http_minor status_code method http_errno upgrade hd].
      fold (hd p s_header_value_start hs' ix' (nr + 1 + Z.of_nat (length name) + 1)). rewrite count_hd by (done || lia).
      cbn [PARSING_HEADER hd pstate switch case_header_value_start]. cbn. unfold hd. do 2 f_equal. lia.
    + replace ((pre ++ c :: name ++ [58]) ++ [SP]) with (pre ++ (c :: name) ++ str ": ")
        by (rewrite <-!app_assoc; cbn; by rewrite <-app_assoc).
      apply Hr. by split.
Qed.

(** The states at the colon that say nothing about the value. *)
Definition idle_name (hs : header_states) : bool :=
  match hs with h_connection | h_content_length | h_transfer_encoding | h_upgrade => false | _ => true end.

(** The first character of a value, where the mark is set. *)
Lemma runs_value_first pre c rest p q hs ix nr u r :
  data = pre ++ c :: rest -> c <> SP /\ c <> HT -> 0 <= nr < HTTP_MAX_HEADER_SIZE ->
  case_header_value_start (hd p s_header_value_start hs ix (nr + 1)) c = MARK K_header_value (brk q) ->
  runs (mkExec q u (Z.of_nat (length (pre ++ [c]))) (set_mark unmarked K_header_value (Some (Z.of_nat (length pre))))) r ->
  runs (mkExec (hd p s_header_value_start hs ix nr) u (Z.of_nat (length pre)) unmarked) r.
Proof.
  intros Hd Hc Hn Hs Hr.
  apply (runs_at pre c rest _ (hd p s_header_value_start hs ix (nr + 1)) _ _
    (mkExec q u (Z.of_nat (length pre)) (set_mark unmarked K_header_value (Some (Z.of_nat (length pre)))))); try done.
  { by apply count_hd. }
  change reexecutions with (S 3). rewrite reexecute_S. unfold switch. cbn [x_parser hd pstate].
  change (mkParser _ _ _ _ _ _ _ _ _ _ _ _ _) with (hd p s_header_value_start hs ix (nr + 1)). rewrite Hs.
  unfold MARK, brk, leave. cbn [mbind outcome_bind st_act perform]. rewrite apply_stmt_eq.
  cbn [st_parser st_mark st_skip st_act marks_after x_user x_p x_marks perform]. by rewrite Z.add_0_r.
Qed.

(** A value with nothing in it. *)
Lemma runs_value_empty pre rest p hs ix nr u u1 r :
  data = pre ++ CR :: rest -> http_errno p = HPE_OK -> 0 <= nr < HTTP_MAX_HEADER_SIZE -> accepts st (EValue []) u u1 ->
  runs (mkExec (hd p s_header_almost_done h_general 0 (nr + 1)) u1 (Z.of_nat (length (pre ++ [CR]))) unmarked) r ->
  runs (mkExec (hd p s_header_value_start hs ix nr) u (Z.of_nat (length pre)) unmarked) r.
Proof.
  intros Hd He Hn Hacc Hr.
  apply (runs_at pre CR rest _ (hd p s_header_value_start hs ix (nr + 1)) _ _
    (mkExec (hd p s_header_almost_done h_general 0 (nr + 1)) u1 (Z.of_nat (length pre)) unmarked)); try done.
  { by apply count_hd. }
  change reexecutions with (S 3). rewrite reexecute_S. unfold switch. cbn [x_parser hd pstate].
  unfold case_header_value_start. rewrite !Z.eqb_refl. cbn [Z.eqb orb Pos.eqb].
  unfold MARK, leave. cbn [mbind outcome_bind st_act st_parser st_skip]. rewrite apply_stmt_eq.
  cbn [st_parser st_mark st_skip st_act marks_after x_user x_p x_marks perform x_parser].
  change (get_mark unmarked K_header_value) with (@None Z). cbn iota. rewrite !Z.add_0_r.
  rewrite (data_accept K_header_value (EValue []) _ _ _ u u1 _ _ []); try done.
  unfold read_block. rewrite Z.sub_diag. cbn. rewrite (proj2 (andb_true_iff _ _)); [done|].
  rewrite Hd, length_app. cbn. lia.
Qed.

(** The end of a line, after the value. *)
Lemma runs_line_end pre rest p hs nr u r :
  data = pre ++ LF :: rest -> hs = h_general \/ hs = h_content_length -> 0 <= nr < HTTP_MAX_HEADER_SIZE ->
  runs (mkExec (hd p s_header_value_lws hs 0 (nr + 1)) u (Z.of_nat (length (pre ++ [LF]))) unmarked) r ->
  runs (mkExec (hd p s_header_almost_done hs 0 nr) u (Z.of_nat (length pre)) unmarked) r.
Proof.
  intros Hd Hs Hn Hr. apply (runs_quiet [LF] pre rest _ (hd p s_header_value_lws hs 0 (nr + 1))); try done.
  cbn [quiet]. rewrite count_hd by done. by destruct Hs as [-> | ->].
Qed.

Definition value_ok (v : bytes) : Prop :=
  Forall text_byte v /\ match v with c :: _ => c <> SP /\ c <> HT | [] => True end.

Lemma runs_value pre v rest p hs ix nr u u1 r :
  data = pre ++ v ++ CRLF ++ rest -> http_errno p = HPE_OK -> value_ok v -> idle_name hs = true ->
  0 <= nr -> nr + Z.of_nat (length v) + 2 <= HTTP_MAX_HEADER_SIZE -> accepts st (EValue v) u u1 ->
  runs (mkExec (hd p s_header_value_lws h_general 0 (nr + Z.of_nat (length v) + 2)) u1
          (Z.of_nat (length (pre ++ v ++ CRLF))) unmarked) r ->
  runs (mkExec (hd p s_header_value_start hs ix nr) u (Z.of_nat (length pre)) unmarked) r.
Proof.
  intros Hd He [Htxt Hfst] Hidle Hn Hmax Hacc Hr. destruct v as [|c v].
  - cbn [app length] in *. apply (runs_value_empty pre (LF :: rest) _ _ _ _ _ u1); try done; [lia|].
    apply (runs_line_end (pre ++ [CR]) rest); [by rewrite Hd, <-app_assoc|auto|lia|].
    rewrite <-app_assoc. cbn [app]. by replace (nr + 1 + 1) with (nr + Z.of_nat 0 + 2) by lia.
  - apply Forall_cons in Htxt as [[Hc1 Hc2] Htxt]. cbn [length] in *.
    apply (runs_value_first pre c (v ++ CRLF ++ rest) p (hd p s_header_value h_general 0 (nr + 1))); [done|done|lia| |].
    { unfold case_header_value_start. destruct Hfst as [Hf1 Hf2].
      rewrite (proj2 (Z.eqb_neq c SP) Hf1), (proj2 (Z.eqb_neq c HT) Hf2), (proj2 (Z.eqb_neq c CR) Hc1), (proj2 (Z.eqb_neq c LF) Hc2).
      cbn [orb]. change (header_state (set_index _ 0)) with hs. by destruct hs. }
    apply (runs_quiet v (pre ++ [c]) (CRLF ++ rest) _ _ _ _ _ ltac:(by rewrite <-app_assoc)
      (quiet_value p 0 v (nr + 1) ltac:(lia) ltac:(lia) Htxt)).
    eapply (runs_data _ CR (LF :: rest) _ _ _ _ u1 _ _ (c :: v));
      [|by apply count_hd; [|lia]|done|reflexivity|done|reflexivity| |done|].
    + rewrite Hd, <-!app_assoc. done.
    + rewrite <-app_assoc. apply (read_piece pre (c :: v) (CRLF ++ rest)). done.
    + rewrite set_pstate_hd. apply (runs_line_end _ rest); [|auto|lia|].
      * rewrite Hd, <-!app_assoc. done.
      * replace ((((pre ++ [c]) ++ v) ++ [CR]) ++ [LF]) with (pre ++ (c :: v) ++ CRLF) by (rewrite <-!app_assoc; done).
        by replace (nr + 1 + Z.of_nat (length v) + 1 + 1) with (nr + Z.of_nat (S (length v)) + 2) by lia.
Qed.

(** *** Header lines *)

Definition special_names : list bytes := [CONNECTION; PROXY_CONNECTION; CONTENT_LENGTH; TRANSFER_ENCODING; UPGRADE].

(** A header that does not change how the message is read. *)
Definition header_ok (h : bytes * bytes) : Prop :=
  fst h <> [] /\ Forall token_byte (fst h) /\ ~ ((TOKEN <$> fst h) ∈ special_names) /\ value_ok (snd h).

Lemma name_end_idle name hs ix : name_end name hs ix -> (TOKEN <$> name) ∉ special_names -> idle_name hs = true.
Proof.
  intros Hn Hp. destruct name as [|c name]; [done|]. destruct Hn as [Hn _].
  unfold special_names in Hp. rewrite !not_elem_of_cons in Hp. destruct Hp as (H1 & H2 & H3 & H4 & H5 & _).
  destruct hs; try done; cbn [name_state] in Hn; by destruct Hn.
Qed.

Definition header_size (h : bytes * bytes) : Z := Z.of_nat (length (print_header h)).

Lemma header_size_eq name v : header_size (name, v) = Z.of_nat (length name) + Z.of_nat (length v) + 4.
Proof. unfold header_size, print_header. cbn [fst snd]. rewrite !length_app. cbn. lia. Qed.

Lemma runs_header pre h rest p s hs ix nr u u' r :
  data = pre ++ print_header h ++ rest -> http_errno p = HPE_OK -> header_ok h ->
  s = s_header_field_start \/ s = s_header_value_lws ->
  0 <= nr -> nr + header_size h <= HTTP_MAX_HEADER_SIZE -> accepts_all st (header_events h) u u' ->
  runs (mkExec (hd p s_header_value_lws h_general 0 (nr + header_size h)) u'
          (Z.of_nat (length (pre ++ print_header h))) unmarked) r ->
  runs (mkExec (hd p s hs ix nr) u (Z.of_nat (length pre)) unmarked) r.
Proof.
  destruct h as [[|c name] v]; intros Hd He (Hne & Htok & Hpl & Hv) Hs Hn Hmax Hacc Hr; [done|]. rewrite header_size_eq in *.
  cbn [fst snd length] in *. inversion Hacc as [|? ? ? u1 ? Ha1 Ha2]; subst. apply accepts_one in Ha2.
  unfold print_header in *. cbn [fst snd] in *.
  apply (runs_name pre c name (v ++ CRLF ++ rest) _ _ _ _ _ _ u1); try done; [by rewrite Hd, <-!app_assoc|lia|].
  intros hs' ix' Hend.
  apply (runs_value (pre ++ (c :: name) ++ str ": ") v rest _ _ _ _ _ u'); try done.
  - by rewrite Hd, <-!app_assoc.
  - by apply (name_end_idle (c :: name) _ ix').
  - lia.
  - lia.
  - replace ((pre ++ (c :: name) ++ str ": ") ++ v ++ CRLF) with (pre ++ (c :: name) ++ str ": " ++ v ++ CRLF)
      by (by rewrite <-!app_assoc).
    by replace (nr + Z.of_nat (length name) + 3 + Z.of_nat (length v) + 2)
      with (nr + (Z.of_nat (S (length name)) + Z.of_nat (length v) + 4)) by lia.
Qed.

Lemma runs_headers hds pre rest p s hs ix nr u u' r :
  data = pre ++ concat (print_header <$> hds) ++ rest -> http_errno p = HPE_OK -> Forall header_ok hds ->
  s = s_header_field_start \/ s = s_header_value_lws ->
  0 <= nr -> nr + Z.of_nat (length (concat (print_header <$> hds))) <= HTTP_MAX_HEADER_SIZE ->
  accepts_all st (concat (header_events <$> hds)) u u' ->
  (forall s' hs' ix', s' = s_header_field_start \/ s' = s_header_value_lws ->
     runs (mkExec (hd p s' hs' ix' (nr + Z.of_nat (length (concat (print_header <$> hds))))) u'
             (Z.of_nat (length (pre ++ concat (print_header <$> hds)))) unmarked) r) ->
  runs (mkExec (hd p s hs ix nr) u (Z.of_nat (length pre)) unmarked) r.
Proof.
  intros Hd He Hok. revert pre s hs ix nr u Hd. induction Hok as [|h hds Hh Hok IH]; intros pre s hs ix nr u Hd Hs Hn Hmax Hacc Hr.
  { cbn in *. inversion Hacc; subst. specialize (Hr s hs ix Hs). by rewrite Z.add_0_r, app_nil_r in Hr. }
  cbn [fmap list_fmap concat] in *. apply accepts_all_app in Hacc as (u1 & Ha1 & Ha2).
  rewrite length_app, Nat2Z.inj_add in *.
  apply (runs_header pre h (concat (print_header <$> hds) ++ rest) _ _ _ _ _ _ u1); try done.
  - by rewrite Hd, <-!app_assoc.
  - unfold header_size. lia.
  - apply IH; try done.
    + by rewrite Hd, <-!app_assoc.
    + by right.
    + unfold header_size. lia.
    + unfold header_size. lia.
    + intros s' hs' ix' Hs'. rewrite <-app_assoc.
      replace (nr + header_size h + Z.of_nat (length (concat (print_header <$> hds))))
        with (nr + (Z.of_nat (length (print_header h)) + Z.of_nat (length (concat (print_header <$> hds)))))
        by (unfold header_size; lia). by apply Hr.
Qed.

(** The line with the length. *)
Definition length_ok (ds : bytes) (n : Z) : Prop :=
  ds <> [] /\ Forall (fun c => isdigit c = true) ds /\ dec_val ds = n /\ n < ULLONG_MAX.

Lemma content_length_end hs ix : name_end (str "Content-Length") hs ix -> hs = h_content_length.
Proof.
  intros [_ Hq]. specialize (Hq (http_parser_init HTTP_RESPONSE) 0 ltac:(lia) ltac:(by vm_compute)).
  vm_compute in Hq. by injection Hq.
Qed.

Lemma runs_length pre ds rest p ix nr u u1 r n :
  data = pre ++ ds ++ CRLF ++ rest -> http_errno p = HPE_OK -> length_ok ds n ->
  0 <= nr -> nr + Z.of_nat (length ds) + 2 <= HTTP_MAX_HEADER_SIZE -> accepts st (EValue ds) u u1 ->
  runs (mkExec (hd (set_content_length p n) s_header_value_lws h_content_length 0 (nr + Z.of_nat (length ds) + 2)) u1
          (Z.of_nat (length (pre ++ ds ++ CRLF))) unmarked) r ->
  runs (mkExec (hd p s_header_value_start h_content_length ix nr) u (Z.of_nat (length pre)) unmarked) r.
Proof.
  intros Hd He (Hne & Hds & Hval & Hlt) Hn Hmax Hacc Hr. destruct ds as [|c ds]; [done|].
  apply Forall_cons in Hds as [Hc Hds]. apply isdigit_spec in Hc as Hcr. cbn [length] in *.
  set (p1 := set_content_length p (c - 48)).
  apply (runs_value_first pre c (ds ++ CRLF ++ rest) p (hd p1 s_header_value h_content_length 0 (nr + 1))); [done|lia|lia| |].
  { unfold case_header_value_start.
    rewrite (proj2 (Z.eqb_neq c SP)), (proj2 (Z.eqb_neq c HT)), (proj2 (Z.eqb_neq c CR)), (proj2 (Z.eqb_neq c LF)) by lia.
    cbn [orb]. change (header_state (set_index _ 0)) with h_content_length. cbn iota.
    by replace (IS_NUM c) with true by (unfold IS_NUM; lia). }
  rewrite dec_val_cons in Hval.
  pose proof (quiet_digits p1 ds (nr + 1) Hds) as Hq. cbn [p1 content_length set_content_length] in Hq.
  rewrite Hval in Hq. specialize (Hq ltac:(lia) Hlt ltac:(lia) ltac:(lia)).
  apply (runs_quiet ds (pre ++ [c]) (CRLF ++ rest) _ _ _ _ _ ltac:(by rewrite <-app_assoc) Hq).
  eapply (runs_data _ CR (LF :: rest) _ _ _ _ u1 _ _ (c :: ds));
    [|by apply count_hd; [|lia]|done|reflexivity|done|reflexivity| |done|].
  - rewrite Hd, <-!app_assoc. done.
  - rewrite <-app_assoc. apply (read_piece pre (c :: ds) (CRLF ++ rest)). done.
  - rewrite set_pstate_hd. apply (runs_line_end _ rest); [|auto|lia|].
    + rewrite Hd, <-!app_assoc. done.
    + replace ((((pre ++ [c]) ++ ds) ++ [CR]) ++ [LF]) with (pre ++ (c :: ds) ++ CRLF) by (rewrite <-!app_assoc; done).
      by replace (nr + 1 + Z.of_nat (length ds) + 1 + 1) with (nr + Z.of_nat (S (length ds)) + 2) by lia.
Qed.

(** *** The end of the headers and the body *)

(** A parser of a response with nothing special about its message. *)
Definition plain_parser (p : http_parser) : Prop :=
  ptype p = HTTP_RESPONSE /\ flags p = 0 /\ http_major p = 1 /\ http_minor p = 1 /\ method p = 0 /\
  http_errno p = HPE_OK /\ upgrade p = false.

Lemma new_message_plain p : plain_parser p -> content_length p <> ULLONG_MAX -> NEW_MESSAGE p = s_start_res.
Proof.
  intros (H1 & H2 & H3 & H4 & _) Hc. unfold NEW_MESSAGE, http_should_keep_alive, http_message_needs_eof, start_state, has_flag.
  rewrite H1, H2, H3, H4. cbn. destruct (_ || _); [done|].
  by rewrite (proj2 (Z.eqb_neq _ _) Hc).
Qed.

Lemma notify_accept f e er p u u1 pos ms :
  http_errno p = HPE_OK ->
  match f with N_message_begin => e = EBegin | N_message_complete => e = EComplete (status_code p) end ->
  accepts st e u u1 ->
  CALLBACK_NOTIFY_ st f er (mkExec p u pos ms) = Ok (None, mkExec p u1 pos ms).
Proof.
  intros He Hf Hacc. unfold CALLBACK_NOTIFY_. cbn [x_parser]. rewrite He. cbn [is_ok guard_trap].
  destruct f; subst e; cbn [accepts notify_cb] in *;
    (match goal with |- context [match ?o with Some _ => _ | None => _ end] => destruct o as [cb|] end;
     [|by subst]; cbn [x_user]; rewrite Hacc by done; cbn; by rewrite He).
Qed.

Lemma headers_accept p u u1 pos ms : http_errno p = HPE_OK -> accepts st EHeaders u u1 ->
  call_headers_complete st (mkExec p u pos ms) = Ok (None, mkExec p u1 pos ms).
Proof.
  intros He Hacc. unfold call_headers_complete. cbn [accepts] in Hacc.
  destruct (on_headers_complete st) as [cb|]; cbn [x_parser x_user]; [|subst; by rewrite He].
  rewrite Hacc by done. cbn. by rewrite He.
Qed.

(** The end of the data, with nothing marked. *)
Lemma runs_end p u : http_errno p = HPE_OK ->
  runs (mkExec p u (len data) unmarked) (len data, p, u).
Proof.
  intros He. unfold runs. cbn [x_p]. cbn [bytes_loop x_p]. rewrite Z.eqb_refl.
  rewrite (leftover_eq st data _ K_body 0); [|by cbn; rewrite He|by intros k m; destruct k].
  by rewrite data_unmarked by (cbn; rewrite ?He; done).
Qed.

Lemma runs_body pre body p ix nr u u' r :
  data = pre ++ body -> body <> [] -> plain_parser p -> content_length p = Z.of_nat (length body) ->
  content_length p < ULLONG_MAX -> accepts_all st [EBody body; EComplete (status_code p)] u u' ->
  r = (len data, hd (set_content_length p 0) s_start_res h_content_length ix nr, u') ->
  runs (mkExec (hd p s_body_identity h_content_length ix nr) u (Z.of_nat (length pre)) unmarked) r.
Proof.
  intros Hd Hb Hp Hcl Hlt Hacc ->. inversion Hacc as [|? ? ? u1 ? Ha1 Ha2]; subst. apply accepts_one in Ha2.
  destruct body as [|c body]; [done|]. set (n := Z.of_nat (length (c :: body))) in *.
  assert (HU : ULLONG_MAX = 2 ^ 64 - 1) by done. assert (Hn : 1 <= n) by (subst n; cbn; lia).
  assert (Hlen : len data = Z.of_nat (length pre) + n) by (unfold len; rewrite Hd, length_app; lia).
  pose proof Hp as (_ & _ & _ & _ & _ & He & _).
  set (q := hd (set_content_length p 0) s_start_res h_content_length ix nr).
  apply (runs_byte _ (hd p s_body_identity h_content_length ix nr) c (mkExec q u' (len data - 1) unmarked)); cbn [x_p x_parser].
  - lia.
  - rewrite Hd. by apply load_app.
  - done.
  - change reexecutions with (S (S 2)). rewrite reexecute_S. cbn [with_parser x_parser x_p].
    unfold switch. change (pstate (hd p s_body_identity _ _ _)) with s_body_identity. cbn iota.
    unfold case_body_identity. change (content_length (hd p s_body_identity _ _ _)) with (content_length p).
    rewrite Hlen, Hcl. replace (Z.of_nat (length pre) + n - Z.of_nat (length pre)) with n by lia.
    rewrite Z.min_id, Z.sub_diag. unfold assert_that.
    replace (negb (n =? 0) && negb (n =? ULLONG_MAX)) with true by lia. cbn [guard_trap].
    change (u64 0) with 0. change (content_length (set_content_length _ 0)) with 0. rewrite Z.eqb_refl.
    cbn [mbind outcome_bind st_act]. rewrite apply_stmt_eq. cbn [st_parser st_mark st_skip marks_after x_user x_p x_marks].
    change (get_mark (x_marks (with_parser _ _)) K_body) with (@None Z). cbn iota.
    cbn [perform x_p with_parser x_user].
    rewrite (data_accept K_body (EBody (c :: body)) _ _ _ u u1 _ (Z.of_nat (length pre)) (c :: body)); try done.
    + cbn [mbind outcome_bind or_return]. rewrite reexecute_S. cbn [x_parser].
      unfold switch. change (pstate (set_pstate _ s_message_done)) with s_message_done. cbn iota.
      unfold finish_message, leave. cbn [mbind outcome_bind st_act]. rewrite apply_stmt_eq.
      cbn [st_parser st_mark st_skip marks_after x_user x_p x_marks perform].
      rewrite new_message_plain; [|done|cbn; lia].
      rewrite (notify_accept _ (EComplete (status_code p)) _ _ u1 u'); [|done|done|done].
      cbn [mbind outcome_bind or_return]. do 3 f_equal. lia.
    + replace (Z.of_nat (length pre) + (n - 1) + 1 - Z.of_nat (length pre)) with n by lia.
      rewrite Hd. pose proof (read_block_app pre (c :: body) [] (Z.of_nat (length pre)) n eq_refl eq_refl) as Hrb.
      by rewrite app_nil_r in Hrb.
  - lia.
  - unfold next_byte. cbn [x_parser x_user x_p x_marks]. replace (len data - 1 + 1) with (len data) by lia.
    by apply runs_end.
Qed.

(** The blank line: its CR. *)
Lemma runs_blank_cr pre rest p hs nr u r :
  data = pre ++ CR :: rest -> 0 <= nr < HTTP_MAX_HEADER_SIZE ->
  runs (mkExec (hd p s_headers_almost_done hs 0 (nr + 1)) u (Z.of_nat (length (pre ++ [CR]))) unmarked) r ->
  runs (mkExec (hd p s_header_value_lws hs 0 nr) u (Z.of_nat (length pre)) unmarked) r.
Proof.
  intros Hd Hn Hr.
  apply (runs_at pre CR rest _ (hd p s_header_value_lws hs 0 (nr + 1)) _ _
    (mkExec (hd p s_headers_almost_done hs 0 (nr + 1)) u (Z.of_nat (length pre)) unmarked)); try done; [by apply count_hd|].
  change reexecutions with (S (S 2)). rewrite reexecute_S. unfold switch. cbn [x_parser hd pstate]. unfold case_header_value_lws.
  cbn [Z.eqb Pos.eqb orb mbind outcome_bind leave st_act perform]. rewrite apply_stmt_eq.
  cbn [st_parser st_mark st_skip marks_after x_user x_p x_marks]. rewrite Z.add_0_r, reexecute_S.
  unfold switch. cbn [x_parser set_pstate pstate]. unfold case_header_field_start. rewrite Z.eqb_refl.
  cbn [mbind outcome_bind brk_to leave st_act perform]. rewrite apply_stmt_eq.
  cbn [st_parser st_mark st_skip marks_after x_user x_p x_marks]. by rewrite Z.add_0_r.
Qed.

Lemma hd_flag p s hs ix nr f : flags p = 0 -> has_flag (hd p s hs ix nr) f = false.
Proof. intros H. unfold has_flag. cbn [hd flags]. by rewrite H. Qed.

(** What the end of the headers leads to: [q] without callback, or the end. *)
Lemma headers_end_byte p hs nr u u1 pos :
  plain_parser p -> content_length p < ULLONG_MAX -> accepts st EHeaders u u1 ->
  let q := hd p s_headers_done hs 0 0 in
  reexecute_byte st data reexecutions (mkExec (hd p s_headers_almost_done hs 0 nr) u pos unmarked) LF =
    (if content_length p =? 0
     then perform st data (fun y => reexecute_byte st data 2 y LF)
            (mkExec (set_pstate q s_start_res) u1 pos unmarked) (Notify N_message_complete false)
     else Ok (Next, mkExec (set_pstate q s_body_identity) u1 pos unmarked)).
Proof.
  intros Hp Hlt Hacc q. pose proof Hp as (H1 & H2 & H3 & H4 & H5 & He & H7).
  change reexecutions with (S (S 2)). rewrite reexecute_S. cbn [x_parser x_p]. unfold switch.
  change (pstate (hd p s_headers_almost_done hs 0 nr)) with s_headers_almost_done. cbn iota.
  unfold case_headers_almost_done. rewrite Z.eqb_refl. cbn [negb]. rewrite hd_flag by done. rewrite set_pstate_hd.
  rewrite hd_flag by done. change (method (hd p s_headers_done hs 0 nr)) with (method p). rewrite H5. cbn [HTTP_CONNECT Z.eqb orb].
  assert (Hup : set_upgrade (hd p s_headers_done hs 0 nr) false = hd p s_headers_done hs 0 nr)
    by (unfold set_upgrade, hd; cbn; by rewrite H7).
  rewrite Hup. cbn [mbind outcome_bind leave st_act]. rewrite apply_stmt_eq.
  cbn [st_parser st_mark st_skip marks_after x_user x_p x_marks perform]. rewrite Z.add_0_r.
  rewrite (headers_accept _ u u1) by done. cbn [mbind outcome_bind or_return]. rewrite reexecute_S. cbn [x_parser x_p]. unfold switch.
  change (pstate (hd p s_headers_done hs 0 nr)) with s_headers_done. cbn iota.
  unfold case_headers_done. rewrite Z.eqb_refl. cbn [negb].
  change (set_nread (hd p s_headers_done hs 0 nr) 0) with q.
  change (upgrade q) with (upgrade p). rewrite H7. subst q. rewrite !hd_flag by done.
  change (content_length (hd p s_headers_done hs 0 0)) with (content_length p).
  destruct (Z.eqb_spec (content_length p) 0) as [H0|H0].
  - unfold finish_message, leave. cbn [mbind outcome_bind st_act]. rewrite apply_stmt_eq.
    cbn [st_parser st_mark st_skip marks_after x_user x_p x_marks]. rewrite Z.add_0_r.
    rewrite new_message_plain; [done|done|]. cbn. rewrite H0. done.
  - rewrite (proj2 (Z.eqb_neq (content_length p) ULLONG_MAX)) by lia. cbn [negb].
    unfold brk_to, leave. cbn [mbind outcome_bind st_act perform]. rewrite apply_stmt_eq.
    cbn [st_parser st_mark st_skip marks_after x_user x_p x_marks]. by rewrite Z.add_0_r.
Qed.

Lemma runs_blank pre body p nr u u' :
  data = pre ++ CRLF ++ body -> plain_parser p -> content_length p = Z.of_nat (length body) ->
  content_length p < ULLONG_MAX -> 0 <= nr -> nr + 2 <= HTTP_MAX_HEADER_SIZE ->
  accepts_all st ([EHeaders] ++ (match body with [] => [] | _ => [EBody body] end) ++ [EComplete (status_code p)]) u u' ->
  runs (mkExec (hd p s_header_value_lws h_content_length 0 nr) u (Z.of_nat (length pre)) unmarked)
    (len data, hd (set_content_length p 0) s_start_res h_content_length 0 0, u').
Proof.
  intros Hd Hp Hcl Hlt Hn Hmax Hacc. inversion Hacc as [|? ? ? u1 ? Ha1 Ha2]; subst. clear Hacc.
  pose proof Hp as (_ & _ & _ & _ & _ & He & _).
  apply (runs_blank_cr pre (LF :: body)); [done|lia|].
  assert (Hd2 : data = (pre ++ [CR]) ++ LF :: body) by (by rewrite Hd, <-app_assoc).
  pose proof (headers_end_byte p h_content_length (nr + 1 + 1) u u1 (Z.of_nat (length (pre ++ [CR]))) Hp Hlt Ha1) as Hb.
  destruct body as [|c body]; cbn [app] in Ha2.
  - apply accepts_one in Ha2. rewrite Hcl in Hb. cbn [length Z.of_nat Z.eqb perform] in Hb.
    rewrite (notify_accept _ (EComplete (status_code p)) _ _ u1 u') in Hb by done. cbn [mbind outcome_bind or_return] in Hb.
    eapply (runs_at (pre ++ [CR]) LF []); [done|by apply count_hd; [|lia]|exact Hb|done|]. cbn [x_parser x_user x_marks].
    replace (Z.of_nat (length ((pre ++ [CR]) ++ [LF]))) with (len data) by (unfold len; by rewrite Hd2).
    replace (set_pstate (hd p s_headers_done h_content_length 0 0) s_start_res)
      with (hd (set_content_length p 0) s_start_res h_content_length 0 0) by (unfold hd; cbn; by rewrite Hcl).
    by apply runs_end.
  - rewrite (proj2 (Z.eqb_neq (content_length p) 0)) in Hb by (rewrite Hcl; cbn; lia).
    eapply (runs_at (pre ++ [CR]) LF (c :: body)); [done|by apply count_hd; [|lia]|exact Hb|done|]. cbn [x_parser x_user x_marks].
    rewrite set_pstate_hd. apply (runs_body ((pre ++ [CR]) ++ [LF]) (c :: body) p 0 0 u1 u'); try done. by rewrite Hd2, <-!app_assoc.
Qed.

(** *** The status line *)

Definition line_parser (code : Z) : http_parser :=
  mkParser HTTP_RESPONSE 0 s_header_field_start h_general 0 0 ULLONG_MAX 1 1 code 0 HPE_OK false.

Definition after_begin : http_parser :=
  mkParser HTTP_RESPONSE 0 s_res_H h_general 0 1 ULLONG_MAX 0 0 0 0 HPE_OK false.

Lemma runs_begin rest u u1 r :
  data = 72 :: rest -> accepts st EBegin u u1 ->
  runs (mkExec after_begin u1 1 unmarked) r ->
  runs (mkExec (http_parser_init HTTP_RESPONSE) u 0 unmarked) r.
Proof.
  intros Hd Hacc Hr.
  apply (runs_at [] 72 rest _ (set_nread (http_parser_init HTTP_RESPONSE) 1) _ _ (mkExec after_begin u1 0 unmarked)); try done.
  change reexecutions with (S 3). rewrite reexecute_S. cbn [x_parser x_p]. change (switch _ 72 _) with (leave after_begin (Notify N_message_begin false)).
  cbn [mbind outcome_bind leave st_act]. rewrite apply_stmt_eq. cbn [st_parser st_mark st_skip marks_after x_user x_p x_marks perform].
  by rewrite (notify_accept _ EBegin _ _ u u1) by done.
Qed.

Lemma digit16 n d : 0 <= n <= 99 -> 0 <= d <= 9 -> u16 (u16 (n * 10) + (48 + d - 48)) = n * 10 + d.
Proof. intros. rewrite (uwrap_small 16 (n * 10)) by lia. rewrite uwrap_small by lia. lia. Qed.

Lemma quiet_code_digit d nr p :
  0 <= status_code p <= 99 -> 0 <= d <= 9 -> 0 <= nr < HTTP_MAX_HEADER_SIZE ->
  quiet [48 + d] (hd p s_res_status_code h_general 0 nr)
    = Some (hd (set_status_code p (status_code p * 10 + d)) s_res_status_code h_general 0 (nr + 1)).
Proof.
  intros Hp Hd Hn. cbn [quiet]. rewrite count_hd by (done || lia).
  unfold switch. change (pstate (hd p s_res_status_code h_general 0 (nr + 1))) with s_res_status_code. cbn [PARSING_HEADER].
  unfold case_res_status_code. replace (IS_NUM (48 + d)) with true by (unfold IS_NUM; lia). cbn [negb].
  change (status_code (hd p _ _ _ _)) with (status_code p). rewrite digit16 by done.
  change (status_code (set_status_code _ ?v)) with v. by rewrite (proj2 (Z.ltb_ge _ _)) by lia.
Qed.

(** The digits of the status. *)
Lemma quiet_code code nr p :
  0 <= code < 1000 -> 0 <= nr -> nr + 3 <= HTTP_MAX_HEADER_SIZE ->
  quiet (print_code code) (hd p s_res_first_status_code h_general 0 nr)
    = Some (hd (set_status_code p code) s_res_status_code h_general 0 (nr + 3)).
Proof.
  intros Hc Hn Hmax. unfold print_code.
  set (a := code / 100). set (b := code / 10 mod 10). set (c := code mod 10).
  assert (Habc : 0 <= a <= 9 /\ 0 <= b <= 9 /\ 0 <= c <= 9 /\ (a * 10 + b) * 10 + c = code)
    by (subst a b c; Z.to_euclidean_division_equations; lia).
  clearbody a b c. destruct Habc as (Ha & Hb & Hcc & <-).
  assert (H1 : quiet [48 + a] (hd p s_res_first_status_code h_general 0 nr)
               = Some (hd (set_status_code p a) s_res_status_code h_general 0 (nr + 1))).
  { cbn [quiet]. rewrite count_hd by (done || lia).
    unfold switch. change (pstate (hd p s_res_first_status_code h_general 0 (nr + 1))) with s_res_first_status_code.
    cbn [PARSING_HEADER]. unfold case_res_first_status_code. replace (IS_NUM (48 + a)) with true by (unfold IS_NUM; lia).
    cbn [negb]. by replace (48 + a - 48) with a by lia. }
  change [48 + a; 48 + b; 48 + c] with ([48 + a] ++ [48 + b] ++ [48 + c]).
  rewrite (quiet_app [48 + a] ([48 + b] ++ [48 + c]) _ _ H1).
  rewrite (quiet_app [48 + b] [48 + c] _ _ (quiet_code_digit b (nr + 1) (set_status_code p a) ltac:(cbn; lia) Hb ltac:(lia))).
  rewrite quiet_code_digit by (cbn; lia). cbn [status_code set_status_code]. do 2 f_equal. lia.
Qed.

(** From the first byte to the header lines. *)
Lemma runs_line code reason rest u u1 r :
  data = str "HTTP/1.1 " ++ print_code code ++ str " " ++ reason ++ CRLF ++ rest ->
  0 <= code < 1000 -> Forall text_byte reason -> Z.of_nat (length reason) + 15 <= HTTP_MAX_HEADER_SIZE ->
  accepts st EBegin u u1 ->
  runs (mkExec (hd (line_parser code) s_header_field_start h_general 0 (Z.of_nat (length reason) + 15)) u1
          (Z.of_nat (length reason) + 15) unmarked) r ->
  runs (mkExec (http_parser_init HTTP_RESPONSE) u 0 unmarked) r.
Proof.
  intros Hd Hc Hre Hmax Hacc Hr. apply (runs_begin (str "TTP/1.1 " ++ print_code code ++ str " " ++ reason ++ CRLF ++ rest) _ u1); [done..|].
  set (p9 := mkParser HTTP_RESPONSE 0 s_res_first_status_code h_general 0 9 ULLONG_MAX 1 1 0 0 HPE_OK false).
  assert (Hq : quiet (str "TTP/1.1 " ++ print_code code ++ str " " ++ reason ++ CRLF) after_begin
               = Some (hd (line_parser code) s_header_field_start h_general 0 (Z.of_nat (length reason) + 15))).
  { rewrite (quiet_app (str "TTP/1.1 ") _ after_begin p9) by (by vm_compute).
    assert (H12 := quiet_code code 9 p9 Hc ltac:(lia) ltac:(unfold HTTP_MAX_HEADER_SIZE in *; lia)).
    change (hd p9 s_res_first_status_code h_general 0 9) with p9 in H12. rewrite (quiet_app (print_code code) _ _ _ H12).
    rewrite (quiet_app (str " ") _ _ (hd (set_status_code p9 code) s_res_status h_general 0 13)) by done.
    rewrite (quiet_app reason _ _ _ (quiet_reason (set_status_code p9 code) h_general 0 reason 13 ltac:(lia) ltac:(lia) Hre)).
    cbn [quiet CRLF]. rewrite count_hd by (done || lia). cbn [hd pstate PARSING_HEADER switch case_res_status].
    unfold case_res_status. rewrite Z.eqb_refl. unfold brk_to, leave.
    change (set_pstate _ s_res_line_almost_done)
      with (hd (set_status_code p9 code) s_res_line_almost_done h_general 0 (13 + Z.of_nat (length reason) + 1)).
    rewrite count_hd by (done || lia). cbn [hd pstate PARSING_HEADER switch]. unfold expect. rewrite Z.eqb_refl. cbn [negb].
    unfold brk_to, leave. rewrite set_pstate_hd.
    change (hd (set_status_code p9 code)) with (hd (line_parser code)). do 2 f_equal. lia. }
  apply (runs_quiet (str "TTP/1.1 " ++ print_code code ++ str " " ++ reason ++ CRLF) [72] rest _ _ _ _ _) with (2 := Hq).
  - rewrite Hd, <-!app_assoc. done.
  - replace (Z.of_nat (length ([72] ++ str "TTP/1.1 " ++ print_code code ++ str " " ++ reason ++ CRLF)))
      with (Z.of_nat (length reason) + 15) by (rewrite !length_app; cbn; lia). done.
Qed.

End Runs.

(** ** A response *)

Definition response_ok (r : response) : Prop :=
  0 <= rs_code r < 1000 /\ Forall text_byte (rs_reason r) /\ Forall header_ok (rs_headers r) /\
  length_ok (rs_length r) (Z.of_nat (length (rs_body r))) /\
  Z.of_nat (length (print_head r)) <= HTTP_MAX_HEADER_SIZE.

(** The parser after the message: ready for another one. *)
Definition ready_parser (r : response) : http_parser :=
  mkParser HTTP_RESPONSE 0 s_start_res h_content_length 0 0 0 1 1 (rs_code r) 0 HPE_OK false.

Lemma parse_response {A} (st : http_parser_settings A) (r : response) u u' :
  response_ok r -> accepts_all st (events r) u u' ->
  http_parser_execute st (print_response r) (http_parser_init HTTP_RESPONSE) u
    = Ok (len (print_response r), ready_parser r, u').
Proof.
  intros (Hc & Hre & Hh & Hl & Hmax) Hacc. set (data := print_response r).
  unfold events in Hacc. apply accepts_all_app in Hacc as (u1 & Ha1 & Hacc). apply accepts_one in Ha1.
  apply accepts_all_app in Hacc as (u2 & Ha2 & Hacc). apply accepts_all_app in Hacc as (u3 & Ha3 & Ha4).
  apply accepts_two in Ha3 as (u2' & Hf & Hv). cbn [fst snd] in Hf, Hv.
  set (line := str "HTTP/1.1 " ++ print_code (rs_code r) ++ str " " ++ rs_reason r ++ CRLF).
  set (hs := concat (print_header <$> rs_headers r)).
  set (lenl := print_header (str "Content-Length", rs_length r)).
  assert (Hhead : print_head r = line ++ hs ++ lenl ++ CRLF) by (unfold print_head, line; by rewrite <-!app_assoc).
  assert (Hlines : Z.of_nat (length line) = Z.of_nat (length (rs_reason r)) + 15) by (unfold line; rewrite !length_app; cbn; lia).
  assert (Hlenl : Z.of_nat (length lenl) = Z.of_nat (length (rs_length r)) + 18) by (unfold lenl, print_header; rewrite !length_app; cbn; lia).
  rewrite Hhead, !length_app in Hmax. cbn [length CRLF] in Hmax.
  assert (Hdata : data = line ++ hs ++ lenl ++ CRLF ++ rs_body r) by (unfold data, print_response; by rewrite Hhead, <-!app_assoc).
  assert (Hruns : runs st data (mkExec (http_parser_init HTTP_RESPONSE) u 0 unmarked) (len data, ready_parser r, u')).
  { apply (runs_line st data (rs_code r) (rs_reason r) (hs ++ lenl ++ CRLF ++ rs_body r) u u1); try done; [|lia|].
    { rewrite Hdata. unfold line. by rewrite <-!app_assoc. }
    rewrite <-Hlines.
    apply (runs_headers st data (rs_headers r) line (lenl ++ CRLF ++ rs_body r) _ _ _ _ _ u1 u2); try done; [by left|fold hs; lia|].
    fold hs. intros s' hs' ix' Hs'.
    eapply (runs_name st data (line ++ hs) 67 (str "ontent-Length") (rs_length r ++ CRLF ++ CRLF ++ rs_body r) _ _ _ _ _ _ u2');
      try done; [|by repeat constructor|lia|change (length (str "ontent-Length")) with 13%nat; lia|].
   
    { rewrite Hdata. unfold lenl, print_header. cbn [fst snd]. by rewrite <-!app_assoc. }
    change (length (str "ontent-Length")) with 13%nat. intros hs2 ix2 Hend. rewrite (content_length_end hs2 ix2 Hend).
    eapply (runs_length st data _ (rs_length r) (CRLF ++ rs_body r) _ _ _ _ u3 _ _); [|done|exact Hl|lia|lia|done|].
    { rewrite Hdata. unfold lenl, print_header. cbn [fst snd]. by rewrite <-!app_assoc. }
    eapply (runs_blank st data _ (rs_body r)); [|done|done|apply Hl|lia|lia|exact Ha4].
    rewrite Hdata. unfold lenl, print_header. cbn [fst snd]. by rewrite <-!app_assoc. }
  unfold http_parser_execute. cbn [http_parser_init http_errno is_ok negb].
  assert (Hpos : 0 < len data) by (unfold len; rewrite Hdata, !length_app; lia).
  rewrite (proj2 (Z.eqb_neq (len data) 0)) by lia. unfold runs in Hruns. cbn [x_p] in Hruns.
  by replace (S (Z.to_nat (len data - 0))) with (S (length data)) in Hruns by (unfold len; lia).
Qed.
