(* ===== verification/HttpOrder.v ===== *)
(** * The HTTP parser on any input

    Whatever bytes arrive, in whatever pieces, and whatever the callbacks
    answer: the parser returns from every call, with no assertion failed and no
    access outside its data, and the callbacks it has made are in the order of a
    message. *)

From S2P Require Import Prelude HttpParser HttpFacts HttpRun HttpSplit.

(** ** The order of the callbacks *)

Inductive called : Set := CBegin | CUrl | CField | CValue | CHeaders | CBody | CComplete.

(** Between messages, after the beginning of one, in its head, after its
    headers. *)
Inductive progress : Set := GIdle | GBegun | GHead | GTail.

Definition advance (g : progress) (c : called) : option progress :=
  match g, c with
  | (GIdle | GBegun), CBegin => Some GBegun
  | (GBegun | GHead), (CUrl | CField | CValue) => Some GHead
  | (GBegun | GHead), CHeaders => Some GTail
  | GTail, (CField | CValue | CBody) => Some GTail
  | GTail, CComplete => Some GIdle
  | _, _ => None
  end.

Fixpoint advance_all (g : progress) (cs : list called) : option progress :=
  match cs with
  | [] => Some g
  | c :: cs => match advance g c with Some g => advance_all g cs | None => None end
  end.

Lemma advance_all_snoc g cs c : advance_all g (cs ++ [c])
  = match advance_all g cs with Some g => advance g c | None => None end.
Proof.
  revert g. induction cs as [|c' cs IH]; intros g; cbn [app advance_all].
  - by destruct (advance g c).
  - by destruct (advance g c').
Qed.

Section Logged.
Context {A : Type}.

(** The callbacks of [st], with a log of the calls made. *)
Definition log_cb (c : called) (cb : option (http_cb A)) : option (http_cb (list called * A)) :=
  Some (fun p u =>
    match cb with
    | None => Ok (mkRes 0 false (fst u ++ [c], snd u))
    | Some cb => r ← cb p (snd u); Ok (mkRes (cb_ret r) (cb_pauses r) (fst u ++ [c], cb_user r))
    end).
Definition log_data (c : called) (cb : option (http_data_cb A)) : option (http_data_cb (list called * A)) :=
  Some (fun p d u =>
    match cb with
    | None => Ok (mkRes 0 false (fst u ++ [c], snd u))
    | Some cb => r ← cb p d (snd u); Ok (mkRes (cb_ret r) (cb_pauses r) (fst u ++ [c], cb_user r))
    end).

Definition logged (st : http_parser_settings A) : http_parser_settings (list called * A) :=
  mkSettings (log_cb CBegin (on_message_begin st)) (log_data CUrl (on_url st))
    (log_data CField (on_header_field st)) (log_data CValue (on_header_value st))
    (log_cb CHeaders (on_headers_complete st)) (log_data CBody (on_body st))
    (log_cb CComplete (on_message_complete st)).

(** Callbacks that return. *)
Definition cb_returns (cb : option (http_cb A)) : Prop :=
  match cb with None => True | Some cb => forall p a, exists r, cb p a = Ok r end.
Definition data_cb_returns (cb : option (http_data_cb A)) : Prop :=
  match cb with None => True | Some cb => forall p d a, exists r, cb p d a = Ok r end.

Record callbacks_return (st : http_parser_settings A) : Prop := {
  rt_begin : cb_returns (on_message_begin st);
  rt_url : data_cb_returns (on_url st);
  rt_field : data_cb_returns (on_header_field st);
  rt_value : data_cb_returns (on_header_value st);
  rt_headers : cb_returns (on_headers_complete st);
  rt_body : data_cb_returns (on_body st);
  rt_complete : cb_returns (on_message_complete st) }.

Definition at_progress (gs : list progress) (u : list called * A) : Prop :=
  exists g, advance_all GIdle (fst u) = Some g /\ g ∈ gs.

Definition phase_progress (ph : phase) : list progress :=
  match ph with PIdle => [GIdle; GBegun] | PHead => [GBegun; GHead] | PTail => [GTail] end.

Definition ordered_at (ph : phase) : list called * A -> Prop := at_progress (phase_progress ph).
Definition ordered (u : list called * A) : Prop := is_Some (advance_all GIdle (fst u)).

Lemma at_progress_step gs gs' u c a :
  (forall g, g ∈ gs -> exists g', advance g c = Some g' /\ g' ∈ gs') ->
  at_progress gs u -> at_progress gs' (fst u ++ [c], a).
Proof.
  intros Hs (g & Hg & Hin). destruct (Hs g Hin) as (g' & Ha & Hin').
  exists g'. split; [|done]. cbn [fst]. by rewrite advance_all_snoc, Hg.
Qed.

Lemma at_ordered gs u : at_progress gs u -> ordered u.
Proof. intros (g & Hg & _). by exists g. Qed.

(** A decision over the few states and calls. *)
Ltac progress_cases := intros ? Hin; repeat (apply elem_of_cons in Hin as [-> |Hin]);
  [..|by apply not_elem_of_nil in Hin]; eexists; (split; [reflexivity|]); set_solver.

Lemma log_cb_posts acc c cb gs gs' :
  cb_returns cb -> (forall g, g ∈ gs -> exists g', advance g c = Some g' /\ g' ∈ gs') ->
  posts ordered acc (log_cb c cb) (at_progress gs) (at_progress gs').
Proof.
  intros Hr Hs p u Hu. unfold log_cb.
  assert (Ha : forall a, at_progress gs' (fst u ++ [c], a)) by (intros a; by apply (at_progress_step gs)).
  destruct cb as [cb|]; [destruct (Hr p (snd u)) as (r & ->)|];
    eexists; (split; [reflexivity|]); cbn [cb_user cb_ret]; split; eauto using at_ordered.
Qed.

Lemma log_data_posts c cb gs :
  data_cb_returns cb -> (forall g, g ∈ gs -> exists g', advance g c = Some g' /\ g' ∈ gs) ->
  data_posts ordered (log_data c cb) (at_progress gs).
Proof.
  intros Hr Hs p d u Hu. unfold log_data.
  assert (Ha : forall a, at_progress gs (fst u ++ [c], a)) by (intros a; by apply (at_progress_step gs)).
  destruct cb as [cb|]; [destruct (Hr p d (snd u)) as (r & ->)|];
    eexists; (split; [reflexivity|]); cbn [cb_user cb_ret]; split; eauto using at_ordered.
Qed.

Lemma logged_ok st : callbacks_return st -> callbacks_ok (logged st) ordered_at ordered.
Proof.
  intros [Hb Hu Hf Hv Hh Hbo Hc]. split; cbn [logged on_message_begin on_url on_header_field on_header_value
    on_headers_complete on_body on_message_complete].
  - intros ph a. apply at_ordered.
  - assert (H : posts ordered zero (log_cb CBegin (on_message_begin st)) (at_progress [GIdle; GBegun]) (at_progress [GBegun]))
      by (apply log_cb_posts; [done|progress_cases]).
    intros p a Ha. destruct (H p a Ha) as (r & Hr & HD & HQ). exists r. split_and!; try done.
    intros Hz. destruct (HQ Hz) as (g & Hg & ->%list_elem_of_singleton).
    split; exists GBegun; (split; [done|]); set_solver.
  - apply log_data_posts; [done|progress_cases].
  - intros [] Hi; [done|..]; (apply log_data_posts; [done|progress_cases]).
  - intros [] Hi; [done|..]; (apply log_data_posts; [done|progress_cases]).
  - apply log_cb_posts; [done|progress_cases].
  - apply log_data_posts; [done|progress_cases].
  - apply log_cb_posts; [done|progress_cases].
Qed.

End Logged.

(** ** Any stream *)

Lemma stopped_returns {A} (st : http_parser_settings A) d p u :
  http_errno p <> HPE_OK -> http_parser_execute st d p u = Ok (0, p, u).
Proof. intros H. unfold http_parser_execute. by destruct (http_errno p). Qed.

Lemma feed_stopped {A} (st : http_parser_settings A) pieces p u :
  http_errno p <> HPE_OK -> feed st pieces p u = Ok (p, u).
Proof.
  intros H. induction pieces as [|d pieces IH]; [done|]. cbn [feed]. by rewrite stopped_returns.
Qed.

Lemma feed_rule {A} (st : http_parser_settings A) J D pieces p u :
  callbacks_ok st J D -> Forall (fun d => d <> []) pieces -> parser_ok p -> http_errno p = HPE_OK ->
  J (phase_of p) u ->
  exists p' u', feed st pieces p u = Ok (p', u') /\ D u' /\
    (http_errno p' = HPE_OK -> parser_ok p' /\ J (phase_of p') u').
Proof.
  intros Hcb Hne. revert p u. induction Hne as [|d pieces Hd _ IH]; intros p u Hp He HJ; cbn [feed].
  { exists p, u. split; [done|]. split; [by apply (cs_any _ _ _ Hcb (phase_of p))|done]. }
  destruct (execute_rule st d J D Hcb p u Hd Hp He HJ) as (n & p1 & u1 & -> & _ & HD & Hok).
  cbn [mbind outcome_bind]. destruct (is_ok (http_errno p1)) eqn:Ei.
  - assert (http_errno p1 = HPE_OK) by (by destruct (http_errno p1)). destruct (Hok ltac:(done)). by apply IH.
  - assert (http_errno p1 <> HPE_OK) by (by intros Heq; rewrite Heq in Ei).
    exists p1, u1. rewrite feed_stopped by done. by split_and!.
Qed.

(** The end of the stream, after any pieces. *)
Lemma eof_rule {A} (st : http_parser_settings A) J D p u :
  callbacks_ok st J D -> J (phase_of p) u ->
  exists n p' u', http_parser_execute st [] p u = Ok (n, p', u') /\ 0 <= n <= 1 /\ D u' /\
    (http_errno p <> HPE_OK -> p' = p /\ u' = u).
Proof.
  intros Hcb HJ. pose proof (cs_any _ _ _ Hcb _ _ HJ) as HDu. unfold http_parser_execute.
  destruct (is_ok (http_errno p)) eqn:Ei; cbn [negb].
  2: { exists 0, p, u. split_and!; auto; lia. }
  assert (He : http_errno p = HPE_OK) by (by destruct (http_errno p)).
  change (len [] =? 0) with true. cbv iota. unfold execute_eof.
  destruct (pstate p) eqn:Es; try (eexists _, _, _; split; [reflexivity|]; split_and!; auto; lia || done).
  assert (Hph : phase_of p = PTail) by (unfold phase_of; by rewrite Es). rewrite Hph in HJ.
  destruct (notify_ok st D N_message_complete 0 (mkExec p u 0 (mkMarks None None None None)) (J PTail) (J PIdle))
    as (r & -> & Hcall & _); try done; [by apply (cs_any _ _ _ Hcb)|by apply (cs_complete _ _ _ Hcb)|].
  cbn [mbind outcome_bind]. eexists _, _, _. split; [reflexivity|]. unfold call_ok in Hcall. destruct r as [o x].
  cbn [snd]. split_and!; [lia|lia|tauto|done].
Qed.

(** ** Refused messages

    An application that refuses the next message: between messages the parser
    then only takes line ends, and counts each of them. *)
Section Refused.
Context {A : Type} (st : http_parser_settings A) (data : bytes) (u : A) (cb : http_cb A).
Context (Hbegin : on_message_begin st = Some cb) (Hcb : forall p, cb p u = Ok (mkRes 1 false u)).
Implicit Type x y : exec A.

Lemma refused_notify x : http_errno (x_parser x) = HPE_OK -> x_user x = u ->
  exists y, CALLBACK_NOTIFY_ st N_message_begin (x_p x + 1) x = Ok (Some (x_p x + 1), y) /\ http_errno (x_parser y) <> HPE_OK.
Proof.
  intros He Hu. unfold CALLBACK_NOTIFY_. rewrite He. cbn [is_ok guard_trap notify_cb]. rewrite Hbegin, Hu, Hcb.
  cbn [mbind outcome_bind]. unfold after_callback. cbn. by eexists.
Qed.

(** The byte is a line end, or the call ends with an error. *)
Definition refused x (r : ctl * exec A) : Prop :=
  match fst r with
  | Next => part_of (pstate (x_parser (snd r))) = Idle /\ http_errno (x_parser (snd r)) = HPE_OK /\
            nread (x_parser (snd r)) = nread (x_parser x) /\ x_user (snd r) = u /\ x_p (snd r) = x_p x /\
            x_marks (snd r) = x_marks x
  | Return _ => http_errno (x_parser (snd r)) <> HPE_OK
  | ErrorLabel => True
  end.

(** How a case of a state between messages leaves. *)
Lemma perform_refused go x s r : part_of (pstate (x_parser x)) = Idle -> x_user x = u ->
  match st_act s with
  | Break => s = mkStmt (x_parser x) None 0 Break /\ http_errno (x_parser x) = HPE_OK
  | Notify N_message_begin _ => http_errno (st_parser s) = HPE_OK
  | Error => True
  | _ => False
  end ->
  perform st data go (apply_stmt x s) (st_act s) = Ok r -> refused x r.
Proof.
  intros Hs Hu Ha. destruct (st_act s) as [| | |[] lv|k e c ag|] eqn:Ea; cbn [perform]; try done.
  - destruct Ha as [-> He]. intros [= <-]. unfold refused. cbn. rewrite Z.add_0_r. by split_and!.
  - by intros [= <-].
  - destruct (refused_notify (apply_stmt x s)) as (y & -> & Hy); [done|done|].
    cbn [mbind outcome_bind or_return]. by intros [= <-].
Qed.

Lemma reexecute_unfold f x ch :
  reexecute_byte st data (S f) x ch =
    (s ← switch (x_parser x) ch (len data - x_p x);
     perform st data (fun y => reexecute_byte st data f y ch) (apply_stmt x s) (st_act s)).
Proof. done. Qed.

Lemma start_req_refused f x ch r : pstate (x_parser x) = s_start_req -> http_errno (x_parser x) = HPE_OK -> x_user x = u ->
  reexecute_byte st data (S f) x ch = Ok r -> refused x r.
Proof.
  intros Es He Hu. rewrite reexecute_unfold. unfold switch, case_start_req. rewrite Es.
  destruct ((ch =? CR) || (ch =? LF)); [|destruct (negb (IS_ALPHA ch)); [|destruct (first_method ch)]];
    cbn [brk leave fail mbind outcome_bind]; apply perform_refused; by rewrite ?Es.
Qed.

Lemma refused_byte x ch r : part_of (pstate (x_parser x)) = Idle -> http_errno (x_parser x) = HPE_OK -> x_user x = u ->
  reexecute_byte st data reexecutions x ch = Ok r -> refused x r.
Proof.
  intros Hs He Hu. change reexecutions with (S 3).
  destruct (pstate (x_parser x)) eqn:Es; try done; [..|by apply start_req_refused];
    rewrite reexecute_unfold; unfold switch; rewrite Es; unfold case_dead, case_start_req_or_res, case_start_res.
  - destruct ((ch =? CR) || (ch =? LF)); cbn [brk leave fail mbind outcome_bind]; apply perform_refused; by rewrite ?Es.
  - destruct ((ch =? CR) || (ch =? LF)); [|destruct (ch =? 72)]; cbn [brk leave fail mbind outcome_bind];
      [apply perform_refused; by rewrite ?Es..|].
    cbn [st_act perform]. intros Hr. apply start_req_refused in Hr; [|done..].
    unfold refused in *. destruct (fst r); try done. cbn [apply_stmt x_parser x_p x_marks st_parser st_mark st_skip] in Hr.
    rewrite Z.add_0_r in Hr. exact Hr.
  - destruct (ch =? 72); [|destruct ((ch =? CR) || (ch =? LF))]; cbn [brk leave fail mbind outcome_bind];
      apply perform_refused; by rewrite ?Es.
Qed.

Lemma refused_loop f x n p2 u2 :
  part_of (pstate (x_parser x)) = Idle -> http_errno (x_parser x) = HPE_OK -> x_user x = u -> no_marks (x_marks x) ->
  0 <= nread (x_parser x) <= HTTP_MAX_HEADER_SIZE -> 0 <= x_p x <= len data ->
  bytes_loop st data f x = Ok (n, p2, u2) -> http_errno p2 = HPE_OK ->
  nread p2 = nread (x_parser x) + (len data - x_p x).
Proof.
  revert x. induction f as [|f IH]; intros x Hs He Hu Hm Hn Hp Hl He2; [done|]. cbn [bytes_loop] in Hl.
  destruct (Z.eqb_spec (x_p x) (len data)) as [Ep|Ep].
  { assert (Hnone : forall k, get_mark (x_marks x) k = None) by (intros k; apply Hm).
    rewrite (leftover_eq st data x K_url 0) in Hl by (rewrite ?He; try done; intros k m Hk; by rewrite Hnone in Hk).
    unfold CALLBACK_DATA_ in Hl. rewrite He, Hnone in Hl. injection Hl as <- <- <-. lia. }
  destruct (load data (x_p x)) as [ch|]; [|done]. cbn [mbind outcome_bind] in Hl.
  assert (Hh : PARSING_HEADER (pstate (x_parser x)) = true) by (by destruct (pstate (x_parser x))).
  unfold count_header in Hl. rewrite Hh in Hl. unfold HTTP_MAX_HEADER_SIZE in *.
  rewrite u32_small in Hl by lia. cbn [nread set_nread] in Hl.
  destruct (Z.ltb_spec (80 * 1024) (nread (x_parser x) + 1)) as [Hov|Hfit]; cbn [negb] in Hl.
  { injection Hl as _ Hp2 _. by rewrite <-Hp2 in He2. }
  destruct (reexecute_byte _ _ _ _ _) as [r|] eqn:Er; [|done]. cbn [mbind outcome_bind] in Hl.
  apply refused_byte in Er; [|done..]. destruct r as [[|v|] y]; cbn [refused fst snd] in Er.
  - destruct Er as (E1 & E2 & E3 & E4 & E5 & E6). cbn in E3, E5, E6.
    apply IH in Hl; cbn [x_parser x_user x_p x_marks] in *; try done; try lia.
    by intros k; rewrite E6; apply Hm.
  - by injection Hl as _ <- _.
  - injection Hl as _ Hp2 _. destruct (is_ok (http_errno (x_parser y))) eqn:Ei; rewrite <-Hp2 in He2; [done|].
    by rewrite He2 in Ei.
Qed.

(** So a call that takes all of its data leaves a count above zero. *)
Lemma refused_counts p n p2 u2 : part_of (pstate p) = Idle -> parser_ok p -> http_errno p = HPE_OK -> data <> [] ->
  http_parser_execute st data p u = Ok (n, p2, u2) -> http_errno p2 = HPE_OK -> 0 < nread p2.
Proof.
  intros Hs Hp He Hd Hex He2. unfold http_parser_execute in Hex. rewrite He in Hex. cbn [is_ok negb] in Hex.
  assert (Hl : 0 < len data) by (unfold len; destruct data; [done|cbn; lia]).
  rewrite (proj2 (Z.eqb_neq (len data) 0)) in Hex by lia. destruct (ok_nread _ Hp) as [Hn1 Hn2].
  apply refused_loop in Hex; cbn [x_parser x_user x_p x_marks] in *; try done; [lia| |lia].
  by intros []; destruct (pstate p).
Qed.

End Refused.

(** A reader's calls: the pieces it receives, and the end of the stream. *)
Definition read_stream {A} (st : http_parser_settings A) (t : http_parser_type) (pieces : list bytes) (u : A)
  : outcome (http_parser * A) :=
  r ← feed st pieces (http_parser_init t) u;
  e ← http_parser_execute st [] (fst r) (snd r);
  Ok (snd (fst e), snd e).

(** C15: Given callbacks that return, the parser of a request, a response or either
    returns from the calls for any non-empty pieces of any bytes and from the
    call for the end of the stream: no assertion fails, no byte outside the
    data is read and no loop goes on for ever.  The callbacks made are in the
    order of messages: on_message_begin (again for each line end before the
    message), then the url and the header fields and values, then
    on_headers_complete, then body and trailers, then on_message_complete. *)
Theorem http_parser_total {A} (st : http_parser_settings A) (t : http_parser_type) (pieces : list bytes) (u : A) :
  callbacks_return st -> Forall (fun d => d <> []) pieces ->
  exists p calls u', read_stream (logged st) t pieces ([], u) = Ok (p, (calls, u')) /\
    is_Some (advance_all GIdle calls).
Proof.
  intros Hst Hne. pose proof (logged_ok st Hst) as Hcb.
  assert (HJ : ordered_at (phase_of (http_parser_init t)) ([] : list called, u)).
  { exists GIdle. split; [done|]. destruct t; cbn; set_solver. }
  destruct (feed_rule (logged st) ordered_at ordered pieces (http_parser_init t) ([], u) Hcb Hne (parser_init_ok t) eq_refl HJ)
    as (p & u1 & Hf & HD & Hok). unfold read_stream. rewrite Hf. cbn [mbind outcome_bind fst snd].
  destruct (is_ok (http_errno p)) eqn:Ei.
  - assert (He : http_errno p = HPE_OK) by (by destruct (http_errno p)). destruct (Hok He) as [_ HJ1].
    destruct (eof_rule (logged st) ordered_at ordered p u1 Hcb HJ1) as (n & p' & [calls u'] & -> & _ & HD' & _).
    by exists p', calls, u'.
  - assert (He : http_errno p <> HPE_OK) by (by intros Heq; rewrite Heq in Ei).
    rewrite stopped_returns by done. destruct u1 as [calls u']. by exists p, calls, u'.
Qed.

(** A server that answers a chunked body with a trailer, cut in the middle. *)
Definition silent : http_parser_settings unit := mkSettings None None None None None None None.

Lemma http_parser_total_witness :
  (exists p calls u', read_stream (logged silent) HTTP_BOTH
     [str "HTTP/1.1 200 OK"; [13]; [10] ++ str "Transfer-Encoding: chunked" ++ [13; 10; 13]; [10] ++ str "1" ++ [13; 10; 120; 13; 10; 48; 13; 10; 13; 10]]
     ([], tt) = Ok (p, (calls, u')) /\ is_Some (advance_all GIdle calls)).
Proof. apply (http_parser_total silent); [by split|by repeat constructor]. Defined.
