(* ===== verification/HttpUrl.v ===== *)
(** * The urls of the HTTP client library

    [struct Url_] of deps/evhttpclient/url.h: parsing of a url into protocol,
    host, port, path and query.  A url that is written out from its parts is
    parsed back to them. *)

From S2P Require Import Prelude Utils.

(** [port_] has no value before a parse that sets it. *)
Record Url := mkUrl { protocol_ : bytes; host_ : bytes; port_ : option Z; path_ : bytes; query_ : bytes }.

Definition Url_ : Url := mkUrl [] [] None [] [].

(** ** The standard library *)

(** [find(begin + i, end, c)], as an index. *)
Fixpoint find_from (s : bytes) (c : Z) : nat :=
  match s with
  | [] => O
  | x :: s => if x =? c then O else S (find_from s c)
  end.
Definition find (s : bytes) (i : nat) (c : Z) : nat := (i + find_from (drop i s) c)%nat.

(** [search(begin, end, w)]. *)
Fixpoint search (s w : bytes) : nat :=
  match s with
  | [] => O
  | x :: s' => if bool_decide (take (length w) s = w) then O else S (search s' w)
  end.

Definition SHRT_MAX : Z := 2 ^ 15 - 1.
Definition SHRT_MIN : Z := - 2 ^ 15.

Fixpoint skip_space (s : bytes) : bytes :=
  match s with c :: s' => if isspace c then skip_space s' else s | [] => [] end.

(** The digits a stream goes on with: whether there are any, and their value. *)
Fixpoint stream_digits (s : bytes) (v : Z) : Z :=
  match s with
  | c :: s => if isdigit c then stream_digits s (10 * v + (c - 48)) else v
  | [] => v
  end.
Definition has_digit (s : bytes) : bool := match s with c :: _ => isdigit c | [] => false end.

(** [stream >> v] for a short: at the end of the stream the variable keeps its
    value, without digits it is 0, and a number out of range gives the limit. *)
Definition extract_short (s : bytes) (old : option Z) : option Z :=
  match skip_space s with
  | [] => old
  | c :: s' =>
      let '(sign, ds) := if c =? 45 then (-1, s') else if c =? 43 then (1, s') else (1, c :: s') in
      Some (if has_digit ds then Z.max SHRT_MIN (Z.min SHRT_MAX (sign * stream_digits ds 0)) else 0)
  end.

(** ** parse *)

Definition colon : Z := 58.
Definition slash : Z := 47.
Definition question : Z := 63.

(** The part of [s] between two iterators. *)
Definition between (s : bytes) (i j : nat) : bytes := take (j - i) (drop i s).

Definition parse (u : Url) (url_s : bytes) : outcome Url :=
  let prot_end := str "://" in
  let prot_i := search url_s prot_end in
  let u := mkUrl (protocol_ u ++ (tolower <$> take prot_i url_s)) (host_ u) (port_ u) (path_ u) (query_ u) in
  if bool_decide (prot_i = length url_s) then Ok u else
  let prot_i := (prot_i + length prot_end)%nat in
  let port_i := find url_s prot_i colon in
  let path_i := Nat.min (find url_s prot_i slash) (find url_s prot_i question) in
  u ← (if bool_decide (port_i = length url_s) then
         Ok (mkUrl (protocol_ u) (host_ u ++ (tolower <$> between url_s prot_i path_i)) (Some 80) (path_ u) (query_ u))
       else
         (* the loop from port_i to path_i runs off the string when it starts behind path_i *)
         guard_trap (bool_decide (S port_i <= path_i)%nat) OutOfBounds
           (Ok (mkUrl (protocol_ u) (host_ u ++ (tolower <$> between url_s prot_i port_i))
                  (extract_short (between url_s (S port_i) path_i) (port_ u)) (path_ u) (query_ u))));
  let query_i := find url_s path_i question in
  let path := between url_s path_i query_i in
  let query_i := if bool_decide (query_i = length url_s) then query_i else S query_i in
  Ok (mkUrl (protocol_ u) (host_ u) (port_ u) (match path with [] => str "/" | _ => path end) (drop query_i url_s)).

(** ** Printed urls *)

Definition no_char (s : bytes) (c : Z) : Prop := Forall (fun x => x <> c) s.

Lemma find_from_app s c t : no_char s c -> find_from (s ++ t) c = (length s + find_from t c)%nat.
Proof.
  induction 1 as [|x s Hx _ IH]; [done|]. cbn [app find_from length].
  rewrite (proj2 (Z.eqb_neq x c) Hx), IH. lia.
Qed.

Lemma find_from_hit c t : find_from (c :: t) c = O.
Proof. cbn. by rewrite Z.eqb_refl. Qed.

Lemma find_from_none s c : no_char s c -> find_from s c = length s.
Proof. intros H. rewrite <-(app_nil_r s) at 1. rewrite find_from_app by done. cbn. lia. Qed.

(** [find] in a string whose part before the iterator is known. *)
Lemma find_app pre s c : find (pre ++ s) (length pre) c = (length pre + find_from s c)%nat.
Proof. unfold find. by rewrite drop_app_length. Qed.

Lemma search_app s w t : w <> [] -> no_char s (hd 0 w) -> search (s ++ w ++ t) w = length s.
Proof.
  intros Hw. induction 1 as [|x s Hx _ IH]; cbn [app search length].
  - destruct w as [|a w]; [done|]. cbn [app search]. rewrite bool_decide_eq_true_2; [done|].
    cbn [length take]. by rewrite take_app_length.
  - rewrite bool_decide_eq_false_2; [by rewrite IH|]. destruct w as [|a w]; [done|].
    cbn in *. by intros [= ->].
Qed.

Lemma between_app a b c i j : length a = i -> j = (i + length b)%nat -> between (a ++ b ++ c) i j = b.
Proof. intros <- ->. unfold between. rewrite drop_app_length. by replace (length a + length b - length a)%nat with (length b) by lia; rewrite take_app_length. Qed.

(** The text of a port. *)
Lemma stream_digits_value ds v : Forall (fun c => isdigit c = true) ds ->
  stream_digits ds v = fold_left (fun a c => a * 10 + (c - 48)) ds v.
Proof.
  intros H. revert v. induction H as [|c ds Hc _ IH]; intros v; [done|]. cbn [stream_digits fold_left].
  rewrite Hc, IH. f_equal. lia.
Qed.

Lemma digit_not c ds : Forall (fun c => isdigit c = true) ds -> isdigit c = false -> no_char ds c.
Proof. intros H Hc. apply (Forall_impl _ _ _ H). by intros x Hx ->; rewrite Hc in Hx. Qed.

(** The text of a number is read back, up to the limit of a short. *)
Lemma extract_port v t old : 0 <= v <= LLONG_MAX -> ll_text v = Ok t ->
  extract_short t old = Some (Z.min SHRT_MAX v) /\ Forall (fun c => isdigit c = true) t.
Proof.
  intros Hv Ht. assert (Hr : LLONG_MIN <= v <= LLONG_MAX) by (unfold LLONG_MIN, LLONG_MAX in *; lia).
  destruct (ll_text_spec v Hr) as (t' & Ht' & [(_ & (Hd & Hne & _) & Hval)|[? _]] & _); [|lia].
  rewrite Ht in Ht'. injection Ht' as <-. split; [|done]. destruct t as [|c t]; [done|].
  pose proof (Forall_inv Hd) as Hc. unfold isdigit in Hc. unfold extract_short. cbn [skip_space].
  replace (isspace c) with false by (unfold isspace; lia).
  replace (c =? 45) with false by lia. replace (c =? 43) with false by lia.
  cbn [has_digit]. unfold isdigit at 1. rewrite Hc. rewrite stream_digits_value by done.
  unfold dec_val in Hval. rewrite Hval. f_equal. unfold SHRT_MIN, SHRT_MAX in *. lia.
Qed.

(** A url with its parts; [port] is given with its text. *)
Definition print_url (prot host port path query : bytes) : bytes :=
  prot ++ str "://" ++ host ++ port ++ path ++ question :: query.

#[export] Instance no_char_dec s c : Decision (no_char s c).
Proof. unfold no_char. apply _. Defined.

(** The parts are what the separators say: no colon in the protocol, no colon,
    slash or question mark in the host, no question mark in the path, which
    begins with a slash; the port, if there is one, is not negative. *)
Definition parts_ok (prot host path query : bytes) (port : option Z) : Prop :=
  no_char prot colon /\ no_char host colon /\ no_char host slash /\ no_char host question /\
  no_char path question /\ hd_error path = Some slash /\
  match port with Some v => 0 <= v <= LLONG_MAX | None => True end.

(** The parser takes the first colon for the one before a port. *)
Definition colon_behind_host (path query : bytes) (port : option Z) : Prop :=
  port = None /\ ~ (no_char path colon /\ no_char query colon).

Definition port_text (port : option Z) : outcome bytes :=
  match port with None => Ok [] | Some v => t ← ll_text v; Ok (colon :: t) end.

(** Where the path of a printed url begins and ends. *)
Lemma find_path pre rest path query :
  no_char rest slash -> no_char rest question -> no_char path question -> hd_error path = Some slash ->
  let s := pre ++ rest ++ path ++ question :: query in
  Nat.min (find s (length pre) slash) (find s (length pre) question) = (length pre + length rest)%nat /\
  find s (length pre + length rest) question = (length pre + length rest + length path)%nat.
Proof.
  intros H1 H2 H3 H4 s. subst s. split.
  - rewrite !find_app, (find_from_app rest slash), (find_from_app rest question) by done. destruct path as [|x path]; [done|]. injection H4 as ->.
    cbn [app]. rewrite find_from_hit. lia.
  - rewrite app_assoc, <-length_app, find_app, find_from_app, find_from_hit by done. lia.
Qed.

(** The colon before a port, and what is read on its two sides. *)
Lemma find_port s pre host a path query :
  s = pre ++ (host ++ colon :: a) ++ path ++ question :: query -> no_char host colon ->
  find s (length pre) colon = (length pre + length host)%nat.
Proof. intros -> Hh. rewrite find_app, <-app_assoc, find_from_app by done. cbn [app]. rewrite find_from_hit. lia. Qed.

Lemma host_and_port s pre host a path query :
  s = pre ++ (host ++ colon :: a) ++ path ++ question :: query ->
  between s (length pre) (length pre + length host) = host /\
  between s (S (length pre + length host)) (length pre + length (host ++ colon :: a)) = a.
Proof.
  intros ->. split; [rewrite <-(app_assoc host); by apply between_app|].
  change (host ++ colon :: a) with (host ++ [colon] ++ a). rewrite (app_assoc host), <-app_assoc, (app_assoc pre).
  apply between_app; rewrite !length_app; cbn; lia.
Qed.

Lemma find_from_found t c : ~ no_char t c -> (find_from t c < length t)%nat.
Proof.
  induction t as [|x t IH]; intros Hn; [by destruct Hn; constructor|]. cbn. destruct (Z.eqb_spec x c) as [->|Hx]; [lia|].
  assert (~ no_char t c) by (intros Ht; apply Hn; by constructor). specialize (IH H). lia.
Qed.

(** Without a port the first colon, if there is one, is behind the host. *)
Lemma find_late_colon s pre host path query :
  s = pre ++ host ++ path ++ question :: query -> no_char host colon -> ~ (no_char path colon /\ no_char query colon) ->
  (length pre + length host <= find s (length pre) colon < length s)%nat.
Proof.
  intros -> Hh Hn. rewrite find_app, find_from_app by done. rewrite !(length_app pre), !(length_app host).
  assert (find_from (path ++ question :: query) colon < length (path ++ question :: query))%nat; [|lia].
  apply find_from_found. intros [H1 H2]%Forall_app. apply Forall_cons in H2 as [_ H2]. by apply Hn.
Qed.

Lemma parse_tail s pre rest path query u :
  s = pre ++ rest ++ path ++ question :: query -> path <> [] ->
  let path_i := (length pre + length rest)%nat in
  let query_i := (length pre + length rest + length path)%nat in
  let path' := between s path_i query_i in
  Ok (mkUrl (protocol_ u) (host_ u) (port_ u) (match path' with [] => str "/" | _ => path' end)
       (drop (if bool_decide (query_i = length s) then query_i else S query_i) s))
  = (Ok (mkUrl (protocol_ u) (host_ u) (port_ u) path query) : outcome Url).
Proof.
  intros -> Hp path_i query_i path'. subst path' path_i query_i.
  rewrite (app_assoc pre rest), between_app by (rewrite ?length_app; lia).
  rewrite bool_decide_eq_false_2 by (rewrite !length_app; cbn; lia).
  do 2 f_equal; [by destruct path|].
  replace (S (length pre + length rest + length path)) with (length (((pre ++ rest) ++ path) ++ [question]))
    by (rewrite !length_app; cbn; lia).
  rewrite (app_assoc (pre ++ rest)). change (question :: query) with ([question] ++ query).
  rewrite (app_assoc _ [question]). apply drop_app_length.
Qed.

(** C16: A url printed from a protocol, a host, an optional port, a path that
    begins with a slash, and a query (no colon in the protocol, no colon, slash
    or question mark in the host, no question mark in the path) is parsed to
    exactly these parts, protocol and host in lower case, the port cut at 32767
    and 80 when none is given; with one exception: when no port is given and the
    path or the query has a colon, the parser takes it for the one before a port
    and runs off the string. *)
Theorem url_parse_print (prot host path query ptext : bytes) (port : option Z) :
  parts_ok prot host path query port -> port_text port = Ok ptext ->
  (~ colon_behind_host path query port ->
   parse Url_ (print_url prot host ptext path query)
     = Ok (mkUrl (tolower <$> prot) (tolower <$> host) (Some (Z.min SHRT_MAX (default 80 port))) path query)) /\
  (colon_behind_host path query port -> parse Url_ (print_url prot host ptext path query) = Trap OutOfBounds).
Proof.
  intros (Hpc & Hhc & Hhs & Hhq & Hpq & Hps & Hport) Htext.
  set (pre := prot ++ str "://"). set (s := print_url prot host ptext path query).
  assert (Hs : s = pre ++ (host ++ ptext) ++ path ++ question :: query)
    by (unfold s, print_url, pre; by rewrite <-!app_assoc).
  assert (Hsearch : search s (str "://") = length prot) by (apply search_app; done).
  assert (Hlen : (length prot + length (str "://"))%nat = length pre) by (unfold pre; by rewrite length_app).
  assert (Hdig : no_char ptext slash /\ no_char ptext question).
  { destruct port as [v|]; cbn in Htext; [|injection Htext as <-; by repeat constructor].
    inv_bind Htext. injection Htext as <-. destruct (extract_port v a None Hport E) as [_ Hd].
    split; (constructor; [done|by apply digit_not]). }
  destruct (find_path pre (host ++ ptext) path query) as [Hpath Hquery]; try apply Forall_app_2; try done; try apply Hdig.
  rewrite <-Hs in Hpath, Hquery. unfold parse. rewrite Hsearch. fold (str "://").
  rewrite bool_decide_eq_false_2 by (rewrite Hs; unfold pre; rewrite !length_app; cbn; lia).
  rewrite Hlen, Hpath. cbn [protocol_ host_ port_ path_ query_ Url_ app].
  assert (Htake : take (length prot) s = prot) by (unfold s, print_url; apply take_app_length). rewrite Htake.
  unfold colon_behind_host. destruct port as [v|]; cbn [port_text] in Htext.
  - split; [intros _|by intros [? _]].
    inv_bind Htext. injection Htext as <-. destruct (extract_port v a None Hport E) as [Hx _].
    rewrite (find_port s pre host a path query Hs Hhc).
    rewrite (bool_decide_eq_false_2 (length pre + length host = length s)%nat) by (rewrite Hs, !length_app; cbn; lia).
    rewrite (bool_decide_eq_true_2 (S _ <= _)%nat) by (rewrite length_app; cbn; lia). cbn [guard_trap mbind outcome_bind].
    destruct (host_and_port s pre host a path query Hs) as [-> ->]. rewrite Hx, Hquery. cbn [protocol_ host_ port_ default].
    exact (parse_tail s pre _ path query (mkUrl _ _ _ [] []) Hs ltac:(by destruct path)).
  - injection Htext as <-. rewrite app_nil_r in *. split; [intros Hnc|intros [_ Hnc]].
    + assert (Hp : no_char path colon /\ no_char query colon) by (apply dec_stable; tauto). destruct Hp as [Hp1 Hp2].
      assert (Hc : find s (length pre) colon = length s).
      { rewrite Hs, find_app, find_from_none; [by rewrite !length_app|].
        apply Forall_app_2; [done|]. apply Forall_app_2; [done|]. by constructor. }
      rewrite Hc, (bool_decide_eq_true_2 (length s = length s)) by done. cbn [mbind outcome_bind].
      assert (Hh : between s (length pre) (length pre + length host) = host) by (rewrite Hs; by apply between_app).
      rewrite Hh, Hquery. cbn [protocol_ host_ port_ default].
      exact (parse_tail s pre _ path query (mkUrl _ _ _ [] []) Hs ltac:(by destruct path)).
    + destruct (find_late_colon s pre host path query Hs Hhc Hnc) as [Hge Hlt].
      rewrite (bool_decide_eq_false_2 (find s (length pre) colon = length s)%nat) by lia.
      by rewrite (bool_decide_eq_false_2 (S (find s (length pre) colon) <= _)%nat) by lia.
Qed.

Lemma url_parse_print_witness :
  parse Url_ (str "HTTP://Example.org:8080/a/b?k=v:w") = Ok (mkUrl (str "http") (str "example.org") (Some 8080) (str "/a/b") (str "k=v:w")) /\
  parse Url_ (str "http://h/p?t=10:30") = Trap OutOfBounds.
Proof.
  split.
  - apply (url_parse_print (str "HTTP") (str "Example.org") (str "/a/b") (str "k=v:w") (str ":8080") (Some 8080)).
    + split_and!; try (by repeat constructor); done.
    + reflexivity.
    + by intros [? _].
  - apply (url_parse_print (str "http") (str "h") (str "/p") (str "t=10:30") [] None).
    + split_and!; try (by repeat constructor); done.
    + reflexivity.
    + split; [done|]. intros [_ Hq]. revert Hq. decide_vm.
Defined.

(** A port above 32767 becomes another one. *)
Example url_port_clamped :
  port_ <$> parse Url_ (str "http://h:40000/") = Ok (Some 32767).
Proof. reflexivity. Qed.
