(* ===== verification/HttpLib.v ===== *)
(** * The HTTP client library (deps/evhttpclient/evhttpclient.cpp)

    EvHttpClient with its connections, its requests and the connection pool, on
    top of the HTTP parser: every operation of the class and every callback it
    gives to the event loop and to the parser.  Objects live in maps by address
    and leave them when they are deleted, so that a use of a deleted object or a
    null pointer is a trap.

    The environment is a parameter: what socket() and connect() answer, the
    clock, the texts of strerror, the result of getaddrinfo, and the
    application, whose callbacks may make further requests while the parser that
    called them is still running. *)

From Stdlib Require Import SpecFloat.
From stdpp Require Import sorting.
From S2P Require Import Prelude Utils UrlSnprintf Event Proxy HttpParser HttpUrl.

(** ** Data *)

Inductive HeaderState : Set := HEADER_STATE_FIELD | HEADER_STATE_VALUE | HEADER_STATE_DONE.

Record timeval := mkTv { tv_sec : Z; tv_usec : Z }.

(** [parser] is [None] while http_parser_execute runs on it: its fields are then
    those of the run. *)
Record HttpConn := mkConn {
  fd : Z;
  request : option nat;
  requestBytesSent : Z;
  parser : option http_parser;
  headerState : HeaderState;
  headerField : bytes;
  headerValue : bytes;
  body : bytes;
  writeWatcher : bool;
  readWatcher : bool;
  messageBegun : bool;
  messageComplete : bool;
  responseSent : bool;
  isNew : bool }.

(** [cb] is a callback of the application, or null; [timer] says whether the
    timer is started. *)
Record RequestInfo := mkReq {
  rq_response : ResponseInfo;
  conn : option nat;
  cb : option nat;
  requestString : bytes;
  start : timeval;
  timer : bool;
  rq_data : nat }.

(** The client: its members, the heap of its connections and requests, how many
    answers and clock readings it has taken, and a record of what it did:
    descriptors opened and closed, requests accepted (by their data pointer), and
    callbacks made. *)
Record EvHttpClient := mkClient {
  conns : gmap nat HttpConn;
  reqs : gmap nat RequestInfo;
  connections : list nat;
  next : nat;
  timeout : spec_float;
  init_num_conns : Z;
  block_size : Z;
  url : Url;
  cl_data : nat;
  last_error : bytes;
  asks : nat;
  ticks : nat;
  opened : list Z;
  closed : list Z;
  accepted : list nat;
  called_back : list (nat * option ResponseInfo) }.

Definition set_request (k : HttpConn) (x : option nat) : HttpConn :=
  mkConn (fd k) x (requestBytesSent k) (parser k) (headerState k) (headerField k) (headerValue k) (body k) (writeWatcher k) (readWatcher k) (messageBegun k) (messageComplete k) (responseSent k) (isNew k).
Definition set_requestBytesSent (k : HttpConn) (x : Z) : HttpConn :=
  mkConn (fd k) (request k) x (parser k) (headerState k) (headerField k) (headerValue k) (body k) (writeWatcher k) (readWatcher k) (messageBegun k) (messageComplete k) (responseSent k) (isNew k).
Definition set_parser (k : HttpConn) (x : option http_parser) : HttpConn :=
  mkConn (fd k) (request k) (requestBytesSent k) x (headerState k) (headerField k) (headerValue k) (body k) (writeWatcher k) (readWatcher k) (messageBegun k) (messageComplete k) (responseSent k) (isNew k).
Definition set_headerState (k : HttpConn) (x : HeaderState) : HttpConn :=
  mkConn (fd k) (request k) (requestBytesSent k) (parser k) x (headerField k) (headerValue k) (body k) (writeWatcher k) (readWatcher k) (messageBegun k) (messageComplete k) (responseSent k) (isNew k).
Definition set_headerField (k : HttpConn) (x : bytes) : HttpConn :=
  mkConn (fd k) (request k) (requestBytesSent k) (parser k) (headerState k) x (headerValue k) (body k) (writeWatcher k) (readWatcher k) (messageBegun k) (messageComplete k) (responseSent k) (isNew k).
Definition set_headerValue (k : HttpConn) (x : bytes) : HttpConn :=
  mkConn (fd k) (request k) (requestBytesSent k) (parser k) (headerState k) (headerField k) x (body k) (writeWatcher k) (readWatcher k) (messageBegun k) (messageComplete k) (responseSent k) (isNew k).
Definition set_body (k : HttpConn) (x : bytes) : HttpConn :=
  mkConn (fd k) (request k) (requestBytesSent k) (parser k) (headerState k) (headerField k) (headerValue k) x (writeWatcher k) (readWatcher k) (messageBegun k) (messageComplete k) (responseSent k) (isNew k).
Definition set_writeWatcher (k : HttpConn) (x : bool) : HttpConn :=
  mkConn (fd k) (request k) (requestBytesSent k) (parser k) (headerState k) (headerField k) (headerValue k) (body k) x (readWatcher k) (messageBegun k) (messageComplete k) (responseSent k) (isNew k).
Definition set_readWatcher (k : HttpConn) (x : bool) : HttpConn :=
  mkConn (fd k) (request k) (requestBytesSent k) (parser k) (headerState k) (headerField k) (headerValue k) (body k) (writeWatcher k) x (messageBegun k) (messageComplete k) (responseSent k) (isNew k).
Definition set_messageBegun (k : HttpConn) (x : bool) : HttpConn :=
  mkConn (fd k) (request k) (requestBytesSent k) (parser k) (headerState k) (headerField k) (headerValue k) (body k) (writeWatcher k) (readWatcher k) x (messageComplete k) (responseSent k) (isNew k).
Definition set_messageComplete (k : HttpConn) (x : bool) : HttpConn :=
  mkConn (fd k) (request k) (requestBytesSent k) (parser k) (headerState k) (headerField k) (headerValue k) (body k) (writeWatcher k) (readWatcher k) (messageBegun k) x (responseSent k) (isNew k).
Definition set_responseSent (k : HttpConn) (x : bool) : HttpConn :=
  mkConn (fd k) (request k) (requestBytesSent k) (parser k) (headerState k) (headerField k) (headerValue k) (body k) (writeWatcher k) (readWatcher k) (messageBegun k) (messageComplete k) x (isNew k).
Definition set_rq_response (q : RequestInfo) (x : ResponseInfo) : RequestInfo :=
  mkReq x (conn q) (cb q) (requestString q) (start q) (timer q) (rq_data q).
Definition set_conn_ (q : RequestInfo) (x : option nat) : RequestInfo :=
  mkReq (rq_response q) x (cb q) (requestString q) (start q) (timer q) (rq_data q).
Definition set_start (q : RequestInfo) (x : timeval) : RequestInfo :=
  mkReq (rq_response q) (conn q) (cb q) (requestString q) x (timer q) (rq_data q).
Definition set_timer (q : RequestInfo) (x : bool) : RequestInfo :=
  mkReq (rq_response q) (conn q) (cb q) (requestString q) (start q) x (rq_data q).
Definition set_conns (s : EvHttpClient) (x : gmap nat HttpConn) : EvHttpClient :=
  mkClient x (reqs s) (connections s) (next s) (timeout s) (init_num_conns s) (block_size s) (url s) (cl_data s) (last_error s) (asks s) (ticks s) (opened s) (closed s) (accepted s) (called_back s).
Definition set_reqs (s : EvHttpClient) (x : gmap nat RequestInfo) : EvHttpClient :=
  mkClient (conns s) x (connections s) (next s) (timeout s) (init_num_conns s) (block_size s) (url s) (cl_data s) (last_error s) (asks s) (ticks s) (opened s) (closed s) (accepted s) (called_back s).
Definition set_connections (s : EvHttpClient) (x : list nat) : EvHttpClient :=
  mkClient (conns s) (reqs s) x (next s) (timeout s) (init_num_conns s) (block_size s) (url s) (cl_data s) (last_error s) (asks s) (ticks s) (opened s) (closed s) (accepted s) (called_back s).
Definition set_next (s : EvHttpClient) (x : nat) : EvHttpClient :=
  mkClient (conns s) (reqs s) (connections s) x (timeout s) (init_num_conns s) (block_size s) (url s) (cl_data s) (last_error s) (asks s) (ticks s) (opened s) (closed s) (accepted s) (called_back s).
Definition set_timeout (s : EvHttpClient) (x : spec_float) : EvHttpClient :=
  mkClient (conns s) (reqs s) (connections s) (next s) x (init_num_conns s) (block_size s) (url s) (cl_data s) (last_error s) (asks s) (ticks s) (opened s) (closed s) (accepted s) (called_back s).
Definition set_last_error (s : EvHttpClient) (x : bytes) : EvHttpClient :=
  mkClient (conns s) (reqs s) (connections s) (next s) (timeout s) (init_num_conns s) (block_size s) (url s) (cl_data s) x (asks s) (ticks s) (opened s) (closed s) (accepted s) (called_back s).
Definition set_asks (s : EvHttpClient) (x : nat) : EvHttpClient :=
  mkClient (conns s) (reqs s) (connections s) (next s) (timeout s) (init_num_conns s) (block_size s) (url s) (cl_data s) (last_error s) x (ticks s) (opened s) (closed s) (accepted s) (called_back s).
Definition set_ticks (s : EvHttpClient) (x : nat) : EvHttpClient :=
  mkClient (conns s) (reqs s) (connections s) (next s) (timeout s) (init_num_conns s) (block_size s) (url s) (cl_data s) (last_error s) (asks s) x (opened s) (closed s) (accepted s) (called_back s).
Definition set_opened (s : EvHttpClient) (x : list Z) : EvHttpClient :=
  mkClient (conns s) (reqs s) (connections s) (next s) (timeout s) (init_num_conns s) (block_size s) (url s) (cl_data s) (last_error s) (asks s) (ticks s) x (closed s) (accepted s) (called_back s).
Definition set_closed (s : EvHttpClient) (x : list Z) : EvHttpClient :=
  mkClient (conns s) (reqs s) (connections s) (next s) (timeout s) (init_num_conns s) (block_size s) (url s) (cl_data s) (last_error s) (asks s) (ticks s) (opened s) x (accepted s) (called_back s).
Definition set_accepted (s : EvHttpClient) (x : list nat) : EvHttpClient :=
  mkClient (conns s) (reqs s) (connections s) (next s) (timeout s) (init_num_conns s) (block_size s) (url s) (cl_data s) (last_error s) (asks s) (ticks s) (opened s) (closed s) x (called_back s).
Definition set_called_back (s : EvHttpClient) (x : list (nat * option ResponseInfo)) : EvHttpClient :=
  mkClient (conns s) (reqs s) (connections s) (next s) (timeout s) (init_num_conns s) (block_size s) (url s) (cl_data s) (last_error s) (asks s) (ticks s) (opened s) (closed s) (accepted s) x.

Definition set_conn (s : EvHttpClient) (c : nat) (k : HttpConn) : EvHttpClient := set_conns s (<[c := k]> (conns s)).
Definition set_req (s : EvHttpClient) (r : nat) (q : RequestInfo) : EvHttpClient := set_reqs s (<[r := q]> (reqs s)).

(** A pointer to a request that is followed. *)
Definition request_of (s : EvHttpClient) (p : option nat) : outcome (nat * RequestInfo) :=
  match p with
  | None => Trap NullDeref
  | Some r => q ← the (reqs s !! r); Ok (r, q)
  end.

(** ** The environment *)

(** What a socket() followed by a connect() gives; EINPROGRESS is a success. *)
Inductive conn_answer : Set :=
| SocketFailed (errno : Z)
| ConnectFailed (fd errno : Z)
| Connected (fd : Z).

(** What a callback of the application does with the client. *)
Inductive user_op : Type :=
| OpRequest (cb : option nat) (requestString : bytes) (data : nat)
| OpTimeout (seconds : spec_float).

(** [app f response data clientData]: what the callback [f] does. *)
Class World := {
  answer : nat -> conn_answer;
  gettimeofday : nat -> timeval;
  strerror : Z -> bytes;
  getaddrinfo : bytes -> bytes -> Z;
  app : nat -> option ResponseInfo -> nat -> nat -> list user_op }.

(** A [long] computation: overflow is undefined. *)
Definition as_long (z : Z) : outcome Z := guard_trap ((LLONG_MIN <=? z) && (z <=? LLONG_MAX)) Undefined (Ok z).

(** The difference in microseconds; both arguments are changed, of which only
    [start] outlives the call. *)
Definition difftime (end_ start : timeval) : outcome (Z * timeval) :=
  let start_usec := tv_usec start in
  let end_usec := tv_usec end_ in
  let end_ := if end_usec <? start_usec
              then mkTv (tv_sec end_ - 1) (1000000 - start_usec + end_usec)
              else mkTv (tv_sec end_) (end_usec - start_usec) in
  d ← as_long ((tv_sec end_ - tv_sec start) * 1000000 + tv_usec end_);
  Ok (d, mkTv (tv_sec start) 0).

(** [diff / 1000000.] *)
Definition latency_of (diff : Z) : spec_float := fdiv (of_Z diff 0) (of_Z 1000000 0).

Section Client.
Context `{World}.
Implicit Type s : EvHttpClient.

Definition clearLastError s : EvHttpClient := set_last_error s [].

(** ** Connections *)

(** [new HttpConn]; the watchers are set up by ev_io_init, not started. *)
Definition new_HttpConn (fd : Z) : HttpConn :=
  mkConn fd None 0 (Some (http_parser_init HTTP_RESPONSE)) HEADER_STATE_FIELD [] [] []
    false false false false false true.

(** On a failed connect() the descriptor stays open. *)
Definition createConn s : EvHttpClient * option nat :=
  let a := answer (asks s) in
  let s := set_asks s (S (asks s)) in
  match a with
  | SocketFailed e => (set_last_error s (str "socket() failed: " ++ strerror e), None)
  | ConnectFailed fd e =>
      (set_last_error (set_opened s (opened s ++ [fd])) (str "connect() failed: " ++ strerror e), None)
  | Connected fd =>
      let c := next s in
      (set_conn (set_next (set_opened s (opened s ++ [fd])) (S c)) c (new_HttpConn fd), Some c)
  end.

Definition destroyConn s (c : nat) : outcome EvHttpClient :=
  k ← the (conns s !! c);
  Ok (set_conns (set_closed s (closed s ++ [fd k])) (delete c (conns s))).

Definition resetState s (c : nat) : outcome EvHttpClient :=
  k ← the (conns s !! c);
  s ← match request k with
      | Some r => q ← the (reqs s !! r); Ok (set_reqs s (delete r (reqs s)))
      | None => Ok s
      end;
  Ok (set_conn s c (mkConn (fd k) None 0 (Some (http_parser_init HTTP_RESPONSE)) HEADER_STATE_FIELD [] [] []
        (writeWatcher k) (readWatcher k) false false false false)).

Definition getConn s : outcome (EvHttpClient * option nat) :=
  match connections s with
  | [] => Ok (createConn s)
  | c :: rest =>
      s ← resetState (set_connections s rest) c;
      Ok (s, Some c)
  end.

(** [size() < init_num_conns] compares the int as an unsigned number. *)
Definition returnConn s (c : nat) : outcome EvHttpClient :=
  k ← the (conns s !! c);
  let s := set_conn s c (set_readWatcher (set_writeWatcher k false) false) in
  if Z.of_nat (length (connections s)) <? u64 (init_num_conns s)
  then Ok (set_connections s (connections s ++ [c]))
  else destroyConn s c.

(** ** Requests *)

(** The overload for a request string.  The callback is stored as it is given,
    null or not; the timer is started for a positive timeout. *)
Definition makeRequest s (cb : option nat) (requestString : bytes) (data : nat) : outcome (Z * EvHttpClient) :=
  let s := clearLastError s in
  r ← getConn s;
  match r : EvHttpClient * option nat with
  | (s, None) => Ok (-1, s)
  | (s, Some c) =>
      let r := next s in
      let start := gettimeofday (ticks s) in
      let s := set_ticks (set_next s (S r)) (S (ticks s)) in
      let q := mkReq (mkRi false 0 zero ∅ []) (Some c) cb requestString start (flt zero (timeout s)) data in
      k ← the (conns s !! c);
      let s := set_conn s c (set_writeWatcher (set_request k (Some r)) true) in
      Ok (0, set_accepted (set_req s r q) (accepted s ++ [data]))
  end.

Definition setTimeout s (seconds : spec_float) : EvHttpClient := set_timeout (clearLastError s) seconds.

(** ** The application *)

Fixpoint user_ops s (ops : list user_op) : outcome EvHttpClient :=
  match ops with
  | [] => Ok s
  | OpRequest cb req data :: ops => r ← makeRequest s cb req data; user_ops (snd r) ops
  | OpTimeout seconds :: ops => user_ops (setTimeout s seconds) ops
  end.

(** [request->cb(response, request->data, client->data)]. *)
Definition call_cb s (q : RequestInfo) (response : option ResponseInfo) : outcome EvHttpClient :=
  match cb q with
  | None => Trap NullDeref
  | Some f =>
      user_ops (set_called_back s (called_back s ++ [(rq_data q, response)]))
        (app f response (rq_data q) (cl_data s))
  end.

(** [delete request->response; delete request]. *)
Definition delete_request s (r : nat) : outcome EvHttpClient :=
  q ← the (reqs s !! r);
  Ok (set_reqs s (delete r (reqs s))).

Definition finalizeTimeout s (r : nat) : outcome EvHttpClient :=
  q ← the (reqs s !! r);
  let tv := gettimeofday (ticks s) in
  let s := set_ticks s (S (ticks s)) in
  d ← difftime tv (start q);
  let ri := mkRi true 0 (latency_of (fst d)) (ri_headers (rq_response q)) (ri_response (rq_response q)) in
  let q := set_rq_response (set_start (set_timer q false) (snd d)) ri in
  s ← call_cb (set_req s r q) q (Some ri);
  delete_request s r.

Definition finalizeError s (r : nat) : outcome EvHttpClient :=
  q ← the (reqs s !! r);
  let q := set_timer q false in
  let s := set_req s r q in
  let s := match last_error s with [] => set_last_error s (str "unknown error") | _ => s end in
  s ← call_cb s q None;
  delete_request s r.

Definition retryRequest s (r : nat) : outcome EvHttpClient :=
  q ← the (reqs s !! r);
  s ← match conn q with
      | Some c => s ← destroyConn s c; Ok (set_req s r (set_conn_ q None))
      | None => Ok s
      end;
  g ← getConn s;
  match g : EvHttpClient * option nat with
  | (s, o) =>
      q ← the (reqs s !! r);
      let s := set_req s r (set_conn_ q o) in
      match o with
      | None => finalizeError s r
      | Some c =>
          k ← the (conns s !! c);
          Ok (set_conn s c (set_writeWatcher (set_request k (Some r)) true))
      end
  end.

(** A connection that failed under a request: an error if it is new, otherwise
    the request is tried again on another one. *)
Definition connection_failed s (c r : nat) (what : bytes) (errno : Z) : outcome EvHttpClient :=
  k ← the (conns s !! c);
  let s := if isNew k then set_last_error s (what ++ strerror errno) else s in
  s ← destroyConn s c;
  q ← the (reqs s !! r);
  let s := set_req s r (set_conn_ q None) in
  if isNew k then finalizeError s r else retryRequest s r.

(** ** Callbacks of the event loop *)

(** [sent] is what send() returns: the number of bytes, or an error. *)
Definition writeCb s (c : nat) (ev_error : bool) (sent : option Z) (errno : Z) : outcome EvHttpClient :=
  if ev_error then Ok (set_last_error s (str "got invalid write event: " ++ strerror errno)) else
  k ← the (conns s !! c);
  q ← request_of s (request k);
  match q : nat * RequestInfo with
  | (r, q) =>
      let size := Z.of_nat (length (requestString q)) in
      (* substr throws when it starts behind the end *)
      guard_trap (requestBytesSent k <=? size) Aborted
      (let sent := match sent with Some n => s32 n | None => -1 end in
       if sent <? 0 then connection_failed s c r (str "send() failed: ") errno else
       let n := requestBytesSent k + sent in
       let k := set_requestBytesSent k n in
       Ok (set_conn s c (if n =? size then set_readWatcher (set_writeWatcher k false) true else k)))
  end.

(** *** Callbacks of the parser of connection [c] *)

Definition messageBeginCb (c : nat) : http_cb EvHttpClient := fun _ s =>
  k ← the (conns s !! c);
  if messageBegun k then Ok (mkRes 1 false s) else
  match request k with
  | None => Ok (mkRes 1 false s)
  | Some _ => Ok (mkRes 0 false (set_conn s c (set_messageBegun k true)))
  end.

Definition flushHeaders s (c : nat) : outcome EvHttpClient :=
  k ← the (conns s !! c);
  q ← request_of s (request k);
  match q : nat * RequestInfo with
  | (r, q) =>
      let ri := rq_response q in
      let ri := mkRi (ri_timeout ri) (ri_code ri) (ri_latency ri)
                  (<[headerField k := headerValue k]> (ri_headers ri)) (ri_response ri) in
      Ok (set_conn (set_req s r (set_rq_response q ri)) c (set_headerValue (set_headerField k []) []))
  end.

Definition headerFieldCb (c : nat) : http_data_cb EvHttpClient := fun _ at_ s =>
  k ← the (conns s !! c);
  match headerState k with
  | HEADER_STATE_DONE => Ok (mkRes 1 false s)
  | hs =>
      s ← match hs with
          | HEADER_STATE_VALUE =>
              s ← flushHeaders s c;
              k ← the (conns s !! c);
              Ok (set_conn s c (set_headerState k HEADER_STATE_FIELD))
          | _ => Ok s
          end;
      k ← the (conns s !! c);
      Ok (mkRes 0 false (set_conn s c (set_headerField k (headerField k ++ at_))))
  end.

Definition headerValueCb (c : nat) : http_data_cb EvHttpClient := fun _ at_ s =>
  k ← the (conns s !! c);
  match headerState k with
  | HEADER_STATE_DONE => Ok (mkRes 1 false s)
  | _ => Ok (mkRes 0 false
           (set_conn s c (set_headerValue (set_headerState k HEADER_STATE_VALUE) (headerValue k ++ at_))))
  end.

Definition headersCompleteCb (c : nat) : http_cb EvHttpClient := fun _ s =>
  k ← the (conns s !! c);
  s ← flushHeaders (set_conn s c (set_headerState k HEADER_STATE_DONE)) c;
  Ok (mkRes 0 false s).

Definition bodyCb (c : nat) : http_data_cb EvHttpClient := fun _ at_ s =>
  k ← the (conns s !! c);
  Ok (mkRes 0 false (set_conn s c (set_body k (body k ++ at_)))).

(** The short [code] is assigned the unsigned short of the parser. *)
Definition messageCompleteCb (c : nat) : http_cb EvHttpClient := fun p s =>
  k ← the (conns s !! c);
  q ← request_of s (request k);
  match q : nat * RequestInfo with
  | (r, q) =>
      let s := set_conn s c (set_messageComplete k true) in
      let tv := gettimeofday (ticks s) in
      let s := set_ticks s (S (ticks s)) in
      d ← difftime tv (start q);
      let ri := mkRi false (swrap 16 (status_code p)) (latency_of (fst d)) (ri_headers (rq_response q)) (body k) in
      let q := set_rq_response (set_start (set_timer q false) (snd d)) ri in
      s ← call_cb (set_req s r q) q (Some ri);
      k ← the (conns s !! c);
      let k := set_responseSent k true in
      q ← request_of s (request k);
      s ← delete_request s (fst q);
      Ok (mkRes 0 false (set_conn s c (set_request k None)))
  end.

Definition parser_settings (c : nat) : http_parser_settings EvHttpClient :=
  mkSettings (Some (messageBeginCb c)) None (Some (headerFieldCb c)) (Some (headerValueCb c))
    (Some (headersCompleteCb c)) (Some (bodyCb c)) (Some (messageCompleteCb c)).

(** http_parser_execute on the parser of connection [c]. *)
Definition run_parser s (c : nat) (data : bytes) : outcome EvHttpClient :=
  k ← the (conns s !! c);
  match parser k with
  | None => Trap Undefined
  | Some p =>
      e ← http_parser_execute (parser_settings c) data p (set_conn s c (set_parser k None));
      match e : Z * http_parser * EvHttpClient with
      | (_, p, s) => k ← the (conns s !! c); Ok (set_conn s c (set_parser k (Some p)))
      end
  end.

(** [received] is what recv() stores in the buffer of [block_size] bytes
    (nothing: the peer has closed), or an error.  The byte behind the data is
    set to 0. *)
Definition readCb s (c : nat) (ev_error : bool) (received : option bytes) (errno : Z) : outcome EvHttpClient :=
  if ev_error then Ok (set_last_error s (str "got invalid read event: " ++ strerror errno)) else
  k ← the (conns s !! c);
  match received with
  | None | Some [] =>
      q ← request_of s (request k);
      connection_failed s c (fst q) (str "recv() failed: ") errno
  | Some data =>
      guard_trap (Z.of_nat (length data) <? block_size s) OutOfBounds
      (s ← run_parser s c data;
       k ← the (conns s !! c);
       if messageComplete k then returnConn s c else Ok s)
  end.

(** The timer has fired, so it is no longer active. *)
Definition timeoutCb s (r : nat) : outcome EvHttpClient :=
  q ← the (reqs s !! r);
  let q := set_timer q false in
  s ← match conn q with
      | Some c =>
          k ← the (conns s !! c);
          match parser k with
          | None => Trap Undefined
          | Some p =>
              p ← http_parser_pause p true;
              let s := set_conn s c (set_parser (set_readWatcher (set_writeWatcher k false) false) (Some p)) in
              s ← destroyConn s c;
              Ok (set_req s r (set_conn_ q None))
          end
      | None => Ok (set_req s r q)
      end;
  finalizeTimeout s r.

(** ** The client *)

(** [for (i = 0; i < init_num_conns; ++i)], until a connection fails. *)
Fixpoint initConnPool (n : nat) s : EvHttpClient :=
  match n with
  | O => s
  | S n =>
      match createConn s with
      | (s, None) => s
      | (s, Some c) => initConnPool n (set_connections s (connections s ++ [c]))
      end
  end.

Definition new_EvHttpClient (urlstring : bytes) (timeout : spec_float) (data : nat) (init_num_conns block_size : Z)
  : outcome EvHttpClient :=
  u ← parse Url_ urlstring;
  Ok (mkClient ∅ ∅ [] 0 timeout init_num_conns block_size u data [] 0 0 [] [] [] []).

(** An uninitialised [port_] is an undefined read. *)
Definition url_port (u : Url) : outcome Z := match port_ u with Some v => Ok v | None => Trap Undefined end.

(** Only a negative result of getaddrinfo is taken for an error; [info] is null
    for a positive one. *)
Definition init s : outcome (Z * EvHttpClient) :=
  let s := clearLastError s in
  port ← url_port (url s);
  service ← ll_text port;
  let err := getaddrinfo (host_ (url s)) service in
  if err <? 0 then
    Ok (-1, set_last_error s (str "Error: couldn't resolve host name. host:" ++ host_ (url s)
              ++ str ", port:" ++ service ++ [10]))
  else guard_trap (err =? 0) NullDeref (Ok (0, initConnPool (Z.to_nat (init_num_conns s)) s)).

(** The destructor empties the pool; connections in use are not closed. *)
Fixpoint destroy_all s (cs : list nat) : outcome EvHttpClient :=
  match cs with
  | [] => Ok s
  | c :: cs => s ← destroyConn (set_connections s cs) c; destroy_all s cs
  end.
Definition delete_EvHttpClient s : outcome EvHttpClient := destroy_all s (connections s).

(** ** Building requests *)

(** [operator<] of std::string. *)
Fixpoint string_le (a b : bytes) : bool :=
  match a, b with
  | [], _ => true
  | _, [] => false
  | x :: a, y :: b => if x <? y then true else if y <? x then false else string_le a b
  end.

Definition key_le (a b : bytes * bytes) : Prop := string_le (fst a) (fst b) = true.
#[export] Instance key_le_dec a b : Decision (key_le a b).
Proof. unfold key_le. apply _. Defined.

(** The entries of a std::map, in the order of its iterators. *)
Definition map_entries (m : gmap bytes bytes) : list (bytes * bytes) := merge_sort key_le (map_to_list m).

Definition header_line (h : bytes * bytes) : bytes := fst h ++ str ": " ++ snd h ++ [13; 10].

Definition buildRequest s (path method : bytes) (headers : gmap bytes bytes) (body : bytes) : outcome bytes :=
  let realMethod := toupper <$> method in
  let realPath := match path with [] => path_ (url s) ++ str "?" ++ query_ (url s) | _ => path end in
  host ← match headers !! str "Host" with
         | Some _ => Ok []
         | None =>
             port ← url_port (url s);
             ptext ← (if negb (port =? 80) && negb (port =? 443) then t ← ll_text port; Ok (str ":" ++ t) else Ok []);
             Ok (str "Host: " ++ host_ (url s) ++ ptext ++ [13; 10])
         end;
  len ← match body, headers !! str "Content-Length" with
        | _ :: _, None => t ← ll_text (Z.of_nat (length body)); Ok (header_line (str "Content-Length", t))
        | _, _ => Ok []
        end;
  Ok (realMethod ++ str " " ++ realPath ++ str " HTTP/1.1" ++ [13; 10]
      ++ concat (header_line <$> map_entries headers) ++ host ++ len ++ [13; 10] ++ body).

(** The overload for a path, a method, headers and a body. *)
Definition makeRequest_parts s (cb : option nat) (path method : bytes) (headers : gmap bytes bytes) (body : bytes)
    (data : nat) : outcome (Z * EvHttpClient) :=
  request ← buildRequest s path method headers body;
  makeRequest s cb request data.

Definition makeGet s cb path headers data := makeRequest_parts s cb path (str "GET") headers [] data.
Definition makePost s cb path headers body data := makeRequest_parts s cb path (str "POST") headers body data.
Definition makePut s cb path headers body data := makeRequest_parts s cb path (str "PUT") headers body data.
Definition makeDelete s cb path headers body data := makeRequest_parts s cb path (str "DELETE") headers body data.

End Client.
