(* ===== verification/HttpPool.v ===== *)
(** * The invariant of the HTTP client library

    Which connections and requests exist, how they point to each other, and that
    every accepted request is either called back or still there.  While an
    operation runs some objects are exceptions: requests without a connection
    ([os]), connections that are neither in the pool nor serve a request ([ls]),
    and requests whose callback is made but that are not deleted yet ([es]). *)

From Stdlib Require Import SpecFloat.
From S2P Require Import Prelude Utils UrlSnprintf Event Proxy HttpParser HttpFacts HttpUrl HttpLib.

(** The data pointers of the requests that exist. *)
Definition live (rs : gmap nat RequestInfo) : list nat := (fun x => rq_data (snd x)) <$> map_to_list rs.

Lemma live_insert_new rs r q : rs !! r = None -> live (<[r := q]> rs) ≡ₚ rq_data q :: live rs.
Proof. intros Hr. unfold live. rewrite map_to_list_insert by done. done. Qed.

Lemma live_delete rs r q : rs !! r = Some q -> live rs ≡ₚ rq_data q :: live (delete r rs).
Proof. intros Hr. rewrite <-live_insert_new by apply lookup_delete_eq. by rewrite insert_delete_id. Qed.

Lemma live_insert_same rs r q q' : rs !! r = Some q -> rq_data q' = rq_data q -> live (<[r := q']> rs) ≡ₚ live rs.
Proof.
  intros Hr Hd. rewrite (live_delete rs r q Hr), <-insert_delete_eq, live_insert_new by apply lookup_delete_eq.
  by rewrite Hd.
Qed.

(** A connection that serves a request. *)
Definition serves (rs : gmap nat RequestInfo) (c : nat) (k : HttpConn) (r : nat) : Prop :=
  request k = Some r /\
  exists q, rs !! r = Some q /\ conn q = Some c /\
    0 <= requestBytesSent k <= Z.of_nat (length (requestString q)).

(** Its parser works or has stopped with an error, and one of its watchers is
    started. *)
Definition working (k : HttpConn) : Prop :=
  messageComplete k = false /\ writeWatcher k = negb (readWatcher k) /\
  exists p, parser k = Some p /\ (http_errno p = HPE_OK -> parser_ok p).

(** A clock reading within the 34,000 years from 1970. *)
Definition in_time (t : timeval) : Prop := 0 <= tv_sec t < 2 ^ 40 /\ 0 <= tv_usec t < 1000000.

Definition req_ok (q : RequestInfo) : Prop := cb q <> None /\ in_time (start q).

Definition idle (k : HttpConn) : Prop := request k = None /\ writeWatcher k = false /\ readWatcher k = false.

Record heap_inv (cs : gmap nat HttpConn) (rs : gmap nat RequestInfo) (pool : list nat) (n : nat)
    (acc : list nat) (cbs : list (nat * option ResponseInfo)) (os ls es : list nat) : Prop := {
  hi_conn_addr c k : cs !! c = Some k -> (c < n)%nat;
  hi_req_addr r q : rs !! r = Some q -> (r < n)%nat;
  hi_pool : NoDup pool;
  hi_pooled c : c ∈ pool -> exists k, cs !! c = Some k /\ idle k;
  hi_loose c : c ∈ ls -> c ∉ pool;
  hi_loose_addr c : c ∈ ls -> (c < n)%nat;
  hi_conn c k : cs !! c = Some k -> c ∈ pool \/ c ∈ ls \/ exists r, serves rs c k r /\ working k;
  hi_req_ok r q : rs !! r = Some q -> req_ok q;
  hi_req r q : rs !! r = Some q ->
    r ∈ os \/ exists c k, conn q = Some c /\ cs !! c = Some k /\ request k = Some r;
  hi_log : acc ++ es ≡ₚ (fst <$> cbs) ++ live rs }.

Definition cinv (s : EvHttpClient) (os ls es : list nat) : Prop :=
  heap_inv (conns s) (reqs s) (connections s) (next s) (accepted s) (called_back s) os ls es.

(** What the application can do to a client leaves the objects in use alone. *)
Record frame (s s' : EvHttpClient) : Prop := {
  fr_req r q : reqs s !! r = Some q -> reqs s' !! r = Some q;
  fr_conn c k : conns s !! c = Some k -> c ∉ connections s -> conns s' !! c = Some k /\ c ∉ connections s';
  fr_called : called_back s' = called_back s;
  fr_accepted : exists ds, accepted s' = accepted s ++ ds;
  fr_const : block_size s' = block_size s /\ init_num_conns s' = init_num_conns s /\ url s' = url s /\ cl_data s' = cl_data s }.

(** What no event changes. *)
Definition konst (s : EvHttpClient) : Z * Url := (block_size s, url s).

Lemma frame_konst s s' : frame s s' -> konst s' = konst s.
Proof. intros [_ _ _ _ (E1 & _ & E2 & _)]. unfold konst. congruence. Qed.

Lemma frame_refl s : frame s s.
Proof. split; eauto. exists []. by rewrite app_nil_r. Qed.

Lemma frame_trans s1 s2 s3 : frame s1 s2 -> frame s2 s3 -> frame s1 s3.
Proof.
  intros [R1 C1 B1 (d1 & A1) K1] [R2 C2 B2 (d2 & A2) K2]. split; [eauto| |congruence| |].
  - intros c k Hc Hp. destruct (C1 c k Hc Hp). by apply C2.
  - exists (d1 ++ d2). by rewrite A2, A1, app_assoc.
  - destruct K1 as (?&?&?&?), K2 as (?&?&?&?). split_and!; congruence.
Qed.

(** The objects of two clients are the same. *)
Definition same_heap (s s' : EvHttpClient) : Prop :=
  conns s' = conns s /\ reqs s' = reqs s /\ connections s' = connections s /\ called_back s' = called_back s /\
  accepted s' = accepted s /\ block_size s' = block_size s /\ init_num_conns s' = init_num_conns s /\ url s' = url s /\
  cl_data s' = cl_data s.

Lemma frame_same s s' : same_heap s s' -> frame s s'.
Proof.
  intros (Hc & Hr & Hp & Hb & Ha & ? & ? & ? & ?). split; rewrite ?Hc, ?Hr, ?Hp; auto.
  exists []. by rewrite Ha, app_nil_r.
Qed.

(** ** Changes of the heap *)

Section Heap.
Context {cs : gmap nat HttpConn} {rs : gmap nat RequestInfo} {pool : list nat} {n : nat}.
Context {acc : list nat} {cbs : list (nat * option ResponseInfo)} {os ls es : list nat}.
Context (Hi : heap_inv cs rs pool n acc cbs os ls es).

(** More exceptions. *)
Lemma inv_loosen_req r q : rs !! r = Some q -> heap_inv cs rs pool n acc cbs (r :: os) ls es.
Proof.
  intros Hr. destruct Hi as [H1 H2 H3 H4 H5 H5' H6 H7 H8 H9]. split; try done.
  intros r' q' Hr'. rewrite elem_of_cons. naive_solver.
Qed.

Lemma inv_loosen_conn c k : cs !! c = Some k -> c ∉ pool -> heap_inv cs rs pool n acc cbs os (c :: ls) es.
Proof.
  intros Hc Hp. destruct Hi as [H1 H2 H3 H4 H5 H5' H6 H7 H8 H9]. split; try done.
  - intros c' [->|?]%elem_of_cons; auto.
  - intros c' [->|?]%elem_of_cons; eauto.
  - intros c' k' Hc'. rewrite elem_of_cons. naive_solver.
Qed.

Lemma inv_loosen c k r q : cs !! c = Some k -> c ∉ pool -> rs !! r = Some q ->
  heap_inv cs rs pool n acc cbs (r :: os) (c :: ls) es.
Proof.
  intros Hc Hp Hr. pose proof (inv_loosen_conn c k Hc Hp) as [H1 H2 H3 H4 H5 H5' H6 H7 H8 H9]. split; try done.
  intros r' q' Hr'. rewrite elem_of_cons. naive_solver.
Qed.

(** An exception that is none any more. *)
Lemma inv_attach c k r q os' ls' :
  os = r :: os' -> ls = c :: ls' -> cs !! c = Some k -> rs !! r = Some q ->
  serves rs c k r -> working k -> heap_inv cs rs pool n acc cbs os' ls' es.
Proof.
  intros -> -> Hc Hr Hs Hw. destruct Hi as [H1 H2 H3 H4 H5 H5' H6 H7 H8 H9]. split; try done.
  - intros c' ?. apply H5. set_solver.
  - intros c' ?. apply H5'. set_solver.
  - intros c' k' Hc'. destruct (H6 c' k' Hc') as [?|[[->|?]%elem_of_cons|?]]; auto.
    assert (k' = k) by congruence. subst. eauto.
  - intros r' q' Hr'. destruct (H8 r' q' Hr') as [[->|?]%elem_of_cons|?]; auto.
    right. destruct Hs as (? & q2 & ? & ? & _). exists c, k. split_and!; congruence.
Qed.

(** A connection among the exceptions is changed. *)
Lemma inv_set_loose c k : c ∈ ls -> (c < n)%nat ->
  (forall r q, rs !! r = Some q -> conn q = Some c -> r ∈ os \/ request k = Some r) ->
  heap_inv (<[c := k]> cs) rs pool n acc cbs os ls es.
Proof.
  intros Hl Hn Hreq. destruct Hi as [H1 H2 H3 H4 H5 H5' H6 H7 H8 H9]. split; try done.
  - intros c' k' [[<- <-]|[? ?]]%lookup_insert_Some; eauto.
  - intros c' Hp. destruct (H4 c' Hp) as (k' & Hk & Hi'). exists k'.
    rewrite lookup_insert_ne; [done|]. intros ->. by apply (H5 c' Hl).
  - intros c' k' [[<- <-]|[? ?]]%lookup_insert_Some; eauto.
  - intros r q Hr. destruct (H8 r q Hr) as [?|(c' & k' & Hq & Hk & Hrk)]; auto.
    destruct (decide (c' = c)) as [->|Hne].
    + destruct (Hreq r q Hr Hq) as [?|?]; [by left|]. right. exists c, k. by rewrite lookup_insert_eq.
    + right. exists c', k'. by rewrite lookup_insert_ne.
Qed.

Lemma inv_new_conn k : idle k -> heap_inv (<[n := k]> cs) rs pool (S n) acc cbs os (n :: ls) es.
Proof.
  intros Hk. destruct Hi as [H1 H2 H3 H4 H5 H5' H6 H7 H8 H9].
  assert (Hn : cs !! n = None) by (destruct (cs !! n) eqn:E; [by apply H1 in E; lia|done]).
  split; try done.
  - intros c' k' [[<- <-]|[? ?]]%lookup_insert_Some; [lia|]. by eapply Nat.lt_lt_succ_r, H1.
  - intros r q Hr. apply H2 in Hr. lia.
  - intros c Hc. destruct (H4 c Hc) as (k' & Hk' & ?). exists k'. rewrite lookup_insert_ne; [done|]. congruence.
  - intros c [->|Hc]%elem_of_cons; [|auto]. intros Hp. destruct (H4 n Hp) as (? & ? & _). congruence.
  - intros c [->|Hc%H5']%elem_of_cons; lia.
  - intros c' k' [[<- <-]|[? ?]]%lookup_insert_Some; [right; left; set_solver|].
    destruct (H6 c' k') as [?|[?|?]]; auto. right. left. set_solver.
  - intros r q Hr. destruct (H8 r q Hr) as [?|(c & k' & ? & ? & ?)]; [auto|]. right. exists c, k'.
    rewrite lookup_insert_ne; [done|]. congruence.
Qed.

(** The first connection of the pool is taken out of it, and given back. *)
Lemma inv_pop c pool' : pool = c :: pool' -> heap_inv cs rs pool' n acc cbs os (c :: ls) es.
Proof.
  intros ->. destruct Hi as [H1 H2 H3 H4 H5 H5' H6 H7 H8 H9]. apply NoDup_cons in H3 as [Hc Hnd]. split; try done.
  - intros c' ?. apply H4. set_solver.
  - intros c' [->|Hl]%elem_of_cons; [done|]. intros ?. apply (H5 c' Hl). set_solver.
  - intros c' [->|Hl]%elem_of_cons; [|auto]. destruct (H4 c) as (k & Hk & _); [set_solver|eauto].
  - intros c' k' Hk'. destruct (H6 c' k' Hk') as [[->|?]%elem_of_cons|[?|?]]; auto; right; left; set_solver.
Qed.

Lemma inv_push c k ls' : ls = c :: ls' -> c ∉ ls' -> cs !! c = Some k -> idle k ->
  heap_inv cs rs (pool ++ [c]) n acc cbs os ls' es.
Proof.
  intros -> Hc Hk Hid. destruct Hi as [H1 H2 H3 H4 H5 H5' H6 H7 H8 H9]. split; try done.
  - apply NoDup_app. split_and!; [done| |apply NoDup_singleton].
    intros x Hx ->%list_elem_of_singleton. by apply (H5 c ltac:(set_solver)).
  - intros c' [Hp| ->%list_elem_of_singleton]%elem_of_app; eauto.
  - intros c' Hl [Hp| ->%list_elem_of_singleton]%elem_of_app; [|done]. apply (H5 c' ltac:(set_solver) Hp).
  - intros c' ?. apply H5'. set_solver.
  - intros c' k' Hk'. rewrite elem_of_app. destruct (H6 c' k' Hk') as [?|[[->|?]%elem_of_cons|?]]; auto.
    left. right. set_solver.
Qed.

Lemma inv_delete_conn c ls' : ls = c :: ls' -> c ∉ ls' ->
  (forall r q, rs !! r = Some q -> conn q = Some c -> r ∈ os) ->
  heap_inv (delete c cs) rs pool n acc cbs os ls' es.
Proof.
  intros -> Hl Hreq. destruct Hi as [H1 H2 H3 H4 H5 H5' H6 H7 H8 H9]. split; try done.
  - intros c' k' [? ?]%lookup_delete_Some; eauto.
  - intros c' Hp. destruct (H4 c' Hp) as (k' & Hk & ?). exists k'. rewrite lookup_delete_ne; [done|].
    intros ->. apply (H5 c' ltac:(set_solver) Hp).
  - intros c' ?. apply H5. set_solver.
  - intros c' ?. apply H5'. set_solver.
  - intros c' k' [Hne Hk]%lookup_delete_Some. destruct (H6 c' k' Hk) as [?|[[->|?]%elem_of_cons|?]]; auto. done.
  - intros r q Hr. destruct (H8 r q Hr) as [?|(c' & k' & Hq & Hk & Hrk)]; auto.
    destruct (decide (c' = c)) as [->|Hne]; [eauto|]. right. exists c', k'. by rewrite lookup_delete_ne.
Qed.

(** A request is changed in place. *)
Lemma inv_set_req r q q' : rs !! r = Some q ->
  conn q' = conn q -> req_ok q' -> requestString q' = requestString q -> rq_data q' = rq_data q ->
  heap_inv cs (<[r := q']> rs) pool n acc cbs os ls es.
Proof.
  intros Hr Ec Eb Es Ed. destruct Hi as [H1 H2 H3 H4 H5 H5' H6 H7 H8 H9]. split; try done.
  - intros r' q2 [[<- <-]|[? ?]]%lookup_insert_Some; eauto.
  - intros c k Hk. destruct (H6 c k Hk) as [?|[?|(r' & (Hrk & q2 & Hq2 & Hc & Hb) & Hw)]]; auto.
    right. right. exists r'. split; [|done]. split; [done|].
    destruct (decide (r' = r)) as [->|Hne].
    + exists q'. rewrite lookup_insert_eq. assert (q2 = q) by congruence. subst. by rewrite Ec, Es.
    + exists q2. by rewrite lookup_insert_ne.
  - intros r' q2 [[<- <-]|[? ?]]%lookup_insert_Some; eauto.
  - intros r' q2 [[<- <-]|[? ?]]%lookup_insert_Some; [rewrite Ec|]; eauto.
  - rewrite H9, (live_insert_same _ _ q); [done..|congruence].
Qed.

(** A request among the exceptions gets another connection pointer. *)
Lemma inv_set_conn r q o : r ∈ os -> rs !! r = Some q ->
  (forall c k, cs !! c = Some k -> request k = Some r -> c ∈ ls \/ c ∈ pool) ->
  heap_inv cs (<[r := set_conn_ q o]> rs) pool n acc cbs os ls es.
Proof.
  intros Ho Hr Hfree. destruct Hi as [H1 H2 H3 H4 H5 H5' H6 H7 H8 H9]. split; try done.
  - intros r' q2 [[<- <-]|[? ?]]%lookup_insert_Some; eauto.
  - intros c k Hk. destruct (H6 c k Hk) as [?|[?|(r' & (Hrk & q2 & Hq2 & Hc & Hb) & Hw)]]; auto.
    destruct (decide (r' = r)) as [->|Hne]; [destruct (Hfree c k Hk Hrk); auto|].
    right. right. exists r'. split; [|done]. split; [done|]. exists q2. by rewrite lookup_insert_ne.
  - intros r' q2 [[<- <-]|[? ?]]%lookup_insert_Some; [by apply (H7 r q)|eauto].
  - intros r' q2 [[<- <-]|[? ?]]%lookup_insert_Some; eauto.
  - rewrite H9, (live_insert_same _ _ q); done.
Qed.

Lemma inv_new_req q : req_ok q -> heap_inv cs (<[n := q]> rs) pool (S n) (acc ++ [rq_data q]) cbs (n :: os) ls es.
Proof.
  intros Hq. destruct Hi as [H1 H2 H3 H4 H5 H5' H6 H7 H8 H9].
  assert (Hn : rs !! n = None) by (destruct (rs !! n) eqn:E; [by apply H2 in E; lia|done]).
  split; try done.
  - intros c k Hk. apply H1 in Hk. lia.
  - intros r' q' [[<- <-]|[? ?]]%lookup_insert_Some; [lia|]. by eapply Nat.lt_lt_succ_r, H2.
  - intros c ?%H5'. lia.
  - intros c k Hk. destruct (H6 c k Hk) as [?|[?|(r' & (Hrk & q2 & Hq2 & ?) & Hw)]]; auto.
    right. right. exists r'. split; [|done]. split; [done|]. exists q2. rewrite lookup_insert_ne; [done|]. congruence.
  - intros r' q' [[<- <-]|[? ?]]%lookup_insert_Some; [done|eauto].
  - intros r' q' [[<- <-]|[? ?]]%lookup_insert_Some; [left; set_solver|].
    destruct (H8 r' q') as [?|?]; auto. left. set_solver.
  - rewrite live_insert_new by done. transitivity (rq_data q :: acc ++ es); [by rewrite <-app_assoc, Permutation_middle|].
    rewrite H9. apply Permutation_middle.
Qed.

Lemma inv_delete_req r q os' d es' : os = r :: os' -> r ∉ os' -> es = d :: es' -> rs !! r = Some q -> rq_data q = d ->
  (forall c k, cs !! c = Some k -> request k = Some r -> c ∈ ls \/ c ∈ pool) ->
  heap_inv cs (delete r rs) pool n acc cbs os' ls es'.
Proof.
  intros -> Ho -> Hr Hd Hfree. destruct Hi as [H1 H2 H3 H4 H5 H5' H6 H7 H8 H9]. split; try done.
  - intros r' q' [? ?]%lookup_delete_Some; eauto.
  - intros c k Hk. destruct (H6 c k Hk) as [?|[?|(r' & (Hrk & q2 & Hq2 & ?) & Hw)]]; auto.
    destruct (decide (r' = r)) as [->|Hne]; [destruct (Hfree c k Hk Hrk); auto|].
    right. right. exists r'. split; [|done]. split; [done|]. exists q2. by rewrite lookup_delete_ne.
  - intros r' q' [? ?]%lookup_delete_Some; eauto.
  - intros r' q' [Hne Hq]%lookup_delete_Some. destruct (H8 r' q' Hq) as [[->|?]%elem_of_cons|?]; auto. done.
  - rewrite (live_delete _ _ _ Hr), Hd in H9. apply (Permutation_cons_inv (a := d)).
    by rewrite !Permutation_middle.
Qed.

(** A callback is made. *)
Lemma inv_call d ri : heap_inv cs rs pool n acc (cbs ++ [(d, ri)]) os ls (d :: es).
Proof.
  destruct Hi as [H1 H2 H3 H4 H5 H5' H6 H7 H8 H9]. split; try done.
  transitivity (d :: acc ++ es); [by rewrite Permutation_middle|].
  rewrite H9, fmap_app, <-app_assoc. apply Permutation_middle.
Qed.

End Heap.

(** No request outside [os] points to a connection without a request. *)
Lemma unserved_free cs rs pool n acc cbs os ls es c k r q :
  heap_inv cs rs pool n acc cbs os ls es -> cs !! c = Some k -> request k = None ->
  rs !! r = Some q -> conn q = Some c -> r ∈ os.
Proof.
  intros Hi Hc Hk Hr Hq. destruct (hi_req _ _ _ _ _ _ _ _ _ Hi r q Hr) as [?|(c' & k' & Hc' & Hk' & Hrk)]; [done|].
  assert (c' = c) by congruence. subst. congruence.
Qed.

(** A request that is being finished: only an exception serves it. *)
Lemma served_by cs rs pool n acc cbs os ls es r q c k :
  heap_inv cs rs pool n acc cbs os ls es -> rs !! r = Some q ->
  (forall c0, conn q = Some c0 -> c0 ∈ ls) -> cs !! c = Some k -> request k = Some r -> c ∈ ls \/ c ∈ pool.
Proof.
  intros Hi Hr Hq Hc Hk.
  destruct (hi_conn _ _ _ _ _ _ _ _ _ Hi c k Hc) as [?|[?|(r' & (Hrk & q' & Hr' & Hcq & _) & _)]]; auto.
  left. apply Hq. congruence.
Qed.

(** Only one request points to a connection that serves one. *)
Lemma serves_only cs rs pool n acc cbs os ls es c k r r' q' :
  heap_inv cs rs pool n acc cbs os ls es -> cs !! c = Some k -> request k = Some r ->
  rs !! r' = Some q' -> conn q' = Some c -> r' ∈ r :: os.
Proof.
  intros Hi Hc Hk Hr Hq. destruct (hi_req _ _ _ _ _ _ _ _ _ Hi r' q' Hr) as [?|(c' & k' & Hc' & Hk' & Hrk)]; [set_solver|].
  assert (c' = c) by congruence. subst. assert (r' = r) by congruence. subst. set_solver.
Qed.
