(* ===== verification/HttpOps.v ===== *)
(** * The operations of the HTTP client library keep its invariant

    Each operation is shown to return, given the invariant with the exceptions
    that hold where it is called, and to restore the invariant. *)

From Stdlib Require Import SpecFloat.
From S2P Require Import Prelude Utils UrlSnprintf Event Proxy HttpParser HttpFacts HttpUrl HttpLib HttpPool.

(** Reduce the fields of a changed client, connection or request. *)
Ltac lib_cbn :=
  cbn [set_conn set_req set_conns set_reqs set_connections set_next set_timeout set_last_error set_asks set_ticks
       set_opened set_closed set_accepted set_called_back clearLastError
       conns reqs connections next timeout init_num_conns block_size url cl_data last_error asks ticks opened closed
       accepted called_back
       set_request set_requestBytesSent set_parser set_headerState set_headerField set_headerValue set_body
       set_writeWatcher set_readWatcher set_messageBegun set_messageComplete set_responseSent
       fd request requestBytesSent parser headerState headerField headerValue body writeWatcher readWatcher
       messageBegun messageComplete responseSent isNew
       set_rq_response set_conn_ set_timer set_start rq_response conn cb requestString start timer rq_data
       mbind outcome_bind the fst snd] in *.

(** A connection that nothing was done with yet. *)
Definition fresh_conn (fd : Z) (new : bool) : HttpConn :=
  mkConn fd None 0 (Some (http_parser_init HTTP_RESPONSE)) HEADER_STATE_FIELD [] [] [] false false false false false new.

Definition is_fresh (k : HttpConn) : Prop := exists f b, k = fresh_conn f b.

Section Ops.
Context `{World}.
Implicit Type s : EvHttpClient.

(** What is assumed of the environment: the clock shows a date, and the
    callbacks of the application make requests with callbacks. *)
Record world_ok : Prop := {
  wo_clock n : in_time (gettimeofday n);
  wo_app f ri d cd cb0 req d' : OpRequest cb0 req d' ∈ app f ri d cd -> cb0 <> None }.

Context (Hworld : world_ok).

Lemma fresh_idle f b : idle (fresh_conn f b).
Proof. done. Qed.

(** What taking a connection gives. *)
Definition conn_taken s (os ls es : list nat) s' (o : option nat) : Prop :=
  frame s s' /\ reqs s' = reqs s /\ accepted s' = accepted s /\ ticks s' = ticks s /\
  match o with
  | None => cinv s' os ls es
  | Some c => cinv s' os (c :: ls) es /\ (c ∉ ls) /\ (conns s !! c = None \/ c ∈ connections s) /\
      exists k, conns s' !! c = Some k /\ is_fresh k
  end.

Lemma createConn_ok s os ls es s' o : cinv s os ls es -> createConn s = (s', o) -> conn_taken s os ls es s' o.
Proof.
  intros Hi He. unfold createConn in He. unfold conn_taken.
  assert (Hfr : forall cs n op er, (forall c k, conns s !! c = Some k -> cs !! c = Some k) ->
     frame s (mkClient cs (reqs s) (connections s) n (timeout s) (init_num_conns s) (block_size s) (url s) (cl_data s)
              er (S (asks s)) (ticks s) op (closed s) (accepted s) (called_back s))).
  { intros cs n op er Hcs. split; lib_cbn; auto. exists []. by rewrite app_nil_r. }
  destruct (answer (asks s)) as [e|f e|f]; injection He as <- <-.
  - split; [apply Hfr; auto|]. done.
  - split; [apply Hfr; auto|]. done.
  - assert (Hnew : conns s !! next s = None).
    { destruct (conns s !! next s) as [k|] eqn:E; [|done].
      pose proof (hi_conn_addr _ _ _ _ _ _ _ _ _ Hi _ _ E). lia. }
    split; [apply Hfr; intros c k ?; rewrite lookup_insert_ne; [done|congruence]|]. split_and!; try done.
    + exact (inv_new_conn Hi (fresh_conn f true) (fresh_idle f true)).
    + intros Hl%(hi_loose_addr _ _ _ _ _ _ _ _ _ Hi). lia.
    + by left.
    + exists (fresh_conn f true). lib_cbn. rewrite lookup_insert_eq. split; [done|by eexists _, _].
Qed.

Lemma getConn_ok s os ls es : cinv s os ls es ->
  exists s' o, getConn s = Ok (s', o) /\ conn_taken s os ls es s' o.
Proof.
  intros Hi. unfold getConn. destruct (connections s) as [|c rest] eqn:Ep.
  { destruct (createConn s) as [s' o] eqn:E. exists s', o. split; [done|]. by apply createConn_ok. }
  destruct (hi_pooled _ _ _ _ _ _ _ _ _ Hi c) as (k & Hk & Hreq & Hw & Hr); [rewrite Ep; set_solver|].
  unfold resetState. lib_cbn. rewrite Hk. lib_cbn. rewrite Hreq, Hw, Hr. lib_cbn.
  eexists _, _. split; [reflexivity|]. fold (fresh_conn (fd k) false).
  pose proof (hi_pool _ _ _ _ _ _ _ _ _ Hi) as Hnd. rewrite Ep in Hnd. apply NoDup_cons in Hnd as [Hnin _].
  pose proof (inv_pop Hi c rest Ep) as Hi'. unfold conn_taken. split_and!; try done.
  - split; lib_cbn; try done; [|exists []; by rewrite app_nil_r]. rewrite Ep. intros c' k' Hc' Hp.
    apply not_elem_of_cons in Hp as [? ?]. rewrite lookup_insert_ne; done.
  - apply (inv_set_loose Hi'); [set_solver|by eapply hi_conn_addr|].
    intros r q Hq Hc. left. by apply (unserved_free _ _ _ _ _ _ _ _ _ c k r q Hi').
  - intros Hl. apply (hi_loose _ _ _ _ _ _ _ _ _ Hi c Hl). rewrite Ep. set_solver.
  - right. rewrite Ep. set_solver.
  - exists (fresh_conn (fd k) false). lib_cbn. rewrite lookup_insert_eq. split; [done|by eexists _, _].
Qed.

(** A request is given a fresh connection. *)
Lemma start_request s os ls es c k r q :
  cinv s (r :: os) (c :: ls) es -> conns s !! c = Some k -> is_fresh k ->
  reqs s !! r = Some q -> conn q = Some c ->
  cinv (set_conn s c (set_writeWatcher (set_request k (Some r)) true)) os ls es.
Proof.
  intros Hi Hk (f & b & ->) Hq Hc.
  set (k' := set_writeWatcher (set_request (fresh_conn f b) (Some r)) true).
  assert (Hi' : cinv (set_conn s c k') (r :: os) (c :: ls) es).
  { apply (inv_set_loose Hi); [set_solver|by eapply hi_conn_addr|].
    intros r' q' Hr' Hc'. left. by apply (unserved_free _ _ _ _ _ _ _ _ _ c _ r' q' Hi Hk). }
  apply (inv_attach Hi' c k' r q os ls eq_refl eq_refl); try done.
  - by lib_cbn; rewrite lookup_insert_eq.
  - split; [done|]. exists q. split_and!; try done. cbn. lia.
  - split_and!; try done. eexists. split; [done|]. intros _. apply parser_init_ok.
Qed.

Lemma makeRequest_ok s os ls es cb0 req d : cinv s os ls es -> cb0 <> None ->
  exists ret s', makeRequest s cb0 req d = Ok (ret, s') /\ cinv s' os ls es /\ frame s s' /\
    ((ret = 0 /\ accepted s' = accepted s ++ [d] /\ live (reqs s') ≡ₚ d :: live (reqs s)) \/
     (ret = -1 /\ accepted s' = accepted s /\ reqs s' = reqs s)).
Proof.
  intros Hi Hcb. unfold makeRequest.
  destruct (getConn_ok (clearLastError s) os ls es Hi) as (s1 & o & -> & Hfr0 & Hrq & Hac & Htk & Ho).
  assert (Hfr : frame s s1) by (by apply (frame_trans _ (clearLastError s)); [apply frame_same|]).
  lib_cbn. destruct o as [c|].
  2: { exists (-1), s1. split_and!; try done. by right. }
  destruct Ho as (Hi1 & Hl & Hold & k & Hk & Hfk).
  rewrite Hk. lib_cbn. eexists _, _. split; [reflexivity|].
  set (q := mkReq _ _ _ _ _ _ _).
  assert (Hnew : reqs s1 !! next s1 = None).
  { destruct (reqs s1 !! next s1) as [q'|] eqn:E; [|done]. pose proof (hi_req_addr _ _ _ _ _ _ _ _ _ Hi1 _ _ E). lia. }
  split_and!.
  - pose proof (inv_new_req Hi1 q (conj Hcb (wo_clock Hworld _))) as Hi2.
    refine (start_request (mkClient (conns s1) (<[next s1 := q]> (reqs s1)) (connections s1) (S (next s1)) (timeout s1)
      (init_num_conns s1) (block_size s1) (url s1) (cl_data s1) (last_error s1) (asks s1) (ticks s1) (opened s1) (closed s1)
      (accepted s1 ++ [d]) (called_back s1)) os ls es c k (next s1) q Hi2 Hk Hfk _ eq_refl). cbn. apply lookup_insert_eq.
  - destruct Hfr as [F1 F2 F3 (ds & F4) F5]. split; lib_cbn; try done.
    + intros r q' Hr. rewrite lookup_insert_ne; [by apply F1|]. apply F1 in Hr. congruence.
    + intros c' k' Hk' Hp'. rewrite lookup_insert_ne; [by apply F2|]. intros <-. destruct Hold; [congruence|done].
    + exists (ds ++ [d]). by rewrite F4, app_assoc.
  - left. lib_cbn. split_and!; [done|by rewrite Hac|]. by rewrite live_insert_new, Hrq.
Qed.

(** ** Callbacks of the application *)

Lemma user_ops_ok s os ls es ops : cinv s os ls es ->
  (forall cb0 req d, OpRequest cb0 req d ∈ ops -> cb0 <> None) ->
  exists s', user_ops s ops = Ok s' /\ cinv s' os ls es /\ frame s s'.
Proof.
  revert s. induction ops as [|op ops IH]; intros s Hi Hops; cbn [user_ops].
  { exists s. split_and!; [done..|apply frame_refl]. }
  destruct op as [cb0 req d|t].
  - destruct (makeRequest_ok s os ls es cb0 req d Hi) as (ret & s1 & -> & Hi1 & Hf1 & _).
    { apply (Hops cb0 req d), elem_of_cons. by left. }
    lib_cbn. destruct (IH s1 Hi1) as (s' & -> & Hi' & Hf'); [intros cb1 req1 d1 Hin; apply (Hops cb1 req1 d1); by apply elem_of_cons; right|].
    exists s'. split_and!; [done..|by eapply frame_trans].
  - destruct (IH (setTimeout s t) Hi) as (s' & -> & Hi' & Hf'); [intros cb1 req1 d1 Hin; apply (Hops cb1 req1 d1); by apply elem_of_cons; right|].
    exists s'. split_and!; [done..|]. apply (frame_trans _ (setTimeout s t)); [by apply frame_same|done].
Qed.

Definition log_call s (d : nat) (ri : option ResponseInfo) : EvHttpClient := set_called_back s (called_back s ++ [(d, ri)]).

Lemma call_cb_ok s os ls es q ri : cinv s os ls es -> cb q <> None ->
  exists s', call_cb s q ri = Ok s' /\ cinv s' os ls (rq_data q :: es) /\ frame (log_call s (rq_data q) ri) s'.
Proof.
  intros Hi Hq. unfold call_cb. destruct (cb q) as [f|]; [|done].
  apply user_ops_ok; [exact (inv_call Hi (rq_data q) ri)|]. intros cb0 req d. apply (wo_app Hworld).
Qed.

Lemma difftime_ok e b : in_time e -> in_time b -> exists d, difftime e b = Ok (d, mkTv (tv_sec b) 0).
Proof.
  unfold in_time. intros [He1 He2] [Hb1 Hb2]. unfold difftime, as_long.
  destruct (Z.ltb_spec (tv_usec e) (tv_usec b)); cbn [tv_sec tv_usec];
    rewrite guard_trap_true by (unfold LLONG_MIN, LLONG_MAX; lia); cbn [mbind outcome_bind]; eauto.
Qed.

Lemma in_time_start t : in_time t -> in_time (mkTv (tv_sec t) 0).
Proof. unfold in_time. cbn. lia. Qed.

(** The callback of a request and its deletion. *)
Lemma call_delete s os ls es r q ri : cinv s (r :: os) ls es -> r ∉ os -> reqs s !! r = Some q ->
  (forall c0, conn q = Some c0 -> c0 ∈ ls) ->
  exists s1 s', call_cb s q ri = Ok s1 /\ delete_request s1 r = Ok s' /\ cinv s' os ls es /\
    reqs s1 !! r = Some q /\ frame (log_call s (rq_data q) ri) s1 /\ s' = set_reqs s1 (delete r (reqs s1)).
Proof.
  intros Hi Ho Hr Hq. destruct (hi_req_ok _ _ _ _ _ _ _ _ _ Hi r q Hr) as [Hcb _].
  destruct (call_cb_ok s _ ls es q ri Hi Hcb) as (s1 & Hs1 & Hi1 & Hf).
  pose proof (fr_req _ _ Hf r q Hr) as Hr1.
  exists s1. eexists. split; [done|]. unfold delete_request. rewrite Hr1. lib_cbn. split; [reflexivity|].
  split_and!; try done. apply (inv_delete_req Hi1 r q os (rq_data q) es); try done.
  intros c k. by apply (served_by _ _ _ _ _ _ _ _ _ r q c k Hi1).
Qed.

(** What finishing a request leaves: the callback is recorded, the request is
    gone, others are as the application left them. *)
Record finished s (r : nat) (d : nat) (ri : option ResponseInfo) s' : Prop := {
  fi_called : called_back s' = called_back s ++ [(d, ri)];
  fi_const : konst s' = konst s;
  fi_gone : reqs s' !! r = None;
  fi_reqs r' q : r' <> r -> reqs s !! r' = Some q -> reqs s' !! r' = Some q;
  fi_conns c k : conns s !! c = Some k -> c ∉ connections s -> conns s' !! c = Some k /\ c ∉ connections s' }.

Lemma finished_intro s s0 s1 r d ri : frame (log_call s0 d ri) s1 ->
  conns s0 = conns s -> connections s0 = connections s -> called_back s0 = called_back s -> konst s0 = konst s ->
  (forall r', r' <> r -> reqs s0 !! r' = reqs s !! r') ->
  finished s r d ri (set_reqs s1 (delete r (reqs s1))).
Proof.
  intros Hf Hc Hp Hb Hkon Hr. pose proof (frame_konst _ _ Hf) as Hk1. destruct Hf as [F1 F2 F3 F4 F5].
  unfold log_call in *. lib_cbn. split; lib_cbn.
  - by rewrite F3, Hb.
  - rewrite <-Hkon. exact Hk1.
  - apply lookup_delete_eq.
  - intros r' q Hne Hq. rewrite lookup_delete_ne by done. apply F1. by rewrite Hr.
  - intros c k Hk Hn. apply F2; congruence.
Qed.

Lemma finalizeError_ok s os ls es r q : cinv s (r :: os) ls es -> r ∉ os -> reqs s !! r = Some q -> conn q = None ->
  exists s', finalizeError s r = Ok s' /\ cinv s' os ls es /\ finished s r (rq_data q) None s'.
Proof.
  intros Hi Ho Hr Hc. unfold finalizeError. rewrite Hr. lib_cbn.
  destruct (hi_req_ok _ _ _ _ _ _ _ _ _ Hi r q Hr) as [Hcb Ht].
  set (s0 := match last_error s with [] => _ | _ => _ end).
  assert (Hi0 : cinv s0 (r :: os) ls es).
  { assert (Hi' : cinv (set_req s r (set_timer q false)) (r :: os) ls es).
    { apply (inv_set_req Hi r q (set_timer q false)); try done. }
    unfold s0. by destruct (last_error s). }
  assert (Hs0 : reqs s0 !! r = Some (set_timer q false)).
  { unfold s0. destruct (last_error s); lib_cbn; apply lookup_insert_eq. }
  destruct (call_delete s0 os ls es r (set_timer q false) None Hi0 Ho Hs0) as (s1 & s' & -> & Hd & Hi' & Hr1 & Hf & ->).
  { lib_cbn. by rewrite Hc. }
  lib_cbn. rewrite Hd. eexists. split; [reflexivity|]. split; [done|].
  apply (finished_intro s s0); [exact Hf|by unfold s0; destruct (last_error s)..|].
  intros r' Hne. unfold s0. destruct (last_error s); lib_cbn; by rewrite lookup_insert_ne.
Qed.

Lemma finalizeTimeout_ok s os ls es r q : cinv s (r :: os) ls es -> r ∉ os -> reqs s !! r = Some q -> conn q = None ->
  exists s' ri, finalizeTimeout s r = Ok s' /\ cinv s' os ls es /\ finished s r (rq_data q) (Some ri) s' /\
    ri_timeout ri = true.
Proof.
  intros Hi Ho Hr Hc. unfold finalizeTimeout. rewrite Hr. lib_cbn.
  destruct (hi_req_ok _ _ _ _ _ _ _ _ _ Hi r q Hr) as [Hcb Ht].
  destruct (difftime_ok (gettimeofday (ticks s)) (start q) (wo_clock Hworld _) Ht) as (d & ->). lib_cbn.
  set (q' := set_rq_response _ _). set (ri := mkRi _ _ _ _ _). set (s0 := set_req _ r q').
  assert (Hi0 : cinv s0 (r :: os) ls es).
  { apply (inv_set_req Hi r q q'); try done. split; [done|by apply in_time_start]. }
  assert (Hs0 : reqs s0 !! r = Some q') by (unfold s0; lib_cbn; apply lookup_insert_eq).
  destruct (call_delete s0 os ls es r q' (Some ri) Hi0 Ho Hs0) as (s1 & s' & -> & Hd & Hi' & Hr1 & Hf & ->).
  { unfold q'. lib_cbn. by rewrite Hc. }
  lib_cbn. rewrite Hd. exists (set_reqs s1 (delete r (reqs s1))), ri. split; [done|]. split_and!; try done.
  apply (finished_intro s s0); try done. intros r' Hne. unfold s0. lib_cbn. by rewrite lookup_insert_ne.
Qed.

(** ** Failing connections *)

(** The connection is destroyed and the request left without one. *)
Lemma drop_conn s ls es c k r q s0 :
  cinv s [] ls es -> conns s !! c = Some k -> c ∉ connections s -> c ∉ ls -> serves (reqs s) c k r ->
  reqs s !! r = Some q ->
  conns s0 = delete c (conns s) -> reqs s0 = <[r := set_conn_ q None]> (reqs s) -> connections s0 = connections s ->
  next s0 = next s -> accepted s0 = accepted s -> called_back s0 = called_back s ->
  cinv s0 [r] ls es.
Proof.
  intros Hi Hk Hp Hl [Hrk (q0 & Hq0 & Hcq & _)] Hr E1 E2 E3 E4 E5 E6. unfold cinv. rewrite E1, E2, E3, E4, E5, E6.
  pose proof (inv_loosen Hi c k r q Hk Hp Hr) as Hi1.
  pose proof (inv_delete_conn Hi1 c ls eq_refl Hl) as Hi2.
  specialize (Hi2 ltac:(intros r' q' Hr' Hq'; by apply (serves_only _ _ _ _ _ _ _ _ _ c k r r' q' Hi))).
  apply (inv_set_conn Hi2 r q None); [set_solver|done|].
  intros c' k' [Hne Hk']%lookup_delete_Some Hrk'.
  destruct (hi_conn _ _ _ _ _ _ _ _ _ Hi c' k' Hk') as [?|[?|(r' & (Hr1 & q1 & Hr2 & Hc1 & _) & _)]]; auto.
  exfalso. apply Hne. congruence.
Qed.

Lemma destroyConn_eq s c k : conns s !! c = Some k ->
  destroyConn s c = Ok (set_conns (set_closed s (closed s ++ [fd k])) (delete c (conns s))).
Proof. intros Hk. unfold destroyConn. by rewrite Hk. Qed.

(** The connection a request gets: the first of the pool, or a new one. *)
Definition next_conn s : option nat :=
  match connections s with
  | c :: _ => Some c
  | [] => match answer (asks s) with Connected _ => Some (next s) | _ => None end
  end.

Lemma getConn_next s s' o : getConn s = Ok (s', o) -> o = next_conn s /\ connections s' = tail (connections s).
Proof.
  unfold getConn, next_conn, createConn, resetState. destruct (connections s) as [|c rest] eqn:Ep.
  - destruct (answer (asks s)); intros [= <- <-]; lib_cbn; by rewrite ?Ep.
  - intros Hg. inv_bind Hg. injection Hg as <- <-. split; [done|].
    inv_bind E. inv_bind E. injection E as <-. lib_cbn. destruct (request a0).
    + inv_bind E1. by injection E1 as <-.
    + by injection E1 as <-.
Qed.

(** A request that starts anew on connection [c]: none of it is sent, and the
    connection waits to be written. *)
Definition restarted s (r : nat) (q : RequestInfo) (c : nat) s' : Prop :=
  called_back s' = called_back s /\ connections s' = tail (connections s) /\
  reqs s' !! r = Some (set_conn_ q (Some c)) /\
  exists k, conns s' !! c = Some k /\ request k = Some r /\ requestBytesSent k = 0 /\
    writeWatcher k = true /\ readWatcher k = false.

(** What trying a request again gives: it is started on the next connection, or
    finished with an error if there is none. *)
Definition retried s (r : nat) (q : RequestInfo) s' : Prop :=
  match next_conn s with
  | Some c => restarted s r q c s'
  | None => finished s r (rq_data q) None s'
  end.

Lemma retryRequest_ok s ls es r q : cinv s [r] ls es -> reqs s !! r = Some q -> conn q = None ->
  exists s', retryRequest s r = Ok s' /\ cinv s' [] ls es /\ retried s r q s' /\ konst s' = konst s.
Proof.
  intros Hi Hr Hc. unfold retryRequest, retried. rewrite Hr. lib_cbn. rewrite Hc. lib_cbn.
  destruct (getConn_ok s _ ls es Hi) as (s1 & o & Hg & Hfr & Hrq & Hac & Htk & Ho).
  destruct (getConn_next s s1 o Hg) as [<- Hpool]. rewrite Hg. lib_cbn.
  rewrite Hrq, Hr. lib_cbn. destruct o as [c|].
  - destruct Ho as (Hi1 & Hl & Hold & k & Hk & Hfk). rewrite Hk. eexists. split; [reflexivity|]. split.
    + apply (start_request _ [] ls es c k r (set_conn_ q (Some c))); try done.
      2: { lib_cbn. apply lookup_insert_eq. }
      apply (inv_set_conn Hi1); [set_solver|by rewrite Hrq|].
      intros c' k'. apply (served_by _ _ _ _ _ _ _ _ _ r q c' k' Hi1); [by rewrite Hrq|by rewrite Hc].
    + split; [|exact (frame_konst _ _ Hfr)].
      split; [apply (fr_called _ _ Hfr)|]. lib_cbn. split; [done|]. rewrite !lookup_insert_eq. split; [done|].
      eexists. split; [reflexivity|]. by destruct Hfk as (f & b & ->).
  - destruct (finalizeError_ok (set_req s1 r (set_conn_ q None)) [] ls es r (set_conn_ q None)) as (s' & -> & Hi' & Hfin); try done.
    + apply (inv_set_req Ho r q); [by rewrite Hrq|by rewrite Hc| |done..].
      apply (hi_req_ok _ _ _ _ _ _ _ _ _ Hi r q Hr).
    + set_solver.
    + lib_cbn. apply lookup_insert_eq.
    + exists s'. split; [done|]. split; [done|].
      assert (Hkon : konst s' = konst s) by (rewrite (fi_const _ _ _ _ _ Hfin); exact (frame_konst _ _ Hfr)). split; [|done].
      destruct Hfin as [F1 _ F2 F3 F4], Hfr as [G1 G2 G3 G4 G5]. lib_cbn. split; try done.
      * by rewrite F1, G3.
      * intros r' q' Hne Hq'. apply F3; [done|]. rewrite lookup_insert_ne by done. by rewrite Hrq.
      * intros c k Hk Hp. destruct (G2 c k Hk Hp). by apply F4.
Qed.

(** The request of a connection that failed: with a new connection, or when no
    other one is to be had, it is called back with an error; otherwise it is
    started anew on the next one. *)
Definition given_up s (r : nat) (q : RequestInfo) s' : Prop :=
  called_back s' = called_back s ++ [(rq_data q, None)] /\ reqs s' !! r = None.

Definition failed s (k : HttpConn) (r : nat) (q : RequestInfo) s' : Prop :=
  if isNew k then given_up s r q s'
  else match next_conn s with
       | Some c => restarted s r q c s'
       | None => given_up s r q s'
       end.

Lemma connection_failed_ok s ls es c k r q what errno :
  cinv s [] ls es -> conns s !! c = Some k -> c ∉ connections s -> c ∉ ls -> serves (reqs s) c k r ->
  reqs s !! r = Some q ->
  exists s', connection_failed s c r what errno = Ok s' /\ cinv s' [] ls es /\ failed s k r q s' /\ konst s' = konst s.
Proof.
  intros Hi Hk Hp Hl Hs Hr. unfold connection_failed, failed. rewrite Hk. lib_cbn.
  set (s0 := if isNew k then _ else s).
  assert (Hsame : same_heap s s0 /\ next s0 = next s /\ asks s0 = asks s) by (unfold s0; by destruct (isNew k)).
  destruct Hsame as ((E1 & E2 & E3 & E4 & E5 & _) & E6 & E7).
  rewrite (destroyConn_eq s0 c k) by (by rewrite E1). lib_cbn. rewrite E2, Hr. lib_cbn.
  set (s2 := set_req _ r _).
  assert (Hi2 : cinv s2 [r] ls es).
  { apply (drop_conn s ls es c k r q); try done; unfold s2; lib_cbn; congruence. }
  assert (Hr2 : reqs s2 !! r = Some (set_conn_ q None)) by (unfold s2; lib_cbn; apply lookup_insert_eq).
  assert (Hc2 : called_back s2 = called_back s) by (unfold s2; lib_cbn; done).
  assert (Hk2 : konst s2 = konst s) by (unfold s2, s0; by destruct (isNew k)).
  destruct (isNew k).
  - destruct (finalizeError_ok s2 [] ls es r _ Hi2 ltac:(set_solver) Hr2 eq_refl) as (s' & -> & Hi' & [F1 F0 F2 _ _]).
    exists s'. unfold given_up. rewrite <-Hc2, <-Hk2. by split_and!.
  - destruct (retryRequest_ok s2 ls es r _ Hi2 Hr2 eq_refl) as (s' & -> & Hi' & Hret & Hkon).
    exists s'. split; [done|]. split; [done|]. split; [|congruence]. revert Hret. unfold retried.
    replace (next_conn s2) with (next_conn s) by (unfold next_conn, s2; lib_cbn; by rewrite E3, E6, E7).
    destruct (next_conn s) as [c'|].
    + unfold restarted. rewrite Hc2. by replace (connections s2) with (connections s) by (by unfold s2; lib_cbn).
    + intros [F1 _ F2 _ _]. unfold given_up. by rewrite <-Hc2.
Qed.

End Ops.
