(* ===== verification/HttpEvents.v ===== *)
(** * The events of the HTTP client library

    The callbacks the client gives to its parsers meet the conditions of the
    parser's rule, with the client itself as the application: a callback of the
    parser may call the user, who may make new requests, while the parser runs.
    So every event of the loop returns and keeps the invariant. *)

From Stdlib Require Import SpecFloat.
From S2P Require Import Prelude Utils UrlSnprintf Event Proxy HttpParser HttpFacts HttpRun HttpSplit HttpOrder HttpUrl HttpLib HttpPool HttpOps.

Section Events.
Context `{World} (Hworld : world_ok) (size : Z * Url).
Implicit Type s : EvHttpClient.

(** ** A connection whose parser is running *)

Record live_conn (c : nat) s (k : HttpConn) (r : nat) : Prop := {
  lc_inv : cinv s [] [c] [];
  lc_block : konst s = size;
  lc_conn : conns s !! c = Some k;
  lc_parser : parser k = None;
  lc_complete : messageComplete k = false;
  lc_watch : writeWatcher k = negb (readWatcher k);
  lc_serves : serves (reqs s) c k r }.

(** The message is complete: its request is gone. *)
Record done_conn (c : nat) s (k : HttpConn) : Prop := {
  dc_inv : cinv s [] [c] [];
  dc_block : konst s = size;
  dc_conn : conns s !! c = Some k;
  dc_parser : parser k = None;
  dc_complete : messageComplete k = true;
  dc_request : request k = None }.

Definition in_parser (c : nat) (ph : phase) s : Prop :=
  (exists k r, live_conn c s k r) \/ (ph = PIdle /\ exists k, done_conn c s k).

(** Two connections that differ in what the parser's callbacks collect. *)
Definition same_conn (k k' : HttpConn) : Prop :=
  request k' = request k /\ requestBytesSent k' = requestBytesSent k /\ parser k' = parser k /\
  messageComplete k' = messageComplete k /\ writeWatcher k' = writeWatcher k /\ readWatcher k' = readWatcher k.

Lemma keep_conn c s k r k' : live_conn c s k r -> same_conn k k' -> live_conn c (set_conn s c k') k' r.
Proof.
  intros [Hi Hz Hk Hp Hm Hw [Hrk (q & Hq & Hc & Hb)]] (E1 & E2 & E3 & E4 & E5 & E6). split; [|done| |congruence..|].
  - apply (inv_set_loose Hi); [set_solver|by eapply hi_conn_addr|].
    intros r' q' Hr' Hq'. right. rewrite E1.
    pose proof (serves_only _ _ _ _ _ _ _ _ _ c k r r' q' Hi Hk Hrk Hr' Hq') as ->%list_elem_of_singleton. done.
  - lib_cbn. apply lookup_insert_eq.
  - lib_cbn. split; [congruence|]. exists q. by rewrite E2.
Qed.

Lemma keep_req c s k r q q' : live_conn c s k r -> reqs s !! r = Some q ->
  conn q' = conn q -> req_ok q' -> requestString q' = requestString q -> rq_data q' = rq_data q ->
  live_conn c (set_req s r q') k r.
Proof.
  intros [Hi Hz Hk Hp Hm Hw [Hrk (q0 & Hq & Hc & Hb)]] Hr E1 E2 E3 E4. split; try done.
  - by apply (inv_set_req Hi r q).
  - lib_cbn. split; [done|]. exists q'. rewrite lookup_insert_eq.
    assert (q0 = q) by congruence. subst. by rewrite E1, E3.
Qed.

Lemma live_request c s k r : live_conn c s k r -> exists q, reqs s !! r = Some q /\ request_of s (request k) = Ok (r, q).
Proof.
  intros [Hi Hz Hk Hp Hm Hw [Hrk (q & Hq & Hc & Hb)]]. exists q. split; [done|]. by rewrite Hrk; cbn; rewrite Hq.
Qed.

Lemma flushHeaders_ok c s k r : live_conn c s k r ->
  exists s', flushHeaders s c = Ok s' /\ live_conn c s' (set_headerValue (set_headerField k []) []) r.
Proof.
  intros Hl. unfold flushHeaders. rewrite (lc_conn _ _ _ _ Hl). lib_cbn.
  destruct (live_request c s k r Hl) as (q & Hq & ->). lib_cbn. eexists. split; [reflexivity|].
  apply (keep_conn c _ k); [|done]. apply (keep_req c s k r q); try done.
  apply (hi_req_ok _ _ _ _ _ _ _ _ _ (lc_inv _ _ _ _ Hl) r q Hq).
Qed.

(** What the callbacks for headers and bodies do. *)
Lemma headerFieldCb_ok c p d s k r : live_conn c s k r ->
  exists z s' k', headerFieldCb c p d s = Ok (mkRes z false s') /\ live_conn c s' k' r.
Proof.
  intros Hl. unfold headerFieldCb. rewrite (lc_conn _ _ _ _ Hl). lib_cbn.
  destruct (headerState k) eqn:Eh; lib_cbn.
  - rewrite (lc_conn _ _ _ _ Hl). lib_cbn. eexists _, _, _. split; [reflexivity|]. by apply (keep_conn c s k).
  - destruct (flushHeaders_ok c s k r Hl) as (s1 & -> & Hl1). lib_cbn. rewrite (lc_conn _ _ _ _ Hl1). lib_cbn.
    rewrite lookup_insert_eq. lib_cbn. eexists _, _, _. split; [reflexivity|].
    eapply keep_conn; [by eapply keep_conn|done].
  - by eexists _, _, _.
Qed.

Lemma headerValueCb_ok c p d s k r : live_conn c s k r ->
  exists z s' k', headerValueCb c p d s = Ok (mkRes z false s') /\ live_conn c s' k' r.
Proof.
  intros Hl. unfold headerValueCb. rewrite (lc_conn _ _ _ _ Hl). lib_cbn.
  destruct (headerState k); eexists _, _, _; (split; [reflexivity|]); [by eapply keep_conn..|done].
Qed.

Lemma bodyCb_ok c p d s k r : live_conn c s k r ->
  exists z s' k', bodyCb c p d s = Ok (mkRes z false s') /\ live_conn c s' k' r.
Proof.
  intros Hl. unfold bodyCb. rewrite (lc_conn _ _ _ _ Hl). lib_cbn.
  eexists _, _, _. split; [reflexivity|]. by eapply keep_conn.
Qed.

Lemma headersCompleteCb_ok c p s k r : live_conn c s k r ->
  exists s' k', headersCompleteCb c p s = Ok (mkRes 0 false s') /\ live_conn c s' k' r.
Proof.
  intros Hl. unfold headersCompleteCb. rewrite (lc_conn _ _ _ _ Hl). lib_cbn.
  destruct (flushHeaders_ok c (set_conn s c (set_headerState k HEADER_STATE_DONE)) (set_headerState k HEADER_STATE_DONE) r)
    as (s1 & -> & Hl1); [by eapply keep_conn|]. lib_cbn. by eexists _, _.
Qed.

(** What the callback of a complete message is given. *)
Definition the_response (k : HttpConn) (q : RequestInfo) (p : http_parser) (latency : spec_float) : ResponseInfo :=
  mkRi false (swrap 16 (status_code p)) latency (ri_headers (rq_response q)) (body k).

Lemma messageCompleteCb_ok c p s k r q : live_conn c s k r -> reqs s !! r = Some q ->
  exists s' k' lat, messageCompleteCb c p s = Ok (mkRes 0 false s') /\ done_conn c s' k' /\
    called_back s' = called_back s ++ [(rq_data q, Some (the_response k q p lat))] /\ reqs s' !! r = None.
Proof.
  intros Hl Hr. unfold messageCompleteCb. rewrite (lc_conn _ _ _ _ Hl). lib_cbn.
  destruct (live_request c s k r Hl) as (q0 & Hq0 & ->). assert (q0 = q) by congruence. subst q0. lib_cbn.
  destruct Hl as [Hi Hz Hk Hp Hm Hw [Hrk (q0 & Hq & Hc & Hb)]]. assert (q0 = q) by congruence. subst q0.
  destruct (hi_req_ok _ _ _ _ _ _ _ _ _ Hi r q Hr) as [Hcb Ht].
  destruct (difftime_ok (gettimeofday (ticks s)) (start q) (wo_clock Hworld _) Ht) as (d & ->). lib_cbn.
  set (q' := set_rq_response _ _). set (ri := mkRi _ _ _ _ _). set (kc := set_messageComplete k true). set (s0 := set_req _ r q').
  assert (Hi0 : cinv s0 [r] [c] []).
  { assert (Hi1 : heap_inv (<[c := kc]> (conns s)) (reqs s) (connections s) (next s) (accepted s) (called_back s) [] [c] []).
    { apply (inv_set_loose Hi); [set_solver|by eapply hi_conn_addr|]. intros r' q2 Hr' Hq2. right.
      pose proof (serves_only _ _ _ _ _ _ _ _ _ c k r r' q2 Hi Hk Hrk Hr' Hq2) as ->%list_elem_of_singleton. done. }
    apply (inv_loosen_req (os := [])) with q'; [|unfold s0; lib_cbn; apply lookup_insert_eq].
    apply (inv_set_req Hi1 r q q'); try done. split; [done|by apply in_time_start]. }
  assert (Hs0 : reqs s0 !! r = Some q') by (unfold s0; lib_cbn; apply lookup_insert_eq).
  assert (Hpool : c ∉ connections s0) by (apply (hi_loose _ _ _ _ _ _ _ _ _ Hi0); set_solver).
  assert (Hkc : conns s0 !! c = Some kc) by (unfold s0; lib_cbn; apply lookup_insert_eq).
  destruct (call_delete Hworld s0 [] [c] [] r q' (Some ri) Hi0 ltac:(set_solver) Hs0) as (s1 & s' & -> & Hd & Hi' & Hr1 & Hf & ->).
  { unfold q'. lib_cbn. intros c0 Hc0. assert (c0 = c) by congruence. subst. set_solver. }
  lib_cbn. destruct (fr_conn _ _ Hf c kc Hkc Hpool) as [Hk1 Hp1]. rewrite Hk1. lib_cbn.
  assert (Hrk1 : request kc = Some r) by done. rewrite Hrk1. cbn [request_of].
  rewrite Hr1. lib_cbn. rewrite Hd. lib_cbn. eexists _, _, (latency_of d). split; [reflexivity|]. split_and!.
  - split; [|rewrite <-Hz; exact (frame_konst _ _ Hf)|lib_cbn; apply lookup_insert_eq|exact Hp|done..].
    apply (inv_set_loose Hi'); [set_solver|by eapply (hi_conn_addr _ _ _ _ _ _ _ _ _ Hi')|].
    intros r' q2 Hr' Hq2. exfalso.
    pose proof (serves_only _ _ _ _ _ _ _ _ _ c kc r r' q2 Hi' Hk1 Hrk1 Hr' Hq2) as ->%list_elem_of_singleton.
    lib_cbn. by rewrite lookup_delete_eq in Hr'.
  - lib_cbn. rewrite (fr_called _ _ Hf). done.
  - lib_cbn. apply lookup_delete_eq.
Qed.

(** ** The parser's rule applies *)

Lemma settings_ok c : callbacks_ok (parser_settings c) (in_parser c) (in_parser c PIdle).
Proof.
  assert (Hdata : forall ph (f : http_data_cb EvHttpClient), ph <> PIdle ->
    (forall p d s k r, live_conn c s k r -> exists z s' k', f p d s = Ok (mkRes z false s') /\ live_conn c s' k' r) ->
    data_posts (in_parser c PIdle) (Some f) (in_parser c ph)).
  { intros ph f Hph Hf p d s [(k & r & Hl)|[-> _]]; [|done].
    destruct (Hf p d s k r Hl) as (z & s' & k' & -> & Hl'). eexists. split; [reflexivity|]. cbn [cb_user cb_ret].
    split; [by left; eauto|intros _; by left; eauto]. }
  split; cbn [parser_settings on_message_begin on_url on_header_field on_header_value on_headers_complete on_body on_message_complete].
  - intros ph s [?|[_ ?]]; [by left|by right].
  - intros p s [(k & r & Hl)|[_ (k & Hd)]]; unfold messageBeginCb.
    + rewrite (lc_conn _ _ _ _ Hl). lib_cbn. destruct (messageBegun k).
      { eexists. split; [reflexivity|]. split; [by left; eauto|done]. }
      destruct (lc_serves _ _ _ _ Hl) as [Hrk _]. rewrite Hrk. eexists. split; [reflexivity|]. cbn [cb_user cb_ret].
      assert (Hl' : live_conn c (set_conn s c (set_messageBegun k true)) (set_messageBegun k true) r) by (by eapply keep_conn).
      split; [by left; eauto|]. intros _. split; by left; eauto.
    + rewrite (dc_conn _ _ _ Hd). lib_cbn. rewrite (dc_request _ _ _ Hd).
      destruct (messageBegun k); (eexists; split; [reflexivity|]; split; [right; by eauto|done]).
  - done.
  - intros ph Hph. apply Hdata; [done|]. intros p d s k r. apply headerFieldCb_ok.
  - intros ph Hph. apply Hdata; [done|]. intros p d s k r. apply headerValueCb_ok.
  - intros p s [(k & r & Hl)|[? _]]; [|done].
    destruct (headersCompleteCb_ok c p s k r Hl) as (s' & k' & -> & Hl'). eexists. split; [reflexivity|].
    split; [by left; eauto|intros _; by left; eauto].
  - apply Hdata; [done|]. intros p d s k r. apply bodyCb_ok.
  - intros p s [(k & r & Hl)|[? _]]; [|done].
    destruct (live_request c s k r Hl) as (q & Hq & _).
    destruct (messageCompleteCb_ok c p s k r q Hl Hq) as (s' & k' & lat & -> & Hd & _). eexists. split; [reflexivity|].
    split; [right; by eauto|intros _; right; by eauto].
Qed.

(** ** Events *)

(** A connection whose watcher is started serves a request. *)
Lemma watched s c k : cinv s [] [] [] -> conns s !! c = Some k -> writeWatcher k || readWatcher k = true ->
  (c ∉ connections s) /\ exists r q, serves (reqs s) c k r /\ working k /\ reqs s !! r = Some q /\
    conn q = Some c /\ request_of s (request k) = Ok (r, q).
Proof.
  intros Hi Hk Hw.
  assert (Hp : c ∉ connections s).
  { intros Hp. destruct (hi_pooled _ _ _ _ _ _ _ _ _ Hi c Hp) as (k' & Hk' & _ & H1 & H2).
    assert (k' = k) by congruence. subst. by rewrite H1, H2 in Hw. }
  split; [done|].
  destruct (hi_conn _ _ _ _ _ _ _ _ _ Hi c k Hk) as [?|[?%not_elem_of_nil|(r & Hs & Hwk)]]; [done|done|].
  pose proof Hs as (Hrk & q & Hq & Hc & _). exists r, q. split_and!; try done. rewrite Hrk. cbn. by rewrite Hq.
Qed.

(** The parser of a connection is taken for a run. *)
Lemma take_parser s c k r : konst s = size -> cinv s [] [] [] -> conns s !! c = Some k -> c ∉ connections s ->
  serves (reqs s) c k r -> working k ->
  live_conn c (set_conn s c (set_parser k None)) (set_parser k None) r.
Proof.
  intros Hz Hi Hk Hp Hs (Hm & Hw & _). destruct Hs as [Hrk (q & Hq & Hc & Hb)].
  split; try done; [|lib_cbn; apply lookup_insert_eq|].
  - apply (inv_set_loose (inv_loosen_conn Hi c k Hk Hp)); [set_solver|by eapply hi_conn_addr|].
    intros r' q' Hr' Hq'. right.
    pose proof (serves_only _ _ _ _ _ _ _ _ _ c k r r' q' Hi Hk Hrk Hr' Hq') as ->%list_elem_of_singleton. done.
  - split; [done|]. by exists q.
Qed.

(** And put back. *)
Lemma put_parser s c k r p : live_conn c s k r -> (http_errno p = HPE_OK -> parser_ok p) ->
  cinv (set_conn s c (set_parser k (Some p))) [] [] [].
Proof.
  intros [Hi Hz Hk Hp Hm Hw Hs] Hok. pose proof Hs as [Hrk (q & Hq & Hc & Hb)].
  assert (Hi1 : cinv (set_conn s c (set_parser k (Some p))) [] [c] []).
  { apply (inv_set_loose Hi); [set_solver|by eapply hi_conn_addr|].
    intros r' q' Hr' Hq'. right.
    pose proof (serves_only _ _ _ _ _ _ _ _ _ c k r r' q' Hi Hk Hrk Hr' Hq') as ->%list_elem_of_singleton. done. }
  apply (inv_attach (inv_loosen_req Hi1 r q Hq) c (set_parser k (Some p)) r q [] [] eq_refl eq_refl).
  - lib_cbn. apply lookup_insert_eq.
  - done.
  - split; [done|]. by exists q.
  - split; [done|]. split; [done|]. by exists p.
Qed.

(** The result of a run of the parser. *)
Definition parsed (c : nat) (p : http_parser) s : Prop :=
  exists s1 k, s = set_conn s1 c (set_parser k (Some p)) /\
    (((exists r, live_conn c s1 k r) /\ (http_errno p = HPE_OK -> parser_ok p)) \/ done_conn c s1 k).

Lemma run_parser_ok s c k r d : konst s = size -> cinv s [] [] [] -> conns s !! c = Some k -> c ∉ connections s ->
  serves (reqs s) c k r -> working k -> d <> [] ->
  exists p s', run_parser s c d = Ok s' /\ parsed c p s'.
Proof.
  intros Hz Hi Hk Hp Hs Hw Hd. pose proof (take_parser s c k r Hz Hi Hk Hp Hs Hw) as Hl.
  destruct Hw as (Hm & Hw & p & Hpk & Hok). unfold run_parser. rewrite Hk. cbn [the mbind outcome_bind]. rewrite Hpk.
  set (s0 := set_conn s c (set_parser k None)).
  destruct (is_ok (http_errno p)) eqn:Ei.
  - assert (He : http_errno p = HPE_OK) by (by destruct (http_errno p)).
    destruct (execute_rule (parser_settings c) d (in_parser c) (in_parser c PIdle) (settings_ok c) p s0 Hd (Hok He) He)
      as (n & p' & s1 & Hex & _ & HD & Hok'); [by left; eauto|].
    rewrite Hex. cbn [mbind outcome_bind]. destruct HD as [(k1 & r1 & Hl1)|[_ (k1 & Hd1)]].
    + rewrite (lc_conn _ _ _ _ Hl1). exists p'. eexists. split; [reflexivity|].
      exists s1, k1. split; [done|]. left. split; [by eexists|]. intros He'. by destruct (Hok' He').
    + rewrite (dc_conn _ _ _ Hd1). exists p'. eexists. split; [reflexivity|].
      exists s1, k1. split; [done|]. by right.
  - assert (He : http_errno p <> HPE_OK) by (by intros E; rewrite E in Ei).
    rewrite stopped_returns by done. cbn [mbind outcome_bind].
    assert (Hk0 : conns s0 !! c = Some (set_parser k None)) by (unfold s0; lib_cbn; apply lookup_insert_eq).
    rewrite Hk0. exists p. eexists. split; [reflexivity|].
    exists s0, (set_parser k None). split; [done|]. left. by split; [exists r|].
Qed.

Lemma returnConn_ok s c k : cinv s [] [c] [] -> conns s !! c = Some k -> request k = None ->
  exists s', returnConn s c = Ok s' /\ cinv s' [] [] [] /\ reqs s' = reqs s /\ called_back s' = called_back s /\ konst s' = konst s.
Proof.
  intros Hi Hk Hrk. unfold returnConn. rewrite Hk. lib_cbn. set (k' := set_readWatcher _ _).
  assert (Hi1 : cinv (set_conn s c k') [] [c] []).
  { apply (inv_set_loose Hi); [set_solver|by eapply hi_conn_addr|].
    intros r q Hq Hc. left. by apply (unserved_free _ _ _ _ _ _ _ _ _ c k r q Hi). }
  assert (Hk' : conns (set_conn s c k') !! c = Some k') by (lib_cbn; apply lookup_insert_eq).
  destruct (_ <? _).
  - eexists. split; [reflexivity|]. split_and!; try done.
    apply (inv_push Hi1 c k' [] eq_refl); [set_solver|done|done].
  - rewrite (destroyConn_eq _ c k' Hk'). eexists. split; [reflexivity|]. split_and!; try done.
    apply (inv_delete_conn Hi1 c [] eq_refl); [set_solver|].
    intros r q Hq Hc. by apply (unserved_free _ _ _ _ _ _ _ _ _ c k' r q Hi1).
Qed.

Lemma parsed_ok c p s : parsed c p s ->
  exists k s', conns s !! c = Some k /\ (if messageComplete k then returnConn s c else Ok s) = Ok s' /\ cinv s' [] [] [] /\ konst s' = size.
Proof.
  intros (s1 & k & -> & [[(r & Hl) Hok]|Hd]).
  - exists (set_parser k (Some p)). eexists. split; [lib_cbn; apply lookup_insert_eq|]. lib_cbn.
    rewrite (lc_complete _ _ _ _ Hl). split; [reflexivity|]. split; [by eapply put_parser|]. exact (lc_block _ _ _ _ Hl).
  - exists (set_parser k (Some p)).
    assert (Hi1 : cinv (set_conn s1 c (set_parser k (Some p))) [] [c] []).
    { apply (inv_set_loose (dc_inv _ _ _ Hd)); [set_solver|eapply hi_conn_addr; apply Hd|].
      intros r q Hq Hc. left. apply (unserved_free _ _ _ _ _ _ _ _ _ c k r q (dc_inv _ _ _ Hd)); [apply Hd..|done|done]. }
    destruct (returnConn_ok _ c (set_parser k (Some p)) Hi1) as (s' & Hs' & Hi' & _ & _ & Hkon);
      [lib_cbn; apply lookup_insert_eq|by apply Hd|].
    exists s'. split; [lib_cbn; apply lookup_insert_eq|]. split; [|split; [done|rewrite Hkon; exact (dc_block _ _ _ Hd)]].
    cbn [messageComplete set_parser]. by rewrite (dc_complete _ _ _ Hd).
Qed.

Lemma s32_le n : 0 <= n -> s32 n <= n.
Proof.
  intros Hn. unfold swrap. change (2 ^ (32 - 1)) with (2 ^ 31).
  pose proof (Z.mod_le (n + 2 ^ 31) (2 ^ 32) ltac:(lia) ltac:(lia)). lia.
Qed.

(** What send() can return for the rest of a request. *)
Definition send_ok (k : HttpConn) (q : RequestInfo) (sent : option Z) : Prop :=
  match sent with
  | Some n => 0 <= n <= Z.of_nat (length (requestString q)) - requestBytesSent k
  | None => True
  end.

Lemma writeCb_ok s c k r q sent errno : cinv s [] [] [] -> conns s !! c = Some k -> writeWatcher k = true ->
  serves (reqs s) c k r -> reqs s !! r = Some q -> send_ok k q sent ->
  exists s', writeCb s c false sent errno = Ok s' /\ cinv s' [] [] [] /\ konst s' = konst s /\ (sent = None -> failed s k r q s').
Proof.
  intros Hi Hk Hw Hs Hr Hsent. destruct (watched s c k Hi Hk) as [Hp (r0 & q0 & _ & Hwk & Hr0 & Hc0 & Hreq)]; [by rewrite Hw|].
  destruct Hs as [Hrk (q1 & Hq1 & Hc1 & Hb)]. assert (q1 = q) by congruence. subst q1.
  assert (r0 = r) as -> by (rewrite Hrk in Hreq; cbn in Hreq; rewrite Hr in Hreq; cbn in Hreq; congruence).
  assert (q0 = q) by congruence. subst q0.
  assert (Hfail : exists s', connection_failed s c r (str "send() failed: ") errno = Ok s' /\ cinv s' [] [] [] /\ failed s k r q s' /\ konst s' = konst s).
  { apply connection_failed_ok; try done; [set_solver|]. split; [done|]. by exists q. }
  unfold writeCb. rewrite Hk. cbn [the mbind outcome_bind]. rewrite Hreq. cbn [mbind outcome_bind].
  rewrite guard_trap_true by lia. destruct sent as [n|].
  2: { cbn [Z.ltb]. destruct Hfail as (s' & -> & Hi' & Hf & Hkon). by exists s'. }
  destruct (Z.ltb_spec (s32 n) 0) as [Hneg|Hpos].
  { destruct Hfail as (s' & -> & Hi' & Hf & Hkon). by exists s'. }
  cbn [send_ok] in Hsent. pose proof (s32_le n ltac:(lia)) as Hle. eexists. split; [reflexivity|]. split; [|done].
  set (k1 := set_requestBytesSent k _). set (k2 := if _ =? _ then _ else _).
  assert (Hk2 : request k2 = Some r /\ requestBytesSent k2 = requestBytesSent k + s32 n /\ working k2).
  { destruct Hwk as (H1 & H2 & H3). unfold k2. destruct (_ =? _); unfold k1, working; lib_cbn; by split_and!. }
  destruct Hk2 as (E1 & E2 & E3).
  assert (Hi1 : cinv (set_conn s c k2) [] [c] []).
  { apply (inv_set_loose (inv_loosen_conn Hi c k Hk Hp)); [set_solver|by eapply hi_conn_addr|].
    intros r' q' Hr' Hq'. right. rewrite E1.
    pose proof (serves_only _ _ _ _ _ _ _ _ _ c k r r' q' Hi Hk Hrk Hr' Hq') as ->%list_elem_of_singleton. done. }
  apply (inv_attach (inv_loosen_req Hi1 r q Hr) c k2 r q [] [] eq_refl eq_refl); [|done| |done].
  - lib_cbn. apply lookup_insert_eq.
  - split; [done|]. exists q. rewrite E2. split_and!; try done; lia.
Qed.

Lemma readCb_ok s c k r q received errno : konst s = size -> cinv s [] [] [] -> conns s !! c = Some k -> readWatcher k = true ->
  serves (reqs s) c k r -> reqs s !! r = Some q ->
  (forall b d, received = Some (b :: d) -> Z.of_nat (length (b :: d)) < block_size s) ->
  exists s', readCb s c false received errno = Ok s' /\ cinv s' [] [] [] /\ konst s' = konst s /\
    (received = None \/ received = Some [] -> failed s k r q s').
Proof.
  intros Hz Hi Hk Hw Hs Hr Hrecv.
  destruct (watched s c k Hi Hk) as [Hp (r0 & q0 & _ & Hwk & Hr0 & Hc0 & Hreq)]; [by rewrite Hw, orb_true_r|].
  assert (r0 = r) as -> by (destruct Hs as [Hrk _]; rewrite Hrk in Hreq; cbn in Hreq; rewrite Hr in Hreq; cbn in Hreq; congruence).
  unfold readCb. rewrite Hk. cbn [the mbind outcome_bind]. rewrite Hreq. cbn [mbind outcome_bind fst].
  assert (Hfail : exists s', connection_failed s c r (str "recv() failed: ") errno = Ok s' /\ cinv s' [] [] [] /\ failed s k r q s' /\ konst s' = konst s).
  { apply connection_failed_ok; try done. set_solver. }
  destruct received as [[|b d]|].
  - destruct Hfail as (s' & -> & Hi' & Hf & Hkon). by exists s'.
  - specialize (Hrecv _ _ eq_refl). rewrite guard_trap_true by lia.
    destruct (run_parser_ok s c k r (b :: d) Hz Hi Hk Hp Hs Hwk ltac:(done)) as (p & s1 & -> & Hpar).
    destruct (parsed_ok c p s1 Hpar) as (k1 & s' & Hk1 & Hs' & Hi' & Hkon). cbn [mbind outcome_bind]. rewrite Hk1.
    cbn [the mbind outcome_bind]. rewrite Hs'. exists s'. split_and!; try done; [congruence|intros [|]; done].
  - destruct Hfail as (s' & -> & Hi' & Hf & Hkon). by exists s'.
Qed.

Lemma pause_ok p : http_errno p = HPE_OK \/ http_errno p = HPE_PAUSED ->
  http_parser_pause p true = Ok (set_http_errno p HPE_PAUSED).
Proof. unfold http_parser_pause. by intros [-> | ->]. Qed.

(** A timer of a request whose parser can be paused. *)
Lemma timeoutCb_ok s r q : cinv s [] [] [] -> reqs s !! r = Some q ->
  (forall c k p, conn q = Some c -> conns s !! c = Some k -> parser k = Some p -> http_errno p = HPE_OK \/ http_errno p = HPE_PAUSED) ->
  exists s' ri, timeoutCb s r = Ok s' /\ cinv s' [] [] [] /\ konst s' = konst s /\
    called_back s' = called_back s ++ [(rq_data q, Some ri)] /\ ri_timeout ri = true /\ reqs s' !! r = None.
Proof.
  intros Hi Hr Hpar. unfold timeoutCb. rewrite Hr. lib_cbn.
  destruct (hi_req _ _ _ _ _ _ _ _ _ Hi r q Hr) as [?%not_elem_of_nil|(c & k & Hc & Hk & Hrk)]; [done|].
  destruct (hi_conn _ _ _ _ _ _ _ _ _ Hi c k Hk) as [Hpo|[?%not_elem_of_nil|(r' & Hs & Hwk)]]; [|done|].
  { destruct (hi_pooled _ _ _ _ _ _ _ _ _ Hi c Hpo) as (k' & Hk' & Hn & _). congruence. }
  assert (r' = r) as -> by (destruct Hs; congruence).
  destruct Hwk as (Hm & Hw & p & Hp & Hok). rewrite Hc, Hk. cbn [the mbind outcome_bind]. rewrite Hp.
  rewrite (pause_ok p (Hpar c k p Hc Hk Hp)). cbn [mbind outcome_bind].
  erewrite destroyConn_eq by (lib_cbn; apply lookup_insert_eq). cbn [mbind outcome_bind].
  set (s2 := set_req _ r _).
  assert (Hpool : c ∉ connections s).
  { intros Hin. destruct (hi_pooled _ _ _ _ _ _ _ _ _ Hi c Hin) as (k' & Hk' & Hn & _). congruence. }
  assert (Hi2 : cinv s2 [r] [] []).
  { destruct (hi_req_ok _ _ _ _ _ _ _ _ _ Hi r q Hr) as [Hcb Ht].
    assert (Hi1 : cinv (set_req s r (set_timer q false)) [] [] []) by (by apply (inv_set_req Hi r q)).
    apply (drop_conn Hworld (set_req s r (set_timer q false)) [] [] c k r (set_timer q false)); try done.
    - set_solver.
    - destruct Hs as (_ & q1 & Hq1 & Hc1 & Hb). split; [done|]. exists (set_timer q false). lib_cbn.
      rewrite lookup_insert_eq. assert (q1 = q) by congruence. by subst.
    - lib_cbn. apply lookup_insert_eq.
    - unfold s2. lib_cbn. by rewrite delete_insert_eq.
    - unfold s2. lib_cbn. by rewrite insert_insert_eq. }
  assert (Hr2 : reqs s2 !! r = Some (set_conn_ (set_timer q false) None)) by (unfold s2; lib_cbn; apply lookup_insert_eq).
  destruct (finalizeTimeout_ok Hworld s2 [] [] [] r _ Hi2 ltac:(set_solver) Hr2 eq_refl) as (s' & ri & -> & Hi' & [F1 F0 F2 _ _] & Hto).
  exists s', ri. split_and!; done.
Qed.

End Events.
