(* ===== verification/HttpDeliver.v ===== *)
(** * A response reaches its request

    A response that arrives on a connection, in whatever pieces the socket
    delivers it, is collected by the client's parser callbacks and handed to the
    callback of the request: its status code, its headers and its body. *)

From Stdlib Require Import SpecFloat.
From S2P Require Import Prelude Utils UrlSnprintf Event Proxy HttpParser HttpFacts HttpRun HttpSplit HttpOrder HttpMessage HttpUrl.
From S2P Require Import HttpLib HttpPool HttpOps HttpEvents.

Section Deliver.
Context `{World} (Hworld : world_ok).
Implicit Type s u : EvHttpClient.

(** ** The data callbacks append *)

Lemma set_conn_twice s c k k' : set_conn (set_conn s c k) c k' = set_conn s c k'.
Proof. unfold set_conn, set_conns. lib_cbn. by rewrite insert_insert_eq. Qed.

Lemma set_req_twice s r q q' : set_req (set_req s r q) r q' = set_req s r q'.
Proof. unfold set_req, set_reqs. lib_cbn. by rewrite insert_insert_eq. Qed.

Lemma lookup_set_conn s c k : conns (set_conn s c k) !! c = Some k.
Proof. lib_cbn. apply lookup_insert_eq. Qed.

(** What headerFieldCb does before it appends. *)
Definition open_field s (c : nat) : outcome (Z * EvHttpClient) :=
  k ← the (conns s !! c);
  match headerState k with
  | HEADER_STATE_DONE => Ok (1, s)
  | HEADER_STATE_FIELD => Ok (0, s)
  | HEADER_STATE_VALUE =>
      s ← flushHeaders s c;
      k ← the (conns s !! c);
      Ok (0, set_conn s c (set_headerState k HEADER_STATE_FIELD))
  end.

Lemma headerFieldCb_eq c p d s : headerFieldCb c p d s =
  (o ← open_field s c;
   if fst o =? 0 then k ← the (conns (snd o) !! c); Ok (mkRes 0 false (set_conn (snd o) c (set_headerField k (headerField k ++ d))))
   else Ok (mkRes 1 false s)).
Proof.
  unfold headerFieldCb, open_field. destruct (conns s !! c) as [k|] eqn:Ek; [|done]. cbn [the mbind outcome_bind].
  destruct (headerState k); cbn [mbind outcome_bind fst snd]; try done.
  destruct (flushHeaders s c) as [s1|]; [|done]. cbn [mbind outcome_bind].
  by destruct (conns s1 !! c).
Qed.

Lemma open_field_spec s c s1 : open_field s c = Ok (0, s1) -> exists k, conns s1 !! c = Some k /\ headerState k = HEADER_STATE_FIELD.
Proof.
  unfold open_field. intros Ho. inv_bind Ho. destruct (headerState a) eqn:Eh; [|inv_bind Ho; inv_bind Ho|done].
  - injection Ho as <-. exists a. destruct (conns s !! c); [|done]. injection E as ->. done.
  - injection Ho as <-. eexists. by rewrite lookup_set_conn.
Qed.

Lemma headerFieldCb_app c p d e s : headerFieldCb c p (d ++ e) s =
  (r ← headerFieldCb c p d s; if cb_ret r =? 0 then headerFieldCb c p e (cb_user r) else Ok r).
Proof.
  rewrite (headerFieldCb_eq c p (d ++ e) s), (headerFieldCb_eq c p d s).
  destruct (open_field s c) as [[z s1]|] eqn:Eo; [|done]. cbn [mbind outcome_bind fst snd].
  destruct (Z.eqb_spec z 0) as [->|Hz]; [|done].
  destruct (open_field_spec s c s1 Eo) as (k & Hk & Hh). rewrite Hk. cbn [the mbind outcome_bind cb_ret cb_user].
  change (0 =? 0) with true. cbv iota. rewrite headerFieldCb_eq. unfold open_field. rewrite lookup_set_conn.
  cbn [the mbind outcome_bind headerState set_headerField]. rewrite Hh. cbn [mbind outcome_bind fst snd].
  change (0 =? 0) with true. cbv iota. rewrite lookup_set_conn. cbn [the mbind outcome_bind].
  rewrite set_conn_twice. lib_cbn. by rewrite app_assoc.
Qed.

Lemma headerValueCb_app c p d e s : headerValueCb c p (d ++ e) s =
  (r ← headerValueCb c p d s; if cb_ret r =? 0 then headerValueCb c p e (cb_user r) else Ok r).
Proof.
  unfold headerValueCb. destruct (conns s !! c) as [k|] eqn:Ek; [|done]. cbn [the mbind outcome_bind].
  destruct (headerState k); cbn [mbind outcome_bind cb_ret cb_user]; try done;
    change (0 =? 0) with true; cbv iota; rewrite lookup_set_conn; cbn [the mbind outcome_bind];
    cbn [headerState set_headerState set_headerValue]; rewrite set_conn_twice; lib_cbn; by rewrite app_assoc.
Qed.

Lemma bodyCb_app c p d e s : bodyCb c p (d ++ e) s =
  (r ← bodyCb c p d s; if cb_ret r =? 0 then bodyCb c p e (cb_user r) else Ok r).
Proof.
  unfold bodyCb. destruct (conns s !! c) as [k|] eqn:Ek; [|done]. cbn [the mbind outcome_bind cb_ret cb_user].
  change (0 =? 0) with true. cbv iota. rewrite lookup_set_conn. cbn [the mbind outcome_bind].
  rewrite set_conn_twice. lib_cbn. by rewrite app_assoc.
Qed.

Lemma never_pauses c k cb p d s r : data_cb (parser_settings c) k = Some cb -> cb p d s = Ok r -> cb_pauses r = false.
Proof.
  destruct k; cbn; intros [= <-] Hr; try done.
  - rewrite headerFieldCb_eq in Hr. inv_bind Hr. destruct (_ =? _); [inv_bind Hr|]; by injection Hr as <-.
  - unfold headerValueCb in Hr. inv_bind Hr. destruct (headerState a); by injection Hr as <-.
  - unfold bodyCb in Hr. inv_bind Hr. by injection Hr as <-.
Qed.

Lemma settings_append c : appends (parser_settings c).
Proof.
  split.
  - intros k cb p p' d s. destruct k; cbn; intros [= <-]; done.
  - intros k cb p d s r. apply never_pauses.
  - intros k cb p d e s. destruct k; cbn; intros [= <-]; [apply headerFieldCb_app|apply headerValueCb_app|apply bodyCb_app].
Qed.

(** ** The callbacks of a message *)

Section Message.
Context (c r : nat) (u : EvHttpClient) (k0 : HttpConn) (q0 : RequestInfo).
Context (Hk0 : request k0 = Some r).

(** The connection and the request while a message is collected. *)
Definition coll (begun : bool) (hs : HeaderState) (f v b : bytes) : HttpConn :=
  mkConn (fd k0) (request k0) (requestBytesSent k0) (parser k0) hs f v b (writeWatcher k0) (readWatcher k0)
    begun (messageComplete k0) (responseSent k0) (isNew k0).
Definition with_headers (m : gmap bytes bytes) : RequestInfo :=
  let ri := rq_response q0 in
  set_rq_response q0 (mkRi (ri_timeout ri) (ri_code ri) (ri_latency ri) m (ri_response ri)).
Definition at_state (k : HttpConn) (m : gmap bytes bytes) : EvHttpClient := set_req (set_conn u c k) r (with_headers m).

Lemma at_conn k m : conns (at_state k m) !! c = Some k.
Proof. unfold at_state. lib_cbn. apply lookup_insert_eq. Qed.
Lemma at_req k m : reqs (at_state k m) !! r = Some (with_headers m).
Proof. unfold at_state. lib_cbn. apply lookup_insert_eq. Qed.
Lemma at_set_conn k m k' : set_conn (at_state k m) c k' = at_state k' m.
Proof. unfold at_state, set_conn, set_req, set_conns, set_reqs. lib_cbn. by rewrite insert_insert_eq. Qed.

Lemma at_flush b hs f v bo m :
  flushHeaders (at_state (coll b hs f v bo) m) c = Ok (at_state (coll b hs [] [] bo) (<[f := v]> m)).
Proof.
  unfold flushHeaders. rewrite at_conn. cbn [the mbind outcome_bind coll request]. rewrite Hk0. cbn [request_of].
  rewrite at_req. cbn [the mbind outcome_bind]. f_equal.
  unfold at_state, set_conn, set_req, set_conns, set_reqs. lib_cbn. by rewrite !insert_insert_eq.
Qed.

Abbreviation accepts_all := (accepts_all (parser_settings c)).
Abbreviation accepts := (accepts (parser_settings c)).

Lemma acc_begin m : accepts EBegin (at_state (coll false HEADER_STATE_FIELD [] [] []) m)
  (at_state (coll true HEADER_STATE_FIELD [] [] []) m).
Proof.
  intros p _. unfold messageBeginCb. rewrite at_conn. cbn [the mbind outcome_bind coll messageBegun request].
  rewrite Hk0. by rewrite at_set_conn.
Qed.

Lemma acc_first_field d m : accepts (EField d) (at_state (coll true HEADER_STATE_FIELD [] [] []) m)
  (at_state (coll true HEADER_STATE_FIELD d [] []) m).
Proof.
  intros p. unfold headerFieldCb. rewrite at_conn. cbn [the mbind outcome_bind coll headerState].
  rewrite at_conn. cbn [the mbind outcome_bind]. by rewrite at_set_conn.
Qed.

Lemma acc_next_field f v d m : accepts (EField d) (at_state (coll true HEADER_STATE_VALUE f v []) m)
  (at_state (coll true HEADER_STATE_FIELD d [] []) (<[f := v]> m)).
Proof.
  intros p. unfold headerFieldCb. rewrite at_conn. cbn [the mbind outcome_bind]. cbn [coll headerState].
  rewrite at_flush. cbn [mbind outcome_bind]. rewrite at_conn. cbn [the mbind outcome_bind]. rewrite at_set_conn, at_conn.
  cbn [the mbind outcome_bind]. by rewrite at_set_conn.
Qed.

Lemma acc_value f d m : accepts (EValue d) (at_state (coll true HEADER_STATE_FIELD f [] []) m)
  (at_state (coll true HEADER_STATE_VALUE f d []) m).
Proof.
  intros p. unfold headerValueCb. rewrite at_conn. cbn [the mbind outcome_bind coll headerState]. by rewrite at_set_conn.
Qed.

Lemma acc_headers_done f v m : accepts EHeaders (at_state (coll true HEADER_STATE_VALUE f v []) m)
  (at_state (coll true HEADER_STATE_DONE [] [] []) (<[f := v]> m)).
Proof.
  intros p _. unfold headersCompleteCb. rewrite at_conn. cbn [the mbind outcome_bind]. rewrite at_set_conn.
  change (set_headerState _ _) with (coll true HEADER_STATE_DONE f v []). by rewrite at_flush.
Qed.

Lemma acc_body d m : accepts (EBody d) (at_state (coll true HEADER_STATE_DONE [] [] []) m)
  (at_state (coll true HEADER_STATE_DONE [] [] d) m).
Proof.
  intros p. unfold bodyCb. rewrite at_conn. cbn [the mbind outcome_bind coll body app]. by rewrite at_set_conn.
Qed.

Lemma accepts_app es es' u1 u2 u3 : accepts_all es u1 u2 -> accepts_all es' u2 u3 -> accepts_all (es ++ es') u1 u3.
Proof. induction 1; cbn; [done|]. intros. econstructor; eauto. Qed.

(** The headers a list of lines gives: a later line replaces an earlier one. *)
Definition add_header (m : gmap bytes bytes) (h : bytes * bytes) : gmap bytes bytes := <[fst h := snd h]> m.
Definition header_map (hs : list (bytes * bytes)) : gmap bytes bytes := foldl add_header ∅ hs.

(** From a line that is still open to the last one. *)
Lemma acc_lines hs f v m : exists f' v' m',
  accepts_all (concat (header_events <$> hs)) (at_state (coll true HEADER_STATE_VALUE f v []) m)
    (at_state (coll true HEADER_STATE_VALUE f' v' []) m') /\
  <[f' := v']> m' = foldl add_header (<[f := v]> m) hs.
Proof.
  revert f v m. induction hs as [|[a b] hs IH]; intros f v m.
  { exists f, v, m. split; [constructor|done]. }
  destruct (IH a b (<[f := v]> m)) as (f' & v' & m' & Hacc & Hm). exists f', v', m'. split; [|done].
  cbn [fmap list_fmap concat header_events app]. econstructor; [apply acc_next_field|]. econstructor; [apply acc_value|done].
Qed.

Lemma acc_head hs : hs <> [] ->
  accepts_all ([EBegin] ++ concat (header_events <$> hs) ++ [EHeaders])
    (at_state (coll false HEADER_STATE_FIELD [] [] []) ∅) (at_state (coll true HEADER_STATE_DONE [] [] []) (header_map hs)).
Proof.
  destruct hs as [|[a b] hs]; [done|]. intros _. econstructor; [apply acc_begin|].
  cbn [fmap list_fmap concat header_events app fst snd]. econstructor; [apply acc_first_field|]. econstructor; [apply acc_value|].
  destruct (acc_lines hs a b ∅) as (f & v & m & Hacc & Hm). eapply accepts_app; [exact Hacc|].
  econstructor; [|constructor]. unfold header_map. cbn [foldl add_header fst snd]. unfold add_header at 2. cbn [fst snd].
  rewrite <-Hm. apply acc_headers_done.
Qed.

(** The headers of a response, the length last. *)
Definition response_headers (rs : response) : gmap bytes bytes :=
  header_map (rs_headers rs ++ [(str "Content-Length", rs_length rs)]).

Lemma acc_response rs u' :
  accepts (EComplete (rs_code rs)) (at_state (coll true HEADER_STATE_DONE [] [] (rs_body rs)) (response_headers rs)) u' ->
  accepts_all (events rs) (at_state (coll false HEADER_STATE_FIELD [] [] []) ∅) u'.
Proof.
  intros Hc. unfold events.
  assert (Hev : [EBegin] ++ concat (header_events <$> rs_headers rs) ++ header_events (str "Content-Length", rs_length rs) ++ [EHeaders]
          ++ (match rs_body rs with [] => [] | _ => [EBody (rs_body rs)] end) ++ [EComplete (rs_code rs)]
        = ([EBegin] ++ concat (header_events <$> (rs_headers rs ++ [(str "Content-Length", rs_length rs)])) ++ [EHeaders])
          ++ (match rs_body rs with [] => [] | _ => [EBody (rs_body rs)] end) ++ [EComplete (rs_code rs)]).
  { rewrite fmap_app, concat_app. cbn [fmap list_fmap concat]. by rewrite app_nil_r, <-!app_assoc. }
  rewrite Hev. eapply accepts_app; [by apply acc_head; destruct (rs_headers rs)|].
  destruct (rs_body rs) as [|b bs] eqn:Eb; cbn [app].
  - econstructor; [exact Hc|constructor].
  - econstructor; [apply acc_body|]. econstructor; [exact Hc|constructor].
Qed.

End Message.

(** ** Reading in pieces *)

(** The events of a socket that delivers [pieces]. *)
Fixpoint reads s (c : nat) (pieces : list bytes) : outcome EvHttpClient :=
  match pieces with
  | [] => Ok s
  | d :: pieces => s ← readCb s c false (Some d) 0; reads s c pieces
  end.

Lemma set_parser_none k : parser k = None -> set_parser k None = k.
Proof. destruct k. cbn. by intros ->. Qed.

Lemma set_conn_id s c k : conns s !! c = Some k -> set_conn s c k = s.
Proof. intros Hk. unfold set_conn, set_conns. rewrite insert_id by done. by destruct s. Qed.

(** One read, as a call of the parser. *)
Lemma readCb_piece size c u k r p d n p1 u1 k1 :
  live_conn size c u k r -> d <> [] -> Z.of_nat (length d) < fst size ->
  http_parser_execute (parser_settings c) d p u = Ok (n, p1, u1) -> conns u1 !! c = Some k1 ->
  readCb (set_conn u c (set_parser k (Some p))) c false (Some d) 0 =
    (if messageComplete k1 then returnConn (set_conn u1 c (set_parser k1 (Some p1))) c
     else Ok (set_conn u1 c (set_parser k1 (Some p1)))).
Proof.
  intros Hl Hd Hlen Hex Hk1. unfold readCb. rewrite lookup_set_conn. cbn [the mbind outcome_bind].
  destruct d as [|b d]; [done|].
  rewrite guard_trap_true by (change (block_size _) with (fst (konst u)); rewrite (lc_block _ _ _ _ _ Hl); lia).
  unfold run_parser. rewrite lookup_set_conn. cbn [the mbind outcome_bind parser set_parser].
  rewrite set_conn_twice. change (set_parser (set_parser k (Some p)) None) with (set_parser k None).
  rewrite set_parser_none by apply Hl. rewrite set_conn_id by apply Hl. rewrite Hex. cbn [mbind outcome_bind].
  rewrite Hk1. cbn [the mbind outcome_bind]. rewrite lookup_set_conn. done.
Qed.

(** A client that has its response refuses another one. *)
Lemma done_refuses size c u k : done_conn size c u k -> forall p, messageBeginCb c p u = Ok (mkRes 1 false u).
Proof.
  intros Hd p. unfold messageBeginCb. rewrite (dc_conn _ _ _ _ Hd). cbn [the mbind outcome_bind].
  rewrite (dc_request _ _ _ _ Hd). by destruct (messageBegun k).
Qed.

Lemma reads_ok size c pieces p u k r p2 u2 k2 :
  live_conn size c u k r -> parser_ok p -> http_errno p = HPE_OK ->
  Forall (fun d => d <> [] /\ Z.of_nat (length d) < fst size) pieces -> pieces <> [] ->
  http_parser_execute (parser_settings c) (concat pieces) p u = Ok (len (concat pieces), p2, u2) ->
  http_errno p2 = HPE_OK -> nread p2 = 0 -> done_conn size c u2 k2 ->
  reads (set_conn u c (set_parser k (Some p))) c pieces = returnConn (set_conn u2 c (set_parser k2 (Some p2))) c.
Proof.
  revert p u k r. induction pieces as [|d pieces IH]; intros p u k r Hl Hp He Hpieces Hne Hex He2 Hn2 Hd2; [done|].
  apply Forall_cons in Hpieces as [[Hd Hlen] Hpieces]. cbn [reads]. destruct pieces as [|d2 pieces].
  { cbn [concat] in Hex. rewrite app_nil_r in Hex.
    rewrite (readCb_piece size c u k r p d _ p2 u2 k2 Hl Hd Hlen Hex (dc_conn _ _ _ _ Hd2)).
    rewrite (dc_complete _ _ _ _ Hd2). by destruct (returnConn _ c). }
  assert (Hrest : concat (d2 :: pieces) <> []).
  { apply Forall_cons in Hpieces as [[Hd2' _] _]. cbn. by destruct d2. }
  destruct (execute_split (parser_settings c) _ _ (settings_ok Hworld size c) (settings_append c) d (concat (d2 :: pieces)) p u p2 u2
    Hd Hrest Hp) as (p1 & u1 & Hex1 & He1 & Hp1 & HJ1 & Hex2); [by left; eauto|exact Hex|done|].
  destruct HJ1 as [(k1 & r1 & Hl1)|[Hph (k1 & Hd1)]].
  - rewrite (readCb_piece size c u k r p d _ p1 u1 k1 Hl Hd Hlen Hex1 (lc_conn _ _ _ _ _ Hl1)).
    rewrite (lc_complete _ _ _ _ _ Hl1). cbn [mbind outcome_bind]. by eapply IH.
  - exfalso. assert (Hidle : part_of (pstate p1) = Idle).
    { unfold phase_of in Hph. destruct (part_of (pstate p1)); try done. by destruct (has_flag p1 F_TRAILING). }
    pose proof (refused_counts (parser_settings c) (concat (d2 :: pieces)) u1 (messageBeginCb c) eq_refl
      (done_refuses size c u1 k1 Hd1) p1 _ p2 u2 Hidle Hp1 He1 Hrest Hex2 He2). lia.
Qed.

(** ** The whole response *)

Lemma messageCompleteCb_status c p p' s : status_code p = status_code p' -> messageCompleteCb c p s = messageCompleteCb c p' s.
Proof. intros E. unfold messageCompleteCb. by rewrite E. Qed.

(** A connection that waits for a response of which nothing has arrived. *)
Definition awaiting (k : HttpConn) (r : nat) : Prop :=
  k = mkConn (fd k) (Some r) (requestBytesSent k) (Some (http_parser_init HTTP_RESPONSE)) HEADER_STATE_FIELD [] [] []
        false true false false (responseSent k) (isNew k).

Lemma coll_start k r : awaiting k r -> coll (set_parser k None) false HEADER_STATE_FIELD [] [] [] = set_parser k None.
Proof. unfold awaiting. intros ->. done. Qed.

Lemma deliver s c k r q rs pieces :
  cinv s [] [] [] -> conns s !! c = Some k -> awaiting k r -> reqs s !! r = Some q -> ri_headers (rq_response q) = ∅ ->
  response_ok rs -> concat pieces = print_response rs ->
  Forall (fun d => d <> [] /\ Z.of_nat (length d) < block_size s) pieces ->
  exists s' lat, reads s c pieces = Ok s' /\ cinv s' [] [] [] /\ reqs s' !! r = None /\
    called_back s' = called_back s ++ [(rq_data q, Some (mkRi false (rs_code rs) lat (response_headers rs) (rs_body rs)))].
Proof.
  intros Hi Hk Haw Hr Hq0 Hrs Hpieces Hall.
  assert (Hw : readWatcher k = true) by (by rewrite Haw).
  destruct (watched s c k Hi Hk) as [Hp (r0 & q' & Hs & Hwk & Hr0 & Hc0 & Hreq)]; [by rewrite Hw, orb_true_r|].
  assert (r0 = r) as -> by (destruct Hs as [Hs _]; rewrite Haw in Hs; by injection Hs).
  assert (q' = q) by congruence. subst q'. clear Hr0.
  set (k0 := set_parser k None). set (u0 := set_conn s c k0). set (size := konst s).
  pose proof (take_parser Hworld size s c k r eq_refl Hi Hk Hp Hs Hwk) as Hl. fold k0 u0 in Hl.
  assert (Hk0 : request k0 = Some r) by (unfold k0; by rewrite Haw).
  assert (Hstart : at_state c r s q (coll k0 false HEADER_STATE_FIELD [] [] []) ∅ = u0).
  { unfold k0. rewrite (coll_start k r Haw). unfold at_state, with_headers. rewrite <-Hq0.
    assert (Hq : set_rq_response q (mkRi (ri_timeout (rq_response q)) (ri_code (rq_response q)) (ri_latency (rq_response q))
               (ri_headers (rq_response q)) (ri_response (rq_response q))) = q) by (by destruct q as [[]]).
    rewrite Hq. unfold set_req, set_reqs. rewrite insert_id by done. by destruct s. }
  set (kf := coll k0 true HEADER_STATE_DONE [] [] (rs_body rs)). set (qf := with_headers q (response_headers rs)).
  set (uf := at_state c r s q kf (response_headers rs)).
  assert (Hlf : live_conn size c uf kf r).
  { unfold uf, at_state. fold qf. rewrite <-(set_conn_twice s c k0). fold u0.
    apply (keep_req size c _ kf r q); try done; [by apply (keep_conn Hworld size c u0 k0)|].
    apply (hi_req_ok _ _ _ _ _ _ _ _ _ Hi r q Hr). }
  destruct (messageCompleteCb_ok Hworld size c (ready_parser rs) uf kf r qf Hlf (at_req c r s q _ _))
    as (u2 & k2 & lat & Hcb & Hd2 & Hcalled & Hgone).
  assert (Hacc : accepts_all (parser_settings c) (events rs) u0 u2).
  { rewrite <-Hstart. apply acc_response; [done|]. intros p Hp'. rewrite <-Hcb. by apply messageCompleteCb_status. }
  pose proof (parse_response (parser_settings c) rs u0 u2 Hrs Hacc) as Hex. rewrite <-Hpieces in Hex.
  assert (Hne : pieces <> []).
  { intros ->. apply (f_equal length) in Hpieces. unfold print_response, print_head in Hpieces. rewrite !length_app in Hpieces.
    cbn in Hpieces. lia. }
  pose proof (reads_ok size c pieces (http_parser_init HTTP_RESPONSE) u0 k0 r (ready_parser rs) u2 k2
    Hl (parser_init_ok _) eq_refl Hall Hne Hex eq_refl eq_refl Hd2) as Hreads.
  assert (Hs0 : set_conn u0 c (set_parser k0 (Some (http_parser_init HTTP_RESPONSE))) = s).
  { unfold u0. rewrite set_conn_twice. apply set_conn_id. rewrite Hk. f_equal. unfold k0. rewrite Haw. done. }
  rewrite Hs0 in Hreads.
  assert (Hi2 : cinv (set_conn u2 c (set_parser k2 (Some (ready_parser rs)))) [] [c] []).
  { apply (inv_set_loose (dc_inv _ _ _ _ Hd2)); [set_solver|eapply hi_conn_addr; apply Hd2|].
    intros r' q2 Hq2 Hc2. left. by apply (unserved_free _ _ _ _ _ _ _ _ _ c k2 r' q2 (dc_inv _ _ _ _ Hd2)); [apply Hd2..| |]. }
  destruct (returnConn_ok Hworld _ c _ Hi2 (lookup_set_conn _ _ _)) as (s' & Hs' & Hi' & Hr' & Hc' & _); [apply Hd2|].
  exists s', lat. split; [by rewrite Hreads|]. split; [done|]. split; [by rewrite Hr'|].
  rewrite Hc'. change (called_back (set_conn u2 c _)) with (called_back u2). rewrite Hcalled.
  unfold the_response, kf, qf, with_headers. cbn [status_code ready_parser body coll ri_headers rq_response set_rq_response rq_data].
  assert (Hcode : swrap 16 (rs_code rs) = rs_code rs) by (apply swrap_small; [lia|]; destruct Hrs; lia).
  rewrite Hcode. done.
Qed.

End Deliver.
