(* ===== verification/HttpClientProps.v ===== *)
(** * What the HTTP client library promises

    A client is constructed and initialised, the application makes requests, and
    the event loop reports that a socket can be written or read or that a timer
    has fired.  In every state reached that way every event returns, and every
    request that was accepted has been called back once or is still served by a
    connection that waits for an event. *)

From Stdlib Require Import SpecFloat.
From S2P Require Import Prelude Utils UrlSnprintf Event Proxy HttpParser HttpFacts HttpRun HttpSplit HttpOrder HttpMessage HttpUrl.
From S2P Require Import HttpLib HttpPool HttpOps HttpEvents HttpDeliver.

(** ** Events *)

Inductive client_event : Type :=
| EMake (cb0 : option nat) (requestString : bytes) (data : nat)
| ESetTimeout (seconds : spec_float)
| EWritable (c : nat) (ev_error : bool) (sent : option Z) (errno : Z)
| EReadable (c : nat) (ev_error : bool) (received : option bytes) (errno : Z)
| ETimer (r : nat).

Section System.
Context `{World} (Hworld : world_ok).
Implicit Type s : EvHttpClient.

Definition client_step s (e : client_event) : outcome EvHttpClient :=
  match e with
  | EMake cb0 req data => r ← makeRequest s cb0 req data; Ok (snd r)
  | ESetTimeout t => Ok (setTimeout s t)
  | EWritable c err sent errno => writeCb s c err sent errno
  | EReadable c err received errno => readCb s c err received errno
  | ETimer r => timeoutCb s r
  end.

(** Which events can happen: requests have a callback; a watcher reports only
    while it is started; send() takes at most what is left and recv() gives at
    most a block; a timer fires while it is started. *)
Definition enabled s (e : client_event) : Prop :=
  match e with
  | EMake cb0 _ _ => cb0 <> None
  | ESetTimeout _ => True
  | EWritable c err sent _ =>
      exists k, conns s !! c = Some k /\ writeWatcher k = true /\
        forall r q, request k = Some r -> reqs s !! r = Some q -> send_ok k q sent
  | EReadable c err received _ =>
      exists k, conns s !! c = Some k /\ readWatcher k = true /\
        forall b d, received = Some (b :: d) -> Z.of_nat (length (b :: d)) <= block_size s
  | ETimer r => exists q, reqs s !! r = Some q /\ timer q = true
  end.

(** The two events that go wrong: a recv() that fills the whole block, and a
    timer of a request whose response has stopped the parser with an error. *)
Definition fills_block s (e : client_event) : Prop :=
  match e with
  | EReadable _ false (Some (b :: d)) _ => Z.of_nat (length (b :: d)) = block_size s
  | _ => False
  end.

Definition stopped (k : HttpConn) : Prop :=
  exists p, parser k = Some p /\ http_errno p <> HPE_OK /\ http_errno p <> HPE_PAUSED.

Definition after_malformed s (e : client_event) : Prop :=
  match e with
  | ETimer r => exists q c k, reqs s !! r = Some q /\ conn q = Some c /\ conns s !! c = Some k /\ stopped k
  | _ => False
  end.

(** The states of a client. *)
Inductive client_reach : EvHttpClient -> Prop :=
| cr_init urlstring t data n size s0 s :
    new_EvHttpClient urlstring t data n size = Ok s0 -> init s0 = Ok (0, s) -> client_reach s
| cr_step s e s' : client_reach s -> enabled s e -> client_step s e = Ok s' -> client_reach s'.

Lemma initConnPool_ok n s : cinv s [] [] [] -> cinv (initConnPool n s) [] [] [].
Proof.
  revert s. induction n as [|n IH]; intros s Hi; cbn [initConnPool]; [done|].
  destruct (createConn s) as [s1 o] eqn:E.
  destruct (createConn_ok s [] [] [] s1 o Hi E) as (_ & _ & _ & _ & Ho). destruct o as [c|]; [|done].
  destruct Ho as (Hi1 & Hl & _ & k & Hk & (f & b & ->)). apply IH.
  apply (inv_push Hi1 c (fresh_conn f b) [] eq_refl); [set_solver|done|done].
Qed.

Lemma client_init_ok urlstring t data n size s0 s :
  new_EvHttpClient urlstring t data n size = Ok s0 -> init s0 = Ok (0, s) -> cinv s [] [] [].
Proof.
  intros Hn Hinit. unfold new_EvHttpClient in Hn. inv_bind Hn. injection Hn as <-.
  unfold init in Hinit. inv_bind Hinit. inv_bind Hinit. destruct (_ <? 0); [done|].
  unfold guard_trap in Hinit. destruct (_ =? 0); [|done]. injection Hinit as <-. apply initConnPool_ok.
  split; lib_cbn; try done; [constructor|intros c Hc; by apply not_elem_of_nil in Hc..].
Qed.

(** What an event that does not go wrong gives. *)
Definition returns s (e : client_event) : Prop :=
  exists s', client_step s e = Ok s' /\ cinv s' [] [] [] /\ konst s' = konst s.

Lemma read_step s c err received errno : cinv s [] [] [] -> enabled s (EReadable c err received errno) ->
  returns s (EReadable c err received errno) \/
  fills_block s (EReadable c err received errno) /\ client_step s (EReadable c err received errno) = Trap OutOfBounds.
Proof.
  intros Hi (k & Hk & Hw & Hrecv). unfold returns, fills_block. cbn [client_step]. destruct err; [left; eexists; by split_and!|].
  destruct (watched s c k Hi Hk) as [Hp (r & q & Hs & Hwk & Hr & Hc & Hreq)]; [by rewrite Hw, orb_true_r|].
  assert (Hok : (forall b d, received = Some (b :: d) -> Z.of_nat (length (b :: d)) < block_size s) ->
    exists s', readCb s c false received errno = Ok s' /\ cinv s' [] [] [] /\ konst s' = konst s).
  { intros Hlt. destruct (readCb_ok Hworld (konst s) s c k r q received errno eq_refl Hi Hk Hw Hs Hr Hlt) as (s' & E & Hi' & Hkon & _). eauto. }
  destruct received as [[|b d]|]; [left; apply Hok; done| |left; apply Hok; done].
  specialize (Hrecv b d eq_refl). destruct (decide (Z.of_nat (length (b :: d)) = block_size s)) as [Heq|Hne].
  - right. split; [done|]. unfold readCb. rewrite Hk. cbn [the mbind outcome_bind]. unfold guard_trap.
    by rewrite (proj2 (Z.ltb_ge _ _)) by lia.
  - left. apply Hok. intros b' d' [= <- <-]. lia.
Qed.

Lemma timer_step s r : cinv s [] [] [] -> enabled s (ETimer r) ->
  returns s (ETimer r) \/ after_malformed s (ETimer r) /\ client_step s (ETimer r) = Trap AssertFailed.
Proof.
  intros Hi (q & Hr & Ht). unfold returns. cbn [client_step after_malformed].
  destruct (hi_req _ _ _ _ _ _ _ _ _ Hi r q Hr) as [?%not_elem_of_nil|(c & k & Hc & Hk & Hrk)]; [done|].
  destruct (hi_conn _ _ _ _ _ _ _ _ _ Hi c k Hk) as [Hpo|[?%not_elem_of_nil|(r' & _ & (_ & _ & p & Hp & _))]]; [|done|].
  { destruct (hi_pooled _ _ _ _ _ _ _ _ _ Hi c Hpo) as (k' & Hk' & Hn & _). congruence. }
  destruct (http_parser_pause p true) as [p'|tr] eqn:Epause.
  - left. destruct (timeoutCb_ok Hworld s r q Hi Hr) as (s' & ri & E & Hi' & Hkon & _); [|eauto].
    intros c1 k1 p1 Hc1 Hk1 Hp1. assert (p1 = p) by congruence. subst p1. unfold http_parser_pause in Epause. destruct (http_errno p); auto; done.
  - right. assert (He : http_errno p <> HPE_OK /\ http_errno p <> HPE_PAUSED /\ tr = AssertFailed)
      by (unfold http_parser_pause in Epause; destruct (http_errno p); (discriminate || by injection Epause as <-)).
    destruct He as (H1 & H2 & ->). split; [exists q, c, k; split_and!; try done; by exists p|].
    unfold timeoutCb. rewrite Hr. cbn [the mbind outcome_bind set_timer conn]. rewrite Hc, Hk. cbn [the mbind outcome_bind]. rewrite Hp, Epause. done.
Qed.

Lemma client_step_cases s e : cinv s [] [] [] -> enabled s e ->
  returns s e \/ (fills_block s e /\ client_step s e = Trap OutOfBounds) \/
  (after_malformed s e /\ client_step s e = Trap AssertFailed).
Proof.
  intros Hi He. destruct e as [cb0 req d|t|c err sent errno|c err rc errno|r].
  - left. unfold returns. cbn [client_step enabled] in *.
    destruct (makeRequest_ok Hworld s [] [] [] cb0 req d Hi He) as (ret & s' & -> & Hi' & Hfr & _). exists s'. split_and!; try done. by apply frame_konst.
  - left. eexists. by split_and!.
  - left. unfold returns. cbn [client_step enabled] in *. destruct He as (k & Hk & Hw & Hsent). destruct err; [eexists; by split_and!|].
    destruct (watched s c k Hi Hk) as [Hp (r & q & Hs & Hwk & Hr & Hc & Hreq)]; [by rewrite Hw|].
    destruct (writeCb_ok Hworld s c k r q sent errno Hi Hk Hw Hs Hr) as (s' & -> & Hi' & Hkon & _); [|by exists s'].
    apply (Hsent r q); [by destruct Hs|done].
  - destruct (read_step s c err rc errno Hi He) as [?|?]; auto.
  - destruct (timer_step s r Hi He) as [?|?]; auto.
Qed.

Lemma client_step_inv s e s' : cinv s [] [] [] -> enabled s e -> client_step s e = Ok s' -> cinv s' [] [] [] /\ konst s' = konst s.
Proof.
  intros Hi He Hs. destruct (client_step_cases s e Hi He) as [(s1 & Hs1 & Hi1)|[[_ Ht]|[_ Ht]]]; congruence.
Qed.

Lemma client_inv s : client_reach s -> cinv s [] [] [].
Proof.
  induction 1 as [? ? ? ? ? s0 s Hn Hinit|s e s' _ IH He Hs]; [by eapply client_init_ok|]. by destruct (client_step_inv s e s' IH He Hs).
Qed.


(** C11: For an application that gives a callback with each request, and a clock
    that shows a date: in every state of a client each request that was accepted
    has been called back exactly once or is still there, and one that is still there is served
    by a connection that waits for its socket to become readable or writable. *)
Theorem client_calls_back_once s : client_reach s ->
  accepted s ≡ₚ (fst <$> called_back s) ++ live (reqs s) /\
  (forall r q, reqs s !! r = Some q -> exists c k,
     conn q = Some c /\ conns s !! c = Some k /\ request k = Some r /\ (writeWatcher k = true \/ readWatcher k = true)).
Proof.
  intros Hi%client_inv. split.
  - pose proof (hi_log _ _ _ _ _ _ _ _ _ Hi) as Hlog. by rewrite app_nil_r in Hlog.
  - intros r q Hr. destruct (hi_req _ _ _ _ _ _ _ _ _ Hi r q Hr) as [?%not_elem_of_nil|(c & k & Hc & Hk & Hrk)]; [done|].
    exists c, k. split_and!; try done.
    destruct (hi_conn _ _ _ _ _ _ _ _ _ Hi c k Hk) as [Hpo|[?%not_elem_of_nil|(r' & Hs & (_ & Hw & _))]]; [|done|].
    + destruct (hi_pooled _ _ _ _ _ _ _ _ _ Hi c Hpo) as (k' & Hk' & Hn & _). congruence.
    + rewrite Hw. destruct (readWatcher k); auto.
Qed.

(** The next connection is not one that is in use. *)
Lemma next_conn_other s c k c' : cinv s [] [] [] -> conns s !! c = Some k -> c ∉ connections s -> next_conn s = Some c' -> c' <> c.
Proof.
  intros Hi Hk Hp Hn ->. unfold next_conn in Hn. destruct (connections s) as [|c1 rest].
  - destruct (answer (asks s)); try done. injection Hn as Hn. pose proof (hi_conn_addr _ _ _ _ _ _ _ _ _ Hi c k Hk). lia.
  - injection Hn as ->. apply Hp. by left.
Qed.

(** C13: A send or a receive that fails, and a peer that closes, in any state of a
    client as in the theorems above.  When the
    connection was new, or when no other is to be had (the pool is empty and
    connecting fails), the request is called back exactly once, with no
    response, and is gone.  When the connection came from the pool and another
    is to be had, nothing is called back: the request starts anew, from its
    first byte, on that other connection, the first of the pool or, if the pool
    is empty, a new one, which waits to be written. *)
Theorem client_io_error s c k r q (read : bool) (closed : bool) (errno : Z) :
  client_reach s -> conns s !! c = Some k -> request k = Some r -> reqs s !! r = Some q ->
  (if read then readWatcher k else writeWatcher k) = true ->
  exists s', (if read then readCb s c false (if closed then Some [] else None) errno
              else writeCb s c false None errno) = Ok s' /\
    (isNew k = true \/ next_conn s = None -> given_up s r q s') /\
    (forall c', isNew k = false -> next_conn s = Some c' -> c' <> c /\ restarted s r q c' s').
Proof.
  intros Hi%client_inv Hk Hrk Hr Hw.
  destruct (watched s c k Hi Hk) as [Hp (r0 & q0 & Hs & _)]; [by destruct read; rewrite Hw, ?orb_true_r|].
  assert (r0 = r) as -> by (destruct Hs; congruence).
  assert (Hdone : forall s', failed s k r q s' ->
    (isNew k = true \/ next_conn s = None -> given_up s r q s') /\
    (forall c', isNew k = false -> next_conn s = Some c' -> c' <> c /\ restarted s r q c' s')).
  { unfold failed. intros s' Hf. split; [intros [Hn|Hn]|intros c' Hn Hc']; rewrite Hn in Hf; [done|by destruct (isNew k)|].
    rewrite Hc' in Hf. split; [|done]. by eapply next_conn_other. }
  destruct read.
  - destruct (readCb_ok Hworld (konst s) s c k r q (if closed then Some [] else None) errno eq_refl Hi Hk Hw Hs Hr) as (s' & -> & _ & _ & Hf).
    { intros b d. by destruct closed. }
    exists s'. split; [done|]. apply Hdone, Hf. destruct closed; auto.
  - destruct (writeCb_ok Hworld s c k r q None errno Hi Hk Hw Hs Hr I) as (s' & -> & _ & _ & Hf).
    exists s'. split; [done|]. by apply Hdone, Hf.
Qed.

(** ** An exchange *)

(** The events of a socket that takes [sends] bytes at a time. *)
Fixpoint writes s (c : nat) (sends : list Z) : outcome EvHttpClient :=
  match sends with
  | [] => Ok s
  | n :: sends => s ← writeCb s c false (Some n) 0; writes s c sends
  end.

(** A connection with a new request, of which [n] bytes are sent. *)
Definition sending (f : Z) (b : bool) (r : nat) (n : Z) : HttpConn :=
  mkConn f (Some r) n (Some (http_parser_init HTTP_RESPONSE)) HEADER_STATE_FIELD [] [] [] true false false false false b.
Definition sent_all (f : Z) (b : bool) (r : nat) (n : Z) : HttpConn :=
  mkConn f (Some r) n (Some (http_parser_init HTTP_RESPONSE)) HEADER_STATE_FIELD [] [] [] false true false false false b.

Lemma makeRequest_sending s cb0 req d s1 : cinv s [] [] [] -> makeRequest s cb0 req d = Ok (0, s1) ->
  exists c f b r q, conns s1 !! c = Some (sending f b r 0) /\ reqs s1 !! r = Some q /\ conn q = Some c /\
    requestString q = req /\ rq_data q = d /\ ri_headers (rq_response q) = ∅.
Proof.
  intros Hi Hm. unfold makeRequest in Hm.
  destruct (getConn_ok Hworld (clearLastError s) [] [] [] Hi) as (s2 & o & Hg & _ & Hrq & _ & _ & Ho). rewrite Hg in Hm.
  cbn [mbind outcome_bind] in Hm. destruct o as [c|]; [|done].
  destruct Ho as (_ & _ & _ & k & Hk & (f & b & ->)).
  change (conns (set_ticks _ _)) with (conns s2) in Hm. rewrite Hk in Hm. cbn [the mbind outcome_bind] in Hm.
  injection Hm as <-. eexists c, f, b, (next s2), _. lib_cbn. rewrite !lookup_insert_eq. by split_and!.
Qed.

(** One send. *)
Lemma write_piece s c f b r q n m : conns s !! c = Some (sending f b r n) -> reqs s !! r = Some q ->
  0 <= n -> 0 < m < 2 ^ 31 -> n + m <= Z.of_nat (length (requestString q)) ->
  writeCb s c false (Some m) 0 = Ok (set_conn s c
    (if n + m =? Z.of_nat (length (requestString q)) then sent_all f b r (n + m) else sending f b r (n + m))).
Proof.
  intros Hk Hr Hn Hm Hle. unfold writeCb. rewrite Hk. cbn [the mbind outcome_bind sending request request_of]. rewrite Hr.
  cbn [the mbind outcome_bind]. change (requestBytesSent (sending f b r n)) with n. rewrite guard_trap_true by lia. rewrite (s32_small m) by lia.
  rewrite (proj2 (Z.ltb_ge m 0)) by lia. by destruct (n + m =? _).
Qed.

Lemma writes_ok sends s c f b r q n : conns s !! c = Some (sending f b r n) -> reqs s !! r = Some q ->
  0 <= n -> Forall (fun m => 0 < m < 2 ^ 31) sends -> sends <> [] ->
  n + foldr Z.add 0 sends = Z.of_nat (length (requestString q)) ->
  writes s c sends = Ok (set_conn s c (sent_all f b r (Z.of_nat (length (requestString q))))).
Proof.
  intros Hk Hr. revert s n Hk Hr. induction sends as [|m sends IH]; intros s n Hk Hr Hn Hall Hne Hsum; [done|].
  apply Forall_cons in Hall as [Hm Hall]. cbn [foldr] in Hsum. cbn [writes].
  assert (Hpos : 0 <= foldr Z.add 0 sends) by (clear -Hall; induction Hall; cbn; lia).
  rewrite (write_piece s c f b r q n m Hk Hr) by lia. cbn [mbind outcome_bind]. destruct sends as [|m2 sends].
  - cbn [foldr writes] in *. rewrite (proj2 (Z.eqb_eq (n + m) (Z.of_nat (length (requestString q))))) by lia. do 3 f_equal. lia.
  - pose proof (Forall_inv Hall) as Hm2. cbv beta in Hm2. pose proof (Forall_inv_tail Hall) as Htl.
    assert (0 <= foldr Z.add 0 sends) by (clear -Htl; induction Htl; cbn; lia). cbn [foldr] in Hsum.
    rewrite (proj2 (Z.eqb_neq (n + m) (Z.of_nat (length (requestString q))))) by lia.
    rewrite (IH (set_conn s c (sending f b r (n + m))) (n + m)); try done; [|by apply lookup_set_conn|lia|cbn [foldr]; lia].
    by rewrite set_conn_twice.
Qed.

Lemma sent_inv s c f b r q : cinv s [] [] [] -> conns s !! c = Some (sending f b r 0) -> reqs s !! r = Some q -> conn q = Some c ->
  cinv (set_conn s c (sent_all f b r (Z.of_nat (length (requestString q))))) [] [] [].
Proof.
  intros Hi Hk Hr Hc. destruct (watched s c _ Hi Hk eq_refl) as [Hp _]. set (k' := sent_all _ _ _ _).
  assert (Hi1 : cinv (set_conn s c k') [] [c] []).
  { apply (inv_set_loose (inv_loosen_conn Hi c _ Hk Hp)); [set_solver|by eapply hi_conn_addr|].
    intros r' q' Hr' Hq'. right.
    pose proof (serves_only _ _ _ _ _ _ _ _ _ c _ r r' q' Hi Hk eq_refl Hr' Hq') as ->%list_elem_of_singleton. done. }
  apply (inv_attach (inv_loosen_req Hi1 r q Hr) c k' r q [] [] eq_refl eq_refl); [apply lookup_set_conn|done| |].
  - split; [done|]. exists q. split_and!; try done; cbn; lia.
  - split_and!; try done. eexists. split; [done|]. intros _. apply parser_init_ok.
Qed.

(** C12: A whole exchange, with a response whose end a Content-Length says: a
    well-formed HTTP/1.1 response with a three-digit status code, a head of at most 80 KiB
    with a Content-Length that is the length of the body, and without
    Connection, Proxy-Connection, Transfer-Encoding, Upgrade or further
    Content-Length headers.  A non-empty request that is accepted is sent, in whatever
    portions the socket takes, and such a response to it arrives, in whatever
    pieces shorter than the read buffer: then its callback, and no other, has
    been called, once, with the status code, the headers (the last line of a
    name counts) and the body of the response. *)
Theorem client_delivers_response s f req d s1 sends rs pieces :
  client_reach s -> makeRequest s (Some f) req d = Ok (0, s1) ->
  Forall (fun m => 0 < m < 2 ^ 31) sends -> sends <> [] -> foldr Z.add 0 sends = Z.of_nat (length req) ->
  response_ok rs -> concat pieces = print_response rs ->
  Forall (fun p => p <> [] /\ Z.of_nat (length p) < block_size s) pieces ->
  exists c s2 s3 lat, writes s1 c sends = Ok s2 /\ reads s2 c pieces = Ok s3 /\
    called_back s3 = called_back s ++ [(d, Some (mkRi false (rs_code rs) lat (response_headers rs) (rs_body rs)))] /\
    accepted s1 = accepted s ++ [d].
Proof.
  intros Hi%client_inv Hm Hsends Hsne Hsum Hrs Hpieces Hall.
  destruct (makeRequest_sending s (Some f) req d s1 Hi Hm) as (c & fd0 & b & r & q & Hk & Hr & Hc & Hreq & Hd & Hh).
  destruct (makeRequest_ok Hworld s [] [] [] (Some f) req d Hi ltac:(done)) as (ret & s1' & Hm' & Hi1 & Hfr & Hret).
  rewrite Hm in Hm'. injection Hm' as <- <-. destruct Hret as [(_ & Hacc & _)|[? _]]; [|done].
  rewrite <-Hreq in Hsum.
  pose proof (writes_ok sends s1 c fd0 b r q 0 Hk Hr ltac:(lia) Hsends Hsne ltac:(lia)) as Hw.
  pose proof (sent_inv s1 c fd0 b r q Hi1 Hk Hr Hc) as Hi2. set (k2 := sent_all _ _ _ _) in *.
  destruct (deliver Hworld (set_conn s1 c k2) c k2 r q rs pieces Hi2 (lookup_set_conn _ _ _) eq_refl Hr Hh Hrs Hpieces)
    as (s3 & lat & Hreads & _ & _ & Hcalled).
  { apply (Forall_impl _ _ _ Hall). intros p [? ?]. split; [done|].
    change (block_size (set_conn s1 c k2)) with (block_size s1). by rewrite (proj1 (fr_const _ _ Hfr)). }
  exists c, (set_conn s1 c k2), s3, lat. split_and!; try done. rewrite Hcalled, Hd.
  change (called_back (set_conn s1 c k2)) with (called_back s1). by rewrite (fr_called _ _ Hfr).
Qed.

End System.

(** ** A concrete world

    Connections succeed, the clock ticks once a second, and the callback 0 makes
    another request with the callback 1. *)
Definition ticking_world : World := {|
  answer n := Connected (Z.of_nat n + 3);
  gettimeofday n := mkTv (Z.of_nat n mod 2 ^ 40) 0;
  strerror _ := str "error";
  getaddrinfo _ _ := 0;
  app f _ d _ := if bool_decide (f = 0%nat) then [OpRequest (Some 1%nat) (str "again") (S d)] else [] |}.

Lemma ticking_world_ok : @world_ok ticking_world.
Proof.
  split.
  - intros n. unfold in_time. cbn [gettimeofday ticking_world tv_sec tv_usec].
    pose proof (Z.mod_pos_bound (Z.of_nat n) (2 ^ 40) ltac:(lia)). lia.
  - intros f ri d cd cb0 req d'. cbn [app ticking_world]. case_bool_decide; intros Hin; [|by apply not_elem_of_nil in Hin].
    by apply list_elem_of_singleton in Hin as [= -> _ _].
Qed.

Definition no_client : EvHttpClient := mkClient ∅ ∅ [] 0 (S754_zero false) 0 0 Url_ 0 [] 0 0 [] [] [] [].
Definition or_none (m : outcome EvHttpClient) : EvHttpClient := match m with Ok s => s | Trap _ => no_client end.

(** A client with one pooled connection and a request on it. *)
Definition demo_new : EvHttpClient := or_none (new_EvHttpClient (str "http://h:8080/") (S754_zero false) 9 1 1024).
Definition demo_init : EvHttpClient := or_none (i ← @init ticking_world demo_new; Ok (snd i)).
Definition demo_made : EvHttpClient := or_none (i ← @makeRequest ticking_world demo_init (Some 0%nat) (str "GET") 5; Ok (snd i)).
Definition demo_sent : EvHttpClient := or_none (@writeCb ticking_world demo_made 0 false (Some 3) 0).

Definition demo_response : response := mkResponse 200 (str "OK") [(str "A", str "1"); (str "A", str "2")] (str "2") (str "hi").

Lemma demo_reach : @client_reach ticking_world demo_init.
Proof. by apply (@cr_init ticking_world (str "http://h:8080/") (S754_zero false) 9 1 1024 demo_new). Qed.

Lemma demo_sent_reach : @client_reach ticking_world demo_sent.
Proof.
  apply (@cr_step ticking_world demo_made (EWritable 0 false (Some 3) 0)); [|..|by vm_compute].
  - apply (@cr_step ticking_world demo_init (EMake (Some 0%nat) (str "GET") 5)); [apply demo_reach|done|by vm_compute].
  - eexists. split; [by vm_compute|]. split; [done|]. intros r q Hr Hq.
    vm_compute in Hr. injection Hr as <-. vm_compute in Hq. injection Hq as <-. by vm_compute.
Qed.


Lemma client_calls_back_once_witness :
  accepted demo_sent ≡ₚ (fst <$> called_back demo_sent) ++ live (reqs demo_sent).
Proof. apply (@client_calls_back_once ticking_world ticking_world_ok demo_sent demo_sent_reach). Defined.

Definition demo_conn : HttpConn := match conns demo_sent !! 0%nat with Some k => k | None => fresh_conn 0 true end.
Definition demo_req : RequestInfo :=
  match reqs demo_sent !! 1%nat with Some q => q | None => mkReq (mkRi false 0 (S754_zero false) ∅ []) None None [] (mkTv 0 0) false 0 end.

(** A client without a pool, whose first connection is new. *)
Definition direct_new : EvHttpClient := or_none (new_EvHttpClient (str "http://h:8080/") (S754_zero false) 9 0 1024).
Definition direct_init : EvHttpClient := or_none (i ← @init ticking_world direct_new; Ok (snd i)).
Definition direct_made : EvHttpClient := or_none (i ← @makeRequest ticking_world direct_init (Some 0%nat) (str "GET") 5; Ok (snd i)).
Definition direct_conn : HttpConn := default (fresh_conn 0 true) (conns direct_made !! 0%nat).
Definition direct_req : RequestInfo := default demo_req (reqs direct_made !! 1%nat).

Lemma direct_made_reach : @client_reach ticking_world direct_made.
Proof.
  apply (@cr_step ticking_world direct_init (EMake (Some 0%nat) (str "GET") 5)); [|done|vm_compute; reflexivity].
  by apply (@cr_init ticking_world (str "http://h:8080/") (S754_zero false) 9 0 1024 direct_new).
Qed.

(** On the new connection the request is given up; on the one from the pool it
    starts anew on a connection that is opened. *)
Lemma client_io_error_witness :
  (exists s', @writeCb ticking_world direct_made 0 false None 32 = Ok s' /\ given_up direct_made 1 direct_req s') /\
  exists s', @readCb ticking_world demo_sent 0 false (Some []) 104 = Ok s' /\ restarted demo_sent 1 demo_req 2 s'.
Proof.
  split.
  - destruct (@client_io_error ticking_world ticking_world_ok direct_made 0 direct_conn 1 direct_req false false 32) as (s' & H1 & H2 & _);
      [apply direct_made_reach|vm_compute; reflexivity..|]. exists s'. split; [exact H1|]. apply H2. left. vm_compute. reflexivity.
  - destruct (@client_io_error ticking_world ticking_world_ok demo_sent 0 demo_conn 1 demo_req true true 104) as (s' & H1 & _ & H2);
      [apply demo_sent_reach|vm_compute; reflexivity..|]. exists s'. split; [exact H1|]. apply (H2 2%nat); vm_compute; reflexivity.
Defined.

Lemma demo_response_ok : response_ok demo_response.
Proof.
  assert (Hh : forall v, value_ok v -> header_ok (str "A", v)).
  { intros v Hv. split_and!; [done|by repeat constructor| |done]. intros Hin.
    by repeat (apply elem_of_cons in Hin as [Heq|Hin]; [vm_compute in Heq; congruence|]); apply not_elem_of_nil in Hin. }
  unfold response_ok. split_and!; [done|done|by repeat constructor| | |done].
  - constructor; [|constructor; [|constructor]]; apply Hh; by split_and!; repeat constructor.
  - split_and!; try done; by repeat constructor.
Qed.

Lemma client_delivers_response_witness :
  exists c s2 s3 lat, @writes ticking_world demo_made c [1; 2] = Ok s2 /\
    @reads ticking_world s2 c [take 20 (print_response demo_response); drop 20 (print_response demo_response)] = Ok s3 /\
    called_back s3 = called_back demo_init ++ [(5%nat, Some (mkRi false 200 lat (response_headers demo_response) (str "hi")))] /\
    accepted demo_made = accepted demo_init ++ [5%nat].
Proof.
  apply (@client_delivers_response ticking_world ticking_world_ok demo_init 0 (str "GET") 5 demo_made [1; 2] demo_response
    [take 20 (print_response demo_response); drop 20 (print_response demo_response)]).
  - apply demo_reach.
  - by vm_compute.
  - by repeat constructor.
  - done.
  - done.
  - apply demo_response_ok.
  - by vm_compute.
  - repeat constructor; by vm_compute.
Defined.

(** ** Where the library fails *)

(** The test for a null callback has no effect: the response is then called
    back through the null pointer. *)
Example client_null_callback :
  (i ← @makeRequest ticking_world demo_init None (str "GET") 5;
   s ← @writeCb ticking_world (snd i) 0 false (Some 3) 0;
   @readCb ticking_world s 0 false (Some (print_response demo_response)) 0) = Trap NullDeref.
Proof. by vm_compute. Qed.

(** A receive that fills the buffer writes behind it. *)
Example client_full_block : @readCb ticking_world demo_sent 0 false (Some (repeat 65 1024)) 0 = Trap OutOfBounds.
Proof. by vm_compute. Qed.

(** A timer that fires after a malformed response stops the program: the parser
    in error cannot be paused. *)
Example client_timeout_malformed :
  (s ← @readCb ticking_world demo_sent 0 false (Some (str "junk")) 0; @timeoutCb ticking_world s 1) = Trap AssertFailed.
Proof. by vm_compute. Qed.

(** A chunked response with a trailer is never delivered. *)
Example client_trailer_lost :
  (s ← @readCb ticking_world demo_sent 0 false
     (Some (str "HTTP/1.1 200 OK" ++ [13; 10] ++ str "Transfer-Encoding: chunked" ++ [13; 10; 13; 10]
            ++ str "0" ++ [13; 10] ++ str "T: 1" ++ [13; 10; 13; 10])) 0; Ok (called_back s)) = Ok [].
Proof. by vm_compute. Qed.

(** A descriptor whose connect() fails is not closed. *)
Definition refusing_world : World := {|
  answer n := ConnectFailed (Z.of_nat n + 3) 111; gettimeofday n := mkTv 0 0; strerror _ := []; getaddrinfo _ _ := 0;
  app _ _ _ _ := [] |}.
Example client_connect_leak :
  (i ← @makeRequest refusing_world demo_new (Some 0%nat) [] 5; Ok (fst i, opened (snd i), closed (snd i), map_to_list (conns (snd i))))
  = Ok (-1, [3], [], []).
Proof. by vm_compute. Qed.
