(* ===== verification/HttpInterface.v ===== *)
(** * The library behind the proxy

    The HTTP client of the program and the proxy are proved against an interface
    ([EvHttpLaws] of Proxy): a request returns and waits for its callback if it
    was accepted, and a callback ends exactly one wait.  Here the library is
    shown to implement it, with its states that satisfy the invariant, its own
    operations, and the events of its sockets and timers as what calls back. *)

From Stdlib Require Import SpecFloat.
From S2P Require Import Prelude Utils UrlSnprintf Event Proxy HttpParser HttpFacts HttpRun HttpSplit HttpOrder HttpMessage HttpUrl.
From S2P Require Import HttpLib HttpPool HttpOps HttpEvents HttpDeliver HttpClientProps.

Section Interface.
Context `{World} (Hworld : world_ok).
Implicit Type s : EvHttpClient.

(** A client whose url has a port. *)
Definition good s : Prop := cinv s [] [] [] /\ exists v, port_ (url s) = Some v.

Definition good_client : Type := { s : EvHttpClient | good s }.

Lemma ll_text_total v : exists t, ll_text v = Ok t.
Proof.
  unfold ll_text. pose proof (uwrap_range 64 (- v) ltac:(lia)). pose proof (uwrap_range 64 v ltac:(lia)).
  destruct (Z.ltb_spec v 0).
  - destruct (put_digits_spec 20 32 (u64 (- v)) []) as (ds & -> & _ & _ & Hl); [lia|lia|]. cbn [mbind outcome_bind].
    destruct (32 - length ds)%nat eqn:E; [lia|]. eauto.
  - destruct (put_digits_spec 20 32 (u64 v) []) as (ds & -> & _ & _ & Hl); [lia|lia|]. cbn [mbind outcome_bind]. eauto.
Qed.

Lemma buildRequest_total s path method hs body : (exists v, port_ (url s) = Some v) ->
  exists t, buildRequest s path method hs body = Ok t.
Proof.
  intros (v & Hv). unfold buildRequest, url_port. rewrite Hv.
  destruct (ll_text_total v) as (tv & Htv). destruct (ll_text_total (Z.of_nat (length body))) as (tb & Htb).
  destruct (hs !! str "Host"); cbn [mbind outcome_bind].
  - destruct body, (hs !! str "Content-Length"); rewrite ?Htb; cbn [mbind outcome_bind]; eauto.
  - destruct (negb (v =? 80) && negb (v =? 443)); rewrite ?Htv; cbn [mbind outcome_bind];
      destruct body, (hs !! str "Content-Length"); rewrite ?Htb; cbn [mbind outcome_bind]; eauto.
Qed.

Lemma makeRequest_parts_ok s f path method hs body d : good s ->
  exists ret s', makeRequest_parts s (Some f) path method hs body d = Ok (ret, s') /\ good s' /\
    ((ret = 0 /\ live (reqs s') ≡ₚ d :: live (reqs s)) \/ (ret = -1 /\ reqs s' = reqs s)).
Proof.
  intros [Hi Hu]. unfold makeRequest_parts. destruct (buildRequest_total s path method hs body Hu) as (t & ->).
  destruct (makeRequest_ok Hworld s [] [] [] (Some f) t d Hi ltac:(done)) as (ret & s' & Hm & Hi' & Hfr & Hret).
  exists ret, s'. split; [done|]. split; [|by destruct Hret as [(? & ? & ?)|(? & ? & ?)]; [left|right]].
  split; [done|]. by rewrite (proj1 (proj2 (proj2 (fr_const _ _ Hfr)))).
Qed.

(** An operation that keeps a client good, as one on good clients. *)
Definition on_good (m : outcome (Z * EvHttpClient)) (Hm : forall r s', m = Ok (r, s') -> good s') : outcome (Z * good_client) :=
  match m as o return m = o -> outcome (Z * good_client) with
  | Ok (r, s') => fun E => Ok (r, exist _ s' (Hm r s' E))
  | Trap t => fun _ => Trap t
  end eq_refl.

Lemma on_good_ok m Hm r s' : m = Ok (r, s') -> exists g, on_good m Hm = Ok (r, g) /\ proj1_sig g = s'.
Proof. intros E. subst m. cbn. eauto. Qed.

Lemma request_keeps_good (e : good_client) f path method hs body d r s' :
  makeRequest_parts (proj1_sig e) (Some f) path method hs body d = Ok (r, s') -> good s'.
Proof.
  intros Hm. destruct (makeRequest_parts_ok (proj1_sig e) f path method hs body d (proj2_sig e)) as (r' & s1 & Hm' & Hg & _).
  congruence.
Qed.

Lemma initConnPool_url n s : url (initConnPool n s) = url s.
Proof.
  revert s. induction n as [|n IH]; intros s; cbn [initConnPool]; [done|]. unfold createConn.
  destruct (answer (asks s)); [done|done|]. by rewrite IH.
Qed.

Lemma init_keeps_good (e : good_client) r s' : init (proj1_sig e) = Ok (r, s') -> good s'.
Proof.
  destruct e as [s [Hi Hu]]. cbn [proj1_sig]. unfold init. intros Hin. inv_bind Hin. inv_bind Hin.
  destruct (_ <? 0); [by injection Hin as _ <-|]. unfold guard_trap in Hin. destruct (_ =? 0); [|done].
  injection Hin as _ <-. split; [by apply initConnPool_ok|]. by rewrite initConnPool_url.
Qed.

(** The library, as the proxy sees it: its callback is number 0.  It calls back
    for [d] when a socket or a timer has an event, in which the callback of [d],
    and no other, is made; the callback makes no request itself. *)
Definition library : EvHttp good_client := {|
  ev_init e := on_good (init (proj1_sig e)) (init_keeps_good e);
  Proxy.setTimeout e t := exist _ (setTimeout (proj1_sig e) t) (proj2_sig e);
  Proxy.makeGet e path hs d :=
    on_good (makeGet (proj1_sig e) (Some 0%nat) path hs d) (request_keeps_good e 0 path (str "GET") hs [] d);
  Proxy.makePost e path hs body d :=
    on_good (makePost (proj1_sig e) (Some 0%nat) path hs body d) (request_keeps_good e 0 path (str "POST") hs body d);
  Proxy.makeDelete e path hs body d :=
    on_good (makeDelete (proj1_sig e) (Some 0%nat) path hs body d) (request_keeps_good e 0 path (str "DELETE") hs body d);
  waiting e := live (reqs (proj1_sig e));
  Proxy.finished e d ri e' :=
    exists ev, enabled (proj1_sig e) ev /\ client_step (proj1_sig e) ev = Ok (proj1_sig e') /\
      called_back (proj1_sig e') = called_back (proj1_sig e) ++ [(d, ri)] /\
      accepted (proj1_sig e') = accepted (proj1_sig e) |}.

Lemma library_requested (e : good_client) path method hs body d :
  @requested _ library e d (on_good (makeRequest_parts (proj1_sig e) (Some 0%nat) path method hs body d)
    (request_keeps_good e 0 path method hs body d)).
Proof.
  destruct (makeRequest_parts_ok (proj1_sig e) 0 path method hs body d (proj2_sig e)) as (r & s1 & Hs1 & _ & Hret).
  destruct (on_good_ok _ (request_keeps_good e 0 path method hs body d) r s1 Hs1) as (g & Hg & <-).
  exists r, g. split; [done|]. cbn [waiting library]. destruct Hret as [[-> Hl]|[-> Hl]]; [by left|right]. by rewrite Hl.
Qed.

(** An event keeps a client good. *)
Lemma event_keeps_good s ev s' : good s -> enabled s ev -> client_step s ev = Ok s' -> good s'.
Proof.
  intros [Hi Hu] He Hs. destruct (client_step_inv Hworld s ev s' Hi He Hs) as [Hi' Hkon]. split; [done|].
  unfold konst in Hkon. by injection Hkon as _ ->.
Qed.

(** C14: The library obeys the laws of the interface the HTTP client and the proxy
    are proved against.  While the clock shows a date and the application gives
    callbacks: from any state of a client whose url has a port, a get,
    a post or a delete (with a callback) returns, without a failed assertion or
    a bad pointer; one that returns 0 waits for its callback, one that does not
    return 0 does not; an event in which the library calls back, with a callback
    that makes no request itself, ends exactly the wait of the request it calls
    back for; and no event leaves these states. *)
Theorem library_implements_interface :
  @EvHttpLaws good_client library /\
  (forall (e : good_client) ev s', enabled (proj1_sig e) ev -> client_step (proj1_sig e) ev = Ok s' ->
     exists e' : good_client, proj1_sig e' = s').
Proof.
  split; [split|].
  - intros e path hs d. apply library_requested.
  - intros e path hs body d. apply library_requested.
  - intros e path hs body d. apply library_requested.
  - intros [s [Hi Hu]] d ri [s' [Hi' Hu']] (ev & _ & _ & Hc & Ha). cbn [proj1_sig waiting library] in *.
    pose proof (hi_log _ _ _ _ _ _ _ _ _ Hi) as L. pose proof (hi_log _ _ _ _ _ _ _ _ _ Hi') as L'.
    rewrite Ha, L, Hc, fmap_app, <-app_assoc in L'. by apply Permutation_app_inv_l in L'.
  - intros e ev s' He Hs. by exists (exist _ s' (event_keeps_good _ ev s' (proj2_sig e) He Hs)).
Qed.

End Interface.

(** ** A client of the proxy *)

(** Sockets connect, and the callbacks make no requests. *)
Definition quiet_world : World := {|
  answer n := Connected (Z.of_nat n + 3);
  gettimeofday n := mkTv 0 0; strerror _ := []; getaddrinfo _ _ := 0; app _ _ _ _ := [] |}.

Lemma quiet_world_ok : @world_ok quiet_world.
Proof. split; [done|]. intros f ri d cd cb0 req d' Hin. by apply not_elem_of_nil in Hin. Qed.

(** A client without a pool; a get on it; its connection fails. *)
Definition quiet_new : EvHttpClient := or_none (new_EvHttpClient (str "http://h:8080/") (S754_zero false) 9 0 1024).
Definition quiet_init : EvHttpClient := or_none (i ← @init quiet_world quiet_new; Ok (snd i)).
Definition quiet_asked : EvHttpClient := or_none (i ← @makeGet quiet_world quiet_init (Some 0%nat) (str "/") ∅ 5; Ok (snd i)).
Definition quiet_failed : EvHttpClient := or_none (@writeCb quiet_world quiet_asked 0 false None 32).

Lemma quiet_init_reach : @client_reach quiet_world quiet_init.
Proof. by apply (@cr_init quiet_world (str "http://h:8080/") (S754_zero false) 9 0 1024 quiet_new). Qed.

Lemma quiet_asked_reach : @client_reach quiet_world quiet_asked.
Proof.
  assert (E : exists t, @buildRequest quiet_init (str "/") (str "GET") ∅ [] = Ok t) by (eexists; vm_compute; reflexivity).
  destruct E as [t E]. apply (@cr_step quiet_world quiet_init (EMake (Some 0%nat) t 5)); [apply quiet_init_reach|done|].
  cbn [client_step]. vm_compute in E. injection E as <-. vm_compute. reflexivity.
Qed.

Lemma quiet_write_enabled : enabled quiet_asked (EWritable 0 false None 32).
Proof. eexists. split; [vm_compute; reflexivity|]. by split; [vm_compute; reflexivity|]. Qed.

Lemma quiet_good s : @client_reach quiet_world s -> port_ (url s) = Some 8080 -> good s.
Proof. intros Hs Hp. split; [by apply (@client_inv quiet_world quiet_world_ok)|eauto]. Qed.

Definition good_init : good_client := exist _ quiet_init (quiet_good _ quiet_init_reach eq_refl).
Definition good_asked : good_client := exist _ quiet_asked (quiet_good _ quiet_asked_reach eq_refl).

Lemma quiet_failed_good : good quiet_failed.
Proof.
  apply (@event_keeps_good quiet_world quiet_world_ok quiet_asked (EWritable 0 false None 32));
    [exact (proj2_sig good_asked)|apply quiet_write_enabled|vm_compute; reflexivity].
Qed.
Definition good_failed : good_client := exist _ quiet_failed quiet_failed_good.

(** The get on the concrete client is a request of the interface, the failing
    connection is one of its callbacks, and it ends the wait. *)
Lemma library_implements_interface_witness :
  let L := @library quiet_world quiet_world_ok in
  @requested _ L good_init 5 (@Proxy.makeGet _ L good_init (str "/") ∅ 5) /\
  @Proxy.finished _ L good_asked 5 None good_failed /\
  @waiting _ L good_asked ≡ₚ 5%nat :: @waiting _ L good_failed.
Proof.
  intros L. destruct (@library_implements_interface quiet_world quiet_world_ok) as [Hlaws _].
  assert (Hf : @Proxy.finished _ L good_asked 5 None good_failed).
  { exists (EWritable 0 false None 32). split; [apply quiet_write_enabled|]. split; [|split]; vm_compute; reflexivity. }
  split; [apply (@get_requested _ L Hlaws)|]. split; [exact Hf|]. exact (@finished_once _ L Hlaws _ _ _ _ Hf).
Defined.
