(* ===== verification/HttpParseUrl.v ===== *)
(** * Splitting a url (http_parser_parse_url)

    http_parser_parse_url runs the characters of a url through parse_url_char,
    records where each part begins and how long it is, and then splits user
    information, host and port.  [mem] is the memory at [buf], of which the
    first [buflen] bytes are the url; parts that were never written have no
    value. *)

From S2P Require Import Prelude HttpParser.

Inductive http_host_state : Set :=
| s_http_host_dead | s_http_userinfo_start | s_http_userinfo | s_http_host_start | s_http_host_v6_start
| s_http_host | s_http_host_v6 | s_http_host_v6_end | s_http_host_port_start | s_http_host_port.

#[export] Instance http_host_state_eq : EqDecision http_host_state.
Proof. solve_decision. Defined.

Inductive url_field : Set := UF_SCHEMA | UF_HOST | UF_PORT | UF_PATH | UF_QUERY | UF_FRAGMENT | UF_USERINFO.

#[export] Instance url_field_eq : EqDecision url_field.
Proof. solve_decision. Defined.

Definition uf_num (f : url_field) : Z :=
  match f with
  | UF_SCHEMA => 0 | UF_HOST => 1 | UF_PORT => 2 | UF_PATH => 3 | UF_QUERY => 4 | UF_FRAGMENT => 5 | UF_USERINFO => 6
  end.

(** [1 << uf]. *)
Definition uf_bit (f : url_field) : Z := Z.shiftl 1 (uf_num f).

(** [field_data] holds offset and length of a field, each a uint16_t. *)
Record http_parser_url := mkUrl { field_set : Z; url_port : Z; field_data : url_field -> option (Z * Z) }.

Definition set_field (u : http_parser_url) (f : url_field) (v : Z * Z) : http_parser_url :=
  mkUrl (field_set u) (url_port u) (fun g => if decide (g = f) then Some v else field_data u g).
Definition add_set (u : http_parser_url) (f : url_field) : http_parser_url :=
  mkUrl (Z.lor (field_set u) (uf_bit f)) (url_port u) (field_data u).

(** A field that is read; without a value the read is undefined. *)
Definition get_field (u : http_parser_url) (f : url_field) : outcome (Z * Z) :=
  match field_data u f with Some v => Ok v | None => Trap Undefined end.

(** [field_data[f].len++]. *)
Definition grow (u : http_parser_url) (f : url_field) : outcome http_parser_url :=
  v ← get_field u f; Ok (set_field u f (fst v, u16 (snd v + 1))).

(** ** The host *)

Definition http_parse_host_char (s : http_host_state) (ch : Z) : http_host_state :=
  match s with
  | s_http_userinfo | s_http_userinfo_start =>
      if ch =? 64 then s_http_host_start else if IS_USERINFO_CHAR ch then s_http_userinfo else s_http_host_dead
  | s_http_host_start =>
      if ch =? 91 then s_http_host_v6_start else if IS_HOST_CHAR ch then s_http_host else s_http_host_dead
  | s_http_host =>
      if IS_HOST_CHAR ch then s_http_host else if ch =? 58 then s_http_host_port_start else s_http_host_dead
  | s_http_host_v6_end => if ch =? 58 then s_http_host_port_start else s_http_host_dead
  | s_http_host_v6 =>
      if ch =? 93 then s_http_host_v6_end
      else if IS_HEX ch || (ch =? 58) then s_http_host_v6 else s_http_host_dead
  | s_http_host_v6_start => if IS_HEX ch || (ch =? 58) then s_http_host_v6 else s_http_host_dead
  | s_http_host_port | s_http_host_port_start => if IS_NUM ch then s_http_host_port else s_http_host_dead
  | s_http_host_dead => s_http_host_dead
  end.

(** The switch on the new state: the field a character belongs to. *)
Definition host_field (u : http_parser_url) (s new_s : http_host_state) (off : Z) : outcome http_parser_url :=
  match new_s with
  | s_http_host | s_http_host_v6 =>
      u ← (if decide (s = new_s) then Ok u
           else v ← get_field u UF_HOST; Ok (set_field u UF_HOST (u16 off, snd v)));
      grow u UF_HOST
  | s_http_host_port =>
      grow (if decide (s = new_s) then u else add_set (set_field u UF_PORT (u16 off, 0)) UF_PORT) UF_PORT
  | s_http_userinfo =>
      grow (if decide (s = new_s) then u else add_set (set_field u UF_USERINFO (u16 off, 0)) UF_USERINFO) UF_USERINFO
  | _ => Ok u
  end.

(** The loop over [n] characters from [p]; no state is a return of 1. *)
Fixpoint host_loop (mem : bytes) (n : nat) (p : Z) (s : http_host_state) (u : http_parser_url)
  : outcome (option http_host_state * http_parser_url) :=
  match n with
  | O => Ok (Some s, u)
  | S n =>
      ch ← load mem p;
      let new_s := http_parse_host_char s ch in
      if decide (new_s = s_http_host_dead) then Ok (None, u) else
      u ← host_field u s new_s p;
      host_loop mem n (p + 1) new_s u
  end.

Definition unexpected_end (s : http_host_state) : bool :=
  match s with
  | s_http_host_start | s_http_host_v6_start | s_http_host_v6 | s_http_host_port_start | s_http_userinfo
  | s_http_userinfo_start => true
  | _ => false
  end.

(** Whether it returns 0. *)
Definition http_parse_host (mem : bytes) (u : http_parser_url) (found_at : bool) : outcome (bool * http_parser_url) :=
  v ← get_field u UF_HOST;
  let '(off, len) := v in
  let u := set_field u UF_HOST (off, 0) in
  r ← host_loop mem (Z.to_nat len) off (if found_at then s_http_userinfo_start else s_http_host_start) u;
  match r : option http_host_state * http_parser_url with
  | (None, u) => Ok (false, u)
  | (Some s, u) => Ok (negb (unexpected_end s), u)
  end.

(** ** The url *)

(** The field a state belongs to; [inl false] skips a delimiter, [inl true] is
    the assertion. *)
Definition field_of (s : state) : bool + url_field :=
  match s with
  | s_req_schema_slash | s_req_schema_slash_slash | s_req_server_start | s_req_query_string_start
  | s_req_fragment_start => inl false
  | s_req_schema => inr UF_SCHEMA
  | s_req_server_with_at | s_req_server => inr UF_HOST
  | s_req_path => inr UF_PATH
  | s_req_query_string => inr UF_QUERY
  | s_req_fragment => inr UF_FRAGMENT
  | _ => inl true
  end.

(** The loop over the last [n] characters of the url; [old_uf] is the field of
    the last character.  It gives found_at, or nothing for a return of 1. *)
Fixpoint url_loop (mem : bytes) (n : nat) (p : Z) (s : state) (old_uf : option url_field) (found_at : bool)
    (u : http_parser_url) : outcome (option bool * http_parser_url) :=
  match n with
  | O => Ok (Some found_at, u)
  | S n =>
      ch ← load mem p;
      let s := parse_url_char s ch in
      match s with
      | s_dead => Ok (None, u)
      | _ =>
          match field_of s with
          | inl true => Trap AssertFailed
          | inl false => url_loop mem n (p + 1) s old_uf found_at u
          | inr uf =>
              let found_at := match s with s_req_server_with_at => true | _ => found_at end in
              if decide (old_uf = Some uf) then
                u ← grow u uf;
                url_loop mem n (p + 1) s old_uf found_at u
              else url_loop mem n (p + 1) s (Some uf) found_at (add_set (set_field u uf (u16 p, 1)) uf)
          end
      end
  end.

(** [strtoul(s, NULL, 10)] of a string of digits: it reads up to a character
    that is none; the value saturates. *)
Fixpoint strtoul_digits (mem : bytes) (v : Z) : outcome Z :=
  match mem with
  | [] => Trap OutOfBounds
  | c :: mem => if isdigit c then strtoul_digits mem (10 * v + (c - 48)) else Ok (Z.min v ULLONG_MAX)
  end.
Definition strtoul (mem : bytes) (off : Z) : outcome Z :=
  if (0 <=? off) && (off <=? Z.of_nat (length mem)) then strtoul_digits (drop (Z.to_nat off) mem) 0 else Trap OutOfBounds.

Definition is_set (u : http_parser_url) (f : url_field) : bool := negb (Z.land (field_set u) (uf_bit f) =? 0).

(** Whether it returns 0, and the parts. *)
Definition http_parser_parse_url (mem : bytes) (buflen : nat) (is_connect : bool) (u : http_parser_url)
  : outcome (bool * http_parser_url) :=
  let u := mkUrl 0 0 (field_data u) in
  r ← url_loop mem buflen 0 (if is_connect then s_req_server_start else s_req_spaces_before_url) None false u;
  match r : option bool * http_parser_url with
  | (None, u) => Ok (false, u)
  | (Some found_at, u) =>
      h ← (if is_set u UF_SCHEMA || is_set u UF_HOST then http_parse_host mem u found_at else Ok (true, u));
      match h : bool * http_parser_url with
      | (false, u) => Ok (false, u)
      | (true, u) =>
          if is_connect && negb (field_set u =? Z.lor (uf_bit UF_HOST) (uf_bit UF_PORT)) then Ok (false, u)
          else if is_set u UF_PORT then
            v ← get_field u UF_PORT;
            n ← strtoul mem (fst v);
            if 65535 <? n then Ok (false, u) else Ok (true, mkUrl (field_set u) n (field_data u))
          else Ok (true, u)
      end
  end.

(** ** Every part lies within the url *)

Lemma is_set_add u f g : is_set (add_set u f) g = bool_decide (f = g) || is_set u g.
Proof.
  unfold is_set, add_set. cbn [field_set]. rewrite Z.land_lor_distr_l.
  destruct (bool_decide_reflect (f = g)) as [->|Hne].
  - cbn [orb]. rewrite Z.land_diag. apply negb_true_iff, Z.eqb_neq. intros Hz%Z.lor_eq_0_iff.
    destruct Hz as [_ Hz]. by destruct g.
  - assert (Hz : Z.land (uf_bit f) (uf_bit g) = 0) by (by destruct f, g). rewrite Hz, Z.lor_0_r. done.
Qed.

Definition within (e : Z) (v : Z * Z) : Prop := 0 <= fst v /\ 0 <= snd v /\ fst v + snd v <= e.

(** All fields lie before [e]. *)
Definition fields_within (e : Z) (u : http_parser_url) : Prop := forall f, exists v, field_data u f = Some v /\ within e v.

Lemma fields_more e e' u : e <= e' -> fields_within e u -> fields_within e' u.
Proof. intros He Hu f. destruct (Hu f) as (v & Hv & H1 & H2 & H3). exists v. split; [done|]. split_and!; lia. Qed.

Lemma fields_set e u f v : fields_within e u -> within e v -> fields_within e (set_field u f v).
Proof. intros Hu Hv g. cbn. destruct (decide (g = f)); [eauto|apply Hu]. Qed.

Lemma fields_add e u f : fields_within e (add_set u f) <-> fields_within e u.
Proof. done. Qed.

(** A character at [p] extends a field. *)
Lemma grow_within p u f : fields_within p u -> 0 <= p < 65535 ->
  exists u', grow u f = Ok u' /\ fields_within (p + 1) u' /\ (forall g, is_set u' g = is_set u g).
Proof.
  intros Hu Hp. unfold grow, get_field. destruct (Hu f) as ([off len] & -> & H1 & H2 & H3). cbn [mbind outcome_bind fst snd] in *.
  eexists. split; [reflexivity|]. split; [|done]. apply fields_set; [by apply (fields_more p); [lia|]|].
  unfold within. cbn [fst snd]. rewrite (uwrap_small 16) by lia. lia.
Qed.

Definition url_state (s : state) : bool :=
  match s with
  | s_req_spaces_before_url | s_req_schema | s_req_schema_slash | s_req_schema_slash_slash | s_req_server_start | s_req_server
  | s_req_server_with_at | s_req_path | s_req_query_string_start | s_req_query_string | s_req_fragment_start
  | s_req_fragment => true
  | _ => false
  end.

Lemma parse_url_char_state s ch : url_state s = true ->
  parse_url_char s ch = s_dead \/ (url_state (parse_url_char s ch) = true /\ field_of (parse_url_char s ch) <> inl true).
Proof.
  intros Hs. unfold parse_url_char. destruct ((ch =? SP) || (ch =? CR) || (ch =? LF)); [by left|].
  destruct ((ch =? HT) || (ch =? 12)); [by left|].
  destruct s; try done; cbn [andb]; repeat (case_match; try (by left); try (by right)).
Qed.

Lemma dead_or_not s : s = s_dead \/ forall (A : Type) (a b : A), match s with s_dead => a | _ => b end = b.
Proof. destruct s; auto. Qed.

Definition in_server (s : state) : bool :=
  match s with s_req_server | s_req_server_with_at => true | _ => false end.
Definition before_server (s : state) : bool :=
  match s with
  | s_req_spaces_before_url | s_req_schema | s_req_schema_slash | s_req_schema_slash_slash | s_req_server_start => true
  | _ => false
  end.

Lemma parse_url_char_server s ch : in_server (parse_url_char s ch) = true -> in_server s = true \/ s = s_req_server_start.
Proof.
  unfold parse_url_char. destruct ((ch =? SP) || (ch =? CR) || (ch =? LF)); [done|]. destruct ((ch =? HT) || (ch =? 12)); [done|].
  destruct s; cbn; try done; auto; repeat (case_match; try done; auto).
Qed.

Lemma parse_url_char_leaves s ch : in_server s = true -> parse_url_char s ch <> s_dead ->
  in_server (parse_url_char s ch) = false -> isdigit ch = false.
Proof.
  intros Hs Hd Hl. destruct (isdigit ch) eqn:Hc; [exfalso|done].
  assert (Hn : ch = 48 \/ ch = 49 \/ ch = 50 \/ ch = 51 \/ ch = 52 \/ ch = 53 \/ ch = 54 \/ ch = 55 \/ ch = 56 \/ ch = 57)
    by (unfold isdigit in Hc; lia).
  destruct s; try done; destruct Hn as [->|[->|[->|[->|[->|[->|[->|[->|[->| ->]]]]]]]]]; done.
Qed.

Lemma parse_url_char_before s ch : before_server (parse_url_char s ch) = true -> before_server s = true.
Proof.
  unfold parse_url_char. destruct ((ch =? SP) || (ch =? CR) || (ch =? LF)); [done|]. destruct ((ch =? HT) || (ch =? 12)); [done|].
  destruct s; cbn; try done; repeat (case_match; try done).
Qed.

Lemma field_of_server s uf : field_of s = inr uf -> in_server s = bool_decide (uf = UF_HOST).
Proof. by destruct s; intros [= <-]. Qed.

(** What follows the host is no digit. *)
Definition host_stops (mem : bytes) (u : http_parser_url) : Prop :=
  forall off len, field_data u UF_HOST = Some (off, len) ->
    len = 0 \/ exists c, mem !! Z.to_nat (off + len) = Some c /\ isdigit c = false.

(** The invariant of the loop over the url. *)
Record url_inv (mem : bytes) (p : Z) (s : state) (old : option url_field) (u : http_parser_url) : Prop := {
  ui_fields : fields_within p u;
  ui_port : is_set u UF_PORT = false;
  ui_before : before_server s = true -> old <> Some UF_HOST;
  ui_server : in_server s = true -> old = Some UF_HOST /\ exists off len, field_data u UF_HOST = Some (off, len) /\ off + len = p;
  ui_stops : in_server s = false -> host_stops mem u
}.

Lemma host_stops_ends mem p s old u c : url_inv mem p s old u -> mem !! Z.to_nat p = Some c -> isdigit c = false ->
  host_stops mem u.
Proof.
  intros [Hf Hp Hb Hs Hn] Hc Hd. destruct (in_server s) eqn:Es; [|auto].
  destruct (Hs eq_refl) as (_ & off & len & Hh & He). intros off' len' Hh'. rewrite Hh in Hh'. injection Hh' as <- <-.
  right. exists c. by rewrite He.
Qed.

(** A delimiter, or a character of a field other than the host. *)
Lemma url_inv_other mem p s old u ch old' u' : url_inv mem p s old u -> mem !! Z.to_nat p = Some ch ->
  parse_url_char s ch <> s_dead -> in_server (parse_url_char s ch) = false ->
  (before_server (parse_url_char s ch) = true -> old' = old \/ old' <> Some UF_HOST) ->
  fields_within (p + 1) u' -> is_set u' UF_PORT = false -> field_data u' UF_HOST = field_data u UF_HOST ->
  url_inv mem (p + 1) (parse_url_char s ch) old' u'.
Proof.
  intros Hi Hc Hd Hs Ho Hf Hp Hh. split; try done.
  - intros Hb. destruct (Ho Hb) as [-> |]; [|done]. eapply ui_before; [done|]. by eapply parse_url_char_before.
  - by rewrite Hs.
  - intros _. unfold host_stops. rewrite Hh. destruct (in_server s) eqn:Es.
    + eapply host_stops_ends; [done..|]. by eapply parse_url_char_leaves.
    + by eapply ui_stops.
Qed.

Lemma url_inv_skip mem p s old u ch : url_inv mem p s old u -> mem !! Z.to_nat p = Some ch ->
  parse_url_char s ch <> s_dead -> field_of (parse_url_char s ch) = inl false ->
  url_inv mem (p + 1) (parse_url_char s ch) old u.
Proof.
  intros Hi Hc Hd Hf. eapply url_inv_other; try done; [by destruct (parse_url_char s ch)|auto| |by eapply ui_port].
  apply (fields_more p); [lia|]. by eapply ui_fields.
Qed.

(** Another character of the same field. *)
Lemma url_inv_grow mem p s u ch uf : url_inv mem p s (Some uf) u -> mem !! Z.to_nat p = Some ch -> 0 <= p < 65535 ->
  parse_url_char s ch <> s_dead -> field_of (parse_url_char s ch) = inr uf ->
  exists u', grow u uf = Ok u' /\ url_inv mem (p + 1) (parse_url_char s ch) (Some uf) u'.
Proof.
  intros Hi Hc Hp Hd Hf. destruct (grow_within p u uf (ui_fields _ _ _ _ _ Hi) Hp) as (u' & Hg & Hw & Hset).
  exists u'. split; [done|]. pose proof (field_of_server _ _ Hf) as Hs. rewrite bool_decide_decide in Hs.
  assert (Hport : is_set u' UF_PORT = false) by (rewrite Hset; by eapply ui_port).
  unfold grow, get_field in Hg. destruct (ui_fields _ _ _ _ _ Hi uf) as ([off len] & Hv & H1 & H2 & H3).
  rewrite Hv in Hg. cbn [mbind outcome_bind fst snd] in *. injection Hg as <-.
  destruct (decide (uf = UF_HOST)) as [->|Hne].
  - assert (Hin : in_server s = true).
    { destruct (parse_url_char_server s ch Hs) as [|Hst]; [done|]. exfalso. eapply (ui_before _ _ _ _ _ Hi); [by rewrite Hst|done]. }
    destruct (ui_server _ _ _ _ _ Hi Hin) as (_ & off' & len' & Hh & He). rewrite Hv in Hh. injection Hh as <- <-.
    split; try done.
    + intros Hb. by destruct (parse_url_char s ch).
    + intros _. split; [done|]. exists off, (len + 1). rewrite (uwrap_small 16) by lia. split; [done|lia].
    + by rewrite Hs.
  - eapply url_inv_other; try done; [auto|]. cbn. by destruct (decide (UF_HOST = uf)).
Qed.

(** The first character of a field. *)
Lemma url_inv_new mem p s old u ch uf : url_inv mem p s old u -> mem !! Z.to_nat p = Some ch -> 0 <= p < 65535 ->
  parse_url_char s ch <> s_dead -> field_of (parse_url_char s ch) = inr uf -> old <> Some uf ->
  url_inv mem (p + 1) (parse_url_char s ch) (Some uf) (add_set (set_field u uf (u16 p, 1)) uf).
Proof.
  intros Hi Hc Hp Hd Hf Hold. pose proof (field_of_server _ _ Hf) as Hs. rewrite bool_decide_decide in Hs.
  rewrite (uwrap_small 16) by lia.
  assert (Hw : fields_within (p + 1) (add_set (set_field u uf (p, 1)) uf)).
  { apply fields_add, fields_set; [apply (fields_more p); [lia|by eapply ui_fields]|]. unfold within; cbn; lia. }
  assert (Hport : is_set (add_set (set_field u uf (p, 1)) uf) UF_PORT = false).
  { rewrite is_set_add. apply orb_false_iff. split; [|exact (ui_port _ _ _ _ _ Hi)].
    destruct (parse_url_char s ch); try done; by injection Hf as <-. }
  destruct (decide (uf = UF_HOST)) as [->|Hne].
  - split; try done; [by destruct (parse_url_char s ch)| |by rewrite Hs].
    intros _. split; [done|]. by exists p, 1.
  - eapply url_inv_other; try done; [|cbn; by destruct (decide (UF_HOST = uf))]. intros _. right. congruence.
Qed.

Lemma url_loop_ok mem n p s old found u :
  url_state s = true -> 0 <= p -> p + Z.of_nat n <= 65535 -> p + Z.of_nat n <= Z.of_nat (length mem) -> url_inv mem p s old u ->
  exists r u', url_loop mem n p s old found u = Ok (r, u') /\ fields_within (p + Z.of_nat n) u' /\
    (r <> None -> exists s' old', url_inv mem (p + Z.of_nat n) s' old' u').
Proof.
  revert p s old found u. induction n as [|n IH]; intros p s old found u Hs Hp Hn Hm Hu.
  { eexists _, _. split; [reflexivity|]. rewrite Z.add_0_r. split; [by eapply ui_fields|eauto]. }
  cbn [url_loop]. unfold load. rewrite (proj2 (Z.ltb_ge p 0)) by lia.
  destruct (lookup_lt_is_Some_2 mem (Z.to_nat p)) as (ch & Hch); [lia|]. rewrite Hch. cbn [mbind outcome_bind].
  destruct (parse_url_char_state s ch Hs) as [-> |[Hs' Hf]].
  { eexists _, _. split; [reflexivity|]. split; [|done]. apply (fields_more p); [lia|by eapply ui_fields]. }
  replace (p + Z.of_nat (S n)) with (p + 1 + Z.of_nat n) by lia.
  assert (Hd : parse_url_char s ch <> s_dead) by (by intros E; rewrite E in Hs').
  assert (Hgo : forall old' found' u1, url_inv mem (p + 1) (parse_url_char s ch) old' u1 ->
     exists r u', url_loop mem n (p + 1) (parse_url_char s ch) old' found' u1 = Ok (r, u') /\
       fields_within (p + 1 + Z.of_nat n) u' /\ (r <> None -> exists s' old', url_inv mem (p + 1 + Z.of_nat n) s' old' u')).
  { intros old' found' u1 Hu1. apply IH; [done|lia..|done]. }
  destruct (dead_or_not (parse_url_char s ch)) as [Hdead|Hlive]; [done|]. rewrite Hlive. destruct (field_of (parse_url_char s ch)) as [[|]|uf] eqn:Ef; [done|by apply Hgo, url_inv_skip|].
  destruct (decide (old = Some uf)) as [->|Hold].
  - destruct (url_inv_grow mem p s u ch uf) as (u1 & -> & Hu1); [done|done|lia|done|done|]. cbn [mbind outcome_bind]. by apply Hgo.
  - apply Hgo, (url_inv_new mem p s old); [done|done|lia|done..].
Qed.

(** ** The host *)

Definition starting (s : http_host_state) : bool :=
  match s with s_http_userinfo_start | s_http_userinfo | s_http_host_start | s_http_host_v6_start => true | _ => false end.

(** The field that a state extends. *)
Definition growing (s : http_host_state) : option url_field :=
  match s with
  | s_http_host | s_http_host_v6 => Some UF_HOST
  | s_http_host_port => Some UF_PORT
  | s_http_userinfo => Some UF_USERINFO
  | _ => None
  end.

Definition digits_at (mem : bytes) (off e : Z) : Prop :=
  forall i, off <= i < e -> exists c, mem !! Z.to_nat i = Some c /\ isdigit c = true.

(** The invariant of the loop over the host. *)
Record host_inv (mem : bytes) (e p : Z) (s : http_host_state) (u : http_parser_url) : Prop := {
  hi_fields : fields_within e u;
  hi_start : starting s = true -> exists off, field_data u UF_HOST = Some (off, 0);
  hi_grow : forall f, growing s = Some f -> exists off len, field_data u f = Some (off, len) /\ 0 <= off /\ 0 <= len /\ off + len = p;
  hi_digits : s = s_http_host_port -> exists v, field_data u UF_PORT = Some v /\ digits_at mem (fst v) p;
  hi_noport : s <> s_http_host_port -> is_set u UF_PORT = false
}.

(** A field that was just begun, or that a character extends. *)
Lemma grow_len u f off len : field_data u f = Some (off, len) -> 0 <= len < 65535 -> grow u f = Ok (set_field u f (off, len + 1)).
Proof. intros Hv Hl. unfold grow, get_field. rewrite Hv. cbn. by rewrite (uwrap_small 16) by lia. Qed.

Lemma host_inv_skip mem e p s s' u : host_inv mem e p s u -> s <> s_http_host_port -> growing s' = None ->
  (starting s' = true -> starting s = true) -> host_inv mem e (p + 1) s' u.
Proof. intros [Hf Hst Hg Hdg Hnp] Hs Hs' Hi. split; [done|auto|by rewrite Hs'|by intros ->|auto]. Qed.

Lemma digits_more mem off p ch : digits_at mem off p -> mem !! Z.to_nat p = Some ch -> isdigit ch = true -> digits_at mem off (p + 1).
Proof. intros H Hc Hd i Hi. destruct (decide (i = p)) as [->|]; [eauto|]. apply H. lia. Qed.

(** Another character of the same part. *)
Lemma host_inv_extend mem e p s u ch f : host_inv mem e p s u -> mem !! Z.to_nat p = Some ch -> 0 <= p < e -> e <= 65535 ->
  growing s = Some f -> (s = s_http_host_port -> isdigit ch = true) ->
  exists u', grow u f = Ok u' /\ host_inv mem e (p + 1) s u'.
Proof.
  intros [Hf Hst Hg Hdg Hnp] Hc Hp He Hs Hd. destruct (Hg f Hs) as (off & len & Hv & H1 & H2 & H3).
  eexists. split; [apply (grow_len _ _ _ _ Hv); lia|]. split.
  - apply fields_set; [done|]. unfold within; cbn; lia.
  - intros Hi. destruct (Hst Hi) as (o & Ho). exists o. cbn. destruct (decide (UF_HOST = f)) as [<-|]; [|done]. by destruct s.
  - intros g Hg'. rewrite Hs in Hg'. injection Hg' as <-. exists off, (len + 1). cbn. rewrite decide_True by done. split_and!; try done; lia.
  - intros ->. injection Hs as <-. destruct (Hdg eq_refl) as (v & Hv' & Hd'). rewrite Hv in Hv'. injection Hv' as <-.
    exists (off, len + 1). split; [done|]. eapply digits_more; eauto.
  - exact Hnp.
Qed.

(** The first character of a part. *)
Lemma host_inv_begin mem e p s s' u ch f (mark : bool) : host_inv mem e p s u -> mem !! Z.to_nat p = Some ch -> 0 <= p < e ->
  e <= 65535 -> s <> s_http_host_port -> growing s' = Some f -> (s' = s_http_host_port -> isdigit ch = true) ->
  (starting s' = true -> starting s = true) ->
  exists u', grow (if mark then add_set (set_field u f (u16 p, 0)) f else set_field u f (u16 p, 0)) f = Ok u' /\
    host_inv mem e (p + 1) s' u'.
Proof.
  intros [Hf Hst Hg Hdg Hnp] Hc Hp He Hs Hs' Hd Hi. rewrite (uwrap_small 16) by lia.
  set (u1 := if mark then _ else _).
  assert (Hu1 : field_data u1 = field_data (set_field u f (p, 0))) by (by destruct mark).
  eexists. split; [apply (grow_len _ _ p 0); [rewrite Hu1; cbn; by rewrite decide_True|lia]|]. split.
  - apply fields_set; [|unfold within; cbn; lia]. intros g. rewrite Hu1. revert g. apply fields_set; [done|]. unfold within; cbn; lia.
  - intros Hi'. destruct (Hst (Hi Hi')) as (o & Ho). exists o. cbn. rewrite Hu1. cbn.
    destruct (decide (UF_HOST = f)) as [<-|]; [by destruct s'|done].
  - intros g Hg'. rewrite Hs' in Hg'. injection Hg' as <-. exists p, 1. cbn. rewrite decide_True by done. split_and!; try done; lia.
  - intros ->. injection Hs' as <-. exists (p, 1). split; [done|]. intros i Hi''. cbn [fst] in *.
    replace i with p by lia. eauto.
  - intros Hp'. change (is_set u1 UF_PORT = false). subst u1. destruct mark; [rewrite is_set_add; apply orb_false_iff; split|].
    + apply bool_decide_eq_false. intros ->. by destruct s'.
    + exact (Hnp Hs).
    + exact (Hnp Hs).
Qed.

Lemma host_field_ok mem e p s u ch : host_inv mem e p s u -> mem !! Z.to_nat p = Some ch -> 0 <= p < e -> e <= 65535 ->
  http_parse_host_char s ch <> s_http_host_dead ->
  exists u', host_field u s (http_parse_host_char s ch) p = Ok u' /\ host_inv mem e (p + 1) (http_parse_host_char s ch) u'.
Proof.
  intros Hi Hch Hp He Hd.
  assert (Hhost : forall s', growing s' = Some UF_HOST -> starting s = true ->
     exists u', (u ← (v ← get_field u UF_HOST; Ok (set_field u UF_HOST (u16 p, snd v))); grow u UF_HOST) = Ok u' /\
       host_inv mem e (p + 1) s' u').
  { intros s' Hs' Hst. unfold get_field. destruct (hi_start _ _ _ _ _ Hi Hst) as (o & ->). cbn [mbind outcome_bind snd].
    apply (host_inv_begin mem e p s s' u ch UF_HOST false); try done; [by destruct s|by intros ->]. }
  destruct s; try done; cbn [http_parse_host_char] in *; repeat (case_match; try done); cbn [host_field].
  all: try (eexists; split; [reflexivity|]; by eapply host_inv_skip).
  all: try (by apply Hhost).
  all: try (by apply (host_inv_extend mem e p _ u ch)).
  all: rewrite decide_False by done; by eapply (host_inv_begin mem e p _ _ u ch _ true).
Qed.

Lemma host_loop_ok mem e n p s u : host_inv mem e p s u -> 0 <= p -> p + Z.of_nat n <= e -> e <= 65535 -> e <= Z.of_nat (length mem) ->
  exists r u', host_loop mem n p s u = Ok (r, u') /\ fields_within e u' /\
    forall s', r = Some s' -> host_inv mem e (p + Z.of_nat n) s' u'.
Proof.
  revert p s u. induction n as [|n IH]; intros p s u Hi Hp Hn He Hm.
  { eexists _, _. split; [reflexivity|]. split; [by eapply hi_fields|]. intros s' [= <-]. by rewrite Z.add_0_r. }
  cbn [host_loop]. unfold load. rewrite (proj2 (Z.ltb_ge p 0)) by lia.
  destruct (lookup_lt_is_Some_2 mem (Z.to_nat p)) as (ch & Hch); [lia|]. rewrite Hch. cbn [mbind outcome_bind].
  destruct (decide (http_parse_host_char s ch = s_http_host_dead)) as [|Hd].
  { eexists _, _. split; [reflexivity|]. split; [by eapply hi_fields|done]. }
  destruct (host_field_ok mem e p s u ch Hi Hch ltac:(lia) He Hd) as (u1 & -> & Hu1). cbn [mbind outcome_bind].
  replace (p + Z.of_nat (S n)) with (p + 1 + Z.of_nat n) by lia. apply IH; [done|lia..].
Qed.

(** ** The port *)

Definition decimal (l : bytes) : Z := fold_left (fun v c => 10 * v + (c - 48)) l 0.

Lemma strtoul_digits_spec ds c rest v : Forall (fun d => isdigit d = true) ds -> isdigit c = false ->
  strtoul_digits (ds ++ c :: rest) v = Ok (Z.min (fold_left (fun v c => 10 * v + (c - 48)) ds v) ULLONG_MAX).
Proof.
  intros Hds Hc. revert v. induction Hds as [|d ds Hd Hds IH]; intros v; cbn; [by rewrite Hc|]. by rewrite Hd, IH.
Qed.

Lemma decimal_pos l : Forall (fun d => isdigit d = true) l -> 0 <= decimal l.
Proof.
  unfold decimal. cut (forall v, 0 <= v -> Forall (fun d => isdigit d = true) l -> 0 <= fold_left (fun v c => 10 * v + (c - 48)) l v).
  { intros H. by apply H. }
  induction l as [|d l IH]; intros v Hv Hl; [done|]. inversion_clear Hl as [|? ? Hd Hr]. cbn. apply IH; [|done].
  unfold isdigit in Hd. lia.
Qed.

(** The digits of a part, up to a character that is none. *)
Lemma strtoul_spec mem off len c : 0 <= off -> 0 <= len -> digits_at mem off (off + len) ->
  mem !! Z.to_nat (off + len) = Some c -> isdigit c = false ->
  strtoul mem off = Ok (Z.min (decimal (take (Z.to_nat len) (drop (Z.to_nat off) mem))) ULLONG_MAX) /\
  0 <= decimal (take (Z.to_nat len) (drop (Z.to_nat off) mem)).
Proof.
  intros Ho Hl Hd Hc Hc'. pose proof (lookup_lt_Some _ _ _ Hc) as Hlen.
  assert (Hall : Forall (fun d => isdigit d = true) (take (Z.to_nat len) (drop (Z.to_nat off) mem))).
  { apply Forall_lookup. intros i x Hx. apply lookup_take_Some in Hx as [Hx Hi]. rewrite lookup_drop in Hx.
    destruct (Hd (off + Z.of_nat i) ltac:(lia)) as (d & Hd1 & Hd2).
    replace (Z.to_nat (off + Z.of_nat i)) with (Z.to_nat off + i)%nat in Hd1 by lia. congruence. }
  split; [|by apply decimal_pos]. unfold strtoul. rewrite (proj2 (Z.leb_le 0 off)), (proj2 (Z.leb_le off _)) by lia. cbn [andb].
  rewrite <- (take_drop (Z.to_nat len) (drop (Z.to_nat off) mem)) at 1.
  rewrite drop_drop, (drop_S mem c (Z.to_nat off + Z.to_nat len)) by (by replace (Z.to_nat off + Z.to_nat len)%nat with (Z.to_nat (off + len)) by lia).
  by apply strtoul_digits_spec.
Qed.

(** ** The result *)

(** What http_parse_host gives. *)
Lemma http_parse_host_ok mem e u found : fields_within e u -> is_set u UF_PORT = false -> host_stops mem u -> 0 <= e <= 65535 ->
  e <= Z.of_nat (length mem) ->
  exists b u', http_parse_host mem u found = Ok (b, u') /\ fields_within e u' /\
    (b = true -> is_set u' UF_PORT = true -> exists off len c, field_data u' UF_PORT = Some (off, len) /\ 0 <= off /\ 0 <= len /\
       digits_at mem off (off + len) /\ mem !! Z.to_nat (off + len) = Some c /\ isdigit c = false).
Proof.
  intros Hf Hp Hstop He Hm. unfold http_parse_host, get_field. destruct (Hf UF_HOST) as ([off len] & Hh & H1 & H2 & H3).
  rewrite Hh. cbn [mbind outcome_bind fst snd] in *. set (s0 := if found then s_http_userinfo_start else s_http_host_start).
  assert (Hi : host_inv mem e off s0 (set_field u UF_HOST (off, 0))).
  { split.
    - apply fields_set; [done|]. unfold within; cbn; lia.
    - intros _. by exists off.
    - by destruct found.
    - by destruct found.
    - by intros _. }
  destruct (host_loop_ok mem e (Z.to_nat len) off s0 _ Hi) as (r & u' & Hl & Hu' & Hr); [lia..|].
  rewrite Hl. cbn [mbind outcome_bind]. destruct r as [s|]; [|by eexists _, _]. specialize (Hr s eq_refl). eexists _, _. split; [reflexivity|]. split; [done|]. intros Hb Hset.
  destruct (decide (s = s_http_host_port)) as [->|Hs]; [|by rewrite (hi_noport _ _ _ _ _ Hr Hs) in Hset].
  destruct (hi_grow _ _ _ _ _ Hr UF_PORT eq_refl) as (po & pl & Hv & Hpo & Hpl & Hend).
  destruct (hi_digits _ _ _ _ _ Hr eq_refl) as (v & Hv' & Hdig). rewrite Hv in Hv'. injection Hv' as <-. cbn [fst] in Hdig.
  replace (off + Z.of_nat (Z.to_nat len)) with (off + len) in * by lia.
  destruct (Hstop off len Hh) as [-> |(c & Hc & Hcd)].
  - by destruct found.
  - exists po, pl, c. rewrite Hend. done.
Qed.

(** The loops leave the port alone. *)
Lemma grow_port u f u' : grow u f = Ok u' -> url_port u' = url_port u.
Proof. unfold grow, get_field. destruct (field_data u f); [|done]. by intros [= <-]. Qed.

Lemma url_loop_port mem n p s old found u r u' : url_loop mem n p s old found u = Ok (r, u') -> url_port u' = url_port u.
Proof.
  revert p s old found u. induction n as [|n IH]; intros p s old found u; cbn [url_loop]; [by intros [= _ <-]|].
  destruct (load mem p) as [ch|]; [|done]. cbn [mbind outcome_bind]. set (s' := parse_url_char s ch).
  destruct (dead_or_not s') as [-> |Hlive]; [by intros [= _ <-]|]. rewrite Hlive.
  destruct (field_of s') as [[|]|uf]; [done|apply IH|]. destruct (decide (old = Some uf)); [|by intros ->%IH].
  destruct (grow u uf) as [u1|] eqn:Eg; [|done]. cbn [mbind outcome_bind]. intros ->%IH. by eapply grow_port.
Qed.

Lemma host_field_port u s s' p u' : host_field u s s' p = Ok u' -> url_port u' = url_port u.
Proof.
  unfold host_field, get_field. destruct s'; try (by intros [= <-]); destruct (decide _); cbn [mbind outcome_bind];
    try (intros ->%grow_port; done); destruct (field_data u UF_HOST); cbn [mbind outcome_bind]; try done; intros ->%grow_port; done.
Qed.

Lemma http_parse_host_port mem u found b u' : http_parse_host mem u found = Ok (b, u') -> url_port u' = url_port u.
Proof.
  cut (forall n p s u r u', host_loop mem n p s u = Ok (r, u') -> url_port u' = url_port u).
  { intros Hl. unfold http_parse_host. destruct (get_field u UF_HOST) as [[off len]|]; [|done]. cbn [mbind outcome_bind].
    destruct (host_loop _ _ _ _ _) as [[[s|] u1]|] eqn:E; [| |done]; apply Hl in E; by intros [= _ <-]. }
  clear. induction n as [|n IH]; intros p s u r u'; cbn [host_loop]; [by intros [= _ <-]|].
  destruct (load mem p) as [ch|]; [|done]. cbn [mbind outcome_bind]. destruct (decide _); [by intros [= _ <-]|].
  destruct (host_field _ _ _ _) as [u1|] eqn:E; [|done]. cbn [mbind outcome_bind]. intros ->%IH. by eapply host_field_port.
Qed.

(** A zeroed http_parser_url. *)
Definition zero_url : http_parser_url := mkUrl 0 0 (fun _ => Some (0, 0)).

Lemma zero_url_inv mem s : in_server s = false -> url_inv mem 0 s None zero_url.
Proof.
  intros Hs. split; try done.
  - intros f. exists (0, 0). unfold within. cbn. split_and!; try done; lia.
  - by rewrite Hs.
  - intros _ off len [= <- <-]. by left.
Qed.

(** C20: Splitting a url of up to 65535 bytes that a byte other than a digit follows
    returns for every content, with a zeroed structure: no assertion fails and no
    byte past the terminator is read.  Every part lies within the url; the port
    fits 16 bits; and when the url is accepted with a port, the port is the
    number that the bytes of that part spell. *)
Theorem parse_url_parts (mem : bytes) (buflen : nat) (is_connect : bool) (c : Z)
    (Hlen : Z.of_nat buflen <= 65535) (Hc : mem !! buflen = Some c) (Hnum : isdigit c = false) :
  exists b u, http_parser_parse_url mem buflen is_connect zero_url = Ok (b, u) /\
    fields_within (Z.of_nat buflen) u /\ 0 <= url_port u <= 65535 /\
    (b = true -> is_set u UF_PORT = true -> exists off len, field_data u UF_PORT = Some (off, len) /\
       url_port u = decimal (take (Z.to_nat len) (drop (Z.to_nat off) mem))).
Proof.
  pose proof (lookup_lt_Some _ _ _ Hc) as Hm. unfold http_parser_parse_url. cbv zeta. change (mkUrl 0 0 _) with zero_url.
  destruct (url_loop_ok mem buflen 0 (if is_connect then s_req_server_start else s_req_spaces_before_url) None false zero_url)
    as (r & u & Hl & Hu & Hr); [by destruct is_connect|lia..|apply zero_url_inv; by destruct is_connect|].
  rewrite Hl. apply url_loop_port in Hl. cbn [mbind outcome_bind]. rewrite Z.add_0_l in *.
  destruct r as [found|]; [|eexists _, _; split; [reflexivity|]; rewrite Hl; split_and!; done].
  destruct Hr as (s & old & Hi); [done|].
  assert (Hh : exists b u', (if is_set u UF_SCHEMA || is_set u UF_HOST then http_parse_host mem u found else Ok (true, u)) = Ok (b, u') /\
     fields_within (Z.of_nat buflen) u' /\ url_port u' = 0 /\
     (b = true -> is_set u' UF_PORT = true -> exists off len c, field_data u' UF_PORT = Some (off, len) /\ 0 <= off /\ 0 <= len /\
       digits_at mem off (off + len) /\ mem !! Z.to_nat (off + len) = Some c /\ isdigit c = false)).
  { destruct (is_set u UF_SCHEMA || is_set u UF_HOST).
    - destruct (http_parse_host_ok mem (Z.of_nat buflen) u found) as (b & u' & Hp & Hf & Hport); [done|by eapply ui_port| |lia..|].
      { eapply host_stops_ends; [done| |done]. by rewrite Nat2Z.id. }
      exists b, u'. split_and!; try done. by rewrite (http_parse_host_port _ _ _ _ _ Hp).
    - exists true, u. split_and!; try done. intros _ Hp. by rewrite (ui_port _ _ _ _ _ Hi) in Hp. }
  destruct Hh as (b & u' & -> & Hf & Hp0 & Hport). cbn [mbind outcome_bind].
  assert (Hno : exists b0 u0, (Ok (false, u') : outcome (bool * http_parser_url)) = Ok (b0, u0) /\ fields_within (Z.of_nat buflen) u0 /\ 0 <= url_port u0 <= 65535 /\
    (b0 = true -> is_set u0 UF_PORT = true -> exists off len, field_data u0 UF_PORT = Some (off, len) /\
       url_port u0 = decimal (take (Z.to_nat len) (drop (Z.to_nat off) mem)))).
  { eexists _, _. split; [reflexivity|]. rewrite Hp0. by split_and!. }
  destruct b; [|exact Hno]. destruct (is_connect && _); [exact Hno|].
  destruct (is_set u' UF_PORT) eqn:Hset; [|eexists _, _; split; [reflexivity|]; rewrite Hp0, Hset; by split_and!].
  destruct (Hport eq_refl eq_refl) as (off & len & c' & Hv & H1 & H2 & Hd & Hc' & Hn').
  unfold get_field. rewrite Hv. cbn [mbind outcome_bind fst].
  destruct (strtoul_spec mem off len c' H1 H2 Hd Hc' Hn') as [-> Hpos]. cbn [mbind outcome_bind].
  destruct (65535 <? _) eqn:Hbig; [exact Hno|]. eexists _, _. split; [reflexivity|]. cbn [url_port field_data].
  assert (HU : ULLONG_MAX = 18446744073709551615) by done. rewrite Z.ltb_ge in Hbig.
  split_and!; [done|lia..|]. intros _ _. exists off, len. split; [done|lia].
Qed.

Lemma parse_url_parts_witness :
  exists b u, http_parser_parse_url (str "http://u@a.b:80/p" ++ [0]) 17 false zero_url = Ok (b, u) /\
    fields_within 17 u /\ 0 <= url_port u <= 65535 /\
    (b = true -> is_set u UF_PORT = true -> exists off len, field_data u UF_PORT = Some (off, len) /\
       url_port u = decimal (take (Z.to_nat len) (drop (Z.to_nat off) (str "http://u@a.b:80/p" ++ [0])))).
Proof. exact (parse_url_parts (str "http://u@a.b:80/p" ++ [0]) 17 false 0 ltac:(lia) eq_refl eq_refl). Defined.

(** The parts of that url. *)
Example parse_url_example :
  (fun r : bool * http_parser_url => (fst r, url_port (snd r), List.map (field_data (snd r)) [UF_SCHEMA; UF_USERINFO; UF_HOST; UF_PORT; UF_PATH])) <$>
    http_parser_parse_url (str "http://u@a.b:80/p" ++ [0]) 17 false zero_url =
  Ok (true, 80, [Some (0, 4); Some (7, 1); Some (9, 3); Some (13, 2); Some (15, 2)]).
Proof. reflexivity. Qed.

(** The url of a CONNECT request is a host and a port. *)
Example parse_url_connect :
  fst <$> http_parser_parse_url (str "h:443" ++ [0]) 5 true zero_url = Ok true /\
  fst <$> http_parser_parse_url (str "h:443/" ++ [0]) 6 true zero_url = Ok false.
Proof. by split. Qed.

(** A schema without a host: the host that is parsed was never written. *)
Example parse_url_unwritten_host :
  http_parser_parse_url (str "http://" ++ [0]) 7 false (mkUrl 0 0 (fun _ => None)) = Trap Undefined.
Proof. reflexivity. Qed.

(** A port at the end of a buffer without terminator is read past the end. *)
Example parse_url_reads_past_end :
  http_parser_parse_url (str "http://h:80") 11 false zero_url = Trap OutOfBounds.
Proof. reflexivity. Qed.

(** And digits that follow the url become part of its port. *)
Example parse_url_foreign_digits :
  (fun r : bool * http_parser_url => url_port (snd r)) <$>
    http_parser_parse_url (str "http://h:8080" ++ [0]) 11 false zero_url = Ok 8080.
Proof. reflexivity. Qed.
