(* ===== verification/NewLexer.v ===== *)
(** * The lexer of configuration files (deps/new-config/lexer.l)

    flex turns the rules of lexer.l into lexer.c: in each start condition the
    rule that matches the longest prefix of the input is taken, the first one of
    several, and its action is run.  [rule] is the choice of the rule and its
    action, [lexer_next] runs rules until one returns.  The escapes of a quoted
    value are replaced in place by [parse_quote]. *)

From S2P Require Import Prelude.

(** ** Escapes *)

Definition is_hex (c : Z) : bool :=
  ((48 <=? c) && (c <=? 57)) || ((97 <=? c) && (c <=? 102)) || ((65 <=? c) && (c <=? 70)).
Definition hval (c : Z) : Z := if c <=? 57 then c - 48 else if 97 <=? c then c - 97 + 10 else c - 65 + 10.
Definition is_octal (c : Z) : bool := (48 <=? c) && (c <=? 55).
Definition oval (c : Z) : Z := c - 48.

(** The switch on the character after a backslash at [i - 1]: the byte that is
    stored and the last index it takes. *)
Definition escape (buf : bytes) (len i : Z) : outcome (Z * Z) :=
  c ← load buf i;
  if c =? 110 then Ok (10, i)
  else if c =? 114 then Ok (13, i)
  else if c =? 116 then Ok (9, i)
  else if c =? 118 then Ok (11, i)
  else if c =? 97 then Ok (7, i)
  else if c =? 98 then Ok (8, i)
  else if c =? 102 then Ok (12, i)
  else if c =? 39 then Ok (39, i)
  else if c =? 34 then Ok (34, i)
  else if c =? 92 then Ok (92, i)
  else if c =? 120 then
    if i + 2 <? len then
      a ← load buf (i + 1);
      b ← load buf (i + 2);
      if is_hex a && is_hex b then Ok (u8 (Z.lor (Z.shiftl (hval a) 4) (hval b)), i + 2) else Ok (c, i)
    else Ok (c, i)
  else if (c =? 48) || (c =? 49) || (c =? 50) then
    oct ← (if i + 2 <? len then
             a ← load buf (i + 1);
             b ← load buf (i + 2);
             Ok (if is_octal a && is_octal b then Some a else None)
           else Ok None);
    match oct : option Z with
    | Some a => Ok (u8 (Z.lor (Z.lor (Z.shiftl (oval c) 6) (Z.shiftl (oval a) 3)) (oval c)), i + 2)
    | None => if c =? 48 then Ok (0, i) else Ok (c, i)
    end
  else Ok (c, i).

(** The loop; a backslash at the end stores nothing. *)
Fixpoint quote_loop (fuel : nat) (buf : bytes) (len i cur : Z) : outcome (bytes * Z) :=
  if i <? len then
    match fuel with
    | O => Trap OutOfFuel
    | S fuel =>
        c ← load buf i;
        if c =? 92 then
          if i + 1 <? len then
            e ← escape buf len (i + 1);
            buf ← store buf cur (fst e);
            quote_loop fuel buf len (snd e + 1) (cur + 1)
          else quote_loop fuel buf len (i + 1) (cur + 1)
        else
          buf ← store buf cur c;
          quote_loop fuel buf len (i + 1) (cur + 1)
    end
  else Ok (buf, cur).

(** The buffer afterwards and the new length. *)
Definition parse_quote (buf : bytes) (len : Z) : outcome (bytes * Z) :=
  r ← quote_loop (Z.to_nat len) buf len 0 0;
  buf ← store (fst r) (snd r) 0;
  Ok (buf, snd r).

(** ** The rules *)

Inductive token_type : Set := TOKEN_TYPE_GROUP | TOKEN_TYPE_ITEM.

(** [o_key] and [o_value] are the text that the pointers refer to, without its
    terminator. *)
Record lexer_output_t := mkOutput {
  o_type : token_type;
  o_is_array : bool;
  o_level : Z;
  o_key : bytes;
  o_key_len : Z;
  o_value : option bytes;
  o_value_len : Z;
  o_lineno : Z
}.

Inductive start_condition : Set := INITIAL | VALUE | AFTER_KEY | QUOTED_VALUE | COMMENT | GROUP | GROUP_FINISH.

Record lexer_t := mkLexer {
  yy_start : start_condition;
  yylineno : Z;
  is_array : bool;
  group_indent : Z;
  output : lexer_output_t
}.

Definition is_key (c : Z) : bool :=
  ((97 <=? c) && (c <=? 122)) || ((65 <=? c) && (c <=? 90)) || isdigit c || (c =? 95).

Fixpoint span (p : Z -> bool) (l : bytes) : nat :=
  match l with
  | c :: l => if p c then S (span p l) else O
  | [] => O
  end.

(** How much of the input [quoted_value] matches. *)
Fixpoint quoted_value (l : bytes) : nat :=
  match l with
  | c :: l' =>
      if c =? 92 then match l' with _ :: l'' => S (S (quoted_value l'')) | [] => O end
      else if (c =? 34) || (c =? 10) then O
      else S (quoted_value l')
  | [] => O
  end.

Definition count_lines (l : bytes) : Z := Z.of_nat (length (List.filter (fun c => c =? 10) l)).

Definition begin (x : lexer_t) (c : start_condition) : lexer_t :=
  mkLexer c (yylineno x) (is_array x) (group_indent x) (output x).
Definition put_array (x : lexer_t) (b : bool) : lexer_t :=
  mkLexer (yy_start x) (yylineno x) b (group_indent x) (output x).
Definition put_indent (x : lexer_t) (n : Z) : lexer_t :=
  mkLexer (yy_start x) (yylineno x) (is_array x) n (output x).
Definition put_output (x : lexer_t) (o : lexer_output_t) : lexer_t :=
  mkLexer (yy_start x) (yylineno x) (is_array x) (group_indent x) o.

(** [yylineno] counts the line ends of the matched text before the action runs. *)
Definition matched (x : lexer_t) (yytext : bytes) : lexer_t :=
  mkLexer (yy_start x) (yylineno x + count_lines yytext) (is_array x) (group_indent x) (output x).

Definition put_lineno (x : lexer_t) : lexer_t :=
  let o := output x in
  put_output x (mkOutput (o_type o) (o_is_array o) (o_level o) (o_key o) (o_key_len o) (o_value o) (o_value_len o) (yylineno x)).
Definition put_key (x : lexer_t) (yytext : bytes) : lexer_t :=
  let o := output x in
  put_output x (mkOutput (o_type o) (is_array x) (o_level o) yytext (Z.of_nat (length yytext)) (o_value o) (o_value_len o) (o_lineno o)).
Definition put_group (x : lexer_t) (yytext : bytes) : lexer_t :=
  let o := output x in
  put_output x (mkOutput TOKEN_TYPE_GROUP (is_array x) (group_indent x) yytext (Z.of_nat (length yytext)) (o_value o) (o_value_len o) (yylineno x)).
Definition put_item (x : lexer_t) (value : option bytes) (value_len : Z) : lexer_t :=
  let o := output x in
  put_output x (mkOutput TOKEN_TYPE_ITEM (o_is_array o) (o_level o) (o_key o) (o_key_len o) value value_len (yylineno x)).

(** The rule for a non-empty input: the length of the match, the lexer after the
    action, and what the action returns if it returns. *)
Definition rule (x : lexer_t) (c : Z) (rest : bytes) : outcome (nat * lexer_t * option Z) :=
  let one := matched x [c] in
  match yy_start x with
  | INITIAL =>
      if c =? 91 then Ok (1%nat, begin (put_indent (put_array one false) 0) GROUP, None)
      else if c =? 64 then Ok (1%nat, put_array one true, None)
      else if c =? 35 then Ok (1%nat, begin one COMMENT, None)
      else if is_key c then
        let n := span is_key (c :: rest) in
        let yytext := take n (c :: rest) in
        Ok (n, begin (put_key (matched x yytext) yytext) AFTER_KEY, None)
      else if (c =? 32) || (c =? 9) || (c =? 13) || (c =? 10) then Ok (1%nat, one, None)
      else Ok (1%nat, put_lineno one, Some (-1))
  | AFTER_KEY =>
      if (c =? 32) || (c =? 9) then Ok (1%nat, one, None)
      else if c =? 58 then Ok (1%nat, begin (put_array one false) VALUE, None)
      else if c =? 10 then Ok (1%nat, put_lineno (begin one INITIAL), Some (-1))
      else Ok (1%nat, put_lineno one, Some (-1))
  | GROUP =>
      if c =? 93 then Ok (1%nat, begin (put_array one false) INITIAL, None)
      else if c =? 46 then Ok (1%nat, put_indent one (group_indent x + 1), None)
      else if c =? 64 then Ok (1%nat, put_array one true, None)
      else if is_key c then
        let n := span is_key (c :: rest) in
        let yytext := take n (c :: rest) in
        let x := put_group (matched x yytext) yytext in
        Ok (n, if is_array x then begin x GROUP_FINISH else x, Some 1)
      else Ok (1%nat, put_lineno one, Some (-1))
  | GROUP_FINISH =>
      if c =? 93 then Ok (1%nat, begin (put_array one false) INITIAL, None)
      else Ok (1%nat, one, None)
  | COMMENT => if c =? 10 then Ok (1%nat, begin one INITIAL, None) else Ok (1%nat, one, None)
  | VALUE =>
      if c =? 34 then Ok (1%nat, begin one QUOTED_VALUE, None)
      else if c =? 10 then Ok (1%nat, begin (put_item one None 0) INITIAL, Some 2)
      else if c =? 35 then Ok (1%nat, begin one COMMENT, None)
      else if (c =? 32) || (c =? 9) then Ok (1%nat, one, None)
      else
        let n := span (fun d => negb ((d =? 35) || (d =? 10))) (c :: rest) in
        let yytext := take n (c :: rest) in
        Ok (n, begin (put_item (matched x yytext) (Some yytext) (Z.of_nat n)) COMMENT, Some 2)
  | QUOTED_VALUE =>
      let n := quoted_value (c :: rest) in
      if (1 <=? n)%nat then
        let yytext := take n (c :: rest) in
        r ← parse_quote (yytext ++ [0]) (Z.of_nat n);
        Ok (n, begin (put_item (matched x yytext) (Some (take (Z.to_nat (snd r)) (fst r))) (snd r)) COMMENT, Some 2)
      else Ok (1%nat, put_lineno one, Some (-1))
  end.

(** Rules are run until one returns, or the end of the file returns 0. *)
Fixpoint yylex (fuel : nat) (x : lexer_t) (input : bytes) : outcome (Z * lexer_t * bytes) :=
  match input with
  | [] => Ok (0, x, [])
  | c :: rest =>
      match fuel with
      | O => Trap OutOfFuel
      | S fuel =>
          r ← rule x c rest;
          match r : nat * lexer_t * option Z with
          | (n, x, Some ret) => Ok (ret, x, drop n input)
          | (n, x, None) => yylex fuel x (drop n input)
          end
      end
  end.
Definition lexer_next (x : lexer_t) (input : bytes) : outcome (Z * lexer_t * bytes) := yylex (length input) x input.

Definition lexer_init (o : lexer_output_t) : lexer_t := mkLexer INITIAL 1 false 0 o.

(** The output before the first token is not initialised. *)
Definition no_output : lexer_output_t := mkOutput TOKEN_TYPE_GROUP false 0 [] 0 None 0 0.
