(* ===== verification/NewLexerFacts.v ===== *)
(** * What the lexer of configuration files does

    [parse_quote] in place against a function on lists, progress of the rules,
    and the tokens of printed lines. *)

From S2P Require Import Prelude Utils NewLexer.

(** ** Escapes *)

(** The byte that an escape stands for, and how many characters it takes after
    the first. *)
Definition esc (c : Z) (l : bytes) : Z * nat :=
  if c =? 110 then (10, O) else if c =? 114 then (13, O) else if c =? 116 then (9, O) else if c =? 118 then (11, O)
  else if c =? 97 then (7, O) else if c =? 98 then (8, O) else if c =? 102 then (12, O)
  else if c =? 39 then (39, O) else if c =? 34 then (34, O) else if c =? 92 then (92, O)
  else if c =? 120 then
    match l with
    | a :: b :: _ => if is_hex a && is_hex b then (u8 (Z.lor (Z.shiftl (hval a) 4) (hval b)), 2%nat) else (c, O)
    | _ => (c, O)
    end
  else if (c =? 48) || (c =? 49) || (c =? 50) then
    match l with
    | a :: b :: _ => if is_octal a && is_octal b then (u8 (Z.lor (Z.lor (Z.shiftl (oval c) 6) (Z.shiftl (oval a) 3)) (oval c)), 2%nat)
                     else (if c =? 48 then 0 else c, O)
    | _ => (if c =? 48 then 0 else c, O)
    end
  else (c, O).

Fixpoint unescape (fuel : nat) (l : bytes) : bytes :=
  match fuel, l with
  | S fuel, c :: l =>
      if c =? 92 then match l with e :: l => fst (esc e l) :: unescape fuel (drop (snd (esc e l)) l) | [] => [] end
      else c :: unescape fuel l
  | _, _ => []
  end.

(** No backslash is left alone at the end. *)
Fixpoint complete (fuel : nat) (l : bytes) : bool :=
  match fuel, l with
  | S fuel, c :: l => if c =? 92 then match l with e :: l => complete fuel (drop (snd (esc e l)) l) | [] => false end
                      else complete fuel l
  | _, _ => true
  end.

Lemma esc_bound c l : (snd (esc c l) <= length l)%nat.
Proof. unfold esc. repeat (case_match; cbn; try lia). Qed.

(** [escape] at the character after a backslash. *)
Lemma escape_spec pre e l tl len i : i = Z.of_nat (length pre) -> len = i + 1 + Z.of_nat (length l) ->
  escape (pre ++ e :: l ++ tl) len i = Ok (fst (esc e l), i + Z.of_nat (snd (esc e l))).
Proof.
  intros Hi Hlen. unfold escape, esc. rewrite (load_app pre (l ++ tl) e i Hi). cbn [mbind outcome_bind].
  assert (Hshort : (length l < 2)%nat -> (i + 2 <? len) = false) by lia.
  assert (Hlong : forall a b l', l = a :: b :: l' -> (i + 2 <? len) = true /\
    load (pre ++ e :: l ++ tl) (i + 1) = Ok a /\ load (pre ++ e :: l ++ tl) (i + 2) = Ok b).
  { intros a b l' ->. cbn [length] in *. split; [lia|]. split.
    - replace (pre ++ e :: (a :: b :: l') ++ tl) with ((pre ++ [e]) ++ a :: b :: l' ++ tl) by (by rewrite <- app_assoc).
      apply load_app. rewrite length_app. cbn. lia.
    - replace (pre ++ e :: (a :: b :: l') ++ tl) with ((pre ++ [e; a]) ++ b :: l' ++ tl) by (by rewrite <- app_assoc).
      apply load_app. rewrite length_app. cbn. lia. }
  do 10 (case (e =? _); [by rewrite Z.add_0_r|]).
  destruct (e =? 120); [|destruct ((e =? 48) || (e =? 49) || (e =? 50)); [|by rewrite Z.add_0_r]].
  - destruct l as [|a [|b l']]; [by rewrite Hshort, Z.add_0_r by (cbn; lia)..|].
    destruct (Hlong a b l' eq_refl) as (-> & -> & ->). cbn [mbind outcome_bind]. by case (is_hex a && is_hex b); rewrite ?Z.add_0_r.
  - destruct l as [|a [|b l']].
    + rewrite Hshort by (cbn; lia). cbn. by case (e =? 48); rewrite Z.add_0_r.
    + rewrite Hshort by (cbn; lia). cbn. by case (e =? 48); rewrite Z.add_0_r.
    + destruct (Hlong a b l' eq_refl) as (-> & -> & ->). cbn [mbind outcome_bind].
      case (is_octal a && is_octal b); [done|]. by case (e =? 48); rewrite Z.add_0_r.
Qed.

(** The loop: what is written so far is [out], [l] is still to be read. *)
Definition quote_done (n : nat) (out gap l tl : bytes) (r : outcome (bytes * Z)) : Prop :=
  exists gap', r = Ok (out ++ unescape n l ++ gap' ++ tl, Z.of_nat (length out + length (unescape n l))) /\
    (length gap + length l = length (unescape n l) + length gap')%nat.

(** One byte is stored for the characters [used]. *)
Lemma quote_store fuel n out gap used l tl b i :
  used <> [] -> i = Z.of_nat (length out + length gap + length used) ->
  (forall out' gap', (length out' = S (length out))%nat -> (S (length gap') = length gap + length used)%nat ->
     quote_done n out' gap' l tl (quote_loop fuel (out' ++ gap' ++ l ++ tl) (i + Z.of_nat (length l)) i (Z.of_nat (length out')))) ->
  exists gap', (buf ← store (out ++ gap ++ used ++ l ++ tl) (Z.of_nat (length out)) b;
     quote_loop fuel buf (i + Z.of_nat (length l)) i (Z.of_nat (length out) + 1)) =
       Ok (out ++ (b :: unescape n l) ++ gap' ++ tl, Z.of_nat (length out + S (length (unescape n l)))) /\
    (length gap + length used + length l = S (length (unescape n l)) + length gap')%nat.
Proof.
  intros Hu Hi Hgo. destruct (gap ++ used) as [|x gap2] eqn:E; [by apply app_eq_nil in E as [_ E]|].
  assert (Hlen : (S (length gap2) = length gap + length used)%nat) by (rewrite <- length_app, E; done).
  rewrite (app_assoc gap used), E. cbn [app]. rewrite store_app by done. cbn [mbind outcome_bind].
  destruct (Hgo (out ++ [b]) gap2) as (gap' & Hr & Hl); [rewrite length_app; cbn; lia|done|].
  rewrite <- app_assoc in Hr. cbn [app] in Hr. rewrite !length_app in Hr. cbn [length] in Hr.
  replace (Z.of_nat (length out + 1)) with (Z.of_nat (length out) + 1) in Hr by lia. rewrite Hr.
  exists gap'. split; [|lia]. rewrite <- app_assoc. cbn. do 2 f_equal. lia.
Qed.

Lemma quote_loop_spec fuel n out gap l tl i : (length l <= fuel)%nat -> (length l <= n)%nat -> complete n l = true ->
  i = Z.of_nat (length out + length gap) ->
  quote_done n out gap l tl (quote_loop fuel (out ++ gap ++ l ++ tl) (i + Z.of_nat (length l)) i (Z.of_nat (length out))).
Proof.
  revert n out gap l i. induction fuel as [|fuel IH]; intros n out gap l i Hl Hn Hc Hi.
  { destruct l; [|cbn in Hl; lia]. exists gap. cbn [quote_loop]. rewrite (proj2 (Z.ltb_ge _ _)) by (cbn; lia).
    destruct n; cbn; split; try lia; by rewrite Nat.add_0_r. }
  destruct l as [|c l].
  { exists gap. cbn [quote_loop]. rewrite (proj2 (Z.ltb_ge _ _)) by (cbn; lia).
    destruct n; cbn; split; try lia; by rewrite Nat.add_0_r. }
  destruct n as [|n]; [cbn in Hn; lia|]. cbn [quote_loop length] in *. rewrite (proj2 (Z.ltb_lt _ _)) by lia.
  rewrite (app_assoc out gap), (load_app (out ++ gap) (l ++ tl) c) by (rewrite length_app; done). cbn [mbind outcome_bind].
  unfold quote_done. cbn [unescape complete] in *. destruct (c =? 92).
  - destruct l as [|e l]; [done|]. cbn [length] in *. rewrite (proj2 (Z.ltb_lt _ _)) by lia.
    replace ((out ++ gap) ++ (c :: e :: l) ++ tl) with ((out ++ gap ++ [c]) ++ e :: l ++ tl)
      by (rewrite <- !app_assoc; done).
    rewrite escape_spec by (rewrite ?length_app; cbn; lia). cbn [mbind outcome_bind fst snd].
    set (b := fst (esc e l)). set (k := snd (esc e l)) in *. pose proof (esc_bound e l) as Hk. fold k in Hk.
    replace ((out ++ gap ++ [c]) ++ e :: l ++ tl) with (out ++ gap ++ (c :: e :: take k l) ++ drop k l ++ tl)
      by (rewrite <- !app_assoc; cbn; by rewrite (app_assoc (take k l)), take_drop).
    destruct (quote_store fuel n out gap (c :: e :: take k l) (drop k l) tl b (i + Z.of_nat (2 + k))) as (gap' & Hr & Hlen).
    + done.
    + cbn. rewrite length_take. lia.
    + intros out' gap' Ho Hg. apply IH; [rewrite length_drop; lia..|done|]. cbn in Hg. rewrite length_take in Hg. lia.
    + exists gap'. cbn [length app] in *. rewrite length_take, length_drop in *. split; [|lia].
      replace (i + 1 + Z.of_nat k + 1) with (i + Z.of_nat (2 + k)) by lia.
      replace (i + Z.of_nat (S (S (length l)))) with (i + Z.of_nat (2 + k) + Z.of_nat (length l - k)) by lia. exact Hr.
  - rewrite <- app_assoc.
    destruct (quote_store fuel n out gap [c] l tl c (i + 1)) as (gap' & Hr & Hlen).
    + done.
    + cbn. lia.
    + intros out' gap' Ho Hg. apply IH; [lia..|done|]. cbn in Hg. lia.
    + exists gap'. cbn [length app] in *. split; [|lia].
      replace (i + Z.of_nat (S (length l))) with (i + 1 + Z.of_nat (length l)) by lia. exact Hr.
Qed.

(** Text in which every backslash has its character. *)
Inductive quoted : bytes -> Prop :=
| quoted_nil : quoted []
| quoted_char c l : c <> 92 -> quoted l -> quoted (c :: l)
| quoted_pair e l : quoted l -> quoted (92 :: e :: l).

Lemma hex_not_backslash c : is_hex c = true -> c <> 92.
Proof. unfold is_hex. lia. Qed.
Lemma octal_not_backslash c : is_octal c = true -> c <> 92.
Proof. unfold is_octal. lia. Qed.

Lemma quoted_tail c l : quoted (c :: l) -> c <> 92 -> quoted l.
Proof. by inversion 1. Qed.

Lemma quoted_after_escape e l : quoted l -> quoted (drop (snd (esc e l)) l).
Proof.
  intros Hl. unfold esc. do 10 (case (e =? _); [done|]). destruct l as [|a [|b l]]; [repeat case_match; done..|].
  assert (Hgo : a <> 92 -> b <> 92 -> quoted l) by (intros Ha Hb; by eapply quoted_tail, Hb; eapply quoted_tail).
  case (e =? 120).
  - destruct (is_hex a && is_hex b) eqn:E; [|done]. apply andb_true_iff in E as [Ha Hb].
    by apply Hgo; apply hex_not_backslash.
  - case ((e =? 48) || (e =? 49) || (e =? 50)); [|done]. destruct (is_octal a && is_octal b) eqn:E; [|done].
    apply andb_true_iff in E as [Ha Hb]. by apply Hgo; apply octal_not_backslash.
Qed.

Lemma quoted_complete n l : quoted l -> complete n l = true.
Proof.
  revert l. induction n as [|n IH]; intros l Hl; [done|]. destruct Hl as [|c l Hc Hl|e l Hl]; cbn; [done| |].
  - rewrite (proj2 (Z.eqb_neq c 92)) by done. by apply IH.
  - apply IH. by apply quoted_after_escape.
Qed.

Lemma quoted_value_quoted l : quoted (take (quoted_value l) l) /\ (quoted_value l <= length l)%nat.
Proof.
  remember (length l) as n eqn:Hn. revert l Hn. induction n as [n IH] using lt_wf_ind. intros [|c l] Hn; cbn in *; [split; [constructor|lia]|].
  destruct (c =? 92) eqn:Ec.
  - apply Z.eqb_eq in Ec as ->. destruct l as [|e l]; cbn in *; [split; [constructor|lia]|].
    destruct (IH (length l)) with (l := l) as [H1 H2]; [lia|done|]. split; [by constructor|lia].
  - destruct ((c =? 34) || (c =? 10)); cbn; [split; [constructor|lia]|].
    destruct (IH (length l)) with (l := l) as [H1 H2]; [lia|done|]. split; [constructor; [lia|done]|lia].
Qed.

(** [parse_quote] replaces the escapes in place. *)
Lemma parse_quote_spec l : quoted l -> exists rest,
  parse_quote (l ++ [0]) (Z.of_nat (length l)) =
    Ok (unescape (length l) l ++ 0 :: rest, Z.of_nat (length (unescape (length l) l))) /\
  (length (unescape (length l) l) + length rest = length l)%nat.
Proof.
  intros Hl. unfold parse_quote. rewrite Nat2Z.id.
  destruct (quote_loop_spec (length l) (length l) [] [] l [0] 0) as (gap & Hr & Hlen); [done|done|by apply quoted_complete|done|].
  cbn [app length] in Hr, Hlen. rewrite Z.add_0_l in Hr. change (Z.of_nat 0) with 0 in Hr. rewrite Hr. cbn [mbind outcome_bind fst snd Nat.add].
  destruct gap as [|g gap]; cbn [app].
  - rewrite store_app by done. cbn. exists []. split; [done|]. cbn in *. lia.
  - rewrite store_app by done. cbn. exists (gap ++ [0]). split; [done|]. rewrite length_app. cbn in *. lia.
Qed.

(** ** Progress *)

Lemma span_le p l : (span p l <= length l)%nat.
Proof. induction l as [|c l IH]; cbn; [lia|]. destruct (p c); lia. Qed.

Lemma count_lines_le l : 0 <= count_lines l <= Z.of_nat (length l).
Proof. unfold count_lines. split; [lia|]. apply Nat2Z.inj_le. apply List.filter_length_le. Qed.

(** The key is complete while its value is read. *)
Definition has_key (s : start_condition) : bool :=
  match s with AFTER_KEY | VALUE | QUOTED_VALUE => true | _ => false end.

(** [bound] limits the line numbers, given the input that is left. *)
Record lexer_ok (bound : Z) (x : lexer_t) (input : bytes) : Prop := {
  lx_line : 0 <= yylineno x /\ yylineno x + Z.of_nat (length input) <= bound;
  lx_indent : 0 <= group_indent x;
  lx_key : has_key (yy_start x) = true -> o_key_len (output x) = Z.of_nat (length (o_key (output x)))
}.

(** What the parser relies on in a token. *)
Record token_ok (bound : Z) (o : lexer_output_t) : Prop := {
  tk_key : o_key_len o = Z.of_nat (length (o_key o));
  tk_value : o_type o = TOKEN_TYPE_ITEM -> o_value_len o = Z.of_nat (length (default [] (o_value o)));
  tk_level : o_type o = TOKEN_TYPE_GROUP -> 0 <= o_level o;
  tk_line : 0 <= o_lineno o <= bound
}.

Definition rule_good (bound : Z) (c : Z) (rest : bytes) (r : outcome (nat * lexer_t * option Z)) : Prop :=
  exists n x' ret, r = Ok (n, x', ret) /\ (1 <= n <= S (length rest))%nat /\ lexer_ok bound x' (drop n (c :: rest)) /\
    match ret with
    | None => True
    | Some ret => (ret = -1 \/ ((ret = 1 \/ ret = 2) /\ token_ok bound (output x'))) /\ 0 <= o_lineno (output x') <= bound
    end.

Lemma rule_matched bound x c rest n x' ret : lexer_ok bound x (c :: rest) -> (1 <= n <= S (length rest))%nat ->
  yylineno x' = yylineno x + count_lines (take n (c :: rest)) -> 0 <= group_indent x' ->
  (has_key (yy_start x') = true -> o_key_len (output x') = Z.of_nat (length (o_key (output x')))) ->
  (forall r, ret = Some r -> o_lineno (output x') = yylineno x' /\
     (r = -1 \/ ((r = 1 \/ r = 2) /\ o_key_len (output x') = Z.of_nat (length (o_key (output x'))) /\
        (o_type (output x') = TOKEN_TYPE_ITEM -> o_value_len (output x') = Z.of_nat (length (default [] (o_value (output x'))))) /\
        (o_type (output x') = TOKEN_TYPE_GROUP -> 0 <= o_level (output x'))))) ->
  rule_good bound c rest (Ok (n, x', ret)).
Proof.
  intros [Hl Hi Hk] Hn Hline Hi' Hk' Hret. exists n, x', ret.
  pose proof (count_lines_le (take n (c :: rest))) as Hc. rewrite length_take in Hc. cbn [length] in *.
  assert (Hlen : length (drop n (c :: rest)) = (S (length rest) - n)%nat) by (by rewrite length_drop).
  split_and!; [done|lia|lia|split; [lia|done|done]|].
  destruct ret as [r|]; [|done]. destruct (Hret r eq_refl) as [Hr1 Hr2]. split; [|lia].
  destruct Hr2 as [|(Hr2 & Hr3 & Hr4 & Hr5)]; [by left|]. right. split; [done|]. split; [done|done|done|lia].
Qed.

Lemma span_pos p c rest : p c = true -> (1 <= span p (c :: rest) <= S (length rest))%nat.
Proof. intros Hc. pose proof (span_le p (c :: rest)) as H. cbn in *. rewrite Hc in *. lia. Qed.

(** A rule by its length, line, indentation, key and return. *)
Local Ltac by_match Hx Est :=
  apply (rule_matched _ _ _ _ _ _ _ Hx); cbn -[count_lines take span]; rewrite ?Est; try done; try lia;
  try (by intros ? [= <-]; split; [|left]).

Lemma rule_ok bound x c rest : lexer_ok bound x (c :: rest) -> rule_good bound c rest (rule x c rest).
Proof.
  intros Hx. pose proof Hx as [Hl Hi Hk]. unfold rule. cbv zeta. destruct (yy_start x) eqn:Est.
  - do 3 (destruct (c =? _); [by by_match Hx Est|]).
    destruct (is_key c) eqn:Ek; [by by_match Hx Est; apply span_pos|].
    destruct (_ || _); by by_match Hx Est.
  - specialize (Hk eq_refl). destruct (c =? 34); [by by_match Hx Est|].
    destruct (c =? 10) eqn:E10; [by_match Hx Est; by intros ? [= <-]; split; [|right; split; [right|]]|].
    destruct (c =? 35) eqn:E35; [by by_match Hx Est|]. destruct (_ || _); [by by_match Hx Est|].
    pose proof (span_pos (fun d => negb ((d =? 35) || (d =? 10))) c rest) as Hn.
    cbv beta in Hn. rewrite E10, E35 in Hn. specialize (Hn eq_refl). by_match Hx Est.
    intros ? [= <-]. split; [done|]. right. split_and!; [by right|done| |done]. intros _. rewrite length_take. cbn [length]. lia.
  - specialize (Hk eq_refl). destruct (_ || _); [by by_match Hx Est|]. by repeat (destruct (c =? _); [by by_match Hx Est|]); by_match Hx Est.
  - specialize (Hk eq_refl). destruct (quoted_value_quoted (c :: rest)) as [Hq Hn]. cbn [length] in Hn.
    set (n := quoted_value (c :: rest)) in *. destruct (1 <=? n)%nat eqn:E1; [|by by_match Hx Est].
    apply Nat.leb_le in E1. destruct (parse_quote_spec (take n (c :: rest)) Hq) as (more & Hp & Hlen).
    rewrite (length_take_le _ n) in Hp, Hlen by exact Hn. rewrite Hp. cbn [mbind outcome_bind fst snd]. rewrite Nat2Z.id, take_app_length.
    by_match Hx Est. intros ? [= <-]. split; [done|]. right. by split_and!; [right| | |].
  - by destruct (c =? 10); by_match Hx Est.
  - do 3 (destruct (c =? _); [by by_match Hx Est|]). destruct (is_key c) eqn:Ek; [|by by_match Hx Est].
    pose proof (span_pos is_key c rest Ek) as Hn. cbn [is_array put_group put_output matched].
    destruct (is_array x); by_match Hx Est; intros ? [= <-]; (split; [done|right; by split_and!; [left| | |]]).
  - by destruct (c =? 93); by_match Hx Est.
Qed.

(** Fuel beyond the length of the input changes nothing. *)
Lemma yylex_ok bound fuel x input : lexer_ok bound x input -> (length input <= fuel)%nat ->
  exists ret x' rest, yylex fuel x input = Ok (ret, x', rest) /\ yylex (length input) x input = Ok (ret, x', rest) /\
    lexer_ok bound x' rest /\ (length rest <= length input)%nat /\
    (ret = 0 \/ ((length rest < length input)%nat /\
       (ret = -1 \/ ((ret = 1 \/ ret = 2) /\ token_ok bound (output x'))) /\ 0 <= o_lineno (output x') <= bound)).
Proof.
  revert x input. induction fuel as [fuel IH] using lt_wf_ind. intros x [|c rest] Hx Hf.
  { exists 0, x, []. split_and!; try done; [by destruct fuel|by left]. }
  destruct fuel as [|fuel]; [cbn in Hf; lia|]. cbn [yylex length] in *.
  destruct (rule_ok bound x c rest Hx) as (n & x' & r & -> & Hn & Hx' & Hr). cbn [mbind outcome_bind].
  assert (Hd : length (drop n (c :: rest)) = (S (length rest) - n)%nat) by (by rewrite length_drop).
  destruct r as [ret|].
  - exists ret, x', (drop n (c :: rest)). split_and!; try done; [lia|]. right. split; [lia|done].
  - destruct (IH fuel ltac:(lia) x' (drop n (c :: rest)) Hx' ltac:(lia)) as (ret & x2 & rest2 & H1 & H1' & H2 & H3 & H4).
    destruct (IH (length rest) ltac:(lia) x' (drop n (c :: rest)) Hx' ltac:(lia)) as (ret3 & x3 & rest3 & H5 & H5' & _).
    exists ret, x2, rest2. split_and!; [done|congruence|done|lia|]. destruct H4 as [|[H4 H6]]; [by left|]. right. split; [lia|done].
Qed.

Lemma lexer_next_ok bound x input : lexer_ok bound x input ->
  exists ret x' rest, lexer_next x input = Ok (ret, x', rest) /\ lexer_ok bound x' rest /\
    (ret = 0 \/ ((length rest < length input)%nat /\
       (ret = -1 \/ ((ret = 1 \/ ret = 2) /\ token_ok bound (output x'))) /\ 0 <= o_lineno (output x') <= bound)).
Proof.
  intros Hx. destruct (yylex_ok bound (length input) x input Hx ltac:(lia)) as (ret & x' & rest & H1 & _ & H2 & _ & H3). eauto 6.
Qed.

(** A rule that does not return. *)
Lemma lexer_next_step bound x c rest n x' : lexer_ok bound x (c :: rest) -> rule x c rest = Ok (n, x', None) ->
  lexer_next x (c :: rest) = lexer_next x' (drop n (c :: rest)) /\ lexer_ok bound x' (drop n (c :: rest)).
Proof.
  intros Hx Hr. destruct (rule_ok bound x c rest Hx) as (n' & x1 & r & Hr' & Hn & Hx' & _). rewrite Hr in Hr'. injection Hr' as <- <- <-.
  split; [|done]. unfold lexer_next at 1. cbn [yylex length]. rewrite Hr. cbn [mbind outcome_bind].
  destruct (yylex_ok bound (length rest) x' (drop n (c :: rest)) Hx') as (? & ? & ? & -> & H & _).
  - rewrite length_drop. cbn. lia.
  - by unfold lexer_next.
Qed.

Lemma lexer_next_return bound x c rest n x' ret : lexer_ok bound x (c :: rest) -> rule x c rest = Ok (n, x', Some ret) ->
  lexer_next x (c :: rest) = Ok (ret, x', drop n (c :: rest)) /\ lexer_ok bound x' (drop n (c :: rest)).
Proof.
  intros Hx Hr. destruct (rule_ok bound x c rest Hx) as (n' & x1 & r & Hr' & Hn & Hx' & _). rewrite Hr in Hr'. injection Hr' as <- <- <-.
  split; [|done]. unfold lexer_next. cbn [yylex length]. by rewrite Hr.
Qed.

(** ** Printed lines *)

Definition is_name (k : bytes) : bool := match k with [] => false | _ => forallb is_key k end.

Definition quote_byte (c : Z) : bytes :=
  if c =? 34 then [92; 34] else if c =? 92 then [92; 92] else if c =? 10 then [92; 110] else [c].
Definition quote (v : bytes) : bytes := concat (quote_byte <$> v).

Definition value_char (c : Z) : bool := negb ((c =? 35) || (c =? 10)).
(** A value that needs no quotes. *)
Definition is_pure (v : bytes) : bool :=
  match v with
  | [] => false
  | c :: _ => negb ((c =? 34) || (c =? 9) || (c =? 32)) && forallb value_char v
  end.
Definition print_value (v : bytes) : bytes := if is_pure v then v else 34 :: quote v ++ [34].

Definition item_line (k v : bytes) : bytes := k ++ [58; 32] ++ print_value v ++ [10].
Definition group_line (level : nat) (k : bytes) : bytes := 91 :: replicate level 46 ++ k ++ [93; 10].

Lemma span_app p l c rest : forallb p l = true -> p c = false -> span p (l ++ c :: rest) = length l.
Proof.
  intros Hl Hc. induction l as [|d l IH]; cbn in *; [by rewrite Hc|]. apply andb_true_iff in Hl as [-> Hl]. by rewrite IH.
Qed.

Lemma quote_cons c v : quote (c :: v) = quote_byte c ++ quote v.
Proof. done. Qed.

Lemma quoted_value_quote v rest : quoted_value (quote v ++ 34 :: rest) = length (quote v).
Proof.
  induction v as [|c v IH]; [done|]. rewrite quote_cons, <- app_assoc, length_app. unfold quote_byte.
  destruct (c =? 34) eqn:E1; [cbn; by rewrite IH|]. destruct (c =? 92) eqn:E2; [cbn; by rewrite IH|].
  destruct (c =? 10) eqn:E3; [cbn; by rewrite IH|]. cbn. by rewrite E1, E2, E3, IH.
Qed.

Lemma unescape_quote n v : (length (quote v) <= n)%nat -> unescape n (quote v) = v.
Proof.
  revert n. induction v as [|c v IH]; intros n Hn; [by destruct n|]. rewrite quote_cons, length_app in *. unfold quote_byte in *.
  destruct (c =? 34) eqn:E1; [|destruct (c =? 92) eqn:E2; [|destruct (c =? 10) eqn:E3]]; cbn in Hn; (destruct n as [|n]; [lia|]); cbn.
  - rewrite IH by lia. f_equal. lia.
  - rewrite IH by lia. f_equal. lia.
  - rewrite IH by lia. f_equal. lia.
  - rewrite E2, IH by lia. done.
Qed.

Lemma quote_nonempty v : v <> [] -> (1 <= length (quote v))%nat.
Proof. destruct v as [|c v]; [done|]. intros _. rewrite quote_cons, length_app. unfold quote_byte. repeat case_match; cbn; lia. Qed.

(** The lexer is at the beginning of the line [rest], whatever is left of the last
    one. *)
Definition line_start (bound : Z) (x : lexer_t) (input rest : bytes) : Prop :=
  exists x0, lexer_next x input = lexer_next x0 rest /\ lexer_ok bound x0 rest /\ yy_start x0 = INITIAL /\ is_array x0 = false.

Lemma line_start_comment bound x pre rest : lexer_ok bound x (pre ++ 10 :: rest) -> yy_start x = COMMENT -> is_array x = false ->
  Forall (fun c => c <> 10) pre -> line_start bound x (pre ++ 10 :: rest) rest.
Proof.
  intros Hx Hs Ha Hp. revert x Hx Hs Ha. induction Hp as [|c pre Hc Hp IH]; intros x Hx Hs Ha; cbn [app] in *.
  - destruct (lexer_next_step bound x 10 rest 1 (begin (matched x [10]) INITIAL) Hx) as [He Hx']; [unfold rule; by rewrite Hs|].
    eexists. split; [exact He|]. done.
  - destruct (lexer_next_step bound x c (pre ++ 10 :: rest) 1 (matched x [c]) Hx) as [He Hx'].
    { unfold rule. rewrite Hs. by rewrite (proj2 (Z.eqb_neq c 10)) by done. }
    cbn [drop] in *. unfold line_start. rewrite He. by apply IH.
Qed.

Lemma take_span_name k c rest : is_name k = true -> is_key c = false ->
  exists k0 k', k = k0 :: k' /\ is_key k0 = true /\ span is_key (k ++ c :: rest) = length k.
Proof.
  intros Hk Hc. destruct k as [|k0 k']; [done|]. exists k0, k'. split; [done|]. split; [by apply andb_true_iff in Hk as [? _]|].
  by apply span_app.
Qed.

Lemma key_not_special c : is_key c = true -> (c =? 91) = false /\ (c =? 64) = false /\ (c =? 35) = false /\ (c =? 93) = false /\ (c =? 46) = false.
Proof. unfold is_key, isdigit. lia. Qed.

(** The lexer after a key, in front of its value. *)
Record before_value (bound : Z) (x : lexer_t) (k rest : bytes) : Prop := {
  bv_ok : lexer_ok bound x rest;
  bv_start : yy_start x = VALUE;
  bv_array : is_array x = false;
  bv_key : o_key (output x) = k;
  bv_plain : o_is_array (output x) = false
}.

Lemma lex_key bound x k rest : lexer_ok bound x (k ++ [58; 32] ++ rest) -> yy_start x = INITIAL -> is_array x = false -> is_name k = true ->
  exists x', lexer_next x (k ++ [58; 32] ++ rest) = lexer_next x' rest /\ before_value bound x' k rest.
Proof.
  intros Hx Hs Ha Hk. destruct (take_span_name k 58 (32 :: rest) Hk eq_refl) as (k0 & k' & -> & Hk0 & Hsp).
  destruct (key_not_special k0 Hk0) as (S1 & S2 & S3 & _).
  destruct (lexer_next_step bound x k0 (k' ++ [58; 32] ++ rest) (length (k0 :: k'))
    (begin (put_key (matched x (k0 :: k')) (k0 :: k')) AFTER_KEY) Hx) as [He Hx1].
  { unfold rule. rewrite Hs, S1, S2, S3, Hk0. change (k0 :: k' ++ [58; 32] ++ rest) with ((k0 :: k') ++ 58 :: 32 :: rest).
    rewrite Hsp. by rewrite take_app_length. }
  change (k0 :: k' ++ [58; 32] ++ rest) with ((k0 :: k') ++ 58 :: 32 :: rest) in He, Hx1.
  change ((k0 :: k') ++ [58; 32] ++ rest) with ((k0 :: k') ++ 58 :: 32 :: rest). rewrite He. rewrite drop_app_length in *.
  set (x1 := begin _ AFTER_KEY) in *.
  destruct (lexer_next_step bound x1 58 (32 :: rest) 1 (begin (put_array (matched x1 [58]) false) VALUE) Hx1 eq_refl) as [-> Hx2].
  cbn [drop] in *. set (x2 := begin _ VALUE) in *.
  destruct (lexer_next_step bound x2 32 rest 1 (matched x2 [32]) Hx2 eq_refl) as [-> Hx3]. cbn [drop] in Hx3.
  exists (matched x2 [32]). split; [done|]. by split.
Qed.

(** The token of an item. *)
Definition item_output (o : lexer_output_t) (k v : bytes) : Prop :=
  o_type o = TOKEN_TYPE_ITEM /\ o_is_array o = false /\ o_key o = k /\ o_value o = Some v.

Lemma lex_value bound x k v rest : before_value bound x k (print_value v ++ 10 :: rest) -> v <> [] ->
  exists x' input, lexer_next x (print_value v ++ 10 :: rest) = Ok (2, x', input) /\ item_output (output x') k v /\
    line_start bound x' input rest.
Proof.
  intros [Hx Hs Ha Hk Hp] Hv. unfold print_value in *. destruct (is_pure v) eqn:Ev.
  - destruct v as [|c v]; [done|]. cbn [is_pure] in Ev. apply andb_true_iff in Ev as [Hc Hall].
    pose proof (span_app value_char (c :: v) 10 rest Hall eq_refl) as Hsp. unfold value_char in Hsp. cbn [app] in *.
    apply andb_true_iff in Hall as [Hc' _]. unfold value_char in Hc'.
    destruct (lexer_next_return bound x c (v ++ 10 :: rest) (length (c :: v))
      (begin (put_item (matched x (c :: v)) (Some (c :: v)) (Z.of_nat (length (c :: v)))) COMMENT) 2 Hx) as [He Hx'].
    { unfold rule. rewrite Hs, Hsp. rewrite !(proj2 (Z.eqb_neq c _)) by lia. cbn [orb].
      change (c :: v ++ 10 :: rest) with ((c :: v) ++ 10 :: rest). by rewrite take_app_length. }
    change (c :: v ++ 10 :: rest) with ((c :: v) ++ 10 :: rest) in He, Hx' |- *. rewrite drop_app_length in *.
    eexists _, _. split; [exact He|]. split; [by repeat split|]. by apply (line_start_comment bound _ []).
  - cbn [app] in *. rewrite <- app_assoc in *. cbn [app] in *.
    destruct (lexer_next_step bound x 34 (quote v ++ 34 :: 10 :: rest) 1 (begin (matched x [34]) QUOTED_VALUE) Hx) as [-> Hx1].
    { unfold rule. by rewrite Hs. }
    cbn [drop] in *. set (x1 := begin _ QUOTED_VALUE) in *.
    pose proof (quoted_value_quote v (10 :: rest)) as Hq. pose proof (quote_nonempty v Hv) as Hpos.
    destruct (quoted_value_quoted (quote v ++ 34 :: 10 :: rest)) as [Hqd _]. rewrite Hq, take_app_length in Hqd.
    destruct (parse_quote_spec (quote v) Hqd) as (more & Hpq & _). rewrite unescape_quote in Hpq by done.
    destruct (quote v) as [|q0 q] eqn:Eq; [cbn in Hpos; lia|].
    destruct (lexer_next_return bound x1 q0 (q ++ 34 :: 10 :: rest) (length (q0 :: q))
      (begin (put_item (matched x1 (q0 :: q)) (Some v) (Z.of_nat (length v))) COMMENT) 2 Hx1) as [He Hx'].
    { unfold rule. cbn [x1 yy_start begin]. change (q0 :: q ++ 34 :: 10 :: rest) with ((q0 :: q) ++ 34 :: 10 :: rest).
      rewrite Hq, take_app_length. cbn [length Nat.leb]. cbn [length] in Hpq. rewrite Hpq. cbn [mbind outcome_bind fst snd].
      by rewrite Nat2Z.id, take_app_length. }
    change (q0 :: q ++ 34 :: 10 :: rest) with ((q0 :: q) ++ 34 :: 10 :: rest) in He, Hx' |- *. rewrite drop_app_length in *.
    eexists _, _. split; [exact He|]. split; [by repeat split|].
    apply (line_start_comment bound _ [34]); try done. by repeat constructor.
Qed.

(** The token of a printed item. *)
Lemma lex_item bound x k v rest : lexer_ok bound x (item_line k v ++ rest) -> yy_start x = INITIAL -> is_array x = false ->
  is_name k = true -> v <> [] ->
  exists x' input, lexer_next x (item_line k v ++ rest) = Ok (2, x', input) /\ item_output (output x') k v /\
    line_start bound x' input rest.
Proof.
  intros Hx Hs Ha Hk Hv. unfold item_line in *. rewrite <- !app_assoc in *.
  destruct (lex_key bound x k (print_value v ++ [10] ++ rest) Hx Hs Ha Hk) as (x1 & -> & Hx1).
  by apply lex_value.
Qed.

Definition group_output (o : lexer_output_t) (level : nat) (k : bytes) : Prop :=
  o_type o = TOKEN_TYPE_GROUP /\ o_is_array o = false /\ o_key o = k /\ o_level o = Z.of_nat level.

(** The dots of a group. *)
Lemma lex_dots bound x level n rest : lexer_ok bound x (replicate n 46 ++ rest) -> yy_start x = GROUP -> is_array x = false ->
  group_indent x = Z.of_nat level ->
  exists x', lexer_next x (replicate n 46 ++ rest) = lexer_next x' rest /\ lexer_ok bound x' rest /\ yy_start x' = GROUP /\
    is_array x' = false /\ group_indent x' = Z.of_nat (level + n).
Proof.
  revert x level. induction n as [|n IH]; intros x level Hx Hs Ha Hi; cbn [replicate app] in *.
  { exists x. by rewrite Nat.add_0_r. }
  destruct (lexer_next_step bound x 46 (replicate n 46 ++ rest) 1 (put_indent (matched x [46]) (group_indent x + 1)) Hx) as [-> Hx1].
  { unfold rule. by rewrite Hs. }
  cbn [drop] in *. rewrite ?drop_0 in *. destruct (IH _ (S level) Hx1) as (x' & H1 & H2 & H3 & H4 & H5); [done|done|cbn; lia|].
  exists x'. split_and!; try done. rewrite H5. f_equal. lia.
Qed.

(** The token of a printed group. *)
Lemma lex_group bound x level k rest : lexer_ok bound x (group_line level k ++ rest) -> yy_start x = INITIAL -> is_name k = true ->
  exists x' input, lexer_next x (group_line level k ++ rest) = Ok (1, x', input) /\ group_output (output x') level k /\
    line_start bound x' input rest.
Proof.
  intros Hx Hs Hk. unfold group_line in *. cbn [app] in *. rewrite <- !app_assoc in *. cbn [app] in *.
  destruct (lexer_next_step bound x 91 (replicate level 46 ++ k ++ 93 :: 10 :: rest) 1
    (begin (put_indent (put_array (matched x [91]) false) 0) GROUP) Hx) as [-> Hx1]; [unfold rule; by rewrite Hs|]. cbn [drop] in *. rewrite drop_0 in *.
  destruct (lex_dots bound _ 0 level (k ++ 93 :: 10 :: rest) Hx1) as (x2 & -> & Hx2 & Hs2 & Ha2 & Hi2); [done..|].
  destruct (take_span_name k 93 (10 :: rest) Hk eq_refl) as (k0 & k' & -> & Hk0 & Hsp).
  destruct (key_not_special k0 Hk0) as (_ & S2 & _ & S4 & S5).
  destruct (lexer_next_return bound x2 k0 (k' ++ 93 :: 10 :: rest) (length (k0 :: k')) (put_group (matched x2 (k0 :: k')) (k0 :: k')) 1 Hx2) as [He Hx3].
  { unfold rule. rewrite Hs2, S2, S4, S5, Hk0. change (k0 :: k' ++ 93 :: 10 :: rest) with ((k0 :: k') ++ 93 :: 10 :: rest).
    rewrite Hsp, take_app_length. cbn [is_array put_group put_output matched]. by rewrite Ha2. }
  change (k0 :: k' ++ 93 :: 10 :: rest) with ((k0 :: k') ++ 93 :: 10 :: rest) in He, Hx3. rewrite drop_app_length in *.
  cbn [app] in *. eexists _, _. split; [exact He|]. split; [by repeat split|]. set (x3 := put_group _ _) in *.
  destruct (lexer_next_step bound x3 93 (10 :: rest) 1 (begin (put_array (matched x3 [93]) false) INITIAL) Hx3) as [He4 Hx4].
  { unfold rule. cbn [x3 put_group put_output yy_start matched]. by rewrite Hs2. }
  cbn [drop] in *. set (x4 := begin _ INITIAL) in *.
  destruct (lexer_next_step bound x4 10 rest 1 (matched x4 [10]) Hx4 eq_refl) as [He5 Hx5]. cbn [drop] in *.
  exists (matched x4 [10]). split_and!; try done.
Qed.
