(* ===== verification/NewConfig.v ===== *)
(** * Configuration trees (deps/new-config/config.c)

    A file is parsed into a tree of groups, arrays and items whose nodes are
    linked through parent, sibling and child pointers.  Nodes live in a heap by
    address; a node owns the block that holds its key and value.  Allocation of a
    node may fail at any time ([calloc_ok]); blocks come from [Allocator]. *)

From S2P Require Import Prelude Utils NewLexer.

Definition CONFIG_TYPE_GROUP : Z := 1.
Definition CONFIG_TYPE_ARRAY : Z := 2.
Definition CONFIG_TYPE_ITEM : Z := 3.

Abbreviation ptr := (option nat).

(** [key] is the block; [value] is an offset into it. *)
Record config_node_t := mkCNode {
  type : Z;
  parent : ptr;
  prev_sibling : ptr;
  next_sibling : ptr;
  first_child : ptr;
  last_child : ptr;
  key : option bytes;
  value : option Z;
  key_len : Z;
  value_len : Z;
  lineno : Z;
  length_ : Z;
  index : Z
}.

Definition put_type (n : config_node_t) (v : Z) : config_node_t :=
  mkCNode v (parent n) (prev_sibling n) (next_sibling n) (first_child n) (last_child n) (key n) (value n) (key_len n)
    (value_len n) (lineno n) (length_ n) (index n).
Definition put_next (n : config_node_t) (p : ptr) : config_node_t :=
  mkCNode (type n) (parent n) (prev_sibling n) p (first_child n) (last_child n) (key n) (value n) (key_len n)
    (value_len n) (lineno n) (length_ n) (index n).
Definition put_place (n : config_node_t) (up prev next : ptr) (i : Z) : config_node_t :=
  mkCNode (type n) up prev next (first_child n) (last_child n) (key n) (value n) (key_len n)
    (value_len n) (lineno n) (length_ n) i.
Definition put_children (n : config_node_t) (first last : ptr) (len : Z) : config_node_t :=
  mkCNode (type n) (parent n) (prev_sibling n) (next_sibling n) first last (key n) (value n) (key_len n)
    (value_len n) (lineno n) len (index n).
Definition put_text (n : config_node_t) (block : bytes) (klen : Z) (val : option Z) (vlen line : Z) : config_node_t :=
  mkCNode (type n) (parent n) (prev_sibling n) (next_sibling n) (first_child n) (last_child n) (Some block) val klen
    vlen line (length_ n) (index n).

Definition zero_node : config_node_t := mkCNode 0 None None None None None None None 0 0 0 0 0.

(** [next] counts the allocations. *)
Record heap := mkHeap { nodes : gmap nat config_node_t; next : nat }.

Definition get (h : heap) (p : ptr) : outcome config_node_t :=
  match p with
  | None => Trap NullDeref
  | Some a => match nodes h !! a with Some n => Ok n | None => Trap UseAfterFree end
  end.
Definition put (h : heap) (a : nat) (n : config_node_t) : heap := mkHeap (<[a := n]> (nodes h)) (next h).
(** [p->field = ...] through a pointer. *)
Definition upd (h : heap) (p : ptr) (f : config_node_t -> config_node_t) : outcome heap :=
  match p with
  | None => Trap NullDeref
  | Some a => match nodes h !! a with Some n => Ok (put h a (f n)) | None => Trap UseAfterFree end
  end.
Definition free_node (h : heap) (p : ptr) : outcome heap :=
  match p with
  | None => Ok h
  | Some a => match nodes h !! a with Some _ => Ok (mkHeap (delete a (nodes h)) (next h)) | None => Trap UseAfterFree end
  end.

(** What the system decides: which allocations of nodes succeed, whether the
    lexer can be created, and the texts of error numbers. *)
Class ConfigSys := {
  calloc_ok : nat -> bool;
  lexer_init_error : option Z;
  strerror : Z -> bytes }.

Definition ENOMEM : Z := 12.

Section Config.
Context `{Allocator} `{ConfigSys}.

Definition new_config_node (h : heap) : heap * ptr :=
  if calloc_ok (next h) then (mkHeap (<[next h := zero_node]> (nodes h)) (S (next h)), Some (next h))
  else (mkHeap (nodes h) (S (next h)), None).

(** The message, or null when there is no memory for it. *)
Definition asprintf (text : bytes) : option bytes :=
  if alloc_ok (Z.of_nat (length text) + 1) then Some (text ++ [0]) else None.

Definition add_child (h : heap) (up child : ptr) : outcome heap :=
  p ← get h up;
  _ ← get h child;
  match first_child p with
  | None =>
      h ← upd h child (fun c => put_place c up None None (length_ p));
      upd h up (fun p => put_children p child child (s32 (length_ p + 1)))
  | Some _ =>
      h ← upd h child (fun c => put_place c up (last_child p) None (length_ p));
      h ← upd h (last_child p) (fun c => put_next c child);
      upd h up (fun p => put_children p (first_child p) child (s32 (length_ p + 1)))
  end.

(** [key_len == cur->key_len && memcmp(key, cur->key, key_len) == 0]. *)
Definition same_key (n : config_node_t) (k : bytes) (len : Z) : outcome bool :=
  if len =? key_len n then
    match key n with
    | None => Trap NullDeref
    | Some block => a ← read_block k 0 len; b ← read_block block 0 len; Ok (memcmp a b =? 0)
    end
  else Ok false.

Fixpoint find_loop (fuel : nat) (h : heap) (cur : ptr) (k : bytes) (len : Z) : outcome ptr :=
  match cur with
  | None => Ok None
  | Some _ =>
      match fuel with
      | O => Trap OutOfFuel
      | S fuel =>
          n ← get h cur;
          b ← same_key n k len;
          if b : bool then Ok cur else find_loop fuel h (next_sibling n) k len
      end
  end.
Definition find_child (h : heap) (up : ptr) (k : bytes) (len : Z) : outcome ptr :=
  match up with
  | None => Ok None
  | Some _ => p ← get h up; find_loop (size (nodes h)) h (first_child p) k len
  end.

Definition copy_output_node (h : heap) (node : ptr) (o : lexer_output_t) : outcome heap :=
  n ← get h node;
  let item := type n =? CONFIG_TYPE_ITEM in
  let len := if item then o_key_len o + o_value_len o + 2 else o_key_len o + 1 in
  match zmalloc_block len with
  | None => Trap NullDeref
  | Some buf =>
      k ← read_block (o_key o) 0 (o_key_len o);
      buf ← memcpy buf 0 k;
      buf ← store buf (o_key_len o) 0;
      if item then
        v ← read_block (default [] (o_value o)) 0 (o_value_len o);
        buf ← memcpy buf (o_key_len o + 1) v;
        buf ← store buf (o_key_len o + 1 + o_value_len o) 0;
        upd h node (fun n => put_text n buf (o_key_len o) (Some (o_key_len o + 1)) (o_value_len o) (o_lineno o))
      else upd h node (fun n => put_text n buf (o_key_len o) (value n) (value_len n) (o_lineno o))
  end.

(** The loop that frees a tree: the children of a node are appended to the list
    that [next_sibling] makes. *)
Fixpoint destroy_loop (fuel : nat) (h : heap) (node last : ptr) : outcome heap :=
  match node with
  | None => Ok h
  | Some _ =>
      match fuel with
      | O => Trap OutOfFuel
      | S fuel =>
          n ← get h node;
          r ← (match first_child n with
               | Some _ => h ← upd h last (fun l => put_next l (first_child n)); Ok (h, last_child n)
               | None => Ok (h, last)
               end);
          let '(h, last) := r : heap * ptr in
          n ← get h node;
          h ← free_node h node;
          destroy_loop fuel h (next_sibling n) last
      end
  end.
Definition config_node_destroy (h : heap) (node : ptr) : outcome heap := destroy_loop (S (size (nodes h))) h node node.

(** ** Parsing *)

Record pstate := mkPState { cur : ptr; stack_top : ptr; cur_level : Z; top_level : Z }.

(** A token either leads to the next state or to an error with its message. *)
Inductive step_result :=
| Continue (h : heap) (s : pstate)
| Fail (h : heap) (errmsg : option bytes).

Definition at_line (filename : bytes) (line : Z) (rest : bytes) : outcome bytes :=
  l ← ll_text line;
  Ok (str "Error in file " ++ filename ++ str ":" ++ l ++ rest).

Definition already_defined (h : heap) (filename : bytes) (o : lexer_output_t) (tmp : ptr) : outcome step_result :=
  n ← get h tmp;
  d ← ll_text (lineno n);
  t ← at_line filename (o_lineno o) (str ", key '" ++ o_key o ++ str "' already defined at line " ++ d);
  Ok (Fail h (asprintf t)).

Definition no_memory (h : heap) : step_result := Fail h (asprintf (strerror ENOMEM)).

(** [new_config_node], the type, [copy_output_node] and [add_child]; null when
    there is no memory for the node. *)
Definition new_child (h : heap) (up : ptr) (t : Z) (o : lexer_output_t) : outcome (heap * ptr) :=
  match new_config_node h with
  | (h, None) => Ok (h, None)
  | (h, Some c) =>
      h ← upd h (Some c) (fun n => put_type n t);
      h ← copy_output_node h (Some c) o;
      h ← add_child h up (Some c);
      Ok (h, Some c)
  end.

(** [output.key_len = 0]. *)
Definition no_key (o : lexer_output_t) : lexer_output_t :=
  mkOutput (o_type o) (o_is_array o) (o_level o) (o_key o) 0 (o_value o) (o_value_len o) (o_lineno o).

(** The item itself, under its group or array. *)
Definition put_item_node (h : heap) (s : pstate) (up : ptr) (o : lexer_output_t) : outcome step_result :=
  r ← new_child h up CONFIG_TYPE_ITEM o;
  match r : heap * ptr with
  | (h, None) => Ok (no_memory h)
  | (h, Some _) => Ok (Continue h s)
  end.

Definition item_token (h : heap) (s : pstate) (filename : bytes) (o : lexer_output_t) : outcome step_result :=
  tmp ← find_child h (cur s) (o_key o) (o_key_len o);
  if o_is_array o then
    match tmp : ptr with
    | None =>
        r ← new_child h (cur s) CONFIG_TYPE_ARRAY o;
        match r : heap * ptr with
        | (h, None) => Ok (no_memory h)
        | (h, Some a) => put_item_node h s (Some a) (no_key o)
        end
    | Some a =>
        n ← get h tmp;
        if negb (type n =? CONFIG_TYPE_ARRAY) then already_defined h filename o tmp
        else put_item_node h s (Some a) (no_key o)
    end
  else
    match tmp with
    | Some _ => already_defined h filename o tmp
    | None => put_item_node h s (cur s) o
    end.

(** [cur = cur->parent; if (cur->type == CONFIG_TYPE_ARRAY) cur = cur->parent]. *)
Definition go_up (h : heap) (c : ptr) : outcome ptr :=
  n ← get h c;
  p ← get h (parent n);
  if type p =? CONFIG_TYPE_ARRAY then Ok (parent p) else Ok (parent n).

(** [while (cur_level > output.level)]. *)
Fixpoint up_loop (fuel : nat) (h : heap) (c : ptr) (level target : Z) : outcome (ptr * Z) :=
  if target <? level then
    match fuel with
    | O => Trap OutOfFuel
    | S fuel => c ← go_up h c; up_loop fuel h c (level - 1) target
    end
  else Ok (c, level).

(** A new group becomes the current one. *)
Definition put_group_node (h : heap) (up : ptr) (o : lexer_output_t) (level : Z) : outcome step_result :=
  r ← new_child h up CONFIG_TYPE_GROUP o;
  match r : heap * ptr with
  | (h, None) => Ok (no_memory h)
  | (h, Some c) => Ok (Continue h (mkPState (Some c) (Some c) level (o_level o)))
  end.

(** A group that is not the current one of its level; [c] is the group it is in. *)
Definition other_group (h : heap) (s : pstate) (filename : bytes) (c : ptr) (level : Z) (o : lexer_output_t)
  : outcome step_result :=
  tmp ← find_child h c (o_key o) (o_key_len o);
  if o_is_array o then
    match tmp : ptr with
    | None =>
        r ← new_child h c CONFIG_TYPE_ARRAY o;
        match r : heap * ptr with
        | (h, None) => Ok (no_memory h)
        | (h, Some a) => put_group_node h (Some a) (no_key o) level
        end
    | Some a => put_group_node h (Some a) (no_key o) level
    end
  else
    match tmp with
    | None => put_group_node h c o level
    | Some _ =>
        n ← get h tmp;
        if negb (type n =? CONFIG_TYPE_GROUP) then already_defined h filename o tmp
        else Ok (Continue h (mkPState c (stack_top s) level (top_level s)))
    end.

Definition group_token (h : heap) (s : pstate) (filename : bytes) (o : lexer_output_t) : outcome step_result :=
  if top_level s + 1 <? o_level o then
    t ← at_line filename (o_lineno o) (str ", group level error");
    Ok (Fail h (asprintf t))
  else
    r ← up_loop (Z.to_nat (top_level s - o_level o)) h (stack_top s) (top_level s) (o_level o);
    let '(c, level) := r : ptr * Z in
    differs ← (if negb (level =? o_level o) || o_is_array o then Ok true
               else n ← get h c; b ← same_key n (o_key o) (o_key_len o); Ok (negb b));
    if differs : bool then
      c ← (if level =? o_level o then go_up h c else Ok c);
      other_group h s filename c level o
    else Ok (Continue h (mkPState c (stack_top s) level (top_level s))).

(** The loop over the tokens: the state at the end of the file, or an error. *)
Fixpoint tokens_loop (fuel : nat) (h : heap) (s : pstate) (filename : bytes) (x : lexer_t) (input : bytes)
  : outcome step_result :=
  match fuel with
  | O => Trap OutOfFuel
  | S fuel =>
      r ← lexer_next x input;
      let '(ret, x, input) := r : Z * lexer_t * bytes in
      if ret =? 0 then Ok (Continue h s)
      else if ret =? -1 then
        t ← at_line filename (o_lineno (output x)) (str ", syntax error");
        Ok (Fail h (asprintf t))
      else
        r ← (match o_type (output x) with
             | TOKEN_TYPE_ITEM => item_token h s filename (output x)
             | TOKEN_TYPE_GROUP => group_token h s filename (output x)
             end);
        match r with
        | Continue h s => tokens_loop fuel h s filename x input
        | Fail h e => Ok (Fail h e)
        end
  end.

(** [file] is the content of the file or the error of fopen.  The tree, or null
    and the message. *)
Definition config_parse_file (h : heap) (filename : bytes) (file : bytes + Z) : outcome (heap * ptr * option bytes) :=
  match new_config_node h with
  | (h, None) => Ok (h, None, asprintf (strerror ENOMEM))
  | (h, Some r) =>
      let root := Some r in
      h ← upd h root (fun n => put_type n CONFIG_TYPE_GROUP);
      match lexer_init_error with
      | Some errno => h ← free_node h root; Ok (h, None, asprintf (strerror errno))
      | None =>
          match file with
          | inr errno => h ← config_node_destroy h root; Ok (h, None, asprintf (strerror errno))
          | inl input =>
              e ← tokens_loop (S (length input)) h (mkPState root root (-1) (-1)) filename (lexer_init no_output) input;
              match e with
              | Continue h _ => Ok (h, root, None)
              | Fail h msg => h ← config_node_destroy h root; Ok (h, None, msg)
              end
          end
      end
  end.

(** ** The interface *)

Record config_t := mkConfig { root : ptr; errmsg : option bytes }.

Definition config_init : outcome config_t := if alloc_ok 16 then Ok (mkConfig None None) else Trap NullDeref.

Definition config_destroy (h : heap) (c : config_t) : outcome heap := config_node_destroy h (root c).

Definition config_read_file (h : heap) (c : config_t) (filename : bytes) (file : bytes + Z) : outcome (heap * config_t * Z) :=
  h ← (match root c with Some _ => config_node_destroy h (root c) | None => Ok h end);
  r ← config_parse_file h filename file;
  let '(h, ret, msg) := r : heap * ptr * option bytes in
  match ret with
  | Some _ => Ok (h, mkConfig ret (errmsg c), 0)
  | None => Ok (h, mkConfig (root c) msg, -1)
  end.

(** [strtok_r] until it returns null: the parts of the path between slashes. *)
Fixpoint strtok (path : bytes) (acc : bytes) : list bytes :=
  match path with
  | [] => match acc with [] => [] | _ => [acc] end
  | c :: path =>
      if c =? 47 then match acc with [] => strtok path [] | _ => acc :: strtok path [] end
      else strtok path (acc ++ [c])
  end.

(** [for(; index > 0 && node; index--, node = node->next_sibling)]. *)
Fixpoint skip (i : nat) (h : heap) (node : ptr) : outcome ptr :=
  match i, node with
  | S i, Some _ => n ← get h node; skip i h (next_sibling n)
  | _, _ => Ok node
  end.

Definition lookup_part (h : heap) (node : ptr) (k : bytes) : outcome ptr :=
  n ← get h node;
  if type n =? CONFIG_TYPE_ARRAY then skip (Z.to_nat (atoi k)) h (first_child n)
  else if type n =? CONFIG_TYPE_GROUP then find_child h node k (Z.of_nat (length k))
  else Ok None.

Fixpoint lookup_parts (h : heap) (node : ptr) (parts : list bytes) : outcome ptr :=
  match parts, node with
  | k :: parts, Some _ => node ← lookup_part h node k; lookup_parts h node parts
  | _, _ => Ok node
  end.

(** Without memory for the copy of the path, strtok_r starts from an
    uninitialised position. *)
Definition config_lookup (h : heap) (c : config_t) (cpath : bytes) : outcome ptr :=
  if alloc_ok (Z.of_nat (length cpath) + 1) then lookup_parts h (root c) (strtok cpath []) else Trap Undefined.

(** The strings of a node, each from its start to the end of its block. *)
Definition config_node_key (h : heap) (node : ptr) : outcome (option bytes) := n ← get h node; Ok (key n).
Definition config_node_value (h : heap) (node : ptr) : outcome (option bytes) :=
  n ← get h node;
  Ok (match value n, key n with Some off, Some block => Some (drop (Z.to_nat off) block) | _, _ => None end).
Definition config_node_first_child (h : heap) (node : ptr) : outcome ptr := n ← get h node; Ok (first_child n).
Definition config_next (h : heap) (node : ptr) : outcome ptr := n ← get h node; Ok (next_sibling n).

Definition config_node_get_bool (h : heap) (node : ptr) : outcome bool :=
  v ← config_node_value h node;
  match v with
  | None => Trap NullDeref
  | Some v =>
      let v := cstr v in
      Ok (negb (strtoll v =? 0) || strcaseeq v (str "y") || strcaseeq v (str "yes") || strcaseeq v (str "true")
          || strcaseeq v (str "t"))
  end.

Definition config_lookup_string (h : heap) (c : config_t) (path : bytes) : outcome (Z * option bytes) :=
  node ← config_lookup h c path;
  match node : ptr with
  | None => Ok (-1, None)
  | Some _ => v ← config_node_value h node; Ok (0, v)
  end.
Definition config_lookup_bool (h : heap) (c : config_t) (path : bytes) : outcome (Z * option bool) :=
  node ← config_lookup h c path;
  match node : ptr with
  | None => Ok (-1, None)
  | Some _ => v ← config_node_get_bool h node; Ok (0, Some v)
  end.

End Config.
