(* ===== verification/NewConfigFacts.v ===== *)
(** * Configuration trees: links, deletion and construction

    [tree_ok] says that the nodes of a heap form one tree: the children of each
    node, in order, are a list of addresses, and all pointers agree with these
    lists.  [config_node_destroy] frees exactly such a tree; looking for a child
    and adding one are operations on the lists. *)

From S2P Require Import Prelude Utils NewLexer NewLexerFacts NewConfig.

Abbreviation kids := (gmap nat (list nat)).

Definition prev_of (ks : list nat) (i : nat) : ptr := match i with O => None | S i => ks !! i end.

(** [r] is the root. *)
Record tree_ok (h : heap) (K : kids) (r : nat) : Prop := {
  t_dom : forall p, is_Some (nodes h !! p) <-> is_Some (K !! p);
  t_ends : forall p n ks, nodes h !! p = Some n -> K !! p = Some ks -> first_child n = head ks /\ last_child n = last ks;
  t_nodup : forall p ks, K !! p = Some ks -> NoDup ks;
  t_kid : forall p ks i c, K !! p = Some ks -> ks !! i = Some c ->
    (p < c)%nat /\ exists n, nodes h !! c = Some n /\ parent n = Some p /\ next_sibling n = ks !! S i /\ prev_sibling n = prev_of ks i;
  t_root : exists n, nodes h !! r = Some n /\ parent n = None /\ next_sibling n = None /\ type n = CONFIG_TYPE_GROUP;
  t_up : forall p n, nodes h !! p = Some n -> p <> r -> exists q ks, parent n = Some q /\ K !! q = Some ks /\ p ∈ ks;
  t_fresh : forall p n, nodes h !! p = Some n -> (p < next h)%nat;
  t_key : forall p n, nodes h !! p = Some n -> p <> r ->
    exists block, key n = Some block /\ 0 <= key_len n <= Z.of_nat (length block)
}.

(** ** Deletion *)

(** The state of the loop: [Q] are the nodes on the list that is being freed. *)
Record draining (h : gmap nat config_node_t) (K : kids) (Q : list nat) : Prop := {
  d_ends : forall p n, h !! p = Some n -> exists ks, K !! p = Some ks /\ NoDup ks /\ first_child n = head ks /\ last_child n = last ks;
  d_nodup : NoDup Q;
  d_queue : forall i p, Q !! i = Some p -> exists n, h !! p = Some n /\ next_sibling n = Q !! S i;
  d_kid : forall p n ks i c, h !! p = Some n -> K !! p = Some ks -> ks !! i = Some c ->
    (p < c)%nat /\ (c ∉ Q) /\ exists m, h !! c = Some m /\ next_sibling m = ks !! S i;
  d_owner : forall p q n m ks ks' c, h !! p = Some n -> h !! q = Some m -> K !! p = Some ks -> K !! q = Some ks' ->
    c ∈ ks -> c ∈ ks' -> p = q;
  d_cover : forall p n, h !! p = Some n -> p ∈ Q \/ exists q m ks, h !! q = Some m /\ K !! q = Some ks /\ p ∈ ks
}.

Lemma draining_start h K r : tree_ok h K r -> draining (nodes h) K [r].
Proof.
  intros T. split.
  - intros p n Hp. destruct (proj1 (t_dom _ _ _ T p)) as [ks Hks]; [eauto|]. exists ks.
    split_and!; [done|by eapply t_nodup|by eapply t_ends|by eapply t_ends].
  - apply NoDup_singleton.
  - intros i p Hi. apply list_lookup_singleton_Some in Hi as [-> ->]. destruct (t_root _ _ _ T) as (n & Hn & _ & Hx & _). eauto.
  - intros p n ks i c Hp Hks Hc. destruct (t_kid _ _ _ T p ks i c Hks Hc) as (Hlt & m & Hm & Hup & Hnx & _).
    split_and!; [done| |eauto]. intros ->%list_elem_of_singleton. destruct (t_root _ _ _ T) as (n' & Hn' & Hup' & _). congruence.
  - intros p q n m ks ks' c Hp Hq Hks Hks' [i Hi]%list_elem_of_lookup [j Hj]%list_elem_of_lookup.
    destruct (t_kid _ _ _ T p ks i c Hks Hi) as (_ & n1 & H1 & H2 & _). destruct (t_kid _ _ _ T q ks' j c Hks' Hj) as (_ & n2 & H3 & H4 & _).
    congruence.
  - intros p n Hp. destruct (decide (p = r)) as [->|Hne]; [left; by apply list_elem_of_singleton|right].
    destruct (t_up _ _ _ T p n Hp Hne) as (q & ks & _ & Hks & Hin). destruct (proj2 (t_dom _ _ _ T q)) as [m Hm]; eauto 6.
Qed.

(** The last node of the list is linked to the children [ks]. *)
Definition relinked (h h1 : gmap nat config_node_t) (l : ptr) (ks : list nat) : Prop :=
  forall c, match h !! c, h1 !! c with
            | Some m, Some m1 => first_child m1 = first_child m /\ last_child m1 = last_child m /\
                next_sibling m1 = (if bool_decide (ks <> [] /\ l = Some c) then head ks else next_sibling m)
            | None, None => True
            | _, _ => False
            end.

Lemma relinked_some h h1 l ks c m : relinked h h1 l ks -> h !! c = Some m -> exists m1, h1 !! c = Some m1 /\
  first_child m1 = first_child m /\ last_child m1 = last_child m /\
  next_sibling m1 = (if bool_decide (ks <> [] /\ l = Some c) then head ks else next_sibling m).
Proof. intros H Hc. specialize (H c). rewrite Hc in H. destruct (h1 !! c); [eauto|done]. Qed.

Lemma relinked_back h h1 l ks c m1 : relinked h h1 l ks -> h1 !! c = Some m1 -> exists m, h !! c = Some m /\
  first_child m1 = first_child m /\ last_child m1 = last_child m.
Proof. intros H Hc. specialize (H c). rewrite Hc in H. destruct (h !! c); [|done]. destruct H as (H1 & H2 & _). eauto. Qed.

(** The links of the longer list, where [p] was its first node. *)
Lemma relinked_queue h h1 K p Q ks i q : draining h K (p :: Q) -> (exists n, h !! p = Some n) -> K !! p = Some ks ->
  relinked h h1 (last (p :: Q)) ks -> (Q ++ ks) !! i = Some q ->
  exists m1, delete p h1 !! q = Some m1 /\ next_sibling m1 = (Q ++ ks) !! S i.
Proof.
  intros D (n & Hp) Hks R Hi. pose proof (d_nodup _ _ _ D) as Hnd. pose proof Hnd as [HpQ HQ]%NoDup_cons.
  assert (Hlook : forall m, h !! q = Some m -> q <> p -> exists m1, delete p h1 !! q = Some m1 /\
     next_sibling m1 = (if bool_decide (ks <> [] /\ last (p :: Q) = Some q) then head ks else next_sibling m)).
  { intros m Hq Hne. destruct (relinked_some _ _ _ _ _ _ R Hq) as (m1 & Hm1 & _ & _ & Hx). exists m1. by rewrite lookup_delete_ne. }
  apply lookup_app_Some in Hi as [Hi|[Hlen Hi]].
  - destruct (d_queue _ _ _ D (S i) q Hi) as (m & Hm & Hx). destruct (Hlook m Hm) as (m1 & Hm1 & Hx1).
    { intros ->. by apply HpQ, (list_elem_of_lookup_2 _ i). }
    exists m1. split; [done|]. rewrite Hx1, Hx. cbn [lookup list_lookup]. apply lookup_lt_Some in Hi as Hlt.
    destruct (decide (S i = length Q)) as [E|E].
    + assert (Hl : last (p :: Q) = Some q) by (rewrite last_lookup; cbn [length pred]; rewrite <- E; done).
      rewrite lookup_app_r, E, Nat.sub_diag by lia. destruct ks as [|k ks]; [|by rewrite bool_decide_true].
      rewrite bool_decide_false by naive_solver. by apply lookup_ge_None_2.
    + rewrite bool_decide_false; [by rewrite lookup_app_l by lia|]. intros [_ Hl]. rewrite last_lookup in Hl. cbn [length pred] in Hl.
      assert (E' : S i = length Q); [|done]. by eapply (NoDup_lookup (p :: Q)).
  - destruct (d_kid _ _ _ D p n ks _ q Hp Hks Hi) as (_ & Hn & m & Hm & Hx).
    destruct (Hlook m Hm) as (m1 & Hm1 & Hx1); [intros ->; apply Hn; constructor|].
    exists m1. split; [done|]. rewrite Hx1, bool_decide_false, Hx.
    + rewrite lookup_app_r by lia. f_equal. lia.
    + intros [_ Hl]. apply Hn. by apply last_Some_elem_of.
Qed.

Lemma draining_step h h1 K p Q ks n : draining h K (p :: Q) -> h !! p = Some n -> K !! p = Some ks ->
  relinked h h1 (last (p :: Q)) ks -> draining (delete p h1) K (Q ++ ks).
Proof.
  intros D Hp Hks R. pose proof (d_nodup _ _ _ D) as Hnd. apply NoDup_cons in Hnd as [HpQ HQ].
  destruct (d_ends _ _ _ D p n Hp) as (ks0 & Hks0 & Hndk & _). rewrite Hks in Hks0. injection Hks0 as <-.
  assert (Hkid : forall i c, ks !! i = Some c -> (c ∉ p :: Q) /\ exists m, h !! c = Some m /\ next_sibling m = ks !! S i)
    by (intros i c Hc; by apply (d_kid _ _ _ D p n ks i c)).
  assert (Hback : forall q m, delete p h1 !! q = Some m -> q <> p /\ exists m0, h !! q = Some m0 /\
     first_child m = first_child m0 /\ last_child m = last_child m0).
  { intros q m Hq. apply lookup_delete_Some in Hq as [Hne Hq]. split; [done|]. by eapply relinked_back. }
  assert (Hlook : forall q m, h !! q = Some m -> q <> p -> exists m1, delete p h1 !! q = Some m1 /\
     next_sibling m1 = (if bool_decide (ks <> [] /\ last (p :: Q) = Some q) then head ks else next_sibling m)).
  { intros q m Hq Hne. destruct (relinked_some _ _ _ _ _ _ R Hq) as (m1 & Hm1 & _ & _ & Hx). exists m1.
    by rewrite lookup_delete_ne. }
  split.
  - intros q m Hq. destruct (Hback q m Hq) as (_ & m0 & Hm0 & -> & ->). by apply (d_ends _ _ _ D).
  - apply NoDup_app. split_and!; [done| |done]. intros c HcQ [i Hi]%list_elem_of_lookup. destruct (Hkid i c Hi) as [Hn _].
    by apply Hn, list_elem_of_further.
  - intros i q Hi. eapply relinked_queue; try done. by exists n.
  - intros q m ks' i c Hq Hks' Hc. destruct (Hback q m Hq) as (Hne & m0 & Hm0 & _).
    destruct (d_kid _ _ _ D q m0 ks' i c Hm0 Hks' Hc) as (Hlt & Hn & mc & Hmc & Hx).
    destruct (Hlook c mc Hmc) as (m1 & Hm1 & Hx1); [intros ->; apply Hn; constructor|].
    split_and!; [done| |].
    + intros [HcQ|Hck]%elem_of_app; [by apply Hn, list_elem_of_further|].
      apply Hne. eapply (d_owner _ _ _ D q p); try done. by eapply list_elem_of_lookup_2.
    + exists m1. split; [done|]. rewrite Hx1, bool_decide_false; [done|]. intros [_ Hl]. apply Hn. by apply last_Some_elem_of.
  - intros p1 q1 n1 m1 ks1 ks2 c H1 H2. apply Hback in H1 as (_ & ? & H1 & _). apply Hback in H2 as (_ & ? & H2 & _).
    by eapply (d_owner _ _ _ D).
  - intros q m Hq. destruct (Hback q m Hq) as (Hne & m0 & Hm0 & _).
    destruct (d_cover _ _ _ D q m0 Hm0) as [HqQ|(q' & m' & ks' & Hq' & Hks' & Hin)].
    + apply elem_of_cons in HqQ as [|HqQ]; [done|]. left. apply elem_of_app. by left.
    + destruct (decide (q' = p)) as [->|Hne'].
      * left. apply elem_of_app. right. congruence.
      * right. destruct (Hlook q' m' Hq' Hne') as (m1 & Hm1 & _). eauto 6.
Qed.

Lemma draining_done h K : draining h K [] -> h = ∅.
Proof.
  intros D. apply map_eq. intros p. rewrite lookup_empty. destruct (h !! p) as [n|] eqn:Hp; [exfalso|done].
  revert n Hp. induction p as [p IH] using lt_wf_ind. intros n Hp.
  destruct (d_cover _ _ _ D p n Hp) as [Hin|(q & m & ks & Hq & Hks & [i Hi]%list_elem_of_lookup)]; [by apply elem_of_nil in Hin|].
  destruct (d_kid _ _ _ D q m ks i p Hq Hks Hi) as (Hlt & _). by eapply IH.
Qed.

Lemma relinked_refl h l : relinked h h l [].
Proof. intros c. destruct (h !! c); [|done]. split_and!; [done|done|]. by rewrite bool_decide_false by naive_solver. Qed.

Lemma relinked_upd h l m ks k : h !! l = Some m -> relinked h (<[l := put_next m (Some k)]> h) (Some l) (k :: ks).
Proof.
  intros Hl c. destruct (decide (c = l)) as [->|Hne].
  - rewrite Hl, lookup_insert_eq. split_and!; [done|done|]. by rewrite bool_decide_true.
  - rewrite lookup_insert_ne by done. destruct (h !! c); [|done]. split_and!; [done|done|]. rewrite bool_decide_false; [done|]. naive_solver.
Qed.

(** The list is freed to its end, with everything that hangs on it. *)
Lemma destroy_loop_ok fuel h K Q end_ : draining (nodes h) K Q -> (size (nodes h) <= fuel)%nat -> (Q <> [] -> end_ = last Q) ->
  destroy_loop fuel h (head Q) end_ = Ok (mkHeap ∅ (next h)).
Proof.
  revert h Q end_. induction fuel as [|fuel IH]; intros h Q end_ D Hf Hend; (destruct Q as [|p Q];
    [cbn; destruct h as [m nx]; cbn in *; by rewrite (draining_done _ _ D)|]).
  { destruct (d_queue _ _ _ D 0 p eq_refl) as (n & Hn & _). exfalso.
    assert (E : nodes h = ∅) by (apply map_size_empty_inv; lia). by rewrite E, lookup_empty in Hn. }
  destruct (d_queue _ _ _ D 0 p eq_refl) as (n & Hn & Hx). cbn [lookup list_lookup] in Hx.
  destruct (d_ends _ _ _ D p n Hn) as (ks & Hks & Hnd & Hfst & Hlst).
  assert (Hlive : exists l m, last (p :: Q) = Some l /\ nodes h !! l = Some m).
  { destruct (last (p :: Q)) as [l|] eqn:El; [|by apply last_None in El]. rewrite last_lookup in El.
    destruct (d_queue _ _ _ D _ l El) as (m & Hm & _). eauto. }
  destruct Hlive as (l & m & El & Hm).
  assert (Hgo : forall m1 last1, relinked (nodes h) m1 (Some l) ks -> (Q ++ ks <> [] -> last1 = last (Q ++ ks)) ->
     (n' ← get (mkHeap m1 (next h)) (Some p); h' ← free_node (mkHeap m1 (next h)) (Some p);
      destroy_loop fuel h' (next_sibling n') last1) = Ok (mkHeap ∅ (next h))).
  { intros m1 last1 R Hl1. destruct (relinked_some _ _ _ _ _ _ R Hn) as (n1 & Hn1 & _ & _ & Hx1).
    unfold get, free_node. cbn [nodes next]. rewrite Hn1. cbn [mbind outcome_bind].
    assert (D' : draining (delete p m1) K (Q ++ ks)) by (eapply draining_step; [done..|by rewrite El]).
    assert (Hsz : size (delete p m1) = pred (size (nodes h))).
    { rewrite map_size_delete_Some by eauto. f_equal. rewrite <- !size_dom. f_equal. apply set_eq. intros c.
      rewrite !elem_of_dom. specialize (R c). destruct (nodes h !! c), (m1 !! c); naive_solver. }
    replace (next_sibling n1) with (head (Q ++ ks)); [|rewrite Hx1, Hx].
    - apply (IH (mkHeap (delete p m1) (next h))); cbn [nodes]; [done|lia|done].
    - destruct Q as [|q Q]; cbn [app].
      + injection El as ->. destruct ks as [|k ks]; [by rewrite bool_decide_false by naive_solver|by rewrite bool_decide_true].
      + rewrite bool_decide_false; [done|]. intros [_ Hl]. injection Hl as ->.
        pose proof (d_nodup _ _ _ D) as Hd. apply NoDup_cons in Hd as [Hd _]. apply Hd. by apply last_Some_elem_of. }
  cbn [destroy_loop hd_error]. assert (Eg : get h (Some p) = Ok n) by (unfold get; by rewrite Hn). rewrite Eg. cbn [mbind outcome_bind].
  rewrite Hfst, (Hend ltac:(done)), El. destruct ks as [|k ks]; cbn [hd_error].
  - cbn [mbind outcome_bind]. destruct h as [mm nx]. apply (Hgo mm); [apply relinked_refl|]. rewrite app_nil_r. intros HQ.
    destruct Q; [done|]. by rewrite <- El.
  - unfold upd. rewrite Hm. cbn [mbind outcome_bind]. apply (Hgo (<[l := put_next m (Some k)]> (nodes h))); [by apply relinked_upd|].
    rewrite Hlst. intros _. by rewrite last_app_cons.
Qed.

Lemma config_node_destroy_ok h K r : tree_ok h K r -> config_node_destroy h (Some r) = Ok (mkHeap ∅ (next h)).
Proof. intros T. apply (destroy_loop_ok _ h K [r]); [by apply draining_start|lia|done]. Qed.

(** ** Looking for a child *)

Definition key_text (n : config_node_t) : bytes := take (Z.to_nat (key_len n)) (default [] (key n)).

Definition has_name (h : heap) (k : bytes) (c : nat) : bool :=
  match nodes h !! c with Some n => bool_decide (key_text n = k) | None => false end.

Lemma same_key_ok n k block : key n = Some block -> 0 <= key_len n <= Z.of_nat (length block) ->
  same_key n k (Z.of_nat (length k)) = Ok (bool_decide (key_text n = k)).
Proof.
  intros Hb Hl. unfold same_key, key_text. rewrite Hb. cbn [from_option id].
  destruct (Z.eqb_spec (Z.of_nat (length k)) (key_len n)) as [E|E].
  - pose proof (read_block_0 k [] (Z.of_nat (length k)) eq_refl) as Hk. rewrite app_nil_r in Hk. rewrite Hk. cbn [mbind outcome_bind].
    pose proof (read_block_0 (take (Z.to_nat (key_len n)) block) (drop (Z.to_nat (key_len n)) block) (key_len n)) as Hr.
    rewrite take_drop, length_take in Hr. rewrite E, Hr by lia. cbn [mbind outcome_bind]. f_equal.
    destruct (bool_decide_reflect (take (Z.to_nat (key_len n)) block = k)) as [<-|Hne].
    + by rewrite memcmp_refl.
    + apply Z.eqb_neq. intros Hz. apply Hne. symmetry. apply memcmp_0; [rewrite length_take; lia|done].
  - f_equal. symmetry. apply bool_decide_eq_false. intros <-. rewrite length_take in E. lia.
Qed.

Lemma kids_size h K r p ks : tree_ok h K r -> K !! p = Some ks -> (length ks <= size (nodes h))%nat.
Proof.
  intros T Hks. rewrite <- size_dom, <- (size_list_to_set (C := gset nat) ks) by (by eapply t_nodup).
  apply subseteq_size. intros c [i Hi]%elem_of_list_to_set%list_elem_of_lookup. apply elem_of_dom.
  destruct (t_kid _ _ _ T p ks i c Hks Hi) as (_ & n & Hn & _). eauto.
Qed.

Lemma find_loop_ok h K r p ks i fuel k : tree_ok h K r -> K !! p = Some ks -> (length ks <= i + fuel)%nat ->
  find_loop fuel h (ks !! i) k (Z.of_nat (length k)) = Ok (List.find (has_name h k) (drop i ks)).
Proof.
  intros T Hks. revert i. induction fuel as [|fuel IH]; intros i Hf.
  { rewrite lookup_ge_None_2, drop_ge by lia. done. }
  destruct (ks !! i) as [c|] eqn:Hc; [|by rewrite drop_ge by (by apply lookup_ge_None_1)].
  destruct (t_kid _ _ _ T p ks i c Hks Hc) as (Hlt & n & Hn & Hup & Hx & _).
  assert (Hne : c <> r) by (intros ->; destruct (t_root _ _ _ T) as (n' & Hn' & Hup' & _); congruence).
  destruct (t_key _ _ _ T c n Hn Hne) as (block & Hb & Hl). cbn [find_loop]. unfold get. rewrite Hn. cbn [mbind outcome_bind].
  rewrite (same_key_ok n k block Hb Hl). cbn [mbind outcome_bind]. rewrite (drop_S _ _ _ Hc). cbn [List.find].
  unfold has_name at 1. rewrite Hn. destruct (bool_decide _); [done|]. rewrite Hx. apply IH. lia.
Qed.

Lemma find_child_ok h K r p ks k : tree_ok h K r -> K !! p = Some ks ->
  find_child h (Some p) k (Z.of_nat (length k)) = Ok (List.find (has_name h k) ks).
Proof.
  intros T Hks. unfold find_child, get. destruct (proj2 (t_dom _ _ _ T p)) as [n Hn]; [eauto|]. rewrite Hn. cbn [mbind outcome_bind].
  destruct (t_ends _ _ _ T p n ks Hn Hks) as [-> _]. rewrite head_lookup.
  rewrite (find_loop_ok h K r p ks 0) by (try done; by eapply kids_size). done.
Qed.

(** ** Adding a child *)

Section Add.
Context `{Allocator} `{ConfigSys}.

(** What a token needs of memory is there. *)
Definition token_fits (t : Z) (o : lexer_output_t) (k : bytes) : Prop :=
  exists rest, o_key o = k ++ rest /\ o_key_len o = Z.of_nat (length k) /\
    (t = CONFIG_TYPE_ITEM -> o_value_len o = Z.of_nat (length (default [] (o_value o)))).

(** The block of a node. *)
Definition node_block (t : Z) (o : lexer_output_t) (k : bytes) : bytes :=
  k ++ [0] ++ (if t =? CONFIG_TYPE_ITEM then default [] (o_value o) ++ [0] else []).
Definition node_value (t : Z) (o : lexer_output_t) (k : bytes) (n : config_node_t) : option Z :=
  if t =? CONFIG_TYPE_ITEM then Some (Z.of_nat (length k) + 1) else value n.

Lemma copy_output_node_ok h c n o k : nodes h !! c = Some n -> token_fits (type n) o k -> (forall z, alloc_ok z = true) ->
  copy_output_node h (Some c) o = Ok (put h c (put_text n (node_block (type n) o k) (Z.of_nat (length k)) (node_value (type n) o k n)
    (if type n =? CONFIG_TYPE_ITEM then o_value_len o else value_len n) (o_lineno o))).
Proof.
  intros Hn (rest & Hk & Hkl & Hv) Hmem. unfold copy_output_node, get. rewrite Hn. cbn [mbind outcome_bind]. unfold zmalloc_block.
  rewrite Hmem, Hkl, Hk, (read_block_0 k rest _ eq_refl). cbn [mbind outcome_bind]. unfold node_block, node_value.
  destruct (type n =? CONFIG_TYPE_ITEM) eqn:Et.
  - apply Z.eqb_eq in Et. rewrite (Hv Et). set (v := default [] (o_value o)).
    set (buf := fresh_bytes _). assert (Hlen : length buf = (length k + (2 + length v))%nat) by (unfold buf; rewrite fresh_bytes_length; lia).
    clearbody buf. rewrite memcpy_front by lia. cbn [mbind outcome_bind].
    assert (Hd : length (drop (length k) buf) = (2 + length v)%nat) by (rewrite length_drop; lia).
    destruct (drop (length k) buf) as [|x b]; [done|]. cbn in Hd. rewrite store_app by done. cbn [mbind outcome_bind].
    pose proof (read_block_0 v [] (Z.of_nat (length v)) eq_refl) as Hrv. rewrite app_nil_r in Hrv. rewrite Hrv. cbn [mbind outcome_bind].
    rewrite <- (take_drop (length v) b). change (k ++ 0 :: ?l) with (k ++ [0] ++ l). rewrite (app_assoc k).
    rewrite memcpy_app by (rewrite ?length_app, ?length_take; cbn; lia). cbn [mbind outcome_bind].
    assert (Hd2 : length (drop (length v) b) = 1%nat) by (rewrite length_drop; lia).
    destruct (drop (length v) b) as [|y [|? ?]]; [done| |done].
    rewrite (app_assoc (k ++ [0])). rewrite store_app by (rewrite !length_app; cbn; lia). cbn [mbind outcome_bind].
    unfold upd. rewrite Hn. do 2 f_equal. by rewrite <- !app_assoc.
  - set (buf := fresh_bytes _). assert (Hlen : length buf = (length k + 1)%nat) by (unfold buf; rewrite fresh_bytes_length; lia).
    clearbody buf. rewrite memcpy_front by lia. cbn [mbind outcome_bind].
    assert (Hd : length (drop (length k) buf) = 1%nat) by (rewrite length_drop; lia).
    destruct (drop (length k) buf) as [|x [|? ?]]; [done| |done]. rewrite store_app by done. cbn [mbind outcome_bind].
    unfold upd. by rewrite Hn.
Qed.

Lemma alter_to_insert (f : config_node_t -> config_node_t) (m : gmap nat config_node_t) l n : m !! l = Some n -> alter f l m = <[l := f n]> m.
Proof.
  intros Hl. apply map_eq. intros i. destruct (decide (i = l)) as [->|Hne].
  - by rewrite lookup_alter_eq, lookup_insert_eq, Hl.
  - by rewrite lookup_alter_ne, lookup_insert_ne by done.
Qed.

(** The table of nodes after [c] was appended to the children [ks] of [up]. *)
Definition with_next (l : ptr) (c : nat) (m : gmap nat config_node_t) : gmap nat config_node_t :=
  match l with None => m | Some l => alter (fun n => put_next n (Some c)) l m end.
Definition added (m : gmap nat config_node_t) (up : nat) (ks : list nat) (c : nat) (nc nup : config_node_t) : gmap nat config_node_t :=
  <[up := put_children nup (head (ks ++ [c])) (Some c) (s32 (length_ nup + 1))]> (with_next (last ks) c (<[c := nc]> m)).

Lemma added_lookup m up ks c nc nup p : last ks <> Some up -> last ks <> Some c -> up <> c -> m !! c = None ->
  added m up ks c nc nup !! p =
    if decide (p = up) then Some (put_children nup (head (ks ++ [c])) (Some c) (s32 (length_ nup + 1)))
    else if decide (p = c) then Some nc
    else if decide (last ks = Some p) then (fun n => put_next n (Some c)) <$> m !! p
    else m !! p.
Proof.
  intros Hu Hc Huc Hm. unfold added. destruct (decide (p = up)) as [->|Hp]; [by rewrite lookup_insert_eq|].
  rewrite lookup_insert_ne by done. unfold with_next. destruct (last ks) as [l|] eqn:El.
  - destruct (decide (p = c)) as [->|Hpc].
    + rewrite lookup_alter_ne by congruence. by rewrite lookup_insert_eq.
    + destruct (decide (Some l = Some p)) as [E|E].
      * injection E as ->. by rewrite lookup_alter_eq, lookup_insert_ne.
      * rewrite lookup_alter_ne by congruence. by rewrite lookup_insert_ne.
  - rewrite (decide_False (P := None = Some p)) by done. destruct (decide (p = c)) as [->|Hpc]; [by rewrite lookup_insert_eq|by rewrite lookup_insert_ne].
Qed.

Definition new_node (t : Z) (o : lexer_output_t) (k : bytes) (up : nat) (prev : ptr) (i : Z) : config_node_t :=
  put_place (put_text (put_type zero_node t) (node_block t o k) (Z.of_nat (length k)) (node_value t o k zero_node)
    (if t =? CONFIG_TYPE_ITEM then o_value_len o else 0) (o_lineno o)) (Some up) prev None i.

Lemma last_kid h K r up ks : tree_ok h K r -> K !! up = Some ks ->
  last ks <> Some up /\ last ks <> Some (next h) /\ up <> next h /\ nodes h !! next h = None /\
  exists nup, nodes h !! up = Some nup /\ first_child nup = head ks /\ last_child nup = last ks /\
    forall l, last ks = Some l -> exists nl, nodes h !! l = Some nl.
Proof.
  intros T Hks. destruct (proj2 (t_dom _ _ _ T up)) as [nup Hup]; [eauto|].
  assert (Hl : forall l, last ks = Some l -> (up < l)%nat /\ exists nl, nodes h !! l = Some nl).
  { intros l Hl. rewrite last_lookup in Hl. destruct (t_kid _ _ _ T up ks _ l Hks Hl) as (Hlt & nl & Hnl & _). eauto. }
  pose proof (t_fresh _ _ _ T up nup Hup) as Hf. destruct (t_ends _ _ _ T up nup ks Hup Hks) as [H1 H2].
  split_and!.
  - intros E. apply Hl in E as [E _]. lia.
  - intros E. apply Hl in E as (_ & nl & E). apply (t_fresh _ _ _ T) in E. lia.
  - lia.
  - destruct (nodes h !! next h) eqn:E; [|done]. apply (t_fresh _ _ _ T) in E. lia.
  - exists nup. split_and!; try done. intros l E. by apply Hl in E as [_ E].
Qed.

Lemma new_child_eq h K r up ks t o k : tree_ok h K r -> K !! up = Some ks -> token_fits t o k -> (forall z, alloc_ok z = true) ->
  calloc_ok (next h) = true ->
  exists nup, nodes h !! up = Some nup /\ new_child h (Some up) t o =
    Ok (mkHeap (added (nodes h) up ks (next h) (new_node t o k up (last ks) (length_ nup)) nup) (S (next h)), Some (next h)).
Proof.
  intros T Hks Hfit Hmem Hok. destruct (last_kid h K r up ks T Hks) as (Hlu & Hlc & Huc & Hfree & nup & Hup & Hfst & Hlst & Hl).
  exists nup. split; [done|]. unfold new_child, new_config_node. rewrite Hok. set (c := next h) in *. clearbody c.
  unfold upd at 1. cbn [nodes next]. rewrite lookup_insert_eq. cbn [mbind outcome_bind]. unfold put. cbn [nodes next].
  rewrite insert_insert_eq. rewrite (copy_output_node_ok _ c (put_type zero_node t) o k); [|cbn; by rewrite lookup_insert_eq|done|done].
  cbn [mbind outcome_bind]. unfold put. cbn [nodes next type put_type]. rewrite insert_insert_eq.
  unfold add_child, get. cbn [nodes]. rewrite (lookup_insert_ne _ c up), Hup by congruence. cbn [mbind outcome_bind]. rewrite lookup_insert_eq. cbn [mbind outcome_bind].
  rewrite Hfst, Hlst. unfold added, with_next. destruct ks as [|k0 ks]; cbn [hd_error app].
  - cbn [last]. unfold upd, put. cbn [nodes next]. rewrite lookup_insert_eq. cbn [mbind outcome_bind nodes next]. rewrite insert_insert_eq.
    by rewrite (lookup_insert_ne _ c up), Hup by congruence.
  - destruct (last (k0 :: ks)) as [l|] eqn:El; [|by apply last_None in El]. destruct (Hl l eq_refl) as (nl & Hnl).
    unfold upd, put. cbn [nodes next]. rewrite lookup_insert_eq. cbn [mbind outcome_bind nodes next]. rewrite insert_insert_eq.
    rewrite (lookup_insert_ne _ c l), Hnl by congruence. cbn [mbind outcome_bind nodes next].
    rewrite (lookup_insert_ne _ l up), (lookup_insert_ne _ c up), Hup by congruence. cbn [mbind outcome_bind]. rewrite Hfst. cbn [hd_error].
    do 3 f_equal. rewrite (alter_to_insert _ _ l nl) by (by rewrite lookup_insert_ne by congruence). done.
Qed.

(** What a change elsewhere leaves alone. *)
Record kept (n n' : config_node_t) : Prop := {
  k_type : type n' = type n;
  k_parent : parent n' = parent n;
  k_key : key n' = key n;
  k_value : value n' = value n;
  k_key_len : key_len n' = key_len n;
  k_lineno : lineno n' = lineno n;
  k_prev : prev_sibling n' = prev_sibling n
}.

Lemma kept_refl n : kept n n.
Proof. done. Qed.

Lemma kept_trans n1 n2 n3 : kept n1 n2 -> kept n2 n3 -> kept n1 n3.
Proof. intros [] []. split; congruence. Qed.

Definition frame (h h' : heap) : Prop := forall p n, nodes h !! p = Some n -> exists n', nodes h' !! p = Some n' /\ kept n n'.

Lemma nodes_frame_refl h : frame h h.
Proof. intros p n Hp. exists n. by split. Qed.

Lemma nodes_frame_trans h1 h2 h3 : frame h1 h2 -> frame h2 h3 -> frame h1 h3.
Proof.
  intros H1 H2 p n Hp. destruct (H1 p n Hp) as (n2 & Hp2 & K1). destruct (H2 p n2 Hp2) as (n3 & Hp3 & K2).
  exists n3. split; [done|]. by eapply kept_trans.
Qed.

Lemma added_frame h K r up ks nc nup nx : tree_ok h K r -> K !! up = Some ks -> nodes h !! up = Some nup ->
  frame h (mkHeap (added (nodes h) up ks (next h) nc nup) nx).
Proof.
  intros T Hks Hup p n Hp. destruct (last_kid h K r up ks T Hks) as (Hlu & Hlc & Huc & Hfree & _).
  cbn [nodes]. rewrite added_lookup by done.
  destruct (decide (p = up)) as [->|]; [eexists; split; [reflexivity|]; assert (nup = n) as -> by congruence; by split|].
  destruct (decide (p = next h)) as [->|]; [congruence|].
  destruct (decide (last ks = Some p)); [|by exists n]. rewrite Hp. eexists. split; [reflexivity|]. by split.
Qed.

Section Append.
Context (h : heap) (K : kids) (r up : nat) (ks : list nat) (nc nup : config_node_t) (block : bytes).
Hypothesis T : tree_ok h K r.
Hypothesis Hks : K !! up = Some ks.
Hypothesis Hup : nodes h !! up = Some nup.
Hypothesis N1 : parent nc = Some up.
Hypothesis N2 : next_sibling nc = None.
Hypothesis N3 : prev_sibling nc = last ks.
Hypothesis N4 : first_child nc = None.
Hypothesis N5 : last_child nc = None.
Hypothesis N6 : key nc = Some block.
Hypothesis N7 : 0 <= key_len nc <= Z.of_nat (length block).

Let c := next h.
Let h' : heap := mkHeap (added (nodes h) up ks c nc nup) (S c).
Let K' : kids := <[up := ks ++ [c]]> (<[c := []]> K).

Lemma append_new : up <> c /\ nodes h !! c = None /\ (up < c)%nat.
Proof using T Hks Hup. destruct (last_kid h K r up ks T Hks) as (_ & _ & H1 & H2 & _). split_and!; [done|done|]. by eapply t_fresh. Qed.

Lemma append_lookup p : nodes h' !! p =
  if decide (p = up) then Some (put_children nup (head (ks ++ [c])) (Some c) (s32 (length_ nup + 1)))
  else if decide (p = c) then Some nc
  else if decide (last ks = Some p) then (fun n => put_next n (Some c)) <$> nodes h !! p else nodes h !! p.
Proof using T Hks Hup. destruct (last_kid h K r up ks T Hks) as (H1 & H2 & H3 & H4 & _). by apply added_lookup. Qed.

Lemma append_kids p l : K' !! p = Some l -> (p = up /\ l = ks ++ [c]) \/ (p = c /\ l = []) \/ (p <> up /\ p <> c /\ K !! p = Some l).
Proof.
  unfold K'. intros Hl. destruct (decide (p = up)) as [->|]; [rewrite lookup_insert_eq in Hl; injection Hl as <-; by left|].
  rewrite lookup_insert_ne in Hl by done. destruct (decide (p = c)) as [->|]; [rewrite lookup_insert_eq in Hl; injection Hl as <-; by right; left|].
  rewrite lookup_insert_ne in Hl by done. by right; right.
Qed.

Lemma append_kids_old p l : K !! p = Some l -> exists l', K' !! p = Some l' /\ forall d, d ∈ l -> d ∈ l'.
Proof.
  intros Hl. destruct append_new as (Huc & Hfree & _). destruct (decide (p = up)) as [->|].
  - eexists. split; [by unfold K'; rewrite lookup_insert_eq|]. assert (l = ks) as -> by congruence. intros d Hd. apply elem_of_app. by left.
  - exists l. split; [|done]. unfold K'. destruct (proj2 (t_dom _ _ _ T p)) as [m Hm]; [eauto|]. by rewrite !lookup_insert_ne by congruence.
Qed.

(** The last child is only the last child of [up]. *)
Lemma last_kid_place p l i d : K !! p = Some l -> l !! i = Some d -> last ks = Some d -> p = up /\ l = ks /\ S i = length ks.
Proof.
  intros Hl Hd E. rewrite last_lookup in E. destruct (t_kid _ _ _ T p l i d Hl Hd) as (_ & n & Hn & Hpar & _).
  destruct (t_kid _ _ _ T up ks _ d Hks E) as (_ & n2 & Hn2 & Hpar2 & _).
  assert (p = up) as -> by congruence. assert (l = ks) as -> by congruence. split_and!; [done|done|].
  assert (i = pred (length ks)) as -> by (eapply NoDup_lookup; [by eapply t_nodup|done|done]). apply lookup_lt_Some in E. lia.
Qed.

(** An old child keeps its place. *)
Lemma append_old p l i d : K !! p = Some l -> l !! i = Some d -> (p < d)%nat /\ d <> c /\ exists n, nodes h' !! d = Some n /\
  parent n = Some p /\ prev_sibling n = prev_of l i /\ next_sibling n = (if decide (p = up) then (l ++ [c]) !! S i else l !! S i).
Proof.
  intros Hl Hd. destruct append_new as (Huc & Hfree & _). destruct (t_kid _ _ _ T p l i d Hl Hd) as (Hlt & n & Hn & Hpar & Hnx & Hpv).
  assert (Hdc : d <> c) by congruence. split_and!; [done|done|]. rewrite append_lookup. destruct (decide (d = up)) as [->|Hdu].
  - eexists. split; [reflexivity|]. assert (nup = n) as -> by congruence. cbn. split_and!; [done|done|]. destruct (decide (p = up)); [lia|done].
  - destruct (decide (d = c)); [done|]. destruct (decide (last ks = Some d)) as [E|E].
    + destruct (last_kid_place p l i d Hl Hd E) as (-> & -> & Hi). rewrite Hn. eexists. split; [reflexivity|]. cbn.
      split_and!; [done|done|]. rewrite decide_True by done. rewrite Hi. by rewrite list_lookup_middle.
    + exists n. split_and!; try done. destruct (decide (p = up)) as [->|]; [|done]. assert (l = ks) as -> by congruence.
      apply lookup_lt_Some in Hd as Hlen. rewrite lookup_app_l; [done|].
      destruct (decide (S i = length ks)) as [Ei|]; [|lia]. exfalso. apply E. by rewrite last_lookup, <- Ei.
Qed.

Lemma append_back p n' : nodes h' !! p = Some n' -> (p = c /\ n' = nc) \/ (p <> c /\ exists n, nodes h !! p = Some n /\ kept n n' /\
  (p <> up -> first_child n' = first_child n /\ last_child n' = last_child n)).
Proof.
  intros Hp. destruct append_new as (Huc & _). rewrite append_lookup in Hp. destruct (decide (p = up)) as [->|].
  - injection Hp as <-. right. split; [done|]. exists nup. by repeat split.
  - destruct (decide (p = c)) as [->|Hpc]; [injection Hp as <-; by left|right]. split; [done|]. destruct (decide (last ks = Some p)).
    + destruct (nodes h !! p) as [n1|]; [|done]. injection Hp as <-. exists n1. by repeat split.
    + exists n'. by repeat split.
Qed.

Lemma append_dom p : is_Some (nodes h' !! p) <-> is_Some (K' !! p).
Proof.
  destruct append_new as (Huc & _). unfold K'. rewrite append_lookup.
  destruct (decide (p = up)) as [->|Hpu]; [rewrite lookup_insert_eq; by split; eauto|]. rewrite lookup_insert_ne by done.
  destruct (decide (p = c)) as [->|Hpc]; [rewrite lookup_insert_eq; by split; eauto|]. rewrite lookup_insert_ne, <- (t_dom _ _ _ T p) by done.
  destruct (decide (last ks = Some p)); [apply fmap_is_Some|done].
Qed.

Lemma append_ends p n l : nodes h' !! p = Some n -> K' !! p = Some l -> first_child n = head l /\ last_child n = last l.
Proof.
  intros Hp Hl. destruct append_new as (Huc & _). destruct (append_kids p l Hl) as [[-> ->]|[[-> ->]|(Hpu & Hpc & Hl')]].
  - rewrite append_lookup, decide_True in Hp by done. injection Hp as <-. cbn. split; [done|]. by rewrite last_snoc.
  - rewrite append_lookup, decide_False, decide_True in Hp by done. by injection Hp as <-.
  - destruct (append_back p n Hp) as [[-> _]|(_ & n0 & Hn0 & _ & He)]; [done|]. destruct (He Hpu) as [-> ->]. by eapply t_ends.
Qed.

Lemma append_nodup p l : K' !! p = Some l -> NoDup l.
Proof.
  intros Hl. destruct (append_kids p l Hl) as [[-> ->]|[[-> ->]|(Hpu & Hpc & Hl')]]; [|constructor|by eapply t_nodup].
  apply NoDup_app. split_and!; [by eapply t_nodup| |apply NoDup_singleton]. intros d [j Hj]%list_elem_of_lookup Hd%list_elem_of_singleton.
  by destruct (append_old up ks j d Hks Hj) as (_ & ? & _).
Qed.

Lemma append_kid p l j d : K' !! p = Some l -> l !! j = Some d ->
  (p < d)%nat /\ exists n, nodes h' !! d = Some n /\ parent n = Some p /\ next_sibling n = l !! S j /\ prev_sibling n = prev_of l j.
Proof.
  intros Hl Hd. destruct append_new as (Huc & _ & Hlt). destruct (append_kids p l Hl) as [[-> ->]|[[-> ->]|(Hpu & Hpc & Hl')]]; [|done|].
  - apply lookup_app_Some in Hd as [Hd|[Hlen Hd]].
    + destruct (append_old up ks j d Hks Hd) as (Hltd & _ & n & Hn & Hpar & Hpv & Hnx). rewrite decide_True in Hnx by done.
      split; [done|]. exists n. split_and!; try done. rewrite Hpv. destruct j as [|j]; [done|]. cbn. rewrite lookup_app_l; [done|].
      apply lookup_lt_Some in Hd. lia.
    + apply list_lookup_singleton_Some in Hd as [Hj <-]. assert (j = length ks) as -> by lia.
      split; [done|]. exists nc. rewrite append_lookup, decide_False, decide_True by done. split_and!; [done|done| |].
      * rewrite N2. symmetry. apply lookup_ge_None_2. rewrite length_app. cbn. lia.
      * rewrite N3, last_lookup. destruct (length ks) as [|m] eqn:El; cbn; [by apply nil_length_inv in El as ->|by rewrite lookup_app_l by lia].
  - destruct (append_old p l j d Hl' Hd) as (Hltd & _ & n & Hn & Hpar & Hpv & Hnx). rewrite decide_False in Hnx by done. eauto 6.
Qed.

Lemma append_root : exists n, nodes h' !! r = Some n /\ parent n = None /\ next_sibling n = None /\ type n = CONFIG_TYPE_GROUP.
Proof.
  destruct append_new as (_ & Hfree & _). destruct (t_root _ _ _ T) as (n & Hn & R1 & R2 & R3). rewrite append_lookup.
  destruct (decide (r = up)) as [->|]; [eexists; split; [reflexivity|]; assert (nup = n) as -> by congruence; done|].
  destruct (decide (r = c)) as [->|]; [congruence|]. destruct (decide (last ks = Some r)) as [E|]; [exfalso|eauto].
  rewrite last_lookup in E. destruct (t_kid _ _ _ T up ks _ r Hks E) as (_ & n2 & Hn2 & Hpar2 & _). congruence.
Qed.

Lemma append_tree : tree_ok h' K' r.
Proof.
  split; [exact append_dom|exact append_ends|exact append_nodup|exact append_kid|exact append_root| | |].
  - intros p n Hp Hr. destruct (append_back p n Hp) as [[-> ->]|(Hpc & n0 & Hn0 & Hkn & _)].
    + exists up, (ks ++ [c]). split_and!; [done|by unfold K'; rewrite lookup_insert_eq|]. apply elem_of_app. right. by apply list_elem_of_singleton.
    + destruct (t_up _ _ _ T p n0 Hn0 Hr) as (q & l & Hq & Hl & Hin). destruct (append_kids_old q l Hl) as (l' & Hl' & Hsub).
      exists q, l'. split_and!; [by rewrite (k_parent _ _ Hkn)|done|auto].
  - intros p n Hp. cbn. destruct (append_back p n Hp) as [[-> _]|(_ & n0 & Hn0 & _)]; [lia|]. apply (t_fresh _ _ _ T) in Hn0. fold c in Hn0. lia.
  - intros p n Hp Hr. destruct (append_back p n Hp) as [[-> ->]|(_ & n0 & Hn0 & Hkn & _)]; [eauto|].
    rewrite (k_key _ _ Hkn), (k_key_len _ _ Hkn). by eapply t_key.
Qed.
End Append.

(** The kids after [c] was appended to [up]. *)
Definition push (K : kids) (up : nat) (ks : list nat) (c : nat) : kids := <[up := ks ++ [c]]> (<[c := []]> K).

(** The node that a token made. *)
Record made (n : config_node_t) (t : Z) (o : lexer_output_t) (k : bytes) (up : nat) : Prop := {
  m_type : type n = t;
  m_parent : parent n = Some up;
  m_key : key n = Some (node_block t o k);
  m_key_len : key_len n = Z.of_nat (length k);
  m_lineno : lineno n = o_lineno o;
  m_value : value n = node_value t o k zero_node
}.

Lemma new_child_ok h K r up ks t o k : tree_ok h K r -> K !! up = Some ks -> token_fits t o k -> (forall z, alloc_ok z = true) ->
  calloc_ok (next h) = true ->
  exists h' n, new_child h (Some up) t o = Ok (h', Some (next h)) /\ tree_ok h' (push K up ks (next h)) r /\ frame h h' /\
    nodes h' !! next h = Some n /\ made n t o k up /\ (forall p, is_Some (nodes h' !! p) -> p = next h \/ is_Some (nodes h !! p)).
Proof.
  intros T Hks Hfit Hmem Hok. destruct (new_child_eq h K r up ks t o k T Hks Hfit Hmem Hok) as (nup & Hup & Hnew).
  set (nc := new_node t o k up (last ks) (length_ nup)) in *. eexists _, nc. split; [exact Hnew|]. split_and!.
  - apply (append_tree h K r up ks nc nup (node_block t o k)); try done. cbn. unfold node_block. rewrite length_app. lia.
  - by eapply added_frame.
  - rewrite (append_lookup h K r up ks nc nup T Hks Hup). destruct (append_new h K r up ks nup T Hks Hup) as (Huc & _).
    by rewrite decide_False, decide_True by congruence.
  - by split.
  - intros p [n' Hp]. destruct (append_back h K r up ks nc nup T Hks Hup p n' Hp) as [[-> _]|(_ & n0 & Hn0 & _)]; eauto.
Qed.

Lemma new_child_none h up t o : calloc_ok (next h) = false -> new_child h up t o = Ok (mkHeap (nodes h) (S (next h)), None).
Proof. intros Hno. unfold new_child, new_config_node. by rewrite Hno. Qed.

Lemma tree_ok_skip h K r : tree_ok h K r -> tree_ok (mkHeap (nodes h) (S (next h))) K r.
Proof. intros [H1 H2 H3 H4 H5 H6 H7 H8]. split; try done. intros p n Hp. cbn. apply H7 in Hp. lia. Qed.
End Add.
