(* ===== verification/NewConfigParse.v ===== *)
(** * Parsing configuration files: every input is handled

    The invariant of the loop over the tokens, what each token does to it, and
    that parsing returns for every text, with a tree or with nothing left. *)

From S2P Require Import Prelude Utils NewLexer NewLexerFacts NewConfig NewConfigFacts.

(** An array is not inside an array; line numbers are small. *)
Record shape (h : heap) (bound : Z) : Prop := {
  s_arr : forall p q n m, nodes h !! p = Some n -> parent n = Some q -> nodes h !! q = Some m ->
    type n = CONFIG_TYPE_ARRAY -> type m <> CONFIG_TYPE_ARRAY;
  s_line : forall p n, nodes h !! p = Some n -> 0 <= lineno n <= bound
}.

(** [p] is inside at least [k] groups. *)
Fixpoint climbs (h : heap) (k : nat) (p : nat) : Prop :=
  match k with
  | O => is_Some (nodes h !! p)
  | S k => exists q, go_up h (Some p) = Ok (Some q) /\ climbs h k q
  end.

Lemma go_up_live h p q : go_up h p = Ok q -> exists a n, p = Some a /\ nodes h !! a = Some n.
Proof. unfold go_up, get. destruct p as [a|]; [|done]. destruct (nodes h !! a) eqn:E; [|done]. eauto. Qed.

Lemma climbs_live h k p : climbs h k p -> is_Some (nodes h !! p).
Proof. destruct k; [done|]. intros (q & Hq & _). destruct (go_up_live _ _ _ Hq) as (a & n & [= <-] & Hn). eauto. Qed.

Lemma climbs_less h k p : climbs h (S k) p -> climbs h k p.
Proof.
  revert p. induction k as [|k IH]; intros p Hp; [by eapply climbs_live|]. destruct Hp as (q & Hq & Hk).
  exists q. split; [done|]. by apply IH.
Qed.

Lemma go_up_frame h h' p q : frame h h' -> go_up h (Some p) = Ok (Some q) -> go_up h' (Some p) = Ok (Some q).
Proof.
  intros F. unfold go_up, get. destruct (nodes h !! p) as [n|] eqn:Hn; [|done]. cbn [mbind outcome_bind].
  destruct (F p n Hn) as (n' & -> & Kn). cbn [mbind outcome_bind]. rewrite (k_parent _ _ Kn). destruct (parent n) as [a|]; [|done].
  destruct (nodes h !! a) as [m|] eqn:Hm; [|done]. destruct (F a m Hm) as (m' & -> & Km). cbn [mbind outcome_bind].
  by rewrite (k_type _ _ Km), (k_parent _ _ Km).
Qed.

Lemma climbs_frame h h' k p : frame h h' -> climbs h k p -> climbs h' k p.
Proof.
  intros F. revert p. induction k as [|k IH]; intros p Hp; cbn in *.
  - destruct Hp as [n Hn]. destruct (F p n Hn) as (n' & Hn' & _). eauto.
  - destruct Hp as (q & Hq & Hk). exists q. split; [by eapply go_up_frame|auto].
Qed.

(** The group above is no array. *)
Lemma go_up_group h bound p q n : shape h bound -> go_up h (Some p) = Ok (Some q) -> nodes h !! q = Some n -> type n <> CONFIG_TYPE_ARRAY.
Proof.
  intros S. unfold go_up, get. destruct (nodes h !! p) as [np|] eqn:Hp; [|done]. cbn [mbind outcome_bind].
  destruct (parent np) as [a|]; [|done]. destruct (nodes h !! a) as [m|] eqn:Hm; [|done]. cbn [mbind outcome_bind].
  destruct (type m =? CONFIG_TYPE_ARRAY) eqn:Et; intros [= E] Hq.
  - apply Z.eqb_eq in Et. by eapply (s_arr _ _ S a q m n).
  - subst a. assert (m = n) as -> by congruence. lia.
Qed.

(** The invariant of the loop. *)
Record parsing (bound : Z) (h : heap) (K : kids) (r : nat) (s : pstate) : Prop := {
  p_tree : tree_ok h K r;
  p_shape : shape h bound;
  p_cur : exists c n, cur s = Some c /\ nodes h !! c = Some n /\ type n <> CONFIG_TYPE_ARRAY;
  p_top : exists t n, stack_top s = Some t /\ nodes h !! t = Some n /\ type n <> CONFIG_TYPE_ARRAY /\
    climbs h (Z.to_nat (top_level s + 1)) t;
  p_level : -1 <= top_level s
}.

Lemma parsing_frame bound h h' K K' r s : parsing bound h K r s -> frame h h' -> tree_ok h' K' r -> shape h' bound -> parsing bound h' K' r s.
Proof.
  intros [P1 P2 (c & n & Hc & Hn & Ht) (t & m & Htop & Hm & Htt & Hcl) P5] F T S. split; try done.
  - destruct (F c n Hn) as (n' & Hn' & Kn). exists c, n'. by rewrite (k_type _ _ Kn).
  - destruct (F t m Hm) as (m' & Hm' & Km). exists t, m'. rewrite (k_type _ _ Km). split_and!; try done. by eapply climbs_frame.
Qed.

Section Parse.
Context `{Allocator} `{ConfigSys} (bound : Z) (r : nat).
Hypothesis Hmem : forall z, alloc_ok z = true.
Hypothesis Hbound : 0 <= bound < 2 ^ 31.

Definition step_good (res : outcome step_result) : Prop :=
  match res with
  | Ok (Continue h s) => exists K, parsing bound h K r s
  | Ok (Fail h _) => exists K, tree_ok h K r
  | Trap _ => False
  end.

(** A new node under [up]. *)
Lemma new_child_good h K up ks t o k nup : tree_ok h K r -> shape h bound -> K !! up = Some ks -> nodes h !! up = Some nup ->
  token_fits t o k -> 0 <= o_lineno o <= bound -> (t = CONFIG_TYPE_ARRAY -> type nup <> CONFIG_TYPE_ARRAY) ->
  (exists h', new_child h (Some up) t o = Ok (h', None) /\ tree_ok h' K r) \/
  (exists h' n, new_child h (Some up) t o = Ok (h', Some (next h)) /\ tree_ok h' (push K up ks (next h)) r /\ frame h h' /\
     nodes h' !! next h = Some n /\ made n t o k up /\ shape h' bound).
Proof.
  intros T S Hks Hup Hfit Hline Harr. destruct (calloc_ok (next h)) eqn:Hok.
  2: { left. eexists. split; [by apply new_child_none|by apply tree_ok_skip]. }
  right. destruct (new_child_ok h K r up ks t o k T Hks Hfit Hmem Hok) as (h' & n & Hnew & T' & F & Hn & Hm & Honly).
  exists h', n. split_and!; try done.
  assert (Hold : forall p n', nodes h' !! p = Some n' -> p <> next h -> exists n0, nodes h !! p = Some n0 /\ kept n0 n').
  { intros p n' Hp Hne. destruct (Honly p) as [|[n0 Hn0]]; [eauto|done|]. destruct (F p n0 Hn0) as (n2 & Hn2 & Kn).
    exists n0. split; [done|]. congruence. }
  destruct (last_kid h K r up ks T Hks) as (_ & _ & Huc & Hfree & _). split.
  - intros p q n1 m1 Hp Hpar Hq Ht. destruct (decide (q = next h)) as [->|Hq'].
    { (* the new node has no children *)
      destruct (decide (p = r)) as [->|Hpr]; [destruct (t_root _ _ _ T') as (n0 & Hn0 & Hroot & _); congruence|].
      destruct (t_up _ _ _ T' p n1 Hp Hpr) as (q & l & Hq1 & Hl & Hin). assert (q = next h) as -> by congruence.
      unfold push in Hl. rewrite lookup_insert_ne, lookup_insert_eq in Hl by done. injection Hl as <-. by apply elem_of_nil in Hin. }
    destruct (Hold q m1 Hq Hq') as (m0 & Hm0 & Km). rewrite (k_type _ _ Km). destruct (decide (p = next h)) as [->|Hp'].
    + assert (n1 = n) as -> by congruence. destruct Hm as [Mt Mp _ _ _ _]. assert (q = up) as -> by congruence.
      assert (m0 = nup) as -> by congruence. apply Harr. congruence.
    + destruct (Hold p n1 Hp Hp') as (n0 & Hn0 & Kn). eapply (s_arr _ _ S p q n0 m0); try done; [by rewrite <- (k_parent _ _ Kn)|by rewrite <- (k_type _ _ Kn)].
  - intros p n1 Hp. destruct (decide (p = next h)) as [->|Hp'].
    + assert (n1 = n) as -> by congruence. by rewrite (m_lineno _ _ _ _ _ Hm).
    + destruct (Hold p n1 Hp Hp') as (n0 & Hn0 & Kn). rewrite (k_lineno _ _ Kn). by eapply s_line.
Qed.


Lemma text_of z : 0 <= z <= bound -> exists t, ll_text z = Ok t.
Proof using Hbound. intros Hz. destruct (ll_text_spec z) as (t & Ht & _); [unfold LLONG_MIN, LLONG_MAX; lia|]. eauto. Qed.

Lemma at_line_ok f line rest : 0 <= line <= bound -> exists t, at_line f line rest = Ok t.
Proof using Hbound. intros Hl. unfold at_line. destruct (text_of line Hl) as (t & ->). cbn. eauto. Qed.

Lemma already_defined_good h K f o p n : tree_ok h K r -> shape h bound -> nodes h !! p = Some n -> 0 <= o_lineno o <= bound ->
  step_good (already_defined h f o (Some p)).
Proof using Hbound.
  intros T S Hp Hl. unfold already_defined, get. rewrite Hp. cbn [mbind outcome_bind]. destruct (text_of (lineno n) (s_line _ _ S p n Hp)) as (t & ->).
  cbn [mbind outcome_bind]. destruct (at_line_ok f (o_lineno o) (str ", key '" ++ o_key o ++ str "' already defined at line " ++ t) Hl) as (t' & ->).
  cbn. by exists K.
Qed.

Lemma fits_item o : token_ok bound o -> o_type o = TOKEN_TYPE_ITEM -> token_fits CONFIG_TYPE_ITEM o (o_key o).
Proof. intros [T1 T2 _ _] Ho. exists []. rewrite app_nil_r. split_and!; [done|done|]. intros _. by apply T2. Qed.
Lemma fits_item_no_key o : token_ok bound o -> o_type o = TOKEN_TYPE_ITEM -> token_fits CONFIG_TYPE_ITEM (no_key o) [].
Proof. intros [T1 T2 _ _] Ho. exists (o_key o). split_and!; [done|done|]. intros _. by apply T2. Qed.
Lemma fits_other o t : token_ok bound o -> t <> CONFIG_TYPE_ITEM -> token_fits t o (o_key o).
Proof. intros [T1 T2 _ _] Ht. exists []. rewrite app_nil_r. split_and!; done. Qed.
Lemma fits_group_no_key o : token_fits CONFIG_TYPE_GROUP (no_key o) [].
Proof. exists (o_key o). by split_and!. Qed.

(** A child that was found. *)
Lemma found_kid h K p ks k c : tree_ok h K r -> K !! p = Some ks -> List.find (has_name h k) ks = Some c ->
  exists n, nodes h !! c = Some n /\ parent n = Some p /\ key_text n = k.
Proof.
  intros T Hks Hf. apply List.find_some in Hf as [Hin Hn]. apply list_elem_of_In, list_elem_of_lookup in Hin as [i Hi].
  destruct (t_kid _ _ _ T p ks i c Hks Hi) as (_ & n & Hc & Hpar & _). exists n. unfold has_name in Hn. rewrite Hc in Hn.
  split_and!; [done|done|]. by apply bool_decide_eq_true in Hn.
Qed.

Lemma kids_of h K p n : tree_ok h K r -> nodes h !! p = Some n -> exists ks, K !! p = Some ks.
Proof. intros T Hp. apply (t_dom _ _ _ T p). eauto. Qed.

Lemma put_item_good h K s up n o k : parsing bound h K r s -> nodes h !! up = Some n -> token_fits CONFIG_TYPE_ITEM o k ->
  0 <= o_lineno o <= bound -> step_good (put_item_node h s (Some up) o).
Proof using Hmem.
  intros P Hup Hfit Hline. pose proof P as [T S _ _ _]. destruct (kids_of h K up n T Hup) as (ks & Hks). unfold put_item_node.
  destruct (new_child_good h K up ks CONFIG_TYPE_ITEM o k n T S Hks Hup Hfit Hline) as [(h' & -> & T')|(h' & n' & -> & T' & F & _ & _ & S')];
    [done|cbn; eauto|]. cbn. eexists. by eapply parsing_frame.
Qed.

Lemma item_token_good h K s f o : parsing bound h K r s -> token_ok bound o -> o_type o = TOKEN_TYPE_ITEM -> step_good (item_token h s f o).
Proof using Hmem Hbound.
  intros P Ho Hty. pose proof P as [T S (c & n & Hc & Hn & Ht) _ _]. destruct (kids_of h K c n T Hn) as (ks & Hks).
  pose proof (tk_line _ _ Ho) as Hline. unfold item_token. rewrite Hc, (tk_key _ _ Ho), (find_child_ok h K r c ks) by done. cbn [mbind outcome_bind].
  destruct (List.find (has_name h (o_key o)) ks) as [a|] eqn:Hf.
  - destruct (found_kid h K c ks (o_key o) a T Hks Hf) as (na & Hna & _). destruct (o_is_array o).
    + unfold get. rewrite Hna. cbn [mbind outcome_bind]. destruct (negb (type na =? CONFIG_TYPE_ARRAY)).
      * by eapply already_defined_good.
      * eapply put_item_good; [done|done|by apply fits_item_no_key|done].
    + by eapply already_defined_good.
  - destruct (o_is_array o); [|rewrite <- Hc; by rewrite Hc; eapply put_item_good; [done|done|by apply fits_item|done]].
    destruct (new_child_good h K c ks CONFIG_TYPE_ARRAY o (o_key o) n T S Hks Hn) as [(h' & -> & T')|(h' & n' & -> & T' & F & Hn' & _ & S')];
      [by apply fits_other|done|done|cbn; eauto|]. cbn [mbind outcome_bind].
    eapply put_item_good; [by eapply parsing_frame|done|by apply fits_item_no_key|done].
Qed.

(** Moving up to the level of a group. *)
Lemma up_loop_ok h fuel c level target : -1 <= target -> (Z.to_nat (level - target) <= fuel)%nat -> climbs h (Z.to_nat (level + 1)) c ->
  exists c', up_loop fuel h (Some c) level target = Ok (Some c', Z.min level target) /\
    climbs h (Z.to_nat (Z.min level target + 1)) c' /\ (c' = c \/ exists d, go_up h (Some d) = Ok (Some c')).
Proof.
  intros Ht. revert c level. induction fuel as [|fuel IH]; intros c level Hf Hc; cbn [up_loop].
  - rewrite (proj2 (Z.ltb_ge target level)) by lia. exists c. replace (Z.min level target) with level by lia.
    replace (Z.min level target) with level by lia. auto.
  - destruct (Z.ltb_spec target level) as [Hlt|Hge].
    + replace (Z.to_nat (level + 1)) with (S (Z.to_nat (level - 1 + 1))) in Hc by lia. destruct Hc as (q & Hq & Hc). rewrite Hq. cbn [mbind outcome_bind].
      destruct (IH q (level - 1)) as (c' & E & Hc' & Hor); [lia|done|]. exists c'.
      replace (Z.min level target) with (Z.min (level - 1) target) by lia.
      replace (Z.min level target) with (Z.min (level - 1) target) by lia. split_and!; try done. right. destruct Hor as [-> |]; eauto.
    + exists c. replace (Z.min level target) with level by lia. replace (Z.min level target) with level by lia. auto.
Qed.

Lemma go_up_eq h p n q m : nodes h !! p = Some n -> parent n = Some q -> nodes h !! q = Some m ->
  go_up h (Some p) = Ok (if type m =? CONFIG_TYPE_ARRAY then parent m else Some q).
Proof. intros Hn Hp Hm. unfold go_up, get. rewrite Hn. cbn [mbind outcome_bind]. rewrite Hp, Hm. cbn. by destruct (type m =? _). Qed.

(** A new group under [up], where the group around it is [q]. *)
Lemma put_group_good h K s up nup o k level q : parsing bound h K r s -> nodes h !! up = Some nup -> token_fits CONFIG_TYPE_GROUP o k ->
  0 <= o_lineno o <= bound -> 0 <= o_level o ->
  (if type nup =? CONFIG_TYPE_ARRAY then parent nup else Some up) = Some q -> climbs h (Z.to_nat (o_level o)) q ->
  step_good (put_group_node h (Some up) o level).
Proof using Hmem.
  intros P Hup Hfit Hline Hlev Hq Hcl. pose proof P as [T S _ _ _]. destruct (kids_of h K up nup T Hup) as (ks & Hks). unfold put_group_node.
  destruct (new_child_good h K up ks CONFIG_TYPE_GROUP o k nup T S Hks Hup Hfit Hline) as [(h' & -> & T')|(h' & n' & -> & T' & F & Hn' & Hm & S')];
    [done|cbn; eauto|]. cbn. exists (push K up ks (next h)).
  assert (Hng : type n' <> CONFIG_TYPE_ARRAY) by (by rewrite (m_type _ _ _ _ _ Hm)). split; [done|done|cbn; eauto| |cbn; lia].
  exists (next h), n'. split_and!; try done. cbn. replace (Z.to_nat (o_level o + 1)) with (1 + Z.to_nat (o_level o))%nat by lia. exists q.
  split; [|by eapply climbs_frame]. destruct (F up nup Hup) as (nup' & Hup' & Kn).
  rewrite (go_up_eq h' (next h) n' up nup' Hn' (m_parent _ _ _ _ _ Hm) Hup'). by rewrite (k_type _ _ Kn), (k_parent _ _ Kn), Hq.
Qed.

Lemma other_group_good h K s f c n level o : parsing bound h K r s -> token_ok bound o -> o_type o = TOKEN_TYPE_GROUP ->
  nodes h !! c = Some n -> type n <> CONFIG_TYPE_ARRAY -> climbs h (Z.to_nat (o_level o)) c ->
  step_good (other_group h s f (Some c) level o).
Proof using Hmem Hbound.
  intros P Ho Hty Hn Hna Hcl. pose proof P as [T S _ _ _]. destruct (kids_of h K c n T Hn) as (ks & Hks).
  pose proof (tk_line _ _ Ho) as Hline. pose proof (tk_level _ _ Ho Hty) as Hlev.
  unfold other_group. rewrite (tk_key _ _ Ho), (find_child_ok h K r c ks) by done. cbn [mbind outcome_bind].
  destruct (List.find (has_name h (o_key o)) ks) as [a|] eqn:Hf.
  - destruct (found_kid h K c ks (o_key o) a T Hks Hf) as (na & Hna' & Hpar & _). destruct (o_is_array o).
    + destruct (type na =? CONFIG_TYPE_ARRAY) eqn:Et.
      * eapply (put_group_good h K s a na (no_key o) [] level c); try done; [by apply fits_group_no_key|by rewrite Et].
      * eapply (put_group_good h K s a na (no_key o) [] level a); try done; [by apply fits_group_no_key|by rewrite Et|].
        apply climbs_less. exists c. split; [|done]. rewrite (go_up_eq h a na c n) by done. by rewrite (proj2 (Z.eqb_neq _ _)).
    + unfold get. rewrite Hna'. cbn [mbind outcome_bind]. destruct (negb (type na =? CONFIG_TYPE_GROUP)); [by eapply already_defined_good|].
      cbn. exists K. destruct P as [P1 P2 P3 P4 P5]. split; try done. cbn. eauto.
  - destruct (o_is_array o).
    + destruct (new_child_good h K c ks CONFIG_TYPE_ARRAY o (o_key o) n T S Hks Hn) as [(h' & -> & T')|(h' & n' & -> & T' & F & Hn' & Hm & S')];
        [by apply fits_other|done|done|cbn; eauto|]. cbn [mbind outcome_bind].
      eapply (put_group_good h' _ s (next h) n' (no_key o) [] level c); try done; [by eapply parsing_frame|by apply fits_group_no_key| |by eapply climbs_frame].
      rewrite (m_type _ _ _ _ _ Hm). apply Hm.
    + eapply (put_group_good h K s c n o (o_key o) level c); try done; [by apply fits_other|]. by rewrite (proj2 (Z.eqb_neq _ _)).
Qed.

Lemma group_token_good h K s f o : parsing bound h K r s -> token_ok bound o -> o_type o = TOKEN_TYPE_GROUP -> step_good (group_token h s f o).
Proof using Hmem Hbound.
  intros P Ho Hty. pose proof P as [T S _ (t & nt & Htop & Hnt & Htt & Hcl) Hlevel]. pose proof (tk_level _ _ Ho Hty) as Hlev.
  unfold group_token. destruct (Z.ltb_spec (top_level s + 1) (o_level o)) as [Hdeep|Hdeep].
  { destruct (at_line_ok f (o_lineno o) (str ", group level error") (tk_line _ _ Ho)) as (m & ->). cbn. eauto. }
  rewrite Htop. destruct (up_loop_ok h (Z.to_nat (top_level s - o_level o)) t (top_level s) (o_level o)) as (c & -> & Hc & Hor); [lia|lia|done|].
  cbn [mbind outcome_bind]. set (level := Z.min (top_level s) (o_level o)) in *.
  destruct (climbs_live _ _ _ Hc) as [nc Hnc].
  assert (Hncg : type nc <> CONFIG_TYPE_ARRAY).
  { destruct Hor as [-> |(d & Hd)]; [congruence|]. by eapply go_up_group. }
  assert (Hother : step_good (c' ← (if level =? o_level o then go_up h (Some c) else Ok (Some c)); other_group h s f c' level o)).
  { destruct (Z.eqb_spec level (o_level o)) as [E|E].
    - replace (Z.to_nat (level + 1)) with (1 + Z.to_nat (o_level o))%nat in Hc by lia. destruct Hc as (q & Hq & Hc). rewrite Hq.
      cbn [mbind outcome_bind]. destruct (climbs_live _ _ _ Hc) as [nq Hnq]. eapply other_group_good; try done. by eapply go_up_group.
    - cbn [mbind outcome_bind]. eapply other_group_good; try done. replace (o_level o) with (level + 1) by lia. done. }
  destruct (negb (level =? o_level o) || o_is_array o) eqn:Ediff; cbn [mbind outcome_bind]; [exact Hother|].
  apply orb_false_iff in Ediff as [El Ea]. apply negb_false_iff, Z.eqb_eq in El.
  assert (Hcr : c <> r).
  { intros ->. replace (Z.to_nat (level + 1)) with (1 + Z.to_nat level)%nat in Hc by lia. destruct Hc as (q & Hq & _).
    destruct (t_root _ _ _ T) as (nr & Hnr & Hpr & _). unfold go_up, get in Hq. rewrite Hnr in Hq. cbn in Hq. by rewrite Hpr in Hq. }
  destruct (t_key _ _ _ T c nc Hnc Hcr) as (block & Hb & Hbl). unfold get. rewrite Hnc. cbn [mbind outcome_bind].
  rewrite (tk_key _ _ Ho), (same_key_ok nc (o_key o) block Hb Hbl). cbn [mbind outcome_bind].
  destruct (bool_decide _); cbn [negb]; [|exact Hother]. cbn. exists K. split; cbn; try done; [by exists c, nc|by exists t, nt].
Qed.

Lemma tokens_loop_good fuel h K s f x input : parsing bound h K r s -> lexer_ok bound x input -> (length input < fuel)%nat ->
  step_good (tokens_loop fuel h s f x input).
Proof using Hmem Hbound.
  revert h K s x input. induction fuel as [|fuel IH]; intros h K s x input P Hx Hf; [lia|]. cbn [tokens_loop].
  destruct (lexer_next_ok bound x input Hx) as (ret & x' & rest & -> & Hx' & Hret). cbn [mbind outcome_bind].
  destruct Hret as [-> |(Hlt & Hret & Hline)]; [cbn; eauto|]. destruct Hret as [-> |[Hpos Ho]].
  { cbn [Z.eqb Pos.eqb]. destruct (at_line_ok f (o_lineno (output x')) (str ", syntax error") Hline) as (t & ->). cbn. destruct P; eauto. }
  rewrite !(proj2 (Z.eqb_neq ret _)) by lia.
  assert (Hstep : step_good (match o_type (output x') with
     | TOKEN_TYPE_ITEM => item_token h s f (output x') | TOKEN_TYPE_GROUP => group_token h s f (output x') end)).
  { destruct (o_type (output x')) eqn:E; [by eapply group_token_good|by eapply item_token_good]. }
  destruct (match o_type (output x') with TOKEN_TYPE_GROUP => _ | TOKEN_TYPE_ITEM => _ end) as [[h' s'|h' e]|]; cbn in *; [|done|done].
  destruct Hstep as (K' & P'). eapply IH; [done|done|lia].
Qed.

End Parse.

(** The root alone. *)
Definition root_node : config_node_t := put_type zero_node CONFIG_TYPE_GROUP.

Lemma root_tree r : tree_ok (mkHeap {[r := root_node]} (S r)) {[r := []]} r.
Proof.
  split; cbn [nodes next].
  - intros p. destruct (decide (p = r)) as [->|]; [rewrite !lookup_singleton_eq; by split; eauto|by rewrite !lookup_singleton_ne].
  - intros p n ks Hp Hk. apply lookup_singleton_Some in Hp as [<- <-]. apply lookup_singleton_Some in Hk as [_ <-]. done.
  - intros p ks Hk. apply lookup_singleton_Some in Hk as [_ <-]. constructor.
  - intros p ks i c Hk Hc. by apply lookup_singleton_Some in Hk as [_ <-].
  - eexists. by rewrite lookup_singleton_eq.
  - intros p n Hp Hr. by apply lookup_singleton_Some in Hp as [<- _].
  - intros p n Hp. apply lookup_singleton_Some in Hp as [<- _]. lia.
  - intros p n Hp Hr. by apply lookup_singleton_Some in Hp as [<- _].
Qed.

Lemma root_parsing bound r : 0 <= bound -> parsing bound (mkHeap {[r := root_node]} (S r)) {[r := []]} r (mkPState (Some r) (Some r) (-1) (-1)).
Proof.
  intros Hb. split; [apply root_tree| | | |done].
  - split; cbn [nodes].
    + intros p q n m Hp Hpar. by apply lookup_singleton_Some in Hp as [_ <-].
    + intros p n Hp. apply lookup_singleton_Some in Hp as [_ <-]. cbn. lia.
  - exists r, root_node. cbn. by rewrite lookup_singleton_eq.
  - exists r, root_node. cbn. rewrite lookup_singleton_eq. split_and!; [done..|]. exists root_node. apply lookup_singleton_eq.
Qed.

Lemma lexer_init_ok bound input : Z.of_nat (length input) + 1 <= bound -> lexer_ok bound (lexer_init no_output) input.
Proof. intros Hb. split; cbn; [lia|lia|done]. Qed.

Section Files.
Context `{Allocator} `{ConfigSys}.

(** The start of parsing: the root, or the reason there is none. *)
Lemma parse_start h f file : nodes h = ∅ -> calloc_ok (next h) = true ->
  config_parse_file h f file =
    let h0 := mkHeap {[next h := root_node]} (S (next h)) in
    match lexer_init_error, file with
    | Some errno, _ => Ok (mkHeap ∅ (S (next h)), None, asprintf (strerror errno))
    | None, inr errno => Ok (mkHeap ∅ (S (next h)), None, asprintf (strerror errno))
    | None, inl input =>
        e ← tokens_loop (S (length input)) h0 (mkPState (Some (next h)) (Some (next h)) (-1) (-1)) f (lexer_init no_output) input;
        match e with
        | Continue h' _ => Ok (h', Some (next h), None)
        | Fail h' msg => h' ← config_node_destroy h' (Some (next h)); Ok (h', None, msg)
        end
    end.
Proof.
  intros He Hok. unfold config_parse_file, new_config_node. rewrite Hok, He. cbv zeta. unfold upd. cbn [nodes next].
  rewrite lookup_insert_eq. cbn [mbind outcome_bind]. unfold put. cbn [nodes next]. rewrite insert_insert_eq, insert_empty.
  change (put_type zero_node CONFIG_TYPE_GROUP) with root_node. destruct lexer_init_error as [e|].
  - unfold free_node. cbn [nodes next]. rewrite lookup_singleton_eq. cbn [mbind outcome_bind]. by rewrite delete_singleton_eq.
  - destruct file as [input|e]; [done|]. rewrite (config_node_destroy_ok _ _ _ (root_tree (next h))). done.
Qed.

(** Parsing returns for every file: with a tree, or with nothing left. *)
Lemma config_parse_file_ok h f file : nodes h = ∅ -> (forall z, alloc_ok z = true) ->
  match file with inl input => Z.of_nat (length input) < 2 ^ 31 - 2 | inr _ => True end ->
  exists h' p msg, config_parse_file h f file = Ok (h', p, msg) /\
    match p with Some r => exists K, tree_ok h' K r | None => nodes h' = ∅ end.
Proof.
  intros He Hmem Hlen. destruct (calloc_ok (next h)) eqn:Hok.
  2: { unfold config_parse_file, new_config_node. rewrite Hok. eexists _, None, _. split; [reflexivity|done]. }
  rewrite parse_start by done. cbv zeta. destruct lexer_init_error as [e|]; [eexists _, None, _; split; [reflexivity|done]|].
  destruct file as [input|e]; [|eexists _, None, _; split; [reflexivity|done]].
  set (bound := Z.of_nat (length input) + 1).
  assert (G : step_good bound (next h) (tokens_loop (S (length input)) (mkHeap {[next h := root_node]} (S (next h)))
     (mkPState (Some (next h)) (Some (next h)) (-1) (-1)) f (lexer_init no_output) input)).
  { eapply (tokens_loop_good bound (next h) Hmem); [lia|apply root_parsing; lia|apply lexer_init_ok; lia|lia]. }
  destruct (tokens_loop _ _ _ _ _ _) as [[h' s'|h' msg]|]; cbn [mbind outcome_bind step_good] in *; [| |done].
  - destruct G as (K & P). eexists _, (Some _), _. split; [reflexivity|]. exists K. apply P.
  - destruct G as (K & T). rewrite (config_node_destroy_ok _ _ _ T). cbn. eexists _, None, _. split; [reflexivity|done].
Qed.

(** ** Lookup *)

Lemma skip_ok h K r p ks i j : tree_ok h K r -> K !! p = Some ks -> skip i h (ks !! j) = Ok (ks !! (i + j)%nat).
Proof.
  intros T Hks. revert j. induction i as [|i IH]; intros j; [by cbn; destruct (ks !! j)|].
  destruct (ks !! j) as [c|] eqn:Hj; cbn [skip].
  - destruct (t_kid _ _ _ T p ks j c Hks Hj) as (_ & n & Hn & _ & Hx & _). unfold get. rewrite Hn. cbn [mbind outcome_bind].
    rewrite Hx, IH. f_equal. f_equal. lia.
  - symmetry. f_equal. apply lookup_ge_None_2. apply lookup_ge_None_1 in Hj. lia.
Qed.

Lemma lookup_part_ok h K r p n ks k : tree_ok h K r -> nodes h !! p = Some n -> K !! p = Some ks ->
  lookup_part h (Some p) k = Ok (if type n =? CONFIG_TYPE_ARRAY then ks !! Z.to_nat (atoi k)
    else if type n =? CONFIG_TYPE_GROUP then List.find (has_name h k) ks else None).
Proof.
  intros T Hn Hks. unfold lookup_part, get. rewrite Hn. cbn [mbind outcome_bind]. destruct (type n =? CONFIG_TYPE_ARRAY).
  - destruct (t_ends _ _ _ T p n ks Hn Hks) as [-> _]. rewrite head_lookup, (skip_ok h K r p ks _ 0 T Hks). by rewrite Nat.add_0_r.
  - destruct (type n =? CONFIG_TYPE_GROUP); [by eapply find_child_ok|done].
Qed.

Definition live_or_null (h : heap) (p : ptr) : Prop := match p with Some a => is_Some (nodes h !! a) | None => True end.

Lemma lookup_parts_ok h K r p parts : tree_ok h K r -> live_or_null h p ->
  exists q, lookup_parts h p parts = Ok q /\ live_or_null h q.
Proof.
  intros T. revert p. induction parts as [|k parts IH]; intros p Hp; cbn [lookup_parts]; [eauto|].
  destruct p as [a|]; [|by exists None]. destruct Hp as [n Hn]. destruct (proj1 (t_dom _ _ _ T a)) as [ks Hks]; [eauto|].
  rewrite (lookup_part_ok h K r a n ks k T Hn Hks). cbn [mbind outcome_bind]. apply IH.
  assert (Hk : forall c, c ∈ ks -> is_Some (nodes h !! c)).
  { intros c [i Hi]%list_elem_of_lookup. destruct (t_kid _ _ _ T a ks i c Hks Hi) as (_ & m & Hm & _). eauto. }
  destruct (type n =? CONFIG_TYPE_ARRAY); [|destruct (type n =? CONFIG_TYPE_GROUP); [|done]].
  - destruct (ks !! _) as [c|] eqn:Hc; [|done]. cbn. apply Hk. by eapply list_elem_of_lookup_2.
  - destruct (List.find _ ks) as [c|] eqn:Hc; [|done]. cbn. apply Hk. apply List.find_some in Hc as [Hc _]. by apply list_elem_of_In.
Qed.

End Files.
