(* ===== verification/NewConfigTree.v ===== *)
(** * What a configuration file means

    [conf_tree] is the content of a file: items and nested groups.  [print]
    writes it; parsing what was written gives nodes that represent the tree
    ([rep]), and looking up a path in them is looking it up in the tree. *)

From S2P Require Import Prelude Utils NewLexer NewLexerFacts NewConfig NewConfigFacts NewConfigParse.

Unset Elimination Schemes.
Inductive conf_tree := Tree (items : list (bytes * bytes)) (groups : list (bytes * conf_tree)).
Set Elimination Schemes.

Fixpoint print (level : nat) (t : conf_tree) : bytes :=
  match t with
  | Tree items groups =>
      concat (List.map (fun i => item_line (fst i) (snd i)) items) ++
      concat (List.map (fun g => group_line level (fst g) ++ print (S level) (snd g)) groups)
  end.

(** Names are identifiers, and differ among siblings; values are not empty. *)
Fixpoint valid (t : conf_tree) : Prop :=
  match t with
  | Tree items groups =>
      NoDup (List.map fst items ++ List.map fst groups) /\
      Forall (fun i => is_name (fst i) = true /\ snd i <> []) items /\
      (fix all (groups : list (bytes * conf_tree)) : Prop :=
         match groups with
         | [] => True
         | g :: groups => is_name (fst g) = true /\ valid (snd g) /\ all groups
         end) groups
  end.

(** A value, [Some None] for a group, or nothing. *)
Definition find_name {A} (k : bytes) (l : list (bytes * A)) : option A := snd <$> List.find (fun e => bool_decide (fst e = k)) l.
Fixpoint tree_find (t : conf_tree) (path : list bytes) : option (option bytes) :=
  match path with
  | [] => Some None
  | k :: path =>
      match t with
      | Tree items groups =>
          match find_name k items with
          | Some v => match path with [] => Some (Some v) | _ => None end
          | None => match find_name k groups with Some t => tree_find t path | None => None end
          end
      end
  end.

Lemma conf_tree_induction (P : conf_tree -> Prop) :
  (forall items groups, Forall (fun g => P (snd g)) groups -> P (Tree items groups)) -> forall t, P t.
Proof.
  intros Hstep. fix IH 1. intros [items groups]. apply Hstep. induction groups as [|g groups IHg]; constructor; [apply IH|exact IHg].
Qed.

(** ** Nodes that represent a tree *)

Definition item_at (h : heap) (c : nat) (i : bytes * bytes) : Prop :=
  exists n, nodes h !! c = Some n /\ type n = CONFIG_TYPE_ITEM /\ key n = Some (fst i ++ [0] ++ snd i ++ [0]) /\
    key_len n = Z.of_nat (length (fst i)) /\ value n = Some (Z.of_nat (length (fst i)) + 1).
Definition group_at (h : heap) (c : nat) : Prop :=
  exists n, nodes h !! c = Some n /\ type n = CONFIG_TYPE_GROUP /\ value n = None.
Definition name_at (h : heap) (c : nat) (k : bytes) : Prop := exists n, nodes h !! c = Some n /\ key_text n = k.

Fixpoint rep (h : heap) (K : kids) (p : nat) (t : conf_tree) : Prop :=
  match t with
  | Tree items groups => exists cs gs,
      K !! p = Some (cs ++ gs) /\ Forall2 (item_at h) cs items /\
      (fix reps (gs : list nat) (groups : list (bytes * conf_tree)) {struct groups} : Prop :=
         match gs, groups with
         | [], [] => True
         | g :: gs, k :: groups => group_at h g /\ name_at h g (fst k) /\ rep h K g (snd k) /\ reps gs groups
         | _, _ => False
         end) gs groups
  end.

Definition rep_group (h : heap) (K : kids) (g : nat) (k : bytes * conf_tree) : Prop :=
  group_at h g /\ name_at h g (fst k) /\ rep h K g (snd k).

Lemma rep_unfold h K p items groups : rep h K p (Tree items groups) <->
  exists cs gs, K !! p = Some (cs ++ gs) /\ Forall2 (item_at h) cs items /\ Forall2 (rep_group h K) gs groups.
Proof.
  cbn. split; intros (cs & gs & H1 & H2 & H3); exists cs, gs; (split_and!; [done|done|]).
  - revert groups H3. clear. induction gs as [|g gs IH]; intros [|k groups] H3; [constructor|done|done|].
    destruct H3 as (G1 & G2 & G3 & H3). constructor; [done|auto].
  - revert H3. clear. intros H3. induction H3 as [|g k gs groups Hg H3 IH]; [done|]. destruct Hg as (G1 & G2 & G3). done.
Qed.

Lemma valid_unfold items groups : valid (Tree items groups) <->
  NoDup (List.map fst items ++ List.map fst groups) /\ Forall (fun i => is_name (fst i) = true /\ snd i <> []) items /\
  Forall (fun g => is_name (fst g) = true /\ valid (snd g)) groups.
Proof.
  cbn. split; intros (H1 & H2 & H3); (split_and!; [done|done|]); clear H1 H2.
  - induction groups as [|g groups IH]; [constructor|]. destruct H3 as (G1 & G2 & H3). constructor; [done|auto].
  - induction H3 as [|g groups [G1 G2] H3 IH]; done.
Qed.

Lemma name_frame h h' c k : frame h h' -> name_at h c k -> name_at h' c k.
Proof.
  intros F (n & Hn & Hk). destruct (F c n Hn) as (n' & Hn' & Kn). exists n'. split; [done|]. unfold key_text in *.
  by rewrite (k_key _ _ Kn), (k_key_len _ _ Kn).
Qed.
Lemma item_frame h h' c i : frame h h' -> item_at h c i -> item_at h' c i.
Proof.
  intros F (n & Hn & H1 & H2 & H3 & H4). destruct (F c n Hn) as (n' & Hn' & Kn). exists n'.
  by rewrite (k_type _ _ Kn), (k_key _ _ Kn), (k_key_len _ _ Kn), (k_value _ _ Kn).
Qed.
Lemma group_frame h h' c : frame h h' -> group_at h c -> group_at h' c.
Proof. intros F (n & Hn & H1 & H2). destruct (F c n Hn) as (n' & Hn' & Kn). exists n'. by rewrite (k_type _ _ Kn), (k_value _ _ Kn). Qed.

(** The children of all nodes but [p] stay. *)
Definition same_kids (K K' : kids) (p : nat) : Prop := forall q l, q <> p -> K !! q = Some l -> K' !! q = Some l.

Lemma rep_frame h h' K K' r p g t : tree_ok h K r -> frame h h' -> same_kids K K' p -> (p < g)%nat -> rep h K g t -> rep h' K' g t.
Proof.
  intros T F HK. revert g. induction t as [items groups IH] using conf_tree_induction. intros g Hlt Hr.
  apply rep_unfold in Hr as (cs & gs & Hg & Hi & Hgs). apply rep_unfold. exists cs, gs. split_and!.
  - apply HK; [lia|done].
  - eapply Forall2_impl; [done|]. intros c i. by apply item_frame.
  - assert (Hin : forall c, c ∈ gs -> (p < c)%nat).
    { intros c Hc. assert (Hc' : c ∈ cs ++ gs) by (apply elem_of_app; by right). apply list_elem_of_lookup in Hc' as [i Hc'].
      destruct (t_kid _ _ _ T g _ i c Hg Hc') as (Hlt' & _). lia. }
    clear Hg. induction Hgs as [|c k gs groups (G1 & G2 & G3) Hgs IH2]; [constructor|]. apply Forall_cons in IH as [IH1 IH].
    constructor; [split_and!|].
    + by eapply group_frame.
    + by eapply name_frame.
    + apply IH1; [|done]. apply Hin. constructor.
    + apply IH2; [done|]. intros d Hd. apply Hin. by constructor.
Qed.

(** Names decide what is found. *)
Lemma find_absent h ks names k : Forall2 (name_at h) ks names -> k ∉ names -> List.find (has_name h k) ks = None.
Proof.
  intros H Hk. induction H as [|c k' ks names (n & Hn & Hk') H IH]; [done|]. cbn. unfold has_name at 1. rewrite Hn, Hk'.
  apply not_elem_of_cons in Hk as [Hne Hk]. rewrite bool_decide_false by congruence. auto.
Qed.

Lemma find_present h ks names k i c : Forall2 (name_at h) ks names -> NoDup names -> names !! i = Some k -> ks !! i = Some c ->
  List.find (has_name h k) ks = Some c.
Proof.
  intros H. revert i. induction H as [|d k' ks names (n & Hn & Hk') H IH]; intros i Hnd Hk Hc; [done|].
  apply NoDup_cons in Hnd as [Hni Hnd]. cbn. unfold has_name at 1. rewrite Hn, Hk'. destruct i as [|i]; cbn in Hk, Hc.
  - injection Hk as ->. injection Hc as ->. by rewrite bool_decide_true.
  - rewrite bool_decide_false; [by eapply IH|]. intros ->. apply Hni. by eapply list_elem_of_lookup_2.
Qed.

(** ** Feeding text to the parser *)

Section Feed.
Context `{Allocator} `{ConfigSys} (bound : Z) (r : nat) (f : bytes).
Hypothesis Hmem : forall z, alloc_ok z = true.
Hypothesis Hnodes : forall n, calloc_ok n = true.
Hypothesis Hbound : 0 <= bound < 2 ^ 31.

Definition feed (h : heap) (s : pstate) (x : lexer_t) (input : bytes) : outcome step_result :=
  tokens_loop (S (length input)) h s f x input.

Lemma tokens_loop_fuel fuel fuel' h s x input : lexer_ok bound x input -> (length input < fuel)%nat -> (length input < fuel')%nat ->
  tokens_loop fuel h s f x input = tokens_loop fuel' h s f x input.
Proof.
  revert fuel' h s x input. induction fuel as [|fuel IH]; intros fuel' h s x input Hx H1 H2; [lia|]. destruct fuel' as [|fuel']; [lia|].
  cbn [tokens_loop]. destruct (lexer_next_ok bound x input Hx) as (ret & x' & rest & -> & Hx' & Hret). cbn [mbind outcome_bind].
  destruct Hret as [-> |(Hlt & _)]; [done|]. destruct (ret =? 0), (ret =? -1); try done.
  destruct (match o_type (output x') with TOKEN_TYPE_GROUP => _ | TOKEN_TYPE_ITEM => _ end) as [[h' s'|]|]; cbn; try done. apply IH; [done|lia|lia].
Qed.

(** The lexer stands at the beginning of a line. *)
Definition at_start (x : lexer_t) (input : bytes) : Prop := lexer_ok bound x input /\ yy_start x = INITIAL /\ is_array x = false.

(** The text leads from [h] and [s] to a state with [Q], whatever follows. *)
Definition fed (h : heap) (s : pstate) (text : bytes) (Q : heap -> pstate -> Prop) : Prop :=
  forall x rest, at_start x (text ++ rest) -> exists x' h' s', at_start x' rest /\ Q h' s' /\ feed h s x (text ++ rest) = feed h' s' x' rest.

Lemma fed_nil h s (Q : heap -> pstate -> Prop) : Q h s -> fed h s [] Q.
Proof. intros HQ x rest Hx. by exists x, h, s. Qed.

Lemma fed_app h s t1 t2 (P Q : heap -> pstate -> Prop) : fed h s t1 P -> (forall h' s', P h' s' -> fed h' s' t2 Q) -> fed h s (t1 ++ t2) Q.
Proof.
  intros H1 H2 x rest Hx. rewrite <- app_assoc in *. destruct (H1 x (t2 ++ rest) Hx) as (x1 & h1 & s1 & Hx1 & HP & ->).
  by apply H2.
Qed.

Lemma fed_weaken h s t (P Q : heap -> pstate -> Prop) : (forall h' s', P h' s' -> Q h' s') -> fed h s t P -> fed h s t Q.
Proof. intros HPQ H1 x rest Hx. destruct (H1 x rest Hx) as (x1 & h1 & s1 & Hx1 & HP & E). exists x1, h1, s1. auto. Qed.

(** One token, then the next line. *)
Lemma feed_token h s x input ret x' input' rest h' s' : lexer_ok bound x input -> lexer_next x input = Ok (ret, x', input') -> ret = 1 \/ ret = 2 ->
  (match o_type (output x') with TOKEN_TYPE_GROUP => group_token h s f (output x') | TOKEN_TYPE_ITEM => item_token h s f (output x') end)
    = Ok (Continue h' s') -> line_start bound x' input' rest ->
  exists x0, at_start x0 rest /\ feed h s x input = feed h' s' x0 rest.
Proof.
  intros Hx Hn Hret Htok (x0 & Hls & Hx0 & H1 & H2). exists x0. split; [done|]. unfold feed at 1. cbn [tokens_loop]. rewrite Hn. cbn [mbind outcome_bind].
  rewrite !(proj2 (Z.eqb_neq ret _)) by lia. rewrite Htok. cbn [mbind outcome_bind].
  destruct (lexer_next_ok bound x input Hx) as (ret1 & x1 & i1 & Hn1 & Hx1 & Hr1). rewrite Hn in Hn1. injection Hn1 as <- <- <-.
  destruct Hr1 as [|(Hlt & _)]; [lia|]. rewrite (tokens_loop_fuel (length input) (S (length input')) h' s' x' input') by (try done; lia).
  unfold feed. cbn [tokens_loop]. destruct (lexer_next_ok bound x' input' Hx1) as (ret2 & x2 & i2 & Hn2 & Hx2 & Hr2).
  destruct (lexer_next_ok bound x0 rest Hx0) as (ret3 & x3 & i3 & Hn3 & _ & Hr3). rewrite <- Hls, Hn2 in Hn3. injection Hn3 as <- <- <-.
  rewrite <- Hls, Hn2. cbn [mbind outcome_bind]. destruct Hr2 as [-> |(Hlt2 & _)]; [done|]. destruct Hr3 as [-> |(Hlt3 & _)]; [done|].
  destruct (ret2 =? 0), (ret2 =? -1); try done.
  destruct (match o_type (output x2) with TOKEN_TYPE_GROUP => _ | TOKEN_TYPE_ITEM => _ end) as [[h2 s2|]|]; cbn; try done.
  by apply tokens_loop_fuel.
Qed.

(** ** Items *)

(** What stays true of everything but the children of [p]. *)
Definition grown (h h' : heap) (K K' : kids) (p : nat) : Prop := frame h h' /\ same_kids K K' p.

Lemma grown_refl h K p : grown h h K K p.
Proof. split; [apply nodes_frame_refl|by intros q l]. Qed.

Lemma push_same K up ks c : K !! c = None -> same_kids K (push K up ks c) up.
Proof. intros Hc q l Hq Hl. unfold push. rewrite !lookup_insert_ne by congruence. done. Qed.

Lemma push_up K up ks c : push K up ks c !! up = Some (ks ++ [c]).
Proof. unfold push. by rewrite lookup_insert_eq. Qed.

Lemma token_values o k v : item_output o k v -> token_ok bound o -> o_key_len o = Z.of_nat (length k) /\ o_value_len o = Z.of_nat (length v).
Proof. intros (H1 & H2 & H3 & H4) [T1 T2 _ _]. rewrite T1, (T2 H1), H3, H4. done. Qed.

(** A new item in the current group. *)
Lemma item_token_new h K s p n ks names o k v : parsing bound h K r s -> cur s = Some p -> K !! p = Some ks -> nodes h !! p = Some n ->
  Forall2 (name_at h) ks names -> k ∉ names -> item_output o k v -> token_ok bound o ->
  exists h' c, item_token h s f o = Ok (Continue h' s) /\ parsing bound h' (push K p ks c) r s /\
    grown h h' K (push K p ks c) p /\ item_at h' c (k, v).
Proof.
  intros P Hc Hks Hn Hnames Hk Ho Htok. pose proof P as [T S _ _ _]. destruct Ho as (O1 & O2 & O3 & O4).
  unfold item_token. rewrite Hc, (tk_key _ _ Htok), O3, (find_child_ok h K r p ks), O2, (find_absent h ks names) by done. cbn [mbind outcome_bind].
  unfold put_item_node. rewrite <- O3 in Hk. pose proof (fits_item bound o Htok O1) as Hfit.
  destruct (new_child_ok h K r p ks CONFIG_TYPE_ITEM o (o_key o) T Hks Hfit Hmem (Hnodes _)) as (h' & n' & Hnew & T' & F & Hn' & Hm & Honly).
  destruct (new_child_good bound r Hmem h K p ks CONFIG_TYPE_ITEM o (o_key o) n T S Hks Hn Hfit (tk_line _ _ Htok)) as
    [(h2 & Hnew2 & _)|(h2 & n2 & Hnew2 & _ & _ & _ & _ & S')]; [done|congruence|]. rewrite Hnew in Hnew2. injection Hnew2 as <-.
  rewrite Hnew. cbn [mbind outcome_bind]. exists h', (next h). split_and!; [done|by eapply parsing_frame| |].
  - split; [done|]. apply push_same. destruct (last_kid h K r p ks T Hks) as (_ & _ & _ & Hfree & _).
    destruct (K !! next h) eqn:E; [|done]. destruct (proj2 (t_dom _ _ _ T (next h))) as [? E']; [eauto|congruence].
  - exists n'. destruct Hm as [M1 M2 M3 M4 _ M5]. split_and!; [done|done| | |].
    + rewrite M3. unfold node_block. cbn. by rewrite O3, O4.
    + by rewrite M4, O3.
    + rewrite M5. unfold node_value. cbn. by rewrite O3.
Qed.

Lemma grown_trans h1 h2 h3 K1 K2 K3 p : grown h1 h2 K1 K2 p -> grown h2 h3 K2 K3 p -> grown h1 h3 K1 K3 p.
Proof. intros [F1 S1] [F2 S2]. split; [by eapply nodes_frame_trans|]. intros q l Hq Hl. apply S2, S1; done. Qed.

Lemma item_name h c i : item_at h c i -> name_at h c (fst i).
Proof.
  intros (n & Hn & _ & Hk & Hl & _). exists n. split; [done|]. unfold key_text. rewrite Hk, Hl, Nat2Z.id. cbn. by rewrite take_app_length.
Qed.

Lemma names_frame h h' ks names : frame h h' -> Forall2 (name_at h) ks names -> Forall2 (name_at h') ks names.
Proof. intros F Hn. eapply Forall2_impl; [done|]. intros c k. by apply name_frame. Qed.

Lemma kids_live h K p ks s : parsing bound h K r s -> K !! p = Some ks -> exists n, nodes h !! p = Some n.
Proof. intros P Hks. destruct (proj2 (t_dom _ _ _ (p_tree _ _ _ _ _ P) p)) as [n Hn]; eauto. Qed.

Lemma items_fed items h K s p ks names : parsing bound h K r s -> cur s = Some p -> K !! p = Some ks -> Forall2 (name_at h) ks names ->
  NoDup (names ++ List.map fst items) -> Forall (fun i => is_name (fst i) = true /\ snd i <> []) items ->
  fed h s (concat (List.map (fun i => item_line (fst i) (snd i)) items)) (fun h' s' => s' = s /\ exists K' cs,
    parsing bound h' K' r s /\ K' !! p = Some (ks ++ cs) /\ Forall2 (item_at h') cs items /\ grown h h' K K' p).
Proof.
  revert h K ks names. induction items as [|[k v] items IH]; intros h K ks names P Hc Hks Hnames Hnd Hv.
  { apply fed_nil. split; [done|]. exists K, []. rewrite app_nil_r. split_and!; [done|done|constructor|apply grown_refl]. }
  apply Forall_cons in Hv as [[Hk Hv0] Hv]. cbn [List.map concat fst snd] in *. intros x rest (Hx & Hs & Ha).
  rewrite <- app_assoc in *. set (tl := concat _ ++ rest) in *. destruct (lex_item bound x k v tl Hx Hs Ha Hk Hv0) as (x1 & i1 & Hn1 & Ho & Hls).
  destruct (lexer_next_ok bound x _ Hx) as (? & ? & ? & E & _ & Hr). rewrite Hn1 in E. injection E as <- <- <-.
  destruct Hr as [|(_ & [|[_ Htok]] & _)]; [lia|lia|]. destruct (kids_live h K p ks s P Hks) as (n & Hn).
  assert (Hnew : k ∉ names) by (apply NoDup_app in Hnd as (_ & Hd & _); intros Hin; apply (Hd k Hin); constructor).
  destruct (item_token_new h K s p n ks names _ k v P Hc Hks Hn Hnames Hnew Ho Htok) as (h1 & c & Htk & P1 & G1 & Hat).
  destruct (feed_token h s x _ 2 x1 i1 tl h1 s Hx Hn1 ltac:(lia)) as (x2 & Hx2 & ->); [by rewrite (proj1 Ho)|done|]. unfold tl in *. clear tl.
  destruct (IH h1 (push K p ks c) (ks ++ [c]) (names ++ [k])) with (x := x2) (rest := rest) as (x3 & h3 & s3 & Hx3 & (-> & K3 & cs & P3 & HK3 & Hcs & G3) & ->); try done.
  - apply push_up.
  - apply Forall2_app; [eapply names_frame; [apply G1|done]|]. constructor; [by apply (item_name h1 c (k, v))|constructor].
  - by rewrite <- app_assoc.
  - exists x3, h3, s. split; [done|]. split; [|done]. split; [done|]. exists K3, (c :: cs). rewrite <- app_assoc in HK3. split_and!; try done.
    + constructor; [eapply item_frame; [apply G3|done]|done].
    + by eapply grown_trans.
Qed.

(** ** Groups *)

(** [c] is inside [p], with [n] groups from one to the other. *)
Fixpoint inside (h : heap) (n : nat) (c p : nat) : Prop :=
  match n with
  | O => c = p
  | S n => exists q nc, nodes h !! c = Some nc /\ parent nc = Some q /\ group_at h q /\ inside h n q p
  end.

Lemma inside_snoc h n c q p nq : inside h n c q -> nodes h !! q = Some nq -> parent nq = Some p -> group_at h p -> inside h (S n) c p.
Proof.
  revert c. induction n as [|n IH]; intros c Hc Hq Hp Hg; cbn in Hc.
  - subst q. exists p, nq. by split_and!.
  - destruct Hc as (d & nc & H1 & H2 & H3 & H4). exists d, nc. split_and!; try done. by apply IH.
Qed.

Lemma inside_last h n c p : inside h (S n) c p -> exists q nq, inside h n c q /\ nodes h !! q = Some nq /\ parent nq = Some p /\ group_at h p.
Proof.
  revert c. induction n as [|n IH]; intros c (d & nc & H1 & H2 & H3 & H4).
  - cbn in H4. subst d. exists c, nc. by split_and!.
  - destruct (IH d H4) as (q & nq & H5 & H6 & H7 & H8). exists q, nq. split_and!; try done. exists d, nc. by split_and!.
Qed.

Lemma inside_frame h h' n c p : frame h h' -> inside h n c p -> inside h' n c p.
Proof.
  intros F. revert c. induction n as [|n IH]; intros c; [done|]. intros (d & nc & H1 & H2 & H3 & H4).
  destruct (F c nc H1) as (nc' & H1' & Kn). exists d, nc'. rewrite (k_parent _ _ Kn). split_and!; [done|done|by eapply group_frame|auto].
Qed.

Lemma go_up_parent h c nc q : nodes h !! c = Some nc -> parent nc = Some q -> group_at h q -> go_up h (Some c) = Ok (Some q).
Proof. intros H1 H2 (m & H3 & H4 & _). rewrite (go_up_eq h c nc q m) by done. by rewrite H4. Qed.

Lemma up_loop_inside h fuel c p top target : (Z.to_nat (top - target) <= fuel)%nat -> target <= top -> inside h (Z.to_nat (top - target)) c p ->
  up_loop fuel h (Some c) top target = Ok (Some p, target).
Proof.
  remember (Z.to_nat (top - target)) as n eqn:En. revert fuel c top En. induction n as [|n IH]; intros fuel c top En Hf Ht Hc.
  - cbn in Hc. subst p. assert (top = target) as -> by lia. destruct fuel; cbn [up_loop]; by rewrite Z.ltb_irrefl.
  - destruct fuel as [|fuel]; [lia|]. cbn [up_loop]. rewrite (proj2 (Z.ltb_lt target top)) by lia.
    destruct Hc as (q & nc & H1 & H2 & H3 & H4). rewrite (go_up_parent h c nc q) by done. cbn [mbind outcome_bind]. apply IH; [lia|lia|lia|done].
Qed.

(** The links determine the children. *)
Lemma kids_unique h K K' q : tree_ok h K q -> tree_ok h K' q -> K = K'.
Proof.
  intros T T'. apply map_eq. intros p. destruct (K !! p) as [ks|] eqn:Hk, (K' !! p) as [ks'|] eqn:Hk'.
  - f_equal. apply list_eq. destruct (proj2 (t_dom _ _ _ T p)) as [n Hn]; [eauto|]. intros i. induction i as [|i IH].
    + rewrite <- !head_lookup. destruct (t_ends _ _ _ T p n ks Hn Hk) as [<- _]. by destruct (t_ends _ _ _ T' p n ks' Hn Hk') as [<- _].
    + destruct (ks !! i) as [c|] eqn:Hc.
      * destruct (t_kid _ _ _ T p ks i c Hk Hc) as (_ & m & Hm & _ & <- & _). symmetry in IH.
        destruct (t_kid _ _ _ T' p ks' i c Hk' IH) as (_ & m' & Hm' & _ & <- & _). congruence.
      * apply lookup_ge_None_1 in Hc. symmetry in IH. apply lookup_ge_None_1 in IH. rewrite !lookup_ge_None_2 by lia. done.
  - destruct (proj1 (t_dom _ _ _ T' p)) as [? ?]; [apply (t_dom _ _ _ T p); eauto|congruence].
  - destruct (proj1 (t_dom _ _ _ T p)) as [? ?]; [apply (t_dom _ _ _ T' p); eauto|congruence].
  - done.
Qed.

(** [p] is the open group that groups of [level] are put into. *)
Definition opened (h : heap) (s : pstate) (level : nat) (p : nat) : Prop :=
  exists t, stack_top s = Some t /\ Z.of_nat level - 1 <= top_level s /\ inside h (Z.to_nat (top_level s - (Z.of_nat level - 1))) t p.

(** A new group in [p] becomes the current one. *)
Lemma put_group_new h K s p np ks o k level : parsing bound h K r s -> K !! p = Some ks -> nodes h !! p = Some np -> group_at h p ->
  token_ok bound o -> o_type o = TOKEN_TYPE_GROUP -> o_key o = k -> climbs h (Z.to_nat (o_level o)) p ->
  exists h' c, put_group_node h (Some p) o level = Ok (Continue h' (mkPState (Some c) (Some c) level (o_level o))) /\
    parsing bound h' (push K p ks c) r (mkPState (Some c) (Some c) level (o_level o)) /\ grown h h' K (push K p ks c) p /\
    group_at h' c /\ name_at h' c k /\ (exists nc, nodes h' !! c = Some nc /\ parent nc = Some p) /\ push K p ks c !! c = Some [] /\ K !! c = None.
Proof.
  intros P Hks Hp (np' & Hp' & Hpg & _) Htok Hty Hk Hcl. assert (np' = np) as -> by congruence. pose proof P as [T S _ _ _].
  pose proof (fits_other bound o CONFIG_TYPE_GROUP Htok ltac:(done)) as Hfit.
  destruct (new_child_ok h K r p ks CONFIG_TYPE_GROUP o (o_key o) T Hks Hfit Hmem (Hnodes _)) as (h' & n' & Hnew & T' & F & Hn' & Hm & _).
  pose proof (put_group_good bound r Hmem h K s p np o (o_key o) level p P Hp Hfit (tk_line _ _ Htok) (tk_level _ _ Htok Hty)) as G.
  rewrite Hpg in G. specialize (G eq_refl Hcl). unfold put_group_node in *. rewrite Hnew in *. cbn [mbind outcome_bind step_good] in *.
  destruct G as (K' & P'). rewrite (kids_unique h' K' (push K p ks (next h)) r) in P' by (try done; apply P').
  destruct (last_kid h K r p ks T Hks) as (_ & _ & Hpc & Hfree & _).
  assert (HKc : K !! next h = None).
  { destruct (K !! next h) eqn:E; [|done]. destruct (proj2 (t_dom _ _ _ T (next h))) as [? E']; [eauto|congruence]. }
  exists h', (next h). split_and!; try done.
  - split; [done|]. by apply push_same.
  - exists n'. rewrite (m_type _ _ _ _ _ Hm), (m_value _ _ _ _ _ Hm). done.
  - exists n'. split; [done|]. unfold key_text. rewrite (m_key _ _ _ _ _ Hm), (m_key_len _ _ _ _ _ Hm), Nat2Z.id. unfold node_block. cbn.
    by rewrite take_app_length.
  - exists n'. split; [done|]. apply Hm.
  - unfold push. by rewrite lookup_insert_ne, lookup_insert_eq.
Qed.

Lemma climbs_inside h n m c p : climbs h (n + m) c -> inside h n c p -> climbs h m p.
Proof.
  revert c. induction n as [|n IH]; intros c Hc Hi; cbn [climbs inside Nat.add] in *; [by subst|]. destruct Hc as (q & Hq & Hc).
  destruct Hi as (q' & nc & H1 & H2 & H3 & H4). rewrite (go_up_parent h c nc q') in Hq by done. injection Hq as ->. by apply (IH q).
Qed.

(** A child of [p] that is not called [k]. *)
Lemma other_name h K p ks names c nc k : tree_ok h K r -> K !! p = Some ks -> Forall2 (name_at h) ks names -> k ∉ names ->
  nodes h !! c = Some nc -> parent nc = Some p -> same_key nc k (Z.of_nat (length k)) = Ok false.
Proof.
  intros T Hks Hnames Hk Hc Hp. assert (Hcr : c <> r) by (intros ->; destruct (t_root _ _ _ T) as (n & Hn & Hnp & _); congruence).
  destruct (t_key _ _ _ T c nc Hc Hcr) as (block & Hb & Hl). rewrite (same_key_ok nc k block Hb Hl). f_equal. apply bool_decide_eq_false. intros E.
  destruct (t_up _ _ _ T c nc Hc Hcr) as (q & ks' & Hq & Hks' & [i Hi]%list_elem_of_lookup). assert (q = p) as -> by congruence.
  assert (ks' = ks) as -> by congruence. destruct (Forall2_lookup_l _ _ _ _ _ Hnames Hi) as (k' & Hk' & n' & Hn' & Hkt).
  apply Hk. apply (list_elem_of_lookup_2 _ i). congruence.
Qed.

Lemma group_token_new h K s p ks names o k level : parsing bound h K r s -> opened h s level p -> group_at h p -> K !! p = Some ks ->
  Forall2 (name_at h) ks names -> k ∉ names -> group_output o level k -> token_ok bound o ->
  exists h' c l, group_token h s f o = Ok (Continue h' (mkPState (Some c) (Some c) l (Z.of_nat level))) /\
    parsing bound h' (push K p ks c) r (mkPState (Some c) (Some c) l (Z.of_nat level)) /\ grown h h' K (push K p ks c) p /\
    group_at h' c /\ name_at h' c k /\ (exists nc, nodes h' !! c = Some nc /\ parent nc = Some p) /\ push K p ks c !! c = Some [] /\ K !! c = None.
Proof.
  intros P (t & Htop & Hlv & Hin) Hg Hks Hnames Hk (O1 & O2 & O3 & O4) Htok. pose proof P as [T Sh _ (t' & nt & Htop' & _ & _ & Hcl) _].
  assert (t' = t) as -> by congruence. destruct (kids_live h K p ks s P Hks) as (np & Hp).
  assert (Hclp : climbs h (Z.to_nat (o_level o)) p).
  { rewrite O4, Nat2Z.id. eapply climbs_inside, Hin. replace (_ + level)%nat with (Z.to_nat (top_level s + 1)) by lia. done. }
  assert (Hother : forall l, exists h' c, other_group h s f (Some p) l o = Ok (Continue h' (mkPState (Some c) (Some c) l (Z.of_nat level))) /\
    parsing bound h' (push K p ks c) r (mkPState (Some c) (Some c) l (Z.of_nat level)) /\ grown h h' K (push K p ks c) p /\
    group_at h' c /\ name_at h' c k /\ (exists nc, nodes h' !! c = Some nc /\ parent nc = Some p) /\ push K p ks c !! c = Some [] /\ K !! c = None).
  { intros l. unfold other_group. rewrite (tk_key _ _ Htok), O3, (find_child_ok h K r p ks), O2, (find_absent h ks names) by done. cbn [mbind outcome_bind].
    rewrite <- O4. by apply (put_group_new h K s p np). }
  unfold group_token. rewrite O4, (proj2 (Z.ltb_ge _ _)) by lia. rewrite Htop. destruct (decide (top_level s = Z.of_nat level - 1)) as [E|E].
  - replace (Z.to_nat (top_level s - (Z.of_nat level - 1))) with O in Hin by lia. cbn in Hin. subst t.
    replace (Z.to_nat (top_level s - Z.of_nat level)) with O by lia. cbn [up_loop]. rewrite (proj2 (Z.ltb_ge _ _)) by lia. cbn [mbind outcome_bind].
    rewrite (proj2 (Z.eqb_neq _ _)) by lia. cbn [negb orb mbind outcome_bind]. destruct (Hother (top_level s)) as (h' & c & Hr & Hrest).
    exists h', c, (top_level s). done.
  - replace (Z.to_nat (top_level s - (Z.of_nat level - 1))) with (S (Z.to_nat (top_level s - Z.of_nat level))) in Hin by lia.
    destruct (inside_last _ _ _ _ Hin) as (q & nq & Hq & Hnq & Hqp & _).
    rewrite (up_loop_inside h _ t q) by (try done; lia). cbn [mbind outcome_bind]. rewrite Z.eqb_refl, O2. cbn [negb orb].
    unfold get at 1. rewrite Hnq. cbn [mbind outcome_bind]. rewrite (tk_key _ _ Htok), O3, (other_name h K p ks names q nq k) by done.
    cbn [mbind outcome_bind negb]. rewrite (go_up_parent h q nq p) by done. cbn [mbind outcome_bind].
    destruct (Hother (Z.of_nat level)) as (h' & c & Hr & Hrest). exists h', c, (Z.of_nat level). done.
Qed.

(** ** Trees *)

(** The group [p] was filled with [t]. *)
Definition filled (h h' : heap) (K : kids) (s' : pstate) (level p : nat) (t : conf_tree) : Prop :=
  exists K', parsing bound h' K' r s' /\ grown h h' K K' p /\ rep h' K' p t /\ opened h' s' level p.

Definition fills (t : conf_tree) : Prop := forall level h K s p, valid t -> parsing bound h K r s -> cur s = Some p -> stack_top s = Some p ->
  top_level s = Z.of_nat level - 1 -> K !! p = Some [] -> group_at h p -> fed h s (print level t) (fun h' s' => filled h h' K s' level p t).

(** The line of a group. *)
Lemma group_line_fed h K s p ks names k level : parsing bound h K r s -> opened h s level p -> group_at h p -> K !! p = Some ks ->
  Forall2 (name_at h) ks names -> k ∉ names -> is_name k = true ->
  fed h s (group_line level k) (fun h1 s1 => exists c, parsing bound h1 (push K p ks c) r s1 /\ grown h h1 K (push K p ks c) p /\
     group_at h1 c /\ name_at h1 c k /\ (exists nc, nodes h1 !! c = Some nc /\ parent nc = Some p) /\ push K p ks c !! c = Some [] /\ K !! c = None /\
     cur s1 = Some c /\ stack_top s1 = Some c /\ top_level s1 = Z.of_nat (S level) - 1).
Proof.
  intros P Hop Hg Hks Hnames Hnew Hk x rest (Hx & Hs & Ha). destruct (lex_group bound x level k rest Hx Hs Hk) as (x1 & i1 & Hn1 & Ho & Hls).
  destruct (lexer_next_ok bound x _ Hx) as (? & ? & ? & E & _ & Hr). rewrite Hn1 in E. injection E as <- <- <-.
  destruct Hr as [|(_ & [|[_ Htok]] & _)]; [lia|lia|].
  destruct (group_token_new h K s p ks names _ k level P Hop Hg Hks Hnames Hnew Ho Htok) as (h1 & c & l & Htk & P1 & G1 & A1 & A2 & A3 & A4 & A5).
  destruct (feed_token h s x _ 1 x1 i1 rest h1 (mkPState (Some c) (Some c) l (Z.of_nat level)) Hx Hn1 ltac:(lia)) as (x2 & Hx2 & ->);
    [rewrite (proj1 Ho); exact Htk|done|].
  eexists x2, h1, _. split; [done|]. split; [|reflexivity]. exists c. split_and!; try done. cbn. lia.
Qed.

(** The group [c] in [p] was filled. *)
Lemma filled_in h h1 h2 K K2 p ks c nc s2 level : tree_ok h K r -> K !! p = Some ks -> group_at h p ->
  grown h h1 K (push K p ks c) p -> nodes h1 !! c = Some nc -> parent nc = Some p -> K !! c = None ->
  grown h1 h2 (push K p ks c) K2 c -> opened h2 s2 (S level) c ->
  grown h h2 K K2 p /\ K2 !! p = Some (ks ++ [c]) /\ opened h2 s2 level p.
Proof.
  intros T Hks Hg [F1 S1] Hc Hcp HKc [F2 S2] (t & Ht & Hlv & Hin). assert (Hpc : p <> c) by congruence. split_and!.
  - split; [by eapply nodes_frame_trans|]. intros q l Hq Hl. apply S2; [congruence|]. by apply S1.
  - apply S2; [done|]. apply push_up.
  - exists t. split_and!; [done|lia|]. destruct (F2 c nc Hc) as (nc2 & Hc2 & Kn).
    replace (Z.to_nat (top_level s2 - (Z.of_nat level - 1))) with (S (Z.to_nat (top_level s2 - (Z.of_nat (S level) - 1)))) by lia.
    eapply inside_snoc; [done|exact Hc2|by rewrite (k_parent _ _ Kn)|]. by eapply group_frame, group_frame.
Qed.

Lemma groups_fed groups level h K s p ks names : Forall (fun g => fills (snd g)) groups ->
  Forall (fun g => is_name (fst g) = true /\ valid (snd g)) groups ->
  parsing bound h K r s -> opened h s level p -> group_at h p -> K !! p = Some ks -> Forall2 (name_at h) ks names ->
  NoDup (names ++ List.map fst groups) ->
  fed h s (concat (List.map (fun g => group_line level (fst g) ++ print (S level) (snd g)) groups)) (fun h' s' => exists K' gs,
    parsing bound h' K' r s' /\ grown h h' K K' p /\ K' !! p = Some (ks ++ gs) /\ Forall2 (rep_group h' K') gs groups /\ opened h' s' level p).
Proof.
  intros HF. revert h K s ks names. induction HF as [|[k t] groups Hfill HF IH]; intros h K s ks names Hv P Hop Hg Hks Hnames Hnd.
  { apply fed_nil. exists K, []. rewrite app_nil_r. split_and!; try done. apply grown_refl. }
  apply Forall_cons in Hv as [[Hk Hvt] Hv]. cbn [List.map concat fst snd] in *. rewrite <- app_assoc.
  assert (Hnew : k ∉ names) by (apply NoDup_app in Hnd as (_ & Hd & _); intros Hin; apply (Hd k Hin); constructor).
  eapply fed_app; [by eapply group_line_fed|]. intros h1 s1 (c & P1 & G1 & A1 & A2 & (nc & A3 & A3') & A4 & HKc & C1 & C2 & C3).
  eapply fed_app; [by eapply Hfill|]. intros h2 s2 (K2 & P2 & G2 & R2 & O2).
  destruct (filled_in h h1 h2 K K2 p ks c nc s2 level (p_tree _ _ _ _ _ P) Hks Hg G1 A3 A3' HKc G2 O2) as (G3 & HK2 & Hop2).
  assert (Hnames2 : Forall2 (name_at h2) (ks ++ [c]) (names ++ [k])).
  { apply Forall2_app; [eapply names_frame; [apply G3|done]|]. constructor; [by eapply name_frame; [apply G2|]|constructor]. }
  eapply fed_weaken; [|eapply (IH h2 K2 s2 (ks ++ [c]) (names ++ [k])); try done].
  - intros h3 s3 (K3 & gs & P3 & G4 & HK3 & Hgs & Hop3). exists K3, (c :: gs). rewrite <- app_assoc in HK3. split_and!; try done.
    + by eapply grown_trans.
    + constructor; [|done]. split_and!; [eapply group_frame; [apply G4|]; by eapply group_frame; [apply G2|]
        |eapply name_frame; [apply G4|]; by eapply name_frame; [apply G2|]|].
      eapply (rep_frame h2 h3 K2 K3 r p); try done; [apply P2|apply G4|apply G4|].
      assert (Hci : (ks ++ [c]) !! length ks = Some c) by (by apply list_lookup_middle).
      by destruct (t_kid _ _ _ (p_tree _ _ _ _ _ P2) p _ _ c HK2 Hci) as (Hlt & _).
  - eapply group_frame; [apply G3|done].
  - by rewrite <- app_assoc.
Qed.

Lemma item_names h cs items : Forall2 (item_at h) cs items -> Forall2 (name_at h) cs (List.map fst items).
Proof. intros Hi. induction Hi; cbn; constructor; [by apply item_name|done]. Qed.

Lemma tree_fills t : fills t.
Proof.
  induction t as [items groups IH] using conf_tree_induction. intros level h K s p (Hnd & Hi & Hgr)%valid_unfold P Hc Ht Hl Hk Hg. cbn [print].
  eapply fed_app.
  { eapply (items_fed items h K s p [] []); try done. by apply NoDup_app in Hnd as (? & _). }
  intros h1 s1 (-> & K1 & cs & P1 & HK1 & Hcs & G1). cbn [app] in HK1. eapply fed_weaken; [|eapply (groups_fed groups level h1 K1 s p cs (List.map fst items)); try done].
  - intros h2 s2 (K2 & gs & P2 & G2 & HK2 & Hgs & Hop). exists K2. split_and!; try done; [by eapply grown_trans|].
    apply rep_unfold. exists cs, gs. split_and!; try done. eapply Forall2_impl; [done|]. intros c i. apply item_frame. apply G2.
  - exists p. split_and!; [done|lia|]. replace (Z.to_nat _) with O by lia. done.
  - eapply group_frame; [apply G1|done].
  - by apply item_names.
Qed.

End Feed.

(** ** Lookup *)

(** The node that a lookup in the tree stands for. *)
Definition denotes (h : heap) (p : ptr) (r : option (option bytes)) : Prop :=
  match r, p with
  | None, None => True
  | Some None, Some c => exists n, nodes h !! c = Some n /\ value n = None
  | Some (Some v), Some c => exists k, item_at h c (k, v)
  | _, _ => False
  end.

Lemma find_name_spec {A} k (l : list (bytes * A)) : NoDup (List.map fst l) ->
  match find_name k l with
  | Some a => exists i, l !! i = Some (k, a)
  | None => k ∉ List.map fst l
  end.
Proof.
  intros Hnd. induction l as [|[k' a] l IH]; cbn; [apply not_elem_of_nil|]. unfold find_name in *. cbn [List.find fst].
  cbn in Hnd. apply NoDup_cons in Hnd as [Hk' Hnd]. destruct (bool_decide_reflect (k' = k)) as [->|Hne]; cbn; [by exists O|].
  specialize (IH Hnd). destruct (snd <$> List.find _ l) as [b|] eqn:E.
  - destruct IH as (i & Hi). by exists (S i).
  - apply not_elem_of_cons. split; [congruence|done].
Qed.

Lemma map_fst_lookup {A} (l : list (bytes * A)) i k a : l !! i = Some (k, a) -> List.map fst l !! i = Some k.
Proof. revert i. induction l as [|e l IH]; intros [|i] Hi; cbn in *; try done; [by injection Hi as ->|by apply IH]. Qed.

Lemma rep_names h K items groups cs gs : Forall2 (item_at h) cs items -> Forall2 (rep_group h K) gs groups ->
  Forall2 (name_at h) (cs ++ gs) (List.map fst items ++ List.map fst groups).
Proof.
  intros Hc Hg. apply Forall2_app; [by apply item_names|]. induction Hg as [|g k gs groups (_ & Hn & _) Hg IH]; cbn; constructor; done.
Qed.

Lemma lookup_none h parts : lookup_parts h None parts = Ok None.
Proof. by destruct parts. Qed.

Lemma lookup_rep h K r p t path : tree_ok h K r -> (exists n, nodes h !! p = Some n /\ type n = CONFIG_TYPE_GROUP /\ value n = None) ->
  rep h K p t -> valid t -> exists q, lookup_parts h (Some p) path = Ok q /\ denotes h q (tree_find t path).
Proof.
  intros T. revert p t. induction path as [|k path IH]; intros p [items groups] (n & Hn & Ht & Hv) Hrep Hvalid.
  { exists (Some p). split; [done|]. cbn. eauto. }
  apply rep_unfold in Hrep as (cs & gs & Hks & Hc & Hg). apply valid_unfold in Hvalid as (Hnd & _ & Hvg). pose proof Hnd as (Hndi & _ & Hndg)%NoDup_app.
  pose proof (rep_names h K items groups cs gs Hc Hg) as Hnames.
  cbn [lookup_parts]. rewrite (lookup_part_ok h K r p n (cs ++ gs) k T Hn Hks), Ht. cbn [mbind outcome_bind Z.eqb CONFIG_TYPE_ARRAY CONFIG_TYPE_GROUP Pos.eqb].
  cbn [tree_find]. pose proof (find_name_spec k items Hndi) as Hi. destruct (find_name k items) as [v|].
  - destruct Hi as (i & Hi). destruct (Forall2_lookup_r _ _ _ _ _ Hc Hi) as (c & Hci & Hat).
    rewrite (find_present h (cs ++ gs) _ k i c Hnames Hnd); [|rewrite lookup_app_l; [by eapply map_fst_lookup|]|by apply lookup_app_l_Some].
    2: { rewrite length_map. by eapply lookup_lt_Some. }
    destruct path as [|k2 path]; [exists (Some c); split; [done|]; cbn; eauto|]. cbn [lookup_parts].
    destruct Hat as (nc & Hnc & Htc & _). destruct (proj1 (t_dom _ _ _ T c)) as [ks' Hks']; [eauto|].
    rewrite (lookup_part_ok h K r c nc ks' k2 T Hnc Hks'), Htc. cbn. exists None. by rewrite lookup_none.
  - pose proof (find_name_spec k groups Hndg) as Hj. destruct (find_name k groups) as [t|].
    + destruct Hj as (j & Hj). destruct (Forall2_lookup_r _ _ _ _ _ Hg Hj) as (c & Hcj & (ng & Hng & Hgt & Hgv) & _ & Hrep).
      assert (Hlen : length cs = length items) by (by eapply Forall2_length).
      rewrite (find_present h (cs ++ gs) _ k (length cs + j) c Hnames Hnd).
      * apply (IH c t); [eauto|done|]. rewrite Forall_lookup in Hvg. exact (proj2 (Hvg j (k, t) Hj)).
      * rewrite lookup_app_r by (rewrite length_map; lia). rewrite length_map, Hlen. replace (length items + j - length items)%nat with j by lia.
        by eapply map_fst_lookup.
      * rewrite lookup_app_r by lia. by replace (length cs + j - length cs)%nat with j by lia.
    + rewrite (find_absent h (cs ++ gs) _ k Hnames) by (rewrite elem_of_app; tauto). exists None. by rewrite lookup_none.
Qed.
