(* ===== verification/NewConfigProps.v ===== *)
(** * Configuration files, from the text to the options

    The theorems on the configuration library: no file makes it fail or leak, and
    what is looked up in a file is what was written to it.  The loader of
    util/config_file.cpp, which walks over the nodes at the top of the file, is
    the loop of Config on the items that were written. *)

From S2P Require Import Prelude Utils Sds SdsText Config NewLexer NewLexerFacts NewConfig NewConfigFacts NewConfigParse NewConfigTree.

(** ** Reading *)

(** The heap before anything was read; [first] is the next address. *)
Definition empty_heap (first : nat) : heap := mkHeap (∅ : gmap nat config_node_t) first.

Section Reading.
Context `{Allocator} `{ConfigSys}.

Lemma config_lookup_total h K r c path : tree_ok h K r -> (forall z, alloc_ok z = true) -> root c = Some r \/ root c = None ->
  exists res, config_lookup_string h c path = Ok res.
Proof.
  intros T Hmem Hr. unfold config_lookup_string, config_lookup. rewrite Hmem.
  destruct (lookup_parts_ok h K r (root c) (strtok path []) T) as (q & -> & Hq).
  { destruct Hr as [-> | ->]; [|done]. destruct (t_root _ _ _ T) as (n & Hn & _). cbn. eauto. }
  cbn [mbind outcome_bind]. destruct q as [a|]; [|eauto]. destruct Hq as [n Hn]. unfold config_node_value, get. rewrite Hn. cbn. eauto.
Qed.

(** C18: For every content of a file, also one that is no configuration, and
    whichever allocations of nodes fail: reading it returns, with a tree or with
    an error and no node left; every path can be looked up; and destroying the
    configuration frees every node once. *)
Theorem config_session_safe (name : bytes) (file : bytes + Z) (first : nat)
    (Hmem : forall z, alloc_ok z = true)
    (Hlen : match file with inl input => Z.of_nat (length input) < 2 ^ 31 - 2 | inr _ => True end) :
  exists c h1 c1 ret h2, config_init = Ok c /\ config_read_file (empty_heap first) c name file = Ok (h1, c1, ret) /\
    ((ret = 0 /\ root c1 <> None) \/ (ret = -1 /\ root c1 = None /\ nodes h1 = ∅)) /\
    (forall path, exists res, config_lookup_string h1 c1 path = Ok res) /\
    config_destroy h1 c1 = Ok h2 /\ nodes h2 = ∅.
Proof.
  unfold config_init. rewrite Hmem. exists (mkConfig None None).
  destruct (config_parse_file_ok (empty_heap first) name file eq_refl Hmem Hlen) as (h1 & p & msg & E & Hp).
  assert (Er : config_read_file (empty_heap first) (mkConfig None None) name file =
    match p with Some _ => Ok (h1, mkConfig p None, 0) | None => Ok (h1, mkConfig None msg, -1) end).
  { unfold config_read_file. cbn [root mbind outcome_bind]. by rewrite E. }
  rewrite Er. destruct p as [r|].
  - destruct Hp as (K & T). exists h1, (mkConfig (Some r) None), 0, (mkHeap ∅ (next h1)). split_and!; try done; [by left| |].
    + intros path. eapply config_lookup_total; [done|done|by left].
    + by apply (config_node_destroy_ok h1 K r).
  - exists h1, (mkConfig None msg), (-1), h1. split_and!; try done; [by right|].
    intros path. exists (-1, None). unfold config_lookup_string, config_lookup. rewrite Hmem. cbn [root]. by rewrite lookup_none.
Qed.

(** What config_lookup_string gives for what a path leads to. *)
Definition lookup_answer (r : option (option bytes)) : Z * option bytes :=
  match r with
  | None => (-1, None)
  | Some None => (0, None)
  | Some (Some v) => (0, Some (v ++ [0]))
  end.

(** Reading a printed tree gives nodes that represent it. *)
Lemma read_printed name t first : (forall z, alloc_ok z = true) -> (forall n, calloc_ok n = true) -> lexer_init_error = None ->
  valid t -> Z.of_nat (length (print 0 t)) < 2 ^ 31 - 2 ->
  exists h K, config_read_file (empty_heap first) (mkConfig None None) name (inl (print 0 t)) = Ok (h, mkConfig (Some first) None, 0) /\
    tree_ok h K first /\ rep h K first t /\ exists n, nodes h !! first = Some n /\ type n = CONFIG_TYPE_GROUP /\ value n = None.
Proof.
  intros Hmem Hnodes Hlex Hv Hlen. set (bound := Z.of_nat (length (print 0 t)) + 1).
  assert (Hb : 0 <= bound < 2 ^ 31) by (unfold bound; lia).
  set (h0 := mkHeap {[first := root_node]} (S first)). set (s0 := mkPState (Some first) (Some first) (-1) (-1)).
  pose proof (root_parsing bound first (proj1 Hb)) as P0. fold h0 s0 in P0.
  assert (Hroot : nodes h0 !! first = Some root_node) by apply lookup_singleton_eq.
  destruct (tree_fills bound first name Hmem Hnodes t 0%nat h0 {[first := []]} s0 first Hv P0 eq_refl eq_refl eq_refl) with
    (x := lexer_init no_output) (rest := @nil Z) as (x' & h' & s' & Hx' & (K' & P' & [F _] & R' & _) & E).
  - apply lookup_singleton_eq.
  - by exists root_node.
  - split; [|done]. apply lexer_init_ok. rewrite app_nil_r. lia.
  - unfold config_read_file. cbn [root mbind outcome_bind]. rewrite parse_start by done. cbv zeta. rewrite Hlex. change (next (empty_heap first)) with first.
    fold h0 s0. unfold feed in E. rewrite app_nil_r in E. rewrite E. cbn [tokens_loop]. unfold lexer_next. cbn [yylex length mbind outcome_bind Z.eqb].
    exists h', K'. split_and!; [done|apply P'|done|]. destruct (F first root_node Hroot) as (n & Hn & Kn). exists n.
    by rewrite (k_type _ _ Kn), (k_value _ _ Kn).
Qed.

(** C17: What is looked up in a configuration file is what was written to it.
    For a tree of groups and items whose names are identifiers, different ones
    within a group, and whose values are non-empty and of any bytes, reading its
    text (of less than 2^31 - 2 bytes, while allocations succeed) succeeds, and
    looking up a path gives the value of the item that the path names, a null
    value for a group, and -1 for any other path.  The empty value is excluded
    because the lexer has no token for two quotes with nothing between them. *)
Theorem config_lookup_printed (name : bytes) (t : conf_tree) (first : nat) (path : bytes)
    (Hmem : forall z, alloc_ok z = true) (Hnodes : forall n, calloc_ok n = true) (Hlex : lexer_init_error = None)
    (Hv : valid t) (Hlen : Z.of_nat (length (print 0 t)) < 2 ^ 31 - 2) :
  exists h c, config_read_file (empty_heap first) (mkConfig None None) name (inl (print 0 t)) = Ok (h, c, 0) /\
    config_lookup_string h c path = Ok (lookup_answer (tree_find t (strtok path []))).
Proof.
  destruct (read_printed name t first Hmem Hnodes Hlex Hv Hlen) as (h & K & E & T & R & Hn). exists h, (mkConfig (Some first) None).
  split; [done|]. unfold config_lookup_string, config_lookup. rewrite Hmem. cbn [root].
  destruct (lookup_rep h K first first t (strtok path []) T Hn R Hv) as (q & -> & Hd). cbn [mbind outcome_bind].
  destruct (tree_find t (strtok path [])) as [[v|]|]; destruct q as [a|]; try done; cbn in Hd |- *; unfold config_node_value, get.
  - destruct Hd as (k & n & Hn' & _ & Hk & Hl & Hval). rewrite Hn'. cbn [mbind outcome_bind]. rewrite Hval, Hk. cbn [fst snd].
    replace (Z.to_nat (Z.of_nat (length k) + 1)) with (length (k ++ [0])) by (rewrite length_app; cbn; lia).
    by rewrite app_assoc, drop_app_length.
  - destruct Hd as (n & Hn' & Hval). rewrite Hn'. cbn [mbind outcome_bind]. by rewrite Hval.
Qed.

End Reading.

(** ** Loading *)

Module Load.
Section Load.
Context `{Allocator} `{ConfigSys}.

(** The key and the value that parse_conf reads. *)
Definition node_view (h : heap) (node : ptr) : outcome config_node :=
  k ← config_node_key h node;
  v ← config_node_value h node;
  Ok (mkNode k v).

(** [while ((node = config_next(node)) != NULL)]. *)
Fixpoint next_nodes (fuel : nat) (h : heap) (node : ptr) (cmd_table : list command_t) (c : conf) : outcome (Z * conf) :=
  nx ← config_next h node;
  match nx with
  | None => Ok (CONFIG_OK, c)
  | Some _ =>
      match fuel with
      | O => Trap OutOfFuel
      | S fuel =>
          v ← node_view h nx;
          r ← parse_conf v cmd_table c;
          let '(code, c, _) := r in
          if negb (code =? CONFIG_OK) then Ok (CONFIG_ERROR, c) else next_nodes fuel h nx cmd_table c
      end
  end.

(** The return value, the structure and the heap. *)
Definition load_conf_file (h : heap) (filename : bytes) (file : bytes + Z) (cmd_table : list command_t) (c : conf)
  : outcome (Z * conf * heap) :=
  cf ← config_init;
  r ← config_read_file h cf filename file;
  let '(h, cf, ret) := r : heap * config_t * Z in
  if negb (ret =? 0) then Ok (CONFIG_ERROR, c, h) else
  match root cf with
  | None => Ok (CONFIG_ERROR, c, h)
  | Some _ =>
      node ← config_node_first_child h (root cf);
      match node : ptr with
      | None => Ok (CONFIG_ERROR, c, h)
      | Some _ =>
          v ← node_view h node;
          r ← parse_conf v cmd_table c;
          let '(code, c, _) := r in
          if negb (code =? CONFIG_OK) then Ok (CONFIG_ERROR, c, h) else
          r ← next_nodes (size (nodes h)) h node cmd_table c;
          let '(code, c) := r in
          if negb (code =? CONFIG_OK) then Ok (CONFIG_ERROR, c, h) else
          h ← config_destroy h cf;
          Ok (CONFIG_OK, c, h)
      end
  end.

End Load.
End Load.

Section Loading.
Context `{Allocator} `{ConfigSys}.

(** The node of an item. *)
Definition item_node (i : bytes * bytes) : config_node := mkNode (Some (fst i ++ [0] ++ snd i ++ [0])) (Some (snd i ++ [0])).

Lemma item_view h c i : item_at h c i -> Load.node_view h (Some c) = Ok (item_node i).
Proof.
  intros (n & Hn & _ & Hk & Hl & Hval). unfold Load.node_view, config_node_key, config_node_value, get. rewrite Hn. cbn [mbind outcome_bind].
  rewrite Hval, Hk. unfold item_node. cbn [mbind outcome_bind]. replace (Z.to_nat (Z.of_nat (length (fst i)) + 1)) with (length (fst i ++ [0]))
    by (rewrite length_app; cbn; lia). by rewrite (app_assoc (fst i)), drop_app_length.
Qed.

Lemma next_nodes_ok h K r p ks items i c fuel table cf : tree_ok h K r -> K !! p = Some ks -> Forall2 (item_at h) ks items ->
  ks !! i = Some c -> (length ks <= S i + fuel)%nat ->
  Load.next_nodes fuel h (Some c) table cf = load_nodes (item_node <$> drop (S i) items) table cf.
Proof.
  intros T Hks Hit. revert i c cf. induction fuel as [|fuel IH]; intros i c cf Hc Hf; destruct (t_kid _ _ _ T p ks i c Hks Hc) as (_ & n & Hn & _ & Hx & _);
    cbn [Load.next_nodes]; unfold config_next, get; rewrite Hn; cbn [mbind outcome_bind]; rewrite Hx.
  - rewrite lookup_ge_None_2 by lia. rewrite drop_ge by (rewrite <- (Forall2_length _ _ _ Hit); lia). done.
  - destruct (ks !! S i) as [d|] eqn:Hd.
    + destruct (Forall2_lookup_l _ _ _ _ _ Hit Hd) as (it & Hi & Hat). rewrite (item_view h d it Hat). cbn [mbind outcome_bind].
      rewrite (drop_S _ _ _ Hi). cbn [fmap list_fmap load_nodes]. destruct (parse_conf (item_node it) table cf) as [[[code cf'] fr]|]; cbn [mbind outcome_bind]; [|done].
      destruct (negb (code =? CONFIG_OK)); [done|]. apply IH; [done|lia].
    + apply lookup_ge_None_1 in Hd. rewrite drop_ge by (rewrite <- (Forall2_length _ _ _ Hit); lia). done.
Qed.

Lemma load_nodes_code l table c code c' : load_nodes l table c = Ok (code, c') -> code = CONFIG_OK \/ code = CONFIG_ERROR.
Proof.
  revert c. induction l as [|x l IH]; intros c; cbn [load_nodes]; [intros [= <- _]; by left|].
  destruct (parse_conf x table c) as [[[k c1] fr]|]; cbn [mbind outcome_bind]; [|done].
  destruct (negb (k =? CONFIG_OK)); [intros [= <- _]; by right|apply IH].
Qed.

(** C19: Loading a file of items, as text, does what the loop over these items does
    (their names being different identifiers and their values not empty):
    it has the same result and sets the same options, or stops with the same
    error at the same item; when all items are accepted the whole file is freed. *)
Theorem load_printed_items (name : bytes) (items : list (bytes * bytes)) (first : nat) (table : list command_t) (c : conf)
    (Hmem : forall z, alloc_ok z = true) (Hnodes : forall n, calloc_ok n = true) (Hlex : lexer_init_error = None)
    (Hv : valid (Tree items [])) (Hlen : Z.of_nat (length (print 0 (Tree items []))) < 2 ^ 31 - 2) :
  match load_conf_file (Nodes (item_node <$> items)) table c with
  | Ok (code, c') => exists h, Load.load_conf_file (empty_heap first) name (inl (print 0 (Tree items []))) table c = Ok (code, c', h) /\
      (code = CONFIG_OK -> nodes h = ∅)
  | Trap t => Load.load_conf_file (empty_heap first) name (inl (print 0 (Tree items []))) table c = Trap t
  end.
Proof.
  destruct (read_printed name (Tree items []) first Hmem Hnodes Hlex Hv Hlen) as (h & K & E & T & R & n & Hn & Ht & _).
  apply rep_unfold in R as (cs & gs & Hks & Hcs & Hgs). inversion Hgs; subst gs. rewrite app_nil_r in Hks.
  assert (Hhead : config_node_first_child h (Some first) = Ok (head cs)).
  { unfold config_node_first_child, get. rewrite Hn. cbn. by destruct (t_ends _ _ _ T first n cs Hn Hks) as [-> _]. }
  unfold Load.load_conf_file. unfold config_init. rewrite Hmem. cbn [mbind outcome_bind]. rewrite E. cbn [mbind outcome_bind negb Z.eqb root].
  rewrite Hhead. cbn [mbind outcome_bind]. destruct Hcs as [|d it cs items Hd Hcs]; cbn [hd_error]; [by exists h|].
  rewrite (item_view h d it Hd). cbn [mbind outcome_bind fmap list_fmap load_conf_file load_nodes].
  destruct (parse_conf (item_node it) table c) as [[[code c'] fr]|]; cbn [mbind outcome_bind]; [|done].
  destruct (negb (code =? CONFIG_OK)); [by exists h|].
  assert (Hnx : Load.next_nodes (size (nodes h)) h (Some d) table c' = load_nodes (item_node <$> items) table c').
  { apply (next_nodes_ok h K first first (d :: cs) (it :: items) 0 d); [done|done|by constructor|done|].
    pose proof (kids_size h K first first _ T Hks). lia. }
  rewrite Hnx. destruct (load_nodes _ table c') as [[code2 c2]|] eqn:El; cbn [mbind outcome_bind]; [|done].
  apply load_nodes_code in El. destruct (negb (code2 =? CONFIG_OK)) eqn:Ec.
  - exists h. destruct El as [-> | ->]; [done|]. by split.
  - unfold config_destroy. cbn [root]. rewrite (config_node_destroy_ok h K first T). cbn [mbind outcome_bind]. eexists.
    apply negb_false_iff, Z.eqb_eq in Ec as ->. by split.
Qed.

End Loading.

(** ** Instances *)

Definition plain_sys : ConfigSys := {| calloc_ok := fun _ => true; lexer_init_error := None; strerror := fun _ => str "error" |}.
(** Memory for three nodes only. *)
Definition small_sys : ConfigSys := {| calloc_ok := fun n => (n <? 3)%nat; lexer_init_error := None; strerror := fun _ => str "error" |}.

Definition line (s : String.string) : bytes := str s ++ [10].

Lemma config_session_safe_witness :
  exists c h1 c1 ret h2, @config_init total_alloc = Ok c /\
    @config_read_file total_alloc small_sys (empty_heap 0) c (str "f") (inl (line "a: 1" ++ line "[g]" ++ line "b: 2")) = Ok (h1, c1, ret) /\
    ((ret = 0 /\ root c1 <> None) \/ (ret = -1 /\ root c1 = None /\ nodes h1 = ∅)) /\
    (forall path, exists res, @config_lookup_string total_alloc h1 c1 path = Ok res) /\
    config_destroy h1 c1 = Ok h2 /\ nodes h2 = ∅.
Proof.
  exact (@config_session_safe total_alloc small_sys (str "f") (inl (line "a: 1" ++ line "[g]" ++ line "b: 2")) 0 (fun _ => eq_refl) eq_refl).
Defined.

Definition sample_tree : conf_tree :=
  Tree [(str "port", str "80")] [(str "db", Tree [(str "user", [34; 92; 10; 0])] [(str "pool", Tree [(str "size", str "4 # 5")] [])])].

Lemma sample_valid : valid sample_tree.
Proof. repeat split; try (by repeat constructor; vm_compute); try decide_vm. Qed.

Lemma config_lookup_printed_witness :
  exists h c, @config_read_file total_alloc plain_sys (empty_heap 0) (mkConfig None None) (str "f") (inl (print 0 sample_tree)) = Ok (h, c, 0) /\
    @config_lookup_string total_alloc h c (str "/db/user") = Ok (0, Some [34; 92; 10; 0; 0]).
Proof.
  exact (@config_lookup_printed total_alloc plain_sys (str "f") sample_tree 0 (str "/db/user") (fun _ => eq_refl) (fun _ => eq_refl) eq_refl
    sample_valid eq_refl).
Defined.

Definition sample_items : list (bytes * bytes) := [(str "worker_num", str "4"); (str "tick", str "50"); (str "bind_cpu", str "yes")].

Lemma items_valid : valid (Tree sample_items []).
Proof. repeat split; try (by repeat constructor; vm_compute); try decide_vm. Qed.

Lemma load_printed_items_witness :
  match @load_conf_file total_alloc (Nodes (item_node <$> sample_items)) server_cmd_table init_conf with
  | Ok (code, c') => exists h, @Load.load_conf_file total_alloc plain_sys (empty_heap 0) (str "f") (inl (print 0 (Tree sample_items []))) server_cmd_table
      init_conf = Ok (code, c', h) /\ (code = CONFIG_OK -> nodes h = ∅)
  | Trap t => @Load.load_conf_file total_alloc plain_sys (empty_heap 0) (str "f") (inl (print 0 (Tree sample_items []))) server_cmd_table init_conf = Trap t
  end.
Proof.
  exact (@load_printed_items total_alloc plain_sys (str "f") sample_items 0 server_cmd_table init_conf (fun _ => eq_refl) (fun _ => eq_refl) eq_refl
    items_valid eq_refl).
Defined.

(** The options that such a file sets. *)
Example load_sets_options :
  (r ← @Load.load_conf_file total_alloc plain_sys (empty_heap 0) (str "f")
     (inl (line "# sample" ++ line "worker_num: 4" ++ line "tick : 50 # us" ++ [10] ++ line "bind_cpu: no")) server_cmd_table init_conf;
   let '(code, c, h) := r in o ← read_options c; Ok (code, opt_worker_num o, opt_tick o, opt_bind_cpu o, size (nodes h))) =
  Ok (CONFIG_OK, 4, 50, 0, 0%nat).
Proof. vm_compute. reflexivity. Qed.

(** A group makes the whole file an error, and the tree is not freed. *)
Example load_group_leaks :
  (r ← @Load.load_conf_file total_alloc plain_sys (empty_heap 0) (str "f") (inl (line "worker_num: 4" ++ line "[g]")) server_cmd_table init_conf;
   let '(code, c, h) := r in Ok (code, size (nodes h))) = Ok (CONFIG_ERROR, 3%nat).
Proof. vm_compute. reflexivity. Qed.

(** ** Defects *)

Definition read_and_lookup (text path : bytes) : outcome (Z * option bytes) :=
  r ← @config_read_file total_alloc plain_sys (empty_heap 0) (mkConfig None None) (str "f") (inl text);
  let '(h, c, ret) := r : heap * config_t * Z in
  if ret =? 0 then @config_lookup_string total_alloc h c path else Ok (ret, errmsg c).

(** Items after a group that is opened again go into the group around it. *)
Example config_reopened_group :
  let text := line "[a]" ++ line "x: 1" ++ line "[b]" ++ line "[a]" ++ line "y: 2" in
  read_and_lookup text (str "a/y") = Ok (-1, None) /\ read_and_lookup text (str "y") = Ok (0, Some (str "2" ++ [0])).
Proof. by vm_compute. Qed.

(** An array of groups named like an item is put under the item, and so are the
    groups after it. *)
Example config_array_under_item :
  let text := line "k: v" ++ line "[@k]" ++ line "[b]" ++ line "x: 1" in
  read_and_lookup text (str "b/x") = Ok (-1, None).
Proof. by vm_compute. Qed.

(** An empty quoted value is a syntax error. *)
Example config_empty_quotes :
  let quotes := [34; 34] in
  read_and_lookup (str "k: " ++ quotes ++ [10]) (str "k") = Ok (-1, Some (str "Error in file f:1, syntax error" ++ [0])).
Proof. by vm_compute. Qed.

(** A comment in place of a value drops the item. *)
Example config_comment_drops_item :
  read_and_lookup (line "k: # none") (str "k") = Ok (-1, None) /\ read_and_lookup (line "k:") (str "k") = Ok (0, Some [0]).
Proof. by vm_compute. Qed.

(** The last digit of an octal escape is ignored, and a first digit 3 is taken
    for a character. *)
Example octal_escape_wrong :
  parse_quote (str "\101\102" ++ [0]) 8 = Ok ([65; 65; 0; 49; 92; 49; 48; 50; 0], 2) /\
  snd <$> parse_quote (str "\377" ++ [0]) 4 = Ok 3.
Proof. by vm_compute. Qed.

(** After a second file that cannot be read the configuration refers to the tree
    that was freed before. *)
Example config_reread_dangles :
  (r ← @config_read_file total_alloc plain_sys (empty_heap 0) (mkConfig None None) (str "f") (inl (line "a: 1"));
   let '(h, c, _) := r : heap * config_t * Z in
   r ← @config_read_file total_alloc plain_sys h c (str "g") (inr 2);
   let '(h, c, _) := r : heap * config_t * Z in
   config_destroy h c) = Trap UseAfterFree.
Proof. by vm_compute. Qed.

(** The truth value of a group reads a null value. *)
Example config_bool_of_group :
  (r ← @config_read_file total_alloc plain_sys (empty_heap 0) (mkConfig None None) (str "f") (inl (line "[g]"));
   let '(h, c, _) := r : heap * config_t * Z in
   @config_lookup_bool total_alloc h c (str "g")) = Trap NullDeref.
Proof. by vm_compute. Qed.
